(* ===== verification/_CoqProject ===== *)
-Q . S2P
Prelude.v
L4Types.v
RamQuota.v
MappingTree.v
Mapdb.v
PrioList.v
Timeouts.v
ReadyQueue.v
Buddy.v
Bitmap.v
Rcu.v
RcuInv.v
RcuSafety.v
SlabCache.v
Outcome.v
Ptab.v
PtabInv.v
PtabMap.v
PtabWalk.v
PtabFree.v
MemSpace.v
PtabSpec.v
PtabIter.v
ArmPte.v
MapUtil.v
ObjSpace.v
ObjSpaceInv.v
ObjUnmap.v
ObjMap.v
ObjSpec.v
IpcMsg.v
IpcMsgSpec.v
Ipc.v
IpcInv.v
IpcSteps.v
IpcSpec.v
Asid.v
AsidInv.v
AsidSteps.v
AsidSpec.v
Irq.v
Semaphore.v
SemaphoreSpec.v
IrqSpec.v
SwitchLock.v
SwitchLockInv.v
SwitchLockSteps.v
SwitchLockSpec.v
GccLib.v
Gate.v
GateInv.v
GateWait.v
GateMem.v
GateSpec.v
CpuCall.v
CpuCallInv.v
CpuCallSpec.v
Wfq.v
WfqSpec.v
