(* ===== verification/Prelude.v ===== *)
(** * A verification of the core of the Fiasco.OC microkernel

    Fiasco is an L4 microkernel written in C++ ([src/src]): [kern] holds the
    kernel objects and their services, [abi] the words of the binary interface,
    [lib/libk] generic containers and allocators.  The parts that decide about
    memory, rights, time and processor belong together as follows.  A system
    call carries words of the [abi] (message tags, flex pages, timeouts) and is
    an IPC: the handshake of two threads, which wait for each other in
    priority-sorted queues and, with a timeout, in timeout queues, and the
    transfer of a message between their UTCBs.  Items of a message that are flex
    pages become map operations, which look up, insert and remove entries of
    page tables (memory) or capability tables (objects) and keep the mapping
    database of the kind of space up to date; the one of memory is a hierarchy
    of treemaps whose frames hold mapping trees.  Nodes, tables and objects are
    charged to the kernel-memory quota of their task and come from slab caches,
    and these from the buddy allocator.  Interrupt objects and semaphores are
    the senders and queues that hardware interrupts reach; IPC gates are the
    capabilities through which clients reach a server.  Threads that can run
    are in the ready queue of their CPU; address spaces get identifiers that
    tag their TLB entries, which are flushed by requests to
    other CPUs; RCU delays the release of memory that other CPUs may
    still read.

    ** Files

    - [Prelude]: machine words (32 and 64 bits, class [Arch]), their wrap-around
      arithmetic, bit-level automation, and lemmas on lists.
    - [L4Types]: [abi/l4_types.h], [l4_fpage.h], [l4_msg_item.h], [l4_buf_desc.h],
      [l4_error.h], [lib/libk/cxx/bitfield] and the item iterators of
      [kern/l4_buf_iter.h].  One Module per class; an object is its raw word.
    - [RamQuota]: [kern/ram_quota.h], [ram_quota.cc], [auto_quota.h].  The
      operations as functions, and a step relation in which each atomic access
      of any number of concurrent operations is one step.
    - [MappingTree]: [kern/mapping.h], [mapping_tree.h], [mapping_tree.cc].  A
      mapping tree is the list of nodes in pre-order, as in the code; what it
      needs of its surroundings are the classes [Mapping_alloc], [Space_quota]
      and [Submap_ops], and its theorems are proved against these classes.
    - [Mapdb]: [kern/mapdb.h], [mapdb.cc], [mapdb_types.h].  Treemaps in a heap
      with frame locks; the instances of the classes above.
    - [PrioList]: [kern/prio_list.h] with the rings of [lib/libk/cxx/dlist].
    - [Timeouts]: [kern/timeout.h].
    - [ReadyQueue]: [kern/ready_queue_fp.h], [sched_context_fp.h].
    - [Wfq], [WfqSpec]: [kern/ready_queue_wfq.h], [sched_context_wfq.h] and the
      operations of [sched_context.h] and [sched_context.cc] on this queue.
    - [Buddy]: [kern/buddy_alloc.h].
    - [Bitmap]: [lib/libk/bitmap.h] and [kern/cpu_mask.h]; the class [Bit_set] is
      what users of a bitmap rely on.
    - [Rcu], [RcuInv], [RcuSafety]: [kern/rcupdate.h] and [rcupdate.cc]: the model
      with its interleaved steps, the invariant, the theorems.
    - [SlabCache]: [lib/libk/slab_cache.h] and [slab_cache.cc], with the sections
      under the lock interleaved.
    - [Outcome]: results of code that can fault, and its monad.
    - [Ptab]: [kern/ptab_base.h] and [ptab_base-recursive.h], tables of entries in
      a memory; [PtabInv] says when they form a tree; [PtabMap], [PtabWalk] and
      [PtabFree] treat mapping, walking with allocation, and the release of
      tables; [PtabIter] is [ptab_base-iterative.h].
    - [MemSpace]: page-table entries and address spaces of IA-32 and AMD64
      ([kern/ia32/paging-ptab.h], [mem_space-ia32.cc], ...); [PtabSpec] has the
      theorems on hierarchies and runs them on AMD64 tables.
    - [ArmPte]: the page-table entries of ARM ([kern/arm/paging-ptab.h], ...).
    - [MapUtil]: the templates of [kern/map_util_helper.h] for every kind of space,
      against the classes [SPACE] and [MAPDB] of what they need of a space and of
      its mapping database.
    - [ObjSpace]: [kern/obj_space_phys_util.h], [obj_space_types.h],
      [kobject_mapdb.h], [map_util_objs.cc]: capability tables, mappings of
      objects, the instances of these classes; [ObjSpaceInv], [ObjUnmap], [ObjMap] and
      [ObjSpec] have the invariant, the two operations and the theorems.
    - [IpcMsg], [IpcMsgSpec]: the transfer of messages of [kern/thread_ipc.h].
    - [Ipc], [IpcInv], [IpcSteps], [IpcSpec]: the handshake of [thread_ipc.h],
      [receiver.h] and [sender.h] as steps of all threads of a CPU.
    - [Asid], [AsidInv], [AsidSteps], [AsidSpec]: [kern/asid_alloc.h], its atomic
      accesses interleaved on all CPUs, with the TLBs.
    - [Irq], [IrqSpec]: [kern/irq.h], [irq.cc] and [Irq_base] of [irq_chip.h].
    - [Semaphore], [SemaphoreSpec]: [kern/semaphore.cc], its critical sections
      interleaved on all CPUs.
    - [SwitchLock], [SwitchLockInv], [SwitchLockSteps], [SwitchLockSpec]:
      [kern/switch_lock.h], the word of [context_mp.h] that says who runs a context,
      and the parts of [context.cc] that choose whom to run, every access to a
      shared word a step of some CPU.
    - [Gate]: [kern/ipc_gate.h] and [ipc_gate.cc], invoked, bound and deleted by
      contexts on all CPUs; [GateInv], [GateWait] and [GateMem] are the parts of
      its invariant (control, waiting senders, memory), [GateSpec] the theorems.
    - [CpuCall], [CpuCallInv], [CpuCallSpec]: [kern/cpu_call.h] with [queue.h], the
      requests between CPUs, every access to a request or a queue a step.
    - [GccLib]: [lib/libk/gcc_lib.c].

    ** What the theorems show

    - Interface words: constructors and accessors are inverse, no bit of a flex
      page is lost, rights can only shrink by masking, the item iterators stay
      within the UTCB and terminate, [L4_cpu_set::first] is the least member.
    - Quotas: under every interleaving the sum charged is the sum held and does
      not exceed the limit, and the quota object is deleted only when it is dying
      and nothing is charged; a scoped charge is undone unless released.
    - Mapping trees: allocate, flush and grant on the pre-order list refine the
      operations on an abstract forest ([Mapping_tree]'s specification), with the
      quota that they charge and return.
    - Mapping database: a lookup terminates and holds exactly the lock of the
      frame it returns; scenarios of three page sizes run the complete database,
      among them two in which memory is leaked or a quota underflows.
    - Wait queues: the reachable queues are served by priority and first come,
      first served; removal moves a cursor on to the next in the order of service.
    - Timeouts: the handler expires exactly what is due in the lists of the slots
      passed, which is all that is due unless a timeout was queued when its slot had
      passed already; [set_again] does so after a migration, and a run in which the
      timeout is missed is exhibited.  The timer is never programmed too late.
    - Ready queue: the context chosen has the highest priority of all that are
      ready; time-slice expiry rotates a ring.
    - Weighted fair queueing: the heap stays in agreement with the links of its
      members whatever operations run, and the context chosen has the earliest
      deadline, as long as removals leave the last context only where it fits and
      deadlines of members do not grow in place or overflow ([WfqSpec.orderly]); a
      removal and a replenishment that the code performs and that break the order
      are exhibited.
    - Buddy allocator: blocks in use are disjoint, aligned and in range, no memory
      is lost, and allocation fails only when no block is free.
    - Bitmaps implement sets of numbers, for every sequence of operations.
    - RCU: callbacks run only after a grace period, whatever the interleaving, and
      no grace period is forgotten; an assertion that can fail is exhibited.
    - Slab caches: objects in use are disjoint and within their slabs, no assertion
      fails, quotas are charged exactly; a counter that [reap] leaves wrong is
      exhibited.
    - Page tables: mapping, unmapping, walking and destroying keep the tables a
      tree, change the translation of exactly the range, allocate and free every
      table once and end; the iterative form maps as the recursive one does.  The
      theorems carry the conditions under which this holds; ranges that violate
      them are exhibited with the wrong translation they give.
    - Memory spaces: insertion and deletion of a page refine a partial function
      from addresses to frames and rights; ARM entries give back what they encode,
      those of ARMv5 what they can hold of it.
    - Object mapping: unmap, and map between two spaces, end without a fault, keep
      the capabilities, the lists of mappings and the reference counts consistent,
      give no rights that the sender has not, and deliver every capability that can
      be sent, as long as no counted capability without delete right is mapped over
      by one to the same object ([ObjMap.pair_safe]); a capability to an object that
      is queued for deletion, and a fault of a space that grants to itself, are
      exhibited.
    - Messages: whatever other threads write to the UTCBs meanwhile, a transfer
      writes only registers of the receiver and asks only for map operations that
      sender and receiver have agreed to; without interference it delivers the
      words, and each item by the name or the map operation that the receiver's
      buffer and the object call for.
    - IPC handshake: what an IPC reports is what happened to its message, and no
      wake-up is lost.  The steps are restricted by [IpcSteps.orderly] (no thread
      runs with a pending timeout or cancellation while another transfers a message
      to it); a run outside of it in which the receiver leaves is exhibited, and one
      within it in which a sender that was cut short hangs; and every call that is
      cut short after its message was taken is shown to return without a reply.
    - Identifiers of address spaces: a CPU finds only its own entries in the TLB, as
      long as no roll-over takes over the active word of a CPU that has exchanged
      it in vain and generations do not wrap ([AsidInv.orderly]); without the
      restriction a stale entry is exhibited.
    - Interrupts: a pending interrupt reaches its handler, as long as no handler is
      detached with one pending ([IrqSpec.orderly]); after such a detachment the
      object is proved deaf for ever.
    - Semaphores: what [sys_down] reports is what happened to the units, as long as
      nobody leaves it while being woken up ([SemaphoreSpec.orderly]); a success
      without a unit is exhibited outside of it.
    - Locks with helping: a context runs on one CPU at a time, a lock has one
      holder, nobody owns a lock that [wait_free] has returned for, and a CPU that
      finds a lock owned by a context that nobody runs comes to run it.  Contexts
      block only without such locks, and all CPUs are online.
    - IPC gates: no sender is left asleep at a gate that is bound or deleted, and
      reference counters are exact and no freed memory is used, as long as
      [GateInv.orderly] holds; four runs outside of it, in which a sender sleeps
      for ever or freed memory is used, and one within it that mixes two binds,
      are exhibited.
    - Requests between CPUs: a synchronous [cpu_call_many] returns when its function
      has run once on every CPU of the set that is online, with no request left
      anywhere, and no call is stuck, as long as no CPU takes up a request while it
      goes offline and its caller has just found it so ([CpuCallSpec.orderly]); the
      race, and an asynchronous call that returns too early, are exhibited.
    - Arithmetic of the compiler: division, shifts and bit counts equal what they
      compute, for all operands.

    ** Bounds and fuel

    Functions that recurse over the levels of the mapping database take the number
    of levels as fuel; one more than the number of page sizes is enough, because
    each level has smaller pages.  The merge loop of the buddy allocator and its
    search for a size take the number of sizes, the loop of the timeout handler the
    number of lists (8), the loops of the heap of deadlines
    more turns than a path of its 1024 slots has, [L4_cpu_set::first] the number of CPUs.  The loops over the
    entries of a page table take the number of its entries, and fail explicitly
    when it is not enough; the loop over the pages of a map operation takes the
    number of pages plus one, the one of unmap the number of slots.  [check_send]
    and [try_receive] of the IPC run at most twice, the search for an identifier
    ends at their number, the loops of a division take the width of the type.  The
    theorems include that these loops end within the fuel.  Loops over a list, and over the items of a message, are structural
    recursions.  Loops that wait are steps of a machine.

    ** Not modelled

    Entry code, context switching, FPU state, TLB maintenance, interrupt
    controllers and other code of the machines; the debugger; boot and drivers.
    Of IPC: vCPU mode, wait queues as endpoints, partners on other CPUs, the
    deletion of threads, and messages copied from or to trap states.  Of IPC gates:
    receiving through a gate, the factory.  Of object spaces: the tables in virtual
    memory.  Of interrupts: the chips, the managers of interrupt numbers and requests
    to other CPUs.  Of locks: [try_lock], the wrapper for the boot phase, the variant
    for one processor, spin locks, and CPUs that go offline.  Operations that run
    under a lock are single steps, except where a file says that its accesses or
    critical sections are interleaved; accesses are sequentially consistent.  The
    addresses of list nodes are represented by the order of the nodes.

    ** Plan

    Done: the components above.  Left: wait queues as endpoints of several
    receivers, the queues of contexts pending on other CPUs, the life cycle of kernel
    objects beyond gates, I/O bitmaps, the simpler allocator of identifiers. *)

From Stdlib Require Export ZArith Lia Bool Btauto.
From stdpp Require Export base list list_numbers relations gmap.

#[global] Open Scope Z_scope.

(** * Machine words

    The kernel is built for 32-bit and for 64-bit machines; [MWORD_BITS] is
    the width of an [Mword], an [Address] and an [unsigned long].  Definitions
    take the architecture as a class parameter, theorems hold for both. *)

Class Arch := {
  MWORD_BITS : Z;
  MWORD_BITS_ok : MWORD_BITS = 32 \/ MWORD_BITS = 64 }.

Definition arch32 : Arch := {| MWORD_BITS := 32; MWORD_BITS_ok := or_introl eq_refl |}.
Definition arch64 : Arch := {| MWORD_BITS := 64; MWORD_BITS_ok := or_intror eq_refl |}.

(** Unsigned [w]-bit arithmetic: every result is reduced modulo [2^w]. *)
Definition wrap (w x : Z) : Z := x mod 2 ^ w.

(** The value of the [w]-bit pattern [x] read as a two's complement number. *)
Definition to_signed (w x : Z) : Z :=
  let y := x mod 2 ^ w in if y <? 2 ^ (w - 1) then y else y - 2 ^ w.

Definition in_range (w x : Z) : Prop := 0 <= x < 2 ^ w.

Definition mwrap `{Arch} (x : Z) : Z := wrap MWORD_BITS x.
Definition madd `{Arch} (x y : Z) : Z := mwrap (x + y).
Definition msub `{Arch} (x y : Z) : Z := mwrap (x - y).
Definition mshl `{Arch} (x n : Z) : Z := mwrap (Z.shiftl x n).
Definition mnot `{Arch} (x : Z) : Z := mwrap (Z.lnot x).
Abbreviation is_mword x := (in_range MWORD_BITS x).

(** C's conversion of an integer to a truth value. *)
Definition nonzero (x : Z) : bool := negb (x =? 0).

Declare Scope kernel_scope.
Delimit Scope kernel_scope with kernel.
Notation "x '.&' y" := (Z.land x y) (at level 40, left associativity) : kernel_scope.
Notation "x '.|' y" := (Z.lor x y) (at level 50, left associativity) : kernel_scope.
Notation "x '>>' n" := (Z.shiftr x n) (at level 34, left associativity) : kernel_scope.
Notation "x '<<' n" := (Z.shiftl x n) (at level 34, left associativity) : kernel_scope.
#[global] Open Scope kernel_scope.

(** * Rewriting with [Z.testbit]

    The hint database [bits] turns the test of one bit of an expression into a
    boolean combination of tests of its parts; [bits_ext] proves equations
    between words bit by bit. *)

Create HintDb bits.

Lemma arch_pos `{Arch} : 0 < MWORD_BITS.
Proof. destruct MWORD_BITS_ok as [-> | ->]; lia. Qed.

Lemma arch_ge32 `{Arch} : 32 <= MWORD_BITS.
Proof. destruct MWORD_BITS_ok as [-> | ->]; lia. Qed.

Lemma pow2_pos w : 0 <= w -> 0 < 2 ^ w.
Proof. intros; apply Z.pow_pos_nonneg; lia. Qed.

Lemma wrap_range w x : 0 <= w -> in_range w (wrap w x).
Proof. intros Hw. apply Z.mod_pos_bound, pow2_pos, Hw. Qed.

Lemma mwrap_range `{Arch} x : is_mword (mwrap x).
Proof. apply wrap_range. pose proof arch_pos; lia. Qed.

Lemma wrap_small w x : in_range w x -> wrap w x = x.
Proof. apply Z.mod_small. Qed.

Lemma testbit_wrap w x n :
  0 <= w -> 0 <= n -> Z.testbit (wrap w x) n = (n <? w) && Z.testbit x n.
Proof.
  intros Hw Hn. unfold wrap. destruct (Z.ltb_spec n w) as [Hlt | Hge]; simpl.
  - apply Z.mod_pow2_bits_low; lia.
  - apply Z.mod_pow2_bits_high; lia.
Qed.

Lemma testbit_mwrap `{Arch} x n :
  0 <= n -> Z.testbit (mwrap x) n = (n <? MWORD_BITS) && Z.testbit x n.
Proof. intros. apply testbit_wrap; [pose proof arch_pos; lia | done]. Qed.

Lemma testbit_mshl `{Arch} x k n :
  0 <= n -> Z.testbit (mshl x k) n = (n <? MWORD_BITS) && Z.testbit x (n - k).
Proof. intros. unfold mshl. rewrite testbit_mwrap by done. by rewrite Z.shiftl_spec. Qed.

Lemma testbit_mnot `{Arch} x n :
  0 <= n -> Z.testbit (mnot x) n = (n <? MWORD_BITS) && negb (Z.testbit x n).
Proof. intros. unfold mnot. rewrite testbit_mwrap by done. by rewrite Z.lnot_spec. Qed.

Lemma testbit_ones k n : 0 <= k -> 0 <= n -> Z.testbit (Z.ones k) n = (n <? k).
Proof. intros. by apply Z.testbit_ones_nonneg. Qed.

Lemma testbit_high w x n : in_range w x -> w <= n -> Z.testbit x n = false.
Proof.
  intros Hx Hn. destruct (Z.ltb_spec n 0) as [? | Hn0]; [by apply Z.testbit_neg_r |].
  destruct (Z.ltb_spec w 0) as [Hw | Hw].
  - unfold in_range in Hx. rewrite Z.pow_neg_r in Hx by lia. lia.
  - rewrite <- (wrap_small w x Hx), testbit_wrap by lia.
    destruct (Z.ltb_spec n w); [lia | done].
Qed.

Lemma testbit_bound w x n : in_range w x -> Z.testbit x n = (n <? w) && Z.testbit x n.
Proof.
  intros Hx. destruct (Z.ltb_spec n w); [done |]. by apply testbit_high with w.
Qed.

Lemma in_range_bits w x :
  0 <= w -> 0 <= x -> (forall n, w <= n -> Z.testbit x n = false) -> in_range w x.
Proof.
  intros Hw Hx Hb.
  assert (x = wrap w x) as ->; [| by apply wrap_range].
  apply Z.bits_inj'. intros n Hn. rewrite testbit_wrap by lia.
  destruct (Z.ltb_spec n w); simpl; [done | auto].
Qed.

Lemma in_range_mono w w' x : w <= w' -> in_range w x -> in_range w' x.
Proof.
  intros Hw [Hlo Hhi]. split; [done |].
  destruct (Z.ltb_spec w 0); [rewrite Z.pow_neg_r in Hhi by lia; lia |].
  assert (2 ^ w <= 2 ^ w') by (apply Z.pow_le_mono_r; lia). lia.
Qed.

Lemma in_range_lor w x y : 0 <= w -> in_range w x -> in_range w y -> in_range w (x .| y).
Proof.
  intros Hw Hx Hy. apply in_range_bits; [done | |].
  - apply Z.lor_nonneg. unfold in_range in *. lia.
  - intros n Hn. rewrite Z.lor_spec, (testbit_high w x), (testbit_high w y); done.
Qed.

Lemma in_range_land_r w x y : 0 <= w -> in_range w y -> in_range w (x .& y).
Proof.
  intros Hw Hy. apply in_range_bits; [done | |].
  - apply Z.land_nonneg. unfold in_range in *. lia.
  - intros n Hn. rewrite Z.land_spec, (testbit_high w y); [by rewrite andb_false_r | done | done].
Qed.

Lemma in_range_land_l w x y : 0 <= w -> in_range w x -> in_range w (x .& y).
Proof. intros. rewrite Z.land_comm. by apply in_range_land_r. Qed.

Lemma in_range_shiftr w x n : 0 <= n -> in_range w x -> in_range w (x >> n).
Proof.
  intros Hn [Hlo Hhi]. rewrite Z.shiftr_div_pow2 by done.
  assert (0 < 2 ^ n) by (by apply pow2_pos). split.
  - apply Z.div_pos; lia.
  - apply Z.le_lt_trans with x; [| done]. apply Z.div_le_upper_bound; nia.
Qed.

#[export] Hint Resolve arch_pos wrap_range mwrap_range in_range_lor in_range_land_l
  in_range_land_r in_range_shiftr : bits.

(** [nonzero] of a mask test is a disjunction of bits; the common case is a
    single bit. *)
Lemma nonzero_land_bit x k : 0 <= k -> nonzero (x .& 2 ^ k) = Z.testbit x k.
Proof.
  intros Hk. unfold nonzero. destruct (Z.testbit x k) eqn:E.
  - destruct (Z.eqb_spec (x .& 2 ^ k) 0) as [H0 | ?]; [exfalso | done].
    assert (Z.testbit (x .& 2 ^ k) k = true) as Hb
      by (rewrite Z.land_spec, E, Z.pow2_bits_true by lia; done).
    rewrite H0, Z.bits_0 in Hb. done.
  - assert (x .& 2 ^ k = 0) as ->; [| done].
    apply Z.bits_inj'. intros n Hn. rewrite Z.land_spec, Z.bits_0.
    destruct (Z.eqb_spec n k) as [-> | Hne]; [by rewrite E |].
    rewrite Z.pow2_bits_false by lia. apply andb_false_r.
Qed.

Lemma nonzero_spec x : nonzero x = true <-> x <> 0.
Proof. unfold nonzero. rewrite negb_true_iff, Z.eqb_neq. done. Qed.

Lemma nonzero_false x : nonzero x = false <-> x = 0.
Proof. unfold nonzero. rewrite negb_false_iff, Z.eqb_eq. done. Qed.

(** Case analysis on the comparisons a [testbit] rewrite leaves behind. *)
Ltac case_cmp :=
  match goal with
  | |- context [?a <? ?b] => destruct (Z.ltb_spec a b)
  | |- context [?a <=? ?b] => destruct (Z.leb_spec a b)
  | |- context [?a =? ?b] => destruct (Z.eqb_spec a b)
  end; try (exfalso; lia).

(** One rewriting step at some tested bit; [match] backtracks over the tests
    of the goal until one step applies. *)
Ltac bits_step :=
  match goal with
  | |- context [Z.testbit ?e ?i] =>
      lazymatch e with
      | Z.land ?a ?b => rewrite (Z.land_spec a b i)
      | Z.lor ?a ?b => rewrite (Z.lor_spec a b i)
      | Z.ldiff ?a ?b => rewrite (Z.ldiff_spec a b i)
      | Z.lxor ?a ?b => rewrite (Z.lxor_spec a b i)
      | Z.lnot ?a => rewrite (Z.lnot_spec a i) by lia
      | Z.shiftr ?a ?k => rewrite (Z.shiftr_spec a k i) by lia
      | Z.shiftl ?a ?k => rewrite (Z.shiftl_spec a k i) by lia
      | mshl ?a ?k => rewrite (testbit_mshl a k i) by lia
      | mnot ?a => rewrite (testbit_mnot a i) by lia
      | mwrap ?a => rewrite (testbit_mwrap a i) by lia
      | wrap ?w ?a => rewrite (testbit_wrap w a i) by lia
      | Z.ones ?k => rewrite (testbit_ones k i) by lia
      | 0 => rewrite (Z.bits_0 i)
      end
  | |- context [Z.testbit ?e ?i] => rewrite (Z.testbit_neg_r e i) by lia
  end.

(** A word known to be in range has no bits above its width. *)
Ltac bits_high :=
  match goal with
  | H : in_range ?w ?x |- context [Z.testbit ?x ?n] =>
      rewrite (testbit_high w x n H) by lia
  end.

Ltac bits_close :=
  simpl; rewrite ?andb_false_r, ?andb_true_r, ?orb_false_r, ?orb_true_r; simpl;
  first [ reflexivity | (f_equal; lia) | btauto | lia ].

(** A shifted bit position may be negative: split unless its sign is known. *)
Ltac case_sign :=
  match goal with
  | |- context [Z.testbit _ (?n - ?k)] =>
      assert_fails (assert (k <= n) by lia); assert_fails (assert (n < k) by lia);
      destruct (Z.lt_ge_cases n k)
  end.

Ltac bits_simp := repeat first [ bits_step | case_cmp | bits_high | case_sign ].

Ltac bits_ext :=
  apply Z.bits_inj'; intros ?n ?Hn; bits_simp; try bits_close.

(** * Constants as masks *)
Lemma ones_0x3f : 0x3f = Z.ones 6. Proof. reflexivity. Qed.
Lemma ones_0xf : 0xf = Z.ones 4. Proof. reflexivity. Qed.
Lemma ones_0xff : 0xff = Z.ones 8. Proof. reflexivity. Qed.
Lemma ones_0xffff : 0xffff = Z.ones 16. Proof. reflexivity. Qed.
Lemma ones_0x3ff : 0x3ff = Z.ones 10. Proof. reflexivity. Qed.

(** Truncation to a multiple of a power of two. *)
Lemma trunc_pow2 `{Arch} b j : is_mword b -> 0 <= j <= MWORD_BITS -> b .& mnot (2 ^ j - 1) = b - b mod 2 ^ j.
Proof.
  intros Hb Hj. replace (2 ^ j - 1) with (Z.ones j) by (rewrite Z.ones_equiv; lia).
  rewrite Z.mod_eq by (apply Z.pow_nonzero; lia).
  replace (b - (b - 2 ^ j * (b / 2 ^ j))) with ((b >> j) << j)
    by (rewrite Z.shiftl_mul_pow2, Z.shiftr_div_pow2 by lia; lia).
  bits_ext.
Qed.

(** * Lists *)

(** The elements of a list that satisfy [P], up to the first that does not. *)
Fixpoint take_while {A} (P : A -> bool) (l : list A) : list A :=
  match l with
  | [] => []
  | x :: k => if P x then x :: take_while P k else []
  end.

Fixpoint drop_while {A} (P : A -> bool) (l : list A) : list A :=
  match l with
  | [] => []
  | x :: k => if P x then drop_while P k else l
  end.

Lemma take_drop_while {A} (P : A -> bool) l : take_while P l ++ drop_while P l = l.
Proof. induction l as [|x l IH]; simpl; [done |]. destruct (P x); simpl; by rewrite ?IH. Qed.

Lemma take_while_all {A} (P : A -> bool) l x : x ∈ take_while P l -> P x = true.
Proof.
  induction l as [|y l IH]; simpl; [by intros ?%elem_of_nil |].
  destruct (P y) eqn:E; [| by intros ?%elem_of_nil].
  intros [-> | ?]%elem_of_cons; auto.
Qed.

Lemma drop_while_head {A} (P : A -> bool) l x k : drop_while P l = x :: k -> P x = false.
Proof.
  induction l as [|y l IH]; simpl; [done |].
  destruct (P y) eqn:E; [done |]. congruence.
Qed.

(** A filter that keeps everything, and one that keeps nothing. *)
Lemma filter_all {A} (P : A -> Prop) `{!forall x, Decision (P x)} l : Forall P l -> filter P l = l.
Proof. induction 1; [done |]. rewrite filter_cons_True by done. by f_equal. Qed.

Lemma filter_none {A} (P : A -> Prop) `{!forall x, Decision (P x)} l :
  Forall (fun x => ~ P x) l -> filter P l = [].
Proof. induction 1; [done |]. by rewrite filter_cons_False. Qed.

(** Splitting a list behind an element in its middle. *)
Lemma drop_S_middle {A} (pre post : list A) x : drop (S (length pre)) (pre ++ x :: post) = post.
Proof. induction pre; simpl; [done | auto]. Qed.

Lemma take_S_middle {A} (pre post : list A) x : take (S (length pre)) (pre ++ x :: post) = pre ++ [x].
Proof. induction pre as [|y pre IH]; simpl; [done | by f_equal]. Qed.

Lemma insert_middle {A} (pre post : list A) x y : <[length pre := y]> (pre ++ x :: post) = pre ++ y :: post.
Proof. induction pre; simpl; [done | by f_equal]. Qed.

(** * Two's complement *)

Lemma testbit_sign k p n :
  0 <= k -> - 2 ^ k <= p < 2 ^ k -> k <= n -> Z.testbit p n = (p <? 0).
Proof.
  intros Hk Hp Hn. destruct (Z.ltb_spec p 0).
  - replace p with (Z.lnot (- p - 1)) by (unfold Z.lnot; lia).
    rewrite Z.lnot_spec by lia. rewrite (testbit_high k); [done | unfold in_range; lia | lia].
  - apply testbit_high with k; [unfold in_range; lia | lia].
Qed.

Lemma to_signed_range w x : 0 < w -> - 2 ^ (w - 1) <= to_signed w x < 2 ^ (w - 1).
Proof.
  intros Hw. unfold to_signed.
  assert (0 < 2 ^ (w - 1)) by (apply pow2_pos; lia).
  assert (2 ^ w = 2 * 2 ^ (w - 1)) as He.
  { replace w with (1 + (w - 1)) at 1 by lia. by rewrite Z.pow_add_r by lia. }
  pose proof (Z.mod_pos_bound x (2 ^ w)). case_cmp; lia.
Qed.

Lemma to_signed_mod w x : 0 < w -> (to_signed w x) mod 2 ^ w = x mod 2 ^ w.
Proof.
  intros Hw. assert (0 < 2 ^ w) by (apply pow2_pos; lia). unfold to_signed. case_cmp.
  - by rewrite Z.mod_mod by lia.
  - rewrite Zminus_mod, Z_mod_same_full, Z.sub_0_r, !Z.mod_mod by lia. done.
Qed.

(** Two numbers in the signed range with the same bit pattern are equal. *)
Lemma to_signed_unique w x p :
  0 < w -> - 2 ^ (w - 1) <= p < 2 ^ (w - 1) -> p mod 2 ^ w = x mod 2 ^ w -> to_signed w x = p.
Proof.
  intros Hw Hp Hm. pose proof (to_signed_range w x Hw) as Hr.
  rewrite <- (to_signed_mod w x Hw) in Hm.
  assert (2 ^ w = 2 * 2 ^ (w - 1)) as He.
  { replace w with (1 + (w - 1)) at 1 by lia. by rewrite Z.pow_add_r by lia. }
  assert ((to_signed w x - p) mod 2 ^ w = 0) as Hd.
  { rewrite Zminus_mod, Hm, Z.sub_diag. apply Z.mod_0_l. lia. }
  apply Z.mod_divide in Hd; [| lia]. destruct Hd as [q Hq].
  assert (q = 0) by nia. lia.
Qed.

Lemma testbit_to_signed w x n :
  0 < w -> 0 <= n ->
  Z.testbit (to_signed w x) n = Z.testbit x (if n <? w then n else w - 1).
Proof.
  intros Hw Hn. pose proof (to_signed_range w x Hw) as Hr.
  assert (forall m, 0 <= m < w -> Z.testbit (to_signed w x) m = Z.testbit x m) as Hlow.
  { intros m Hm. rewrite <- (Z.mod_pow2_bits_low (to_signed w x) w m) by lia.
    rewrite to_signed_mod by lia. apply Z.mod_pow2_bits_low. lia. }
  case_cmp; [apply Hlow; lia |].
  rewrite <- Hlow by lia.
  rewrite !(testbit_sign (w - 1)) by lia. done.
Qed.
