(* ===== verification/L4Types.v ===== *)
(** The kernel's binary interface: the words that cross the system-call
    boundary ([src/src/abi]: [l4_types.h], [l4_fpage.h], [l4_msg_item.h],
    [l4_buf_desc.h], [l4_error.h]) and the iterators over the typed items of a
    UTCB ([src/src/kern/l4_buf_iter.h]).  Every class of the source that wraps
    one machine word is a Module whose operations act on the raw word. *)

From S2P Require Import Prelude.

(** ** cxx::Bitfield: bits [LSB..MSB] of an [Mword] *)
Module Bitfield.

(** The width of the smallest unsigned type with at least [bits] bits
    ([unsigned char], [short], [int], then [long] or [long long], which is the
    first one with 64 bits). *)
Definition Best_type (bits : Z) : Z :=
  if bits <=? 8 then 8 else if bits <=? 16 then 16 else if bits <=? 32 then 32 else 64.

Definition Bits (lsb msb : Z) : Z := msb + 1 - lsb.

Definition Low_mask `{Arch} (lsb msb : Z) : Z :=
  Z.ones MWORD_BITS >> (MWORD_BITS - Bits lsb msb).

Definition Mask `{Arch} (lsb msb : Z) : Z := mshl (Low_mask lsb msb) lsb.

(** [Bits + Lsb] *)
Definition Shift_type (lsb msb : Z) : Z := Best_type (Bits lsb msb + lsb).

Definition get `{Arch} (lsb msb val : Z) : Z :=
  (wrap (Shift_type lsb msb) val >> lsb) .& Low_mask lsb msb.

Definition get_unshifted `{Arch} (lsb msb val : Z) : Z :=
  wrap (Shift_type lsb msb) val .& Mask lsb msb.

(** [val << Lsb] is computed in the promoted type of [Shift_type] (at least
    [int]) and converted to the base type. *)
Definition val_dirty `{Arch} (lsb msb val : Z) : Z :=
  mwrap (wrap (Z.max 32 (Shift_type lsb msb)) (wrap (Shift_type lsb msb) val << lsb)).

Definition val `{Arch} (lsb msb v : Z) : Z := val_dirty lsb msb (v .& Low_mask lsb msb).

Definition set_dirty `{Arch} (lsb msb dest v : Z) : Z :=
  (dest .& mnot (Mask lsb msb)) .| val_dirty lsb msb v.

Definition set `{Arch} (lsb msb dest v : Z) : Z :=
  set_dirty lsb msb dest (v .& Low_mask lsb msb).

End Bitfield.

(** ** L4_obj_ref: capability selectors *)
Module L4_obj_ref.

(** [enum Operation] *)
Definition None := 0.
Definition Ipc_send := 1.
Definition Ipc_recv := 2.
Definition Ipc_open_wait := 4.
Definition Ipc_reply := 8.
Definition Ipc_wait := Ipc_open_wait .| Ipc_recv.
Definition Ipc_send_and_wait := Ipc_open_wait .| Ipc_send .| Ipc_recv.
Definition Ipc_reply_and_wait := Ipc_open_wait .| Ipc_send .| Ipc_recv .| Ipc_reply.
Definition Ipc_call_ipc := Ipc_send .| Ipc_recv.

(** [enum Special] *)
Definition Special_bit := 1 << 11.
Definition Invalid := 1 << 11.
Definition Self `{Arch} := mshl (Z.ones MWORD_BITS) 11.
Definition Special_mask `{Arch} := mshl (Z.ones MWORD_BITS) 11.
Definition Cap_shift := 12.

Definition valid (raw : Z) : bool := negb (nonzero (raw .& Special_bit)).
Definition special (raw : Z) : bool := nonzero (raw .& Special_bit).
Definition self (raw : Z) : bool := special raw.
Definition special_cap `{Arch} (raw : Z) : Z := raw .& Special_mask.
Definition have_recv (raw : Z) : Z := raw .& Ipc_recv.
Definition cap (raw : Z) : Z := raw >> Cap_shift.
Definition op (raw : Z) : Z := raw .& 0xf.

(** [L4_obj_ref(Mword cap, Operation op)]: [cap] is already shifted. *)
Definition of_shifted (cap op : Z) : Z := cap .| op.
(** [L4_obj_ref(Cap_index cap, Operation op)] *)
Definition of_index `{Arch} (cap op : Z) : Z := mshl cap Cap_shift .| op.

End L4_obj_ref.

(** ** L4_map_mask: flags of unmap operations *)
Module L4_map_mask.
Definition full := 0xc0000002.
Definition self_unmap (raw : Z) : Z := raw .& 0x80000000.
Definition do_delete (raw : Z) : Z := raw .& 0x40000000.
End L4_map_mask.

(** ** L4_msg_tag *)
Module L4_msg_tag.

Definition Transfer_fpu := 0x1000.
Definition Schedule := 0x2000.
Definition Propagate := 0x4000.
Definition Error := 0x8000.
Definition Rcv_flags := Error.

Definition make `{Arch} (words items flags proto : Z) : Z :=
  (words .& 0x3f) .| ((items .& 0x3f) << 6) .| flags .| mshl proto 16.

Definition error `{Arch} : Z := make 0 0 Error 0.

(** [L4_msg_tag(L4_msg_tag const &o, Mword flags)] *)
Definition with_flags `{Arch} (o flags : Z) : Z := (o .& mnot Rcv_flags) .| flags.

Definition proto `{Arch} (tag : Z) : Z := to_signed MWORD_BITS tag >> 16.
Definition words (tag : Z) : Z := tag .& 63.
Definition items (tag : Z) : Z := (tag >> 6) .& 0x3f.
Definition transfer_fpu (tag : Z) : bool := nonzero (tag .& Transfer_fpu).
Definition do_switch (tag : Z) : bool := negb (nonzero (tag .& Schedule)).
Definition set_error `{Arch} (tag : Z) (e : bool) : Z :=
  if e then tag .| Error else tag .& mnot Error.
Definition has_error (tag : Z) : bool := nonzero (tag .& Error).

End L4_msg_tag.

(** ** L4_error *)
Module L4_error.

Inductive Error_code :=
  | None | Timeout | R_timeout | Not_existent | Canceled | R_canceled | Overflow
  | Snd_xfertimeout | Rcv_xfertimeout | Aborted | R_aborted | Map_failed.

Definition code (e : Error_code) : Z :=
  match e with
  | None => 0 | Timeout => 2 | R_timeout => 3 | Not_existent => 4 | Canceled => 6
  | R_canceled => 7 | Overflow => 8 | Snd_xfertimeout => 10 | Rcv_xfertimeout => 12
  | Aborted => 14 | R_aborted => 15 | Map_failed => 16
  end.

Definition Snd := 0.
Definition Rcv := 1.

Definition make (ec : Error_code) (p : Z) : Z := code ec .| p.
Definition with_phase (e p : Z) : Z := e .| p.
Definition ok (raw : Z) : bool := (raw .& 0xff) =? 0.
Definition error (raw : Z) : Z := raw .& 0x1f.
Definition snd_phase (raw : Z) : bool := negb (nonzero (raw .& Rcv)).
Definition empty_map (raw : Z) : bool := nonzero (raw .& 0x100).
Definition set_empty_map (raw : Z) : Z := raw .| 0x100.

End L4_error.

(** ** L4_fpage: flex pages *)
Module L4_fpage.

(** [enum Type] *)
Inductive Type_ := Special | Memory | Io | Obj.
Definition type_code (t : Type_) : Z :=
  match t with Special => 0 | Memory => 1 | Io => 2 | Obj => 3 end.

Definition Addr_shift := 12.
Definition Whole_space := 63.

(** The bit-field members. *)
Definition _rights `{Arch} (raw : Z) : Z := Bitfield.get 0 3 raw.
Definition type `{Arch} (raw : Z) : Z := Bitfield.get 4 5 raw.
Definition order `{Arch} (raw : Z) : Z := Bitfield.get 6 11 raw.
Definition adr `{Arch} (raw : Z) : Z := Bitfield.get 12 (MWORD_BITS - 1) raw.

(** The private constructor; [order] and [rights] are not masked. *)
Definition make `{Arch} (t : Type_) (address order rights : Z) : Z :=
  address .| Bitfield.val_dirty 0 3 rights
  .| Bitfield.val_dirty 6 11 order .| Bitfield.val_dirty 4 5 (type_code t).

Definition io `{Arch} (port order rights : Z) : Z :=
  make Io (Bitfield.val_dirty 12 (MWORD_BITS - 1) port) order rights.
Definition obj `{Arch} (idx order rights : Z) : Z :=
  make Obj (idx .& Bitfield.Mask 12 (MWORD_BITS - 1)) order rights.
Definition mem `{Arch} (addr order rights : Z) : Z :=
  make Memory (addr .& Bitfield.Mask 12 (MWORD_BITS - 1)) order rights.
Definition nil : Z := 0.
Definition all_spaces `{Arch} (rights : Z) : Z := make Special 0 Whole_space rights.

Definition mem_address `{Arch} (raw : Z) : Z := Bitfield.get_unshifted 12 (MWORD_BITS - 1) raw.
Definition obj_address `{Arch} (raw : Z) : Z := Bitfield.get_unshifted 12 (MWORD_BITS - 1) raw.
Definition io_address `{Arch} (raw : Z) : Z := adr raw.
Definition obj_index `{Arch} (raw : Z) : Z := adr raw.
Definition is_mempage `{Arch} (raw : Z) : bool := type raw =? type_code Memory.
Definition is_iopage `{Arch} (raw : Z) : bool := type raw =? type_code Io.
Definition is_objpage `{Arch} (raw : Z) : bool := type raw =? type_code Obj.
Definition is_all_spaces `{Arch} (raw : Z) : bool :=
  (raw .& (Bitfield.Mask 4 5 .| Bitfield.Mask 6 11)) =? Bitfield.val 6 11 Whole_space.
Definition is_valid (raw : Z) : Z := raw.
Definition same_type `{Arch} (a b : Z) : bool := (Z.lxor a b .& Bitfield.Mask 4 5) =? 0.
Definition rights `{Arch} (raw : Z) : Z := _rights raw.
Definition mask_rights `{Arch} (raw r : Z) : Z := raw .& (r .| mnot (Bitfield.Mask 0 3)).

(** [struct Rights]: sets of access rights, four bits. *)
Module Rights.
Definition U := 8.
Definition R := 4.
Definition W := 2.
Definition X := 1.
Definition CD := 8.
Definition CR := 4.
Definition CS := 2.
Definition CW := 1.
Definition CRW := CR .| CW.
Definition CRWS := CRW .| CS.
Definition CRWSD := CRWS .| CD.
Definition FULL := 0xf.
Definition empty (r : Z) : bool := r =? 0.
Definition apply (a r : Z) : Z := a .& r.
Definition fulfills (a expected : Z) : bool := (a .& expected) =? expected.
End Rights.

End L4_fpage.

(** ** L4_msg_item: the first word of a typed message item *)
Module L4_msg_item.

Definition Map := 8.
Definition C_weak_ref := 0x10.
Definition C_obj_right_1 := 0x20.
Definition C_obj_right_2 := 0x40.
Definition C_obj_right_3 := 0x80.
Definition C_obj_specific_rights := C_obj_right_1 .| C_obj_right_2 .| C_obj_right_3.
Definition C_ctl_rights := C_obj_specific_rights .| C_weak_ref.

Definition compound (raw : Z) : bool := nonzero (raw .& 1).
Definition is_void (raw : Z) : bool := raw =? 0.
Definition is_small_obj (raw : Z) : bool := nonzero (raw .& 2).
Definition is_rcv_id (raw : Z) : bool := nonzero (raw .& 4).
Definition is_grant (raw : Z) : bool := nonzero (raw .& 2).
Definition type `{Arch} (raw : Z) : Z := Bitfield.get_unshifted 3 3 raw.
Definition attr `{Arch} (raw : Z) : Z := Bitfield.get_unshifted 4 7 raw.
Definition cap_br_idx `{Arch} (raw : Z) : Z := Bitfield.get 8 13 raw.
Definition address `{Arch} (raw : Z) : Z := Bitfield.get_unshifted 12 (MWORD_BITS - 1) raw.
Definition index `{Arch} (raw : Z) : Z := Bitfield.get 12 (MWORD_BITS - 1) raw.
Definition mem_type `{Arch} (raw : Z) : Z := attr raw .& 0x70.
Definition get_small_buf `{Arch} (raw : Z) : Z := L4_fpage.obj raw 0 (attr raw >> 4).
Definition map : Z := Map.

End L4_msg_item.

(** ** L4_buf_desc: the buffer descriptor register *)
Module L4_buf_desc.

Definition Inherit_fpu := 1 << 24.
Definition make `{Arch} (mem io obj flags : Z) : Z :=
  Bitfield.val_dirty 0 4 mem .| Bitfield.val_dirty 5 9 io
  .| Bitfield.val_dirty 10 14 obj .| flags.
Definition flags (raw : Z) : Z := raw.
Definition mem `{Arch} (raw : Z) : Z := Bitfield.get 0 4 raw.
Definition io `{Arch} (raw : Z) : Z := Bitfield.get 5 9 raw.
Definition obj `{Arch} (raw : Z) : Z := Bitfield.get 10 14 raw.

End L4_buf_desc.

(** ** Utcb *)
Module Utcb.

Definition Max_words : nat := 63.
Definition Max_buffers : nat := 58.

(** The registers of the UTCB.  [values] has [Max_words] and [buffers]
    [Max_buffers] entries; in memory [error] and [free_marker] follow the
    buffer registers. *)
Record t := mk {
  values : list Z;
  utcb_addr : Z;
  buf_desc : Z;
  buffers : list Z;
  error : Z;
  free_marker : Z;
  user : list Z }.

Definition wf `{Arch} (u : t) : Prop :=
  length (values u) = Max_words /\ length (buffers u) = Max_buffers.

(** The words that follow [&buffers[0]] in memory. *)
Definition buffers_mem (u : t) : list Z := buffers u ++ [error u; free_marker u] ++ user u.

Definition val64_idx `{Arch} (validx : Z) : Z := validx / (64 / MWORD_BITS).
Definition val_idx `{Arch} (val64_idx : Z) : Z := val64_idx * (64 / MWORD_BITS).

Definition inherit_fpu (u : t) : bool :=
  nonzero (L4_buf_desc.flags (buf_desc u) .& L4_buf_desc.Inherit_fpu).

(** [union Time_val]: a 64-bit value in one or two consecutive words, in the
    byte order of the machine. *)
Definition time_val `{Arch} (big_endian : bool) (ws : list Z) : option Z :=
  if MWORD_BITS =? 64 then ws !! 0%nat
  else match ws !! 0%nat, ws !! 1%nat with
       | Some a, Some b => Some (if big_endian then (a << 32) .| b else a .| (b << 32))
       | _, _ => Datatypes.None
       end.

End Utcb.

(** ** L4_timeout *)
Module L4_timeout.

Definition Never := 0.
Definition Zero := 0x400.
Definition Abs_mask := 0x8000.
Definition Exp_mask := 0x7c00.
Definition Exp_shift := 10.
Definition Man_mask := 0x3ff.
Definition Man_shift := 0.

(** [_t] is an [unsigned short]. *)
Definition make `{Arch} (man exp : Z) : Z :=
  wrap 16 ((man .& Man_mask) .| (mshl exp Exp_shift .& Exp_mask)).
Definition of_raw (t : Z) : Z := wrap 16 t.
Definition exp (t : Z) : Z := (t .& Exp_mask) >> Exp_shift.
Definition man (t : Z) : Z := (t .& Man_mask) >> Man_shift.
Definition set_exp `{Arch} (t er : Z) : Z :=
  wrap 16 ((t .& Z.lnot Exp_mask) .| (mshl er Exp_shift .& Exp_mask)).
Definition set_man `{Arch} (t mr : Z) : Z :=
  wrap 16 ((t .& Z.lnot Man_mask) .| (mshl mr Man_shift .& Man_mask)).
Definition microsecs_rel (t clock : Z) : Z :=
  if man t =? 0 then 0 else wrap 64 (clock + wrap 64 (man t << exp t)).
Definition abs_idx (t : Z) : Z := Z.min (t .& 0x3f) (Z.of_nat Utcb.Max_buffers).
Definition microsecs_abs `{Arch} (big_endian : bool) (t : Z) (u : Utcb.t) : option Z :=
  Utcb.time_val big_endian (drop (Z.to_nat (abs_idx t)) (Utcb.buffers_mem u)).
Definition is_absolute (t : Z) : bool := nonzero (t .& Abs_mask).
Definition microsecs `{Arch} (big_endian : bool) (t clock : Z) (u : Utcb.t) : option Z :=
  if is_absolute t then microsecs_abs big_endian t u else Some (microsecs_rel t clock).
Definition is_never (t : Z) : bool := negb (nonzero t).
Definition is_zero (t : Z) : bool := t =? Zero.
Definition is_finite (t : Z) : bool := nonzero t.

End L4_timeout.

Module L4_timeout_pair.
Record t := mk { rcv : Z; snd : Z }.
Definition of_raw (v : Z) : t := mk (L4_timeout.of_raw v) (L4_timeout.of_raw (v >> 16)).
Definition raw `{Arch} (p : t) : Z := rcv p .| mshl (snd p) 16.
End L4_timeout_pair.

(** ** L4_cpu_set *)
Module L4_cpu_set.

(** [L4_cpu_set_descr] with the bitmap of [L4_cpu_set]. *)
Record t := mk { _w : Z; _map : Z }.

Definition granularity (s : t) : Z :=
  let g := (_w s >> 24) .& 0xff in if g >? 24 then 24 else g.

(** [cxx::mask_lsb] on a 32-bit [Cpu_number] *)
Definition mask_lsb (v o : Z) : Z := v .& wrap 32 (Z.ones 32 << o).

Definition offset (s : t) : Z := mask_lsb (_w s .& 0x00ffffff) (granularity s).

Definition contains `{Arch} (s : t) (cpu : Z) : bool :=
  if offset s >? cpu then false
  else let c := (cpu - offset s) >> granularity s in
       if c >=? MWORD_BITS then false else nonzero ((_map s >> c) .& 1).

(** One evaluation of the loop body of [first]: the result, or the next value
    of [cpu]. *)
Definition first_step `{Arch} (s : t) (bm : Z -> bool) (max cpu : Z) : Z + Z :=
  let b := wrap 32 (cpu - offset s) >> granularity s in
  if (cpu >=? max) || (b >=? MWORD_BITS) then inl max
  else if negb (nonzero ((_map s >> b) .& 1))
       then inr (wrap 32 (cpu + wrap 32 (1 << granularity s)))
       else if bm cpu then inl cpu else inr (wrap 32 (cpu + 1)).

Fixpoint first_loop `{Arch} (fuel : nat) (s : t) (bm : Z -> bool) (max cpu : Z) : option Z :=
  match fuel with
  | O => None
  | S fuel => match first_step s bm max cpu with
              | inl r => Some r
              | inr cpu' => first_loop fuel s bm max cpu'
              end
  end.

(** Every iteration that does not return increases [cpu], which stays below
    [max] until then; [max + 1] iterations are enough. *)
Definition first `{Arch} (s : t) (bm : Z -> bool) (max : Z) : option Z :=
  first_loop (S (Z.to_nat max)) s bm max (offset s).

End L4_cpu_set.

(** ** L4_sched_param: the parameters of a scheduling context.  The three
    layouts the kernel overlays are the fields of one record. *)
Module L4_err.
Inductive Err := EPerm | ENoent | ENomem | EFault | EBusy | EExists | ENodev | EInval | ERange
  | ENosys | EBadproto | EAddrnotavail | EMsgtooshort.
Definition val (e : Err) : Z :=
  match e with
  | EPerm => 1 | ENoent => 2 | ENomem => 12 | EFault => 14 | EBusy => 16 | EExists => 17
  | ENodev => 19 | EInval => 22 | ERange => 34 | ENosys => 38 | EBadproto => 39
  | EAddrnotavail => 99 | EMsgtooshort => 1001
  end.
End L4_err.

Module L4_sched_param.
Record t := mk {
  cpus : L4_cpu_set.t;
  sched_class : Z;   (** [Smword]; the priority of a legacy parameter *)
  length : Z;        (** the quantum of a legacy parameter *)
  quantum : Z;
  prio : Z }.
Definition check_length (p : t) (size : Z) : bool := length p >=? size.
Definition is_legacy (p : t) : bool := sched_class p >=? 0.
End L4_sched_param.

(** ** L4_buf_iter: the receive buffers of a UTCB *)
Module L4_buf_iter.

Record Item := mkItem { b : Z; d : Z; target_space : Z }.
Record t := mk { _buf : nat; c : Item }.

Definition more (it : t) : bool := (_buf it <? Utcb.Max_buffers)%nat.

Definition size `{Arch} (item : Z) : nat :=
  if (L4_msg_item.type item =? L4_msg_item.Map) && L4_msg_item.is_small_obj item then 1
  else if negb (L4_msg_item.compound item) then 2 else 3.

Definition set_b (i : Item) (b : Z) : Item := mkItem b (d i) (target_space i).

(** [None]: the code would read outside of the array [brs]. *)
Definition next `{Arch} (brs : list Z) (it : t) : option (bool * t) :=
  if (Utcb.Max_buffers <=? _buf it)%nat then Some (false, mk (_buf it) (set_b (c it) 0))
  else
    br0 ← brs !! _buf it;
    if L4_msg_item.is_void br0 then Some (false, mk (_buf it) (set_b (c it) br0))
    else
      let buf' := (_buf it + size br0)%nat in
      if (Utcb.Max_buffers <? buf')%nat then Some (false, mk buf' (set_b (c it) 0))
      else if (L4_msg_item.type br0 =? L4_msg_item.Map) && L4_msg_item.is_small_obj br0
      then Some (true, mk buf' (mkItem br0 (L4_msg_item.get_small_buf br0) (target_space (c it))))
      else
        br1 ← brs !! (_buf it + 1)%nat;
        if L4_msg_item.compound br0
        then br2 ← brs !! (_buf it + 2)%nat;
             Some (true, mk buf' (mkItem br0 br1 (L4_obj_ref.of_shifted br2 L4_obj_ref.None)))
        else Some (true, mk buf' (mkItem br0 br1 (target_space (c it)))).

(** The constructor fetches the first item; [Item()] starts with a void item
    and the invalid capability as target. *)
Definition init `{Arch} (brs : list Z) (start : nat) : option t :=
  snd <$> next brs (mk start (mkItem 0 0 L4_obj_ref.Invalid)).

End L4_buf_iter.

(** ** L4_snd_item_iter: the typed items of a message *)
Module L4_snd_item_iter.

Record t := mk { _buf : nat; b : Z; d : Z }.

Definition init (offset : nat) : t := mk offset 0 0.
Definition more (it : t) : bool := (_buf it <? Utcb.Max_words)%nat.

Definition next (values : list Z) (it : t) : option (bool * t) :=
  b0 ← values !! _buf it;
  if L4_msg_item.is_void b0 then Some (true, mk (_buf it + 2) b0 0)
  else if (Utcb.Max_words <=? _buf it + 1)%nat then Some (false, mk (_buf it + 1) b0 0)
  else d0 ← values !! (_buf it + 1)%nat; Some (true, mk (_buf it + 2) b0 d0).

End L4_snd_item_iter.

(** * Facts about bit fields *)

Section bitfield.
Context `{Arch}.

(** The static assertions of [cxx::Bitfield]. *)
Definition field (lsb msb : Z) : Prop := 0 <= lsb <= msb /\ msb < MWORD_BITS.

Lemma best_type_ge bits : bits <= 64 -> bits <= Bitfield.Best_type bits.
Proof. unfold Bitfield.Best_type. intros. repeat case_cmp; lia. Qed.

Lemma arch_le64 : MWORD_BITS <= 64.
Proof. destruct MWORD_BITS_ok as [-> | ->]; lia. Qed.

Lemma shift_type_ge lsb msb : field lsb msb -> msb + 1 <= Bitfield.Shift_type lsb msb.
Proof.
  intros [? ?]. unfold Bitfield.Shift_type, Bitfield.Bits. pose proof arch_le64.
  etrans; [| apply best_type_ge]; lia.
Qed.

Lemma low_mask_ones lsb msb :
  field lsb msb -> Bitfield.Low_mask lsb msb = Z.ones (msb + 1 - lsb).
Proof.
  intros [? ?]. unfold Bitfield.Low_mask, Bitfield.Bits.
  rewrite Z.shiftr_div_pow2 by lia. rewrite Z.ones_div_pow2 by lia. f_equal. lia.
Qed.

Lemma testbit_get lsb msb v n :
  field lsb msb -> 0 <= n ->
  Z.testbit (Bitfield.get lsb msb v) n = (n <? msb + 1 - lsb) && Z.testbit v (n + lsb).
Proof.
  intros Hf Hn. pose proof (shift_type_ge _ _ Hf). destruct Hf as [? ?].
  unfold Bitfield.get. rewrite low_mask_ones by done.
  rewrite Z.land_spec, Z.shiftr_spec, testbit_ones, testbit_wrap by lia.
  repeat case_cmp; simpl; btauto.
Qed.

Lemma testbit_mask lsb msb n :
  field lsb msb -> 0 <= n ->
  Z.testbit (Bitfield.Mask lsb msb) n = (lsb <=? n) && (n <? msb + 1).
Proof.
  intros Hf Hn. unfold Bitfield.Mask. rewrite low_mask_ones by done. destruct Hf as [? ?].
  rewrite testbit_mshl by lia. destruct (Z.leb_spec lsb n); simpl.
  - rewrite testbit_ones by lia. repeat case_cmp; done.
  - rewrite Z.testbit_neg_r by lia. by rewrite andb_false_r.
Qed.

Lemma testbit_get_unshifted lsb msb v n :
  field lsb msb -> 0 <= n ->
  Z.testbit (Bitfield.get_unshifted lsb msb v) n
  = (lsb <=? n) && (n <? msb + 1) && Z.testbit v n.
Proof.
  intros Hf Hn. pose proof (shift_type_ge _ _ Hf).
  unfold Bitfield.get_unshifted. rewrite Z.land_spec, testbit_mask by done.
  destruct Hf as [? ?]. rewrite testbit_wrap by lia. repeat case_cmp; simpl; btauto.
Qed.

(** [val_dirty] of a value that fits the field is a plain shift. *)
Lemma val_dirty_shift lsb msb v :
  field lsb msb -> in_range (msb + 1 - lsb) v ->
  Bitfield.val_dirty lsb msb v = v << lsb.
Proof.
  intros Hf Hv. pose proof (shift_type_ge _ _ Hf). destruct Hf as [? ?].
  assert (in_range (msb + 1) (v << lsb)) as Hs.
  { destruct Hv as [Hlo Hhi]. rewrite Z.shiftl_mul_pow2 by lia. split; [lia |].
    replace (msb + 1) with ((msb + 1 - lsb) + lsb) by lia. rewrite Z.pow_add_r by lia.
    assert (0 < 2 ^ lsb) by (apply pow2_pos; lia). nia. }
  unfold Bitfield.val_dirty, mwrap.
  rewrite (wrap_small _ v).
  2:{ eapply in_range_mono; [| exact Hv]. lia. }
  rewrite (wrap_small _ (v << lsb)).
  2:{ eapply in_range_mono; [| exact Hs]. lia. }
  apply wrap_small. eapply in_range_mono; [| exact Hs]. lia.
Qed.

Lemma testbit_val_dirty lsb msb v n :
  field lsb msb -> in_range (msb + 1 - lsb) v -> 0 <= n ->
  Z.testbit (Bitfield.val_dirty lsb msb v) n
  = (lsb <=? n) && (n <? msb + 1) && Z.testbit v (n - lsb).
Proof.
  intros Hf Hv Hn. rewrite val_dirty_shift by done. destruct Hf as [? ?].
  rewrite Z.shiftl_spec by lia. repeat case_cmp; simpl; try done.
  all: first [ by rewrite (testbit_high _ _ _ Hv) by lia | by rewrite Z.testbit_neg_r by lia ].
Qed.

Lemma get_range lsb msb v : field lsb msb -> in_range (msb + 1 - lsb) (Bitfield.get lsb msb v).
Proof.
  intros Hf. unfold Bitfield.get. rewrite low_mask_ones by done. destruct Hf as [? ?].
  apply in_range_land_r; [lia |]. rewrite Z.ones_equiv. unfold in_range.
  assert (0 < 2 ^ (msb + 1 - lsb)) by (apply pow2_pos; lia). lia.
Qed.

(** A field that was set reads back, and setting it leaves every disjoint
    field alone. *)
Lemma get_set_same lsb msb dest v :
  field lsb msb -> in_range (msb + 1 - lsb) v ->
  Bitfield.get lsb msb (Bitfield.set lsb msb dest v) = v.
Proof.
  intros Hf Hv. apply Z.bits_inj'. intros n Hn.
  rewrite testbit_get by done. unfold Bitfield.set, Bitfield.set_dirty.
  rewrite low_mask_ones by done.
  assert (v .& Z.ones (msb + 1 - lsb) = v) as ->.
  { destruct Hf. rewrite Z.land_ones by lia. by apply Z.mod_small. }
  rewrite Z.lor_spec, Z.land_spec, testbit_val_dirty by (done || destruct Hf; lia).
  rewrite testbit_mnot by (destruct Hf; lia). rewrite testbit_mask by (done || destruct Hf; lia).
  replace (n + lsb - lsb) with n by lia. destruct Hf as [? ?].
  repeat case_cmp; simpl; rewrite ?andb_false_r; try done.
  all: by rewrite (testbit_high _ _ _ Hv) by lia.
Qed.

Lemma get_set_other lsb msb lsb' msb' dest v :
  field lsb msb -> field lsb' msb' -> in_range (msb + 1 - lsb) v ->
  is_mword dest -> msb < lsb' \/ msb' < lsb ->
  Bitfield.get lsb' msb' (Bitfield.set lsb msb dest v) = Bitfield.get lsb' msb' dest.
Proof.
  intros Hf Hf' Hv Hd Hdis. apply Z.bits_inj'. intros n Hn.
  rewrite !testbit_get by done. unfold Bitfield.set, Bitfield.set_dirty.
  rewrite low_mask_ones by done.
  assert (v .& Z.ones (msb + 1 - lsb) = v) as ->.
  { destruct Hf. rewrite Z.land_ones by lia. by apply Z.mod_small. }
  assert (0 <= n + lsb') by (destruct Hf'; lia).
  rewrite Z.lor_spec, Z.land_spec, testbit_val_dirty, testbit_mnot, testbit_mask by done.
  destruct Hf as [? ?], Hf' as [? ?].
  repeat case_cmp; simpl; rewrite ?andb_false_r, ?andb_true_r, ?orb_false_r; done.
Qed.

End bitfield.

(** Discharges the side conditions of the bit-field lemmas at constant
    positions. *)
Ltac solve_field :=
  first [ done
        | unfold field; pose proof arch_ge32; lia
        | unfold in_range; simpl; lia ].

Ltac field_bits :=
  repeat first
    [ rewrite testbit_get by solve_field
    | rewrite testbit_get_unshifted by solve_field
    | rewrite testbit_mask by solve_field
    | rewrite testbit_val_dirty by solve_field
    | bits_step ].

(** * The interface words decode what was encoded *)

Section words.
Context `{Arch}.

Lemma mask_addr a : is_mword a -> a .& Bitfield.Mask 12 (MWORD_BITS - 1) = a .& Z.lnot 0xfff.
Proof.
  intros Ha. change 0xfff with (Z.ones 12). pose proof arch_ge32.
  apply Z.bits_inj'; intros n Hn. field_bits. repeat case_cmp; try bits_high; bits_close.
Qed.

(** The fields of a flex page built from parts that fit. *)
Lemma fpage_fields t a o r :
  is_mword a -> a .& 0xfff = 0 -> in_range 6 o -> in_range 4 r ->
  let fp := L4_fpage.make t a o r in
  L4_fpage.type fp = L4_fpage.type_code t /\ L4_fpage.order fp = o
  /\ L4_fpage.rights fp = r /\ L4_fpage.mem_address fp = a
  /\ L4_fpage.adr fp = a >> 12.
Proof.
  intros Ha Hal Ho Hr fp. pose proof arch_ge32.
  assert (in_range 2 (L4_fpage.type_code t)) as Ht by (destruct t; done).
  assert (forall n, n < 12 -> Z.testbit a n = false) as Hlow.
  { intros n Hn. destruct (Z.ltb_spec n 0); [by apply Z.testbit_neg_r |].
    assert (Z.testbit (a .& 0xfff) n = false) as Hb by (rewrite Hal; apply Z.bits_0).
    change 0xfff with (Z.ones 12) in Hb. rewrite Z.land_spec, testbit_ones in Hb by lia.
    revert Hb. case_cmp. by rewrite andb_true_r. }
  assert (in_range (3 + 1 - 0) r) by done. assert (in_range (11 + 1 - 6) o) by done.
  assert (in_range (5 + 1 - 4) (L4_fpage.type_code t)) by done.
  unfold fp, L4_fpage.type, L4_fpage.order, L4_fpage.rights, L4_fpage._rights,
    L4_fpage.mem_address, L4_fpage.adr, L4_fpage.make.
  repeat split; apply Z.bits_inj'; intros n Hn; field_bits; repeat case_cmp;
    rewrite ?Hlow by lia; repeat bits_high; bits_close.
Qed.

Lemma fpage_aligned a : is_mword a -> is_mword (a .& Z.lnot 0xfff) /\ (a .& Z.lnot 0xfff) .& 0xfff = 0.
Proof.
  intros Ha. split.
  - apply in_range_land_l; [pose proof arch_pos; lia | done].
  - change 0xfff with (Z.ones 12). bits_ext.
Qed.

(** The three public constructors of a flex page and its accessors are
    inverse: a memory page yields the address with its low twelve bits
    cleared, an object page the capability index, an I/O page the port, and
    each its type, order and rights. *)
Theorem fpage_roundtrip addr port order rights :
  is_mword addr -> in_range (MWORD_BITS - 12) port -> in_range 6 order -> in_range 4 rights ->
  let m := L4_fpage.mem addr order rights in
  let o := L4_fpage.obj addr order rights in
  let i := L4_fpage.io port order rights in
  (L4_fpage.is_mempage m = true /\ L4_fpage.order m = order /\ L4_fpage.rights m = rights
   /\ L4_fpage.mem_address m = addr .& Z.lnot 0xfff)
  /\ (L4_fpage.is_objpage o = true /\ L4_fpage.order o = order /\ L4_fpage.rights o = rights
      /\ L4_fpage.obj_index o = addr >> 12)
  /\ (L4_fpage.is_iopage i = true /\ L4_fpage.order i = order /\ L4_fpage.rights i = rights
      /\ L4_fpage.io_address i = port).
Proof.
  intros Ha Hp Ho Hr m o i. pose proof arch_ge32. destruct (fpage_aligned addr Ha) as [Hm Hz].
  assert (in_range (MWORD_BITS - 1 + 1 - 12) port) by (by replace (_ - 1 + 1 - 12) with (MWORD_BITS - 12) by lia).
  assert (Bitfield.val_dirty 12 (MWORD_BITS - 1) port = port << 12) as Hio
    by (apply val_dirty_shift; solve_field).
  assert (is_mword (port << 12) /\ (port << 12) .& 0xfff = 0) as [Hpm Hpz].
  { rewrite Z.shiftl_mul_pow2 by lia. split.
    - destruct Hp as [? ?]. unfold in_range.
      replace MWORD_BITS with ((MWORD_BITS - 12) + 12) by lia. rewrite Z.pow_add_r by lia. lia.
    - rewrite <- Z.shiftl_mul_pow2 by lia. change 0xfff with (Z.ones 12). bits_ext. }
  unfold m, o, i, L4_fpage.mem, L4_fpage.obj, L4_fpage.io. rewrite mask_addr, Hio by done.
  unfold L4_fpage.is_mempage, L4_fpage.is_objpage, L4_fpage.is_iopage, L4_fpage.obj_index,
    L4_fpage.io_address.
  pose proof (fun t => fpage_fields t _ order rights Hm Hz Ho Hr) as Hf.
  destruct (Hf L4_fpage.Memory) as (-> & -> & -> & -> & _).
  destruct (Hf L4_fpage.Obj) as (-> & -> & -> & _ & ->).
  destruct (fpage_fields L4_fpage.Io _ order rights Hpm Hpz Ho Hr) as (-> & -> & -> & _ & ->).
  repeat split; try done.
  - change 0xfff with (Z.ones 12). bits_ext.
  - rewrite Z.shiftr_shiftl_l by lia. by rewrite Z.sub_diag, Z.shiftl_0_r.
Qed.

(** Every machine word is the encoding of the parts it decodes to, so no
    bit of a flex page received from user level is lost or ignored. *)
Theorem fpage_encode_decode raw :
  is_mword raw ->
  exists t, L4_fpage.type raw = L4_fpage.type_code t
  /\ L4_fpage.make t (L4_fpage.mem_address raw) (L4_fpage.order raw) (L4_fpage.rights raw) = raw.
Proof.
  intros Hraw. pose proof arch_ge32.
  assert (in_range 2 (L4_fpage.type raw)) as Ht by (apply (get_range 4 5); solve_field).
  assert (exists t, L4_fpage.type raw = L4_fpage.type_code t) as [t Et].
  { assert (L4_fpage.type raw = 0 \/ L4_fpage.type raw = 1 \/ L4_fpage.type raw = 2
            \/ L4_fpage.type raw = 3) as Hc by (unfold in_range in Ht; lia).
    destruct Hc as [-> | [-> | [-> | ->]]];
      [exists L4_fpage.Special | exists L4_fpage.Memory | exists L4_fpage.Io | exists L4_fpage.Obj]; done. }
  exists t. split; [done |]. unfold L4_fpage.make. rewrite <- Et.
  assert (in_range (3 + 1 - 0) (L4_fpage.rights raw)) by (apply get_range; solve_field).
  assert (in_range (11 + 1 - 6) (L4_fpage.order raw)) by (apply get_range; solve_field).
  assert (in_range (5 + 1 - 4) (L4_fpage.type raw)) by done.
  apply Z.bits_inj'; intros n Hn.
  unfold L4_fpage.mem_address, L4_fpage.type, L4_fpage.order, L4_fpage.rights, L4_fpage._rights in *.
  field_bits. repeat case_cmp; rewrite ?Z.sub_add, ?Z.sub_0_r, ?Z.add_0_r; repeat bits_high; try bits_close.
  all: simpl; field_bits; rewrite ?Z.sub_add; repeat case_cmp; bits_close.
Qed.

(** Masking the rights of a flex page intersects them and touches nothing
    else; rights can only be lost. *)
Theorem fpage_mask_rights raw r :
  is_mword raw -> in_range 4 r ->
  let fp := L4_fpage.mask_rights raw r in
  L4_fpage.rights fp = L4_fpage.Rights.apply (L4_fpage.rights raw) r
  /\ L4_fpage.type fp = L4_fpage.type raw /\ L4_fpage.order fp = L4_fpage.order raw
  /\ L4_fpage.mem_address fp = L4_fpage.mem_address raw.
Proof.
  intros Hraw Hr fp. pose proof arch_ge32.
  unfold fp, L4_fpage.mask_rights, L4_fpage.Rights.apply, L4_fpage.type, L4_fpage.order,
    L4_fpage.rights, L4_fpage._rights, L4_fpage.mem_address.
  repeat split; apply Z.bits_inj'; intros n Hn; field_bits; rewrite ?Z.add_0_r;
    repeat case_cmp; repeat bits_high; bits_close.
Qed.
End words.

Section tags.
Context `{Arch}.

(** A message tag yields the words, items, flags and (signed) protocol it
    was made of, for every number of words and items below 64, every
    combination of the four flag bits and every protocol that fits. *)
Theorem msg_tag_roundtrip words items flags proto :
  in_range 6 words -> in_range 6 items -> in_range 16 flags -> flags .& 0xfff = 0 ->
  - 2 ^ (MWORD_BITS - 17) <= proto < 2 ^ (MWORD_BITS - 17) ->
  let tag := L4_msg_tag.make words items flags (mwrap proto) in
  L4_msg_tag.words tag = words /\ L4_msg_tag.items tag = items
  /\ L4_msg_tag.proto tag = proto /\ tag .& 0xf000 = flags.
Proof.
  intros Hw Hi Hf Hal Hp tag. pose proof arch_ge32.
  assert (forall n, n < 12 -> Z.testbit flags n = false) as Hlow.
  { intros n Hn. destruct (Z.ltb_spec n 0); [by apply Z.testbit_neg_r |].
    assert (Z.testbit (flags .& 0xfff) n = false) as Hb by (rewrite Hal; apply Z.bits_0).
    change 0xfff with (Z.ones 12) in Hb. rewrite Z.land_spec, testbit_ones in Hb by lia.
    revert Hb. case_cmp. by rewrite andb_true_r. }
  unfold tag, L4_msg_tag.words, L4_msg_tag.items, L4_msg_tag.proto, L4_msg_tag.make.
  change 63 with (Z.ones 6). change 0xf000 with (Z.ones 4 << 12).
  repeat split; apply Z.bits_inj'; intros n Hn.
  3:{ rewrite Z.shiftr_spec, testbit_to_signed by lia.
      destruct (Z.ltb_spec (n + 16) MWORD_BITS); [| rewrite (testbit_sign (MWORD_BITS - 17) _ n) by lia];
      repeat bits_step; rewrite ?Hlow by lia; repeat case_cmp; repeat bits_high;
      repeat bits_step; simpl; rewrite ?Z.add_simpl_r; try bits_close;
      rewrite (testbit_sign (MWORD_BITS - 17)) by lia; case_cmp; done. }
  all: bits_simp; rewrite ?Hlow by lia; bits_close.
Qed.

(** A relative timeout decodes to mantissa times two to the exponent, the
    special values are recognised, and a timeout pair survives the conversion
    to its raw word. *)
Theorem timeout_roundtrip man exp clock :
  in_range 10 man -> in_range 5 exp -> 0 <= clock -> clock + man * 2 ^ exp < 2 ^ 64 ->
  let t := L4_timeout.make man exp in
  L4_timeout.man t = man /\ L4_timeout.exp t = exp /\ L4_timeout.is_absolute t = false
  /\ L4_timeout.microsecs_rel t clock = (if man =? 0 then 0 else clock + man * 2 ^ exp)
  /\ L4_timeout_pair.of_raw (L4_timeout_pair.raw (L4_timeout_pair.mk t L4_timeout.Zero))
     = L4_timeout_pair.mk t L4_timeout.Zero.
Proof.
  intros Hm He Hc Hov t. pose proof arch_ge32.
  assert (t = man .| (exp << 10)) as Ht.
  { unfold t, L4_timeout.make, L4_timeout.Man_mask, L4_timeout.Exp_mask, L4_timeout.Exp_shift.
    change 0x3ff with (Z.ones 10). change 0x7c00 with (Z.ones 5 << 10). bits_ext. }
  assert (in_range 16 t) as Ht16 by (apply wrap_range; lia).
  assert (L4_timeout.man t = man) as Em.
  { rewrite Ht. unfold L4_timeout.man, L4_timeout.Man_mask, L4_timeout.Man_shift.
    rewrite ones_0x3ff. bits_ext. }
  assert (L4_timeout.exp t = exp) as Ee.
  { rewrite Ht. unfold L4_timeout.exp, L4_timeout.Exp_mask, L4_timeout.Exp_shift.
    change 0x7c00 with (Z.ones 5 << 10). bits_ext. }
  split; [done | split; [done | split; [| split]]].
  - unfold L4_timeout.is_absolute, L4_timeout.Abs_mask. change 0x8000 with (2 ^ 15).
    rewrite nonzero_land_bit, Ht by lia. repeat bits_step. repeat bits_high. done.
  - unfold L4_timeout.microsecs_rel. rewrite Em, Ee. case_cmp; [done |].
    assert (0 < 2 ^ exp) by (apply pow2_pos; unfold in_range in *; lia).
    rewrite Z.shiftl_mul_pow2 by (unfold in_range in *; lia).
    unfold in_range in *. rewrite (wrap_small 64 (man * _)) by (unfold in_range; nia).
    apply wrap_small. unfold in_range. nia.
  - unfold L4_timeout_pair.of_raw, L4_timeout_pair.raw, L4_timeout.of_raw, L4_timeout.Zero; simpl.
    assert (in_range 16 0x400) by (unfold in_range; lia). f_equal; bits_ext.
Qed.

(** An absolute timeout may select the word behind the last buffer
    register: the index is bounded by [Max_buffers], not by the last index of
    the array. *)
Theorem timeout_abs_index_past_end (u : Utcb.t) :
  Utcb.wf u ->
  let t := 0x803f in
  L4_timeout.is_absolute t = true
  /\ Utcb.buffers u !! Z.to_nat (L4_timeout.abs_idx t) = None
  /\ Utcb.buffers_mem u !! Z.to_nat (L4_timeout.abs_idx t) = Some (Utcb.error u).
Proof.
  intros [_ Hb] t. split; [done | split].
  - apply lookup_ge_None_2. rewrite Hb. done.
  - unfold Utcb.buffers_mem. rewrite lookup_app_r; [| by rewrite Hb].
    by rewrite Hb.
Qed.
End tags.

(** * CPU sets *)

Section cpu_set.
Context `{Arch}.
Import L4_cpu_set.

Lemma granularity_range s : 0 <= granularity s <= 24.
Proof.
  unfold granularity. rewrite ones_0xff.
  assert (0 <= (_w s >> 24) .& Z.ones 8) by (apply Z.land_nonneg; right; done).
  destruct (_ >? _) eqn:E; [lia |]. rewrite Z.gtb_ltb in E. apply Z.ltb_ge in E. lia.
Qed.

Lemma offset_range s : 0 <= offset s < 2 ^ 24.
Proof.
  unfold offset, mask_lsb. change 0x00ffffff with (Z.ones 24).
  apply (in_range_land_l 24); [lia |]. apply in_range_land_r; [lia |]. done.
Qed.

Lemma nonzero_bit m b : 0 <= b -> nonzero ((m >> b) .& 1) = Z.testbit m b.
Proof.
  intros Hb. change 1 with (2 ^ 0) at 1. rewrite nonzero_land_bit by lia.
  rewrite Z.shiftr_spec by lia. done.
Qed.

#[local] Opaque offset granularity.

(** The granule of [cpu], and membership in terms of it. *)
Definition granule (s : t) (cpu : Z) : Z := (cpu - offset s) >> granularity s.

Lemma granule_div s cpu : granule s cpu = (cpu - offset s) / 2 ^ granularity s.
Proof. pose proof (granularity_range s). unfold granule. by rewrite Z.shiftr_div_pow2 by lia. Qed.

Lemma granule_nonneg s cpu : offset s <= cpu -> 0 <= granule s cpu.
Proof.
  intros. rewrite granule_div. apply Z.div_pos; [lia |].
  apply pow2_pos. pose proof (granularity_range s). lia.
Qed.

Lemma contains_spec s cpu :
  contains s cpu = (offset s <=? cpu) && (granule s cpu <? MWORD_BITS) && Z.testbit (_map s) (granule s cpu).
Proof.
  unfold contains. fold (granule s cpu). rewrite Z.gtb_ltb, Z.geb_leb, Z.ltb_antisym.
  destruct (Z.leb_spec (offset s) cpu) as [Hle | _]; [| reflexivity].
  rewrite Z.leb_antisym. destruct (_ <? _); [| reflexivity].
  apply nonzero_bit, granule_nonneg, Hle.
Qed.

(** All CPUs from a granule's first up to the next granule's first share the
    granule. *)
Lemma granule_same s cpu c :
  (cpu - offset s) mod 2 ^ granularity s = 0 -> cpu <= c < cpu + 2 ^ granularity s ->
  granule s c = granule s cpu.
Proof.
  intros Hal Hc. rewrite !granule_div. pose proof (granularity_range s).
  assert (0 < 2 ^ granularity s) by (apply pow2_pos; lia).
  symmetry. apply Z.div_unique with (r := c - offset s - (cpu - offset s)); [lia |].
  pose proof (Z.div_mod (cpu - offset s) (2 ^ granularity s)). lia.
Qed.

(** Stepping over one CPU either stays in its granule or starts the next. *)
Lemma granule_succ s cpu :
  granule s (cpu + 1) = granule s cpu \/ (cpu + 1 - offset s) mod 2 ^ granularity s = 0.
Proof.
  pose proof (granularity_range s).
  assert (0 < 2 ^ granularity s) as Hg by (apply pow2_pos; lia).
  destruct (Z.eq_dec ((cpu + 1 - offset s) mod 2 ^ granularity s) 0) as [? | Hne]; [by right | left].
  rewrite !granule_div. pose proof (Z.mod_pos_bound (cpu + 1 - offset s) _ Hg).
  pose proof (Z.div_mod (cpu + 1 - offset s) (2 ^ granularity s)).
  apply Z.div_unique with (r := (cpu + 1 - offset s) mod 2 ^ granularity s - 1); lia.
Qed.

(** [cpu] starts a granule or lies in one that belongs to the set. *)
Definition first_pos (s : t) (cpu : Z) : Prop :=
  offset s <= cpu /\
  ((cpu - offset s) mod 2 ^ granularity s = 0
   \/ (granule s cpu < MWORD_BITS /\ Z.testbit (_map s) (granule s cpu) = true)).

Definition candidate (s : t) (bm : Z -> bool) (c : Z) : bool := contains s c && bm c.

(** What one iteration does, for every map [bm] of available CPUs. *)
Lemma first_step_spec s bm max cpu :
  0 <= max <= 2 ^ 31 -> first_pos s cpu -> cpu < 2 ^ 31 + 2 ^ 24 ->
  match first_step s bm max cpu with
  | inl r => (r = max /\ forall c, cpu <= c < max -> candidate s bm c = false)
             \/ (r = cpu /\ cpu < max /\ candidate s bm cpu = true)
  | inr cpu' => cpu < cpu' <= cpu + 2 ^ 24 /\ cpu < max /\ first_pos s cpu'
                /\ forall c, cpu <= c < cpu' -> candidate s bm c = false
  end.
Proof.
  intros Hmax [Hoff Hpos] Hcpu. pose proof (granularity_range s) as Hg. pose proof (offset_range s).
  assert (1 <= 2 ^ granularity s <= 2 ^ 24) as Hp.
  { split; [apply (Z.pow_le_mono_r 2 0); lia | apply Z.pow_le_mono_r; lia]. }
  unfold first_step. rewrite (wrap_small 32 (cpu - offset s)) by (unfold in_range; lia).
  fold (granule s cpu). pose proof (granule_nonneg s cpu Hoff) as Hgn.
  rewrite !Z.geb_leb. destruct (Z.leb_spec max cpu) as [Hge | Hlt]; simpl.
  { left. split; [done |]. intros; lia. }
  destruct (Z.leb_spec MWORD_BITS (granule s cpu)) as [Hbig | Hsmall]; simpl.
  { left. split; [done |]. intros c Hc. unfold candidate. rewrite contains_spec.
    assert (granule s cpu <= granule s c) as Hmono.
    { rewrite !granule_div. apply Z.div_le_mono; lia. }
    destruct (Z.ltb_spec (granule s c) MWORD_BITS); [lia |]. by rewrite andb_false_r. }
  rewrite nonzero_bit by done. destruct (Z.testbit (_map s) (granule s cpu)) eqn:Eb; simpl.
  - destruct (bm cpu) eqn:Ebm.
    + right. split; [done | split; [done |]]. unfold candidate. rewrite contains_spec, Eb, Ebm.
      repeat case_cmp; done.
    + rewrite wrap_small by (unfold in_range; lia). split; [lia | split; [done | split]].
      * split; [lia |]. destruct (granule_succ s cpu) as [He | He]; [right | by left].
        rewrite He. done.
      * intros c Hc. replace c with cpu by lia. unfold candidate. by rewrite Ebm, andb_false_r.
  - destruct Hpos as [Hal | [_ ?]]; [| congruence].
    rewrite Z.shiftl_1_l, !wrap_small by (unfold in_range; rewrite ?wrap_small; unfold in_range; lia).
    split; [lia | split; [done | split]].
    + split; [lia |]. left. replace (cpu + _ - offset s) with (cpu - offset s + 1 * 2 ^ granularity s) by lia.
      by rewrite Z_mod_plus_full.
    + intros c Hc. unfold candidate. rewrite contains_spec, (granule_same s cpu c Hal Hc), Eb.
      by rewrite andb_false_r.
Qed.

Lemma first_loop_spec fuel s bm max cpu :
  0 <= max <= 2 ^ 31 -> first_pos s cpu -> cpu < 2 ^ 31 + 2 ^ 24 ->
  (0 < fuel)%nat -> max < cpu + Z.of_nat fuel ->
  exists r, first_loop fuel s bm max cpu = Some r
  /\ (r = max \/ r < max /\ candidate s bm r = true)
  /\ forall c, cpu <= c < r -> candidate s bm c = false.
Proof.
  intros Hmax. revert cpu. induction fuel as [|fuel IH]; intros cpu Hpos Hcpu H0 Hf; [lia |].
  cbn [first_loop]. pose proof (first_step_spec s bm max cpu Hmax Hpos Hcpu) as Hs.
  destruct (first_step s bm max cpu) as [r | cpu'].
  - exists r. split; [done |]. destruct Hs as [[-> Hn] | (-> & ? & ?)].
    + split; [by left | done].
    + split; [by right | intros; lia].
  - destruct Hs as ((Hlo & Hhi) & Hlt & Hpos' & Hskip).
    destruct (IH cpu') as (r & Hr & Hres & Hmin); [done | lia | lia | lia |].
    exists r. split; [done | split; [done |]]. intros c Hc.
    destruct (Z.lt_ge_cases c cpu'); [apply Hskip | apply Hmin]; lia.
Qed.

(** [L4_cpu_set::first] terminates and returns the smallest CPU below
    [max] that is in the set and in the map [bm], or [max] when there is none. *)
Theorem cpu_set_first_spec s bm max :
  0 <= max <= 2 ^ 31 ->
  exists r, first s bm max = Some r
  /\ (r = max \/ r < max /\ contains s r = true /\ bm r = true)
  /\ forall c, 0 <= c < r -> contains s c && bm c = false.
Proof.
  intros Hmax. pose proof (offset_range s). unfold first.
  assert (max < offset s + Z.of_nat (S (Z.to_nat max))) as Hfuel by lia.
  destruct (first_loop_spec (S (Z.to_nat max)) s bm max (offset s)) as (r & Hr & Hres & Hmin);
    try done; try lia.
  { split; [lia |]. left. by rewrite Z.sub_diag, Zmod_0_l. }
  exists r. split; [done | split].
  - destruct Hres as [? | [? Hc]]; [by left | right].
    unfold candidate in Hc. apply andb_true_iff in Hc. done.
  - intros c Hc. destruct (Z.lt_ge_cases c (offset s)) as [Hlt | Hge].
    + rewrite contains_spec. by destruct (Z.leb_spec (offset s) c); [lia |].
    + apply Hmin. lia.
Qed.

End cpu_set.

(** * Message item iterators *)

Section iterators.
Context `{Arch}.

Lemma buf_size_range item : (1 <= L4_buf_iter.size item <= 3)%nat.
Proof. unfold L4_buf_iter.size. repeat case_match; lia. Qed.

Lemma buf_size_small item :
  (L4_msg_item.type item =? L4_msg_item.Map) && L4_msg_item.is_small_obj item = false ->
  (L4_buf_iter.size item = if L4_msg_item.compound item then 3 else 2)%nat.
Proof. intros E. unfold L4_buf_iter.size. rewrite E. by destruct (L4_msg_item.compound item). Qed.

(** Fetching a receive buffer reads only buffer registers, whatever user
    level stored in them; it delivers an item exactly when it moves on, by the
    size of the item and within the array, and otherwise a void item. *)
Theorem buf_iter_next_safe brs it :
  length brs = Utcb.Max_buffers ->
  exists r it', L4_buf_iter.next brs it = Some (r, it')
  /\ (r = true ->
      (L4_buf_iter._buf it < L4_buf_iter._buf it' <= Utcb.Max_buffers)%nat
      /\ Some (L4_buf_iter.b (L4_buf_iter.c it')) = brs !! L4_buf_iter._buf it
      /\ L4_buf_iter._buf it' = (L4_buf_iter._buf it + L4_buf_iter.size (L4_buf_iter.b (L4_buf_iter.c it')))%nat)
  /\ (r = false -> L4_msg_item.is_void (L4_buf_iter.b (L4_buf_iter.c it')) = true).
Proof.
  intros Hlen. unfold L4_buf_iter.next.
  destruct (Nat.leb_spec Utcb.Max_buffers (L4_buf_iter._buf it)) as [? | Hlt].
  { eexists _, _. done. }
  destruct (lookup_lt_is_Some_2 brs (L4_buf_iter._buf it)) as [br0 E0]; [lia |].
  rewrite E0; simpl. pose proof (buf_size_range br0).
  destruct (L4_msg_item.is_void br0) eqn:Ev; [by eexists _, _ |].
  destruct (Nat.ltb_spec Utcb.Max_buffers (L4_buf_iter._buf it + L4_buf_iter.size br0)) as [? | Hfit].
  { eexists _, _. done. }
  destruct (_ && _) eqn:Es.
  { eexists _, _. split; [done | split; [intros _ | done]]. cbn. repeat split; first [done | lia]. }
  pose proof (buf_size_small br0 Es) as Hsz.
  destruct (lookup_lt_is_Some_2 brs (L4_buf_iter._buf it + 1)) as [br1 E1];
    [destruct (L4_msg_item.compound br0); lia |].
  rewrite E1; simpl. destruct (L4_msg_item.compound br0) eqn:Ec.
  - destruct (lookup_lt_is_Some_2 brs (L4_buf_iter._buf it + 2)) as [br2 E2]; [lia |].
    rewrite E2; simpl. eexists _, _.
    split; [done | split; [intros _ | done]]. cbn. repeat split; first [done | lia].
  - eexists _, _. split; [done | split; [intros _ | done]]. cbn. repeat split; first [done | lia].
Qed.

(** A compound receive buffer that is not a small one occupies three
    registers, and its target task is the selector in the third of them. *)
Theorem buf_iter_compound_three brs it br0 br1 br2 :
  (L4_buf_iter._buf it + 3 <= Utcb.Max_buffers)%nat ->
  brs !! L4_buf_iter._buf it = Some br0 -> brs !! (L4_buf_iter._buf it + 1)%nat = Some br1 ->
  brs !! (L4_buf_iter._buf it + 2)%nat = Some br2 ->
  L4_msg_item.compound br0 = true -> L4_msg_item.is_small_obj br0 = false ->
  L4_buf_iter.next brs it
  = Some (true, L4_buf_iter.mk (L4_buf_iter._buf it + 3) (L4_buf_iter.mkItem br0 br1 br2)).
Proof.
  intros Hfit E0 E1 E2 Hc Hs. unfold L4_buf_iter.next. rewrite E0, E1, E2. cbn [mbind option_bind].
  destruct (Nat.leb_spec Utcb.Max_buffers (L4_buf_iter._buf it)); [lia |].
  assert (L4_msg_item.is_void br0 = false) as ->.
  { destruct (Z.eqb_spec br0 0) as [-> | ?]; [discriminate Hc |]. by apply Z.eqb_neq. }
  rewrite (buf_size_small br0) by (by rewrite Hs, andb_false_r).
  rewrite Hs, Hc, andb_false_r.
  destruct (Nat.ltb_spec Utcb.Max_buffers (L4_buf_iter._buf it + 3)); [lia |].
  unfold L4_obj_ref.of_shifted, L4_obj_ref.None. rewrite Z.lor_0_r. reflexivity.
Qed.

(** Fetching a send item while there are more never reads outside of the
    message registers; a successful fetch advances by two registers. *)
Theorem snd_item_next_safe values it :
  length values = Utcb.Max_words -> L4_snd_item_iter.more it = true ->
  exists r it', L4_snd_item_iter.next values it = Some (r, it')
  /\ Some (L4_snd_item_iter.b it') = values !! L4_snd_item_iter._buf it
  /\ (r = true -> L4_snd_item_iter._buf it' = (L4_snd_item_iter._buf it + 2)%nat)
  /\ (r = false -> S (L4_snd_item_iter._buf it) = Utcb.Max_words).
Proof.
  intros Hlen Hm. unfold L4_snd_item_iter.more in Hm. apply Nat.ltb_lt in Hm.
  unfold L4_snd_item_iter.next.
  destruct (lookup_lt_is_Some_2 values (L4_snd_item_iter._buf it)) as [b0 E0]; [lia |].
  rewrite E0; cbn [mbind option_bind]. destruct (L4_msg_item.is_void b0).
  { eexists _, _. done. }
  destruct (Nat.leb_spec Utcb.Max_words (L4_snd_item_iter._buf it + 1)).
  { eexists _, _. split; [done |]. cbn. repeat split; first [done | lia]. }
  destruct (lookup_lt_is_Some_2 values (L4_snd_item_iter._buf it + 1)) as [d0 E1]; [lia |].
  rewrite E1; cbn [mbind option_bind]. eexists _, _. done.
Qed.

End iterators.

(** * Witnesses: the hypotheses of the theorems hold at concrete inputs *)

Ltac closed_range := unfold in_range; simpl; lia.

Lemma fpage_roundtrip_witness :
  L4_fpage.mem_address (H := arch64) (L4_fpage.mem (H := arch64) 0x12345678 12 7) = 0x12345000.
Proof.
  destruct (@fpage_roundtrip arch64 0x12345678 0x60 12 7) as ((_ & _ & _ & E) & _);
    [closed_range.. |]. rewrite E. reflexivity.
Defined.

Lemma fpage_encode_decode_witness :
  exists t, L4_fpage.type (H := arch32) 0xdeadbeef = L4_fpage.type_code t.
Proof.
  destruct (@fpage_encode_decode arch32 0xdeadbeef) as (t & E & _); [closed_range |]. by exists t.
Defined.

Lemma fpage_mask_rights_witness :
  L4_fpage.rights (H := arch64) (L4_fpage.mask_rights (H := arch64) 0x1000f 5) = 5.
Proof.
  destruct (@fpage_mask_rights arch64 0x1000f 5) as (E & _); [closed_range.. |].
  rewrite E. reflexivity.
Defined.

Lemma msg_tag_roundtrip_witness :
  L4_msg_tag.proto (H := arch64) (L4_msg_tag.make (H := arch64) 2 1 0x1000 (mwrap (H := arch64) (-5))) = -5.
Proof.
  destruct (@msg_tag_roundtrip arch64 2 1 0x1000 (-5)) as (_ & _ & E & _);
    [closed_range | closed_range | closed_range | reflexivity | simpl; lia |]. exact E.
Defined.

Lemma timeout_roundtrip_witness :
  L4_timeout.microsecs_rel (L4_timeout.make (H := arch64) 1000 10) 5 = 5 + 1000 * 2 ^ 10.
Proof.
  destruct (@timeout_roundtrip arch64 1000 10 5) as (_ & _ & _ & E & _);
    [closed_range | closed_range | lia | simpl; lia |]. rewrite E. reflexivity.
Defined.

Definition utcb0 : Utcb.t :=
  Utcb.mk (replicate 63 0) 0 0 (replicate 58 0) 0 0 [0; 0; 0].

Lemma timeout_abs_index_past_end_witness :
  Utcb.buffers utcb0 !! Z.to_nat (L4_timeout.abs_idx 0x803f) = None.
Proof.
  destruct (@timeout_abs_index_past_end arch64 utcb0) as (_ & E & _); [split; reflexivity |]. exact E.
Defined.

Lemma cpu_set_first_witness :
  L4_cpu_set.first (H := arch64) (L4_cpu_set.mk 0x01000002 6) (fun c => negb (c =? 4)) 16 = Some 5
  /\ exists r, L4_cpu_set.first (H := arch64) (L4_cpu_set.mk 0x01000002 6) (fun c => negb (c =? 4)) 16 = Some r.
Proof.
  split; [vm_compute; reflexivity |].
  destruct (@cpu_set_first_spec arch64 (L4_cpu_set.mk 0x01000002 6) (fun c => negb (c =? 4)) 16)
    as (r & E & _); [lia |]. by exists r.
Defined.

Lemma buf_iter_next_safe_witness :
  is_Some (L4_buf_iter.next (H := arch64) (replicate 58 0xffff) (L4_buf_iter.mk 57 (L4_buf_iter.mkItem 0 0 0))).
Proof.
  destruct (@buf_iter_next_safe arch64 (replicate 58 0xffff) (L4_buf_iter.mk 57 (L4_buf_iter.mkItem 0 0 0)))
    as (r & it & E & _); [reflexivity |]. rewrite E. by eexists.
Defined.

Lemma buf_iter_compound_three_witness :
  L4_buf_iter.next (H := arch64) [9; 0x10; 0x20000] (L4_buf_iter.mk 0 (L4_buf_iter.mkItem 0 0 0))
  = Some (true, L4_buf_iter.mk 3 (L4_buf_iter.mkItem 9 0x10 0x20000)).
Proof.
  apply (@buf_iter_compound_three arch64 [9; 0x10; 0x20000] (L4_buf_iter.mk 0 (L4_buf_iter.mkItem 0 0 0)));
    first [reflexivity | vm_compute; lia].
Defined.

Lemma snd_item_next_safe_witness :
  is_Some (L4_snd_item_iter.next (replicate 63 8) (L4_snd_item_iter.init 62)).
Proof.
  destruct (snd_item_next_safe (replicate 63 8) (L4_snd_item_iter.init 62)) as (r & it & E & _);
    [reflexivity | reflexivity |]. rewrite E. by eexists.
Defined.
