(* ===== verification/RamQuota.v ===== *)
(** Kernel-memory quotas: [src/src/kern/ram_quota.h], [ram_quota.cc] and the
    scoped charge [auto_quota.h].

    [_current] is one atomic word that counts the charged bytes and carries
    the flag [Invalid] in its top bit once the quota object is dying.  The
    sequential functions give the effect of each operation; the step relation
    runs any number of operations concurrently, with every atomic access a
    step of its own. *)

From S2P Require Import Prelude.

Module Ram_quota.
Section ops.
Context `{Arch}.

Record t := mk { _current : Z; _max : Z }.

Definition Invalid : Z := mshl 1 (MWORD_BITS - 1).

Definition check_max (max : Z) : bool := negb (max =? 0) && (max <? msub Invalid 1).

Definition make (max : Z) : t := mk 0 max.
(** The protected constructor of the root quota. *)
Definition make_root : t := mk 0 0.

Definition current (q : t) : Z := _current q .& mnot Invalid.
Definition limit (q : t) : Z := _max q.
Definition unlimited (q : t) : bool := _max q =? 0.

(** One iteration of the loop of [alloc] with the value [o] last read from
    [_current]: the result, or the value to exchange. *)
Definition alloc_body (q : t) (bytes o : Z) : bool + Z :=
  if nonzero (o .& Invalid) then inl false
  else let n := madd o bytes in if n >? _max q then inl false else inr n.

(** [alloc] when nobody interferes: the first exchange succeeds. *)
Definition alloc (q : t) (bytes : Z) : bool * t :=
  if bytes >=? Invalid then (false, q)
  else if unlimited q then (true, q)
  else match alloc_body q bytes (_current q) with
       | inl r => (r, q)
       | inr n => (true, mk n (_max q))
       end.

Definition _free_bytes (q : t) (bytes : Z) : bool * t :=
  if unlimited q then (false, q)
  else let r := msub (_current q) bytes in (r =? Invalid, mk r (_max q)).

(** [free]: the flag says that the object deletes itself. *)
Definition free (q : t) (bytes : Z) : bool * t := _free_bytes q bytes.
Definition put (q : t) : bool * t := _free_bytes q 1.

Definition take_and_invalidate (q : t) : t :=
  if unlimited q then q else mk (madd (_current q) 1 .| Invalid) (_max q).

(** ** Concurrent executions

    A thread is idle, inside the loop of [alloc] with the value it read last,
    or has a result. *)
Inductive thread := Idle | Alloc_loop (bytes o : Z) | Alloc_done (r : bool).

Record sys := mksys {
  quota : t;
  threads : list thread;
  held : Z;          (** ghost: bytes charged and not yet returned *)
  dying : bool;      (** ghost: [take_and_invalidate] has run *)
  deleted : bool }.  (** the object has been deleted *)

Definition set_thread (s : sys) (i : nat) (th : thread) : sys :=
  mksys (quota s) (<[i := th]> (threads s)) (held s) (dying s) (deleted s).

Inductive step : sys -> sys -> Prop :=
| step_start s i bytes :
    threads s !! i = Some Idle -> 0 <= bytes < Invalid -> deleted s = false ->
    step s (set_thread s i (Alloc_loop bytes (_current (quota s))))
| step_fail s i bytes o r :
    threads s !! i = Some (Alloc_loop bytes o) ->
    alloc_body (quota s) bytes o = inl r ->
    step s (set_thread s i (Alloc_done r))
| step_cas_ok s i bytes o n :
    threads s !! i = Some (Alloc_loop bytes o) ->
    alloc_body (quota s) bytes o = inr n -> _current (quota s) = o ->
    step s (mksys (mk n (_max (quota s))) (<[i := Alloc_done true]> (threads s))
              (held s + bytes) (dying s) (deleted s))
(* a weak exchange may also fail when the values agree *)
| step_cas_retry s i bytes o n :
    threads s !! i = Some (Alloc_loop bytes o) ->
    alloc_body (quota s) bytes o = inr n ->
    step s (set_thread s i (Alloc_loop bytes (_current (quota s))))
| step_return s i r :
    threads s !! i = Some (Alloc_done r) -> step s (set_thread s i Idle)
(* a holder returns some of the bytes it charged *)
| step_free s bytes r q' :
    0 <= bytes <= held s -> deleted s = false -> free (quota s) bytes = (r, q') ->
    step s (mksys q' (threads s) (held s - bytes) (dying s) (deleted s || r))
| step_invalidate s :
    dying s = false ->
    step s (mksys (take_and_invalidate (quota s)) (threads s) (held s + 1) true (deleted s)).

Definition initial (max : Z) (n : nat) : sys :=
  mksys (make max) (replicate n Idle) 0 false false.

End ops.
End Ram_quota.

(** ** Auto_quota: a charge that is undone unless it is released *)
Module Auto_quota.
Section ops.
Context `{Arch}.
Import Ram_quota.

(** [_charged] is [_quota != nullptr]. *)
Record t := mk { _charged : bool; _bytes : Z }.

Definition make (q : Ram_quota.t) (size : Z) : t * Ram_quota.t :=
  let '(ok, q') := alloc q size in (mk ok size, q').
Definition ok (a : t) : bool := _charged a.
Definition release (a : t) : t := mk false (_bytes a).
Definition reset (a : t) (q : Ram_quota.t) : t * Ram_quota.t :=
  (mk false (_bytes a), if _charged a then snd (free q (_bytes a)) else q).
Definition destroy (a : t) (q : Ram_quota.t) : Ram_quota.t := snd (reset a q).

End ops.
End Auto_quota.

(** * Properties *)

Section quota.
Context `{Arch}.
Import Ram_quota.

Lemma invalid_pow : Invalid = 2 ^ (MWORD_BITS - 1).
Proof.
  unfold Invalid, mshl, mwrap. pose proof arch_ge32. rewrite Z.shiftl_1_l.
  apply wrap_small. split; [apply Z.pow_nonneg; lia | apply Z.pow_lt_mono_r; lia].
Qed.

Lemma invalid_double : 2 ^ MWORD_BITS = 2 * Invalid.
Proof.
  rewrite invalid_pow. pose proof arch_ge32.
  replace MWORD_BITS with (1 + (MWORD_BITS - 1)) at 1 by lia. rewrite Z.pow_add_r by lia. lia.
Qed.

Lemma invalid_big : 2 ^ 31 <= Invalid.
Proof. rewrite invalid_pow. pose proof arch_ge32. apply Z.pow_le_mono_r; lia. Qed.

Lemma invalid_bit x : 0 <= x < 2 * Invalid -> nonzero (x .& Invalid) = (Invalid <=? x).
Proof.
  intros Hx. pose proof invalid_double as Hd. pose proof arch_ge32. rewrite invalid_pow in *.
  rewrite nonzero_land_bit by lia. rewrite Z.testbit_eqb by lia.
  assert (0 < 2 ^ (MWORD_BITS - 1)) by (apply pow2_pos; lia). case_cmp.
  - assert (x / 2 ^ (MWORD_BITS - 1) = 1) as ->; [| done].
    symmetry. apply Z.div_unique with (x - 2 ^ (MWORD_BITS - 1)); lia.
  - rewrite Z.div_small by lia. done.
Qed.

(** Setting the flag of a word that does not have it adds its value. *)
Lemma lor_invalid x : 0 <= x < Invalid -> x .| Invalid = x + Invalid.
Proof.
  intros Hx. pose proof arch_ge32. rewrite Z.add_nocarry_lxor.
  - apply Z.bits_inj'. intros n Hn. rewrite Z.lor_spec, Z.lxor_spec.
    rewrite invalid_pow in *. destruct (Z.eq_dec n (MWORD_BITS - 1)) as [-> | ?].
    + rewrite (testbit_high (MWORD_BITS - 1) x) by (done || lia). by destruct (Z.testbit _ _).
    + rewrite Z.pow2_bits_false by lia. by destruct (Z.testbit _ _).
  - apply Z.bits_inj'. intros n Hn. rewrite Z.land_spec, Z.bits_0. rewrite invalid_pow in *.
    destruct (Z.eq_dec n (MWORD_BITS - 1)) as [-> | ?].
    + by rewrite (testbit_high (MWORD_BITS - 1) x) by (done || lia).
    + rewrite Z.pow2_bits_false by lia. apply andb_false_r.
Qed.

Definition wf_max (max : Z) : Prop := check_max max = true.

Lemma wf_max_range max : 0 <= max -> wf_max max -> 0 < max < Invalid - 1.
Proof.
  unfold wf_max, check_max, msub, mwrap. pose proof invalid_big. pose proof invalid_double.
  intros Hm [Hz Hl]%andb_true_iff. apply negb_true_iff, Z.eqb_neq in Hz.
  rewrite wrap_small in Hl by (unfold in_range; lia). apply Z.ltb_lt in Hl. lia.
Qed.

(** The word that represents [held] charged bytes. *)
Definition encode (held : Z) (dying : bool) : Z := held + if dying then Invalid else 0.

(** [alloc_body] at a word that represents [h] bytes. *)
Lemma alloc_body_spec q bytes h (d : bool) :
  0 < _max q < Invalid - 1 -> 0 <= bytes < Invalid -> 0 <= h <= _max q + (if d then 1 else 0) ->
  alloc_body q bytes (encode h d)
  = if d then inl false else if h + bytes <=? _max q then inr (encode (h + bytes) d) else inl false.
Proof.
  intros Hm Hb Hh. unfold alloc_body, encode. pose proof invalid_double.
  destruct d; rewrite ?Z.add_0_r.
  - rewrite invalid_bit by lia. destruct (Z.leb_spec Invalid (h + Invalid)); [done | lia].
  - rewrite invalid_bit by lia. destruct (Z.leb_spec Invalid h); [lia |].
    unfold madd, mwrap. rewrite wrap_small by (unfold in_range; lia).
    rewrite Z.gtb_ltb, Z.ltb_antisym. by destruct (h + bytes <=? _max q).
Qed.

(** The effect of one [alloc] on a live quota: it succeeds exactly when the
    new total is within the limit, and then charges the bytes. *)
Lemma quota_alloc_spec q bytes :
  0 < _max q < Invalid - 1 -> 0 <= bytes -> 0 <= _current q <= _max q ->
  alloc q bytes = if _current q + bytes <=? _max q
                  then (true, mk (_current q + bytes) (_max q)) else (false, q).
Proof.
  intros Hm Hb Hc. unfold alloc, unlimited. rewrite Z.geb_leb.
  destruct (Z.eqb_spec (_max q) 0); [lia |]. destruct (Z.leb_spec Invalid bytes).
  - destruct (Z.leb_spec (_current q + bytes) (_max q)); [lia | done].
  - pose proof (alloc_body_spec q bytes (_current q) false Hm) as Hs.
    unfold encode in Hs. rewrite !Z.add_0_r in Hs. rewrite Hs by lia. by case_cmp.
Qed.

(** ** Any interleaving keeps the books *)

Definition thread_ok (max : Z) (th : thread) : Prop :=
  match th with
  | Alloc_loop bytes o => 0 <= bytes < Invalid
      /\ exists h d, o = encode h d /\ 0 <= h <= max + (if d : bool then 1 else 0)
  | _ => True
  end.

Record inv (max : Z) (s : sys) : Prop := {
  inv_max : _max (quota s) = max;
  inv_current : _current (quota s) = encode (held s) (dying s);
  inv_held : 0 <= held s <= max + (if dying s then 1 else 0);
  inv_threads : Forall (thread_ok max) (threads s);
  inv_deleted : deleted s = true -> held s = 0 /\ dying s = true }.

Lemma thread_ok_lookup max ths i th : Forall (thread_ok max) ths -> ths !! i = Some th -> thread_ok max th.
Proof. intros Hf Hi. by eapply Forall_lookup_1. Qed.

Lemma quota_step_inv max s s' : 0 < max < Invalid - 1 -> inv max s -> step s s' -> inv max s'.
Proof.
  intros Hm [Emax Ecur Hh Hth Hdel] Hstep. pose proof invalid_double.
  destruct Hstep as [s i bytes Hi Hb Hnd | s i bytes o r Hi Ha | s i bytes o n Hi Ha Ho
    | s i bytes o n Hi Ha | s i r Hi | s bytes r q' Hb Hnd Hf | s Hd];
    try (split; simpl; try done; apply Forall_insert; [done |]; try done).
  - (* start *) simpl. split; [done |]. rewrite Ecur. eauto.
  - (* successful exchange *)
    pose proof (thread_ok_lookup _ _ _ _ Hth Hi) as [Hb _].
    rewrite <- Ho, Ecur, alloc_body_spec in Ha by (rewrite ?Emax; done).
    destruct (dying s) eqn:Ed; [done |].
    destruct (Z.leb_spec (held s + bytes) (_max (quota s))); [| done]. injection Ha as <-.
    split; simpl; rewrite ?Ed; try done; [| by apply Forall_insert |].
    + rewrite Emax in *. lia.
    + intros [? ?]%Hdel. congruence.
  - (* retry *)
    pose proof (thread_ok_lookup _ _ _ _ Hth Hi) as [Hb _].
    simpl. split; [done |]. rewrite Ecur. eauto.
  - (* free *)
    unfold free, _free_bytes, unlimited in Hf. rewrite Emax in Hf.
    destruct (Z.eqb_spec max 0); [lia |]. injection Hf as <- <-.
    assert (msub (_current (quota s)) bytes = encode (held s - bytes) (dying s)) as Em.
    { rewrite Ecur. unfold msub, mwrap, encode. rewrite wrap_small; [lia |].
      unfold in_range. destruct (dying s); lia. }
    split; simpl; try done.
    + destruct (dying s); lia.
    + rewrite Hnd, Em. simpl. intros He%Z.eqb_eq. unfold encode in He.
      destruct (dying s); [| lia]. split; [lia | done].
  - (* invalidate *)
    assert (deleted s = false) as Hnd by (destruct (deleted s); [destruct Hdel; congruence | done]).
    rewrite Hd in *. unfold encode in Ecur. rewrite Z.add_0_r in Ecur.
    assert (take_and_invalidate (quota s) = mk (encode (held s + 1) true) max) as Et.
    { unfold take_and_invalidate, unlimited. rewrite Emax. destruct (Z.eqb_spec max 0); [lia |].
      f_equal. unfold madd, mwrap. rewrite wrap_small by (unfold in_range; lia).
      rewrite lor_invalid by lia. unfold encode. lia. }
    split; simpl; rewrite ?Et; simpl; try done; [lia |]. congruence.
Qed.

Lemma initial_inv max n : 0 < max < Invalid - 1 -> inv max (initial max n).
Proof.
  intros Hm. split; simpl; try done; [lia |]. by apply Forall_replicate.
Qed.

(** C38: whatever the interleaving of allocations, releases and the
    invalidation, the charged bytes never exceed the limit (one byte more once
    the quota is dying), [_current] represents exactly what is held, and the
    object is deleted only when it is dying and nothing is held any more. *)
Theorem quota_concurrent_safe max n s :
  0 <= max -> check_max max = true -> rtc step (initial max n) s ->
  0 <= held s <= max + (if dying s then 1 else 0)
  /\ current (quota s) = held s
  /\ (deleted s = true -> held s = 0 /\ dying s = true).
Proof.
  intros H0 Hm Hs. apply wf_max_range in Hm; [| done].
  assert (inv max s) as [Emax Ecur Hh _ Hdel].
  { revert Hs. generalize (initial_inv max n Hm). generalize (initial max n).
    intros s0 Hi Hs. induction Hs; [done |]. eauto using quota_step_inv. }
  split; [done | split; [| done]].
  unfold current. rewrite Ecur. unfold encode. pose proof invalid_double. pose proof arch_ge32.
  assert (0 <= held s < Invalid) as Hr by (destruct (dying s); lia).
  destruct (dying s).
  - rewrite <- lor_invalid by lia. rewrite invalid_pow in *.
    assert (in_range (MWORD_BITS - 1) (held s)) by done.
    apply Z.bits_inj'. intros k Hk. bits_simp; destruct (Z.eq_dec k (MWORD_BITS - 1)) as [-> | ?];
      rewrite ?Z.pow2_bits_true, ?Z.pow2_bits_false by lia; repeat bits_high; bits_close.
  - rewrite Z.add_0_r, invalid_pow in *. assert (in_range (MWORD_BITS - 1) (held s)) by done.
    apply Z.bits_inj'. intros k Hk. bits_simp; destruct (Z.eq_dec k (MWORD_BITS - 1)) as [-> | ?];
      rewrite ?Z.pow2_bits_true, ?Z.pow2_bits_false by lia; repeat bits_high; bits_close.
Qed.

(** A scoped charge that is not released leaves the quota as it was; a
    released one keeps exactly its bytes charged. *)
Lemma auto_quota_scope q size :
  0 < _max q < Invalid - 1 -> 0 <= size -> 0 <= _current q <= _max q ->
  let '(a, q') := Auto_quota.make q size in
  Auto_quota.destroy a q' = q
  /\ Auto_quota.destroy (Auto_quota.release a) q' = q'
  /\ q' = mk (_current q + if Auto_quota.ok a then size else 0) (_max q).
Proof.
  intros Hm Hs Hc. pose proof invalid_double. destruct q as [c m]; simpl in *.
  unfold Auto_quota.make. rewrite quota_alloc_spec by done. simpl.
  destruct (Z.leb_spec (c + size) m); unfold Auto_quota.destroy, Auto_quota.reset; simpl.
  - split; [| done]. unfold free, _free_bytes, unlimited; simpl.
    destruct (Z.eqb_spec m 0); [lia |]. simpl. f_equal. unfold msub, mwrap.
    rewrite wrap_small by (unfold in_range; lia). lia.
  - by rewrite Z.add_0_r.
Qed.

End quota.

(** Two threads read the counter, the first one gets 60 of 100 bytes, the second
    one retries and fails; then the quota is invalidated and all is returned. *)
Module Quota_witness.
#[local] Existing Instance arch64.
Import Ram_quota.

Definition final : sys := mksys (mk Invalid 100) [Alloc_done true; Alloc_done false] 0 true true.

Lemma final_reached : rtc step (initial 100 2) final.
Proof.
  eapply rtc_l; [apply (step_start _ 0 60); [done | vm_compute; split; congruence | done] |].
  eapply rtc_l; [apply (step_start _ 1 60); [done | vm_compute; split; congruence | done] |].
  eapply rtc_l; [apply (step_cas_ok _ 0 60 0 60); done |].
  eapply rtc_l; [apply (step_cas_retry _ 1 60 0 60); done |].
  eapply rtc_l; [apply (step_fail _ 1 60 60 false); done |].
  eapply rtc_l; [apply step_invalidate; done |].
  eapply rtc_l; [apply (step_free _ 61 true (mk Invalid 100)); [simpl; lia | done | vm_compute; reflexivity] |].
  apply rtc_refl.
Qed.

Lemma quota_concurrent_safe_witness :
  rtc step (initial 100 2) final /\ deleted final = true /\ held final = 0 /\ dying final = true.
Proof.
  destruct (quota_concurrent_safe 100 2 final) as (_ & _ & Hd); [lia | reflexivity | exact final_reached |].
  split; [exact final_reached |]. split; [reflexivity |]. exact (Hd eq_refl).
Defined.
End Quota_witness.

Lemma auto_quota_scope_witness :
  Auto_quota.destroy (H := arch64) (Auto_quota.mk true 7) (Ram_quota.mk 12 100) = Ram_quota.mk 5 100.
Proof.
  pose proof (@auto_quota_scope arch64 (Ram_quota.mk 5 100) 7) as T.
  destruct T as [E _]; [vm_compute; done | lia | simpl; lia |]. exact E.
Defined.
