(* ===== verification/MappingTree.v ===== *)
(** Mapping trees: [src/src/kern/mapping.h], [mapping_tree.h] and
    [mapping_tree.cc].

    A mapping tree is a singly linked list of [Mapping] nodes in pre-order;
    the depth stored in each node is all that encodes the tree.  The list is a
    Rocq list, an iterator that points at a node is its position, and
    [insertion_head()], whose node is null, is [None].  What the functions
    need from the rest of the kernel, the mapping allocator with its quotas
    and the template parameter [SUBMAP_OPS], are the classes [Mapping_alloc]
    and [Submap_ops] on the type of the remaining state. *)

From S2P Require Import Prelude.

(** ** Mapping *)
Module Mapping.
Section ops.
Context `{Arch}.

Definition depth (virt : Z) : Z := virt .& 0xff.
Definition has_max_depth (virt : Z) : bool := depth virt =? 0xff.
Definition page (virt : Z) : Z := virt >> 8.
Definition pfn (virt order : Z) : Z := mshl (virt >> 8) order.
Definition set_page (virt address : Z) : Z := (virt .& 0xff) .| mshl address 8.
Definition set_depth (virt depth : Z) : Z := (virt .& mnot 0xff) .| depth.
Definition is_root (virt : Z) : bool := depth virt =? 0.

(** A node.  [Real]: [_space] is set and the union holds [_virt]; [Sub]:
    [_space] is null and the union holds [_submap], a pointer to a treemap;
    [Blank]: a node fresh from the allocator, whose [_space] is null and which
    nobody asks for a submap before it becomes one of the others. *)
Inductive t := Real (space virt : Z) | Sub (submap : nat) | Blank (virt : Z).

#[export] Instance eq_dec : EqDecision t.
Proof. solve_decision. Defined.

Definition space (m : t) : option Z := match m with Real s _ => Some s | _ => None end.
Definition submap (m : t) : option nat := match m with Sub i => Some i | _ => None end.
Definition set_space (m : t) (s : Z) : t :=
  match m with Real _ v | Blank v => Real s v | Sub i => Sub i end.
Definition map_virt (f : Z -> Z) (m : t) : t :=
  match m with Real s v => Real s (f v) | Blank v => Blank (f v) | Sub i => Sub i end.
Definition set_submap (m : t) (i : nat) : t := Sub i.
Definition virt (m : t) : Z := match m with Real _ v | Blank v => v | Sub _ => 0 end.

End ops.
End Mapping.

(** ** What a mapping tree needs from its environment *)

(** The slab allocator for nodes, which charges a quota: [q_new] and
    [q_del]. *)
Class Mapping_alloc (W : Type) := {
  q_new : W -> Z -> bool * W;
  q_del : W -> Z -> W }.

(** The template parameter [SUBMAP_OPS]. *)
Class Submap_ops (W : Type) := {
  sub_owner : W -> nat -> Z;
  sub_is_partial : W -> nat -> Z -> Z -> bool;
  sub_del : W -> nat -> W;
  sub_mem_size : W -> nat -> Z;
  sub_grant : W -> nat -> Z -> Z -> Z -> W;
  sub_flush : W -> nat -> Z -> Z -> W }.

(** [Ram_quota::alloc] and [free] on the quota of a space. *)
Class Space_quota (W : Type) := {
  quota_alloc : W -> Z -> Z -> bool * W;
  quota_free : W -> Z -> Z -> W }.

Module Mapping_tree.
Section ops.
Context `{Arch} {W : Type} `{Mapping_alloc W} `{Submap_ops W} `{Space_quota W}.
Import Mapping.

(** [Mappings::insert(m, pred)]: the new node follows [pred]. *)
Definition insert_after (l : list t) (pred : nat) (m : t) : list t :=
  take (S pred) l ++ m :: drop (S pred) l.

(** [*it] *)
Definition deref (l : list t) (it : option nat) : option t := i ← it; l !! i.

(** [erase(owner)]: [q] is the quota of the last space seen. *)
Fixpoint erase_loop (w : W) (q : Z) (l : list t) : W :=
  match l with
  | [] => w
  | d :: l' => let q' := match space d with Some s => s | None => q end in
               erase_loop (q_del w q') q' l'
  end.

Definition erase (w : W) (owner : Z) (l : list t) : W * list t := (erase_loop w owner l, []).

(** The common end of [allocate] and [allocate_submap]: the list and the
    position of the new node. *)
Definition place (l : list t) (parent : option nat) (m : t) : list t * nat :=
  match deref l parent, parent with
  | Some _, Some p => (insert_after l p m, S p)
  | _, _ => (m :: l, O)
  end.

Definition allocate_submap (w : W) (payer : Z) (l : list t) (parent : option nat)
    : W * option (list t * nat) :=
  let '(ok, w) := q_new w payer in
  if negb ok then (w, None) else (w, Some (place l parent (Blank 0))).

Definition allocate (w : W) (payer : Z) (l : list t) (parent : option nat)
    : W * option (list t * nat) :=
  if match deref l parent with Some p => has_max_depth (virt p) | None => false end
  then (w, None)
  else
    let '(ok, w) := q_new w payer in
    if negb ok then (w, None)
    else
      let '(m, test) :=
        match deref l parent, parent with
        | Some p, Some i => (Blank (set_depth 0 (depth (virt p) + 1)), S i)
        | _, _ => (Blank (set_depth 0 0), O)
        end in
      let parent := match l !! test with Some (Sub _) => Some test | _ => parent end in
      (w, Some (place l parent m)).

Definition free_mapping (w : W) (q : Z) (l : list t) (m : nat) : W * list t :=
  (q_del w q, take m l ++ drop (S m) l).

Definition find_submap (l : list t) (parent : option nat) : option nat :=
  let i := match deref l parent, parent with Some _, Some p => S p | _, _ => O end in
  m ← l !! i; submap m.

(** [flush(m, p_depth, ...)]: the loop from the node [m], with the list from
    there on.  A [Blank] node is never in a tree that is flushed. *)
Fixpoint flush_loop (w : W) (l : list t) (p_depth m_depth : Z) (me_too : bool)
    (offs_begin offs_end : Z) : W * list t :=
  match l with
  | [] => (w, [])
  | Sub i :: l' =>
      let space := sub_owner w i in
      if negb me_too && (m_depth =? p_depth) && sub_is_partial w i offs_begin offs_end
      then let '(w, r) := flush_loop (sub_flush w i offs_begin offs_end) l' p_depth m_depth
                            me_too offs_begin offs_end in
           (w, Sub i :: r)
      else flush_loop (q_del (sub_del w i) space) l' p_depth m_depth me_too offs_begin offs_end
  | Real space v :: l' =>
      if depth v <=? p_depth then (w, l)
      else flush_loop (q_del w space) l' p_depth (depth v) me_too offs_begin offs_end
  | Blank _ :: _ => (w, l)
  end.

(** [flush(parent, me_too, ...)] *)
Definition flush (w : W) (l : list t) (parent : option nat) (me_too : bool)
    (offs_begin offs_end : Z) : W * list t :=
  match deref l parent, parent with
  | Some p, Some i =>
      let p_depth := depth (virt p) in
      if me_too
      then let w := match space p with Some s => q_del w s | None => w end in
           let '(w, r) := flush_loop w (drop (S i) l) p_depth p_depth me_too offs_begin offs_end in
           (w, take i l ++ r)
      else let '(w, r) := flush_loop w (drop (S i) l) p_depth p_depth me_too offs_begin offs_end in
           (w, take (S i) l ++ r)
  | _, _ => flush_loop w l (-1) (-1) false offs_begin offs_end
  end.

(** [grant]: the node [m] is a real mapping. *)
Definition grant (size : Z) (w : W) (l : list t) (m : nat) (new_space page : Z)
    : option (bool * W * list t) :=
  match l !! m with
  | Some (Real old_space v) =>
      let sub := find_submap l (Some m) in
      let finish w := match sub with Some i => sub_grant w i old_space new_space page | None => w end in
      if old_space =? new_space
      then Some (true, finish w, <[m := Real old_space (set_page v page)]> l)
      else
        let _quota := mwrap (size + match sub with Some i => sub_mem_size w i | None => 0 end) in
        let '(ok, w) := quota_alloc w new_space _quota in
        if negb ok then Some (false, w, l)
        else let w := quota_free w old_space _quota in
             Some (true, finish w, <[m := Real new_space (set_page v page)]> l)
  | _ => None
  end.

End ops.
End Mapping_tree.

(** ** The tree that the list encodes

    A node with its address space and page, the treemap for smaller pages that
    directly follows it, and its children. *)
Module Forest.
Section forest.
Context `{Arch}.
Import Mapping.

Inductive node := Node (space page : Z) (sub : option nat) (children : list node).

Definition sub_list (o : option nat) : list t := match o with Some i => [Sub i] | None => [] end.

Definition virt_of (page depth : Z) : Z := set_page (set_depth 0 depth) page.

Fixpoint encode (d : Z) (n : node) : list t :=
  match n with
  | Node s p sub cs =>
      Real s (virt_of p d) :: sub_list sub ++ concat (map (encode (d + 1)) cs)
  end.

Definition encode_all (d : Z) (ns : list node) : list t := concat (map (encode d) ns).

(** The list of a frame: an optional treemap of the frame itself, then the
    roots. *)
Definition encode_frame (sub : option nat) (roots : list node) : list t :=
  sub_list sub ++ encode_all 0 roots.

(** Depths are at most 255 and pages fit in the word. *)
Fixpoint ok (d : Z) (n : node) : bool :=
  match n with
  | Node s p sub cs => (0 <=? d) && (d <=? 255) && (0 <=? p) && (p <? 2 ^ (MWORD_BITS - 8))
      && forallb (ok (d + 1)) cs
  end.

(** A position in a forest: the siblings before and after, possibly below a
    node of an outer position. *)
Inductive ctx :=
| Top (left right : list node)
| Down (left : list node) (space page : Z) (sub : option nat) (inner : ctx) (right : list node).

Fixpoint plug (c : ctx) (ns : list node) : list node :=
  match c with
  | Top l r => l ++ ns ++ r
  | Down l s p sub c r => l ++ Node s p sub (plug c ns) :: r
  end.

Fixpoint level (c : ctx) : Z :=
  match c with Top _ _ => 0 | Down _ _ _ _ c _ => 1 + level c end.

(** What the list has before and after the plugged nodes. *)
Fixpoint prefix (d : Z) (c : ctx) : list t :=
  match c with
  | Top l _ => encode_all d l
  | Down l s p sub c _ => encode_all d l ++ Real s (virt_of p d) :: sub_list sub ++ prefix (d + 1) c
  end.

Fixpoint suffix (d : Z) (c : ctx) : list t :=
  match c with
  | Top _ r => encode_all d r
  | Down _ _ _ _ c r => suffix (d + 1) c ++ encode_all d r
  end.

(** The iterator at the first plugged node. *)
Definition position (fsub : option nat) (c : ctx) : nat :=
  length (sub_list fsub ++ prefix 0 c).

End forest.
End Forest.

(** * Properties *)

Section word.
Context `{Arch}.
Import Mapping.

Lemma virt_of_depth p d : 0 <= d <= 255 -> depth (Forest.virt_of p d) = d.
Proof.
  intros Hd. unfold depth, Forest.virt_of, set_page, set_depth. pose proof arch_ge32.
  assert (in_range 8 d) by (unfold in_range; lia). rewrite ones_0xff. bits_ext.
Qed.

Lemma depth_set_depth p d : 0 <= d <= 255 -> depth (set_depth p d) = d.
Proof.
  intros Hd. unfold depth, set_depth. pose proof arch_ge32.
  assert (in_range 8 d) by (unfold in_range; lia). rewrite ones_0xff. bits_ext.
Qed.

(** The depth and the page number of a mapping share one word without
    disturbing each other, for every depth up to 255 and every page number
    that leaves the low byte free. *)
Theorem mapping_word_roundtrip v p d :
  is_mword v -> 0 <= d <= 255 -> in_range (MWORD_BITS - 8) p ->
  page (set_page v p) = p /\ depth (set_page v p) = depth v
  /\ depth (set_depth v d) = d /\ page (set_depth v d) = page v
  /\ is_mword (set_page v p) /\ is_mword (set_depth v d).
Proof.
  intros Hv Hd Hp. pose proof arch_ge32.
  assert (in_range 8 d) by (unfold in_range; lia).
  assert (in_range MWORD_BITS d) by (apply in_range_mono with 8; [lia | done]).
  unfold page, depth, set_page, set_depth. rewrite ones_0xff.
  split; [bits_ext |]. split; [bits_ext |]. split; [bits_ext |]. split; [bits_ext |].
  split; apply in_range_lor; try lia; try apply in_range_land_l; try lia; try done.
  unfold mshl. apply mwrap_range.
Qed.

Lemma set_page_virt_of p p' d : 0 <= d <= 255 -> set_page (Forest.virt_of p d) p' = Forest.virt_of p' d.
Proof.
  intros Hd. unfold Forest.virt_of, set_page, set_depth. pose proof arch_ge32.
  assert (in_range 8 d) by (unfold in_range; lia). rewrite ones_0xff. bits_ext.
Qed.

End word.

Lemma mapping_word_roundtrip_witness :
  Mapping.page (Mapping.set_page (H := arch64) 0x1203 0x77) = 0x77.
Proof.
  destruct (@mapping_word_roundtrip arch64 0x1203 0x77 5) as [E _];
    [unfold in_range; simpl; lia | lia | unfold in_range; simpl; lia |]. exact E.
Defined.

(** ** The tree operations on the tree that the list encodes *)

Section tree.
Context `{Arch}.
Import Mapping Forest.

Lemma encode_all_app d l1 l2 : encode_all d (l1 ++ l2) = encode_all d l1 ++ encode_all d l2.
Proof. unfold encode_all. by rewrite map_app, concat_app. Qed.

Lemma encode_node d s p sub cs :
  encode d (Node s p sub cs) = Real s (virt_of p d) :: sub_list sub ++ encode_all (d + 1) cs.
Proof. done. Qed.

Lemma encode_all_cons d n ns : encode_all d (n :: ns) = encode d n ++ encode_all d ns.
Proof. done. Qed.

(** The list of a forest with [ns] at the position [c]. *)
Lemma encode_plug c d ns :
  encode_all d (plug c ns) = prefix d c ++ encode_all (d + level c) ns ++ suffix d c.
Proof.
  revert d. induction c as [l r | l s p sub c IH r]; intros d; simpl.
  - by rewrite !encode_all_app, Z.add_0_r.
  - rewrite encode_all_app, encode_all_cons, encode_node, IH.
    replace (d + 1 + level c) with (d + (1 + level c)) by lia.
    repeat (rewrite <- app_assoc; cbn [app]). done.
Qed.

Definition ok_all (d : Z) (ns : list node) : bool := forallb (ok d) ns.

Lemma ok_all_app d l1 l2 : ok_all d (l1 ++ l2) = ok_all d l1 && ok_all d l2.
Proof. apply forallb_app. Qed.

Lemma ok_node d s p sub cs :
  ok d (Node s p sub cs) = true ->
  0 <= d <= 255 /\ in_range (MWORD_BITS - 8) p /\ ok_all (d + 1) cs = true.
Proof.
  simpl. rewrite !andb_true_iff, !Z.leb_le, Z.ltb_lt. unfold in_range. intuition.
Qed.

Lemma ok_plug c d ns : ok_all d (plug c ns) = true -> ok_all (d + level c) ns = true.
Proof.
  revert d. induction c as [l r | l s p sub c IH r]; intros d; simpl.
  - rewrite !ok_all_app, Z.add_0_r, !andb_true_iff. intuition.
  - rewrite ok_all_app, andb_true_iff. intros [_ Hc]. cbn [ok_all forallb] in Hc.
    apply andb_true_iff in Hc as [Hn _]. apply ok_node in Hn as (_ & _ & Hk).
    replace (d + (1 + level c)) with (d + 1 + level c) by lia. auto.
Qed.

(** A list at whose head the loop of [flush] stops. *)
Definition stops (p_depth : Z) (l : list t) : Prop :=
  match l with
  | [] => True
  | Real _ v :: _ => depth v <= p_depth
  | _ => False
  end.

Lemma encode_all_stops d e ns : d <= e -> ok_all d ns = true -> stops e (encode_all d ns).
Proof.
  intros Hd. destruct ns as [|[s p sub cs] ns]; [done |].
  cbn [ok_all forallb]. rewrite andb_true_iff. intros [Hn _]. apply ok_node in Hn as (Hr & _ & _).
  cbn. rewrite virt_of_depth by done. lia.
Qed.

Lemma suffix_stops c d e ns :
  d + level c <= e -> ok_all d (plug c ns) = true -> stops e (suffix d c).
Proof.
  revert d. induction c as [l r | l s p sub c IH r]; intros d He; simpl in *.
  - rewrite !ok_all_app, !andb_true_iff. intros (_ & _ & Hr). apply encode_all_stops; [lia | done].
  - rewrite ok_all_app, andb_true_iff. intros [_ Hc]. cbn [ok_all forallb] in Hc.
    apply andb_true_iff in Hc as [Hn Hr]. apply ok_node in Hn as (_ & _ & Hk).
    specialize (IH (d + 1)). assert (0 <= level c) by (clear; induction c; simpl; lia).
    destruct (suffix (d + 1) c); simpl.
    + apply encode_all_stops; [lia | done].
    + apply IH; [lia | done].
Qed.

(** A node that [flush] with this parent depth removes. *)
Definition below (p_depth : Z) (m : t) : Prop :=
  match m with Real _ v => p_depth < depth v | Sub _ => True | Blank _ => False end.

Fixpoint node_ind' (P : node -> Prop)
    (HN : forall s p sub cs, Forall P cs -> P (Node s p sub cs)) (n : node) : P n :=
  match n with
  | Node s p sub cs => HN s p sub cs
      ((fix go cs : Forall P cs :=
         match cs with
         | [] => List.Forall_nil _
         | c :: cs => List.Forall_cons _ _ _ (node_ind' P HN c) (go cs)
         end) cs)
  end.

Lemma encode_below n d e : e < d -> ok d n = true -> Forall (below e) (encode d n).
Proof.
  revert d. induction n as [s p sub cs IH] using node_ind'. intros d Hd Hok.
  apply ok_node in Hok as (Hr & _ & Hk). rewrite encode_node. constructor.
  - simpl. rewrite virt_of_depth by done. lia.
  - apply Forall_app. split; [destruct sub; by repeat constructor |].
    clear Hr. induction IH as [|c cs Hc _ IHc]; [constructor |].
    cbn [ok_all forallb] in Hk. apply andb_true_iff in Hk as [? ?].
    rewrite encode_all_cons. apply Forall_app. split; [apply Hc; [lia | done] | auto].
Qed.

Lemma encode_all_below ns d e : e < d -> ok_all d ns = true -> Forall (below e) (encode_all d ns).
Proof.
  intros Hd. induction ns as [|n ns IH]; [constructor |].
  cbn [ok_all forallb]. intros [? ?]%andb_true_iff.
  rewrite encode_all_cons. apply Forall_app. split; [by apply encode_below | auto].
Qed.

Lemma position_lookup fsub c ns s p sub cs :
  encode_frame fsub (plug c (Node s p sub cs :: ns)) !! position fsub c
  = Some (Real s (virt_of p (level c))).
Proof.
  unfold encode_frame, position. rewrite encode_plug, Z.add_0_l, encode_all_cons, encode_node.
  rewrite app_assoc, lookup_app_r, Nat.sub_diag by done. done.
Qed.

(** The list up to and after the node at a position. *)
Lemma frame_split fsub c s p sub cs :
  encode_frame fsub (plug c [Node s p sub cs])
  = (sub_list fsub ++ prefix 0 c)
    ++ Real s (virt_of p (level c)) :: sub_list sub ++ encode_all (level c + 1) cs ++ suffix 0 c.
Proof.
  unfold encode_frame. rewrite encode_plug, Z.add_0_l, encode_all_cons, encode_node.
  unfold encode_all at 2. cbn [map concat]. rewrite app_nil_r.
  repeat (rewrite <- app_assoc; cbn [app]). done.
Qed.

Context {W : Type} `{Mapping_alloc W} `{Submap_ops W} `{Space_quota W}.
Import Mapping_tree.

(** The removal of one node: a treemap is deleted before its node, which its
    owner paid for. *)
Definition remove_one (w : W) (m : t) : W :=
  match m with
  | Real s _ => q_del w s
  | Sub i => q_del (sub_del w i) (sub_owner w i)
  | Blank _ => w
  end.

Definition remove_all (w : W) (l : list t) : W := foldl remove_one w l.

Lemma flush_loop_all w l post pd md me b e :
  Forall (below pd) l -> me = true \/ md <> pd -> stops pd post ->
  flush_loop w (l ++ post) pd md me b e = (remove_all w l, post).
Proof.
  intros Hl. revert w md. induction Hl as [|m l Hm Hl IH]; intros w md Hd Hs.
  - destruct post as [|[] post]; simpl in *; try done. by destruct (Z.leb_spec (depth virt0) pd); [| lia].
  - destruct m as [s v | i | v]; simpl in Hm; [| | done]; cbn [app flush_loop].
    + destruct (Z.leb_spec (depth v) pd); [lia |]. rewrite IH; [done | right; lia | done].
    + replace (negb me && (md =? pd)) with false; [by apply IH |].
      destruct Hd as [-> | Hd]; [done |]. destruct me; [done |]. by destruct (Z.eqb_spec md pd).
Qed.

(** Below a node whose treemap has been dealt with, everything goes. *)
Lemma flush_loop_children w ns post d md me b e :
  ok_all (d + 1) ns = true -> stops d post ->
  flush_loop w (encode_all (d + 1) ns ++ post) d md me b e
  = (remove_all w (encode_all (d + 1) ns), post).
Proof.
  intros Hok Hs. pose proof (encode_all_below ns (d + 1) d ltac:(lia) Hok) as Hb.
  destruct ns as [|[s p sub cs] ns].
  - cbn. destruct post as [|[] post]; simpl in *; try done.
    by destruct (Z.leb_spec (depth virt0) d); [| lia].
  - rewrite encode_all_cons, encode_node in *. rewrite <- app_comm_cons in *.
    inversion Hb as [|m ms Hm Hms]; subst. simpl in Hm. cbn [app flush_loop].
    destruct (Z.leb_spec (depth (virt_of p (d + 1))) d); [lia |].
    rewrite flush_loop_all; [done | done | right; lia | done].
Qed.

(** Whether [flush] keeps the treemap of the node it starts at, and only
    flushes inside of it. *)
Definition keeps (w : W) (me_too : bool) (b e : Z) (i : nat) : bool :=
  negb me_too && sub_is_partial w i b e.

Lemma flush_loop_node w sub ns post d me b e :
  ok_all (d + 1) ns = true -> stops d post ->
  flush_loop w (sub_list sub ++ encode_all (d + 1) ns ++ post) d d me b e
  = match sub with
    | Some i => if keeps w me b e i
                then (remove_all (sub_flush w i b e) (encode_all (d + 1) ns), Sub i :: post)
                else (remove_all w (Sub i :: encode_all (d + 1) ns), post)
    | None => (remove_all w (encode_all (d + 1) ns), post)
    end.
Proof.
  intros Hok Hs. destruct sub as [i |]; cbn [sub_list app flush_loop].
  - rewrite Z.eqb_refl, andb_true_r. unfold keeps. destruct (negb me && _);
      rewrite flush_loop_children; done.
  - by apply flush_loop_children.
Qed.

(** C18: [flush] at a node removes exactly its descendants from the tree, and
    with [me_too] the node as well; every removed node is returned to the quota
    of its space and every removed treemap is deleted.  Without [me_too] the
    treemap of the node itself survives when the flushed range covers it only
    in part, and is then flushed inside.  All other nodes stay as they are. *)
Theorem flush_refines w fsub c s p sub cs me_too b e :
  ok_all 0 (plug c [Node s p sub cs]) = true ->
  let l := encode_frame fsub (plug c [Node s p sub cs]) in
  let kids := encode_all (level c + 1) cs in
  flush w l (Some (position fsub c)) me_too b e
  = if me_too
    then (remove_all w (Real s (virt_of p (level c)) :: sub_list sub ++ kids),
          encode_frame fsub (plug c []))
    else match sub with
         | Some i =>
             if sub_is_partial w i b e
             then (remove_all (sub_flush w i b e) kids,
                   encode_frame fsub (plug c [Node s p sub []]))
             else (remove_all w (Sub i :: kids), encode_frame fsub (plug c [Node s p None []]))
         | None => (remove_all w kids, encode_frame fsub (plug c [Node s p None []]))
         end.
Proof.
  intros Hok l kids. pose proof (ok_plug c 0 _ Hok) as Hn. rewrite Z.add_0_l in Hn.
  cbn [ok_all forallb] in Hn. apply andb_true_iff in Hn as [Hn _].
  apply ok_node in Hn as (Hd & _ & Hk).
  pose proof (suffix_stops c 0 (level c) _ ltac:(lia) Hok) as Hs.
  unfold flush, deref. cbn [mbind option_bind]. subst l. rewrite position_lookup.
  cbn [virt space]. rewrite virt_of_depth by done. rewrite frame_split. unfold position.
  set (pre := sub_list fsub ++ prefix 0 c).
  rewrite drop_S_middle, take_S_middle, take_app_length.
  destruct me_too; rewrite flush_loop_node by done; unfold keeps; cbn [negb andb].
  - unfold encode_frame. rewrite encode_plug. fold kids. cbn [encode_all map concat app].
    rewrite app_assoc. fold pre. destruct sub; done.
  - rewrite !frame_split. fold pre kids. cbn [encode_all map concat app].
    destruct sub as [i |]; cbn [sub_list app]; [destruct (sub_is_partial w i b e) |];
      by rewrite <- ?app_assoc.
Qed.

(** [flush] from the insertion head empties the frame: only a treemap of
    the frame itself stays when the range covers it in part. *)
Theorem flush_frame_refines w fsub roots me_too b e :
  ok_all 0 roots = true ->
  flush w (encode_frame fsub roots) None me_too b e
  = match fsub with
    | Some i => if sub_is_partial w i b e
                then (remove_all (sub_flush w i b e) (encode_all 0 roots), [Sub i])
                else (remove_all w (Sub i :: encode_all 0 roots), [])
    | None => (remove_all w (encode_all 0 roots), [])
    end.
Proof.
  intros Hok. unfold flush, encode_frame. cbn [deref mbind option_bind].
  pose proof (flush_loop_node w fsub roots [] (-1) false b e Hok I) as Hf.
  rewrite app_nil_r in Hf. unfold deref. cbn [mbind option_bind]. exact Hf.
Qed.

Lemma find_submap_at fsub c s p sub cs :
  ok_all 0 (plug c [Node s p sub cs]) = true ->
  find_submap (encode_frame fsub (plug c [Node s p sub cs])) (Some (position fsub c)) = sub.
Proof.
  intros Hok. unfold find_submap, deref. cbn [mbind option_bind]. rewrite position_lookup.
  pose proof (suffix_stops c 0 (level c) _ ltac:(lia) Hok) as Hs.
  rewrite frame_split. unfold position.
  rewrite lookup_app_r by lia. rewrite Nat.sub_succ_l, Nat.sub_diag by lia. cbn [lookup list_lookup].
  destruct sub as [i |]; [done |]. cbn [sub_list app].
  destruct cs as [|[] cs]; [| done]. cbn [encode_all map concat app].
  by destruct (suffix 0 c) as [|[] ?].
Qed.

(** The node that [allocate] returns becomes a mapping with [set_space] and
    [set_page]. *)
Definition complete (l : list t) (i : nat) (space page : Z) : list t :=
  alter (fun m => map_virt (fun v => set_page v page) (set_space m space)) i l.

Lemma place_after pre x post m :
  place (pre ++ x :: post) (Some (length pre)) m = ((pre ++ [x]) ++ m :: post, length (pre ++ [x])).
Proof.
  unfold place, deref, insert_after. cbn [mbind option_bind]. rewrite list_lookup_middle by done.
  rewrite drop_S_middle, take_S_middle, length_app. f_equal. simpl. lia.
Qed.

Lemma complete_at pre v post space page :
  complete (pre ++ Blank v :: post) (length pre) space page
  = pre ++ Real space (set_page v page) :: post.
Proof. unfold complete. induction pre; simpl; [done | by f_equal]. Qed.

(** [allocate] under a node fails, without touching the tree, exactly when
    the node has the maximal depth or the quota is exhausted; otherwise the
    completed node is a new first child, behind the treemap of the parent, and
    all other nodes stay as they are. *)
Theorem allocate_refines w payer fsub c s p sub cs space page :
  ok_all 0 (plug c [Node s p sub cs]) = true ->
  match allocate w payer (encode_frame fsub (plug c [Node s p sub cs])) (Some (position fsub c)) with
  | (w', None) => if level c =? 255 then w' = w else q_new w payer = (false, w')
  | (w', Some (l, i)) =>
      level c < 255 /\ q_new w payer = (true, w')
      /\ complete l i space page
         = encode_frame fsub (plug c [Node s p sub (Node space page None [] :: cs)])
  end.
Proof.
  intros Hok. pose proof (ok_plug c 0 _ Hok) as Hn. rewrite Z.add_0_l in Hn.
  cbn [ok_all forallb] in Hn. apply andb_true_iff in Hn as [Hn _].
  apply ok_node in Hn as (Hd & _ & Hk).
  pose proof (suffix_stops c 0 (level c) _ ltac:(lia) Hok) as Hs.
  unfold allocate, deref. cbn [mbind option_bind]. rewrite position_lookup.
  cbn [virt]. unfold has_max_depth. rewrite virt_of_depth by done.
  destruct (Z.eqb_spec (level c) 0xff) as [Hmax | Hmax].
  { done. }
  destruct (q_new w payer) as [[|] w']; cbn [negb]; [| done].
  assert (0 <= level c + 1 <= 255) as Hd' by lia.
  rewrite !frame_split. unfold position. set (pre := sub_list fsub ++ prefix 0 c).
  rewrite (lookup_app_r pre) by lia. rewrite Nat.sub_succ_l, Nat.sub_diag by lia.
  cbn [lookup list_lookup].
  rewrite (encode_all_cons (level c + 1)), encode_node.
  cbn [sub_list app encode_all map concat].
  destruct sub as [i |]; cbn [sub_list app lookup list_lookup].
  - change (pre ++ ?x :: Sub i :: ?r) with (pre ++ [x] ++ Sub i :: r). rewrite app_assoc.
    replace (S (length pre)) with (length (pre ++ [Real s (virt_of p (level c))])) by (rewrite length_app; simpl; lia).
    rewrite place_after, complete_at. split_and!; [lia | done | by rewrite <- !app_assoc].
  - assert (forall j, (encode_all (level c + 1) cs ++ suffix 0 c) !! 0%nat <> Some (Sub j)) as Hj.
    { intros j. destruct cs as [|[] cs]; [| done]. cbn [encode_all map concat app].
      by destruct (suffix 0 c) as [|[] ?]. }
    revert Hj. generalize (encode_all (level c + 1) cs ++ suffix 0 c). intros rest Hj.
    destruct (rest !! 0%nat) as [[] |]; try (by edestruct Hj);
      rewrite place_after, complete_at; (split_and!; [lia | done | by rewrite <- !app_assoc]).
Qed.

(** C20: [grant] hands a mapping to another space and page: the tree keeps its
    shape, the moved charge is the one of the node and of its treemap, and
    when the new space cannot pay nothing changes. *)
Theorem grant_refines size w fsub c s p sub cs new_space page :
  ok_all 0 (plug c [Node s p sub cs]) = true ->
  let l := encode_frame fsub (plug c [Node s p sub cs]) in
  let charge := mwrap (size + match sub with Some i => sub_mem_size w i | None => 0 end) in
  let finish w := match sub with Some i => sub_grant w i s new_space page | None => w end in
  let l' := encode_frame fsub (plug c [Node new_space page sub cs]) in
  grant size w l (position fsub c) new_space page
  = if s =? new_space then Some (true, finish w, l')
    else match quota_alloc w new_space charge with
         | (true, w') => Some (true, finish (quota_free w' s charge), l')
         | (false, w') => Some (false, w', l)
         end.
Proof.
  intros Hok l charge finish l'. pose proof (ok_plug c 0 _ Hok) as Hn. rewrite Z.add_0_l in Hn.
  cbn [ok_all forallb] in Hn. apply andb_true_iff in Hn as [Hn _].
  apply ok_node in Hn as (Hd & _ & _).
  unfold grant. subst l. rewrite position_lookup, find_submap_at by done.
  rewrite set_page_virt_of by done. fold finish charge.
  assert (forall sp, <[position fsub c := Real sp (virt_of page (level c))]>
            (encode_frame fsub (plug c [Node s p sub cs]))
          = encode_frame fsub (plug c [Node sp page sub cs])) as Hi.
  { intros sp. rewrite !frame_split. unfold position. apply insert_middle. }
  rewrite !Hi. destruct (Z.eqb_spec s new_space) as [-> | Hne]; [done |].
  by destruct (quota_alloc w new_space charge) as [[|] w'].
Qed.

End tree.

(** ** Concrete instances

    An environment that writes a log: nodes cost their space one entry, the
    treemap 7 belongs to space 3 and covers 16 pages. *)
Module Tree_witness.
Import Mapping Forest Mapping_tree.

Inductive event := New (payer : Z) | Del (payer : Z) | Sub_del (i : nat) | Sub_flush (i : nat) | Sub_grant (i : nat).

#[local] Instance log_alloc : Mapping_alloc (list event) :=
  {| q_new w p := (true, w ++ [New p]); q_del w p := w ++ [Del p] |}.
#[local] Instance log_sub : Submap_ops (list event) :=
  {| sub_owner _ _ := 3; sub_is_partial _ _ b e := (0 <? b) || (e <? 16);
     sub_del w i := w ++ [Sub_del i]; sub_mem_size _ _ := 100;
     sub_grant w i _ _ _ := w ++ [Sub_grant i]; sub_flush w i _ _ := w ++ [Sub_flush i] |}.
#[local] Instance log_quota : Space_quota (list event) :=
  {| quota_alloc w s _ := (negb (s =? 9), w); quota_free w _ _ := w |}.
#[local] Existing Instance arch64.

(** The node of space 3 with a treemap and two children, between two
    others. *)
Definition cs : list node := [Node 4 0x40 None [Node 5 0x50 None []]; Node 6 0x60 None []].
Definition c : ctx := Down [] 1 0x10 None (Top [Node 2 0x20 None []] [Node 7 0x70 None []]) [].
Definition tree : list node := plug c [Node 3 0x30 (Some 7%nat) cs].

Lemma flush_refines_witness :
  flush [] (encode_frame None tree) (Some 2%nat) false 0 8
  = ([Sub_flush 7; Del 4; Del 5; Del 6],
     encode_frame None (plug c [Node 3 0x30 (Some 7%nat) []])).
Proof.
  exact (flush_refines (W := list event) [] None c 3 0x30 (Some 7%nat) cs false 0 8 eq_refl).
Defined.

Lemma flush_frame_refines_witness :
  flush [] (encode_frame (Some 7%nat) [Node 1 0x10 None []]) None true 0 16
  = ([Sub_del 7; Del 3; Del 1], []).
Proof.
  exact (flush_frame_refines (W := list event) [] (Some 7%nat) [Node 1 0x10 None []] true 0 16 eq_refl).
Defined.

Lemma allocate_refines_witness :
  complete (fst (default ([], O) (snd (allocate [] 8 (encode_frame None tree) (Some 2%nat))))) 4 8 0x80
  = encode_frame None (plug c [Node 3 0x30 (Some 7%nat) (Node 8 0x80 None [] :: cs)]).
Proof.
  exact (proj2 (proj2 (allocate_refines (W := list event) [] 8 None c 3 0x30 (Some 7%nat) cs 8 0x80
    eq_refl))).
Defined.

Lemma grant_refines_witness :
  grant 32 [] (encode_frame None tree) 2 8 0x80
  = Some (true, [Sub_grant 7], encode_frame None (plug c [Node 8 0x80 (Some 7%nat) cs])).
Proof.
  exact (grant_refines (W := list event) 32 [] None c 3 0x30 (Some 7%nat) cs 8 0x80 eq_refl).
Defined.

End Tree_witness.
