(* ===== verification/Mapdb.v ===== *)
(** The mapping database: [src/src/kern/mapdb.h] and [mapdb.cc].

    A treemap is an array of frames, each with a lock and a mapping tree; a
    tree may hold references to treemaps of smaller pages.  Treemaps live in a
    heap and are named by numbers, a frame is a treemap with an index, and an
    iterator is a position in the tree of its frame.

    Functions are total on the state [world]: where the code would wait for a
    lock that it holds itself, follow a dangling pointer, index past an array
    or recurse deeper than the fuel, the flag [stuck] is raised.  The recursion
    descends one page size per level, so that the number of page sizes is fuel
    enough. *)

From S2P Require Import Prelude RamQuota MappingTree.

(** Sizes of the C++ objects, and the virtual function [is_sigma0] of a
    space. *)
Class Mapdb_env := {
  sizeof_Mapping : Z;
  sizeof_Physframe : Z;
  sizeof_Treemap : Z;
  is_sigma0 : Z -> bool }.

(** [cxx::mask_lsb] and [cxx::get_lsb] *)
Definition mask_lsb `{Arch} (v o : Z) : Z := v .& mshl (mwrap (-1)) o.
Definition get_lsb `{Arch} (v o : Z) : Z := v .& mnot (mshl (mwrap (-1)) o).

Module Physframe.
Section data.
Context `{Arch} `{Mapdb_env}.

Record t := mk { locked : bool; tree : list Mapping.t }.

Definition mem_size (size : Z) : Z := madd (mwrap (size * sizeof_Physframe)) 1023 .& mnot 1023.
Definition alloc (size : Z) : list t := replicate (Z.to_nat size) (mk false []).
Definition has_mappings (f : t) : bool := match tree f with [] => false | _ => true end.

End data.
End Physframe.

Module Treemap.
Section data.
Context `{Arch} `{Mapdb_env}.

Record t := mk {
  _key_end : Z;
  _owner_id : Z;
  _page_offset : Z;
  _page_shift : Z;
  _physframe : list Physframe.t;
  _sub_shifts : list Z }.

Definition quota_size (key_end : Z) : Z := madd (Physframe.mem_size key_end) sizeof_Treemap.
Definition page_size (tm : t) : Z := mshl 1 (_page_shift tm).
Definition round_to_page (tm : t) (v : Z) : Z :=
  madd v (msub (mshl 1 (_page_shift tm)) 1) >> _page_shift tm.
Definition trunc_to_page (tm : t) (v : Z) : Z := v >> _page_shift tm.
Definition to_vaddr (tm : t) (v : Z) : Z := mshl v (_page_shift tm).
Definition size (tm : t) : Z := to_vaddr tm (_key_end tm).
Definition end_addr (tm : t) : Z := madd (_page_offset tm) (size tm).
Definition vaddr (tm : t) (virt : Z) : Z := to_vaddr tm (Mapping.page virt).
Definition frame_vaddr (tm : t) (f : nat) : Z :=
  madd (_page_offset tm) (mshl (Z.of_nat f) (_page_shift tm)).

Definition match_ (tm : t) (m : Mapping.t) (spc va : Z) : bool :=
  match m with
  | Mapping.Real s v => (s =? spc) && (vaddr tm v =? mask_lsb va (_page_shift tm))
  | _ => false
  end.

Definition set_frames (fs : list Physframe.t) (tm : t) : t :=
  mk (_key_end tm) (_owner_id tm) (_page_offset tm) (_page_shift tm) fs (_sub_shifts tm).
Definition set_owner (owner offset : Z) (tm : t) : t :=
  mk (_key_end tm) owner offset (_page_shift tm) (_physframe tm) (_sub_shifts tm).

End data.
End Treemap.

(** ** The state *)
Record world := mkworld {
  maps : gmap nat Treemap.t;       (** the live treemaps *)
  quotas : gmap Z Ram_quota.t;     (** the quota of each space *)
  oracle : list bool;              (** whether the coming memory allocations succeed *)
  fresh : nat;
  stuck : bool }.

Section state.
Context `{Arch} `{Mapdb_env}.

Definition set_stuck (w : world) : world := mkworld (maps w) (quotas w) (oracle w) (fresh w) true.
Definition set_maps (m : gmap nat Treemap.t) (w : world) : world :=
  mkworld m (quotas w) (oracle w) (fresh w) (stuck w).

Definition mem_alloc (w : world) : bool * world :=
  match oracle w with
  | [] => (false, w)
  | b :: o => (b, mkworld (maps w) (quotas w) o (fresh w) (stuck w))
  end.

Definition with_quota {A} (w : world) (space : Z) (fail : A)
    (op : Ram_quota.t -> A * Ram_quota.t) : A * world :=
  match quotas w !! space with
  | Some q => let '(r, q') := op q in
              (r, mkworld (maps w) (<[space := q']> (quotas w)) (oracle w) (fresh w) (stuck w))
  | None => (fail, set_stuck w)
  end.

Definition q_alloc (w : world) (space bytes : Z) : bool * world :=
  with_quota w space false (fun q => Ram_quota.alloc q bytes).
Definition q_free (w : world) (space bytes : Z) : world :=
  snd (with_quota w space tt (fun q => (tt, snd (Ram_quota.free q bytes)))).

(** [Slab_cache::q_alloc]: the charge is taken back when there is no
    memory. *)
Definition slab_q_alloc (w : world) (space bytes : Z) : bool * world :=
  let '(ok, w) := q_alloc w space bytes in
  if negb ok then (false, w)
  else let '(r, w) := mem_alloc w in
       if r then (true, w) else (false, q_free w space bytes).

#[global] Instance world_alloc : Mapping_alloc world :=
  {| q_new w payer := slab_q_alloc w payer sizeof_Mapping;
     q_del w payer := q_free w payer sizeof_Mapping |}.

#[global] Instance world_quota : Space_quota world :=
  {| quota_alloc := q_alloc; quota_free := q_free |}.

Definition get_frame (w : world) (tm f : nat) : option Physframe.t :=
  t ← maps w !! tm; Treemap._physframe t !! f.

Definition set_frame (w : world) (tm f : nat) (pf : Physframe.t) : world :=
  set_maps (alter (fun t => Treemap.set_frames (<[f := pf]> (Treemap._physframe t)) t) tm (maps w)) w.

Definition get_tree (w : world) (tm f : nat) : list Mapping.t :=
  match get_frame w tm f with Some pf => Physframe.tree pf | None => [] end.

Definition set_tree (w : world) (tm f : nat) (l : list Mapping.t) : world :=
  match get_frame w tm f with
  | Some pf => set_frame w tm f (Physframe.mk (Physframe.locked pf) l)
  | None => set_stuck w
  end.

(** [lock.lock()] and [lock.clear()] of a frame *)
Definition lock (w : world) (tm f : nat) : world :=
  match get_frame w tm f with
  | Some pf => if Physframe.locked pf then set_stuck w
               else set_frame w tm f (Physframe.mk true (Physframe.tree pf))
  | None => set_stuck w
  end.

Definition unlock (w : world) (tm f : nat) : world :=
  match get_frame w tm f with
  | Some pf => set_frame w tm f (Physframe.mk false (Physframe.tree pf))
  | None => set_stuck w
  end.

(** [Treemap::tree(key)]: the locked frame. *)
Definition tree_lock (w : world) (tm : nat) (key : Z) : world * nat :=
  let k := Z.to_nat key in (lock w tm k, k).

(** A pointer to a treemap; the object must be alive. *)
Definition get_map (w : world) (tm : nat) : Treemap.t :=
  default (Treemap.mk 0 0 0 0 [] []) (maps w !! tm).

(** ** Creation and deletion *)

(** [Treemap::create] *)
Definition create (w : world) (parent_page_shift owner page_offset : Z) (shifts : list Z)
    : option nat * world :=
  match shifts with
  | [] => (None, set_stuck w)
  | page_shift :: sub_shifts =>
      let key_end := mshl 1 (parent_page_shift - page_shift) in
      let bytes := Treemap.quota_size key_end in
      let '(ok, w) := q_alloc w owner bytes in
      if negb ok then (None, w)
      else
        let '(pf, w) := mem_alloc w in
        if negb pf then (None, q_free w owner bytes)
        else
          let '(m, w) := mem_alloc w in
          if negb m then (None, q_free w owner bytes)
          else
            let tm := Treemap.mk key_end owner page_offset page_shift (Physframe.alloc key_end) sub_shifts in
            (Some (fresh w),
             mkworld (<[fresh w := tm]> (maps w)) (quotas w) (oracle w) (S (fresh w)) (stuck w))
  end.

(** [Mapping_tree::erase] on a frame *)
Definition erase_tree (w : world) (tm f : nat) (owner : Z) : world :=
  let '(w, l) := Mapping_tree.erase w owner (get_tree w tm f) in set_tree w tm f l.

Section del.
Variable delete : world -> nat -> world.

(** [Physframe::del] *)
Definition physframe_del (w : world) (tm f : nat) (owner : Z) : world :=
  match get_tree w tm f with
  | [] => w
  | l =>
      let w := lock w tm f in
      let w := foldl (fun w m => match m with Mapping.Sub s => delete w s | _ => w end) w l in
      unlock (erase_tree w tm f owner) tm f
  end.

(** [Physframe::free] for the array of a treemap *)
Definition physframe_free (w : world) (tm : nat) (size : Z) (owner : Z) : world :=
  foldl (fun w f => physframe_del w tm f owner) w (seq 0 (Z.to_nat size)).

End del.

(** The destructor and [operator delete] of [Treemap]. *)
Fixpoint delete_treemap (fuel : nat) (w : world) (tm : nat) : world :=
  match fuel, maps w !! tm with
  | S fuel, Some t =>
      let owner := Treemap._owner_id t in
      let w := physframe_free (delete_treemap fuel) w tm (Treemap._key_end t) owner in
      q_free (set_maps (delete tm (maps w)) w) owner (Treemap.quota_size (Treemap._key_end t))
  | _, _ => set_stuck w
  end.

(** ** [Treemap_ops] *)
Definition is_partial (w : world) (submap : nat) (offs_begin offs_end : Z) : bool :=
  (offs_begin >? 0) || (offs_end <? Treemap.size (get_map w submap)).

(** The submap at the head of the tree of a frame that has mappings. *)
Definition head_submap (w : world) (tm f : nat) : option nat :=
  Mapping_tree.find_submap (get_tree w tm f) None.

Fixpoint mem_size (fuel : nat) (w : world) (submap : nat) : Z :=
  match fuel with
  | O => 0
  | S fuel =>
      let t := get_map w submap in
      foldl (fun quota key =>
               match head_submap w submap key with
               | Some s => madd quota (mem_size fuel w s)
               | None => quota
               end)
            (madd (mwrap (Treemap._key_end t * sizeof_Physframe)) sizeof_Treemap)
            (seq 0 (Z.to_nat (Treemap._key_end t)))
  end.

(** [Treemap_ops(page_shift).grant]; a recursive call has the page shift of
    the submap. *)
Fixpoint ops_grant (fuel : nat) (page_shift : Z) (w : world) (submap : nat)
    (old_space new_space virt_page : Z) : world :=
  match fuel with
  | O => set_stuck w
  | S fuel =>
      let w := set_maps (alter (Treemap.set_owner new_space (mshl virt_page page_shift)) submap (maps w)) w in
      let t := get_map w submap in
      let subva := mshl virt_page (page_shift - Treemap._page_shift t) in
      foldl (fun w key =>
               match head_submap w submap key with
               | Some s => ops_grant fuel (Treemap._page_shift t) w s old_space new_space
                             (madd subva (Z.of_nat key))
               | None => w
               end)
            w (seq 0 (Z.to_nat (Treemap._key_end t)))
  end.

(** One iteration of the loop of [Treemap_ops(page_shift).flush], for the
    frame [i] of [submap]; [frame_flush] is [submap->flush(subframe, ...)]. *)
Definition ops_flush_frame (frame_flush : world -> nat -> nat -> Z -> Z -> world) (page_shift : Z)
    (w : world) (submap i : nat) (offs_begin offs_end : Z) : world :=
  let t := get_map w submap in
  let page_offs_begin := Treemap.to_vaddr t (Z.of_nat i) in
  let page_offs_end := madd page_offs_begin (Treemap.page_size t) in
  match get_tree w submap i with
  | [] => w
  | _ =>
      let w := lock w submap i in
      let w :=
        if (offs_begin <=? page_offs_begin) && (offs_end >=? page_offs_end)
        then erase_tree w submap i (Treemap._owner_id t)
        else frame_flush w submap i
               (if page_offs_begin >? offs_begin then 0
                else get_lsb (msub offs_begin page_offs_begin) page_shift)
               (if page_offs_end <? offs_end then mshl 1 page_shift
                else madd (get_lsb (msub (msub offs_end page_offs_begin) 1) page_shift) 1) in
      unlock w submap i
  end.

(** [for (i = trunc(offs_begin); i < round(offs_end); ++i)] *)
Definition page_range (t : Treemap.t) (offs_begin offs_end : Z) : list nat :=
  let first := Treemap.trunc_to_page t offs_begin in
  let last := Treemap.round_to_page t offs_end in
  seq (Z.to_nat first) (Z.to_nat (last - first)).

(** [Treemap_ops(page_shift)] as the interface that mapping trees use; the
    part that recurses is an argument. *)
Definition treemap_ops (fuel : nat) (page_shift : Z)
    (sub_flush : Z -> world -> nat -> Z -> Z -> world) : Submap_ops world :=
  {| sub_owner w i := Treemap._owner_id (get_map w i);
     sub_is_partial := is_partial;
     sub_del := delete_treemap fuel;
     sub_mem_size := mem_size fuel;
     sub_grant := ops_grant fuel page_shift;
     sub_flush := sub_flush page_shift |}.

(** [Treemap::flush(f, offs_begin, offs_end)] inside the recursion *)
Definition frame_flush_with (ops : Z -> Submap_ops world) (w : world) (tm f : nat)
    (offs_begin offs_end : Z) : world :=
  let '(w, l) := Mapping_tree.flush_loop
                   (H1 := ops (Treemap._page_shift (get_map w tm)))
                   w (get_tree w tm f) (-1) (-1) false offs_begin offs_end in
  set_tree w tm f l.

Fixpoint ops_flush (fuel : nat) (page_shift : Z) (w : world) (submap : nat) (offs_begin offs_end : Z)
    : world :=
  match fuel with
  | O => set_stuck w
  | S fuel' =>
      foldl (fun w i =>
               ops_flush_frame
                 (frame_flush_with (fun ps => treemap_ops fuel' ps (ops_flush fuel')))
                 page_shift w submap i offs_begin offs_end)
            w (page_range (get_map w submap) offs_begin offs_end)
  end.

Definition Treemap_ops (fuel : nat) (page_shift : Z) : Submap_ops world :=
  treemap_ops fuel page_shift (ops_flush fuel).

(** ** Lookup *)

(** [Treemap::Frame]; a frame whose [frame] is null is [None]. *)
Record Frame := mkFrame { fr_m : option nat; fr_treemap : nat; fr_frame : nat }.

Definition is_sub (m : option Mapping.t) : bool :=
  match m with Some (Mapping.Sub _) => true | _ => false end.

(** The depth bookkeeping at a real mapping: a current depth that does not
    exceed the root depth leaves the subtree, which -3 records. *)
Definition track (ds : option (Z * Z)) (virt : Z) : option (Z * Z) :=
  match ds with
  | Some (root, _) =>
      let cur := Mapping.depth virt in
      Some (if root >=? cur then -3 else root, cur)
  | None => None
  end.

Record result := mkresult {
  r_world : world;
  r_m : option nat;                (** the iterator, [None] at the end *)
  r_frame : option Frame;          (** [*res] *)
  r_depths : option (Z * Z) }.     (** root and current depth *)

Section lookup_loop.
Variable rec : world -> nat -> nat -> Z -> option Frame -> option (Z * Z) -> result.
Variables (tm f : nat) (t : Treemap.t) (spc subkey va : Z).

(** The loop of [_lookup] over the rest [l] of the tree, whose head is at the
    position [m]. *)
Fixpoint lookup_loop (l : list Mapping.t) (m : nat) (w : world) (res : option Frame)
    (ds : option (Z * Z)) : result :=
  match l with
  | [] => mkresult w None res ds
  | Mapping.Sub sub :: l' =>
      let '(w, k) := tree_lock w sub (Treemap.trunc_to_page (get_map w sub) subkey) in
      if is_sigma0 spc then mkresult w (Some m) (Some (mkFrame None sub k)) ds
      else
        let r := rec w sub k subkey res ds in
        match r_m r with
        | Some ms =>
            let w := if is_sub (get_tree (r_world r) sub k !! ms)
                     then unlock (r_world r) sub k else r_world r in
            mkresult w (Some m) (r_frame r) (r_depths r)
        | None => lookup_loop l' (S m) (unlock (r_world r) sub k) (r_frame r) (r_depths r)
        end
  | Mapping.Real s v :: l' =>
      let ds := track ds v in
      if Treemap.match_ t (Mapping.Real s v) spc va
      then mkresult w (Some m) (Some (mkFrame (Some m) tm f)) ds
      else lookup_loop l' (S m) w res ds
  | Mapping.Blank _ :: _ => mkresult (set_stuck w) None res ds
  end.
End lookup_loop.

(** [Treemap::_lookup], from the position [m] of the tree of [f] on *)
Fixpoint _lookup (fuel : nat) (spc va : Z) (m : nat) (w : world) (tm f : nat) (key : Z)
    (res : option Frame) (ds : option (Z * Z)) : result :=
  match fuel with
  | O => mkresult (set_stuck w) None res ds
  | S fuel =>
      let t := get_map w tm in
      lookup_loop (_lookup fuel spc va 0) tm f t spc (get_lsb key (Treemap._page_shift t)) va
        (drop m (get_tree w tm f)) m w res ds
  end.

(** [Treemap::lookup] *)
Definition lookup (fuel : nat) (w : world) (tm : nat) (key spc va : Z) : world * option Frame :=
  let '(w, f) := tree_lock w tm (Treemap.trunc_to_page (get_map w tm) key) in
  if is_sigma0 spc then (w, Some (mkFrame None tm f))
  else
    let r := _lookup fuel spc va 0 w tm f key None None in
    match r_m r with
    | Some m => (if is_sub (get_tree (r_world r) tm f !! m) then unlock (r_world r) tm f
                 else r_world r, r_frame r)
    | None => (unlock (r_world r) tm f, None)
    end.

(** ** [Frame] *)
Definition frame_clear (w : world) (fr : Frame) : world := unlock w (fr_treemap fr) (fr_frame fr).
Definition same_lock (a b : Frame) : bool :=
  bool_decide (fr_treemap a = fr_treemap b) && bool_decide (fr_frame a = fr_frame b).
Definition clear_both (w : world) (fr : Frame) (tm f : nat) : world :=
  let w := if bool_decide (fr_treemap fr = tm) && bool_decide (fr_frame fr = f) then w else unlock w tm f in
  frame_clear w fr.
Definition might_clear (w : world) (fr : option Frame) : world :=
  match fr with Some fr => frame_clear w fr | None => w end.
Definition frame_node (w : world) (fr : Frame) : option Mapping.t :=
  i ← fr_m fr; get_tree w (fr_treemap fr) (fr_frame fr) !! i.
Definition pspace (w : world) (fr : Frame) : Z :=
  match frame_node w fr with
  | Some m => default 0 (Mapping.space m)
  | None => Treemap._owner_id (get_map w (fr_treemap fr))
  end.
Definition pvaddr (w : world) (fr : Frame) : Z :=
  match frame_node w fr with
  | Some m => Treemap.vaddr (get_map w (fr_treemap fr)) (Mapping.virt m)
  | None => Treemap.frame_vaddr (get_map w (fr_treemap fr)) (fr_frame fr)
  end.
Definition next_depth (w : world) (fr : Frame) : Z :=
  match frame_node w fr with Some m => Mapping.depth (Mapping.virt m) + 1 | None => 0 end.
Definition next_mapping (w : world) (fr : Frame) : nat :=
  match frame_node w fr, fr_m fr with Some _, Some i => S i | _, _ => O end.

(** ** [Treemap::lookup_src_dst] *)

(** Both frames during the joint search. *)
Record search := mksearch { s_src : option Frame; s_dst : option Frame }.

Section src_dst_loop.
Variable rec : world -> nat -> Z -> Z -> world * Z * search.
Variables (tm f : nat) (t : Treemap.t) (src src_key src_va dst dst_key dst_va : Z).

(** The loop: [inl] is an early return, [inr] the state behind it with the
    position and [c_depth]. *)
Fixpoint src_dst_loop (l : list Mapping.t) (m : nat) (w : world) (sr : search) (c_depth : Z)
    : (world * Z * search) + (world * search * nat * Z) :=
  match l with
  | [] => inr (w, sr, m, c_depth)
  | n :: l' =>
      if match s_src sr, s_dst sr with None, None => false | _, _ => true end
      then inr (w, sr, m, c_depth)
      else match n with
           | Mapping.Sub sub =>
               let '(w, r, sr) := rec w sub (get_lsb src_key (Treemap._page_shift t))
                                    (get_lsb dst_key (Treemap._page_shift t)) in
               if 0 <=? r then inl (unlock w tm f, r, sr)
               else src_dst_loop l' (S m) w sr c_depth
           | Mapping.Real _ v =>
               let here := mkFrame (Some m) tm f in
               src_dst_loop l' (S m) w
                 (mksearch (if Treemap.match_ t n src src_va then Some here else s_src sr)
                           (if Treemap.match_ t n dst dst_va then Some here else s_dst sr))
                 (Mapping.depth v)
           | Mapping.Blank _ => inl (set_stuck w, -1, sr)
           end
  end.
End src_dst_loop.

Section src_dst.
Variables (src src_va dst dst_va : Z).

(** Both keys are in the frame [f], which is locked: the search in its tree
    and the decision.  The remaining argument is the recursive call. *)
Definition src_dst_same (rec : world -> nat -> Z -> Z -> world * Z * search) (fuel : nat)
    (w : world) (tm f : nat) (src_key dst_key : Z) : world * Z * search :=
  let t := get_map w tm in
  let l := get_tree w tm f in
  let sr := mksearch (match l with
                      | _ :: _ => if is_sigma0 src then Some (mkFrame None tm f) else None
                      | [] => None
                      end) None in
  match src_dst_loop rec tm f t src src_key src_va dst dst_key dst_va l 0 w sr (-1) with
  | inl r => r
  | inr (w, sr, m, c_depth) =>
      match s_src sr, s_dst sr with
      | None, None => (unlock w tm f, -1, sr)
      | Some _, Some _ => (w, 2, sr)
      | Some s, None =>
          let r := _lookup fuel dst dst_va m w tm f dst_key None (Some (c_depth, c_depth)) in
          let w := r_world r in
          let '(r_depth, c_depth) := default (0, 0) (r_depths r) in
          let sr := mksearch (Some s) (r_frame r) in
          match r_m r with
          | None => (clear_both w s tm f, -1, mksearch None (r_frame r))
          | Some m =>
              if negb (is_sub (get_tree w tm f !! m))
              then (w, if r_depth + 1 =? c_depth then 0 else 1, sr)
              else if (r_depth =? c_depth)
                      && (match r_frame r with Some d =>
                            match frame_node w d with
                            | Some n => Mapping.depth (Mapping.virt n) | None => 0 end
                          | None => 0 end =? 0)
              then (w, 0, sr) else (w, 1, sr)
          end
      | None, Some d =>
          let r := _lookup fuel src src_va m w tm f src_key None (Some (c_depth, c_depth)) in
          let w := r_world r in
          let '(r_depth, c_depth) := default (0, 0) (r_depths r) in
          let sr := mksearch (r_frame r) (Some d) in
          match r_m r with
          | None => (clear_both w d tm f, -1, mksearch (r_frame r) None)
          | Some m =>
              if negb (is_sub (get_tree w tm f !! m))
              then (w, if r_depth <? -1 then 1 else 2, sr)
              else if r_depth =? c_depth
              then (might_clear w (r_frame r), 2, mksearch None (Some d))
              else (w, 1, sr)
          end
      end
  end.

(** Returns -1: not both mappings found; 0: the destination is a child of the
    source; 1: it has to be unmapped first; 2: there is nothing to map. *)
Fixpoint lookup_src_dst (fuel : nat) (w : world) (tm : nat) (src_key dst_key : Z)
    : world * Z * search :=
  match fuel with
  | O => (set_stuck w, -1, mksearch None None)
  | S fuel' =>
      let t := get_map w tm in
      let src_k := Treemap.trunc_to_page t src_key in
      let dst_k := Treemap.trunc_to_page t dst_key in
      if negb (src_k =? dst_k)
      then match lookup fuel w tm dst_key dst dst_va with
           | (w, None) => (w, -1, mksearch None None)
           | (w, Some d) =>
               match lookup fuel w tm src_key src src_va with
               | (w, None) => (frame_clear w d, -1, mksearch None None)
               | (w, Some s) => (w, 1, mksearch (Some s) (Some d))
               end
           end
      else let '(w, f) := tree_lock w tm dst_k in
           src_dst_same (lookup_src_dst fuel') fuel w tm f src_key dst_key
  end.
End src_dst.

(** ** [Treemap::insert], [flush] and [grant] *)

(** [free->set_space(space); set_vaddr( *free, va)] *)
Definition set_node (w : world) (tm f i : nat) (space va : Z) : world :=
  let t := get_map w tm in
  set_tree w tm f
    (complete (get_tree w tm f) i space (Treemap.trunc_to_page t va)).

Definition set_submap (w : world) (tm f i : nat) (s : nat) : world :=
  set_tree w tm f (alter (fun m => Mapping.set_submap m s) i (get_tree w tm f)).

(** A normal mapping of the page size of the treemap. *)
Definition insert_here (w : world) (tm f : nat) (parent : option nat) (space va : Z)
    : world * option Frame :=
  match Mapping_tree.allocate w space (get_tree w tm f) parent with
  | (w, None) => (w, None)
  | (w, Some (l, i)) => (set_node (set_tree w tm f l) tm f i space va, Some (mkFrame (Some i) tm f))
  end.

(** The submap of the parent, created when there is none. *)
Definition ensure_submap (w : world) (tm f : nat) (parent : option nat) (parent_space parent_va : Z)
    : world * option nat :=
  match Mapping_tree.find_submap (get_tree w tm f) parent with
  | Some s => (w, Some s)
  | None =>
      let t := get_map w tm in
      match Mapping_tree.allocate_submap w parent_space (get_tree w tm f) parent with
      | (w, None) => (w, None)
      | (w, Some (l, i)) =>
          let w := set_tree w tm f l in
          match create w (Treemap._page_shift t) parent_space parent_va (Treemap._sub_shifts t) with
          | (None, w) =>
              let '(w, l) := Mapping_tree.free_mapping w parent_space (get_tree w tm f) i in
              (set_tree w tm f l, None)
          | (Some s, w) => (set_submap w tm f i s, Some s)
          end
      end
  end.

Fixpoint insert (fuel : nat) (w : world) (tm f : nat) (parent : option nat)
    (parent_space parent_va space va phys size : Z) : world * option Frame :=
  match fuel with
  | O => (set_stuck w, None)
  | S fuel =>
      let t := get_map w tm in
      if Treemap.page_size t =? size then insert_here w tm f parent space va
      else
        match ensure_submap w tm f parent parent_space parent_va with
        | (w, None) => (w, None)
        | (w, Some submap) =>
            let st := get_map w submap in
            let off := mask_lsb (get_lsb phys (Treemap._page_shift t)) (Treemap._page_shift st) in
            let '(w, subframe) := tree_lock w submap (Treemap.trunc_to_page st off) in
            let '(w, ret) := insert fuel w submap subframe None parent_space (madd parent_va off)
                               space va phys size in
            (unlock w submap subframe, ret)
        end
  end.

Definition flush (fuel : nat) (w : world) (tm f : nat) (parent : option nat) (me_too : bool)
    (offs_begin offs_end : Z) : world :=
  let '(w, l) := Mapping_tree.flush (H1 := Treemap_ops fuel (Treemap._page_shift (get_map w tm)))
                   w (get_tree w tm f) parent me_too offs_begin offs_end in
  set_tree w tm f l.

Definition grant (fuel : nat) (w : world) (tm f m : nat) (new_space va : Z) : bool * world :=
  let t := get_map w tm in
  match Mapping_tree.grant (H1 := Treemap_ops fuel (Treemap._page_shift t)) sizeof_Mapping
          w (get_tree w tm f) m new_space (Treemap.trunc_to_page t va) with
  | Some (r, w, l) => (r, set_tree w tm f l)
  | None => (false, set_stuck w)
  end.

(** ** [Mapdb] on its root treemap *)
Definition valid_address (w : world) (root : nat) (phys : Z) : bool :=
  phys <? Treemap.end_addr (get_map w root).

Definition mapdb_insert (fuel : nat) (w : world) (fr : Frame) (space va phys size : Z)
    : world * option Frame :=
  insert fuel w (fr_treemap fr) (fr_frame fr) (fr_m fr) (pspace w fr) (pvaddr w fr) space va phys size.

Definition mapdb_flush (fuel : nat) (w : world) (fr : Frame) (self_unmap : bool) (va_start va_end : Z)
    : world :=
  let size := Treemap.page_size (get_map w (fr_treemap fr)) in
  let pva := pvaddr w fr in
  let offs_begin := if va_start >? pva then msub va_start pva else 0 in
  let offs_end := if va_end >? madd pva size then size else msub va_end pva in
  flush fuel w (fr_treemap fr) (fr_frame fr) (fr_m fr) self_unmap offs_begin offs_end.

Definition mapdb_grant (fuel : nat) (w : world) (fr : Frame) (new_space va : Z) : bool * world :=
  match fr_m fr with
  | Some m => grant fuel w (fr_treemap fr) (fr_frame fr) m new_space va
  | None => (false, set_stuck w)
  end.

(** ** Visiting the mappings below a frame

    The calls of [func] in order, with the page order they get. *)
Section foreach.
Variable w : world.

Definition for_range (tm : nat) (start last : Z) (func : nat -> list (Mapping.t * Z))
    : list (Mapping.t * Z) :=
  concat (map (fun k => match get_tree w tm k with [] => [] | _ => func k end)
            (seq (Z.to_nat start) (Z.to_nat (last - start)))).

Section full.
Variable rec : nat -> nat -> list (Mapping.t * Z).
Fixpoint full_loop (min_depth : Z) (l : list Mapping.t) (size : Z) : list (Mapping.t * Z) :=
  match l with
  | [] => []
  | Mapping.Sub map :: l' =>
      for_range map 0 (Treemap._key_end (get_map w map)) (rec map) ++ full_loop min_depth l' size
  | m :: l' => if Mapping.depth (Mapping.virt m) >=? min_depth
               then (m, size) :: full_loop min_depth l' size else []
  end.
End full.

Fixpoint _for_full_subtree (fuel : nat) (min_depth : Z) (l : list Mapping.t) (size : Z)
    : list (Mapping.t * Z) :=
  match fuel with
  | O => []
  | S fuel =>
      full_loop (fun map k => _for_full_subtree fuel 0 (get_tree w map k)
                                (Treemap._page_shift (get_map w map)))
        min_depth l size
  end.

Fixpoint _foreach_mapping (fuel : nat) (min_depth : Z) (l : list Mapping.t) (size va_begin va_end : Z)
    : list (Mapping.t * Z) :=
  match fuel, l with
  | O, _ | _, [] => []
  | S fuel', Mapping.Sub submap :: l' =>
      let t := get_map w submap in
      let ps := Treemap._page_shift t in
      let po := Treemap._page_offset t in
      let start := if va_begin >? po then msub va_begin po >> ps else 0 in
      let last := if va_end <? madd po (Treemap.size t)
                  then Treemap.round_to_page t (msub va_end po) else Treemap._key_end t in
      for_range submap start last
        (fun k => _foreach_mapping fuel' 0 (get_tree w submap k) ps va_begin va_end)
      ++ _for_full_subtree fuel min_depth l' size
  | S _, _ => _for_full_subtree fuel min_depth l size
  end.

Definition foreach_mapping (fuel : nat) (fr : Frame) (va_begin va_end : Z) : list (Mapping.t * Z) :=
  _foreach_mapping fuel (next_depth w fr)
    (drop (next_mapping w fr) (get_tree w (fr_treemap fr) (fr_frame fr)))
    (Treemap._page_shift (get_map w (fr_treemap fr))) va_begin va_end.

End foreach.

End state.

(** * Properties *)

Section frames.
Context `{Arch} `{Mapdb_env}.

Lemma get_set_frame w tm f pf tm' f' :
  is_Some (get_frame w tm f) ->
  get_frame (set_frame w tm f pf) tm' f'
  = if bool_decide (tm = tm' /\ f = f') then Some pf else get_frame w tm' f'.
Proof.
  intros [pf0 Hf]. unfold get_frame, set_frame, set_maps in *. simpl.
  destruct (maps w !! tm) as [t |] eqn:Et; simpl in Hf; [| done].
  destruct (decide (tm = tm')) as [<- | Hne].
  - rewrite lookup_alter, Et. rewrite decide_True by done. simpl.
    destruct (decide (f = f')) as [<- | Hne'].
    + rewrite bool_decide_true by done. apply list_lookup_insert_eq. by eapply lookup_lt_Some.
    + rewrite bool_decide_false by tauto. by apply list_lookup_insert_ne.
  - rewrite lookup_alter_ne by done. by rewrite bool_decide_false by tauto.
Qed.

Lemma world_eq w w' :
  maps w = maps w' -> quotas w = quotas w' -> oracle w = oracle w' -> fresh w = fresh w' ->
  stuck w = stuck w' -> w = w'.
Proof. destruct w, w'; simpl. by intros -> -> -> -> ->. Qed.

Lemma set_set_frame w tm f a b : set_frame (set_frame w tm f a) tm f b = set_frame w tm f b.
Proof.
  apply world_eq; simpl; try done. apply map_eq. intros i. destruct (decide (tm = i)) as [<- | ?].
  - rewrite !lookup_alter, !decide_True by done. destruct (maps w !! tm) as [t |]; simpl; [| done].
    f_equal. unfold Treemap.set_frames; simpl. by rewrite list_insert_insert_eq.
  - by rewrite !lookup_alter_ne by done.
Qed.

Lemma set_frame_id w tm f pf : get_frame w tm f = Some pf -> set_frame w tm f pf = w.
Proof.
  unfold get_frame. intros Hf. apply world_eq; simpl; try done. apply map_eq. intros i.
  destruct (decide (tm = i)) as [<- | ?]; [| by rewrite lookup_alter_ne by done].
  rewrite lookup_alter, decide_True by done. destruct (maps w !! tm) as [t |]; simpl in *; [| done].
  f_equal. rewrite list_insert_id by done. by destruct t.
Qed.

Lemma set_frame_comm w tm f tm' f' a b :
  tm <> tm' -> set_frame (set_frame w tm f a) tm' f' b = set_frame (set_frame w tm' f' b) tm f a.
Proof.
  intros Hne. apply world_eq; simpl; try done. apply map_eq. intros i.
  rewrite !lookup_alter. repeat case_decide; subst; done.
Qed.

(** A frame that exists and is free. *)
Definition free_frame (w : world) (tm f : nat) : Prop :=
  exists l, get_frame w tm f = Some (Physframe.mk false l).

Lemma lock_free w tm f l :
  get_frame w tm f = Some (Physframe.mk false l) ->
  lock w tm f = set_frame w tm f (Physframe.mk true l).
Proof. intros Hf. unfold lock. by rewrite Hf. Qed.

Lemma unlock_lock w tm f : free_frame w tm f -> unlock (lock w tm f) tm f = w.
Proof.
  intros [l Hf]. rewrite (lock_free _ _ _ _ Hf). unfold unlock.
  rewrite get_set_frame, bool_decide_true by (rewrite ?Hf; done). simpl.
  rewrite set_set_frame. by apply set_frame_id.
Qed.

(** The outer frame can be released while an inner one is held. *)
Lemma unlock_outer w tm f tm' f' :
  tm <> tm' -> free_frame w tm f -> free_frame w tm' f' ->
  unlock (lock (lock w tm f) tm' f') tm f = lock w tm' f'.
Proof.
  intros Hne [l Hf] [l' Hf'].
  assert (forall a, get_frame (set_frame w tm f a) tm' f' = Some (Physframe.mk false l')) as E.
  { intros a. rewrite get_set_frame, bool_decide_false by (rewrite ?Hf; naive_solver). done. }
  assert (forall b, get_frame (set_frame w tm' f' b) tm f = Some (Physframe.mk false l)) as E'.
  { intros b. rewrite get_set_frame, bool_decide_false by (rewrite ?Hf'; naive_solver). done. }
  rewrite (lock_free _ _ _ _ Hf), (lock_free _ _ _ _ Hf'), (lock_free _ _ _ _ (E _)).
  rewrite set_frame_comm by done. unfold unlock.
  rewrite get_set_frame, bool_decide_true by (rewrite ?E'; done). simpl.
  rewrite set_set_frame. apply set_frame_id, E'.
Qed.

Lemma get_tree_lock w tm f tm' f' : free_frame w tm f -> get_tree (lock w tm f) tm' f' = get_tree w tm' f'.
Proof.
  intros [l Hf]. rewrite (lock_free _ _ _ _ Hf). unfold get_tree.
  rewrite get_set_frame by (by rewrite Hf). case_bool_decide as E; [| done].
  destruct E as [<- <-]. by rewrite Hf.
Qed.

(** Locking keeps everything of a treemap but the lock bits. *)
Lemma maps_lock w tm f i t :
  free_frame w tm f -> maps (lock w tm f) !! i = Some t ->
  exists t0, maps w !! i = Some t0 /\ (i <> tm -> t = t0)
    /\ t = Treemap.set_frames (Treemap._physframe t) t0
    /\ Physframe.tree <$> Treemap._physframe t = Physframe.tree <$> Treemap._physframe t0.
Proof.
  intros [l Hf] Hi. rewrite (lock_free _ _ _ _ Hf) in Hi. unfold set_frame, set_maps in Hi. simpl in Hi.
  destruct (decide (tm = i)) as [<- | ?].
  - rewrite lookup_alter, decide_True in Hi by done. unfold get_frame in Hf.
    destruct (maps w !! tm) as [t0 |]; [| done]. simpl in *. injection Hi as <-.
    exists t0. split; [done | split; [done | split; [done |]]]. simpl.
    rewrite list_fmap_insert. simpl. apply list_insert_id. by rewrite list_lookup_fmap, Hf.
  - rewrite lookup_alter_ne in Hi by done. exists t. split_and!; try done. by destruct t.
Qed.

Lemma maps_lock_back w tm f i t0 :
  free_frame w tm f -> maps w !! i = Some t0 ->
  exists t, maps (lock w tm f) !! i = Some t /\ (i <> tm -> t = t0)
    /\ t = Treemap.set_frames (Treemap._physframe t) t0
    /\ Physframe.tree <$> Treemap._physframe t = Physframe.tree <$> Treemap._physframe t0.
Proof.
  intros Hf Hi. destruct (maps (lock w tm f) !! i) as [t |] eqn:Et.
  - exists t. split; [done |]. destruct (maps_lock _ _ _ _ _ Hf Et) as (t1 & E1 & ? & ? & ?).
    rewrite Hi in E1. by injection E1 as <-.
  - destruct Hf as [l Hf]. rewrite (lock_free _ _ _ _ Hf) in Et. simpl in Et.
    apply lookup_alter_None in Et || (rewrite lookup_alter in Et). congruence || done.
Qed.

(** ** Well-formed databases

    The number of smaller page sizes is the level of a treemap.  A reference in
    a tree leads to a live treemap one level below, which covers one page of
    the referring treemap. *)
Definition level (t : Treemap.t) : nat := length (Treemap._sub_shifts t).

Definition node_ok (w : world) (t : Treemap.t) (m : Mapping.t) : Prop :=
  match m with
  | Mapping.Real _ _ => True
  | Mapping.Blank _ => False
  | Mapping.Sub s => exists ts, maps w !! s = Some ts
      /\ Treemap._sub_shifts t = Treemap._page_shift ts :: Treemap._sub_shifts ts
      /\ Treemap._key_end ts * 2 ^ Treemap._page_shift ts = 2 ^ Treemap._page_shift t
  end.

Record map_ok (w : world) (t : Treemap.t) : Prop := {
  ok_frames : Z.of_nat (length (Treemap._physframe t)) = Treemap._key_end t;
  ok_shift : 0 <= Treemap._page_shift t < MWORD_BITS;
  ok_nodes : forall f pf m, Treemap._physframe t !! f = Some pf -> m ∈ Physframe.tree pf -> node_ok w t m }.

Definition wf (w : world) : Prop := forall tm t, maps w !! tm = Some t -> map_ok w t.

(** All frames of treemaps below a level are free. *)
Definition free_below (w : world) (n : nat) : Prop :=
  forall tm t f pf, maps w !! tm = Some t -> (level t < n)%nat ->
    Treemap._physframe t !! f = Some pf -> Physframe.locked pf = false.

Lemma get_frame_in w tm f t pf :
  maps w !! tm = Some t -> get_frame w tm f = Some pf -> Treemap._physframe t !! f = Some pf.
Proof. unfold get_frame. by intros ->. Qed.

Lemma wf_lock w tm f : free_frame w tm f -> wf w -> wf (lock w tm f).
Proof.
  intros Hf Hw i t Hi. destruct (maps_lock _ _ _ _ _ Hf Hi) as (t0 & E0 & _ & Et & Etr).
  destruct (Hw _ _ E0) as [O1 O2 O3]. assert (length (Treemap._physframe t) = length (Treemap._physframe t0)) as El.
  { by rewrite <- (length_fmap Physframe.tree), Etr, length_fmap. }
  split; [rewrite El, Et; done | rewrite Et; done |].
  intros f' pf m Hpf Hm.
  assert ((Physframe.tree <$> Treemap._physframe t0) !! f' = Some (Physframe.tree pf)) as Ht
    by (by rewrite <- Etr, list_lookup_fmap, Hpf).
  rewrite list_lookup_fmap in Ht. destruct (Treemap._physframe t0 !! f') as [pf0 |] eqn:E; [| done].
  injection Ht as Ht. rewrite <- Ht in Hm. specialize (O3 _ _ _ E Hm).
  destruct m as [| s |]; [done | | done]. destruct O3 as (ts & Es & Hsh & Hk).
  destruct (maps_lock_back _ _ _ _ _ Hf Es) as (ts' & Es' & _ & Ets & _).
  exists ts'. split; [done |]. rewrite Et, Ets. done.
Qed.

Lemma free_below_lock w tm f t n :
  free_frame w tm f -> maps w !! tm = Some t -> (n <= level t)%nat ->
  free_below w n -> free_below (lock w tm f) n.
Proof.
  intros Hf Ht Hn Hb i t' f' pf Hi Hl Hpf. destruct (maps_lock _ _ _ _ _ Hf Hi) as (t0 & E0 & Hne & Et & _).
  assert (level t' = level t0) as El by (unfold level; by rewrite Et).
  destruct (decide (i = tm)) as [-> | Hi']; [assert (t0 = t) as -> by congruence; lia |].
  rewrite (Hne Hi') in *. by eapply Hb.
Qed.

Lemma get_lsb_mod v o : is_mword v -> 0 <= o < MWORD_BITS -> get_lsb v o = v mod 2 ^ o.
Proof.
  intros Hv Ho. unfold get_lsb. rewrite <- Z.land_ones by lia.
  apply Z.bits_inj'. intros n Hn. bits_simp; rewrite ?Z.bits_m1 by lia; bits_close.
Qed.

Lemma get_lsb_range v o : is_mword v -> 0 <= o < MWORD_BITS -> 0 <= get_lsb v o < 2 ^ o.
Proof. intros. rewrite get_lsb_mod by done. apply Z.mod_pos_bound, pow2_pos. lia. Qed.

(** The frame of a submap that a key selects. *)
Definition sub_frame (w : world) (s : nat) (subkey : Z) : nat :=
  Z.to_nat (Treemap.trunc_to_page (get_map w s) subkey).

Lemma sub_frame_exists w t s key :
  wf w -> is_mword key -> map_ok w t -> node_ok w t (Mapping.Sub s) ->
  exists pf, get_frame w s (sub_frame w s (get_lsb key (Treemap._page_shift t))) = Some pf.
Proof.
  intros Hw Hk [_ Ho _] (ts & Es & _ & Hsz). destruct (Hw _ _ Es) as [Hfr Hs _].
  unfold get_frame, sub_frame, get_map, Treemap.trunc_to_page. rewrite Es. simpl.
  apply lookup_lt_is_Some_2. pose proof (get_lsb_range key _ Hk Ho) as Hr.
  rewrite Z.shiftr_div_pow2 by lia. rewrite <- Hsz in Hr.
  assert (0 < 2 ^ Treemap._page_shift ts) by (apply pow2_pos; lia).
  assert (get_lsb key (Treemap._page_shift t) / 2 ^ Treemap._page_shift ts < Treemap._key_end ts)
    by (apply Z.div_lt_upper_bound; lia).
  assert (0 <= get_lsb key (Treemap._page_shift t) / 2 ^ Treemap._page_shift ts)
    by (apply Z.div_pos; lia).
  lia.
Qed.

(** ** What a lookup can find

    A mapping of the space at the address in the tree of the frame, or in the
    frame of a submap that the rest of the key selects. *)
Inductive found (w : world) (spc va : Z) : nat -> nat -> Z -> Frame -> Prop :=
| found_here tm f key i m :
    get_tree w tm f !! i = Some m -> Treemap.match_ (get_map w tm) m spc va = true ->
    found w spc va tm f key (mkFrame (Some i) tm f)
| found_sub tm f key i s fr :
    get_tree w tm f !! i = Some (Mapping.Sub s) ->
    let subkey := get_lsb key (Treemap._page_shift (get_map w tm)) in
    found w spc va s (sub_frame w s subkey) subkey fr ->
    found w spc va tm f key fr.

Lemma get_map_lock w tm f i :
  free_frame w tm f -> get_map (lock w tm f) i
  = Treemap.set_frames (Treemap._physframe (get_map (lock w tm f) i)) (get_map w i).
Proof.
  intros Hf. unfold get_map. destruct (maps w !! i) as [t0 |] eqn:E0.
  - destruct (maps_lock_back _ _ _ _ _ Hf E0) as (t & Et & _ & E & _). rewrite Et. simpl. exact E.
  - destruct (maps (lock w tm f) !! i) as [t |] eqn:E.
    + destruct (maps_lock _ _ _ _ _ Hf E) as (? & ? & _). congruence.
    + done.
Qed.

Lemma page_shift_lock w tm f i :
  free_frame w tm f -> Treemap._page_shift (get_map (lock w tm f) i) = Treemap._page_shift (get_map w i).
Proof. intros Hf. by rewrite get_map_lock. Qed.

Lemma sub_frame_lock w tm f i k : free_frame w tm f -> sub_frame (lock w tm f) i k = sub_frame w i k.
Proof. intros Hf. unfold sub_frame, Treemap.trunc_to_page. by rewrite page_shift_lock. Qed.

Lemma found_lock w tm f spc va a b key fr :
  free_frame w tm f -> found (lock w tm f) spc va a b key fr <-> found w spc va a b key fr.
Proof.
  intros Hf. split; induction 1 as [a b key i m Hi Hm | a b key i s fr Hi sk Hs IH].
  - eapply found_here; [by rewrite get_tree_lock in Hi |].
    destruct m; try done. cbn in *. unfold Treemap.vaddr, Treemap.to_vaddr in *.
    by rewrite page_shift_lock in Hm.
  - eapply found_sub; [by rewrite get_tree_lock in Hi |].
    subst sk. rewrite sub_frame_lock, page_shift_lock in IH by done. exact IH.
  - eapply found_here; [by rewrite get_tree_lock |].
    destruct m; try done. cbn in *. unfold Treemap.vaddr, Treemap.to_vaddr in *.
    by rewrite page_shift_lock.
  - eapply found_sub; [by rewrite get_tree_lock |].
    subst sk. rewrite sub_frame_lock, page_shift_lock by done. exact IH.
Qed.

(** The result of a search from position [m] of a tree on: nothing changed and
    nothing is there; or a mapping of the tree itself, and no lock was taken; or
    one in a submap, with exactly its frame locked. *)
Definition absent (w : world) (tm f m : nat) (key spc va : Z) : Prop :=
  forall i n, (m <= i)%nat -> get_tree w tm f !! i = Some n ->
    Treemap.match_ (get_map w tm) n spc va = false
    /\ forall s fr, n = Mapping.Sub s ->
         let sk := get_lsb key (Treemap._page_shift (get_map w tm)) in
         ~ found w spc va s (sub_frame w s sk) sk fr.

Definition here (w : world) (tm f i : nat) (spc va : Z) (r : result) : Prop :=
  exists n, get_tree w tm f !! i = Some n /\ Treemap.match_ (get_map w tm) n spc va = true
    /\ r_frame r = Some (mkFrame (Some i) tm f) /\ r_world r = w.

Definition inside (w : world) (tm f i : nat) (key spc va : Z) (r : result) : Prop :=
  exists s fr tf,
    let sk := get_lsb key (Treemap._page_shift (get_map w tm)) in
    get_tree w tm f !! i = Some (Mapping.Sub s) /\ r_frame r = Some fr
    /\ found w spc va s (sub_frame w s sk) sk fr
    /\ r_world r = lock w (fr_treemap fr) (fr_frame fr) /\ free_frame w (fr_treemap fr) (fr_frame fr)
    /\ maps w !! fr_treemap fr = Some tf /\ (level tf < level (get_map w tm))%nat.

Definition post (w : world) (tm f m : nat) (key spc va : Z) (res : option Frame) (r : result) : Prop :=
  match r_m r with
  | None => r_world r = w /\ r_frame r = res /\ absent w tm f m key spc va
  | Some i => (m <= i)%nat /\ (here w tm f i spc va r \/ inside w tm f i key spc va r)
  end.

Lemma match_sub tm m spc va : Treemap.match_ tm m spc va = true -> is_sub (Some m) = false.
Proof. by destruct m. Qed.

(** A frame is locked, searched and released unless the mapping is in it: then
    just the frame of the mapping is locked, or nothing. *)
Lemma settle w s k ts key spc va res r :
  free_frame w s k -> maps w !! s = Some ts -> post (lock w s k) s k 0 key spc va res r ->
  match r_m r with
  | None => unlock (r_world r) s k = w /\ r_frame r = res /\ forall fr, ~ found w spc va s k key fr
  | Some ms => exists fr tf,
      r_frame r = Some fr /\ found w spc va s k key fr
      /\ (if is_sub (get_tree (r_world r) s k !! ms) then unlock (r_world r) s k else r_world r)
         = lock w (fr_treemap fr) (fr_frame fr)
      /\ free_frame w (fr_treemap fr) (fr_frame fr)
      /\ maps w !! fr_treemap fr = Some tf /\ (level tf <= level ts)%nat
  end.
Proof.
  intros Hfree Es. unfold post. destruct (r_m r) as [ms |].
  - intros [_ [(n & Hn & Hm & Hfr & Hw) | (s' & fr & tf & Hn & Hfr & Hfnd & Hw & Hff & Htf & Hlf)]].
    + exists (mkFrame (Some ms) s k), ts. rewrite Hw, Hn, (match_sub _ _ _ _ Hm).
      split_and!; try done. rewrite <- (found_lock w s k) by done. by econstructor.
    + destruct (maps_lock _ _ _ _ _ Hfree Htf) as (tf0 & Htf0 & _ & Etf & _).
      assert (level tf = level tf0) as Elf by (unfold level; by rewrite Etf).
      assert (level tf < level ts)%nat as Hlt.
      { rewrite get_map_lock in Hlf by done. unfold get_map at 2 in Hlf. by rewrite Es in Hlf. }
      assert (fr_treemap fr <> s) as Hne by (intros E; rewrite E, Es in Htf0; injection Htf0 as <-; lia).
      assert (free_frame w (fr_treemap fr) (fr_frame fr)) as Hff'.
      { destruct Hff as [l Hff]. destruct Hfree as [l0 Hfree]. rewrite (lock_free _ _ _ _ Hfree) in Hff.
        rewrite get_set_frame, bool_decide_false in Hff by (rewrite ?Hfree; naive_solver). by exists l. }
      exists fr, tf0. rewrite Hw, (get_tree_lock (lock w s k)), Hn by done. cbn [is_sub].
      split_and!; try done; [| by apply unlock_outer | lia].
      rewrite <- (found_lock w s k) by done. by eapply found_sub.
  - intros (Hw & Hr & Habs). rewrite Hw. split; [by apply unlock_lock |]. split; [done |].
    intros fr Hf. rewrite <- (found_lock w s k) in Hf by done.
    inversion Hf as [? ? ? i' m Hi' Hm | ? ? ? i' s' fr' Hi' sk' Hs']; subst.
    + destruct (Habs _ _ (Nat.le_0_l _) Hi') as [E _]. congruence.
    + destruct (Habs _ _ (Nat.le_0_l _) Hi') as [_ E]. by eapply (E s').
Qed.

Lemma lookup_loop_spec rec w tm f key spc va l m res ds :
  let t := get_map w tm in
  let sk := get_lsb key (Treemap._page_shift t) in
  is_sigma0 spc = false ->
  (forall s, Mapping.Sub s ∈ get_tree w tm f -> free_frame w s (sub_frame w s sk)
     /\ (exists ts, maps w !! s = Some ts /\ (level ts < level t)%nat)
     /\ forall ds, post (lock w s (sub_frame w s sk)) s (sub_frame w s sk) 0 sk spc va res
                    (rec (lock w s (sub_frame w s sk)) s (sub_frame w s sk) sk res ds)) ->
  (forall v, Mapping.Blank v ∉ get_tree w tm f) ->
  l = drop m (get_tree w tm f) ->
  post w tm f m key spc va res (lookup_loop rec tm f t spc sk va l m w res ds).
Proof.
  intros t sk Hs0 Hsub Hblank. revert m ds. induction l as [|n l IH]; intros m ds Hl.
  - split_and!; try done. intros i n Hmi Hi. exfalso.
    assert (drop m (get_tree w tm f) !! (i - m)%nat = Some n) as E
      by (rewrite lookup_drop; by replace (m + (i - m))%nat with i by lia).
    by rewrite <- Hl in E.
  - assert (get_tree w tm f !! m = Some n) as Hm.
    { replace m with (m + 0)%nat by lia. by rewrite <- lookup_drop, <- Hl. }
    assert (l = drop (S m) (get_tree w tm f)) as Hl'.
    { replace (S m) with (m + 1)%nat by lia. by rewrite <- drop_drop, <- Hl. }
    assert (n ∈ get_tree w tm f) as Hin by (by eapply list_elem_of_lookup_2).
    (* the position itself has nothing: the answer is the one for the rest *)
    assert (forall r,
      Treemap.match_ t n spc va = false ->
      (forall s fr, n = Mapping.Sub s -> ~ found w spc va s (sub_frame w s sk) sk fr) ->
      post w tm f (S m) key spc va res r -> post w tm f m key spc va res r) as Hskip.
    { intros r H1 H2. unfold post. destruct (r_m r) as [i |].
      - intros [? ?]. split; [lia | done].
      - intros (Hw & Hr & Ha). split_and!; try done. intros i n' Hmi Hi.
        destruct (decide (i = m)) as [-> | Hne]; [| exact (Ha i n' ltac:(lia) Hi)].
        rewrite Hm in Hi. injection Hi as <-. split; [exact H1 | exact H2]. }
    destruct n as [s v | s | v]; cbn [lookup_loop]; [| | by edestruct Hblank].
    + destruct (Treemap.match_ t (Mapping.Real s v) spc va) eqn:Em.
      * split; [done |]. left. exists (Mapping.Real s v). done.
      * apply Hskip; [done | done | by apply IH].
    + destruct (Hsub s Hin) as (Hfree & Hlev & Hrec). unfold tree_lock.
      fold (sub_frame w s sk). rewrite Hs0. specialize (Hrec ds).
      destruct Hlev as (ts & Es & Hlev).
      pose proof (settle w s _ ts sk spc va res _ Hfree Es Hrec) as Hp.
      destruct (r_m _) as [ms |].
      * destruct Hp as (fr & tf & Hfr & Hfnd & Hw & Hff & Htf & Hlf).
        split; [done |]. right. exists s, fr, tf. split_and!; try done. subst t. lia.
      * destruct Hp as (-> & -> & Hno). apply Hskip; [done | | by apply IH].
        intros s' fr E. by injection E as <-.
Qed.

(** [_lookup] with fuel for the levels below. *)
Lemma _lookup_spec fuel spc va m w tm f key t res ds :
  wf w -> maps w !! tm = Some t -> (level t < fuel)%nat -> free_below w (level t) ->
  is_mword key -> is_sigma0 spc = false ->
  post w tm f m key spc va res (_lookup fuel spc va m w tm f key res ds).
Proof.
  revert m w tm f key t res ds. induction fuel as [|fuel IH]; intros m w tm f key t res ds Hw Ht Hl Hb Hk Hs0; [lia |].
  assert (get_map w tm = t) as Et by (unfold get_map; by rewrite Ht).
  assert (forall n, n ∈ get_tree w tm f -> node_ok w t n) as Hnode.
  { intros n Hn. unfold get_tree in Hn. destruct (get_frame w tm f) as [pf |] eqn:Ef; [| by apply elem_of_nil in Hn].
    eapply (ok_nodes w t (Hw _ _ Ht)); [by eapply get_frame_in | done]. }
  cbn [_lookup].
  apply lookup_loop_spec; [done | | | done].
  - intros s Hs. rewrite Et. pose proof (Hnode _ Hs) as Hno.
    destruct (sub_frame_exists w t s key Hw Hk (Hw _ _ Ht) Hno) as [pf Hpf].
    destruct Hno as (ts & Es & Hsh & _).
    assert (level ts < level t)%nat as Hlt by (unfold level; rewrite Hsh; simpl; lia).
    assert (free_frame w s (sub_frame w s (get_lsb key (Treemap._page_shift t)))) as Hfree.
    { assert (Physframe.locked pf = false) as Hlk by (eapply Hb; [done | done | by eapply get_frame_in]).
      destruct pf as [b l]; simpl in Hlk; subst b. by exists l. }
    split; [done |]. split; [eauto |]. intros ds'.
    destruct (maps_lock_back _ _ _ _ _ Hfree Es) as (ts' & Es' & _ & Ets & _).
    assert (level ts' = level ts) as Elv by (unfold level; by rewrite Ets).
    eapply IH; [by apply wf_lock | done | lia | | | done].
    + rewrite Elv. eapply free_below_lock; [done | done | done |].
      intros i ti fi pfi Hi Hli. eapply Hb; [done | lia].
    + destruct (ok_shift w t (Hw _ _ Ht)). pose proof (get_lsb_range key _ Hk (ok_shift w t (Hw _ _ Ht))).
      split; [lia |]. apply Z.lt_trans with (2 ^ Treemap._page_shift t); [lia |].
      apply Z.pow_lt_mono_r; lia.
  - intros v Hv. exact (Hnode _ Hv).
Qed.

(** C17: a lookup in a well-formed database terminates without waiting for
    itself or leaving an array.  It succeeds exactly when there is a mapping of
    the space at the address in the frame or in one of the submaps that the
    physical address selects, and then of all locks exactly the one of the
    frame that holds the mapping is taken; when it fails no lock is held and
    the database is as before. *)
Theorem lookup_locks_result fuel w tm t key spc va :
  wf w -> maps w !! tm = Some t -> (level t < fuel)%nat -> free_below w (S (level t)) ->
  is_mword key -> Treemap.trunc_to_page t key < Treemap._key_end t -> is_sigma0 spc = false ->
  let f := sub_frame w tm key in
  match lookup fuel w tm key spc va with
  | (w', Some fr) => found w spc va tm f key fr /\ free_frame w (fr_treemap fr) (fr_frame fr)
                     /\ w' = lock w (fr_treemap fr) (fr_frame fr)
  | (w', None) => w' = w /\ forall fr, ~ found w spc va tm f key fr
  end.
Proof.
  intros Hw Ht Hl Hb Hk Hkey Hs0 f. unfold lookup, tree_lock. fold (sub_frame w tm key). fold f. rewrite Hs0.
  assert (get_map w tm = t) as Et by (unfold get_map; by rewrite Ht).
  destruct (Hw _ _ Ht) as [Hfr Hsh _].
  assert (free_frame w tm f) as Hfree.
  { assert (f < length (Treemap._physframe t))%nat as Hlt.
    { subst f. unfold sub_frame. rewrite Et. destruct Hk.
      assert (0 <= Treemap.trunc_to_page t key) by (apply Z.shiftr_nonneg; done). lia. }
    apply lookup_lt_is_Some_2 in Hlt as [[b l] Hpf].
    assert (b = false) as -> by (eapply (Hb _ _ _ (Physframe.mk b l)); [done | lia | done]).
    exists l. unfold get_frame. by rewrite Ht. }
  destruct (maps_lock_back _ _ _ _ _ Hfree Ht) as (t' & Et' & _ & Ett & _).
  assert (level t' = level t) as Elv by (unfold level; by rewrite Ett).
  assert (post (lock w tm f) tm f 0 key spc va None
            (_lookup fuel spc va 0 (lock w tm f) tm f key None None)) as Hp.
  { eapply _lookup_spec; try done; [by apply wf_lock | lia |].
    rewrite Elv. eapply free_below_lock; [done | done | done |]. intros i ti fi pfi Hi Hli. eapply Hb; [done | lia]. }
  pose proof (settle w tm f t key spc va None _ Hfree Ht Hp) as Hs. destruct (r_m _) as [m |].
  - destruct Hs as (fr & tf & -> & Hfnd & -> & Hff & _). done.
  - destruct Hs as (-> & _ & Hno). done.
Qed.

End frames.

(** ** Deciding well-formedness of a concrete database *)
Section check.
Context `{Arch}.

Definition node_check (w : world) (t : Treemap.t) (m : Mapping.t) : bool :=
  match m with
  | Mapping.Real _ _ => true
  | Mapping.Blank _ => false
  | Mapping.Sub s =>
      match maps w !! s with
      | Some ts => bool_decide (Treemap._sub_shifts t = Treemap._page_shift ts :: Treemap._sub_shifts ts)
          && (Treemap._key_end ts * 2 ^ Treemap._page_shift ts =? 2 ^ Treemap._page_shift t)
      | None => false
      end
  end.

Definition map_check (w : world) (t : Treemap.t) : bool :=
  (Z.of_nat (length (Treemap._physframe t)) =? Treemap._key_end t)
  && (0 <=? Treemap._page_shift t) && (Treemap._page_shift t <? MWORD_BITS)
  && forallb (fun pf => forallb (node_check w t) (Physframe.tree pf)) (Treemap._physframe t).

Definition wf_check (w : world) : bool :=
  forallb (fun '(_, t) => map_check w t) (map_to_list (maps w)).

Definition free_check (w : world) : bool :=
  forallb (fun '(_, t) => forallb (fun pf => negb (Physframe.locked pf)) (Treemap._physframe t))
    (map_to_list (maps w)).

Lemma forallb_elem {A} (P : A -> bool) l x : forallb P l = true -> x ∈ l -> P x = true.
Proof. intros Hf Hx. rewrite forallb_forall in Hf. by apply Hf, list_elem_of_In. Qed.

Lemma wf_check_ok w : wf_check w = true -> wf w.
Proof.
  intros Hc tm t Ht. apply elem_of_map_to_list in Ht. pose proof (forallb_elem _ _ _ Hc Ht) as Hm.
  cbn in Hm. unfold map_check in Hm. rewrite !andb_true_iff in Hm. destruct Hm as [[[H1 H2] H3] H4].
  apply Z.eqb_eq in H1. apply Z.leb_le in H2. apply Z.ltb_lt in H3. split; [done | done |].
  intros f pf m Hpf Hm. apply list_elem_of_lookup_2 in Hpf.
  pose proof (forallb_elem _ _ _ (forallb_elem _ _ _ H4 Hpf) Hm) as Hn. destruct m as [| s |]; [done | | done].
  cbn in Hn. cbn. destruct (maps w !! s) as [ts |]; [| done]. apply andb_true_iff in Hn as [Ha Hb].
  exists ts. split; [done |]. split; [by apply bool_decide_eq_true in Ha | by apply Z.eqb_eq].
Qed.

Lemma free_check_ok w n : free_check w = true -> free_below w n.
Proof.
  intros Hc tm t f pf Ht _ Hpf. apply elem_of_map_to_list in Ht. apply list_elem_of_lookup_2 in Hpf.
  pose proof (forallb_elem _ _ _ (forallb_elem _ _ _ Hc Ht) Hpf) as Hn. by apply negb_true_iff in Hn.
Qed.

End check.

(** ** Concrete databases *)
Module Mapdb_example.

#[local] Existing Instance arch64.
#[local] Instance env : Mapdb_env :=
  {| sizeof_Mapping := 24; sizeof_Physframe := 16; sizeof_Treemap := 56; is_sigma0 s := s =? 0 |}.

(** An empty world: sigma0 has no limit, the spaces 1 to 3 may use 64 KB. *)
Definition w0 : world :=
  mkworld ∅ {[ 0 := Ram_quota.make_root; 1 := Ram_quota.make 0x10000; 2 := Ram_quota.make 0x10000;
               3 := Ram_quota.make 0x10000 ]} (replicate 100 true) 0 false.

(** A database of 256 KB with pages of 64, 16 and 4 KB. *)
Definition w1 : world := snd (create w0 18 0 0 [16; 14; 12]).

(** Look a mapping up, map from it, unlock. *)
Definition map_page (w : world) (from from_va phys to va size : Z) : world :=
  match lookup 4 w 0 phys from from_va with
  | (w, Some fr) => frame_clear (fst (mapdb_insert 4 w fr to va phys size)) fr
  | (w, None) => set_stuck w
  end.

(** Sigma0 maps 64 KB to space 1, which maps the 4 KB page 0x1000 of it to
    space 2. *)
Definition w2 : world := map_page w1 0 0x10000 0x10000 1 0 0x10000.
Definition w3 : world := map_page w2 1 0x1000 0x11000 2 0x5000 0x1000.

Definition unmap (w : world) (space phys va_start va_end : Z) (self : bool) : world :=
  match lookup 4 w 0 phys space va_start with
  | (w, Some fr) => let w := mapdb_flush 4 w fr self va_start va_end in frame_clear w fr
  | (w, None) => set_stuck w
  end.

Definition used (w : world) (space : Z) : Z :=
  match quotas w !! space with Some q => Ram_quota._current q | None => -1 end.

(** The treemaps that no tree refers to and that are not the root. *)
Definition referenced (w : world) (i : nat) : bool :=
  existsb (fun '(_, t) => existsb (fun pf => existsb (fun m => bool_decide (Mapping.submap m = Some i))
                                    (Physframe.tree pf)) (Treemap._physframe t))
    (map_to_list (maps w)).
Definition leaked (w : world) : list nat :=
  filter (fun i => i <> O /\ referenced w i = false) (fst <$> map_to_list (maps w)).

(** Space 2 finds its page two levels below the root; its frame, the second of
    the innermost treemap, is the only one locked. *)
Lemma lookup_locks_result_witness :
  lookup 4 w3 0 0x11000 2 0x5000 = (lock w3 2 1, Some (mkFrame (Some 0%nat) 2 1)).
Proof.
  assert (wf w3) as Hw by (apply wf_check_ok; vm_compute; reflexivity).
  assert (maps w3 !! 0%nat = Some (get_map w3 0)) as Ht by (vm_compute; reflexivity).
  assert (level (get_map w3 0) < 4)%nat as Hl by (vm_compute; lia).
  assert (free_below w3 (S (level (get_map w3 0)))) as Hb by (apply free_check_ok; vm_compute; reflexivity).
  assert (Treemap.trunc_to_page (get_map w3 0) 0x11000 < Treemap._key_end (get_map w3 0)) as Hk
    by (vm_compute; reflexivity).
  assert (snd (lookup 4 w3 0 0x11000 2 0x5000) = Some (mkFrame (Some 0%nat) 2 1)) as E
    by (vm_compute; reflexivity).
  pose proof (lookup_locks_result 4 w3 0 (get_map w3 0) 0x11000 2 0x5000 Hw Ht Hl Hb
    ltac:(unfold in_range; simpl; lia) Hk eq_refl) as T. cbv zeta in T.
  destruct (lookup 4 w3 0 0x11000 2 0x5000) as [w' o]. cbn [snd] in E. subst o.
  destruct T as (_ & _ & ->). reflexivity.
Defined.

(** Deleting a mapping from the database with all that was derived from
    it gives every space back what it had paid, and leaves just the root. *)
Theorem unmap_returns_quota :
  let w := unmap w3 1 0x10000 0 0x10000 true in
  stuck w = false /\ used w 1 = 0 /\ used w 2 = 0 /\ size (maps w) = 1%nat
  /\ used w3 1 = 24 + 2 * 24 + 2 * (1024 + 56) /\ used w3 2 = 24.
Proof. vm_compute. done. Qed.

(** When space 1 withdraws only the 16 KB page that the 4 KB page is
    part of, [Treemap_ops::flush] erases the tree of that page, but not the
    treemap that the tree refers to: the treemap of the 4 KB pages stays
    allocated without anything referring to it, the mapping of space 2 stays in
    it, and both stay charged. *)
Theorem partial_flush_leaks :
  let w := unmap w3 1 0x10000 0 0x4000 false in
  stuck w = false /\ leaked w3 = [] /\ leaked w = [2%nat]
  /\ used w 2 = 24 /\ used w 1 = 24 + 24 + 2 * (1024 + 56)
  /\ (exists v, get_tree w 2 1 = [Mapping.Real 2 v]).
Proof. vm_compute. split_and!; try done. by eexists. Qed.

Definition w4 : world := map_page w1 0 0x10000 0x10000 1 0 0x10000.
Definition w5 : world := map_page w4 1 0 0x10000 2 0x4000 0x4000.
Definition grant_to (w : world) (from va phys to to_va : Z) : bool * world :=
  match lookup 4 w 0 phys from va with
  | (w, Some fr) => let '(r, w) := mapdb_grant 4 w fr to to_va in (r, frame_clear w fr)
  | (w, None) => (false, set_stuck w)
  end.

(** Granting a mapping that has a treemap moves fewer bytes to the new
    space than a later removal takes from it.  Space 3, that owned nothing
    before, ends with a charge below zero: its quota then carries the mark of a
    dying quota and refuses every allocation. *)
Theorem grant_underflows_quota :
  let '(r, w) := grant_to w5 1 0 0x10000 3 0x20000 in
  let w' := unmap w 3 0x10000 0x20000 0x30000 true in
  r = true /\ stuck w' = false /\ used w5 3 = 0
  /\ used w 3 = 24 + 4 * 16 + 56 /\ used w' 3 = 2 ^ 64 - (1024 + 24 - 4 * 16)
  /\ fst (q_alloc w' 3 1) = false
  /\ used w' 1 = 1024 + 24 - 4 * 16.
Proof. vm_compute. done. Qed.

End Mapdb_example.
