(* ===== verification/PrioList.v ===== *)
(** Priority-sorted wait queues: [src/src/kern/prio_list.h].

    The list has one head element per priority, in descending order, linked in
    [P_list]; the elements of one priority form a ring, [S_list], in which the
    head is the longest waiting.  An element is an address, [groups] has one
    list per head: the ring from the head on.  The queue pointer and priority of
    the elements are in a store that all queues share. *)

From Stdlib Require Import Sorted.
From S2P Require Import Prelude.

Module Prio_list.

Record elem := mkelem { _prio : Z; _queue : option nat }.

Abbreviation store := (gmap Z elem).

Record t := mk {
  groups : list (list Z);
  _cursor : option Z;
  _poi : Z;
  _lock : Z }.

Definition set_groups (g : list (list Z)) (q : t) : t := mk g (_cursor q) (_poi q) (_lock q).
Definition set_cursor (c : option Z) (q : t) : t := mk (groups q) c (_poi q) (_lock q).
Definition set_poi_word (p : Z) (q : t) : t := mk (groups q) (_cursor q) p (_lock q).

Definition prio (s : store) (e : Z) : Z := match s !! e with Some x => _prio x | None => 0 end.
Definition queue (s : store) (e : Z) : option nat := x ← s !! e; _queue x.

(** ** The rings *)
Module S_list.
(** [*++iter(e)] in the ring [g] *)
Definition next (g : list Z) (e : Z) : option Z :=
  match drop_while (fun x => negb (x =? e)) g with
  | _ :: x :: _ => Some x
  | _ => head g
  end.
Definition has_sibling (g : list Z) (e : Z) : bool := negb (bool_decide (next g e = Some e)).
(** [insert_before(e, iter(head))] *)
Definition insert_before_head (g : list Z) (e : Z) : list Z := g ++ [e].
Definition self_insert (e : Z) : list Z := [e].
Definition remove (g : list Z) (e : Z) : list Z := filter (fun x => x <> e) g.
(** the ring seen from the successor of its head *)
Definition rotate (g : list Z) : list Z := tail g ++ take 1 g.
End S_list.

(** ** The list of heads *)
Module P_list.
Definition in_list (gs : list (list Z)) (e : Z) : bool :=
  existsb (fun g => bool_decide (head g = Some e)) gs.
(** [*++iter(h)] *)
Fixpoint next (gs : list (list Z)) (h : Z) : option Z :=
  match gs with
  | [] => None
  | g :: gs' => if bool_decide (head g = Some h)
                then match gs' with g' :: _ => head g' | [] => None end
                else next gs' h
  end.
(** [replace] and [remove] of a head act on its group. *)
Definition on_group (gs : list (list Z)) (e : Z) (f : list Z -> list (list Z)) : list (list Z) :=
  concat (map (fun g => if existsb (Z.eqb e) g then f g else [g]) gs).
End P_list.

(** The ring of an element. *)
Definition ring (gs : list (list Z)) (e : Z) : list Z :=
  match List.find (existsb (Z.eqb e)) gs with Some g => g | None => [] end.

(** ** The queue lock [Pq_lock] *)
Module Pq_lock.
Definition Not_locked : Z := 0.
Definition Locked : Z := 2.
Definition Invalid : Z := 4.

(** One iteration of [test_and_set] at the value [old] of the word, while
    nobody interferes: the result with the new word, or [None] to spin. *)
Definition test_and_set (old : Z) : option (Z * Z) :=
  if nonzero (old .& 4) then Some (Invalid, old)
  else if nonzero (old .& 2) then None
  else Some (Not_locked, old .| 2).
Definition test (l : Z) : Z := l .& Locked.
Definition set (l : Z) : Z := l .& 0xfd.
Definition invalidate (l : Z) : Z := l .| 4.
Definition invalid (l : Z) : bool := nonzero (l .& 4).
End Pq_lock.

(** ** The element of interest *)
Module Poi.
Section ops.
Context `{Arch}.
Definition valid (v : Z) : bool := negb (v =? 0).
Definition eq (v e : Z) : bool := (v .& mnot 3) =? e.
Definition queued (v : Z) : bool := (v .& 3) =? 1.
End ops.
End Poi.

Section ops.
Context `{Arch}.
Variable self : nat.

Definition first (q : t) : option Z := match groups q with g :: _ => head g | [] => None end.

Definition next (q : t) (e : Z) : option Z :=
  match S_list.next (ring (groups q) e) e with
  | Some i => if P_list.in_list (groups q) i then P_list.next (groups q) i else Some i
  | None => None
  end.

Definition set_poi (s : store) (q : t) (e : Z) : t :=
  set_poi_word (if bool_decide (queue s e = Some self) then e .| 1 else e) q.

Definition reset_poi (q : t) (v : Z) : t := set_poi_word v q.

(** [compare_exchange_strong] on [_poi] *)
Definition poi_cas (q : t) (old new : Z) : t := if _poi q =? old then set_poi_word new q else q.

Definition set_elem (s : store) (e : Z) (f : elem -> elem) : store := alter f e s.

(** The position where [insert_dirty] stops: the groups before it have a higher
    priority. *)
Definition higher (s : store) (p : Z) (g : list Z) : bool :=
  match head g with Some h => prio s h >? p | None => false end.

Definition place (s : store) (gs : list (list Z)) (e p : Z) : list (list Z) :=
  let before := take_while (higher s p) gs in
  match drop_while (higher s p) gs with
  | g :: rest =>
      if match head g with Some h => prio s h =? p | None => false end
      then before ++ S_list.insert_before_head g e :: rest
      else before ++ S_list.self_insert e :: g :: rest
  | [] => before ++ [S_list.self_insert e]
  end.

Definition insert_dirty (s : store) (q : t) (e p : Z) : bool * store * t :=
  match queue s e with
  | Some _ => (false, s, q)
  | None =>
      let s := set_elem s e (fun _ => mkelem p (Some self)) in
      let w := _poi q .& mnot 3 in
      let q := if Poi.eq w e then poi_cas q w (w .| 1) else q in
      (true, s, set_groups (place s (groups q) e p) q)
  end.

(** [lock_guard]: the word gets the bit 2 and loses it at the end; a queue that
    is locked already is waited for. *)
Definition guarded {A} (q : t) (body : t -> A * store * t) : option (A * store * t) :=
  match Pq_lock.test_and_set (_lock q) with
  | None => None
  | Some (_, l) =>
      let '(r, s, q) := body (mk (groups q) (_cursor q) (_poi q) l) in
      Some (r, s, mk (groups q) (_cursor q) (_poi q) (Pq_lock.set (_lock q)))
  end.

Definition insert (s : store) (q : t) (e p : Z) : option (bool * store * t) :=
  guarded q (fun q => insert_dirty s q e p).

(** [_dequeue(e, next)]: the groups and the value for [*next] *)
Definition _dequeue (q : t) (e : Z) : list (list Z) * option Z :=
  let gs := groups q in
  if P_list.in_list gs e
  then if S_list.has_sibling (ring gs e) e
       then (P_list.on_group gs e (fun g => [S_list.remove (S_list.rotate g) e]),
             S_list.next (ring gs e) e)
       else (P_list.on_group gs e (fun _ => []), P_list.next gs e)
  else (P_list.on_group gs e (fun g => [S_list.remove g e]), next q e).

(** The common end of [dequeue] and [dequeue_first_dirty]. *)
Definition take_out (s : store) (q : t) (e : Z) : store * t :=
  let s := set_elem s e (fun x => mkelem (_prio x) None) in
  let w := (_poi q .& mnot 3) .| 1 in
  let q := if Poi.eq w e then poi_cas q w (w .& mnot 1) else q in
  let '(gs, nx) := _dequeue q e in
  let q := set_groups gs q in
  (s, if bool_decide (_cursor q = Some e) then set_cursor nx q else q).

Definition dequeue (s : store) (q : t) (e : Z) : option (bool * store * t) :=
  if bool_decide (queue s e = Some self)
  then guarded q (fun q => let '(s, q) := take_out s q e in (true, s, q))
  else Some (false, s, q).

Definition dequeue_first_dirty (s : store) (q : t) : option Z * store * t :=
  match first q with
  | None => (None, s, q)
  | Some f =>
      if bool_decide (queue s f = Some self)
      then let '(s, q) := take_out s q f in (Some f, s, q)
      else (None, s, q)
  end.

Definition dequeue_first (s : store) (q : t) : option (option Z * store * t) :=
  guarded q (dequeue_first_dirty s).

End ops.

(** ** What the queue promises *)

(** The waiting elements in the order they are served. *)
Definition elements (q : t) : list Z := concat (groups q).

Definition group_ok (s : store) (g : list Z) : Prop :=
  exists h, head g = Some h /\ Forall (fun e => prio s e = prio s h) g.

Definition group_prio (s : store) (g : list Z) : Z :=
  match head g with Some h => prio s h | None => 0 end.

Record ok (self : nat) (s : store) (q : t) : Prop := {
  ok_groups : Forall (group_ok s) (groups q);
  ok_order : StronglySorted (fun a b => group_prio s a > group_prio s b) (groups q);
  ok_nodup : NoDup (elements q);
  ok_queue : forall e, e ∈ elements q <-> queue s e = Some self }.

(** Behind all elements of at least the same priority. *)
Fixpoint enqueue (s : store) (l : list Z) (e p : Z) : list Z :=
  match l with
  | [] => [e]
  | x :: l' => if p <=? prio s x then x :: enqueue s l' e p else e :: l
  end.

(** The successor in the order of service. *)
Definition successor (l : list Z) (e : Z) : option Z :=
  match drop_while (fun x => negb (x =? e)) l with _ :: x :: _ => Some x | _ => None end.

End Prio_list.

(** * Properties *)

Section proofs.
Context `{Arch}.
Import Prio_list.
Variable self : nat.

Lemma place_cons s g gs e p :
  place s (g :: gs) e p
  = if higher s p g then g :: place s gs e p
    else if match head g with Some h => prio s h =? p | None => false end
         then (g ++ [e]) :: gs else [e] :: g :: gs.
Proof.
  unfold place. cbn [take_while drop_while]. destruct (higher s p g).
  - destruct (drop_while _ gs) as [|g' rest]; [done |].
    by destruct (match head g' with Some h => prio s h =? p | None => false end).
  - by destruct (match head g with Some h => prio s h =? p | None => false end).
Qed.

(** Group priorities of the result. *)
Lemma place_prio s gs e p g :
  prio s e = p -> Forall (group_ok s) gs -> g ∈ place s gs e p ->
  group_prio s g = p \/ exists g', g' ∈ gs /\ group_prio s g = group_prio s g'.
Proof.
  intros He Hok. induction Hok as [|g0 gs Hg Hgs IH]; [unfold place; cbn |rewrite place_cons].
  - intros ->%list_elem_of_singleton. left. exact He.
  - destruct (higher s p g0) eqn:Eh.
    { intros [-> | Hin]%elem_of_cons; [right; exists g0; split; [left | done] |].
      destruct (IH Hin) as [? | (g' & ? & ?)]; [by left | right; exists g'; split; [by right | done]]. }
    destruct Hg as (h & Hh & _). destruct g0 as [|h' g0]; [done |]. injection Hh as ->.
    cbn [head app]. destruct (Z.eqb_spec (prio s h) p) as [Hp | Hp].
    + intros [-> | Hin]%elem_of_cons; [left; exact Hp |]. right. exists g. split; [by right | done].
    + intros [-> | Hin]%elem_of_cons; [left; exact He |]. right. exists g. done.
Qed.

Lemma place_ok s gs e p :
  prio s e = p -> Forall (group_ok s) gs ->
  StronglySorted (fun a b => group_prio s a > group_prio s b) gs ->
  Forall (group_ok s) (place s gs e p)
  /\ StronglySorted (fun a b => group_prio s a > group_prio s b) (place s gs e p).
Proof.
  intros He Hok. induction Hok as [|g gs Hg Hgs IH]; intros Hs.
  - unfold place; cbn. split; repeat constructor. exists e. split; [done | by repeat constructor].
  - rewrite place_cons. inversion Hs as [| ? ? Hs' Hall]; subst a l.
    destruct (IH Hs') as [IH1 IH2]. destruct (higher s p g) eqn:Eh.
    + split; [by constructor |]. constructor; [done |]. apply Forall_forall. intros g' Hg'.
      destruct Hg as (h & Hh & _). unfold higher in Eh. rewrite Hh in Eh.
      destruct (place_prio s gs e p g' He Hgs Hg') as [-> | (g2 & Hin & ->)].
      * unfold group_prio. rewrite Hh. apply Z.gtb_gt in Eh. exact Eh.
      * rewrite Forall_forall in Hall. by apply Hall.
    + pose proof Hg as (h & Hh & Hp). destruct g as [|h' g]; [done |]. injection Hh as ->. cbn [head].
      unfold higher in Eh. cbn [head] in Eh. rewrite Z.gtb_ltb in Eh. apply Z.ltb_ge in Eh.
      destruct (Z.eqb_spec (prio s h) p) as [Hph | Hph].
      * split; constructor; try done. exists h. split; [done |].
        apply Forall_app. split; [done |]. repeat constructor. congruence.
      * split; constructor; try done.
        -- exists e. split; [done | by repeat constructor].
        -- by constructor.
        -- constructor; [unfold group_prio; cbn [head]; rewrite He; lia |].
           rewrite Forall_forall in Hall |- *. intros g' Hin. specialize (Hall _ Hin).
           unfold group_prio at 1 in Hall. cbn [head] in Hall.
           unfold group_prio at 1. cbn [head]. rewrite He. lia.
Qed.

Lemma enqueue_skip s l1 l2 e p :
  Forall (fun x => p <= prio s x) l1 -> enqueue s (l1 ++ l2) e p = l1 ++ enqueue s l2 e p.
Proof.
  induction 1 as [|x l1 Hx _ IH]; [done |]. cbn [app enqueue].
  rewrite (proj2 (Z.leb_le _ _) Hx). by rewrite IH.
Qed.

Lemma enqueue_front s gs e p :
  Forall (group_ok s) gs -> Forall (fun g => group_prio s g < p) gs ->
  enqueue s (concat gs) e p = e :: concat gs.
Proof.
  intros Hok Hlt. destruct gs as [|g gs]; [done |]. inversion Hok as [| ? ? (h & Hh & _) _]; subst.
  inversion Hlt as [| ? ? Hp _]; subst. unfold group_prio in Hp. destruct g as [|h' g]; [done |].
  injection Hh as ->. cbn [head concat app enqueue] in *. by destruct (Z.leb_spec p (prio s h)); [lia |].
Qed.

Lemma place_elements s gs e p :
  Forall (group_ok s) gs ->
  StronglySorted (fun a b => group_prio s a > group_prio s b) gs ->
  concat (place s gs e p) = enqueue s (concat gs) e p.
Proof.
  intros Hok. induction Hok as [|g gs Hg Hgs IH]; intros Hs; [done |].
  rewrite place_cons. inversion Hs as [| ? ? Hs' Hall]; subst a l.
  destruct Hg as (h & Hh & Hp). unfold higher. rewrite Hh. rewrite Z.gtb_ltb.
  assert (group_prio s g = prio s h) as Egp by (unfold group_prio; by rewrite Hh).
  assert (Forall (fun g' => group_prio s g' < prio s h) gs) as Hlow.
  { eapply Forall_impl; [exact Hall |]. intros g' Hg'. simpl in Hg'. lia. }
  destruct (Z.ltb_spec p (prio s h)) as [Hlt | Hge].
  - cbn [concat]. rewrite IH by done. rewrite enqueue_skip; [done |].
    eapply Forall_impl; [exact Hp |]. intros x Hx. simpl in Hx. lia.
  - destruct (Z.eqb_spec (prio s h) p) as [Heq | Hne]; cbn [concat].
    + rewrite enqueue_skip by (eapply Forall_impl; [exact Hp |]; intros x Hx; simpl in Hx; lia).
      rewrite enqueue_front; [by rewrite <- app_assoc | done |].
      eapply Forall_impl; [exact Hlow |]. intros x Hx. simpl in Hx. lia.
    + change (e :: concat (g :: gs) = enqueue s (concat (g :: gs)) e p).
      rewrite (enqueue_front s (g :: gs) e p); [done | |].
      * constructor; [by exists h | done].
      * constructor; [lia |]. eapply Forall_impl; [exact Hlow |]. intros x Hx. simpl in Hx. lia.
Qed.

(** *** Removal *)

Lemma mem_existsb e g : existsb (Z.eqb e) g = true <-> e ∈ g.
Proof.
  rewrite existsb_exists. split.
  - intros (x & Hx & ->%Z.eqb_eq). by apply list_elem_of_In.
  - intros Hx%list_elem_of_In. exists e. split; [done | apply Z.eqb_refl].
Qed.

Lemma on_group_cons gs g e f :
  P_list.on_group (g :: gs) e f
  = (if existsb (Z.eqb e) g then f g else [g]) ++ P_list.on_group gs e f.
Proof. done. Qed.

Lemma on_group_absent gs e f : e ∉ concat gs -> P_list.on_group gs e f = gs.
Proof.
  induction gs as [|g gs IH]; intros He; [done |]. rewrite on_group_cons.
  cbn [concat] in He. rewrite not_elem_of_app in He. destruct He as [Hg Hgs].
  destruct (existsb (Z.eqb e) g) eqn:E; [apply mem_existsb in E; done |]. by rewrite IH.
Qed.

(** The group of an element of a duplicate-free list. *)
Lemma split_group gs e :
  NoDup (concat gs) -> e ∈ concat gs ->
  exists gs1 g gs2, gs = gs1 ++ g :: gs2 /\ e ∈ g /\ (e ∉ concat gs1) /\ (e ∉ concat gs2)
    /\ ring gs e = g /\ forall f, P_list.on_group gs e f = gs1 ++ f g ++ gs2.
Proof.
  induction gs as [|g gs IH]; [by intros _ ?%elem_of_nil |]. cbn [concat].
  intros (Hg & Hd & Hgs)%NoDup_app He. destruct (decide (e ∈ g)) as [Hin | Hin].
  - pose proof (proj2 (mem_existsb e g) Hin) as Ee. exists [], g, gs. split_and!; try done.
    + by apply not_elem_of_nil.
    + by apply Hd.
    + unfold ring. cbn [List.find]. by rewrite Ee.
    + intros f. rewrite on_group_cons, Ee, on_group_absent by (by apply Hd). done.
  - apply elem_of_app in He as [? | He]; [done |].
    destruct (IH Hgs He) as (gs1 & g' & gs2 & -> & Hg' & H1 & H2 & Hr & Hf).
    assert (existsb (Z.eqb e) g = false) as Ee
      by (destruct (existsb (Z.eqb e) g) eqn:E; [apply mem_existsb in E; done | done]).
    exists (g :: gs1), g', gs2. split_and!; try done.
    + cbn [concat]. rewrite not_elem_of_app. done.
    + unfold ring in *. cbn [List.find]. by rewrite Ee.
    + intros f. by rewrite on_group_cons, Ee, Hf.
Qed.

Lemma filter_absent e (l : list Z) : e ∉ l -> filter (fun x => x <> e) l = l.
Proof.
  intros He. apply filter_all, Forall_forall. by intros x Hx ->.
Qed.

Lemma remove_head e (l : list Z) : e ∉ l -> filter (fun x => x <> e) (l ++ [e]) = l.
Proof.
  intros He. rewrite filter_app, filter_absent by done.
  rewrite filter_cons_False by tauto. by rewrite app_nil_r.
Qed.

(** The part of a list from an element on. *)
Lemma drop_until e a b : e ∉ a -> drop_while (fun x => negb (x =? e)) (a ++ e :: b) = e :: b.
Proof.
  induction a as [|x a IH]; cbn [app drop_while].
  - by rewrite Z.eqb_refl.
  - rewrite not_elem_of_cons. intros [Hx Ha]. destruct (Z.eqb_spec x e); [congruence |]. by apply IH.
Qed.

Lemma successor_split e a b : e ∉ a -> successor (a ++ e :: b) e = head b.
Proof. intros He. unfold successor. rewrite drop_until by done. by destruct b. Qed.

Lemma ring_next_split e a b :
  e ∉ a -> S_list.next (a ++ e :: b) e = match b with x :: _ => Some x | [] => head (a ++ [e]) end.
Proof. intros He. unfold S_list.next. rewrite drop_until by done. by destruct b. Qed.

Definition nonempty_groups (gs : list (list Z)) : Prop := Forall (fun g => g <> []) gs.

Lemma in_list_head gs h : P_list.in_list gs h = true <-> exists g : list Z, g ∈ gs /\ head g = Some h.
Proof.
  unfold P_list.in_list. rewrite existsb_exists. split; intros (g & Hg & Hh); exists g.
  - split; [by apply list_elem_of_In | by apply bool_decide_eq_true in Hh].
  - split; [by apply list_elem_of_In | by apply bool_decide_eq_true].
Qed.

Lemma head_in_concat (gs : list (list Z)) g h : g ∈ gs -> head g = Some h -> h ∈ concat gs.
Proof.
  intros Hg Hh. destruct g as [|x g]; [done |]. injection Hh as ->.
  apply list_elem_of_In, in_concat. exists (h :: g). split; [by apply list_elem_of_In | by left].
Qed.

Lemma plist_next_split gs1 g gs2 h :
  head g = Some h -> h ∉ concat gs1 -> nonempty_groups gs2 ->
  P_list.next (gs1 ++ g :: gs2) h = head (concat gs2).
Proof.
  intros Hh H1 Hne. induction gs1 as [|g1 gs1 IH]; cbn [app P_list.next].
  - rewrite bool_decide_true by done. destruct Hne as [|g2 gs2 Hg2 _]; [done |].
    by destruct g2.
  - cbn [concat] in H1. rewrite not_elem_of_app in H1. destruct H1 as [Hg1 H1].
    rewrite bool_decide_false; [by apply IH |]. intros E. destruct g1; [done |].
    injection E as ->. apply Hg1. left.
Qed.

(** All that is known of the place of an element. *)
Lemma locate gs e :
  NoDup (concat gs) -> nonempty_groups gs -> e ∈ concat gs ->
  exists gs1 a b gs2,
    let g := a ++ e :: b in
    gs = gs1 ++ g :: gs2 /\ (e ∉ a) /\ (e ∉ b) /\ (e ∉ concat gs1) /\ (e ∉ concat gs2) /\ nonempty_groups gs2
    /\ ring gs e = g /\ (forall f, P_list.on_group gs e f = gs1 ++ f g ++ gs2)
    /\ successor (concat gs) e = head (b ++ concat gs2).
Proof.
  intros Hnd Hne He. destruct (split_group gs e Hnd He) as (gs1 & g & gs2 & -> & Hg & H1 & H2 & Hr & Hf).
  apply list_elem_of_split in Hg as (a & b & ->). exists gs1, a, b, gs2.
  rewrite concat_app in Hnd. cbn [concat] in Hnd. apply NoDup_app in Hnd as (_ & _ & Hnd).
  apply NoDup_app in Hnd as (Hnd & _ & _). apply NoDup_app in Hnd as (_ & Hab & Hb).
  apply NoDup_cons in Hb as [Hb _].
  assert (e ∉ a) as Ha by (intros E; by apply (Hab _ E), elem_of_cons; left).
  apply Forall_app in Hne as [_ Hne]. inversion Hne; subst. split_and!; try done.
  rewrite concat_app. cbn [concat]. rewrite <- app_assoc. cbn [app]. rewrite app_assoc.
  apply successor_split. rewrite not_elem_of_app. done.
Qed.

(** [next] is the successor in the order of service. *)
Lemma next_successor q e :
  NoDup (elements q) -> nonempty_groups (groups q) -> e ∈ elements q ->
  next q e = successor (elements q) e.
Proof.
  intros Hnd Hne He. unfold next, elements in *.
  destruct (locate _ _ Hnd Hne He) as (gs1 & a & b & gs2 & Hgs & Ha & Hb & H1 & H2 & Hn2 & Hr & _ & ->).
  rewrite Hr, ring_next_split by done. destruct b as [|x b].
  - cbn [app]. destruct (head (a ++ [e])) as [h |] eqn:Eh; [| by destruct a].
    rewrite (proj2 (in_list_head _ _)); [| exists (a ++ [e]); rewrite Hgs; split; [apply elem_of_app; right; left | done]].
    rewrite Hgs. apply plist_next_split; [done | | done].
    rewrite Hgs, concat_app in Hnd. cbn [concat] in Hnd. apply NoDup_app in Hnd as (_ & Hd & _).
    intros Hin. apply (Hd _ Hin). rewrite elem_of_app. left. destruct (a ++ [e]); [done |].
    injection Eh as ->. left.
  - cbn [app head]. destruct (P_list.in_list (groups q) x) eqn:Ex; [exfalso | done].
    apply in_list_head in Ex as (g & Hg & Hh). rewrite Hgs in Hg, Hnd.
    rewrite concat_app in Hnd. cbn [concat] in Hnd.
    assert (x ∈ a ++ e :: x :: b) as Hx by (rewrite elem_of_app, !elem_of_cons; tauto).
    apply elem_of_app in Hg as [Hg | [-> | Hg]%elem_of_cons].
    + apply NoDup_app in Hnd as (_ & Hd & _). apply (Hd x); [by eapply head_in_concat |].
      rewrite elem_of_app. by left.
    + apply NoDup_app in Hnd as (_ & _ & Hnd). apply NoDup_app in Hnd as (Hnd & _ & _).
      apply NoDup_app in Hnd as (_ & Hd & Hnd). apply NoDup_cons in Hnd as [Hnd _].
      destruct a as [|y a]; cbn [app head] in Hh; injection Hh as ->.
      * apply Hnd. left.
      * apply (Hd x); [left | rewrite !elem_of_cons; tauto].
    + apply NoDup_app in Hnd as (_ & _ & Hnd). apply NoDup_app in Hnd as (_ & Hd & _).
      apply (Hd x Hx). by eapply head_in_concat.
Qed.

Lemma sorted_replace {A} (R : A -> A -> Prop) l1 x x' l2 :
  (forall y, R y x -> R y x') -> (forall y, R x y -> R x' y) ->
  StronglySorted R (l1 ++ x :: l2) -> StronglySorted R (l1 ++ x' :: l2).
Proof.
  intros Hl Hr. induction l1 as [|y l1 IH]; cbn [app]; inversion 1 as [| ? ? Hs Hall]; subst.
  - constructor; [done |]. eapply Forall_impl; [exact Hall | done].
  - constructor; [by apply IH |]. apply Forall_app in Hall as [Ha Hb]. inversion Hb; subst.
    apply Forall_app. split; [done |]. constructor; auto.
Qed.

Lemma sorted_remove {A} (R : A -> A -> Prop) l1 x l2 :
  StronglySorted R (l1 ++ x :: l2) -> StronglySorted R (l1 ++ l2).
Proof.
  induction l1 as [|y l1 IH]; cbn [app]; inversion 1 as [| ? ? Hs Hall]; subst; [done |].
  constructor; [by apply IH |]. apply Forall_app in Hall as [Ha Hb]. inversion Hb; subst.
  apply Forall_app. done.
Qed.

Lemma group_ok_nonempty s gs : Forall (group_ok s) gs -> nonempty_groups gs.
Proof. intros Hf. eapply Forall_impl; [exact Hf |]. by intros g (h & Hh & _) ->. Qed.

(** The group that is left of one. *)
Definition shrink (l : list Z) : list (list Z) := match l with [] => [] | _ => [l] end.

Lemma dequeue_result q e :
  NoDup (elements q) -> nonempty_groups (groups q) -> e ∈ elements q ->
  exists gs1 a b gs2, groups q = gs1 ++ (a ++ e :: b) :: gs2
    /\ _dequeue q e = (gs1 ++ shrink (a ++ b) ++ gs2, successor (elements q) e)
    /\ elements q = (concat gs1 ++ a) ++ e :: (b ++ concat gs2)
    /\ (e ∉ concat gs1 ++ a) /\ (e ∉ b ++ concat gs2).
Proof.
  intros Hnd Hne He. pose proof (next_successor q e Hnd Hne He) as Hnx. unfold elements in *.
  destruct (locate _ _ Hnd Hne He) as (gs1 & a & b & gs2 & Hgs & Ha & Hb & H1 & H2 & Hn2 & Hr & Hf & Hs).
  exists gs1, a, b, gs2. split; [done |]. split_and!; [| | rewrite not_elem_of_app; done ..].
  2: { rewrite Hgs, concat_app. cbn [concat]. rewrite <- !app_assoc. done. }
  unfold _dequeue. rewrite Hr. unfold S_list.has_sibling. rewrite ring_next_split, !Hf by done.
  destruct (P_list.in_list (groups q) e) eqn:Ein.
  - (* a head: nothing is before it in its ring *)
    assert (a = []) as ->.
    { apply in_list_head in Ein as (g & Hg & Hh). rewrite Hgs in Hg.
      apply elem_of_app in Hg as [Hg | [-> | Hg]%elem_of_cons].
      - edestruct H1. by eapply head_in_concat.
      - destruct a as [|y a]; [done |]. injection Hh as ->. edestruct Ha. left.
      - edestruct H2. by eapply head_in_concat. }
    cbn [app] in *. destruct b as [|x b].
    + rewrite bool_decide_true by done. cbn [negb shrink app]. f_equal.
      rewrite Hs, Hgs. by apply plist_next_split.
    + rewrite not_elem_of_cons in Hb. destruct Hb as [Hx Hb].
      rewrite bool_decide_false by congruence. cbn [negb]. f_equal.
      * unfold S_list.remove, S_list.rotate. cbn [tail take].
        rewrite remove_head by (rewrite not_elem_of_cons; done). done.
      * by rewrite Hs.
  - (* the ring keeps its head *)
    assert (exists y a', a = y :: a') as (y & a' & ->).
    { destruct a as [|y a']; [exfalso | eauto]. apply not_true_iff_false in Ein. apply Ein, in_list_head.
      exists (e :: b). split; [rewrite Hgs; apply elem_of_app; right; left | done]. }
    f_equal; [| done]. unfold S_list.remove. rewrite filter_app, filter_absent by done.
    rewrite filter_cons_False, filter_absent by (done || tauto). done.
Qed.

Lemma prio_alter s e f x :
  prio (set_elem s e f) x = if decide (e = x) then match s !! e with Some y => _prio (f y) | None => 0 end
                            else prio s x.
Proof.
  unfold prio, set_elem. rewrite lookup_alter. case_decide; subst; [| done]. by destruct (s !! x).
Qed.

Lemma queue_alter s e f x :
  queue (set_elem s e f) x = if decide (e = x) then y ← s !! e; _queue (f y) else queue s x.
Proof.
  unfold queue, set_elem. rewrite lookup_alter. case_decide; subst; [| done]. by destruct (s !! x).
Qed.

(** Everything about groups depends on the priorities only. *)
Lemma group_ok_ext s s' g :
  (forall x, x ∈ g -> prio s' x = prio s x) -> group_ok s g -> group_ok s' g.
Proof.
  intros Hp (h & Hh & Hg). exists h. split; [done |]. rewrite Forall_forall in *. intros x Hx.
  assert (h ∈ g) by (destruct g; [done | injection Hh as ->; left]). rewrite !Hp by done. auto.
Qed.

Lemma group_prio_ext s s' g : (forall x, x ∈ g -> prio s' x = prio s x) -> group_prio s' g = group_prio s g.
Proof.
  intros Hp. unfold group_prio. destruct g as [|h g]; [done |]. cbn [head]. apply Hp. left.
Qed.

Lemma sorted_ext s s' gs :
  (forall x, x ∈ concat gs -> prio s' x = prio s x) ->
  StronglySorted (fun a b => group_prio s a > group_prio s b) gs ->
  StronglySorted (fun a b => group_prio s' a > group_prio s' b) gs.
Proof.
  intros Hp Hs. assert (forall g, g ∈ gs -> group_prio s' g = group_prio s g) as Hg.
  { intros g Hg. apply group_prio_ext. intros x Hx. apply Hp, list_elem_of_In, in_concat.
    exists g. by rewrite <- !list_elem_of_In. }
  clear Hp. induction Hs as [|g gs Hs IH Hall]; constructor.
  - apply IH. intros; apply Hg. by right.
  - rewrite Forall_forall in *. intros g' Hg'. rewrite !Hg by (by left || by right). auto.
Qed.

Lemma shrink_ok s a e b :
  group_ok s (a ++ e :: b) ->
  Forall (group_ok s) (shrink (a ++ b))
  /\ forall g', shrink (a ++ b) = [g'] -> group_prio s g' = group_prio s (a ++ e :: b).
Proof.
  intros (h & Hh & Hall). apply Forall_app in Hall as [Ha Hb]. inversion Hb; subst.
  assert (Forall (fun x => prio s x = prio s h) (a ++ b)) as Hab by (by apply Forall_app).
  unfold shrink. destruct (a ++ b) as [|y l] eqn:Eab; [done |]. inversion Hab; subst. split.
  - repeat constructor. exists y. split; [done |]. eapply Forall_impl; [exact Hab |]. simpl. congruence.
  - intros g' [= <-]. unfold group_prio. rewrite Hh. done.
Qed.

(** The effect of taking a waiting element out. *)
Lemma take_out_spec s q e :
  ok self s q -> e ∈ elements q ->
  let '(s', q') := take_out s q e in
  ok self s' q' /\ elements q' = filter (fun x => x <> e) (elements q) /\ queue s' e = None
  /\ (forall x, x <> e -> s' !! x = s !! x)
  /\ _cursor q' = (if bool_decide (_cursor q = Some e) then successor (elements q) e else _cursor q)
  /\ _lock q' = _lock q.
Proof.
  intros [Hg Ho Hnd Hq] He. unfold take_out.
  set (s' := set_elem s e _). set (w := (_poi q .& mnot 3) .| 1). set (q1 := if Poi.eq w e then _ else q).
  assert (groups q1 = groups q /\ _cursor q1 = _cursor q /\ _lock q1 = _lock q) as (Eg & Ec & El).
  { subst q1. unfold poi_cas. by destruct (Poi.eq w e), (_poi q =? w). }
  assert (elements q1 = elements q) as Ee by (unfold elements; by rewrite Eg).
  assert (forall x, prio s' x = prio s x) as Hp.
  { intros x. unfold s'. rewrite prio_alter. case_decide; subst; [| done]. unfold prio. by destruct (s !! x). }
  destruct (dequeue_result q1 e) as (gs1 & a & b & gs2 & Hgs & Hd & Hel & Hne1 & Hne2);
    [by rewrite Ee | rewrite Eg; by eapply group_ok_nonempty | by rewrite Ee |].
  rewrite Hd, Ee. rewrite Eg in Hgs. rewrite Ee in Hel.
  assert (concat (gs1 ++ shrink (a ++ b) ++ gs2) = filter (fun x => x <> e) (elements q)) as Hflat.
  { rewrite Hel, filter_app, filter_absent, filter_cons_False, filter_absent by (done || tauto).
    rewrite !concat_app. replace (concat (shrink (a ++ b))) with (a ++ b)
      by (destruct (a ++ b); cbn; by rewrite ?app_nil_r). by rewrite <- !app_assoc. }
  set (q2 := set_groups _ q1).
  assert (ok self s' q2) as Hok.
  { rewrite Hgs in Hg, Ho. apply Forall_app in Hg as [Hg1 Hg2]. inversion Hg2 as [| ? ? Hgr Hgs2]; subst.
    destruct (shrink_ok s a e b Hgr) as [Hsh Hshp].
    split.
    - eapply Forall_impl; [| intros g Hgk; eapply group_ok_ext; [intros; apply Hp | exact Hgk]].
      apply Forall_app; split; [done | by apply Forall_app].
    - eapply sorted_ext; [intros; apply Hp |]. cbn [groups q2 set_groups].
      destruct (shrink (a ++ b)) as [|g' [|? ?]] eqn:Esh; [| | by destruct (a ++ b)].
      + by eapply sorted_remove.
      + cbn [app]. specialize (Hshp g' eq_refl).
        eapply sorted_replace; [| | exact Ho]; simpl; intros; by rewrite Hshp.
    - unfold elements. cbn [groups q2 set_groups]. rewrite Hflat. by apply NoDup_filter.
    - intros x. unfold elements. cbn [groups q2 set_groups]. rewrite Hflat, list_elem_of_filter, Hq.
      unfold s'. rewrite queue_alter. case_decide as Ex; [| naive_solver]. subst x.
      destruct (s !! e); cbn; naive_solver. }
  assert (queue s' e = None) as Hqe.
  { unfold s'. rewrite queue_alter, decide_True by done. by destruct (s !! e). }
  assert (forall x, x <> e -> s' !! x = s !! x) as Hst by (intros x Hx; unfold s', set_elem; by rewrite lookup_alter_ne).
  destruct Hok as [O1 O2 O3 O4].
  cbn [_cursor q2 set_groups]. rewrite Ec.
  destruct (bool_decide (_cursor q = Some e)); split_and!; try done.
Qed.

(** The effect of putting an element in. *)
Lemma insert_dirty_spec s q e p :
  ok self s q -> is_Some (s !! e) -> queue s e = None ->
  let '(r, s', q') := insert_dirty self s q e p in
  r = true /\ ok self s' q' /\ elements q' = enqueue s (elements q) e p
  /\ s' !! e = Some (mkelem p (Some self)) /\ (forall x, x <> e -> s' !! x = s !! x)
  /\ _cursor q' = _cursor q /\ _lock q' = _lock q.
Proof.
  intros [Hg Ho Hnd Hq] [x0 He] Hqe. unfold insert_dirty. rewrite Hqe.
  set (s' := set_elem s e _). set (w := _poi q .& mnot 3). set (q1 := if Poi.eq w e then _ else q).
  assert (groups q1 = groups q /\ _cursor q1 = _cursor q /\ _lock q1 = _lock q) as (Eg & Ec & El).
  { subst q1. unfold poi_cas. by destruct (Poi.eq w e), (_poi q =? w). }
  assert (e ∉ elements q) as Hne by (rewrite Hq, Hqe; done).
  assert (forall x, x ∈ elements q -> prio s' x = prio s x) as Hp.
  { intros x Hx. unfold s'. rewrite prio_alter, decide_False; [done |]. by intros ->. }
  assert (prio s' e = p) as Hpe by (unfold s'; rewrite prio_alter, decide_True, He; done).
  assert (Forall (group_ok s') (groups q)) as Hg'.
  { rewrite Forall_forall in *. intros g Hin. eapply group_ok_ext; [| by apply Hg]. intros x Hx.
    apply Hp, list_elem_of_In, in_concat. exists g. by rewrite <- !list_elem_of_In. }
  pose proof (sorted_ext _ s' _ Hp Ho) as Ho'.
  destruct (place_ok s' (groups q) e p Hpe Hg' Ho') as [P1 P2].
  assert (elements (set_groups (place s' (groups q1) e p) q1) = enqueue s (elements q) e p) as Hel.
  { unfold elements at 1. cbn [groups set_groups]. rewrite Eg, place_elements by done.
    change (concat (groups q)) with (elements q). clear -Hp. induction (elements q) as [|x l IH]; [done |].
    cbn [enqueue]. rewrite Hp by left. rewrite IH; [done |]. intros y Hy. apply Hp. by right. }
  assert (enqueue s (elements q) e p ≡ₚ e :: elements q) as Hperm.
  { clear. induction (elements q) as [|x l IH]; [done |]. cbn [enqueue].
    destruct (p <=? prio s x); [rewrite IH; apply perm_swap | done]. }
  assert (s' !! e = Some (mkelem p (Some self))) as Hse
    by (unfold s', set_elem; rewrite lookup_alter, decide_True, He by done; done).
  split_and!; try done.
  - split; [cbn [groups set_groups]; by rewrite Eg .. | |].
    + rewrite Hel, Hperm. by constructor.
    + intros x. rewrite Hel, Hperm, elem_of_cons, Hq. unfold s'. rewrite queue_alter.
      case_decide as Ex; [subst x; rewrite He; cbn; naive_solver | naive_solver].
  - intros x Hx. unfold s', set_elem. by rewrite lookup_alter_ne.
Qed.

(** *** The tracked element *)

Definition aligned (e : Z) : Prop := is_mword e /\ e .& 3 = 0.

Lemma aligned_bits e : aligned e ->
  e .& mnot 3 = e /\ (e .| 1) .& mnot 3 = e /\ (e .| 1) .& mnot 1 = e /\ (e .| 1) .& 3 = 1.
Proof.
  intros [Hr H3]. pose proof arch_ge32.
  assert (forall k, k = 0 \/ k = 1 -> Z.testbit e k = false) as Hlow.
  { intros k Hk. assert (Z.testbit (e .& 3) k = false) as E by (by rewrite H3, Z.bits_0).
    rewrite Z.land_spec in E. destruct Hk as [-> | ->]; by rewrite andb_true_r in E. }
  change 3 with (Z.ones 2). change 1 with (Z.ones 1).
  assert (forall f g : Z, (forall k, 0 <= k -> Z.testbit f k = Z.testbit g k) -> f = g) as Hext
    by (intros; by apply Z.bits_inj').
  split_and!; apply Hext; intros k Hk;
    (destruct (decide (k = 0)) as [-> | Hk0]; [| destruct (decide (k = 1)) as [-> | Hk1]]);
    bits_simp; rewrite ?Hlow by tauto; try bits_close.
Qed.

Definition poi_ok (s : store) (q : t) : Prop :=
  exists e, aligned e /\ _poi q = if bool_decide (queue s e = Some self) then e .| 1 else e.

Lemma poi_queue_ext s s' q q' :
  (forall x, queue s' x = Some self <-> queue s x = Some self) -> _poi q' = _poi q -> poi_ok s q -> poi_ok s' q'.
Proof.
  intros Hq Hpq (e & Ha & Hp). exists e. split; [done |]. rewrite Hpq, Hp.
  by rewrite (bool_decide_ext _ _ (Hq e)).
Qed.

Lemma insert_dirty_poi s q e p :
  is_Some (s !! e) -> queue s e = None -> poi_ok s q ->
  poi_ok (snd (fst (insert_dirty self s q e p))) (snd (insert_dirty self s q e p)).
Proof.
  intros [x0 He] Hqe (t & Ha & Hp). pose proof (aligned_bits t Ha) as (B1 & B2 & B3 & B4).
  unfold insert_dirty. rewrite Hqe. cbn [fst snd].
  assert (_poi q .& mnot 3 = t) as Et by (rewrite Hp; by case_bool_decide).
  rewrite Et. exists t. split; [done |]. rewrite queue_alter. unfold Poi.eq. rewrite B1.
  destruct (Z.eqb_spec t e) as [-> | Hne].
  - rewrite Hqe, bool_decide_false in Hp by done. unfold poi_cas. rewrite Hp, Z.eqb_refl.
    rewrite decide_True by done. rewrite bool_decide_true; [done |]. by rewrite He.
  - cbn. rewrite decide_False by done. exact Hp.
Qed.

Lemma take_out_poi s q e :
  queue s e = Some self -> poi_ok s q -> poi_ok (fst (take_out s q e)) (snd (take_out s q e)).
Proof.
  intros Hqe (t & Ha & Hp). pose proof (aligned_bits t Ha) as (B1 & B2 & B3 & B4).
  unfold take_out. destruct (_dequeue _ e) as [gs nx].
  assert (_poi q .& mnot 3 = t) as Et by (rewrite Hp; by case_bool_decide).
  rewrite Et. exists t. split; [done |]. cbn [fst]. rewrite queue_alter. unfold Poi.eq. rewrite B2.
  assert (forall (b : bool) q1 c, _poi (if b then set_cursor c (set_groups gs q1) else set_groups gs q1) = _poi q1)
    as Hpoi by (by intros []).
  cbn [snd]. rewrite Hpoi. destruct (Z.eqb_spec t e) as [-> | Hne].
  - rewrite Hqe, bool_decide_true in Hp by done. unfold poi_cas. rewrite Hp, Z.eqb_refl. cbn [_poi set_poi_word].
    rewrite decide_True by done. rewrite bool_decide_false; [done |]. by destruct (s !! e).
  - rewrite decide_False by done. exact Hp.
Qed.

(** ** All reachable queues

    One operation of the interface on the queue and the shared store; other
    queues may take and release elements that are not in this one. *)
Inductive step : store * t -> store * t -> Prop :=
| step_insert s q e p r s' q' :
    is_Some (s !! e) -> insert self s q e p = Some (r, s', q') -> step (s, q) (s', q')
| step_dequeue s q e r s' q' : dequeue self s q e = Some (r, s', q') -> step (s, q) (s', q')
| step_dequeue_first s q r s' q' : dequeue_first self s q = Some (r, s', q') -> step (s, q) (s', q')
| step_set_poi s q e : aligned e -> step (s, q) (s, set_poi self s q e)
| step_cursor s q c : step (s, q) (s, set_cursor c q)
| step_other s q s' :
    (forall x, queue s' x = Some self <-> queue s x = Some self) ->
    (forall x, queue s x = Some self -> prio s' x = prio s x) -> step (s, q) (s', q).

Record inv (s : store) (q : t) : Prop := {
  inv_ok : ok self s q;
  inv_poi : poi_ok s q;
  inv_lock : _lock q = 0 }.

Definition empty : t := mk [] None 0 0.

Lemma guarded_free {A} q (body : t -> A * store * t) r s' q' :
  _lock q = 0 -> guarded q body = Some (r, s', q') ->
  exists q1, body (mk (groups q) (_cursor q) (_poi q) 2) = (r, s', q1)
    /\ q' = mk (groups q1) (_cursor q1) (_poi q1) (Pq_lock.set (_lock q1)).
Proof.
  intros Hl. unfold guarded. rewrite Hl. change (Pq_lock.test_and_set 0) with (Some (0, 2)).
  cbv beta iota. destruct (body _) as [[r1 s1] q1]. intros E. injection E as <- <- <-. by exists q1.
Qed.

Lemma ok_same_groups s q q' : groups q' = groups q -> ok self s q -> ok self s q'.
Proof.
  intros Eg [O1 O2 O3 O4]. split; rewrite ?Eg; try done; unfold elements in *; by rewrite Eg.
Qed.

(** What an operation on a free queue does, with the lock taken around it. *)
Lemma take_out_inv s q e :
  inv s q -> queue s e = Some self ->
  let '(s', q1) := take_out s (mk (groups q) (_cursor q) (_poi q) 2) e in
  inv s' (mk (groups q1) (_cursor q1) (_poi q1) (Pq_lock.set (_lock q1)))
  /\ elements q1 = filter (fun x => x <> e) (elements q) /\ queue s' e = None
  /\ _cursor q1 = (if bool_decide (_cursor q = Some e) then successor (elements q) e else _cursor q).
Proof.
  intros [Ho Hp Hl] He. set (q0 := mk _ _ _ 2).
  assert (ok self s q0) as Ho0 by (by apply (ok_same_groups _ q)).
  pose proof (take_out_spec s q0 e Ho0 (proj2 (ok_queue _ _ _ Ho e) He)) as Hs.
  pose proof (take_out_poi s q0 e He Hp) as Hpoi.
  destruct (take_out s q0 e) as [s' q1]. destruct Hs as (Hok & Hel & Hqe & _ & Hc & Hlk).
  split_and!; try done. split; [by apply (ok_same_groups _ q1) | exact Hpoi | cbn; by rewrite Hlk].
Qed.

Lemma insert_inv s q e p r s' q' :
  inv s q -> is_Some (s !! e) -> insert self s q e p = Some (r, s', q') ->
  inv s' q' /\ if r then queue s e = None /\ elements q' = enqueue s (elements q) e p
                        /\ s' !! e = Some (mkelem p (Some self)) /\ _cursor q' = _cursor q
               else queue s e <> None /\ s' = s /\ q' = q.
Proof.
  intros [Ho Hp Hl] He Hi. destruct (guarded_free _ _ _ _ _ Hl Hi) as (q1 & Hb & ->). clear Hi.
  set (q0 := mk _ _ _ 2) in *. assert (ok self s q0) as Ho0 by (by apply (ok_same_groups _ q)).
  destruct (queue s e) as [n |] eqn:Hq.
  - unfold insert_dirty in Hb. rewrite Hq in Hb. injection Hb as <- <- <-.
    assert (mk (groups q) (_cursor q) (_poi q) (Pq_lock.set 2) = q) as Eq by (destruct q; cbn in *; by rewrite Hl).
    subst q0. cbn [groups _cursor _poi _lock]. by rewrite Eq.
  - pose proof (insert_dirty_spec s q0 e p Ho0 He Hq) as Hs.
    pose proof (insert_dirty_poi s q0 e p He Hq Hp) as Hpoi. rewrite Hb in Hs, Hpoi.
    destruct Hs as (-> & Hok & Hel & Hse & _ & Hc & Hlk).
    split; [| done]. split; [by apply (ok_same_groups _ q1) | exact Hpoi | cbn; by rewrite Hlk].
Qed.

Lemma pq_step_inv s q s' q' : inv s q -> step (s, q) (s', q') -> inv s' q'.
Proof.
  intros Hi. inversion 1 as [? ? e p r ? ? He Hin | ? ? e r ? ? Hd | ? ? r ? ? Hd | ? ? e Ha | ? ? c | ? ? ? Hq Hp];
    subst.
  - by apply (insert_inv s q e p r).
  - unfold dequeue in Hd. case_bool_decide as Hq; [| by injection Hd as <- <- <-].
    destruct (guarded_free _ _ _ _ _ (inv_lock _ _ Hi) Hd) as (q1 & Hb & ->).
    pose proof (take_out_inv s q e Hi Hq) as Ht. destruct (take_out _ _ e) as [s1 q2].
    injection Hb as <- <- <-. apply Ht.
  - destruct (guarded_free _ _ _ _ _ (inv_lock _ _ Hi) Hd) as (q1 & Hb & ->).
    unfold dequeue_first_dirty in Hb. cbn [groups first] in Hb.
    assert (mk (groups q) (_cursor q) (_poi q) (Pq_lock.set 2) = q) as Eq
      by (destruct q, Hi as [_ _ Hl]; cbn in *; by rewrite Hl).
    destruct (first _) as [f |]; [case_bool_decide as Hq |].
    + pose proof (take_out_inv s q f Hi Hq) as Ht. destruct (take_out _ _ f) as [s1 q2].
      injection Hb as <- <- <-. apply Ht.
    + injection Hb as <- <- <-. cbn [groups _cursor _poi _lock]. by rewrite Eq.
    + injection Hb as <- <- <-. cbn [groups _cursor _poi _lock]. by rewrite Eq.
  - destruct Hi as [Ho Hp Hl]. split; [by apply (ok_same_groups _ q) | | done]. by exists e.
  - destruct Hi as [Ho Hp Hl]. split; [by apply (ok_same_groups _ q) | done | done].
  - destruct Hi as [[O1 O2 O3 O4] Hpo Hl]. split; [split | by eapply poi_queue_ext | done].
    + rewrite Forall_forall in *. intros g Hg. eapply group_ok_ext; [| by apply O1]. intros x Hx.
      apply Hp, O4. apply list_elem_of_In, in_concat. exists g. by rewrite <- !list_elem_of_In.
    + eapply sorted_ext; [| exact O2]. intros x Hx. by apply Hp, O4.
    + done.
    + intros x. by rewrite O4, Hq.
Qed.

Lemma empty_inv s : (forall e, queue s e <> Some self) -> inv s empty.
Proof.
  intros Hs. split; [split | | done]; try (by constructor).
  - intros e. split; [by intros ?%elem_of_nil | intros E; by edestruct Hs].
  - exists 0. split; [| by rewrite bool_decide_false by apply Hs]. split; [| done].
    split; [lia | apply pow2_pos; pose proof arch_ge32; lia].
Qed.

(** The order of service has descending priorities. *)
Lemma elements_sorted s gs :
  Forall (group_ok s) gs -> StronglySorted (fun a b => group_prio s a > group_prio s b) gs ->
  StronglySorted (fun x y => prio s x >= prio s y) (concat gs).
Proof.
  intros Hok Hs. induction Hs as [|g gs Hs IH Hall]; [constructor |].
  inversion Hok as [| ? ? Hg Hgs]; subst. specialize (IH Hgs). cbn [concat].
  destruct Hg as (h & Hh & Hp).
  assert (Forall (fun y => prio s h >= prio s y) (concat gs)) as Hlow.
  { apply Forall_forall. intros y (g' & Hg' & Hy)%list_elem_of_In%in_concat.
    apply list_elem_of_In in Hg', Hy. rewrite !Forall_forall in *.
    specialize (Hall _ Hg'). destruct (Hgs _ Hg') as (h' & Hh' & Hp').
    rewrite Forall_forall in Hp'. rewrite (Hp' _ Hy). unfold group_prio in Hall. rewrite Hh, Hh' in Hall. lia. }
  clear Hh Hall Hs Hok. induction Hp as [|x g Hx Hp IHg]; [done |]. constructor; [apply IHg |].
  apply Forall_app. split; (eapply Forall_impl; [eassumption |]); simpl; intros; lia.
Qed.

Lemma reachable_inv s0 s q :
  (forall e, queue s0 e <> Some self) -> rtc step (s0, empty) (s, q) -> inv s q.
Proof.
  intros H0 Hs. change (inv (fst (s, q)) (snd (s, q))).
  assert (inv (fst (s0, empty)) (snd (s0, empty))) as Hi by (by apply empty_inv).
  revert Hs Hi. generalize (s0, empty), (s, q). clear. intros a b Hs. induction Hs as [|[] [] c Hab _ IH]; [done |].
  intros Hi. apply IH. by eapply pq_step_inv.
Qed.

(** C33: in every queue that the operations can produce the elements are
    served in the order of their priorities, exactly the elements whose queue
    pointer names the queue are waiting in it, each once, and the element of
    interest is marked as queued exactly when it is. *)
Theorem prio_list_reachable s0 s q :
  (forall e, queue s0 e <> Some self) -> rtc step (s0, empty) (s, q) ->
  StronglySorted (fun x y => prio s x >= prio s y) (elements q)
  /\ NoDup (elements q) /\ (forall e, e ∈ elements q <-> queue s e = Some self)
  /\ exists e, Poi.eq (_poi q) e = true /\ (Poi.queued (_poi q) = true <-> e ∈ elements q).
Proof.
  intros H0 Hs. destruct (reachable_inv _ _ _ H0 Hs) as [[O1 O2 O3 O4] (e & Ha & Hp) _].
  split_and!; try done; [by apply elements_sorted |]. exists e.
  destruct (aligned_bits e Ha) as (B1 & B2 & _ & B4). rewrite O4, Hp. unfold Poi.eq, Poi.queued.
  case_bool_decide; rewrite ?B1, ?B2, Z.eqb_refl; (split; [done |]).
  - by rewrite B4.
  - destruct Ha as [_ ->]. done.
Qed.

(** Inserting an element that waits nowhere puts it behind all waiting
    elements of at least its priority; one that waits already, here or in
    another queue, is refused and nothing changes.  The operation never blocks
    on the lock of a queue that no operation is in progress on. *)
Theorem prio_insert_fifo s0 s q e p :
  (forall e, queue s0 e <> Some self) -> rtc step (s0, empty) (s, q) -> is_Some (s !! e) ->
  match insert self s q e p with
  | Some (true, s', q') => queue s e = None /\ elements q' = enqueue s (elements q) e p
      /\ s' !! e = Some (mkelem p (Some self)) /\ _cursor q' = _cursor q
  | Some (false, s', q') => queue s e <> None /\ s' = s /\ q' = q
  | None => False
  end.
Proof.
  intros H0 Hs He. pose proof (reachable_inv _ _ _ H0 Hs) as Hi.
  destruct (insert self s q e p) as [[[r s'] q'] |] eqn:E.
  - destruct (insert_inv _ _ _ _ _ _ _ Hi He E) as [_ Hr]. by destruct r.
  - unfold insert, guarded in E. rewrite (inv_lock _ _ Hi) in E.
    change (Pq_lock.test_and_set 0) with (Some (0, 2)) in E. cbv beta iota in E.
    by destruct (insert_dirty _ _ _ _ _) as [[]].
Qed.

(** Dequeuing removes exactly the element; a cursor that stands on it
    moves to its successor in the order of service, so that an interrupted
    iteration misses nobody.  An element of another queue is left alone. *)
Theorem prio_dequeue_removes s0 s q e :
  (forall e, queue s0 e <> Some self) -> rtc step (s0, empty) (s, q) ->
  match dequeue self s q e with
  | Some (true, s', q') => e ∈ elements q /\ elements q' = filter (fun x => x <> e) (elements q)
      /\ queue s' e = None
      /\ _cursor q' = (if bool_decide (_cursor q = Some e) then successor (elements q) e else _cursor q)
  | Some (false, s', q') => (e ∉ elements q) /\ s' = s /\ q' = q
  | None => False
  end.
Proof.
  intros H0 Hs. pose proof (reachable_inv _ _ _ H0 Hs) as Hi. unfold dequeue.
  case_bool_decide as Hq; [| by rewrite (ok_queue _ _ _ (inv_ok _ _ Hi))].
  unfold guarded. rewrite (inv_lock _ _ Hi). change (Pq_lock.test_and_set 0) with (Some (0, 2)). cbv beta iota.
  pose proof (take_out_inv s q e Hi Hq) as Ht. destruct (take_out _ _ e) as [s1 q2].
  destruct Ht as (_ & Hel & Hqe & Hc). by rewrite (ok_queue _ _ _ (inv_ok _ _ Hi)).
Qed.

(** [dequeue_first] serves the first element in the order of service, and
    the rest keeps its order. *)
Theorem prio_dequeue_first s0 s q :
  (forall e, queue s0 e <> Some self) -> rtc step (s0, empty) (s, q) ->
  match dequeue_first self s q with
  | Some (r, s', q') => r = head (elements q) /\ elements q' = tail (elements q)
  | None => False
  end.
Proof.
  intros H0 Hs. pose proof (reachable_inv _ _ _ H0 Hs) as Hi. unfold dequeue_first, guarded.
  rewrite (inv_lock _ _ Hi). change (Pq_lock.test_and_set 0) with (Some (0, 2)). cbv beta iota.
  destruct (inv_ok _ _ Hi) as [O1 O2 O3 O4]. unfold dequeue_first_dirty.
  assert (first (mk (groups q) (_cursor q) (_poi q) 2) = head (elements q)) as ->.
  { unfold first, elements. cbn [groups]. pose proof (group_ok_nonempty _ _ O1) as Hne.
    destruct Hne as [|g gs Hg _]; [done |]. by destruct g. }
  destruct (elements q) as [|f l] eqn:El; cbn [head].
  - cbn. unfold elements in El |- *. by rewrite El.
  - assert (queue s f = Some self) as Hq by (apply O4; left). rewrite bool_decide_true by done.
    pose proof (take_out_inv s q f Hi Hq) as Ht. destruct (take_out _ _ f) as [s1 q2].
    destruct Ht as (_ & Hel & _). split; [done |]. unfold elements at 1. cbn [groups].
    change (concat (groups q2)) with (elements q2). rewrite Hel, El. cbn [tail].
    apply NoDup_cons in O3 as [Hf _]. rewrite filter_cons_False by tauto. by apply filter_absent.
Qed.

End proofs.

(** ** A concrete queue *)
Module Prio_witness.
Import Prio_list.
#[local] Existing Instance arch64.

Definition s0 : store := {[ 8 := mkelem 0 None; 16 := mkelem 0 None; 24 := mkelem 0 None; 32 := mkelem 0 None ]}.
Definition ins (e p : Z) (sq : store * t) : store * t :=
  match insert 1 (fst sq) (snd sq) e p with Some (_, s, q) => (s, q) | None => sq end.
Definition sq : store * t := ins 24 5 (ins 16 7 (ins 8 5 (s0, empty))).

Lemma s0_none e : queue s0 e <> Some 1%nat.
Proof.
  unfold queue. destruct (s0 !! e) as [x |] eqn:E; [| done]. cbn.
  assert (map_Forall (fun _ x => _queue x = None) s0) as Hf
    by (apply map_Forall_to_list; vm_compute; by repeat constructor).
  by rewrite (Hf _ _ E).
Qed.

Lemma sq_reachable : rtc (step 1) (s0, empty) sq.
Proof.
  eapply rtc_l; [eapply (step_insert 1 _ _ 8 5 true); [by eexists | vm_compute; reflexivity] |].
  eapply rtc_l; [eapply (step_insert 1 _ _ 16 7 true); [by eexists | vm_compute; reflexivity] |].
  eapply rtc_l; [eapply (step_insert 1 _ _ 24 5 true); [by eexists | vm_compute; reflexivity] |].
  apply rtc_refl.
Qed.

Lemma prio_list_reachable_witness : NoDup (elements (snd sq)) /\ elements (snd sq) = [16; 8; 24].
Proof.
  destruct (prio_list_reachable 1 s0 (fst sq) (snd sq) s0_none sq_reachable) as (_ & Hn & _).
  split; [exact Hn | vm_compute; reflexivity].
Defined.

Lemma prio_insert_fifo_witness :
  exists s' q', insert 1 (fst sq) (snd sq) 32 5 = Some (true, s', q') /\ elements q' = [16; 8; 24; 32].
Proof.
  pose proof (prio_insert_fifo 1 s0 (fst sq) (snd sq) 32 5 s0_none sq_reachable ltac:(by eexists)) as T.
  destruct (insert 1 (fst sq) (snd sq) 32 5) as [[[[|] s'] q'] |]; [| exfalso | done].
  - exists s', q'. split; [done |]. by destruct T as (_ & -> & _).
  - by destruct T as [[] _].
Defined.

Lemma prio_dequeue_removes_witness :
  exists s' q', dequeue 1 (fst sq) (snd sq) 8 = Some (true, s', q') /\ elements q' = [16; 24].
Proof.
  pose proof (prio_dequeue_removes 1 s0 (fst sq) (snd sq) 8 s0_none sq_reachable) as T.
  assert (8 ∈ elements (snd sq)) as Hin by (vm_compute; right; left).
  destruct (dequeue 1 (fst sq) (snd sq) 8) as [[[[|] s'] q'] |]; [| by destruct T | done].
  exists s', q'. split; [done |]. by destruct T as (_ & -> & _).
Defined.

Lemma prio_dequeue_first_witness :
  exists s' q', dequeue_first 1 (fst sq) (snd sq) = Some (Some 16, s', q') /\ elements q' = [8; 24].
Proof.
  pose proof (prio_dequeue_first 1 s0 (fst sq) (snd sq) s0_none sq_reachable) as T.
  destruct (dequeue_first 1 (fst sq) (snd sq)) as [[[r s'] q'] |]; [| done].
  destruct T as [-> E]. exists s', q'. split; [done |]. by rewrite E.
Defined.

End Prio_witness.
