(* ===== verification/Timeouts.v ===== *)
(** Timeout queues: [src/src/kern/timeout.h].

    A timeout is queued by its wakeup time in one of eight lists, each sorted
    by wakeup time; a list is responsible for every eighth slot of 4096 us.
    The handler [do_timeouts] looks only at the lists of the slots that passed
    since its last run.  The virtual function [expired] of a timeout is a
    parameter that yields the reschedule request; the handlers it stands for do
    not touch the queues. *)

From Stdlib Require Import Sorted.
From S2P Require Import Prelude.

(** The kernel configuration, and the state of RCU that [update_timer] asks
    for. *)
Class Timeout_env := {
  Scheduler_one_shot : bool;
  One_shot_min_interval_us : Z;
  One_shot_max_interval_us : Z;
  Rcu_grace_period : Z;
  rcu_idle : bool;
  expired : Z -> bool }.

Module Timeout.

Record t := mk { id : Z; _wakeup : Z }.

Definition get_timeout (to : t) (clock : Z) : Z := to_signed 64 (_wakeup to - clock).

End Timeout.

Module Timeout_q.
Section ops.
Context `{Timeout_env}.
Import Timeout.

Definition Wakeup_queue_count : Z := 8.
Definition Wakeup_queue_distance : Z := 12.
Definition ULLONG_MAX : Z := 2 ^ 64 - 1.

(** [hit] are the timeouts whose flag [hit] is set, in the order they
    expired. *)
Record t := mkq {
  _q : list (list Timeout.t);
  _current : Z;
  _old_clock : Z;
  hit : list Z }.

Definition make : t := mkq (replicate 8 []) ULLONG_MAX 0 [].

Definition index (i : Z) : nat := Z.to_nat (i .& (Wakeup_queue_count - 1)).
Definition first (tq : t) (i : Z) : list Timeout.t := _q tq !!! index i.
Definition set_first (i : Z) (l : list Timeout.t) (tq : t) : t :=
  mkq (<[index i := l]> (_q tq)) (_current tq) (_old_clock tq) (hit tq).

Definition program_timer (timeout : Z) (tq : t) : t :=
  let min := wrap 64 (_old_clock tq + One_shot_min_interval_us) in
  mkq (_q tq) (if timeout <? min then min else timeout) (_old_clock tq) (hit tq).

(** The loop of [update_timer] over the queues *)
Definition next_timeout (tq : t) (max_timeout : Z) : Z :=
  foldl (fun next i =>
           match first tq (Z.of_nat i) with
           | [] => next
           | to :: _ => if _wakeup to <? next then _wakeup to else next
           end) max_timeout (seq 0 8).

Definition update_timer (max_timeout : Z) (tq : t) : t :=
  if negb Scheduler_one_shot then tq else program_timer (next_timeout tq max_timeout) tq.

Definition update_timer_max_oneshot (now : Z) (tq : t) : t :=
  if negb Scheduler_one_shot then tq
  else update_timer (wrap 64 (now + if rcu_idle then One_shot_max_interval_us else Rcu_grace_period)) tq.

(** The position of a new timeout in its list. *)
Definition insert (l : list Timeout.t) (to : Timeout.t) : list Timeout.t :=
  take_while (fun x => _wakeup x <? _wakeup to) l
  ++ to :: drop_while (fun x => _wakeup x <? _wakeup to) l.

Definition enqueue (to : Timeout.t) (tq : t) : t :=
  let queue := (_wakeup to >> Wakeup_queue_distance) .& (Wakeup_queue_count - 1) in
  let tq := set_first queue (insert (first tq queue) to) tq in
  if negb Scheduler_one_shot then tq
  else if _wakeup to <? _current tq then program_timer (_wakeup to) tq else tq.

(** [To_list::remove] of a timeout, for [Timeout::reset] *)
Definition reset (i : Z) (tq : t) : t :=
  mkq (map (filter (fun to => id to <> i)) (_q tq)) (_current tq) (_old_clock tq) (hit tq).

(** The inner loop: the timeouts at the front that are due expire. *)
Definition due (now : Z) (to : Timeout.t) : bool := _wakeup to <=? now.

Definition scan (start now : Z) (tq : t) : bool * t :=
  let gone := take_while (due now) (first tq start) in
  (existsb (fun to => expired (id to)) gone,
   let tq := set_first start (drop_while (due now) (first tq start)) tq in
   mkq (_q tq) (_current tq) (_old_clock tq) (hit tq ++ (id <$> gone))).

(** The outer loop; eight rounds visit every list. *)
Fixpoint scan_loop (fuel : nat) (start last now : Z) (reschedule : bool) (tq : t) : bool * t :=
  match fuel with
  | O => (reschedule, tq)
  | S fuel =>
      let '(r, tq) := scan start now tq in
      let start := (start + 1) .& (Wakeup_queue_count - 1) in
      if start =? last then (reschedule || r, tq)
      else scan_loop fuel start last now (reschedule || r) tq
  end.

(** The first and the last list to look at; [int] is 32 bits wide. *)
Definition bounds (old_clock now : Z) : Z * Z :=
  let start := to_signed 32 (old_clock >> Wakeup_queue_distance) in
  let diff := to_signed 32 ((now >> Wakeup_queue_distance) - start) in
  let last := to_signed 32 (start + diff + 1) .& (Wakeup_queue_count - 1) in
  let start := start .& (Wakeup_queue_count - 1) in
  if diff >=? Wakeup_queue_count then (0, 0) else (start, last).

Definition do_timeouts (now : Z) (tq : t) : bool * t :=
  let '(start, last) := bounds (_old_clock tq) now in
  let tq := mkq (_q tq) (_current tq) now (hit tq) in
  let '(r, tq) := scan_loop 8 start last now false tq in
  (r, update_timer_max_oneshot now tq).

Definition have_timeouts (ignore : Z) (tq : t) : bool :=
  existsb (fun i => match first tq (Z.of_nat i) with
                    | [] => false
                    | [to] => negb (id to =? ignore)
                    | _ => true
                    end) (seq 0 8).

(** [Timeout::set] and [set_again] *)
Definition set (i clock : Z) (tq : t) : t := enqueue (mk i clock) tq.
Definition set_again (i wakeup : Z) (tq : t) : t :=
  if existsb (Z.eqb i) (hit tq) then tq else enqueue (mk i wakeup) tq.

End ops.
End Timeout_q.

(** * Properties *)

Section proofs.
Context `{Timeout_env}.
Import Timeout Timeout_q.

Definition slot (x : Z) : Z := x / 4096.

Lemma shift_slot x : x >> Wakeup_queue_distance = slot x.
Proof. unfold Wakeup_queue_distance. by rewrite Z.shiftr_div_pow2 by lia. Qed.

Lemma land7 x : x .& (Wakeup_queue_count - 1) = x mod 8.
Proof. change (Wakeup_queue_count - 1) with (Z.ones 3). by rewrite Z.land_ones by lia. Qed.

Lemma to_signed_mod8 x : to_signed 32 x mod 8 = x mod 8.
Proof.
  pose proof (to_signed_mod 32 x ltac:(lia)) as Hm.
  assert (forall y, y mod 8 = (y mod 2 ^ 32) mod 8) as Hd.
  { intros y. symmetry. apply Z.mod_mod_divide. by exists (2 ^ 29). }
  rewrite Hd, Hm, <- Hd. done.
Qed.

(** The lists to visit, from the times themselves. *)
Lemma bounds_spec old now :
  0 <= old -> 0 <= slot now - slot old < 2 ^ 31 ->
  bounds old now = if 8 <=? slot now - slot old then (0, 0)
                   else (slot old mod 8, (slot now + 1) mod 8).
Proof.
  intros Ho Hd. unfold bounds. rewrite !shift_slot.
  assert (to_signed 32 (slot now - to_signed 32 (slot old)) = slot now - slot old) as ->.
  { apply to_signed_unique; [lia | lia |]. rewrite (Zminus_mod (slot now) (to_signed _ _)).
    rewrite to_signed_mod by lia. by rewrite <- Zminus_mod. }
  rewrite !land7, !to_signed_mod8. rewrite Z.geb_leb. unfold Wakeup_queue_count.
  destruct (8 <=? slot now - slot old); [done |]. f_equal.
  rewrite <- Z.add_assoc, Zplus_mod, to_signed_mod8, <- Zplus_mod. f_equal. lia.
Qed.

(** The lists that the loop visits. *)
Fixpoint visited (fuel : nat) (start last : Z) : list Z :=
  match fuel with
  | O => []
  | S fuel => start :: if (start + 1) .& (Wakeup_queue_count - 1) =? last then []
                       else visited fuel ((start + 1) .& (Wakeup_queue_count - 1)) last
  end.

Definition scan_one (now : Z) (acc : bool * t) (i : Z) : bool * t :=
  let '(r, tq) := scan i now (snd acc) in (fst acc || r, tq).

Lemma scan_loop_visited fuel start last now r tq :
  scan_loop fuel start last now r tq = foldl (scan_one now) (r, tq) (visited fuel start last).
Proof.
  revert start r tq. induction fuel as [|fuel IH]; intros start r tq; [done |].
  cbn [scan_loop visited foldl]. unfold scan_one at 2. cbn [fst snd].
  destruct (scan start now tq) as [r' tq']. destruct (_ =? last); [done |]. apply IH.
Qed.

(** The visited lists are those of the slots between the two times: a check of
    all positions of the two ends. *)
Definition visits_exactly (a d : Z) : bool :=
  forallb (fun y => eqb (existsb (Z.eqb y) (visited 8 a ((a + d + 1) mod 8))) ((y - a) mod 8 <=? d)) (seqZ 0 8).

Lemma visits_exactly_all a d : 0 <= a < 8 -> 0 <= d < 8 -> visits_exactly a d = true.
Proof.
  intros Ha Hd. assert (forallb (fun a => forallb (visits_exactly a) (seqZ 0 8)) (seqZ 0 8) = true) as Hv by (vm_compute; reflexivity).
  rewrite forallb_forall in Hv. specialize (Hv a). rewrite <- list_elem_of_In, elem_of_seqZ, forallb_forall in Hv.
  apply Hv; [lia|]. rewrite <- list_elem_of_In, elem_of_seqZ. lia.
Qed.

Lemma existsb_elem_of y l : existsb (Z.eqb y) l = true <-> y ∈ l.
Proof.
  rewrite existsb_exists. split; [intros (x & Hx & ->%Z.eqb_eq); by apply list_elem_of_In|].
  intros Hy. exists y. split; [by apply list_elem_of_In | apply Z.eqb_refl].
Qed.

Lemma visited_iff old now y :
  0 <= old -> 0 <= slot now - slot old < 2 ^ 31 -> 0 <= y < 8 ->
  (y ∈ visited 8 (fst (bounds old now)) (snd (bounds old now)) <-> (y - slot old) mod 8 <= slot now - slot old).
Proof.
  intros Ho Hd Hy. rewrite bounds_spec by done. pose proof (Z.mod_pos_bound (y - slot old) 8 ltac:(lia)) as Hm.
  destruct (Z.leb_spec 8 (slot now - slot old)) as [Hbig | Hsmall]; cbn [fst snd].
  - assert (visited 8 0 0 = seqZ 0 8) as -> by (vm_compute; reflexivity). rewrite elem_of_seqZ. lia.
  - pose proof (visits_exactly_all (slot old mod 8) (slot now - slot old) (Z.mod_pos_bound _ 8 ltac:(lia)) ltac:(lia)) as He.
    unfold visits_exactly in He. rewrite forallb_forall in He. specialize (He y).
    rewrite <- list_elem_of_In, elem_of_seqZ in He. specialize (He ltac:(lia)).
    apply eqb_prop in He. rewrite Zminus_mod_idemp_r in He.
    replace ((slot old mod 8 + (slot now - slot old) + 1) mod 8) with ((slot now + 1) mod 8) in He
      by (rewrite <- Z.add_assoc, Zplus_mod_idemp_l; f_equal; lia).
    rewrite <- existsb_elem_of, He. apply Z.leb_le.
Qed.

(** ** Well-formed queues *)
Definition by_wakeup (a b : Timeout.t) : Prop := _wakeup a <= _wakeup b.

Record list_ok (i : nat) (l : list Timeout.t) : Prop := {
  l_sorted : StronglySorted by_wakeup l;
  l_slot : Forall (fun to => 0 <= _wakeup to < 2 ^ 64 /\ slot (_wakeup to) mod 8 = Z.of_nat i) l }.

(** Every timeout is in the sorted list of its slot. *)
Record lists_ok (tq : t) : Prop := {
  lo_len : length (_q tq) = 8%nat;
  lo_lists : forall i l, _q tq !! i = Some l -> list_ok i l }.

(** Besides, no timeout is in a slot that had passed at the last run. *)
Record ok (tq : t) : Prop := {
  ok_len : length (_q tq) = 8%nat;
  ok_lists : forall i l, _q tq !! i = Some l -> list_ok i l;
  ok_future : Forall (fun to => slot (_old_clock tq) <= slot (_wakeup to)) (concat (_q tq)) }.

Lemma ok_lists_ok tq : ok tq -> lists_ok tq.
Proof. by intros []. Qed.

(** What a run of the handler at [now] after one at [old] takes care of: the due
    timeouts of the slots in between, and of all slots 32 ms before or after. *)
Definition handled (old now : Z) (to : Timeout.t) : Prop :=
  _wakeup to <= now /\ (slot (_wakeup to) - slot old) mod 8 <= slot now - slot old.

#[global] Instance handled_dec old now to : Decision (handled old now to).
Proof. unfold handled. apply _. Defined.

Lemma sorted_split now l :
  StronglySorted by_wakeup l ->
  take_while (due now) l = filter (fun to => _wakeup to <= now) l
  /\ drop_while (due now) l = filter (fun to => now < _wakeup to) l.
Proof.
  induction 1 as [|x l Hs [IH1 IH2] Hall]; [done |]. cbn [take_while drop_while]. unfold due at 1 3.
  destruct (Z.leb_spec (_wakeup x) now) as [Hle | Hgt].
  - rewrite filter_cons_True, filter_cons_False by lia. by rewrite IH1, IH2.
  - rewrite (filter_cons_False _ x), (filter_cons_True _ x) by lia.
    assert (filter (fun to => _wakeup to <= now) l = [] /\ filter (fun to => now < _wakeup to) l = l) as [-> ->]; [| done].
    clear -Hall Hgt. induction Hall as [|y l Hy _ [IH1 IH2]]; [done |]. unfold by_wakeup in Hy.
    rewrite filter_cons_False, filter_cons_True by lia. by rewrite IH1, IH2.
Qed.

Lemma concat_insert_perm {A} (q : list (list A)) i l a b :
  q !! i = Some l -> l = a ++ b -> concat q ≡ₚ a ++ concat (<[i := b]> q).
Proof.
  revert i. induction q as [|x q IH]; intros [|i] Hi Hl; simpl in *; try done.
  - injection Hi as ->. by rewrite Hl, app_assoc.
  - rewrite (IH _ Hi Hl), !app_assoc. apply Permutation_app_tail, Permutation_app_comm.
Qed.

Definition later (now : Z) (l : list Timeout.t) : list Timeout.t := filter (fun to => now < _wakeup to) l.

(** The state after some lists have been visited: [gone] are the timeouts that
    expired. *)
Record progress (now : Z) (tq0 : t) (seen : list Z) (gone : list Timeout.t) (r : bool) (tq : t) : Prop := {
  p_len : length (_q tq) = 8%nat;
  p_lists : forall i l, _q tq0 !! i = Some l ->
    _q tq !! i = Some (if bool_decide (Z.of_nat i ∈ seen) then later now l else l);
  p_perm : gone ++ concat (_q tq) ≡ₚ concat (_q tq0);
  p_hit : hit tq = hit tq0 ++ (id <$> gone);
  p_resched : r = existsb (fun to => expired (id to)) gone;
  p_clock : _old_clock tq = _old_clock tq0 }.

Lemma later_later now l : later now (later now l) = later now l.
Proof.
  unfold later. rewrite list_filter_filter. apply list_filter_iff. tauto.
Qed.

Lemma filter_sorted {A} (R : A -> A -> Prop) (P : A -> Prop) `{!forall x, Decision (P x)} l :
  StronglySorted R l -> StronglySorted R (filter P l).
Proof.
  induction 1 as [|x l Hs IH Hall]; [constructor |]. rewrite filter_cons. destruct (decide (P x)); [| done].
  constructor; [done |]. rewrite Forall_forall in *. intros y [_ Hy]%list_elem_of_filter. auto.
Qed.

Lemma scan_progress now tq0 seen gone r tq i :
  length (_q tq0) = 8%nat -> (forall i l, _q tq0 !! i = Some l -> list_ok i l) -> 0 <= i < 8 ->
  progress now tq0 seen gone r tq ->
  exists gone', progress now tq0 (i :: seen) gone' (fst (scan_one now (r, tq) i)) (snd (scan_one now (r, tq) i)).
Proof.
  intros Hlen Hok Hi [P1 P2 P3 P5 P6 P7]. set (n := Z.to_nat i).
  assert (index i = n) as En by (unfold index; rewrite land7, Z.mod_small by lia; done).
  destruct (lookup_lt_is_Some_2 (_q tq0) n) as [l0 Hl0]; [lia |].
  assert (exists l, _q tq !! n = Some l /\ StronglySorted by_wakeup l /\ later now l = later now l0) as (l & Hl & Hs & Hlat).
  { destruct (Hok _ _ Hl0) as [Hs _]. rewrite (P2 _ _ Hl0). eexists; (split; [done |]).
    case_bool_decide; [split; [by apply filter_sorted | apply later_later] | done]. }
  destruct (sorted_split now l Hs) as [Ht Hd].
  unfold scan_one, scan. cbn [fst snd]. unfold first. rewrite En, (list_lookup_total_correct _ _ _ Hl), Ht, Hd.
  set (g := filter (fun to => _wakeup to <= now) l). exists (gone ++ g).
  split; cbn [_q set_first hit _old_clock]; rewrite ?En.
  - by rewrite length_insert.
  - intros j lj Hj. destruct (decide (j = n)) as [-> | Hne].
    + rewrite list_lookup_insert_eq by lia. rewrite bool_decide_true by (apply elem_of_cons; left; lia).
      f_equal. rewrite Hl0 in Hj. injection Hj as <-. exact Hlat.
    + rewrite list_lookup_insert_ne by done. rewrite (P2 _ _ Hj). f_equal.
      rewrite (bool_decide_ext (Z.of_nat j ∈ i :: seen) (Z.of_nat j ∈ seen)); [done |].
      rewrite elem_of_cons. split; [intros [? |]; [lia | done] | by right].
  - rewrite <- P3, <- app_assoc. apply Permutation_app_head. symmetry. eapply concat_insert_perm; [exact Hl |].
    subst g. rewrite <- Ht, <- Hd. by rewrite take_drop_while.
  - rewrite P5, fmap_app, app_assoc. done.
  - by rewrite P6, existsb_app.
  - done.
Qed.

Lemma visited_range fuel start last i : 0 <= start < 8 -> i ∈ visited fuel start last -> 0 <= i < 8.
Proof.
  revert start. induction fuel as [|fuel IH]; intros start Hs; [by intros ?%elem_of_nil |].
  cbn [visited]. intros [-> | Hi]%elem_of_cons; [done |]. destruct (_ =? last); [by apply elem_of_nil in Hi |].
  eapply IH; [| exact Hi]. rewrite land7. apply Z.mod_pos_bound. lia.
Qed.

Lemma fold_progress now tq0 vs seen gone r tq :
  length (_q tq0) = 8%nat -> (forall i l, _q tq0 !! i = Some l -> list_ok i l) ->
  Forall (fun i => 0 <= i < 8) vs -> progress now tq0 seen gone r tq ->
  exists gone', progress now tq0 (reverse vs ++ seen) gone' (fst (foldl (scan_one now) (r, tq) vs))
                  (snd (foldl (scan_one now) (r, tq) vs)).
Proof.
  intros Hlen Hok Hvs. revert seen gone r tq. induction Hvs as [|i vs Hi _ IH]; intros seen gone r tq Hp.
  - exists gone. done.
  - cbn [foldl]. destruct (scan_progress _ _ _ _ _ _ _ Hlen Hok Hi Hp) as [g' Hp'].
    destruct (scan_one now (r, tq) i) as [r' tq']. cbn [fst snd] in Hp'.
    destruct (IH _ _ _ _ Hp') as [g2 Hp2]. exists g2. rewrite reverse_cons, <- app_assoc. exact Hp2.
Qed.

(** The handler takes from each list exactly the timeouts it is to handle. *)
Lemma visited_handled old now i l :
  0 <= old -> 0 <= slot now - slot old < 2 ^ 31 -> (i < 8)%nat -> list_ok i l ->
  (if bool_decide (Z.of_nat i ∈ visited 8 (fst (bounds old now)) (snd (bounds old now))) then later now l else l)
  = filter (fun to => ~ handled old now to) l.
Proof.
  intros Ho Hd Hi [_ Hl]. pose proof (visited_iff old now (Z.of_nat i) Ho Hd ltac:(lia)) as Hv.
  assert (Forall (fun to => handled old now to <-> _wakeup to <= now /\ (Z.of_nat i - slot old) mod 8 <= slot now - slot old) l) as Hh.
  { eapply Forall_impl; [exact Hl |]. intros to [_ Hto]. cbv beta. unfold handled.
    by rewrite <- (Zminus_mod_idemp_l (slot (_wakeup to))), Hto. }
  case_bool_decide as Hin; rewrite Hv in Hin.
  - unfold later. clear -Hh Hin. induction Hh as [|to l Hto _ IH]; [done |].
    rewrite !filter_cons, IH. do 2 case_decide; try done; exfalso; rewrite Hto in *; lia.
  - symmetry. apply filter_all. eapply Forall_impl; [exact Hh |]. cbv beta. tauto.
Qed.

Lemma update_timer_keeps now tq :
  _q (update_timer_max_oneshot now tq) = _q tq /\ hit (update_timer_max_oneshot now tq) = hit tq
  /\ _old_clock (update_timer_max_oneshot now tq) = _old_clock tq.
Proof. unfold update_timer_max_oneshot, update_timer. by destruct Scheduler_one_shot. Qed.

Lemma filter_ok (P : Timeout.t -> Prop) `{!forall x, Decision (P x)} i l : list_ok i l -> list_ok i (filter P l).
Proof.
  intros [Hs Hl]. split; [by apply filter_sorted |]. rewrite Forall_forall in *.
  intros to [_ Hto]%list_elem_of_filter. auto.
Qed.

Lemma do_timeouts_lists now tq :
  lists_ok tq -> 0 <= _old_clock tq -> 0 <= slot now - slot (_old_clock tq) < 2 ^ 31 ->
  exists gone, let '(r, tq') := do_timeouts now tq in
    _q tq' = filter (fun to => ~ handled (_old_clock tq) now to) <$> _q tq /\ gone ++ concat (_q tq') ≡ₚ concat (_q tq)
    /\ hit tq' = hit tq ++ (id <$> gone)
    /\ r = existsb (fun to => expired (id to)) gone /\ _old_clock tq' = now.
Proof.
  intros [Hlen Hok] Ho Hd. unfold do_timeouts.
  pose proof (visited_handled (_old_clock tq) now) as Hun.
  destruct (bounds (_old_clock tq) now) as [start last] eqn:Eb.
  set (tq0 := mkq (_q tq) (_current tq) now (hit tq)).
  assert (0 <= start < 8) as Hst.
  { rewrite bounds_spec in Eb by done. destruct (8 <=? _); injection Eb as <- _; [lia |].
    apply Z.mod_pos_bound. lia. }
  assert (Forall (fun i => 0 <= i < 8) (visited 8 start last)) as Hvs
    by (apply Forall_forall; intros i Hi; by eapply visited_range).
  assert (progress now tq0 [] [] false tq0) as H0 by (split; try done; cbn; by rewrite app_nil_r).
  destruct (fold_progress now tq0 _ _ _ _ _ Hlen Hok Hvs H0) as [gone Hp].
  rewrite scan_loop_visited. destruct (foldl _ _ _) as [r tq1]. cbn [fst snd] in Hp.
  destruct Hp as [P1 P2 P3 P5 P6 P7]. exists gone.
  destruct (update_timer_keeps now tq1) as (-> & -> & ->).
  split_and!; try done. apply list_eq. intros i. rewrite list_lookup_fmap.
  destruct (_q tq !! i) as [l |] eqn:El; cbn [fmap option_fmap option_map].
  - assert (i < 8)%nat as Hi by (rewrite <- Hlen; by eapply lookup_lt_Some).
    rewrite (P2 i l El). f_equal. rewrite <- (Hun i l Ho Hd Hi (Hok _ _ El)), app_nil_r. cbn [fst snd].
    by rewrite (bool_decide_ext _ _ (elem_of_reverse _ _)).
  - apply lookup_ge_None_2. apply lookup_ge_None_1 in El. lia.
Qed.

Lemma concat_filter {A} (P : A -> Prop) `{!forall x, Decision (P x)} q : concat (filter P <$> q) = filter P (concat q).
Proof. induction q as [|l q IH]; [done |]. cbn. by rewrite IH, filter_app. Qed.

(** Where nothing is left over from a slot that had passed, and after every
    longer pause, the handler takes care of all that is due. *)
Lemma handled_due old now to : 0 <= slot now - slot old -> slot old <= slot (_wakeup to) \/ 7 <= slot now - slot old ->
  handled old now to <-> _wakeup to <= now.
Proof.
  intros Hd Hs. unfold handled. split; [tauto |]. intros Hw. split; [done |].
  assert (slot (_wakeup to) <= slot now) as Hle by (apply Z.div_le_mono; lia).
  pose proof (Z.mod_pos_bound (slot (_wakeup to) - slot old) 8 ltac:(lia)).
  destruct Hs as [Hs |]; [| lia]. pose proof (Z.mod_le (slot (_wakeup to) - slot old) 8). lia.
Qed.

Lemma filtered_ok (P : Timeout.t -> Prop) `{!forall x, Decision (P x)} tq tq' :
  lists_ok tq -> _q tq' = filter P <$> _q tq -> lists_ok tq'.
Proof.
  intros [Hlen Hl] E. split; [by rewrite E, length_fmap |].
  intros i l. rewrite E, list_lookup_fmap, fmap_Some. intros (l0 & Hl0 & ->). by apply filter_ok, Hl.
Qed.

(** C34: [do_timeouts] expires exactly the due timeouts of the lists it looks at,
    those of the slots from the one of its last run to the present one, each
    once, and keeps all others in their order; for every distance between two
    runs below 2^31 slots (about 101 days).  This is all that is due, and the
    next run may rely on the same, when no timeout was queued in a slot that had
    passed at the last run (what [Timeout::set_again] can do); and it is all that
    is due, late or not, when the runs are seven slots or more apart. *)
Theorem do_timeouts_exact now tq :
  lists_ok tq -> 0 <= _old_clock tq -> 0 <= slot now - slot (_old_clock tq) < 2 ^ 31 ->
  let '(r, tq') := do_timeouts now tq in
  lists_ok tq' /\ concat (_q tq') = filter (fun to => ~ handled (_old_clock tq) now to) (concat (_q tq))
  /\ (exists gone, gone ≡ₚ filter (handled (_old_clock tq) now) (concat (_q tq))
       /\ hit tq' = hit tq ++ (id <$> gone) /\ r = existsb (fun to => expired (id to)) gone)
  /\ (ok tq -> ok tq' /\ forall to, to ∈ concat (_q tq) -> handled (_old_clock tq) now to <-> _wakeup to <= now)
  /\ (7 <= slot now - slot (_old_clock tq) -> ok tq' /\ forall to, handled (_old_clock tq) now to <-> _wakeup to <= now).
Proof.
  intros Hok Ho Hd. destruct (do_timeouts_lists now tq Hok Ho Hd) as [gone Hg].
  destruct (do_timeouts now tq) as [r tq']. destruct Hg as (Eq & Hperm & Hhit & Hr & Hc).
  pose proof (filtered_ok _ _ _ Hok Eq) as Hok'.
  assert (concat (_q tq') = filter (fun to => ~ handled (_old_clock tq) now to) (concat (_q tq))) as Hcat
    by (by rewrite Eq, concat_filter).
  assert ((forall to, to ∈ concat (_q tq) -> handled (_old_clock tq) now to <-> _wakeup to <= now) -> ok tq') as Hfut.
  { intros Hall. destruct Hok' as [Hlen' Hl']. split; [done | done |]. rewrite Hcat, Hc. apply Forall_forall.
    intros to [Hn Hto]%list_elem_of_filter. rewrite Hall in Hn by done. apply Z.div_le_mono; lia. }
  split_and!; [done | done | | |].
  - exists gone. split; [| done]. apply (Permutation_app_inv_r (concat (_q tq'))).
    rewrite Hperm, Hcat. symmetry. apply filter_app_complement.
  - intros [_ _ Hf]. rewrite Forall_forall in Hf.
    assert (forall to, to ∈ concat (_q tq) -> handled (_old_clock tq) now to <-> _wakeup to <= now) as Hall
      by (intros to Hto; apply handled_due; [lia | left; auto]).
    split; [by apply Hfut | exact Hall].
  - intros H7. assert (forall to, handled (_old_clock tq) now to <-> _wakeup to <= now) as Hall
      by (intros to; apply handled_due; [lia | by right]).
    split; [by apply Hfut | exact Hall].
Qed.

(** ** Insertion and the programmed timer *)

Lemma insert_sorted l to :
  StronglySorted by_wakeup l -> StronglySorted by_wakeup (insert l to) /\ insert l to ≡ₚ to :: l.
Proof.
  unfold insert. induction 1 as [|x l Hs [IH1 IH2] Hall]; cbn [take_while drop_while app]; [by repeat constructor |].
  destruct (Z.ltb_spec (_wakeup x) (_wakeup to)) as [Hlt | Hge]; cbn [app].
  - split; [| rewrite IH2; apply perm_swap]. constructor; [done |]. rewrite IH2.
    constructor; [unfold by_wakeup; lia | done].
  - split; [| done]. constructor; [by constructor |]. constructor; [done |].
    eapply Forall_impl; [exact Hall |]. unfold by_wakeup. simpl. intros; lia.
Qed.

Lemma concat_insert_same {A} (q : list (list A)) i l l' x :
  q !! i = Some l -> l' ≡ₚ x :: l -> concat (<[i := l']> q) ≡ₚ x :: concat q.
Proof.
  revert i. induction q as [|y q IH]; intros [|i] Hi Hl; simpl in *; try done.
  - injection Hi as ->. by rewrite Hl.
  - rewrite (IH _ Hi Hl). symmetry. apply Permutation_middle.
Qed.

Definition enqueued (to : Timeout.t) (tq : t) : t :=
  let queue := (_wakeup to >> Wakeup_queue_distance) .& (Wakeup_queue_count - 1) in
  set_first queue (insert (first tq queue) to) tq.

Lemma enqueued_ok to tq :
  lists_ok tq -> 0 <= _wakeup to < 2 ^ 64 ->
  lists_ok (enqueued to tq) /\ concat (_q (enqueued to tq)) ≡ₚ to :: concat (_q tq).
Proof.
  intros [Hlen Hl] Hw. unfold enqueued. rewrite shift_slot, land7. set (k := slot (_wakeup to) mod 8).
  assert (0 <= k < 8) as Hk by (apply Z.mod_pos_bound; lia).
  assert (index k = Z.to_nat k) as Ei by (unfold index; rewrite land7, Z.mod_small by lia; done).
  unfold set_first, first. rewrite Ei. cbn [_q].
  destruct (lookup_lt_is_Some_2 (_q tq) (Z.to_nat k)) as [l El]; [lia |].
  rewrite (list_lookup_total_correct _ _ _ El). destruct (Hl _ _ El) as [Hso Hsl].
  destruct (insert_sorted l to Hso) as [Hi Hp].
  pose proof (concat_insert_same _ _ _ _ _ El Hp) as Hcat. split; [| exact Hcat]. split; cbn [_q _old_clock].
  - by rewrite length_insert.
  - intros j lj Hj. destruct (decide (j = Z.to_nat k)) as [-> | Hne].
    + rewrite list_lookup_insert_eq in Hj by lia. injection Hj as <-. split; [done |]. rewrite Hp.
      constructor; [| done]. split; [done |]. fold k. lia.
    + rewrite list_lookup_insert_ne in Hj by done. by apply Hl.
Qed.

Lemma next_timeout_le tq m :
  lists_ok tq -> next_timeout tq m <= m /\ Forall (fun to => next_timeout tq m <= _wakeup to) (concat (_q tq)).
Proof.
  intros [Hlen Hl].
  set (f := fun next i => match first tq (Z.of_nat i) with
                          | [] => next | to :: _ => if _wakeup to <? next then _wakeup to else next end).
  assert (forall js m, foldl f m js <= m) as Hmono.
  { induction js as [|i js IH]; intros m'; cbn [foldl]; [lia |]. specialize (IH (f m' i)).
    assert (f m' i <= m') by (unfold f; destruct (first _ _); [lia | case_cmp; lia]). lia. }
  assert (forall js m i to l, i ∈ js -> first tq (Z.of_nat i) = to :: l -> foldl f m js <= _wakeup to) as Hle.
  { induction js as [|j js IH]; intros m' i to l Hi Ht; [by apply elem_of_nil in Hi |].
    cbn [foldl]. apply elem_of_cons in Hi as [<- | Hi]; [| by eapply IH].
    specialize (Hmono js (f m' i)). assert (f m' i <= _wakeup to) by (unfold f; rewrite Ht; case_cmp; lia). lia. }
  split; [apply Hmono |]. apply Forall_forall. intros to (l & Hin & Hto)%list_elem_of_In%in_concat.
  apply list_elem_of_In in Hin, Hto. apply list_elem_of_lookup in Hin as [i Hi].
  assert (i < 8)%nat as Hi8 by (rewrite <- Hlen; by eapply lookup_lt_Some).
  assert (first tq (Z.of_nat i) = l) as Ef.
  { unfold first. assert (index (Z.of_nat i) = i) as -> by (unfold index; rewrite land7, Z.mod_small by lia; lia).
    by apply list_lookup_total_correct. }
  destruct l as [|h l]; [by apply elem_of_nil in Hto |].
  apply Z.le_trans with (_wakeup h); [eapply (Hle _ _ i); [apply elem_of_seq; lia | exact Ef] |].
  destruct (Hl _ _ Hi) as [Hs _]. apply elem_of_cons in Hto as [-> | Hto]; [lia |].
  inversion Hs as [| ? ? _ Hall]; subst. rewrite Forall_forall in Hall. by apply Hall.
Qed.

(** The timer is never programmed later than a queued timeout needs, except
    that two interrupts keep the minimal distance. *)
Definition timely (tq : t) : Prop :=
  Scheduler_one_shot = true ->
  _old_clock tq + One_shot_min_interval_us <= _current tq
  /\ Forall (fun to => _current tq <= Z.max (_wakeup to) (_old_clock tq + One_shot_min_interval_us))
       (concat (_q tq)).

(** A timeout queued in a slot that had passed at the last run. *)
Definition late (tq : t) (to : Timeout.t) : Prop := slot (_wakeup to) < slot (_old_clock tq).

(** The steps of a queue, with the timeouts that were late when they were
    queued: those that [set_again] queues anew after a migration keep their
    wakeup time, and no caller compares it with the last run. *)
Definition note_late (to : Timeout.t) (tq : t) (was : list Timeout.t) : list Timeout.t :=
  if slot (_wakeup to) <? slot (_old_clock tq) then to :: was else was.

Inductive step : t * list Timeout.t -> t * list Timeout.t -> Prop :=
| step_set tq was i clock :
    0 <= clock < 2 ^ 64 -> step (tq, was) (set i clock tq, note_late (mk i clock) tq was)
| step_set_again tq was i wakeup :
    0 <= wakeup < 2 ^ 64 -> step (tq, was) (set_again i wakeup tq, note_late (mk i wakeup) tq was)
| step_reset tq was i : step (tq, was) (reset i tq, was)
| step_timeouts tq was now :
    _old_clock tq <= now < 2 ^ 63 -> slot now - slot (_old_clock tq) < 2 ^ 31 ->
    step (tq, was) (snd (do_timeouts now tq), was).

Record inv (tq : t) (was : list Timeout.t) : Prop := {
  inv_lists : lists_ok tq;
  inv_clock : 0 <= _old_clock tq < 2 ^ 63;
  inv_late : Forall (fun to => ~ late tq to \/ to ∈ was) (concat (_q tq));
  inv_timely : timely tq }.

Hypothesis min_interval : 0 <= One_shot_min_interval_us < 2 ^ 62.

Lemma program_timer_current timeout tq :
  0 <= _old_clock tq < 2 ^ 63 ->
  _current (program_timer timeout tq) = Z.max timeout (_old_clock tq + One_shot_min_interval_us).
Proof.
  intros Hc. unfold program_timer. cbn [_current]. unfold wrap. rewrite Z.mod_small by lia. case_cmp; lia.
Qed.

Lemma enqueue_keeps to tq : exists c, enqueue to tq = mkq (_q (enqueued to tq)) c (_old_clock tq) (hit tq).
Proof.
  unfold enqueue. fold (enqueued to tq). destruct (negb _); [by eexists |]. by destruct (_ <? _); eexists.
Qed.

Lemma note_late_spec to tq was x : x ∈ was \/ (x = to /\ late tq to) <-> x ∈ note_late to tq was.
Proof.
  unfold note_late, late. destruct (Z.ltb_spec (slot (_wakeup to)) (slot (_old_clock tq))); [rewrite elem_of_cons; naive_solver |].
  split; [intros [? | [_ ?]]; [done | lia] | by left].
Qed.

Lemma enqueue_inv tq was to :
  inv tq was -> 0 <= _wakeup to < 2 ^ 64 -> inv (enqueue to tq) (note_late to tq was).
Proof.
  intros [Hok Hc Hp Ht] Hw. destruct (enqueued_ok to tq Hok Hw) as [Hok' Hcat].
  assert (Forall (fun x => ~ late tq x \/ x ∈ note_late to tq was) (concat (_q (enqueued to tq)))) as Hp'.
  { rewrite Hcat. constructor.
    - destruct (Z.lt_ge_cases (slot (_wakeup to)) (slot (_old_clock tq))) as [Hl | Hl]; [right | left; unfold late; lia].
      apply note_late_spec. by right.
    - eapply Forall_impl; [exact Hp |]. intros x [? | Hx]; [by left | right]. apply note_late_spec. by left. }
  destruct (enqueue_keeps to tq) as [c Ec].
  split; [rewrite Ec; by destruct Hok' | by rewrite Ec | by rewrite Ec |].
  unfold timely in *. intros Eos. specialize (Ht Eos) as [Ht1 Ht2]. unfold enqueue. fold (enqueued to tq). rewrite Eos. cbn [negb].
  destruct (Z.ltb_spec (_wakeup to) (_current (enqueued to tq))) as [Hlt | Hge].
  - rewrite program_timer_current by done.
    cbn [program_timer _old_clock _q]. rewrite Hcat. change (_old_clock (enqueued to tq)) with (_old_clock tq).
    change (_current (enqueued to tq)) with (_current tq) in Hlt. split; [lia |]. constructor; [lia |].
    eapply Forall_impl; [exact Ht2 |]. simpl. intros; lia.
  - rewrite Hcat. change (_current (enqueued to tq)) with (_current tq) in *.
    change (_old_clock (enqueued to tq)) with (_old_clock tq). split; [done |]. constructor; [lia | done].
Qed.

Lemma inv_note tq was to : inv tq was -> inv tq (note_late to tq was).
Proof.
  intros [? ? Hp ?]. split; try done. eapply Forall_impl; [exact Hp |].
  intros x [? | Hx]; [by left | right]. apply note_late_spec. by left.
Qed.

Lemma reset_inv tq was i : inv tq was -> inv (reset i tq) was.
Proof.
  intros [Hok Hc Hp Ht].
  assert (_q (reset i tq) = filter (fun to => id to <> i) <$> _q tq) as Eq by done.
  pose proof (concat_filter (fun to => id to <> i) (_q tq)) as Ec. rewrite <- Eq in Ec.
  split; [by eapply filtered_ok | done | |].
  - rewrite Ec. rewrite Forall_forall in *. intros to [_ Hto]%list_elem_of_filter. by apply Hp.
  - intros Eos. destruct (Ht Eos) as [Ht1 Ht2]. split; [done |]. rewrite Ec, Forall_forall in *.
    intros to [_ Hto]%list_elem_of_filter. by apply Ht2.
Qed.

Lemma do_timeouts_current tq now :
  Scheduler_one_shot = true -> let tq' := snd (do_timeouts now tq) in
  0 <= _old_clock tq' < 2 ^ 63 ->
  exists m, _current tq' = Z.max (next_timeout tq' m) (_old_clock tq' + One_shot_min_interval_us).
Proof.
  intros Eos. unfold do_timeouts. destruct (bounds _ _) as [start last].
  destruct (scan_loop _ _ _ _ _ _) as [r tq1]. cbn [snd]. unfold update_timer_max_oneshot, update_timer.
  rewrite Eos. cbn [negb]. intros Hc.
  exists (wrap 64 (now + (if rcu_idle then One_shot_max_interval_us else Rcu_grace_period))).
  by rewrite program_timer_current.
Qed.

(** What the handler leaves although it is due was late before. *)
Lemma left_late old now tq to : _old_clock tq = old -> slot old <= slot now -> ~ handled old now to ->
  slot (_wakeup to) < slot now -> late tq to.
Proof.
  intros <- Hd Hn Hs. unfold late. apply Z.nle_gt. intros Hle. apply Hn, handled_due; [lia | by left |].
  apply Z.lt_le_incl, Z.nle_gt. intros Hge. apply (Z.lt_irrefl (slot now)), (Z.le_lt_trans _ (slot (_wakeup to))); [| done].
  apply Z.div_le_mono; lia.
Qed.

Lemma do_timeouts_inv tq was now :
  inv tq was -> _old_clock tq <= now < 2 ^ 63 -> slot now - slot (_old_clock tq) < 2 ^ 31 ->
  inv (snd (do_timeouts now tq)) was.
Proof.
  intros [Hok Hc Hp Ht] Hn Hd. assert (slot (_old_clock tq) <= slot now) by (apply Z.div_le_mono; lia).
  destruct (do_timeouts_lists now tq Hok) as [gone Hg]; [lia | lia |].
  pose proof (do_timeouts_current tq now) as Hcur.
  destruct (do_timeouts now tq) as [r tq']. destruct Hg as (Eq & _ & _ & _ & Hcl). cbn [snd] in *.
  pose proof (filtered_ok _ _ _ Hok Eq) as Hok'. split; [done | lia | |].
  - rewrite Eq, concat_filter. rewrite Forall_forall in *. intros to [Hh Hto]%list_elem_of_filter.
    destruct (Z.lt_ge_cases (slot (_wakeup to)) (slot now)) as [Hl | Hl]; [right | left; unfold late; rewrite Hcl; lia].
    destruct (Hp to Hto) as [Hlate |]; [| done]. destruct Hlate. by eapply left_late.
  - intros Eos. destruct (Hcur Eos ltac:(lia)) as (m & ->).
    destruct (next_timeout_le tq' m Hok') as [_ Hle]. split; [lia |].
    eapply Forall_impl; [exact Hle |]. simpl. intros; lia.
Qed.

Lemma make_inv : inv make [].
Proof.
  split; [| cbn; lia | cbn; constructor |].
  - split; [done |]. intros i l Hi. cbn in Hi. apply (lookup_replicate_1 8) in Hi as [-> _]. by repeat constructor.
  - intros _. split; [cbn; unfold ULLONG_MAX; lia | cbn; constructor].
Qed.

Lemma timeouts_step_inv a b : step a b -> inv a.1 a.2 -> inv b.1 b.2.
Proof.
  intros [] Hi; cbn [fst snd] in *; [by apply enqueue_inv | | by apply reset_inv | by apply do_timeouts_inv].
  unfold set_again. destruct (existsb _ _); [by apply inv_note | by apply enqueue_inv].
Qed.

Lemma timeouts_reachable_inv tq was : rtc step (make, []) (tq, was) -> inv tq was.
Proof.
  intros Hs. change (inv (tq, was).1 (tq, was).2). assert (inv (make, @nil Timeout.t).1 (make, @nil Timeout.t).2) as H0 by apply make_inv.
  revert H0. induction Hs as [|a b c Hab _ IH]; [done |]. intros Hi. by eapply IH, timeouts_step_inv.
Qed.

(** C35: whatever sequence of [set], [set_again], [reset] and handler runs: the
    timer is programmed no later than any queued timeout requires, but never
    closer to the last run than the minimal interval; the lists stay sorted,
    with every timeout in the list of its slot; and none is from a slot before
    the last run but those queued when their slot had passed already. *)
Theorem timeouts_reachable tq was :
  rtc step (make, []) (tq, was) ->
  lists_ok tq /\ timely tq /\ (forall to, to ∈ concat (_q tq) -> to ∉ was -> slot (_old_clock tq) <= slot (_wakeup to))
  /\ (was = [] -> ok tq).
Proof.
  intros Hs. destruct (timeouts_reachable_inv _ _ Hs) as [Hl _ Hp Ht].
  rewrite Forall_forall in Hp. unfold late in Hp.
  assert (forall to, to ∈ concat (_q tq) -> to ∉ was -> slot (_old_clock tq) <= slot (_wakeup to)) as Hf
    by (intros to Hto Hw; destruct (Hp to Hto); [lia | done]).
  split_and!; [done | done | done |]. intros ->. destruct Hl as [Hlen Hls].
  split; [done | done |]. apply Forall_forall. intros to Hto. apply Hf; [done | apply not_elem_of_nil].
Qed.

End proofs.

(** ** A concrete run: one timeout in the current slot, one nine slots later
    in the list next to it, and a handler run between them. *)
Module Timeout_witness.
Import Timeout Timeout_q.

#[local] Instance env : Timeout_env :=
  {| Scheduler_one_shot := true; One_shot_min_interval_us := 200; One_shot_max_interval_us := 10000;
     Rcu_grace_period := 2000; rcu_idle := true; expired i := i =? 1 |}.

Definition tq : t := enqueue (mk 2 40000) (enqueue (mk 1 3000) make).

(** Closed comparisons of numbers. *)
Ltac compute_cmp := repeat split; vm_compute; first [reflexivity | discriminate].

Lemma tq_reachable : rtc step (make, []) (tq, []).
Proof.
  eapply rtc_l; [apply (step_set make [] 1 3000); compute_cmp |].
  eapply rtc_l; [apply (step_set _ _ 2 40000); compute_cmp |]. apply rtc_refl.
Qed.

Lemma timeouts_reachable_witness : ok tq /\ timely tq /\ _current tq = 3000.
Proof.
  destruct (timeouts_reachable ltac:(compute_cmp) tq [] tq_reachable) as (_ & H2 & _ & H1).
  split; [exact (H1 eq_refl) | split; [exact H2 | reflexivity]].
Defined.

Lemma tq_ok : lists_ok tq.
Proof. exact (inv_lists _ _ (timeouts_reachable_inv ltac:(compute_cmp) _ _ tq_reachable)). Qed.

Lemma do_timeouts_exact_witness :
  let '(r, tq') := do_timeouts 5000 tq in
  r = true /\ hit tq' = [1] /\ concat (_q tq') = [mk 2 40000].
Proof.
  pose proof (do_timeouts_exact 5000 tq tq_ok ltac:(compute_cmp) ltac:(compute_cmp)) as T.
  assert (fst (do_timeouts 5000 tq) = true) as E1 by (vm_compute; reflexivity).
  assert (hit (snd (do_timeouts 5000 tq)) = [1]) as E2 by (vm_compute; reflexivity).
  destruct (do_timeouts 5000 tq) as [r tq']. destruct T as (_ & E & _).
  split; [exact E1 | split; [exact E2 |]]. rewrite E. reflexivity.
Defined.

(** A thread waits with a timeout at 3000 and is migrated: its timeout leaves
    the queue and comes back after the handler has run at 9000, with the old
    wakeup time.  The run at 9500 looks at the list of its own slot only: the
    timeout is due and stays, and the timer is programmed for the next possible
    time over and over, until a run reaches the slot whose list it is in, up to
    28 ms later. *)
Definition migrated : t := set_again 1 3000 (snd (do_timeouts 9000 (reset 1 (set 1 3000 make)))).

Lemma migrated_reachable : rtc step (make, []) (migrated, [mk 1 3000]).
Proof.
  eapply rtc_l; [apply (step_set make [] 1 3000); compute_cmp |].
  eapply rtc_l; [apply (step_reset _ _ 1) |].
  eapply rtc_l; [apply (step_timeouts _ _ 9000); compute_cmp |].
  eapply rtc_l; [apply (step_set_again _ _ 1 3000); compute_cmp |]. apply rtc_refl.
Qed.

Theorem set_again_missed :
  rtc step (make, []) (migrated, [mk 1 3000])
  /\ (let tq' := snd (do_timeouts 9500 migrated) in hit tq' = [] /\ concat (_q tq') = [mk 1 3000] /\ _current tq' = 9700)
  /\ (forall now, 8 <= slot now < 2 ^ 31 -> hit (snd (do_timeouts now migrated)) = [1]).
Proof.
  split_and!; [exact migrated_reachable | vm_compute; done |].
  intros now Hn. assert (slot (_old_clock migrated) = 2) as Eo by reflexivity.
  pose proof (inv_lists _ _ (timeouts_reachable_inv ltac:(compute_cmp) _ _ migrated_reachable)) as Hl.
  destruct (do_timeouts_lists now migrated Hl ltac:(compute_cmp)) as [gone Hg]; [rewrite Eo; lia |].
  destruct (do_timeouts now migrated) as [r tq']. destruct Hg as (Eq & Hp & Hh & _). cbn [snd]. rewrite Hh.
  assert (concat (_q tq') = filter (fun to => ~ handled (_old_clock migrated) now to) [mk 1 3000]) as Ec by (by rewrite Eq, concat_filter).
  rewrite filter_none in Ec.
  + rewrite Ec, app_nil_r in Hp. change (concat (_q migrated)) with [mk 1 3000] in Hp.
    apply Permutation_singleton_r in Hp as ->. reflexivity.
  + constructor; [| done]. intros Hn'. apply Hn'. unfold handled. rewrite Eo. split; [|change ((slot (_wakeup (mk 1 3000)) - 2) mod 8) with 6; lia].
    cbn [_wakeup]. pose proof (Z.mul_div_le now 4096). unfold slot in Hn. lia.
Qed.

End Timeout_witness.
