(* ===== verification/ReadyQueue.v ===== *)
(** The fixed-priority scheduler: [src/src/kern/ready_queue_fp.h] and
    [sched_context_fp.h].

    One ring of ready scheduling contexts per priority, a two-level bitmap of
    the priorities whose ring is not empty, and the highest of them.  A ring,
    [cxx::Sd_list], is the list from its head on; a scheduling context is an
    address and [store] holds its fields.  A context is in a ready list when its
    ring pointer is set, that is, when it is in one of the rings. *)

From S2P Require Import Prelude L4Types.

(** ** Hierarchical_bitmap<256> *)
Module Hierarchical_bitmap.
Section ops.
Context `{Arch}.

Definition Root_bits : Z := 32.
Definition Num_words : Z := (256 + MWORD_BITS - 1) / MWORD_BITS.

Record t := mk { _root : Z; _leaves : list Z }.

Definition make : t := mk 0 (replicate (Z.to_nat Num_words) 0).

Definition leaf (b : t) (w : Z) : Z := _leaves b !!! Z.to_nat w.

Definition clear (bit : Z) (m : t) : t :=
  let w := bit / MWORD_BITS in
  let b := bit mod MWORD_BITS in
  let l := leaf m w .& mnot (mshl 1 b) in
  let leaves := <[Z.to_nat w := l]> (_leaves m) in
  mk (if l =? 0 then _root m .& wrap 32 (Z.lnot (wrap 32 (1 << w))) else _root m) leaves.

Definition set (bit : Z) (m : t) : t :=
  let w := bit / MWORD_BITS in
  let b := bit mod MWORD_BITS in
  mk (_root m .| wrap 32 (1 << w)) (<[Z.to_nat w := leaf m w .| mshl 1 b]> (_leaves m)).

(** [__builtin_clz] for a nonzero word of the given width *)
Definition clz (width x : Z) : Z := width - 1 - Z.log2 x.

Definition find_highest_bit (m : t) : Z :=
  if _root m =? 0 then 0
  else
    let w := Root_bits - clz Root_bits (_root m) - 1 in
    let b := MWORD_BITS - clz MWORD_BITS (leaf m w) - 1 in
    w * MWORD_BITS + b.

End ops.
End Hierarchical_bitmap.

(** ** Sched_context *)
Module Sched_context.
Section ops.
Context `{Arch} (Default_time_slice : Z).

Definition Kernel_prio : Z := 0.
Definition Default_prio : Z := 1.

Record t := mk { _prio : Z; _quantum : Z; _left : Z }.

Definition make : t := mk Default_prio Default_time_slice Default_time_slice.

Definition set_left (left : Z) (sc : t) : t := mk (_prio sc) (_quantum sc) left.
Definition replenish (sc : t) : t := set_left (_quantum sc) sc.
Definition dominates (sc other : t) : bool := _prio sc >? _prio other.

(** [L4_sched_param_fixed_prio::Class] *)
Definition Fixed_prio_class : Z := -1.
Definition sched_classes : Z := mshl 1 (- Fixed_prio_class).

Definition check_param (sizeof_fixed_prio : Z) (p : L4_sched_param.t) : Z :=
  if L4_sched_param.sched_class p =? Fixed_prio_class
  then if negb (L4_sched_param.check_length p sizeof_fixed_prio) then - L4_err.val L4_err.EInval else 0
  else if negb (L4_sched_param.is_legacy p) then - L4_err.val L4_err.ERange else 0.

(** [set]: [None] is the assertion of a missing [check_param].  A legacy
    parameter has its priority and quantum where the others have class and
    length. *)
Definition set (p : L4_sched_param.t) (sc : t) : option t :=
  let with_params prio quantum :=
    mk (if prio >? 255 then 255 else wrap 16 prio)
       (if quantum =? 0 then Default_time_slice else quantum) (_left sc) in
  if L4_sched_param.is_legacy p
  then Some (with_params (L4_sched_param.sched_class p) (L4_sched_param.length p))
  else if L4_sched_param.sched_class p =? Fixed_prio_class
  then Some (with_params (L4_sched_param.prio p) (L4_sched_param.quantum p))
  else None.

End ops.
End Sched_context.

(** ** Ready_queue_fp *)
Module Ready_queue.
Abbreviation store := (gmap Z Sched_context.t).

Section ops.
Context `{Arch}.

Record t := mk {
  prio_highest : Z;
  prio_bmap : Hierarchical_bitmap.t;
  prio_next : list (list Z);
  _current_sched : option Z }.

Definition make : t := mk 0 Hierarchical_bitmap.make (replicate 256 []) None.

Definition ring (q : t) (p : Z) : list Z := prio_next q !!! Z.to_nat p.
Definition set_ring (p : Z) (l : list Z) (q : t) : t :=
  mk (prio_highest q) (prio_bmap q) (<[Z.to_nat p := l]> (prio_next q)) (_current_sched q).

Definition prio (s : store) (i : Z) : Z :=
  match s !! i with Some sc => Sched_context._prio sc | None => 0 end.

Definition in_ready_list (q : t) (i : Z) : bool := existsb (existsb (Z.eqb i)) (prio_next q).

Definition set_idle (s : store) (i : Z) : store :=
  alter (fun sc => Sched_context.mk Sched_context.Kernel_prio (Sched_context._quantum sc)
                     (Sched_context._left sc)) i s.

(** [Sd_list::push]: before the head; at the front the head moves to it. *)
Definition push (front : bool) (l : list Z) (i : Z) : list Z := if front then i :: l else l ++ [i].

Definition enqueue (s : store) (i : Z) (is_current_sched : bool) (q : t) : t :=
  if in_ready_list q i then q
  else
    let p := prio s i in
    mk (if p >? prio_highest q then p else prio_highest q)
       (Hierarchical_bitmap.set p (prio_bmap q))
       (<[Z.to_nat p := push is_current_sched (ring q p) i]> (prio_next q)) (_current_sched q).

Definition dequeue (s : store) (i : Z) (q : t) : t :=
  if negb (in_ready_list q i) then q
  else
    let p := prio s i in
    let l := filter (fun x => x <> i) (ring q p) in
    let q := set_ring p l q in
    match l with
    | [] => let bm := Hierarchical_bitmap.clear p (prio_bmap q) in
            mk (Hierarchical_bitmap.find_highest_bit bm) bm (prio_next q) (_current_sched q)
    | _ => q
    end.

Definition next_to_run (q : t) : option Z := head (ring q (prio_highest q)).

(** [rotate_to] the successor of [i] *)
Definition rotate_behind (l : list Z) (i : Z) : list Z :=
  match drop_while (fun x => negb (x =? i)) l with
  | _ :: b => b ++ take_while (fun x => negb (x =? i)) l ++ [i]
  | [] => l
  end.

Definition requeue (s : store) (i : Z) (q : t) : t :=
  if negb (in_ready_list q i) then enqueue s i false q
  else set_ring (prio s i) (rotate_behind (ring q (prio s i)) i) q.

Definition deblock_refill (i : Z) (q : t) : t := q.

(** [Ready_queue_base] *)
Definition activate (i : Z) (q : t) : t := mk (prio_highest q) (prio_bmap q) (prio_next q) (Some i).
Definition current_sched (q : t) : option Z := _current_sched q.

End ops.
End Ready_queue.

(** * Properties *)

Section bitmap.
Context `{Arch}.
Import Hierarchical_bitmap.

Definition member (m : t) (bit : Z) : bool := Z.testbit (leaf m (bit / MWORD_BITS)) (bit mod MWORD_BITS).

(** Words are in range and a root bit tells whether the leaf has bits. *)
Record bm_ok (m : t) : Prop := {
  bm_len : length (_leaves m) = Z.to_nat Num_words;
  bm_root : in_range 32 (_root m);
  bm_leaf : forall w, 0 <= w < Num_words -> is_mword (leaf m w);
  bm_agree : forall w, 0 <= w -> Z.testbit (_root m) w = (w <? Num_words) && negb (leaf m w =? 0) }.

Lemma num_words : Num_words = 8 \/ Num_words = 4.
Proof. unfold Num_words. destruct MWORD_BITS_ok as [-> | ->]; [left | right]; reflexivity. Qed.

Lemma num_words_bits : Num_words * MWORD_BITS = 256.
Proof. unfold Num_words. destruct MWORD_BITS_ok as [-> | ->]; reflexivity. Qed.

Lemma word_of bit : 0 <= bit < 256 -> 0 <= bit / MWORD_BITS < Num_words /\ 0 <= bit mod MWORD_BITS < MWORD_BITS.
Proof.
  intros Hb. pose proof arch_pos. pose proof num_words_bits. split; [| by apply Z.mod_pos_bound].
  split; [apply Z.div_pos; lia | apply Z.div_lt_upper_bound; lia].
Qed.

Lemma leaf_insert m r w l w' :
  bm_ok m -> 0 <= w < Num_words -> 0 <= w' ->
  leaf (mk r (<[Z.to_nat w := l]> (_leaves m))) w' = if w' =? w then l else leaf m w'.
Proof.
  intros Hm Hw Hw'. unfold leaf. cbn [_leaves]. pose proof (bm_len _ Hm). destruct (Z.eqb_spec w' w) as [-> | Hne].
  - apply list_lookup_total_insert_eq. lia.
  - apply list_lookup_total_insert_ne. lia.
Qed.

Lemma testbit_one_shift w n : 0 <= w -> 0 <= n -> Z.testbit (1 << w) n = (n =? w).
Proof.
  intros. rewrite Z.shiftl_1_l. destruct (Z.eqb_spec n w) as [-> | ?].
  - apply Z.pow2_bits_true. lia.
  - apply Z.pow2_bits_false. lia.
Qed.

Lemma set_ok m bit : bm_ok m -> 0 <= bit < 256 -> bm_ok (set bit m).
Proof.
  intros Hm Hb. destruct (word_of bit Hb) as [Hw Hbit]. pose proof num_words as Hn. pose proof arch_ge32.
  unfold set. set (w := bit / MWORD_BITS) in *. set (b := bit mod MWORD_BITS) in *. split; cbn [_root _leaves].
  - rewrite length_insert. apply Hm.
  - apply in_range_lor; [lia | apply Hm |]. apply wrap_range. lia.
  - intros w' Hw'. rewrite leaf_insert by (done || lia). destruct (Z.eqb_spec w' w); [| by apply Hm].
    apply in_range_lor; [lia | by apply Hm | apply mwrap_range].
  - intros w' Hw'. rewrite leaf_insert by (done || lia). rewrite Z.lor_spec, (bm_agree _ Hm) by done.
    rewrite testbit_wrap, testbit_one_shift by lia. destruct (Z.eqb_spec w' w) as [-> | Hne].
    + destruct (Z.ltb_spec w 32); [| lia]. destruct (Z.ltb_spec w Num_words); [| lia].
      rewrite orb_true_r. cbn. symmetry. apply negb_true_iff, Z.eqb_neq. intros E.
      assert (Z.testbit (leaf m w .| mshl 1 b) b = true) as Hb'
        by (rewrite Z.lor_spec, testbit_mshl, Z.sub_diag by lia; case_cmp; by rewrite orb_true_r).
      by rewrite E, Z.bits_0 in Hb'.
    + by rewrite andb_false_r, orb_false_r.
Qed.

Lemma member_set m bit x :
  bm_ok m -> 0 <= bit < 256 -> 0 <= x < 256 -> member (set bit m) x = (x =? bit) || member m x.
Proof.
  intros Hm Hb Hx. destruct (word_of bit Hb) as [Hw Hbit], (word_of x Hx) as [Hxw Hxb]. pose proof arch_pos.
  unfold member, set. rewrite leaf_insert by (done || lia).
  assert (MWORD_BITS <> 0) as Hn0 by lia.
  pose proof (Z.div_mod bit _ Hn0). pose proof (Z.div_mod x _ Hn0) as Hd.
  destruct (Z.eqb_spec (x / MWORD_BITS) (bit / MWORD_BITS)) as [E | E].
  - rewrite Z.lor_spec, testbit_mshl by lia. rewrite E in Hd |- *.
    destruct (Z.ltb_spec (x mod MWORD_BITS) MWORD_BITS); [| lia]. cbn [andb].
    destruct (Z.eqb_spec x bit) as [-> | Hne].
    + rewrite Z.sub_diag. cbn. by rewrite orb_true_r.
    + destruct (Z.lt_ge_cases (x mod MWORD_BITS) (bit mod MWORD_BITS)).
      * rewrite (Z.testbit_neg_r 1) by lia. by rewrite orb_false_r.
      * rewrite (testbit_high 1 1) by (unfold in_range; lia). by rewrite orb_false_r.
  - destruct (Z.eqb_spec x bit) as [-> | ?]; done.
Qed.

Lemma clear_ok m bit : bm_ok m -> 0 <= bit < 256 -> bm_ok (clear bit m).
Proof.
  intros Hm Hb. destruct (word_of bit Hb) as [Hw Hbit]. pose proof num_words as Hn. pose proof arch_ge32.
  unfold clear. set (w := bit / MWORD_BITS) in *. set (b := bit mod MWORD_BITS) in *.
  set (l := leaf m w .& mnot (mshl 1 b)). split; cbn [_root _leaves].
  - rewrite length_insert. apply Hm.
  - destruct (l =? 0); [apply in_range_land_l; [lia |] |]; apply Hm.
  - intros w' Hw'. rewrite leaf_insert by (done || lia). destruct (Z.eqb_spec w' w); [| by apply Hm].
    apply in_range_land_l; [lia | by apply Hm].
  - intros w' Hw'. rewrite leaf_insert by (done || lia).
    destruct (Z.eqb_spec w' w) as [-> | Hne].
    + destruct (Z.ltb_spec w Num_words); [| lia]. destruct (Z.eqb_spec l 0) as [El | El]; cbn [andb negb].
      * rewrite Z.land_spec, testbit_wrap, Z.lnot_spec, testbit_wrap, testbit_one_shift by lia.
        rewrite Z.eqb_refl. destruct (w <? 32); by rewrite ?andb_false_r.
      * rewrite (bm_agree _ Hm) by lia. destruct (Z.ltb_spec w Num_words); [| lia]. cbn.
        apply negb_true_iff, Z.eqb_neq. intros E. apply El. unfold l. by rewrite E.
    + rewrite <- (bm_agree _ Hm) by done. destruct (l =? 0); [| done].
      rewrite Z.land_spec, testbit_wrap, Z.lnot_spec, testbit_wrap, testbit_one_shift by lia.
      rewrite (proj2 (Z.eqb_neq w' w)) by done. rewrite andb_false_r. cbn. rewrite andb_true_r.
      by rewrite (testbit_bound 32 (_root m)) at 2 by apply Hm; rewrite andb_comm.
Qed.

Lemma member_clear m bit x :
  bm_ok m -> 0 <= bit < 256 -> 0 <= x < 256 -> member (clear bit m) x = negb (x =? bit) && member m x.
Proof.
  intros Hm Hb Hx. destruct (word_of bit Hb) as [Hw Hbit], (word_of x Hx) as [Hxw Hxb]. pose proof arch_pos.
  unfold member, clear. rewrite leaf_insert by (done || lia).
  assert (MWORD_BITS <> 0) as Hn0 by lia.
  pose proof (Z.div_mod bit _ Hn0). pose proof (Z.div_mod x _ Hn0) as Hd.
  destruct (Z.eqb_spec (x / MWORD_BITS) (bit / MWORD_BITS)) as [E | E].
  - rewrite Z.land_spec, testbit_mnot, testbit_mshl by lia. rewrite E in Hd |- *.
    destruct (Z.ltb_spec (x mod MWORD_BITS) MWORD_BITS); [| lia]. cbn [andb].
    destruct (Z.eqb_spec x bit) as [-> | Hne].
    + rewrite Z.sub_diag. cbn. by rewrite andb_false_r.
    + destruct (Z.lt_ge_cases (x mod MWORD_BITS) (bit mod MWORD_BITS)).
      * rewrite (Z.testbit_neg_r 1) by lia. by rewrite andb_true_r.
      * rewrite (testbit_high 1 1) by (unfold in_range; lia). by rewrite andb_true_r.
  - destruct (Z.eqb_spec x bit) as [-> | ?]; done.
Qed.

(** The highest member, or 0 of an empty bitmap. *)
Lemma find_highest_spec m :
  bm_ok m ->
  let h := find_highest_bit m in
  0 <= h < 256 /\ (forall x, h < x < 256 -> member m x = false)
  /\ (member m h = true \/ h = 0 /\ forall x, 0 <= x < 256 -> member m x = false).
Proof.
  intros Hm. unfold find_highest_bit. pose proof num_words as Hn. pose proof num_words_bits as Hnb.
  pose proof arch_pos.
  assert (forall x, 0 <= x < 256 -> leaf m (x / MWORD_BITS) = 0 -> member m x = false) as Hzero
    by (intros x Hx E; unfold member; by rewrite E, Z.bits_0).
  destruct (Z.eqb_spec (_root m) 0) as [Hr | Hr]; cbv zeta.
  { assert (forall x, 0 <= x < 256 -> member m x = false) as Hno.
    { intros x Hx. apply Hzero; [done |]. destruct (word_of x Hx) as [Hw _].
      pose proof (bm_agree _ Hm _ (proj1 Hw)) as Ha. rewrite Hr, Z.bits_0 in Ha.
      destruct (Z.ltb_spec (x / MWORD_BITS) Num_words); [| lia]. cbn in Ha.
      symmetry in Ha. by apply negb_false_iff, Z.eqb_eq in Ha. }
    split_and!; [lia | lia | intros x ?; apply Hno; lia | by right]. }
  destruct (bm_root _ Hm) as [Hr0 Hr1].
  set (w := Root_bits - clz Root_bits (_root m) - 1).
  assert (w = Z.log2 (_root m)) as Ew by (unfold w, clz, Root_bits; lia).
  assert (Z.testbit (_root m) w = true) as Hbw by (rewrite Ew; apply Z.bit_log2; lia).
  assert (0 <= w) as Hw0 by (rewrite Ew; apply Z.log2_nonneg).
  rewrite (bm_agree _ Hm) in Hbw by done. apply andb_true_iff in Hbw as [Hwn Hl].
  apply Z.ltb_lt in Hwn. apply negb_true_iff, Z.eqb_neq in Hl.
  destruct (bm_leaf _ Hm w ltac:(lia)) as [Hl0 Hl1].
  set (b := MWORD_BITS - clz MWORD_BITS (leaf m w) - 1).
  assert (b = Z.log2 (leaf m w)) as Eb by (unfold b, clz; lia).
  assert (0 <= b < MWORD_BITS) as Hb by (rewrite Eb; split; [apply Z.log2_nonneg | apply Z.log2_lt_pow2; lia]).
  assert ((w * MWORD_BITS + b) / MWORD_BITS = w) as Ed
    by (symmetry; apply Z.div_unique with b; lia).
  assert ((w * MWORD_BITS + b) mod MWORD_BITS = b) as Em
    by (symmetry; apply Z.mod_unique with w; lia).
  split_and!; [nia | nia | |].
  - intros x Hx. destruct (word_of x ltac:(nia)) as [Hxw Hxb].
    assert (MWORD_BITS <> 0) as Hn0 by lia. pose proof (Z.div_mod x _ Hn0) as Hdm.
    destruct (Z.lt_trichotomy (x / MWORD_BITS) w) as [? | [E | Hgt]]; [nia | |].
    + unfold member. rewrite E. apply Z.bits_above_log2; [lia |]. rewrite <- Eb. nia.
    + apply Hzero; [nia |].
      assert (Z.testbit (_root m) (x / MWORD_BITS) = false) as Hf by (apply Z.bits_above_log2; lia).
      rewrite (bm_agree _ Hm) in Hf by lia. destruct (Z.ltb_spec (x / MWORD_BITS) Num_words); [| lia].
      cbn in Hf. by apply negb_false_iff, Z.eqb_eq in Hf.
  - left. unfold member. rewrite Ed, Em, Eb. apply Z.bit_log2. lia.
Qed.

Lemma bm_make_ok : bm_ok make /\ forall x, 0 <= x < 256 -> member make x = false.
Proof.
  pose proof num_words. pose proof arch_ge32.
  assert (forall w, 0 <= w < Num_words -> leaf make w = 0) as Hl.
  { intros w Hw. unfold leaf, make. cbn [_leaves]. apply lookup_total_replicate_2. lia. }
  split; [split |].
  - cbn. apply length_replicate.
  - unfold in_range. cbn. lia.
  - intros w Hw. rewrite Hl by done. split; [lia | apply pow2_pos; lia].
  - intros w Hw. cbn [_root make]. rewrite Z.bits_0. destruct (Z.ltb_spec w Num_words); [| done].
    rewrite Hl by lia. done.
  - intros x Hx. unfold member. rewrite Hl by (apply word_of; done). apply Z.bits_0.
Qed.

End bitmap.

(** ** The ready queue *)
Section ready.
Context `{Arch}.
Import Ready_queue.

(** Every context is in the ring of its priority and in no other, the bitmap
    tells which rings have members, and [prio_highest] is the highest of
    them. *)
Record ok (s : store) (q : t) : Prop := {
  ok_len : length (prio_next q) = 256%nat;
  ok_bmap : bm_ok (prio_bmap q);
  ok_bits : forall p, 0 <= p < 256 -> member (prio_bmap q) p = negb (bool_decide (ring q p = []));
  ok_prio : forall p i, 0 <= p < 256 -> i ∈ ring q p -> prio s i = p;
  ok_nodup : forall p, 0 <= p < 256 -> NoDup (ring q p);
  ok_high : 0 <= prio_highest q < 256;
  ok_above : forall p, prio_highest q < p < 256 -> ring q p = [];
  ok_highest : ring q (prio_highest q) <> [] \/ prio_highest q = 0 }.

(** Priorities are at most 255. *)
Definition prios_ok (s : store) : Prop := forall i, 0 <= prio s i < 256.

Definition ready (q : t) (i : Z) : Prop := in_ready_list q i = true.

Lemma ready_ring s q i : ok s q -> ready q i <-> exists p, 0 <= p < 256 /\ i ∈ ring q p.
Proof.
  intros Hq. unfold ready, in_ready_list. rewrite existsb_exists. split.
  - intros (l & Hl & Hi). apply existsb_exists in Hi as (x & Hx & ->%Z.eqb_eq).
    apply list_elem_of_In, list_elem_of_lookup in Hl as [k Hk].
    assert (k < 256)%nat by (rewrite <- (ok_len _ _ Hq); by eapply lookup_lt_Some).
    exists (Z.of_nat k). split; [lia |]. unfold ring. rewrite Nat2Z.id.
    rewrite (list_lookup_total_correct _ _ _ Hk). by apply list_elem_of_In.
  - intros (p & Hp & Hi). unfold ring in Hi. pose proof (ok_len _ _ Hq).
    destruct (lookup_lt_is_Some_2 (prio_next q) (Z.to_nat p)) as [l Hl]; [lia |].
    rewrite (list_lookup_total_correct _ _ _ Hl) in Hi. exists l. split.
    + by apply list_elem_of_In, list_elem_of_lookup_2 with (Z.to_nat p).
    + apply existsb_exists. exists i. split; [by apply list_elem_of_In | apply Z.eqb_refl].
Qed.

Lemma ready_own s q i : ok s q -> ready q i <-> i ∈ ring q (prio s i) /\ 0 <= prio s i < 256.
Proof.
  intros Hq. rewrite ready_ring by done. split; [| naive_solver].
  intros (p & Hp & Hi). by rewrite (ok_prio _ _ Hq p i Hp Hi).
Qed.

Lemma ring_insert q h b c p l x :
  length (prio_next q) = 256%nat -> 0 <= p < 256 -> 0 <= x ->
  ring (mk h b (<[Z.to_nat p := l]> (prio_next q)) c) x = if x =? p then l else ring q x.
Proof.
  intros Hl Hp Hx. unfold ring. cbn [prio_next]. destruct (Z.eqb_spec x p) as [-> | ?].
  - apply list_lookup_total_insert_eq. lia.
  - apply list_lookup_total_insert_ne. lia.
Qed.

Lemma enqueue_ok s i front q : prios_ok s -> ok s q -> ok s (enqueue s i front q).
Proof.
  intros Hs Hq. unfold enqueue. destruct (in_ready_list q i) eqn:Er; [done |].
  assert (~ ready q i) as Hnr by (unfold ready; by rewrite Er).
  specialize (Hs i) as Hp. set (p := prio s i) in *. pose proof Hq as [Q1 Q2 Q3 Q4 Q5 Q6 Q7 Q8].
  assert (i ∉ ring q p) as Hni by (intros Hin; apply Hnr; rewrite (ready_ring s) by done; by exists p).
  assert (forall x, x ∈ push front (ring q p) i <-> x = i \/ x ∈ ring q p) as Hpush.
  { intros x. unfold push. destruct front; [apply elem_of_cons |]. rewrite elem_of_app, list_elem_of_singleton. tauto. }
  assert (push front (ring q p) i <> []) as Hne by (unfold push; destruct front; [done | by destruct (ring q p)]).
  assert (forall x b h, 0 <= x -> ring (mk h b (<[Z.to_nat p := push front (ring q p) i]> (prio_next q))
            (_current_sched q)) x = if x =? p then push front (ring q p) i else ring q x) as Hr
    by (intros; by apply ring_insert).
  split; cbn [prio_next prio_bmap prio_highest].
  - by rewrite length_insert.
  - by apply set_ok.
  - intros x Hx. rewrite member_set, Hr by (done || lia). destruct (Z.eqb_spec x p) as [-> | ?]; [| by apply Q3].
    by rewrite bool_decide_false.
  - intros x j Hx. rewrite Hr by lia. destruct (Z.eqb_spec x p) as [-> | ?]; [| by apply Q4].
    rewrite Hpush. intros [-> | ?]; [done | by apply Q4].
  - intros x Hx. rewrite Hr by lia. destruct (Z.eqb_spec x p) as [-> | ?]; [| by apply Q5].
    specialize (Q5 p Hp). unfold push. destruct front; [by constructor |].
    apply NoDup_app. split_and!; [done | | apply NoDup_singleton]. by intros y Hy ->%list_elem_of_singleton.
  - destruct (p >? prio_highest q); lia.
  - intros x Hx. rewrite Z.gtb_ltb in Hx. rewrite Hr by (destruct (_ <? _); lia).
    destruct (Z.ltb_spec (prio_highest q) p); (destruct (Z.eqb_spec x p); [lia |]); apply Q7; lia.
  - left. rewrite Z.gtb_ltb. destruct (Z.ltb_spec (prio_highest q) p) as [Hlt | Hge]; rewrite Hr by lia.
    + by rewrite Z.eqb_refl.
    + destruct (Z.eqb_spec (prio_highest q) p); [done |]. destruct Q8 as [? | ?]; [done | lia].
Qed.

Lemma dequeue_ok s i q : ok s q -> ok s (dequeue s i q).
Proof.
  intros Hq. unfold dequeue. destruct (in_ready_list q i) eqn:Er; cbn [negb]; [| done].
  destruct (proj1 (ready_own s q i Hq) Er) as [Hin Hp]. set (p := prio s i) in *.
  pose proof Hq as [Q1 Q2 Q3 Q4 Q5 Q6 Q7 Q8]. set (l := filter (fun x => x <> i) (ring q p)).
  assert (forall x, x ∈ l -> x ∈ ring q p) as Hsub by (intros x Hx; by apply list_elem_of_filter in Hx as [_ ?]).
  assert (forall x b h, 0 <= x -> ring (mk h b (<[Z.to_nat p := l]> (prio_next q)) (_current_sched q)) x
            = if x =? p then l else ring q x) as Hr by (intros; by apply ring_insert).
  assert (forall b h, (forall x, 0 <= x < 256 -> member b x = negb (bool_decide ((if x =? p then l else ring q x) = []))) ->
      bm_ok b -> 0 <= h < 256 -> (forall x, h < x < 256 -> (if x =? p then l else ring q x) = []) ->
      ((if h =? p then l else ring q h) <> [] \/ h = 0) ->
      ok s (mk h b (<[Z.to_nat p := l]> (prio_next q)) (_current_sched q))) as Hbuild.
  { intros b h Hb1 Hb2 Hh1 Hh2 Hh3. split; cbn [prio_next prio_bmap prio_highest]; try done.
    - by rewrite length_insert.
    - intros x Hx. rewrite Hr by lia. by apply Hb1.
    - intros x j Hx. rewrite Hr by lia. destruct (Z.eqb_spec x p) as [-> | ?]; [| by apply Q4].
      intros ?%Hsub. by apply Q4.
    - intros x Hx. rewrite Hr by lia. destruct (x =? p); [apply NoDup_filter |]; by apply Q5.
    - intros x Hx. rewrite Hr by lia. by apply Hh2.
    - by rewrite Hr by lia. }
  destruct l as [|y l'] eqn:El; unfold set_ring; cbn [prio_next prio_bmap prio_highest _current_sched].
  - assert (forall x, 0 <= x < 256 -> member (Hierarchical_bitmap.clear p (prio_bmap q)) x
      = negb (bool_decide ((if x =? p then [] else ring q x) = []))) as Hm.
    { intros x Hx. rewrite member_clear by done. destruct (Z.eqb_spec x p); [done |]. by apply Q3. }
    destruct (find_highest_spec _ (clear_ok _ p Q2 Hp)) as (F1 & F2 & F3).
    apply Hbuild; [done | by apply clear_ok | done | |].
    + intros x Hx. pose proof (F2 x Hx) as E. rewrite Hm in E by lia.
      apply negb_false_iff in E. by apply bool_decide_eq_true in E.
    + destruct F3 as [E | [E _]]; [left | by right]. rewrite Hm in E by done.
      apply negb_true_iff in E. by apply bool_decide_eq_false in E.
  - apply Hbuild; try done.
    + intros x Hx. rewrite Q3 by done. destruct (Z.eqb_spec x p) as [-> | ?]; [| done].
      rewrite !bool_decide_false; [done | done |]. intros E. rewrite E in Hin. by apply elem_of_nil in Hin.
    + intros x Hx. destruct (Z.eqb_spec x p) as [-> | ?]; [| by apply Q7].
      rewrite Q7 in Hin by done. by apply elem_of_nil in Hin.
    + destruct (Z.eqb_spec (prio_highest q) p); [by left | done].
Qed.

(** The ring of a ready context, around it. *)
Lemma rotate_split a i b : i ∉ a -> rotate_behind (a ++ i :: b) i = b ++ a ++ [i].
Proof.
  intros Ha. unfold rotate_behind.
  assert (drop_while (fun x => negb (x =? i)) (a ++ i :: b) = i :: b
    /\ take_while (fun x => negb (x =? i)) (a ++ i :: b) = a) as [-> ->]; [| done].
  induction a as [|y a IH]; cbn [app drop_while take_while].
  - by rewrite Z.eqb_refl.
  - rewrite not_elem_of_cons in Ha. destruct Ha as [Hy Ha]. rewrite (proj2 (Z.eqb_neq y i)) by done. cbn [negb].
    destruct (IH Ha) as [-> ->]. done.
Qed.

Lemma rotate_perm l i : NoDup l -> i ∈ l -> rotate_behind l i ≡ₚ l.
Proof.
  intros Hn (a & b & ->)%list_elem_of_split. apply NoDup_app in Hn as (_ & Hd & _).
  rewrite rotate_split; [| intros E; apply (Hd _ E); left].
  rewrite (Permutation_app_comm b), <- app_assoc. done.
Qed.

Lemma requeue_ok s i q : prios_ok s -> ok s q -> ok s (requeue s i q).
Proof.
  intros Hs Hq. unfold requeue. destruct (in_ready_list q i) eqn:Er; cbn [negb]; [| by apply enqueue_ok].
  destruct (proj1 (ready_own s q i Hq) Er) as [Hin Hp]. set (p := prio s i) in *.
  pose proof Hq as [Q1 Q2 Q3 Q4 Q5 Q6 Q7 Q8].
  pose proof (rotate_perm _ _ (Q5 p Hp) Hin) as Hperm.
  assert (rotate_behind (ring q p) i = [] <-> ring q p = []) as Hnil.
  { split; intros E; [rewrite E in Hperm; by apply Permutation_nil in Hperm | by rewrite E]. }
  assert (forall x, 0 <= x -> ring (set_ring p (rotate_behind (ring q p) i) q) x
            = if x =? p then rotate_behind (ring q p) i else ring q x) as Hr
    by (intros; unfold set_ring; by apply ring_insert).
  split; cbn [set_ring prio_next prio_bmap prio_highest]; try done.
  - by rewrite length_insert.
  - intros x Hx. rewrite Q3, Hr by (done || lia). destruct (Z.eqb_spec x p) as [-> | ?]; [| done].
    f_equal. by apply bool_decide_ext.
  - intros x j Hx. rewrite Hr by lia. destruct (Z.eqb_spec x p) as [-> | ?]; [| by apply Q4].
    rewrite Hperm. by apply Q4.
  - intros x Hx. rewrite Hr by lia. destruct (Z.eqb_spec x p) as [-> | ?]; [rewrite Hperm |]; by apply Q5.
  - intros x Hx. rewrite Hr by lia. destruct (Z.eqb_spec x p) as [-> | ?]; [apply Hnil |]; by apply Q7.
  - rewrite Hr by lia. destruct (Z.eqb_spec (prio_highest q) p) as [E | ?]; [| done].
    left. rewrite Hnil. intros En. rewrite En in Hin. by apply elem_of_nil in Hin.
Qed.

(** ** Reachable schedulers *)
Inductive step : store * t -> store * t -> Prop :=
| step_enqueue s q i front : step (s, q) (s, enqueue s i front q)
| step_dequeue s q i : step (s, q) (s, dequeue s i q)
| step_requeue s q i : step (s, q) (s, requeue s i q)
| step_activate s q i : step (s, q) (s, activate i q)
(* parameters of contexts that are not ready are changed *)
| step_params s s' q :
    (forall i, ready q i -> prio s' i = prio s i) -> prios_ok s' -> step (s, q) (s', q).

Lemma make_ok s : ok s make.
Proof.
  assert (forall p, 0 <= p < 256 -> ring make p = []) as Hr.
  { intros p Hp. unfold ring. cbn [prio_next make]. apply lookup_total_replicate_2. lia. }
  destruct bm_make_ok as [B1 B2].
  split; cbn [prio_bmap prio_highest make]; try done; try lia.
  - intros p Hp. rewrite Hr, bool_decide_true by done. by rewrite B2.
  - intros p i Hp. rewrite Hr by done. by intros ?%elem_of_nil.
  - intros p Hp. rewrite Hr by done. constructor.
  - intros p Hp. apply Hr. lia.
Qed.

Lemma step_ok s q s' q' : prios_ok s -> ok s q -> step (s, q) (s', q') -> prios_ok s' /\ ok s' q'.
Proof.
  intros Hs Hq Hst. inversion Hst as [? ? i front | ? ? i | ? ? i | ? ? i | ? ? ? Hp Hs']; subst.
  - split; [done | by apply enqueue_ok].
  - split; [done | by apply dequeue_ok].
  - split; [done | by apply requeue_ok].
  - split; [done |]. by destruct Hq.
  - split; [done |]. pose proof Hq as [Q1 Q2 Q3 Q4 Q5 Q6 Q7 Q8]. split; try done.
    intros p i Hpr Hi. rewrite Hp; [by apply Q4 |]. rewrite (ready_ring s) by done. by exists p.
Qed.

Lemma reachable_ok s0 s q : prios_ok s0 -> rtc step (s0, make) (s, q) -> prios_ok s /\ ok s q.
Proof.
  intros H0 Hs. change (prios_ok (fst (s, q)) /\ ok (fst (s, q)) (snd (s, q))).
  assert (prios_ok (fst (s0, make)) /\ ok (fst (s0, make)) (snd (s0, make))) as Hi by (split; [done | apply make_ok]).
  revert Hs Hi. generalize (s0, make), (s, q). clear. intros a b Hs.
  induction Hs as [|[] [] c Hab _ IH]; [done |]. intros [H1 H2]. apply IH. by eapply step_ok.
Qed.

(** C36: the context that the scheduler picks is ready and no ready context has
    a higher priority; it picks none only when none is ready. *)
Theorem next_to_run_highest s0 s q :
  prios_ok s0 -> rtc step (s0, make) (s, q) ->
  match next_to_run q with
  | Some i => ready q i /\ forall j, ready q j -> prio s j <= prio s i
  | None => forall j, ~ ready q j
  end.
Proof.
  intros H0 Hs. destruct (reachable_ok _ _ _ H0 Hs) as [_ Hq]. pose proof Hq as [Q1 Q2 Q3 Q4 Q5 Q6 Q7 Q8].
  assert (forall j, ready q j -> prio s j <= prio_highest q) as Hle.
  { intros j Hj. apply (ready_own s) in Hj as [Hin Hp]; [| done].
    destruct (Z.le_gt_cases (prio s j) (prio_highest q)) as [? | Hgt]; [done |].
    rewrite Q7 in Hin by lia. by apply elem_of_nil in Hin. }
  unfold next_to_run. destruct (ring q (prio_highest q)) as [|i l] eqn:Er; cbn [head].
  - destruct Q8 as [? | E0]; [done |]. intros j Hj. pose proof (Hle j Hj).
    apply (ready_own s) in Hj as [Hin Hp]; [| done]. replace (prio s j) with (prio_highest q) in Hin by lia.
    rewrite Er in Hin. by apply elem_of_nil in Hin.
  - assert (i ∈ ring q (prio_highest q)) as Hin by (rewrite Er; left).
    split; [rewrite (ready_ring s) by done; eauto |]. intros j Hj. rewrite (Q4 _ _ Q6 Hin). by apply Hle.
Qed.

(** Within a priority the processor goes round: requeuing the context at
    the head makes the next one the head and it the last; a context that becomes
    ready goes to the end, the one that runs to the front; all other rings stay
    as they are. *)
Theorem round_robin s0 s q i l front :
  prios_ok s0 -> rtc step (s0, make) (s, q) -> ring q (prio s i) = i :: l ->
  ring (requeue s i q) (prio s i) = l ++ [i]
  /\ (forall j, ~ ready q j -> ring (enqueue s j front q) (prio s j)
        = if front then j :: ring q (prio s j) else ring q (prio s j) ++ [j])
  /\ forall p, 0 <= p < 256 -> p <> prio s i -> ring (requeue s i q) p = ring q p.
Proof.
  intros H0 Hs Hr. destruct (reachable_ok _ _ _ H0 Hs) as [Hp Hq].
  assert (ready q i) as Hi by (rewrite (ready_own s) by done; split; [rewrite Hr; left | apply Hp]).
  unfold ready in Hi. unfold requeue. rewrite Hi. cbn [negb]. unfold set_ring.
  pose proof (ok_len _ _ Hq) as Hl. pose proof (Hp i). split_and!.
  - rewrite ring_insert by (done || lia). rewrite Z.eqb_refl, Hr. by apply (rotate_split []), not_elem_of_nil.
  - intros j Hj. unfold enqueue. unfold ready in Hj. destruct (in_ready_list q j); [done |].
    pose proof (Hp j). rewrite ring_insert by (done || lia). by rewrite Z.eqb_refl.
  - intros p Hpr Hne. rewrite ring_insert by (done || lia). by rewrite (proj2 (Z.eqb_neq _ _)).
Qed.

End ready.

Section params.
Context `{Arch}.
Import Sched_context.

(** Parameters that [check_param] accepts are taken by [set] without
    hitting the assertion; the priority is then between 0 and 255, as the ready
    queue requires, and is the requested one when that is; the time slice is the
    requested one or, for 0, the default; the time left is not touched. *)
Theorem checked_params_set Default_time_slice sizeof p sc :
  check_param sizeof p = 0 -> 0 <= L4_sched_param.prio p ->
  exists sc', set Default_time_slice p sc = Some sc'
    /\ 0 <= _prio sc' < 256 /\ _left sc' = _left sc
    /\ let '(prio, quantum) :=
         if L4_sched_param.is_legacy p then (L4_sched_param.sched_class p, L4_sched_param.length p)
         else (L4_sched_param.prio p, L4_sched_param.quantum p) in
       _prio sc' = Z.min prio 255
       /\ _quantum sc' = if quantum =? 0 then Default_time_slice else quantum.
Proof.
  unfold check_param, set, L4_sched_param.is_legacy. rewrite Z.geb_leb. intros Hc Hp.
  destruct (Z.leb_spec 0 (L4_sched_param.sched_class p)) as [Hl | Hl].
  - eexists. split; [done |]. cbn. rewrite Z.gtb_ltb.
    destruct (Z.ltb_spec 255 (L4_sched_param.sched_class p)).
    + split_and!; (done || lia).
    + unfold wrap. rewrite Z.mod_small by lia. split_and!; (done || lia).
  - destruct (L4_sched_param.sched_class p =? Fixed_prio_class); [| done].
    eexists. split; [done |]. cbn. rewrite Z.gtb_ltb.
    destruct (Z.ltb_spec 255 (L4_sched_param.prio p)).
    + split_and!; (done || lia).
    + unfold wrap. rewrite Z.mod_small by lia. split_and!; (done || lia).
Qed.

End params.

Module Ready_witness.
Import Ready_queue.
#[local] Existing Instance arch64.

Definition s0 : store := {[ 1 := Sched_context.mk 10 100 100; 2 := Sched_context.mk 200 100 100;
                            3 := Sched_context.mk 200 100 100 ]}.
Definition q : t := enqueue s0 3 false (enqueue s0 2 false (enqueue s0 1 false make)).

Lemma s0_prios : prios_ok s0.
Proof.
  intros i. unfold prio. destruct (s0 !! i) as [sc |] eqn:E; [| lia].
  assert (map_Forall (fun _ x => 0 <= Sched_context._prio x < 256) s0) as Hf.
  { apply map_Forall_to_list. change (map_to_list s0) with (map_to_list s0). vm_compute. by repeat constructor. }
  exact (Hf _ _ E).
Qed.

Lemma q_reachable : rtc step (s0, make) (s0, q).
Proof.
  eapply rtc_l; [apply (step_enqueue s0 make 1 false) |].
  eapply rtc_l; [apply (step_enqueue s0 _ 2 false) |].
  eapply rtc_l; [apply (step_enqueue s0 _ 3 false) |]. apply rtc_refl.
Qed.

Lemma next_to_run_highest_witness : next_to_run q = Some 2 /\ prio s0 1 <= prio s0 2.
Proof.
  pose proof (next_to_run_highest s0 s0 q s0_prios q_reachable) as T.
  assert (next_to_run q = Some 2) as E by (vm_compute; reflexivity). rewrite E in T.
  split; [exact E | apply (proj2 T); vm_compute; reflexivity].
Defined.

Lemma round_robin_witness : ring (requeue s0 2 q) 200 = [3; 2].
Proof.
  exact (proj1 (round_robin s0 s0 q 2 [3] false s0_prios q_reachable ltac:(vm_compute; reflexivity))).
Defined.

Lemma checked_params_set_witness :
  exists sc', Sched_context.set 10000 (L4_sched_param.mk (L4_cpu_set.mk 0 0) (-1) 48 0 300)
    (Sched_context.mk 1 1 77) = Some sc'
    /\ Sched_context._prio sc' = 255 /\ Sched_context._quantum sc' = 10000.
Proof.
  destruct (checked_params_set 10000 48 (L4_sched_param.mk (L4_cpu_set.mk 0 0) (-1) 48 0 300)
    (Sched_context.mk 1 1 77) ltac:(vm_compute; reflexivity) ltac:(simpl; lia)) as (sc' & E & _ & _ & E1 & E2).
  exists sc'. split; [exact E | split; [exact E1 | exact E2]].
Defined.

End Ready_witness.
