(* ===== verification/Buddy.v ===== *)
(** The buddy allocator of kernel memory: [src/src/kern/buddy_alloc.h].

    Addresses are machine words.  The list of free blocks of each size is a list
    of addresses, front first.  The field [index] that the allocator writes into
    a free block is kept in the map [index]; the bits of the free map that are
    set are a set of bit numbers (the words of a bitmap are the subject of
    [Bitmap]). *)

From S2P Require Import Prelude.

(** The template parameters. *)
Class Buddy_params := { MIN_LOG2_SIZE : Z; NUM_SIZES : nat }.

Module Buddy.
Section ops.
Context `{Arch} `{Buddy_params}.

Record t := mk {
  _base : Z;
  _free : list (list Z);
  _free_map : gset Z;
  index : gmap Z Z }.

Definition Min_size : Z := mshl 1 MIN_LOG2_SIZE.
Definition Num_sizes : Z := Z.of_nat NUM_SIZES.
Definition Max_size : Z := mshl Min_size (Num_sizes - 1).
Definition size_of (i : Z) : Z := mshl Min_size i.

Definition calc_base_addr (min_addr : Z) : Z := min_addr .& mnot (Max_size - 1).
Definition init (base : Z) : t := mk (calc_base_addr base) (replicate NUM_SIZES []) ∅ ∅.

(** [calc_max_mem_size] and [buddy_bits]: the number of bits of the free
    map *)
Definition calc_max_mem_size (min_addr max_addr : Z) : Z :=
  madd (msub max_addr (calc_base_addr min_addr)) 1.
Definition buddy_bits (min_addr max_addr : Z) : Z :=
  let m := calc_max_mem_size min_addr max_addr in
  madd (msub (madd m Min_size) 1 / Min_size) (if nonzero (m .& (Max_size - 1)) then 1 else 0).

Definition free_list (b : t) (i : Z) : list Z := _free b !!! Z.to_nat i.
Definition bit_of (b : t) (addr : Z) : Z := msub addr (_base b) / Min_size.

(** [Head::link] *)
Definition link (b : t) (i addr : Z) : t :=
  mk (_base b) (<[Z.to_nat i := addr :: free_list b i]> (_free b)) (_free_map b) (<[addr := i]> (index b)).
(** [B_list::remove]: an element knows its place in its list. *)
Definition remove (b : t) (i addr : Z) : t :=
  mk (_base b) (<[Z.to_nat i := filter (fun x => x <> addr) (free_list b i)]> (_free b)) (_free_map b) (index b).
Definition set_bit (b : t) (addr : Z) : t :=
  mk (_base b) (_free b) ({[bit_of b addr]} ∪ _free_map b) (index b).
Definition clear_bit (b : t) (addr : Z) : t :=
  mk (_base b) (_free b) (_free_map b ∖ {[bit_of b addr]}) (index b).

(** The buddy of a block when it is free and of the same size, with the address
    of the block that both form. *)
Definition buddy (b : t) (block i : Z) : option (Z * Z) :=
  let size := size_of i in
  let n_size := mshl size 1 in
  if i + 1 >=? Num_sizes then None
  else
    let new_block := block .& mnot (msub n_size 1) in
    let bd := if new_block =? block then madd new_block size else new_block in
    if bool_decide (bit_of b bd ∈ _free_map b) && bool_decide (index b !! bd = Some i)
    then Some (bd, new_block) else None.

(** [split(b, size_index, i)] *)
Definition split_one (block : Z) (b : t) (j : nat) : t :=
  let bd := madd block (size_of (Z.of_nat j)) in
  set_bit (link b (Z.of_nat j) bd) bd.
Definition split (b : t) (block : Z) (size_index i : nat) : t :=
  foldl (split_one block) b (seq size_index (i - size_index)).

(** The smallest size index for a request; 64 steps reach every size up to
    half of the address space. *)
Fixpoint find_index (fuel : nat) (i : nat) (size : Z) : option nat :=
  match fuel with
  | O => None
  | S fuel => if size_of (Z.of_nat i) <? size then find_index fuel (S i) size else Some i
  end.
Definition size_index (size : Z) : option nat := find_index 64 0 size.

(** The merging loop of [free]; the size index grows to at most
    [NUM_SIZES - 1]. *)
Fixpoint merge (fuel : nat) (b : t) (block : Z) (i : nat) : t * Z * nat :=
  match fuel with
  | O => (b, block, i)
  | S fuel =>
      if Z.of_nat i + 1 <? Num_sizes
      then match buddy b block (Z.of_nat i) with
           | Some (bd, n) => merge fuel (remove b (Z.of_nat i) bd) n (S i)
           | None => (b, block, i)
           end
      else (b, block, i)
  end.

Definition free_index (b : t) (block : Z) (i : nat) : t :=
  let '(b, block, i) := merge NUM_SIZES b block i in
  set_bit (link b (Z.of_nat i) block) block.

Definition free (b : t) (block size : Z) : option t :=
  i ← size_index size; Some (free_index b block i).

(** [add_mem]: the loop frees one minimal block per round. *)
Fixpoint add_blocks (n : nat) (b : t) (start : Z) : option t :=
  match n with
  | O => Some b
  | S n => b ← free b start Min_size; add_blocks n b (madd start Min_size)
  end.

Definition add_mem (b : t) (start size : Z) : option t :=
  let al_start := msub (madd start Min_size) 1 .& mnot (Min_size - 1) in
  if size <=? msub al_start start then Some b
  else let size := msub size (msub al_start start) .& mnot (Min_size - 1) in
       add_blocks (Z.to_nat (size / Min_size)) b al_start.

(** The search of [alloc] for a list that has a block. *)
Fixpoint find_free (n : nat) (b : t) (i : nat) : option (nat * Z) :=
  match n with
  | O => None
  | S n => match free_list b (Z.of_nat i) with
           | f :: _ => Some (i, f)
           | [] => find_free n b (S i)
           end
  end.

Definition alloc_index (b : t) (k : nat) : option Z * t :=
  match find_free (NUM_SIZES - k) b k with
  | Some (i, f) => (Some f, clear_bit (split (remove b (Z.of_nat i) f) f k i) f)
  | None => (None, b)
  end.

Definition alloc (b : t) (size : Z) : option (option Z * t) :=
  k ← size_index size; Some (alloc_index b k).

Definition avail (b : t) : Z :=
  foldl (fun a i => madd a (mwrap (size_of (Z.of_nat i) * Z.of_nat (length (free_list b (Z.of_nat i))))))
    0 (seq 0 NUM_SIZES).

End ops.
End Buddy.

(** * Properties *)

Section proofs.
Context `{Arch} `{Buddy_params}.
Import Buddy.

(** Block sizes fit in a word. *)
Hypothesis sizes_fit : 0 <= MIN_LOG2_SIZE /\ (0 < NUM_SIZES)%nat /\ MIN_LOG2_SIZE + Z.of_nat NUM_SIZES < MWORD_BITS.

Definition sz (k : nat) : Z := 2 ^ (MIN_LOG2_SIZE + Z.of_nat k).

Lemma sz_pos k : 0 < sz k.
Proof. apply pow2_pos. lia. Qed.

Lemma sz_S k : sz (S k) = 2 * sz k.
Proof.
  unfold sz. replace (MIN_LOG2_SIZE + Z.of_nat (S k)) with (1 + (MIN_LOG2_SIZE + Z.of_nat k)) by lia.
  rewrite Z.pow_add_r by lia. done.
Qed.

Lemma sz_divide j k : (j <= k)%nat -> (sz j | sz k).
Proof.
  intros Hjk. unfold sz. exists (2 ^ (Z.of_nat k - Z.of_nat j)). rewrite <- Z.pow_add_r by lia. f_equal. lia.
Qed.

Lemma sz_le j k : (j <= k)%nat -> sz j <= sz k.
Proof. intros Hjk. apply Z.pow_le_mono_r; lia. Qed.

Lemma Min_size_sz : Min_size = sz 0.
Proof.
  unfold Min_size, mshl, mwrap, sz. rewrite Z.shiftl_1_l, wrap_small; [f_equal; lia |].
  split; [apply Z.pow_nonneg; lia | apply Z.pow_lt_mono_r; lia].
Qed.

Lemma size_of_sz k : (k <= NUM_SIZES)%nat -> size_of (Z.of_nat k) = sz k.
Proof.
  intros Hk. unfold size_of, mshl, mwrap. rewrite Min_size_sz. unfold sz at 1.
  rewrite Z.shiftl_mul_pow2, <- Z.pow_add_r by lia. rewrite Z.add_0_r. apply wrap_small.
  split; [apply Z.pow_nonneg; lia | apply Z.pow_lt_mono_r; lia].
Qed.

(** ** Buddies *)
Definition bud (a : Z) (k : nat) : Z := if a mod sz (S k) =? 0 then a + sz k else a - sz k.

Lemma bud_cases a k :
  (sz k | a) ->
  (sz (S k) | a) /\ bud a k = a + sz k \/ (sz (S k) | a - sz k) /\ ~ (sz (S k) | a) /\ bud a k = a - sz k.
Proof.
  intros [q Hq]. unfold bud. pose proof (sz_pos k). pose proof (sz_pos (S k)). pose proof (sz_S k) as HS.
  destruct (Z.eqb_spec (a mod sz (S k)) 0) as [E | E].
  - left. split; [apply Z.mod_divide; lia | done].
  - right. assert (~ (sz (S k) | a)) as Hn by (intros Hd; apply E, Z.mod_divide; [lia | done]).
    split_and!; try done. destruct (Z.Even_or_Odd q) as [[r Hr] | [r Hr]].
    + exfalso. apply Hn. exists r. rewrite HS. nia.
    + exists r. rewrite HS. nia.
Qed.

Lemma bud_align a k : (sz k | a) -> (sz k | bud a k).
Proof.
  intros Ha. destruct (bud_cases a k Ha) as [[_ ->] | (_ & _ & ->)].
  - apply Z.divide_add_r; [done | apply Z.divide_refl].
  - apply Z.divide_sub_r; [done | apply Z.divide_refl].
Qed.

Lemma not_divide_half k a : (sz (S k) | a) -> ~ (sz (S k) | a + sz k).
Proof.
  intros [q Hq] [r Hr]. pose proof (sz_pos k). rewrite sz_S in *. assert (2 * (r - q) = 1) by nia. lia.
Qed.

Lemma bud_bud a k : (sz k | a) -> bud (bud a k) k = a.
Proof.
  intros Ha. pose proof (bud_align a k Ha) as Hb.
  destruct (bud_cases a k Ha) as [[Hd E] | (Hd & Hn & E)], (bud_cases _ k Hb) as [[Hd' E'] | (Hd' & Hn' & E')];
    rewrite E in *; try lia.
  - exfalso. by apply (not_divide_half k a).
  - done.
Qed.

(** Two aligned blocks are nested or disjoint: an aligned block that reaches
    into another one of at most its size starts there. *)
Lemma aligned_start j k a b : (j <= k)%nat -> (sz j | a) -> (sz k | b) -> b <= a < b + sz k -> a + sz j <= b + sz k.
Proof.
  intros Hjk [p Hp] [q Hq] Hab. pose proof (sz_pos j). destruct (sz_divide j k Hjk) as [m Hm].
  subst a b. rewrite Hm in *. clear Hm.
  assert (p < q * m + m) by (apply Z.mul_lt_mono_pos_r with (sz j); [done | lia]).
  assert ((p + 1) * sz j <= (q * m + m) * sz j) by (apply Z.mul_le_mono_nonneg_r; lia). lia.
Qed.

(** ** The partition into blocks *)
Abbreviation leaves := (gmap Z (nat * bool)).

Record binv (top : Z) (lim : option Z) (b : t) (L : leaves) : Prop := {
  b_base : (sz (NUM_SIZES - 1) | _base b) /\ (sz (NUM_SIZES - 1) | top)
           /\ 0 <= _base b <= top /\ top <= 2 ^ MWORD_BITS;
  b_len : length (_free b) = NUM_SIZES;
  b_leaf : forall a o f, L !! a = Some (o, f) ->
    (o < NUM_SIZES)%nat /\ (sz o | a) /\ _base b <= a /\ a + sz o <= top;
  b_disj : forall a o f a' o' f', L !! a = Some (o, f) -> L !! a' = Some (o', f') -> a < a' -> a + sz o <= a';
  b_cover : forall x, _base b <= x < top -> exists a o f, L !! a = Some (o, f) /\ a <= x < a + sz o;
  b_bit : forall a o f, L !! a = Some (o, f) -> lim <> Some a -> (bit_of b a ∈ _free_map b <-> f = true);
  b_free : forall o a, (o < NUM_SIZES)%nat -> a ∈ free_list b (Z.of_nat o) <-> L !! a = Some (o, true);
  b_nodup : forall o, (o < NUM_SIZES)%nat -> NoDup (free_list b (Z.of_nat o));
  b_index : forall a o, L !! a = Some (o, true) -> index b !! a = Some (Z.of_nat o);
  b_merged : forall a o, L !! a = Some (o, true) -> (S o < NUM_SIZES)%nat -> L !! bud a o <> Some (o, true) }.

Lemma sz_le_max k : (k < NUM_SIZES)%nat -> sz k <= sz (NUM_SIZES - 1).
Proof. intros. apply sz_le. lia. Qed.

(** Bits of different minimal blocks are different. *)
Lemma bit_of_inj b x y o o' :
  (sz (NUM_SIZES - 1) | _base b) -> (sz o | x) -> (sz o' | y) -> 0 <= _base b ->
  _base b <= x < 2 ^ MWORD_BITS -> _base b <= y < 2 ^ MWORD_BITS -> bit_of b x = bit_of b y -> x = y.
Proof.
  intros Hb Hx Hy Hb0 Hxr Hyr He.
  unfold bit_of, msub, mwrap in He. rewrite !wrap_small, Min_size_sz in He by (unfold in_range; lia).
  pose proof (sz_pos 0).
  destruct (Z.divide_trans _ _ _ (sz_divide 0 o ltac:(lia)) Hx) as [p Hp].
  destruct (Z.divide_trans _ _ _ (sz_divide 0 o' ltac:(lia)) Hy) as [p' Hp'].
  destruct (Z.divide_trans _ _ _ (sz_divide 0 (NUM_SIZES - 1) ltac:(lia)) Hb) as [r Hr].
  rewrite Hp, Hp', Hr, <- !Z.mul_sub_distr_r, !Z.div_mul in He by lia. nia.
Qed.

Lemma bit_inj top lim b L a a' o o' f f' :
  binv top lim b L -> L !! a = Some (o, f) -> L !! a' = Some (o', f') -> bit_of b a = bit_of b a' -> a = a'.
Proof.
  intros Hi Ha Ha'. destruct (b_leaf _ _ _ _ Hi _ _ _ Ha) as (_ & Hd & Hlo & Hhi).
  destruct (b_leaf _ _ _ _ Hi _ _ _ Ha') as (_ & Hd' & Hlo' & Hhi').
  destruct (b_base _ _ _ _ Hi) as (Hb & _ & Hb0 & Ht). pose proof (sz_pos o). pose proof (sz_pos o').
  apply (bit_of_inj b a a' o o'); done || lia.
Qed.

(** The block that starts at the buddy of a leaf is no larger than the leaf. *)
Lemma buddy_leaf top lim b L a k f :
  binv top lim b L -> L !! a = Some (k, f) -> (S k < NUM_SIZES)%nat ->
  exists o g, L !! bud a k = Some (o, g) /\ (o <= k)%nat.
Proof.
  intros Hi Ha Hk. destruct (b_leaf _ _ _ _ Hi _ _ _ Ha) as (_ & Hd & Hlo & Hhi).
  destruct (b_base _ _ _ _ Hi) as (Hb & Ht & Hbt & _). pose proof (sz_pos k). pose proof (sz_S k) as HS.
  assert (_base b <= bud a k < top /\ bud a k <> a) as [Hr Hne].
  { destruct (bud_cases a k Hd) as [[Hd2 E] | (Hd2 & Hn & E)]; rewrite E.
    - pose proof (Z.divide_trans _ _ _ (sz_divide (S k) (NUM_SIZES - 1) ltac:(lia)) Ht) as [t Htt].
      destruct Hd2 as [q Hq]. split; [| lia]. split; [lia |]. pose proof (sz_pos (S k)).
      assert (q < t) by nia. nia.
    - pose proof (Z.divide_trans _ _ _ (sz_divide (S k) (NUM_SIZES - 1) ltac:(lia)) Hb) as [t Htt].
      destruct Hd2 as [q Hq]. split; [| lia]. split; [| lia]. pose proof (sz_pos (S k)).
      assert (t <= q) by nia. nia. }
  destruct (b_cover _ _ _ _ Hi _ Hr) as (c & o & g & Hc & Hin).
  destruct (b_leaf _ _ _ _ Hi _ _ _ Hc) as (Ho & Hdc & _ & _).
  assert (o <= k)%nat as Hok.
  { destruct (decide (o <= k)%nat) as [? | Hgt]; [done | exfalso].
    (* a larger block would contain the leaf as well *)
    assert (c <= a < c + sz o) as Hca.
    { destruct (bud_cases a k Hd) as [[Hd2 E] | (Hd2 & Hn & E)]; rewrite E in Hin.
      - pose proof (Z.divide_trans _ _ _ (sz_divide (S k) o ltac:(lia)) Hdc) as [q Hq].
        destruct Hd2 as [r Hrr]. pose proof (sz_pos (S k)). assert (q <= r) by nia. split; [nia | lia].
      - pose proof (aligned_start (S k) o (a - sz k) c ltac:(lia) Hd2 Hdc ltac:(lia)). lia. }
    destruct (Z.lt_trichotomy c a) as [Hlt | [-> | ?]]; [| | lia].
    - pose proof (b_disj _ _ _ _ Hi _ _ _ _ _ _ Hc Ha Hlt). lia.
    - rewrite Ha in Hc. injection Hc as -> ->. lia. }
  exists o, g. split; [| done].
  (* aligned to the larger size, it is where that block starts *)
  pose proof (bud_align a k Hd) as Hba.
  destruct (Z.divide_trans _ _ _ (sz_divide o k Hok) Hba) as [q Hq]. destruct Hdc as [r Hrr].
  pose proof (sz_pos o). assert (q = r) by nia. subst q. by rewrite Hq, <- Hrr.
Qed.

(** ** Elementary changes *)

Lemma free_list_insert b m ix l k o :
  length (_free b) = NUM_SIZES -> (k < NUM_SIZES)%nat ->
  free_list (mk (_base b) (<[Z.to_nat (Z.of_nat k) := l]> (_free b)) m ix) (Z.of_nat o)
  = if bool_decide (o = k) then l else free_list b (Z.of_nat o).
Proof.
  intros Hl Hk. unfold free_list. cbn [_free]. rewrite !Nat2Z.id. case_bool_decide as E.
  - subst. apply list_lookup_total_insert_eq. lia.
  - by apply list_lookup_total_insert_ne.
Qed.

(** A free block is taken in hand: its bit is still set. *)
Lemma take_inv top b L a k :
  binv top None b L -> L !! a = Some (k, true) ->
  binv top (Some a) (remove b (Z.of_nat k) a) (<[a := (k, false)]> L).
Proof.
  intros Hi Ha. pose proof Hi as [B1 B2 B3 B4 B5 B6 B7 B8 B9 B10].
  destruct (B3 _ _ _ Ha) as (Hk & _).
  assert (forall x o f, <[a := (k, false)]> L !! x = Some (o, f) -> exists g, L !! x = Some (o, g)) as Hold.
  { intros x o f. rewrite lookup_insert_Some. intros [[<- [= <- <-]] | [_ Hx]]; eauto. }
  split; cbn [remove _base _free _free_map index]; try done.
  - by rewrite length_insert.
  - intros x o f Hx. destruct (Hold _ _ _ Hx) as [g Hg]. by eapply B3.
  - intros x o f x' o' f' Hx Hx'. destruct (Hold _ _ _ Hx), (Hold _ _ _ Hx'). by eapply B4.
  - intros x Hx. destruct (B5 x Hx) as (c & o & f & Hc & Hin). destruct (decide (c = a)) as [-> | Hne].
    + exists a, o, false. rewrite lookup_insert_eq. rewrite Ha in Hc. by injection Hc as <- <-.
    + exists c, o, f. by rewrite lookup_insert_ne.
  - intros x o f. rewrite lookup_insert_Some. intros [[<- [= <- <-]] | [Hne Hx]] Hlim; [done |]. by eapply B6.
  - intros o x Ho. unfold remove. rewrite free_list_insert by done.
    case_bool_decide as E; [subst o; rewrite list_elem_of_filter |]; rewrite B7 by done; rewrite lookup_insert_Some;
      split; try naive_solver.
  - intros o Ho. unfold remove. rewrite free_list_insert by done.
    case_bool_decide; [apply NoDup_filter |]; by apply B8.
  - intros x o. rewrite lookup_insert_Some. intros [[_ [=]] | [_ Hx]]. by apply B9.
  - intros x o. rewrite lookup_insert_Some. intros [[_ [=]] | [Hne Hx]] Ho.
    rewrite lookup_insert_Some. intros [[_ [=]] | [_ Hx']]. exact (B10 _ _ Hx Ho Hx').
Qed.

(** A block in hand becomes free. *)
Lemma put_inv top lim b L a k :
  (lim = None \/ lim = Some a) -> binv top lim b L -> L !! a = Some (k, false) ->
  ((S k < NUM_SIZES)%nat -> L !! bud a k <> Some (k, true)) ->
  binv top None (set_bit (link b (Z.of_nat k) a) a) (<[a := (k, true)]> L).
Proof.
  intros Hlim Hi Ha Hb. pose proof Hi as [B1 B2 B3 B4 B5 B6 B7 B8 B9 B10].
  destruct (B3 _ _ _ Ha) as (Hk & Hd & _).
  assert (forall x o f, <[a := (k, true)]> L !! x = Some (o, f) -> exists g, L !! x = Some (o, g)) as Hold.
  { intros x o f. rewrite lookup_insert_Some. intros [[<- [= <- <-]] | [_ Hx]]; eauto. }
  split; cbn [set_bit link _base _free _free_map index]; try done.
  - by rewrite length_insert.
  - intros x o f Hx. destruct (Hold _ _ _ Hx) as [g Hg]. by eapply B3.
  - intros x o f x' o' f' Hx Hx'. destruct (Hold _ _ _ Hx), (Hold _ _ _ Hx'). by eapply B4.
  - intros x Hx. destruct (B5 x Hx) as (c & o & f & Hc & Hin). destruct (decide (c = a)) as [-> | Hne].
    + exists a, o, true. rewrite lookup_insert_eq. rewrite Ha in Hc. by injection Hc as <- <-.
    + exists c, o, f. by rewrite lookup_insert_ne.
  - intros x o f Hx _. change (bit_of (mk _ _ _ _)) with (bit_of b). rewrite elem_of_union, elem_of_singleton.
    rewrite lookup_insert_Some in Hx. destruct Hx as [[<- [= <- <-]] | [Hne Hx]]; [tauto |].
    rewrite (B6 x o f Hx) by (destruct Hlim as [-> | ->]; congruence). split; [| tauto].
    intros [E | ?]; [| done]. exfalso. apply Hne. symmetry. by eapply (bit_inj _ _ _ _ _ _ _ _ _ _ Hi).
  - intros o x Ho. change (free_list (set_bit ?q a)) with (free_list q). unfold link. rewrite free_list_insert by done.
    rewrite lookup_insert_Some. case_bool_decide as E; [subst o; rewrite elem_of_cons |]; rewrite B7 by done;
      split; try naive_solver.
  - intros o Ho. change (free_list (set_bit ?q a)) with (free_list q). unfold link. rewrite free_list_insert by done.
    case_bool_decide as E; [subst o | by apply B8]. constructor; [| by apply B8]. rewrite B7 by done. congruence.
  - intros x o. rewrite lookup_insert_Some. intros [[<- [= <-]] | [Hne Hx]]; [apply lookup_insert_eq |].
    rewrite lookup_insert_ne by done. by apply B9.
  - intros x o Hx Ho Hx'. rewrite lookup_insert_Some in Hx, Hx'.
    destruct Hx as [[<- Eo] | [Hne Hx]], Hx' as [[Ex Eo'] | [Hne' Hx']].
    + pose proof (sz_pos o). unfold bud in Ex. destruct (_ =? 0); lia.
    + injection Eo as <-. by apply Hb.
    + injection Eo' as <-. subst a. apply Hb; [done |]. rewrite bud_bud; [done |]. by apply (B3 _ _ _ Hx).
    + exact (B10 _ _ Hx Ho Hx').
Qed.

(** The bit of a block in hand is cleared when it leaves the allocator. *)
Lemma clear_inv top b L a k :
  binv top (Some a) b L -> L !! a = Some (k, false) -> binv top None (clear_bit b a) L.
Proof.
  intros Hi Ha. pose proof Hi as [B1 B2 B3 B4 B5 B6 B7 B8 B9 B10].
  split; cbn [clear_bit _base _free _free_map index]; try done.
  intros x o f Hx _. change (bit_of (mk _ _ _ _)) with (bit_of b). rewrite elem_of_difference, elem_of_singleton.
  destruct (decide (x = a)) as [-> | Hne].
  - rewrite Ha in Hx. injection Hx as <- <-. split; [by intros [_ []] | done].
  - rewrite (B6 x o f Hx) by congruence. split; [tauto |]. intros ->. split; [done |].
    intros E. apply Hne. by eapply (bit_inj _ _ _ _ _ _ _ _ _ _ Hi).
Qed.

(** *** Merging *)

Lemma bud_ne a k : bud a k <> a.
Proof. pose proof (sz_pos k). unfold bud. destruct (_ =? 0); lia. Qed.

Definition low (a : Z) (k : nat) : Z := Z.min a (bud a k).

Lemma low_cases a k : (sz k | a) ->
  (sz (S k) | low a k) /\ (low a k = a /\ bud a k = low a k + sz k \/ low a k = bud a k /\ a = low a k + sz k).
Proof.
  intros Ha. pose proof (sz_pos k). unfold low. destruct (bud_cases a k Ha) as [[Hd E] | (Hd & _ & E)]; rewrite E.
  - rewrite Z.min_l by lia. split; [done | left; lia].
  - rewrite Z.min_r by lia. split; [done | right; lia].
Qed.

Definition merged (L : leaves) (a : Z) (k : nat) : leaves :=
  <[low a k := (S k, false)]> (delete (bud a k) (delete a L)).

Lemma merged_lookup L a k x v : (sz k | a) ->
  merged L a k !! x = Some v <->
  x = low a k /\ v = (S k, false) \/ (x <> low a k /\ x <> a /\ x <> bud a k /\ L !! x = Some v).
Proof.
  intros Ha. unfold merged. rewrite lookup_insert_Some, !lookup_delete_Some. naive_solver.
Qed.

Lemma merge_inv top lim b L a k :
  (lim = None \/ lim = Some a) -> binv top lim b L -> L !! a = Some (k, false) -> (S k < NUM_SIZES)%nat ->
  L !! bud a k = Some (k, true) ->
  binv top (Some (low a k)) (remove b (Z.of_nat k) (bud a k)) (merged L a k).
Proof.
  intros Hlim Hi Ha HSk Hb. pose proof Hi as [B1 B2 B3 B4 B5 B6 B7 B8 B9 B10].
  destruct (B3 _ _ _ Ha) as (Hk & Hd & Halo & Hahi). destruct (B3 _ _ _ Hb) as (_ & _ & Hblo & Hbhi).
  pose proof (low_cases a k Hd) as [Hld Hlow]. pose proof (sz_S k) as HS. pose proof (sz_pos k).
  assert (forall x v, merged L a k !! x = Some v <-> x = low a k /\ v = (S k, false)
    \/ (x <> low a k /\ x <> a /\ x <> bud a k /\ L !! x = Some v)) as HL by (intros; by apply merged_lookup).
  assert (forall x o f, L !! x = Some (o, f) -> x <> a -> x <> bud a k ->
    x + sz o <= low a k \/ low a k + sz (S k) <= x) as Hapart.
  { intros x o f Hx Hxa Hxb. pose proof (sz_pos o).
    destruct (Z.lt_trichotomy x a) as [? | [? | ?]], (Z.lt_trichotomy x (bud a k)) as [? | [? | ?]]; try done;
      repeat match goal with
      | Hlt : ?u < ?v, Hu : L !! ?u = Some _, Hv : L !! ?v = Some _ |- _ =>
          pose proof (B4 _ _ _ _ _ _ Hu Hv Hlt); clear Hlt
      end; lia. }
  split; cbn [remove _base _free _free_map index]; try done.
  - by rewrite length_insert.
  - intros x o f [[-> [= -> ->]] | (_ & _ & _ & Hx)]%HL; [| by eapply B3]. split_and!; try done; lia.
  - intros x o f x' o' f' [[-> [= -> ->]] | (N1 & N2 & N3 & Hx)]%HL [[-> [= -> ->]] | (N1' & N2' & N3' & Hx')]%HL Hlt.
    + lia.
    + destruct (Hapart _ _ _ Hx' N2' N3') as [? | ?]; [pose proof (sz_pos o'); lia | done].
    + destruct (Hapart _ _ _ Hx N2 N3) as [? | ?]; [done | pose proof (sz_pos (S k)); lia].
    + by eapply B4.
  - intros x Hx. destruct (B5 x Hx) as (c & o & f & Hc & Hin).
    destruct (decide (c = a \/ c = bud a k)) as [Hcm | Hcm].
    + exists (low a k), (S k), false. split; [apply HL; by left |].
      assert (o = k) as -> by (destruct Hcm as [-> | ->]; congruence). lia.
    + exists c, o, f. split; [| done]. apply HL. right. split_and!; [| tauto | tauto | done].
      destruct Hlow as [[-> _] | [-> _]]; tauto.
  - intros x o f [[-> [= -> ->]] | (N1 & N2 & N3 & Hx)]%HL Hl; [done |].
    apply (B6 _ _ _ Hx). destruct Hlim as [-> | ->]; congruence.
  - intros o x Ho. unfold remove. rewrite free_list_insert by done. rewrite HL.
    assert (forall o, L !! x = Some (o, true) -> x <> a) as Hxa by (intros ? ? ->; congruence).
    case_bool_decide as E; [subst o; rewrite list_elem_of_filter |]; rewrite B7 by done.
    + split; [| naive_solver]. intros [Hne Hx]. right. split_and!; try done; [| by eapply Hxa].
      destruct Hlow as [[-> _] | [-> _]]; [by eapply Hxa | done].
    + split; [| naive_solver]. intros Hx. right. assert (x <> bud a k) by (intros ->; congruence).
      split_and!; try done; [| by eapply Hxa]. destruct Hlow as [[-> _] | [-> _]]; [by eapply Hxa | done].
  - intros o Ho. unfold remove. rewrite free_list_insert by done.
    case_bool_decide; [apply NoDup_filter |]; by apply B8.
  - intros x o [[_ [=]] | (_ & _ & _ & Hx)]%HL. by apply B9.
  - intros x o [[_ [=]] | (_ & _ & _ & Hx)]%HL Ho [[_ [=]] | (_ & _ & _ & Hx')]%HL. exact (B10 _ _ Hx Ho Hx').
Qed.

(** [buddy] finds the buddy exactly when it is free and of the same size. *)
Lemma buddy_spec top lim b L a k :
  (lim = None \/ lim = Some a) -> binv top lim b L -> L !! a = Some (k, false) -> (S k < NUM_SIZES)%nat ->
  buddy b a (Z.of_nat k) = if bool_decide (L !! bud a k = Some (k, true)) then Some (bud a k, low a k) else None.
Proof.
  intros Hlim Hi Ha HSk. destruct (b_leaf _ _ _ _ Hi _ _ _ Ha) as (Hk & Hd & Hlo & Hhi).
  destruct (b_base _ _ _ _ Hi) as (_ & _ & Hb0 & Ht). pose proof (sz_pos k). pose proof (sz_S k) as HS.
  destruct (buddy_leaf _ _ _ _ _ _ _ Hi Ha HSk) as (o & g & Hb & Hok).
  unfold buddy. rewrite size_of_sz by lia. unfold Num_sizes. rewrite Z.geb_leb.
  destruct (Z.leb_spec (Z.of_nat NUM_SIZES) (Z.of_nat k + 1)); [lia |].
  assert (mshl (sz k) 1 = sz (S k)) as ->.
  { unfold mshl, mwrap. rewrite Z.shiftl_mul_pow2 by lia. change (2 ^ 1) with 2.
    replace (sz k * 2) with (sz (S k)) by lia. apply wrap_small.
    split; [pose proof (sz_pos (S k)); lia |]. unfold sz. apply Z.pow_lt_mono_r; lia. }
  assert (msub (sz (S k)) 1 = 2 ^ (MIN_LOG2_SIZE + Z.of_nat (S k)) - 1) as ->.
  { unfold msub, mwrap. apply wrap_small. fold (sz (S k)). unfold in_range. pose proof (sz_pos (S k)).
    assert (sz (S k) < 2 ^ MWORD_BITS) by (unfold sz; apply Z.pow_lt_mono_r; lia). lia. }
  rewrite trunc_pow2 by (unfold in_range; lia). fold (sz (S k)).
  assert (a - a mod sz (S k) = low a k /\ (if low a k =? a then madd (low a k) (sz k) else low a k) = bud a k) as [-> ->].
  { pose proof (low_cases a k Hd) as [_ Hlow]. unfold low in *. pose proof (sz_pos (S k)).
    destruct (b_leaf _ _ _ _ Hi _ _ _ Hb) as (_ & _ & _ & Hbhi). pose proof (sz_pos o).
    destruct (bud_cases a k Hd) as [[Hd2 E] | (Hd2 & Hn & E)].
    - assert (sz (S k) <> 0) as Hnz by lia. rewrite (proj2 (Z.mod_divide a _ Hnz) Hd2). rewrite Z.min_l by lia. rewrite Z.eqb_refl.
      split; [lia |]. unfold madd, mwrap. rewrite wrap_small by (unfold in_range; lia). lia.
    - rewrite Z.min_r by lia. rewrite (proj2 (Z.eqb_neq (bud a k) a)) by lia. split; [| done].
      assert (a mod sz (S k) = sz k) as ->; [| lia]. destruct Hd2 as [q Hq].
      symmetry. apply Z.mod_unique with q; lia. }
  rewrite Hb. pose proof (b_bit _ _ _ _ Hi _ _ _ Hb) as Hbit.
  assert (lim <> Some (bud a k)) as Hl by (pose proof (bud_ne a k); destruct Hlim as [-> | ->]; congruence).
  specialize (Hbit Hl). destruct g.
  - rewrite bool_decide_true by tauto. rewrite (b_index _ _ _ _ Hi _ _ Hb). cbn [andb].
    repeat case_bool_decide; try done; exfalso; naive_solver lia.
  - rewrite (bool_decide_false (bit_of b (bud a k) ∈ _)) by (rewrite Hbit; done). cbn [andb].
    by rewrite bool_decide_false.
Qed.

(** *** The amount of free memory *)

Definition free_bytes (b : t) : Z :=
  foldr Z.add 0 (map (fun o => sz o * Z.of_nat (length (free_list b (Z.of_nat o)))) (seq 0 NUM_SIZES)).

Lemma sum_change (f g : nat -> Z) k n m :
  (m <= k < m + n)%nat -> (forall o, o <> k -> f o = g o) ->
  foldr Z.add 0 (map f (seq m n)) = foldr Z.add 0 (map g (seq m n)) + (f k - g k).
Proof.
  revert m. induction n as [|n IH]; intros m Hk Hfg; [lia |]. cbn [seq map foldr].
  destruct (decide (m = k)) as [-> | Hne].
  - assert (map f (seq (S k) n) = map g (seq (S k) n)) as ->; [| lia].
    apply map_ext_in. intros o Ho%in_seq. apply Hfg. lia.
  - rewrite (IH (S m)) by (lia || done). rewrite (Hfg m) by done. lia.
Qed.

Lemma free_bytes_change b b' k d :
  (k < NUM_SIZES)%nat -> (forall o, o <> k -> free_list b' (Z.of_nat o) = free_list b (Z.of_nat o)) ->
  Z.of_nat (length (free_list b' (Z.of_nat k))) = Z.of_nat (length (free_list b (Z.of_nat k))) + d ->
  free_bytes b' = free_bytes b + sz k * d.
Proof.
  intros Hk Ho Hl. unfold free_bytes.
  rewrite (sum_change _ (fun o => sz o * Z.of_nat (length (free_list b (Z.of_nat o)))) k) by (lia || (intros o Hne; by rewrite Ho)).
  rewrite Hl. lia.
Qed.

Lemma free_bytes_link b k a : length (_free b) = NUM_SIZES -> (k < NUM_SIZES)%nat ->
  free_bytes (set_bit (link b (Z.of_nat k) a) a) = free_bytes b + sz k.
Proof.
  intros Hl Hk. rewrite (free_bytes_change b _ k 1); [lia | done | |].
  - intros o Ho. change (free_list (set_bit ?q a)) with (free_list q). unfold link.
    rewrite free_list_insert by done. by rewrite bool_decide_false.
  - change (free_list (set_bit ?q a)) with (free_list q). unfold link. rewrite free_list_insert by done.
    rewrite bool_decide_true by done. cbn [length]. lia.
Qed.

Lemma length_remove (l : list Z) x : NoDup l -> x ∈ l ->
  Z.of_nat (length (filter (fun y => y <> x) l)) = Z.of_nat (length l) - 1.
Proof.
  intros Hn (l1 & l2 & ->)%list_elem_of_split. apply NoDup_app in Hn as (_ & Hd & Hn).
  apply NoDup_cons in Hn as [Hx _]. rewrite filter_app, filter_cons_False by tauto.
  rewrite !filter_all; [rewrite !length_app; cbn [length]; lia | |]; apply Forall_forall; intros y Hy ->; [done |].
  apply (Hd _ Hy). left.
Qed.

Lemma free_bytes_remove top lim b L k a : binv top lim b L -> L !! a = Some (k, true) ->
  free_bytes (remove b (Z.of_nat k) a) = free_bytes b - sz k.
Proof.
  intros Hi Ha. destruct (b_leaf _ _ _ _ Hi _ _ _ Ha) as (Hk & _). pose proof (b_len _ _ _ _ Hi) as Hl.
  rewrite (free_bytes_change b _ k (-1)); [lia | done | |].
  - intros o Ho. unfold remove. rewrite free_list_insert by done. by rewrite bool_decide_false.
  - unfold remove. rewrite free_list_insert by done. rewrite bool_decide_true by done.
    apply length_remove; [by apply (b_nodup _ _ _ _ Hi) | by apply (b_free _ _ _ _ Hi)].
Qed.

(** ** [free] *)

Lemma merge_spec top fuel lim b L a k :
  (NUM_SIZES <= fuel + k)%nat -> (lim = None \/ lim = Some a) -> binv top lim b L -> L !! a = Some (k, false) ->
  let '(b', a', k') := merge fuel b a k in
  exists lim' L', (lim' = None \/ lim' = Some a') /\ binv top lim' b' L' /\ L' !! a' = Some (k', false)
    /\ ((S k' < NUM_SIZES)%nat -> L' !! bud a' k' <> Some (k', true))
    /\ (forall x o, L' !! x = Some (o, false) <-> x = a' /\ o = k' \/ x <> a /\ L !! x = Some (o, false))
    /\ (a' = a \/ exists o, L !! a' = Some (o, true))
    /\ free_bytes b' + sz k' = free_bytes b + sz k /\ _base b' = _base b.
Proof.
  revert lim b L a k. induction fuel as [|fuel IH]; intros lim b L a k Hf Hlim Hi Ha;
    destruct (b_leaf _ _ _ _ Hi _ _ _ Ha) as (Hk & Hd & _); [lia |].
  assert (forall x o, L !! x = Some (o, false) <-> x = a /\ o = k \/ x <> a /\ L !! x = Some (o, false)) as Hself.
  { intros x o. destruct (decide (x = a)) as [-> | ?]; [rewrite Ha |]; naive_solver. }
  cbn [merge]. unfold Num_sizes. destruct (Z.ltb_spec (Z.of_nat k + 1) (Z.of_nat NUM_SIZES)) as [Hlt | Hge].
  2: { exists lim, L. split_and!; try done; [lia | by left]. }
  rewrite (buddy_spec top lim b L a k) by (done || lia). case_bool_decide as Hb.
  2: { exists lim, L. split_and!; try done. by left. }
  pose proof (merge_inv top lim b L a k Hlim Hi Ha ltac:(lia) Hb) as Hi'.
  assert (merged L a k !! low a k = Some (S k, false)) as Hm by (apply merged_lookup; [done | by left]).
  specialize (IH (Some (low a k)) _ _ _ (S k) ltac:(lia) (or_intror eq_refl) Hi' Hm).
  destruct (merge fuel _ _ _) as [[b' a'] k']. destruct IH as (lim' & L' & Hl' & Hb' & Ha' & Hnb & Hlive & Hwhere & Hbytes & Hbase).
  exists lim', L'. split_and!; try done.
  - intros x o. rewrite Hlive. split.
    + intros [? | [Hx Hm']]; [by left | right]. apply merged_lookup in Hm' as [[-> _] | (_ & ? & _ & ?)]; done.
    + intros [? | [Hx HL]]; [by left | right]. assert (x <> bud a k) by (intros ->; congruence).
      assert (x <> low a k) by (pose proof (low_cases a k Hd); intuition congruence).
      split; [done |]. apply merged_lookup; [done |]. by right.
  - destruct Hwhere as [-> | [o Ho]].
    + destruct (low_cases a k Hd) as [_ [[-> _] | [-> _]]]; [by left | right; eauto].
    + apply merged_lookup in Ho as [[_ [=]] | (_ & _ & _ & Ho)]; [right; eauto | done].
  - rewrite (free_bytes_remove _ _ _ _ _ _ Hi Hb) in Hbytes. rewrite sz_S in Hbytes. lia.
Qed.

Lemma free_index_spec top b L a k :
  binv top None b L -> L !! a = Some (k, false) ->
  exists L', binv top None (free_index b a k) L'
    /\ (forall x o, L' !! x = Some (o, false) <-> x <> a /\ L !! x = Some (o, false))
    /\ free_bytes (free_index b a k) = free_bytes b + sz k /\ _base (free_index b a k) = _base b.
Proof.
  intros Hi Ha. unfold free_index.
  pose proof (merge_spec top NUM_SIZES None b L a k ltac:(lia) (or_introl eq_refl) Hi Ha) as Hm.
  destruct (merge _ _ _ _) as [[b' a'] k']. destruct Hm as (lim' & L' & Hl & Hb & Ha' & Hn & Hlive & Hwh & Hby & Hba).
  exists (<[a' := (k', true)]> L'). split_and!; [by eapply put_inv | | | done].
  - intros x o. rewrite lookup_insert_Some. split.
    + intros [[_ [=]] | [Hne Hx]]. apply Hlive in Hx as [[-> _] | ?]; done.
    + intros [Hx HL]. right. destruct (decide (x = a')) as [-> | Hne'].
      * (* a live block is not inside of the freed one *)
        exfalso. destruct Hwh as [-> | [o' Ho']]; [done | congruence].
      * split; [done |]. apply Hlive. by right.
  - rewrite free_bytes_link; [lia | apply (b_len _ _ _ _ Hb) | by apply (b_leaf _ _ _ _ Hb _ _ _ Ha')].
Qed.

(** ** [alloc] *)

(** Halving the block in hand frees its upper half. *)
Lemma split_one_inv top b L a j :
  binv top (Some a) b L -> L !! a = Some (S j, false) ->
  binv top (Some a) (split_one a b j) (<[a + sz j := (j, true)]> (<[a := (j, false)]> L))
  /\ free_bytes (split_one a b j) = free_bytes b + sz j.
Proof.
  intros Hi Ha. pose proof Hi as [B1 B2 B3 B4 B5 B6 B7 B8 B9 B10].
  destruct (B3 _ _ _ Ha) as (Hj & Hd & Hlo & Hhi). pose proof (sz_S j) as HS. pose proof (sz_pos j).
  assert (madd a (size_of (Z.of_nat j)) = a + sz j) as Em.
  { rewrite size_of_sz by lia. unfold madd, mwrap. apply wrap_small. unfold in_range. lia. }
  unfold split_one. rewrite Em. split; [| apply free_bytes_link; [done | lia]].
  set (bd := a + sz j). set (L' := <[bd := (j, true)]> (<[a := (j, false)]> L)).
  assert (forall x o f, L !! x = Some (o, f) -> x <> a -> x + sz o <= a \/ a + sz (S j) <= x) as Hapart.
  { intros x o f Hx Hne. destruct (Z.lt_trichotomy x a) as [Hlt | [? | Hlt]]; [| done |].
    - left. exact (B4 _ _ _ _ _ _ Hx Ha Hlt).
    - right. exact (B4 _ _ _ _ _ _ Ha Hx Hlt). }
  assert (L !! bd = None) as Hbd.
  { destruct (L !! bd) as [[o f] |] eqn:E; [exfalso | done]. pose proof (sz_pos o).
    destruct (Hapart _ _ _ E) as [? | ?]; unfold bd in *; lia. }
  assert (forall x v, L' !! x = Some v <-> x = bd /\ v = (j, true) \/ x = a /\ v = (j, false)
            \/ (x <> bd /\ x <> a /\ L !! x = Some v)) as HL.
  { intros x v. unfold L'. rewrite !lookup_insert_Some. assert (bd <> a) by (unfold bd; lia). naive_solver. }
  assert (sz j | a) as Hdj by (apply Z.divide_trans with (sz (S j)); [apply sz_divide; lia | done]).
  assert (bud bd j = a) as Ebud.
  { destruct (bud_cases bd j) as [[Hd2 _] | (_ & _ & E)].
    - apply Z.divide_add_r; [done | apply Z.divide_refl].
    - by apply not_divide_half in Hd.
    - rewrite E. unfold bd. lia. }
  split; cbn [set_bit link _base _free _free_map index]; try done.
  - by rewrite length_insert.
  - intros x o f [[-> [= -> ->]] | [[-> [= -> ->]] | (_ & _ & Hx)]]%HL; [| | by eapply B3];
      (split_and!; [lia | | unfold bd; lia | unfold bd; lia]); [| done].
    apply Z.divide_add_r; [done | apply Z.divide_refl].
  - intros x o f x' o' f' [[-> [= -> ->]] | [[-> [= -> ->]] | (N1 & N2 & Hx)]]%HL
      [[-> [= -> ->]] | [[-> [= -> ->]] | (N1' & N2' & Hx')]]%HL Hlt; unfold bd in *; try lia.
    + destruct (Hapart _ _ _ Hx' N2') as [? | ?]; [pose proof (sz_pos o'); lia | lia].
    + destruct (Hapart _ _ _ Hx' N2') as [? | ?]; [pose proof (sz_pos o'); lia | lia].
    + destruct (Hapart _ _ _ Hx N2) as [? | ?]; lia.
    + destruct (Hapart _ _ _ Hx N2) as [? | ?]; lia.
    + by eapply B4.
  - intros x Hx. destruct (B5 x Hx) as (c & o & f & Hc & Hin). destruct (decide (c = a)) as [-> | Hne].
    + rewrite Ha in Hc. injection Hc as <- <-. destruct (Z.lt_ge_cases x bd).
      * exists a, j, false. split; [apply HL; tauto | unfold bd in *; lia].
      * exists bd, j, true. split; [apply HL; tauto | unfold bd in *; lia].
    + exists c, o, f. split; [| done]. apply HL. right; right. split_and!; try done. intros ->. congruence.
  - intros x o f Hx Hlim. change (bit_of (mk _ _ _ _)) with (bit_of b).
    rewrite elem_of_union, elem_of_singleton. apply HL in Hx as [[-> [= -> ->]] | [[-> _] | (N1 & N2 & Hx)]]; [tauto | done |].
    rewrite (B6 _ _ _ Hx Hlim). split; [| tauto]. intros [E | ?]; [exfalso | done].
    (* equal bits would put both in the same minimal block *)
    destruct (B3 _ _ _ Hx) as (_ & Hdx & Hxlo & Hxhi). destruct B1 as (Hb1 & _ & Hb2 & Hb3). pose proof (sz_pos o).
    apply N1. apply (bit_of_inj b x bd o j); try done; try (unfold bd; lia).
    apply Z.divide_add_r; [done | apply Z.divide_refl].
  - intros o x Ho. change (free_list (set_bit ?q bd)) with (free_list q). unfold link.
    rewrite free_list_insert by (done || lia). rewrite HL.
    assert (forall o, L !! x = Some (o, true) -> x <> a /\ x <> bd) as Hxa by (intros ? ?; split; intros ->; congruence).
    case_bool_decide as E; [subst o; rewrite elem_of_cons |]; rewrite B7 by done; [naive_solver |].
    split; [intros Hx; right; right; destruct (Hxa _ Hx); done | naive_solver].
  - intros o Ho. change (free_list (set_bit ?q bd)) with (free_list q). unfold link. rewrite free_list_insert by (done || lia).
    case_bool_decide as E; [subst o | by apply B8]. constructor; [| by apply B8]. rewrite B7 by done. congruence.
  - intros x o [[-> [= ->]] | [[_ [=]] | (N1 & N2 & Hx)]]%HL; [apply lookup_insert_eq |].
    rewrite lookup_insert_ne by done. by apply B9.
  - intros x o Hx Ho Hx'. apply HL in Hx as [[-> [= ->]] | [[_ [=]] | (N1 & N2 & Hx)]].
    + rewrite Ebud in Hx'. apply HL in Hx' as [[E _] | [[_ [=]] | (_ & ? & _)]]; [unfold bd in E; lia | done].
    + apply HL in Hx' as [[E [= ->]] | [[_ [=]] | (_ & _ & Hx')]]; [| exact (B10 _ _ Hx Ho Hx')].
      apply N2. rewrite <- Ebud, <- E. symmetry. apply bud_bud. by apply (B3 _ _ _ Hx).
Qed.

(** Halves of different sizes go to different lists. *)
Lemma split_one_comm a b j j' :
  j <> j' -> madd a (size_of (Z.of_nat j)) <> madd a (size_of (Z.of_nat j')) ->
  split_one a (split_one a b j) j' = split_one a (split_one a b j') j.
Proof.
  intros Hj Ha. unfold split_one, set_bit, link. cbn [_base _free _free_map index].
  unfold free_list, bit_of. cbn [_base _free]. rewrite !Nat2Z.id. f_equal.
  - rewrite !list_lookup_total_insert_ne by done. by apply list_insert_insert_ne.
  - set_solver.
  - by apply insert_insert_ne.
Qed.

Lemma split_fold_comm a b j n m :
  (j < m)%nat -> (m + n <= NUM_SIZES)%nat -> 0 <= a -> a + sz (m + n) <= 2 ^ MWORD_BITS ->
  foldl (split_one a) (split_one a b j) (seq m n) = split_one a (foldl (split_one a) b (seq m n)) j.
Proof.
  revert b m. induction n as [|n IH]; intros b m Hj Hm Ha Hhi; [done |]. cbn [seq foldl].
  rewrite split_one_comm; [apply IH; try lia; by rewrite Nat.add_succ_comm | lia |].
  rewrite !size_of_sz by lia. unfold madd, mwrap. pose proof (sz_pos j). pose proof (sz_pos m).
  assert (sz j < sz m) by (unfold sz; apply Z.pow_lt_mono_r; lia).
  assert (sz m < sz (m + S n)) by (unfold sz; apply Z.pow_lt_mono_r; lia).
  rewrite !wrap_small by (unfold in_range; lia). lia.
Qed.

Lemma split_spec top b L a n k :
  binv top (Some a) b L -> L !! a = Some ((k + n)%nat, false) ->
  exists L', binv top (Some a) (foldl (split_one a) b (seq k n)) L' /\ L' !! a = Some (k, false)
    /\ (forall x o, L' !! x = Some (o, false) <-> x = a /\ o = k \/ x <> a /\ L !! x = Some (o, false))
    /\ free_bytes (foldl (split_one a) b (seq k n)) = free_bytes b + sz (k + n) - sz k
    /\ _base (foldl (split_one a) b (seq k n)) = _base b.
Proof.
  revert k. induction n as [|n IH]; intros k Hi Ha.
  - rewrite Nat.add_0_r in *. exists L. cbn. split_and!; try done; [| lia].
    intros x o. destruct (decide (x = a)) as [-> | ?]; [rewrite Ha |]; naive_solver.
  - rewrite <- Nat.add_succ_comm in Ha |- *. destruct (IH (S k) Hi Ha) as (L1 & Hi1 & Ha1 & Hlive & Hby & Hba).
    destruct (b_leaf _ _ _ _ Hi _ _ _ Ha) as (Hk & _ & Hlo & Hhi). destruct (b_base _ _ _ _ Hi) as (_ & _ & Hb0 & Ht).
    cbn [seq foldl]. rewrite split_fold_comm by (lia || (cbn [Nat.add]; lia)).
    destruct (split_one_inv _ _ _ _ _ Hi1 Ha1) as [Hi2 Hby2]. pose proof (sz_pos k). pose proof (sz_S k).
    eexists. split; [exact Hi2 |]. split_and!.
    + rewrite lookup_insert_ne by lia. apply lookup_insert_eq.
    + intros x o. rewrite !lookup_insert_Some, Hlive. split.
      * intros [[_ [=]] | [_ [[<- [= <-]] | [? [[-> _] | ?]]]]]; [by left | done | by right].
      * intros [[-> ->] | [Hne HL]]; right.
        -- split; [lia | by left].
        -- split; [| right; split; [done | by right]]. intros E.
           (* a live block does not start inside of the block in hand *)
           assert (L1 !! x = Some (o, false)) as HL1 by (apply Hlive; by right).
           pose proof (b_disj _ _ _ _ Hi1 _ _ _ _ _ _ Ha1 HL1 ltac:(lia)). lia.
    + rewrite Hby2, Hby. lia.
    + done.
Qed.

Lemma find_free_spec n b k :
  match find_free n b k with
  | Some (i, f) => (k <= i < k + n)%nat /\ f ∈ free_list b (Z.of_nat i)
  | None => forall i, (k <= i < k + n)%nat -> free_list b (Z.of_nat i) = []
  end.
Proof.
  revert k. induction n as [|n IH]; intros k; cbn [find_free]; [intros i Hi; lia |].
  destruct (free_list b (Z.of_nat k)) as [|f l] eqn:E.
  - specialize (IH (S k)). destruct (find_free n b (S k)) as [[i f] |].
    + destruct IH. split; [lia | done].
    + intros i Hi. destruct (decide (i = k)) as [-> | ?]; [done |]. apply IH. lia.
  - split; [lia |]. rewrite E. left.
Qed.

Lemma alloc_index_spec top b L k :
  binv top None b L -> (k < NUM_SIZES)%nat ->
  match alloc_index b k with
  | (Some a, b') => exists L', binv top None b' L' /\ L' !! a = Some (k, false)
      /\ (forall x o, L' !! x = Some (o, false) <-> x = a /\ o = k \/ L !! x = Some (o, false))
      /\ L !! a <> None /\ (forall o, L !! a <> Some (o, false))
      /\ free_bytes b' = free_bytes b - sz k /\ _base b' = _base b
  | (None, b') => b' = b /\ forall a o, (k <= o)%nat -> L !! a <> Some (o, true)
  end.
Proof.
  intros Hi Hk. unfold alloc_index. pose proof (find_free_spec (NUM_SIZES - k) b k) as Hf.
  destruct (find_free _ b k) as [[i f] |].
  - destruct Hf as [Hr Hf]. apply (b_free _ _ _ _ Hi) in Hf; [| lia].
    pose proof (take_inv _ _ _ _ _ Hi Hf) as Hi1. unfold split.
    assert (<[f := (i, false)]> L !! f = Some ((k + (i - k))%nat, false)) as Hlf
      by (rewrite lookup_insert_eq; by replace (k + (i - k))%nat with i by lia).
    destruct (split_spec _ _ _ _ _ _ Hi1 Hlf) as (L' & Hi2 & Ha & Hlive & Hby & Hba).
    exists L'. split; [by eapply clear_inv |]. split_and!; try done.
    + intros x o. rewrite Hlive, lookup_insert_Some. split.
      * intros [? | [Hne [[-> _] | [_ ?]]]]; [by left | done | by right].
      * intros [? | Hx]; [by left | right]. assert (x <> f) by (intros ->; congruence). split; [done |]. by right.
    + congruence.
    + intros o. congruence.
    + change (free_bytes (clear_bit ?q f)) with (free_bytes q). rewrite Hby.
      rewrite (free_bytes_remove _ _ _ _ _ _ Hi Hf). replace (k + (i - k))%nat with i by lia. lia.
  - split; [done |]. intros a o Ho Ha. destruct (b_leaf _ _ _ _ Hi _ _ _ Ha) as (Hlt & _).
    apply (b_free _ _ _ _ Hi) in Ha; [| done]. rewrite Hf in Ha by lia. by apply elem_of_nil in Ha.
Qed.

(** ** When no block is large enough

    Because buddies are always merged, every aligned block of a size whose lists
    and those above are empty contains memory that is in use. *)
Lemma no_block_overlaps top b L k B :
  binv top None b L -> (k < NUM_SIZES)%nat -> (forall a o, (k <= o)%nat -> L !! a <> Some (o, true)) ->
  (sz k | B) -> _base b <= B -> B + sz k <= top ->
  exists a o, L !! a = Some (o, false) /\ a < B + sz k /\ B < a + sz o.
Proof.
  intros Hi Hk Hno HB Hlo Hhi. pose proof (sz_pos k).
  assert (forall n a o f, (o < n)%nat -> (o < k)%nat -> L !! a = Some (o, f) -> B <= a -> a + sz o <= B + sz k ->
    exists a o, L !! a = Some (o, false) /\ a < B + sz k /\ B < a + sz o) as Hind.
  { induction n as [|n IH]; intros a o f Hon Hok Ha Hla Hha; [lia |]. pose proof (sz_pos o).
    destruct f; [| exists a, o; split; [done | lia]].
    destruct (b_leaf _ _ _ _ Hi _ _ _ Ha) as (_ & Hd & _).
    destruct (buddy_leaf _ _ _ _ _ _ _ Hi Ha ltac:(lia)) as (o' & g & Hb & Hle).
    destruct (b_leaf _ _ _ _ Hi _ _ _ Hb) as (_ & Hdb & _). pose proof (sz_pos o').
    (* the buddy is in the same block *)
    assert (B <= bud a o /\ bud a o + sz o <= B + sz k) as [Hbl Hbh].
    { pose proof (sz_S o) as HS. destruct (bud_cases a o Hd) as [[Hd2 E] | (Hd2 & _ & E)]; rewrite E.
      - pose proof (aligned_start (S o) k a B ltac:(lia) Hd2 HB ltac:(lia)). lia.
      - destruct HB as [q Hq]. destruct (sz_divide (S o) k ltac:(lia)) as [m Hm]. destruct Hd2 as [r Hr].
        pose proof (sz_pos (S o)). assert (q * m <= r) by nia. split; [nia | lia]. }
    pose proof (sz_le o' o Hle).
    destruct g; [| exists (bud a o), o'; split; [done | lia]].
    destruct (decide (o' = o)) as [-> | Hne].
    - exfalso. exact (b_merged _ _ _ _ Hi _ _ Ha ltac:(lia) Hb).
    - eapply (IH _ o' true); [lia | lia | exact Hb | lia | lia]. }
  destruct (b_cover _ _ _ _ Hi B ltac:(lia)) as (a & o & f & Ha & Hin).
  destruct (b_leaf _ _ _ _ Hi _ _ _ Ha) as (Ho & Hd & _).
  destruct (decide (k <= o)%nat) as [Hge | Hlt].
  - destruct f; [by edestruct Hno |]. exists a, o. split; [done | lia].
  - assert (a = B) as ->.
    { destruct (Z.divide_trans _ _ _ (sz_divide o k ltac:(lia)) HB) as [q Hq]. destruct Hd as [r Hr].
      pose proof (sz_pos o). assert (q = r) by nia. lia. }
    eapply (Hind (S o) B o f); [lia | lia | done | lia |]. pose proof (sz_le o k ltac:(lia)). lia.
Qed.

(** ** Size indices *)
Lemma size_index_spec size :
  size <= sz (NUM_SIZES - 1) ->
  exists k, size_index size = Some k /\ (k < NUM_SIZES)%nat /\ size <= sz k /\ (k = O \/ sz (k - 1) < size).
Proof.
  intros Hs. unfold size_index. assert (NUM_SIZES <= 64)%nat as H64 by (destruct MWORD_BITS_ok; lia).
  assert (forall fuel i, (NUM_SIZES <= fuel + i)%nat -> (i < NUM_SIZES)%nat -> (i = O \/ sz (i - 1) < size) ->
    exists k, find_index fuel i size = Some k /\ (k < NUM_SIZES)%nat /\ size <= sz k /\ (k = O \/ sz (k - 1) < size))
    as Hf; [| apply Hf; [lia | lia | by left]].
  induction fuel as [|fuel IH]; intros i Hfuel Hi Hlow; [lia |]. cbn [find_index]. rewrite size_of_sz by lia.
  destruct (Z.ltb_spec (sz i) size) as [Hlt | Hge]; [| by exists i].
  destruct (decide (S i < NUM_SIZES)%nat) as [Hn | Hn].
  - apply IH; [lia | done |]. right. by rewrite Nat.sub_succ, Nat.sub_0_r.
  - replace (NUM_SIZES - 1)%nat with i in Hs by lia. lia.
Qed.

(** ** Reachable allocators

    [live] are the blocks that are handed out, with their size index.  Memory
    that has not been given to the allocator yet counts as handed out in minimal
    blocks; [add_mem] frees those.  Users may write what they like into their
    blocks, over what the allocator had stored there. *)
Abbreviation live_map := (gmap Z nat).

Inductive step : t * live_map -> t * live_map -> Prop :=
| step_alloc b G size k a b' :
    size_index size = Some k -> alloc b size = Some (Some a, b') -> step (b, G) (b', <[a := k]> G)
| step_free b G a k size b' :
    G !! a = Some k -> size_index size = Some k -> free b a size = Some b' -> step (b, G) (b', delete a G)
| step_write b G ix :
    (forall x, (forall a k, G !! a = Some k -> ~ (a <= x < a + sz k)) -> ix !! x = index b !! x) ->
    step (b, G) (mk (_base b) (_free b) (_free_map b) ix, G).

Definition live_bytes (G : live_map) : Z := map_fold (fun _ k s => sz k + s) 0 G.

Definition all_live (base : Z) (n : nat) : live_map :=
  list_to_map ((fun i => (base + Z.of_nat i * sz 0, O)) <$> seq 0 n).

Record sinv (base top : Z) (b : t) (G : live_map) : Prop := {
  s_leaves : exists L, binv top None b L /\ forall x o, G !! x = Some o <-> L !! x = Some (o, false);
  s_base : _base b = base;
  s_bytes : free_bytes b + live_bytes G = top - base }.

Lemma live_insert G a k : G !! a = None -> live_bytes (<[a := k]> G) = sz k + live_bytes G.
Proof.
  intros Ha. unfold live_bytes. rewrite map_fold_insert_L; [done | | done]. intros. lia.
Qed.

Lemma step_sinv base top b G b' G' : sinv base top b G -> step (b, G) (b', G') -> sinv base top b' G'.
Proof.
  intros [(L & Hi & HG) Hb Hby] Hst.
  inversion Hst as [? ? size k a ? Hk Ha | ? ? a k size ? Ga Hk Ha | ? ? ix Hix]; subst.
  - unfold alloc in Ha. rewrite Hk in Ha. cbn in Ha. injection Ha as Ha.
    destruct (decide (k < NUM_SIZES)%nat) as [Hlt | Hge].
    + pose proof (alloc_index_spec top b L k Hi Hlt) as Hs. rewrite Ha in Hs.
      destruct Hs as (L' & Hi' & Ha' & Hlive & _ & Hnl & Hfb & Hba).
      assert (G !! a = None) as HGa
        by (destruct (G !! a) as [o |] eqn:E; [apply HG in E; by edestruct Hnl | done]).
      split; [exists L'; split; [done |] | done |].
      * intros x o. rewrite lookup_insert_Some, Hlive, HG. split; [naive_solver |].
        intros [[-> ->] | Hx]; [by left |]. destruct (decide (a = x)) as [<- | ?]; [by edestruct Hnl | by right].
      * rewrite live_insert by done. lia.
    + unfold alloc_index in Ha. replace (NUM_SIZES - k)%nat with O in Ha by lia. done.
  - unfold free in Ha. rewrite Hk in Ha. cbn in Ha. injection Ha as <-.
    pose proof (proj1 (HG _ _) Ga) as La.
    destruct (free_index_spec top b L a k Hi La) as (L' & Hi' & Hlive & Hfb & Hba).
    split; [exists L'; split; [done |] | done |].
    + intros x o. rewrite lookup_delete_Some, Hlive, HG. naive_solver.
    + rewrite <- (insert_delete_id G a k Ga) in Hby. rewrite live_insert in Hby by apply lookup_delete_eq. lia.
  - split; [exists L; split; [| done] | done | done].
    pose proof Hi as [B1 B2 B3 B4 B5 B6 B7 B8 B9 B10]. split; try done.
    intros x o Hx. cbn [index]. rewrite Hix; [by apply B9 |]. intros c k HGc Hin.
    apply HG in HGc. pose proof (sz_pos o). pose proof (sz_pos k).
    destruct (Z.lt_trichotomy c x) as [Hlt | [-> | Hlt]]; [| congruence | lia].
    pose proof (B4 _ _ _ _ _ _ HGc Hx Hlt). lia.
Qed.

Lemma addrs_nodup base m n : NoDup ((fun i => (base + Z.of_nat i * sz 0, O)) <$> seq m n).*1.
Proof.
  rewrite <- list_fmap_compose. apply NoDup_fmap; [| apply NoDup_seq].
  intros i j. cbn. pose proof (sz_pos 0). intros E. assert (Z.of_nat i = Z.of_nat j) by nia. lia.
Qed.

Lemma all_live_lookup base n x k :
  all_live base n !! x = Some k <-> k = O /\ exists i, (i < n)%nat /\ x = base + Z.of_nat i * sz 0.
Proof.
  unfold all_live. rewrite <- elem_of_list_to_map by apply addrs_nodup. rewrite list_elem_of_fmap. split.
  - intros (i & [= -> ->] & Hi%elem_of_seq). split; [done |]. exists i. split; [lia | done].
  - intros (-> & i & Hi & ->). exists i. rewrite elem_of_seq. split; [done | lia].
Qed.

Lemma all_live_bytes base n : live_bytes (all_live base n) = Z.of_nat n * sz 0.
Proof.
  set (f := fun i => (base + Z.of_nat i * sz 0, O)).
  assert (forall m, live_bytes (list_to_map (f <$> seq m n)) = Z.of_nat n * sz 0) as Hm; [| apply Hm].
  induction n as [|n IH]; intros m; [done |]. pose proof (addrs_nodup base m (S n)) as Hn. fold f in Hn.
  change (seq m (S n)) with (m :: seq (S m) n) in *. rewrite !fmap_cons in *.
  apply NoDup_cons in Hn as [Hn _]. unfold f at 1. rewrite list_to_map_cons, live_insert.
  - rewrite IH. lia.
  - by apply not_elem_of_list_to_map_1.
Qed.

Lemma max_size_sz : Max_size = sz (NUM_SIZES - 1).
Proof.
  unfold Max_size, Num_sizes. replace (Z.of_nat NUM_SIZES - 1) with (Z.of_nat (NUM_SIZES - 1)) by lia.
  apply size_of_sz. lia.
Qed.

(** The memory from an aligned start on, [n] minimal blocks of it. *)
Definition region (base : Z) (n : nat) : Prop :=
  (sz (NUM_SIZES - 1) | base) /\ (sz (NUM_SIZES - 1) | Z.of_nat n * sz 0)
  /\ 0 <= base /\ base + Z.of_nat n * sz 0 <= 2 ^ MWORD_BITS /\ base < 2 ^ MWORD_BITS.

Lemma init_sinv base n :
  region base n -> sinv base (base + Z.of_nat n * sz 0) (init base) (all_live base n).
Proof.
  intros (Hb & Hn & Hb0 & Ht & Hbt). pose proof (sz_pos 0).
  assert (calc_base_addr base = base) as Eb.
  { unfold calc_base_addr. rewrite max_size_sz. unfold sz. rewrite trunc_pow2 by (unfold in_range; lia).
    fold (sz (NUM_SIZES - 1)). pose proof (sz_pos (NUM_SIZES - 1)).
    assert (base mod sz (NUM_SIZES - 1) = 0) as ->; [apply Z.mod_divide; [lia | done] | lia]. }
  assert (forall o, (o < NUM_SIZES)%nat -> free_list (init base) (Z.of_nat o) = []) as Hfl.
  { intros o Ho. unfold free_list, init. cbn [_free]. rewrite Nat2Z.id. by apply lookup_total_replicate_2. }
  set (L := (fun k : nat => (k, false)) <$> all_live base n).
  assert (forall x o f, L !! x = Some (o, f) <-> f = false /\ o = O /\ exists i, (i < n)%nat /\ x = base + Z.of_nat i * sz 0) as HL.
  { intros x o f. unfold L. rewrite lookup_fmap, fmap_Some. split.
    - intros (k & Hk%all_live_lookup & [= -> ->]). naive_solver.
    - intros (-> & -> & Hx). exists O. split; [by apply all_live_lookup | done]. }
  split; [exists L; split | exact Eb |].
  - split; cbn [init _base _free _free_map index]; rewrite ?Eb.
    + split_and!; try done; try lia. by apply Z.divide_add_r.
    + apply length_replicate.
    + intros x o f (-> & -> & i & Hi & ->)%HL. split_and!; [lia | | lia | nia].
      apply Z.divide_add_r; [| apply Z.divide_factor_r].
      apply Z.divide_trans with (sz (NUM_SIZES - 1)); [apply sz_divide; lia | done].
    + intros x o f x' o' f' (-> & -> & i & Hi & ->)%HL (-> & -> & i' & Hi' & ->)%HL Hlt.
      assert (Z.of_nat i < Z.of_nat i') by (apply Z.mul_lt_mono_pos_r with (sz 0); [done | lia]).
      assert ((Z.of_nat i + 1) * sz 0 <= Z.of_nat i' * sz 0) by (apply Z.mul_le_mono_nonneg_r; lia). lia.
    + intros x Hx. set (q := (x - base) / sz 0). assert (sz 0 <> 0) as Hnz by lia.
      pose proof (Z.div_mod (x - base) _ Hnz) as Hdm. pose proof (Z.mod_pos_bound (x - base) _ (sz_pos 0)). fold q in Hdm.
      assert (0 <= q) by (apply Z.div_pos; lia). assert (q < Z.of_nat n) by (apply Z.div_lt_upper_bound; lia).
      exists (base + q * sz 0), O, false. split; [| lia]. apply HL. split_and!; try done.
      exists (Z.to_nat q). split; [lia | by rewrite Z2Nat.id by lia].
    + intros x o f (-> & _)%HL _. set_solver.
    + intros o a Ho. rewrite Hfl by done. split; [by intros ?%elem_of_nil | by intros (? & _)%HL].
    + intros o Ho. rewrite Hfl by done. constructor.
    + by intros x o (? & _)%HL.
    + by intros x o (? & _)%HL.
  - intros x o. rewrite all_live_lookup, HL. tauto.
  - rewrite all_live_bytes. assert (free_bytes (init base) = 0) as ->; [| lia]. unfold free_bytes.
    rewrite (map_ext_in _ (fun _ => 0)).
    + generalize (seq 0 NUM_SIZES). intros l. induction l; cbn; lia.
    + intros o Ho%in_seq. rewrite Hfl by lia. cbn. lia.
Qed.

Lemma reachable_sinv base n b G :
  region base n -> rtc step (init base, all_live base n) (b, G) -> sinv base (base + Z.of_nat n * sz 0) b G.
Proof.
  intros Hr Hs. pose proof (init_sinv base n Hr) as Hi.
  remember (init base, all_live base n) as s0 eqn:E0. remember (b, G) as s1 eqn:E1.
  assert (sinv base (base + Z.of_nat n * sz 0) (fst s0) (snd s0)) as Hi0 by (by subst).
  assert (sinv base (base + Z.of_nat n * sz 0) (fst s1) (snd s1)); [| by subst].
  clear E0 E1 Hi. induction Hs as [|[] [] c Hab _ IH]; [done |]. apply IH. by eapply step_sinv.
Qed.

(** C21: a block from [alloc] lies in the memory of the allocator, is aligned
    to its size, which is the smallest supported size that holds the request,
    and overlaps no block that is in use, whatever was allocated, freed and
    written to before. *)
Theorem buddy_alloc_fresh base n b G size a b' :
  region base n -> rtc step (init base, all_live base n) (b, G) -> size <= sz (NUM_SIZES - 1) ->
  alloc b size = Some (Some a, b') ->
  exists k, size <= sz k /\ (k = O \/ sz (k - 1) < size)
    /\ (sz k | a) /\ base <= a /\ a + sz k <= base + Z.of_nat n * sz 0
    /\ forall x o, G !! x = Some o -> x + sz o <= a \/ a + sz k <= x.
Proof.
  intros Hr Hs Hsz Ha. destruct (reachable_sinv _ _ _ _ Hr Hs) as [(L & Hi & HG) Hb _].
  destruct (size_index_spec size Hsz) as (k & Hk & Hlt & Hle & Hmin). exists k. split_and!; try done.
  all: unfold alloc in Ha; rewrite Hk in Ha; cbn in Ha; injection Ha as Ha;
    pose proof (alloc_index_spec _ b L k Hi Hlt) as Hsp; rewrite Ha in Hsp;
    destruct Hsp as (L' & Hi' & Ha' & Hlive & _ & Hnl & _ & Hba);
    destruct (b_leaf _ _ _ _ Hi' _ _ _ Ha') as (_ & Hd & Hlo & Hhi).
  - done.
  - lia.
  - done.
  - intros x o HGx. apply HG in HGx. assert (L' !! x = Some (o, false)) as Hx by (apply Hlive; by right).
    destruct (Z.lt_trichotomy x a) as [Hlt' | [-> | Hlt']].
    + left. exact (b_disj _ _ _ _ Hi' _ _ _ _ _ _ Hx Ha' Hlt').
    + by edestruct Hnl.
    + right. exact (b_disj _ _ _ _ Hi' _ _ _ _ _ _ Ha' Hx Hlt').
Qed.

(** C22: [alloc] fails only when there is no room: every aligned block of the
    size that it looks for overlaps a block in use.  Nothing is lost to
    fragmentation inside of an aligned block, because [free] merges. *)
Theorem buddy_alloc_complete base n b G size b' :
  region base n -> rtc step (init base, all_live base n) (b, G) -> size <= sz (NUM_SIZES - 1) ->
  alloc b size = Some (None, b') ->
  b' = b /\ exists k, (k < NUM_SIZES)%nat /\ size <= sz k /\ (k = O \/ sz (k - 1) < size)
    /\ forall B, (sz k | B) -> base <= B -> B + sz k <= base + Z.of_nat n * sz 0 ->
         exists x o, G !! x = Some o /\ x < B + sz k /\ B < x + sz o.
Proof.
  intros Hr Hs Hsz Ha. destruct (reachable_sinv _ _ _ _ Hr Hs) as [(L & Hi & HG) Hb _].
  destruct (size_index_spec size Hsz) as (k & Hk & Hlt & Hle & Hmin).
  unfold alloc in Ha. rewrite Hk in Ha. cbn in Ha. injection Ha as Ha.
  pose proof (alloc_index_spec _ b L k Hi Hlt) as Hsp. rewrite Ha in Hsp. destruct Hsp as [-> Hno].
  split; [done |]. exists k. split_and!; try done. intros B HB Hlo Hhi.
  destruct (no_block_overlaps _ _ _ _ B Hi Hlt Hno HB ltac:(lia) Hhi) as (x & o & Hx & H1 & H2).
  exists x, o. split; [by apply HG | done].
Qed.

(** No byte is lost or counted twice: the free lists and the blocks in use
    together make up the memory, and blocks in use do not overlap. *)
Theorem buddy_conserves base n b G :
  region base n -> rtc step (init base, all_live base n) (b, G) ->
  free_bytes b + live_bytes G = Z.of_nat n * sz 0
  /\ forall x o x' o', G !! x = Some o -> G !! x' = Some o' -> x < x' -> x + sz o <= x'.
Proof.
  intros Hr Hs. destruct (reachable_sinv _ _ _ _ Hr Hs) as [(L & Hi & HG) Hb Hby].
  split; [lia |]. intros x o x' o' Hx%HG Hx'%HG. by eapply b_disj.
Qed.

(** The free map is large enough: the bit that [buddy] tests for a block
    of the memory is one of the [buddy_bits], also when the buddy lies behind
    the end of the memory. *)
Theorem buddy_bit_in_map min_addr max_addr a k b :
  0 <= min_addr <= max_addr -> max_addr + 1 + sz 0 < 2 ^ MWORD_BITS -> _base b = calc_base_addr min_addr ->
  _base b <= a -> a + sz k <= max_addr + 1 -> (sz k | a) -> (S k < NUM_SIZES)%nat ->
  0 <= bit_of b (bud a k) < buddy_bits min_addr max_addr.
Proof.
  intros Hmin Hmax Hb Hlo Hhi Hd Hk. pose proof (sz_pos 0). pose proof (sz_pos k).
  pose proof (sz_pos (NUM_SIZES - 1)) as HM. set (M := sz (NUM_SIZES - 1)) in *.
  assert (_base b = min_addr - min_addr mod M) as Eb.
  { rewrite Hb. unfold calc_base_addr. rewrite max_size_sz. apply trunc_pow2; [unfold in_range; lia | lia]. }
  pose proof (Z.mod_pos_bound min_addr M HM) as Hmod.
  assert (M | _base b) as HMb.
  { rewrite Eb. exists (min_addr / M). pose proof (Z.div_mod min_addr M ltac:(lia)). lia. }
  assert (min_addr mod M <= min_addr) by (apply Z.mod_le; lia).
  set (m := max_addr - _base b + 1).
  assert (calc_max_mem_size min_addr max_addr = m) as Em.
  { unfold calc_max_mem_size, madd, msub, mwrap. rewrite <- Hb. rewrite !wrap_small; unfold m; unfold in_range; try lia.
    rewrite wrap_small by (unfold in_range; lia). lia. }
  (* the tested address is at most the end of the memory *)
  assert (_base b <= bud a k <= max_addr + 1 /\ (m mod M = 0 -> bud a k < max_addr + 1)) as [Hr Hlast].
  { pose proof (sz_S k) as HS. destruct (bud_cases a k Hd) as [[Hd2 E] | (Hd2 & _ & E)]; rewrite E.
    - split; [lia |]. intros Hm. apply Z.mod_divide in Hm; [| lia].
      assert (M | max_addr + 1) as HMe by (replace (max_addr + 1) with (m + _base b) by (unfold m; lia); by apply Z.divide_add_r).
      destruct (Z.divide_trans _ _ _ (sz_divide (S k) (NUM_SIZES - 1) ltac:(lia)) HMe) as [p Hp].
      destruct Hd2 as [q Hq]. pose proof (sz_pos (S k)). assert (q < p) by nia. nia.
    - destruct (Z.divide_trans _ _ _ (sz_divide (S k) (NUM_SIZES - 1) ltac:(lia)) HMb) as [p Hp].
      destruct Hd2 as [q Hq]. pose proof (sz_pos (S k)). assert (p <= q) by nia. split; [split; nia | lia]. }
  assert (sz 0 | bud a k - _base b) as [q Hq].
  { apply Z.divide_sub_r.
    - apply Z.divide_trans with (sz k); [apply sz_divide; lia | by apply bud_align].
    - apply Z.divide_trans with M; [apply sz_divide; lia | done]. }
  assert (bit_of b (bud a k) = q) as ->.
  { unfold bit_of, msub, mwrap. rewrite wrap_small by (unfold in_range; lia). rewrite Min_size_sz, Hq.
    apply Z.div_mul. lia. }
  assert (buddy_bits min_addr max_addr = (m + sz 0 - 1) / sz 0 + if m mod M =? 0 then 0 else 1) as ->.
  { unfold buddy_bits. rewrite Em, Min_size_sz, max_size_sz. fold M.
    assert (msub (madd m (sz 0)) 1 = m + sz 0 - 1) as ->.
    { unfold msub, madd, mwrap. rewrite (wrap_small _ (m + sz 0)) by (unfold in_range, m; lia).
      apply wrap_small. unfold in_range, m. lia. }
    assert (m .& (M - 1) = m mod M) as ->.
    { unfold M, sz. rewrite <- Z.land_ones by lia. f_equal. rewrite Z.ones_equiv. lia. }
    assert (0 <= (m + sz 0 - 1) / sz 0 <= m + sz 0 - 1).
    { split; [apply Z.div_pos; unfold m; lia | apply Z.div_le_upper_bound; [lia |]]. unfold m. nia. }
    assert ((m + sz 0 - 1) / sz 0 < m + sz 0) by lia.
    unfold madd, mwrap, nonzero. rewrite wrap_small; [by destruct (m mod M =? 0) |].
    unfold in_range. destruct (m mod M =? 0); unfold m in *; cbn [negb]; lia. }
  split; [nia |]. destruct (Z.eqb_spec (m mod M) 0) as [E0 | E0].
  - specialize (Hlast E0). rewrite Z.add_0_r. apply Z.lt_le_trans with (q + 1); [lia |].
    apply Z.div_le_lower_bound; [lia |]. unfold m. nia.
  - apply Z.le_lt_trans with ((m + sz 0 - 1) / sz 0); [| lia]. apply Z.div_le_lower_bound; [lia |]. unfold m. nia.
Qed.

End proofs.

(** ** A small allocator: blocks of 1, 2 and 4 KB in 8 KB at 64 KB. *)
Module Buddy_witness.
Import Buddy.
#[local] Existing Instance arch64.
#[local] Instance params : Buddy_params := {| MIN_LOG2_SIZE := 10; NUM_SIZES := 3 |}.

Lemma fit : 0 <= MIN_LOG2_SIZE /\ (0 < NUM_SIZES)%nat /\ MIN_LOG2_SIZE + Z.of_nat NUM_SIZES < MWORD_BITS.
Proof. cbn. lia. Qed.

Definition base : Z := 0x10000.

Lemma region_ok : region base 8.
Proof.
  unfold region. split_and!; [exists 16; reflexivity | exists 2; reflexivity | unfold base; lia
    | vm_compute; discriminate | vm_compute; reflexivity].
Qed.

(** The first four blocks are given to the allocator, which merges them. *)
Definition st (i : nat) : t := default (init base) (add_mem (init base) base (Z.of_nat i * 1024)).

Lemma reach n : (n = 0 \/ n = 1 \/ n = 2 \/ n = 3 \/ n = 4)%nat ->
  exists G, rtc step (init base, all_live base 8) (st n, G).
Proof.
  assert (forall i, (i < 4)%nat -> forall G, G !! (base + Z.of_nat i * 1024) = Some O ->
    step (st i, G) (st (S i), delete (base + Z.of_nat i * 1024) G)) as Hst.
  { intros i Hi G HG. eapply (step_free _ _ _ O 1024); [done | vm_compute; reflexivity |].
    destruct i as [|[|[|[|i]]]]; [vm_compute; reflexivity .. | lia]. }
  assert (forall i, (i < 8)%nat -> all_live base 8 !! (base + Z.of_nat i * 1024) = Some O) as Hall.
  { intros i Hi. destruct i as [|[|[|[|[|[|[|[|i]]]]]]]]; [vm_compute; reflexivity .. | lia]. }
  set (del := fun (i : nat) (G : gmap Z nat) => delete (base + Z.of_nat i * 1024) G).
  set (G0 := all_live base 8) in *.
  assert (del O G0 !! (base + Z.of_nat 1 * 1024) = Some O) as E1 by (vm_compute; reflexivity).
  assert (del 1%nat (del O G0) !! (base + Z.of_nat 2 * 1024) = Some O) as E2 by (vm_compute; reflexivity).
  assert (del 2%nat (del 1%nat (del O G0)) !! (base + Z.of_nat 3 * 1024) = Some O) as E3 by (vm_compute; reflexivity).
  pose proof (Hst O ltac:(lia) _ (Hall O ltac:(lia))) as S0. pose proof (Hst 1%nat ltac:(lia) _ E1) as S1.
  pose proof (Hst 2%nat ltac:(lia) _ E2) as S2. pose proof (Hst 3%nat ltac:(lia) _ E3) as S3.
  change (init base) with (st 0) at 1.
  intros [-> | [-> | [-> | [-> | ->]]]]; eexists;
    [ apply rtc_refl | eapply rtc_l; [exact S0 | apply rtc_refl]
    | eapply rtc_l; [exact S0 |]; eapply rtc_l; [exact S1 | apply rtc_refl]
    | eapply rtc_l; [exact S0 |]; eapply rtc_l; [exact S1 |]; eapply rtc_l; [exact S2 | apply rtc_refl]
    | eapply rtc_l; [exact S0 |]; eapply rtc_l; [exact S1 |]; eapply rtc_l; [exact S2 |];
      eapply rtc_l; [exact S3 | apply rtc_refl] ].
Qed.

Lemma buddy_alloc_fresh_witness :
  exists a b', alloc (st 4) 1500 = Some (Some a, b') /\ exists k, 1500 <= sz k /\ (sz k | a).
Proof.
  destruct (reach 4) as [G HG]; [lia |].
  assert (exists a b', alloc (st 4) 1500 = Some (Some a, b')) as (a & b' & E)
    by (do 2 eexists; vm_compute; reflexivity).
  exists a, b'. split; [exact E |].
  destruct (buddy_alloc_fresh fit base 8 (st 4) G 1500 a b' region_ok HG ltac:(vm_compute; discriminate) E)
    as (k & H1 & _ & H3 & _). exists k. split; [exact H1 | exact H3].
Defined.

Lemma buddy_alloc_complete_witness :
  alloc (st 3) 3000 = Some (None, st 3)
  /\ exists k, 3000 <= sz k /\ (k = O \/ sz (k - 1) < 3000).
Proof.
  destruct (reach 3) as [G HG]; [lia |].
  assert (alloc (st 3) 3000 = Some (None, st 3)) as E by (vm_compute; reflexivity).
  split; [exact E |].
  destruct (buddy_alloc_complete fit base 8 (st 3) G 3000 (st 3) region_ok HG ltac:(vm_compute; discriminate) E)
    as (_ & k & _ & H1 & H2 & _). exists k. split; [exact H1 | exact H2].
Defined.

Lemma buddy_conserves_witness : exists G, free_bytes (st 4) + live_bytes G = 8 * 1024.
Proof.
  destruct (reach 4) as [G HG]; [lia |]. exists G.
  exact (proj1 (buddy_conserves fit base 8 (st 4) G region_ok HG)).
Defined.

Lemma buddy_bit_in_map_witness :
  0 <= bit_of (init base) (bud (base + 4096) 0) < buddy_bits base (base + 5119).
Proof.
  apply (buddy_bit_in_map fit base (base + 5119) (base + 4096) 0 (init base)).
  - unfold base. lia.
  - vm_compute. reflexivity.
  - reflexivity.
  - vm_compute. discriminate.
  - vm_compute. discriminate.
  - exists 68. reflexivity.
  - simpl. lia.
Defined.

End Buddy_witness.
