(* ===== verification/Bitmap.v ===== *)
(** Bitmaps: [src/src/lib/libk/bitmap.h], and the CPU masks built on them
    ([src/src/kern/cpu_mask.h]).

    A bitmap of more bits than a machine word has is an array of words, a smaller
    one is a single word.  An access outside of the array, or a shift by the width
    of a word or more, is [None].  The atomic operations are given by their effect
    when the first compare-and-exchange succeeds.

    The class [Bit_set] is what the users of a bitmap rely on: a set of numbers
    below a bound.  [bitmap_refines] shows that bitmaps of both kinds implement
    sets, and [cpu_mask_bit_set] makes them an instance of the class. *)

From S2P Require Import Prelude.

(** The bit [n] of a machine word, when there is one. *)
Definition shl1 `{Arch} (n : Z) : option Z :=
  if (0 <=? n) && (n <? MWORD_BITS) then Some (mshl 1 n) else None.

(** [__builtin_ffsl]: one plus the position of the lowest bit set, or zero. *)
Definition ffsl `{Arch} (v : Z) : Z :=
  match list_find (fun i => Z.testbit v i = true) (seqZ 0 MWORD_BITS) with
  | Some (_, i) => i + 1
  | None => 0
  end.

(** ** Bitmap_base_base: single bits of an array of words *)
Module Bitmap_base_base.
Section ops.
Context `{Arch}.

Definition Bpl : Z := MWORD_BITS.
Definition nr_elems (nr_bits : Z) : Z := msub (madd nr_bits Bpl) 1 / Bpl.
Definition size_in_bytes (nr_bits : Z) : Z := mwrap (nr_elems nr_bits * (MWORD_BITS / 8)).

Definition word (_bits : list Z) (bit : Z) : option Z := _bits !! Z.to_nat (bit / Bpl).

(** Replaces the word of [bit] by [f] of the word and the mask of the bit. *)
Definition on_word (_bits : list Z) (bit : Z) (f : Z -> Z -> Z) : option (list Z) :=
  w ← word _bits bit;
  k ← shl1 (bit mod Bpl);
  Some (<[Z.to_nat (bit / Bpl) := f w k]> _bits).

Definition bit (_bits : list Z) (bit : Z) (on : bool) : option (list Z) :=
  on_word _bits bit (fun w k => (w .& mnot k) .| mshl (Z.b2z on) (bit mod Bpl)).
Definition clear_bit (_bits : list Z) (bit : Z) : option (list Z) :=
  on_word _bits bit (fun w k => w .& mnot k).
Definition set_bit (_bits : list Z) (bit : Z) : option (list Z) :=
  on_word _bits bit (fun w k => w .| k).
(** [operator []] *)
Definition get (_bits : list Z) (bit : Z) : option Z :=
  w ← word _bits bit; k ← shl1 (bit mod Bpl); Some (w .& k).
End ops.
End Bitmap_base_base.

(** ** Bitmap_base<true, BITS> *)
Module Bitmap_large.
Section ops.
Context `{Arch}.
Import Bitmap_base_base.

Definition atomic_get_and_clear (_bits : list Z) (bit : Z) : option (list Z * bool) :=
  w ← word _bits bit;
  k ← shl1 (bit mod Bpl);
  if negb (nonzero (w .& k)) then Some (_bits, false)
  else Some (<[Z.to_nat (bit / Bpl) := w .& mnot k]> _bits, nonzero (w .& k)).

Definition atomic_get_and_set (_bits : list Z) (bit : Z) : option (list Z * bool) :=
  w ← word _bits bit;
  k ← shl1 (bit mod Bpl);
  Some (<[Z.to_nat (bit / Bpl) := w .| k]> _bits, nonzero (w .& k)).

Definition atomic_set_bit (_bits : list Z) (bit : Z) : option (list Z) :=
  on_word _bits bit (fun w k => w .| k).
Definition atomic_clear_bit (_bits : list Z) (bit : Z) : option (list Z) :=
  on_word _bits bit (fun w k => w .& mnot k).

Definition invert (_bits : list Z) : list Z := mnot <$> _bits.
Definition clear_all (_bits : list Z) : list Z := (fun _ => 0) <$> _bits.
Definition is_empty (_bits : list Z) : bool := forallb (fun w => negb (nonzero w)) _bits.
Definition atomic_or (_bits r : list Z) : list Z := zip_with Z.lor _bits r.
Definition _or (_bits r : list Z) : list Z := zip_with Z.lor _bits r.

(** The loop of [ffs] over the words from [i] on. *)
Fixpoint ffs_loop (ws : list Z) (i b : Z) : Z :=
  match ws with
  | [] => 0
  | v :: ws =>
      let r := ffsl (v >> b) in
      if r >? 0 then wrap 32 (r + i * Bpl + b) else ffs_loop ws (i + 1) 0
  end.
Definition ffs (_bits : list Z) (bit : Z) : Z :=
  ffs_loop (drop (Z.to_nat (bit / Bpl)) _bits) (bit / Bpl) (bit mod Bpl).

(** [_copy] from a bitmap that is at least as large *)
Definition _copy (_bits s : list Z) : list Z := take (length _bits) s.
End ops.
End Bitmap_large.

(** ** Bitmap_base<false, BITS> *)
Module Bitmap_small.
Section ops.
Context `{Arch}.

Definition bit (_bits bit : Z) (on : bool) : option Z :=
  k ← shl1 bit; Some ((_bits .& mnot k) .| mshl (Z.b2z on) bit).
Definition clear_bit (_bits bit : Z) : option Z := k ← shl1 bit; Some (_bits .& mnot k).
Definition set_bit (_bits bit : Z) : option Z := k ← shl1 bit; Some (_bits .| k).
Definition get (_bits bit : Z) : option Z := k ← shl1 bit; Some (_bits .& k).
Definition atomic_get_and_clear (_bits bit : Z) : option (Z * bool) :=
  k ← shl1 bit;
  if negb (nonzero (_bits .& k)) then Some (_bits, false)
  else Some (_bits .& mnot k, nonzero (_bits .& k)).
Definition atomic_get_and_set (_bits bit : Z) : option (Z * bool) :=
  k ← shl1 bit; Some (_bits .| k, nonzero (_bits .& k)).
Definition atomic_set_bit (_bits bit : Z) : option Z := k ← shl1 bit; Some (_bits .| k).
Definition atomic_clear_bit (_bits bit : Z) : option Z := k ← shl1 bit; Some (_bits .& mnot k).
Definition invert (_bits : Z) : Z := mnot _bits.
Definition clear_all (_bits : Z) : Z := 0.
Definition is_empty (_bits : Z) : bool := negb (nonzero _bits).
Definition atomic_or (_bits r : Z) : Z := _bits .| r.
Definition _or (_bits r : Z) : Z := _bits .| r.
Definition ffs (_bits bit : Z) : option Z :=
  _ ← shl1 bit;
  let r := ffsl (_bits >> bit) in
  Some (if r >? 0 then wrap 32 (r + bit) else 0).
Definition _copy (_bits s : Z) : Z := s.
Definition _copy_large (_bits : Z) (s : list Z) : option Z := head s.
End ops.
End Bitmap_small.

(** ** Bitmap<BITS> *)
Module Bitmap.
Section ops.
Context `{Arch}.

Inductive t := Large (_bits : list Z) | Small (_bits : Z).

Definition is_large (BITS : Z) : bool := BITS >? MWORD_BITS.

Definition make (BITS : Z) : t :=
  if is_large BITS then Large (replicate (Z.to_nat (Bitmap_base_base.nr_elems BITS)) 0) else Small 0.

Definition lift (m : t) (f : list Z -> option (list Z)) (g : Z -> option Z) : option t :=
  match m with
  | Large l => Large <$> f l
  | Small w => Small <$> g w
  end.

Definition bit (m : t) (n : Z) (on : bool) : option t :=
  lift m (fun l => Bitmap_base_base.bit l n on) (fun w => Bitmap_small.bit w n on).
Definition clear_bit (m : t) (n : Z) : option t :=
  lift m (fun l => Bitmap_base_base.clear_bit l n) (fun w => Bitmap_small.clear_bit w n).
Definition set_bit (m : t) (n : Z) : option t :=
  lift m (fun l => Bitmap_base_base.set_bit l n) (fun w => Bitmap_small.set_bit w n).
Definition atomic_set_bit (m : t) (n : Z) : option t :=
  lift m (fun l => Bitmap_large.atomic_set_bit l n) (fun w => Bitmap_small.atomic_set_bit w n).
Definition atomic_clear_bit (m : t) (n : Z) : option t :=
  lift m (fun l => Bitmap_large.atomic_clear_bit l n) (fun w => Bitmap_small.atomic_clear_bit w n).
Definition get (m : t) (n : Z) : option Z :=
  match m with Large l => Bitmap_base_base.get l n | Small w => Bitmap_small.get w n end.

Definition atomic_get_and_clear (m : t) (n : Z) : option (t * bool) :=
  match m with
  | Large l => prod_map Large id <$> Bitmap_large.atomic_get_and_clear l n
  | Small w => prod_map Small id <$> Bitmap_small.atomic_get_and_clear w n
  end.
Definition atomic_get_and_set (m : t) (n : Z) : option (t * bool) :=
  match m with
  | Large l => prod_map Large id <$> Bitmap_large.atomic_get_and_set l n
  | Small w => prod_map Small id <$> Bitmap_small.atomic_get_and_set w n
  end.

Definition invert (m : t) : t :=
  match m with Large l => Large (Bitmap_large.invert l) | Small w => Small (Bitmap_small.invert w) end.
Definition clear_all (m : t) : t :=
  match m with Large l => Large (Bitmap_large.clear_all l) | Small w => Small (Bitmap_small.clear_all w) end.
Definition is_empty (m : t) : bool :=
  match m with Large l => Bitmap_large.is_empty l | Small w => Bitmap_small.is_empty w end.
Definition ffs (m : t) (n : Z) : option Z :=
  match m with Large l => Some (Bitmap_large.ffs l n) | Small w => Bitmap_small.ffs w n end.
Definition atomic_or (m o : t) : option t :=
  match m, o with
  | Large l, Large k => Some (Large (Bitmap_large.atomic_or l k))
  | Small w, Small v => Some (Small (Bitmap_small.atomic_or w v))
  | _, _ => None
  end.
(** [operator |=] *)
Definition or (m o : t) : option t :=
  match m, o with
  | Large l, Large k => Some (Large (Bitmap_large._or l k))
  | Small w, Small v => Some (Small (Bitmap_small._or w v))
  | _, _ => None
  end.
(** [operator =] from a bitmap of at least as many bits *)
Definition assign (m o : t) : option t :=
  match m, o with
  | Large l, Large k => Some (Large (Bitmap_large._copy l k))
  | Small w, Small v => Some (Small (Bitmap_small._copy w v))
  | Small w, Large k => Small <$> Bitmap_small._copy_large w k
  | Large _, Small _ => None
  end.
End ops.
End Bitmap.

(** ** Cpu_mask_t<MAX_NUM_CPUS> *)
Module Cpu_mask.
Section ops.
Context `{Arch}.

(** [storage] is what the memory of the mask held before. *)
Definition make (storage : Bitmap.t) : Bitmap.t := Bitmap.clear_all storage.
Definition empty (_b : Bitmap.t) : bool := Bitmap.is_empty _b.
Definition get (_b : Bitmap.t) (cpu : Z) : option bool := nonzero <$> Bitmap.get _b cpu.
Definition clear (_b : Bitmap.t) (cpu : Z) : option Bitmap.t := Bitmap.clear_bit _b cpu.
Definition set (_b : Bitmap.t) (cpu : Z) : option Bitmap.t := Bitmap.set_bit _b cpu.
Definition atomic_set (_b : Bitmap.t) (cpu : Z) : option Bitmap.t := Bitmap.atomic_set_bit _b cpu.
Definition atomic_clear (_b : Bitmap.t) (cpu : Z) : option Bitmap.t := Bitmap.atomic_clear_bit _b cpu.
Definition atomic_get_and_clear (_b : Bitmap.t) (cpu : Z) : option (Bitmap.t * bool) :=
  Bitmap.atomic_get_and_clear _b cpu.
End ops.
End Cpu_mask.

(** * Bitmaps are sets *)

(** What users of a bitmap rely on: a set of the numbers below [bs_size].
    Operations on other numbers are not specified. *)
Class Bit_set (M : Type) := {
  bs_size : Z;
  bs_ok : M -> Prop;
  bs_get : M -> Z -> bool;
  bs_set : M -> Z -> M;
  bs_clear : M -> Z -> M;
  bs_empty : M -> bool;
  bs_none : M;
  bs_none_ok : bs_ok bs_none;
  bs_get_none n : 0 <= n < bs_size -> bs_get bs_none n = false;
  bs_set_ok m n : bs_ok m -> 0 <= n < bs_size -> bs_ok (bs_set m n);
  bs_get_set m n k : bs_ok m -> 0 <= n < bs_size -> 0 <= k < bs_size ->
    bs_get (bs_set m n) k = (k =? n) || bs_get m k;
  bs_clear_ok m n : bs_ok m -> 0 <= n < bs_size -> bs_ok (bs_clear m n);
  bs_get_clear m n k : bs_ok m -> 0 <= n < bs_size -> 0 <= k < bs_size ->
    bs_get (bs_clear m n) k = negb (k =? n) && bs_get m k;
  bs_empty_spec m : bs_ok m ->
    bs_empty m = true <-> forall n, 0 <= n < bs_size -> bs_get m n = false }.

(** The operations as commands, run on a bitmap and on a set of numbers. *)
Inductive bit_cmd `{Arch} :=
| Bit (n : Z) (on : bool) | Clear (n : Z) | Set_ (n : Z) | Get (n : Z)
| Atomic_set (n : Z) | Atomic_clear (n : Z) | Get_and_clear (n : Z) | Get_and_set (n : Z)
| Invert | Clear_all | Is_empty | Ffs (n : Z)
| Or (o : Bitmap.t) | Atomic_or (o : Bitmap.t) | Assign (o : Bitmap.t).

Inductive bit_result := Done | Bool (b : bool) | Number (n : Z).

Definition ret {A} (r : option A) : option (A * bit_result) := (fun a => (a, Done)) <$> r.

Definition exec `{Arch} (m : Bitmap.t) (c : bit_cmd) : option (Bitmap.t * bit_result) :=
  match c with
  | Bit n on => ret (Bitmap.bit m n on)
  | Clear n => ret (Bitmap.clear_bit m n)
  | Set_ n => ret (Bitmap.set_bit m n)
  | Get n => (fun v => (m, Bool (nonzero v))) <$> Bitmap.get m n
  | Atomic_set n => ret (Bitmap.atomic_set_bit m n)
  | Atomic_clear n => ret (Bitmap.atomic_clear_bit m n)
  | Get_and_clear n => prod_map id Bool <$> Bitmap.atomic_get_and_clear m n
  | Get_and_set n => prod_map id Bool <$> Bitmap.atomic_get_and_set m n
  | Invert => Some (Bitmap.invert m, Done)
  | Clear_all => Some (Bitmap.clear_all m, Done)
  | Is_empty => Some (m, Bool (Bitmap.is_empty m))
  | Ffs n => (fun v => (m, Number v)) <$> Bitmap.ffs m n
  | Or o => ret (Bitmap.or m o)
  | Atomic_or o => ret (Bitmap.atomic_or m o)
  | Assign o => ret (Bitmap.assign m o)
  end.

Fixpoint exec_all `{Arch} (m : Bitmap.t) (cs : list bit_cmd) : option (Bitmap.t * list bit_result) :=
  match cs with
  | [] => Some (m, [])
  | c :: cs =>
      '(m, r) ← exec m c;
      '(m, rs) ← exec_all m cs;
      Some (m, r :: rs)
  end.

(** The words of a bitmap and their bits; [cap] is the number of bits that the
    words have, which may be more than [BITS]. *)
Definition words (m : Bitmap.t) : list Z :=
  match m with Bitmap.Large l => l | Bitmap.Small w => [w] end.

Definition has `{Arch} (m : Bitmap.t) (n : Z) : bool :=
  (0 <=? n) &&
  match words m !! Z.to_nat (n / MWORD_BITS) with
  | Some w => Z.testbit w (n mod MWORD_BITS)
  | None => false
  end.

Definition cap `{Arch} (BITS : Z) : Z :=
  if Bitmap.is_large BITS then Bitmap_base_base.nr_elems BITS * MWORD_BITS else MWORD_BITS.

Definition universe (c : Z) : gset Z := list_to_set (seqZ 0 c).

Definition members `{Arch} (BITS : Z) (m : Bitmap.t) : gset Z :=
  list_to_set (filter (fun n => has m n = true) (seqZ 0 (cap BITS))).

(** One plus the least member from [n] on, or zero *)
Definition next_member (c : Z) (s : gset Z) (n : Z) : Z :=
  match list_find (fun k => k ∈ s) (seqZ n (c - n)) with Some (_, k) => k + 1 | None => 0 end.

Definition spec `{Arch} (BITS : Z) (s : gset Z) (c : bit_cmd) : gset Z * bit_result :=
  match c with
  | Bit n true | Set_ n | Atomic_set n => (s ∪ {[n]}, Done)
  | Bit n false | Clear n | Atomic_clear n => (s ∖ {[n]}, Done)
  | Get n => (s, Bool (bool_decide (n ∈ s)))
  | Get_and_clear n => (s ∖ {[n]}, Bool (bool_decide (n ∈ s)))
  | Get_and_set n => (s ∪ {[n]}, Bool (bool_decide (n ∈ s)))
  | Invert => (universe (cap BITS) ∖ s, Done)
  | Clear_all => (∅, Done)
  | Is_empty => (s, Bool (bool_decide (s = ∅)))
  | Ffs n => (s, Number (next_member (cap BITS) s n))
  | Or o | Atomic_or o => (s ∪ members BITS o, Done)
  | Assign o => (members BITS o, Done)
  end.

Fixpoint spec_all `{Arch} (BITS : Z) (s : gset Z) (cs : list bit_cmd) : gset Z * list bit_result :=
  match cs with
  | [] => (s, [])
  | c :: cs => let '(s, r) := spec BITS s c in let '(s, rs) := spec_all BITS s cs in (s, r :: rs)
  end.

Definition bm_wf `{Arch} (BITS : Z) (m : Bitmap.t) : Prop :=
  match m with
  | Bitmap.Large l => Bitmap.is_large BITS = true
      /\ length l = Z.to_nat (Bitmap_base_base.nr_elems BITS) /\ Forall (in_range MWORD_BITS) l
  | Bitmap.Small w => Bitmap.is_large BITS = false /\ is_mword w
  end.

(** The bit numbers of a command are below [BITS], other bitmaps have the same
    type.  An assignment may come from a larger one. *)
Definition legal `{Arch} (BITS : Z) (c : bit_cmd) : Prop :=
  match c with
  | Bit n _ | Clear n | Set_ n | Get n | Atomic_set n | Atomic_clear n
  | Get_and_clear n | Get_and_set n | Ffs n => 0 <= n < BITS
  | Or o | Atomic_or o => bm_wf BITS o
  | Assign o => exists b, BITS <= b < 2 ^ 32 - MWORD_BITS /\ bm_wf b o
  | Invert | Clear_all | Is_empty => True
  end.

Definition represents `{Arch} (BITS : Z) (m : Bitmap.t) (s : gset Z) : Prop :=
  bm_wf BITS m /\ forall n, n ∈ s <-> has m n = true.

Section bitmaps.
Context `{Arch}.
Implicit Types m : Bitmap.t.

Abbreviation W := MWORD_BITS.

Lemma testbit_shl1 n k : 0 <= n < W -> 0 <= k -> Z.testbit (mshl 1 n) k = (k =? n).
Proof.
  intros. rewrite testbit_mshl by done.
  destruct (Z.eqb_spec k n) as [-> | Hne].
  - rewrite Z.sub_diag. case_cmp; done.
  - destruct (Z.lt_ge_cases k n); [rewrite Z.testbit_neg_r by lia; apply andb_false_r |].
    rewrite (testbit_high 1 1) by (unfold in_range; lia). apply andb_false_r.
Qed.

Lemma shl1_word n : 0 <= n < W -> shl1 n = Some (mshl 1 n) /\ is_mword (mshl 1 n).
Proof.
  intros. unfold shl1. split; [| apply mwrap_range].
  destruct (Z.leb_spec 0 n), (Z.ltb_spec n W); try lia. done.
Qed.

Lemma nonzero_bit_word w n : 0 <= n < W -> nonzero (w .& mshl 1 n) = Z.testbit w n.
Proof.
  intros. rewrite <- (nonzero_land_bit w n) by lia. do 2 f_equal.
  apply Z.bits_inj'. intros k Hk. rewrite testbit_shl1, Z.pow2_bits_eqb by lia. apply Z.eqb_sym.
Qed.

Lemma is_large_nr BITS :
  0 < BITS < 2 ^ 32 - W -> Bitmap_base_base.nr_elems BITS = (BITS + W - 1) / W.
Proof.
  intros. pose proof arch_ge32. unfold Bitmap_base_base.nr_elems, Bitmap_base_base.Bpl, msub, madd, mwrap.
  assert (2 ^ 32 <= 2 ^ W) by (apply Z.pow_le_mono_r; lia).
  rewrite (wrap_small _ (_ + _)), wrap_small by (unfold in_range; lia). done.
Qed.

(** The bits of the type fit the words, and the words end below [2^32]. *)
Lemma cap_bounds BITS :
  0 < BITS < 2 ^ 32 - W -> BITS <= cap BITS < 2 ^ 32 /\ cap BITS mod W = 0
  /\ (Bitmap.is_large BITS = true -> cap BITS / W = Bitmap_base_base.nr_elems BITS).
Proof.
  intros Hb. pose proof arch_pos as Hw. unfold cap, Bitmap.is_large.
  assert (W < 2 ^ 32) by (destruct MWORD_BITS_ok as [-> | ->]; lia).
  destruct (Z.gtb_spec BITS W).
  - rewrite is_large_nr by lia. pose proof (Z.div_mod (BITS + W - 1) W).
    pose proof (Z.mod_pos_bound (BITS + W - 1) W). rewrite Z.mod_mul, Z.div_mul by lia. lia.
  - rewrite Z_mod_same_full. done || lia.
Qed.

Lemma words_len BITS m : 0 < BITS < 2 ^ 32 - W -> bm_wf BITS m -> Z.of_nat (length (words m)) * W = cap BITS.
Proof.
  intros Hb Hwf. pose proof arch_pos. destruct m as [l | w]; destruct Hwf as [Hl Hwf]; unfold cap; rewrite Hl.
  - destruct Hwf as [Hlen _]. simpl. rewrite Hlen, Z2Nat.id; [done |]. rewrite is_large_nr by done.
    apply Z.div_pos; lia.
  - simpl. lia.
Qed.

Lemma word_at BITS m n : 0 < BITS < 2 ^ 32 - W -> bm_wf BITS m -> 0 <= n < cap BITS ->
  exists w, words m !! Z.to_nat (n / W) = Some w /\ is_mword w.
Proof.
  intros Hb Hwf Hn. pose proof arch_pos. pose proof (words_len BITS m Hb Hwf) as Hl.
  assert (0 <= n / W) by (apply Z.div_pos; lia).
  assert (n / W < Z.of_nat (length (words m))) by (apply Z.div_lt_upper_bound; lia).
  destruct (lookup_lt_is_Some_2 (words m) (Z.to_nat (n / W))) as [w Hw]; [lia |].
  exists w. split; [done |].
  destruct m as [l | w']; simpl in *; [eapply Forall_lookup_1; [apply Hwf | done] |].
  apply list_lookup_singleton_Some in Hw as [_ <-]. apply Hwf.
Qed.

Lemma has_bounds BITS m n : 0 < BITS < 2 ^ 32 - W -> bm_wf BITS m -> has m n = true -> 0 <= n < cap BITS.
Proof.
  intros Hb Hwf. unfold has. destruct (Z.leb_spec 0 n); [| done].
  pose proof arch_pos. rewrite <- (words_len BITS m) by done.
  destruct (words m !! _) eqn:E; [| done]. intros _. apply lookup_lt_Some in E.
  pose proof (Z.div_mod n W). pose proof (Z.mod_pos_bound n W). nia.
Qed.

(** Replacing the word of bit [n] by one that differs in this bit only *)
Lemma has_update l n k w w' v :
  0 <= n -> 0 <= k -> l !! Z.to_nat (n / W) = Some w ->
  (forall j, 0 <= j < W -> Z.testbit w' j = if j =? n mod W then v else Z.testbit w j) ->
  has (Bitmap.Large (<[Z.to_nat (n / W) := w']> l)) k = if k =? n then v else has (Bitmap.Large l) k.
Proof.
  intros Hn Hk Hw Hw'. pose proof arch_pos. unfold has; simpl.
  destruct (Z.leb_spec 0 k); [simpl | lia].
  pose proof (Z.mod_pos_bound k W). pose proof (Z.div_mod n W). pose proof (Z.div_mod k W).
  assert (0 <= n / W) by (apply Z.div_pos; lia). assert (0 <= k / W) by (apply Z.div_pos; lia).
  destruct (decide (k / W = n / W)) as [Ed | Ed].
  - rewrite Ed, list_lookup_insert_eq by (by eapply lookup_lt_Some). rewrite Hw' by lia. rewrite Hw.
    destruct (Z.eqb_spec (k mod W) (n mod W)), (Z.eqb_spec k n); try done; exfalso; nia.
  - rewrite list_lookup_insert_ne by lia. destruct (Z.eqb_spec k n); [congruence | done].
Qed.

(** An operation on one word of the array, for both kinds of bitmap *)
Lemma on_word_spec BITS m n f v :
  0 < BITS < 2 ^ 32 - W -> bm_wf BITS m -> 0 <= n < BITS ->
  (forall w j, is_mword w -> 0 <= j < W ->
     Z.testbit (f w (mshl 1 (n mod W))) j = if j =? n mod W then v else Z.testbit w j) ->
  (forall w, is_mword w -> is_mword (f w (mshl 1 (n mod W)))) ->
  exists m', Bitmap.lift m (fun l => Bitmap_base_base.on_word l n f)
               (fun w => k ← shl1 n; Some (f w k)) = Some m'
  /\ bm_wf BITS m' /\ forall k, has m' k = if k =? n then v else has m k.
Proof.
  intros Hb Hwf Hn Hf Hr. pose proof arch_pos. destruct (cap_bounds BITS Hb) as [Hc _].
  destruct (word_at BITS m n Hb Hwf) as (w & Hw & Hwr); [lia |].
  pose proof (Z.mod_pos_bound n W). destruct (shl1_word (n mod W)) as [Hk _]; [lia |].
  assert (forall k m', words m' = <[Z.to_nat (n / W) := f w (mshl 1 (n mod W))]> (words m) ->
            has m' k = if k =? n then v else has m k) as Hhas.
  { intros k m' Hm'. destruct (Z.leb_spec 0 k) as [Hk0 | Hk0].
    - pose proof (has_update (words m) n k w _ v ltac:(lia) Hk0 Hw (fun j => Hf w j Hwr)) as Hu.
      unfold has in Hu |- *. simpl in Hu. by rewrite Hm'.
    - unfold has. destruct (Z.leb_spec 0 k); [lia |]. simpl. destruct (Z.eqb_spec k n); [lia | done]. }
  destruct m as [l | w0]; simpl in *.
  - unfold Bitmap_base_base.on_word, Bitmap_base_base.word, Bitmap_base_base.Bpl. rewrite Hw. simpl. rewrite Hk. simpl.
    eexists. split; [done |]. split; [| by intros; apply Hhas].
    destruct Hwf as (? & ? & ?). split; [done |]. rewrite length_insert. split; [done |].
    apply Forall_insert; auto.
  - destruct Hwf as [Hs _]. unfold Bitmap.is_large in Hs. destruct (Z.gtb_spec BITS W); [done |].
    assert (n / W = 0) as E0 by (apply Z.div_small; lia). assert (n mod W = n) as E1 by (apply Z.mod_small; lia).
    rewrite E0 in Hw, Hhas. rewrite E1 in *. injection Hw as <-.
    rewrite Hk. simpl. eexists. split; [done |]. split; [| by intros; apply Hhas].
    split; [| by apply Hr]. unfold Bitmap.is_large. destruct (Z.gtb_spec BITS W); [lia | done].
Qed.

Lemma clear_spec BITS m n :
  0 < BITS < 2 ^ 32 - W -> bm_wf BITS m -> 0 <= n < BITS ->
  exists m', Bitmap.clear_bit m n = Some m'
  /\ bm_wf BITS m' /\ forall k, has m' k = if k =? n then false else has m k.
Proof.
  intros. pose proof arch_pos. pose proof (Z.mod_pos_bound n W). apply on_word_spec; try done.
  - intros w j Hw Hj. rewrite Z.land_spec, testbit_mnot, testbit_shl1 by lia.
    repeat case_cmp; simpl; btauto.
  - intros w Hw. apply in_range_land_l; [lia | done].
Qed.

Lemma set_spec BITS m n :
  0 < BITS < 2 ^ 32 - W -> bm_wf BITS m -> 0 <= n < BITS ->
  exists m', Bitmap.set_bit m n = Some m'
  /\ bm_wf BITS m' /\ forall k, has m' k = if k =? n then true else has m k.
Proof.
  intros. pose proof arch_pos. pose proof (Z.mod_pos_bound n W). apply on_word_spec; try done.
  - intros w j Hw Hj. rewrite Z.lor_spec, testbit_shl1 by lia. case_cmp; simpl; btauto.
  - intros w Hw. apply in_range_lor; [lia | done | apply mwrap_range].
Qed.

(** What the single-bit operations read *)
Definition reads (m : Bitmap.t) (n : Z) : Prop :=
  match m with
  | Bitmap.Large l => exists w, Bitmap_base_base.word l n = Some w
      /\ shl1 (n mod Bitmap_base_base.Bpl) = Some (mshl 1 (n mod W))
      /\ nonzero (w .& mshl 1 (n mod W)) = has m n
  | Bitmap.Small w => shl1 n = Some (mshl 1 n) /\ n mod W = n /\ nonzero (w .& mshl 1 n) = has m n
  end.

Lemma reads_spec BITS m n :
  0 < BITS < 2 ^ 32 - W -> bm_wf BITS m -> 0 <= n < BITS -> reads m n.
Proof.
  intros Hb Hwf Hn. pose proof arch_pos. destruct (cap_bounds BITS Hb) as [Hc _].
  destruct (word_at BITS m n Hb Hwf) as (w & Hw & Hwr); [lia |].
  pose proof (Z.mod_pos_bound n W). destruct (shl1_word (n mod W)) as [Hk _]; [lia |].
  assert (has m n = Z.testbit w (n mod W)) as Hh.
  { unfold has. destruct (Z.leb_spec 0 n); [| lia]. by rewrite Hw. }
  destruct m as [l | w0]; simpl in *.
  - exists w. rewrite nonzero_bit_word by lia. done.
  - destruct Hwf as [Hs _]. unfold Bitmap.is_large in Hs. destruct (Z.gtb_spec BITS W); [done |].
    assert (n / W = 0) as E0 by (apply Z.div_small; lia). assert (n mod W = n) as E1 by (apply Z.mod_small; lia).
    rewrite E0 in Hw. injection Hw as <-. rewrite E1 in *. rewrite nonzero_bit_word by lia. done.
Qed.

Lemma get_spec BITS m n :
  0 < BITS < 2 ^ 32 - W -> bm_wf BITS m -> 0 <= n < BITS ->
  exists v, Bitmap.get m n = Some v /\ nonzero v = has m n.
Proof.
  intros Hb Hwf Hn. pose proof (reads_spec BITS m n Hb Hwf Hn) as Hr.
  destruct m as [l | w]; simpl in Hr.
  - destruct Hr as (w & Hw & Hk & Hh). simpl. unfold Bitmap_base_base.get. rewrite Hw. simpl. rewrite Hk. eauto.
  - destruct Hr as (Hk & _ & Hh). simpl. unfold Bitmap_small.get. rewrite Hk. simpl. eauto.
Qed.

Lemma bit_spec BITS m n on :
  0 < BITS < 2 ^ 32 - W -> bm_wf BITS m -> 0 <= n < BITS ->
  exists m', Bitmap.bit m n on = Some m'
  /\ bm_wf BITS m' /\ forall k, has m' k = if k =? n then on else has m k.
Proof.
  intros Hb Hwf Hn. pose proof arch_pos. pose proof (Z.mod_pos_bound n W).
  pose proof (reads_spec BITS m n Hb Hwf Hn) as Hr.
  assert (Bitmap.bit m n on = Bitmap.lift m
    (fun l => Bitmap_base_base.on_word l n (fun w k => (w .& mnot k) .| mshl (Z.b2z on) (n mod W)))
    (fun w => k ← shl1 n; Some ((w .& mnot k) .| mshl (Z.b2z on) (n mod W)))) as ->.
  { destruct m as [l | w]; [done |]. simpl in Hr. destruct Hr as (_ & -> & _). done. }
  apply on_word_spec; try done.
  - intros w j Hw Hj. rewrite Z.lor_spec, Z.land_spec, testbit_mnot, testbit_shl1 by lia.
    destruct on; simpl Z.b2z.
    + rewrite testbit_shl1 by lia. repeat case_cmp; simpl; btauto.
    + unfold mshl. rewrite Z.shiftl_0_l, testbit_mwrap, Z.bits_0 by lia. repeat case_cmp; simpl; btauto.
  - intros w Hw. apply in_range_lor; [lia | apply in_range_land_l; [lia | done] | apply mwrap_range].
Qed.

Lemma get_and_clear_spec BITS m n :
  0 < BITS < 2 ^ 32 - W -> bm_wf BITS m -> 0 <= n < BITS ->
  exists m', Bitmap.atomic_get_and_clear m n = Some (m', has m n)
  /\ bm_wf BITS m' /\ forall k, has m' k = if k =? n then false else has m k.
Proof.
  intros Hb Hwf Hn. pose proof (reads_spec BITS m n Hb Hwf Hn) as Hr.
  destruct (clear_spec BITS m n Hb Hwf Hn) as (m' & Hc & Hok & Hh').
  exists (if has m n then m' else m). split; [| destruct (has m n) eqn:E; split; try done].
  - destruct m as [l | w]; simpl in *.
    + destruct Hr as (w & Hw & Hk & Hh). unfold Bitmap_large.atomic_get_and_clear.
      unfold Bitmap_base_base.clear_bit, Bitmap_base_base.on_word in Hc.
      rewrite Hw in *. simpl in *. rewrite Hk in *. simpl in *. rewrite Hh. injection Hc as <-.
      by destruct (has _ n).
    + destruct Hr as (Hk & _ & Hh). unfold Bitmap_small.atomic_get_and_clear.
      unfold Bitmap_small.clear_bit in Hc. rewrite Hk in *. simpl in *. rewrite Hh. injection Hc as <-.
      by destruct (has _ n).
  - intros k. destruct (Z.eqb_spec k n) as [-> |]; done.
Qed.

Lemma get_and_set_spec BITS m n :
  0 < BITS < 2 ^ 32 - W -> bm_wf BITS m -> 0 <= n < BITS ->
  exists m', Bitmap.atomic_get_and_set m n = Some (m', has m n)
  /\ bm_wf BITS m' /\ forall k, has m' k = if k =? n then true else has m k.
Proof.
  intros Hb Hwf Hn. pose proof (reads_spec BITS m n Hb Hwf Hn) as Hr.
  destruct (set_spec BITS m n Hb Hwf Hn) as (m' & Hc & Hok & Hh').
  exists m'. split; [| done].
  destruct m as [l | w]; simpl in *.
  - destruct Hr as (w & Hw & Hk & Hh). unfold Bitmap_large.atomic_get_and_set.
    unfold Bitmap_base_base.set_bit, Bitmap_base_base.on_word in Hc.
    rewrite Hw in *. simpl in *. rewrite Hk in *. simpl in *. injection Hc as <-. by rewrite Hh.
  - destruct Hr as (Hk & _ & Hh). unfold Bitmap_small.atomic_get_and_set.
    unfold Bitmap_small.set_bit in Hc. rewrite Hk in *. simpl in *. injection Hc as <-. by rewrite Hh.
Qed.

(** Operations on all words *)
Lemma has_fmap BITS m m' f :
  0 < BITS < 2 ^ 32 - W -> bm_wf BITS m -> words m' = f <$> words m ->
  forall g, (forall w j, is_mword w -> 0 <= j < W -> Z.testbit (f w) j = g (Z.testbit w j)) ->
  forall k, has m' k = (0 <=? k) && (k <? cap BITS) && g (has m k).
Proof.
  intros Hb Hwf Hw g Hg k. pose proof arch_pos. pose proof (words_len BITS m Hb Hwf) as Hl.
  pose proof (Z.mod_pos_bound k W). unfold has. rewrite Hw, list_lookup_fmap.
  destruct (Z.leb_spec 0 k); [simpl | done]. destruct (Z.ltb_spec k (cap BITS)).
  - destruct (word_at BITS m k Hb Hwf) as (w & -> & Hwr); [lia |]. simpl. apply Hg; [done | lia].
  - rewrite lookup_ge_None_2; [done |].
    assert (Z.of_nat (length (words m)) <= k / W) by (apply Z.div_le_lower_bound; lia). lia.
Qed.

Lemma invert_spec BITS m :
  0 < BITS < 2 ^ 32 - W -> bm_wf BITS m ->
  bm_wf BITS (Bitmap.invert m)
  /\ forall k, has (Bitmap.invert m) k = (0 <=? k) && (k <? cap BITS) && negb (has m k).
Proof.
  intros Hb Hwf. split.
  - destruct m as [l | w]; simpl in *.
    + destruct Hwf as (? & ? & ?). split; [done |].
      unfold Bitmap_large.invert, Bitmap_large.clear_all. split; [by rewrite length_fmap |].
      apply Forall_fmap, Forall_true. intros. apply mwrap_range.
    + destruct Hwf. split; [done | apply mwrap_range].
  - apply has_fmap with mnot; try done; [by destruct m |].
    intros w j Hw Hj. rewrite testbit_mnot by lia. case_cmp; done.
Qed.

Lemma clear_all_spec BITS m :
  0 < BITS < 2 ^ 32 - W -> bm_wf BITS m ->
  bm_wf BITS (Bitmap.clear_all m) /\ forall k, has (Bitmap.clear_all m) k = false.
Proof.
  intros Hb Hwf. pose proof arch_pos.
  assert (is_mword 0) by (split; [lia | apply pow2_pos; lia]). split.
  - destruct m as [l | w]; simpl in *.
    + destruct Hwf as (? & ? & ?). split; [done |].
      unfold Bitmap_large.invert, Bitmap_large.clear_all. split; [by rewrite length_fmap |].
      by apply Forall_fmap, Forall_true.
    + by destruct Hwf.
  - intros k. rewrite (has_fmap BITS m _ (fun _ => 0) Hb Hwf) with (g := fun _ => false).
    + apply andb_false_r.
    + by destruct m.
    + intros. apply Z.bits_0.
Qed.

Lemma word_empty w : is_mword w -> (forall j, 0 <= j < W -> Z.testbit w j = false) -> w = 0.
Proof.
  intros Hw Hj. apply Z.bits_inj'. intros n Hn. rewrite Z.bits_0.
  destruct (Z.lt_ge_cases n W); [apply Hj; lia | by apply testbit_high with W].
Qed.

(** A word of the bitmap holds the bits of its position. *)
Lemma has_word m i w j :
  words m !! i = Some w -> 0 <= j < W -> has m (Z.of_nat i * W + j) = Z.testbit w j.
Proof.
  intros Hi Hj. pose proof arch_pos. unfold has. destruct (Z.leb_spec 0 (Z.of_nat i * W + j)); [| lia].
  rewrite Z.div_add_l, Z.div_small, Z.add_0_r, Nat2Z.id, Hi by lia.
  simpl. rewrite Z.add_comm, Z.mod_add, Z.mod_small by lia. done.
Qed.

Lemma large_empty l : Bitmap_large.is_empty l = true <-> Forall (fun w => w = 0) l.
Proof.
  unfold Bitmap_large.is_empty. induction l as [|w l IH]; simpl; [done |].
  by rewrite Forall_cons, andb_true_iff, negb_true_iff, nonzero_false, IH.
Qed.

Lemma empty_spec BITS m :
  0 < BITS < 2 ^ 32 - W -> bm_wf BITS m ->
  Bitmap.is_empty m = true <-> forall n, has m n = false.
Proof.
  intros Hb Hwf.
  assert (Bitmap.is_empty m = true <-> Forall (fun w => w = 0) (words m)) as ->.
  { destruct m as [l | w]; simpl.
    - apply large_empty.
    - unfold Bitmap_small.is_empty. rewrite Forall_singleton, negb_true_iff. apply nonzero_false. }
  split.
  - intros Hz n. unfold has. destruct (0 <=? n); [simpl | done].
    destruct (words m !! _) as [w |] eqn:E; [| done].
    rewrite (Forall_lookup_1 _ _ _ _ Hz E). apply Z.bits_0.
  - intros Hn. apply Forall_lookup_2. intros i w Hi. apply word_empty.
    + destruct m as [l | w0]; simpl in *; [eapply Forall_lookup_1; [apply Hwf | done] |].
      apply list_lookup_singleton_Some in Hi as [_ <-]. apply Hwf.
    + intros j Hj. by rewrite <- (has_word m i w j).
Qed.

Lemma has_zip m o m' :
  words m' = zip_with Z.lor (words m) (words o) -> length (words m) = length (words o) ->
  forall k, has m' k = has m k || has o k.
Proof.
  intros Hw Hl k. unfold has. rewrite Hw, lookup_zip_with. destruct (0 <=? k); [simpl | done].
  destruct (words m !! _) as [v |] eqn:E, (words o !! _) as [u |] eqn:E'; simpl; try done.
  - apply Z.lor_spec.
  - apply lookup_lt_Some in E. apply lookup_ge_None_1 in E'. lia.
  - apply lookup_ge_None_1 in E. apply lookup_lt_Some in E'. lia.
Qed.

Lemma or_spec BITS m o :
  0 < BITS < 2 ^ 32 - W -> bm_wf BITS m -> bm_wf BITS o ->
  exists m', Bitmap.or m o = Some m' /\ Bitmap.atomic_or m o = Some m'
  /\ bm_wf BITS m' /\ forall k, has m' k = has m k || has o k.
Proof.
  intros Hb Hm Ho. pose proof arch_pos. pose proof (words_len BITS m Hb Hm). pose proof (words_len BITS o Hb Ho).
  assert (length (words m) = length (words o)) as Hl by nia.
  destruct m as [l | w], o as [l' | w']; simpl in *.
  - exists (Bitmap.Large (zip_with Z.lor l l')). repeat split; try done.
    + apply Hm.
    + rewrite length_zip_with_l; [apply Hm | lia].
    + destruct Hm as (_ & _ & Hm), Ho as (_ & _ & Ho). apply Forall_lookup_2. intros i x Hx.
      apply lookup_zip_with_Some in Hx as (y & z & -> & Hy & Hz).
      apply in_range_lor; [lia | by apply (Forall_lookup_1 _ _ _ _ Hm Hy) | by apply (Forall_lookup_1 _ _ _ _ Ho Hz)].
    + apply has_zip; done.
  - destruct Hm, Ho. congruence.
  - destruct Hm, Ho. congruence.
  - exists (Bitmap.Small (w .| w')). destruct Hm as [? ?], Ho as [_ ?].
    split; [done |]. split; [done |]. split; [split; [done |]; apply in_range_lor; [lia | done | done] |].
    by apply has_zip.
Qed.

Lemma has_copy BITS m m' o :
  0 < BITS < 2 ^ 32 - W -> bm_wf BITS m -> words m' = take (length (words m)) (words o) ->
  forall k, has m' k = (k <? cap BITS) && has o k.
Proof.
  intros Hb Hm Hw k. pose proof arch_pos. pose proof (words_len BITS m Hb Hm) as Hl.
  unfold has. rewrite Hw. destruct (Z.leb_spec 0 k); [simpl | by rewrite andb_false_r].
  assert (0 <= k / W) by (apply Z.div_pos; lia). destruct (Z.ltb_spec k (cap BITS)); simpl.
  - assert (k / W < Z.of_nat (length (words m))) by (apply Z.div_lt_upper_bound; lia).
    by rewrite lookup_take_lt by lia.
  - assert (Z.of_nat (length (words m)) <= k / W) by (apply Z.div_le_lower_bound; lia).
    by rewrite lookup_take_ge by lia.
Qed.

Lemma cap_mono b c : 0 < b < 2 ^ 32 - W -> 0 < c < 2 ^ 32 - W -> b <= c -> cap b <= cap c.
Proof.
  intros Hb Hc Hbc. pose proof arch_pos. pose proof (cap_bounds b Hb). pose proof (cap_bounds c Hc).
  unfold cap, Bitmap.is_large in *. destruct (Z.gtb_spec b W), (Z.gtb_spec c W); try lia.
  rewrite !is_large_nr by lia. apply Z.mul_le_mono_nonneg_r; [lia |]. apply Z.div_le_mono; lia.
Qed.

Lemma assign_spec BITS b m o :
  0 < BITS < 2 ^ 32 - W -> BITS <= b < 2 ^ 32 - W -> bm_wf BITS m -> bm_wf b o ->
  exists m', Bitmap.assign m o = Some m'
  /\ bm_wf BITS m' /\ forall k, has m' k = (k <? cap BITS) && has o k.
Proof.
  intros Hb Hbb Hm Ho. pose proof arch_pos.
  pose proof (words_len BITS m Hb Hm) as Hlm. pose proof (words_len b o ltac:(lia) Ho) as Hlo.
  pose proof (cap_mono BITS b Hb ltac:(lia) ltac:(lia)).
  assert (length (words m) <= length (words o))%nat as Hl by nia.
  destruct m as [l | w], o as [l' | w']; simpl in *.
  - exists (Bitmap.Large (take (length l) l')). split; [done |]. split.
    + destruct Hm as (? & ? & _), Ho as (_ & _ & Ho). split; [done |]. rewrite length_take.
      split; [lia | by apply Forall_take].
    + by apply (has_copy BITS (Bitmap.Large l)).
  - destruct Hm as [Hm _], Ho as [Ho _]. unfold Bitmap.is_large in *.
    destruct (Z.gtb_spec BITS W), (Z.gtb_spec b W); try done. lia.
  - destruct l' as [|v l']; [simpl in Hl; lia |]. exists (Bitmap.Small v). split; [done |]. split.
    + destruct Hm as [? _], Ho as (_ & _ & Ho). split; [done |]. by inversion Ho.
    + by apply (has_copy BITS (Bitmap.Small w)).
  - exists (Bitmap.Small w'). split; [done |]. split; [split; [apply Hm | apply Ho] |].
    by apply (has_copy BITS (Bitmap.Small w)).
Qed.

(** [r] is one plus the least number from [n] on with [P], or zero. *)
Definition least_from (P : Z -> Prop) (n r : Z) : Prop :=
  (r = 0 /\ forall k, n <= k -> ~ P k)
  \/ exists k, r = k + 1 /\ n <= k /\ P k /\ forall j, n <= j < k -> ~ P j.

Lemma least_unique P n r r' : 0 <= n -> least_from P n r -> least_from P n r' -> r = r'.
Proof.
  intros Hn [[-> Hno] | (k & -> & Hk & HP & Hl)] [[-> Hno'] | (k' & -> & Hk' & HP' & Hl')]; try done.
  - by destruct (Hno k').
  - by destruct (Hno' k).
  - destruct (Z.lt_trichotomy k k') as [? | [-> | ?]]; [| done |].
    + destruct (Hl' k); [lia | done].
    + destruct (Hl k'); [lia | done].
Qed.

Lemma find_least P `{!forall k, Decision (P k)} n len :
  (forall k, n + len <= k -> ~ P k) ->
  least_from P n (match list_find P (seqZ n len) with Some (_, k) => k + 1 | None => 0 end).
Proof.
  intros Hout. destruct (list_find P (seqZ n len)) as [[i k] |] eqn:E; [right | left].
  - apply list_find_Some in E as (Hk & HP & Hmin). apply lookup_seqZ in Hk as [-> Hi].
    eexists. split; [done |]. split; [lia |]. split; [done |]. intros j Hj.
    apply (Hmin (Z.to_nat (j - n))); [apply lookup_seqZ |]; lia.
  - split; [done |]. intros k Hk HP. apply list_find_None in E.
    destruct (Z.lt_ge_cases k (n + len)) as [Hlt | Hge]; [| by apply (Hout k)].
    apply (Forall_lookup_1 _ _ (Z.to_nat (k - n)) k E); [apply lookup_seqZ; lia | done].
Qed.

Lemma ffsl_spec v : is_mword v -> least_from (fun k => Z.testbit v k = true) 0 (ffsl v).
Proof.
  intros Hv. apply find_least. intros k Hk. rewrite (testbit_high W v); [done | done | lia].
Qed.

Lemma unshift v b (Q : Z -> Prop) n :
  0 <= b <= n -> Q (n - b) -> (forall k, 0 <= k /\ Q k -> ~ Z.testbit (v >> b) k = true) ->
  ~ Z.testbit v n = true.
Proof.
  intros Hn HQ Hno. specialize (Hno (n - b)). rewrite Z.shiftr_spec, Z.sub_add in Hno by lia.
  apply Hno. lia || (split; [lia | done]).
Qed.

Lemma ffs_loop_spec m : forall ws i b,
  0 <= i -> 0 <= b < W -> drop (Z.to_nat i) (words m) = ws -> Forall (in_range W) (words m) ->
  Z.of_nat (length (words m)) * W < 2 ^ 32 ->
  least_from (fun k => has m k = true) (i * W + b) (Bitmap_large.ffs_loop ws i b).
Proof.
  pose proof arch_pos as HW. induction ws as [|v ws IH]; intros i b Hi Hb Hws Hr Hcap; simpl.
  - left. split; [done |]. intros k Hk. unfold has.
    assert (i <= k / W) by (apply Z.div_le_lower_bound; lia).
    assert (length (words m) <= Z.to_nat i)%nat by (apply (f_equal length) in Hws; rewrite length_drop in Hws; simpl in Hws; lia).
    rewrite lookup_ge_None_2 by lia. by rewrite andb_false_r.
  - assert (words m !! Z.to_nat i = Some v) as Hv.
    { rewrite <- (Nat.add_0_r (Z.to_nat i)), <- lookup_drop, Hws. done. }
    assert (is_mword v) as Hvr by (by apply (Forall_lookup_1 _ _ _ _ Hr Hv)).
    assert (forall j, 0 <= j < W -> has m (i * W + j) = Z.testbit v j) as Hh.
    { intros j Hj. rewrite <- (has_word m (Z.to_nat i) v j) by done. do 2 f_equal. lia. }
    pose proof (lookup_lt_Some _ _ _ Hv) as Hlt.
    destruct (ffsl_spec (v >> b)) as [[-> Hno] | (j & -> & Hj & Hbit & Hmin)].
    { apply in_range_shiftr; [lia | done]. }
    + destruct (IH (i + 1) 0) as [[-> Hrest] | (k & -> & Hk & Hin & Hmin)]; try lia; try done.
      { rewrite Z2Nat.inj_add, Nat.add_1_r by lia.
        rewrite <- Nat.add_1_r, <- drop_drop, Hws. done. }
      * left. split; [done |]. intros k Hk. destruct (Z.lt_ge_cases k ((i + 1) * W)) as [Hlow | Hhigh].
        -- replace k with (i * W + (k - i * W)) by lia. rewrite Hh by lia.
           apply (unshift v b (fun _ => True)); [lia | lia | naive_solver].
        -- apply Hrest. lia.
      * right. exists k. split; [done |]. split; [lia |]. split; [done |]. intros j Hj.
        destruct (Z.lt_ge_cases j ((i + 1) * W)) as [Hlow | Hhigh]; [| apply Hmin; lia].
        replace j with (i * W + (j - i * W)) by lia. rewrite Hh by lia.
        apply (unshift v b (fun _ => True)); [lia | lia | naive_solver].
    + destruct (Z.gtb_spec (j + 1) 0); [| lia].
      rewrite Z.shiftr_spec in Hbit by lia.
      assert (j + b < W).
      { destruct (Z.lt_ge_cases (j + b) W); [done |]. by rewrite (testbit_high W v) in Hbit. }
      unfold Bitmap_base_base.Bpl. rewrite wrap_small by (unfold in_range; nia).
      right. exists (i * W + (j + b)). split; [lia |]. split; [lia |]. split; [rewrite Hh by lia; done |].
      intros k Hk. replace k with (i * W + (k - i * W)) by lia. rewrite Hh by lia.
      apply (unshift v b (fun n => n < j)); [lia | lia | naive_solver].
Qed.

Lemma wf_words BITS m : bm_wf BITS m -> Forall (in_range W) (words m).
Proof. destruct m; simpl; [naive_solver | intros [_ ?]; by apply Forall_singleton]. Qed.

Lemma ffs_spec BITS m n :
  0 < BITS < 2 ^ 32 - W -> bm_wf BITS m -> 0 <= n < BITS ->
  exists r, Bitmap.ffs m n = Some r /\ least_from (fun k => has m k = true) n r.
Proof.
  intros Hb Hwf Hn. pose proof arch_pos as HW. pose proof (words_len BITS m Hb Hwf) as Hl.
  pose proof (cap_bounds BITS Hb) as [Hc _]. pose proof (wf_words BITS m Hwf) as Hr.
  pose proof (Z.mod_pos_bound n W HW) as Hmod. pose proof (Z.div_mod n W) as Hdm.
  assert (0 <= n / W) as Hdiv by (apply Z.div_pos; lia).
  pose proof (ffs_loop_spec m _ (n / W) (n mod W) Hdiv Hmod eq_refl Hr) as Hspec.
  replace (n / W * W + n mod W) with n in Hspec by lia. specialize (Hspec ltac:(rewrite Hl; lia)).
  eexists. split; [| exact Hspec].
  destruct m as [l | w]; [done |]. destruct (reads_spec BITS _ n Hb Hwf Hn) as (Hk & E1 & _).
  simpl. unfold Bitmap_small.ffs. rewrite Hk. simpl.
  assert (n / W = 0) as E0 by lia. rewrite E0, E1. simpl.
  unfold Bitmap_base_base.Bpl. by rewrite Z.mul_0_l, Z.add_0_r.
Qed.

Lemma next_member_spec BITS m s n :
  0 < BITS < 2 ^ 32 - W -> represents BITS m s -> 0 <= n < BITS ->
  least_from (fun k => has m k = true) n (next_member (cap BITS) s n).
Proof.
  intros Hb [Hwf Hs] Hn.
  assert (least_from (fun k => k ∈ s) n (next_member (cap BITS) s n)) as Hl.
  { apply find_least. intros k Hk Hin. apply Hs, (has_bounds BITS) in Hin; [lia | done | done]. }
  unfold least_from in *. destruct Hl as [[-> Hno] | (k & -> & Hk & HP & Hmin)]; [left | right].
  - split; [done |]. intros k Hk. rewrite <- Hs. auto.
  - exists k. split; [done |]. split; [done |]. split; [by apply Hs |]. intros j Hj. rewrite <- Hs. auto.
Qed.

Lemma elem_of_members BITS m n :
  0 < BITS < 2 ^ 32 - W -> n ∈ members BITS m <-> n < cap BITS /\ has m n = true.
Proof.
  intros Hb. unfold members. rewrite elem_of_list_to_set, list_elem_of_filter, elem_of_seqZ.
  split; [naive_solver lia |]. intros [? Hn]. split; [done |]. split; [| lia].
  unfold has in Hn. destruct (Z.leb_spec 0 n); [lia | done].
Qed.

Lemma has_dec BITS m s : represents BITS m s -> forall n, has m n = bool_decide (n ∈ s).
Proof.
  intros [_ Hs] n. destruct (has m n) eqn:E; symmetry;
    [apply bool_decide_eq_true_2 | apply bool_decide_eq_false_2]; rewrite Hs, E; done.
Qed.

(** A bitmap that differs in one bit represents the set that differs in one number. *)
Lemma represents_one BITS m s :
  (forall n, n ∈ s <-> has m n = true) ->
  forall n m' b s', bm_wf BITS m' -> (forall k, has m' k = if k =? n then b else has m k) ->
  s' = (if b : bool then s ∪ {[n]} else s ∖ {[n]}) -> represents BITS m' s'.
Proof.
  intros Hs n m' b s' Hw' Hh ->. split; [done |]. intros k. rewrite Hh.
  destruct b; rewrite ?elem_of_union, ?elem_of_difference, elem_of_singleton, Hs;
    destruct (Z.eqb_spec k n); naive_solver.
Qed.

(** One command on a bitmap and on the set it represents *)
Lemma exec_refines BITS m s c :
  0 < BITS < 2 ^ 32 - W -> represents BITS m s -> legal BITS c ->
  exists m', exec m c = Some (m', snd (spec BITS s c)) /\ represents BITS m' (fst (spec BITS s c)).
Proof.
  intros Hb [Hwf Hs] Hc.
  pose proof (has_dec BITS m s (conj Hwf Hs)) as Hd. pose proof (represents_one BITS m s Hs) as Hone.
  destruct c as [n on|n|n|n|n|n|n|n| | | |n|o|o|o]; simpl in Hc |- *.
  - destruct (bit_spec BITS m n on Hb Hwf Hc) as (m' & -> & Hw & Hh). exists m'.
    destruct on; simpl; (split; [done |]); eapply Hone; eauto.
  - destruct (clear_spec BITS m n Hb Hwf Hc) as (m' & -> & Hw & Hh). exists m'. split; [done |]. eapply Hone; eauto.
  - destruct (set_spec BITS m n Hb Hwf Hc) as (m' & -> & Hw & Hh). exists m'. split; [done |]. eapply Hone; eauto.
  - destruct (get_spec BITS m n Hb Hwf Hc) as (v & -> & Hv). exists m. simpl. rewrite Hv, Hd. done.
  - destruct (set_spec BITS m n Hb Hwf Hc) as (m' & E & Hw & Hh). exists m'.
    split; [change (Bitmap.atomic_set_bit m n) with (Bitmap.set_bit m n); by rewrite E |]. eapply Hone; eauto.
  - destruct (clear_spec BITS m n Hb Hwf Hc) as (m' & E & Hw & Hh). exists m'.
    split; [change (Bitmap.atomic_clear_bit m n) with (Bitmap.clear_bit m n); by rewrite E |]. eapply Hone; eauto.
  - destruct (get_and_clear_spec BITS m n Hb Hwf Hc) as (m' & -> & Hw & Hh). exists m'. simpl. rewrite Hd.
    split; [done |]. eapply Hone; eauto.
  - destruct (get_and_set_spec BITS m n Hb Hwf Hc) as (m' & -> & Hw & Hh). exists m'. simpl. rewrite Hd.
    split; [done |]. eapply Hone; eauto.
  - destruct (invert_spec BITS m Hb Hwf) as [Hw Hh]. eexists. split; [done |]. split; [done |].
    intros k. rewrite Hh, elem_of_difference, Hs. unfold universe. rewrite elem_of_list_to_set, elem_of_seqZ.
    rewrite !andb_true_iff, negb_true_iff, Z.leb_le, Z.ltb_lt. destruct (has m k); naive_solver lia.
  - destruct (clear_all_spec BITS m Hb Hwf) as [Hw Hh]. eexists. split; [done |]. split; [done |].
    intros k. rewrite Hh. set_solver.
  - exists m. split; [| done]. do 3 f_equal. apply eq_true_iff_eq. rewrite bool_decide_eq_true, (empty_spec BITS) by done.
    split; [intros Hn; apply set_eq; intros k; rewrite Hs, Hn; set_solver |].
    intros -> k. rewrite Hd. done.
  - destruct (ffs_spec BITS m n Hb Hwf Hc) as (r & -> & Hr). exists m. split; [| done]. simpl. do 3 f_equal.
    eapply least_unique; [| exact Hr | by apply next_member_spec]. lia.
  - destruct (or_spec BITS m o Hb Hwf Hc) as (m' & -> & _ & Hw & Hh). exists m'. split; [done |]. split; [done |].
    intros k. rewrite Hh, elem_of_union, elem_of_members, Hs, orb_true_iff by done.
    pose proof (has_bounds BITS o k Hb Hc). naive_solver.
  - destruct (or_spec BITS m o Hb Hwf Hc) as (m' & _ & -> & Hw & Hh). exists m'. split; [done |]. split; [done |].
    intros k. rewrite Hh, elem_of_union, elem_of_members, Hs, orb_true_iff by done.
    pose proof (has_bounds BITS o k Hb Hc). naive_solver.
  - destruct Hc as (b & Hbb & Ho). destruct (assign_spec BITS b m o Hb Hbb Hwf Ho) as (m' & -> & Hw & Hh).
    exists m'. split; [done |]. split; [done |]. intros k. by rewrite Hh, elem_of_members, andb_true_iff, Z.ltb_lt.
Qed.

Lemma make_wf BITS : 0 < BITS < 2 ^ 32 - W -> represents BITS (Bitmap.make BITS) ∅.
Proof.
  intros Hb. pose proof arch_pos. unfold Bitmap.make.
  assert (is_mword 0) by (split; [lia | apply pow2_pos; lia]).
  split; [| intros n; unfold has]; destruct (Bitmap.is_large BITS) eqn:E.
  - split; [done |]. rewrite length_replicate. split; [done |]. by apply Forall_replicate.
  - done.
  - simpl. destruct (replicate _ 0 !! _) eqn:E'; [| rewrite andb_false_r; set_solver].
    apply lookup_replicate in E' as [-> _]. rewrite Z.bits_0, andb_false_r. set_solver.
  - simpl. destruct ([0] !! _) eqn:E'; [| rewrite andb_false_r; set_solver].
    apply list_lookup_singleton_Some in E' as [_ <-]. rewrite Z.bits_0, andb_false_r. set_solver.
Qed.

(** C32: every sequence of operations on a bitmap of at least [BITS] bits, large
    or small, stays within the storage of the bitmap and returns what it returns
    on a set of numbers: searching for the next bit finds the least member. *)
Theorem bitmap_refines BITS m s cs :
  0 < BITS < 2 ^ 32 - MWORD_BITS -> represents BITS m s -> Forall (legal BITS) cs ->
  exists m', exec_all m cs = Some (m', snd (spec_all BITS s cs))
  /\ represents BITS m' (fst (spec_all BITS s cs)).
Proof.
  intros Hb Hm Hcs. revert m s Hm. induction Hcs as [|c cs Hc _ IH]; intros m s Hm; [by exists m |].
  destruct (exec_refines BITS m s c Hb Hm Hc) as (m1 & He & Hm1).
  simpl. rewrite He. destruct (spec BITS s c) as [s1 r]; simpl in *.
  destruct (IH m1 s1 Hm1) as (m2 & He2 & Hm2). rewrite He2.
  destruct (spec_all BITS s1 cs) as [s2 rs]; simpl in *. by exists m2.
Qed.
End bitmaps.

(** * CPU masks implement the interface *)
Section instance.
Context `{Arch} (Max_num_cpus : Z) (Hmax : 0 < Max_num_cpus < 2 ^ 32 - MWORD_BITS).

(** All words are well formed and no bit above the last CPU is set. *)
Definition mask_ok (m : Bitmap.t) : Prop :=
  bm_wf Max_num_cpus m /\ forall n, Max_num_cpus <= n -> has m n = false.

Definition mask_get (m : Bitmap.t) (cpu : Z) : bool := default false (Cpu_mask.get m cpu).
Definition mask_set (m : Bitmap.t) (cpu : Z) : Bitmap.t := default m (Cpu_mask.set m cpu).
Definition mask_clear (m : Bitmap.t) (cpu : Z) : Bitmap.t := default m (Cpu_mask.clear m cpu).

Lemma mask_get_has m n : bm_wf Max_num_cpus m -> 0 <= n < Max_num_cpus -> mask_get m n = has m n.
Proof.
  intros Hm Hn. unfold mask_get, Cpu_mask.get.
  destruct (get_spec Max_num_cpus m n Hmax Hm Hn) as (v & -> & Hv). done.
Qed.

Lemma mask_set_has m n : mask_ok m -> 0 <= n < Max_num_cpus ->
  mask_ok (mask_set m n) /\ forall k, has (mask_set m n) k = (k =? n) || has m k.
Proof.
  intros [Hm Hhi] Hn. unfold mask_set, Cpu_mask.set.
  destruct (set_spec Max_num_cpus m n Hmax Hm Hn) as (m' & -> & Hm' & Hh). simpl.
  split; [split; [done |] |]; intros k; rewrite Hh; destruct (Z.eqb_spec k n); auto; lia.
Qed.

Lemma mask_clear_has m n : mask_ok m -> 0 <= n < Max_num_cpus ->
  mask_ok (mask_clear m n) /\ forall k, has (mask_clear m n) k = negb (k =? n) && has m k.
Proof.
  intros [Hm Hhi] Hn. unfold mask_clear, Cpu_mask.clear.
  destruct (clear_spec Max_num_cpus m n Hmax Hm Hn) as (m' & -> & Hm' & Hh). simpl.
  split; [split; [done |] |]; intros k; rewrite Hh; destruct (Z.eqb_spec k n); auto.
Qed.

Lemma mask_empty_has m : mask_ok m ->
  Cpu_mask.empty m = true <-> forall n, 0 <= n < Max_num_cpus -> mask_get m n = false.
Proof.
  intros [Hm Hhi]. unfold Cpu_mask.empty. rewrite (empty_spec Max_num_cpus) by done. split.
  - intros Hn n Hr. by rewrite mask_get_has.
  - intros Hn n. destruct (Z.lt_ge_cases n Max_num_cpus); [| auto].
    destruct (Z.lt_ge_cases n 0); [unfold has; by destruct (Z.leb_spec 0 n); [lia |] |].
    rewrite <- mask_get_has by (done || lia). apply Hn. lia.
Qed.

Lemma mask_make_ok :
  mask_ok (Cpu_mask.make (Bitmap.make Max_num_cpus))
  /\ forall n, has (Cpu_mask.make (Bitmap.make Max_num_cpus)) n = false.
Proof.
  destruct (make_wf Max_num_cpus Hmax) as [Hw _].
  destruct (clear_all_spec Max_num_cpus _ Hmax Hw) as [Hw' Hh]. by repeat split.
Qed.

Definition cpu_mask_bit_set : Bit_set Bitmap.t.
Proof.
  refine {| bs_size := Max_num_cpus; bs_ok := mask_ok; bs_get := mask_get; bs_set := mask_set;
            bs_clear := mask_clear; bs_empty := Cpu_mask.empty;
            bs_none := Cpu_mask.make (Bitmap.make Max_num_cpus) |}.
  - apply mask_make_ok.
  - intros n Hn. destruct mask_make_ok as [[Hw _] Hh]. by rewrite mask_get_has.
  - intros m n Hm Hn. by apply mask_set_has.
  - intros m n k Hm Hn Hk. destruct (mask_set_has m n Hm Hn) as [[Hw _] Hh].
    rewrite !mask_get_has by (done || apply Hm). apply Hh.
  - intros m n Hm Hn. by apply mask_clear_has.
  - intros m n k Hm Hn Hk. destruct (mask_clear_has m n Hm Hn) as [[Hw _] Hh].
    rewrite !mask_get_has by (done || apply Hm). apply Hh.
  - exact mask_empty_has.
Defined.
End instance.

(** * Witness *)
Module Bitmap_witness.
#[local] Existing Instance arch64.

Definition cmds : list bit_cmd :=
  [Set_ 3; Set_ 99; Ffs 4; Get_and_clear 99; Ffs 4; Is_empty; Bit 64 true; Invert; Get 64; Ffs 64].

Lemma bitmap_refines_witness :
  exists m', exec_all (Bitmap.make 100) cmds = Some (m', snd (spec_all 100 ∅ cmds))
  /\ snd (spec_all 100 ∅ cmds)
     = [Done; Done; Number 100; Bool true; Number 0; Bool false; Done; Done; Bool false; Number 66].
Proof.
  destruct (bitmap_refines 100 (Bitmap.make 100) ∅ cmds) as (m' & He & _).
  - simpl. lia.
  - apply make_wf. simpl. lia.
  - unfold cmds. repeat constructor; simpl; lia.
  - exists m'. split; [exact He |]. vm_compute. reflexivity.
Defined.
End Bitmap_witness.
