(* ===== verification/Rcu.v ===== *)
(** Read-copy update: [src/src/kern/rcupdate.h] and [rcupdate.cc].

    A callback that a CPU queues with [Rcu::call] may free memory that other CPUs
    still use; it is run after a grace period, that is, when every CPU that
    participates in RCU has passed a quiescent state.  The state is one global
    record, protected by a lock, and a record per CPU.  Some fields of the global
    record are also read without the lock.

    The operations are functions on the two records.  The step function [step]
    runs them on all CPUs concurrently: every section under the lock and every
    read of a global field without it is a step of its own, and [cpu_quiet] is two
    steps, because [_completed] is seen by others before the next batch starts.
    Batch numbers are signed machine words that wrap around. *)

From S2P Require Import Prelude Bitmap.

(** ** Rcu_batch *)
Module Rcu_batch.
Section ops.
Context `{Arch}.

(** [long] arithmetic *)
Definition sub (a b : Z) : Z := to_signed MWORD_BITS (a - b).

Definition lt (a b : Z) : bool := sub a b <? 0.
Definition gt (a b : Z) : bool := sub a b >? 0.
Definition ge (a b : Z) : bool := sub a b >=? 0.
Definition eq (a b : Z) : bool := a =? b.
Definition ne (a b : Z) : bool := negb (a =? b).
(** [operator +] and [operator ++] *)
Definition add (b r : Z) : Z := to_signed MWORD_BITS (b + r).
Definition incr (b : Z) : Z := add b 1.
End ops.
End Rcu_batch.

(** ** Rcu_glbl *)
Module Rcu_glbl.
Section ops.
Context `{Arch} {M : Type} `{!Bit_set M}.

Record t := mk {
  _current : Z;
  _completed : Z;
  _next_pending : bool;
  _cpus : M;
  _active_cpus : M }.

Definition make : t := mk (-300) (-300) false bs_none bs_none.

Definition start_batch (g : t) : t :=
  if _next_pending g && Rcu_batch.eq (_completed g) (_current g)
  then mk (Rcu_batch.incr (_current g)) (_completed g) false (_active_cpus g) (_active_cpus g)
  else g.

(** The first part of [cpu_quiet]: is the batch complete now? *)
Definition quiet (g : t) (cpu : Z) : t * bool :=
  let cpus := bs_clear (_cpus g) cpu in
  if bs_empty cpus
  then (mk (_current g) (_current g) (_next_pending g) cpus (_active_cpus g), true)
  else (mk (_current g) (_completed g) (_next_pending g) cpus (_active_cpus g), false).

Definition cpu_quiet (g : t) (cpu : Z) : t :=
  let '(g, complete) := quiet g cpu in if complete then start_batch g else g.

Definition set_next_pending (g : t) : t :=
  mk (_current g) (_completed g) true (_cpus g) (_active_cpus g).
Definition set_active (m : M) (g : t) : t :=
  mk (_current g) (_completed g) (_next_pending g) (_cpus g) m.
End ops.
Arguments t : clear implicits.
End Rcu_glbl.

(** ** Rcu_data *)
Module Rcu_data.
Section ops.
Context `{Arch} {M : Type} `{!Bit_set M}.
Import Rcu_glbl.

(** The callbacks of the items: whether they want to reschedule. *)
Context (call_back : Z -> bool).

Record t := mk {
  _q_batch : Z;
  _q_passed : bool;
  _pending : bool;
  _idle : bool;
  _batch : Z;
  _n : list Z;
  _len : Z;
  _c : list Z;
  _d : list Z }.

(** The other fields are static data. *)
Definition make : t := mk 0 false false true 0 [] 0 [] [].

Definition set_quiescence (q_batch : Z) (q_passed pending : bool) (d : t) : t :=
  mk q_batch q_passed pending (_idle d) (_batch d) (_n d) (_len d) (_c d) (_d d).
Definition set_lists (batch : Z) (n c dn : list Z) (d : t) : t :=
  mk (_q_batch d) (_q_passed d) (_pending d) (_idle d) batch n (_len d) c dn.

Definition is_nil (l : list Z) : bool := match l with [] => true | _ => false end.

Definition enqueue (i : Z) (d : t) : t :=
  mk (_q_batch d) (_q_passed d) (_pending d) (_idle d) (_batch d) (_n d ++ [i]) (_len d + 1) (_c d) (_d d).

Definition pending (g : Rcu_glbl.t M) (d : t) : bool :=
  negb (is_nil (_c d)) && Rcu_batch.ge (_completed g) (_batch d)
  || is_nil (_c d) && negb (is_nil (_n d))
  || negb (is_nil (_d d))
  || (Rcu_batch.ne (_q_batch d) (_current g) || _pending d).

(** [enter_idle]: what it does before the first part of [cpu_quiet], and the
    whole of it with the outcome of the assertion *)
Definition must_quiet (g : Rcu_glbl.t M) (d : t) : bool :=
  Rcu_batch.ne (_q_batch d) (_current g) || _pending d.
Definition set_idle (idle : bool) (d : t) : t :=
  mk (_q_batch d) (_q_passed d) (_pending d) idle (_batch d) (_n d) (_len d) (_c d) (_d d).

Definition enter_idle (cpu : Z) (g : Rcu_glbl.t M) (d : t) : Rcu_glbl.t M * t * bool :=
  if negb (_idle d)
  then
    let d := set_idle true d in
    let g := set_active (bs_clear (_active_cpus g) cpu) g in
    if must_quiet g d
    then
      let d := set_quiescence (_current g) (_q_passed d) false d in
      let g := cpu_quiet g cpu in
      (g, d, negb (pending g d))
    else (g, d, true)
  else (g, d, true).

Definition leave_idle (cpu : Z) (g : Rcu_glbl.t M) (d : t) : Rcu_glbl.t M * t :=
  if _idle d
  then
    let g := set_active (bs_set (_active_cpus g) cpu) g in
    (g, set_quiescence (_current g) (_q_passed d) (_pending d) (set_idle false d))
  else (g, d).

Definition do_batch (d : t) : t * bool :=
  (mk (_q_batch d) (_q_passed d) (_pending d) (_idle d) (_batch d) (_n d)
      (_len d - Z.of_nat (length (_d d))) (_c d) [],
   existsb call_back (_d d)).

(** The parts of [check_quiescent_state] *)
Definition note_batch (g : Rcu_glbl.t M) (d : t) : t := set_quiescence (_current g) false true d.
Definition may_report (d : t) : bool := _pending d && _q_passed d.
Definition clear_pending (d : t) : t := set_quiescence (_q_batch d) (_q_passed d) false d.

Definition check_quiescent_state (cpu : Z) (g : Rcu_glbl.t M) (d : t) : Rcu_glbl.t M * t :=
  if Rcu_batch.ne (_q_batch d) (_current g) then (g, note_batch g d)
  else if negb (may_report d) then (g, d)
  else
    let d := clear_pending d in
    (if Rcu_batch.eq (_q_batch d) (_current g) then cpu_quiet g cpu else g, d).

(** The parts of [process_callbacks] *)
Definition collect_done (g : Rcu_glbl.t M) (d : t) : t :=
  if negb (is_nil (_c d)) && Rcu_batch.ge (_completed g) (_batch d)
  then set_lists (_batch d) (_n d) [] (_d d ++ _c d) d else d.
Definition has_new (d : t) : bool := negb (is_nil (_n d)) && is_nil (_c d).
Definition assign_batch (g : Rcu_glbl.t M) (d : t) : t :=
  set_lists (Rcu_batch.add (_current g) 1) [] (_n d) (_d d) d.
Definition request_batch (g : Rcu_glbl.t M) : Rcu_glbl.t M := start_batch (set_next_pending g).

Definition process_callbacks (cpu : Z) (g : Rcu_glbl.t M) (d : t) : Rcu_glbl.t M * t * bool :=
  let d := collect_done g d in
  let '(g, d) :=
    if has_new d
    then
      let d := assign_batch g d in
      (if negb (_next_pending g) then request_batch g else g, d)
    else (g, d) in
  let '(g, d) := check_quiescent_state cpu g d in
  if negb (is_nil (_d d)) then let '(d, r) := do_batch d in (g, d, r) else (g, d, false).

Definition inc_q_cnt (d : t) : t := set_quiescence (_q_batch d) true (_pending d) d.
Definition idle (g : Rcu_glbl.t M) (d : t) : bool := is_nil (_c d) && negb (pending g d).

Definition do_pending_work (cpu : Z) (g : Rcu_glbl.t M) (d : t) : Rcu_glbl.t M * t * bool :=
  if pending g d then process_callbacks cpu g (inc_q_cnt d) else (g, d, false).

(** [~Rcu_data] of the CPU [cpu], run on [current_cpu] with its data [current]:
    the items go to the current CPU.  The machine below never removes a CPU. *)
Definition move_batch (l : list Z) (d : t) : t := set_lists (_batch d) (_n d ++ l) (_c d) (_d d) d.
Definition destroy (current_cpu cpu : Z) (g : Rcu_glbl.t M) (current d : t) : Rcu_glbl.t M * t * t :=
  if current_cpu =? cpu then (g, current, d)
  else
    let g := if Rcu_batch.ne (_current g) (_completed g) then cpu_quiet g cpu else g in
    let current := move_batch (_d d) (move_batch (_n d) (move_batch (_c d) current)) in
    (g, current, set_lists (_batch d) [] [] [] d).
End ops.
End Rcu_data.

(** ** All CPUs *)
Module Rcu.
Section machine.
Context `{Arch} {M : Type} `{!Bit_set M}.
Context (call_back : Z -> bool).
Import Rcu_glbl Rcu_data.

(** Where a CPU is: outside of RCU, at a part of [process_callbacks], or between
    the test of [Rcu::idle] and [enter_idle]. *)
Inductive pc :=
| Ready | P_collect | P_assign | P_pending | P_start | P_check | P_note | P_quiet | P_restart
| P_batch | P_idle | P_idle_restart.

#[global] Instance pc_eq_dec : EqDecision pc.
Proof. solve_decision. Defined.

(** [waiting x] are the CPUs that participated when [x] was queued and have not
    passed a quiescent state since: no field of the code, but what a grace period
    is about.  [failed] records a failed assertion. *)
Record state := mks {
  glbl : Rcu_glbl.t M;
  data : Z -> Rcu_data.t;
  at_ : Z -> pc;
  _lock : option Z;
  waiting : Z -> gset Z;
  failed : bool }.

Definition upd {A} (f : Z -> A) (k : Z) (v : A) : Z -> A := fun i => if i =? k then v else f i.

Definition cpus_all : list Z := seqZ 0 bs_size.

Definition init : state :=
  mks Rcu_glbl.make (fun _ => Rcu_data.make) (fun _ => Ready) None (fun _ => ∅) false.

(** CPU [k] moves on to [p] with local data [d]; the global data, lock and
    waiting sets as given. *)
Definition local (s : state) (k : Z) (d : Rcu_data.t) (p : pc) : state :=
  mks (glbl s) (upd (data s) k d) (upd (at_ s) k p) (_lock s) (waiting s) (failed s).
Definition with_glbl (s : state) (g : Rcu_glbl.t M) : state :=
  mks g (data s) (at_ s) (_lock s) (waiting s) (failed s).
Definition with_lock (s : state) (l : option Z) : state :=
  mks (glbl s) (data s) (at_ s) l (waiting s) (failed s).
Definition with_assert (s : state) (ok : bool) : state :=
  mks (glbl s) (data s) (at_ s) (_lock s) (waiting s) (failed s || negb ok).
(** A quiescent state of [k] *)
Definition quiescent (s : state) (k : Z) : state :=
  mks (glbl s) (data s) (at_ s) (_lock s) (fun x => waiting s x ∖ {[k]}) (failed s).

Definition queued (s : state) (x : Z) : bool :=
  existsb (fun j => bool_decide (x ∈ _n (data s j) ++ _c (data s j) ++ _d (data s j))) cpus_all.

Inductive event :=
| Call (k x : Z)         (** [Rcu::call] *)
| Work (k : Z)           (** [Rcu::do_pending_work]: the test and [inc_q_cnt] *)
| Process (k : Z)        (** [Rcu::process_callbacks] of the timeout *)
| Next (k : Z)           (** the next part of what CPU [k] runs *)
| Check_idle (k : Z)     (** the test of [Rcu::idle] before [enter_idle] *)
| Leave (k : Z).         (** [Rcu::leave_idle] *)

Definition is_cpu (k : Z) : bool := (0 <=? k) && (k <? bs_size).
Definition at_pc (s : state) (k : Z) (p : pc) : bool := bool_decide (at_ s k = p).
Definition unlocked (s : state) : bool := match _lock s with None => true | Some _ => false end.

(** The end of a part that held the lock: [complete] says that [cpu_quiet] goes on
    with [start_batch]. *)
Definition after_quiet (s : state) (k : Z) (complete : bool) (p q : pc) : state :=
  if complete then with_lock (local s k (data s k) p) (Some k) else local s k (data s k) q.

Definition next (s : state) (k : Z) : option state :=
  let g := glbl s in
  let d := data s k in
  match at_ s k with
  | Ready => None
  | P_collect => Some (local s k (collect_done g d) P_assign)
  | P_assign => Some (if has_new d then local s k (assign_batch g d) P_pending else local s k d P_check)
  | P_pending => Some (local s k d (if _next_pending g then P_check else P_start))
  | P_start => if unlocked s then Some (with_glbl (local s k d P_check) (request_batch g)) else None
  | P_check =>
      Some (if Rcu_batch.ne (_q_batch d) (_current g) then local s k d P_note
            else if may_report d then local s k (clear_pending d) P_quiet
            else local s k d P_batch)
  | P_note => Some (local s k (note_batch g d) P_batch)
  | P_quiet =>
      if unlocked s
      then Some (if Rcu_batch.eq (_q_batch d) (_current g)
                 then let '(g, complete) := quiet g k in
                      after_quiet (with_glbl s g) k complete P_restart P_batch
                 else local s k d P_batch)
      else None
  | P_restart => Some (with_lock (with_glbl (local s k d P_batch) (start_batch g)) None)
  | P_batch => Some (local s k (if negb (is_nil (_d d)) then fst (do_batch call_back d) else d) Ready)
  | P_idle =>
      if unlocked s
      then
        let g := set_active (bs_clear (_active_cpus g) k) g in
        let s := quiescent s k in
        Some (if must_quiet g d
              then let '(g', complete) := quiet g k in
                   let d := set_quiescence (_current g) (_q_passed d) false (set_idle true d) in
                   let s := local (with_glbl s g') k d (if complete then P_idle_restart else Ready) in
                   if complete then with_lock s (Some k) else with_assert s (negb (pending g' d))
              else local (with_glbl s g) k (set_idle true d) Ready)
      else None
  | P_idle_restart =>
      let g := start_batch g in
      Some (with_assert (with_lock (with_glbl (local s k d Ready) g) None) (negb (pending g d)))
  end.

Definition step (s : state) (e : event) : option state :=
  match e with
  | Call k x =>
      if is_cpu k && negb (_idle (data s k)) && negb (at_pc s k P_idle) && negb (queued s x)
      then Some (mks (glbl s) (upd (data s) k (enqueue x (data s k))) (at_ s) (_lock s)
                   (upd (waiting s) x
                      (list_to_set (filter (fun j => _idle (data s j) = false) cpus_all)))
                   (failed s))
      else None
  | Work k =>
      if is_cpu k && negb (_idle (data s k)) && at_pc s k Ready && pending (glbl s) (data s k)
      then Some (local (quiescent s k) k (inc_q_cnt (data s k)) P_collect)
      else None
  | Process k =>
      if is_cpu k && negb (_idle (data s k)) && at_pc s k Ready
      then Some (local s k (data s k) P_collect)
      else None
  | Next k => if is_cpu k then next s k else None
  | Check_idle k =>
      if is_cpu k && negb (_idle (data s k)) && at_pc s k Ready && idle (glbl s) (data s k)
      then Some (local s k (data s k) P_idle)
      else None
  | Leave k =>
      if is_cpu k && _idle (data s k) && at_pc s k Ready && unlocked s
      then let '(g, d) := leave_idle k (glbl s) (data s k) in
           Some (with_glbl (local s k d Ready) g)
      else None
  end.

Fixpoint run (s : state) (es : list event) : option state :=
  match es with [] => Some s | e :: es => s ← step s e; run s es end.

Definition reachable (s : state) : Prop := exists es, run init es = Some s.
End machine.
Arguments state : clear implicits.
End Rcu.
