(* ===== verification/RcuInv.v ===== *)
(** The invariant of RCU on all CPUs, and that the steps of a CPU which do not
    start a batch preserve it ([Rcu] has the model, [RcuSafety] the rest). *)

From S2P Require Import Prelude Bitmap Rcu.

(** * The invariant

    Batch numbers wrap around, so the invariant speaks of unbounded numbers of
    which the fields hold the machine words: [G] of the current batch, [C] of the
    completed one, and for each CPU [B k] of its items and [Q k] of the batch
    whose start it has seen. *)

Section batches.
Context `{Arch}.

Definition ts (b : Z) : Z := to_signed MWORD_BITS b.

Lemma ts_sub a b : - 4 <= a - b <= 4 -> Rcu_batch.sub (ts a) (ts b) = a - b.
Proof.
  intros Hd. pose proof arch_ge32. pose proof arch_pos as Hw.
  assert (2 ^ 31 <= 2 ^ (MWORD_BITS - 1)) by (apply Z.pow_le_mono_r; lia).
  apply to_signed_unique; [done | lia |].
  rewrite (Zminus_mod (ts a)). unfold ts. rewrite !to_signed_mod by done. by rewrite <- Zminus_mod.
Qed.

Lemma ts_eq a b : - 4 <= a - b <= 4 -> Rcu_batch.eq (ts a) (ts b) = (a =? b).
Proof.
  intros Hd. unfold Rcu_batch.eq. destruct (Z.eqb_spec a b) as [-> | Hne]; [apply Z.eqb_refl |].
  apply Z.eqb_neq. intros He. apply Hne.
  assert (Rcu_batch.sub (ts a) (ts b) = 0).
  { rewrite He. unfold Rcu_batch.sub. rewrite Z.sub_diag. apply to_signed_unique; [apply arch_pos | | done].
    pose proof arch_pos. assert (0 < 2 ^ (MWORD_BITS - 1)) by (apply pow2_pos; lia). lia. }
  rewrite ts_sub in *; lia.
Qed.

Lemma ts_ge a b : - 4 <= a - b <= 4 -> Rcu_batch.ge (ts a) (ts b) = (a >=? b).
Proof. intros. unfold Rcu_batch.ge. rewrite ts_sub by done. destruct (Z.geb_spec (a - b) 0), (Z.geb_spec a b); lia. Qed.

Lemma ts_add a : Rcu_batch.add (ts a) 1 = ts (a + 1).
Proof.
  pose proof arch_pos. apply to_signed_unique; [done | apply to_signed_range; done |].
  unfold ts. rewrite to_signed_mod by done. rewrite <- (Zplus_mod_idemp_l (to_signed _ a)), to_signed_mod by done.
  by rewrite Zplus_mod_idemp_l.
Qed.
End batches.

(** Proves the invariant of a CPU from the one before a step that changes a few
    of its fields. *)
Ltac cpu_solve Hi :=
  destruct Hi; constructor; simpl; try done; try (intros; discriminate);
  try (intros [? | ?]; discriminate); try tauto; try (intros; intuition (congruence || lia)).

Section invariant.
Context `{Arch} {M : Type} `{!Bit_set M}.
Import Rcu_glbl Rcu_data Rcu.
Implicit Types (s : state M) (d : Rcu_data.t) (p : pc).

Definition cpu (k : Z) : Prop := 0 <= k < bs_size.

(** CPU [k] has not reported the batch [G] and passed no quiescent state since it
    saw the start of the batch. *)
Definition unpassed (G Q : Z) d : Prop := Q = G - 1 \/ _pending d = true /\ _q_passed d = false.

Record cpu_inv (G : Z) (in_cpus active : bool) (B Q : Z) d p : Prop := {
  ci_q : _q_batch d = ts Q;
  ci_b : _batch d = ts B;
  ci_act : active = negb (_idle d);
  ci_idle : _idle d = true -> _c d = [] /\ (p = Ready \/ p = P_idle_restart) /\ _pending d = false /\ in_cpus = false;
  ci_idle_pc : p = P_idle_restart -> _idle d = true;
  ci_range : _idle d = false -> Q = G \/ Q = G - 1 /\ in_cpus = true;
  ci_pend : _pending d = true \/ p = P_quiet -> Q = G /\ in_cpus = true;
  ci_cpus : in_cpus = true -> Q = G - 1 \/ _pending d = true \/ p = P_quiet;
  ci_quiet : p = P_quiet -> _pending d = false;
  ci_note : p = P_note -> Q = G - 1;
  ci_pidle : p = P_idle -> _c d = [];
  ci_start : p = P_pending \/ p = P_start -> _c d <> [] /\ (B = G + 1 \/ B = G /\ Q = G - 1);
  ci_c : _c d <> [] -> G - 1 <= B <= G + 1 /\
    (B = G - 1 -> Q = G - 1 \/ _pending d = true /\ (_q_passed d = true -> p = Ready \/ p = P_collect));
  ci_len : _len d = Z.of_nat (length (_n d)) + Z.of_nat (length (_c d)) + Z.of_nat (length (_d d)) }.

Definition cpus_inv s G (B Q : Z -> Z) : Prop := forall k, cpu k ->
  cpu_inv G (bs_get (_cpus (glbl s)) k) (bs_get (_active_cpus (glbl s)) k) (B k) (Q k) (data s k) (at_ s k).

(** What the items of a list may still wait for *)
Definition wait_inv s G (B Q : Z -> Z) : Prop := forall j x, cpu j ->
  (x ∈ _n (data s j) -> forall k, k ∈ waiting s x -> cpu k /\ _idle (data s k) = false)
  /\ (x ∈ _c (data s j) -> forall k, k ∈ waiting s x -> cpu k /\ _idle (data s k) = false
        /\ B j <> G - 1
        /\ (B j = G -> bs_get (_cpus (glbl s)) k = true /\ unpassed G (Q k) (data s k)))
  /\ (x ∈ _d (data s j) -> waiting s x = ∅).

Definition is_restart p : bool := match p with P_restart | P_idle_restart => true | _ => false end.

Record glbl_inv s (G C : Z) : Prop := {
  gi_cpus : bs_ok (_cpus (glbl s));
  gi_active : bs_ok (_active_cpus (glbl s));
  gi_current : _current (glbl s) = ts G;
  gi_completed : _completed (glbl s) = ts C;
  gi_range : C = G \/ C = G - 1;
  gi_empty : C = G -> forall k, cpu k -> bs_get (_cpus (glbl s)) k = false;
  gi_some : C = G - 1 -> exists k, cpu k /\ bs_get (_cpus (glbl s)) k = true }.

Definition lock_inv s (G C : Z) : Prop :=
  (forall k, cpu k -> is_restart (at_ s k) = true <-> _lock s = Some k)
  /\ (_lock s <> None -> C = G).

(** A batch that has been asked for is wanted by an active CPU. *)
Definition wanted s (G C : Z) (B : Z -> Z) : Prop :=
  _next_pending (glbl s) = true ->
  (_lock s = None -> C = G - 1)
  /\ exists l, cpu l /\ _idle (data s l) = false
     /\ (_lock s = None -> _c (data s l) <> [] /\ G <= B l).

Definition inv s : Prop := exists G C B Q,
  glbl_inv s G C /\ lock_inv s G C /\ wanted s G C B /\ cpus_inv s G B Q /\ wait_inv s G B Q.

(** The start of a batch, seen by one CPU *)
Lemma advance_cpu G a B Q d p :
  cpu_inv G false a B Q d p -> cpu_inv (G + 1) a a B Q d p.
Proof.
  intros [Hq Hb Ha Hi Hip Hr Hp Hc Hqt Hn Hpi Hs Hcc Hl].
  assert (_idle d = false -> Q = G) as HQ by (intros E; destruct (Hr E) as [-> | [_ ?]]; done).
  assert (_pending d = false /\ p <> P_quiet) as [Hp1 Hp2].
  { split; [destruct (_pending d); [| done] | intros ->]; destruct Hp; auto; done. }
  split; try done.
  - intros E. destruct (Hi E) as (? & ? & ? & _). rewrite Ha, E. done.
  - intros E. right. rewrite (HQ E), Ha, E. split; [lia | done].
  - intros [E | E]; congruence.
  - intros E. left. rewrite HQ; [lia |]. rewrite Ha in E. by apply negb_true_iff in E.
  - intros E. specialize (Hn E). destruct (_idle d) eqn:Ei.
    + destruct (Hi eq_refl) as (_ & [? | ?] & _); congruence.
    + specialize (HQ eq_refl). lia.
  - intros E. destruct (Hs E) as [Hne Hor]. split; [done |].
    assert (_idle d = false) as Ei by (destruct (_idle d); [by destruct (Hi eq_refl) | done]).
    specialize (HQ Ei). lia.
  - intros E. destruct (Hcc E) as [HB Hold].
    assert (_idle d = false) as Ei by (destruct (_idle d); [by destruct (Hi eq_refl) | done]).
    specialize (HQ Ei). assert (B <> G - 1).
    { intros ->. destruct (Hold eq_refl) as [? | [? _]]; [lia | congruence]. }
    split; [lia |]. intros. left. lia.
Qed.

Lemma upd_eq {A} (f : Z -> A) k v : upd f k v k = v.
Proof. unfold upd. by rewrite Z.eqb_refl. Qed.
Lemma upd_ne {A} (f : Z -> A) k v i : i <> k -> upd f k v i = f i.
Proof. intros. unfold upd. by destruct (Z.eqb_spec i k). Qed.

(** Items of a completed batch wait for nobody. *)
Lemma completed_none s G C B Q j x :
  glbl_inv s G C -> cpus_inv s G B Q -> wait_inv s G B Q -> cpu j ->
  x ∈ _c (data s j) -> B j <= C -> waiting s x = ∅.
Proof.
  intros Hg Hc Hw Hj Hx HB. apply set_eq. intros k. split; [| set_solver]. intros Hk. exfalso.
  destruct (Hw j x Hj) as (_ & Hwc & _). destruct (Hwc Hx k Hk) as (Hcpu & _ & HB1 & HB2).
  assert (_c (data s j) <> []) as Hne by (intros E; rewrite E in Hx; set_solver).
  destruct (ci_c _ _ _ _ _ _ _ (Hc j Hj) Hne) as [Hr _].
  destruct (gi_range _ _ _ Hg) as [-> | ->]; [| lia].
  destruct HB2 as [Hin _]; [lia |]. by rewrite (gi_empty _ _ _ Hg eq_refl k Hcpu) in Hin.
Qed.

(** A step of CPU [k] that changes its own data only and lets nobody wait longer *)
Record own_step s G C B Q (k : Z) d' p' (w' : Z -> gset Z) B' Q' : Prop := {
  os_cpu : cpu_inv G (bs_get (_cpus (glbl s)) k) (bs_get (_active_cpus (glbl s)) k) B' Q' d' p';
  os_restart : is_restart p' = is_restart (at_ s k);
  os_idle : _idle d' = _idle (data s k);
  os_wait x : w' x ⊆ waiting s x;
  os_unpassed x : k ∈ w' x -> unpassed G (Q k) (data s k) -> unpassed G Q' d';
  os_n x : x ∈ _n d' -> x ∈ _n (data s k);
  os_c x : x ∈ _c d' -> x ∈ _c (data s k) /\ B' = B k \/ x ∈ _n (data s k) /\ B' = G + 1;
  os_d x : x ∈ _d d' -> x ∈ _d (data s k) \/ x ∈ _c (data s k) /\ B k <= C;
  os_wanted : C = G - 1 -> _c (data s k) <> [] -> G <= B k -> _c d' <> [] /\ G <= B' }.

Lemma own_step_wait s G C B Q k d' p' w' B' Q' :
  glbl_inv s G C -> cpus_inv s G B Q -> wait_inv s G B Q -> cpu k ->
  own_step s G C B Q k d' p' w' B' Q' ->
  wait_inv (mks (glbl s) (upd (data s) k d') (upd (at_ s) k p') (_lock s) w' (failed s)) G (upd B k B') (upd Q k Q').
Proof.
  intros Hg Hc Hw Hk [Hcpu Hrs Hid Hsub Hun Hn Hcl Hd _] j x Hj. simpl.
  assert (forall i, _idle (upd (data s) k d' i) = _idle (data s i)) as Hidle.
  { intros i. destruct (decide (i = k)) as [-> | ?]; [by rewrite upd_eq | by rewrite upd_ne]. }
  assert (forall i, i ∈ w' x -> unpassed G (Q i) (data s i) -> unpassed G (upd Q k Q' i) (upd (data s) k d' i)) as Hunp.
  { intros i Hi Hu. destruct (decide (i = k)) as [-> | ?]; [rewrite !upd_eq; eauto | by rewrite !upd_ne]. }
  assert (forall l, l ∈ w' x -> l ∈ waiting s x) as Hsub' by (intros; by apply Hsub).
  destruct (decide (j = k)) as [-> | Hne].
  - rewrite !upd_eq. destruct (Hw k x Hk) as (Hwn & Hwc & Hwd). repeat apply conj.
    + intros Hx i Hi. rewrite Hidle. apply Hwn; auto.
    + intros Hx i Hi. rewrite Hidle. destruct (Hcl x Hx) as [[Hx' ->] | [Hx' ->]].
      * destruct (Hwc Hx' i (Hsub' i Hi)) as (? & ? & ? & Hg').
        do 3 (split; [done |]). intros E. destruct (Hg' E). auto.
      * destruct (Hwn Hx' i (Hsub' i Hi)) as (? & ?).
        do 2 (split; [done |]). lia.
    + intros Hx. assert (waiting s x = ∅) as He.
      { destruct (Hd x Hx) as [? | [? ?]]; [auto | by eapply completed_none]. }
      specialize (Hsub x). rewrite He in Hsub. set_solver.
  - rewrite !upd_ne by done. destruct (Hw j x Hj) as (Hwn & Hwc & Hwd). repeat apply conj.
    + intros Hx i Hi. rewrite Hidle. auto.
    + intros Hx i Hi. rewrite Hidle. destruct (Hwc Hx i (Hsub' i Hi)) as (? & ? & ? & Hg').
      do 3 (split; [done |]). intros E. destruct (Hg' E). auto.
    + intros Hx. specialize (Hsub x). rewrite (Hwd Hx) in Hsub. set_solver.
Qed.

Lemma own_step_inv s G C B Q k d' p' w' B' Q' :
  glbl_inv s G C -> lock_inv s G C -> wanted s G C B -> cpus_inv s G B Q -> wait_inv s G B Q -> cpu k ->
  own_step s G C B Q k d' p' w' B' Q' ->
  inv (mks (glbl s) (upd (data s) k d') (upd (at_ s) k p') (_lock s) w' (failed s)).
Proof.
  intros Hg [Hl1 Hl2] Hwt Hc Hw Hk Hs. exists G, C, (upd B k B'), (upd Q k Q'). repeat apply conj.
  - by destruct Hg.
  - intros i Hi. simpl. destruct (decide (i = k)) as [-> | ?].
    + rewrite upd_eq, (os_restart _ _ _ _ _ _ _ _ _ _ _ Hs). by apply Hl1.
    + rewrite upd_ne by done. by apply Hl1.
  - done.
  - intros Hnp. destruct (Hwt Hnp) as (HC & l & Hl & Hli & Hlc). split; [done |]. exists l. simpl.
    destruct (decide (l = k)) as [-> | ?]; [| by rewrite !upd_ne].
    rewrite !upd_eq, (os_idle _ _ _ _ _ _ _ _ _ _ _ Hs). split; [done |]. split; [done |].
    intros Hn. destruct (Hlc Hn). apply (os_wanted _ _ _ _ _ _ _ _ _ _ _ Hs); auto.
  - intros i Hi. simpl. destruct (decide (i = k)) as [-> | ?].
    + rewrite !upd_eq. apply (os_cpu _ _ _ _ _ _ _ _ _ _ _ Hs).
    + rewrite !upd_ne by done. by apply Hc.
  - by apply own_step_wait with C.
Qed.

(** The lists do not change. *)
Lemma own_same s G C B Q k d' p' w' Q' :
  cpu_inv G (bs_get (_cpus (glbl s)) k) (bs_get (_active_cpus (glbl s)) k) (B k) Q' d' p' ->
  is_restart p' = is_restart (at_ s k) -> _idle d' = _idle (data s k) ->
  _n d' = _n (data s k) -> _c d' = _c (data s k) -> _d d' = _d (data s k) ->
  (forall x, w' x ⊆ waiting s x) ->
  (forall x, k ∈ w' x -> unpassed G (Q k) (data s k) -> unpassed G Q' d') ->
  own_step s G C B Q k d' p' w' (B k) Q'.
Proof. intros ?? ? Hn Hc Hd ??. constructor; rewrite ?Hn, ?Hc, ?Hd; auto. Qed.

Lemma is_nil_spec l : is_nil l = true <-> l = [].
Proof. by destruct l. Qed.

Lemma collect_inv s k : inv s -> cpu k -> at_ s k = P_collect ->
  inv (local s k (collect_done (glbl s) (data s k)) P_assign).
Proof.
  intros (G & C & B & Q & Hg & Hl & Hwt & Hc & Hw) Hk Hp. pose proof (Hc k Hk) as Hi. rewrite Hp in Hi.
  apply (own_step_inv s G C B Q k _ _ _ (B k) (Q k)); try done. unfold collect_done.
  destruct (is_nil (_c (data s k))) eqn:En; simpl.
  { apply is_nil_spec in En. apply own_same; rewrite ?Hp; try done. cpu_solve Hi. }
  assert (_c (data s k) <> []) as Hne by (intros E; by rewrite E in En).
  destruct (ci_c _ _ _ _ _ _ _ Hi Hne) as [HB _].
  pose proof (gi_range _ _ _ Hg) as HC.
  rewrite (gi_completed _ _ _ Hg), (ci_b _ _ _ _ _ _ _ Hi), ts_ge by lia.
  destruct (Z.geb_spec C (B k)); simpl.
  - constructor; simpl; rewrite ?Hp; try done.
    + cpu_solve Hi. rewrite length_app. simpl. lia.
    + intros x Hx. by apply elem_of_nil in Hx.
    + intros x [? | ?]%elem_of_app; auto with lia.
    + lia.
  - apply own_same; rewrite ?Hp; try done. cpu_solve Hi.
Qed.

(** CPU [k] goes on to [p'] with the same data. *)
Lemma move_inv s G C B Q k p' :
  glbl_inv s G C -> lock_inv s G C -> wanted s G C B -> cpus_inv s G B Q -> wait_inv s G B Q -> cpu k ->
  is_restart p' = is_restart (at_ s k) ->
  cpu_inv G (bs_get (_cpus (glbl s)) k) (bs_get (_active_cpus (glbl s)) k) (B k) (Q k) (data s k) p' ->
  inv (local s k (data s k) p').
Proof.
  intros ?????? Hr Hi. apply (own_step_inv s G C B Q k _ _ _ (B k) (Q k)); try done. by apply own_same.
Qed.

Lemma busy s G B Q k : cpus_inv s G B Q -> cpu k -> at_ s k <> Ready -> at_ s k <> P_idle_restart ->
  _idle (data s k) = false.
Proof.
  intros Hc Hk Hp Hp'. destruct (_idle (data s k)) eqn:E; [| done].
  destruct (ci_idle _ _ _ _ _ _ _ (Hc k Hk) E) as (_ & [? | ?] & _); done.
Qed.

Lemma assign_inv s k : inv s -> cpu k -> at_ s k = P_assign ->
  inv (if has_new (data s k) then local s k (assign_batch (glbl s) (data s k)) P_pending
       else local s k (data s k) P_check).
Proof.
  intros (G & C & B & Q & Hg & Hl & Hwt & Hc & Hw) Hk Hp. pose proof (Hc k Hk) as Hi.
  pose proof (busy s G B Q k Hc Hk ltac:(congruence) ltac:(congruence)) as Hb.
  rewrite Hp in Hi. destruct (has_new (data s k)) eqn:Hn.
  - unfold has_new in Hn. apply andb_true_iff in Hn as [Hn1 Hn2]. apply is_nil_spec in Hn2.
    assert (_n (data s k) <> []) as Hne by (intros E; by rewrite E in Hn1).
    apply (own_step_inv s G C B Q k _ _ _ (G + 1) (Q k)); try done.
    unfold assign_batch. rewrite (gi_current _ _ _ Hg), ts_add.
    constructor; simpl; rewrite ?Hp; try done.
    + cpu_solve Hi. rewrite Hn2 in *. simpl in *. lia.
    + by intros x ?%elem_of_nil.
    + auto.
    + auto.
  - apply (move_inv s G C B Q k); try done; [by rewrite Hp |]. cpu_solve Hi.
Qed.

Lemma pending_inv s k : inv s -> cpu k -> at_ s k = P_pending ->
  inv (local s k (data s k) (if _next_pending (glbl s) then P_check else P_start)).
Proof.
  intros (G & C & B & Q & Hg & Hl & Hwt & Hc & Hw) Hk Hp. pose proof (Hc k Hk) as Hi.
  pose proof (busy s G B Q k Hc Hk ltac:(congruence) ltac:(congruence)) as Hb.
  rewrite Hp in Hi. destruct (_next_pending (glbl s)).
  - apply (move_inv s G C B Q k); try done; [by rewrite Hp |]. cpu_solve Hi.
  - apply (move_inv s G C B Q k); try done; [by rewrite Hp |]. cpu_solve Hi.
Qed.

(** The test of [_q_batch] against the current batch *)
Lemma seen_batch s G C B Q k : glbl_inv s G C -> cpus_inv s G B Q -> cpu k -> _idle (data s k) = false ->
  Rcu_batch.ne (_q_batch (data s k)) (_current (glbl s)) = negb (Q k =? G).
Proof.
  intros Hg Hc Hk Hb. pose proof (Hc k Hk) as Hi. unfold Rcu_batch.ne. f_equal.
  rewrite (gi_current _ _ _ Hg), (ci_q _ _ _ _ _ _ _ Hi). apply ts_eq.
  destruct (ci_range _ _ _ _ _ _ _ Hi Hb) as [-> | [-> _]]; lia.
Qed.

Lemma check_inv s k : inv s -> cpu k -> at_ s k = P_check ->
  inv (if Rcu_batch.ne (_q_batch (data s k)) (_current (glbl s)) then local s k (data s k) P_note
       else if may_report (data s k) then local s k (clear_pending (data s k)) P_quiet
       else local s k (data s k) P_batch).
Proof.
  intros (G & C & B & Q & Hg & Hl & Hwt & Hc & Hw) Hk Hp. pose proof (Hc k Hk) as Hi.
  pose proof (busy s G B Q k Hc Hk ltac:(congruence) ltac:(congruence)) as Hb.
  rewrite (seen_batch s G C B Q k) by done. rewrite Hp in Hi.
  destruct (ci_range _ _ _ _ _ _ _ Hi Hb) as [HQ | [HQ Hin]]; destruct (Z.eqb_spec (Q k) G); try lia; simpl.
  - unfold may_report. destruct (_pending (data s k)) eqn:Epd; simpl.
    + destruct (_q_passed (data s k)) eqn:Eps.
      * apply (own_step_inv s G C B Q k _ _ _ (B k) (Q k)); try done. apply own_same; rewrite ?Hp; try done.
        -- cpu_solve Hi.
        -- intros x _ [? | [_ ?]]; [lia | congruence].
      * apply (move_inv s G C B Q k); try done; [by rewrite Hp |]. cpu_solve Hi.
    + apply (move_inv s G C B Q k); try done; [by rewrite Hp |]. cpu_solve Hi.
  - apply (move_inv s G C B Q k); try done; [by rewrite Hp |]. cpu_solve Hi.
Qed.

Lemma note_inv s k : inv s -> cpu k -> at_ s k = P_note ->
  inv (local s k (note_batch (glbl s) (data s k)) P_batch).
Proof.
  intros (G & C & B & Q & Hg & Hl & Hwt & Hc & Hw) Hk Hp. pose proof (Hc k Hk) as Hi.
  pose proof (busy s G B Q k Hc Hk ltac:(congruence) ltac:(congruence)) as Hb. rewrite Hp in Hi.
  apply (own_step_inv s G C B Q k _ _ _ (B k) G); try done. unfold note_batch. rewrite (gi_current _ _ _ Hg).
  apply own_same; rewrite ?Hp; try done.
  - cpu_solve Hi.
  - intros x _ _. by right.
Qed.

Lemma batch_inv call_back s k : inv s -> cpu k -> at_ s k = P_batch ->
  inv (local s k (if negb (is_nil (_d (data s k))) then fst (do_batch call_back (data s k)) else data s k) Ready).
Proof.
  intros (G & C & B & Q & Hg & Hl & Hwt & Hc & Hw) Hk Hp. pose proof (Hc k Hk) as Hi.
  pose proof (busy s G B Q k Hc Hk ltac:(congruence) ltac:(congruence)) as Hb. rewrite Hp in Hi.
  destruct (is_nil (_d (data s k))).
  - apply (move_inv s G C B Q k); try done; [by rewrite Hp |]. cpu_solve Hi.
  - apply (own_step_inv s G C B Q k _ _ _ (B k) (Q k)); try done. constructor; simpl; rewrite ?Hp; try done; auto.
    + cpu_solve Hi.
    + by intros x ?%elem_of_nil.
Qed.

(** CPU [k] is taken out of the CPUs that are waited for. *)
Record drop_step s G C B Q (k : Z) (g' : Rcu_glbl.t M) d' p' (lk' : option Z) (w' : Z -> gset Z) Q' C' : Prop := {
  ds_cpus i : cpu i -> i <> k -> bs_get (_cpus g') i = bs_get (_cpus (glbl s)) i;
  ds_active i : cpu i -> i <> k -> bs_get (_active_cpus g') i = bs_get (_active_cpus (glbl s)) i;
  ds_gone : bs_get (_cpus g') k = false;
  ds_next : _next_pending g' = _next_pending (glbl s);
  ds_cpu : cpu_inv G false (bs_get (_active_cpus g') k) (B k) Q' d' p';
  ds_restart : is_restart p' = true <-> lk' = Some k;
  ds_lock : lk' = None /\ C' = C \/ lk' = Some k /\ C' = G;
  ds_n : _n d' = _n (data s k);
  ds_c : _c d' = _c (data s k);
  ds_d : _d d' = _d (data s k);
  ds_wait x : w' x ⊆ waiting s x;
  ds_self x : k ∈ w' x -> _idle d' = false /\ ~ unpassed G (Q k) (data s k);
  ds_idle : _idle d' = true -> _c (data s k) = [] }.

Lemma drop_wait s G C B Q k g' d' p' lk' w' Q' C' fl :
  cpus_inv s G B Q -> wait_inv s G B Q -> cpu k -> drop_step s G C B Q k g' d' p' lk' w' Q' C' ->
  wait_inv (mks g' (upd (data s) k d') (upd (at_ s) k p') lk' w' fl) G B (upd Q k Q').
Proof.
  intros Hc Hw Hk Hs j x Hj. simpl. destruct (Hw j x Hj) as (Hwn & Hwc & Hwd).
  pose proof (ds_wait _ _ _ _ _ _ _ _ _ _ _ _ _ Hs x) as Hsub.
  assert (forall i, i ∈ w' x -> _idle (data s i) = false -> _idle (upd (data s) k d' i) = false) as Hidle.
  { intros i Hi E. destruct (decide (i = k)) as [-> | ?]; [| by rewrite upd_ne]. rewrite upd_eq.
    by apply (ds_self _ _ _ _ _ _ _ _ _ _ _ _ _ Hs x). }
  assert (_n (upd (data s) k d' j) = _n (data s j) /\ _c (upd (data s) k d' j) = _c (data s j)
          /\ _d (upd (data s) k d' j) = _d (data s j)) as (-> & -> & ->).
  { destruct (decide (j = k)) as [-> | ?]; [| by rewrite upd_ne]. rewrite upd_eq.
    destruct Hs. done. }
  repeat apply conj.
  - intros Hx i Hi. destruct (Hwn Hx i) as [? ?]; [set_solver |]. auto.
  - intros Hx i Hi. destruct (Hwc Hx i) as (? & ? & ? & Hg); [set_solver |].
    split; [done |]. split; [auto |]. split; [done |]. intros E. destruct (Hg E) as [Hin Hun].
    destruct (decide (i = k)) as [-> | Hne].
    + by destruct (ds_self _ _ _ _ _ _ _ _ _ _ _ _ _ Hs x Hi).
    + rewrite !upd_ne by done. by rewrite (ds_cpus _ _ _ _ _ _ _ _ _ _ _ _ _ Hs).
  - intros Hx. rewrite (Hwd Hx) in Hsub. set_solver.
Qed.

Lemma drop_inv s G C B Q k g' d' p' lk' w' Q' C' fl :
  lock_inv s G C -> _lock s = None -> wanted s G C B -> cpus_inv s G B Q -> wait_inv s G B Q -> cpu k ->
  drop_step s G C B Q k g' d' p' lk' w' Q' C' ->
  let s' := mks g' (upd (data s) k d') (upd (at_ s) k p') lk' w' fl in
  glbl_inv s' G C' -> inv s'.
Proof.
  intros [Hl1 _] HL Hwt Hc Hw Hk Hs s' Hg'. exists G, C', B, (upd Q k Q'). repeat apply conj.
  - done.
  - intros i Hi. simpl. destruct (decide (i = k)) as [-> | Hne].
    + rewrite upd_eq. apply Hs.
    + rewrite upd_ne by done. rewrite Hl1, HL by done. destruct (ds_lock _ _ _ _ _ _ _ _ _ _ _ _ _ Hs) as [[-> _] | [-> _]]; naive_solver.
  - intros Hn. destruct (ds_lock _ _ _ _ _ _ _ _ _ _ _ _ _ Hs) as [[E _] | [_ ->]]; [done | done].
  - intros Hnp. simpl in Hnp. rewrite (ds_next _ _ _ _ _ _ _ _ _ _ _ _ _ Hs) in Hnp.
    destruct (Hwt Hnp) as (HC & l & Hl & Hli & Hlc). destruct (Hlc HL) as [Hne HB]. split.
    + intros E. destruct (ds_lock _ _ _ _ _ _ _ _ _ _ _ _ _ Hs) as [[_ ->] | [E' _]]; [auto | simpl in E; congruence].
    + exists l. simpl. split; [done |]. destruct (decide (l = k)) as [-> | ?]; [| by rewrite upd_ne].
      rewrite upd_eq, (ds_c _ _ _ _ _ _ _ _ _ _ _ _ _ Hs). split; [| done].
      destruct (_idle d') eqn:E; [| done]. by destruct Hne; apply Hs.
  - intros i Hi. simpl. destruct (decide (i = k)) as [-> | Hne].
    + rewrite !upd_eq, (ds_gone _ _ _ _ _ _ _ _ _ _ _ _ _ Hs). apply Hs.
    + rewrite !upd_ne by done.
      rewrite (ds_cpus _ _ _ _ _ _ _ _ _ _ _ _ _ Hs), (ds_active _ _ _ _ _ _ _ _ _ _ _ _ _ Hs) by done. by apply Hc.
  - by eapply drop_wait.
Qed.

(** [quiet] on the masks *)
Lemma not_empty m : bs_ok m -> bs_empty m = false -> exists k, cpu k /\ bs_get m k = true.
Proof.
  intros Hm He. destruct (list_find (fun k => bs_get m k = true) (seqZ 0 bs_size)) as [[i k] |] eqn:E.
  - apply list_find_Some in E as (Hk & HP & _). exists k. split; [| done].
    apply lookup_seqZ in Hk. unfold cpu. lia.
  - exfalso. assert (bs_empty m = true); [| congruence]. apply bs_empty_spec; [done |]. intros n Hn.
    apply list_find_None in E. rewrite Forall_forall in E. apply not_true_is_false, E, elem_of_seqZ. lia.
Qed.

Lemma quiet_glbl s G C k (m : M) :
  glbl_inv s G C -> cpu k -> bs_ok m ->
  (C = G -> bs_empty (bs_clear (_cpus (glbl s)) k) = true) ->
  let '(g', complete) := quiet (set_active m (glbl s)) k in
  (forall dt at' lk w fl, glbl_inv (mks g' dt at' lk w fl) G (if complete then G else C))
  /\ (forall i, cpu i -> bs_get (_cpus g') i = negb (i =? k) && bs_get (_cpus (glbl s)) i)
  /\ _active_cpus g' = m /\ _next_pending g' = _next_pending (glbl s).
Proof.
  intros Hg Hk Hm HCG. destruct Hg as [Hok Hoka Hcur Hcom Hr Hem Hso]. unfold quiet. simpl.
  assert (forall i, cpu i -> bs_get (bs_clear (_cpus (glbl s)) k) i = negb (i =? k) && bs_get (_cpus (glbl s)) i) as Hget.
  { intros i Hi. by apply bs_get_clear. }
  pose proof (bs_clear_ok _ _ Hok Hk) as Hok'.
  destruct (bs_empty (bs_clear (_cpus (glbl s)) k)) eqn:E; (split; [| done]); intros; constructor; simpl; try done; try lia.
  - intros _ i Hi. revert i Hi. by apply bs_empty_spec.
  - intros _. by apply not_empty.
Qed.

Lemma quiet_inv s k : inv s -> cpu k -> at_ s k = P_quiet -> _lock s = None ->
  inv (if Rcu_batch.eq (_q_batch (data s k)) (_current (glbl s))
       then let '(g, complete) := quiet (glbl s) k in
            after_quiet (with_glbl s g) k complete P_restart P_batch
       else local s k (data s k) P_batch).
Proof.
  intros (G & C & B & Q & Hg & Hl & Hwt & Hc & Hw) Hk Hp HL. pose proof (Hc k Hk) as Hi.
  pose proof (busy s G B Q k Hc Hk ltac:(congruence) ltac:(congruence)) as Hb.
  destruct (ci_pend _ _ _ _ _ _ _ Hi (or_intror Hp)) as [HQ Hin].
  pose proof (seen_batch s G C B Q k Hg Hc Hk Hb) as Hne. unfold Rcu_batch.ne in Hne. unfold Rcu_batch.eq.
  rewrite HQ, Z.eqb_refl in Hne. simpl in Hne. apply negb_false_iff in Hne. rewrite Hne.
  assert (C <> G) as HCG by (intros ->; rewrite (gi_empty _ _ _ Hg) in Hin by done; done).
  pose proof (quiet_glbl s G C k (_active_cpus (glbl s)) Hg Hk (gi_active _ _ _ Hg) ltac:(done)) as Hq.
  replace (set_active _ _) with (glbl s) in Hq by (by destruct (glbl s)).
  destruct (quiet (glbl s) k) as [g' complete]. destruct Hq as (Hg' & Hget & Hact & Hnp). rewrite Hp in Hi.
  assert (drop_step s G C B Q k g' (data s k) (if complete then P_restart else P_batch)
    (if complete then Some k else None) (waiting s) (Q k) (if complete then G else C)) as Hd.
  { constructor; try done.
    - intros i Hci Hik. rewrite Hget by done. by destruct (Z.eqb_spec i k).
    - intros i Hci Hik. by rewrite Hact.
    - rewrite Hget by done. by rewrite Z.eqb_refl.
    - rewrite Hact. destruct complete; cpu_solve Hi.
    - by destruct complete.
    - destruct complete; auto.
    - intros x _. split; [done |]. intros [? | [E _]]; [lia |].
      by rewrite (ci_quiet _ _ _ _ _ _ _ Hi eq_refl) in E.
    - congruence. }
  unfold after_quiet, local, with_lock, with_glbl. destruct complete; simpl.
  - eapply drop_inv; [exact Hl | done | exact Hwt | exact Hc | exact Hw | exact Hk | exact Hd | apply Hg'].
  - rewrite HL. eapply drop_inv; [exact Hl | done | exact Hwt | exact Hc | exact Hw | exact Hk | exact Hd | apply Hg'].
Qed.
End invariant.
