(* ===== verification/RcuSafety.v ===== *)
(** The steps of RCU that start a batch or change the set of active CPUs, and
    what follows for callbacks: they run only after a grace period
    ([rcu_grace_period]), no grace period is forgotten ([rcu_no_stall]), and the
    assertion in [enter_idle] can fail ([rcu_enter_idle_assert]). *)

From S2P Require Import Prelude Bitmap Rcu RcuInv.

Section safety.
Context `{Arch} {M : Type} `{!Bit_set M}.
Context (call_back : Z -> bool).
Import Rcu_glbl Rcu_data Rcu.
Implicit Types (s : state M) (d : Rcu_data.t) (p : pc).

(** The CPU that enters the idle state; [b] says that it had to report. *)
Lemma idle_cpu G inc act B Q d b : cpu_inv G inc act B Q d P_idle ->
  let d' := if b : bool then set_quiescence (ts G) (_q_passed d) false (set_idle true d) else set_idle true d in
  (b = false -> _pending d = false) ->
  forall p', p' = Ready \/ p' = P_idle_restart -> cpu_inv G false false B (if b then G else Q) d' p'.
Proof.
  intros Hi d' Hb p' Hp. pose proof (ci_pidle _ _ _ _ _ _ _ Hi eq_refl) as Hc. subst d'.
  destruct b, Hp as [-> | ->]; cpu_solve Hi.
Qed.

Lemma no_wait (w : Z -> gset Z) k x : k ∉ w x ∖ {[k]}.
Proof. set_solver. Qed.

(** [enter_idle] without a report *)
Lemma idle_quiet_inv s G C B Q k fl :
  glbl_inv s G C -> lock_inv s G C -> wanted s G C B -> cpus_inv s G B Q -> wait_inv s G B Q -> cpu k ->
  at_ s k = P_idle -> _lock s = None -> Q k = G -> _pending (data s k) = false ->
  inv (mks (set_active (bs_clear (_active_cpus (glbl s)) k) (glbl s)) (upd (data s) k (set_idle true (data s k)))
         (upd (at_ s) k Ready) None (fun x => waiting s x ∖ {[k]}) fl).
Proof.
  intros Hg Hl Hwt Hc Hw Hk Hp HL HQ Hpd. pose proof (Hc k Hk) as Hi. rewrite Hp in Hi.
  pose proof (gi_active _ _ _ Hg) as Hoka.
  assert (bs_get (_cpus (glbl s)) k = false) as Hin.
  { destruct (bs_get (_cpus (glbl s)) k) eqn:E; [| done].
    destruct (ci_cpus _ _ _ _ _ _ _ Hi eq_refl) as [? | [? | ?]]; [lia | congruence | done]. }
  eapply (drop_inv s G C B Q k _ _ _ _ _ (Q k) C); try done.
  - constructor; simpl; try done.
    + intros i Hci Hik. rewrite bs_get_clear by done. by destruct (Z.eqb_spec i k).
    + rewrite bs_get_clear, Z.eqb_refl by done. by apply (idle_cpu _ _ _ _ _ _ false Hi); auto.
    + auto.
    + set_solver.
    + intros x Hx. by apply no_wait in Hx.
    + intros _. by apply (ci_pidle _ _ _ _ _ _ _ Hi).
  - destruct Hg. constructor; simpl; try done. by apply bs_clear_ok.
Qed.

(** [enter_idle] with a report *)
Lemma idle_report_inv s G C B Q k fl :
  glbl_inv s G C -> lock_inv s G C -> wanted s G C B -> cpus_inv s G B Q -> wait_inv s G B Q -> cpu k ->
  at_ s k = P_idle -> _lock s = None -> C <> G ->
  let '(g', complete) := quiet (set_active (bs_clear (_active_cpus (glbl s)) k) (glbl s)) k in
  let d' := set_quiescence (_current (glbl s)) (_q_passed (data s k)) false (set_idle true (data s k)) in
  inv (mks g' (upd (data s) k d') (upd (at_ s) k (if complete then P_idle_restart else Ready))
         (if complete then Some k else None) (fun x => waiting s x ∖ {[k]}) fl).
Proof.
  intros Hg Hl Hwt Hc Hw Hk Hp HL HCG. pose proof (Hc k Hk) as Hi. rewrite Hp in Hi.
  pose proof (gi_active _ _ _ Hg) as Hoka. pose proof (bs_clear_ok _ _ Hoka Hk) as Hokc.
  pose proof (quiet_glbl s G C k _ Hg Hk Hokc ltac:(done)) as Hq.
  destruct (quiet _ k) as [g' complete]. destruct Hq as (Hg' & Hget & Hact & Hnp).
  rewrite (gi_current _ _ _ Hg).
  eapply (drop_inv s G C B Q k _ _ _ _ _ G (if complete then G else C)); try done.
  constructor; simpl; try done.
  - intros i Hci Hik. rewrite Hget by done. by destruct (Z.eqb_spec i k).
  - intros i Hci Hik. rewrite Hact, bs_get_clear by done. by destruct (Z.eqb_spec i k).
  - rewrite Hget by done. by rewrite Z.eqb_refl.
  - rewrite Hact, bs_get_clear, Z.eqb_refl by done. simpl.
    apply (idle_cpu _ _ _ _ _ _ true Hi); [done | destruct complete; auto].
  - by destruct complete.
  - destruct complete; auto.
  - set_solver.
  - intros x Hx. by apply no_wait in Hx.
  - intros _. by apply (ci_pidle _ _ _ _ _ _ _ Hi).
Qed.

Lemma idle_inv s s' k : inv s -> cpu k -> at_ s k = P_idle -> next call_back s k = Some s' -> inv s'.
Proof.
  intros (G & C & B & Q & Hg & Hl & Hwt & Hc & Hw) Hk Hp. pose proof (Hc k Hk) as Hi.
  pose proof (busy s G B Q k Hc Hk ltac:(congruence) ltac:(congruence)) as Hb.
  unfold next. rewrite Hp. unfold unlocked. destruct (_lock s) eqn:HL; [done |]. intros [= <-].
  unfold must_quiet. simpl. rewrite (seen_batch s G C B Q k) by done.
  assert (Q k = G \/ Q k <> G /\ C <> G) as HQ.
  { destruct (ci_range _ _ _ _ _ _ _ Hi Hb) as [? | [? Hin]]; [by left | right]. split; [lia |].
    intros ->. by rewrite (gi_empty _ _ _ Hg) in Hin. }
  assert (_pending (data s k) = true -> C <> G) as HP.
  { intros E ->. destruct (ci_pend _ _ _ _ _ _ _ Hi (or_introl E)) as [_ Hin].
    by rewrite (gi_empty _ _ _ Hg) in Hin. }
  pose proof (idle_report_inv s G C B Q k) as Hrep.
  destruct (negb (Q k =? G) || _pending (data s k)) eqn:Em.
  - assert (C <> G) as HCG.
    { apply orb_true_iff in Em as [Em | Em]; [| auto]. destruct (Z.eqb_spec (Q k) G); naive_solver. }
    destruct (quiet _ k) as [g' complete]. destruct complete; unfold with_assert, with_lock, local; simpl.
    + specialize (Hrep (failed s) Hg Hl Hwt Hc Hw Hk Hp HL HCG). simpl in Hrep.
      exact Hrep.
    + rewrite HL. by apply Hrep.
  - apply orb_false_iff in Em as [Em1 Em2]. unfold local; simpl. rewrite HL.
    eapply idle_quiet_inv; eauto. destruct (Z.eqb_spec (Q k) G); [done | discriminate].
Qed.

Lemma upd_same {A} (f : Z -> A) k i : upd f k (f k) i = f i.
Proof. destruct (decide (i = k)) as [-> | ?]; [apply upd_eq | by apply upd_ne]. Qed.

(** The conditions on waiting CPUs do not depend on where the CPUs are. *)
Lemma wait_ext s s' G B Q :
  (forall i, data s' i = data s i) -> waiting s' = waiting s -> _cpus (glbl s') = _cpus (glbl s) ->
  wait_inv s G B Q -> wait_inv s' G B Q.
Proof.
  intros Hd Hw Hc Hi j x Hj. rewrite Hw, Hc, !Hd. destruct (Hi j x Hj) as (Hn & Hcl & Hdn).
  split; [| split; [| done]]; intros Hx i Hin; rewrite !Hd; auto.
Qed.

Lemma move_cpus s s' G B Q k p' :
  (forall i, data s' i = data s i) -> (forall i, i <> k -> at_ s' i = at_ s i) -> at_ s' k = p' ->
  _cpus (glbl s') = _cpus (glbl s) -> _active_cpus (glbl s') = _active_cpus (glbl s) ->
  cpus_inv s G B Q -> cpu k ->
  cpu_inv G (bs_get (_cpus (glbl s)) k) (bs_get (_active_cpus (glbl s)) k) (B k) (Q k) (data s k) p' ->
  cpus_inv s' G B Q.
Proof.
  intros Hd Ha Hk Hc Hac Hi Hcpu Hnew i Hci. rewrite Hd, Hc, Hac.
  destruct (decide (i = k)) as [-> | ?]; [by rewrite Hk | rewrite Ha by done; auto].
Qed.

(** A new batch is started: every active CPU has to pass a quiescent state. *)
Lemma advance_parts s s' G B Q :
  glbl_inv s G G -> cpus_inv s G B Q -> wait_inv s G B Q -> (exists l, cpu l /\ _idle (data s l) = false) ->
  data s' = data s -> at_ s' = at_ s -> waiting s' = waiting s ->
  glbl s' = Rcu_glbl.mk (Rcu_batch.incr (_current (glbl s))) (_completed (glbl s)) false
              (_active_cpus (glbl s)) (_active_cpus (glbl s)) ->
  glbl_inv s' (G + 1) G /\ cpus_inv s' (G + 1) B Q /\ wait_inv s' (G + 1) B Q.
Proof.
  intros Hg Hc Hw (l & Hl & Hli) Hd Ha Hwt Hgl.
  assert (forall i, cpu i -> cpu_inv G false (bs_get (_active_cpus (glbl s)) i) (B i) (Q i) (data s i) (at_ s i)) as Hc'.
  { intros i Hi. rewrite <- (gi_empty _ _ _ Hg eq_refl i Hi). auto. }
  repeat apply conj.
  - destruct Hg as [? ? Hcur ? ? ? ?]. constructor; rewrite ?Hgl; simpl; try done; try lia.
    + unfold Rcu_batch.incr. rewrite Hcur. apply ts_add.
    + intros _. exists l. split; [done |]. rewrite (ci_act _ _ _ _ _ _ _ (Hc l Hl)), Hli. done.
  - intros i Hi. rewrite Hgl, Hd, Ha. simpl. by apply advance_cpu, Hc'.
  - intros j x Hj. rewrite Hd, Hwt, Hgl. simpl. destruct (Hw j x Hj) as (Hn & Hcl & Hdn).
    split; [done |]. split; [| done]. intros Hx k Hk. destruct (Hcl Hx k Hk) as (Hck & Hid & HB1 & HB2).
    assert (B j <> G) as HBG.
    { intros E. destruct (HB2 E) as [Hin _]. by rewrite (gi_empty _ _ _ Hg) in Hin. }
    split; [done |]. split; [done |]. split; [lia |]. intros HBj.
    rewrite (ci_act _ _ _ _ _ _ _ (Hc k Hck)), Hid. split; [done |]. left.
    destruct (ci_range _ _ _ _ _ _ _ (Hc' k Hck) Hid) as [? | [? ?]]; [lia | done].
Qed.

Lemma start_inv s k : inv s -> cpu k -> at_ s k = P_start -> _lock s = None ->
  inv (with_glbl (local s k (data s k) P_check) (request_batch (glbl s))).
Proof.
  intros (G & C & B & Q & Hg & Hl & Hwt & Hc & Hw) Hk Hp HL. pose proof (Hc k Hk) as Hi.
  pose proof (busy s G B Q k Hc Hk ltac:(congruence) ltac:(congruence)) as Hb. rewrite Hp in Hi.
  destruct (ci_start _ _ _ _ _ _ _ Hi (or_intror eq_refl)) as [Hne HB].
  set (s1 := with_glbl (local s k (data s k) P_check) (set_next_pending (glbl s))).
  assert (cpus_inv s1 G B Q) as Hc1.
  { apply (move_cpus s s1 G B Q k P_check); try done; simpl; auto using upd_same, upd_eq, upd_ne. cpu_solve Hi. }
  assert (wait_inv s1 G B Q) as Hw1 by (apply (wait_ext s); try done; apply upd_same).
  assert (glbl_inv s1 G C) as Hg1 by (by destruct Hg).
  assert (forall i, cpu i -> is_restart (at_ s1 i) = true <-> _lock s1 = Some i) as Hl1.
  { intros i Hci. simpl. destruct Hl as [Hl _]. rewrite <- Hl by done.
    destruct (decide (i = k)) as [-> | ?]; [by rewrite upd_eq, Hp | by rewrite upd_ne]. }
  unfold request_batch, start_batch. simpl. rewrite (gi_completed _ _ _ Hg), (gi_current _ _ _ Hg).
  destruct (gi_range _ _ _ Hg) as [-> | ->].
  - unfold Rcu_batch.eq. rewrite Z.eqb_refl.
    edestruct (advance_parts s1 (with_glbl (local s k (data s k) P_check)
      (Rcu_glbl.mk (Rcu_batch.incr (ts G)) (ts G) false (_active_cpus (glbl s)) (_active_cpus (glbl s)))) G B Q)
      as (Hg2 & Hc2 & Hw2); try done.
    + exists k. split; [done |]. simpl. by rewrite upd_eq.
    + simpl. by rewrite (gi_completed _ _ _ Hg), (gi_current _ _ _ Hg).
    + exists (G + 1), G, B, Q. by repeat apply conj.
  - rewrite ts_eq by lia. destruct (Z.eqb_spec (G - 1) G); [lia |].
    exists G, (G - 1), B, Q. repeat apply conj; try done.
    + intros _. split; [done |]. exists k. simpl. rewrite upd_eq. split; [done |]. split; [done |]. intros _. split; [done | lia].
Qed.

(** The end of [cpu_quiet], with the lock held *)
Lemma restart_inv s k p' fl : inv s -> cpu k -> is_restart (at_ s k) = true ->
  p' = (if _idle (data s k) then Ready else P_batch) ->
  inv (mks (start_batch (glbl s)) (upd (data s) k (data s k)) (upd (at_ s) k p') None (waiting s) fl).
Proof.
  intros (G & C & B & Q & Hg & [Hl1 Hl2] & Hwt & Hc & Hw) Hk Hp Hp'. pose proof (Hc k Hk) as Hi.
  assert (_lock s = Some k) as HL by (by apply Hl1). rewrite HL in Hl2. rewrite (Hl2 ltac:(done)) in *.
  set (s1 := mks (glbl s) (upd (data s) k (data s k)) (upd (at_ s) k p') None (waiting s) fl).
  assert (cpus_inv s1 G B Q) as Hc1.
  { apply (move_cpus s s1 G B Q k p'); try done; simpl; auto using upd_same, upd_eq, upd_ne.
    rewrite Hp'. destruct (at_ s k); try done; destruct (_idle (data s k)) eqn:E; cpu_solve Hi. }
  assert (wait_inv s1 G B Q) as Hw1 by (apply (wait_ext s); try done; apply upd_same).
  assert (glbl_inv s1 G G) as Hg1 by (by destruct Hg).
  assert (forall i, cpu i -> is_restart (upd (at_ s) k p' i) = true <-> None = Some i) as Hl3.
  { intros i Hci. destruct (decide (i = k)) as [-> | ?].
    - rewrite upd_eq, Hp'. by destruct (_idle (data s k)).
    - rewrite upd_ne by done. rewrite Hl1, HL by done. naive_solver. }
  unfold start_batch. destruct (_next_pending (glbl s)) eqn:Hn; simpl.
  - rewrite (gi_completed _ _ _ Hg), (gi_current _ _ _ Hg). unfold Rcu_batch.eq. rewrite Z.eqb_refl.
    destruct (Hwt Hn) as (_ & l & Hl & Hli & _).
    edestruct (advance_parts s1 (mks (Rcu_glbl.mk (Rcu_batch.incr (ts G)) (ts G) false (_active_cpus (glbl s))
      (_active_cpus (glbl s))) (upd (data s) k (data s k)) (upd (at_ s) k p') None (waiting s) fl) G B Q)
      as (Hg2 & Hc2 & Hw2); try done.
    + exists l. split; [done |]. simpl. by rewrite upd_same.
    + simpl. by rewrite (gi_completed _ _ _ Hg), (gi_current _ _ _ Hg).
    + exists (G + 1), G, B, Q. by repeat apply conj.
  - exists G, G, B, Q. repeat apply conj; try done. intros E. simpl in E. congruence.
Qed.

Lemma queued_none s x : queued s x = false ->
  forall j, cpu j -> x ∉ _n (data s j) /\ x ∉ _c (data s j) /\ x ∉ _d (data s j).
Proof.
  intros Hq j Hj. assert (~ x ∈ _n (data s j) ++ _c (data s j) ++ _d (data s j)) as Hn.
  { intros Hin. unfold queued in Hq. apply not_true_iff_false in Hq. apply Hq, existsb_exists.
    exists j. split; [| by apply bool_decide_eq_true_2].
    apply list_elem_of_In, elem_of_seqZ. unfold cpu in Hj. lia. }
  rewrite !elem_of_app in Hn. naive_solver.
Qed.

Lemma is_cpu_spec k : is_cpu k = true <-> cpu k.
Proof. unfold is_cpu, cpu. rewrite andb_true_iff, Z.leb_le, Z.ltb_lt. done. Qed.

Lemma call_inv s k x : inv s -> cpu k -> _idle (data s k) = false -> queued s x = false ->
  inv (mks (glbl s) (upd (data s) k (enqueue x (data s k))) (at_ s) (_lock s)
         (upd (waiting s) x (list_to_set (filter (fun j => _idle (data s j) = false) cpus_all))) (failed s)).
Proof.
  intros (G & C & B & Q & Hg & Hl & Hwt & Hc & Hw) Hk Hb Hq. pose proof (Hc k Hk) as Hi.
  exists G, C, B, Q.
  set (dt := upd (data s) k (enqueue x (data s k))).
  assert (forall i, _idle (dt i) = _idle (data s i) /\ _c (dt i) = _c (data s i) /\ _d (dt i) = _d (data s i)
    /\ _pending (dt i) = _pending (data s i) /\ _q_passed (dt i) = _q_passed (data s i)) as Hsame.
  { intros i. unfold dt. destruct (decide (i = k)) as [-> | ?]; [by rewrite upd_eq | by rewrite upd_ne]. }
  repeat apply conj.
  - by destruct Hg.
  - apply Hl.
  - apply Hl.
  - intros Hn. destruct (Hwt Hn) as (HC & l & Hcl & Hli & Hlc). split; [done |]. exists l. simpl.
    destruct (Hsame l) as (E1 & E2 & _). rewrite E1, E2. done.
  - intros i Hci. simpl. unfold dt. destruct (decide (i = k)) as [-> | ?]; [rewrite upd_eq | rewrite upd_ne by done; auto].
    destruct Hi. constructor; simpl; try done. rewrite length_app. simpl. lia.
  - intros j y Hj. simpl. destruct (Hsame j) as (_ & -> & -> & _).
    destruct (Hw j y Hj) as (Hn & Hcl & Hd). destruct (decide (y = x)) as [-> | Hne].
    + rewrite upd_eq. destruct (queued_none s x Hq j Hj) as (? & ? & ?). split; [| split; [done | done]].
      intros _ i Hin. destruct (Hsame i) as (-> & _). rewrite elem_of_list_to_set, list_elem_of_filter in Hin.
      destruct Hin as [? Hin%elem_of_seqZ]. split; [unfold cpu; lia | done].
    + rewrite upd_ne by done. split; [| split; [| done]].
      * intros Hx i Hin. destruct (Hsame i) as (-> & _). apply Hn; [| done].
        unfold dt in Hx. destruct (decide (j = k)) as [-> | ?]; [rewrite upd_eq in Hx | by rewrite upd_ne in Hx].
        simpl in Hx. apply elem_of_app in Hx as [? | ?%list_elem_of_singleton]; done.
      * intros Hx i Hin. destruct (Hsame i) as (-> & _ & _ & Hpd & Hps). unfold unpassed. rewrite Hpd, Hps. auto.
Qed.

Lemma leave_inv s k : inv s -> cpu k -> _idle (data s k) = true -> at_ s k = Ready ->
  _lock s = None -> let '(g, d) := leave_idle k (glbl s) (data s k) in inv (with_glbl (local s k d Ready) g).
Proof.
  intros (G & C & B & Q & Hg & Hl & Hwt & Hc & Hw) Hk Hb Hp HL. pose proof (Hc k Hk) as Hi.
  destruct (ci_idle _ _ _ _ _ _ _ Hi Hb) as (Hcn & _ & Hpd & Hin).
  unfold leave_idle. rewrite Hb. set (d := set_quiescence _ _ _ _). pose proof (gi_active _ _ _ Hg) as Hoka.
  exists G, C, B, (upd Q k G). repeat apply conj.
  - destruct Hg. constructor; simpl; try done. by apply bs_set_ok.
  - intros i Hci. simpl. destruct Hl as [Hl _]. rewrite <- Hl by done.
    destruct (decide (i = k)) as [-> | ?]; [by rewrite upd_eq, Hp | by rewrite upd_ne].
  - apply Hl.
  - intros Hn. destruct (Hwt Hn) as (HC & l & Hcl & Hli & Hlc). split; [done |]. exists l. simpl.
    rewrite upd_ne; [done |]. intros ->. congruence.
  - intros i Hci. simpl. rewrite bs_get_set by done. destruct (decide (i = k)) as [-> | ?].
    + rewrite !upd_eq, Z.eqb_refl, Hin. simpl. rewrite Hp, Hin in Hi.
      pose proof (gi_current _ _ _ Hg) as Hcur. subst d. cpu_solve Hi.
    + rewrite !upd_ne by done. destruct (Z.eqb_spec i k); [done |]. simpl. auto.
  - intros j y Hj. simpl. destruct (Hw j y Hj) as (Hn & Hcl & Hd).
    assert (forall i, _idle (data s i) = false -> upd (data s) k d i = data s i /\ upd Q k G i = Q i) as Hact.
    { intros i Hid. assert (i <> k) by congruence. by rewrite !upd_ne. }
    assert (_n (upd (data s) k d j) = _n (data s j) /\ _c (upd (data s) k d j) = _c (data s j)
            /\ _d (upd (data s) k d j) = _d (data s j)) as (-> & -> & ->).
    { destruct (decide (j = k)) as [-> | ?]; [by rewrite upd_eq | by rewrite upd_ne]. }
    split; [| split; [| done]]; intros Hx i Hin'.
    + destruct (Hn Hx i Hin') as [? Hid]. destruct (Hact i Hid) as [-> _]. done.
    + destruct (Hcl Hx i Hin') as (? & Hid & ?). destruct (Hact i Hid) as [-> ->]. done.
Qed.

Lemma work_inv s k : inv s -> cpu k -> _idle (data s k) = false -> at_ s k = Ready ->
  inv (local (quiescent s k) k (inc_q_cnt (data s k)) P_collect).
Proof.
  intros (G & C & B & Q & Hg & Hl & Hwt & Hc & Hw) Hk Hb Hp. pose proof (Hc k Hk) as Hi. rewrite Hp in Hi.
  apply (own_step_inv s G C B Q k _ _ _ (B k) (Q k)); try done. apply own_same; rewrite ?Hp; try done.
  - cpu_solve Hi.
  - set_solver.
  - intros x Hx. by apply no_wait in Hx.
Qed.

Lemma enter_pc s k p' : inv s -> cpu k -> _idle (data s k) = false -> at_ s k = Ready ->
  p' = P_collect \/ p' = P_idle /\ _c (data s k) = [] -> inv (local s k (data s k) p').
Proof.
  intros (G & C & B & Q & Hg & Hl & Hwt & Hc & Hw) Hk Hb Hp Hp'. pose proof (Hc k Hk) as Hi. rewrite Hp in Hi.
  apply (move_inv s G C B Q k); try done; [by rewrite Hp; destruct Hp' as [-> | [-> _]] |].
  destruct Hp' as [-> | [-> ?]]; cpu_solve Hi.
Qed.

Lemma next_inv s s' k : inv s -> cpu k -> next call_back s k = Some s' -> inv s'.
Proof.
  intros Hi Hk Hs. pose proof Hi as (G & C & B & Q & _ & _ & _ & Hc & _).
  destruct (at_ s k) eqn:Hp; try (by apply (idle_inv s s' k)); revert Hs; unfold next; rewrite Hp.
  - done.
  - intros [= <-]. by apply collect_inv.
  - intros [= <-]. by apply assign_inv.
  - intros [= <-]. by apply pending_inv.
  - unfold unlocked. destruct (_lock s) eqn:HL; [done |]. intros [= <-]. by apply start_inv.
  - intros [= <-]. by apply check_inv.
  - intros [= <-]. by apply note_inv.
  - unfold unlocked. destruct (_lock s) eqn:HL; [done |]. intros [= <-]. by apply quiet_inv.
  - intros [= <-]. apply (restart_inv s k P_batch (failed s)); rewrite ?Hp; try done.
    by rewrite (busy s G B Q k Hc Hk) by congruence.
  - intros [= <-]. by apply (batch_inv call_back).
  - intros [= <-]. apply (restart_inv s k Ready); rewrite ?Hp; try done.
    by rewrite (ci_idle_pc _ _ _ _ _ _ _ (Hc k Hk) Hp).
Qed.

Lemma rcu_step_inv s s' e : inv s -> step call_back s e = Some s' -> inv s'.
Proof.
  intros Hi. destruct e as [k x | k | k | k | k | k]; simpl.
  all: destruct (is_cpu k) eqn:Hk; [| done]; apply is_cpu_spec in Hk; simpl.
  4: by apply next_inv.
  all: destruct (_idle (data s k)) eqn:Hb; simpl; try done.
  - destruct (at_pc s k P_idle), (queued s x) eqn:Hq; simpl; try done. intros [= <-]. by apply call_inv.
  - destruct (at_pc s k Ready) eqn:Hp, (pending _ _); simpl; try done. intros [= <-].
    apply bool_decide_eq_true in Hp. by apply work_inv.
  - destruct (at_pc s k Ready) eqn:Hp; simpl; try done. intros [= <-].
    apply bool_decide_eq_true in Hp. apply enter_pc; auto.
  - destruct (at_pc s k Ready) eqn:Hp, (idle _ _) eqn:He; simpl; try done. intros [= <-].
    apply bool_decide_eq_true in Hp. apply andb_true_iff in He as [He _]. apply is_nil_spec in He.
    apply enter_pc; auto.
  - destruct (at_pc s k Ready) eqn:Hp; simpl; try done. apply bool_decide_eq_true in Hp.
    unfold unlocked. destruct (_lock s) eqn:HL; [done |]. pose proof (leave_inv s k Hi Hk Hb Hp HL) as Hl.
    destruct (leave_idle _ _ _). by intros [= <-].
Qed.

Lemma init_inv : inv (init : state M).
Proof.
  exists (-300), (-300), (fun _ => 0), (fun _ => 0).
  assert (forall b, - 300 <= b <= 0 -> ts b = b) as Hts.
  { intros b Hb. pose proof arch_ge32. apply to_signed_unique; [lia | | done].
    assert (2 ^ 31 <= 2 ^ (MWORD_BITS - 1)) by (apply Z.pow_le_mono_r; lia). lia. }
  repeat apply conj; try done.
  - constructor; simpl; rewrite ?Hts by lia; try done; try lia; auto using bs_none_ok, bs_get_none.
  - intros k Hk. simpl. rewrite !bs_get_none by done. by constructor; simpl; rewrite ?Hts by lia; try done; auto; intros [].
Qed.

Lemma rcu_reachable_inv s : reachable call_back s -> inv s.
Proof.
  intros [es Hr]. revert Hr. generalize init_inv. generalize (init : state M) as s0. intros s0 H0 Hr. revert s0 H0 Hr.
  induction es as [|e es IH]; intros s0 H0; simpl; [by intros [= <-] |].
  destruct (step call_back s0 e) as [s1 |] eqn:E; simpl; [| done]. intros Hr. eapply IH; [| exact Hr].
  by eapply rcu_step_inv.
Qed.

(** Without interference the steps of a CPU are the function
    [process_callbacks]: the parts are those of the code, in its order. *)
Definition finishes s k (g : Rcu_glbl.t M) d : Prop := exists n s',
  run call_back s (replicate n (Next k)) = Some s' /\ glbl s' = g /\ data s' k = d
  /\ at_ s' k = Ready /\ _lock s' = None /\ forall j, j <> k -> data s' j = data s j.

Lemma finish_step s s1 k g d :
  cpu k -> next call_back s k = Some s1 -> (forall j, j <> k -> data s1 j = data s j) ->
  finishes s1 k g d -> finishes s k g d.
Proof.
  intros Hk Hn Hd (n & s' & Hr & Hg & Hdk & Ha & Hl & Hj). exists (S n), s'. simpl.
  rewrite (proj2 (is_cpu_spec k) Hk), Hn. simpl. repeat split; try done. intros j Hne. by rewrite Hj, Hd.
Qed.

Lemma finish_batch s k g d : cpu k -> at_ s k = P_batch -> _lock s = None -> glbl s = g -> data s k = d ->
  finishes s k g (if negb (is_nil (_d d)) then fst (do_batch call_back d) else d).
Proof.
  intros Hk Hp HL <- <-. eapply finish_step; [done | unfold next; by rewrite Hp | intros; simpl; by apply upd_ne |].
  exists 0%nat. eexists. simpl. repeat split; try done; apply upd_eq.
Qed.

Lemma finish_check s k : cpu k -> at_ s k = P_check -> _lock s = None ->
  let '(g, d) := check_quiescent_state k (glbl s) (data s k) in
  finishes s k g (if negb (is_nil (_d d)) then fst (do_batch call_back d) else d).
Proof.
  intros Hk Hp HL. unfold check_quiescent_state. destruct (Rcu_batch.ne _ _) eqn:Hne.
  - eapply finish_step; [done | unfold next; rewrite Hp, Hne; done | intros; by apply upd_ne |].
    eapply finish_step; [done | unfold next; simpl; by rewrite !upd_eq | intros; by apply upd_ne |].
    apply finish_batch; simpl; by rewrite ?upd_eq.
  - destruct (may_report (data s k)) eqn:Hm; simpl.
    + eapply finish_step; [done | unfold next; rewrite Hp, Hne, Hm; done | intros; by apply upd_ne |].
      set (s1 := local s k (clear_pending (data s k)) P_quiet).
      unfold Rcu_batch.ne in Hne. apply negb_false_iff in Hne.
      assert (Rcu_batch.eq (_q_batch (data s k)) (_current (glbl s)) = true) as He by done. rewrite He.
      assert (next call_back s1 k = Some (let '(g, complete) := quiet (glbl s) k in
        after_quiet (with_glbl s1 g) k complete P_restart P_batch)) as Hn.
      { unfold next, s1, unlocked. simpl. rewrite !upd_eq, HL. simpl. by rewrite He. }
      unfold cpu_quiet. destruct (quiet (glbl s) k) as [g [|]].
      * eapply finish_step; [done | exact Hn | intros; by apply upd_ne |].
        set (s2 := after_quiet (with_glbl s1 g) k true P_restart P_batch).
        set (s3 := with_lock (with_glbl (local s2 k (data s2 k) P_batch) (start_batch (glbl s2))) None).
        apply (finish_step s2 s3); [done | unfold next; simpl; by rewrite upd_eq | intros; by apply upd_ne |].
        apply (finish_batch _ k _ (clear_pending (data s k))); simpl; by rewrite ?upd_eq.
      * eapply finish_step; [done | exact Hn | intros; by apply upd_ne |].
        apply (finish_batch _ k _ (clear_pending (data s k))); simpl; by rewrite ?upd_eq.
    + eapply finish_step; [done | unfold next; rewrite Hp, Hne, Hm; done | intros; by apply upd_ne |].
      apply (finish_batch _ k _ (data s k)); simpl; by rewrite ?upd_eq.
Qed.

Lemma process_steps s k : cpu k -> at_ s k = P_collect -> _lock s = None ->
  let '(g, d, _) := process_callbacks call_back k (glbl s) (data s k) in finishes s k g d.
Proof.
  intros Hk Hp HL. unfold process_callbacks. set (d := collect_done (glbl s) (data s k)).
  assert (forall g e, (let '(g, d) := check_quiescent_state k g e in
      finishes s k g (if negb (is_nil (_d d)) then fst (do_batch call_back d) else d)) ->
    let '(g, d, _) := (let '(g, d) := check_quiescent_state k g e in
      if negb (is_nil (_d d)) then let '(d, r) := do_batch call_back d in (g, d, r) else (g, d, false)) in
    finishes s k g d) as Hend.
  { intros g e. destruct (check_quiescent_state k g e) as [g' d']. by destruct (negb (is_nil (_d d'))). }
  set (s1 := local s k d P_assign).
  assert (forall g e, finishes s1 k g e -> finishes s k g e) as H1.
  { intros g e. apply finish_step; [done | unfold next; by rewrite Hp | intros; by apply upd_ne]. }
  assert (forall s2 g e, at_ s2 k = P_check -> _lock s2 = None -> data s2 k = e -> glbl s2 = g ->
    (forall g e, finishes s2 k g e -> finishes s1 k g e) ->
    let '(g, d) := check_quiescent_state k g e in
    finishes s k g (if negb (is_nil (_d d)) then fst (do_batch call_back d) else d)) as H2.
  { intros s2 g e Ha Hl Hd Hg Hf. pose proof (finish_check s2 k Hk Ha Hl) as Hc.
    rewrite Hg, Hd in Hc. destruct (check_quiescent_state k g e). auto. }
  assert (data s1 k = d) as Hd1 by apply upd_eq.
  destruct (has_new d) eqn:Hn.
  - set (d1 := assign_batch (glbl s) d).
    assert (next call_back s1 k = Some (local s1 k d1 P_pending)) as Hn1.
    { unfold next. simpl. rewrite !upd_eq, Hn. done. }
    set (s2 := local s1 k d1 P_pending) in *.
    assert (forall g e, finishes s2 k g e -> finishes s1 k g e) as H12.
    { intros g e. apply finish_step; [done | exact Hn1 | intros; by apply upd_ne]. }
    apply Hend. destruct (_next_pending (glbl s)) eqn:Hnp; simpl.
    + apply (H2 (local s2 k d1 P_check)); try done; try apply upd_eq. intros g e Hf. apply H12. revert Hf.
      apply finish_step; [done | | intros; by apply upd_ne].
      unfold next. simpl. rewrite !upd_eq, Hnp. done.
    + set (s3 := local s2 k d1 P_start).
      apply (H2 (with_glbl (local s3 k d1 P_check) (request_batch (glbl s)))); try done; try apply upd_eq.
      intros g e Hf. apply H12.
      apply (finish_step s2 s3); [done | unfold next; simpl; rewrite !upd_eq, Hnp; done | intros; by apply upd_ne |].
      revert Hf. apply finish_step; [done | | intros; by apply upd_ne].
      unfold next, unlocked. simpl. rewrite !upd_eq, HL. done.
  - apply Hend, (H2 (local s1 k d P_check)); try done; try apply upd_eq. intros g e.
    apply finish_step; [done | unfold next; simpl; by rewrite !upd_eq, Hn | intros; by apply upd_ne].
Qed.

(** C23: on any number of CPUs and for every interleaving of their steps, a
    callback is among those to be run only when every CPU that participated in RCU
    at the time of the call has passed a quiescent state or gone idle since; batch
    numbers may wrap around.  The counter of queued items is exact. *)
Theorem rcu_grace_period s j x :
  reachable call_back s -> 0 <= j < bs_size ->
  (x ∈ _d (data s j) -> waiting s x = ∅)
  /\ _len (data s j) = Z.of_nat (length (_n (data s j) ++ _c (data s j) ++ _d (data s j))).
Proof.
  intros (G & C & B & Q & _ & _ & _ & Hc & Hw)%rcu_reachable_inv Hj. split; [by apply (Hw j x Hj) |].
  rewrite (ci_len _ _ _ _ _ _ _ (Hc j Hj)), !length_app. lia.
Qed.

(** C24: no grace period is forgotten: while a batch is not completed there is a CPU
    it waits for, and each such CPU, when it is not processing callbacks, sees
    pending work; and when another batch has been asked for and no CPU is at the
    end of [cpu_quiet], a batch is in progress whose completion starts it. *)
Theorem rcu_no_stall s :
  reachable call_back s ->
  (_completed (glbl s) <> _current (glbl s) ->
     exists k, 0 <= k < bs_size /\ bs_get (_cpus (glbl s)) k = true)
  /\ (forall k, 0 <= k < bs_size -> bs_get (_cpus (glbl s)) k = true -> at_ s k = Ready ->
     pending (glbl s) (data s k) = true)
  /\ (_next_pending (glbl s) = true -> _lock s = None -> _completed (glbl s) <> _current (glbl s)).
Proof.
  intros (G & C & B & Q & Hg & _ & Hwt & Hc & _)%rcu_reachable_inv.
  assert (C <> G -> C = G - 1) as HCG by (pose proof (gi_range _ _ _ Hg); lia).
  split; [| split].
  - intros Hne. apply (gi_some _ _ _ Hg), HCG. intros ->. apply Hne.
    by rewrite (gi_current _ _ _ Hg), (gi_completed _ _ _ Hg).
  - intros k Hk Hin Hp. pose proof (Hc k Hk) as Hi.
    assert (_idle (data s k) = false) as Hb.
    { destruct (_idle (data s k)) eqn:E; [| done]. destruct (ci_idle _ _ _ _ _ _ _ Hi E) as (_ & _ & _ & ?). congruence. }
    unfold pending. rewrite (seen_batch s G C B Q k) by done.
    destruct (ci_cpus _ _ _ _ _ _ _ Hi Hin) as [HQ | [-> | ?]]; [| by rewrite !orb_true_r | congruence].
    destruct (Z.eqb_spec (Q k) G); [lia |]. by rewrite !orb_true_r.
  - intros Hn HL He. destruct (Hwt Hn) as [HC _]. specialize (HC HL).
    rewrite (gi_current _ _ _ Hg), (gi_completed _ _ _ Hg) in He.
    assert (Rcu_batch.eq (ts C) (ts G) = true) as Hq by (unfold Rcu_batch.eq; rewrite He; apply Z.eqb_refl).
    rewrite ts_eq in Hq by lia. lia.
Qed.
End safety.

(** * Runs of three CPUs *)
Module Rcu_witness.
#[local] Existing Instance arch64.
Import Rcu_glbl Rcu_data Rcu.

Lemma three_cpus : 0 < 3 < 2 ^ 32 - MWORD_BITS.
Proof. simpl. lia. Qed.
#[local] Instance masks : Bit_set Bitmap.t := cpu_mask_bit_set 3 three_cpus.

Definition no_resched (x : Z) : bool := false.
Definition nexts (k : Z) (n : nat) : list event := replicate n (Next k).

(** CPU 0 finds that it may go idle; then CPU 1 queues an item, which starts a
    batch, both other CPUs report it, CPU 2 queues another item, and only now
    CPU 0 enters the idle state. *)
Definition race : list event :=
  [Leave 0; Leave 1; Leave 2; Check_idle 0; Call 1 100; Work 1] ++ nexts 1 7
  ++ [Work 2] ++ nexts 2 5 ++ [Work 1] ++ nexts 1 5 ++ [Call 2 200; Work 2] ++ nexts 2 7.
Definition raced : list event := race ++ nexts 0 2.
(** CPU 1 collects its item. *)
Definition collected : list event := raced ++ [Work 1] ++ nexts 1 4.

Definition after (es : list event) : state Bitmap.t := default init (run no_resched init es).

Lemma after_reachable es :
  match run no_resched init es with Some _ => true | None => false end = true ->
  reachable no_resched (after es).
Proof. intros Hr. exists es. unfold after. by destruct (run no_resched init es). Qed.

Lemma rcu_grace_period_witness :
  100 ∈ _d (data (after collected) 1) /\ waiting (after collected) 100 = ∅ /\ _len (data (after collected) 1) = 1.
Proof.
  assert (reachable no_resched (after collected)) as Hr by (apply after_reachable; vm_compute; reflexivity).
  assert (_d (data (after collected) 1) = [100]) as Hd by (vm_compute; reflexivity).
  destruct (rcu_grace_period no_resched (after collected) 1 100 Hr) as [Hw Hl]; [simpl; lia |].
  assert (100 ∈ _d (data (after collected) 1)) as Hin by (rewrite Hd; constructor).
  split; [exact Hin |]. split; [exact (Hw Hin) |]. rewrite Hl. vm_compute. reflexivity.
Defined.

Lemma rcu_no_stall_witness :
  _completed (glbl (after race)) = -300 /\ _current (glbl (after race)) = -299
  /\ exists k, 0 <= k < 3 /\ bs_get (_cpus (glbl (after race))) k = true.
Proof.
  assert (reachable no_resched (after race)) as Hr by (apply after_reachable; vm_compute; reflexivity).
  assert (_completed (glbl (after race)) = -300) as Hc by (vm_compute; reflexivity).
  assert (_current (glbl (after race)) = -299) as Hg by (vm_compute; reflexivity).
  split; [exact Hc |]. split; [exact Hg |].
  apply (rcu_no_stall no_resched (after race) Hr). rewrite Hc, Hg. lia.
Defined.

(** The assertion at the end of [Rcu_data::enter_idle] can fail: when other
    CPUs start a batch, report it and ask for another one between the test of
    [Rcu::idle] and [enter_idle], the report of the idle CPU starts the next batch
    and its [_q_batch] is behind again. *)
Theorem rcu_enter_idle_assert :
  reachable no_resched (after raced) /\ failed (after race) = false /\ failed (after raced) = true
  /\ _q_batch (data (after raced) 0) = -299 /\ _current (glbl (after raced)) = -298.
Proof. split; [apply after_reachable |]; vm_compute; auto. Qed.
End Rcu_witness.
