(* ===== verification/SlabCache.v ===== *)
(** Slab caches: [src/src/lib/libk/slab_cache.h] and [slab_cache.cc].

    A slab is a block of memory, aligned to its size, that holds objects of one
    size from its start on and the [Slab] record at its end.  Slabs are named by
    the address of their block; the three lists of a cache hold these names.

    The operations run concurrently.  [alloc] gives up the lock while it asks for a
    block, so it is two sections under the lock; [free] and each round of [reap]
    are one.  The machine at the end interleaves these sections; the functions
    [block_alloc] and [block_free] are its environment, which may hand out any
    aligned block that the cache does not own.  An assertion that fails is
    [None]. *)

From S2P Require Import Prelude RamQuota.

(** The size of the C++ object [Slab] *)
Class Slab_env := { sizeof_Slab : Z }.

(** ** Slab *)
Module Slab.
Section ops.
Context `{Arch}.

Record t := mk { _free : list Z; _elems : Z; _in_use : Z }.

(** The loop of the constructor, which pushes the objects to the front *)
Fixpoint fill (n : nat) (data entry_size : Z) (free : list Z) : list Z :=
  match n with
  | O => free
  | S n => fill n (madd data entry_size) entry_size (data :: free)
  end.

Definition make (elems entry_size mem : Z) : t :=
  mk (fill (Z.to_nat elems) mem entry_size []) (wrap 16 elems) 0.

Definition alloc (s : t) : option (t * Z) :=
  match _free s with
  | [] => None
  | e :: free => Some (mk free (_elems s) (wrap 16 (_in_use s + 1)), e)
  end.

Definition free (entry : Z) (s : t) : option t :=
  if _in_use s =? 0 then None
  else Some (mk (entry :: _free s) (_elems s) (wrap 16 (_in_use s - 1))).

Definition is_empty (s : t) : bool := _in_use s =? 0.
Definition is_full (s : t) : bool := _in_use s =? _elems s.
Definition in_use (s : t) : Z := _in_use s.
End ops.
End Slab.

(** ** Slab_cache *)
Module Slab_cache.
Section ops.
Context `{Arch} `{Slab_env}.

Record t := mk {
  slabs : gmap Z Slab.t;
  _full : list Z;
  _partial : list Z;
  _empty : list Z;
  _slab_size : Z;
  _entry_size : Z;
  _elem_num : Z;
  _num_empty : Z }.

(** [unsigned] arithmetic *)
Definition entry_size (elem_size alignment : Z) : Z :=
  wrap 32 (wrap 32 (elem_size + alignment - 1) .& wrap 32 (Z.lnot (wrap 32 (alignment - 1)))).

(** The loop that doubles the size until eight objects fit *)
Fixpoint size_loop (fuel : nat) (slab_size entry max_size : Z) : Z :=
  match fuel with
  | O => slab_size
  | S fuel =>
      if (msub slab_size sizeof_Slab / entry <? 8) && (slab_size <? max_size)
      then size_loop fuel (mshl slab_size 1) entry max_size else slab_size
  end.

Definition make_sized (slab_size elem_size alignment : Z) : t :=
  let e := entry_size elem_size alignment in
  mk ∅ [] [] [] slab_size e (wrap 32 (msub slab_size sizeof_Slab / e)) 0.

Definition make (elem_size alignment min_size max_size : Z) : t :=
  make_sized (size_loop (Z.to_nat MWORD_BITS) min_size (entry_size elem_size alignment) max_size)
    elem_size alignment.

Definition set_slabs (m : gmap Z Slab.t) (c : t) : t :=
  mk m (_full c) (_partial c) (_empty c) (_slab_size c) (_entry_size c) (_elem_num c) (_num_empty c).
Definition set_lists (full partial empty : list Z) (num_empty : Z) (c : t) : t :=
  mk (slabs c) full partial empty (_slab_size c) (_entry_size c) (_elem_num c) num_empty.

(** [H_list::remove]: an element is taken out of the list it is in. *)
Definition without (s : Z) (l : list Z) : list Z := filter (fun x => x <> s) l.
Definition remove (s : Z) (c : t) : t :=
  set_lists (without s (_full c)) (without s (_partial c)) (without s (_empty c)) (_num_empty c) c.
Definition add_full (s : Z) (c : t) : t := set_lists (s :: _full c) (_partial c) (_empty c) (_num_empty c) c.
Definition add_partial (s : Z) (c : t) : t := set_lists (_full c) (s :: _partial c) (_empty c) (_num_empty c) c.

Definition get_available_locked (c : t) : t * option Z :=
  match _partial c, _empty c with
  | s :: _, _ => (c, Some s)
  | [], s :: e => (set_lists (_full c) [s] e (wrap 32 (_num_empty c - 1)) c, Some s)
  | [], [] => (c, None)
  end.

(** The end of [alloc]: an object of the slab [s] *)
Definition alloc_from (s : Z) (c : t) : option (t * Z) :=
  sl ← slabs c !! s;
  '(sl, ret) ← Slab.alloc sl;
  let c := set_slabs (<[s := sl]> (slabs c)) c in
  Some (if Slab.is_full sl then add_full s (remove s c) else c, ret).

(** The section of [alloc] before a block is asked for: [inl] is the object, [inr]
    says that a block is needed. *)
Definition alloc_fast (c : t) : option (t * Z + t) :=
  match get_available_locked c with
  | (c, Some s) => r ← alloc_from s c; Some (inl r)
  | (c, None) => Some (inr c)
  end.

(** The section after it: [m] is the block, the results are the object, null when
    there is no memory, and the block that was not needed. *)
Definition alloc_slow (m : option Z) (c : t) : option (t * option Z * option Z) :=
  match get_available_locked c with
  | (c, Some s) => '(c, ret) ← alloc_from s c; Some (c, Some ret, m)
  | (c, None) =>
      match m with
      | None => Some (c, None, None)
      | Some m =>
          let c := set_slabs (<[m := Slab.make (_elem_num c) (_entry_size c) m]> (slabs c)) c in
          '(c, ret) ← alloc_from m (add_partial m c);
          Some (c, Some ret, None)
      end
  end.

Definition slab_of (c : t) (entry : Z) : Z := entry .& mnot (msub (_slab_size c) 1).

(** [free]; the second result is the block that is returned. *)
Definition free (entry : Z) (c : t) : option (t * option Z) :=
  let s := slab_of c entry in
  sl ← slabs c !! s;
  let was_full := Slab.is_full sl in
  sl ← Slab.free entry sl;
  let c := set_slabs (<[s := sl]> (slabs c)) c in
  if was_full then Some (add_partial s (remove s c), None)
  else if Slab.is_empty sl
  then
    let c := remove s c in
    if _num_empty c <? 2
    then Some (set_lists (_full c) (_partial c) (s :: _empty c) (wrap 32 (_num_empty c + 1)) c, None)
    else Some (set_slabs (delete s (slabs c)) c, Some s)
  else Some (c, None).

(** One round of [reap] *)
Definition reap_one (c : t) : t * option Z :=
  match _empty c with
  | [] => (c, None)
  | s :: _ => let c := remove s c in (set_slabs (delete s (slabs c)) c, Some s)
  end.

(** [reap] when nobody interferes, with the number of bytes freed *)
Fixpoint reap_loop (fuel : nat) (c : t) (sz : Z) : t * Z :=
  match fuel with
  | O => (c, sz)
  | S fuel =>
      match reap_one c with
      | (c, None) => (c, sz)
      | (c, Some _) => reap_loop fuel c (madd sz (_slab_size c))
      end
  end.
Definition reap (c : t) : t * Z := reap_loop (S (length (_empty c))) c 0.

(** [q_alloc] and [q_free]: [alloc] is the whole function, with its effect on a
    state [W]. *)
Definition q_alloc {W} (alloc : W -> W * option Z) (entry : Z) (q : Ram_quota.t) (w : W)
    : Ram_quota.t * W * option Z :=
  let '(charge, q) := Auto_quota.make q entry in
  if negb (Auto_quota.ok charge) then (Auto_quota.destroy charge q, w, None)
  else
    match alloc w with
    | (w, None) => (Auto_quota.destroy charge q, w, None)
    | (w, Some r) => let charge := Auto_quota.release charge in (Auto_quota.destroy charge q, w, Some r)
    end.
Definition q_free {W} (free : W -> W) (entry : Z) (q : Ram_quota.t) (w : W) : Ram_quota.t * W :=
  let w := free w in (snd (Ram_quota.free q entry), w).
End ops.
End Slab_cache.

(** ** The sections of all CPUs *)
Module Slab_machine.
Section machine.
Context `{Arch} `{Slab_env}.
Import Slab_cache.

(** [pending] are the blocks that CPUs got from [block_alloc] and have not
    entered yet, [live] the objects in use. *)
Record state := mks { cache : Slab_cache.t; pending : list Z; live : gset Z }.

Definition owned (s : state) (m : Z) : bool :=
  bool_decide (is_Some (slabs (cache s) !! m)) || bool_decide (m ∈ pending s).

(** What [block_alloc] promises: an aligned block in the address space *)
Definition block_ok (c : Slab_cache.t) (m : Z) : bool :=
  (0 <? m) && (m mod _slab_size c =? 0) && (m + _slab_size c <=? 2 ^ MWORD_BITS).

Inductive event :=
| Alloc                    (** the section of [alloc] before a block is asked for *)
| Block (m : Z)            (** [block_alloc] returns [m] *)
| Retry (m : option Z)     (** the section of [alloc] after that *)
| Free (e : Z)             (** [free] *)
| Reap.                    (** a round of [reap] *)

(** The state after an event and the object that it returns *)
Definition step (s : state) (ev : event) : option (state * option Z) :=
  match ev with
  | Alloc =>
      r ← alloc_fast (cache s);
      Some (match r with
            | inl (c, e) => (mks c (pending s) ({[e]} ∪ live s), Some e)
            | inr c => (mks c (pending s) (live s), None)
            end)
  | Block m =>
      if block_ok (cache s) m && negb (owned s m)
      then Some (mks (cache s) (m :: pending s) (live s), None) else None
  | Retry m =>
      if match m with Some m => bool_decide (m ∈ pending s) | None => true end
      then
        '(c, e, unused) ← alloc_slow m (cache s);
        let pending := match m with Some m => without m (pending s) | None => pending s end in
        Some (mks c pending (match e with Some e => {[e]} ∪ live s | None => live s end), e)
      else None
  | Free e =>
      if bool_decide (e ∈ live s)
      then '(c, _) ← free e (cache s); Some (mks c (pending s) (live s ∖ {[e]}), None) else None
  | Reap => let '(c, _) := reap_one (cache s) in Some (mks c (pending s) (live s), None)
  end.

Fixpoint run (s : state) (evs : list event) : option state :=
  match evs with [] => Some s | ev :: evs => '(s, _) ← step s ev; run s evs end.

Definition init (c : Slab_cache.t) : state := mks c [] ∅.
Definition reachable (c : Slab_cache.t) (s : state) : Prop := exists evs, run (init c) evs = Some s.
End machine.
End Slab_machine.

(** * The invariant *)
Section invariant.
Context `{Arch} `{Slab_env}.
Import Slab Slab_cache Slab_machine.
Implicit Types (c : Slab_cache.t) (s : state).

(** The sizes of a cache: a slab is a power of two, and its objects and the
    record at its end fit. *)
Record geometry c : Prop := {
  g_pow : exists k, 0 <= k < MWORD_BITS /\ _slab_size c = 2 ^ k;
  g_entry : 0 < _entry_size c;
  g_elems : 1 <= _elem_num c < 2 ^ 16;
  g_slab : 0 < sizeof_Slab;
  g_fit : _elem_num c * _entry_size c + sizeof_Slab <= _slab_size c }.

(** The objects of the slab [b] *)
Definition entries c (b : Z) : list Z := (fun i => b + i * _entry_size c) <$> seqZ 0 (_elem_num c).

(** An object of a slab is free or in use. *)
Record slab_ok c (live : gset Z) (b : Z) (sl : Slab.t) : Prop := {
  so_block : block_ok c b = true;
  so_elems : _elems sl = _elem_num c;
  so_nodup : NoDup (Slab._free sl);
  so_free e : e ∈ Slab._free sl -> e ∈ entries c b;
  so_use : _in_use sl = _elem_num c - Z.of_nat (length (Slab._free sl));
  so_live e : e ∈ entries c b -> e ∈ Slab._free sl <-> e ∉ live }.

(** [ex] is a slab that is about to be used and may still be empty. *)
Record cache_inv (ex : option Z) c (live : gset Z) : Prop := {
  i_geom : geometry c;
  i_slab b sl : slabs c !! b = Some sl -> slab_ok c live b sl;
  i_live e : e ∈ live -> exists b sl, slabs c !! b = Some sl /\ e ∈ entries c b;
  i_dom b : is_Some (slabs c !! b) <-> b ∈ _full c \/ b ∈ _partial c \/ b ∈ _empty c;
  i_full b sl : b ∈ _full c -> slabs c !! b = Some sl -> Slab._free sl = [];
  i_partial b sl : b ∈ _partial c -> slabs c !! b = Some sl ->
    Slab._free sl <> [] /\ (ex <> Some b -> 2 <= _elem_num c -> _in_use sl <> 0);
  i_empty b sl : b ∈ _empty c -> slabs c !! b = Some sl -> _in_use sl = 0;
  i_apart b : b ∈ _partial c -> b ∉ _empty c;
  i_nodup : NoDup (_empty c);
  i_num : Z.of_nat (length (_empty c)) <= _num_empty c <= 2 }.

Definition inv s : Prop :=
  cache_inv None (cache s) (live s)
  /\ NoDup (pending s)
  /\ forall m, m ∈ pending s -> block_ok (cache s) m = true /\ slabs (cache s) !! m = None.

Lemma elem_of_entries c b e : e ∈ entries c b <-> exists i, 0 <= i < _elem_num c /\ e = b + i * _entry_size c.
Proof.
  unfold entries. rewrite list_elem_of_fmap. setoid_rewrite elem_of_seqZ. split.
  - intros (i & -> & Hi). exists i. split; [lia | done].
  - intros (i & Hi & ->). exists i. split; [done | lia].
Qed.

Lemma block_ok_spec c b : block_ok c b = true <->
  0 < b /\ b mod _slab_size c = 0 /\ b + _slab_size c <= 2 ^ MWORD_BITS.
Proof. unfold block_ok. rewrite !andb_true_iff, Z.ltb_lt, Z.eqb_eq, Z.leb_le. tauto. Qed.

(** The objects of a block lie between its start and the record at its end. *)
Lemma entry_bounds c b e : geometry c -> e ∈ entries c b ->
  b <= e /\ e + _entry_size c <= b + _slab_size c - sizeof_Slab.
Proof.
  intros Hg (i & Hi & ->)%elem_of_entries. pose proof (g_fit c Hg). pose proof (g_entry c Hg). nia.
Qed.

Lemma slab_of_entry c b e : geometry c -> block_ok c b = true -> e ∈ entries c b -> slab_of c e = b.
Proof.
  intros Hg Hb He. pose proof (entry_bounds c b e Hg He) as Hr. apply block_ok_spec in Hb as (Hb0 & Hbm & Hbe).
  pose proof (g_slab c Hg). pose proof (g_entry c Hg). destruct (g_pow c Hg) as (k & Hk & Hp).
  unfold slab_of. rewrite Hp in *. assert (0 < 2 ^ k) by (apply pow2_pos; lia).
  assert (2 ^ k <= 2 ^ MWORD_BITS) by (apply Z.pow_le_mono_r; lia).
  unfold msub, mwrap. rewrite wrap_small by (unfold in_range; lia).
  rewrite trunc_pow2 by (unfold in_range; lia).
  assert (e mod 2 ^ k = e - b) as ->; [| lia].
  rewrite <- (Z.mod_small (e - b) (2 ^ k)) by lia. rewrite Zminus_mod, Hbm, Z.sub_0_r, Z.mod_mod by lia. done.
Qed.

Lemma entries_length c b : geometry c -> Z.of_nat (length (entries c b)) = _elem_num c.
Proof. intros Hg. pose proof (g_elems c Hg). unfold entries. rewrite length_fmap, length_seqZ. lia. Qed.

(** Slabs do not share objects. *)
Lemma entries_apart c b b' e : geometry c -> block_ok c b = true -> block_ok c b' = true ->
  e ∈ entries c b -> e ∈ entries c b' -> b = b'.
Proof. intros Hg Hb Hb' He He'. rewrite <- (slab_of_entry c b e), <- (slab_of_entry c b' e); done. Qed.

Lemma fill_spec es : 0 < es -> forall n data acc,
  0 <= data -> data + Z.of_nat n * es < 2 ^ MWORD_BITS ->
  fill n data es acc = reverse ((fun i => data + i * es) <$> seqZ 0 (Z.of_nat n)) ++ acc.
Proof.
  intros Hes. induction n as [|n IH]; intros data acc Hd Hn; [done |]. simpl fill.
  rewrite Nat2Z.inj_succ in *. unfold madd, mwrap. rewrite wrap_small by (unfold in_range; nia).
  rewrite IH by nia. rewrite (seqZ_cons 0 (Z.succ _)), Z.pred_succ by lia. rewrite fmap_cons, reverse_cons, <- app_assoc. simpl.
  f_equal; [| f_equal; lia]. f_equal. change (Z.succ 0) with (1 + 0).
  rewrite <- fmap_add_seqZ, <- list_fmap_compose. apply list_fmap_ext. intros _ i _. simpl. lia.
Qed.

Lemma make_slab_ok c (live : gset Z) m : geometry c -> block_ok c m = true ->
  (forall e, e ∈ live -> e ∉ entries c m) ->
  slab_ok c live m (Slab.make (_elem_num c) (_entry_size c) m).
Proof.
  intros Hg Hm Hl. pose proof (g_elems c Hg). pose proof (g_entry c Hg). pose proof (g_fit c Hg). pose proof (g_slab c Hg).
  pose proof Hm as (Hm0 & _ & Hme)%block_ok_spec.
  assert (fill (Z.to_nat (_elem_num c)) m (_entry_size c) [] = reverse (entries c m)) as Hf.
  { rewrite fill_spec by lia. rewrite Z2Nat.id, app_nil_r by lia. done. }
  constructor; simpl; rewrite ?Hf; try done.
  - rewrite wrap_small; [done | unfold in_range; lia].
  - rewrite reverse_Permutation. unfold entries. apply NoDup_fmap_2_strong; [| apply NoDup_seqZ]. intros x y _ _ E. nia.
  - intros e. by rewrite elem_of_reverse.
  - rewrite length_reverse, entries_length by done. lia.
  - intros e He. rewrite elem_of_reverse. split; [| done]. intros _ Hin. by apply (Hl e).
Qed.

(** One slab and the objects in use of this slab change. *)
Lemma slabs_updated c (live live' : gset Z) b sl' :
  geometry c -> (forall b sl, slabs c !! b = Some sl -> slab_ok c live b sl) -> block_ok c b = true ->
  slab_ok c live' b sl' -> (forall e, e ∉ entries c b -> e ∈ live' <-> e ∈ live) ->
  forall b0 sl0, <[b := sl']> (slabs c) !! b0 = Some sl0 -> slab_ok c live' b0 sl0.
Proof.
  intros Hg Hall Hb Hsl Hlive b0 sl0. destruct (decide (b0 = b)) as [-> | Hne].
  - rewrite lookup_insert_eq. by intros [= <-].
  - rewrite lookup_insert_ne by done. intros Hb0. destruct (Hall b0 sl0 Hb0). constructor; try done.
    intros e He. rewrite Hlive; [auto |]. intros He'. apply Hne. by eapply entries_apart.
Qed.

Definition same_sizes c c' : Prop :=
  _slab_size c' = _slab_size c /\ _entry_size c' = _entry_size c /\ _elem_num c' = _elem_num c.

Lemma sizes_trans c1 c2 c3 : same_sizes c1 c2 -> same_sizes c2 c3 -> same_sizes c1 c3.
Proof. intros (? & ? & ?) (? & ? & ?). unfold same_sizes. repeat split; congruence. Qed.

Lemma geometry_sizes c c' : same_sizes c c' -> geometry c -> geometry c'.
Proof. intros (E1 & E2 & E3) [? ? ? ? ?]. constructor; rewrite ?E1, ?E2, ?E3; done. Qed.

Lemma entries_sizes c c' b : same_sizes c c' -> entries c' b = entries c b.
Proof. intros (_ & E2 & E3). unfold entries. by rewrite E2, E3. Qed.

Lemma slab_ok_sizes c c' live b sl : same_sizes c c' -> slab_ok c live b sl -> slab_ok c' live b sl.
Proof.
  intros Hs. pose proof (entries_sizes c c' b Hs) as Ee. destruct Hs as (E1 & E2 & E3). intros [Hb ? ? ? ? ?].
  unfold block_ok in Hb. rewrite <- E1 in Hb. constructor; rewrite ?Ee, ?E3; done.
Qed.

Lemma elem_of_without b x l : x ∈ without b l <-> x <> b /\ x ∈ l.
Proof. unfold without. by rewrite list_elem_of_filter. Qed.

Lemma slab_alloc_ok c (live : gset Z) b sl : geometry c -> slab_ok c live b sl -> Slab._free sl <> [] ->
  exists sl' e, Slab.alloc sl = Some (sl', e) /\ slab_ok c ({[e]} ∪ live) b sl' /\ e ∈ entries c b /\ e ∉ live
  /\ _in_use sl' <> 0 /\ (Slab.is_full sl' = true <-> Slab._free sl' = []).
Proof.
  intros Hg [Hb He Hnd Hf Hu Hl] Hne. destruct sl as [[|e fr] el u]; [done |]. simpl in *. subst el.
  pose proof (g_elems c Hg). pose proof (entries_length c b Hg) as Hlen.
  assert (length (e :: fr) <= length (entries c b))%nat as Hle.
  { apply submseteq_length, NoDup_submseteq; [done |]. intros x Hx. auto. }
  simpl in Hle. apply NoDup_cons in Hnd as [Hnin Hnd].
  assert (e ∈ entries c b) as Hin by (apply Hf; constructor).
  assert (wrap 16 (u + 1) = u + 1) as Hw by (apply wrap_small; unfold in_range; simpl in *; lia).
  eexists _, e. split; [done |]. simpl. rewrite Hw. split; [| split; [done |]].
  - constructor; simpl; try done.
    + intros x Hx. apply Hf. by constructor.
    + rewrite ?Hw. simpl in *. lia.
    + intros x Hx. rewrite not_elem_of_union, not_elem_of_singleton, <- (Hl x Hx). rewrite elem_of_cons.
      split; [intros Hxf; split; [congruence | auto] | naive_solver].
  - split; [by apply Hl; [| constructor] |]. split; [simpl in *; lia |]. unfold Slab.is_full. simpl. rewrite ?Hw, Z.eqb_eq.
    destruct fr; simpl in *; split; intros; (done || lia).
Qed.

(** The slab [b] changes, or is new, and is put into the list it belongs to. *)
Lemma place_inv ex ex' c (live live' : gset Z) b sl' F P E n :
  cache_inv ex c live -> ex = None \/ ex = Some b -> slab_ok c live' b sl' ->
  (forall e, e ∉ entries c b -> e ∈ live' <-> e ∈ live) ->
  (forall x, x <> b -> (x ∈ F <-> x ∈ _full c) /\ (x ∈ P <-> x ∈ _partial c) /\ (x ∈ E <-> x ∈ _empty c)) ->
  b ∈ F \/ b ∈ P \/ b ∈ E -> (b ∈ F -> Slab._free sl' = []) ->
  (b ∈ P -> Slab._free sl' <> [] /\ (ex' <> Some b -> 2 <= _elem_num c -> _in_use sl' <> 0) /\ b ∉ E) ->
  (b ∈ E -> _in_use sl' = 0) -> NoDup E -> Z.of_nat (length E) <= n <= 2 ->
  cache_inv ex' (set_lists F P E n (set_slabs (<[b := sl']> (slabs c)) c)) live'.
Proof.
  intros [Hg Hs Hlv Hd Hf Hp He Ha Hn Hnum] Hex Hok Hlive Hold Hin HF HP HE Hnd Hlen.
  assert (forall b0 sl0, b0 <> b -> <[b := sl']> (slabs c) !! b0 = Some sl0 -> slabs c !! b0 = Some sl0) as Hne.
  { intros b0 sl0 ?. by rewrite lookup_insert_ne. }
  assert (forall sl0, <[b := sl']> (slabs c) !! b = Some sl0 -> sl0 = sl') as Heq.
  { intros sl0. rewrite lookup_insert_eq. congruence. }
  assert (same_sizes c (set_lists F P E n (set_slabs (<[b := sl']> (slabs c)) c))) as Hsz by done.
  constructor; simpl; try done.
  - by apply (geometry_sizes c).
  - intros b0 sl0 Hb0. apply (slab_ok_sizes c); [done |]. pose proof (so_block _ _ _ _ Hok).
    by eapply (slabs_updated c live live' b sl').
  - intros e Hel. destruct (decide (e ∈ entries c b)) as [Heb | Heb].
    + exists b, sl'. by rewrite lookup_insert_eq.
    + destruct (Hlv e) as (b0 & sl0 & Hb0 & Hx0); [by apply Hlive |]. exists b0, sl0.
      rewrite lookup_insert_ne by congruence. done.
  - intros x. destruct (decide (x = b)) as [-> | Hx]; [rewrite lookup_insert_eq; split; eauto |].
    rewrite lookup_insert_ne by done. rewrite Hd. destruct (Hold x Hx) as (-> & -> & ->). done.
  - intros x sl0 Hx Hl. destruct (decide (x = b)) as [-> | Hxb]; [rewrite (Heq sl0 Hl); auto |].
    destruct (Hold x Hxb) as (Hi & _). apply (Hf x); [by apply Hi | auto].
  - intros x sl0 Hx Hl. destruct (decide (x = b)) as [-> | Hxb]; [rewrite (Heq sl0 Hl); naive_solver |].
    destruct (Hold x Hxb) as (_ & Hi & _). destruct (Hp x sl0) as [? Hu]; [by apply Hi | auto |].
    split; [done |]. intros _. apply Hu. naive_solver.
  - intros x sl0 Hx Hl. destruct (decide (x = b)) as [-> | Hxb]; [rewrite (Heq sl0 Hl); auto |].
    destruct (Hold x Hxb) as (_ & _ & Hi). apply (He x); [by apply Hi | auto].
  - intros x Hx. destruct (decide (x = b)) as [-> | Hxb]; [naive_solver |].
    destruct (Hold x Hxb) as (_ & Hi & Hj). rewrite Hj. apply Ha. by apply Hi.
Qed.

(** The slab [b], which has no object in use, is taken out of the cache. *)
Lemma drop_slab_inv c (live live' : gset Z) b m F P E :
  cache_inv None c live -> block_ok c b = true ->
  (forall e, e ∈ entries c b -> e ∉ live') -> (forall e, e ∉ entries c b -> e ∈ live' <-> e ∈ live) ->
  m !! b = None -> (forall x, x <> b -> m !! x = slabs c !! x) ->
  (forall x, (x ∈ F <-> x <> b /\ x ∈ _full c) /\ (x ∈ P <-> x <> b /\ x ∈ _partial c) /\ (x ∈ E <-> x <> b /\ x ∈ _empty c)) ->
  NoDup E -> (length E <= length (_empty c))%nat ->
  cache_inv None (set_slabs m (set_lists F P E (_num_empty c) c)) live'.
Proof.
  intros [Hg Hs Hlv Hd Hf Hp He Ha Hn Hnum] Hb Hno Hlive Hmb Hm Hold Hnd Hlen.
  assert (same_sizes c (set_slabs m (set_lists F P E (_num_empty c) c))) as Hsz by done.
  assert (forall x sl, m !! x = Some sl -> x <> b /\ slabs c !! x = Some sl) as Hms.
  { intros x sl Hx. assert (x <> b) by congruence. by rewrite <- Hm. }
  constructor; simpl; try done.
  - by apply (geometry_sizes c).
  - intros x sl0 [Hxb Hx]%Hms. apply (slab_ok_sizes c); [done |]. destruct (Hs x sl0 Hx). constructor; try done.
    intros e Hex. rewrite Hlive; [auto |]. intros Heb. apply Hxb. by eapply entries_apart.
  - intros e Hel. assert (e ∉ entries c b) as Hnb by (intros ?; by apply (Hno e)).
    destruct (Hlv e) as (b0 & sl0 & Hb0 & Hx0); [by apply Hlive |]. exists b0, sl0. split; [| done].
    rewrite Hm; [done |]. congruence.
  - intros x. destruct (Hold x) as (-> & -> & ->). destruct (decide (x = b)) as [-> | ?].
    + rewrite Hmb. split; [by intros [] | naive_solver].
    + rewrite Hm by done. rewrite Hd. naive_solver.
  - intros x sl0 Hx [_ ?]%Hms. apply (Hf x); [by apply Hold | done].
  - intros x sl0 Hx [_ ?]%Hms. apply (Hp x); [by apply Hold | done].
  - intros x sl0 Hx [_ ?]%Hms. apply (He x); [by apply Hold | done].
  - intros x Hx. destruct (Hold x) as (_ & Hi & Hj). rewrite Hj. intros [_ ?]. apply (Ha x); [by apply Hi | done].
  - lia.
Qed.

Lemma without_sub b l : (length (without b l) <= length l)%nat.
Proof. apply length_filter. Qed.

(** The end of [alloc] succeeds with an unused object. *)
Lemma alloc_from_ok c (live : gset Z) b :
  cache_inv (Some b) c live -> b ∈ _partial c ->
  exists c' e, alloc_from b c = Some (c', e) /\ cache_inv None c' ({[e]} ∪ live) /\ e ∉ live
  /\ e ∈ entries c b /\ same_sizes c c' /\ (forall m, slabs c' !! m = None <-> slabs c !! m = None).
Proof.
  intros Hi Hb. pose proof Hi as [Hg Hs Hlv Hd Hf Hp He Ha Hn Hnum].
  destruct (proj2 (Hd b) (or_intror (or_introl Hb))) as [sl Hsl]. pose proof (Hs b sl Hsl) as Hok.
  destruct (Hp b sl Hb Hsl) as [Hfree _].
  destruct (slab_alloc_ok c live b sl Hg Hok Hfree) as (sl' & e & Hal & Hok' & Hin & Hnl & Huse & Hfull).
  assert (forall m, <[b := sl']> (slabs c) !! m = None <-> slabs c !! m = None) as Hdom.
  { intros m. rewrite lookup_insert_None. destruct (decide (m = b)) as [-> | ?]; naive_solver. }
  assert (forall x, x ∉ entries c b -> x ∈ {[e]} ∪ live <-> x ∈ live) as Hlive by set_solver.
  assert (b ∉ _full c) as Hnf by (intros Hbf; by rewrite (Hf b sl Hbf Hsl) in Hfree).
  unfold alloc_from. rewrite Hsl. simpl. rewrite Hal. simpl.
  eexists _, e. split; [done |]. destruct (Slab.is_full sl') eqn:Efull.
  - pose proof (proj1 Hfull eq_refl) as Hnil. split; [| done].
    apply (place_inv (Some b) None c live); try done; auto.
    + intros x Hx. simpl. rewrite elem_of_cons, !elem_of_without. naive_solver.
    + left. constructor.
    + simpl. rewrite elem_of_without. naive_solver.
    + simpl. rewrite elem_of_without. naive_solver.
    + by apply NoDup_filter.
    + simpl. pose proof (without_sub b (_empty c)). lia.
  - assert (Slab._free sl' <> []) as Hnn by (intros Hx; apply Hfull in Hx; congruence).
    split; [| done]. apply (place_inv (Some b) None c live); try done; auto; naive_solver.
Qed.

(** [get_available_locked] finds a slab with a free object. *)
Lemma get_available_ok c (live : gset Z) :
  cache_inv None c live ->
  match get_available_locked c with
  | (c', Some b) => cache_inv (Some b) c' live /\ b ∈ _partial c' /\ same_sizes c c' /\ slabs c' = slabs c
  | (c', None) => c' = c /\ _partial c = [] /\ _empty c = []
  end.
Proof.
  intros Hi. unfold get_available_locked. destruct (_partial c) as [|b p] eqn:Ep.
  - destruct (_empty c) as [|b em] eqn:Ee; [done |].
    destruct Hi as [Hg Hs Hlv Hd Hf Hp He Ha Hn Hnum]. rewrite Ee in *. simpl in Hnum. apply NoDup_cons in Hn as [Hnb Hn].
    pose proof (wrap_small 32 (_num_empty c - 1) ltac:(unfold in_range; lia)) as Hw.
    split; [| split; [constructor | done]]. constructor; simpl; try done.
    + by apply (geometry_sizes c).
    + intros x sl Hx. apply (slab_ok_sizes c); auto. done.
    + intros x. rewrite Hd, elem_of_cons, list_elem_of_singleton, Ep. pose proof (not_elem_of_nil x). naive_solver.
    + intros x sl ->%list_elem_of_singleton Hsl. split; [| done].
      assert (_in_use sl = 0) as Hu by (apply (He b); [constructor | done]). rewrite (so_use _ _ _ _ (Hs b sl Hsl)) in Hu.
      pose proof (g_elems c Hg). intros Hx. rewrite Hx in Hu. simpl in Hu. lia.
    + intros x sl Hx. apply He. by constructor.
    + intros x ->%list_elem_of_singleton. done.
    + rewrite Hw. lia.
  - split; [| split; [rewrite Ep; constructor | done]]. destruct Hi as [Hg Hs Hlv Hd Hf Hp He Ha Hn Hnum].
    constructor; try done. intros x sl Hx Hsl. destruct (Hp x sl Hx Hsl) as [? Hu]. split; [done |]. intros _. by apply Hu.
Qed.

Lemma slab_free_ok c (live : gset Z) b sl e :
  geometry c -> slab_ok c live b sl -> e ∈ entries c b -> e ∈ live ->
  exists sl', Slab.free e sl = Some sl' /\ slab_ok c (live ∖ {[e]}) b sl' /\ Slab._free sl' <> []
  /\ _in_use sl' = _in_use sl - 1 /\ 1 <= _in_use sl /\ (Slab.is_full sl = true <-> Slab._free sl = []).
Proof.
  intros Hg [Hb He Hnd Hf Hu Hl] Hin Hel. pose proof (g_elems c Hg). pose proof (entries_length c b Hg) as Hlen.
  assert (e ∉ Slab._free sl) as Hnf by (intros Hx; by apply (Hl e Hin) in Hx).
  assert (length (e :: Slab._free sl) <= length (entries c b))%nat as Hle.
  { apply submseteq_length, NoDup_submseteq; [by constructor |]. intros x [-> | Hx]%elem_of_cons; auto. }
  simpl in Hle. assert (1 <= _in_use sl < 2 ^ 16) as Hr by lia.
  unfold Slab.free. destruct (Z.eqb_spec (_in_use sl) 0); [lia |]. eexists. split; [done |].
  assert (wrap 16 (_in_use sl - 1) = _in_use sl - 1) as Hw by (apply wrap_small; unfold in_range; lia).
  split; [| split; [done |]].
  - constructor; simpl; rewrite ?Hw; try done.
    + by constructor.
    + intros x [-> | Hx]%elem_of_cons; auto.
    + lia.
    + intros x Hx. rewrite elem_of_cons, (Hl x Hx), not_elem_of_difference, elem_of_singleton.
      destruct (decide (x = e)) as [-> | ?]; naive_solver.
  - simpl. rewrite Hw. split; [done |]. split; [lia |]. unfold Slab.is_full. rewrite Z.eqb_eq, He.
    destruct (Slab._free sl); simpl in *; split; intros; (done || lia).
Qed.

(** No object of an empty slab is in use. *)
Lemma unused_slab c (live : gset Z) b sl : geometry c -> slab_ok c live b sl -> _in_use sl = 0 ->
  forall e, e ∈ entries c b -> e ∉ live.
Proof.
  intros Hg [Hb He Hnd Hf Hu Hl] Hz e Hin. apply (Hl e Hin).
  assert (Slab._free sl ≡ₚ entries c b) as ->; [| done].
  apply submseteq_length_Permutation; [by apply NoDup_submseteq |].
  pose proof (entries_length c b Hg). lia.
Qed.

(** [free] of an object in use *)
Lemma free_ok c (live : gset Z) e :
  cache_inv None c live -> e ∈ live ->
  exists c' r, free e c = Some (c', r) /\ cache_inv None c' (live ∖ {[e]}) /\ same_sizes c c'
  /\ (forall m, slabs c !! m = None -> slabs c' !! m = None).
Proof.
  intros Hi Hel. pose proof Hi as [Hg Hs Hlv Hd Hf Hp He Ha Hn Hnum].
  destruct (Hlv e Hel) as (b & sl & Hsl & Hin). pose proof (Hs b sl Hsl) as Hok.
  pose proof (so_block _ _ _ _ Hok) as Hblk.
  destruct (slab_free_ok c live b sl e Hg Hok Hin Hel) as (sl' & Hfr & Hok' & Hne & Hu & Hu1 & Hfull).
  assert (forall x, x ∉ entries c b -> x ∈ live ∖ {[e]} <-> x ∈ live) as Hlive by set_solver.
  assert (forall m, slabs c !! m = None -> <[b := sl']> (slabs c) !! m = None) as Hdom.
  { intros m Hm. rewrite lookup_insert_ne by congruence. done. }
  assert (b ∉ _empty c) as Hbe by (intros Hx; rewrite (He b sl Hx Hsl) in Hu1; lia).
  unfold free. rewrite (slab_of_entry c b e Hg Hblk Hin), Hsl. simpl. rewrite Hfr. simpl.
  pose proof (without_sub b (_empty c)) as Hwl. pose proof (NoDup_filter (fun x => x <> b) _ Hn) as Hwn.
  destruct (Slab.is_full sl) eqn:Efull.
  - pose proof (proj1 Hfull eq_refl) as Hnil. eexists _, _. split; [done |]. split; [| done].
    apply (place_inv None None c live); try done; auto.
    + intros x Hx. simpl. rewrite elem_of_cons, !elem_of_without. naive_solver.
    + right. left. constructor.
    + simpl. rewrite elem_of_without. naive_solver.
    + intros _. split; [done |]. split; [| simpl; rewrite elem_of_without; naive_solver].
      intros _ ?. rewrite Hu, (so_use _ _ _ _ Hok), Hnil. simpl. lia.
    + simpl. rewrite elem_of_without. naive_solver.
    + simpl. lia.
  - assert (b ∉ _full c) as Hbf by (intros Hx; apply Hf with (sl := sl) in Hx; [| done]; apply Hfull in Hx; done).
    assert (b ∈ _partial c) as Hbp by (destruct (proj1 (Hd b) (mk_is_Some _ _ Hsl)); naive_solver).
    unfold Slab.is_empty. destruct (Z.eqb_spec (_in_use sl') 0) as [Hz | Hz]; simpl.
    + destruct (Z.ltb_spec (_num_empty c) 2).
      * rewrite wrap_small by (unfold in_range; lia). eexists _, _. split; [done |]. split; [| done].
        apply (place_inv None None c live); try done; auto.
        -- intros x Hx. simpl. rewrite elem_of_cons, !elem_of_without. naive_solver.
        -- right. right. constructor.
        -- simpl. rewrite elem_of_without. naive_solver.
        -- simpl. rewrite elem_of_without. naive_solver.
        -- constructor; [rewrite elem_of_without; naive_solver | done].
        -- simpl. lia.
      * eexists _, _. split; [done |]. split; [| split; [done |]].
        -- apply (drop_slab_inv c live (live ∖ {[e]}) b _ (without b (_full c)) (without b (_partial c))
             (without b (_empty c))); try done.
           ++ by apply (unused_slab c _ b sl').
           ++ apply lookup_delete_eq.
           ++ intros x Hx. rewrite lookup_delete_ne, lookup_insert_ne by done. done.
           ++ intros x. simpl. rewrite !elem_of_without. done.
        -- intros m Hm. simpl. rewrite lookup_delete_None. auto.
    + eexists _, _. split; [done |]. split; [| done]. apply (place_inv None None c live); try done; auto; naive_solver.
Qed.

Lemma reap_ok c (live : gset Z) : cache_inv None c live ->
  cache_inv None (fst (reap_one c)) live /\ same_sizes c (fst (reap_one c))
  /\ (forall m, slabs c !! m = None -> slabs (fst (reap_one c)) !! m = None).
Proof.
  intros Hi. unfold reap_one. destruct (_empty c) as [|b em] eqn:Ee; [done |]. simpl.
  pose proof Hi as [Hg Hs Hlv Hd Hf Hp He Ha Hn Hnum].
  assert (b ∈ _empty c) as Hb by (rewrite Ee; constructor).
  destruct (proj2 (Hd b) (or_intror (or_intror Hb))) as [sl Hsl]. pose proof (Hs b sl Hsl) as Hok.
  split; [| split; [done |]].
  - apply (drop_slab_inv c live live b _ (without b (_full c)) (without b (_partial c)) (without b (_empty c))); try done.
    + apply Hok.
    + apply (unused_slab c live b sl); [done | done | by apply (He b)].
    + apply lookup_delete_eq.
    + intros x Hx. by rewrite lookup_delete_ne.
    + intros x. by rewrite !elem_of_without.
    + by apply NoDup_filter.
    + apply without_sub.
  - intros m Hm. rewrite lookup_delete_None. auto.
Qed.

(** The section of [alloc] before a block is asked for *)
Lemma alloc_fast_ok c (live : gset Z) : cache_inv None c live ->
  (exists c' e b, alloc_fast c = Some (inl (c', e)) /\ cache_inv None c' ({[e]} ∪ live) /\ e ∉ live
     /\ block_ok c b = true /\ e ∈ entries c b /\ same_sizes c c'
     /\ (forall m, slabs c' !! m = None <-> slabs c !! m = None))
  \/ alloc_fast c = Some (inr c) /\ _partial c = [] /\ _empty c = [].
Proof.
  intros Hi. pose proof (get_available_ok c live Hi) as Ha. unfold alloc_fast.
  destruct (get_available_locked c) as [c1 [b|]]; [left | right; by destruct Ha as (-> & ? & ?)].
  destruct Ha as (Hi1 & Hb & Hs1 & Hsl1). destruct (alloc_from_ok c1 live b Hi1 Hb) as (c2 & e & -> & Hi2 & Hnl & Hin & Hs2 & Hm2).
  exists c2, e, b. simpl. rewrite <- (entries_sizes c c1 b Hs1), <- Hsl1.
  assert (block_ok c b = true).
  { destruct (proj2 (i_dom _ _ _ Hi1 b) (or_intror (or_introl Hb))) as [sl Hsl]. rewrite Hsl1 in Hsl.
    apply (i_slab _ _ _ Hi b sl Hsl). }
  do 5 (split; [done |]). split; [by apply (sizes_trans c c1) | exact Hm2].
Qed.

(** A new slab, as the section after it enters it *)
Lemma new_slab_ok c (live : gset Z) m : cache_inv None c live -> block_ok c m = true -> slabs c !! m = None ->
  let c' := add_partial m (set_slabs (<[m := Slab.make (_elem_num c) (_entry_size c) m]> (slabs c)) c) in
  cache_inv (Some m) c' live /\ m ∈ _partial c' /\ same_sizes c c'.
Proof.
  intros Hi Hm Hnone. pose proof Hi as [Hg Hs Hlv Hd Hf Hp He Ha Hn Hnum].
  assert (forall e, e ∈ live -> e ∉ entries c m) as Hfresh.
  { intros e Hel Hem. destruct (Hlv e Hel) as (b & sl & Hsl & Heb).
    assert (b = m) by (eapply entries_apart; [done | apply (Hs b sl Hsl) | done | done | done]). congruence. }
  pose proof (make_slab_ok c live m Hg Hm Hfresh) as Hok.
  assert (~ (m ∈ _full c \/ m ∈ _partial c \/ m ∈ _empty c)) as Hno.
  { intros Hx. apply Hd in Hx as [? ?]. congruence. }
  split; [| split; [constructor | done]].
  apply (place_inv None (Some m) c live); try done; auto.
  - intros x Hx. simpl. rewrite elem_of_cons. naive_solver.
  - right. left. constructor.
  - naive_solver.
  - intros _. split; [| split; [done | naive_solver]]. intros Hx. apply (f_equal length) in Hx. simpl in Hx.
    pose proof (so_use _ _ _ _ Hok) as Hu. simpl in Hu. rewrite Hx in Hu. pose proof (g_elems c Hg). simpl in Hu. lia.
Qed.

(** The section of [alloc] after a block was asked for *)
Lemma alloc_slow_ok c (live : gset Z) mb : cache_inv None c live ->
  (forall m, mb = Some m -> block_ok c m = true /\ slabs c !! m = None) ->
  exists c' r un, alloc_slow mb c = Some (c', r, un) /\ same_sizes c c'
  /\ (forall m, mb <> Some m -> slabs c' !! m = None <-> slabs c !! m = None)
  /\ match r with
     | Some e => cache_inv None c' ({[e]} ∪ live) /\ e ∉ live /\ exists b, block_ok c b = true /\ e ∈ entries c b
     | None => c' = c /\ mb = None /\ _partial c = [] /\ _empty c = []
     end.
Proof.
  intros Hi Hmb. unfold alloc_slow. pose proof (get_available_ok c live Hi) as Ha.
  destruct (get_available_locked c) as [c1 [b|]] eqn:Eg.
  - destruct (alloc_fast_ok c live Hi) as [(c' & e & b' & Hf & Hi' & Hnl & Hb & Hin & Hs & Hm) | (Hf & _)];
      unfold alloc_fast in Hf; rewrite Eg in Hf; destruct (alloc_from b c1) as [[c2 e2] |]; simpl in Hf; simplify_eq.
    exists c', (Some e), mb. simpl. eauto 10.
  - destruct Ha as (-> & Hp & He). destruct mb as [m |]; [| by exists c, None, None].
    destruct (Hmb m eq_refl) as [Hm Hnone]. destruct (new_slab_ok c live m Hi Hm Hnone) as (Hi1 & Hin1 & Hs1).
    destruct (alloc_from_ok _ live m Hi1 Hin1) as (c2 & e & -> & Hi2 & Hnl & Hin & Hs2 & Hm2).
    exists c2, (Some e), None. simpl. split; [done |].
    split; [by eapply sizes_trans |].
    split; [| eauto]. intros x Hx. rewrite Hm2. simpl. rewrite lookup_insert_ne by congruence. done.
Qed.

Lemma block_ok_sizes c c' m : same_sizes c c' -> block_ok c' m = block_ok c m.
Proof. intros (E & _). unfold block_ok. by rewrite E. Qed.

Lemma slab_step_inv s ev s' r : inv s -> step s ev = Some (s', r) -> inv s'.
Proof.
  intros (Hi & Hnd & Hpend). destruct ev as [| m | mb | e |]; simpl.
  - destruct (alloc_fast_ok _ _ Hi) as [(c' & e & b & -> & Hi' & _ & _ & _ & Hs & Hm) | (-> & _)]; simpl; intros [= <- _].
    + split; [done |]. split; [done |]. intros m Hin. destruct (Hpend m Hin) as [Hb Hn]. simpl.
      rewrite (block_ok_sizes _ _ m Hs). split; [done |]. by apply Hm.
    + by destruct s.
  - destruct (block_ok (cache s) m) eqn:Hb; [| done]. unfold owned. simpl.
    destruct (bool_decide_reflect (is_Some (slabs (cache s) !! m))) as [| Hns]; [done |].
    destruct (bool_decide_reflect (m ∈ pending s)); [done |]. intros [= <- _]. split; [done |].
    split; [by constructor |]. simpl. intros x [-> | Hx]%elem_of_cons; [| auto]. split; [done |]. by apply eq_None_not_Some.
  - assert (match mb with Some m => bool_decide (m ∈ pending s) | None => true end = true ->
       forall m, mb = Some m -> block_ok (cache s) m = true /\ slabs (cache s) !! m = None) as Hmb.
    { intros Hx m ->. apply bool_decide_eq_true in Hx. auto. }
    destruct (match mb with Some _ => _ | None => _ end); [| done].
    destruct (alloc_slow_ok _ _ mb Hi (Hmb eq_refl)) as (c' & e & un & -> & Hs & Hm & He). simpl. intros [= <- _].
    split; [destruct e as [e|]; [by destruct He | destruct He as (-> & _); done] |]. simpl. split.
    + destruct mb; [by apply NoDup_filter | done].
    + intros x Hx. rewrite (block_ok_sizes _ _ x Hs).
      assert (x ∈ pending s /\ mb <> Some x) as [Hin Hne].
      { destruct mb; [| done]. apply elem_of_without in Hx. naive_solver. }
      destruct (Hpend x Hin). split; [done |]. by apply Hm.
  - destruct (bool_decide_reflect (e ∈ live s)) as [Hel | ]; [| done].
    destruct (free_ok _ _ e Hi Hel) as (c' & r' & -> & Hi' & Hs & Hm). simpl. intros [= <- _]. split; [done |].
    split; [done |]. simpl. intros x Hx. rewrite (block_ok_sizes _ _ x Hs). destruct (Hpend x Hx). auto.
  - destruct (reap_ok _ _ Hi) as (Hi' & Hs & Hm). destruct (reap_one (cache s)) as [c' o]. simpl in *. intros [= <- _].
    split; [done |]. split; [done |]. simpl. intros x Hx. rewrite (block_ok_sizes _ _ x Hs). destruct (Hpend x Hx). auto.
Qed.

(** The parameters of a cache fit together. *)
Definition sized_ok (slab_size elem_size alignment : Z) : Prop :=
  (exists k, 0 <= k < MWORD_BITS /\ slab_size = 2 ^ k) /\ 0 < sizeof_Slab < slab_size
  /\ 0 < entry_size elem_size alignment
  /\ 1 <= (slab_size - sizeof_Slab) / entry_size elem_size alignment < 2 ^ 16.

Lemma make_sized_inv size el al : sized_ok size el al -> inv (init (make_sized size el al)).
Proof.
  intros ((k & Hk & Hs) & Hsl & He & Hn). set (en := entry_size el al) in *.
  assert (2 ^ k <= 2 ^ MWORD_BITS) by (apply Z.pow_le_mono_r; lia).
  assert (_elem_num (make_sized size el al) = (size - sizeof_Slab) / en) as Hnum.
  { simpl. unfold msub, mwrap. rewrite (wrap_small MWORD_BITS) by (unfold in_range; lia).
    apply wrap_small. unfold in_range. lia. }
  split; [| split; [constructor | by intros m ?%elem_of_nil]].
  constructor; simpl; try done; try (by intros ? ? ?%elem_of_nil); try (by intros ? ?%elem_of_nil).
  - constructor; rewrite ?Hnum; simpl; try done; eauto; try lia.
    pose proof (Z.mul_div_le (size - sizeof_Slab) en He). lia.
  - intros b. rewrite lookup_empty. split; [by intros [] | by intros [?%elem_of_nil | [?%elem_of_nil | ?%elem_of_nil]]].
  - constructor.
Qed.

Lemma slab_reachable_inv size el al s : sized_ok size el al -> reachable (make_sized size el al) s -> inv s.
Proof.
  intros Hok [evs Hr]. revert Hr. generalize (make_sized_inv size el al Hok).
  generalize (init (make_sized size el al)). induction evs as [|ev evs IH]; intros s0 Hs0; simpl; [by intros [= <-] |].
  destruct (step s0 ev) as [[s1 r] |] eqn:E; simpl; [| done]. apply IH. by eapply slab_step_inv.
Qed.

(** Objects of the cache do not overlap. *)
Lemma entries_disjoint c b b' e e' : geometry c -> block_ok c b = true -> block_ok c b' = true ->
  e ∈ entries c b -> e' ∈ entries c b' -> e <> e' -> e + _entry_size c <= e' \/ e' + _entry_size c <= e.
Proof.
  intros Hg Hb Hb' He He' Hne. pose proof (entry_bounds c b e Hg He). pose proof (entry_bounds c b' e' Hg He').
  pose proof (g_slab c Hg). destruct (decide (b = b')) as [<- | Hbb].
  - apply elem_of_entries in He as (i & Hi & ->). apply elem_of_entries in He' as (j & Hj & ->).
    pose proof (g_entry c Hg). destruct (Z.lt_trichotomy i j) as [? | [-> | ?]]; [left | done | right]; nia.
  - apply block_ok_spec in Hb as (_ & Hm & _). apply block_ok_spec in Hb' as (_ & Hm' & _).
    assert (0 < _slab_size c) as Hs by (destruct (g_pow c Hg) as (k & ? & ->); apply pow2_pos; lia).
    apply Z.mod_divide in Hm as [q ->]; [| lia]. apply Z.mod_divide in Hm' as [q' ->]; [| lia].
    destruct (Z.lt_trichotomy q q') as [? | [-> | ?]]; [left | done | right]; nia.
Qed.

(** C25: an object that a slab cache hands out, under any interleaving of the
    operations of all CPUs, is not in use, lies between the start of an aligned
    block and the [Slab] record at its end, and overlaps no object in use. *)
Theorem slab_alloc_fresh size el al s ev s' e :
  sized_ok size el al -> reachable (make_sized size el al) s -> step s ev = Some (s', Some e) ->
  let n := _entry_size (cache s) in
  e ∉ live s /\ live s' = {[e]} ∪ live s
  /\ (exists b, b mod _slab_size (cache s) = 0 /\ b <= e /\ (e - b) mod n = 0
        /\ e + n <= b + _slab_size (cache s) - sizeof_Slab)
  /\ forall e', e' ∈ live s -> e + n <= e' \/ e' + n <= e.
Proof.
  intros Hok Hr Hst n. destruct (slab_reachable_inv size el al s Hok Hr) as (Hi & _ & Hpend).
  pose proof (i_geom _ _ _ Hi) as Hg.
  assert (e ∉ live s /\ live s' = {[e]} ∪ live s /\ exists b, block_ok (cache s) b = true /\ e ∈ entries (cache s) b)
    as (Hnl & Hl & b & Hb & Hin).
  { destruct ev as [| m | mb | x |]; simpl in Hst.
    - destruct (alloc_fast_ok _ _ Hi) as [(c' & e' & b & Hf & _ & Hnl & Hb & Hin & _) | (Hf & _)];
        rewrite Hf in Hst; simpl in Hst; simplify_eq. eauto.
    - by destruct (block_ok (cache s) m && negb (owned s m)).
    - assert (match mb with Some m => bool_decide (m ∈ pending s) | None => true end = true ->
         forall m, mb = Some m -> block_ok (cache s) m = true /\ slabs (cache s) !! m = None) as Hmb.
      { intros Hx m ->. apply bool_decide_eq_true in Hx. auto. }
      destruct (match mb with Some _ => _ | None => _ end); [| done].
      destruct (alloc_slow_ok _ _ mb Hi (Hmb eq_refl)) as (c' & r & un & Hf & _ & _ & He).
      rewrite Hf in Hst. simpl in Hst. simplify_eq. by destruct He as (_ & ? & ?).
    - destruct (bool_decide (x ∈ live s)); [| done]. by destruct (free x (cache s)) as [[] |].
    - by destruct (reap_one (cache s)). }
  split; [done |]. split; [done |]. split.
  - exists b. apply block_ok_spec in Hb as (_ & Hm & _). pose proof (entry_bounds _ b e Hg Hin).
    split; [done |]. split; [lia |]. split; [| lia]. apply elem_of_entries in Hin as (i & _ & ->).
    replace (b + i * _entry_size (cache s) - b) with (i * n) by (unfold n; lia). apply Z.mod_mul. pose proof (g_entry _ Hg). lia.
  - intros e' He'. destruct (i_live _ _ _ Hi e' He') as (b' & sl & Hsl & Hin').
    apply (entries_disjoint (cache s) b b'); try done; [apply (i_slab _ _ _ Hi b' sl Hsl) | congruence].
Qed.

(** No assertion of a slab cache fails: an object in use can be freed, and
    [alloc] succeeds with a block and without one unless every object of every slab
    is in use.  With two or more objects in a slab, the slabs are in the list for
    full, empty or other slabs that fits their use. *)
Theorem slab_lists_exact size el al s :
  sized_ok size el al -> reachable (make_sized size el al) s ->
  (forall e, e ∈ live s -> exists s', step s (Free e) = Some (s', None) /\ live s' = live s ∖ {[e]})
  /\ (forall m, m ∈ pending s -> exists s' e, step s (Retry (Some m)) = Some (s', Some e))
  /\ (exists s' r, step s (Retry None) = Some (s', r)
        /\ (r = None -> forall b sl, slabs (cache s) !! b = Some sl -> Slab.is_full sl = true))
  /\ (2 <= _elem_num (cache s) -> forall b sl, slabs (cache s) !! b = Some sl ->
        (b ∈ _full (cache s) <-> Slab.is_full sl = true) /\ (b ∈ _empty (cache s) <-> Slab.is_empty sl = true)).
Proof.
  intros Hok Hr. destruct (slab_reachable_inv size el al s Hok Hr) as (Hi & _ & Hpend).
  pose proof Hi as [Hg Hs Hlv Hd Hf Hp He Ha Hn Hnum]. pose proof (g_elems _ Hg) as Hel.
  assert (forall b sl, slabs (cache s) !! b = Some sl -> Slab._free sl = [] <-> Slab.is_full sl = true) as Hfull.
  { intros b sl Hsl. destruct (Hs b sl Hsl) as [_ E1 _ _ E2 _]. unfold Slab.is_full. rewrite Z.eqb_eq, E1.
    destruct (Slab._free sl); simpl in *; split; intros; (done || lia). }
  split; [| split; [| split]].
  - intros e Hin. simpl. rewrite bool_decide_eq_true_2 by done.
    destruct (free_ok _ _ e Hi Hin) as (c' & r & -> & _). simpl. eauto.
  - intros m Hm. simpl. rewrite bool_decide_eq_true_2 by done.
    destruct (alloc_slow_ok _ _ (Some m) Hi) as (c' & [e|] & un & -> & _ & _ & Hx); [by intros ? [= <-]; auto | simpl; eauto |].
    by destruct Hx as (_ & ? & _).
  - simpl. destruct (alloc_slow_ok _ _ None Hi) as (c' & r & un & -> & _ & _ & Hx); [done |]. simpl.
    eexists _, r. split; [done |]. intros -> b sl Hsl. destruct Hx as (_ & _ & Ep & Ee). apply (Hfull b sl Hsl), (Hf b sl); [| done].
    destruct (proj1 (Hd b) (mk_is_Some _ _ Hsl)) as [? | [Hx | Hx]]; [done | |].
    + rewrite Ep in Hx. by apply elem_of_nil in Hx.
    + rewrite Ee in Hx. by apply elem_of_nil in Hx.
  - intros H2 b sl Hsl. pose proof (Hfull b sl Hsl) as Hb. unfold Slab.is_empty. rewrite Z.eqb_eq, <- Hb.
    pose proof (so_use _ _ _ _ (Hs b sl Hsl)) as Hu. destruct (proj1 (Hd b) (mk_is_Some _ _ Hsl)) as [Hx | [Hx | Hx]].
    + rewrite (Hf b sl Hx Hsl) in *. simpl in Hu. split; [done |]. split; [intros Hy; by apply (He b sl) | lia].
    + destruct (Hp b sl Hx Hsl) as [Hne Hnz]. split; [split; [intros Hy; by apply (Hf b sl) | done] |].
      split; [intros Hy; by destruct (Ha b Hx) |]. intros Hz. by destruct (Hnz ltac:(done) H2).
    + pose proof (He b sl Hx Hsl) as Hz. split; [| done]. split; [intros Hy; by apply (Hf b sl) |].
      intros Hy. rewrite Hy in Hu. simpl in Hu. lia.
Qed.
End invariant.

(** [Slab_cache::q_alloc] charges the quota by one object exactly when it
    returns an object; when the quota is exhausted or there is no memory the quota
    is as before. *)
Theorem slab_q_alloc `{Arch} {W} (alloc : W -> W * option Z) entry q (w : W) :
  0 < Ram_quota._max q < Ram_quota.Invalid - 1 -> 0 <= entry -> 0 <= Ram_quota._current q <= Ram_quota._max q ->
  let '(q', w', r) := Slab_cache.q_alloc alloc entry q w in
  if Ram_quota._current q + entry <=? Ram_quota._max q
  then (w', r) = alloc w
       /\ q' = match r with
               | Some _ => Ram_quota.mk (Ram_quota._current q + entry) (Ram_quota._max q)
               | None => q
               end
  else r = None /\ w' = w /\ q' = q.
Proof.
  intros Hm He Hc. pose proof (auto_quota_scope q entry Hm He Hc) as Hu. unfold Slab_cache.q_alloc, Auto_quota.make in *.
  rewrite quota_alloc_spec in * by done. destruct (Z.leb_spec (Ram_quota._current q + entry) (Ram_quota._max q)); simpl in *.
  - destruct Hu as (Hu1 & Hu2 & _). by destruct (alloc w) as [w' [r |]].
  - done.
Qed.

(** * Runs *)
Module Slab_witness.
#[local] Existing Instance arch64.
#[local] Instance env : Slab_env := {| sizeof_Slab := 32 |}.
Import Slab_cache Slab_machine.

(** Two objects of 480 bytes fit into a slab of 1024 bytes. *)
Lemma sized : sized_ok 1024 480 8.
Proof.
  assert (entry_size 480 8 = 480) as He by (vm_compute; reflexivity). unfold sized_ok. rewrite He.
  split; [exists 10; simpl; lia |]. simpl. split; [lia |]. split; [lia |]. vm_compute. split; congruence.
Qed.

(** The second charge of 480 bytes does not fit. *)
Lemma slab_q_alloc_witness :
  let q := Ram_quota.mk 0 900 in
  let '(q1, _, r1) := q_alloc (fun w => (w, Some 4096)) 480 q tt in
  r1 = Some 4096 /\ q1 = Ram_quota.mk 480 900
  /\ (let '(q2, _, r2) := q_alloc (fun w => (w, Some 4576)) 480 q1 tt in r2 = None /\ q2 = q1).
Proof.
  assert (forall a, 0 <= a <= 900 ->
    0 < Ram_quota._max (Ram_quota.mk a 900) < Ram_quota.Invalid - 1 /\ 0 <= 480
    /\ 0 <= Ram_quota._current (Ram_quota.mk a 900) <= Ram_quota._max (Ram_quota.mk a 900)) as Hq
    by (intros a Ha; split; [vm_compute; auto | simpl; lia]).
  destruct (Hq 0 ltac:(lia)) as (H1 & H2 & H3). destruct (Hq 480 ltac:(lia)) as (H4 & H5 & H6).
  pose proof (slab_q_alloc (fun w => (w, Some 4096)) 480 (Ram_quota.mk 0 900) tt H1 H2 H3) as Ha.
  pose proof (slab_q_alloc (fun w => (w, Some 4576)) 480 (Ram_quota.mk 480 900) tt H4 H5 H6) as Hb.
  vm_compute in Ha, Hb. vm_compute. naive_solver.
Defined.

Definition cache0 : Slab_cache.t := make_sized 1024 480 8.
Definition after (evs : list event) : state := default (init cache0) (run (init cache0) evs).

Lemma slab_after_reachable evs :
  match run (init cache0) evs with Some _ => true | None => false end = true -> reachable cache0 (after evs).
Proof. intros Hr. exists evs. unfold after. by destruct (run (init cache0) evs). Qed.

(** Two CPUs find no slab and ask for blocks; the second one needs its block no
    more. *)
Definition two_cpus : list event :=
  [Alloc; Alloc; Block 4096; Block 8192; Retry (Some 4096); Retry (Some 8192); Alloc].

Lemma slab_alloc_fresh_witness :
  exists s', step (after two_cpus) (Free 4096) = Some (s', None) /\
  exists s'' e, step s' Alloc = Some (s'', Some e) /\ e ∉ live s'.
Proof.
  eexists. split; [vm_compute; reflexivity |]. eexists _, 4096. split; [vm_compute; reflexivity |].
  eapply (slab_alloc_fresh 1024 480 8 _ Alloc _ 4096 sized).
  - exists (two_cpus ++ [Free 4096]). vm_compute. reflexivity.
  - vm_compute. reflexivity.
Defined.

Lemma slab_lists_exact_witness :
  exists s', step (after two_cpus) (Free 4576) = Some (s', None) /\ live s' = live (after two_cpus) ∖ {[4576]}.
Proof.
  apply (slab_lists_exact 1024 480 8 (after two_cpus) sized).
  - apply slab_after_reachable. vm_compute. reflexivity.
  - apply (bool_decide_eq_true (4576 ∈ live (after two_cpus))). vm_compute. reflexivity.
Defined.

(** Four objects in two slabs, all freed again; then the cache is reaped. *)
Definition filled : list event :=
  [Block 4096; Retry (Some 4096); Alloc; Block 8192; Retry (Some 8192); Alloc;
   Free 4096; Free 4576; Free 8192; Free 8672].
Definition reaped : list event := filled ++ [Reap; Reap].
Definition used_again : list event := [Block 4096; Retry (Some 4096); Free 4576].

(** [reap] takes the empty slabs out of the cache but does not count them out:
    [_num_empty] stays at two with an empty list, and from then on a slab that
    becomes empty is returned at once, where a new cache keeps two of them. *)
Theorem slab_reap_counter :
  (_empty (cache (after filled)) = [8192; 4096] /\ _num_empty (cache (after filled)) = 2)
  /\ (_empty (cache (after reaped)) = [] /\ _num_empty (cache (after reaped)) = 2)
  /\ (_empty (cache (after used_again)) = [4096] /\ _empty (cache (after (reaped ++ used_again))) = [])
  /\ slabs (cache (after (reaped ++ used_again))) = ∅.
Proof. vm_compute. auto. Qed.
End Slab_witness.
