(* ===== verification/Outcome.v ===== *)
(** Outcomes of operations on memory: a result, a fault (an access to memory
    that is not there, a failed assertion, a null pointer), or a loop that ran
    out of fuel; with the notation that sequences them. *)

From S2P Require Import Prelude.

Inductive outcome (A : Type) :=
  | Done (a : A)
  | Fault
  | Diverge.
Arguments Done {A} a.
Arguments Fault {A}.
Arguments Diverge {A}.

Definition obind {A B} (m : outcome A) (f : A -> outcome B) : outcome B :=
  match m with Done a => f a | Fault => Fault | Diverge => Diverge end.

Declare Scope outcome_scope.
Delimit Scope outcome_scope with outcome.
Notation "'let*' x ':=' m 'in' k" := (obind m (fun x => k))
  (at level 10, x pattern, m at level 200, k at level 200) : outcome_scope.
#[global] Open Scope outcome_scope.
