(* ===== verification/Ptab.v ===== *)
(** Page tables: the generic multi-level tables of src/src/kern/ptab_base.h,
    their recursive form (ptab_base-recursive.h, the one ptab_base.h selects)
    and their iterative form (ptab_base-iterative.h, used on ARM), with the
    page-table entries of IA-32/AMD64 (ia32/paging-ptab.h) and of ARM
    (arm/paging-ptab.h) as two implementations of the entry interface.

    Tables live in a heap from kernel addresses to vectors of entries.  An
    access to an address that holds no table, and the release of such an
    address, is a [Fault]; a loop that exceeds its fuel gives [Diverge].  The
    operations take the memory layout ([phys_to_pmem]) and the allocator of
    tables as class parameters, as the templates take [MEM] and [ALLOC].
    Writing entries back to memory ([write_back]) has no effect on the heap
    and is left out. *)

From S2P Require Import Prelude Outcome.

(** * Interfaces of the page tables *)

(** The entries: tests on the word of an entry, and the words written. *)
Class Pte_ops := {
  entry_size : Z;
  is_valid : Z -> bool;
  is_leaf : Z -> Z -> bool;       (* level, entry *)
  next_level : Z -> Z;
  set_next_level : Z -> Z;        (* physical address of a table to entry *)
  page_attr : Type;
  make_page_tmpl : Z -> page_attr -> Z;   (* level, attributes to template *)
  next_low : Z;                   (* alignment of tables, log 2 *)
  phys_bits : Z }.                (* width of the physical address of a table *)

(** [Template::for_pa] *)
Definition for_pa (tmpl pa : Z) : Z := tmpl .| pa.

(** What the walks rely on. *)
Class Pte_laws `{Pte_ops} := {
  entry_size_ok : entry_size = 4 \/ entry_size = 8;
  next_low_ok : 0 <= next_low <= phys_bits;
  invalid_0 : is_valid 0 = false;
  leaf_0 : forall e, is_leaf 0 e = true;
  set_next_valid : forall x, in_range phys_bits x -> x mod 2 ^ next_low = 0 ->
    is_valid (set_next_level x) = true;
  set_next_table : forall l x, l <> 0 -> in_range phys_bits x -> x mod 2 ^ next_low = 0 ->
    is_leaf l (set_next_level x) = false;
  next_set_next : forall x, in_range phys_bits x -> x mod 2 ^ next_low = 0 ->
    next_level (set_next_level x) = x }.

(** The memory layout: kernel addresses and physical addresses of tables. *)
Class Mem_ops := {
  phys_to_pmem : Z -> Z;
  to_phys : Z -> Z }.

(** The allocator of tables.  A successful allocation gives an address and the
    entries found there, which are whatever the memory held before. *)
Class Alloc_ops (A : Type) := {
  alloc_valid : bool;
  alloc : A -> Z -> option (Z * list Z) * A;
  free : A -> Z -> Z -> A }.

(** [Ptab::Null_alloc] *)
#[global] Instance Null_alloc : Alloc_ops unit | 10 := {|
  alloc_valid := false;
  alloc := fun a _ => (None, a);
  free := fun a _ _ => a |}.

(** A kernel address that is good for a table. *)
Definition table_addr `{Pte_ops, Mem_ops} (n : Z) : Prop :=
  phys_to_pmem (to_phys n) = n /\ in_range phys_bits (to_phys n) /\ to_phys n mod 2 ^ next_low = 0.

(** What the walks rely on: allocation gives memory of the right size that is
    not one of the live tables. *)
Class Alloc_laws A `{Pte_ops, Mem_ops, !Alloc_ops A} := {
  alloc_ok : A -> list Z -> Prop;
  alloc_some : forall a live sz n c a', alloc_ok a live -> alloc a sz = (Some (n, c), a') ->
    n ∉ live /\ table_addr n /\ Z.of_nat (length c) = sz / entry_size /\ alloc_ok a' (n :: live);
  alloc_none : forall a live sz a', alloc_ok a live -> alloc a sz = (None, a') -> alloc_ok a' live }.

(** * Level descriptions *)

Record Traits := mkTraits {
  Shift : Z; Size : Z; May_be_leaf : bool; Mask : bool; Base_shift : Z }.

(** [Shifted_helper]: the same level for page numbers instead of addresses. *)
Definition Shifted (s : Z) (t : Traits) : Traits :=
  mkTraits (Shift t - s) (Size t) (May_be_leaf t) (Mask t) (Base_shift t + s).

Definition shift_list (ts : list Traits) (s : Z) : list Traits := map (Shifted s) ts.

(** [Level<List<...>>]: the id of a level is the number of levels below it. *)
Definition Level_Id (ts : list Traits) : Z := Z.of_nat (length ts) - 1.

Fixpoint Level_get (ts : list Traits) (level : Z) : option Traits :=
  match ts with
  | [] => None
  | [t] => Some t
  | t :: ts' => if level =? Level_Id ts then Some t else Level_get ts' level
  end.

(** [None] is the unreachable case of the last level. *)
Fixpoint lower_bound_level (ts : list Traits) (order : Z) : option Z :=
  match ts with
  | [] => None
  | t :: ts' => if Shift t + Base_shift t <=? order then Some (Level_Id ts)
                else lower_bound_level ts' order
  end.

Definition page_order_for_level (ts : list Traits) (level : Z) : option Z :=
  match Level_get ts level, head ts with
  | Some t, Some t0 => Some (wrap 8 (Shift t + Base_shift t0))
  | _, _ => None
  end.

(** The tables in memory. *)
Abbreviation heap := (gmap Z (list Z)).

Section with_arch.
Context `{Arch, PO : Pte_ops}.

(** [Entry_vec::idx] *)
Definition idx (t : Traits) (virt : Z) : Z :=
  if Mask t then wrap 32 ((virt >> Shift t) .& mnot (mshl (mnot 0) (Size t)))
  else wrap 32 (virt >> Shift t).

(** ** [Ldesc<BASE_SHIFT, ENTRY_SIZE, MIN_SHIFT>] *)
Record Ldesc := mkLdesc {
  min_shift : Z; base_shift : Z;
  _shift : Z; _size : Z; _may_be_leaf : bool; _s_shift : Z; _s_mask : Z }.

Definition entry_bits : Z := Z.log2 entry_size.

Definition get_s_mask (MIN_SHIFT size : Z) : Z :=
  if MIN_SHIFT <? entry_bits then wrap 32 (msub (mshl 1 size) 1)
  else wrap 32 (mshl (msub (mshl 1 size) 1) entry_bits).

Definition make_Ldesc (BASE_SHIFT MIN_SHIFT shift size : Z) (leaf : bool) : Ldesc :=
  mkLdesc MIN_SHIFT BASE_SHIFT shift size leaf (wrap 8 (shift - entry_bits)) (get_s_mask MIN_SHIFT size).

Definition length_ (d : Ldesc) : Z := mshl 1 (_size d).

Definition index (d : Ldesc) (addr : Z) : Z :=
  if min_shift d <? entry_bits then (addr >> _shift d) .& _s_mask d
  else ((addr >> _s_shift d) .& _s_mask d) >> entry_bits.

Definition offset (d : Ldesc) (addr : Z) : Z :=
  if min_shift d <? entry_bits then mshl ((addr >> _shift d) .& _s_mask d) entry_bits
  else (addr >> _s_shift d) .& _s_mask d.

Definition offset_inc : Z := mshl 1 entry_bits.
Definition length_bytes (d : Ldesc) : Z := wrap 32 (entry_size << _size d).

(** * One table: [Pt_gen_level_impl] *)

(** A pointer to an entry: the table, the byte offset in it and the level. *)
Record Pte_ptr := mkPte { pte_table : Z; pte_offset : Z; pte_level : Z }.

(** The entry [entry_at(e, off)] of the table at [p]. *)
Definition slot (off : Z) : nat := Z.to_nat (off / entry_size).

Definition read_entry (h : heap) (p off : Z) : outcome Z :=
  match h !! p ≫= (.!! slot off) with Some e => Done e | None => Fault end.

Definition write_entry (h : heap) (p off v : Z) : outcome heap :=
  match h !! p with
  | Some es => if bool_decide (slot off < length es)%nat then Done (<[p := <[slot off := v]> es]> h)
               else Fault
  | None => Fault
  end.

Definition deref (h : heap) (e : Pte_ptr) : outcome Z := read_entry h (pte_table e) (pte_offset e).

Definition get_entry (level : Z) (d : Ldesc) (p virt : Z) : Pte_ptr := mkPte p (offset d virt) level.

(** [for (unsigned i = 0; i < lim; i += inc) entry_at(e, i).clear()] *)
Fixpoint clear_loop (n : nat) (h : heap) (p i lim : Z) : outcome heap :=
  match n with
  | O => Diverge
  | S n => if i <? lim then let* h := write_entry h p i 0 in clear_loop n h p (wrap 32 (i + offset_inc)) lim
           else Done h
  end.

(** The fuel is one more than the number of entries: every loop over a table
    visits an entry at most once. *)
Definition table_fuel (d : Ldesc) : nat := S (Z.to_nat (length_ d)).

Definition impl_clear (d : Ldesc) (h : heap) (p : Z) : outcome heap :=
  clear_loop (table_fuel d) h p 0 (length_bytes d).

Fixpoint impl_unmap_loop (n : nat) (h : heap) (p i e : Z) : outcome heap :=
  match n with
  | O => Diverge
  | S n => if i <=? e then let* h := write_entry h p i 0 in impl_unmap_loop n h p (wrap 32 (i + offset_inc)) e
           else Done h
  end.

Definition impl_unmap (d : Ldesc) (h : heap) (p start end_ : Z) : outcome heap :=
  impl_unmap_loop (table_fuel d) h p (wrap 32 (offset d start)) (wrap 32 (offset d end_)).

Fixpoint impl_map_loop (n : nat) (h : heap) (p i e pa phys_inc tmpl : Z) : outcome (Z * heap) :=
  match n with
  | O => Diverge
  | S n => if i <=? e then
             let* h := write_entry h p i (for_pa tmpl pa) in
             impl_map_loop n h p (wrap 32 (i + offset_inc)) e (madd pa phys_inc) phys_inc tmpl
           else Done (pa, h)
  end.

Definition impl_map (d : Ldesc) (h : heap) (p phys virt virt_end tmpl : Z) : outcome (Z * heap) :=
  let phys_inc := mwrap (1 << (_shift d + base_shift d)) in
  let* (pa, h) := impl_map_loop (table_fuel d) h p (wrap 32 (offset d virt)) (wrap 32 (offset d virt_end))
                phys phys_inc tmpl in
  Done (msub pa phys, h).

(** [for (unsigned n = count; n > 0; --n) le[n-1] = re[n-1]] *)
Fixpoint impl_sync_loop (n : nat) (h : heap) (lt l rt r : Z) (need_flush : bool) : outcome (bool * heap) :=
  match n with
  | O => Done (need_flush, h)
  | S n =>
      let lo := (l + Z.of_nat n) * entry_size in
      let ro := (r + Z.of_nat n) * entry_size in
      let* le := read_entry h lt lo in
      let* re := read_entry h rt ro in
      let* h := write_entry h lt lo re in
      impl_sync_loop n h lt l rt r (need_flush || is_valid le)
  end.

Record sync_regs := mkSync { l_a : Z; r_a : Z; sz : Z }.

(** [m + count >= d.length() ? d.length() - m : count] *)
Definition sync_count (length l r count : Z) : Z :=
  let m := Z.max l r in
  if length <=? wrap 32 (m + count) then wrap 32 (length - m) else count.

Definition impl_sync (d : Ldesc) (h : heap) (lt rt : Z) (g : sync_regs) : outcome (Z * sync_regs * heap) :=
  let l := wrap 32 (index d (l_a g)) in
  let r := wrap 32 (index d (r_a g)) in
  let count := sync_count (length_ d) l r (wrap 32 (sz g >> _shift d)) in
  let* (need_flush, h) := impl_sync_loop (Z.to_nat count) h lt l rt r false in
  let bytes := mshl count (_shift d) in
  Done (Z.b2z need_flush, mkSync (madd (l_a g) bytes) (madd (r_a g) bytes) (msub (sz g) bytes), h).

(** * The state of an operation: the tables and the allocator *)
Record state (A : Type) := mkState { tabs : heap; al : A }.
#[global] Arguments mkState {A} _ _.
#[global] Arguments tabs {A} _.
#[global] Arguments al {A} _.

Context {A : Type} `{MO : Mem_ops, AO : !Alloc_ops A}.

Definition with_tabs (s : state A) (h : heap) : state A := mkState h (al s).

(** [a.alloc(Bytes(bytes))], the clearing of the new table, and the entry [e]
    set to point to it; [None] when there is no memory. *)
Definition alloc_next (e : Pte_ptr) (d : Ldesc) (bytes : Z) (s : state A) : outcome (option Z * state A) :=
  match alloc (al s) bytes with
  | (None, a) => Done (None, mkState (tabs s) a)
  | (Some (n, c), a) =>
      let* h := impl_clear d (<[n := c]> (tabs s)) n in
      let* h := write_entry h (pte_table e) (pte_offset e) (set_next_level (to_phys n)) in
      Done (Some n, mkState h a)
  end.

(** [alloc.free(n, Bytes(bytes))]: the memory is no table any more. *)
Definition free_table (n bytes : Z) (s : state A) : outcome (state A) :=
  match tabs s !! n with
  | Some _ => Done (mkState (delete n (tabs s)) (free (al s) n bytes))
  | None => Fault
  end.

(** * The recursive page table: [Recursive_bits::Walk<List<...>>]

    The class is instantiated once per level; the recursion over the list of
    levels is the chain of [Next] types, and [Level] is the number of levels
    that follow. *)

(** [Pt_level_impl::ld()] *)
Definition ld (t : Traits) : Ldesc := make_Ldesc (Base_shift t) 0 (Shift t) (Size t) false.

Definition size_of (ts : list Traits) : Z :=
  match ts with t :: _ => entry_size << Size t | [] => 0 end.

Definition next_ld (ts : list Traits) : Ldesc :=
  match ts with t :: _ => ld t | [] => make_Ldesc 0 0 0 0 false end.

Fixpoint walk (ts : list Traits) (p virt level : Z) (s : state A) : outcome (Pte_ptr * state A) :=
  match ts with
  | [] => Fault
  | t :: ts' =>
      let Level := Level_Id ts in
      let e := get_entry Level (ld t) p virt in
      match ts' with
      | [] => Done (e, s)
      | _ =>
          if level =? Level then Done (e, s)
          else
            let* v := deref (tabs s) e in
            if negb (is_valid v) then
              if alloc_valid then
                let* (n, s) := alloc_next e (next_ld ts') (size_of ts') s in
                match n with Some n => walk ts' n virt level s | None => Done (e, s) end
              else Done (e, s)
            else if is_leaf Level v then Done (e, s)
            else walk ts' (phys_to_pmem (next_level v)) virt level s
      end
  end.

(** The loop of [map] over the entries of a directory; [next] maps in the
    table below an entry. *)
Fixpoint map_loop (n : nat) (next : Z -> Z -> Z -> Z -> state A -> outcome (Z * state A))
  (d dn : Ldesc) (bytes Level p phys virt virt_end virt_index virt_index_end : Z) (s : state A)
  : outcome (Z * state A) :=
  match n with
  | O => Diverge
  | S n =>
      let e := get_entry Level d p virt in
      let* v := deref (tabs s) e in
      let call c s :=
        let ve := if virt_index <? virt_index_end
                  then msub (mshl (madd virt_index 1) (_shift d)) 1 else virt_end in
        let* (mapped_size, s) := next c phys virt ve s in
        if mapped_size =? 0 then Done (mapped_size, s)
        else if virt_index_end <=? virt_index then Done (mapped_size, s)
        else
          let virt_index := madd virt_index 1 in
          map_loop n next d dn bytes Level p (madd phys mapped_size) (mshl virt_index (_shift d)) virt_end
            virt_index virt_index_end s in
      if negb (is_valid v) then
        if alloc_valid then
          let* (c, s) := alloc_next e dn bytes s in
          match c with Some c => call c s | None => Done (0, s) end
        else Done (0, s)
      else if _may_be_leaf d && is_leaf Level v then Done (0, s)
      else call (phys_to_pmem (next_level v)) s
  end.

Definition impl_map_st (d : Ldesc) (p phys virt virt_end tmpl : Z) (s : state A) : outcome (Z * state A) :=
  let* (m, h) := impl_map d (tabs s) p phys virt virt_end tmpl in Done (m, with_tabs s h).

Fixpoint map_ (ts : list Traits) (p phys virt virt_end tmpl level : Z) (s : state A)
  : outcome (Z * state A) :=
  match ts with
  | [] => Fault
  | t :: ts' =>
      let Level := Level_Id ts in
      match ts' with
      | [] => impl_map_st (ld t) p phys virt virt_end tmpl s
      | _ =>
          if level =? Level then impl_map_st (ld t) p phys virt virt_end tmpl s
          else map_loop (table_fuel (ld t))
                 (fun c phys virt ve s => map_ ts' c phys virt ve tmpl level s)
                 (ld t) (next_ld ts') (size_of ts') Level p phys virt virt_end
                 (index (ld t) virt) (index (ld t) virt_end) s
      end
  end.

(** The loop of [unmap]; [continue] runs the loop's increment without the test
    that ends the loop. *)
Fixpoint unmap_loop (n : nat) (next : Z -> Z -> Z -> heap -> outcome heap)
  (d : Ldesc) (Level p start end_ index index_end : Z) (h : heap) : outcome heap :=
  match n with
  | O => Diverge
  | S n =>
      let e := get_entry Level d p start in
      let* v := deref h e in
      let index1 := madd index 1 in
      let continue h := unmap_loop n next d Level p (mshl index1 (_shift d)) end_ index1 index_end h in
      if negb (is_valid v) || is_leaf Level v then continue h
      else
        let ve := if index <? index_end then msub (mshl index1 (_shift d)) 1 else end_ in
        let* h := next (phys_to_pmem (next_level v)) start ve h in
        if index_end <=? index then Done h else continue h
  end.

Fixpoint unmap (fuel : nat) (ts : list Traits) (p start end_ level : Z) (h : heap) : outcome heap :=
  match ts with
  | [] => Fault
  | t :: ts' =>
      let Level := Level_Id ts in
      match ts' with
      | [] => impl_unmap (ld t) h p start end_
      | _ =>
          if level =? Level then impl_unmap (ld t) h p start end_
          else unmap_loop fuel (fun c start ve h => unmap fuel ts' c start ve level h)
                 (ld t) Level p start end_ (index (ld t) start) (index (ld t) end_) h
      end
  end.

Fixpoint destroy_loop (n : nat) (next : Z -> Z -> Z -> state A -> outcome (state A))
  (t : Traits) (bytes Level p start end_ idx_start idx_end i start_level : Z) (s : state A)
  : outcome (state A) :=
  match n with
  | O => Diverge
  | S n =>
      if i <? idx_end then
        let* v := read_entry (tabs s) p (i * entry_size) in
        let continue s := destroy_loop n next t bytes Level p start end_ idx_start idx_end
                            (wrap 32 (i + 1)) start_level s in
        if negb (is_valid v) || (May_be_leaf t && is_leaf Level v) then continue s
        else
          let c := phys_to_pmem (next_level v) in
          let* s := next c (if idx_start <? i then 0 else start)
                 (if wrap 32 (i + 1) <? idx_end then msub (mshl 1 (Shift t)) 1 else end_) s in
          if Level <=? start_level then let* s := free_table c bytes s in continue s
          else continue s
      else Done s
  end.

Fixpoint destroy (ts : list Traits) (p start end_ start_level end_level : Z) (s : state A)
  : outcome (state A) :=
  match ts with
  | [] => Fault
  | t :: ts' =>
      let Level := Level_Id ts in
      match ts' with
      | [] => Done s
      | _ =>
          if negb alloc_valid || (Level <=? end_level) then Done s
          else
            let idx_start := idx t start in
            let idx_end := wrap 32 (idx t end_ + 1) in
            destroy_loop (table_fuel (ld t))
              (fun c start end_ s => destroy ts' c start end_ start_level end_level s)
              t (size_of ts') Level p start end_ idx_start idx_end idx_start start_level s
      end
  end.

Fixpoint sync_loop (n : nat)
  (next : Z -> Z -> sync_regs -> state A -> outcome (Z * sync_regs * state A))
  (d dn : Ldesc) (bytes Level lt rt : Z) (need_flush : bool) (g : sync_regs) (s : state A)
  : outcome (Z * sync_regs * state A) :=
  match n with
  | O => Done (Z.b2z need_flush, g, s)
  | S n =>
      if sz g =? 0 then Done (Z.b2z need_flush, g, s)
      else
        let l := get_entry Level d lt (l_a g) in
        let r := get_entry Level d rt (r_a g) in
        let* rv := deref (tabs s) r in
        if negb (is_valid rv) then
          let step := mshl 1 (_shift d) in
          let la := madd (l_a g) step in
          let ra := madd (r_a g) step in
          if step <? sz g
          then sync_loop n next d dn bytes Level lt rt need_flush (mkSync la ra (msub (sz g) step)) s
          else Done (Z.b2z need_flush, mkSync la ra (sz g), s)
        else
          let* lv := deref (tabs s) l in
          let rn := phys_to_pmem (next_level rv) in
          let call c s :=
            let* (err, g, s) := next c rn g s in
            if err <? 0 then Done (err, g, s)
            else sync_loop n next d dn bytes Level lt rt (need_flush || (0 <? err)) g s in
          if negb (is_valid lv) then
            if alloc_valid then
              let* (c, s) := alloc_next l dn bytes s in
              match c with Some c => call c s | None => Done (-1, g, s) end
            else Done (-1, g, s)
          else call (phys_to_pmem (next_level lv)) s
  end.

Definition impl_sync_st (d : Ldesc) (lt rt : Z) (g : sync_regs) (s : state A)
  : outcome (Z * sync_regs * state A) :=
  let* (r, g, h) := impl_sync d (tabs s) lt rt g in Done (r, g, with_tabs s h).

Fixpoint sync (ts : list Traits) (lt rt level : Z) (g : sync_regs) (s : state A)
  : outcome (Z * sync_regs * state A) :=
  match ts with
  | [] => Fault
  | t :: ts' =>
      let Level := Level_Id ts in
      match ts' with
      | [] => impl_sync_st (ld t) lt rt g s
      | _ =>
          if level =? Level then impl_sync_st (ld t) lt rt g s
          else
            let count := sync_count (2 ^ Size t) (idx t (l_a g)) (idx t (r_a g))
                           (wrap 32 (sz g >> Shift t)) in
            sync_loop (Z.to_nat count) (fun lc rc g s => sync ts' lc rc level g s)
              (ld t) (next_ld ts') (size_of ts') Level lt rt false g s
      end
  end.

(** * [Ptab::Base]: the root table at [p] *)

Definition root_level (ts : list Traits) : Z := Level_Id ts.
Definition from_root_level (ts : list Traits) (l : Z) : Z := wrap 8 (Level_Id ts - l).

Definition max_addr (ts : list Traits) : Z :=
  match ts with
  | [] => 0
  | t :: _ => mwrap ((2 ^ 64 - 1) >> (64 - Base_shift t - Shift t - Size t))
  end.

(** The clearing of the root table. *)
Definition base_clear (ts : list Traits) (p : Z) (h : heap) : outcome heap := impl_clear (next_ld ts) h p.

Definition base_map (ts : list Traits) (p phys virt size : Z) (attr : page_attr) (level : Z) (s : state A)
  : outcome (Z * state A) :=
  map_ ts p phys virt (msub (madd virt size) 1) (make_page_tmpl level attr) level s.

Definition base_unmap (fuel : nat) (ts : list Traits) (p virt size level : Z) (h : heap) : outcome heap :=
  unmap fuel ts p virt (msub (madd virt size) 1) level h.

Definition base_destroy (ts : list Traits) (p start end_ start_level end_level : Z) (s : state A)
  : outcome (state A) := destroy ts p start end_ start_level end_level s.

Definition base_sync (ts : list Traits) (lt l_addr rt r_addr size level : Z) (s : state A)
  : outcome (Z * state A) :=
  let* (r, _, s) := sync ts lt rt level (mkSync l_addr r_addr size) s in Done (r, s).

End with_arch.

(** The lookup, [Base::walk] with the null allocator: it changes nothing. *)
Definition lookup_walk `{Arch, Pte_ops, Mem_ops} (ts : list Traits) (p virt level : Z) (h : heap)
  : outcome Pte_ptr :=
  let* (e, _) := walk ts p virt level (mkState h tt) in Done e.
