(* ===== verification/PtabInv.v ===== *)
(** Page tables as trees: the invariant of a well-formed hierarchy of tables,
    the translation of addresses it stands for, and how changes of one table
    and of a subtree act on both.  Ptab.v has the operations. *)

From S2P Require Import Prelude Outcome Ptab.

(** Well-formed level lists: each level starts where the one below ends. *)
Definition level_ok `{Arch, Pte_ops} (t : Traits) : Prop :=
  0 <= Shift t /\ 0 < Size t /\ Size t + entry_bits < 31 /\ Shift t + Size t <= MWORD_BITS /\
  0 <= Base_shift t /\ Shift t + Base_shift t < MWORD_BITS /\ next_low <= Shift t + Base_shift t.

Fixpoint levels_ok `{Arch, Pte_ops} (ts : list Traits) : Prop :=
  match ts with
  | [] => False
  | t :: ts' =>
      level_ok t /\
      match ts' with
      | [] => True
      | t' :: _ => Shift t = Shift t' + Size t' /\ Base_shift t = Base_shift t' /\ levels_ok ts'
      end
  end.

(** The entry of an address in a table: the reference for [index], [offset]
    and [idx]. *)
Definition ix (t : Traits) (a : Z) : Z := (a / 2 ^ Shift t) mod 2 ^ Size t.

Section index.
Context `{Arch, PO : Pte_ops, !Pte_laws}.

Lemma entry_bits_cases : (entry_size = 4 /\ entry_bits = 2) \/ (entry_size = 8 /\ entry_bits = 3).
Proof. unfold entry_bits. destruct entry_size_ok as [-> | ->]; [left | right]; done. Qed.

Lemma entry_size_pow : entry_size = 2 ^ entry_bits /\ 2 <= entry_bits <= 3.
Proof. destruct entry_bits_cases as [[-> ->] | [-> ->]]; split; (reflexivity || lia). Qed.

Lemma ix_range t a : level_ok t -> 0 <= ix t a < 2 ^ Size t.
Proof. intros (? & ? & _). apply Z.mod_pos_bound, pow2_pos. lia. Qed.

Lemma land_ones_ix t a : level_ok t -> (a >> Shift t) .& Z.ones (Size t) = ix t a.
Proof.
  intros (? & ? & _). unfold ix. rewrite Z.land_ones, Z.shiftr_div_pow2 by lia. done.
Qed.

Lemma mshl_1 n : 0 <= n < MWORD_BITS -> mshl 1 n = 2 ^ n.
Proof.
  intros. unfold mshl, mwrap. rewrite Z.shiftl_mul_pow2, Z.mul_1_l by lia. apply wrap_small.
  split; [apply Z.pow_nonneg; lia |]. apply Z.pow_lt_mono_r; lia.
Qed.

Lemma ones_mword n : 0 <= n < MWORD_BITS -> msub (mshl 1 n) 1 = Z.ones n.
Proof.
  intros Hn. rewrite mshl_1 by done. rewrite Z.ones_equiv. unfold msub, mwrap. rewrite wrap_small.
  - lia.
  - assert (0 < 2 ^ n) by (apply pow2_pos; lia).
    assert (2 ^ n < 2 ^ MWORD_BITS) by (apply Z.pow_lt_mono_r; lia). split; lia.
Qed.

Lemma ones_32 n : 0 <= n <= 32 -> wrap 32 (Z.ones n) = Z.ones n.
Proof.
  intros. apply wrap_small. rewrite Z.ones_equiv. assert (0 < 2 ^ n) by (apply pow2_pos; lia).
  assert (2 ^ n <= 2 ^ 32) by (apply Z.pow_le_mono_r; lia). split; lia.
Qed.

Lemma size_small t : level_ok t -> 0 < Size t < 29 /\ Size t + entry_bits < 31 /\ 32 <= MWORD_BITS.
Proof.
  intros (? & ? & ? & _). pose proof entry_size_pow as [_ ?]. pose proof arch_ge32. lia.
Qed.

(** The table of a level is indexed by the same bits however the description
    was computed: from addresses, or from byte offsets when every level
    starts above the size of an entry. *)
Lemma make_Ldesc_index t ms leaf a :
  level_ok t -> (ms < entry_bits \/ entry_bits <= ms <= Shift t) ->
  index (make_Ldesc (Base_shift t) ms (Shift t) (Size t) leaf) a = ix t a.
Proof.
  intros Hl Hms. pose proof (size_small t Hl) as (? & ? & ?). pose proof entry_size_pow as [_ ?].
  unfold index, make_Ldesc, get_s_mask. cbn. rewrite !ones_mword by lia.
  destruct (Z.ltb_spec ms entry_bits).
  - rewrite ones_32 by lia. by apply land_ones_ix.
  - destruct Hl as (? & ? & ? & ? & ?). rewrite (wrap_small 8).
    2:{ split; [lia |]. pose proof arch_ge32. destruct MWORD_BITS_ok; lia. }
    rewrite <- (land_ones_ix t a) by (repeat split; tauto || lia).
    bits_ext.
Qed.

Lemma make_Ldesc_offset t ms leaf a :
  level_ok t -> (ms < entry_bits \/ entry_bits <= ms <= Shift t) ->
  offset (make_Ldesc (Base_shift t) ms (Shift t) (Size t) leaf) a = ix t a * entry_size.
Proof.
  intros Hl Hms. pose proof (size_small t Hl) as (? & ? & ?). pose proof entry_size_pow as [He ?].
  rewrite He, <- Z.shiftl_mul_pow2 by lia.
  unfold offset, make_Ldesc, get_s_mask. cbn. rewrite !ones_mword by lia.
  destruct (Z.ltb_spec ms entry_bits).
  - rewrite ones_32, land_ones_ix by (done || lia). unfold mshl, mwrap. apply wrap_small.
    pose proof (ix_range t a Hl). rewrite Z.shiftl_mul_pow2 by lia.
    assert (2 ^ (Size t + entry_bits) < 2 ^ MWORD_BITS) by (apply Z.pow_lt_mono_r; lia).
    rewrite Z.pow_add_r in * by lia. unfold in_range. nia.
  - destruct Hl as (? & ? & ? & ? & ?). rewrite (wrap_small 8).
    2:{ split; [lia |]. pose proof arch_ge32. destruct MWORD_BITS_ok; lia. }
    rewrite <- (land_ones_ix t a) by (repeat split; tauto || lia).
    bits_ext.
Qed.

(** A level that does not mask its index is the root, for addresses that the
    hierarchy covers. *)
Lemma idx_ix t a : level_ok t -> (Mask t = true \/ 0 <= a < 2 ^ (Shift t + Size t)) -> idx t a = ix t a.
Proof.
  intros Hl HM. pose proof (size_small t Hl) as (? & ? & ?). pose proof (ix_range t a Hl).
  assert (2 ^ Size t < 2 ^ 32) by (apply Z.pow_lt_mono_r; lia).
  assert (wrap 32 (ix t a) = ix t a) as Hw by (apply wrap_small; unfold in_range; lia).
  unfold idx. destruct (Mask t) eqn:EM.
  - assert (mnot (mshl (mnot 0) (Size t)) = Z.ones (Size t)) as -> by bits_ext.
    by rewrite land_ones_ix.
  - destruct HM as [? | HM]; [done |]. pose proof Hl as (? & ? & _).
    rewrite <- Hw. f_equal. unfold ix. rewrite Z.shiftr_div_pow2 by lia. rewrite Z.mod_small; [done |].
    rewrite Z.pow_add_r in HM by lia. split; [apply Z.div_pos; lia |]. apply Z.div_lt_upper_bound; lia.
Qed.

Lemma ld_index t a : level_ok t -> index (ld t) a = ix t a.
Proof. intros. apply make_Ldesc_index; [done |]. pose proof entry_size_pow. lia. Qed.

Lemma ld_offset t a : level_ok t -> offset (ld t) a = ix t a * entry_size.
Proof. intros. apply make_Ldesc_offset; [done |]. pose proof entry_size_pow. lia. Qed.

Lemma ld_length t : level_ok t -> length_ (ld t) = 2 ^ Size t.
Proof. intros Hl. pose proof (size_small t Hl). apply mshl_1. lia. Qed.

Lemma slot_mul i : 0 <= i -> slot (i * entry_size) = Z.to_nat i.
Proof. intros. unfold slot. rewrite Z.div_mul; [done |]. destruct entry_size_ok; lia. Qed.

Lemma offset_inc_eq : offset_inc = entry_size.
Proof.
  unfold offset_inc. pose proof entry_size_pow as [-> ?]. pose proof arch_ge32. apply mshl_1. lia.
Qed.

(** Byte offsets inside a table do not overflow an [unsigned]. *)
Lemma offset_32 t i : level_ok t -> 0 <= i <= 2 ^ Size t -> wrap 32 (i * entry_size) = i * entry_size.
Proof.
  intros Hl Hi. pose proof (size_small t Hl) as (? & ? & ?). pose proof entry_size_pow as [-> ?].
  apply wrap_small. assert (2 ^ (Size t + entry_bits) < 2 ^ 32) by (apply Z.pow_lt_mono_r; lia).
  rewrite Z.pow_add_r in * by lia. unfold in_range. nia.
Qed.

Lemma offset_step t i : level_ok t -> 0 <= i < 2 ^ Size t ->
  wrap 32 (i * entry_size + offset_inc) = (i + 1) * entry_size.
Proof.
  intros Hl Hi. rewrite offset_inc_eq. replace (i * entry_size + entry_size) with ((i + 1) * entry_size) by lia.
  apply (offset_32 t); [done | lia].
Qed.

(** ** One table *)

Lemma read_entry_slot h p es i e :
  h !! p = Some es -> 0 <= i -> es !! Z.to_nat i = Some e -> read_entry h p (i * entry_size) = Done e.
Proof. intros Hp Hi He. unfold read_entry. rewrite Hp, slot_mul by done. simpl. by rewrite He. Qed.

Lemma write_entry_slot h p es i v :
  h !! p = Some es -> 0 <= i < Z.of_nat (length es) ->
  write_entry h p (i * entry_size) v = Done (<[p := <[Z.to_nat i := v]> es]> h).
Proof.
  intros Hp Hi. unfold write_entry. rewrite Hp, slot_mul by lia.
  rewrite bool_decide_eq_true_2 by lia. done.
Qed.

(** [es'] is [es] with the entries [i] to [e] given by [f]. *)
Definition range_set (es es' : list Z) (i e : Z) (f : Z -> Z) : Prop :=
  length es' = length es /\
  forall k : nat, es' !! k =
    if decide (i <= Z.of_nat k <= e /\ (k < length es)%nat) then Some (f (Z.of_nat k)) else es !! k.

Lemma range_set_nil es i e f : e < i -> range_set es es i e f.
Proof. intros. split; [done |]. intros k. by rewrite decide_False by lia. Qed.

Lemma range_set_cons es es' i e f :
  0 <= i <= e -> range_set (<[Z.to_nat i := f i]> es) es' (i + 1) e f -> range_set es es' i e f.
Proof.
  intros Hi [Hlen Hk]. rewrite length_insert in Hlen. split; [done |]. intros k. rewrite Hk, length_insert.
  destruct (decide (Z.of_nat k = i)) as [<- |].
  - rewrite decide_False, Nat2Z.id by lia. destruct (decide (k < length es)%nat).
    + rewrite decide_True, list_lookup_insert_eq by lia. done.
    + rewrite decide_False, list_insert_ge by lia. done.
  - rewrite list_lookup_insert_ne by lia.
    destruct (decide (i + 1 <= Z.of_nat k <= e /\ (k < length es)%nat)), 
      (decide (i <= Z.of_nat k <= e /\ (k < length es)%nat)); (done || lia).
Qed.

Lemma impl_map_loop_ok t n h p es i e pa inc tmpl :
  level_ok t -> h !! p = Some es -> Z.of_nat (length es) = 2 ^ Size t ->
  0 <= i <= e + 1 -> e < 2 ^ Size t -> e + 1 - i < Z.of_nat n -> is_mword pa ->
  exists es', impl_map_loop n h p (i * entry_size) (e * entry_size) pa inc tmpl =
      Done (mwrap (pa + (e + 1 - i) * inc), <[p := es']> h) /\
    range_set es es' i e (fun k => for_pa tmpl (mwrap (pa + (k - i) * inc))).
Proof.
  intros Hl. revert h es i pa. induction n as [|n IH]; intros h es i pa Hp Hlen Hi He Hn Hpa; [lia |].
  cbn [impl_map_loop]. assert (0 < entry_size) by (destruct entry_size_ok; lia).
  destruct (Z.leb_spec (i * entry_size) (e * entry_size)) as [Hle | Hgt].
  - assert (i <= e) by nia.
    rewrite (write_entry_slot _ _ es) by (done || lia). cbn [obind].
    rewrite (offset_step t) by (done || lia).
    destruct (IH (<[p := <[Z.to_nat i := for_pa tmpl pa]> es]> h) (<[Z.to_nat i := for_pa tmpl pa]> es)
                (i + 1) (madd pa inc)) as (es' & -> & Hr).
    + by rewrite lookup_insert_eq.
    + by rewrite length_insert.
    + lia.
    + lia.
    + lia.
    + apply mwrap_range.
    + exists es'. rewrite insert_insert_eq. split.
      * do 2 f_equal. unfold madd, mwrap, wrap. rewrite Zplus_mod_idemp_l. f_equal. lia.
      * apply range_set_cons; [lia |]. replace (i - i) with 0 by lia.
        replace (pa + 0 * inc) with pa by lia. unfold mwrap at 1. rewrite (wrap_small _ pa) by done.
        destruct Hr as [Hl1 Hr]. split; [done |]. intros k. rewrite Hr.
        destruct (decide _); [| done]. do 2 f_equal. unfold madd, mwrap, wrap.
        rewrite Zplus_mod_idemp_l. f_equal. lia.
  - assert (e + 1 = i) by nia. exists es. replace (e + 1 - i) with 0 by lia.
    rewrite insert_id by done. replace (pa + 0 * inc) with pa by lia. unfold mwrap.
    rewrite (wrap_small _ pa) by done. split; [done |]. apply range_set_nil. lia.
Qed.

(** Clearing entries is writing zeros, and clearing a table is clearing all
    its entries. *)
Lemma impl_unmap_loop_map n h p i e :
  impl_map_loop n h p i e 0 0 0 = (let* h := impl_unmap_loop n h p i e in Done (0, h)).
Proof.
  revert h i. induction n as [|n IH]; intros h i; [done |]. cbn [impl_map_loop impl_unmap_loop].
  destruct (i <=? e); [| done]. replace (madd 0 0) with 0 by (unfold madd, mwrap, wrap; by rewrite Z.mod_0_l by (apply Z.pow_nonzero; pose proof arch_pos; lia)).
  replace (for_pa 0 0) with 0 by done. destruct (write_entry h p i 0); simpl; [apply IH | done..].
Qed.

Lemma impl_unmap_loop_ok t n h p es i e :
  level_ok t -> h !! p = Some es -> Z.of_nat (length es) = 2 ^ Size t ->
  0 <= i <= e + 1 -> e < 2 ^ Size t -> e + 1 - i < Z.of_nat n ->
  exists es', impl_unmap_loop n h p (i * entry_size) (e * entry_size) = Done (<[p := es']> h) /\
    range_set es es' i e (fun _ => 0).
Proof.
  intros Hl Hp Hlen Hi He Hn.
  assert (is_mword 0) as Hz by (split; [lia | apply pow2_pos; pose proof arch_pos; lia]).
  destruct (impl_map_loop_ok t n h p es i e 0 0 0) as (es' & Hm & Hr); [done.. |].
  rewrite impl_unmap_loop_map in Hm. exists es'.
  destruct (impl_unmap_loop n h p (i * entry_size) (e * entry_size)); simplify_eq/=. split; [done |].
  destruct Hr as [? Hr]. split; [done |]. intros k. rewrite Hr. destruct (decide _); [| done].
  f_equal. unfold for_pa. rewrite Z.lor_0_l, Z.mul_0_r. unfold mwrap. by apply wrap_small.
Qed.

Lemma clear_loop_unmap t n h p i :
  level_ok t -> 0 <= i <= 2 ^ Size t ->
  clear_loop n h p (i * entry_size) (2 ^ Size t * entry_size) =
  impl_unmap_loop n h p (i * entry_size) ((2 ^ Size t - 1) * entry_size).
Proof.
  intros Hl. revert h i. induction n as [|n IH]; intros h i Hi; [done |].
  cbn [clear_loop impl_unmap_loop]. assert (0 < entry_size) by (destruct entry_size_ok; lia).
  destruct (Z.lt_ge_cases i (2 ^ Size t)).
  - rewrite (proj2 (Z.ltb_lt _ _)), (proj2 (Z.leb_le _ _)) by nia.
    rewrite (offset_step t) by (done || lia).
    destruct (write_entry h p (i * entry_size) 0); simpl; [| done..]. apply IH. lia.
  - rewrite (proj2 (Z.ltb_ge _ _)), (proj2 (Z.leb_gt _ _)) by nia. done.
Qed.

(** Clearing a table of the right size makes all its entries zero. *)
Lemma impl_clear_ok t h p es :
  level_ok t -> h !! p = Some es -> Z.of_nat (length es) = 2 ^ Size t ->
  impl_clear (ld t) h p = Done (<[p := replicate (length es) 0]> h).
Proof.
  intros Hl Hp Hlen. unfold impl_clear, table_fuel. rewrite ld_length by done.
  pose proof (size_small t Hl) as (? & ? & ?). assert (0 < 2 ^ Size t) by (apply pow2_pos; lia).
  assert (length_bytes (ld t) = 2 ^ Size t * entry_size) as ->.
  { unfold length_bytes. cbn. rewrite Z.shiftl_mul_pow2 by lia. rewrite Z.mul_comm.
    apply (offset_32 t); [done | lia]. }
  destruct (impl_unmap_loop_ok t (S (Z.to_nat (2 ^ Size t))) h p es 0 (2 ^ Size t - 1))
    as (es' & Hc & Hle & Hk); [done.. | lia | lia | lia |].
  rewrite <- (clear_loop_unmap t) in Hc by (done || lia). rewrite Z.mul_0_l in Hc. rewrite Hc. do 2 f_equal. apply list_eq. intros k. rewrite Hk.
  destruct (decide (k < length es)%nat).
  - rewrite decide_True, lookup_replicate_2 by lia. done.
  - rewrite decide_False by lia. rewrite !lookup_ge_None_2; [done | | lia]. rewrite length_replicate. lia.
Qed.
End index.

(** * Trees of tables *)

Lemma concat_map_submseteq {X Y} (f : X -> list Y) l l' :
  length l' = length l -> (forall k x, l' !! k = Some x -> l !! k = Some x \/ f x = []) ->
  concat (map f l') ⊆+ concat (map f l).
Proof.
  revert l. induction l' as [|x l' IH]; intros [|y l] Hlen Hk; try discriminate; [done |].
  cbn. apply submseteq_app.
  - destruct (Hk O x eq_refl) as [[= ->] | ->]; [done | apply submseteq_nil_l].
  - apply IH; [by injection Hlen | intros k; apply (Hk (S k))].
Qed.

Lemma submseteq_NoDup {X} (l k : list X) : l ⊆+ k -> NoDup k -> NoDup l.
Proof. intros [l' ->]%submseteq_Permutation Hn. by apply NoDup_app in Hn as [? _]. Qed.

Lemma NoDup_concat_disjoint {X Y} (f : X -> list Y) l i k x y q :
  NoDup (concat (map f l)) -> l !! i = Some x -> l !! k = Some y -> i <> k -> q ∈ f x -> q ∉ f y.
Proof.
  revert i k. induction l as [|z l IH]; intros i k Hn Hi Hk Hne Hx Hy; [done |].
  cbn in Hn. apply NoDup_app in Hn as (_ & Hd & Hn).
  assert (forall j w, l !! j = Some w -> q ∈ f w -> q ∈ concat (map f l)) as Hin.
  { intros j w Hj Hw. apply list_elem_of_In, in_concat. exists (f w). split; [| by apply list_elem_of_In].
    apply in_map, list_elem_of_In. by eapply list_elem_of_lookup_2. }
  destruct i as [|i], k as [|k]; cbn in *; simplify_eq.
  - apply (Hd q); eauto.
  - apply (Hd q); eauto.
  - eapply (IH i k); eauto.
Qed.

Section tree.
Context `{Arch, PO : Pte_ops, PL : !Pte_laws, MO : Mem_ops}.

(** A valid entry of a level that points to a table of the next level. *)
Definition is_table (l e : Z) : bool := is_valid e && negb (is_leaf l e).

Definition child (e : Z) : Z := phys_to_pmem (next_level e).

Definition entries (h : heap) (p : Z) : list Z := default [] (h !! p).

Lemma entries_eq (h : heap) p es : h !! p = Some es -> entries h p = es.
Proof. intros Hp. unfold entries. by rewrite Hp. Qed.

(** All tables of the hierarchy with root [p]. *)
Fixpoint tables (ts : list Traits) (h : heap) (p : Z) : list Z :=
  match ts with
  | [] => []
  | _ :: ts' =>
      p :: concat (map (fun e => if is_table (Level_Id ts) e then tables ts' h (child e) else [])
                     (entries h p))
  end.

(** Every table is there and has the size of its level. *)
Fixpoint shaped (ts : list Traits) (h : heap) (p : Z) : Prop :=
  match ts with
  | [] => True
  | t :: ts' =>
      Z.of_nat (length (entries h p)) = 2 ^ Size t /\ is_Some (h !! p) /\
      forall e, e ∈ entries h p -> is_table (Level_Id ts) e = true -> shaped ts' h (child e)
  end.

(** A well-formed hierarchy: no table is reachable in two ways. *)
Definition tree_ok (ts : list Traits) (h : heap) (p : Z) : Prop :=
  shaped ts h p /\ NoDup (tables ts h p).

(** The translation the hardware finds: the level and the word of the valid
    leaf entry of an address. *)
Fixpoint translate (ts : list Traits) (h : heap) (p a : Z) : option (Z * Z) :=
  match ts with
  | [] => None
  | t :: ts' =>
      match entries h p !! Z.to_nat (ix t a) with
      | None => None
      | Some e =>
          if negb (is_valid e) then None
          else if is_leaf (Level_Id ts) e then Some (Level_Id ts, e)
          else translate ts' h (child e) a
      end
  end.

Abbreviation subtree ts' l h := (fun e => if is_table l e then tables ts' h (child e) else []).

Lemma tables_cons t ts h p :
  tables (t :: ts) h p = p :: concat (map (subtree ts (Level_Id (t :: ts)) h) (entries h p)).
Proof. done. Qed.

Lemma elem_of_subtree ts' l h es e q :
  e ∈ es -> is_table l e = true -> q ∈ tables ts' h (child e) -> q ∈ concat (map (subtree ts' l h) es).
Proof.
  intros He Ht Hq. apply list_elem_of_In, in_concat. exists (tables ts' h (child e)). split.
  - apply in_map_iff. exists e. split; [by rewrite Ht | by apply list_elem_of_In].
  - by apply list_elem_of_In.
Qed.

(** What happens outside of a hierarchy does not change it. *)
Lemma tables_frame ts h h' p :
  (forall q, q ∈ tables ts h p -> h' !! q = h !! q) -> tables ts h' p = tables ts h p.
Proof.
  revert p. induction ts as [|t ts IH]; intros p Hf; [done |]. cbn [tables] in *.
  assert (entries h' p = entries h p) as -> by (unfold entries; by rewrite Hf by left).
  f_equal. f_equal. apply map_ext_in. intros e He%list_elem_of_In.
  destruct (is_table (Level_Id (t :: ts)) e) eqn:Ht; [| done]. apply IH. intros q Hq. apply Hf. right.
  eapply elem_of_subtree; eauto.
Qed.

Lemma shaped_frame ts h h' p :
  (forall q, q ∈ tables ts h p -> h' !! q = h !! q) -> shaped ts h p -> shaped ts h' p.
Proof.
  revert p. induction ts as [|t ts IH]; intros p Hf; [done |]. cbn [tables shaped] in *.
  assert (h' !! p = h !! p) as Hp by (apply Hf; by left).
  assert (entries h' p = entries h p) as -> by (unfold entries; by rewrite Hp). rewrite Hp.
  intros (Hlen & Hs & Hc). split; [done |]. split; [done |].
  intros e He Ht. apply IH; [| by apply Hc]. intros q Hq. apply Hf. right. eapply elem_of_subtree; eauto.
Qed.

Lemma translate_frame ts h h' p a :
  (forall q, q ∈ tables ts h p -> h' !! q = h !! q) -> translate ts h' p a = translate ts h p a.
Proof.
  revert p. induction ts as [|t ts IH]; intros p Hf; [done |]. cbn [tables translate] in *.
  assert (entries h' p = entries h p) as -> by (unfold entries; by rewrite Hf by left).
  destruct (entries h p !! Z.to_nat (ix t a)) as [e|] eqn:He; [| done].
  destruct (is_valid e) eqn:Hv; simpl; [| done].
  destruct (is_leaf (Level_Id (t :: ts)) e) eqn:Hl; [done |]. apply IH. intros q Hq. apply Hf. right.
  eapply elem_of_subtree; [by eapply list_elem_of_lookup_2 | | exact Hq]. unfold is_table. by rewrite Hv, Hl.
Qed.

(** A step that may add tables [ns] to a hierarchy, may drop tables from it,
    and touches nothing else. *)
Record grows (ts : list Traits) (p : Z) (h h' : heap) (ns : list Z) : Prop := {
  g_shape : shaped ts h' p;
  g_tab : tables ts h' p ⊆+ tables ts h p ++ ns;
  g_frame : forall q, q ∉ tables ts h p -> q ∉ ns -> h' !! q = h !! q }.

Lemma grows_refl ts p h : shaped ts h p -> grows ts p h h [].
Proof. intros. split; [done | by rewrite app_nil_r | done]. Qed.

Lemma grows_trans ts p h h1 h2 ns1 ns2 :
  grows ts p h h1 ns1 -> grows ts p h1 h2 ns2 -> grows ts p h h2 (ns2 ++ ns1).
Proof.
  intros G1 G2. split; [by destruct G2 | |].
  - etrans; [apply (g_tab _ _ _ _ _ G2) |]. rewrite (Permutation_app_comm ns2), app_assoc.
    apply submseteq_app; [apply G1 | done].
  - intros q Hq [Hn2 Hn1]%not_elem_of_app. rewrite (g_frame _ _ _ _ _ G2); [by apply (g_frame _ _ _ _ _ G1) | | done].
    intros Hq1. eapply elem_of_submseteq in Hq1; [| apply (g_tab _ _ _ _ _ G1)].
    apply elem_of_app in Hq1. tauto.
Qed.

Lemma grows_nodup ts p h h' ns :
  grows ts p h h' ns -> NoDup (tables ts h p) -> NoDup ns -> (forall q, q ∈ ns -> q ∉ tables ts h p) ->
  NoDup (tables ts h' p).
Proof.
  intros G Hn Hns Hd. eapply submseteq_NoDup; [apply (g_tab _ _ _ _ _ G) |].
  apply NoDup_app. split; [done |]. split; [| done]. intros q Hq Hq'. by apply (Hd q).
Qed.

(** ** Changing entries of one table *)

(** Entries of the root are changed, none of them to a new table. *)
Lemma set_entries t ts p h es es' :
  shaped (t :: ts) h p -> NoDup (tables (t :: ts) h p) -> h !! p = Some es -> length es' = length es ->
  (forall k e, es' !! k = Some e -> es !! k = Some e \/ is_table (Level_Id (t :: ts)) e = false) ->
  grows (t :: ts) p h (<[p := es']> h) [] /\
  forall a, translate (t :: ts) (<[p := es']> h) p a =
    match es' !! Z.to_nat (ix t a) with
    | None => None
    | Some e => if negb (is_valid e) then None
                else if is_leaf (Level_Id (t :: ts)) e then Some (Level_Id (t :: ts), e)
                else translate ts h (child e) a
    end.
Proof.
  intros Hs Hn Hp Hlen Hes. set (l := Level_Id (t :: ts)) in *.
  pose proof (entries_eq _ _ _ Hp) as Ee.
  assert (entries (<[p := es']> h) p = es') as Ee' by (unfold entries; by rewrite lookup_insert_eq).
  assert (forall e, e ∈ es -> is_table l e = true -> forall q, q ∈ tables ts h (child e) ->
            (<[p := es']> h) !! q = h !! q) as Hfr.
  { intros e He Ht q Hq. apply lookup_insert_ne. intros <-. cbn [tables] in Hn.
    apply NoDup_cons_1_1 in Hn. apply Hn. rewrite Ee. eapply elem_of_subtree; eauto. }
  assert (forall e, e ∈ es' -> is_table l e = true -> e ∈ es) as Hin.
  { intros e [k Hk]%list_elem_of_lookup_1 Ht. destruct (Hes k e Hk) as [? | Hf]; [by eapply list_elem_of_lookup_2 |].
    congruence. }
  split; [split |].
  - cbn [shaped] in *. rewrite Ee, Ee' in *. destruct Hs as (Hl & _ & Hc). rewrite lookup_insert_eq.
    split; [by rewrite Hlen |]. split; [done |]. intros e He Ht. eapply shaped_frame; [apply Hfr | apply Hc]; auto.
  - rewrite app_nil_r. cbn [tables]. rewrite Ee, Ee'. fold l. apply submseteq_skip.
    rewrite (map_ext_in (subtree ts l (<[p := es']> h)) (subtree ts l h)).
    + apply concat_map_submseteq; [done |]. intros k e Hk. destruct (Hes k e Hk) as [? | ->]; auto.
    + intros x Hx%list_elem_of_In. destruct (is_table l x) eqn:Ht; [| done].
      apply tables_frame. apply Hfr; auto.
  - intros q Hq _. apply lookup_insert_ne. intros <-. apply Hq. by left.
  - intros a. cbn [translate]. rewrite Ee'. fold l. destruct (es' !! Z.to_nat (ix t a)) as [e|] eqn:He; [| done].
    destruct (is_valid e) eqn:Hv; simpl; [| done]. destruct (is_leaf l e) eqn:Hl; [done |].
    assert (is_table l e = true) as Ht by (unfold is_table; by rewrite Hv, Hl).
    apply translate_frame. apply Hfr; [| done]. apply Hin; [by eapply list_elem_of_lookup_2 | done].
Qed.

(** ** Changing a subtree *)

Lemma NoDup_child t ts h p : NoDup (tables (t :: ts) h p) ->
  p ∉ concat (map (subtree ts (Level_Id (t :: ts)) h) (entries h p)) /\
  NoDup (concat (map (subtree ts (Level_Id (t :: ts)) h) (entries h p))).
Proof. intros Hn. cbn [tables] in Hn. by apply NoDup_cons in Hn. Qed.

Lemma NoDup_subtree ts l h es i e :
  NoDup (concat (map (subtree ts l h) es)) -> es !! i = Some e -> is_table l e = true ->
  NoDup (tables ts h (child e)).
Proof.
  intros Hn Hi Ht. rewrite <- (take_drop_middle es i e Hi), map_app, concat_app in Hn. cbn [map concat] in Hn.
  apply NoDup_app in Hn as (_ & _ & Hn). apply NoDup_app in Hn as (Hn & _). by rewrite Ht in Hn.
Qed.

(** The translation below an entry of a level. *)
Definition entry_translate (l : Z) (ts : list Traits) (h : heap) (e a : Z) : option (Z * Z) :=
  if negb (is_valid e) then None
  else if is_leaf l e then Some (l, e) else translate ts h (child e) a.

(** One entry of the root and the tables below it are exchanged: this acts on
    the addresses of that entry only. *)
Lemma replace_step t ts p h h' es i e e' ns :
  let l := Level_Id (t :: ts) in
  shaped (t :: ts) h p -> h !! p = Some es -> es !! i = Some e -> h' !! p = Some (<[i := e']> es) ->
  (forall k x q, es !! k = Some x -> k <> i -> is_table l x = true -> q ∈ tables ts h (child x) ->
     h' !! q = h !! q) ->
  (is_table l e' = true -> shaped ts h' (child e')) ->
  subtree ts l h' e' ⊆+ subtree ts l h e ++ ns ->
  (forall q, q ∉ tables (t :: ts) h p -> q ∉ ns -> h' !! q = h !! q) ->
  grows (t :: ts) p h h' ns /\
  forall a, translate (t :: ts) h' p a =
    if decide (Z.to_nat (ix t a) = i) then entry_translate l ts h' e' a else translate (t :: ts) h p a.
Proof.
  intros l Hs Hp Hi Hp' Hfr Hse Hsub Hq.
  pose proof (entries_eq _ _ _ Hp) as Ee.
  assert (entries h' p = <[i := e']> es) as Ee' by (unfold entries; by rewrite Hp').
  assert (i < length es)%nat as Hil by (by eapply lookup_lt_Some).
  assert (forall k x, es !! k = Some x -> k <> i -> subtree ts l h' x = subtree ts l h x) as Hsb.
  { intros k x Hk Hne. destruct (is_table l x) eqn:Hx; [| done]. apply tables_frame. intros q. by eapply Hfr. }
  split; [split |].
  - cbn [shaped] in *. rewrite Ee, Ee' in *. destruct Hs as (Hl & _ & Hc). split; [by rewrite length_insert |].
    split; [by rewrite Hp' |]. intros x [k Hk]%list_elem_of_lookup_1 Hx. destruct (decide (k = i)) as [-> |].
    + rewrite list_lookup_insert_eq in Hk by done. simplify_eq. auto.
    + rewrite list_lookup_insert_ne in Hk by done. apply (shaped_frame ts h h').
      * intros q. by eapply Hfr.
      * apply Hc; [by eapply list_elem_of_lookup_2 | done].
  - rewrite !tables_cons, <- app_comm_cons, Ee, Ee'. fold l. apply submseteq_skip.
    rewrite <- (take_drop_middle es i e Hi) at 2. rewrite insert_take_drop by done.
    rewrite !map_app, !concat_app. cbn [map concat].
    rewrite (map_ext_in (subtree ts l h') (subtree ts l h) (take i es)),
      (map_ext_in (subtree ts l h') (subtree ts l h) (drop (S i) es)).
    + rewrite <- !app_assoc. apply submseteq_app; [done |].
      etrans; [apply submseteq_app; [exact Hsub | done] |].
      rewrite <- !app_assoc. apply submseteq_app; [done |]. by rewrite (Permutation_app_comm ns).
    + intros x [k Hk]%list_elem_of_In%list_elem_of_lookup_1. rewrite lookup_drop in Hk.
      apply (Hsb (S i + k)%nat); [done | lia].
    + intros x [k Hk]%list_elem_of_In%list_elem_of_lookup_1. apply lookup_take_Some in Hk as [Hk ?].
      apply (Hsb k); [done | lia].
  - done.
  - intros a. cbn [translate]. rewrite Ee, Ee'. fold l. destruct (decide (Z.to_nat (ix t a) = i)) as [-> |].
    + by rewrite list_lookup_insert_eq by done.
    + rewrite list_lookup_insert_ne by done. destruct (es !! Z.to_nat (ix t a)) as [x|] eqn:Hx; [| done].
      destruct (is_valid x) eqn:Hv; simpl; [| done]. destruct (is_leaf l x) eqn:Hlf; [done |].
      apply translate_frame. intros q. eapply Hfr; [done | done |]. unfold is_table. by rewrite Hv, Hlf.
Qed.

(** A change below an entry. *)
Lemma child_step t ts p h h' es i e ns :
  shaped (t :: ts) h p -> NoDup (tables (t :: ts) h p) -> h !! p = Some es -> es !! i = Some e ->
  is_table (Level_Id (t :: ts)) e = true -> grows ts (child e) h h' ns ->
  (forall q, q ∈ ns -> q ∉ tables (t :: ts) h p) ->
  grows (t :: ts) p h h' ns /\ h' !! p = Some es /\
  forall a, translate (t :: ts) h' p a =
    if decide (Z.to_nat (ix t a) = i) then translate ts h' (child e) a else translate (t :: ts) h p a.
Proof.
  intros Hs Hn Hp Hi Ht G Hns. set (l := Level_Id (t :: ts)) in *.
  destruct (NoDup_child _ _ _ _ Hn) as [Hpc Hnc]. fold l in Hpc, Hnc.
  pose proof (entries_eq _ _ _ Hp) as Ee. rewrite Ee in Hpc, Hnc.
  assert (forall k x q, es !! k = Some x -> is_table l x = true -> q ∈ tables ts h (child x) ->
            q ∈ concat (map (subtree ts l h) es)) as Hin.
  { intros k x q Hk Hx Hq. eapply elem_of_subtree; [by eapply list_elem_of_lookup_2 | done..]. }
  assert (h' !! p = Some es) as Hp'.
  { rewrite (g_frame _ _ _ _ _ G); [done | by intros Hq%(Hin _ _ _ Hi Ht) |].
    intros Hq. apply (Hns p Hq). by left. }
  destruct (replace_step t ts p h h' es i e e ns Hs Hp Hi) as [G' Htr].
  - by rewrite list_insert_id.
  - fold l. intros k x q Hk Hne Hx Hq. apply (g_frame _ _ _ _ _ G).
    + apply (NoDup_concat_disjoint (subtree ts l h) es k i x e q Hnc) in Hi as Hd; try done.
      * by rewrite Ht in Hd.
      * by rewrite Hx.
    + intros Hq'. apply (Hns q Hq'). cbn [tables]. right. rewrite Ee. by eapply Hin.
  - intros _. apply G.
  - fold l. rewrite Ht. apply G.
  - intros q Hq Hnq. apply (g_frame _ _ _ _ _ G); [| done]. intros Hq'. apply Hq. cbn [tables]. right.
    rewrite Ee. by eapply Hin.
  - split; [done |]. split; [done |]. intros a. rewrite Htr. fold l. destruct (decide _); [| done].
    unfold entry_translate, is_table in *. apply andb_true_iff in Ht as [-> Hlf]. apply negb_true_iff in Hlf.
    by rewrite Hlf.
Qed.

(** A table all of whose entries are zero translates nothing. *)
Lemma empty_table t ts h n len :
  Z.of_nat len = 2 ^ Size t -> h !! n = Some (replicate len 0) ->
  shaped (t :: ts) h n /\ tables (t :: ts) h n = [n] /\ forall a, translate (t :: ts) h n a = None.
Proof.
  intros Hlen Hn. assert (entries h n = replicate len 0) as Ee by (unfold entries; by rewrite Hn).
  assert (forall l, is_table l 0 = false) as H0t by (intros; unfold is_table; by rewrite invalid_0).
  split; [| split].
  - cbn [shaped]. rewrite Ee, length_replicate, Hn. split; [done |]. split; [done |].
    intros e [-> _]%elem_of_replicate. by rewrite H0t.
  - cbn [tables]. rewrite Ee. f_equal. clear Hlen Hn Ee. induction len; [done |]. cbn. by rewrite H0t.
  - intros a. cbn [translate]. rewrite Ee. destruct (replicate len 0 !! Z.to_nat (ix t a)) as [e|] eqn:He; [| done].
    apply lookup_replicate in He as [-> _]. by rewrite invalid_0.
Qed.

(** A new empty table below an entry that was not valid: the translation stays
    the same. *)
Lemma alloc_step t t' ts p h es i e n len :
  shaped (t :: t' :: ts) h p -> NoDup (tables (t :: t' :: ts) h p) -> h !! p = Some es ->
  es !! i = Some e -> is_valid e = false -> n ∉ tables (t :: t' :: ts) h p -> table_addr n ->
  Z.of_nat len = 2 ^ Size t' ->
  let e' := set_next_level (to_phys n) in
  let h' := <[p := <[i := e']> es]> (<[n := replicate len 0]> h) in
  grows (t :: t' :: ts) p h h' [n] /\ is_table (Level_Id (t :: t' :: ts)) e' = true /\ child e' = n /\
  forall a, translate (t :: t' :: ts) h' p a = translate (t :: t' :: ts) h p a.
Proof.
  intros Hs Hn Hp Hi Hv Hnt (Hpm & Hr & Hal) Hlen e' h'. set (l := Level_Id (t :: t' :: ts)).
  assert (l <> 0) as Hl by (unfold l, Level_Id; cbn; lia).
  assert (is_table l e' = true) as Ht.
  { unfold is_table, e'. by rewrite set_next_valid, set_next_table by done. }
  assert (child e' = n) as Hc by (unfold child, e'; by rewrite next_set_next).
  assert (n <> p) as Hnp by (intros ->; apply Hnt; by left).
  pose proof (entries_eq _ _ _ Hp) as Ee.
  assert (forall k x q, es !! k = Some x -> is_table l x = true -> q ∈ tables (t' :: ts) h (child x) ->
            q ∈ concat (map (subtree (t' :: ts) l h) es)) as Hin.
  { intros k x q Hk Hx Hq. eapply elem_of_subtree; [by eapply list_elem_of_lookup_2 | done..]. }
  destruct (empty_table t' ts h' n len) as (Hs1 & Ht1 & Htr1); [done | |].
  { unfold h'. rewrite lookup_insert_ne, lookup_insert_eq by done. done. }
  assert (is_table l e = false) as Hte by (unfold is_table; by rewrite Hv).
  destruct (replace_step t (t' :: ts) p h h' es i e e' [n] Hs Hp Hi) as [G Htr].
  - unfold h'. by rewrite lookup_insert_eq.
  - intros k x q Hk Hne Hx Hq%(Hin _ _ _ Hk Hx). unfold h'. rewrite !lookup_insert_ne; [done | |].
    + intros ->. apply Hnt. cbn [tables]. right. by rewrite Ee.
    + intros ->. destruct (NoDup_child _ _ _ _ Hn) as [Hpc _]. apply Hpc. by rewrite Ee.
  - by rewrite Hc.
  - fold l. by rewrite Ht, Hc, Hte, Ht1.
  - intros q Hq Hnq. unfold h'. rewrite !lookup_insert_ne; [done | |].
    + intros ->. apply Hnq. by left.
    + intros ->. apply Hq. by left.
  - split; [done |]. split; [done |]. split; [done |]. intros a. rewrite Htr. fold l.
    destruct (decide (Z.to_nat (ix t a) = i)) as [He |]; [| done].
    cbn [translate]. fold l. rewrite Ee, He, Hi, Hv. unfold entry_translate. cbn [negb].
    unfold is_table in Ht. apply andb_true_iff in Ht as [-> Hlf].
    apply negb_true_iff in Hlf. rewrite Hlf, Hc. apply Htr1.
Qed.
End tree.
