(* ===== verification/PtabMap.v ===== *)
(** Page tables: walking with allocation and mapping a range, against the
    translation they are to give. *)

From S2P Require Import Prelude Outcome Ptab PtabInv.

Section state.
Context `{Arch, PO : Pte_ops, PL : !Pte_laws, MO : Mem_ops} {A : Type} `{AO : !Alloc_ops A, AL : !Alloc_laws A}.

(** * The state of the tables and of the allocator *)

(** A hierarchy all of whose tables are known to the allocator as in use;
    [live] has these and whatever else is in use. *)
Record mem_pre (ts : list Traits) (p : Z) (s : state A) (live : list Z) : Prop := {
  mp_tree : tree_ok ts (tabs s) p;
  mp_live : forall q, q ∈ tables ts (tabs s) p -> q ∈ live;
  mp_alloc : alloc_ok (al s) live }.

(** A step that took the tables [ns] from the allocator. *)
Record mem_post (ts : list Traits) (p : Z) (s s' : state A) (live ns : list Z) : Prop := {
  po_grows : grows ts p (tabs s) (tabs s') ns;
  po_nodup : NoDup ns;
  po_fresh : forall q, q ∈ ns -> q ∉ live;
  po_alloc : alloc_ok (al s') (ns ++ live) }.

(** The allocator's last answer was that there is no memory. *)
Definition dry (s : state A) : Prop := alloc_valid = false \/ exists a sz, alloc a sz = (None, al s).

Lemma mem_post_pre ts p s s' live ns :
  mem_pre ts p s live -> mem_post ts p s s' live ns -> mem_pre ts p s' (ns ++ live).
Proof.
  intros [[Hs Hn] Hl Ha] [G Hnd Hf Ha']. split; [| | done].
  - split; [apply G |]. apply (grows_nodup _ _ _ _ _ G Hn Hnd). intros q Hq Hq'. apply (Hf q Hq); auto.
  - intros q Hq. eapply elem_of_submseteq in Hq; [| apply (g_tab _ _ _ _ _ G)].
    apply elem_of_app in Hq as [? | ?]; apply elem_of_app; auto.
Qed.

Lemma mem_post_refl ts p s live : mem_pre ts p s live -> mem_post ts p s s live [].
Proof. intros [[] ? ?]. split; [by apply grows_refl | constructor | by intros ? ?%elem_of_nil | done]. Qed.

Lemma mem_post_trans ts p s s1 s2 live ns1 ns2 :
  mem_post ts p s s1 live ns1 -> mem_post ts p s1 s2 (ns1 ++ live) ns2 ->
  mem_post ts p s s2 live (ns2 ++ ns1).
Proof.
  intros [G1 N1 F1 A1] [G2 N2 F2 A2]. split.
  - by eapply grows_trans.
  - apply NoDup_app. split; [done |]. split; [| done]. intros q Hq Hq'. apply (F2 q Hq). apply elem_of_app. auto.
  - intros q [Hq | Hq]%elem_of_app; [| by apply F1]. intros Hl. apply (F2 q Hq). apply elem_of_app. auto.
  - by rewrite <- app_assoc.
Qed.

(** ** Below an entry *)

Lemma pre_root t ts p s live : mem_pre (t :: ts) p s live ->
  exists es, tabs s !! p = Some es /\ Z.of_nat (length es) = 2 ^ Size t.
Proof.
  intros [[(Hlen & [es Hes] & _) _] _ _]. exists es. split; [done |]. unfold entries in Hlen.
  by rewrite Hes in Hlen.
Qed.

Lemma mem_pre_child t ts p s live es i e :
  mem_pre (t :: ts) p s live -> tabs s !! p = Some es -> es !! i = Some e ->
  is_table (Level_Id (t :: ts)) e = true -> mem_pre ts (child e) s live.
Proof.
  intros [[Hs Hn] Hl Ha] Hp Hi Ht.
  pose proof (entries_eq _ _ _ Hp) as Ee.
  destruct (NoDup_child _ _ _ _ Hn) as [_ Hnc]. rewrite Ee in Hnc.
  assert (e ∈ es) as He by (by eapply list_elem_of_lookup_2).
  split; [split | | done].
  - cbn [shaped] in Hs. rewrite Ee in Hs. by apply Hs.
  - by apply (NoDup_subtree _ _ _ _ _ _ Hnc Hi Ht).
  - intros q Hq. apply Hl. cbn [tables]. right. rewrite Ee. eapply elem_of_subtree; eauto.
Qed.

Lemma mem_post_child t ts p s s' live ns es i e :
  mem_pre (t :: ts) p s live -> tabs s !! p = Some es -> es !! i = Some e ->
  is_table (Level_Id (t :: ts)) e = true -> mem_post ts (child e) s s' live ns ->
  mem_post (t :: ts) p s s' live ns /\ tabs s' !! p = Some es /\
  forall a, translate (t :: ts) (tabs s') p a =
    if decide (Z.to_nat (ix t a) = i) then translate ts (tabs s') (child e) a
    else translate (t :: ts) (tabs s) p a.
Proof.
  intros [[Hs Hn] Hl Ha] Hp Hi Ht [G N F A'].
  destruct (child_step t ts p (tabs s) (tabs s') es i e ns Hs Hn Hp Hi Ht G) as (G' & Hp' & Htr).
  { intros q Hq Hq'. apply (F q Hq). auto. }
  split; [by split | done].
Qed.

(** ** Allocation of a table *)

Lemma alloc_next_ok t t' ts p s live es i e :
  level_ok t' -> mem_pre (t :: t' :: ts) p s live -> tabs s !! p = Some es ->
  0 <= i -> es !! Z.to_nat i = Some e -> is_valid e = false ->
  let l := Level_Id (t :: t' :: ts) in
  exists r s', alloc_next (mkPte p (i * entry_size) l) (ld t') (size_of (t' :: ts)) s = Done (r, s') /\
  match r with
  | None => tabs s' = tabs s /\ alloc_ok (al s') live /\ dry s'
  | Some n => mem_post (t :: t' :: ts) p s s' live [n] /\
      (forall a, translate (t :: t' :: ts) (tabs s') p a = translate (t :: t' :: ts) (tabs s) p a) /\
      exists es' e', tabs s' !! p = Some es' /\ es' !! Z.to_nat i = Some e' /\
        is_table l e' = true /\ child e' = n /\ Forall (fun x => is_valid x = false) (entries (tabs s') n)
  end.
Proof.
  intros Hl [[Hs Hn] Hlv Ha] Hp Hi0 Hi Hv l. unfold alloc_next.
  destruct (alloc (al s) (size_of (t' :: ts))) as [[[n c]|] a'] eqn:Eal.
  2:{ exists None, (mkState (tabs s) a'). split; [done |]. split; [done |]. split; [by eapply alloc_none |]. right. by eexists _, _. }
  destruct (alloc_some _ _ _ _ _ _ Ha Eal) as (Hnl & Hta & Hc & Ha').
  assert (n ∉ tables (t :: t' :: ts) (tabs s) p) as Hnt by auto.
  assert (n <> p) as Hnp by (intros ->; apply Hnt; by left).
  assert (Z.of_nat (length c) = 2 ^ Size t') as Hcl.
  { rewrite Hc. cbn [size_of]. pose proof (size_small t' Hl). rewrite Z.shiftl_mul_pow2 by lia.
    rewrite Z.mul_comm, Z.div_mul; [done |]. destruct entry_size_ok; lia. }
  assert (Z.to_nat i < length es)%nat as Hil by (by eapply lookup_lt_Some).
  rewrite (impl_clear_ok t' _ _ c) by (done || by rewrite lookup_insert_eq). cbn [obind].
  rewrite insert_insert_eq. cbn [pte_table pte_offset].
  rewrite (write_entry_slot _ _ es) by (lia || by rewrite lookup_insert_ne). cbn [obind].
  destruct (alloc_step t t' ts p (tabs s) es (Z.to_nat i) e n (length c)) as (G & Ht & Hch & Htr); [done.. |].
  eexists (Some n), _. split; [reflexivity |]. cbn [tabs al]. split; [| split; [done |]].
  - split; [done | apply NoDup_singleton | by intros q ->%list_elem_of_singleton | done].
  - eexists _, _. rewrite lookup_insert_eq. split; [done |]. split; [by rewrite list_lookup_insert_eq |].
    split; [done |]. split; [done |]. unfold entries. rewrite lookup_insert_ne, lookup_insert_eq by done.
    apply Forall_replicate, invalid_0.
Qed.
End state.

(** * Page numbers *)

(** Numbers with a leading digit compare by that digit first. *)
Lemma digit_le m k r k' r' : 0 <= r < m -> 0 <= r' < m -> k * m + r <= k' * m + r' -> k <= k'.
Proof. intros. destruct (Z.le_gt_cases k k'); [done |]. assert ((k' + 1) * m <= k * m) by nia. lia. Qed.

Lemma digit_lt m k r k' r' : 0 <= r < m -> 0 <= r' < m -> k < k' -> k * m + r < k' * m + r'.
Proof. intros. assert ((k + 1) * m <= k' * m) by nia. lia. Qed.

(** The number of the page of size [2^s] that holds an address, counted from
    the start of the table of level [t]. *)
Definition pg (t : Traits) (s a : Z) : Z := (a mod 2 ^ (Shift t + Size t)) / 2 ^ s.

Section pages.
Context `{Arch, PO : Pte_ops, PL : !Pte_laws, MO : Mem_ops}.

Lemma div_mod_pow2 a x y : 0 <= x -> 0 <= y -> (a mod 2 ^ (x + y)) / 2 ^ x = (a / 2 ^ x) mod 2 ^ y.
Proof.
  intros. rewrite <- !Z.land_ones, <- !Z.shiftr_div_pow2 by lia. bits_ext.
Qed.

Lemma ix_pg t a : level_ok t -> ix t a = pg t (Shift t) a.
Proof. intros (? & ? & _). unfold ix, pg. by rewrite div_mod_pow2 by lia. Qed.

Lemma pg_range t s a : level_ok t -> 0 <= s <= Shift t -> 0 <= pg t s a < 2 ^ (Shift t + Size t - s).
Proof.
  intros (? & ? & _) ?. unfold pg.
  replace (Shift t + Size t) with (s + (Shift t + Size t - s)) at 1 2 by lia.
  rewrite div_mod_pow2 by lia. apply Z.mod_pos_bound, pow2_pos. lia.
Qed.

(** Page numbers in a directory are made of the index of the entry and the
    page number in the table below. *)
Lemma pg_split t t' s a :
  level_ok t -> level_ok t' -> Shift t = Shift t' + Size t' -> 0 <= s <= Shift t' ->
  pg t s a = ix t a * 2 ^ (Shift t - s) + pg t' s a.
Proof.
  intros (? & ? & _) (? & ? & _) Heq ?. unfold pg, ix. rewrite <- Heq.
  replace (Shift t + Size t) with (s + (Shift t - s + Size t)) by lia.
  replace (2 ^ Shift t) with (2 ^ (s + (Shift t - s))) by (f_equal; lia).
  rewrite !div_mod_pow2 by lia. rewrite !Z.pow_add_r by lia.
  rewrite <- Z.div_div by (apply Z.pow_nonzero || apply pow2_pos; lia).
  rewrite Z.rem_mul_r by (apply Z.pow_nonzero || apply pow2_pos; lia). lia.
Qed.

Lemma pg_lt_split t t' s a :
  level_ok t' -> Shift t = Shift t' + Size t' -> 0 <= s <= Shift t' -> 0 <= pg t' s a < 2 ^ (Shift t - s).
Proof. intros Hl -> ?. by apply pg_range. Qed.

(** The translation of a hierarchy depends on the bits its levels cover. *)
Lemma translate_congr t ts h p a b :
  levels_ok (t :: ts) -> a mod 2 ^ (Shift t + Size t) = b mod 2 ^ (Shift t + Size t) ->
  translate (t :: ts) h p a = translate (t :: ts) h p b.
Proof.
  revert t p. induction ts as [|t' ts IH]; intros t p [Hl Hls] Hab.
  - cbn [translate]. assert (ix t a = ix t b) as -> by (rewrite !ix_pg by done; unfold pg; by rewrite Hab). done.
  - destruct Hls as (Hsh & _ & Hls). cbn [translate].
    assert (ix t a = ix t b) as -> by (rewrite !ix_pg by done; unfold pg; by rewrite Hab).
    destruct (entries h p !! Z.to_nat (ix t b)) as [e|]; [| done].
    destruct (negb (is_valid e)); [done |]. destruct (is_leaf _ e); [done |]. apply IH; [done |].
    destruct Hl as (? & ? & _). rewrite <- Hsh.
    rewrite <- (Z.mod_mod_divide a (2 ^ (Shift t + Size t))), <- (Z.mod_mod_divide b (2 ^ (Shift t + Size t))), Hab; [done | |].
    all: exists (2 ^ Size t); rewrite Z.pow_add_r by lia; lia.
Qed.

Lemma Level_get_cons t t' ts level : level <> Level_Id (t :: t' :: ts) ->
  Level_get (t :: t' :: ts) level = Level_get (t' :: ts) level.
Proof. intros Hne. cbn [Level_get]. by rewrite (proj2 (Z.eqb_neq _ _) Hne). Qed.

(** The level that a number names. *)
Lemma Level_get_spec ts level tt :
  levels_ok ts -> Level_get ts level = Some tt -> level_ok tt /\
  match ts with [] => False | t :: _ => Shift tt <= Shift t end.
Proof.
  induction ts as [|t ts IH]; [done |]. intros [Hl Hls]. cbn [Level_get]. destruct ts as [|t' ts].
  - intros [= ->]. split; [done | lia].
  - destruct (level =? _).
    + intros [= ->]. split; [done | lia].
    + destruct Hls as (Hsh & _ & Hls). intros Hg. destruct (IH Hls Hg) as [? ?]. split; [done |].
      destruct Hls as [(? & ? & _) _]. lia.
Qed.
End pages.

(** * Mapping a range *)

Section map.
Context `{Arch, PO : Pte_ops, PL : !Pte_laws, MO : Mem_ops} {A : Type} `{AO : !Alloc_ops A, AL : !Alloc_laws A}.

(** Templates that make valid leaf entries of a level. *)
Definition tmpl_ok (level tmpl : Z) : Prop :=
  forall pa, is_mword pa -> pa mod 2 ^ next_low = 0 ->
    is_valid (for_pa tmpl pa) = true /\ is_leaf level (for_pa tmpl pa) = true.

Lemma aligned_step phys k n : next_low <= n <= MWORD_BITS ->
  phys mod 2 ^ next_low = 0 -> mwrap (phys + k * 2 ^ n) mod 2 ^ next_low = 0.
Proof.
  intros Hn Hp. pose proof next_low_ok. unfold mwrap, wrap.
  rewrite Z.mod_mod_divide by (exists (2 ^ (MWORD_BITS - next_low)); rewrite <- Z.pow_add_r by lia; f_equal; lia).
  replace (2 ^ n) with (2 ^ (n - next_low) * 2 ^ next_low) by (rewrite <- Z.pow_add_r by lia; f_equal; lia).
  rewrite Z.mul_assoc, Z.mod_add by (apply Z.pow_nonzero; lia). done.
Qed.

Lemma impl_map_target t ts p s live phys virt ve tmpl :
  levels_ok (t :: ts) -> mem_pre (t :: ts) p s live -> is_mword phys -> phys mod 2 ^ next_low = 0 ->
  tmpl_ok (Level_Id (t :: ts)) tmpl -> ix t virt <= ix t ve ->
  let P := 2 ^ (Shift t + Base_shift t) in
  exists s', impl_map_st (ld t) p phys virt ve tmpl s = Done (mwrap ((ix t ve - ix t virt + 1) * P), s') /\
    mem_post (t :: ts) p s s' live [] /\
    forall a, translate (t :: ts) (tabs s') p a =
      if decide (ix t virt <= ix t a <= ix t ve)
      then Some (Level_Id (t :: ts), for_pa tmpl (mwrap (phys + (ix t a - ix t virt) * P)))
      else translate (t :: ts) (tabs s) p a.
Proof.
  intros [Hl _] Hpre Hphys Hal Ht Hle P. destruct (pre_root _ _ _ _ _ Hpre) as (es & Hp & Hlen).
  pose proof (ix_range t virt Hl). pose proof (ix_range t ve Hl).
  assert (mwrap (1 << (Shift t + Base_shift t)) = P) as HP by (apply mshl_1; unfold level_ok in Hl; lia).
  unfold impl_map_st, impl_map. cbn [_shift base_shift ld make_Ldesc]. rewrite HP.
  rewrite !ld_offset by done. rewrite !(offset_32 t) by (done || lia).
  destruct (impl_map_loop_ok t (table_fuel (ld t)) (tabs s) p es (ix t virt) (ix t ve) phys P tmpl)
    as (es' & -> & Hlen' & Hk); [done.. | lia | lia | | done |].
  { unfold table_fuel. rewrite ld_length by done. lia. }
  cbn [obind]. destruct Hpre as [[Hs Hn] Hlv Ha].
  destruct (set_entries t ts p (tabs s) es es' Hs Hn Hp Hlen') as [G Htr].
  { intros k e He. rewrite Hk in He. destruct (decide _) as [[Hd _] |]; [| by left]. right. injection He as <-.
    unfold is_table. destruct (Ht (mwrap (phys + (Z.of_nat k - ix t virt) * P))) as [_ ->].
    - apply mwrap_range.
    - apply aligned_step; [unfold level_ok in Hl; lia | done].
    - by rewrite andb_false_r. }
  eexists. split; [| split].
  - do 3 f_equal. unfold msub, mwrap, wrap. rewrite Zminus_mod_idemp_l. f_equal. lia.
  - split; [exact G | constructor | by intros q ?%elem_of_nil | done].
  - intros a. cbn [with_tabs tabs]. rewrite Htr. pose proof (ix_range t a Hl). rewrite Hk, Z2Nat.id by lia.
    destruct (decide (ix t virt <= ix t a <= ix t ve)).
    + rewrite decide_True by lia. destruct (Ht (mwrap (phys + (ix t a - ix t virt) * P))) as [-> ->]; [| | done].
      * apply mwrap_range.
      * apply aligned_step; [unfold level_ok in Hl; lia | done].
    + rewrite decide_False by lia. cbn [translate]. unfold entries. by rewrite Hp.
Qed.

(** Whether the physical addresses of a range are right: above the directory
    whose entries point to the tables that are filled, the range must stay in
    one entry, because [map] adds to the physical address only what the last
    table below an entry has mapped. *)
Fixpoint contiguous (ts : list Traits) (level virt ve : Z) : Prop :=
  match ts with
  | [] => True
  | t :: ts' => Level_Id ts <= level + 1 \/ ix t virt = ix t ve /\ contiguous ts' level virt ve
  end.

(** What mapping in the hierarchy with the head level [t] achieves: [tt] is
    the level of the pages. *)
Definition map_post (ts : list Traits) (t tt : Traits) (level p phys virt ve tmpl ms : Z)
  (s s' : state A) (live : list Z) : Prop :=
  exists ns, mem_post ts p s s' live ns /\
  (forall a, ~ (pg t (Shift tt) virt <= pg t (Shift tt) a <= pg t (Shift tt) ve) ->
     translate ts (tabs s') p a = translate ts (tabs s) p a) /\
  (ms <> 0 -> forall a, pg t (Shift tt) virt <= pg t (Shift tt) a <= pg t (Shift tt) ve ->
     exists pa, translate ts (tabs s') p a = Some (level, for_pa tmpl pa) /\
       (contiguous ts level virt ve ->
        pa = mwrap (phys + (pg t (Shift tt) a - pg t (Shift tt) virt) * 2 ^ (Shift tt + Base_shift tt)))) /\
  ms mod 2 ^ next_low = 0 /\
  (level = Level_Id ts ->
   ms = mwrap ((pg t (Shift tt) ve - pg t (Shift tt) virt + 1) * 2 ^ (Shift tt + Base_shift tt))) /\
  (ms = 0 -> level < Level_Id ts \/ Shift t + Size t + Base_shift t < MWORD_BITS -> dry s').

Lemma mapped_nonzero t virt ve :
  level_ok t -> ix t virt <= ix t ve -> Shift t + Size t + Base_shift t < MWORD_BITS ->
  mwrap ((ix t ve - ix t virt + 1) * 2 ^ (Shift t + Base_shift t)) <> 0.
Proof.
  intros Hl Hle Hw. pose proof (ix_range t virt Hl). pose proof (ix_range t ve Hl). destruct Hl as (? & ? & ? & ? & ? & _).
  set (n := ix t ve - ix t virt + 1). assert (0 < n <= 2 ^ Size t) by lia.
  assert (0 < 2 ^ (Shift t + Base_shift t)) by (apply pow2_pos; lia).
  assert (2 ^ Size t * 2 ^ (Shift t + Base_shift t) < 2 ^ MWORD_BITS).
  { rewrite <- Z.pow_add_r by lia. apply Z.pow_lt_mono_r; lia. }
  assert (n * 2 ^ (Shift t + Base_shift t) <= 2 ^ Size t * 2 ^ (Shift t + Base_shift t)) by (apply Z.mul_le_mono_nonneg_r; lia).
  unfold mwrap, wrap. rewrite Z.mod_small by nia. nia.
Qed.

Lemma map_target t ts p s live phys virt ve tmpl :
  levels_ok (t :: ts) -> mem_pre (t :: ts) p s live -> is_mword phys -> phys mod 2 ^ next_low = 0 ->
  tmpl_ok (Level_Id (t :: ts)) tmpl -> pg t (Shift t) virt <= pg t (Shift t) ve ->
  exists ms s', impl_map_st (ld t) p phys virt ve tmpl s = Done (ms, s') /\
    map_post (t :: ts) t t (Level_Id (t :: ts)) p phys virt ve tmpl ms s s' live.
Proof.
  intros Hls Hpre Hphys Hal Ht Hle. assert (level_ok t) as Hl by apply Hls.
  rewrite <- !ix_pg in Hle by done.
  destruct (impl_map_target t ts p s live phys virt ve tmpl Hls Hpre Hphys Hal Ht Hle) as (s' & -> & Hpost & Htr).
  eexists _, s'. split; [done |]. exists []. rewrite <- !ix_pg by done.
  split; [done |]. split; [| split; [| split; [| split; [done |]]]].
  4:{ intros Hz [? | Hw]; [lia |]. exfalso. apply (mapped_nonzero t virt ve); done. }
  3:{ rewrite <- (Z.add_0_l (_ * _)). apply aligned_step; [unfold level_ok in Hl; lia | by rewrite Z.mod_0_l by (apply Z.pow_nonzero; pose proof next_low_ok; lia)]. }
  - intros a Ha. rewrite <- ix_pg in Ha by done. rewrite Htr. by rewrite decide_False by done.
  - intros _ a Ha. rewrite <- ix_pg in Ha |- * by done. rewrite Htr, decide_True by done. eexists. done.
Qed.

(** The start and the end of the range of one directory entry. *)
Lemma entry_start t t' s k :
  level_ok t -> level_ok t' -> Shift t = Shift t' + Size t' -> 0 <= s <= Shift t' -> 0 <= k < 2 ^ Size t ->
  let v := mshl k (Shift t) in
  v = k * 2 ^ Shift t /\ ix t v = k /\ pg t' s v = 0 /\ pg t s v = k * 2 ^ (Shift t - s).
Proof.
  intros Hl Hl' Heq Hs Hk v. pose proof Hl' as (? & ? & _). pose proof Hl as (? & ? & ? & ? & Hrest).
  assert (v = k * 2 ^ Shift t) as Hv.
  { unfold v, mshl, mwrap. rewrite Z.shiftl_mul_pow2 by lia. apply wrap_small.
    assert (2 ^ (Shift t + Size t) <= 2 ^ MWORD_BITS) by (apply Z.pow_le_mono_r; lia).
    rewrite Z.pow_add_r in * by lia. assert (0 < 2 ^ Shift t) by (apply pow2_pos; lia). unfold in_range. nia. }
  assert (0 < 2 ^ Shift t) by (apply pow2_pos; lia).
  assert (ix t v = k) as Hi by (unfold ix; rewrite Hv, Z.div_mul, Z.mod_small by lia; done).
  assert (pg t' s v = 0) as Hp'.
  { unfold pg. rewrite <- Heq, Hv, Z.mod_mul by lia. apply Z.div_0_l, Z.pow_nonzero; lia. }
  split; [done |]. split; [done |]. split; [done |].
  rewrite (pg_split t t') by done. lia.
Qed.

Lemma entry_end t t' s k :
  level_ok t -> level_ok t' -> Shift t = Shift t' + Size t' -> 0 <= s <= Shift t' -> 0 <= k < 2 ^ Size t - 1 ->
  let v := msub (mshl (madd k 1) (Shift t)) 1 in
  madd k 1 = k + 1 /\ ix t v = k /\ pg t' s v = 2 ^ (Shift t - s) - 1.
Proof.
  intros Hl Hl' Heq Hs Hk v. pose proof Hl' as (? & ? & _). pose proof (size_small t Hl) as (? & ? & ?).
  assert (madd k 1 = k + 1) as Hk1.
  { apply wrap_small. assert (2 ^ Size t < 2 ^ MWORD_BITS) by (apply Z.pow_lt_mono_r; lia). unfold in_range. lia. }
  destruct (entry_start t t' s (k + 1)) as (Hv & _); [done.. | lia |].
  destruct Hl as (? & ? & ? & ? & Hrest).
  assert (0 < 2 ^ Shift t) by (apply pow2_pos; lia).
  assert (v = (k + 1) * 2 ^ Shift t - 1) as Hve.
  { unfold v. rewrite Hk1, Hv. apply wrap_small.
    assert (2 ^ (Shift t + Size t) <= 2 ^ MWORD_BITS) by (apply Z.pow_le_mono_r; lia).
    rewrite Z.pow_add_r in * by lia. unfold in_range. nia. }
  assert (v = k * 2 ^ Shift t + (2 ^ Shift t - 1)) as Hve' by lia.
  split; [done |]. split.
  - unfold ix. rewrite Hve'. rewrite (Z.add_comm (k * _)), Z.div_add, Z.div_small, Z.add_0_l, Z.mod_small by lia. done.
  - unfold pg. rewrite <- Heq, Hve', (Z.add_comm (k * _)), Z.mod_add, Z.mod_small by lia.
    replace (2 ^ Shift t - 1) with ((2 ^ (Shift t - s) - 1) * 2 ^ s + (2 ^ s - 1)).
    + assert (0 < 2 ^ s) by (apply pow2_pos; lia).
      rewrite (Z.add_comm (_ * _)), Z.div_add, Z.div_small by lia. lia.
    + replace (2 ^ Shift t) with (2 ^ (Shift t - s) * 2 ^ s) by (rewrite <- Z.pow_add_r by lia; f_equal; lia). lia.
Qed.

(** Steps before a mapping that leave the translation as it is. *)
Lemma map_post_before ts t tt level p phys virt ve tmpl ms s s1 s' live ns :
  mem_post ts p s s1 live ns -> (forall a, translate ts (tabs s1) p a = translate ts (tabs s) p a) ->
  map_post ts t tt level p phys virt ve tmpl ms s1 s' (ns ++ live) ->
  map_post ts t tt level p phys virt ve tmpl ms s s' live.
Proof.
  intros Hp Htr (ns' & Hp' & Hout & Hin & Hal & Hms). exists (ns' ++ ns). split; [by eapply mem_post_trans |].
  split; [| done]. intros a Ha. by rewrite Hout, Htr.
Qed.

(** A mapping that gave up without changing anything. *)
Lemma map_post_fail ts t tt level p phys virt ve tmpl s s' live :
  mem_pre ts p s live -> tabs s' = tabs s -> alloc_ok (al s') live -> level <> Level_Id ts -> dry s' ->
  map_post ts t tt level p phys virt ve tmpl 0 s s' live.
Proof.
  intros Hpre Hs Ha Hne Hdry. exists []. split; [| split; [by rewrite Hs | split; [done | split; [| done]]]].
  - destruct (mem_post_refl _ _ _ _ Hpre) as [G N F _]. split; [by rewrite Hs | done..].
  - apply Z.mod_0_l, Z.pow_nonzero; pose proof next_low_ok; lia.
Qed.

(** No page larger than the ones to be mapped is in the way. *)
Definition no_super (ts : list Traits) (t tt : Traits) (h : heap) (p virt ve level : Z) : Prop :=
  forall a l e, pg t (Shift tt) virt <= pg t (Shift tt) a <= pg t (Shift tt) ve ->
    translate ts h p a = Some (l, e) -> l <= level.

Section directory.
(** A directory of level [t] above tables of level [t']; the pages are of the
    level [tt], at or below [t']. *)
Context (t t' tt : Traits) (ts : list Traits) (level tmpl : Z).
Context (next : Z -> Z -> Z -> Z -> state A -> outcome (Z * state A)).

Abbreviation dir := (t :: t' :: ts).

Hypothesis Hls : levels_ok dir.
Hypothesis Htt : Shift tt <= Shift t' /\ level_ok tt.
Hypothesis Hlev : level < Level_Id dir.

Hypothesis Hnext : forall c phys virt ve s live,
  mem_pre (t' :: ts) c s live -> is_mword phys -> phys mod 2 ^ next_low = 0 ->
  pg t' (Shift tt) virt <= pg t' (Shift tt) ve -> no_super (t' :: ts) t' tt (tabs s) c virt ve level ->
  exists ms s', next c phys virt ve s = Done (ms, s') /\
    map_post (t' :: ts) t' tt level c phys virt ve tmpl ms s s' live.

Lemma dir_levels : level_ok t /\ level_ok t' /\ Shift t = Shift t' + Size t' /\ 0 <= Shift tt <= Shift t'.
Proof. destruct Hls as [? (? & _ & [? _])]. destruct Htt as [? (? & _)]. done. Qed.

Abbreviation M := (2 ^ (Shift t - Shift tt)).
Abbreviation P := (2 ^ (Shift tt + Base_shift tt)).

Lemma dir_pg a : pg t (Shift tt) a = ix t a * M + pg t' (Shift tt) a /\ 0 <= pg t' (Shift tt) a < M /\
  0 <= ix t a < 2 ^ Size t.
Proof.
  destruct dir_levels as (Hl & Hl' & Heq & Hs). split; [by apply pg_split |].
  split; [by apply pg_lt_split | by apply ix_range].
Qed.

(** The end of the part of a range that falls into the entry of its start. *)
Definition part_end (k K ve : Z) : Z := if k <? K then msub (mshl (madd k 1) (Shift t)) 1 else ve.

Lemma part_end_pg virt ve : pg t (Shift tt) virt <= pg t (Shift tt) ve ->
  let k := ix t virt in let K := ix t ve in let v := part_end k K ve in
  k <= K /\ pg t' (Shift tt) virt <= pg t' (Shift tt) v /\
  (k < K -> madd k 1 = k + 1 /\ pg t' (Shift tt) v = M - 1) /\ (k = K -> v = ve) /\
  forall a, ix t a = k -> (pg t' (Shift tt) virt <= pg t' (Shift tt) a <= pg t' (Shift tt) v <->
                           pg t (Shift tt) virt <= pg t (Shift tt) a <= pg t (Shift tt) ve).
Proof.
  intros Hle k K v. destruct (dir_pg virt) as (Ev & Rv & Iv). destruct (dir_pg ve) as (Ee & Re & Ie).
  fold k in Ev, Iv. fold K in Ee, Ie. destruct dir_levels as (Hl & Hl' & Heq & Hs).
  assert (k <= K) as HkK by (apply (digit_le M k (pg t' (Shift tt) virt) K (pg t' (Shift tt) ve)); lia).
  split; [done |]. unfold v, part_end. destruct (Z.ltb_spec k K).
  - destruct (entry_end t t' (Shift tt) k) as (E1 & _ & E2); [done.. | lia |]. rewrite E2.
    split; [lia |]. split; [done |]. split; [lia |].
    intros a Ha. destruct (dir_pg a) as (Ea & Ra & Ia). rewrite Ha in Ea. rewrite Ea, Ee, Ev.
    pose proof (digit_lt M k (pg t' (Shift tt) a) K (pg t' (Shift tt) ve)). lia.
  - assert (k = K) as HK by lia. rewrite HK in *.
    split; [lia |]. split; [lia |]. split; [done |].
    intros a Ha. destruct (dir_pg a) as (Ea & Ra & Ia). rewrite Ha in Ea. rewrite Ea, Ee, Ev. lia.
Qed.

(** The translation goes on below an entry that is a table. *)
Lemma table_down p h es e a :
  entries h p = es -> es !! Z.to_nat (ix t a) = Some e -> is_table (Level_Id dir) e = true ->
  translate dir h p a = translate (t' :: ts) h (child e) a.
Proof.
  intros Ee He Ht. cbn [translate]. rewrite Ee, He. unfold is_table in Ht.
  apply andb_true_iff in Ht as [-> Hlf]. apply negb_true_iff in Hlf. by rewrite Hlf.
Qed.

(** The part of the range below one entry is a range of the table there. *)
Lemma part_pre p s live es e virt ve :
  mem_pre dir p s live -> pg t (Shift tt) virt <= pg t (Shift tt) ve -> no_super dir t tt (tabs s) p virt ve level ->
  tabs s !! p = Some es -> es !! Z.to_nat (ix t virt) = Some e -> is_table (Level_Id dir) e = true ->
  let v := part_end (ix t virt) (ix t ve) ve in
  mem_pre (t' :: ts) (child e) s live /\ pg t' (Shift tt) virt <= pg t' (Shift tt) v /\
  no_super (t' :: ts) t' tt (tabs s) (child e) virt v level.
Proof.
  intros Hpre Hle Hns Hp He Ht v. set (k := ix t virt) in *.
  destruct (part_end_pg virt ve Hle) as (_ & Hpv & _ & _ & Heqv). fold k v in Hpv, Heqv.
  destruct dir_levels as (Hl & Hl' & Heq & Hs).
  assert (0 < 2 ^ Shift t) as Hpos by (apply pow2_pos; destruct Hl; lia).
  split; [by eapply mem_pre_child |]. split; [done |].
  intros a l x Ha Hx. set (b := k * 2 ^ Shift t + a mod 2 ^ Shift t).
  assert (a mod 2 ^ (Shift t' + Size t') = b mod 2 ^ (Shift t' + Size t')) as Hab.
  { rewrite <- Heq. unfold b. rewrite Z.add_comm, Z.mod_add, Z.mod_mod by lia. done. }
  assert (ix t b = k) as Hb.
  { unfold b, ix. pose proof (Z.mod_pos_bound a (2 ^ Shift t) Hpos).
    rewrite Z.add_comm, Z.div_add, (Z.div_small (a mod _)), Z.add_0_l by lia.
    apply Z.mod_small. unfold k. by apply ix_range. }
  assert (pg t' (Shift tt) b = pg t' (Shift tt) a) as Hpb by (unfold pg; by rewrite Hab).
  apply (Hns b l x); [apply Heqv; [done | by rewrite Hpb] |].
  rewrite (table_down p (tabs s) es e b (entries_eq _ _ _ Hp)) by (by rewrite ?Hb).
  rewrite <- Hx. symmetry. apply translate_congr; [by apply Hls | done].
Qed.

(** The pages below one entry. *)
Lemma map_part p s live es e phys virt ve :
  mem_pre dir p s live -> is_mword phys -> phys mod 2 ^ next_low = 0 ->
  pg t (Shift tt) virt <= pg t (Shift tt) ve -> no_super dir t tt (tabs s) p virt ve level ->
  tabs s !! p = Some es -> es !! Z.to_nat (ix t virt) = Some e -> is_table (Level_Id dir) e = true ->
  let v := part_end (ix t virt) (ix t ve) ve in
  let here a := ix t a = ix t virt /\ pg t (Shift tt) virt <= pg t (Shift tt) a <= pg t (Shift tt) ve in
  exists ms s' ns, next (child e) phys virt v s = Done (ms, s') /\ mem_post dir p s s' live ns /\
    (forall a, ~ here a -> translate dir (tabs s') p a = translate dir (tabs s) p a) /\
    (ms <> 0 -> forall a, here a -> exists pa, translate dir (tabs s') p a = Some (level, for_pa tmpl pa) /\
       (contiguous (t' :: ts) level virt v ->
        pa = mwrap (phys + (pg t (Shift tt) a - pg t (Shift tt) virt) * P))) /\
    ms mod 2 ^ next_low = 0 /\
    (level = Level_Id (t' :: ts) ->
     ms = mwrap ((pg t' (Shift tt) v - pg t' (Shift tt) virt + 1) * P)) /\
    (ms = 0 -> dry s').
Proof.
  intros Hpre Hphys Hal Hle Hns Hp He Ht v here. set (k := ix t virt) in *.
  destruct (part_end_pg virt ve Hle) as (HkK & Hpv & _ & _ & Heqv). fold k v in HkK, Hpv, Heqv.
  destruct dir_levels as (Hl & Hl' & Heq & Hs).
  assert (forall a h, entries h p = es -> ix t a = k -> translate dir h p a = translate (t' :: ts) h (child e) a) as Hdown.
  { intros a h Ee Ha. apply (table_down p h es e a Ee); [by rewrite Ha | done]. }
  pose proof (entries_eq _ _ _ Hp) as Ee.
  destruct (part_pre p s live es e virt ve Hpre Hle Hns Hp He Ht) as (Hprec & Hlec & Hnsc).
  destruct (Hnext (child e) phys virt v s live) as (ms & s' & Hc & ns & Hpost & Hout & Hin & Hm & Hms & Hdry); try done.
  destruct (mem_post_child t (t' :: ts) p s s' live ns es _ e Hpre Hp He Ht Hpost) as (Hpost' & Hp' & Htr).
  pose proof (entries_eq _ _ _ Hp') as Ee'.
  exists ms, s', ns. split; [done |]. split; [done |]. split; [| split; [| split; [done | split; [done |]]]].
  3:{ intros Hz. apply (Hdry Hz). right. destruct Hls as [_ (_ & HB & _)]. unfold level_ok in Hl. lia. }
  - intros a Ha. rewrite Htr. destruct (decide _) as [Hk |]; [| done].
    assert (ix t a = k) as Hak.
    { pose proof (ix_range t a Hl). pose proof (ix_range t virt Hl). unfold k. lia. }
    rewrite Hout; [by rewrite (Hdown a) |]. intros Hr. apply Ha. split; [done |]. by apply Heqv.
  - intros Hnz a [Hak Ha]. destruct (Hin Hnz a) as (pa & Htp & Hpa); [by apply Heqv |].
    exists pa. rewrite (Hdown a) by done. split; [done |]. intros Hco. rewrite (Hpa Hco).
    destruct (dir_pg a) as (Ea & _). destruct (dir_pg virt) as (Ev & _). do 2 f_equal. rewrite Ea, Ev, Hak. fold k. lia.
Qed.

Lemma contiguous_dir virt v ve :
  contiguous dir level virt ve -> (ix t virt = ix t ve -> v = ve) -> contiguous (t' :: ts) level virt v.
Proof.
  intros [Hc | [Hix Hc]] Hv; [left | by rewrite Hv].
  unfold Level_Id in *. cbn in *. lia.
Qed.

(** The state of the next turn of the loop, after the entry of [virt]. *)
Lemma map_advance p phys virt ve ms s s1 live ns :
  let k := ix t virt in let v2 := mshl (madd k 1) (Shift t) in
  k < ix t ve -> mem_pre dir p s live -> phys mod 2 ^ next_low = 0 -> ms mod 2 ^ next_low = 0 ->
  pg t (Shift tt) virt <= pg t (Shift tt) ve -> no_super dir t tt (tabs s) p virt ve level ->
  mem_post dir p s s1 live ns ->
  (forall a, ix t a <> k -> translate dir (tabs s1) p a = translate dir (tabs s) p a) ->
  madd k 1 = k + 1 /\ ix t v2 = k + 1 /\ pg t (Shift tt) v2 = (k + 1) * M /\ mem_pre dir p s1 (ns ++ live) /\
  is_mword (madd phys ms) /\ madd phys ms mod 2 ^ next_low = 0 /\ pg t (Shift tt) v2 <= pg t (Shift tt) ve /\
  no_super dir t tt (tabs s1) p v2 ve level.
Proof.
  intros k v2 HkK Hpre Hal Hm Hle Hns Hpost Hout.
  destruct (part_end_pg virt ve Hle) as (_ & _ & Hlast & _). destruct (Hlast HkK) as [Hk1 _].
  destruct dir_levels as (Hl & Hl' & Heq & Hs).
  destruct (dir_pg virt) as (Ev & Rv & Iv). destruct (dir_pg ve) as (Ee & Re & Ie). fold k in Ev, Iv, Hk1.
  destruct (entry_start t t' (Shift tt) (k + 1)) as (_ & Hix & Hp0 & Hpg); [done.. | lia |].
  unfold v2. rewrite Hk1. split; [done |]. split; [done |]. split; [done |]. split; [by eapply mem_post_pre |].
  split; [apply mwrap_range |]. split; [| split].
  - unfold madd, mwrap, wrap. pose proof next_low_ok.
    rewrite Z.mod_mod_divide, Z.add_mod, Hal, Hm.
    + by rewrite Z.mod_0_l by (apply Z.pow_nonzero; lia).
    + apply Z.pow_nonzero; lia.
    + destruct Hl as (? & ? & ? & ? & ? & ? & ?). exists (2 ^ (MWORD_BITS - next_low)).
      rewrite <- Z.pow_add_r by lia. f_equal. lia.
  - rewrite Hpg, Ee. assert ((k + 1) * M <= ix t ve * M) by (apply Z.mul_le_mono_nonneg_r; lia). lia.
  - intros a l x Ha. destruct (dir_pg a) as (Ea & Ra & Ia). rewrite Hpg in Ha.
    assert (k + 1 <= ix t a) as Hka.
    { destruct Ha as [Ha _]. rewrite Ea in Ha. apply (digit_le M (k + 1) 0 _ (pg t' (Shift tt) a)); lia. }
    rewrite Hout by lia. apply Hns. rewrite Ev, Ea in *.
    pose proof (digit_lt M k (pg t' (Shift tt) virt) (ix t a) (pg t' (Shift tt) a)). lia.
Qed.

(** One turn of the loop, from the entry that is known to have a table, and
    the turns that follow. *)
Lemma map_turn n p phys virt ve s live es e :
  let k := ix t virt in let K := ix t ve in
  (forall phys virt s live, mem_pre dir p s live -> is_mword phys -> phys mod 2 ^ next_low = 0 ->
     ix t virt = k + 1 -> pg t (Shift tt) virt <= pg t (Shift tt) ve ->
     no_super dir t tt (tabs s) p virt ve level ->
     exists ms s', map_loop n next (ld t) (ld t') (size_of (t' :: ts)) (Level_Id dir) p phys virt ve
                     (ix t virt) K s = Done (ms, s') /\
       map_post dir t tt level p phys virt ve tmpl ms s s' live) ->
  mem_pre dir p s live -> is_mword phys -> phys mod 2 ^ next_low = 0 ->
  pg t (Shift tt) virt <= pg t (Shift tt) ve -> no_super dir t tt (tabs s) p virt ve level ->
  tabs s !! p = Some es -> es !! Z.to_nat k = Some e -> is_table (Level_Id dir) e = true ->
  exists ms s',
    (let* (ms, s) := next (child e) phys virt (part_end k K ve) s in
     if ms =? 0 then Done (ms, s)
     else if K <=? k then Done (ms, s)
     else map_loop n next (ld t) (ld t') (size_of (t' :: ts)) (Level_Id dir) p (madd phys ms)
            (mshl (madd k 1) (Shift t)) ve (madd k 1) K s) = Done (ms, s') /\
    map_post dir t tt level p phys virt ve tmpl ms s s' live.
Proof.
  intros k K IH Hpre Hphys Hal Hle Hns Hp He Ht.
  destruct (part_end_pg virt ve Hle) as (HkK & Hpv & Hlast & Hsame & _). fold k K in HkK, Hlast, Hsame.
  destruct (map_part p s live es e phys virt ve Hpre Hphys Hal Hle Hns Hp He Ht)
    as (ms & s1 & ns & Hc & Hpost & Hout & Hin & Hm & Hms & Hdry). fold k K in Hc, Hout, Hin, Hms.
  rewrite Hc. cbn [obind].
  assert (level <> Level_Id dir) as Hne by lia.
  assert (forall a, ~ (pg t (Shift tt) virt <= pg t (Shift tt) a <= pg t (Shift tt) ve) ->
            translate dir (tabs s1) p a = translate dir (tabs s) p a) as Hout1.
  { intros a Ha. apply Hout. tauto. }
  destruct (Z.eqb_spec ms 0) as [Hms0 | Hms0].
  { exists ms, s1. split; [done |]. exists ns.
    split; [done |]. split; [done |]. split; [done |]. split; [done |]. split; [done |]. by intros _ _; apply Hdry. }
  destruct (dir_pg virt) as (Ev & Rv & Iv). destruct (dir_pg ve) as (Ee & Re & Ie). fold k in Ev. fold K in Ee.
  destruct (Z.leb_spec K k) as [HKk | HkK'].
  { assert (k = K) as HeqK by lia. exists ms, s1. split; [done |]. exists ns.
    split; [done |]. split; [done |]. split; [| split; [done | split; [done |]]; by intros ?]. intros _ a Ha.
    destruct (dir_pg a) as (Ea & Ra & Ia). assert (ix t a = k) as Hak.
    { rewrite Ea, Ev, Ee, <- HeqK in Ha. destruct Ha as [H1 H2].
      apply digit_le in H1; [| lia..]. apply digit_le in H2; lia. }
    destruct (Hin Hms0 a) as (pa & Htp & Hpa); [done |]. exists pa. split; [done |]. intros Hco. apply Hpa.
    eapply contiguous_dir; [exact Hco | done]. }
  destruct (Hlast HkK') as [_ Hpe].
  destruct (map_advance p phys virt ve ms s s1 live ns) as (Hk1 & Hix & Hpg & Hpre1 & Hmw & Hal1 & Hle1 & Hns1); try done.
  { intros a Ha. apply Hout. tauto. }
  fold k in Hk1, Hix, Hpg, Hle1, Hns1. fold k in Iv. fold K in Ie. rewrite Hk1 in *. set (v2 := mshl (k + 1) (Shift t)) in *.
  destruct (IH (madd phys ms) v2 s1 (ns ++ live) Hpre1) as (ms2 & s2 & Hc2 & ns2 & Hpost2 & Hout2 & Hin2 & Hm2 & Hms2 & Hdry2);
    [done.. |].
  - rewrite Hix in Hc2. exists ms2, s2. split; [done |]. exists (ns2 ++ ns). split; [by eapply mem_post_trans |].
    split; [| split; [| split; [done | split; [done |]]]].
    3:{ intros Hz _. apply Hdry2; [done | left; lia]. }
    + intros a Ha. rewrite Hout2, Hout1; [done.. |]. rewrite Hpg, Ev, Ee in *. lia.
    + intros Hnz a Ha. destruct (dir_pg a) as (Ea & Ra & Ia). destruct (decide (ix t a = k)) as [Hak | Hak].
      * destruct (Hin Hms0 a) as (pa & Htp & Hpa); [done |].
        exists pa. rewrite Hout2; [split; [done |] | rewrite Hpg, Ea, Hak; lia]. intros Hco. apply Hpa.
        eapply contiguous_dir; [exact Hco | intros; lia].
      * destruct (Hin2 Hnz a) as (pa & Htp & Hpa).
        { assert (k <= ix t a) by (destruct Ha as [Ha _]; rewrite Ea, Ev in Ha; by apply digit_le in Ha).
          assert ((k + 1) * M <= ix t a * M) by (apply Z.mul_le_mono_nonneg_r; lia). rewrite Hpg, Ea in *. lia. }
        exists pa. split; [done |]. intros [Hco | [Hco _]]; [| fold k K in Hco; lia].
        rewrite Hpa by (by left). rewrite Hms by (unfold Level_Id in *; cbn in *; lia).
        rewrite Hpe, Hpg, Ev. unfold madd, mwrap, wrap.
        rewrite Zplus_mod_idemp_r, Zplus_mod_idemp_l. f_equal. lia.
Qed.

Lemma map_loop_ok n p phys virt ve s live :
  ix t ve - ix t virt < Z.of_nat n ->
  mem_pre dir p s live -> is_mword phys -> phys mod 2 ^ next_low = 0 ->
  pg t (Shift tt) virt <= pg t (Shift tt) ve -> no_super dir t tt (tabs s) p virt ve level ->
  exists ms s', map_loop n next (ld t) (ld t') (size_of (t' :: ts)) (Level_Id dir) p phys virt ve
                  (ix t virt) (ix t ve) s = Done (ms, s') /\
    map_post dir t tt level p phys virt ve tmpl ms s s' live.
Proof.
  revert phys virt s live. induction n as [|n IH]; intros phys virt s live Hn Hpre Hphys Hal Hle Hns.
  { destruct (part_end_pg virt ve Hle) as [? _]. lia. }
  destruct dir_levels as (Hl & Hl' & Heq & Hs). destruct (pre_root _ _ _ _ _ Hpre) as (es & Hp & Hlen).
  pose proof (ix_range t virt Hl) as Hr.
  destruct (lookup_lt_is_Some_2 es (Z.to_nat (ix t virt))) as [e He]; [lia |].
  assert (level <> Level_Id dir) as Hne by lia.
  cbn [map_loop]. unfold deref, get_entry. cbn [pte_table pte_offset]. rewrite ld_offset by done.
  rewrite (read_entry_slot _ _ es _ e) by (done || lia). cbn [obind].
  destruct (is_valid e) eqn:Hv; cbn [negb].
  - cbn [_may_be_leaf ld make_Ldesc andb]. eapply map_turn; try done.
    + intros phys' virt' s' live' Hpre' Hph' Hal' Hix' Hle' Hns'. apply IH; try done. lia.
    + unfold is_table. rewrite Hv. destruct (is_leaf (Level_Id dir) e) eqn:Hlf; [exfalso | done].
      cut (Level_Id dir <= level); [lia |]. apply (Hns virt (Level_Id dir) e); [lia |].
      cbn [translate]. rewrite (entries_eq _ _ es Hp). by rewrite He, Hv, Hlf.
  - destruct alloc_valid eqn:Eav.
    + destruct (alloc_next_ok t t' ts p s live es (ix t virt) e Hl' Hpre Hp) as (r & s1 & -> & Hpost); [lia | done | done |].
      cbn [obind]. destruct r as [c |].
      * destruct Hpost as (Hpost & Htr & es' & e' & Hp' & He' & Ht' & Hch & _). rewrite <- Hch.
        edestruct (map_turn n p phys virt ve s1 ([c] ++ live) es' e') as (ms & s' & Hc & Hmp); try done.
        -- intros phys' virt' s' live' Hpre' Hph' Hal' Hix' Hle' Hns'. apply IH; try done. lia.
        -- by eapply mem_post_pre.
        -- intros a l x Ha. rewrite Htr. by apply Hns.
        -- exists ms, s'. split; [exact Hc |]. by eapply map_post_before.
      * destruct Hpost as (Htabs & Halloc & Hdry). eexists _, _. split; [done |]. by apply map_post_fail.
    + eexists _, _. split; [done |]. apply map_post_fail; try done; [apply Hpre | by left].
Qed.
End directory.

(** Mapping in a hierarchy, whatever the range: the tables stay a tree, no
    address outside of the range changes its translation, and if the operation
    reports success every page of the range is mapped. *)
Lemma map_ok ts t tt level p phys virt ve tmpl s live :
  levels_ok ts -> head ts = Some t -> Level_get ts level = Some tt -> 0 <= level <= Level_Id ts ->
  mem_pre ts p s live -> is_mword phys -> phys mod 2 ^ next_low = 0 -> tmpl_ok level tmpl ->
  pg t (Shift tt) virt <= pg t (Shift tt) ve -> no_super ts t tt (tabs s) p virt ve level ->
  exists ms s', map_ ts p phys virt ve tmpl level s = Done (ms, s') /\
    map_post ts t tt level p phys virt ve tmpl ms s s' live.
Proof.
  revert t p phys virt ve s live.
  induction ts as [|t0 ts IH]; intros t p phys virt ve s live Hls [= ->] Hg Hlev Hpre Hphys Hal Ht Hle Hns.
  destruct ts as [|t' ts].
  { injection Hg as ->. assert (level = Level_Id [tt]) as -> by (unfold Level_Id in *; cbn in *; lia).
    by apply map_target. }
  cbn [map_]. destruct (Z.eqb_spec level (Level_Id (t :: t' :: ts))) as [-> | Hne].
  { cbn [Level_get] in Hg. rewrite Z.eqb_refl in Hg. injection Hg as ->. by apply map_target. }
  rewrite Level_get_cons in Hg by done. assert (levels_ok (t' :: ts)) as Hls' by apply Hls.
  destruct (Level_get_spec _ _ _ Hls' Hg) as [Htt Hsh]. assert (level_ok t) as Hl by apply Hls.
  rewrite !ld_index by done. apply map_loop_ok; try done.
  - lia.
  - intros c phys' virt' ve' s' live' ? ? ? ? ?. apply IH; try done. unfold Level_Id in *. cbn in *. lia.
  - unfold table_fuel. rewrite ld_length by done. pose proof (ix_range t virt Hl). pose proof (ix_range t ve Hl). lia.
Qed.
End map.
