(* ===== verification/PtabWalk.v ===== *)
(** Page tables: the walk to the entry of an address, what writing that entry
    does to the translation, and the lookup. *)

From S2P Require Import Prelude Outcome Ptab PtabInv PtabMap.

Section walk.
Context `{Arch, PO : Pte_ops, PL : !Pte_laws, MO : Mem_ops}.

(** The table that holds the entry of an address at level [l]. *)
Fixpoint slot_at (ts : list Traits) (h : heap) (p a l : Z) : option Z :=
  match ts with
  | [] => None
  | t :: ts' =>
      if l =? Level_Id ts then Some p
      else match entries h p !! Z.to_nat (ix t a) with
           | Some e => if is_table (Level_Id ts) e then slot_at ts' h (child e) a l else None
           | None => None
           end
  end.

(** What the entry [v] of level [l] translates to, if it is no table. *)
Definition leaf_view (l v : Z) : option (Z * Z) := if is_valid v then Some (l, v) else None.


Lemma entry_leaf_view l ts h v a : is_table l v = false -> entry_translate l ts h v a = leaf_view l v.
Proof.
  intros Hv. unfold entry_translate, leaf_view, is_table in *. destruct (is_valid v); [| done].
  apply negb_false_iff in Hv. by rewrite Hv.
Qed.

Lemma translate_entry t ts h p es e a :
  h !! p = Some es -> es !! Z.to_nat (ix t a) = Some e ->
  translate (t :: ts) h p a = entry_translate (Level_Id (t :: ts)) ts h e a.
Proof. intros Hp He. cbn [translate]. by rewrite (entries_eq _ _ _ Hp), He. Qed.

Lemma entry_table l ts h e a : is_table l e = true -> entry_translate l ts h e a = translate ts h (child e) a.
Proof.
  unfold entry_translate, is_table. intros [-> Hl]%andb_true_iff. apply negb_true_iff in Hl. by rewrite Hl.
Qed.

Lemma tree_root t ts h p : shaped (t :: ts) h p -> exists es, h !! p = Some es /\ Z.of_nat (length es) = 2 ^ Size t.
Proof. intros (Hlen & [es He] & _). exists es. split; [done |]. by rewrite <- Hlen, (entries_eq _ _ _ He). Qed.

Lemma tree_child t ts h p es i e :
  tree_ok (t :: ts) h p -> h !! p = Some es -> es !! i = Some e -> is_table (Level_Id (t :: ts)) e = true ->
  tree_ok ts h (child e).
Proof.
  intros [Hs Hn] Hp He Ht. destruct (NoDup_child _ _ _ _ Hn) as [_ Hnc].
  rewrite (entries_eq _ _ _ Hp) in Hnc. split; [| by apply (NoDup_subtree _ _ _ _ _ _ Hnc He Ht)].
  cbn [shaped] in Hs. rewrite (entries_eq _ _ _ Hp) in Hs. apply Hs; [by eapply list_elem_of_lookup_2 | done].
Qed.

(** The same page of a directory: the same entry and the same page below. *)
Lemma pg_eq_split t t' s a b :
  level_ok t -> level_ok t' -> Shift t = Shift t' + Size t' -> 0 <= s <= Shift t' ->
  pg t s b = pg t s a <-> ix t b = ix t a /\ pg t' s b = pg t' s a.
Proof.
  intros Hl Hl' Hsh Hs. rewrite !(pg_split t t') by done.
  pose proof (pg_lt_split t t' s a Hl' Hsh Hs). pose proof (pg_lt_split t t' s b Hl' Hsh Hs).
  split; [| by intros [-> ->]]. intros E.
  assert (ix t b <= ix t a) by (apply (digit_le (2 ^ (Shift t - s)) _ (pg t' s b) _ (pg t' s a)); lia).
  assert (ix t a <= ix t b) by (apply (digit_le (2 ^ (Shift t - s)) _ (pg t' s a) _ (pg t' s b)); lia).
  assert (ix t b = ix t a) as E' by lia. rewrite E' in E. split; [done | lia].
Qed.

(** What writing an entry does: [view] is the old and [view'] the new
    translation of the page of [a]. *)
Definition page_changed (ts : list Traits) (t tt : Traits) (h h' : heap) (p a : Z)
  (view view' : option (Z * Z)) : Prop :=
  grows ts p h h' [] /\
  (forall b, translate ts h' p b =
     if decide (pg t (Shift tt) b = pg t (Shift tt) a) then view' else translate ts h p b) /\
  (forall b, pg t (Shift tt) b = pg t (Shift tt) a -> translate ts h p b = view).

Lemma set_slot_root t ts h p es a v v' :
  level_ok t -> tree_ok (t :: ts) h p -> h !! p = Some es -> es !! Z.to_nat (ix t a) = Some v ->
  is_table (Level_Id (t :: ts)) v = false -> is_table (Level_Id (t :: ts)) v' = false ->
  page_changed (t :: ts) t t h (<[p := <[Z.to_nat (ix t a) := v']> es]> h) p a
    (leaf_view (Level_Id (t :: ts)) v) (leaf_view (Level_Id (t :: ts)) v').
Proof.
  intros Hl [Hs Hn] Hp Hv Hvt Hvt'. pose proof (ix_range t a Hl). pose proof (lookup_lt_Some _ _ _ Hv).
  set (l := Level_Id (t :: ts)) in *. set (h' := <[p := _]> h).
  assert (h' !! p = Some (<[Z.to_nat (ix t a) := v']> es)) as Hp' by (unfold h'; by rewrite lookup_insert_eq).
  destruct (set_entries t ts p h es (<[Z.to_nat (ix t a) := v']> es) Hs Hn Hp) as [G Htr].
  { apply length_insert. }
  { intros k e He. destruct (decide (k = Z.to_nat (ix t a))) as [-> |].
    - rewrite list_lookup_insert_eq in He by done. right. by injection He as <-.
    - rewrite list_lookup_insert_ne in He by done. by left. }
  split; [done |]. split.
  - intros b. rewrite <- !ix_pg by done. pose proof (ix_range t b Hl). destruct (decide _) as [Hb | Hb].
    + rewrite (translate_entry _ _ _ _ _ v' _ Hp'); [by rewrite entry_leaf_view |].
      by rewrite Hb, list_lookup_insert_eq.
    + unfold h'. rewrite Htr, list_lookup_insert_ne by lia. cbn [translate]. by rewrite (entries_eq _ _ _ Hp).
  - intros b. rewrite <- !ix_pg by done. intros Hb. rewrite (translate_entry _ _ _ _ _ v _ Hp); [| by rewrite Hb].
    by rewrite entry_leaf_view.
Qed.

Lemma page_changed_below t t' ts tt h h' p es e a view view' :
  levels_ok (t :: t' :: ts) -> 0 <= Shift tt <= Shift t' -> tree_ok (t :: t' :: ts) h p ->
  h !! p = Some es -> es !! Z.to_nat (ix t a) = Some e -> is_table (Level_Id (t :: t' :: ts)) e = true ->
  page_changed (t' :: ts) t' tt h h' (child e) a view view' ->
  page_changed (t :: t' :: ts) t tt h h' p a view view'.
Proof.
  intros [Hl (Hsh & _ & [Hl' _])] Hs' [Hs Hn] Hp He Ht (G & Htr & Hold).
  destruct (child_step t (t' :: ts) p h h' es (Z.to_nat (ix t a)) e [] Hs Hn Hp He Ht G) as (G' & _ & Htr').
  { by intros ? ?%elem_of_nil. }
  split; [done |]. pose proof (ix_range t a Hl). split.
  - intros b. rewrite Htr'. pose proof (ix_range t b Hl). destruct (decide (Z.to_nat _ = _)) as [Hi | Hi].
    + assert (ix t b = ix t a) as Hi' by lia. rewrite Htr. destruct (decide (pg t' _ b = _)) as [Hp1 | Hp1].
      * rewrite decide_True by (by apply (pg_eq_split t t')). done.
      * rewrite decide_False by (rewrite (pg_eq_split t t') by done; tauto).
        rewrite (translate_entry _ _ _ _ _ e _ Hp) by (by rewrite Hi'). by rewrite entry_table.
    + rewrite decide_False; [done |]. rewrite (pg_eq_split t t') by done. intros [E _]. by rewrite E in Hi.
  - intros b [Hi Hb']%(pg_eq_split t t'); try done.
    rewrite (translate_entry _ _ _ _ _ e _ Hp) by (by rewrite Hi). rewrite entry_table by done. by apply Hold.
Qed.

(** Writing the entry of an address changes the translation of its page. *)
Lemma set_slot ts t tt h p a l q es v v' :
  levels_ok ts -> head ts = Some t -> Level_get ts l = Some tt -> 0 <= l <= Level_Id ts ->
  tree_ok ts h p -> slot_at ts h p a l = Some q -> h !! q = Some es -> es !! Z.to_nat (ix tt a) = Some v ->
  is_table l v = false -> is_table l v' = false ->
  page_changed ts t tt h (<[q := <[Z.to_nat (ix tt a) := v']> es]> h) p a (leaf_view l v) (leaf_view l v').
Proof.
  revert t p. induction ts as [|t0 ts IH]; intros t p Hls [= ->] Hg Hlev Hok Hq Hes Hv Hvt Hvt'.
  cbn [slot_at] in Hq. destruct (Z.eqb_spec l (Level_Id (t :: ts))) as [-> | Hne].
  - injection Hq as <-. assert (tt = t) as ->.
    { cbn [Level_get] in Hg. destruct ts; [| rewrite Z.eqb_refl in Hg]; by injection Hg. }
    apply set_slot_root; try done. apply Hls.
  - destruct ts as [|t' ts]; [unfold Level_Id in *; cbn in *; lia |].
    destruct (tree_root _ _ _ _ (proj1 Hok)) as (es0 & Hp & _). rewrite (entries_eq _ _ _ Hp) in Hq.
    destruct (es0 !! Z.to_nat (ix t a)) as [e|] eqn:He; [| done].
    destruct (is_table (Level_Id (t :: t' :: ts)) e) eqn:Ht; [| done].
    rewrite Level_get_cons in Hg by done. assert (levels_ok (t' :: ts)) as Hls' by apply Hls.
    destruct (Level_get_spec _ _ _ Hls' Hg) as [Htt Hst].
    apply (page_changed_below t t' ts tt _ _ _ es0 e); try done; [destruct Htt; lia |].
    apply IH; try done; [unfold Level_Id in *; cbn in *; lia | by eapply tree_child].
Qed.
End walk.

(** * The walk *)

Section walk_alloc.
Context `{Arch, PO : Pte_ops, PL : !Pte_laws, MO : Mem_ops} {A : Type} `{AO : !Alloc_ops A, AL : !Alloc_laws A}.

(** [e] points to the entry of [virt], [v] is its word. *)
Definition points_to (ts : list Traits) (h : heap) (p virt : Z) (e : Pte_ptr) (tt : Traits) (es : list Z) (v : Z) : Prop :=
  Level_get ts (pte_level e) = Some tt /\ slot_at ts h p virt (pte_level e) = Some (pte_table e) /\
  pte_offset e = ix tt virt * entry_size /\ h !! pte_table e = Some es /\
  es !! Z.to_nat (ix tt virt) = Some v.

(** The result of a walk: the translation is what it was, and the pointer is
    the entry of the requested level, unless a larger page or, for want of
    memory, a missing table ended the walk before. *)
Definition walk_post (ts : list Traits) (p virt level : Z) (s s' : state A) (e : Pte_ptr) (live : list Z) : Prop :=
  exists ns tt es v, mem_post ts p s s' live ns /\
    (forall a, translate ts (tabs s') p a = translate ts (tabs s) p a) /\
    level <= pte_level e <= Level_Id ts /\ points_to ts (tabs s') p virt e tt es v /\
    (pte_level e = level \/ is_table (pte_level e) v = false) /\
    (alloc_valid = false -> s' = s) /\ (tabs s' = tabs s \/ is_valid v = false) /\
    (Forall (fun x => is_valid x = false) (entries (tabs s) p) -> is_valid v = false) /\
    (pte_level e = level \/ is_valid v = true \/ dry s').

Lemma get_entry_ld l t p virt : level_ok t ->
  get_entry l (ld t) p virt = mkPte p (ix t virt * entry_size) l.
Proof. intros. unfold get_entry. by rewrite ld_offset. Qed.

Lemma Level_get_top t ts : Level_get (t :: ts) (Level_Id (t :: ts)) = Some t.
Proof. cbn [Level_get]. destruct ts; [done |]. by rewrite Z.eqb_refl. Qed.

(** The walk ends at the root table. *)
Lemma walk_stop t ts p virt level s s' live es v :
  level_ok t -> mem_pre (t :: ts) p s live -> tabs s' = tabs s -> alloc_ok (al s') live ->
  tabs s !! p = Some es -> es !! Z.to_nat (ix t virt) = Some v -> level <= Level_Id (t :: ts) ->
  (Level_Id (t :: ts) = level \/ is_table (Level_Id (t :: ts)) v = false) -> (alloc_valid = false -> s' = s) ->
  (Level_Id (t :: ts) = level \/ is_valid v = true \/ dry s') ->
  walk_post (t :: ts) p virt level s s' (get_entry (Level_Id (t :: ts)) (ld t) p virt) live.
Proof.
  intros Hl Hpre Hs Ha Hp Hv Hlev Hd Hna Htot. exists [], t, es, v. cbn [pte_level get_entry].
  split; [| split; [by rewrite Hs | split; [done | split; [| split; [done | split; [done | split; [by left | split; [| done]]]]]]]].
  - destruct (mem_post_refl _ _ _ _ Hpre) as [G N F _]. split; [by rewrite Hs | done..].
  - split; [apply Level_get_top |]. cbn [pte_level pte_table pte_offset slot_at]. rewrite Z.eqb_refl, Hs.
    split; [done |]. split; [by apply ld_offset | done].
  - rewrite (entries_eq _ _ _ Hp), Forall_forall. intros Hf. apply Hf. by eapply list_elem_of_lookup_2.
Qed.

(** The walk goes on below an entry that is a table. *)
Lemma walk_below t ts p virt level s s' live es v e :
  levels_ok (t :: ts) -> mem_pre (t :: ts) p s live -> tabs s !! p = Some es -> es !! Z.to_nat (ix t virt) = Some v ->
  is_table (Level_Id (t :: ts)) v = true -> walk_post ts (child v) virt level s s' e live ->
  walk_post (t :: ts) p virt level s s' e live.
Proof.
  intros Hls Hpre Hp Hv Ht (ns & tt & es' & v' & Hpost & Htr & Hlev & (Hg & Hsl & Hoff & Hes & Hv') & Hd & Hna & Hsame & _ & Htot).
  destruct (mem_post_child t ts p s s' live ns es _ v Hpre Hp Hv Ht Hpost) as (Hpost' & Hp' & Htr').
  assert (pte_level e <> Level_Id (t :: ts)) as Hne by (unfold Level_Id in *; cbn in *; lia).
  exists ns, tt, es', v'. split; [done |]. split; [| split; [unfold Level_Id in *; cbn in *; lia | split; [| split; [done | split; [done | split; [done | split; [| done]]]]]]].
  - intros a. rewrite Htr'. destruct (decide _) as [Hi |]; [| done]. rewrite Htr.
    rewrite (translate_entry _ _ _ _ _ v _ Hp) by (by rewrite Hi). by rewrite entry_table.
  - split; [| split; [| done]].
    + destruct ts as [|t' ts]; [done |]. by rewrite Level_get_cons.
    + cbn [slot_at]. rewrite (proj2 (Z.eqb_neq _ _) Hne), (entries_eq _ _ _ Hp'), Hv, Ht. done.
  - rewrite (entries_eq _ _ _ Hp), Forall_forall. intros Hf. unfold is_table in Ht.
    by rewrite (Hf v) in Ht by (by eapply list_elem_of_lookup_2).
Qed.

Lemma walk_ok ts p virt level s live :
  levels_ok ts -> 0 <= level <= Level_Id ts -> mem_pre ts p s live ->
  exists e s', walk ts p virt level s = Done (e, s') /\ walk_post ts p virt level s s' e live.
Proof.
  revert p s live. induction ts as [|t ts IH]; intros p s live Hls Hlev Hpre; [done |].
  assert (level_ok t) as Hl by apply Hls. destruct (pre_root _ _ _ _ _ Hpre) as (es & Hp & Hlen).
  pose proof (ix_range t virt Hl) as Hr.
  destruct (lookup_lt_is_Some_2 es (Z.to_nat (ix t virt))) as [v Hv]; [lia |].
  assert (forall s', tabs s' = tabs s -> alloc_ok (al s') live ->
            (Level_Id (t :: ts) = level \/ is_table (Level_Id (t :: ts)) v = false) -> (alloc_valid = false -> s' = s) ->
            (Level_Id (t :: ts) = level \/ is_valid v = true \/ dry s') ->
            exists e s0, Done (mkPte p (ix t virt * entry_size) (Level_Id (t :: ts)), s') = Done (e, s0) /\
              walk_post (t :: ts) p virt level s s0 e live) as Hstop.
  { intros s' ? ? ? ? ?. rewrite <- get_entry_ld by done. eexists _, _. split; [done |]. eapply walk_stop; try done. lia. }
  cbn [walk]. rewrite get_entry_ld by done. destruct ts as [|t' ts].
  { assert (Level_Id [t] = level) by (unfold Level_Id in *; cbn in *; lia).
    apply Hstop; auto. apply Hpre. }
  destruct (Z.eqb_spec level (Level_Id (t :: t' :: ts))) as [-> | Hne].
  { apply Hstop; auto. apply Hpre. }
  unfold deref. cbn [pte_table pte_offset].
  rewrite (read_entry_slot _ _ es _ v) by (done || lia). cbn [obind].
  assert (0 <= level <= Level_Id (t' :: ts)) as Hlev' by (unfold Level_Id in *; cbn in *; lia).
  assert (levels_ok (t' :: ts)) as Hls' by apply Hls.
  destruct (is_valid v) eqn:Hvv; cbn [negb].
  - destruct (is_leaf (Level_Id (t :: t' :: ts)) v) eqn:Hlf.
    + apply Hstop; auto; [apply Hpre |]. right. unfold is_table. by rewrite Hlf, andb_false_r.
    + assert (is_table (Level_Id (t :: t' :: ts)) v = true) as Ht by (unfold is_table; by rewrite Hvv, Hlf).
      destruct (IH (child v) s live Hls' Hlev') as (e & s' & Hw & Hpost); [by eapply mem_pre_child |].
      exists e, s'. split; [exact Hw |]. by eapply walk_below.
  - assert (is_table (Level_Id (t :: t' :: ts)) v = false) as Ht by (unfold is_table; by rewrite Hvv).
    destruct alloc_valid eqn:Eav; [| apply Hstop; auto; [apply Hpre | right; right; by left]].
    change (next_ld (t' :: ts)) with (ld t').
    destruct (alloc_next_ok t t' ts p s live es (ix t virt) v) as (r & s1 & Han & Hr1); try done; [apply Hls' | lia |].
    rewrite Han.
    cbn [obind]. destruct r as [n|]; [| apply Hstop; [apply Hr1 | apply Hr1 | by right | done | right; right; apply Hr1]].
    destruct Hr1 as (Hpost1 & Htr1 & es' & e' & Hp' & He' & Ht' & Hch & Hnew).
    pose proof (mem_post_pre _ _ _ _ _ _ Hpre Hpost1) as Hpre1.
    destruct (IH (child e') s1 ([n] ++ live) Hls' Hlev') as (e & s' & Hw & Hpost); [by eapply mem_pre_child |].
    rewrite Hch in Hw. exists e, s'. split; [exact Hw |].
    pose proof Hpost as (ns0 & tt0 & es0 & v0 & _ & _ & _ & Hpt0 & _ & _ & _ & Hinv0 & _). rewrite Hch in Hinv0.
    pose proof (walk_below t (t' :: ts) p virt level s1 s' ([n] ++ live) es' e' e Hls Hpre1 Hp' He' Ht' Hpost)
      as (ns & tt & es2 & v2 & Hpo & Htr & Hle & Hpt & Hd & _ & _ & _ & Htot).
    assert (is_valid v2 = false) as Hv2.
    { destruct Hpt as (Hg & Hsl & _ & Hes & Hx), Hpt0 as (Hg0 & _ & _ & Hes0 & Hx0).
      rewrite Level_get_cons in Hg by (destruct Hpost as (? & ? & ? & ? & _ & _ & ? & _); unfold Level_Id in *; cbn in *; lia).
      rewrite <- (Hinv0 Hnew). congruence. }
    exists (ns ++ [n]), tt, es2, v2. split; [by eapply mem_post_trans |].
    split; [intros a; by rewrite Htr |]. split; [done |]. split; [done |]. split; [done |]. rewrite Eav.
    split; [done |]. split; [by right |]. done.
Qed.
End walk_alloc.

(** * The lookup *)

#[global] Instance Null_alloc_laws `{Pte_ops, Mem_ops} : Alloc_laws unit.
Proof. refine {| alloc_ok := fun _ _ => True |}; [intros; simplify_eq/= | done]. Defined.

(** A walk without an allocator finds the translation and changes nothing. *)
Lemma lookup_walk_ok `{Arch, PO : Pte_ops, PL : !Pte_laws, MO : Mem_ops} ts t p virt h :
  levels_ok ts -> head ts = Some t -> tree_ok ts h p ->
  exists e tt es v, lookup_walk ts p virt 0 h = Done e /\ points_to ts h p virt e tt es v /\
    0 <= pte_level e <= Level_Id ts /\ is_table (pte_level e) v = false /\
    translate ts h p virt = leaf_view (pte_level e) v.
Proof.
  intros Hls Hhd Hok. destruct (walk_ok ts p virt 0 (mkState h ()) (tables ts h p)) as (e & s' & Hw & Hpo).
  - done.
  - destruct ts; [done |]. unfold Level_Id. cbn. lia.
  - by split.
  - destruct Hpo as (ns & tt & es & v & Hpo & Htr & Hle & Hpt & Hd & Hna & _). rewrite Hna in Hpt, Hpo by done.
    exists e, tt, es, v. unfold lookup_walk. rewrite Hw. split; [done |]. split; [done |]. split; [done |].
    assert (is_table (pte_level e) v = false) as Ht.
    { destruct Hd as [Hd | ?]; [| done]. unfold is_table. by rewrite Hd, leaf_0, andb_false_r. }
    split; [done |]. destruct Hpt as (Hg & Hsl & _ & Hes & Hv).
    by destruct (set_slot ts t tt h p virt (pte_level e) (pte_table e) es v v) as (_ & _ & ->).
Qed.
