(* ===== verification/PtabFree.v ===== *)
(** Page tables: unmapping a range and freeing the tables below a range. *)

From S2P Require Import Prelude Outcome Ptab PtabInv PtabMap PtabWalk.

Lemma concat_map_nil {X Y} (f : X -> list Y) l : (forall x, x ∈ l -> f x = []) -> concat (map f l) = [].
Proof.
  induction l as [|x l IH]; intros Hf; [done |]. cbn. rewrite (Hf x) by (by left). apply IH. intros y Hy. apply Hf. by right.
Qed.

Lemma concat_map_sublist {X Y} (f : X -> list Y) l k : sublist l k -> sublist (concat (map f l)) (concat (map f k)).
Proof.
  induction 1; cbn; [done | by apply sublist_app | by apply sublist_inserts_l].
Qed.

(** * Freeing tables *)

Section destroy.
Context `{Arch, PO : Pte_ops, PL : !Pte_laws, MO : Mem_ops} {A : Type} `{AO : !Alloc_ops A}.

(** The tables of a hierarchy down to level [el]. *)
Fixpoint tables_from (el : Z) (ts : list Traits) (h : heap) (p : Z) : list Z :=
  match ts with
  | [] => []
  | _ :: ts' =>
      if Level_Id ts <? el then []
      else p :: concat (map (fun e => if is_table (Level_Id ts) e then tables_from el ts' h (child e) else [])
                          (entries h p))
  end.

(** Pages of a level are leaves of a level that may have leaves. *)
Fixpoint leaves_ok (ts : list Traits) (h : heap) (p : Z) : Prop :=
  match ts with
  | [] => True
  | t :: ts' =>
      forall e, e ∈ entries h p -> is_valid e = true ->
        if is_leaf (Level_Id ts) e then May_be_leaf t = true else leaves_ok ts' h (child e)
  end.

(** Only the root may leave its index unmasked. *)
Definition masked (ts : list Traits) : Prop := Forall (fun t => Mask t = true) ts.

Abbreviation sub ts' l h := (fun e => if is_table l e then tables ts' h (child e) else []).
Abbreviation sub_from el ts' l h := (fun e => if is_table l e then tables_from el ts' h (child e) else []).

Lemma tables_from_in el ts h p q : q ∈ tables_from el ts h p -> q ∈ tables ts h p.
Proof.
  revert p. induction ts as [|t ts IH]; intros p; [done |]. cbn [tables_from tables].
  destruct (Level_Id (t :: ts) <? el); [by intros ?%elem_of_nil |].
  intros [-> | Hq]%elem_of_cons; [by left | right]. apply list_elem_of_In, in_concat in Hq as (l & Hl & Hq).
  apply in_map_iff in Hl as (e & <- & He). destruct (is_table (Level_Id (t :: ts)) e) eqn:Ht; [| by apply in_nil in Hq].
  eapply elem_of_subtree; [by apply list_elem_of_In | done |]. apply IH. by apply list_elem_of_In.
Qed.

Lemma tables_from_frame el ts h h' p :
  (forall q, q ∈ tables ts h p -> h' !! q = h !! q) -> tables_from el ts h' p = tables_from el ts h p.
Proof.
  revert p. induction ts as [|t ts IH]; intros p Hf; [done |]. cbn [tables tables_from] in *.
  destruct (Level_Id (t :: ts) <? el); [done |].
  assert (entries h' p = entries h p) as -> by (unfold entries; by rewrite Hf by left).
  f_equal. f_equal. apply map_ext_in. intros e He%list_elem_of_In.
  destruct (is_table (Level_Id (t :: ts)) e) eqn:Ht; [| done]. apply IH. intros q Hq. apply Hf. right.
  eapply elem_of_subtree; eauto.
Qed.

Lemma leaves_frame ts h h' p :
  (forall q, q ∈ tables ts h p -> h' !! q = h !! q) -> leaves_ok ts h p -> leaves_ok ts h' p.
Proof.
  revert p. induction ts as [|t ts IH]; intros p Hf; [done |]. cbn [tables leaves_ok] in *.
  assert (entries h' p = entries h p) as -> by (unfold entries; by rewrite Hf by left).
  intros Hl e He Hv. specialize (Hl e He Hv). destruct (is_leaf _ e) eqn:Hlf; [done |]. apply IH; [| done].
  intros q Hq. apply Hf. right. eapply elem_of_subtree; [done | | exact Hq]. unfold is_table. by rewrite Hv, Hlf.
Qed.

(** The heap [h'] is [h] without the tables of [l]. *)
Definition without (h h' : heap) (l : list Z) : Prop :=
  forall q, h' !! q = if decide (q ∈ l) then None else h !! q.

Lemma without_nil h : without h h [].
Proof. intros q. by rewrite decide_False by (by intros ?%elem_of_nil). Qed.

Lemma without_trans h h1 h2 l1 l2 : without h h1 l1 -> without h1 h2 l2 -> without h h2 (l1 ++ l2).
Proof.
  intros H1 H2 q. rewrite H2, H1. destruct (decide (q ∈ l2)), (decide (q ∈ l1)), (decide (q ∈ l1 ++ l2)) as [Hd | Hd]; try done.
  all: rewrite elem_of_app in Hd; tauto.
Qed.

(** The entries [i] to [i1] of a table. *)
Definition seg (es : list Z) (i i1 : Z) : list Z := take (Z.to_nat (i1 + 1 - i)) (drop (Z.to_nat i) es).

Lemma seg_cons es i i1 e : 0 <= i <= i1 -> es !! Z.to_nat i = Some e -> seg es i i1 = e :: seg es (i + 1) i1.
Proof.
  intros Hi He. unfold seg. rewrite (drop_S es e (Z.to_nat i)) by done.
  replace (Z.to_nat (i1 + 1 - i)) with (S (Z.to_nat (i1 + 1 - (i + 1)))) by lia. cbn [take].
  by replace (Z.to_nat (i + 1)) with (S (Z.to_nat i)) by lia.
Qed.

(** What the loop needs of the entries [rest] of the table [p] it has still to
    visit. *)
Definition rest_ok (t : Traits) (ts : list Traits) (h : heap) (p : Z) (rest : list Z) : Prop :=
  NoDup (p :: concat (map (sub ts (Level_Id (t :: ts)) h) rest)) /\
  forall e, e ∈ rest -> is_valid e = true ->
    if is_leaf (Level_Id (t :: ts)) e then May_be_leaf t = true
    else shaped ts h (child e) /\ leaves_ok ts h (child e).

Lemma seg_in es i i1 e : e ∈ seg es i i1 -> e ∈ es.
Proof.
  intros He. eapply elem_of_submseteq; [exact He |]. apply sublist_submseteq. unfold seg.
  etrans; [apply sublist_take | apply sublist_drop].
Qed.

Lemma tree_rest t ts h p es i i1 :
  tree_ok (t :: ts) h p -> leaves_ok (t :: ts) h p -> h !! p = Some es -> rest_ok t ts h p (seg es i i1).
Proof.
  intros [Hs Hn] Hlv Hp. split.
  - destruct (NoDup_child _ _ _ _ Hn) as [Hpn Hnc]. rewrite (entries_eq _ _ _ Hp) in Hpn, Hnc.
    eapply submseteq_NoDup; [| apply NoDup_cons; by split]. apply submseteq_skip. apply sublist_submseteq.
    apply concat_map_sublist. unfold seg. etrans; [apply sublist_take | apply sublist_drop].
  - intros e He%seg_in Hv. cbn [shaped leaves_ok] in Hs, Hlv. rewrite (entries_eq _ _ _ Hp) in Hs, Hlv.
    specialize (Hlv e He Hv). destruct (is_leaf (Level_Id (t :: ts)) e) eqn:Hlf; [done |]. split; [| done].
    apply Hs; [done |]. unfold is_table. by rewrite Hv, Hlf.
Qed.

(** Freeing tables below some entries leaves the other entries alone. *)
Lemma rest_frame el el' t ts h h1 p pre rest :
  rest_ok t ts h p (pre ++ rest) -> without h h1 (concat (map (sub_from el ts (Level_Id (t :: ts)) h) pre)) ->
  rest_ok t ts h1 p rest /\ h1 !! p = h !! p /\
  map (sub_from el' ts (Level_Id (t :: ts)) h1) rest = map (sub_from el' ts (Level_Id (t :: ts)) h) rest.
Proof.
  intros [Hnd Hrest] Hwo. rewrite map_app, concat_app in Hnd. apply NoDup_cons in Hnd as [Hpn Hnd].
  apply NoDup_app in Hnd as (_ & Hdis & Hnd'). set (Level := Level_Id (t :: ts)) in *.
  assert (forall q, q ∈ concat (map (sub_from el ts Level h) pre) -> q ∈ concat (map (sub ts Level h) pre)) as Hin.
  { intros q (l & Hl & Hq)%list_elem_of_In%in_concat. apply in_map_iff in Hl as (x & <- & Hx).
    destruct (is_table Level x) eqn:Ht; [| by apply in_nil in Hq].
    eapply elem_of_subtree; [by apply list_elem_of_In | done |]. apply tables_from_in with el. by apply list_elem_of_In. }
  assert (forall x, x ∈ rest -> is_table Level x = true -> forall q, q ∈ tables ts h (child x) ->
            h1 !! q = h !! q) as Hfr.
  { intros x Hx Ht q Hq. rewrite Hwo. rewrite decide_False; [done |]. intros Hq'%Hin. apply (Hdis q Hq').
    eapply elem_of_subtree; eauto. }
  assert (map (sub ts Level h1) rest = map (sub ts Level h) rest) as Es.
  { apply map_ext_in. intros x Hx%list_elem_of_In. destruct (is_table Level x) eqn:Ht; [| done].
    apply tables_frame. by apply Hfr. }
  split; [split | split].
  - fold Level. rewrite Es. apply NoDup_cons. split; [| done]. intros Hq. apply Hpn. apply elem_of_app. by right.
  - intros x Hx Hv. fold Level. specialize (Hrest x (proj2 (elem_of_app _ _ _) (or_intror Hx)) Hv).
    destruct (is_leaf Level x) eqn:Hlf; [done |]. destruct Hrest as [? ?].
    assert (is_table Level x = true) as Ht by (unfold is_table; by rewrite Hv, Hlf).
    split; [by eapply shaped_frame; [apply Hfr |] | by eapply leaves_frame; [apply Hfr |]].
  - rewrite Hwo, decide_False; [done |]. intros Hq%Hin. apply Hpn. apply elem_of_app. by left.
  - apply map_ext_in. intros x Hx%list_elem_of_In. destruct (is_table Level x) eqn:Ht; [| done].
    apply tables_from_frame. by apply Hfr.
Qed.

Section loop.
Context (t t' : Traits) (ts : list Traits) (el start_level : Z).
Abbreviation dir := (t :: t' :: ts).
Abbreviation Level := (Level_Id dir).

Context (next : Z -> Z -> Z -> state A -> outcome (state A)).
Hypothesis Hl : level_ok t.
Hypothesis Hsl : Level <= start_level.
Hypothesis Hel : el < Level.

(** Freeing below the child [c]: all its tables but itself. *)
Hypothesis Hnext : forall c start end_ s,
  tree_ok (t' :: ts) (tabs s) c -> leaves_ok (t' :: ts) (tabs s) c ->
  start mod 2 ^ Shift t = 0 -> (end_ + 1) mod 2 ^ Shift t = 0 ->
  exists s', next c start end_ s = Done s' /\ without (tabs s) (tabs s') (tail (tables_from el (t' :: ts) (tabs s) c)).

(** Freeing a child: first what is below it, then itself. *)
Lemma destroy_child s e start end_ :
  is_table Level e = true -> shaped (t' :: ts) (tabs s) (child e) -> leaves_ok (t' :: ts) (tabs s) (child e) ->
  NoDup (tables (t' :: ts) (tabs s) (child e)) ->
  start mod 2 ^ Shift t = 0 -> (end_ + 1) mod 2 ^ Shift t = 0 ->
  exists s1 s2, next (child e) start end_ s = Done s1 /\ free_table (child e) (size_of (t' :: ts)) s1 = Done s2 /\
    without (tabs s) (tabs s2) (tables_from el (t' :: ts) (tabs s) (child e)).
Proof.
  intros Ht Hsh Hlv Hnc Hst Hen.
  destruct (Hnext (child e) start end_ s) as (s1 & Hn1 & Hwo); try done.
  assert (tables_from el (t' :: ts) (tabs s) (child e) =
            child e :: tail (tables_from el (t' :: ts) (tabs s) (child e))) as Etf.
  { cbn [tables_from]. rewrite (proj2 (Z.ltb_ge _ _)); [done |]. unfold Level_Id in *. cbn in *. lia. }
  assert (child e ∉ tail (tables_from el (t' :: ts) (tabs s) (child e))) as Hct.
  { intros Hq. destruct (NoDup_child _ _ _ _ Hnc) as [Hcn _]. apply Hcn. cbn [tables_from] in Hq.
    destruct (_ <? el); [by apply elem_of_nil in Hq |]. cbn [tail] in Hq.
    apply list_elem_of_In, in_concat in Hq as (l & Hl1 & Hq). apply in_map_iff in Hl1 as (x & <- & Hx).
    destruct (is_table (Level_Id (t' :: ts)) x) eqn:Htx; [| by apply in_nil in Hq].
    eapply elem_of_subtree; [by apply list_elem_of_In | done |]. apply tables_from_in with el. by apply list_elem_of_In. }
  exists s1. unfold free_table. rewrite Hwo, decide_False by done.
  destruct Hsh as (_ & [ec Hec] & _). rewrite Hec. eexists. split; [done |]. split; [done |]. cbn [tabs]. rewrite Etf. intros q.
  destruct (decide (q = child e)) as [-> | Hne].
  - rewrite lookup_delete_eq, decide_True by (by left). done.
  - rewrite lookup_delete_ne, Hwo by done. destruct (decide (q ∈ tail _)) as [Hd | Hd].
    + by rewrite decide_True by (by right).
    + rewrite decide_False; [done |]. intros [? | ?]%elem_of_cons; done.
Qed.

Lemma destroy_loop_ok n p start end_ i0 i1 i s es :
  tabs s !! p = Some es -> Z.of_nat (length es) = 2 ^ Size t ->
  0 <= i0 <= i -> i <= i1 + 1 -> i1 < 2 ^ Size t -> i1 + 1 - i < Z.of_nat n ->
  start mod 2 ^ Shift t = 0 -> (end_ + 1) mod 2 ^ Shift t = 0 -> rest_ok t (t' :: ts) (tabs s) p (seg es i i1) ->
  exists s', destroy_loop n next t (size_of (t' :: ts)) Level p start end_ i0 (i1 + 1) i start_level s = Done s' /\
    without (tabs s) (tabs s') (concat (map (sub_from el (t' :: ts) Level (tabs s)) (seg es i i1))).
Proof.
  revert i s. induction n as [|n IH]; intros i s Hp Hlen Hi Hi1 Hi2 Hn Hst Hen Hrest; [lia |].
  cbn [destroy_loop]. destruct (Z.ltb_spec i (i1 + 1)) as [Hlt | Hge].
  2:{ exists s. split; [done |]. unfold seg. replace (i1 + 1 - i) with 0 by lia. cbn. apply without_nil. }
  pose proof (size_small t Hl) as (? & ? & ?).
  destruct (lookup_lt_is_Some_2 es (Z.to_nat i)) as [e He]; [lia |].
  rewrite (read_entry_slot _ _ es _ e) by (done || lia). cbn [obind].
  assert (wrap 32 (i + 1) = i + 1) as ->.
  { apply wrap_small. assert (2 ^ Size t < 2 ^ 32) by (apply Z.pow_lt_mono_r; lia). unfold in_range. lia. }
  rewrite (seg_cons es i i1 e) in Hrest |- * by (done || lia). cbn [map concat].
  (* the turns that follow, from a state that lost tables below [e] only *)
  assert (forall s1, without (tabs s) (tabs s1) (sub_from el (t' :: ts) Level (tabs s) e) ->
    exists s', destroy_loop n next t (size_of (t' :: ts)) Level p start end_ i0 (i1 + 1) (i + 1) start_level s1 = Done s' /\
      without (tabs s) (tabs s') (sub_from el (t' :: ts) Level (tabs s) e ++
        concat (map (sub_from el (t' :: ts) Level (tabs s)) (seg es (i + 1) i1)))) as Hgo.
  { intros s1 Hs1. destruct (rest_frame el el t (t' :: ts) (tabs s) (tabs s1) p [e] (seg es (i + 1) i1) Hrest) as (Hr1 & Hp1 & <-);
      [cbn; by rewrite app_nil_r |].
    destruct (IH (i + 1) s1) as (s' & Hs' & Hwo); try done; try lia; [by rewrite Hp1 |].
    exists s'. split; [done |]. by eapply without_trans. }
  destruct Hrest as [Hnd Hrest]. pose proof (Hrest e (list_elem_of_here _ _)) as He'. cbn beta in Hgo |- *.
  destruct (is_valid e) eqn:Hv; cbn [negb orb].
  2:{ apply Hgo. unfold is_table. rewrite Hv. apply without_nil. }
  specialize (He' eq_refl). destruct (is_leaf Level e) eqn:Hlf.
  { rewrite He'. cbn [andb]. apply Hgo. unfold is_table. rewrite Hv, Hlf. apply without_nil. }
  rewrite andb_false_r. destruct He' as [Hsh Hlv].
  assert (is_table Level e = true) as Ht by (unfold is_table; by rewrite Hv, Hlf). rewrite Ht in Hgo |- *.
  cbn [map concat] in Hnd. rewrite Ht in Hnd. apply NoDup_cons in Hnd as [_ Hnd]. apply NoDup_app in Hnd as [Hnc _].
  assert (0 < 2 ^ Shift t) as Hpos by (apply pow2_pos; destruct Hl; lia).
  destruct (destroy_child s e (if i0 <? i then 0 else start)
              (if i + 1 <? i1 + 1 then msub (mshl 1 (Shift t)) 1 else end_)) as (s1 & s2 & Hn1 & Hf & Hwo); try done.
  { destruct (i0 <? i); [apply Z.mod_0_l; lia | done]. }
  { destruct (i + 1 <? i1 + 1); [| done]. rewrite ones_mword by (unfold level_ok in Hl; lia).
    rewrite Z.ones_equiv. replace (Z.pred (2 ^ Shift t) + 1) with (2 ^ Shift t) by lia. apply Z.mod_same; lia. }
  fold (child e). rewrite Hn1. cbn [obind]. rewrite (proj2 (Z.leb_le _ _)) by done. rewrite Hf. cbn [obind]. by apply Hgo.
Qed.
End loop.

Lemma seg_all es t i i1 : Z.of_nat (length es) = 2 ^ Size t -> i = 0 -> i1 = 2 ^ Size t - 1 -> seg es i i1 = es.
Proof. intros Hlen -> ->. unfold seg. cbn [drop]. rewrite drop_0. apply take_ge. lia. Qed.

(** A range that covers a table from its first to its last entry. *)
Lemma whole_table t t' start end_ :
  level_ok t' -> Shift t = Shift t' + Size t' -> start mod 2 ^ Shift t = 0 -> (end_ + 1) mod 2 ^ Shift t = 0 ->
  ix t' start = 0 /\ ix t' end_ = 2 ^ Size t' - 1 /\ start mod 2 ^ Shift t' = 0 /\ (end_ + 1) mod 2 ^ Shift t' = 0.
Proof.
  intros Hl' Hsh Hst Hen. pose proof Hl' as (? & ? & _).
  assert (0 < 2 ^ Shift t') by (apply pow2_pos; lia). assert (0 < 2 ^ Size t') by (apply pow2_pos; lia).
  apply Z.mod_divide in Hst as [k ->]; [| apply Z.pow_nonzero; lia].
  apply Z.mod_divide in Hen as [m Hm]; [| apply Z.pow_nonzero; lia].
  assert (end_ = m * 2 ^ Shift t - 1) as -> by lia. clear Hm. rewrite Hsh, Z.pow_add_r by lia. split; [| split; [| split]].
  - unfold ix. replace (k * (2 ^ Shift t' * 2 ^ Size t')) with (k * 2 ^ Size t' * 2 ^ Shift t') by lia.
    rewrite Z.div_mul by lia. apply Z.mod_mul. lia.
  - unfold ix. replace (m * (2 ^ Shift t' * 2 ^ Size t') - 1)
      with ((2 ^ Shift t' - 1) + ((m - 1) * 2 ^ Size t' + (2 ^ Size t' - 1)) * 2 ^ Shift t') by lia.
    rewrite Z.div_add, Z.div_small, Z.add_0_l by lia. rewrite Z.add_comm, Z.mod_add, Z.mod_small by lia. done.
  - replace (k * (2 ^ Shift t' * 2 ^ Size t')) with (k * 2 ^ Size t' * 2 ^ Shift t') by lia. apply Z.mod_mul. lia.
  - replace (m * (2 ^ Shift t' * 2 ^ Size t') - 1 + 1) with (m * 2 ^ Size t' * 2 ^ Shift t') by lia. apply Z.mod_mul. lia.
Qed.

Lemma destroy_cons t t' ts p start end_ sl el (s : state A) :
  destroy (t :: t' :: ts) p start end_ sl el s =
  if negb alloc_valid || (Level_Id (t :: t' :: ts) <=? el) then Done s
  else destroy_loop (table_fuel (ld t)) (fun c start end_ s => destroy (t' :: ts) c start end_ sl el s)
         t (size_of (t' :: ts)) (Level_Id (t :: t' :: ts)) p start end_ (idx t start)
         (wrap 32 (idx t end_ + 1)) (idx t start) sl s.
Proof. done. Qed.

(** Freeing the tables below the entries of an aligned range of a table. *)
Lemma destroy_ok t ts p start end_ sl el s es :
  levels_ok (t :: ts) -> masked ts -> alloc_valid = true -> Level_Id (t :: ts) <= sl ->
  (Mask t = true \/ 0 <= start < 2 ^ (Shift t + Size t) /\ 0 <= end_ < 2 ^ (Shift t + Size t)) ->
  tabs s !! p = Some es -> Z.of_nat (length es) = 2 ^ Size t ->
  rest_ok t ts (tabs s) p (seg es (ix t start) (ix t end_)) ->
  start mod 2 ^ Shift t = 0 -> (end_ + 1) mod 2 ^ Shift t = 0 -> ix t start <= ix t end_ ->
  exists s', destroy (t :: ts) p start end_ sl el s = Done s' /\
    without (tabs s) (tabs s') (concat (map (sub_from el ts (Level_Id (t :: ts)) (tabs s))
                                         (seg es (ix t start) (ix t end_)))).
Proof.
  revert t p start end_ s es. induction ts as [|t' ts IH]; intros t p start end_ s es Hls Hm Hav Hsl HM Hp Hlen Hrest Hst Hen Hle.
  { exists s. split; [done |]. rewrite concat_map_nil; [apply without_nil |]. intros x _.
    by destruct (is_table _ x). }
  rewrite destroy_cons, Hav. cbn [negb orb]. destruct (Z.leb_spec (Level_Id (t :: t' :: ts)) el) as [Hel | Hel].
  { exists s. split; [done |]. rewrite concat_map_nil; [apply without_nil |]. intros x _.
    destruct (is_table _ x); [| done]. cbn [tables_from]. rewrite (proj2 (Z.ltb_lt _ _)); [done |].
    unfold Level_Id in *. cbn in *. lia. }
  destruct Hls as [Hl (Hsh & _ & Hls)]. assert (level_ok t') as Hl' by apply Hls.
  rewrite !idx_ix by (done || tauto).
  pose proof (ix_range t start Hl). pose proof (ix_range t end_ Hl). pose proof (size_small t Hl) as (? & ? & ?).
  assert (wrap 32 (ix t end_ + 1) = ix t end_ + 1) as ->.
  { apply wrap_small. assert (2 ^ Size t < 2 ^ 32) by (apply Z.pow_lt_mono_r; lia). unfold in_range. lia. }
  eapply destroy_loop_ok; try done; try lia.
  - intros c start' end_' s' Hok' Hlv' Hst' Hen'. apply Forall_cons in Hm as [Hm' Hms].
    destruct (whole_table t t' start' end_' Hl' Hsh Hst' Hen') as (E1 & E2 & E3 & E4).
    pose proof (ix_range t' end_' Hl'). destruct (tree_root _ _ _ _ (proj1 Hok')) as (es' & Hp' & Hlen').
    destruct (IH t' c start' end_' s' es') as (s2 & Hd & Hwo); try done; try lia.
    + unfold Level_Id in *. cbn in *. lia.
    + by left.
    + by apply tree_rest.
    + exists s2. split; [exact Hd |].
      cbn [tables_from]. rewrite (proj2 (Z.ltb_ge _ _)) by (unfold Level_Id in *; cbn in *; lia). cbn [tail].
      rewrite (entries_eq _ _ _ Hp'). by rewrite (seg_all _ t') in Hwo.
  - unfold table_fuel. rewrite ld_length by done. lia.
Qed.
End destroy.

(** * Unmapping a range *)

Section unmap.
Context `{Arch, PO : Pte_ops, PL : !Pte_laws, MO : Mem_ops}.

(** What unmapping achieves in the hierarchy with the head level [t]. *)
Definition unmap_post (ts : list Traits) (t tt : Traits) (p virt ve : Z) (h h' : heap) : Prop :=
  grows ts p h h' [] /\
  forall a, translate ts h' p a =
    if decide (pg t (Shift tt) virt <= pg t (Shift tt) a <= pg t (Shift tt) ve) then None
    else translate ts h p a.

(** All tables that hold the entries of a range are there. *)
Definition backed (ts : list Traits) (t tt : Traits) (h : heap) (p virt ve level : Z) : Prop :=
  forall a, pg t (Shift tt) virt <= pg t (Shift tt) a <= pg t (Shift tt) ve -> slot_at ts h p a level <> None.

Lemma unmap_target t ts p h virt ve :
  levels_ok (t :: ts) -> tree_ok (t :: ts) h p -> pg t (Shift t) virt <= pg t (Shift t) ve ->
  exists h', impl_unmap (ld t) h p virt ve = Done h' /\ unmap_post (t :: ts) t t p virt ve h h'.
Proof.
  intros [Hl _] [Hs Hn] Hle. destruct (tree_root _ _ _ _ Hs) as (es & Hp & Hlen). rewrite <- !ix_pg in Hle by done.
  pose proof (ix_range t virt Hl). pose proof (ix_range t ve Hl).
  unfold impl_unmap. rewrite !ld_offset by done. rewrite !(offset_32 t) by (done || lia).
  destruct (impl_unmap_loop_ok t (table_fuel (ld t)) h p es (ix t virt) (ix t ve)) as (es' & -> & Hlen' & Hk);
    [done.. | lia | lia | unfold table_fuel; rewrite ld_length by done; lia |].
  destruct (set_entries t ts p h es es' Hs Hn Hp Hlen') as [G Htr].
  { intros k e He. rewrite Hk in He. destruct (decide _); [| by left]. right. injection He as <-.
    unfold is_table. by rewrite invalid_0. }
  eexists. split; [done |]. split; [done |]. intros a. rewrite Htr, <- !ix_pg by done. pose proof (ix_range t a Hl).
  rewrite Hk, Z2Nat.id by lia. destruct (decide (ix t virt <= ix t a <= ix t ve)).
  - rewrite decide_True by lia. by rewrite invalid_0.
  - rewrite decide_False by lia. cbn [translate]. by rewrite (entries_eq _ _ _ Hp).
Qed.

Lemma slot_at_congr t ts h p a b l :
  levels_ok (t :: ts) -> a mod 2 ^ (Shift t + Size t) = b mod 2 ^ (Shift t + Size t) ->
  slot_at (t :: ts) h p a l = slot_at (t :: ts) h p b l.
Proof.
  revert t p. induction ts as [|t' ts IH]; intros t p [Hl Hls] Hab; cbn [slot_at].
  all: assert (ix t a = ix t b) as -> by (rewrite !ix_pg by done; unfold pg; by rewrite Hab).
  - done.
  - destruct (l =? _); [done |]. destruct (entries h p !! _) as [e|]; [| done]. destruct (is_table _ e); [| done].
    destruct Hls as (Hsh & _ & Hls). apply IH; [done |]. destruct Hl as (? & ? & _). rewrite <- Hsh.
    rewrite <- (Z.mod_mod_divide a (2 ^ (Shift t + Size t))), <- (Z.mod_mod_divide b (2 ^ (Shift t + Size t))), Hab; [done | |].
    all: exists (2 ^ Size t); rewrite Z.pow_add_r by lia; lia.
Qed.

Lemma slot_at_frame ts h h' p a l :
  (forall q, q ∈ tables ts h p -> h' !! q = h !! q) -> slot_at ts h' p a l = slot_at ts h p a l.
Proof.
  revert p. induction ts as [|t ts IH]; intros p Hf; [done |]. cbn [tables slot_at] in *.
  destruct (l =? _); [done |].
  assert (entries h' p = entries h p) as -> by (unfold entries; by rewrite Hf by left).
  destruct (entries h p !! Z.to_nat (ix t a)) as [e|] eqn:He; [| done].
  destruct (is_table (Level_Id (t :: ts)) e) eqn:Ht; [| done]. apply IH. intros q Hq. apply Hf. right.
  eapply elem_of_subtree; [by eapply list_elem_of_lookup_2 | done | exact Hq].
Qed.

Section directory.
Context (t t' tt : Traits) (ts : list Traits) (level : Z).
Context (next : Z -> Z -> Z -> heap -> outcome heap).
Abbreviation dir := (t :: t' :: ts).

Hypothesis Hls : levels_ok dir.
Hypothesis Htt : Shift tt <= Shift t' /\ level_ok tt.
Hypothesis Hlev : level < Level_Id dir.
Hypothesis Hnext : forall c virt ve h,
  tree_ok (t' :: ts) h c -> pg t' (Shift tt) virt <= pg t' (Shift tt) ve ->
  backed (t' :: ts) t' tt h c virt ve level ->
  exists h', next c virt ve h = Done h' /\ unmap_post (t' :: ts) t' tt c virt ve h h'.

(** Unmapping below one entry. *)
Lemma unmap_part p h es virt ve :
  tree_ok dir h p -> h !! p = Some es -> pg t (Shift tt) virt <= pg t (Shift tt) ve ->
  backed dir t tt h p virt ve level ->
  let v := part_end t (ix t virt) (ix t ve) ve in
  exists e h', es !! Z.to_nat (ix t virt) = Some e /\ is_table (Level_Id dir) e = true /\
    next (child e) virt v h = Done h' /\ grows dir p h h' [] /\ h' !! p = Some es /\
    (forall a, ix t a <> ix t virt -> slot_at dir h' p a level = slot_at dir h p a level) /\
    forall a, translate dir h' p a =
      if decide (ix t a = ix t virt /\ pg t (Shift tt) virt <= pg t (Shift tt) a <= pg t (Shift tt) ve) then None
      else translate dir h p a.
Proof.
  intros Hok Hp Hle Hb v. set (k := ix t virt) in *.
  destruct (part_end_pg t t' tt ts Hls Htt virt ve Hle) as (HkK & Hpv & _ & _ & Heqv). fold k v in HkK, Hpv, Heqv.
  destruct (dir_levels t t' tt ts Hls Htt) as (Hl & Hl' & Heq & Hs).
  assert (Level_Id dir <> level) as Hne by lia. assert (0 < 2 ^ Shift t) as Hpos by (apply pow2_pos; destruct Hl; lia).
  assert (forall a, slot_at dir h p a level =
            match es !! Z.to_nat (ix t a) with
            | Some e => if is_table (Level_Id dir) e then slot_at (t' :: ts) h (child e) a level else None
            | None => None end) as Hsl.
  { intros a. cbn [slot_at]. rewrite (proj2 (Z.eqb_neq level _)) by done. by rewrite (entries_eq _ _ _ Hp). }
  pose proof (Hb virt ltac:(lia)) as Hbv. rewrite Hsl in Hbv. fold k in Hbv.
  destruct (es !! Z.to_nat k) as [e|] eqn:He; [| done]. destruct (is_table (Level_Id dir) e) eqn:Ht; [| done].
  exists e. pose proof (tree_child _ _ _ _ _ _ _ Hok Hp He Ht) as Hokc.
  destruct (Hnext (child e) virt v h Hokc Hpv) as (h' & Hc & G & Htr).
  { intros a Ha. set (b := k * 2 ^ Shift t + a mod 2 ^ Shift t).
    assert (a mod 2 ^ (Shift t' + Size t') = b mod 2 ^ (Shift t' + Size t')) as Hab.
    { rewrite <- Heq. unfold b. rewrite Z.add_comm, Z.mod_add, Z.mod_mod by lia. done. }
    assert (ix t b = k) as Hbk.
    { unfold b, ix. pose proof (Z.mod_pos_bound a (2 ^ Shift t) Hpos).
      rewrite Z.add_comm, Z.div_add, (Z.div_small (a mod _)), Z.add_0_l by lia.
      apply Z.mod_small. unfold k. by apply ix_range. }
    assert (pg t' (Shift tt) b = pg t' (Shift tt) a) as Hpb by (unfold pg; by rewrite Hab).
    rewrite (slot_at_congr t' ts h _ a b) by (done || apply Hls).
    pose proof (Hb b) as Hbb. rewrite Hsl, Hbk, He, Ht in Hbb. apply Hbb. apply Heqv; [done | by rewrite Hpb]. }
  destruct Hok as [Hsh Hn].
  destruct (child_step t (t' :: ts) p h h' es (Z.to_nat k) e [] Hsh Hn Hp He Ht G) as (G' & Hp' & Htr').
  { by intros ? ?%elem_of_nil. }
  exists h'. split; [done |]. split; [done |]. split; [done |]. split; [done |]. split; [done |].
  pose proof (ix_range t virt Hl) as Hrk. fold k in Hrk. split.
  - intros a Ha. rewrite Hsl. cbn [slot_at]. rewrite (proj2 (Z.eqb_neq level _)) by done. rewrite (entries_eq _ _ _ Hp').
    pose proof (ix_range t a Hl). destruct (es !! Z.to_nat (ix t a)) as [x|] eqn:Hx; [| done].
    destruct (is_table (Level_Id dir) x) eqn:Htx; [| done]. apply (slot_at_frame (t' :: ts)). intros q Hq.
    apply (g_frame _ _ _ _ _ G); [| by intros ?%elem_of_nil]. intros Hq'.
    destruct (NoDup_child _ _ _ _ Hn) as [_ Hnc]. rewrite (entries_eq _ _ _ Hp) in Hnc.
    eapply (NoDup_concat_disjoint _ es (Z.to_nat (ix t a)) (Z.to_nat k) x e q Hnc Hx He); [lia | |]; cbn beta;
      [by rewrite Htx | by rewrite Ht].
  - intros a. rewrite Htr'. pose proof (ix_range t a Hl). destruct (decide (Z.to_nat (ix t a) = Z.to_nat k)) as [Hi | Hi].
    + assert (ix t a = k) as Hak by lia. rewrite Htr. specialize (Heqv a Hak).
      rewrite (translate_entry t (t' :: ts) h p es e a Hp) by (by rewrite Hi). rewrite entry_table by done.
      destruct (decide _), (decide (ix t a = k /\ _)); tauto.
    + rewrite decide_False; [done |]. intros [E _]. by rewrite E in Hi.
Qed.

Lemma unmap_loop_ok n p virt ve h :
  ix t ve - ix t virt < Z.of_nat n -> tree_ok dir h p -> pg t (Shift tt) virt <= pg t (Shift tt) ve ->
  backed dir t tt h p virt ve level ->
  exists h', unmap_loop n next (ld t) (Level_Id dir) p virt ve (ix t virt) (ix t ve) h = Done h' /\
    unmap_post dir t tt p virt ve h h'.
Proof.
  revert virt h. induction n as [|n IH]; intros virt h Hn Hok Hle Hb.
  { destruct (part_end_pg t t' tt ts Hls Htt virt ve Hle) as [? _]. lia. }
  destruct (dir_levels t t' tt ts Hls Htt) as (Hl & Hl' & Heq & Hs). pose proof (ix_range t virt Hl) as Hr.
  destruct (tree_root _ _ _ _ (proj1 Hok)) as (es & Hp & Hlen).
  destruct (unmap_part p h es virt ve Hok Hp Hle Hb) as (e & h1 & He & Ht & Hc & G & Hp1 & Hsl & Htr).
  destruct (part_end_pg t t' tt ts Hls Htt virt ve Hle) as (HkK & Hpv & Hlast & Hsame & _).
  set (k := ix t virt) in *. set (K := ix t ve) in *.
  cbn [unmap_loop]. unfold deref, get_entry. cbn [pte_table pte_offset]. rewrite ld_offset by done. fold k.
  rewrite (read_entry_slot _ _ es _ e) by (done || lia). cbn [obind].
  assert (negb (is_valid e) || is_leaf (Level_Id dir) e = false) as ->.
  { unfold is_table in Ht. apply andb_true_iff in Ht as [-> Hlf]. apply negb_true_iff in Hlf. by rewrite Hlf. }
  fold (child e) (part_end t k K ve). unfold part_end in Hc. cbn [_shift ld make_Ldesc]. rewrite Hc. cbn [obind].
  destruct (dir_pg t t' tt ts Hls Htt virt) as (Ev & Rv & _). destruct (dir_pg t t' tt ts Hls Htt ve) as (Ee & Re & Ie).
  fold k in Ev. fold K in Ee, Ie. set (M := 2 ^ (Shift t - Shift tt)) in *.
  assert (tree_ok dir h1 p) as Hok1.
  { split; [apply G |]. apply (grows_nodup _ _ _ _ _ G (proj2 Hok)); [constructor | by intros ? ?%elem_of_nil]. }
  destruct (Z.leb_spec K k) as [HKk | HkK'].
  { assert (k = K) as HeqK by lia. exists h1. split; [done |]. split; [done |]. intros a. rewrite Htr.
    destruct (dir_pg t t' tt ts Hls Htt a) as (Ea & Ra & _). fold M in Ea, Ra.
    destruct (decide (pg t (Shift tt) virt <= _ <= _)) as [Hin | Hin]; [| by rewrite decide_False by tauto].
    rewrite decide_True; [done |]. split; [| done]. rewrite Ea, Ev, Ee, <- HeqK in Hin. destruct Hin as [H1 H2].
    apply digit_le in H1; [| lia..]. apply digit_le in H2; lia. }
  destruct (Hlast HkK') as [Hk1 _]. rewrite Hk1.
  destruct (entry_start t t' (Shift tt) (k + 1)) as (_ & Hix & Hp0 & Hpg); [done.. | lia |]. fold M in Hpg.
  set (v2 := mshl (k + 1) (Shift t)) in *.
  assert (forall a, pg t (Shift tt) v2 <= pg t (Shift tt) a -> k + 1 <= ix t a) as Hge.
  { intros a Ha. destruct (dir_pg t t' tt ts Hls Htt a) as (Ea & Ra & _). fold M in Ea, Ra. rewrite Hpg, Ea in Ha.
    apply (digit_le M (k + 1) 0 _ (pg t' (Shift tt) a)); lia. }
  assert (pg t (Shift tt) virt <= pg t (Shift tt) v2 <= pg t (Shift tt) ve) as Hv2.
  { rewrite Hpg, Ev, Ee. assert ((k + 1) * M <= K * M) by (apply Z.mul_le_mono_nonneg_r; lia). lia. }
  destruct (IH v2 h1) as (h2 & Hc2 & G2 & Htr2); [rewrite Hix; lia | done | lia | |].
  - intros a Ha. rewrite Hsl; [apply Hb; lia |]. specialize (Hge a). lia.
  - rewrite Hix in Hc2. exists h2. split; [done |]. split; [apply (grows_trans _ _ _ _ _ [] [] G G2) |].
    intros a. rewrite Htr2. destruct (decide (pg t (Shift tt) v2 <= _ <= _)) as [Hin | Hin].
    { by rewrite decide_True by lia. }
    rewrite Htr. destruct (dir_pg t t' tt ts Hls Htt a) as (Ea & Ra & _). fold M in Ea, Ra.
    destruct (decide (pg t (Shift tt) virt <= _ <= _)) as [Hi2 | Hi2]; [| by rewrite decide_False by tauto].
    rewrite decide_True; [done |]. split; [| done].
    assert (k <= ix t a) by (destruct Hi2 as [Hi2 _]; rewrite Ea, Ev in Hi2; by apply digit_le in Hi2).
    destruct (decide (ix t a = k)); [done |].
    assert ((k + 1) * M <= ix t a * M) by (apply Z.mul_le_mono_nonneg_r; lia). rewrite Hpg, Ea in *. lia.
Qed.
End directory.

Lemma unmap_ok fuel ts t tt p virt ve level h :
  levels_ok ts -> head ts = Some t -> Level_get ts level = Some tt -> 0 <= level <= Level_Id ts ->
  Forall (fun x => 2 ^ Size x <= Z.of_nat fuel) ts -> tree_ok ts h p ->
  pg t (Shift tt) virt <= pg t (Shift tt) ve -> backed ts t tt h p virt ve level ->
  exists h', unmap fuel ts p virt ve level h = Done h' /\ unmap_post ts t tt p virt ve h h'.
Proof.
  revert t p virt ve h.
  induction ts as [|t0 ts IH]; intros t p virt ve h Hls [= ->] Hg Hlev Hf Hok Hle Hb.
  destruct ts as [|t' ts].
  { injection Hg as ->. by apply unmap_target. }
  cbn [unmap]. destruct (Z.eqb_spec level (Level_Id (t :: t' :: ts))) as [-> | Hne].
  { cbn [Level_get] in Hg. rewrite Z.eqb_refl in Hg. injection Hg as ->. by apply unmap_target. }
  rewrite Level_get_cons in Hg by done. assert (levels_ok (t' :: ts)) as Hls' by apply Hls.
  destruct (Level_get_spec _ _ _ Hls' Hg) as [Htt Hsh]. assert (level_ok t) as Hl by apply Hls.
  apply Forall_cons in Hf as [Hf Hfs].
  rewrite !ld_index by done. apply (unmap_loop_ok t t' tt ts level); try done.
  - lia.
  - intros c virt' ve' h' ? ? ?. apply IH; try done. unfold Level_Id in *. cbn in *. lia.
  - pose proof (ix_range t virt Hl). pose proof (ix_range t ve Hl). lia.
Qed.
End unmap.
