(* ===== verification/MemSpace.v ===== *)
(** Memory address spaces on IA-32 and AMD64: the page-table entries
    (ia32/paging-ptab.h, ia32/32 and ia32/64/paging-ptab-arch-bits.h,
    paging-page.h), an instance of the entry interface of Ptab.v, and the
    operations of a space on its page directory (ia32/mem_space-ia32.cc,
    ia32/mem_space.h, paging-pdir.h). *)

From S2P Require Import Prelude Outcome L4Types Ptab PtabInv PtabMap PtabWalk.

(** * Page-table entries *)

Module Pt_entry.
Definition Valid := 0x1.
Definition Writable := 0x2.
Definition User := 0x4.
Definition Referenced := 0x20.
Definition Dirty := 0x40.
Definition Pse_bit := 0x80.
Definition Cpu_global := 0x100.
(** The execute-disable bit exists on AMD64 only. *)
Definition XD `{Arch} := if MWORD_BITS =? 64 then 2 ^ 63 else 0.
Definition ATTRIBS_MASK `{Arch} := XD .| 0x6.
End Pt_entry.
Import Pt_entry.

(** The levels of the two machines, for addresses, and for page numbers. *)
Definition Ptab_traits `{Arch} : list Traits :=
  if MWORD_BITS =? 64
  then [mkTraits 39 9 false true 0; mkTraits 30 9 true true 0; mkTraits 21 9 true true 0; mkTraits 12 9 true true 0]
  else [mkTraits 22 10 true false 0; mkTraits 12 10 true true 0].

Definition PAGE_SHIFT := 12.
Definition Ptab_traits_vpn `{Arch} : list Traits := shift_list Ptab_traits PAGE_SHIFT.

(** ** Attributes of pages *)
Module Page.
(** [L4_msg_item::Memory_type] *)
Definition Set_ := 0x10.
Definition Normal := 0x20.
Definition Buffered := 0x40.
Definition Uncached := 0x00.

(** [Kern] *)
Definition None_ := 0.
Definition Global := 1.

Definition Cache_mask := 0x18.
Definition CACHEABLE := 0x00.
Definition BUFFERED := 0x10.
Definition NONCACHEABLE := 0x18.

Record Attr := mkAttr { rights : Z; type : Z; kern : Z }.
#[global] Instance Attr_eq_dec : EqDecision Attr.
Proof. solve_decision. Defined.

Definition apply `{Arch} (n o : Attr) : Attr :=
  mkAttr (rights n .& rights o)
    (if (type o .& Set_) =? Set_ then type o .& wrap 8 (Z.lnot Set_) else type n) (kern n).

Definition empty (a : Attr) : bool :=
  L4_fpage.Rights.empty (rights a .& (L4_fpage.Rights.R .| L4_fpage.Rights.W .| L4_fpage.Rights.X)).
End Page.
Import Page.

Abbreviation R := L4_fpage.Rights.R.
Abbreviation W := L4_fpage.Rights.W.
Abbreviation X := L4_fpage.Rights.X.
Abbreviation U := L4_fpage.Rights.U.

(** The operand of [r |= bit] under a condition. *)
Definition flag (c : bool) (bit : Z) : Z := if c then bit else 0.

Section entry.
Context `{Arch}.
(** [Pt_entry::global()]: the global bit, if the processor has it enabled. *)
Context (global : Z).

(** The attribute bits of [make_page_tmpl] and [set_attribs]. *)
Definition attr_bits (a : Attr) : Z :=
  flag (nonzero (rights a .& W)) Writable .| flag (nonzero (rights a .& U)) User
  .| flag (negb (nonzero (rights a .& X))) XD
  .| flag (type a =? Normal) CACHEABLE .| flag (type a =? Buffered) BUFFERED
  .| flag (type a =? Uncached) NONCACHEABLE .| flag (nonzero (kern a .& Global)) global.

(** [make_page_tmpl(level, Mword attr)] *)
Definition make_page_tmpl_raw (level attr : Z) : Z := flag (negb (level =? 0)) Pse_bit .| attr .| Valid.

(** [make_page_tmpl(level, Page::Attr attr)] *)
Definition make_page_tmpl_attr (level : Z) (a : Attr) : Z :=
  flag (negb (level =? 0)) Pse_bit .| attr_bits a .| Valid.

Definition mask_lsb (v o : Z) : Z := v .& mshl (mnot 0) o.
Definition get_lsb (v o : Z) : Z := v .& mnot (mshl (mnot 0) o).

Definition pte_is_valid (e : Z) : bool := nonzero (e .& Valid).
Definition pte_is_leaf (l e : Z) : bool := (l =? 0) || nonzero (e .& Pse_bit).
Definition pte_next_level (e : Z) : Z := mask_lsb e PAGE_SHIFT.
Definition pte_set_next_level (phys : Z) : Z := phys .| Valid .| User .| Writable.

#[global] Instance ia32_pte : Pte_ops := {|
  entry_size := MWORD_BITS / 8;
  is_valid := pte_is_valid;
  is_leaf := pte_is_leaf;
  next_level := pte_next_level;
  set_next_level := pte_set_next_level;
  page_attr := Z;
  make_page_tmpl := make_page_tmpl_raw;
  next_low := PAGE_SHIFT;
  phys_bits := MWORD_BITS |}.

(** [set_page(Mword phys, Mword attr)] *)
Definition set_page (level phys attr : Z) : Z :=
  phys .| Valid .| attr .| flag (negb (level =? 0)) Pse_bit.

Definition page_order (level : Z) : Z := default 0 (page_order_for_level Ptab_traits_vpn level).

Definition page_addr (level e : Z) : Z := mask_lsb e (page_order level) .& mnot XD.

Definition make_page (level addr : Z) (a : Attr) : Z := for_pa (make_page_tmpl_attr level a) addr.

Definition set_attribs (e : Z) (a : Attr) : Z := (e .& mnot (ATTRIBS_MASK .| Cache_mask)) .| attr_bits a.

Definition attribs (e : Z) : Attr :=
  mkAttr (R .| flag (nonzero (e .& Writable)) W .| flag (nonzero (e .& User)) U
            .| flag (negb (nonzero (e .& XD))) X)
    (if (e .& Cache_mask) =? BUFFERED then Buffered
     else if (e .& Cache_mask) =? NONCACHEABLE then Uncached else Normal) 0.

Definition attribs_compatible (e : Z) (attr : Attr) : bool :=
  let cur := attribs e in
  let x := flag (XD =? 0) X in
  let g := flag (global =? 0) Global in
  ((rights cur .| x) =? (rights attr .| x)) && (type cur =? type attr) &&
  ((kern cur .| g) =? (kern attr .| g)).

Definition add_attribs (e attr : Z) : Z := e .| attr.
Definition del_attribs (e attr : Z) : Z := e .& mnot attr.

Definition del_rights (e r : Z) : Z :=
  let e := if nonzero (r .& W) then e .& mnot Writable else e in
  if nonzero (r .& X) then e .| XD else e.

(** [access_flags()]: the rights that were used, and the entry with the flags
    reset.  The compare-and-exchange is against the same value. *)
Definition access_flags (e : Z) : Z * Z :=
  if negb (pte_is_valid e) then (0, e)
  else if nonzero (e .& Dirty) then (R .| W, e .& mnot (Dirty .| Referenced))
  else if nonzero (e .& Referenced) then (R, e .& mnot (Dirty .| Referenced))
  else (0, e).
End entry.

(** * Operations of a space *)

Inductive Status :=
  | Insert_ok
  | Insert_warn_exists
  | Insert_warn_attrib_upgrade
  | Insert_err_nomem
  | Insert_err_exists.
#[global] Instance Status_eq_dec : EqDecision Status.
Proof. solve_decision. Defined.

Section space.
Context `{Arch} (global : Z) `{MO : Mem_ops} {A : Type} `{AO : !Alloc_ops A}.

(** [*i.pte = v] *)
Definition pte_set (i : Pte_ptr) (v : Z) (h : heap) : outcome heap :=
  write_entry h (pte_table i) (pte_offset i) v.

(** The page directory is at [dir]; [virt] is a page number, [order] the
    logarithm of the page size in bytes. *)
Definition v_insert (dir phys virt order : Z) (page_attribs : Attr) (s : state A)
  : outcome (Status * state A) :=
  match lower_bound_level Ptab_traits_vpn order with
  | None => Fault
  | Some level =>
      let* (i, s) := walk Ptab_traits_vpn dir virt level s in
      let* v := deref (tabs s) i in
      if negb (is_valid v) && negb (pte_level i =? level) then Done (Insert_err_nomem, s)
      else if is_valid v && (negb (pte_level i =? level) || negb (page_addr (pte_level i) v =? phys))
      then Done (Insert_err_exists, s)
      else
        let valid := is_valid v in
        let page_attribs :=
          if valid then mkAttr (rights page_attribs .| rights (attribs v)) (type page_attribs) (kern page_attribs)
          else page_attribs in
        let entry := make_page global (pte_level i) phys page_attribs in
        if valid then
          if v =? entry then Done (Insert_warn_exists, s)
          else let* h := pte_set i entry (tabs s) in Done (Insert_warn_attrib_upgrade, with_tabs s h)
        else let* h := pte_set i entry (tabs s) in Done (Insert_ok, with_tabs s h)
  end.

(** The order of the slot, and the physical address and the attributes of the
    page when there is one. *)
Definition v_lookup (dir virt : Z) (h : heap) : outcome (Z * option (Z * Attr)) :=
  let* i := lookup_walk Ptab_traits_vpn dir virt 0 h in
  let* v := deref h i in
  Done (page_order (pte_level i),
        if is_valid v then Some (page_addr (pte_level i) v, attribs v) else None).

Definition v_set_access_flags (dir virt flags : Z) (h : heap) : outcome heap :=
  let* i := lookup_walk Ptab_traits_vpn dir virt 0 h in
  let* v := deref h i in
  if negb (is_valid v) then Done h
  else pte_set i (add_attribs v (flag (nonzero (flags .& R)) Referenced .| flag (nonzero (flags .& W)) Dirty)) h.

Definition v_delete (dir virt flush : Z) (h : heap) : outcome (Z * heap) :=
  let* i := lookup_walk Ptab_traits_vpn dir virt 0 h in
  let* v := deref h i in
  if negb (is_valid v) then Done (0, h)
  else
    let '(ret, v) := access_flags v in
    let* h := pte_set i (if nonzero (flush .& R) then 0 else del_rights v flush) h in
    Done (ret, h).

Definition set_attributes (dir virt : Z) (page_attribs : Attr) (h : heap) : outcome (bool * heap) :=
  let* i := lookup_walk Ptab_traits_vpn dir virt 0 h in
  let* v := deref h i in
  if negb (is_valid v) then Done (false, h)
  else let* h := pte_set i (set_attribs global v page_attribs) h in Done (true, h).

(** [Pdir_x_t::virt_to_phys]; [virt] is an address. *)
Definition virt_to_phys (dir virt : Z) (h : heap) : outcome Z :=
  let* i := lookup_walk Ptab_traits_vpn dir (virt >> PAGE_SHIFT) 0 h in
  let* v := deref h i in
  if negb (is_valid v) then Done (mnot 0)
  else Done (page_addr (pte_level i) v .| get_lsb virt (page_order (pte_level i))).

Definition Super_level := 1.

(** [Mem_layout::User_max] is a parameter of the layout. *)
Definition dir_shutdown (dir User_max : Z) (s : state A) : outcome (state A) :=
  let ts := Ptab_traits_vpn in
  let* s := base_destroy ts dir 0 (User_max >> PAGE_SHIFT) (root_level ts) 0 s in
  base_destroy ts dir (madd User_max 1 >> PAGE_SHIFT) (max_addr ts >> PAGE_SHIFT) (root_level ts) Super_level s.
End space.

(** * The entries satisfy what the walks rely on *)

Section entry_laws.
Context `{Arch}.

Lemma pte_valid_bit e : pte_is_valid e = Z.testbit e 0.
Proof. unfold pte_is_valid, Valid. by rewrite <- (nonzero_land_bit e 0). Qed.

Lemma pte_leaf_bit l e : pte_is_leaf l e = (l =? 0) || Z.testbit e 7.
Proof. unfold pte_is_leaf, Pse_bit. by rewrite <- (nonzero_land_bit e 7). Qed.

(** The low bits of an aligned word are clear. *)
Lemma aligned_bit x k n : 0 <= n < k -> x mod 2 ^ k = 0 -> Z.testbit x n = false.
Proof.
  intros Hn Hx. rewrite <- (Z.mod_pow2_bits_low x k n) by lia. by rewrite Hx, Z.bits_0.
Qed.

#[global] Instance ia32_pte_laws : Pte_laws.
Proof.
  pose proof arch_ge32. split.
  - cbn. destruct MWORD_BITS_ok as [-> | ->]; [by left | by right].
  - cbn. unfold PAGE_SHIFT. lia.
  - cbn. by rewrite pte_valid_bit.
  - done.
  - intros x Hx Hal. cbn in *. rewrite pte_valid_bit. unfold pte_set_next_level. rewrite !Z.lor_spec. cbn. btauto.
  - intros l x Hl Hx Hal. cbn in *. rewrite pte_leaf_bit. unfold pte_set_next_level. rewrite !Z.lor_spec.
    rewrite (aligned_bit x PAGE_SHIFT) by (done || unfold PAGE_SHIFT; lia). by rewrite (proj2 (Z.eqb_neq _ _) Hl).
  - intros x Hx Hal. cbn in *. unfold pte_next_level, mask_lsb, pte_set_next_level.
    replace (x .| Valid .| User .| Writable) with (x .| Z.ones 3) by (by rewrite <- !Z.lor_assoc).
    assert (forall n, 0 <= n < 12 -> Z.testbit x n = false) as Hb by (intros n Hn; by apply (aligned_bit x PAGE_SHIFT)).
    apply Z.bits_inj'. intros n Hn. destruct (Z.ltb_spec n 12).
    + rewrite Hb by lia. unfold PAGE_SHIFT. bits_simp; bits_close.
    + unfold PAGE_SHIFT. bits_simp; bits_close.
Qed.

Lemma ia32_levels_ok : levels_ok Ptab_traits_vpn.
Proof.
  unfold Ptab_traits_vpn, shift_list, Ptab_traits. destruct MWORD_BITS_ok as [E | E]; rewrite E; cbn.
  all: unfold level_ok, entry_bits, PAGE_SHIFT; cbn; rewrite E; vm_compute; intuition congruence.
Qed.

(** Templates make valid leaf entries whatever the attributes. *)
Lemma ia32_tmpl_ok level attr : tmpl_ok level (make_page_tmpl_raw level attr).
Proof.
  intros pa Hpa Hal. unfold for_pa, make_page_tmpl_raw. cbn. rewrite pte_valid_bit, pte_leaf_bit, !Z.lor_spec. cbn.
  split; [btauto |]. unfold flag. destruct (level =? 0); cbn; [done | btauto].
Qed.
End entry_laws.

(** * Round trips of entries *)

Section entry_roundtrip.
Context `{Arch} (global : Z).

(** Attributes that an entry can hold: a readable page of one of the three
    memory types. *)
Definition attr_ok (a : Attr) : Prop :=
  0 <= rights a < 16 /\ Z.testbit (rights a) 2 = true /\
  (type a = Normal \/ type a = Buffered \/ type a = Uncached).

(** A page frame: aligned, and below the execute-disable bit. *)
Definition frame_ok (level addr : Z) : Prop :=
  is_mword addr /\ addr mod 2 ^ page_order level = 0 /\ addr .& XD = 0.

Definition global_ok : Prop := global = 0 \/ global = Cpu_global.

(** The rights an entry reports: without the execute-disable bit every page is
    executable. *)
Definition seen_rights (r : Z) : Z := r .| flag (XD =? 0) X.

Definition low_bits (level : Z) (a : Attr) : Z :=
  flag (negb (level =? 0)) Pse_bit .| flag (nonzero (rights a .& W)) Writable
  .| flag (nonzero (rights a .& U)) User
  .| flag (type a =? Normal) CACHEABLE .| flag (type a =? Buffered) BUFFERED
  .| flag (type a =? Uncached) NONCACHEABLE .| flag (nonzero (kern a .& Global)) global .| Valid.

Definition xd_bits (a : Attr) : Z := flag (negb (nonzero (rights a .& X))) XD.

Lemma make_page_split level addr a : make_page global level addr a = addr .| (xd_bits a .| low_bits level a).
Proof. unfold make_page, for_pa, make_page_tmpl_attr, attr_bits, xd_bits, low_bits. bits_ext. Qed.

Lemma flag_range w c b : 0 <= w -> in_range w b -> in_range w (flag c b).
Proof. intros Hw Hb. destruct c; [done |]. split; [done | by apply pow2_pos]. Qed.

Lemma low_bits_range level a : global_ok -> in_range 9 (low_bits level a).
Proof.
  intros Hg. unfold low_bits. repeat apply in_range_lor; try lia; try apply flag_range; try lia.
  all: try (destruct Hg as [-> | ->]); vm_compute; intuition congruence.
Qed.

Lemma xd_cases a : xd_bits a = 0 \/ xd_bits a = 2 ^ 63 /\ XD = 2 ^ 63.
Proof. unfold xd_bits, XD, flag. destruct (negb _), (MWORD_BITS =? 64); auto. Qed.

(** The bits of a word below the page size are the attribute bits. *)
Lemma low_mask level addr a m : global_ok ->
  addr mod 2 ^ 12 = 0 -> in_range 12 m -> make_page global level addr a .& m = low_bits level a .& m.
Proof.
  intros Hg Hal Hm. pose proof (low_bits_range level a Hg) as Hlow. rewrite make_page_split.
  apply Z.bits_inj'. intros n Hn. rewrite !Z.land_spec, !Z.lor_spec. destruct (Z.ltb_spec n 12).
  - rewrite (aligned_bit addr 12) by (done || lia).
    assert (Z.testbit (xd_bits a) n = false) as ->; [| done].
    destruct (xd_cases a) as [-> | [-> _]]; [apply Z.bits_0 | apply Z.pow2_bits_false; lia].
  - rewrite (testbit_high 12 m) by (done || lia). by rewrite !andb_false_r.
Qed.

Lemma page_order_range level : 0 <= level <= Level_Id Ptab_traits_vpn -> 12 <= page_order level < 40.
Proof.
  unfold page_order, page_order_for_level, Ptab_traits_vpn, shift_list, Ptab_traits, Level_Id.
  destruct MWORD_BITS_ok as [-> | ->]; cbn; intros Hl.
  - assert (level = 0 \/ level = 1) as [-> | ->] by lia; vm_compute; intuition congruence.
  - assert (level = 0 \/ level = 1 \/ level = 2 \/ level = 3) as [-> | [-> | [-> | ->]]] by lia;
      vm_compute; intuition congruence.
Qed.

Lemma frame_aligned level addr : 0 <= level <= Level_Id Ptab_traits_vpn -> frame_ok level addr -> addr mod 2 ^ 12 = 0.
Proof.
  intros Hl (_ & Hal & _). pose proof (page_order_range level Hl).
  rewrite <- (Z.mod_mod_divide addr (2 ^ page_order level)); [by rewrite Hal |].
  exists (2 ^ (page_order level - 12)). rewrite <- Z.pow_add_r by lia. f_equal. lia.
Qed.

Lemma make_page_leaf level addr a : global_ok -> 0 <= level <= Level_Id Ptab_traits_vpn -> frame_ok level addr ->
  pte_is_valid (make_page global level addr a) = true /\ pte_is_leaf level (make_page global level addr a) = true.
Proof.
  intros Hg Hl Hf. pose proof (frame_aligned _ _ Hl Hf) as Hal. unfold pte_is_valid, pte_is_leaf.
  rewrite !low_mask by (done || (vm_compute; intuition congruence)). unfold low_bits. split.
  - unfold Valid. rewrite (nonzero_land_bit _ 0), !Z.lor_spec by lia. cbn. btauto.
  - destruct (level =? 0) eqn:E; [done |]. unfold Pse_bit at 2. rewrite (nonzero_land_bit _ 7), !Z.lor_spec by lia. done.
Qed.

Lemma make_page_addr level addr a : global_ok -> 0 <= level <= Level_Id Ptab_traits_vpn -> frame_ok level addr ->
  page_addr level (make_page global level addr a) = addr.
Proof.
  intros Hg Hl Hf. pose proof (page_order_range level Hl). destruct Hf as (Hm & Hal & Hx).
  pose proof (low_bits_range level a Hg) as Hlow. rewrite make_page_split. unfold page_addr, mask_lsb.
  apply Z.bits_inj'. intros n Hn. rewrite !Z.land_spec, !Z.lor_spec, testbit_mnot, testbit_mshl by lia.
  destruct (Z.ltb_spec n MWORD_BITS); [| by rewrite (testbit_high MWORD_BITS addr), !andb_false_r by (done || lia)].
  destruct (Z.ltb_spec n (page_order level)).
  { rewrite (aligned_bit addr (page_order level)) by (done || lia).
    rewrite (Z.testbit_neg_r (mnot 0)) by lia. by rewrite !andb_false_r. }
  rewrite testbit_mnot, Z.bits_0 by lia. rewrite (proj2 (Z.ltb_lt _ _)) by lia.
  rewrite (testbit_high 9 (low_bits level a)) by (done || lia). rewrite orb_false_r. cbn [andb negb].
  rewrite !andb_true_r. assert (Z.testbit addr n && Z.testbit XD n = false) as Hx'.
  { rewrite <- Z.land_spec, Hx. apply Z.bits_0. }
  assert (Z.testbit (xd_bits a) n = true -> Z.testbit XD n = true) as Hxd.
  { unfold xd_bits, flag. destruct (negb _); [done | by rewrite Z.bits_0]. }
  destruct (Z.testbit addr n), (Z.testbit XD n), (Z.testbit (xd_bits a) n); auto; by specialize (Hxd eq_refl).
Qed.

Lemma make_page_attribs level addr a :
  global_ok -> 0 <= level <= Level_Id Ptab_traits_vpn -> frame_ok level addr -> attr_ok a ->
  attribs (make_page global level addr a) = mkAttr (seen_rights (rights a)) (type a) 0.
Proof.
  intros Hg Hl Hf (Hr & HR & Ht). pose proof (frame_aligned _ _ Hl Hf) as Hal. destruct Hf as (Hm & _ & Hx).
  unfold attribs. rewrite (low_mask level addr a Writable Hg Hal), (low_mask level addr a User Hg Hal),
    (low_mask level addr a Cache_mask Hg Hal) by (vm_compute; intuition congruence).
  assert (nonzero (make_page global level addr a .& XD) = nonzero (xd_bits a .& XD)) as ->.
  { f_equal. rewrite make_page_split, !Z.land_lor_distr_l, Hx, Z.lor_0_l.
    assert (low_bits level a .& XD = 0) as ->; [| by rewrite Z.lor_0_r].
    pose proof (low_bits_range level a Hg) as Hlow. unfold XD. destruct (MWORD_BITS =? 64); [| apply Z.land_0_r].
    apply Z.bits_inj'. intros n Hn. rewrite Z.land_spec, Z.bits_0. destruct (decide (n = 63)) as [-> |].
    - by rewrite (testbit_high 9 (low_bits level a)) by (done || lia).
    - rewrite Z.pow2_bits_false by lia. apply andb_false_r. }
  destruct a as [r t k]. cbn [rights type kern] in *. unfold low_bits, xd_bits, seen_rights, XD. cbn [rights type kern].
  assert (r = 4 \/ r = 5 \/ r = 6 \/ r = 7 \/ r = 12 \/ r = 13 \/ r = 14 \/ r = 15) as Hr'.
  { assert (r = 0 \/ r = 1 \/ r = 2 \/ r = 3 \/ r = 8 \/ r = 9 \/ r = 10 \/ r = 11 \/
            (r = 4 \/ r = 5 \/ r = 6 \/ r = 7 \/ r = 12 \/ r = 13 \/ r = 14 \/ r = 15)) as Hc by lia.
    repeat (destruct Hc as [-> | Hc]; [vm_compute in HR; discriminate |]). exact Hc. }
  destruct (nonzero (k .& Global)), (negb (level =? 0)), (MWORD_BITS =? 64), Hg as [-> | ->], Ht as [-> | [-> | ->]],
    Hr' as [-> | [-> | [-> | [-> | [-> | [-> | [-> | ->]]]]]]]; vm_compute; reflexivity.
Qed.
End entry_roundtrip.

(** * What a space maps *)

Section view.
Context `{Arch} `{MO : Mem_ops}.

Abbreviation ts := Ptab_traits_vpn.

(** The page of level [level] that holds a page number. *)
Definition vpage (level a : Z) : Z :=
  match head ts, Level_get ts level with
  | Some t, Some tl => pg t (Shift tl) a
  | _, _ => 0
  end.

(** What [v_lookup] finds: the order, the frame and the attributes. *)
Definition view (dir : Z) (h : heap) (virt : Z) : option (Z * Z * Attr) :=
  match v_lookup dir virt h with
  | Done (o, Some (pa, a)) => Some (o, pa, a)
  | _ => None
  end.

Definition entry_view (l v : Z) : Z * Z * Attr := (page_order l, page_addr l v, attribs v).

Definition trans_view (tr : option (Z * Z)) : option (Z * Z * Attr) :=
  match tr with Some (l, v) => Some (entry_view l v) | None => None end.

Lemma ts_head : exists t, head ts = Some t.
Proof. unfold Ptab_traits_vpn, Ptab_traits. destruct (MWORD_BITS =? 64); by eexists. Qed.

Lemma vpage_pg t tt level a : head ts = Some t -> Level_get ts level = Some tt -> vpage level a = pg t (Shift tt) a.
Proof. intros Ht Htt. unfold vpage. by rewrite Ht, Htt. Qed.

Lemma points_to_read h p virt e tt es v : points_to ts h p virt e tt es v -> 0 <= pte_level e <= Level_Id ts ->
  deref h e = Done v /\ forall x, pte_set e x h = Done (<[pte_table e := <[Z.to_nat (ix tt virt) := x]> es]> h).
Proof.
  intros (Hg & _ & Hoff & Hes & Hv) Hl. destruct (Level_get_spec _ _ _ ia32_levels_ok Hg) as [Htt _].
  pose proof (ix_range tt virt Htt). unfold deref, pte_set. rewrite Hoff. split.
  - apply (read_entry_slot _ _ es); [done | lia | done].
  - intros x. apply write_entry_slot; [done |]. pose proof (lookup_lt_Some _ _ _ Hv). lia.
Qed.

(** The walk of a lookup: the entry it ends at and the translation. *)
Lemma lookup_entry dir virt h : tree_ok ts h dir ->
  exists i v, lookup_walk ts dir virt 0 h = Done i /\ deref h i = Done v /\ 0 <= pte_level i <= Level_Id ts /\
    is_table (pte_level i) v = false /\ translate ts h dir virt = leaf_view (pte_level i) v /\
    forall v', is_table (pte_level i) v' = false -> exists h', pte_set i v' h = Done h' /\ tree_ok ts h' dir /\
      (forall b, translate ts h' dir b =
         if decide (vpage (pte_level i) b = vpage (pte_level i) virt) then leaf_view (pte_level i) v'
         else translate ts h dir b) /\
      (forall b, vpage (pte_level i) b = vpage (pte_level i) virt -> translate ts h dir b = leaf_view (pte_level i) v).
Proof.
  intros Hok. destruct ts_head as [t Ht].
  destruct (lookup_walk_ok ts t dir virt h ia32_levels_ok Ht Hok) as (i & tt & es & v & Hw & Hpt & Hl & Htab & Htr).
  destruct (points_to_read _ _ _ _ _ _ _ Hpt Hl) as [Hd Hset]. exists i, v.
  split; [done |]. split; [done |]. split; [done |]. split; [done |]. split; [done |].
  intros v' Hv'. eexists. split; [apply Hset |].
  destruct Hpt as (Hg & Hsl & _ & Hes & Hv). pose proof (fun a => vpage_pg t tt _ a Ht Hg) as Hvp.
  destruct (set_slot ts t tt h dir virt _ _ es v v' ia32_levels_ok Ht Hg Hl Hok Hsl Hes Hv Htab Hv') as (G & Htr' & Hold).
  split; [| split].
  - split; [apply G |]. destruct Hok as [_ Hn]. apply (grows_nodup _ _ _ _ _ G Hn); [constructor | by intros ? ?%elem_of_nil].
  - intros b. by rewrite Htr', !Hvp.
  - intros b. rewrite !Hvp. apply Hold.
Qed.

Lemma view_translate dir virt h : tree_ok ts h dir -> view dir h virt = trans_view (translate ts h dir virt).
Proof.
  intros Hok. destruct (lookup_entry dir virt h Hok) as (i & v & Hw & Hd & _ & _ & Htr & _).
  unfold view, v_lookup. rewrite Hw. cbn [obind]. rewrite Hd, Htr. cbn [obind]. unfold leaf_view. cbn.
  by destruct (pte_is_valid v).
Qed.

Lemma lower_bound_range order level : lower_bound_level ts order = Some level ->
  0 <= level <= Level_Id ts /\ exists tt, Level_get ts level = Some tt.
Proof.
  unfold Ptab_traits_vpn, Ptab_traits, Level_Id. destruct (MWORD_BITS =? 64); cbn.
  all: repeat case_match; intros; simplify_eq; (split; [vm_compute; intuition congruence | vm_compute; by eexists]).
Qed.
End view.

(** * Inserting and looking up *)

Section insert.
Context `{Arch} (global : Z) `{MO : Mem_ops} {A : Type} `{AO : !Alloc_ops A, AL : !Alloc_laws A}.

Abbreviation ts := Ptab_traits_vpn.

(** The frame to be mapped is not that of a table below the slot. *)
Definition frame_free (dir phys virt level : Z) (h : heap) : Prop :=
  forall tt q es v, Level_get ts level = Some tt -> slot_at ts h dir virt level = Some q -> h !! q = Some es ->
    es !! Z.to_nat (ix tt virt) = Some v -> is_table level v = true -> page_addr level v <> phys.

Definition inserted (st : Status) : bool :=
  match st with Insert_err_nomem | Insert_err_exists => false | _ => true end.

(** The rights the page of [virt] has already. *)
Definition old_rights (dir virt : Z) (h : heap) : Z :=
  match view dir h virt with Some (_, _, a) => rights a | None => 0 end.

Lemma attribs_rights e : 0 <= rights (attribs e) < 16 /\ Z.testbit (rights (attribs e)) 2 = true.
Proof.
  unfold attribs. cbn [rights]. generalize (nonzero (e .& Writable)) (nonzero (e .& User)) (nonzero (e .& XD)).
  intros [] [] []; vm_compute; intuition congruence.
Qed.

Lemma attr_ok_upgrade a e : attr_ok a -> attr_ok (mkAttr (rights a .| rights (attribs e)) (type a) (kern a)).
Proof.
  intros (Hr & Hb & Ht). destruct (attribs_rights e) as [Hr' Hb']. unfold attr_ok. cbn [rights type]. split; [| split; [| done]].
  - apply (in_range_lor 4); [lia | exact Hr | exact Hr'].
  - by rewrite Z.lor_spec, Hb.
Qed.

(** The entry that an insertion writes, and what it means for a lookup. *)
Lemma make_page_view level phys a : global_ok global -> 0 <= level <= Level_Id ts -> frame_ok level phys -> attr_ok a ->
  is_table level (make_page global level phys a) = false /\
  trans_view (leaf_view level (make_page global level phys a)) =
    Some (page_order level, phys, mkAttr (seen_rights (rights a)) (type a) 0).
Proof.
  intros Hg Hl Hf Ha. destruct (make_page_leaf global level phys a Hg Hl Hf) as [Hv Hlf].
  unfold is_table, leaf_view. cbn. rewrite Hv, Hlf. split; [done |]. cbn. unfold entry_view.
  by rewrite make_page_addr, make_page_attribs.
Qed.

(** Smaller pages are below the slot. *)
Definition slot_table (dir virt level : Z) (h : heap) : Prop :=
  exists tt q es v, Level_get ts level = Some tt /\ slot_at ts h dir virt level = Some q /\ h !! q = Some es /\
    es !! Z.to_nat (ix tt virt) = Some v /\ is_table level v = true.

(** What an insertion does and when it fails. *)
Definition insert_post (dir phys virt level : Z) (a : Attr) (s s' : state A) (st : Status) : Prop :=
  (forall b, trans_view (translate ts (tabs s') dir b) =
     if inserted st && bool_decide (vpage level b = vpage level virt)
     then Some (page_order level, phys,
                mkAttr (seen_rights (rights a .| old_rights dir virt (tabs s))) (type a) 0)
     else trans_view (translate ts (tabs s) dir b)) /\
  (st = Insert_err_nomem -> dry s') /\
  (st = Insert_err_exists -> slot_table dir virt level (tabs s) \/
     exists o pa at_, view dir (tabs s) virt = Some (o, pa, at_) /\ (o, pa) <> (page_order level, phys)) /\
  (st = Insert_ok <-> inserted st = true /\ view dir (tabs s) virt = None).

Lemma page_order_inj l l' : 0 <= l <= Level_Id ts -> 0 <= l' <= Level_Id ts -> page_order l = page_order l' -> l = l'.
Proof.
  unfold page_order, page_order_for_level, Ptab_traits_vpn, shift_list, Ptab_traits, Level_Id.
  destruct MWORD_BITS_ok as [-> | ->]; cbn -[Z.add]; intros Hl Hl'.
  - assert (l = 0 \/ l = 1) as [-> | ->] by lia; assert (l' = 0 \/ l' = 1) as [-> | ->] by lia;
      vm_compute; intros; congruence.
  - assert (l = 0 \/ l = 1 \/ l = 2 \/ l = 3) as [-> | [-> | [-> | ->]]] by lia;
      assert (l' = 0 \/ l' = 1 \/ l' = 2 \/ l' = 3) as [-> | [-> | [-> | ->]]] by lia; vm_compute; intros; congruence.
Qed.

(** An insertion that fails after the walk, which left the translation. *)
Lemma insert_fail dir phys virt level a s s1 st :
  inserted st = false -> (forall b, translate ts (tabs s1) dir b = translate ts (tabs s) dir b) ->
  (st = Insert_err_nomem -> dry s1) ->
  (st = Insert_err_exists -> slot_table dir virt level (tabs s) \/
     exists o pa at_, view dir (tabs s) virt = Some (o, pa, at_) /\ (o, pa) <> (page_order level, phys)) ->
  insert_post dir phys virt level a s s1 st.
Proof.
  intros Hst Htr Hn He. split; [intros b; by rewrite Hst, Htr |]. split; [done |]. split; [done |].
  rewrite Hst. split; [intros ->; done | by intros [? _]].
Qed.

(** The page of the slot holds the wanted entry. *)
Lemma insert_done dir phys virt level a a' s s1 h' st :
  inserted st = true -> (st = Insert_ok <-> view dir (tabs s) virt = None) ->
  global_ok global -> 0 <= level <= Level_Id ts -> frame_ok level phys -> attr_ok a' ->
  seen_rights (rights a') = seen_rights (rights a .| old_rights dir virt (tabs s)) -> type a' = type a ->
  (forall b, translate ts h' dir b = if decide (vpage level b = vpage level virt)
     then leaf_view level (make_page global level phys a') else translate ts (tabs s) dir b) ->
  insert_post dir phys virt level a s (with_tabs s1 h') st.
Proof.
  intros Hst Hok Hg Hl Hf Ha' Hr Ht Htr. split; [| split; [by intros -> | split; [by intros -> |]]].
  - intros b. cbn [with_tabs tabs]. rewrite Htr, Hst. cbn [andb].
    destruct (make_page_view level phys a' Hg Hl Hf Ha') as [_ Hmv]. destruct (decide _).
    + rewrite bool_decide_eq_true_2 by done. by rewrite Hmv, Hr, Ht.
    + by rewrite bool_decide_eq_false_2 by done.
  - rewrite Hst. tauto.
Qed.

Lemma v_insert_cases dir phys virt order level a s live :
  mem_pre ts dir s live -> lower_bound_level ts order = Some level -> frame_ok level phys -> attr_ok a ->
  global_ok global -> frame_free dir phys virt level (tabs s) ->
  exists st s' ns, v_insert global dir phys virt order a s = Done (st, s') /\ mem_post ts dir s s' live ns /\
    insert_post dir phys virt level a s s' st.
Proof.
  intros Hpre Hlb Hf Ha Hg Hfree. destruct (lower_bound_range _ _ Hlb) as [Hl _]. destruct ts_head as [t Ht].
  destruct (walk_ok ts dir virt level s live ia32_levels_ok Hl Hpre)
    as (i & s1 & Hw & ns & tti & es & v & Hpo & Htr & Hle & Hpt & Hd & _ & Hsame & _ & Htot).
  assert (0 <= pte_level i <= Level_Id ts) as Hli by lia.
  destruct (points_to_read _ _ _ _ _ _ _ Hpt Hli) as [Hrd Hset].
  pose proof (mem_post_pre _ _ _ _ _ _ Hpre Hpo) as Hpre1. pose proof Hpt as (Hgi & Hsl & _ & Hes & Hv).
  (* the slot is no table: writing it changes its page *)
  assert (forall x, is_table (pte_level i) v = false -> is_table (pte_level i) x = false ->
            page_changed ts t tti (tabs s1) (<[pte_table i := <[Z.to_nat (ix tti virt) := x]> es]> (tabs s1)) dir virt
              (leaf_view (pte_level i) v) (leaf_view (pte_level i) x)) as Hch.
  { intros x Hvt Hx. apply set_slot; try done; [apply ia32_levels_ok | apply Hpre1]. }
  assert (is_table (pte_level i) v = false -> view dir (tabs s) virt = trans_view (leaf_view (pte_level i) v)) as Hview.
  { intros Hvt. rewrite view_translate by apply Hpre. rewrite <- Htr. by destruct (Hch v Hvt Hvt) as (_ & _ & ->). }
  unfold v_insert. rewrite Hlb, Hw. cbn [obind]. rewrite Hrd. cbn [obind].
  destruct (Z.eqb_spec (pte_level i) level) as [Hil | Hil].
  2:{ cbn [negb orb]. rewrite andb_true_r. destruct Hd as [? | Hd]; [done |]. destruct (is_valid v) eqn:Evv; cbn [negb andb].
      - exists Insert_err_exists, s1, ns. split; [done |]. split; [done |]. apply insert_fail; try done. intros _. right.
        rewrite (Hview Hd). unfold leaf_view. rewrite Evv. eexists _, _, _. split; [done |].
        intros [= Ho _]. apply Hil. by apply page_order_inj.
      - exists Insert_err_nomem, s1, ns. split; [done |]. split; [done |]. apply insert_fail; try done.
        intros _. by destruct Htot as [? | [? | ?]]. }
  rewrite Hil in *. cbn [negb orb]. rewrite andb_false_r.
  pose proof (fun b => vpage_pg t tti level b Ht Hgi) as Hvp.
  assert (forall st a', inserted st = true -> (st = Insert_ok <-> view dir (tabs s) virt = None) ->
    is_table level v = false -> attr_ok a' ->
    seen_rights (rights a') = seen_rights (rights a .| old_rights dir virt (tabs s)) -> type a' = type a ->
    exists st0 s' ns, (let* h := pte_set i (make_page global level phys a') (tabs s1) in Done (st, with_tabs s1 h)) = Done (st0, s') /\
      mem_post ts dir s s' live ns /\ insert_post dir phys virt level a s s' st0) as Hins.
  { intros st a' Hst Hok Hvt Ha' Hr' Ht'. destruct (make_page_view level phys a' Hg Hl Hf Ha') as [Hmt _].
    destruct (Hch _ Hvt Hmt) as (G & Htr' & _). rewrite Hset. cbn [obind]. eexists st, _, ([] ++ ns). split; [done |]. split.
    - eapply mem_post_trans; [done |]. split; [exact G | constructor | by intros ? ?%elem_of_nil | apply Hpre1].
    - eapply insert_done; try done. intros b. rewrite Htr', !Hvp. destruct (decide _); [done | apply Htr]. }
  destruct (is_valid v) eqn:Evv; cbn [andb negb].
  2:{ assert (is_table level v = false) as Hvt by (unfold is_table; by rewrite Evv).
      assert (view dir (tabs s) virt = None) as Hnone by (rewrite Hview by done; unfold leaf_view; by rewrite Evv).
      apply Hins; try done. unfold old_rights. by rewrite Hnone, Z.lor_0_r. }
  destruct Hsame as [Hsame | ?]; [| done].
  destruct (Z.eqb_spec (page_addr level v) phys) as [Hpa | Hpa]; cbn [negb].
  2:{ exists Insert_err_exists, s1, ns. split; [done |]. split; [done |]. apply insert_fail; try done. intros _.
      destruct (is_table level v) eqn:Et; [left | right].
      - exists tti, (pte_table i), es, v. by rewrite <- Hsame.
      - rewrite Hview by done. unfold leaf_view. rewrite Evv. eexists _, _, _. split; [done |]. by intros [= ?]. }
  assert (is_table level v = false) as Hvt.
  { destruct (is_table level v) eqn:Et; [| done]. exfalso. rewrite Hsame in *. by apply (Hfree tti (pte_table i) es v). }
  assert (view dir (tabs s) virt = Some (entry_view level v)) as Hvw by (rewrite Hview by done; unfold leaf_view; by rewrite Evv).
  assert (old_rights dir virt (tabs s) = rights (attribs v)) as Hold by (unfold old_rights; by rewrite Hvw).
  destruct (Z.eqb_spec v (make_page global level phys (mkAttr (rights a .| rights (attribs v)) (type a) (kern a)))) as [Heq | _].
  - exists Insert_warn_exists, s1, ns. split; [done |]. split; [done |].
    replace s1 with (with_tabs s1 (tabs s1)) by (by destruct s1).
    eapply insert_done; [done | by rewrite Hvw | done.. | by apply attr_ok_upgrade | cbn; by rewrite Hold | done |].
    intros b. rewrite <- Heq, !Hvp. destruct (decide _); [| apply Htr]. by destruct (Hch v Hvt Hvt) as (_ & _ & ->).
  - apply Hins; [done | by rewrite Hvw | done | by apply attr_ok_upgrade | cbn; by rewrite Hold | done].
Qed.

(** C27: inserting a page into a memory space of IA-32 or AMD64: the operation
    always ends; if it reports success, every page number of the page
    translates to the frame with the wanted memory type and with the wanted
    rights together with those the page had before, and no other page number
    changes; if it reports an error nothing changes, and the error is right:
    out of memory only when the allocator failed, exists only when another
    mapping or a table is in the way. *)
Theorem v_insert_lookup dir phys virt order level a s live :
  mem_pre ts dir s live -> lower_bound_level ts order = Some level -> frame_ok level phys -> attr_ok a ->
  global_ok global -> frame_free dir phys virt level (tabs s) ->
  exists st s' live', v_insert global dir phys virt order a s = Done (st, s') /\ mem_pre ts dir s' live' /\
    (forall b, view dir (tabs s') b =
       if inserted st && bool_decide (vpage level b = vpage level virt)
       then Some (page_order level, phys,
                  mkAttr (seen_rights (rights a .| old_rights dir virt (tabs s))) (type a) 0)
       else view dir (tabs s) b) /\
    (st = Insert_err_nomem -> dry s') /\
    (st = Insert_err_exists -> slot_table dir virt level (tabs s) \/
       exists o pa at_, view dir (tabs s) virt = Some (o, pa, at_) /\ (o, pa) <> (page_order level, phys)) /\
    (st = Insert_ok <-> inserted st = true /\ view dir (tabs s) virt = None).
Proof.
  intros Hpre Hlb Hf Ha Hg Hfree.
  destruct (v_insert_cases dir phys virt order level a s live Hpre Hlb Hf Ha Hg Hfree) as (st & s' & ns & Hi & Hpo & Htr & Hrest).
  exists st, s', (ns ++ live). split; [done |]. pose proof (mem_post_pre _ _ _ _ _ _ Hpre Hpo) as Hpre'.
  split; [done |]. split; [| done]. intros b. rewrite !view_translate by (apply Hpre' || apply Hpre). apply Htr.
Qed.
End insert.

(** * Deleting and revoking *)

Section delete.
Context `{Arch} `{MO : Mem_ops}.

Abbreviation ts := Ptab_traits_vpn.

(** Rights that stay when [flush] is revoked without deleting the page. *)
Definition left_rights (r flush : Z) : Z :=
  Z.ldiff r (flag (nonzero (flush .& W)) W .| flag (nonzero (flush .& X) && negb (XD =? 0)) X).

(** The access flags of an entry, as rights. *)
Definition used (v : Z) : Z :=
  if nonzero (v .& Dirty) then R .| W else if nonzero (v .& Referenced) then R else 0.

(** The entries [e] and [e'] agree outside of the bits of [m]. *)
Definition same_but (m e e' : Z) : Prop := forall n, 0 <= n -> Z.testbit m n = false -> Z.testbit e' n = Z.testbit e n.

Lemma same_but_mask m e e' k : same_but m e e' -> m .& k = 0 -> e' .& k = e .& k.
Proof.
  intros Hs Hk. apply Z.bits_inj'. intros n Hn. rewrite !Z.land_spec. destruct (Z.testbit m n) eqn:Em.
  - assert (Z.testbit k n = false) as ->; [| by rewrite !andb_false_r].
    assert (Z.testbit (m .& k) n = false) as Hz by (rewrite Hk; apply Z.bits_0).
    by rewrite Z.land_spec, Em in Hz.
  - by rewrite Hs.
Qed.

Lemma same_but_trans m m' e e1 e2 : same_but m e e1 -> same_but m' e1 e2 -> same_but (m .| m') e e2.
Proof. intros H1 H2 n Hn [Hm Hm']%(eq_trans (eq_sym (Z.lor_spec _ _ _)))%orb_false_iff. by rewrite H2, H1. Qed.

Lemma access_flags_spec v : is_mword v -> pte_is_valid v = true ->
  (access_flags v).1 = used v /\ same_but (Dirty .| Referenced) v (access_flags v).2.
Proof.
  intros Hv Hval. unfold access_flags, used. rewrite Hval. cbn [negb].
  assert (same_but (Dirty .| Referenced) v (v .& mnot (Dirty .| Referenced))) as Hs.
  { intros n Hn Hm. rewrite Z.land_spec, testbit_mnot, Hm by lia. cbn [negb]. rewrite andb_true_r, andb_comm.
    symmetry. by apply testbit_bound. }
  destruct (nonzero (v .& Dirty)); [done |]. destruct (nonzero (v .& Referenced)); [done |]. split; [done |]. by intros n.
Qed.

Lemma del_rights_same v r : is_mword v -> same_but (Writable .| XD) v (del_rights v r).
Proof.
  intros Hv n Hn [Hw Hx]%(eq_trans (eq_sym (Z.lor_spec _ _ _)))%orb_false_iff. unfold del_rights.
  assert (Z.testbit (if nonzero (r .& W) then v .& mnot Writable else v) n = Z.testbit v n) as E.
  { destruct (nonzero (r .& W)); [| done]. rewrite Z.land_spec, testbit_mnot, Hw by lia. cbn [negb].
    rewrite andb_true_r, andb_comm. symmetry. by apply testbit_bound. }
  destruct (nonzero (r .& X)); [| done]. by rewrite Z.lor_spec, Hx, orb_false_r.
Qed.

Lemma XD_cases : XD = 0 \/ XD = 2 ^ 63 /\ MWORD_BITS = 64.
Proof. unfold XD. destruct (Z.eqb_spec MWORD_BITS 64); auto. Qed.

(** Where a page is does not depend on its attribute bits. *)
Lemma same_but_frame m l e e' : same_but m e e' -> 0 <= l <= Level_Id ts ->
  (forall n, 0 <= n -> Z.testbit m n = true -> n < 12 /\ n <> 0 /\ n <> 7 \/ Z.testbit XD n = true) ->
  pte_is_valid e' = pte_is_valid e /\ pte_is_leaf l e' = pte_is_leaf l e /\ page_addr l e' = page_addr l e.
Proof.
  intros Hs Hl Hm. pose proof (page_order_range l Hl).
  assert (forall n, 0 <= n < 12 -> Z.testbit XD n = false) as Hx.
  { intros n Hn. destruct XD_cases as [-> | [-> _]]; [apply Z.bits_0 | apply Z.pow2_bits_false; lia]. }
  assert (forall n, 0 <= n -> n = 0 \/ n = 7 \/ 12 <= n /\ Z.testbit XD n = false -> Z.testbit m n = false) as Hm'.
  { intros n Hn Hc. destruct (Z.testbit m n) eqn:E; [| done]. destruct (Hm n Hn E) as [? | Hxn]; [lia |].
    destruct Hc as [-> | [-> | [_ ?]]]; [by rewrite Hx in Hxn by lia.. | congruence]. }
  rewrite !pte_valid_bit, !pte_leaf_bit. split; [apply Hs; [lia | apply Hm'; lia] |].
  split; [f_equal; apply Hs; [lia | apply Hm'; lia] |].
  unfold page_addr, mask_lsb. apply Z.bits_inj'. intros n Hn. rewrite !Z.land_spec, testbit_mshl, (testbit_mnot XD) by lia.
  destruct (Z.testbit XD n) eqn:Exn; [by rewrite !andb_false_r |].
  destruct (Z.ltb_spec n (page_order l)).
  - rewrite (Z.testbit_neg_r (mnot 0)) by lia. by rewrite !andb_false_r.
  - rewrite Hs; [done.. |]. apply Hm'; [done |]. right. right. split; [lia | done].
Qed.

Lemma del_rights_attribs v r : is_mword v ->
  attribs (del_rights v r) = mkAttr (left_rights (rights (attribs v)) r) (type (attribs v)) 0.
Proof.
  intros Hv. pose proof (del_rights_same v r Hv) as Hs.
  assert ((Writable .| XD) .& User = 0 /\ (Writable .| XD) .& Cache_mask = 0) as [HU HC].
  { destruct XD_cases as [-> | [-> _]]; done. }
  unfold attribs. rewrite (same_but_mask _ _ _ User Hs HU), (same_but_mask _ _ _ Cache_mask Hs HC). cbn [rights type].
  f_equal. assert (Z.testbit XD 1 = false) as Hx1 by (destruct XD_cases as [-> | [-> _]]; done).
  assert (nonzero (del_rights v r .& Writable) = nonzero (v .& Writable) && negb (nonzero (r .& W))) as ->.
  { unfold Writable. change 2 with (2 ^ 1). rewrite !nonzero_land_bit by lia. unfold del_rights, Writable.
    destruct (nonzero (r .& W)), (nonzero (r .& X)); cbn [negb];
      rewrite ?Z.lor_spec, ?Hx1, ?orb_false_r, ?Z.land_spec, ?testbit_mnot by lia; cbn; by rewrite ?andb_false_r, ?andb_true_r. }
  assert (nonzero (del_rights v r .& XD) = nonzero (v .& XD) || nonzero (r .& X) && negb (XD =? 0)) as ->.
  { unfold del_rights. destruct XD_cases as [HX | [HX E]]; rewrite HX; [by rewrite !Z.land_0_r, andb_false_r |].
    rewrite !nonzero_land_bit by lia. destruct (nonzero (r .& W)), (nonzero (r .& X));
      rewrite ?Z.lor_spec, ?Z.land_spec, ?testbit_mnot, ?Z.pow2_bits_true by lia; rewrite ?E; cbn;
      by rewrite ?andb_true_r, ?orb_true_r, ?orb_false_r. }
  unfold left_rights. generalize (nonzero (v .& Writable)) (nonzero (v .& User)) (nonzero (v .& XD))
    (nonzero (r .& W)) (nonzero (r .& X)) (XD =? 0). intros [] [] [] [] [] []; reflexivity.
Qed.

(** Entries are machine words. *)
Definition words (h : heap) : Prop := forall q es, h !! q = Some es -> Forall (fun v => is_mword v) es.

Lemma deref_word h i v : words h -> deref h i = Done v -> is_mword v.
Proof.
  intros Hw. unfold deref, read_entry. destruct (h !! pte_table i) as [es|] eqn:E; [| done]. cbn.
  destruct (es !! slot (pte_offset i)) as [x|] eqn:Ex; [| done]. intros [= ->].
  exact (proj1 (Forall_lookup _ _) (Hw _ _ E) _ _ Ex).
Qed.

Lemma bit_cases c n : 0 <= n -> Z.testbit (2 ^ c) n = true -> n = c.
Proof. intros Hn Ht. destruct (decide (n = c)); [done |]. by rewrite Z.pow2_bits_false in Ht by lia. Qed.

(** The entry that [v_delete] leaves when it only revokes rights. *)
Lemma revoke_spec l v flush : is_mword v -> pte_is_valid v = true -> is_table l v = false -> 0 <= l <= Level_Id ts ->
  let v' := del_rights (access_flags v).2 flush in
  is_table l v' = false /\ leaf_view l v' = Some (l, v') /\
  entry_view l v' = (page_order l, page_addr l v, mkAttr (left_rights (rights (attribs v)) flush) (type (attribs v)) 0).
Proof.
  intros Hv Hval Ht Hl v'. destruct (access_flags_spec v Hv Hval) as [_ Hs1].
  set (v1 := (access_flags v).2) in *.
  assert (is_mword v1) as Hv1.
  { unfold v1, access_flags. rewrite Hval. cbn [negb]. destruct (nonzero (v .& Dirty)), (nonzero (v .& Referenced)); cbn;
      try done; apply in_range_land_l; try done; pose proof arch_pos; lia. }
  destruct (same_but_frame _ l v v1 Hs1 Hl) as (E1 & E2 & E3).
  { intros n Hn [Hb | Hb]%(eq_trans (eq_sym (Z.lor_spec _ _ _)))%orb_true_iff; left;
      [apply (bit_cases 6) in Hb | apply (bit_cases 5) in Hb]; lia. }
  destruct (same_but_frame _ l v1 v' (del_rights_same v1 flush Hv1) Hl) as (F1 & F2 & F3).
  { intros n Hn [Hb | Hb]%(eq_trans (eq_sym (Z.lor_spec _ _ _)))%orb_true_iff; [left | by right].
    apply (bit_cases 1) in Hb; lia. }
  unfold is_table, leaf_view, entry_view in *. cbn in *. rewrite F1, F2, E1, E2, Hval in *. split; [done |]. split; [done |].
  rewrite F3, E3. unfold v'. rewrite del_rights_attribs by done. do 3 f_equal.
  - assert (attribs v1 = attribs v) as ->; [| done]. unfold attribs.
    assert ((Dirty .| Referenced) .& XD = 0) as Hd by (destruct XD_cases as [-> | [-> _]]; done).
    by rewrite !(same_but_mask _ _ _ _ Hs1) by done.
  - assert (attribs v1 = attribs v) as ->; [| done]. unfold attribs.
    assert ((Dirty .| Referenced) .& XD = 0) as Hd by (destruct XD_cases as [-> | [-> _]]; done).
    by rewrite !(same_but_mask _ _ _ _ Hs1) by done.
Qed.

(** Deleting a page of a memory space: when nothing is mapped, nothing
    happens; otherwise the operation reports the access flags of the page and,
    if the read right is flushed, the whole page is not mapped any more, or
    else just loses the flushed rights; no other page changes. *)
Theorem v_delete_lookup dir virt flush h :
  tree_ok ts h dir -> words h ->
  exists ret h', v_delete dir virt flush h = Done (ret, h') /\ tree_ok ts h' dir /\
    match view dir h virt with
    | None => ret = 0 /\ h' = h
    | Some (o, pa, a) => exists level v, o = page_order level /\ translate ts h dir virt = Some (level, v) /\
        ret = used v /\
        forall b, view dir h' b =
          if bool_decide (vpage level b = vpage level virt)
          then if nonzero (flush .& R) then None
               else Some (o, pa, mkAttr (left_rights (rights a) flush) (type a) 0)
          else view dir h b
    end.
Proof.
  intros Hok Hwd. destruct (lookup_entry dir virt h Hok) as (i & v & Hw & Hd & Hl & Ht & Htr & Hset).
  pose proof (deref_word _ _ _ Hwd Hd) as Hmv. rewrite view_translate by done. rewrite Htr.
  unfold v_delete. rewrite Hw. cbn [obind]. rewrite Hd. cbn [obind]. unfold leaf_view.
  destruct (is_valid v) eqn:Hv; cbn [negb trans_view]; [| by exists 0, h].
  destruct (revoke_spec (pte_level i) v flush Hmv Hv Ht Hl) as (R1 & R2 & R3).
  destruct (access_flags_spec v Hmv Hv) as [Hu _].
  destruct (access_flags v) as [ret v1] eqn:Ea. cbn [fst snd] in *. subst ret.
  set (v' := if nonzero (flush .& R) then 0 else del_rights v1 flush).
  destruct (Hset v') as (h' & Hs & Hok' & Htr' & _).
  { unfold v'. destruct (nonzero (flush .& R)); [| done]. unfold is_table. by rewrite invalid_0. }
  rewrite Hs. cbn [obind]. exists (used v), h'. split; [done |]. split; [done |]. unfold entry_view at 1.
  exists (pte_level i), v. split; [done |]. split; [done |]. split; [done |]. intros b. rewrite !view_translate by done. rewrite Htr'.
  destruct (decide _); [rewrite bool_decide_eq_true_2 by done | by rewrite bool_decide_eq_false_2 by done].
  unfold v'. destruct (nonzero (flush .& R)).
  - unfold leaf_view. by rewrite invalid_0.
  - rewrite R2. cbn [trans_view]. by rewrite R3.
Qed.
End delete.

(** A page with the global attribute is compatible with no entry when the
    global bit is in use: the attributes read from an entry have no kernel
    flags. *)
Theorem attribs_compatible_misses_global `{Arch} global e attr :
  global <> 0 -> kern attr = Global -> attribs_compatible global e attr = false.
Proof.
  intros Hg Hk. unfold attribs_compatible. rewrite Hk, (proj2 (Z.eqb_neq _ _) Hg). cbn [attribs kern flag Z.lor Z.eqb].
  by rewrite andb_false_r.
Qed.
