(* ===== verification/PtabSpec.v ===== *)
(** Page tables: the theorems about mapping, unmapping and freeing ranges of a
    root table ([Ptab::Base]) against the translation of addresses, examples
    on the tables of AMD64, and the cases in which the operations miss their
    purpose. *)

From S2P Require Import Prelude Outcome L4Types Ptab PtabInv PtabMap PtabWalk PtabFree MemSpace.

(** * Ranges of addresses *)

Section ranges.
Context `{Arch, PO : Pte_ops, PL : !Pte_laws, MO : Mem_ops}.

(** The addresses a root table of the head level [t] translates. *)
Definition span (t : Traits) : Z := 2 ^ (Shift t + Size t).

(** The page of an address, for pages of the level [t]. *)
Definition page_of (t : Traits) (a : Z) : Z := a / 2 ^ Shift t.

Lemma pg_page_of t tt a : 0 <= a < span t -> pg t (Shift tt) a = page_of tt a.
Proof. intros Ha. unfold pg, page_of. by rewrite Z.mod_small. Qed.

Lemma range_end t virt size :
  level_ok t -> 0 <= virt -> 0 < size -> virt + size <= span t -> msub (madd virt size) 1 = virt + size - 1.
Proof.
  intros Hl Hv Hs Hle. assert (span t <= 2 ^ MWORD_BITS) by (apply Z.pow_le_mono_r; unfold level_ok in Hl; lia).
  unfold msub, madd, mwrap, wrap. rewrite Zminus_mod_idemp_l. apply Z.mod_small. lia.
Qed.

Lemma page_of_le tt a b : level_ok tt -> a <= b -> page_of tt a <= page_of tt b.
Proof. intros Hl Hab. apply Z.div_le_mono; [| done]. apply pow2_pos. destruct Hl; lia. Qed.

(** A range of whole pages. *)
Lemma whole_pages tt virt size a :
  level_ok tt -> virt mod 2 ^ Shift tt = 0 -> size mod 2 ^ Shift tt = 0 ->
  page_of tt virt <= page_of tt a <= page_of tt (virt + size - 1) <-> virt <= a < virt + size.
Proof.
  intros Hl Hva Hsa. unfold page_of. set (d := 2 ^ Shift tt) in *.
  assert (0 < d) by (apply pow2_pos; destruct Hl; lia).
  apply Z.mod_divide in Hva as [v ->]; [| lia]. apply Z.mod_divide in Hsa as [n ->]; [| lia].
  rewrite Z.div_mul by lia. replace (v * d + n * d - 1) with (d - 1 + (v + n - 1) * d) by lia.
  rewrite Z.div_add by lia. rewrite (Z.div_small (d - 1)) by lia. rewrite Z.add_0_l.
  assert (v <= a / d <-> v * d <= a).
  { split; [| intros; apply Z.div_le_lower_bound; lia]. intros Hq. pose proof (Z.mul_div_le a d).
    assert (d * v <= d * (a / d)) by (apply Z.mul_le_mono_nonneg_l; lia). lia. }
  assert (a / d < v + n <-> a < (v + n) * d); [| lia].
  split; [| intros; apply Z.div_lt_upper_bound; lia].
  intros Hq. pose proof (Z.div_mod a d). pose proof (Z.mod_pos_bound a d).
  assert (d * (a / d + 1) <= d * (v + n)) by (apply Z.mul_le_mono_nonneg_l; lia). lia.
Qed.

(** A range of whole pages of a root table, as the operations on the tables
    see it; addresses beyond the span of the root wrap around. *)
Lemma range_pages ts t tt level virt size :
  levels_ok ts -> head ts = Some t -> Level_get ts level = Some tt ->
  0 <= virt -> 0 < size -> virt + size <= span t -> virt mod 2 ^ Shift tt = 0 -> size mod 2 ^ Shift tt = 0 ->
  let ve := virt + size - 1 in
  msub (madd virt size) 1 = ve /\ pg t (Shift tt) virt = page_of tt virt /\
  pg t (Shift tt) virt <= pg t (Shift tt) ve /\
  (forall a, 0 <= a < span t ->
     (pg t (Shift tt) virt <= pg t (Shift tt) a <= pg t (Shift tt) ve <-> virt <= a < virt + size)) /\
  (forall a, pg t (Shift tt) virt <= pg t (Shift tt) a <= pg t (Shift tt) ve ->
     virt <= a mod span t < virt + size /\ (a mod span t) mod span t = a mod span t).
Proof.
  intros Hls Hhd Hg Hv Hs Hle Hva Hsa ve. destruct (Level_get_spec _ _ _ Hls Hg) as [Htt _].
  assert (level_ok t) as Hl by (destruct ts; [done |]; injection Hhd as ->; apply Hls).
  assert (0 < span t) as Hpos by (apply pow2_pos; unfold level_ok in Hl; lia).
  assert (pg t (Shift tt) virt = page_of tt virt) as E1 by (apply pg_page_of; lia).
  assert (pg t (Shift tt) ve = page_of tt ve) as E2 by (apply pg_page_of; lia).
  assert (forall a, 0 <= a < span t ->
     (pg t (Shift tt) virt <= pg t (Shift tt) a <= pg t (Shift tt) ve <-> virt <= a < virt + size)) as Hin.
  { intros a Ha. rewrite E1, E2, pg_page_of by done. by apply whole_pages. }
  split; [by apply (range_end t) |]. split; [done |]. split; [rewrite E1, E2; apply page_of_le; [done | lia] |].
  split; [done |]. intros a Ha. pose proof (Z.mod_pos_bound a (span t) Hpos). split; [| by apply Z.mod_mod; lia].
  apply Hin; [done |]. unfold pg, span in *. by rewrite Z.mod_mod by lia.
Qed.
End ranges.

(** * Mapping *)

Section map_spec.
Context `{Arch, PO : Pte_ops, PL : !Pte_laws, MO : Mem_ops} {A : Type} `{AO : !Alloc_ops A, AL : !Alloc_laws A}.
Variables (ts : list Traits) (t tt : Traits) (level : Z).
Hypothesis Hls : levels_ok ts.
Hypothesis Hhd : head ts = Some t.
Hypothesis Hget : Level_get ts level = Some tt.
Hypothesis Hlev : 0 <= level <= Level_Id ts.

(** C26: mapping an aligned range of a root table in which no larger page lies
    (else see [map_into_superpage_faults]): the operation always ends and keeps
    the tables a tree; no address outside of the pages of the range changes
    its translation; if the operation reports failure the allocator refused a
    table; if it reports success, every address of the range translates to a page
    of the requested level with the requested attributes, and to the one at the
    matching physical address provided the range stays in one entry of each table
    above the last directory that is filled ([contiguous]; else see
    [map_crossing_wrong_frame]). *)
Theorem base_map_translate p phys virt size attr s live :
  mem_pre ts p s live -> is_mword phys -> phys mod 2 ^ next_low = 0 -> tmpl_ok level (make_page_tmpl level attr) ->
  0 <= virt -> 0 < size -> virt + size <= span t ->
  (forall a l e, virt <= a < virt + size -> translate ts (tabs s) p a = Some (l, e) -> l <= level) ->
  virt mod 2 ^ Shift tt = 0 -> size mod 2 ^ Shift tt = 0 ->
  level < Level_Id ts \/ Shift t + Size t + Base_shift t < MWORD_BITS ->
  exists mapped s' live', base_map ts p phys virt size attr level s = Done (mapped, s') /\ mem_pre ts p s' live' /\
    (forall a, 0 <= a < span t -> ~ (virt <= a < virt + size) ->
       translate ts (tabs s') p a = translate ts (tabs s) p a) /\
    (mapped = 0 -> dry s') /\
    (mapped <> 0 -> forall a, virt <= a < virt + size ->
       exists pa, translate ts (tabs s') p a = Some (level, for_pa (make_page_tmpl level attr) pa) /\
         (contiguous ts level virt (virt + size - 1) ->
          pa = mwrap (phys + (page_of tt a - page_of tt virt) * 2 ^ (Shift tt + Base_shift tt)))).
Proof.
  intros Hpre Hphys Hal Ht Hv Hs Hle Hns Hva Hsa Hw.
  destruct (range_pages ts t tt level virt size) as (Eve & E1 & Ele & Hin & Hany); [done.. |].
  unfold base_map. rewrite Eve.
  destruct (map_ok ts t tt level p phys virt (virt + size - 1) (make_page_tmpl level attr) s live)
    as (ms & s' & Hm & ns & Hpost & Hout & Hmapped & _ & _ & Hdry); try done.
  - intros a l e [Ha Hmod]%Hany. destruct ts as [|t0 ts']; [done |]. injection Hhd as ->.
    rewrite (translate_congr t ts' (tabs s) p a (a mod span t)); [by apply Hns | done | by symmetry].
  - exists ms, s', (ns ++ live). split; [done |]. split; [by eapply mem_post_pre |].
    split; [intros a Ha Hna; apply Hout; by rewrite Hin |]. split; [intros Hz; by apply Hdry |].
    intros Hnz a Ha. destruct (Hmapped Hnz a) as (pa & Htr & Hpa); [apply Hin; lia |].
    exists pa. split; [done |]. intros Hco. by rewrite (Hpa Hco), E1, (pg_page_of t tt a) by lia.
Qed.

(** C30: unmapping a range all of whose tables exist: with fuel for the entries
    of a table at every level the operation ends, it keeps the tables a tree,
    the addresses of the range translate to nothing any more, and no other
    address changes its translation. *)
Theorem base_unmap_translate fuel p virt size h :
  tree_ok ts h p -> Forall (fun x => 2 ^ Size x <= Z.of_nat fuel) ts ->
  0 <= virt -> 0 < size -> virt + size <= span t ->
  virt mod 2 ^ Shift tt = 0 -> size mod 2 ^ Shift tt = 0 ->
  (forall a, virt <= a < virt + size -> slot_at ts h p a level <> None) ->
  exists h', base_unmap fuel ts p virt size level h = Done h' /\ tree_ok ts h' p /\
    forall a, 0 <= a < span t ->
      translate ts h' p a = if decide (virt <= a < virt + size) then None else translate ts h p a.
Proof.
  intros Hok Hf Hv Hs Hle Hva Hsa Hb.
  destruct (range_pages ts t tt level virt size) as (Eve & _ & Ele & Hin & Hany); [done.. |].
  unfold base_unmap. rewrite Eve.
  destruct (unmap_ok fuel ts t tt p virt (virt + size - 1) level h) as (h' & -> & G & Htr); try done.
  - intros a [Ha Hmod]%Hany. destruct ts as [|t0 ts']; [done |]. injection Hhd as ->.
    rewrite (slot_at_congr t ts' h p a (a mod span t)); [by apply Hb | done | by symmetry].
  - exists h'. split; [done |]. split.
    + split; [apply G | eapply (grows_nodup _ _ _ _ _ G); [apply Hok | constructor | by intros ? ?%elem_of_nil]].
    + intros a Ha. rewrite Htr. destruct (decide (virt <= a < virt + size)).
      * by rewrite decide_True by (by apply Hin).
      * rewrite decide_False; [done |]. by rewrite Hin.
Qed.
End map_spec.

(** * Freeing the tables of an address space *)

Section shutdown.
Context `{Arch, MO : Mem_ops} {A : Type} `{AO : !Alloc_ops A}.

Abbreviation ts := Ptab_traits_vpn.

(** The tables below the root entries [i] to [j], down to the level [el]. *)
Definition tables_below (h : heap) (dir el i j : Z) : list Z :=
  concat (map (fun e => if is_table (Level_Id ts) e then tables_from el (tail ts) h (child e) else [])
            (seg (entries h dir) i j)).

(** The number of root entries. *)
Definition root_entries : Z := if MWORD_BITS =? 64 then 512 else 1024.

(** What one root entry spans, in bytes. *)
Definition root_span : Z := if MWORD_BITS =? 64 then 2 ^ 39 else 2 ^ 22.

Lemma seg_split es i k j : 0 <= i <= k -> k <= j + 1 -> seg es i j = seg es i (k - 1) ++ seg es k j.
Proof.
  intros Hi Hk. unfold seg. replace (Z.to_nat (j + 1 - i)) with (Z.to_nat (k - 1 + 1 - i) + Z.to_nat (j + 1 - k))%nat by lia.
  rewrite <- (take_take_drop (drop (Z.to_nat i) es)), drop_drop. do 3 f_equal. lia.
Qed.

(** The head level of the two machines. *)
Lemma root_facts : exists t ts', ts = t :: ts' /\ masked ts' /\ level_ok t /\ 2 ^ Size t = root_entries /\
  2 ^ Shift t * 2 ^ PAGE_SHIFT = root_span /\ max_addr ts >> PAGE_SHIFT = root_entries * 2 ^ Shift t - 1 /\
  root_entries * root_span <= 2 ^ MWORD_BITS.
Proof.
  pose proof ia32_levels_ok as Hls. unfold Ptab_traits_vpn, Ptab_traits, root_entries, root_span, max_addr, mwrap in *.
  destruct MWORD_BITS_ok as [E | E]; rewrite E in *; cbn [Z.eqb Pos.eqb shift_list map] in *;
    eexists _, _; (split; [reflexivity |]); (split; [by repeat constructor |]); (split; [apply Hls |]); by vm_compute.
Qed.

(** The entries of a range of whole root entries. *)
Lemma ix_whole t i j : level_ok t -> 0 <= i < j -> j <= 2 ^ Size t ->
  ix t (i * 2 ^ Shift t) = i /\ ix t (j * 2 ^ Shift t - 1) = j - 1 /\
  0 <= i * 2 ^ Shift t /\ i * 2 ^ Shift t <= j * 2 ^ Shift t - 1 < 2 ^ (Shift t + Size t).
Proof.
  intros Hl Hi Hj. destruct Hl as (? & ? & _). assert (0 < 2 ^ Shift t) by (apply pow2_pos; lia).
  rewrite Z.pow_add_r by lia. unfold ix. rewrite Z.div_mul by lia.
  replace (j * 2 ^ Shift t - 1) with (2 ^ Shift t - 1 + (j - 1) * 2 ^ Shift t) by lia.
  rewrite Z.div_add by lia. rewrite (Z.div_small (_ - 1)) by lia. rewrite !Z.mod_small by lia.
  assert ((j - 1) * 2 ^ Shift t <= (2 ^ Size t - 1) * 2 ^ Shift t) by (apply Z.mul_le_mono_nonneg_r; lia).
  assert (i * 2 ^ Shift t <= (j - 1) * 2 ^ Shift t) by (apply Z.mul_le_mono_nonneg_r; lia). nia.
Qed.

(** C28: shutting down an address space frees every table of the user part of
    the space once and the kernel part's tables that are not shared, and
    nothing else: no table is freed twice or used after it was freed, and all
    other memory stays. *)
Theorem dir_shutdown_frees dir User_max s k :
  alloc_valid = true -> tree_ok ts (tabs s) dir -> leaves_ok ts (tabs s) dir ->
  0 < k < root_entries -> User_max = k * root_span - 1 ->
  exists s', dir_shutdown dir User_max s = Done s' /\
    forall q, tabs s' !! q =
      if decide (q ∈ tables_below (tabs s) dir 0 0 (k - 1) ++ tables_below (tabs s) dir Super_level k (root_entries - 1))
      then None else tabs s !! q.
Proof.
  intros Hav Hok Hlv Hk HU. pose proof ia32_levels_ok as Hls.
  destruct root_facts as (t & ts' & Ets & Hm & Hl & Hsz & Hsp & Hmax & Hfit).
  unfold dir_shutdown, base_destroy, tables_below. rewrite Hmax, Ets in *. cbn [tail].
  destruct (tree_root _ _ _ _ (proj1 Hok)) as (es & Hp & Hlen). rewrite (entries_eq _ _ _ Hp).
  assert (0 < 2 ^ Shift t) by (apply pow2_pos; destruct Hl; lia).
  assert (User_max >> PAGE_SHIFT = k * 2 ^ Shift t - 1) as ->.
  { rewrite Z.shiftr_div_pow2 by done. subst User_max. rewrite <- Hsp.
    replace (k * (2 ^ Shift t * 2 ^ PAGE_SHIFT) - 1) with (2 ^ PAGE_SHIFT - 1 + (k * 2 ^ Shift t - 1) * 2 ^ PAGE_SHIFT) by lia.
    by rewrite Z.div_add. }
  assert (madd User_max 1 >> PAGE_SHIFT = k * 2 ^ Shift t) as ->.
  { assert (0 < root_span) by (rewrite <- Hsp; apply Z.mul_pos_pos; done).
    assert (k * root_span < root_entries * root_span) by (apply Z.mul_lt_mono_pos_r; lia).
    unfold madd, mwrap, wrap. subst User_max. rewrite Z.sub_add, Z.mod_small by nia.
    rewrite Z.shiftr_div_pow2, <- Hsp, Z.mul_assoc by done. by apply Z.div_mul. }
  destruct (ix_whole t 0 k Hl) as (I1 & I2 & B1); [lia.. |]. destruct (ix_whole t k root_entries Hl) as (J1 & J2 & B2); [lia.. |].
  rewrite Z.mul_0_l in *.
  assert (forall x, (x * 2 ^ Shift t) mod 2 ^ Shift t = 0) as Hal by (intros; apply Z.mod_mul; lia).
  destruct (destroy_ok t ts' dir 0 (k * 2 ^ Shift t - 1) (root_level (t :: ts')) 0 s es) as (s1 & -> & Hwo1);
    try done; try lia; try (rewrite Z.sub_add; done).
  { by apply tree_rest. }
  cbn [obind]. rewrite I1, I2 in Hwo1.
  pose proof (tree_rest t ts' (tabs s) dir es 0 (root_entries - 1) Hok Hlv Hp) as Hr.
  rewrite (seg_split _ 0 k) in Hr by lia. destruct (rest_frame 0 Super_level _ _ _ _ _ _ _ Hr Hwo1) as (Hr1 & Hp1 & Hsub).
  destruct (destroy_ok t ts' dir (k * 2 ^ Shift t) (root_entries * 2 ^ Shift t - 1) (root_level (t :: ts')) Super_level s1 es)
    as (s2 & -> & Hwo2); try done; try lia; try (rewrite Z.sub_add; done); try (by rewrite ?J1, ?J2, ?Hp1).
  rewrite J1, J2, Hsub in Hwo2. exists s2. split; [done |]. exact (without_trans _ _ _ _ _ Hwo1 Hwo2).
Qed.
End shutdown.

(** * A machine: AMD64 with a small pool of tables *)

Module Amd64.
Import Pt_entry Page.
#[export] Instance amd64 : Arch := arch64.

(** Physical memory is seen by the kernel at a fixed offset. *)
Definition pmem_base : Z := 0xffff_8000_0000_0000.
#[export] Instance pmem : Mem_ops := {|
  phys_to_pmem := fun p => p + pmem_base;
  to_phys := fun n => n - pmem_base |}.

(** The pool: addresses of free pages with some old contents. *)
#[export] Instance pool : Alloc_ops (list Z) := {|
  alloc_valid := true;
  alloc := fun a sz =>
    match a with
    | n :: a' => if sz =? 4096 then (Some (n, replicate 512 0xdead), a') else (None, a)
    | [] => (None, [])
    end;
  free := fun a n _ => n :: a |}.

#[export] Instance pool_laws : Alloc_laws (list Z).
Proof.
  refine {| alloc_ok := fun a live => NoDup (a ++ live) /\ Forall table_addr a |}.
  - intros [|n' a0] live sz n c a' [Hnd Hta] He; [done |]. cbn in He. destruct (Z.eqb_spec sz 4096) as [-> |]; [| done].
    injection He as -> <- ->. cbn [app] in Hnd. pose proof Hnd as [Hn Hnd']%NoDup_cons.
    apply Forall_cons in Hta as [Ht Hta]. split; [intros Hin; apply Hn; apply elem_of_app; by right |]. split; [done |].
    split; [done |]. split; [| done]. by rewrite <- Permutation_middle.
  - intros [|n' a0] live sz a' Hok He; cbn in He; [by injection He as <- |]. destruct (sz =? 4096); [done |]. by injection He as <-.
Defined.

Definition root : Z := pmem_base + 0x1000.
Definition table (n : Z) : Z := pmem_base + 0x1000 * n.

(** An empty root table and a pool of the tables [l]. *)
Definition start (l : list Z) : state (list Z) := mkState {[ root := replicate 512 0 ]} l.

Lemma start_empty l : NoDup (l ++ [root]) -> Forall table_addr l ->
  mem_pre Ptab_traits_vpn root (start l) [root] /\
  forall a, translate Ptab_traits_vpn (tabs (start l)) root a = None.
Proof.
  intros Hnd Hta. destruct (empty_table (mkTraits 27 9 false true 12) (tail Ptab_traits_vpn) (tabs (start l)) root 512)
    as (Hs & Ht & Htr); [done | apply lookup_singleton_eq |]. split; [| exact Htr]. split; [split; [exact Hs |] | | by split].
  - change (NoDup (tables (mkTraits 27 9 false true 12 :: tail Ptab_traits_vpn) (tabs (start l)) root)). rewrite Ht. apply NoDup_singleton.
  - intros q. change (q ∈ tables (mkTraits 27 9 false true 12 :: tail Ptab_traits_vpn) (tabs (start l)) root -> q ∈ [root]). by rewrite Ht.
Qed.

Lemma table_addr_n n : 0 < n < 2 ^ 32 -> table_addr (table n).
Proof.
  intros Hn. unfold table_addr, table, in_range. change phys_bits with 64. change next_low with 12.
  unfold phys_to_pmem, to_phys, pmem. split; [lia |]. split; [lia |].
  replace (_ - _) with (n * 4096) by lia. by apply Z.mod_mul.
Qed.

Definition three : list Z := [table 2; table 3; table 4].

Lemma start_three : mem_pre Ptab_traits_vpn root (start three) [root] /\
  forall a, translate Ptab_traits_vpn (tabs (start three)) root a = None.
Proof.
  apply start_empty.
  - by apply (bool_decide_unpack _); vm_compute.
  - repeat constructor; apply table_addr_n; lia.
Qed.

Definition top_level : Traits := mkTraits 27 9 false true 12.
Definition leaf_level : Traits := mkTraits 0 9 true true 12.

Lemma amd64_levels : head Ptab_traits_vpn = Some top_level /\ Level_get Ptab_traits_vpn 0 = Some leaf_level /\
  0 <= 0 <= Level_Id Ptab_traits_vpn.
Proof. by vm_compute. Qed.

Lemma base_map_translate_witness :
  exists s', base_map Ptab_traits_vpn root 0x7000 3 2 0x6 0 (start three) = Done (0x2000, s') /\
    translate Ptab_traits_vpn (tabs s') root 4 = Some (0, for_pa (make_page_tmpl_raw 0 0x6) 0x8000).
Proof.
  destruct start_three as [Hpre Htr], amd64_levels as (Hh & Hg & Hl).
  destruct (base_map_translate Ptab_traits_vpn top_level leaf_level 0 ia32_levels_ok Hh Hg Hl root 0x7000 3 2 0x6 (start three) [root] Hpre)
    as (m & s' & live' & Hm & _ & _ & _ & Hmap).
  - by vm_compute.
  - by vm_compute.
  - apply ia32_tmpl_ok.
  - lia.
  - lia.
  - by vm_compute.
  - intros a l e _. by rewrite Htr.
  - by vm_compute.
  - by vm_compute.
  - left. by vm_compute.
  - assert (m = 0x2000) as ->.
    { pose proof (f_equal (fun o => match o with Done (x, _) => x | _ => 0 end) Hm) as E. cbn beta iota in E.
      rewrite <- E. by vm_compute. }
    exists s'. split; [exact Hm |]. destruct (Hmap ltac:(done) 4 ltac:(lia)) as (pa & -> & Hpa). do 2 f_equal. f_equal.
    rewrite Hpa; [by vm_compute |]. right. split; [by vm_compute |]. right. split; [by vm_compute |]. left. by vm_compute.
Defined.

(** The tables after mapping two pages. *)
Definition mapped : state (list Z) :=
  match base_map Ptab_traits_vpn root 0x7000 3 2 0x6 0 (start three) with Done (_, s) => s | _ => start three end.

Lemma mapped_ok : tree_ok Ptab_traits_vpn (tabs mapped) root.
Proof.
  destruct start_three as [Hpre Htr], amd64_levels as (Hh & Hg & Hl).
  destruct (map_ok Ptab_traits_vpn top_level leaf_level 0 root 0x7000 3 4 (make_page_tmpl_raw 0 0x6) (start three) [root])
    as (m & s' & Hm & ns & Hpost & _); [apply ia32_levels_ok | done | done | done | done | by vm_compute | by vm_compute | apply ia32_tmpl_ok | by vm_compute | |].
  - intros a l e _. by rewrite Htr.
  - cut (s' = mapped); [intros <-; apply (mem_post_pre _ _ _ _ _ _ Hpre Hpost) |].
    change mapped with (match map_ Ptab_traits_vpn root 0x7000 3 4 (make_page_tmpl_raw 0 0x6) 0 (start three) with
                        | Done (_, s) => s | _ => start three end). by rewrite Hm.
Qed.

#[local] Opaque mapped.

Lemma base_unmap_translate_witness :
  exists h', base_unmap 512 Ptab_traits_vpn root 3 2 0 (tabs mapped) = Done h' /\
    translate Ptab_traits_vpn h' root 4 = None /\ translate Ptab_traits_vpn (tabs mapped) root 4 <> None.
Proof.
  destruct amd64_levels as (Hh & Hg & Hl).
  destruct (base_unmap_translate Ptab_traits_vpn top_level leaf_level 0 ia32_levels_ok Hh Hg Hl 512 root 3 2 (tabs mapped) mapped_ok)
    as (h' & Hu & _ & Htr).
  - by repeat constructor.
  - lia.
  - lia.
  - by vm_compute.
  - by vm_compute.
  - by vm_compute.
  - intros a Ha. assert (a = 3 \/ a = 4) as [-> | ->] by lia; by vm_compute.
  - assert (3 <= 4 < 3 + 2) as Hin by lia. assert (0 <= 4 < span top_level) as Hsp by (by vm_compute).
    exists h'. split; [exact Hu |]. split; [| by vm_compute].
    specialize (Htr 4 Hsp). rewrite decide_True in Htr by exact Hin. exact Htr.
Defined.

(** [leaves_ok] as a test. *)
Fixpoint leaves_okb (ts : list Traits) (h : heap) (p : Z) : bool :=
  match ts with
  | [] => true
  | t :: ts' => forallb (fun e => negb (is_valid e) || if is_leaf (Level_Id ts) e then May_be_leaf t else leaves_okb ts' h (child e))
                  (entries h p)
  end.

Lemma leaves_okb_ok ts h p : leaves_okb ts h p = true -> leaves_ok ts h p.
Proof.
  revert p. induction ts as [|t ts IH]; intros p; [done |]. cbn [leaves_okb leaves_ok]. rewrite forallb_forall.
  intros Hf e He%list_elem_of_In Hv. specialize (Hf e He). rewrite Hv in Hf. cbn [negb orb] in Hf.
  destruct (is_leaf _ e); [done | by apply IH].
Qed.

Lemma dir_shutdown_frees_witness :
  exists s', dir_shutdown root (2 ^ 47 - 1) mapped = Done s' /\ tabs s' !! table 3 = None /\
    tabs mapped !! table 3 <> None /\ tabs s' !! root = tabs mapped !! root.
Proof.
  destruct (dir_shutdown_frees root (2 ^ 47 - 1) mapped 256) as (s' & Hs & Hq).
  - done.
  - apply mapped_ok.
  - apply leaves_okb_ok. by vm_compute.
  - by vm_compute.
  - by vm_compute.
  - assert (tables_below (tabs mapped) root 0 0 (256 - 1) ++ tables_below (tabs mapped) root Super_level 256 (root_entries - 1)
            = three) as E by (by vm_compute).
    rewrite E in Hq. exists s'. split; [exact Hs |].
    assert (table 3 ∈ three) as Hin by (right; left).
    assert (root ∉ three) as Hout by (by apply (bool_decide_unpack _); vm_compute).
    split; [| split].
    + rewrite Hq, decide_True by exact Hin. reflexivity.
    + by vm_compute.
    + rewrite Hq, decide_False by exact Hout. reflexivity.
Defined.

Lemma v_insert_lookup_witness :
  exists st s', v_insert 0 root 0x7000 3 12 (mkAttr 0xf Normal 0) (start three) = Done (st, s') /\
    view root (tabs s') 3 = Some (12, 0x7000, mkAttr 0xf Normal 0).
Proof.
  destruct start_three as [Hpre Htr].
  destruct (v_insert_lookup 0 root 0x7000 3 12 0 (mkAttr 0xf Normal 0) (start three) [root] Hpre)
    as (st & s' & live' & Hi & _ & Hv & Hn & _).
  - by vm_compute.
  - by vm_compute.
  - split; [done |]. split; [done |]. by left.
  - by left.
  - intros tt q es v Hg Hsl. vm_compute in Hsl. discriminate.
  - exists st, s'. split; [done |]. rewrite Hv. assert (st = Insert_ok) as ->; [| by vm_compute].
    pose proof (f_equal (fun o => match o with Done (x, _) => x | _ => Insert_err_nomem end) Hi) as E. cbn beta iota in E.
    rewrite <- E. by vm_compute.
Defined.

Lemma v_delete_lookup_witness :
  exists h', v_delete root 4 W (tabs mapped) = Done (0, h') /\
    view root h' 4 = Some (12, 0x8000, mkAttr 0xd Normal 0) /\ view root h' 3 = view root (tabs mapped) 3.
Proof.
  destruct (v_delete_lookup root 4 W (tabs mapped) mapped_ok) as (ret & h' & Hd & _ & Hm).
  - intros q es Hq. apply (map_Forall_lookup_1 (fun _ es => Forall (fun v => is_mword v) es) (tabs mapped) q es); [| done].
    by apply (bool_decide_unpack _); vm_compute.
  - assert (view root (tabs mapped) 4 = Some (12, 0x8000, mkAttr 0xf Normal 0)) as E by (vm_compute; reflexivity). rewrite E in Hm.
    destruct Hm as (level & v & Ho & Ht & -> & Hv).
    assert (level = 0 /\ used v = 0) as [-> Hu].
    { assert (translate Ptab_traits_vpn (tabs mapped) root 4 = Some (0, for_pa (make_page_tmpl_raw 0 0x6) 0x8000)) as Et by (by vm_compute).
      rewrite Et in Ht. injection Ht as <- <-. split; vm_compute; reflexivity. }
    rewrite Hu in Hd. exists h'. split; [done |]. split.
    + rewrite Hv. by vm_compute.
    + rewrite Hv, bool_decide_eq_false_2 by (vm_compute; discriminate). reflexivity.
Defined.

(** ** Where the operations miss their purpose *)

Lemma unmap_loop_diverges fuel next k K a e :
  unmap_loop fuel next (ld top_level) 3 root a e k K (tabs (start [])) = Diverge.
Proof.
  assert (level_ok top_level) as Hl by (vm_compute; intuition congruence). revert k a.
  induction fuel as [|n IH]; intros k a; [done |]. cbn [unmap_loop]. unfold deref, get_entry. cbn [pte_table pte_offset].
  rewrite ld_offset by done. pose proof (ix_range top_level a Hl) as Hr.
  rewrite (read_entry_slot _ _ (replicate 512 0) _ 0); [| apply lookup_singleton_eq | lia |].
  - cbn [obind]. rewrite invalid_0. cbn [negb orb]. apply IH.
  - apply lookup_replicate. split; [done |]. change (2 ^ Size top_level) with 512 in Hr. lia.
Qed.

(** Unmapping never ends on a directory without valid entries: [continue]
    skips the test for the end of the range. *)
Theorem unmap_empty_diverges fuel virt size :
  base_unmap fuel Ptab_traits_vpn root virt size 0 (tabs (start [])) = Diverge.
Proof. apply unmap_loop_diverges. Qed.

Lemma done_ex {X} (o : outcome X) (P : X -> Prop) :
  match o with Done x => P x | _ => False end -> exists x, o = Done x /\ P x.
Proof. destruct o as [x | |]; [| done..]. intros Hx. by exists x. Qed.

Definition obtain {X} (o : outcome (Z * X)) (d : X) : X := match o with Done (_, x) => x | _ => d end.

(** A superpage at 0 and small pages behind it. *)
Definition two_sizes : state (list Z) :=
  obtain (base_map Ptab_traits_vpn root 0x40000000 0 512 0x6 1
    (obtain (base_map Ptab_traits_vpn root 0x7000000 512 512 0x6 0 (start three)) (start []))) (start []).

(** Unmapping a superpage's range at the level of small pages leaves the
    superpage and clears the range behind it. *)
Theorem unmap_clears_other_range :
  let h := tabs two_sizes in
  exists h', base_unmap 512 Ptab_traits_vpn root 0 512 0 h = Done h' /\
    translate Ptab_traits_vpn h root 0 <> None /\ translate Ptab_traits_vpn h' root 0 = translate Ptab_traits_vpn h root 0 /\
    translate Ptab_traits_vpn h root 600 <> None /\ translate Ptab_traits_vpn h' root 600 = None.
Proof.
  intros h. apply done_ex. vm_compute. split; [discriminate |]. split; [reflexivity |]. split; [discriminate | reflexivity].
Qed.

(** A range of small pages that crosses an entry two levels up is mapped to
    the wrong frames behind it: page [2^18] lies 1024 pages after the start of
    the range and gets the frame 512 pages after the start. *)
Theorem map_crossing_wrong_frame :
  let s := obtain (base_map Ptab_traits_vpn root 0x10000000 (2 ^ 18 - 1024) 1536 0x6 0
             (start [table 2; table 3; table 4; table 5; table 6; table 7])) (start []) in
  translate Ptab_traits_vpn (tabs s) root (2 ^ 18 - 1024) = Some (0, for_pa (make_page_tmpl_raw 0 0x6) 0x10000000) /\
  translate Ptab_traits_vpn (tabs s) root (2 ^ 18) = Some (0, for_pa (make_page_tmpl_raw 0 0x6) (0x10000000 + 512 * 0x1000)).
Proof. vm_compute. split; reflexivity. Qed.

(** Mapping small pages into the range of a superpage takes the superpage's
    frame for a table. *)
Theorem map_into_superpage_faults :
  base_map Ptab_traits_vpn root 0x7000 3 1 0x6 0 two_sizes = Fault.
Proof. vm_compute. reflexivity. Qed.
End Amd64.
