(* ===== verification/PtabIter.v ===== *)
(** The iterative page tables (src/src/kern/ptab_base-iterative.h), which ARM
    uses: the same operations over an array of level descriptions instead of
    one class per level, and their equivalence with the recursive ones. *)

From S2P Require Import Prelude Outcome L4Types Ptab PtabInv PtabMap PtabWalk PtabFree PtabSpec MemSpace.

Module Iter.
Section with_arch.
Context `{Arch, PO : Pte_ops}.

(** * [Iterative_base::levels] *)

(** The description of the level [t]; all levels share the base shift of the
    first and the minimal shift of the last. *)
Definition ld (ts : list Traits) (t : Traits) : Ldesc :=
  make_Ldesc (default 0 (Base_shift <$> head ts)) (default 0 (Shift <$> last ts)) (Shift t) (Size t) (May_be_leaf t).

Definition levels (ts : list Traits) : list Ldesc := map (ld ts) ts.

(** * [Iter_bits::Walk] *)

(** [PTE_PTR e(n + virt_index, cur_level)] *)
Definition entry_ptr (p virt_index cur_level : Z) : Pte_ptr := mkPte p (virt_index * entry_size) cur_level.

(** The guard of [map] and [unmap]: a range beyond one root table is refused. *)
Definition in_one_table (desc : Ldesc) (virt virt_end : Z) : bool :=
  let fs := _shift desc + _size desc in
  negb (fs <? MWORD_BITS) || (virt >> fs =? virt_end >> fs).

Context {A : Type} `{MO : Mem_ops, AO : !Alloc_ops A}.

Definition it_alloc_next (e : Pte_ptr) (desc : Ldesc) (s : state A) : outcome (option Z * state A) :=
  alloc_next e desc (mwrap (entry_size * length_ desc)) s.

Fixpoint walk (d : list Ldesc) (n l virt level : Z) (s : state A) : outcome (Pte_ptr * state A) :=
  match d with
  | [] => Fault
  | d0 :: d' =>
      let e := get_entry l d0 n virt in
      if l =? level then Done (e, s)
      else
        let* v := deref (tabs s) e in
        if is_valid v then
          if _may_be_leaf d0 && is_leaf l v then Done (e, s)
          else walk d' (phys_to_pmem (next_level v)) (l - 1) virt level s
        else if negb alloc_valid then Done (e, s)
        else
          match d' with
          | [] => Fault
          | d1 :: _ =>
              let* (x, s) := it_alloc_next e d1 s in
              match x with Some x => walk d' x (l - 1) virt level s | None => Done (e, s) end
          end
  end.

(** The loop of [_map]; [next] maps in the table below an entry. *)
Fixpoint _map_loop (fuel : nat) (next : Z -> Z -> Z -> Z -> state A -> outcome (Z * state A))
  (desc d1 : Ldesc) (cur_level n phys virt virt_end virt_index virt_index_end : Z) (s : state A)
  : outcome (Z * state A) :=
  match fuel with
  | O => Diverge
  | S fuel =>
      let e := entry_ptr n virt_index cur_level in
      let* v := deref (tabs s) e in
      let call x s :=
        let ve := if virt_index <? virt_index_end
                  then msub (mshl (madd virt_index 1) (_shift desc)) 1 else virt_end in
        let* (mapped_size, s) := next x phys virt ve s in
        if mapped_size =? 0 then Done (mapped_size, s)
        else if virt_index_end <=? virt_index then Done (mapped_size, s)
        else
          let virt_index := madd virt_index 1 in
          _map_loop fuel next desc d1 cur_level n (madd phys mapped_size) (mshl virt_index (_shift desc)) virt_end
            virt_index virt_index_end s in
      if negb (is_valid v) then
        if alloc_valid then
          let* (x, s) := it_alloc_next e d1 s in
          match x with Some x => call x s | None => Done (0, s) end
        else Done (0, s)
      else if _may_be_leaf desc && is_leaf cur_level v then Done (0, s)
      else call (phys_to_pmem (next_level v)) s
  end.

Fixpoint _map (depth : nat) (d : list Ldesc) (n cur_level phys virt virt_end tmpl : Z) (s : state A)
  : outcome (Z * state A) :=
  match d with
  | desc :: d1 :: _ =>
      _map_loop (table_fuel desc)
        (fun x phys virt ve s =>
           match depth with
           | O => impl_map_st d1 x phys virt ve tmpl s
           | S depth => _map depth (tail d) x (cur_level - 1) phys virt ve tmpl s
           end)
        desc d1 cur_level n phys virt virt_end (index desc virt) (index desc virt_end) s
  | _ => Fault
  end.

Definition map (d : list Ldesc) (n cur_level phys virt virt_end tmpl level : Z) (s : state A)
  : outcome (Z * state A) :=
  match d with
  | [] => Fault
  | desc :: _ =>
      if cur_level <? level then Fault
      else if negb (in_one_table desc virt virt_end) then Done (0, s)
      else if level =? cur_level then impl_map_st desc n phys virt virt_end tmpl s
      else _map (Z.to_nat (cur_level - level - 1)) d n cur_level phys virt virt_end tmpl s
  end.

(** The loop of [_unmap]; [continue] runs the increment without the test for
    the end of the range. *)
Fixpoint _unmap_loop (fuel : nat) (next : Z -> Z -> Z -> heap -> outcome heap)
  (desc : Ldesc) (cur_level n virt_start virt_end virt_index virt_index_end : Z) (h : heap) : outcome heap :=
  match fuel with
  | O => Diverge
  | S fuel =>
      let e := entry_ptr n virt_index cur_level in
      let* v := deref h e in
      let index1 := madd virt_index 1 in
      let continue h := _unmap_loop fuel next desc cur_level n (mshl index1 (_shift desc)) virt_end index1 virt_index_end h in
      if negb (is_valid v) || is_leaf cur_level v then continue h
      else
        let ve := if virt_index <? virt_index_end then msub (mshl index1 (_shift desc)) 1 else virt_end in
        let* h := next (phys_to_pmem (next_level v)) virt_start ve h in
        if virt_index_end <=? virt_index then Done h else continue h
  end.

(** At depth 0 the table below is unmapped up to [virt_end], not [ve]. *)
Fixpoint _unmap (fuel : nat) (depth : nat) (d : list Ldesc) (n cur_level virt_start virt_end : Z) (h : heap)
  : outcome heap :=
  match d with
  | desc :: d1 :: _ =>
      _unmap_loop fuel
        (fun x virt_start ve h =>
           match depth with
           | O => impl_unmap d1 h x virt_start virt_end
           | S depth => _unmap fuel depth (tail d) x (cur_level - 1) virt_start ve h
           end)
        desc cur_level n virt_start virt_end (index desc virt_start) (index desc virt_end) h
  | _ => Fault
  end.

Definition unmap (fuel : nat) (d : list Ldesc) (n cur_level virt_start virt_end level : Z) (h : heap) : outcome heap :=
  match d with
  | [] => Fault
  | desc :: _ =>
      if cur_level <? level then Fault
      else if negb (in_one_table desc virt_start virt_end) then Done h
      else if level =? cur_level then impl_unmap desc h n virt_start virt_end
      else _unmap fuel (Z.to_nat (cur_level - level - 1)) d n cur_level virt_start virt_end h
  end.

Fixpoint _destroy_loop (fuel : nat) (next : Z -> Z -> Z -> state A -> outcome (state A))
  (desc d1 : Ldesc) (cur_level n start end_ ofs_start ofs_end ofs start_level : Z) (s : state A)
  : outcome (state A) :=
  match fuel with
  | O => Diverge
  | S fuel =>
      if ofs <=? ofs_end then
        let* v := read_entry (tabs s) n ofs in
        let continue s := _destroy_loop fuel next desc d1 cur_level n start end_ ofs_start ofs_end
                            (wrap 32 (ofs + offset_inc)) start_level s in
        if negb (is_valid v) || (_may_be_leaf desc && is_leaf cur_level v) then continue s
        else
          let x := phys_to_pmem (next_level v) in
          let* s := next x (if ofs_start <? ofs then 0 else start)
                      (if ofs <? ofs_end then msub (mshl 1 (_shift desc)) 1 else end_) s in
          if cur_level <=? start_level
          then let* s := free_table x (mwrap (entry_size * length_ d1)) s in continue s
          else continue s
      else Done s
  end.

Fixpoint _destroy (depth : nat) (d : list Ldesc) (n cur_level start end_ start_level : Z) (s : state A)
  : outcome (state A) :=
  match d with
  | desc :: d1 :: _ =>
      let ofs_start := wrap 32 (offset desc start) in
      let ofs_end := wrap 32 (offset desc end_) in
      _destroy_loop (table_fuel desc)
        (fun x start end_ s =>
           match depth with
           | O => Done s
           | S depth => _destroy depth (tail d) x (cur_level - 1) start end_ start_level s
           end)
        desc d1 cur_level n start end_ ofs_start ofs_end ofs_start start_level s
  | _ => Fault
  end.

Definition destroy (d : list Ldesc) (n cur_level start end_ start_level end_level : Z) (s : state A)
  : outcome (state A) :=
  if start_level <? end_level then Fault
  else if negb alloc_valid || (cur_level <=? end_level) then Done s
  else _destroy (Z.to_nat (cur_level - end_level - 1)) d n cur_level start end_ start_level s.

(** The loop of [_sync] is the one of the recursive tables. *)
Fixpoint _sync (depth : nat) (d : list Ldesc) (n cur_level r : Z) (g : sync_regs) (s : state A)
  : outcome (Z * sync_regs * state A) :=
  match d with
  | desc :: d1 :: _ =>
      let count := sync_count (length_ desc) (wrap 32 (index desc (l_a g))) (wrap 32 (index desc (r_a g)))
                     (wrap 32 (sz g >> _shift desc)) in
      sync_loop (Z.to_nat count)
        (fun x rn g s =>
           match depth with
           | O => impl_sync_st d1 x rn g s
           | S depth => _sync depth (tail d) x (cur_level - 1) rn g s
           end)
        desc d1 (mwrap (entry_size * length_ d1)) cur_level n r false g s
  | _ => Fault
  end.

Definition sync (d : list Ldesc) (n cur_level r level : Z) (g : sync_regs) (s : state A)
  : outcome (Z * sync_regs * state A) :=
  match d with
  | [] => Fault
  | desc :: _ =>
      if cur_level <? level then Fault
      else if cur_level =? level then impl_sync_st desc n r g s
      else _sync (Z.to_nat (cur_level - level - 1)) d n cur_level r g s
  end.

(** * [Iterative_base]: the root table at [p] *)

Definition base_clear (ts : list Traits) (p : Z) (h : heap) : outcome heap :=
  match levels ts with [] => Fault | d :: _ => impl_clear d h p end.

Definition base_walk (ts : list Traits) (p virt level : Z) (s : state A) : outcome (Pte_ptr * state A) :=
  walk (levels ts) p (root_level ts) virt level s.

Definition base_map (ts : list Traits) (p phys virt size : Z) (attr : page_attr) (level : Z) (s : state A)
  : outcome (Z * state A) :=
  map (levels ts) p (root_level ts) phys virt (msub (madd virt size) 1) (make_page_tmpl level attr) level s.

Definition base_unmap (fuel : nat) (ts : list Traits) (p virt size level : Z) (h : heap) : outcome heap :=
  unmap fuel (levels ts) p (root_level ts) virt (msub (madd virt size) 1) level h.

Definition base_sync (ts : list Traits) (p l_addr r r_addr size level : Z) (s : state A) : outcome (Z * state A) :=
  let* (e, _, s) := sync (levels ts) p (root_level ts) r level (mkSync l_addr r_addr size) s in Done (e, s).

Definition base_destroy (ts : list Traits) (p start end_ start_level end_level : Z) (s : state A) : outcome (state A) :=
  destroy (levels ts) p (root_level ts) start end_ start_level end_level s.
End with_arch.
End Iter.

(** * The iterative tables do what the recursive ones do *)

Section descriptions.
Context `{Arch, PO : Pte_ops, PL : !Pte_laws}.

(** [d] describes the level [t], whichever way it computes indices. *)
Definition describes (t : Traits) (d : Ldesc) : Prop :=
  exists ms, (ms < entry_bits \/ entry_bits <= ms <= Shift t) /\
    d = make_Ldesc (Base_shift t) ms (Shift t) (Size t) (May_be_leaf t).

Lemma levels_last ts : levels_ok ts -> exists b m, forall t, t ∈ ts ->
  default 0 (Base_shift <$> head ts) = b /\ Base_shift t = b /\ default 0 (Shift <$> last ts) = m /\ m <= Shift t.
Proof.
  induction ts as [|t ts IH]; [done |]. intros [Hl Hls]. destruct ts as [|t' ts].
  - exists (Base_shift t), (Shift t). intros x ->%list_elem_of_singleton. cbn. lia.
  - destruct Hls as (Hs & Hb & Hls). destruct (IH Hls) as (b & m & Hbm). exists b, m. cbn [head last fmap option_fmap option_map default] in *.
    destruct (Hbm t' (list_elem_of_here _ _)) as (Eb & Eb' & Em & Hm). destruct Hls as [Hl' _].
    intros x [-> | Hx]%elem_of_cons; [| destruct (Hbm x Hx) as (? & ? & ? & ?)]; destruct Hl, Hl'; cbn in *; intuition lia.
Qed.

Lemma levels_describe ts : levels_ok ts -> Forall2 describes ts (Iter.levels ts).
Proof.
  intros Hls. destruct (levels_last ts Hls) as (b & m & Hbm). unfold Iter.levels.
  apply Forall2_fmap_r, Forall_Forall2_diag, Forall_forall. intros t Ht. destruct (Hbm t Ht) as (E1 & E2 & E3 & E4).
  exists m. split; [lia |]. unfold Iter.ld. by rewrite E1, E2, E3.
Qed.

Section one.
Context (t : Traits) (d : Ldesc) (Hl : level_ok t) (Hd : describes t d).

Lemma describes_index a : index d a = ix t a.
Proof using PL Hl Hd. destruct Hd as (ms & Hms & ->). by apply make_Ldesc_index. Qed.

Lemma describes_offset a : offset d a = ix t a * entry_size.
Proof using PL Hl Hd. destruct Hd as (ms & Hms & ->). by apply make_Ldesc_offset. Qed.

Lemma describes_entry l p virt : get_entry l d p virt = get_entry l (ld t) p virt.
Proof using PL Hl Hd. unfold get_entry. by rewrite describes_offset, ld_offset. Qed.

Lemma describes_size : _shift d = Shift t /\ _size d = Size t /\ _may_be_leaf d = May_be_leaf t /\
  base_shift d = Base_shift t /\ table_fuel d = table_fuel (ld t) /\ length_ d = length_ (ld t).
Proof using Hd. by destruct Hd as (ms & Hms & ->). Qed.

Lemma describes_map {A} p phys virt ve tmpl (s : state A) :
  impl_map_st d p phys virt ve tmpl s = impl_map_st (ld t) p phys virt ve tmpl s.
Proof using PL Hl Hd.
  unfold impl_map_st, impl_map. destruct describes_size as (-> & _ & _ & -> & -> & _).
  by rewrite !describes_offset, !ld_offset.
Qed.

Lemma describes_clear h p : impl_clear d h p = impl_clear (ld t) h p.
Proof using Hd. by destruct Hd as (ms & Hms & ->). Qed.

Lemma describes_bytes ts : mwrap (entry_size * length_ d) = size_of (t :: ts).
Proof using PL Hl Hd.
  destruct describes_size as (_ & _ & _ & _ & _ & ->). rewrite ld_length by done. cbn [size_of].
  pose proof (size_small t Hl) as (? & ? & ?). rewrite Z.shiftl_mul_pow2 by lia. apply wrap_small.
  destruct entry_size_pow as [-> He]. rewrite <- Z.pow_add_r by lia. split; [apply Z.pow_nonneg; lia |].
  apply Z.pow_lt_mono_r; lia.
Qed.
End one.

Context {A : Type} `{MO : Mem_ops, AO : !Alloc_ops A}.

Lemma describes_alloc t ts d e (s : state A) :
  level_ok t -> describes t d -> Iter.it_alloc_next e d s = alloc_next e (ld t) (size_of (t :: ts)) s.
Proof.
  intros Hl Hd. unfold Iter.it_alloc_next. rewrite (describes_bytes t d Hl Hd ts). unfold alloc_next.
  destruct (alloc _ _) as [[[n c]|] a]; [| done]. by rewrite (describes_clear t d Hd).
Qed.
End descriptions.

Section equivalence.
Context `{Arch, PO : Pte_ops, PL : !Pte_laws, MO : Mem_ops} {A : Type} `{AO : !Alloc_ops A, AL : !Alloc_laws A}.

Lemma leaves_empty ts h p : Forall (fun x => is_valid x = false) (entries h p) -> leaves_ok ts h p.
Proof.
  destruct ts as [|t ts]; [done |]. intros Hf e He Hv. exfalso. rewrite Forall_forall in Hf. by rewrite (Hf e He) in Hv.
Qed.

(** A walk from any level of the hierarchy. *)
Lemma iter_walk_eq ts d p virt level s live :
  levels_ok ts -> Forall2 describes ts d -> 0 <= level <= Level_Id ts ->
  mem_pre ts p s live -> leaves_ok ts (tabs s) p ->
  Iter.walk d p (Level_Id ts) virt level s = walk ts p virt level s.
Proof.
  intros Hls Hds. revert p s live. induction Hds as [|t d ts ds Hd Hds IH]; intros p s live Hlev Hpre Hlv; [done |].
  assert (level_ok t) as Hl by apply Hls. cbn [Iter.walk walk]. rewrite (describes_entry t d Hl Hd).
  destruct Hds as [|t' d' ts ds Hd' Hds].
  { rewrite (proj2 (Z.eqb_eq _ _)); [done |]. unfold Level_Id in *. cbn in *. lia. }
  rewrite (Z.eqb_sym level). destruct (Z.eqb_spec (Level_Id (t :: t' :: ts)) level) as [Heq | Hne]; [done |].
  destruct (pre_root _ _ _ _ _ Hpre) as (es & Hp & Hlen). pose proof (ix_range t virt Hl) as Hr.
  destruct (lookup_lt_is_Some_2 es (Z.to_nat (ix t virt))) as [v Hv]; [lia |].
  rewrite get_entry_ld by done. unfold deref. cbn [pte_table pte_offset].
  rewrite (read_entry_slot _ _ es _ v) by (done || lia). cbn [obind].
  assert (levels_ok (t' :: ts)) as Hls' by apply Hls. assert (level_ok t') as Hl' by apply Hls'.
  assert (Level_Id (t :: t' :: ts) - 1 = Level_Id (t' :: ts)) as -> by (unfold Level_Id; cbn; lia).
  assert (0 <= level <= Level_Id (t' :: ts)) as Hlev' by (unfold Level_Id in *; cbn in *; lia).
  destruct (is_valid v) eqn:Hvv; cbn [negb].
  - destruct (describes_size t d Hd) as (_ & _ & -> & _).
    cbn [leaves_ok] in Hlv. rewrite (entries_eq _ _ _ Hp) in Hlv. specialize (Hlv v (list_elem_of_lookup_2 _ _ _ Hv) Hvv).
    destruct (is_leaf (Level_Id (t :: t' :: ts)) v) eqn:Hlf; [by rewrite Hlv |]. rewrite andb_false_r.
    eapply IH; [done | done | | done]. eapply mem_pre_child; try done. unfold is_table. by rewrite Hvv, Hlf.
  - destruct alloc_valid; [| done]. cbn [negb next_ld]. rewrite (describes_alloc t' ts d') by done.
    destruct (alloc_next_ok t t' ts p s live es (ix t virt) v) as (r & s1 & -> & Hr1); try done; [lia |].
    cbn [obind]. destruct r as [n|]; [| done].
    destruct Hr1 as (Hpost & _ & es' & e' & Hp' & He' & Ht' & <- & Hnew). eapply IH; [done | done | | by apply leaves_empty].
    eapply mem_pre_child; try done. by eapply mem_post_pre.
Qed.

(** ** Mapping *)

Section directory.
Context (t t' tt : Traits) (d d' : Ldesc) (ts : list Traits) (level tmpl : Z).
Context (next next' : Z -> Z -> Z -> Z -> state A -> outcome (Z * state A)).
Abbreviation dir := (t :: t' :: ts).

Hypothesis Hls : levels_ok dir.
Hypothesis Hd : describes t d.
Hypothesis Hd' : describes t' d'.
Hypothesis Htt : Shift tt <= Shift t' /\ level_ok tt.
Hypothesis Hlev : level < Level_Id dir.

Hypothesis Hnext : forall c phys virt ve s live,
  mem_pre (t' :: ts) c s live -> is_mword phys -> phys mod 2 ^ next_low = 0 ->
  pg t' (Shift tt) virt <= pg t' (Shift tt) ve -> no_super (t' :: ts) t' tt (tabs s) c virt ve level ->
  next' c phys virt ve s = next c phys virt ve s /\
  exists ms s', next c phys virt ve s = Done (ms, s') /\
    map_post (t' :: ts) t' tt level c phys virt ve tmpl ms s s' live.

Lemma iter_map_loop_eq n p phys virt ve s live :
  mem_pre dir p s live -> is_mword phys -> phys mod 2 ^ next_low = 0 ->
  pg t (Shift tt) virt <= pg t (Shift tt) ve -> no_super dir t tt (tabs s) p virt ve level ->
  Iter._map_loop n next' d d' (Level_Id dir) p phys virt ve (ix t virt) (ix t ve) s =
  map_loop n next (ld t) (ld t') (size_of (t' :: ts)) (Level_Id dir) p phys virt ve (ix t virt) (ix t ve) s.
Proof.
  assert (level_ok t) as Hl by apply Hls. assert (level_ok t') as Hl' by apply Hls.
  destruct (describes_size t d Hd) as (Esh & _ & Elf & _).
  revert phys virt s live. induction n as [|n IH]; intros phys virt s live Hpre Hphys Hal Hle Hns; [done |].
  cbn [Iter._map_loop map_loop]. rewrite Esh. unfold Iter.entry_ptr. rewrite get_entry_ld by done.
  (* the table below an entry is filled and the loop goes on *)
  assert (forall s live es e, mem_pre dir p s live -> no_super dir t tt (tabs s) p virt ve level ->
    tabs s !! p = Some es -> es !! Z.to_nat (ix t virt) = Some e -> is_table (Level_Id dir) e = true ->
    let v := part_end t (ix t virt) (ix t ve) ve in
    (let* (m, s) := next' (child e) phys virt v s in
     if m =? 0 then Done (m, s) else if ix t ve <=? ix t virt then Done (m, s)
     else Iter._map_loop n next' d d' (Level_Id dir) p (madd phys m) (mshl (madd (ix t virt) 1) (Shift t)) ve
            (madd (ix t virt) 1) (ix t ve) s) =
    (let* (m, s) := next (child e) phys virt v s in
     if m =? 0 then Done (m, s) else if ix t ve <=? ix t virt then Done (m, s)
     else map_loop n next (ld t) (ld t') (size_of (t' :: ts)) (Level_Id dir) p (madd phys m)
            (mshl (madd (ix t virt) 1) (Shift t)) ve (madd (ix t virt) 1) (ix t ve) s)) as Hcall.
  { clear s live Hpre Hns. intros s live es e Hpre Hns Hp He Ht v.
    destruct (part_pre t t' tt ts level Hls Htt p s live es e virt ve Hpre Hle Hns Hp He Ht) as (Hprec & Hlec & Hnsc).
    destruct (map_part t t' tt ts level tmpl next Hls Htt) with (p := p) (s := s) (live := live) (es := es) (e := e)
      (phys := phys) (virt := virt) (ve := ve) as (ms & s1 & ns & Hc & Hpost & Hout & _ & Hm & _ & _); try done.
    { intros c phys' virt' ve' s' live' H1 H2 H3 H4 H5. by destruct (Hnext c phys' virt' ve' s' live' H1 H2 H3 H4 H5). }
    destruct (Hnext (child e) phys virt v s live) as [-> _]; [done.. |]. fold v in Hc.
    rewrite Hc. cbn [obind]. destruct (ms =? 0); [done |]. destruct (Z.leb_spec (ix t ve) (ix t virt)); [done |].
    destruct (map_advance t t' tt ts level Hls Htt p phys virt ve ms s s1 live ns)
      as (Hk1 & Hix & _ & Hpre1 & Hmw & Hal1 & Hle1 & Hns1); try done.
    { intros a Ha. apply Hout. tauto. }
    rewrite Hk1 in *. rewrite <- Hix at 2 4. by eapply IH. }
  destruct (pre_root _ _ _ _ _ Hpre) as (es & Hp & Hlen). pose proof (ix_range t virt Hl) as Hr.
  destruct (lookup_lt_is_Some_2 es (Z.to_nat (ix t virt))) as [e He]; [lia |].
  unfold deref. cbn [pte_table pte_offset]. rewrite (read_entry_slot _ _ es _ e) by (done || lia). cbn [obind].
  destruct (is_valid e) eqn:Hv; cbn [negb].
  - assert (is_leaf (Level_Id dir) e = false) as Hlf.
    { destruct (is_leaf (Level_Id dir) e) eqn:Hlf; [exfalso | done]. cut (Level_Id dir <= level); [lia |].
      apply (Hns virt (Level_Id dir) e); [lia |]. cbn [translate]. rewrite (entries_eq _ _ es Hp). by rewrite He, Hv, Hlf. }
    rewrite Hlf, !andb_false_r. eapply Hcall; try done. unfold is_table. by rewrite Hv, Hlf.
  - destruct alloc_valid; [| done]. rewrite (describes_alloc t' ts d') by done.
    destruct (alloc_next_ok t t' ts p s live es (ix t virt) e) as (r & s1 & -> & Hr1); try done; [lia |].
    cbn [obind]. destruct r as [n'|]; [| done].
    destruct Hr1 as (Hpost & Htr & es' & e' & Hp' & He' & Ht' & <- & _). eapply Hcall; try done.
    + by eapply mem_post_pre.
    + intros a l x Ha. rewrite Htr. by apply Hns.
Qed.
End directory.

Lemma _map_cons depth d d1 ds n cur_level phys virt ve tmpl (s : state A) :
  Iter._map depth (d :: d1 :: ds) n cur_level phys virt ve tmpl s =
  Iter._map_loop (table_fuel d)
    (fun x phys virt ve s =>
       match depth with
       | O => impl_map_st d1 x phys virt ve tmpl s
       | S depth => Iter._map depth (d1 :: ds) x (cur_level - 1) phys virt ve tmpl s
       end) d d1 cur_level n phys virt ve (index d virt) (index d ve) s.
Proof. by destruct depth. Qed.

(** The recursion below the root, as deep as the level of the pages. *)
Lemma iter_map_eq ts ds t tt level p phys virt ve tmpl s live :
  levels_ok ts -> Forall2 describes ts ds -> head ts = Some t -> Level_get ts level = Some tt -> 0 <= level < Level_Id ts ->
  mem_pre ts p s live -> is_mword phys -> phys mod 2 ^ next_low = 0 -> tmpl_ok level tmpl ->
  pg t (Shift tt) virt <= pg t (Shift tt) ve -> no_super ts t tt (tabs s) p virt ve level ->
  Iter._map (Z.to_nat (Level_Id ts - level - 1)) ds p (Level_Id ts) phys virt ve tmpl s =
  map_ ts p phys virt ve tmpl level s.
Proof.
  intros Hls Hds. revert t p phys virt ve s live.
  induction Hds as [|t0 d ts ds Hd Hds IH]; intros t p phys virt ve s live [= ->] Hg Hlev Hpre Hphys Hal Ht Hle Hns.
  destruct Hds as [|t' d' ts ds Hd' Hds]; [unfold Level_Id in Hlev; cbn in Hlev; lia |].
  rewrite Level_get_cons in Hg by lia. assert (levels_ok (t' :: ts)) as Hls' by apply Hls.
  destruct (Level_get_spec _ _ _ Hls' Hg) as [Htt Hsh]. assert (level_ok t) as Hl by apply Hls.
  assert (level_ok t') as Hl' by apply Hls'.
  assert (Level_Id (t :: t' :: ts) - 1 = Level_Id (t' :: ts)) as Elev by (unfold Level_Id; cbn; lia).
  assert (exists k, Z.to_nat (Level_Id (t :: t' :: ts) - level - 1) = k /\
    (k = O /\ level = Level_Id (t' :: ts) \/ exists k', k = S k' /\ k' = Z.to_nat (Level_Id (t' :: ts) - level - 1) /\
       level < Level_Id (t' :: ts))) as (k & -> & Hk).
  { eexists. split; [done |]. destruct (decide (level = Level_Id (t' :: ts))); [left; lia |]. right.
    exists (Z.to_nat (Level_Id (t' :: ts) - level - 1)). lia. }
  assert (forall c phys virt ve s live, mem_pre (t' :: ts) c s live -> is_mword phys -> phys mod 2 ^ next_low = 0 ->
    pg t' (Shift tt) virt <= pg t' (Shift tt) ve -> no_super (t' :: ts) t' tt (tabs s) c virt ve level ->
    match k with
    | O => impl_map_st d' c phys virt ve tmpl s
    | S k => Iter._map k (d' :: ds) c (Level_Id (t :: t' :: ts) - 1) phys virt ve tmpl s
    end = map_ (t' :: ts) c phys virt ve tmpl level s) as Hnext.
  { intros c phys' virt' ve' s' live' H1 H2 H3 H4 H5. destruct Hk as [[-> ->] | (k' & -> & -> & Hlt)].
    - rewrite (describes_map t' d') by done. cbn [map_]. destruct ts; [done |]. by rewrite Z.eqb_refl.
    - rewrite Elev. eapply IH; try done. lia. }
  assert (level =? Level_Id (t :: t' :: ts) = false) as Ene by (apply Z.eqb_neq; lia).
  rewrite _map_cons. cbn [map_]. rewrite Ene, !(describes_index t d), !ld_index by done.
  destruct (describes_size t d Hd) as (_ & _ & _ & _ & -> & _). eapply iter_map_loop_eq; try done; [lia |].
  intros c phys' virt' ve' s' live' H1 H2 H3 H4 H5. split; [by eapply Hnext |].
  apply (map_ok (t' :: ts)); try done. lia.
Qed.

Lemma in_one_table_ok t d virt ve :
  describes t d -> level_ok t -> 0 <= virt < span t -> 0 <= ve < span t -> Iter.in_one_table d virt ve = true.
Proof.
  intros Hd Hl Hv He. destruct (describes_size t d Hd) as (Esh & Esz & _). unfold Iter.in_one_table. rewrite Esh, Esz.
  assert (0 <= Shift t + Size t) by (unfold level_ok in Hl; lia).
  rewrite !Z.shiftr_div_pow2 by done. rewrite !Z.div_small by done. rewrite Z.eqb_refl. by rewrite orb_true_r.
Qed.

(** The iterative page tables give the same entry, the same tables and the
    same allocations as the recursive ones, for a walk with or without an
    allocator, in every hierarchy in which only levels that may have leaves
    have leaves. *)
Theorem iterative_walk_equiv ts p virt level s live :
  levels_ok ts -> 0 <= level <= Level_Id ts -> mem_pre ts p s live -> leaves_ok ts (tabs s) p ->
  Iter.base_walk ts p virt level s = walk ts p virt level s.
Proof. intros Hls. apply iter_walk_eq; [done | by apply levels_describe]. Qed.

(** C29: mapping an aligned range of whole pages in which no larger page lies has
    the same result, the same tables and the same allocations in the iterative and
    in the recursive page tables, also when memory runs out half way.  (Where a
    larger page lies in the range the iterative form returns and the recursive one
    takes the page for a table, [map_into_superpage_faults].) *)
Theorem iterative_map_equiv ts t tt level p phys virt size attr s live :
  levels_ok ts -> head ts = Some t -> Level_get ts level = Some tt -> 0 <= level <= Level_Id ts ->
  mem_pre ts p s live -> is_mword phys -> phys mod 2 ^ next_low = 0 -> tmpl_ok level (make_page_tmpl level attr) ->
  0 <= virt -> 0 < size -> virt + size <= span t -> virt mod 2 ^ Shift tt = 0 -> size mod 2 ^ Shift tt = 0 ->
  (forall a l e, virt <= a < virt + size -> translate ts (tabs s) p a = Some (l, e) -> l <= level) ->
  Iter.base_map ts p phys virt size attr level s = base_map ts p phys virt size attr level s.
Proof.
  intros Hls Hhd Hg Hlev Hpre Hphys Hal Ht Hv Hs Hle Hva Hsa Hns.
  destruct (range_pages ts t tt level virt size) as (Eve & _ & Ele & _ & Hany); [done.. |].
  pose proof (levels_describe ts Hls) as Hds. unfold Iter.base_map, base_map, Iter.map. rewrite Eve.
  destruct ts as [|t0 ts]; [done |]. injection Hhd as ->. assert (level_ok t) as Hl by apply Hls.
  apply Forall2_cons_inv_l in Hds as (d & ds & Hd & Hds & Ed). rewrite Ed. unfold root_level.
  rewrite (proj2 (Z.ltb_ge _ _)) by lia. rewrite (in_one_table_ok t) by (done || lia). cbn [negb].
  destruct (Z.eqb_spec level (Level_Id (t :: ts))) as [-> | Hne].
  - rewrite (describes_map t d) by done. cbn [map_]. destruct ts; [done |]. by rewrite Z.eqb_refl.
  - eapply iter_map_eq; try done; [by constructor | lia |].
    intros a l e [Ha Hmod]%Hany. rewrite (translate_congr t ts (tabs s) p a (a mod span t)); [by apply Hns | done | by symmetry].
Qed.

(** ** Freeing *)

Lemma iter_destroy_loop_eq next next' t t' d d' ts n Level p start end_ i0 i1 i sl (s : state A) :
  level_ok t -> level_ok t' -> describes t d -> describes t' d' ->
  (forall c a b s, next' c a b s = next c a b s) ->
  0 <= i0 <= i -> i1 < 2 ^ Size t ->
  Iter._destroy_loop n next' d d' Level p start end_ (i0 * entry_size) (i1 * entry_size) (i * entry_size) sl s =
  destroy_loop n next t (size_of (t' :: ts)) Level p start end_ i0 (i1 + 1) i sl s.
Proof.
  intros Hl Hl' Hd Hd' Hnext. revert i s. induction n as [|n IH]; intros i s Hi Hsz; [done |].
  cbn [Iter._destroy_loop destroy_loop]. destruct (describes_size t d Hd) as (-> & _ & -> & _).
  rewrite (describes_bytes t' d' Hl' Hd' ts).
  assert (0 < entry_size) as He by (destruct entry_size_ok as [-> | ->]; lia).
  assert ((i * entry_size <=? i1 * entry_size) = (i <? i1 + 1)) as ->.
  { destruct (Z.ltb_spec i (i1 + 1)); [apply Z.leb_le | apply Z.leb_gt]; nia. }
  destruct (Z.ltb_spec i (i1 + 1)) as [Hlt |]; [| done].
  assert (wrap 32 (i + 1) = i + 1) as ->.
  { apply wrap_small. pose proof (size_small t Hl). assert (2 ^ Size t < 2 ^ 32) by (apply Z.pow_lt_mono_r; lia). unfold in_range. lia. }
  rewrite (offset_step t) by (done || lia).
  assert ((i0 * entry_size <? i * entry_size) = (i0 <? i)) as ->.
  { destruct (Z.ltb_spec i0 i); [apply Z.ltb_lt | apply Z.ltb_ge]; nia. }
  assert ((i * entry_size <? i1 * entry_size) = (i + 1 <? i1 + 1)) as ->.
  { destruct (Z.ltb_spec (i + 1) (i1 + 1)); [apply Z.ltb_lt | apply Z.ltb_ge]; nia. }
  destruct (read_entry (tabs s) p (i * entry_size)) as [v | |]; [| done..]. cbn [obind].
  destruct (negb (is_valid v) || (May_be_leaf t && is_leaf Level v)); [apply IH; lia |].
  rewrite Hnext. destruct (next _ _ _ s) as [s1 | |]; [| done..]. cbn [obind].
  destruct (Level <=? sl); [| apply IH; lia]. destruct (free_table _ _ s1) as [s2 | |]; [| done..]. cbn [obind]. apply IH; lia.
Qed.

Lemma _destroy_cons depth d d1 ds n cur_level start end_ sl (s : state A) :
  Iter._destroy depth (d :: d1 :: ds) n cur_level start end_ sl s =
  Iter._destroy_loop (table_fuel d)
    (fun x start end_ s =>
       match depth with
       | O => Done s
       | S depth => Iter._destroy depth (d1 :: ds) x (cur_level - 1) start end_ sl s
       end) d d1 cur_level n start end_ (wrap 32 (offset d start)) (wrap 32 (offset d end_)) (wrap 32 (offset d start)) sl s.
Proof. by destruct depth. Qed.

Lemma iter_destroy_eq ts ds t p start end_ sl el (s : state A) :
  levels_ok ts -> Forall2 describes ts ds -> head ts = Some t -> masked (tail ts) -> alloc_valid = true ->
  (Mask t = true \/ 0 <= start < span t /\ 0 <= end_ < span t) -> 0 <= el < Level_Id ts ->
  Iter._destroy (Z.to_nat (Level_Id ts - el - 1)) ds p (Level_Id ts) start end_ sl s = destroy ts p start end_ sl el s.
Proof.
  intros Hls Hds. revert t p start end_ s.
  induction Hds as [|t0 d ts ds Hd Hds IH]; intros t p start end_ s [= ->] Hm Hav HM Hel.
  destruct Hds as [|t' d' ts ds Hd' Hds]; [unfold Level_Id in Hel; cbn in Hel; lia |]. cbn [tail] in Hm.
  assert (levels_ok (t' :: ts)) as Hls' by apply Hls. assert (level_ok t) as Hl by apply Hls.
  assert (level_ok t') as Hl' by apply Hls'. apply Forall_cons in Hm as [Hm' Hms].
  assert (Level_Id (t :: t' :: ts) - 1 = Level_Id (t' :: ts)) as Elev by (unfold Level_Id; cbn; lia).
  rewrite _destroy_cons, destroy_cons, Hav. cbn [negb orb]. rewrite (proj2 (Z.leb_gt _ _)) by lia.
  destruct (describes_size t d Hd) as (_ & _ & _ & _ & -> & _). rewrite !(describes_offset t d), !(idx_ix t) by (done || tauto).
  pose proof (ix_range t start Hl). pose proof (ix_range t end_ Hl). rewrite !(offset_32 t) by (done || lia).
  assert (wrap 32 (ix t end_ + 1) = ix t end_ + 1) as ->.
  { apply wrap_small. pose proof (size_small t Hl). assert (2 ^ Size t < 2 ^ 32) by (apply Z.pow_lt_mono_r; lia). unfold in_range. lia. }
  apply iter_destroy_loop_eq; try done; [| lia..]. intros c a b s'.
  destruct (Z.to_nat (Level_Id (t :: t' :: ts) - el - 1)) as [|k] eqn:Ek.
  - symmetry. assert (Level_Id (t' :: ts) <= el) as Hle by lia. destruct ts as [|t2 ts]; [done |].
    rewrite destroy_cons, Hav. by rewrite (proj2 (Z.leb_le _ _) Hle).
  - assert (k = Z.to_nat (Level_Id (t' :: ts) - el - 1)) as -> by lia. rewrite Elev.
    eapply IH; try done; [by left | lia].
Qed.

(** Freeing the tables below a range gives the same memory and the same
    calls of the allocator in the iterative and in the recursive page tables,
    for every content of the tables. *)
Theorem iterative_destroy_equiv ts t p start end_ sl el (s : state A) :
  levels_ok ts -> head ts = Some t -> masked (tail ts) ->
  (Mask t = true \/ 0 <= start < span t /\ 0 <= end_ < span t) -> 0 <= el <= sl ->
  Iter.base_destroy ts p start end_ sl el s = base_destroy ts p start end_ sl el s.
Proof.
  intros Hls Hhd Hm HM Hel. unfold Iter.base_destroy, base_destroy, Iter.destroy, root_level.
  rewrite (proj2 (Z.ltb_ge _ _)) by lia. destruct (alloc_valid) eqn:Hav; cbn [negb orb].
  - destruct (Z.leb_spec (Level_Id ts) el) as [Hle | Hlt].
    + destruct ts as [|t1 [|t2 ts]]; [done | done |]. rewrite destroy_cons, Hav. by rewrite (proj2 (Z.leb_le _ _) Hle).
    + eapply iter_destroy_eq; try done; [by apply levels_describe | lia].
  - destruct ts as [|t1 [|t2 ts]]; [done | done |]. by rewrite destroy_cons, Hav.
Qed.
End equivalence.

(** * On AMD64's levels *)

Module Iter_amd64.
Import Amd64.

Lemma iterative_walk_equiv_witness :
  Iter.base_walk Ptab_traits_vpn root 3 0 (start three) = walk Ptab_traits_vpn root 3 0 (start three) /\
  tabs (start three) !! table 4 = None /\
  exists e s', walk Ptab_traits_vpn root 3 0 (start three) = Done (e, s') /\ pte_table e = table 4.
Proof.
  split; [| split; [by vm_compute |]].
  - destruct start_three as [Hpre _]. apply (iterative_walk_equiv Ptab_traits_vpn root 3 0 (start three) [root]).
    + apply ia32_levels_ok.
    + by vm_compute.
    + exact Hpre.
    + apply leaves_okb_ok. by vm_compute.
  - eexists _, _. split; [vm_compute; reflexivity | by vm_compute].
Defined.

Lemma iterative_map_equiv_witness :
  Iter.base_map Ptab_traits_vpn root 0x7000 3 2 0x6 0 (start three) =
  base_map Ptab_traits_vpn root 0x7000 3 2 0x6 0 (start three).
Proof.
  destruct start_three as [Hpre Htr], amd64_levels as (Hh & Hg & Hl).
  apply (iterative_map_equiv Ptab_traits_vpn top_level leaf_level 0 root 0x7000 3 2 (0x6 : page_attr (Pte_ops := ia32_pte))
    (start three) [root] ia32_levels_ok Hh Hg Hl Hpre).
  - by vm_compute.
  - by vm_compute.
  - apply ia32_tmpl_ok.
  - lia.
  - lia.
  - by vm_compute.
  - by vm_compute.
  - by vm_compute.
  - intros a l e _. by rewrite Htr.
Defined.

Lemma iterative_destroy_equiv_witness :
  Iter.base_destroy Ptab_traits_vpn root 0 (2 ^ 36 - 1) 3 0 mapped = base_destroy Ptab_traits_vpn root 0 (2 ^ 36 - 1) 3 0 mapped.
Proof.
  destruct amd64_levels as (Hh & _).
  apply (iterative_destroy_equiv Ptab_traits_vpn top_level root 0 (2 ^ 36 - 1) 3 0 mapped ia32_levels_ok Hh).
  - by repeat constructor.
  - by left.
  - lia.
Defined.

(** Pages in two tables of the last level. *)
Definition two_tables : state (list Z) :=
  obtain (base_map Ptab_traits_vpn root 0x7000000 500 24 0x6 0 (start [table 2; table 3; table 4; table 5])) (start []).

(** A range over two tables of the last level is not unmapped at all in the
    first of them: the table is given the end of the whole range, which lies
    before the start of the range in the table. *)
Theorem iterative_unmap_misses :
  exists h', Iter.base_unmap 512 Ptab_traits_vpn root 500 24 0 (tabs two_tables) = Done h' /\
    translate Ptab_traits_vpn (tabs two_tables) root 505 <> None /\
    translate Ptab_traits_vpn h' root 505 = translate Ptab_traits_vpn (tabs two_tables) root 505 /\
    translate Ptab_traits_vpn h' root 512 = None.
Proof. apply done_ex. vm_compute. split; [discriminate |]. split; reflexivity. Qed.
End Iter_amd64.
