(* ===== verification/ArmPte.v ===== *)
(** Page-table entries of ARM (src/src/kern/arm/paging-ptab.h, the attributes
    of arm/paging-attribs.h and the levels of arm/32 and
    arm/64/paging-ptab-arch-bits.h): short and long descriptors as instances of
    the entry interface of Ptab.v, and the four encodings of attributes. *)

From S2P Require Import Prelude Outcome L4Types Ptab PtabInv PtabMap MemSpace.

Import Page.

(** * Descriptors: [Pte_ptr_base] *)

Record Pte_base := mkBase {
  ENTRY_BITS : Z; PT_BITS : Z; VALID_MASK : Z; TYPE_MASK : Z; TYPE_LEAF : Z; NEXT_LOW : Z; NEXT_HIGH : Z }.

Definition Pte_short_desc : Pte_base := mkBase 32 1 3 3 2 10 32.
Definition Pte_long_desc : Pte_base := mkBase 64 3 1 3 1 12 52.

(** [mask_lsb] and [get_lsb] on entries of [w] bits. *)
Definition mask_lsb_w (w v o : Z) : Z := v .& wrap w (Z.lnot 0 << o).
Definition get_lsb_w (w v o : Z) : Z := v .& Z.lnot (wrap w (Z.lnot 0 << o)).

Section base.
Context (P : Pte_base).

Definition arm_is_valid (e : Z) : bool := nonzero (e .& VALID_MASK P).

Definition arm_is_leaf (level e : Z) : bool :=
  if level =? 0 then true else (e .& TYPE_MASK P) =? TYPE_LEAF P.

Definition arm_next_level (e : Z) : Z :=
  if ENTRY_BITS P <=? NEXT_HIGH P then mask_lsb_w (ENTRY_BITS P) e (NEXT_LOW P)
  else get_lsb_w (ENTRY_BITS P) (mask_lsb_w (ENTRY_BITS P) e (NEXT_LOW P)) (NEXT_HIGH P).

Definition arm_set_next_level (phys : Z) : Z := phys .| PT_BITS P.
End base.

(** ** Page orders and addresses *)

Definition short_page_order (level e : Z) : Z :=
  if level =? 1 then 20 else if (e .& 3) =? 1 then 16 else 12.

Definition short_page_addr (level e : Z) : Z := mask_lsb_w 32 e (short_page_order level e).

(** The order of a page of a long descriptor is that of its level. *)
Definition long_page_addr (order e : Z) : Z := get_lsb_w 64 (mask_lsb_w 64 e order) 52.

(** * Attributes *)

(** The cache attributes of a configuration: [Page::User_attr] and
    [Page::Kernel_attr]. *)
Record Cache_attr := mkCache {
  Mp_set_shared : Z; Cache_mask_ : Z; NONCACHEABLE_ : Z; CACHEABLE_ : Z; BUFFERED_ : Z }.

Definition armv5_attr : Cache_attr := mkCache 0 0x0c 0x00 0x0c 0x04.
Definition armv6_attr (mp : bool) : Cache_attr := mkCache (flag mp 0x400) 0x1cc 0 0x144 0x040.
Definition armv7_attr (mp : bool) : Cache_attr := mkCache (flag mp 0x400) 0x1cc 0 0x008 0x004.
Definition lpae_attr : Cache_attr := mkCache 0x400 0x01c 0 0x008 0x004.
Definition lpae_virt_attr : Cache_attr := mkCache 0x400 0x03c 0 0x03c 0x014.

Section attribs.
Context (C : Cache_attr).

(** The cache bits of a memory type, and the type of cache bits. *)
Definition cache_bits (t : Z) : Z :=
  flag (t =? Normal) (CACHEABLE_ C) .| flag (t =? Buffered) (BUFFERED_ C) .| flag (t =? Uncached) (NONCACHEABLE_ C).

Definition cache_type (c : Z) : Z :=
  if c =? CACHEABLE_ C then Normal else if c =? BUFFERED_ C then Buffered
  else if c =? NONCACHEABLE_ C then Uncached else Normal.

Definition same_attr (with_kern : bool) (cur attr : Attr) : bool :=
  (rights cur =? rights attr) && (type cur =? type attr) && (negb with_kern || (kern cur =? kern attr)).

(** ** [Pte_v5_attribs] *)
Definition v5_perms : list Z := [1; 1; 1; 1; 1; 1; 1; 1; 1; 0; 3; 3; 0; 0; 3; 3].

Definition v5_attribs_mask (level : Z) : Z :=
  wrap 32 (Z.lnot (if negb (level =? 0) then 0xc0c else 0xffc)).

Definition v5_attribs (level : Z) (a : Attr) : Z :=
  let p := default 0 (v5_perms !! Z.to_nat (rights a)) << 10 in
  if negb (level =? 0) then cache_bits (type a) .| p
  else
    let p := p .| (p >> 2) in
    let p := p .| (p >> 4) in
    cache_bits (type a) .| p.

Definition v5_page_bits : Z := 2.

Definition v5_read (e : Z) : Attr :=
  let r := e .& 0xc00 in
  mkAttr (if r =? 0 then U .| R .| X else if r =? 0xc00 then U .| R .| W .| X else R .| W .| X)
    (cache_type (e .& 0xc)) 0.

Definition v5_del_rights (level e r : Z) : Z :=
  if negb (nonzero (r .& W)) then e
  else if (e .& 0xc00) =? 0xc00
  then e .& wrap 32 (Z.lnot (if negb (level =? 0) then 0xc00 else 0xff0)) else e.

(** ** [Pte_v6plus_attribs] *)
Definition v6_attribs_mask (level : Z) : Z :=
  wrap 32 (Z.lnot (if negb (level =? 0) then 0x881c else 0x22d)).

Definition v6_attribs (level : Z) (a : Attr) : Z :=
  let lower := Mp_set_shared C .| cache_bits (type a) in
  let upper := Z.ldiff lower 0x0f .| 0x10 in
  let lower := lower .& 0x0f in
  let upper := upper .| flag (negb (nonzero (kern a .& Global))) 0x800 .| flag (negb (nonzero (rights a .& W))) 0x200
               .| flag (nonzero (rights a .& U)) 0x20 in
  let lower := lower .| flag (negb (nonzero (rights a .& X))) (if negb (level =? 0) then 0x10 else 0x01) in
  if negb (level =? 0) then lower .| (upper << 6) else lower .| upper.

Definition v6_page_bits : Z := 2.

Definition v6_read (level e : Z) : Attr :=
  let x := flag (negb (nonzero (e .& (if negb (level =? 0) then 0x10 else 0x01)))) X in
  let c := if negb (level =? 0) then (e .& 0x0f) .| ((e >> 6) .& 0xfff0) else e in
  mkAttr (R .| x .| flag (negb (nonzero (c .& 0x200))) W .| flag (nonzero (c .& 0x20)) U)
    (cache_type (c .& Cache_mask_ C)) (flag (negb (nonzero (c .& 0x800))) Global).

Definition v6_del_rights (level e r : Z) : Z :=
  let n_attr := flag (nonzero (r .& W)) (if negb (level =? 0) then 0x200 << 6 else 0x200)
                .| flag (nonzero (r .& X)) (if negb (level =? 0) then 0x10 else 0x01) in
  if (e .& n_attr) =? n_attr then e else e .| n_attr.

(** ** [Pte_long_attribs] *)
Definition XN := 0x0040000000000000.

Definition long_attribs_mask : Z := wrap 64 (Z.lnot 0x00400000000008dc).

Definition long_attribs (a : Attr) : Z :=
  0x300 .| cache_bits (type a) .| flag (negb (nonzero (kern a .& Global))) 0x800
  .| flag (negb (nonzero (rights a .& W))) 0x080 .| flag (nonzero (rights a .& U)) 0x0020000000000040
  .| flag (negb (nonzero (rights a .& X))) XN.

Definition long_page_bits (level : Z) : Z := 0x400 .| (if level =? 0 then 3 else 1).

Definition long_read (e : Z) : Attr :=
  mkAttr (R .| flag (negb (nonzero (e .& 0x80))) W .| flag (nonzero (e .& 0x40)) U .| flag (negb (nonzero (e .& XN))) X)
    (cache_type (e .& Cache_mask_ C)) (flag (negb (nonzero (e .& 0x800))) Global).

Definition long_del_rights (e r : Z) : Z :=
  let n_attr := flag (nonzero (r .& W)) 0x80 .| flag (nonzero (r .& X)) XN in
  if (e .& n_attr) =? n_attr then e else e .| n_attr.

(** ** [Pte_stage2_attribs] *)
Definition stage2_attribs_mask : Z := wrap 64 (Z.lnot 0x00400000000000fc).

Definition stage2_attribs (a : Attr) : Z :=
  0x300 .| (0x1 << 6) .| cache_bits (type a) .| flag (nonzero (rights a .& W)) (0x2 << 6)
  .| flag (negb (nonzero (rights a .& X))) XN.

Definition stage2_read (e : Z) : Attr :=
  mkAttr (R .| U .| flag (nonzero (e .& (0x2 << 6))) W .| flag (negb (nonzero (e .& XN))) X)
    (cache_type (e .& Cache_mask_ C)) 0.

Definition stage2_del_rights (e r : Z) : Z :=
  let a_attr := flag (nonzero (r .& W)) (0x2 << 6) in
  let n_attr := flag (nonzero (r .& X)) XN in
  if (n_attr =? 0) && (a_attr =? 0) then e else (e .| n_attr) .& wrap 64 (Z.lnot a_attr).
End attribs.

(** ** [Pte_generic]: an encoding of attributes makes pages *)

Definition arm_set_attribs (mask attribs e : Z) : Z := (e .& mask) .| attribs.
Definition arm_make_page (page_bits attribs addr : Z) : Z := for_pa (page_bits .| attribs) addr.

(** * The formats in use *)

(** Short descriptors with ARMv6 or ARMv7 attributes, long descriptors of the
    kernel, and those of the second stage. *)
Inductive format :=
  | V6 (mp : bool)
  | V7 (mp : bool)
  | Lpae
  | Stage2.

Definition fmt_base (f : format) : Pte_base :=
  match f with V6 _ | V7 _ => Pte_short_desc | Lpae | Stage2 => Pte_long_desc end.

Definition fmt_cache (f : format) : Cache_attr :=
  match f with V6 mp => armv6_attr mp | V7 mp => armv7_attr mp | Lpae => lpae_attr | Stage2 => lpae_virt_attr end.

Definition fmt_attribs (f : format) (level : Z) (a : Attr) : Z :=
  match f with
  | V6 _ | V7 _ => v6_attribs (fmt_cache f) level a
  | Lpae => long_attribs (fmt_cache f) a
  | Stage2 => stage2_attribs (fmt_cache f) a
  end.

Definition fmt_page_bits (f : format) (level : Z) : Z :=
  match f with V6 _ | V7 _ => v6_page_bits | Lpae | Stage2 => long_page_bits level end.

Definition fmt_read (f : format) (level e : Z) : Attr :=
  match f with
  | V6 _ | V7 _ => v6_read (fmt_cache f) level e
  | Lpae => long_read (fmt_cache f) e
  | Stage2 => stage2_read (fmt_cache f) e
  end.

Definition fmt_del_rights (f : format) (level e r : Z) : Z :=
  match f with
  | V6 _ | V7 _ => v6_del_rights level e r
  | Lpae => long_del_rights e r
  | Stage2 => stage2_del_rights e r
  end.

(** The address of a page; [order] is the order of the pages of the level. *)
Definition fmt_page_addr (f : format) (level order e : Z) : Z :=
  match f with V6 _ | V7 _ => short_page_addr level e | Lpae | Stage2 => long_page_addr order e end.

(** [make_page_tmpl(level, attr)] *)
Definition fmt_tmpl (f : format) (level : Z) (a : Attr) : Z := fmt_page_bits f level .| fmt_attribs f level a.

#[global] Instance arm_pte (f : format) : Pte_ops | 20 := {|
  entry_size := ENTRY_BITS (fmt_base f) / 8;
  is_valid := arm_is_valid (fmt_base f);
  is_leaf := arm_is_leaf (fmt_base f);
  next_level := arm_next_level (fmt_base f);
  set_next_level := arm_set_next_level (fmt_base f);
  page_attr := Attr;
  make_page_tmpl := fmt_tmpl f;
  next_low := NEXT_LOW (fmt_base f);
  phys_bits := NEXT_HIGH (fmt_base f) |}.

(** ** The levels of the configurations *)
Definition K_ptab_traits : list Traits :=
  [mkTraits 39 9 false true 0; mkTraits 30 9 true true 0; mkTraits 21 9 true true 0; mkTraits 12 9 true true 0].
Definition Ptab_traits_3lvl : list Traits :=
  [mkTraits 30 10 true true 0; mkTraits 21 9 true true 0; mkTraits 12 9 true true 0].
Definition lpae32_traits : list Traits :=
  [mkTraits 30 2 true true 0; mkTraits 21 9 true true 0; mkTraits 12 9 true true 0].
Definition short_traits : list Traits := [mkTraits 20 12 true true 0; mkTraits 12 8 true true 0].

(** * Laws of the entries *)

Lemma lor_land_frame t pa m : pa .& m = 0 -> (t .| pa) .& m = t .& m.
Proof. intros Hm. by rewrite Z.land_lor_distr_l, Hm, Z.lor_0_r. Qed.

Lemma land_low x k m : 0 <= k -> x mod 2 ^ k = 0 -> 0 <= m < 2 ^ k -> x .& m = 0.
Proof.
  intros Hk Hx Hm. apply Z.bits_inj'. intros n Hn. rewrite Z.land_spec, Z.bits_0. destruct (Z.ltb_spec n k).
  - rewrite <- (Z.mod_pow2_bits_low x k n) by done. by rewrite Hx, Z.bits_0.
  - rewrite (testbit_high k m n) by (unfold in_range; lia). apply andb_false_r.
Qed.

(** The low bits of an aligned table or frame address. *)
Lemma table_low f x m : x mod 2 ^ NEXT_LOW (fmt_base f) = 0 -> 0 <= m < 1024 -> x .& m = 0.
Proof.
  intros Hx Hm. apply (land_low x (NEXT_LOW (fmt_base f))); [by destruct f | done |].
  destruct f; (split; [lia |]); eapply Z.lt_le_trans; try apply Hm; by vm_compute.
Qed.

#[global] Instance arm_pte_laws f : Pte_laws (H := arm_pte f).
Proof.
  split.
  - destruct f; cbn; auto.
  - destruct f; cbn; lia.
  - by destruct f.
  - by destruct f.
  - intros x _ Hx. unfold is_valid, set_next_level, arm_pte, arm_is_valid, arm_set_next_level.
    rewrite Z.lor_comm, lor_land_frame; [by destruct f |]. apply (table_low f); [done | by destruct f].
  - intros l x Hl _ Hx. unfold is_leaf, set_next_level, arm_pte, arm_is_leaf, arm_set_next_level.
    rewrite (proj2 (Z.eqb_neq _ _) Hl). rewrite Z.lor_comm, lor_land_frame; [by destruct f |].
    apply (table_low f); [done | by destruct f].
  - intros x Hr Hx. assert (forall n, 0 <= n < NEXT_LOW (fmt_base f) -> Z.testbit x n = false) as Hlow.
    { intros n Hn. rewrite <- (Z.mod_pow2_bits_low x (NEXT_LOW (fmt_base f)) n) by lia.
      change (x mod 2 ^ NEXT_LOW (fmt_base f) = 0) in Hx. by rewrite Hx, Z.bits_0. }
    assert (forall n, 10 <= n -> Z.testbit (PT_BITS (fmt_base f)) n = false) as Hpt.
    { intros n Hn. apply (testbit_high 10); [by destruct f | done]. }
    unfold in_range, phys_bits, arm_pte in Hr. fold (in_range (NEXT_HIGH (fmt_base f)) x) in Hr.
    unfold next_level, set_next_level, arm_pte, arm_next_level, arm_set_next_level, mask_lsb_w, get_lsb_w.
    apply Z.bits_inj'. intros n Hn. specialize (Hlow n). specialize (Hpt n).
    destruct f; cbn [fmt_base Pte_short_desc Pte_long_desc ENTRY_BITS NEXT_LOW NEXT_HIGH PT_BITS Z.leb Z.compare Pos.compare Pos.compare_cont] in *;
      bits_simp; rewrite ?Hlow by lia; rewrite ?Hpt by lia; try bits_close.
Qed.

(** * Pages of the formats *)

(** The bits of an entry that hold attributes, at the levels 0 and 1. *)
Definition fmt_mask (f : format) (level : Z) : Z :=
  match f with V6 _ | V7 _ => if level =? 0 then 0xfff else 0x3ffff | Lpae | Stage2 => 0xfff .| (XN .| 0x0020000000000000) end.

(** The levels that have pages of the format. *)
Definition fmt_level (f : format) (level : Z) : Prop :=
  match f with V6 _ | V7 _ => level = 0 \/ level = 1 | Lpae | Stage2 => 0 <= level end.

(** The attributes a format can hold: every page is readable, and the second
    stage has no privileged pages and no global pages. *)
Definition fmt_attrs (f : format) : list Attr :=
  r ← (match f with Stage2 => [12; 13; 14; 15] | _ => [4; 5; 6; 7; 12; 13; 14; 15] end);
  t ← [Normal; Buffered; Uncached];
  k ← (match f with Stage2 => [0] | _ => [0; Global] end);
  [mkAttr r t k].

(** Frames: aligned, and within the address bits of the format. *)
Definition fmt_frame (f : format) (level order pa : Z) : Prop :=
  match f with
  | V6 _ | V7 _ => in_range 32 pa /\ pa mod 2 ^ (if level =? 0 then 12 else 20) = 0
  | Lpae | Stage2 => in_range 52 pa /\ 12 <= order < 52 /\ pa mod 2 ^ order = 0
  end.

Lemma frame_land f level order pa : fmt_level f level -> fmt_frame f level order pa -> pa .& fmt_mask f level = 0.
Proof.
  intros Hl Hf. destruct f; cbn [fmt_level fmt_frame fmt_mask] in *; [destruct Hf as [Hr Hp] .. | |].
  1, 2: destruct Hl as [-> | ->]; cbn [Z.eqb] in *; [apply (land_low pa 12) | apply (land_low pa 20)]; done || lia.
  all: destruct Hf as (Hr & Ho & Hp); rewrite Z.land_lor_distr_r, (land_low pa order) by
    (done || lia || (split; [lia |]; eapply Z.lt_le_trans; [| apply (Z.pow_le_mono_r 2 12 order); lia]; lia)); rewrite Z.lor_0_l;
    apply Z.bits_inj'; intros n Hn; rewrite Z.land_spec, Z.bits_0; destruct (Z.ltb_spec n 52);
    [| by rewrite (testbit_high 52 pa n)]; apply andb_false_iff; right.
  all: rewrite <- (Z.mod_pow2_bits_low _ 52 n) by lia; change ((XN .| 0x0020000000000000) mod 2 ^ 52) with 0; apply Z.bits_0.
Qed.

(** Reading attributes looks at the attribute bits only. *)
Lemma land_mask e m k : m .& k = k -> e .& k = (e .& m) .& k.
Proof. intros Hk. by rewrite <- Z.land_assoc, Hk. Qed.

(** The small-page view of the attribute bits of a section. *)
Abbreviation section_bits e := ((e .& 0x0f) .| ((e >> 6) .& 0xfff0)).

Lemma section_mask e k : 0xfff .& k = k -> section_bits e .& k = section_bits (e .& 0x3ffff) .& k.
Proof.
  intros Hk. rewrite Z.shiftr_land. change (0x3ffff >> 6) with 0xfff. rewrite !Z.land_lor_distr_l, <- !Z.land_assoc.
  f_equal.
  - rewrite (Z.land_assoc 0x3ffff). done.
  - rewrite <- Hk at 1. rewrite !Z.land_assoc. f_equal. rewrite <- !Z.land_assoc. done.
Qed.

Lemma read_mask f level e : fmt_level f level -> fmt_read f level e = fmt_read f level (e .& fmt_mask f level).
Proof.
  intros Hl. destruct f as [mp | mp | |]; cbn [fmt_level fmt_read fmt_mask] in *; unfold v6_read, long_read, stage2_read.
  1, 2: assert (Cache_mask_ (fmt_cache (V6 mp)) = 0x1cc /\ Cache_mask_ (fmt_cache (V7 mp)) = 0x1cc) as [EM EM'] by done;
    rewrite ?EM, ?EM'; destruct Hl as [-> | ->]; cbn [Z.eqb negb].
  - by rewrite (land_mask e 0xfff 0x01), (land_mask e 0xfff 0x200), (land_mask e 0xfff 0x20), (land_mask e 0xfff 0x1cc),
      (land_mask e 0xfff 0x800) by done.
  - by rewrite (land_mask e 0x3ffff 0x10), (section_mask e 0x200), (section_mask e 0x20), (section_mask e 0x1cc),
      (section_mask e 0x800) by done.
  - by rewrite (land_mask e 0xfff 0x01), (land_mask e 0xfff 0x200), (land_mask e 0xfff 0x20), (land_mask e 0xfff 0x1cc),
      (land_mask e 0xfff 0x800) by done.
  - by rewrite (land_mask e 0x3ffff 0x10), (section_mask e 0x200), (section_mask e 0x20), (section_mask e 0x1cc),
      (section_mask e 0x800) by done.
  - set (m := 0xfff .| _). cbn [fmt_cache lpae_attr Cache_mask_].
    by rewrite (land_mask e m 0x80), (land_mask e m 0x40), (land_mask e m XN), (land_mask e m 0x1c), (land_mask e m 0x800) by done.
  - set (m := 0xfff .| _). cbn [fmt_cache lpae_virt_attr Cache_mask_].
    by rewrite (land_mask e m (0x2 << 6)), (land_mask e m XN), (land_mask e m 0x3c) by done.
Qed.

(** An entry of a template and a frame reads like the template. *)
Lemma read_frame f level order t pa : fmt_level f level -> fmt_frame f level order pa ->
  fmt_read f level (for_pa t pa) = fmt_read f level t.
Proof.
  intros Hl Hf. rewrite read_mask, (read_mask f level t) by done. unfold for_pa.
  by rewrite (lor_land_frame t pa _ (frame_land f level order pa Hl Hf)).
Qed.

(** The address bits of an entry of a template and a frame. *)
Lemma aligned_low pa k n : 0 <= k -> pa mod 2 ^ k = 0 -> 0 <= n < k -> Z.testbit pa n = false.
Proof. intros Hk Hp Hn. rewrite <- (Z.mod_pow2_bits_low pa k n) by lia. by rewrite Hp, Z.bits_0. Qed.

Lemma short_frame o t pa : 0 <= o -> in_range o t -> in_range 32 pa -> pa mod 2 ^ o = 0 -> mask_lsb_w 32 (t .| pa) o = pa.
Proof.
  intros Ho Ht Hp Ha. pose proof (aligned_low pa o) as Hlow. unfold mask_lsb_w. apply Z.bits_inj'. intros n Hn.
  specialize (Hlow n Ho Ha). bits_simp; rewrite ?Hlow by lia; try bits_close.
Qed.

Lemma long_frame o t pa : 12 <= o < 52 -> in_range 52 pa -> pa mod 2 ^ o = 0 -> t .& (2 ^ 52 - 2 ^ 12) = 0 ->
  long_page_addr o (t .| pa) = pa.
Proof.
  intros Ho Hp Ha Ht. pose proof (aligned_low pa o) as Hlow. unfold long_page_addr, get_lsb_w, mask_lsb_w.
  assert (forall n, 12 <= n < 52 -> Z.testbit t n = false) as Htb.
  { intros n Hn. assert (Z.testbit (t .& (2 ^ 52 - 2 ^ 12)) n = false) as E by (rewrite Ht; apply Z.bits_0).
    change (2 ^ 52 - 2 ^ 12) with (Z.ones 40 << 12) in E. rewrite Z.land_spec, Z.shiftl_spec, testbit_ones in E by lia.
    rewrite (proj2 (Z.ltb_lt (n - 12) 40)), andb_true_r in E by lia. done. }
  apply Z.bits_inj'. intros n Hn. specialize (Hlow n ltac:(lia) Ha). specialize (Htb n).
  bits_simp; rewrite ?Htb, ?Hlow by lia; try bits_close.
Qed.

(** What a template must look like for its entries to have an address. *)
Definition tmpl_fits (f : format) (level t : Z) : bool :=
  match f with
  | V6 _ | V7 _ => (0 <=? t) && (t <? (if level =? 0 then 0x1000 else 0x100000)) && negb ((t .& 3) =? 1)
  | Lpae | Stage2 => (t .& (2 ^ 52 - 2 ^ 12)) =? 0
  end.

Lemma page_addr_frame f level order t pa :
  fmt_level f level -> fmt_frame f level order pa -> tmpl_fits f level t = true ->
  fmt_page_addr f level order (for_pa t pa) = pa.
Proof.
  intros Hl Hf Ht. unfold for_pa, fmt_page_addr.
  assert (level = 0 \/ level = 1 -> in_range 32 pa /\ pa mod 2 ^ (if level =? 0 then 12 else 20) = 0 ->
    (0 <=? t) && (t <? (if level =? 0 then 0x1000 else 0x100000)) && negb ((t .& 3) =? 1) = true ->
    short_page_addr level (t .| pa) = pa) as Hshort.
  { intros Hl' [Hp Ha] [[H0%Z.leb_le H1%Z.ltb_lt]%andb_true_iff H3]%andb_true_iff. unfold short_page_addr, short_page_order.
    destruct Hl' as [-> | ->]; cbn [Z.eqb Pos.eqb] in *; [| by apply short_frame; [..]; done || lia].
    rewrite (lor_land_frame t pa 3) by (by apply (land_low pa 12)).
    destruct (t .& 3 =? 1); [done |]. apply short_frame; done || lia. }
  destruct f; cbn [fmt_level fmt_frame tmpl_fits] in *; [by apply Hshort.. | |];
    destruct Hf as (? & ? & ?); apply Z.eqb_eq in Ht; by apply long_frame.
Qed.

(** Revoking rights leaves the frame alone. *)
Lemma set_bits_frame t pa n : pa .& n = 0 ->
  (if ((t .| pa) .& n) =? n then t .| pa else (t .| pa) .| n) = (if (t .& n) =? n then t else t .| n) .| pa.
Proof.
  intros Hn. rewrite lor_land_frame by done. destruct (_ =? n); [done |].
  by rewrite <- !Z.lor_assoc, (Z.lor_comm pa n).
Qed.

Lemma land_sub pa m n : pa .& m = 0 -> m .& n = n -> pa .& n = 0.
Proof. intros Hm Hn. rewrite <- Hn, Z.land_assoc, Hm. apply Z.land_0_l. Qed.

Lemma del_rights_frame f level order t pa r : fmt_level f level -> fmt_frame f level order pa ->
  fmt_del_rights f level (for_pa t pa) r = for_pa (fmt_del_rights f level t r) pa.
Proof.
  intros Hl Hf. pose proof (frame_land f level order pa Hl Hf) as Hm. unfold for_pa.
  destruct f; cbn [fmt_del_rights fmt_level fmt_mask fmt_frame] in *; unfold v6_del_rights, long_del_rights, stage2_del_rights.
  1, 2: apply set_bits_frame; apply (land_sub _ _ _ Hm);
    destruct Hl as [-> | ->]; destruct (nonzero (r .& W)), (nonzero (r .& X)); done.
  - apply set_bits_frame; apply (land_sub _ _ _ Hm); destruct (nonzero (r .& W)), (nonzero (r .& X)); done.
  - set (n := flag (nonzero (r .& X)) XN). set (a := flag (nonzero (r .& W)) (0x2 << 6)).
    destruct ((n =? 0) && (a =? 0)); [done |].
    rewrite <- Z.lor_assoc, (Z.lor_comm pa n), Z.lor_assoc, (Z.land_lor_distr_l _ pa). f_equal.
    assert (pa .& a = 0) as Ha by (apply (land_sub _ _ _ Hm); unfold a; by destruct (nonzero (r .& W))).
    destruct Hf as (Hr & _). apply Z.bits_inj'. intros k Hk.
    assert (Z.testbit (pa .& a) k = false) as Hb by (rewrite Ha; apply Z.bits_0).
    bits_simp; rewrite ?andb_true_r; rewrite Z.land_spec in Hb; destruct (Z.testbit pa k), (Z.testbit a k); done.
Qed.

(** The templates of all formats, levels and attributes, one by one. *)
Definition tmpl_check (f : format) (level : Z) (a : Attr) : bool :=
  let t := fmt_tmpl f level a in
  arm_is_valid (fmt_base f) t && arm_is_leaf (fmt_base f) level t && bool_decide (fmt_read f level t = a) &&
  tmpl_fits f level t &&
  forallb (fun r => let t' := fmt_del_rights f level t r in
    arm_is_valid (fmt_base f) t' && arm_is_leaf (fmt_base f) level t' && tmpl_fits f level t' &&
    bool_decide (fmt_read f level t' = mkAttr (Z.ldiff (rights a) (r .& (W .| X))) (type a) (kern a)))
    (seqZ 0 16).

Lemma tmpl_checks f level a : fmt_level f level -> a ∈ fmt_attrs f -> tmpl_check f level a = true.
Proof.
  intros Hl Ha.
  assert (forall f level, level = 0 \/ level = 1 -> forallb (tmpl_check f level) (fmt_attrs f) = true) as Hall.
  { intros f' l [-> | ->]; destruct f' as [[] | [] | |]; vm_compute; reflexivity. }
  assert (level = 0 \/ level = 1 -> tmpl_check f level a = true) as H01.
  { intros Hl'. specialize (Hall f level Hl'). rewrite forallb_forall in Hall. apply Hall. by apply list_elem_of_In. }
  destruct (decide (level = 0)) as [| Hne]; [by apply H01; left |]. destruct f; cbn [fmt_level] in Hl; [by apply H01.. | |].
  all: lazymatch goal with |- tmpl_check ?f _ _ = _ => specialize (Hall f 1 (or_intror eq_refl)) end;
    rewrite forallb_forall in Hall; specialize (Hall a (proj1 (list_elem_of_In _ _) Ha));
    rewrite <- Hall; unfold tmpl_check, fmt_tmpl, fmt_page_bits, long_page_bits, arm_is_leaf; by rewrite (proj2 (Z.eqb_neq _ _) Hne).
Qed.

Lemma valid_leaf_frame f level order t pa : fmt_level f level -> fmt_frame f level order pa ->
  arm_is_valid (fmt_base f) (for_pa t pa) = arm_is_valid (fmt_base f) t /\
  arm_is_leaf (fmt_base f) level (for_pa t pa) = arm_is_leaf (fmt_base f) level t.
Proof.
  intros Hl Hf. pose proof (frame_land f level order pa Hl Hf) as Hm. unfold for_pa, arm_is_valid, arm_is_leaf.
  rewrite !lor_land_frame; [done | |]; apply (land_sub _ _ _ Hm); destruct f; cbn in *; try done; by destruct Hl as [-> | ->].
Qed.

(** C31: pages of the ARM formats since ARMv6 (short descriptors with ARMv6 or ARMv7
    attributes, long descriptors, and those of the second stage): the entry made
    for a frame and readable attributes is a valid leaf of its level, it has the
    address of the frame, and reading its attributes gives the attributes it was
    made with; after rights have been revoked it is still a valid leaf with the
    same address and type, and without those of the write and execute rights that
    were revoked, and with all other rights.  The format of ARMv5, which cannot
    hold all rights, is [arm_v5_page]. *)
Theorem arm_page_roundtrip f level order a pa r :
  fmt_level f level -> fmt_frame f level order pa -> a ∈ fmt_attrs f -> 0 <= r < 16 ->
  let e := arm_make_page (fmt_page_bits f level) (fmt_attribs f level a) pa in
  let e' := fmt_del_rights f level e r in
  (arm_is_valid (fmt_base f) e = true /\ arm_is_leaf (fmt_base f) level e = true /\
   fmt_read f level e = a /\ fmt_page_addr f level order e = pa) /\
  (arm_is_valid (fmt_base f) e' = true /\ arm_is_leaf (fmt_base f) level e' = true /\
   fmt_read f level e' = mkAttr (Z.ldiff (rights a) (r .& (W .| X))) (type a) (kern a) /\
   fmt_page_addr f level order e' = pa).
Proof.
  intros Hl Hf Ha Hr e e'. pose proof (tmpl_checks f level a Hl Ha) as Hc. unfold tmpl_check in Hc.
  apply andb_true_iff in Hc as [Hc Hdel]. apply andb_true_iff in Hc as [Hc Hfit]. apply andb_true_iff in Hc as [Hc Hread%bool_decide_eq_true].
  apply andb_true_iff in Hc as [Hv Hlf].
  rewrite forallb_forall in Hdel. specialize (Hdel r). cbn beta zeta in Hdel.
  assert (In r (seqZ 0 16)) as Hin by (apply list_elem_of_In, elem_of_seqZ; lia). specialize (Hdel Hin).
  apply andb_true_iff in Hdel as [Hdel Hread'%bool_decide_eq_true]. apply andb_true_iff in Hdel as [Hdel Hfit'].
  apply andb_true_iff in Hdel as [Hv' Hlf']. unfold e', e, arm_make_page. fold (fmt_tmpl f level a).
  rewrite (del_rights_frame f level order) by done.
  split; (split; [| split; [| split]]).
  all: try (by rewrite (read_frame f level order)).
  all: try (by apply page_addr_frame).
  all: by rewrite ?(proj1 (valid_leaf_frame f level order _ pa Hl Hf)), ?(proj2 (valid_leaf_frame f level order _ pa Hl Hf)).
Qed.

Lemma arm_page_roundtrip_witness :
  let e := arm_make_page (fmt_page_bits Stage2 1) (fmt_attribs Stage2 1 (mkAttr 14 Buffered 0)) 0x40200000 in
  fmt_read Stage2 1 (fmt_del_rights Stage2 1 e 3) = mkAttr 12 Buffered 0.
Proof.
  apply (arm_page_roundtrip Stage2 1 21 (mkAttr 14 Buffered 0) 0x40200000 3).
  - cbn. lia.
  - by vm_compute.
  - apply (bool_decide_unpack _). by vm_compute.
  - lia.
Defined.

(** ** ARMv5 *)

(** What an ARMv5 entry can hold of the rights of a readable page: every page is
    executable, and one of the kernel is always writable. *)
Definition v5_rights (r : Z) : Z := if nonzero (r .& U) then U .| R .| X .| (r .& W) else R .| W .| X.

Definition v5_tmpl_check (level : Z) (a : Attr) : bool :=
  let fine t r := arm_is_valid Pte_short_desc t && arm_is_leaf Pte_short_desc level t && (0 <=? t) && (t <? 4096)
    && negb ((t .& 3) =? 1) && bool_decide (v5_read armv5_attr t = mkAttr (v5_rights r) (type a) 0) in
  let t := v5_page_bits .| v5_attribs armv5_attr level a in
  fine t (rights a) && forallb (fun r => fine (v5_del_rights level t r) (Z.ldiff (rights a) (r .& W))) (seqZ 0 16).

Definition v5_attrs : list Attr :=
  r ← [4; 5; 6; 7; 12; 13; 14; 15]; t ← [Normal; Buffered; Uncached]; [mkAttr r t 0].

Lemma v5_tmpl_checks level a : level = 0 \/ level = 1 -> a ∈ v5_attrs -> v5_tmpl_check level a = true.
Proof.
  intros Hl Ha. assert (forallb (v5_tmpl_check level) v5_attrs = true) as H by (destruct Hl as [-> | ->]; vm_compute; reflexivity).
  rewrite forallb_forall in H. apply H. by apply list_elem_of_In.
Qed.

Lemma keep_frame pa m : in_range 32 pa -> pa .& m = 0 -> pa .& wrap 32 (Z.lnot m) = pa.
Proof.
  intros Hr Hm. apply Z.bits_inj'. intros k Hk. assert (Z.testbit (pa .& m) k = false) as Hb by (rewrite Hm; apply Z.bits_0).
  rewrite Z.land_spec in Hb. bits_simp; destruct (Z.testbit pa k), (Z.testbit m k); done.
Qed.

Lemma v5_del_frame level t pa r : in_range 32 pa -> pa mod 2 ^ 12 = 0 ->
  v5_del_rights level (for_pa t pa) r = for_pa (v5_del_rights level t r) pa.
Proof.
  intros Hr Hp. unfold v5_del_rights, for_pa. rewrite (lor_land_frame t pa 0xc00) by (by apply (land_low pa 12)).
  destruct (negb (nonzero (r .& W))); [done |]. destruct (_ =? 0xc00); [| done].
  rewrite Z.land_lor_distr_l. f_equal. apply keep_frame; [done |]. apply (land_low pa 12); [done.. |].
  by destruct (negb (level =? 0)).
Qed.

(** A page of the ARMv5 format: a valid leaf with the address of the frame that
    reads as the rights that the format can hold; revoking rights takes away only
    the right to write, and only from pages of the user. *)
Theorem arm_v5_page level a pa r :
  level = 0 \/ level = 1 -> in_range 32 pa -> pa mod 2 ^ (if level =? 0 then 12 else 20) = 0 -> a ∈ v5_attrs -> 0 <= r < 16 ->
  let e := arm_make_page v5_page_bits (v5_attribs armv5_attr level a) pa in
  let ok e r := arm_is_valid Pte_short_desc e = true /\ arm_is_leaf Pte_short_desc level e = true
    /\ v5_read armv5_attr e = mkAttr (v5_rights r) (type a) 0 /\ short_page_addr level e = pa in
  ok e (rights a) /\ ok (v5_del_rights level e r) (Z.ldiff (rights a) (r .& W)).
Proof.
  intros Hl Hr Hp Ha Hrr e ok. unfold e, arm_make_page. clear e.
  assert (pa mod 2 ^ 12 = 0) as Hp12 by (destruct Hl as [-> | ->]; [done | rewrite <- (Z.mod_mod_divide pa (2 ^ 20)) by (by exists 256); cbn [Z.eqb] in Hp; by rewrite Hp]).
  pose proof (v5_tmpl_checks level a Hl Ha) as [H0 H1]%andb_true_iff.
  rewrite forallb_forall in H1. specialize (H1 r). cbn beta zeta in H1.
  assert (In r (seqZ 0 16)) as Hin by (apply list_elem_of_In, elem_of_seqZ; lia). specialize (H1 Hin).
  assert (forall t q, arm_is_valid Pte_short_desc t && arm_is_leaf Pte_short_desc level t && (0 <=? t) && (t <? 4096)
    && negb ((t .& 3) =? 1) && bool_decide (v5_read armv5_attr t = mkAttr (v5_rights q) (type a) 0) = true -> ok (for_pa t pa) q) as Hok.
  { intros t q [[[[[Hv Hlf]%andb_true_iff T0%Z.leb_le]%andb_true_iff T1%Z.ltb_lt]%andb_true_iff T3]%andb_true_iff Hread%bool_decide_eq_true]%andb_true_iff.
    unfold ok, for_pa. assert (forall m, 0 <= m < 4096 -> (t .| pa) .& m = t .& m) as Hlow
      by (intros m Hm; apply lor_land_frame; by apply (land_low pa 12)).
    split_and!.
    - unfold arm_is_valid in *. by rewrite Hlow.
    - unfold arm_is_leaf in *. by rewrite Hlow.
    - rewrite <- Hread. unfold v5_read. by rewrite !Hlow.
    - unfold short_page_addr, short_page_order. destruct Hl as [-> | ->]; cbn [Z.eqb Pos.eqb] in *;
        [rewrite Hlow by done; apply negb_true_iff in T3; rewrite T3 |]; apply short_frame; done || (unfold in_range; lia). }
  rewrite v5_del_frame by done. by split; apply Hok.
Qed.

(** * The tables of ARM are instances of the page tables *)

Lemma arm_levels_ok :
  levels_ok (H := arch64) (H0 := arm_pte Lpae) (shift_list K_ptab_traits PAGE_SHIFT) /\
  levels_ok (H := arch64) (H0 := arm_pte Stage2) (shift_list Ptab_traits_3lvl PAGE_SHIFT) /\
  levels_ok (H := arch32) (H0 := arm_pte Lpae) (shift_list lpae32_traits PAGE_SHIFT) /\
  forall mp, levels_ok (H := arch32) (H0 := arm_pte (V7 mp)) (shift_list short_traits PAGE_SHIFT).
Proof. split; [| split; [| split]]; vm_compute; intuition congruence. Qed.

Lemma arm_tmpl_ok `{Arch} f level a : fmt_level f level -> a ∈ fmt_attrs f -> tmpl_ok (PO := arm_pte f) level (fmt_tmpl f level a).
Proof.
  intros Hl Ha pa _ Hal. change (pa mod 2 ^ NEXT_LOW (fmt_base f) = 0) in Hal.
  pose proof (tmpl_checks f level a Hl Ha) as Hc. unfold tmpl_check in Hc.
  apply andb_true_iff in Hc as [[[[Hv Hlf]%andb_true_iff _]%andb_true_iff _]%andb_true_iff _].
  cbn [is_valid is_leaf arm_pte]. unfold arm_is_valid, arm_is_leaf, for_pa in *.
  rewrite !lor_land_frame by (apply (table_low f); [done | by destruct f]). done.
Qed.
