(* ===== verification/MapUtil.v ===== *)
(** Mapping and unmapping flex pages: the templates of
    src/src/kern/map_util_helper.h, which work for every kind of space (memory,
    objects, I/O ports) and the mapping database that goes with it.  The two
    template parameters SPACE and MAPDB are two interfaces; ObjSpace.v has the
    implementation for capabilities.

    One operation runs at a time: the spaces are locked by their existence
    locks, so what a lookup found is still there when the frame is locked. *)

From S2P Require Import Prelude Outcome L4Types.

(** * The interfaces of the templates *)

(** [SPACE::Status] *)
Inductive Insert_status := Ok | Warn_exists | Warn_attrib_upgrade | Err_nomem | Err_exists.

(** A kind of space: [St] is the state of all spaces and of their mapping
    database, [Phys] what a page of the space refers to.  Addresses and sizes
    count pages of the smallest size, orders are logarithms of sizes. *)
Class SPACE (St Phys Attr : Type) := {
  v_lookup : Z -> Z -> St -> Z * option (Phys * Attr);        (* space, address; order and page *)
  v_fabricate : Z -> Z -> St -> Z * option (Phys * Attr);
  v_insert : Phys -> Z -> Z -> Z -> Attr -> St -> outcome (Insert_status * St);  (* space, address, order *)
  v_delete : Z -> Z -> Z -> Z -> St -> outcome (Z * St);      (* space, address, order, rights *)
  fitting_size : Z -> Z -> Z;                                 (* space, order *)
  map_max_address : Z -> Z;
  page_address : Z -> Z -> Z;
  subpage_offset : Z -> Z -> Z;
  phys_page_address : Phys -> Z -> Phys;
  subpage_address : Phys -> Z -> Phys;
  same_phys : Phys -> Phys -> bool;
  canonize : Z -> Z;
  is_full_flush : Z -> bool;
  attr_apply : Attr -> Phys -> Attr -> Attr * Phys;           (* Map_traits::apply_attribs *)
  attr_empty : Attr -> bool;
  attr_join : Attr -> Attr -> Attr;
  free_object : Phys -> St -> St;                             (* Map_traits::free_object *)
  save_access_flags : Z -> Z -> Z -> St -> St }.

(** A mapping database: a lookup locks the frame it returns. *)
Class MAPDB (St Phys Frame : Type) := {
  valid_address : Phys -> bool;
  mapdb_lookup : Z -> Z -> Phys -> St -> outcome (option Frame * St);
  (* sender's and receiver's space, page and address *)
  lookup_src_dst : Z -> Phys -> Z -> Z -> Phys -> Z -> St -> outcome (Z * Frame * Frame * St);
  flush_mappings : Frame -> Z -> Z -> Z -> bool -> St -> outcome (Z * St);   (* foreach_mapping with v_delete *)
  mapdb_flush : Frame -> Z -> Z -> Z -> St -> outcome St;                          (* mask, start, end *)
  mapdb_insert : Frame -> Z -> Z -> Phys -> Z -> St -> outcome (bool * St);
  mapdb_grant : Frame -> Z -> Z -> St -> outcome (bool * St);
  same_lock : Frame -> Frame -> bool;
  frame_clear : Frame -> St -> St }.

Section sizes.
Context `{Arch}.

(** [Mu::get_order_from_fp<SIZE_TYPE>] for a machine-word size type *)
Definition get_order_from_fp (fp base_order : Z) : Z :=
  let shift := L4_fpage.order fp - base_order in
  if shift <=? MWORD_BITS - 1 then shift else MWORD_BITS - 1.

Definition to_size (order : Z) : Z := mshl 1 order.

Definition mask_lsb (v o : Z) : Z := v .& mshl (mnot 0) o.
Definition get_lsb (v o : Z) : Z := v .& mnot (mshl (mnot 0) o).

(** [Mu::free_constraint]: the sender's address and size and the receiver's
    address, after the larger of the two windows has been reduced to the part
    the hot spot selects. *)
Definition free_constraint (snd_addr snd_size rcv_addr rcv_size hot_spot : Z) : Z * Z * Z :=
  if snd_size <=? rcv_size
  then (snd_addr, snd_size, madd rcv_addr (mask_lsb (get_lsb hot_spot rcv_size) snd_size))
  else (madd snd_addr (mask_lsb (get_lsb hot_spot snd_size) rcv_size), rcv_size, rcv_addr).
End sizes.

(** * The operations *)

Section map_util.
Context `{Arch} {St Phys Attr Frame : Type} `{SP : !SPACE St Phys Attr, DB : !MAPDB St Phys Frame}.

(** [map_lookup_src]: the order of the source, the page there, the page to be
    inserted and its attributes. *)
Definition map_lookup_src (from snd_addr : Z) (attribs : Attr) (s : St) : Z * option (Phys * Phys * Attr) :=
  match v_fabricate from snd_addr s with
  | (s_order, None) => (s_order, None)
  | (s_order, Some (s_phys, s_attribs)) =>
      let i_phys := subpage_address s_phys (subpage_offset snd_addr s_order) in
      let '(i_attribs, i_phys) := attr_apply s_attribs i_phys attribs in
      (s_order, if attr_empty i_attribs then None else Some (s_phys, i_phys, i_attribs))
  end.

(** The order of the page to be inserted: the loop that reduces it until it
    fits; a grant of a part of a page becomes a map. *)
Fixpoint fit_order (fuel : nat) (to i_order r_order snd_addr snd_size rcv_addr rcv_end : Z) (grant : bool) : outcome (Z * bool) :=
  match fuel with
  | O => Diverge
  | S fuel =>
      let size := to_size i_order in
      if (snd_size <? size) || (r_order <? i_order) || negb (subpage_offset snd_addr i_order =? 0)
         || negb (subpage_offset rcv_addr i_order =? 0) || (rcv_end <? madd rcv_addr size)
      then fit_order fuel to (fitting_size to (i_order - 1)) r_order snd_addr snd_size rcv_addr rcv_end false
      else Done (i_order, grant)
  end.

(** The receiver's page is in the way: delete it with everything that was
    mapped from it. *)
Definition unmap_dst (to rcv_addr r_order : Z) (r_phys : Phys) (rcv_frame sender_frame : Frame) (s : St) : outcome St :=
  let addr := page_address rcv_addr r_order in
  let end_ := madd addr (to_size r_order) in
  let* (_, s) := v_delete to addr r_order L4_fpage.Rights.FULL s in
  let* (_, s) := flush_mappings rcv_frame addr end_ L4_fpage.Rights.FULL true s in
  let* s := mapdb_flush rcv_frame L4_map_mask.full addr end_ s in
  let s := free_object r_phys s in
  Done (if same_lock rcv_frame sender_frame then s else frame_clear rcv_frame s).

(** The result of one turn of the loop. *)
Inductive turn_result :=
  | Next (no_page_mapped grant_ : bool) (size : Z) (s : St)   (* continue *)
  | Stop (no_page_mapped : bool) (failed : bool) (s : St).     (* break *)

(** The insertion of the page and of its mapping; [true] when it failed. *)
Definition insert_page (from to snd_addr s_order rcv_addr i_order : Z) (grant_ : bool) (s_phys i_phys : Phys)
  (i_attribs : Attr) (sender_frame : Frame) (s : St) : outcome (bool * St) :=
  let* (status, s) := v_insert i_phys to rcv_addr i_order i_attribs s in
  match status with
  | Err_nomem => Done (true, s)
  | Err_exists => Done (false, s)
  | Ok | Warn_exists | Warn_attrib_upgrade =>
      if grant_ then
        let* (done, s) := mapdb_grant sender_frame to rcv_addr s in
        if done then
          let* (_, s) := v_delete from (page_address snd_addr s_order) s_order L4_fpage.Rights.FULL s in
          Done (false, free_object s_phys s)
        else
          let* (_, s) := v_delete to rcv_addr i_order L4_fpage.Rights.FULL s in
          Done (true, s)
      else if match status with Ok => true | _ => false end then
        let* (done, s) := mapdb_insert sender_frame to rcv_addr i_phys (to_size i_order) s in
        if done then Done (false, s)
        else
          let* (_, s) := v_delete to rcv_addr i_order L4_fpage.Rights.FULL s in
          Done (true, s)
      else Done (false, s)
  end.

(** One turn: a page of the sender, and what it becomes at the receiver. *)
Definition map_turn (from to snd_addr snd_size rcv_addr rcv_end : Z) (grant_ : bool) (attribs : Attr)
  (no_page_mapped : bool) (s : St) : outcome turn_result :=
  match map_lookup_src from snd_addr attribs s with
  | (s_order, None) =>
      let size := msub (to_size s_order) (subpage_offset snd_addr s_order) in
      Done (if snd_size <=? size then Stop no_page_mapped false s else Next no_page_mapped grant_ size s)
  | (s_order, Some (s_phys, i_phys, i_attribs)) =>
      let '(r_order, r_page) := v_lookup to rcv_addr s in
      let* (i_order, grant_) := fit_order (S (Z.to_nat MWORD_BITS)) to (fitting_size to s_order) r_order snd_addr snd_size
                                  rcv_addr rcv_end grant_ in
      let size := to_size i_order in
      if negb (valid_address s_phys) then Done (Next false grant_ size s)
      else
        (* the insertion and the end of the turn, with the frame that is locked *)
        let go i_attribs sender_frame s :=
          let* (failed, s) := insert_page from to snd_addr s_order rcv_addr i_order grant_ s_phys i_phys i_attribs
                                sender_frame s in
          let s := frame_clear sender_frame s in
          Done (if failed then Stop false true s else Next false grant_ size s) in
        match r_page with
        | Some (r_phys, r_attribs) =>
            let* (r, sender_frame, rcv_frame, s) :=
              lookup_src_dst from s_phys (page_address snd_addr s_order) to r_phys rcv_addr s in
            if r <? 0 then Done (Next false grant_ size s)
            else if (0 <? r) || grant_ || negb (same_phys (phys_page_address r_phys i_order) i_phys) || (i_order <? r_order)
            then
              let* s := unmap_dst to rcv_addr r_order r_phys rcv_frame sender_frame s in
              if r =? 2 then Done (Next false grant_ size s) else go i_attribs sender_frame s
            else
              go (attr_join i_attribs r_attribs) rcv_frame
                (if same_lock rcv_frame sender_frame then s else frame_clear sender_frame s)
        | None =>
            let* (frame, s) := mapdb_lookup from (page_address snd_addr s_order) s_phys s in
            match frame with
            | None => Done (Next false grant_ size s)
            | Some sender_frame => go i_attribs sender_frame s
            end
        end
  end.

(** [map]; the fuel is one more than the number of pages to be sent, as every
    turn advances by at least one page.  The result has two flags: the
    operation failed, and nothing was mapped. *)
Fixpoint map_loop (fuel : nat) (from to snd_addr snd_size rcv_addr rcv_end to_max from_max : Z) (grant_ : bool)
  (attribs : Attr) (no_page_mapped : bool) (s : St) : outcome (bool * bool * St) :=
  match fuel with
  | O => Diverge
  | S fuel =>
      if negb (snd_size =? 0) && (rcv_addr <? to_max) && (snd_addr <? from_max) then
        let* r := map_turn from to snd_addr snd_size rcv_addr rcv_end grant_ attribs no_page_mapped s in
        match r with
        | Stop np failed s => Done (failed, np, s)
        | Next np grant_ size s =>
            map_loop fuel from to (madd snd_addr size) (msub snd_size size) (madd rcv_addr size) rcv_end to_max from_max
              grant_ attribs np s
        end
      else Done (false, no_page_mapped, s)
  end.

Definition map (from snd_addr snd_size to rcv_addr : Z) (grant_ : bool) (attribs : Attr) (s : St) : outcome (Z * St) :=
  let* (failed, np, s) := map_loop (S (Z.to_nat snd_size)) from to snd_addr snd_size rcv_addr (madd rcv_addr snd_size)
                            (map_max_address to) (map_max_address from) grant_ attribs true s in
  let condition := L4_error.code (if failed then L4_error.Map_failed else L4_error.None) in
  Done (if negb failed && np then L4_error.set_empty_map condition else condition, s).

(** One turn of [unmap]: the flushed rights, the end of the range and the
    address of the next page. *)
Definition unmap_turn (space address end_ rights mask : Z) (s : St) : outcome (Z * Z * Z * St) :=
  let me_too := nonzero (L4_map_mask.self_unmap mask) in
  let full_flush := is_full_flush rights in
  let address := canonize address in
  let '(phys_order, page) := v_fabricate space address s in
  let phys_size := to_size phys_order in
  let page_addr := page_address address phys_order in
  let next := madd page_addr phys_size in
  match page with
  | None => Done (0, end_, next, s)
  | Some (phys, _) =>
      let address := if me_too then page_addr else address in
      let end_ := if me_too && (end_ <? madd address phys_size) then madd address phys_size else end_ in
      if negb (valid_address phys) then Fault
      else
        let* (frame, s) := mapdb_lookup space page_addr phys s in
        match frame with
        | None => Done (0, end_, next, s)
        | Some frame =>
            let* (page_rights, s) := if me_too then v_delete space address phys_order rights s else Done (0, s) in
            let* (r, s) := flush_mappings frame address end_ rights full_flush s in
            let page_rights := page_rights .| r in
            let s := save_access_flags space page_addr page_rights s in
            let* s := if full_flush then
                        let* s := mapdb_flush frame mask address end_ s in Done (free_object phys s)
                      else Done s in
            Done (page_rights, end_, next, frame_clear frame s)
        end
  end.

Fixpoint unmap_loop (fuel : nat) (space address end_ map_max rights mask flushed : Z) (s : St) : outcome (Z * St) :=
  match fuel with
  | O => Diverge
  | S fuel =>
      if (address <? end_) && (address <? map_max) then
        let* (r, end_, next, s) := unmap_turn space address end_ rights mask s in
        unmap_loop fuel space next end_ map_max rights mask (flushed .| r) s
      else Done (flushed, s)
  end.

(** [unmap]; the pages of the space up to its end are enough fuel. *)
Definition unmap (space start size rights mask : Z) (s : St) : outcome (Z * St) :=
  unmap_loop (S (Z.to_nat (map_max_address space))) space start (madd start size) (map_max_address space) rights mask 0 s.
End map_util.
