(* ===== verification/ObjSpace.v ===== *)
(** Capabilities: the entries of capability tables (obj_space_types.h), object
    spaces as two-level tables (obj_space_phys_util.h, obj_space.h), the list
    of all mappings of a kernel object with its reference count (kobject.h),
    the mapping database of objects (kobject_mapdb.h) and the map and unmap
    operations on objects (map_util_objs.cc), all under src/src/kern.

    A pointer to a capability-table entry is the pair of a space and an index;
    the list links of an entry are represented by its place in the list of its
    object.  A kernel object is known by its address; its virtual functions
    [map_root] and [downgrade] are an interface.  The memory allocator is the
    environment. *)

From S2P Require Import Prelude Outcome L4Types MapUtil.

(** * Interfaces *)

(** What mapping needs of kernel objects: the part that holds the mappings
    (the same for the two faces of an IPC gate), and the object to be used when
    special rights are dropped. *)
Class Kobject_iface := {
  map_root : Z -> Z;
  downgrade : Z -> Z -> Z }.

(** Pages for capability tables, charged to the quota of a space. *)
Class Kmem_alloc (A : Type) := {
  q_alloc : Z -> A -> bool * A;
  q_free : Z -> A -> A }.

(** * Capabilities and entries *)

Module Obj.
(** [Obj::Attr] *)
Definition attr_rights (a : Z) : Z := a .& 0x0f.
Definition attr_extra (a : Z) : Z := a .& 0xf0.
Definition Full := 0xff.
Definition empty (a : Z) : bool := (attr_rights a .& L4_fpage.Rights.CR) =? 0.

(** [Obj::Mapping::Flag] *)
Definition Delete := 0x08.
Definition Ref_cnt := L4_msg_item.C_weak_ref.
Definition Initial_flags := Delete .| Ref_cnt .| L4_msg_item.C_ctl_rights.

(** [Obj::Entry]: the word of the capability and the flags of the mapping. *)
Record Entry := mkEntry { _obj : Z; _flags : Z }.

Section entry.
Context `{Arch}.

(** [Capability] *)
Definition obj (e : Entry) : Z := _obj e .& mnot 3.
Definition valid (e : Entry) : bool := nonzero (_obj e).
Definition cap_rights (e : Entry) : Z := _obj e .& 3.
Definition invalidate (e : Entry) : Entry := mkEntry 0 (_flags e).

(** [Mapping] *)
Definition delete_rights (e : Entry) : bool := nonzero (_flags e .& Delete).
Definition is_ref_counted (e : Entry) : bool := nonzero (_flags e .& Ref_cnt).
Definition put_as_root (e : Entry) : Entry := mkEntry (_obj e) Initial_flags.

(** [Entry] *)
Definition rights (e : Entry) : Z := wrap 8 (cap_rights e .| Z.ldiff (_flags e) 3 .| 0x4).
Definition set (e : Entry) (o r : Z) : Entry := mkEntry (o .| (r .& 3)) (r .& 0xf8).
Definition add_rights (e : Entry) (r : Z) : Entry := mkEntry (_obj e .| (r .& 3)) (_flags e .| (r .& 0xf8)).
Definition del_rights (e : Entry) (r : Z) : Entry :=
  mkEntry (Z.ldiff (_obj e) (r .& 3)) (Z.ldiff (_flags e) (r .& 0xf8)).

(** An entry is four words; [Caps_per_page] and [Slots_per_dir] fill a page. *)
Definition Caps_per_page_ld2 : Z := if MWORD_BITS =? 64 then 7 else 8.
Definition Caps_per_page : Z := 2 ^ Caps_per_page_ld2.
Definition Slots_per_dir : Z := if MWORD_BITS =? 64 then 512 else 1024.
End entry.
End Obj.
Import Obj.

(** * The state *)

(** [Kobject_mappable]: the mappings of an object, the number of counted ones
    and the lock. *)
Record Kobject_mappable := mkMappable { _root : list (Z * Z); _cnt : Z; _lock : bool }.

(** An object space: its directory, when it has been allocated, has the
    capability tables that have been allocated. *)
Record Obj_space := mkSpace { _dir : option (gmap Z (list Entry)) }.

Record world (A : Type) := mkWorld {
  spaces : gmap Z Obj_space;
  roots : gmap Z Kobject_mappable;      (* live kernel objects *)
  reap : list Z;                        (* objects queued for deletion *)
  mem : A }.
#[global] Arguments mkWorld {A} _ _ _ _.
#[global] Arguments spaces {A} _.
#[global] Arguments roots {A} _.
#[global] Arguments reap {A} _.
#[global] Arguments mem {A} _.

Section obj_space.
Context `{Arch, KO : Kobject_iface} {A : Type} `{KA : !Kmem_alloc A}.

Abbreviation W := (world A).

(** ** Entries of a space: [Obj_space_phys] *)

Definition d_idx (index : Z) : Z := wrap 32 (index >> Caps_per_page_ld2).
Definition offs (index : Z) : nat := Z.to_nat (get_lsb index Caps_per_page_ld2).

Definition dir_of (sp : Z) (w : W) : option (gmap Z (list Entry)) := 
  match spaces w !! sp with Some s => _dir s | None => None end.

(** [get_cap] *)
Definition get_cap (sp index : Z) (w : W) : option Entry :=
  if Slots_per_dir <=? d_idx index then None
  else
    match dir_of sp w with
    | None => None
    | Some d => match d !! d_idx index with None => None | Some tab => tab !! offs index end
    end.

(** The entry that a pointer refers to changes. *)
Definition upd_cap (sp index : Z) (f : Entry -> Entry) (w : W) : W :=
  mkWorld (alter (fun s => mkSpace (alter (alter f (offs index)) (d_idx index) <$> _dir s)) sp (spaces w))
    (roots w) (reap w) (mem w).

Definition empty_table : list Entry := replicate (Z.to_nat Caps_per_page) (mkEntry 0 0).

Definition set_dir (sp : Z) (d : option (gmap Z (list Entry))) (a : A) (w : W) : W :=
  mkWorld (<[sp := mkSpace d]> (spaces w)) (roots w) (reap w) a.

(** [alloc_dir] *)
Definition alloc_dir (sp : Z) (w : W) : bool * W :=
  let '(ok, a) := q_alloc sp (mem w) in
  (ok, set_dir sp (if ok then Some ∅ else None) a w).

(** [caps_alloc]: [true] when the entry exists afterwards. *)
Definition caps_alloc (sp index : Z) (w : W) : bool * W :=
  let '(ok, w) := match dir_of sp w with Some _ => (true, w) | None => alloc_dir sp w end in
  if negb ok then (false, w)
  else if Slots_per_dir <=? d_idx index then (false, w)
  else
    let '(ok, a) := q_alloc sp (mem w) in
    if ok then (true, set_dir sp ((fun d => <[d_idx index := empty_table]> d) <$> dir_of sp w) a w)
    else (false, mkWorld (spaces w) (roots w) (reap w) a).

Definition obj_v_lookup (sp index : Z) (w : W) : Z * option (Z * Z) :=
  match get_cap sp index w with
  | None => (Caps_per_page_ld2, None)
  | Some e => (0, if valid e then Some (obj e, rights e) else None)
  end.

Definition obj_v_delete (sp index size page_attribs : Z) (w : W) : outcome (Z * W) :=
  if negb (size =? 0) then Fault
  else
    match get_cap sp index w with
    | Some e =>
        if valid e then
          Done (0, upd_cap sp index
                     (if nonzero (page_attribs .& L4_fpage.Rights.CR) then invalidate
                      else fun e => del_rights e page_attribs) w)
        else Done (0, w)
    | None => Done (0, w)
    end.

Definition obj_v_insert (phys sp index size page_attribs : Z) (w : W) : outcome (Insert_status * W) :=
  if negb (size =? 0) then Fault
  else
    let '(ok, w) := match get_cap sp index w with Some _ => (true, w) | None => caps_alloc sp index w end in
    if negb ok then Done (Err_nomem, w)
    else
      match get_cap sp index w with
      | None => Fault
      | Some c =>
          if valid c then
            if obj c =? phys then
              if rights c =? page_attribs then Done (Warn_exists, w)
              else Done (Warn_attrib_upgrade, upd_cap sp index (fun e => add_rights e page_attribs) w)
            else Done (Err_exists, w)
          else Done (Ok, upd_cap sp index (fun e => set e phys page_attribs) w)
      end.

(** [lookup(virt, expected)] with [Cap_ref::deref]: the object, or the error of
    the message tag; a missing table gives no error code. *)
Definition deref (sp index expected : Z) (w : W) : option Z * option Z :=
  match get_cap sp index w with
  | None => (None, None)
  | Some c =>
      if obj c =? 0 then (None, Some (L4_msg_tag.make 0 0 0 (- L4_err.val L4_err.ENoent)))
      else if negb ((cap_rights c .& (expected .& 3)) =? expected .& 3)
      then (None, Some (L4_msg_tag.make 0 0 0 (- L4_err.val L4_err.EPerm)))
      else (Some (obj c), None)
  end.

(** [lookup(virt)]: the capability, which is void when there is no table. *)
Definition cap_lookup (sp index : Z) (w : W) : Z :=
  match get_cap sp index w with None => 0 | Some c => _obj c end.

(** [Cap_ref::deref_nocheck]: the object with the rights of the capability. *)
Definition deref_nocheck (sp index : Z) (w : W) : option (Z * Z) * option Z :=
  match get_cap sp index w with
  | None => (None, None)
  | Some c =>
      if obj c =? 0 then (None, Some (L4_msg_tag.make 0 0 0 (- L4_err.val L4_err.ENoent)))
      else (Some (obj c, cap_rights c), None)
  end.

(** [Cap_ref::deref<T>]: [dyn_cast] is the conversion to the class [T]. *)
Definition deref_as (dyn_cast : Z -> option Z) (sp index expected : Z) (w : W) : option Z * option Z :=
  match deref sp index expected w with
  | (None, tag) => (None, tag)
  | (Some o, tag) =>
      match dyn_cast o with
      | Some r => (Some r, tag)
      | None => (None, Some (L4_msg_tag.make 0 0 0 (- L4_err.val L4_err.EInval)))
      end
  end.

(** [caps_free]: every table and the directory go back to the quota. *)
Definition caps_free (sp : Z) (w : W) : W :=
  match dir_of sp w with
  | None => w
  | Some d =>
      set_dir sp None (q_free sp (fold_right (fun _ a => q_free sp a) (mem w) (map_to_list d))) w
  end.

Definition obj_map_max_address : Z := Slots_per_dir * Caps_per_page.

(** ** The mappings of an object: [Kobject_mappable] *)

Definition set_root (r : Z) (m : Kobject_mappable) (w : W) : W :=
  mkWorld (spaces w) (<[r := m]> (roots w)) (reap w) (mem w).

Definition no_mappings (m : Kobject_mappable) : bool := match _root m with [] => true | _ => false end.

(** The count after [invalidate_mappings] has visited the mappings [l]. *)
Fixpoint invalidate_all (l : list (Z * Z)) (cnt : Z) (w : W) : outcome (Z * W) :=
  match l with
  | [] => Done (cnt, w)
  | (sp, i) :: l =>
      match get_cap sp i w with
      | None => Fault
      | Some e => invalidate_all l (if is_ref_counted e then cnt - 1 else cnt) (upd_cap sp i invalidate w)
      end
  end.

Definition invalidate_mappings (r : Z) (w : W) : outcome W :=
  match roots w !! r with
  | None => Fault
  | Some m =>
      if negb (_lock m) then Fault
      else
        let* (cnt, w) := invalidate_all (_root m) (_cnt m) w in
        Done (set_root r (mkMappable [] cnt true) w)
  end.

(** [insert_root_mapping] *)
Definition insert_root_mapping (r sp i : Z) (w : W) : outcome W :=
  match roots w !! r with
  | None => Fault
  | Some m => Done (set_root r (mkMappable ((sp, i) :: _root m) 1 (_lock m)) (upd_cap sp i put_as_root w))
  end.

(** [dec_cap_refcnt] *)
Definition dec_cap_refcnt (r diff : Z) (w : W) : outcome (Z * W) :=
  match roots w !! r with
  | None => Fault
  | Some m =>
      if _lock m then Fault
      else let cnt := to_signed MWORD_BITS (_cnt m - diff) in Done (cnt, set_root r (mkMappable (_root m) cnt false) w)
  end.

(** [Kobject::sys_dec_refcnt] and [Kobject::kobject_invoke]: the words of the
    message that is returned, or an error. *)
Definition O_dec_refcnt : Z := 0.

Definition sys_dec_refcnt (r words diff : Z) (w : W) : outcome ((Z + Z) * W) :=
  if words <? 2 then Done (inr (- L4_err.val L4_err.EInval), w)
  else let* (cnt, w) := dec_cap_refcnt r (to_signed MWORD_BITS diff) w in Done (inl cnt, w).

Definition kobject_invoke (r words op diff : Z) (w : W) : outcome ((Z + Z) * W) :=
  if op =? O_dec_refcnt then sys_dec_refcnt r words diff w else Done (inr (- L4_err.val L4_err.ENosys), w).

(** [Kobject::initiate_deletion] *)
Definition initiate_deletion (r : Z) (w : W) : W :=
  mkWorld (spaces w) (roots w) (reap w ++ [r]) (mem w).

(** ** The mapping database of objects: [Kobject_mapdb] *)

(** [Frame]: the locked object, if any, and the mapping. *)
Record Frame := mkFrame { frame : option Z; m_ : Z * Z }.

(** [lock_safely(Ref(va, obj))]: the object is locked when the capability still
    refers to it; taking a lock twice is a failed assertion. *)
Definition lock_safely (sp va o : Z) (w : W) : outcome (option Z * W) :=
  match get_cap sp va w with
  | None => Fault
  | Some e =>
      if negb (obj e =? o) then Done (None, w)
      else
        let r := map_root o in
        match roots w !! r with
        | None => Fault
        | Some m => if _lock m then Fault else Done (Some r, set_root r (mkMappable (_root m) (_cnt m) true) w)
        end
  end.

Definition unlock (r : Z) (w : W) : W :=
  match roots w !! r with
  | Some m => set_root r (mkMappable (_root m) (_cnt m) false) w
  | None => w
  end.

(** [lock2_safely] *)
Definition lock2_safely (asp ava ao bsp bva bo : Z) (order : bool) (w : W) : outcome (bool * W) :=
  let '(xsp, xva, xo, ysp, yva, yo) :=
    if order then (asp, ava, ao, bsp, bva, bo) else (bsp, bva, bo, asp, ava, ao) in
  let* (x, w) := lock_safely xsp xva xo w in
  match x with
  | None => Done (false, w)
  | Some rx =>
      let* (y, w) := lock_safely ysp yva yo w in
      match y with Some _ => Done (true, w) | None => Done (false, unlock rx w) end
  end.

Definition kmdb_lookup (sp va o : Z) (w : W) : outcome (option Frame * W) :=
  let* (r, w) := lock_safely sp va o w in
  Done ((fun r => mkFrame (Some r) (sp, va)) <$> r, w).

Definition kmdb_lookup_src_dst (ssp sobj sva dsp dobj dva : Z) (w : W) : outcome (Z * Frame * Frame * W) :=
  let null := mkFrame None (0, 0) in
  let srn := map_root sobj in
  let drn := map_root dobj in
  let same_obj := drn =? srn in
  let* (ok, w) := if same_obj
                  then let* (r, w) := lock_safely ssp sva sobj w in Done (bool_decide (r <> None), w)
                  else lock2_safely ssp sva sobj dsp dva dobj (dobj <? sobj) w in
  if negb ok then Done (-1, null, null, w)
  else
    let dframe := mkFrame (Some drn) (dsp, dva) in
    match get_cap dsp dva w with
    | None => Fault
    | Some d =>
        if same_obj && delete_rights d then Done (2, null, dframe, w)
        else Done (1, mkFrame (Some srn) (ssp, sva), dframe, w)
    end.

Definition kmdb_insert (f : Frame) (sp va o size : Z) (w : W) : outcome (bool * W) :=
  if negb (size =? 1) then Fault
  else
    match roots w !! map_root o, get_cap sp va w with
    | Some m, Some e =>
        Done (true, set_root (map_root o)
                      (mkMappable ((sp, va) :: _root m) (if is_ref_counted e then _cnt m + 1 else _cnt m) (_lock m)) w)
    | _, _ => Fault
    end.

(** [List::replace]: writing through the link of an entry that is in no list
    is a fault. *)
Definition kmdb_grant (f : Frame) (sp va : Z) (w : W) : outcome (bool * W) :=
  match frame f with
  | None => Fault
  | Some r =>
      match roots w !! r, get_cap sp va w, get_cap (m_ f).1 (m_ f).2 w with
      | Some m, Some re, Some se =>
          if negb (bool_decide (m_ f ∈ _root m)) then Fault
          else
            let l := (fun x => if bool_decide (x = m_ f) then (sp, va) else x) <$> _root m in
            if is_ref_counted se && negb (is_ref_counted re) then
              let cnt := _cnt m - 1 in
              let w := set_root r (mkMappable l cnt (_lock m)) w in
              if cnt <=? 0 then let* w := invalidate_mappings r w in Done (true, w) else Done (true, w)
            else Done (true, set_root r (mkMappable l (_cnt m) (_lock m)) w)
      | _, _, _ => Fault
      end
  end.

Definition list_remove (x : Z * Z) (l : list (Z * Z)) : list (Z * Z) := filter (fun y => y <> x) l.

Definition kmdb_flush (f : Frame) (mask _ _ : Z) (w : W) : outcome W :=
  if negb (nonzero (L4_map_mask.self_unmap mask)) then Done w
  else
    match frame f, get_cap (m_ f).1 (m_ f).2 w with
    | Some r, Some e =>
        match roots w !! r with
        | None => Fault
        | Some m =>
            if nonzero (L4_map_mask.do_delete mask) && delete_rights e then invalidate_mappings r w
            else if negb (is_ref_counted e)
            then Done (set_root r (mkMappable (list_remove (m_ f) (_root m)) (_cnt m) (_lock m)) w)
            else if _cnt m <=? 1 then invalidate_mappings r w
            else Done (set_root r (mkMappable (list_remove (m_ f) (_root m)) (_cnt m - 1) (_lock m)) w)
        end
    | _, _ => Fault
    end.

Definition kmdb_clear (f : Frame) (w : W) : W := match frame f with Some r => unlock r w | None => w end.

(** [Map_traits<Obj_space>] *)
Definition obj_free_object (o : Z) (w : W) : W :=
  match roots w !! map_root o with
  | Some m => if no_mappings m then initiate_deletion (map_root o) w else w
  | None => w
  end.

Definition obj_apply_attribs (attribs a set_attr : Z) : Z * Z :=
  let a := if nonzero (Z.ldiff (attr_extra attribs) (attr_extra set_attr))
           then downgrade a (mnot (attr_extra set_attr)) else a in
  (attribs .& set_attr, a).

#[global] Instance obj_space : SPACE W Z Z := {|
  v_lookup := obj_v_lookup;
  v_fabricate := obj_v_lookup;
  v_insert := obj_v_insert;
  v_delete := obj_v_delete;
  fitting_size := fun _ o => if Caps_per_page_ld2 <=? o then Caps_per_page_ld2 else 0;
  map_max_address := fun _ => obj_map_max_address;
  page_address := fun a _ => a;
  subpage_offset := fun a o => get_lsb a o;
  phys_page_address := fun p _ => p;
  subpage_address := fun p _ => p;
  same_phys := Z.eqb;
  canonize := fun a => a;
  is_full_flush := fun r => nonzero (r .& L4_fpage.Rights.CR);
  attr_apply := obj_apply_attribs;
  attr_empty := empty;
  attr_join := Z.lor;
  free_object := obj_free_object;
  save_access_flags := fun _ _ _ w => w |}.

#[global] Instance kobject_mapdb : MAPDB W Z Frame := {|
  valid_address := fun o => negb (o =? 0);
  mapdb_lookup := kmdb_lookup;
  lookup_src_dst := kmdb_lookup_src_dst;
  flush_mappings := fun _ _ _ _ _ w => Done (0, w);
  mapdb_flush := kmdb_flush;
  mapdb_insert := kmdb_insert;
  mapdb_grant := kmdb_grant;
  same_lock := fun a b => bool_decide (frame a = frame b);
  frame_clear := kmdb_clear |}.

(** * The operations on objects: map_util_objs.cc *)

Definition obj_map (from snd_addr snd_size to rcv_addr : Z) (grant_ : bool) (attribs : Z) (w : W) : outcome (Z * W) :=
  MapUtil.map from snd_addr snd_size to rcv_addr grant_ attribs w.

Definition obj_fpage_map (from fp_from to fp_to control : Z) (w : W) : outcome (Z * W) :=
  let so := get_order_from_fp fp_from 0 in
  let ro := get_order_from_fp fp_to 0 in
  let snd_addr := mask_lsb (L4_fpage.obj_index fp_from) so in
  let rcv_addr := mask_lsb (L4_fpage.obj_index fp_to) ro in
  let '(snd_addr, so, rcv_addr) := free_constraint snd_addr so rcv_addr ro (L4_msg_item.index control) in
  let snd_size := to_size so in
  if snd_size =? 0 then Done (L4_error.code L4_error.None, w)
  else
    let attribs := L4_fpage.rights fp_from .| wrap 8 (Z.lxor L4_msg_item.C_weak_ref (L4_msg_item.attr control)) in
    MapUtil.map from snd_addr snd_size to rcv_addr (L4_msg_item.is_grant control) attribs w.

Definition obj_fpage_unmap (space fp mask : Z) (w : W) : outcome (Z * W) :=
  let size := get_order_from_fp fp 0 in
  let addr := mask_lsb (L4_fpage.obj_index fp) size in
  MapUtil.unmap space addr (to_size size) (L4_fpage.rights fp) mask w.

(** [map(o, to, to_id, rcv_addr, reap_list)]: the first mapping of an object. *)
Definition map_new (o to rcv_addr : Z) (w : W) : outcome (bool * W) :=
  if obj_map_max_address <=? rcv_addr then Done (false, w)
  else
    let* w := match obj_v_lookup to rcv_addr w with
              | (r_size, Some _) =>
                  let* (_, w) := MapUtil.unmap to rcv_addr (to_size r_size) L4_fpage.Rights.FULL L4_map_mask.full w in Done w
              | (_, None) => Done w
              end in
    let* (status, w) := obj_v_insert o to rcv_addr 0 Full w in
    match status with
    | Ok => let* w := insert_root_mapping (map_root o) to rcv_addr w in Done (true, w)
    | Err_nomem => Done (false, w)
    | _ => Done (true, w)
    end.
End obj_space.
