(* ===== verification/ObjSpaceInv.v ===== *)
(** Capability tables as maps from slots to entries, and the invariant that
    ties capabilities to the lists of mappings of kernel objects: a slot holds
    a valid capability exactly when it is in the list of the object, the
    reference count is the number of counted capabilities, and an object
    without mappings is either new or queued for deletion, once. *)

From S2P Require Import Prelude Outcome L4Types MapUtil ObjSpace.
Import Obj.

(** * Words *)

Section words.
Context `{AR : Arch}.

Lemma Caps_per_page_eq : Caps_per_page = 2 ^ Caps_per_page_ld2.
Proof. done. Qed.

Lemma obj_sizes :
  (Caps_per_page_ld2 = 7 /\ Caps_per_page = 128 /\ Slots_per_dir = 512 /\ MWORD_BITS = 64)
  \/ (Caps_per_page_ld2 = 8 /\ Caps_per_page = 256 /\ Slots_per_dir = 1024 /\ MWORD_BITS = 32).
Proof.
  unfold Caps_per_page, Slots_per_dir, Caps_per_page_ld2.
  destruct MWORD_BITS_ok as [-> | ->]; [right | left]; done.
Qed.

Definition idx_ok (i : Z) : Prop := 0 <= i < Slots_per_dir * Caps_per_page.

Lemma lsb_mod v o : 0 <= v -> 0 <= o <= MWORD_BITS -> get_lsb v o = v mod 2 ^ o.
Proof. intros Hv Ho. pose proof arch_pos. unfold get_lsb. rewrite <- Z.land_ones by lia. bits_ext. Qed.

Lemma d_idx_div i : idx_ok i -> d_idx i = i / Caps_per_page.
Proof.
  unfold idx_ok, d_idx. intros Hi. rewrite Caps_per_page_eq in *.
  destruct obj_sizes as [(E1 & E2 & E3 & _) | (E1 & E2 & E3 & _)]; rewrite E1, E3 in *;
    rewrite Z.shiftr_div_pow2 by lia; apply wrap_small; unfold in_range; Z.div_mod_to_equations; lia.
Qed.

Lemma offs_mod i : idx_ok i -> offs i = Z.to_nat (i mod Caps_per_page).
Proof.
  unfold idx_ok, offs. intros Hi. rewrite lsb_mod; [done | lia |].
  destruct obj_sizes as [(E1 & E2 & E3 & E4) | (E1 & E2 & E3 & E4)]; rewrite E1, E4; lia.
Qed.

Lemma d_idx_ok i : idx_ok i -> (Slots_per_dir <=? d_idx i) = false.
Proof.
  intros Hi. rewrite d_idx_div by done. unfold idx_ok in Hi. apply Z.leb_gt.
  destruct obj_sizes as [(E1 & E2 & E3 & E4) | (E1 & E2 & E3 & E4)]; rewrite E2, E3 in *; Z.div_mod_to_equations; lia.
Qed.

Lemma offs_lt i : idx_ok i -> (offs i < Z.to_nat Caps_per_page)%nat.
Proof.
  intros Hi. rewrite offs_mod by done.
  destruct obj_sizes as [(E1 & E2 & E3 & E4) | (E1 & E2 & E3 & E4)]; rewrite E2; Z.div_mod_to_equations; lia.
Qed.

Lemma slot_inj i j : idx_ok i -> idx_ok j -> d_idx i = d_idx j -> offs i = offs j -> i = j.
Proof.
  intros Hi Hj. rewrite !d_idx_div, !offs_mod by done. unfold idx_ok in *.
  destruct obj_sizes as [(E1 & E2 & E3 & E4) | (E1 & E2 & E3 & E4)]; rewrite E2 in *; intros;
    Z.div_mod_to_equations; lia.
Qed.
End words.

(** * Tables as maps *)

Section caps.
Context `{AR : Arch, KO : Kobject_iface} {A : Type} `{KA : !Kmem_alloc A}.
Implicit Types w : world A.

Definition cap (p : Z * Z) w : option Entry := get_cap p.1 p.2 w.
Definition slot_ok (p : Z * Z) : Prop := idx_ok p.2.

(** Tables have a full page of entries. *)
Definition tables_ok w : Prop :=
  forall sp d k tab, dir_of sp w = Some d -> d !! k = Some tab -> length tab = Z.to_nat Caps_per_page.

Lemma dir_of_upd sp' sp i f w :
  dir_of sp' (upd_cap sp i f w)
  = if decide (sp' = sp) then alter (alter f (offs i)) (d_idx i) <$> dir_of sp' w else dir_of sp' w.
Proof.
  unfold dir_of, upd_cap. cbn [spaces]. case_decide as Hs.
  - subst sp'. rewrite lookup_alter_eq. by destruct (spaces w !! sp).
  - by rewrite lookup_alter_ne.
Qed.

Lemma tables_ok_upd sp i f w : tables_ok w -> tables_ok (upd_cap sp i f w).
Proof.
  intros Ht sp' d k tab. rewrite dir_of_upd. case_decide; [|apply Ht].
  destruct (dir_of sp' w) as [d0|] eqn:Hd; [|done]. cbn. intros [= <-] Hk.
  destruct (decide (k = d_idx i)) as [->|Hk'].
  - rewrite lookup_alter_eq in Hk. destruct (d0 !! d_idx i) as [t0|] eqn:Ht0; [|done]. cbn in Hk. injection Hk as <-.
    rewrite length_alter. by eapply Ht.
  - rewrite lookup_alter_ne in Hk by congruence. by eapply Ht.
Qed.

Lemma cap_upd p q f w : slot_ok p -> slot_ok q ->
  cap q (upd_cap p.1 p.2 f w) = if decide (q = p) then f <$> cap p w else cap q w.
Proof.
  destruct p as [sp i], q as [sp' j]. unfold slot_ok, cap, get_cap. cbn [fst snd]. intros Hi Hj.
  rewrite dir_of_upd, (d_idx_ok i), (d_idx_ok j) by done.
  destruct (decide (sp' = sp)) as [->|Hne]; [|case_decide; [congruence | done]].
  destruct (dir_of sp w) as [d|]; cbn; [|by case_decide].
  destruct (decide (d_idx j = d_idx i)) as [Hd|Hd].
  - rewrite Hd, lookup_alter_eq. destruct (d !! d_idx i) as [tab|]; cbn; [|by case_decide].
    destruct (decide (offs j = offs i)) as [Ho|Ho].
    + rewrite Ho, list_lookup_alter_eq. assert (j = i) as -> by (apply slot_inj; done). by rewrite decide_True.
    + rewrite list_lookup_alter_ne by done. rewrite decide_False; [done | congruence].
  - rewrite lookup_alter_ne by done. rewrite decide_False; [done | congruence].
Qed.

(** The state of roots, reap list and memory does not matter to the tables. *)
Lemma cap_spaces p w w' : spaces w' = spaces w -> cap p w' = cap p w.
Proof. unfold cap, get_cap, dir_of. by intros ->. Qed.

Lemma tables_ok_spaces w w' : spaces w' = spaces w -> tables_ok w -> tables_ok w'.
Proof. unfold tables_ok, dir_of. by intros ->. Qed.

Lemma cap_set_root p r m w : cap p (set_root r m w) = cap p w.
Proof. by apply cap_spaces. Qed.

(** [w'] has the tables of [w] and perhaps more, which are empty. *)
Record grown w w' : Prop := {
  grown_roots : roots w' = roots w;
  grown_reap : reap w' = reap w;
  grown_tables : tables_ok w -> tables_ok w';
  grown_cap : forall q, slot_ok q -> cap q w' = cap q w \/ cap q w = None /\ cap q w' = Some (mkEntry 0 0) }.

Lemma grown_refl w : grown w w.
Proof. split; auto. Qed.

Lemma grown_trans w1 w2 w3 : grown w1 w2 -> grown w2 w3 -> grown w1 w3.
Proof.
  intros [r1 p1 t1 c1] [r2 p2 t2 c2]. split; try congruence; [auto|].
  intros q Hq. destruct (c1 q Hq) as [E|[E1 E2]], (c2 q Hq) as [F|[F1 F2]].
  - left. congruence.
  - right. split; congruence.
  - right. split; congruence.
  - congruence.
Qed.

Lemma dir_of_set_dir sp' sp d a w : dir_of sp' (set_dir sp d a w) = if decide (sp' = sp) then d else dir_of sp' w.
Proof.
  unfold dir_of, set_dir. cbn [spaces]. case_decide as Hs.
  - subst sp'. by rewrite lookup_insert_eq.
  - by rewrite lookup_insert_ne.
Qed.

Lemma alloc_dir_grown sp w : dir_of sp w = None ->
  grown w (alloc_dir sp w).2 /\ (forall q, cap q (alloc_dir sp w).2 = cap q w)
  /\ ((alloc_dir sp w).1 = true -> dir_of sp (alloc_dir sp w).2 <> None).
Proof.
  intros Hd. unfold alloc_dir. destruct (q_alloc sp (mem w)) as [ok a]. cbn [fst snd].
  set (w' := set_dir _ _ _ _).
  assert (forall q, cap q w' = cap q w) as Hcap.
  { intros [sp' j]. unfold cap, get_cap. cbn [fst snd]. unfold w'. rewrite dir_of_set_dir. case_decide; [|done]. subst sp'.
    rewrite Hd. destruct (Slots_per_dir <=? d_idx j); [done|]. destruct ok; [|done]. by rewrite lookup_empty. }
  split; [|split; [done|]].
  - split; [done | done | | auto].
    intros Ht sp' d k tab. unfold w'. rewrite dir_of_set_dir. case_decide; [|apply Ht].
    destruct ok; [|done]. intros [= <-]. by rewrite lookup_empty.
  - unfold w'. rewrite dir_of_set_dir, decide_True by done. by intros ->.
Qed.

Lemma empty_table_lookup i : idx_ok i -> empty_table !! offs i = Some (mkEntry 0 0).
Proof. intros Hi. apply lookup_replicate_2. by apply offs_lt. Qed.

Lemma new_table_grown sp i d a w : idx_ok i -> dir_of sp w = Some d -> d !! d_idx i = None ->
  grown w (set_dir sp (Some (<[d_idx i := empty_table]> d)) a w).
Proof.
  intros Hi Hd Hn. split; [done | done | |].
  - intros Ht sp' d' k tab. rewrite dir_of_set_dir. case_decide; [|apply Ht]. subst sp'. intros [= <-].
    destruct (decide (k = d_idx i)) as [->|Hk].
    + rewrite lookup_insert_eq. intros [= <-]. apply length_replicate.
    + rewrite lookup_insert_ne by done. by apply (Ht sp).
  - intros [sp' j] Hj. unfold cap, get_cap. cbn [fst snd]. rewrite dir_of_set_dir. unfold slot_ok in Hj. cbn in Hj.
    rewrite d_idx_ok by done. case_decide; [|by left]. subst sp'. rewrite Hd.
    destruct (decide (d_idx j = d_idx i)) as [E|E].
    + right. rewrite E, Hn, lookup_insert_eq. split; [done|]. by apply empty_table_lookup.
    + left. by rewrite lookup_insert_ne.
Qed.

Lemma no_cap_no_table sp i d w : tables_ok w -> idx_ok i -> cap (sp, i) w = None -> dir_of sp w = Some d -> d !! d_idx i = None.
Proof.
  unfold cap, get_cap. cbn [fst snd]. intros Ht Hi Hc Hd. rewrite d_idx_ok, Hd in Hc by done.
  destruct (d !! d_idx i) as [tab|] eqn:Htab; [|done].
  apply lookup_ge_None_1 in Hc. rewrite (Ht _ _ _ _ Hd Htab) in Hc. pose proof (offs_lt i Hi). lia.
Qed.

Lemma caps_alloc_ok sp i w : tables_ok w -> idx_ok i -> cap (sp, i) w = None ->
  grown w (caps_alloc sp i w).2 /\ ((caps_alloc sp i w).1 = true -> cap (sp, i) (caps_alloc sp i w).2 = Some (mkEntry 0 0)).
Proof.
  intros Ht Hi Hc. unfold caps_alloc.
  set (p := match dir_of sp w with Some _ => (true, w) | None => alloc_dir sp w end).
  assert (grown w p.2 /\ (forall q, cap q p.2 = cap q w) /\ (p.1 = true -> dir_of sp p.2 <> None)) as (Hg & Hcap & Hdir).
  { unfold p. destruct (dir_of sp w) eqn:Hd; cbn; [|by apply alloc_dir_grown].
    split; [apply grown_refl|]. split; [done | congruence]. }
  destruct p as [ok w1]. cbn [fst snd] in *. destruct ok; cbn [negb fst snd]; [|done].
  rewrite d_idx_ok by done. destruct (q_alloc sp (mem w1)) as [ok a]. destruct ok; cbn [fst snd].
  2: { split; [|done]. apply (grown_trans _ _ _ Hg). split; auto. }
  destruct (dir_of sp w1) as [d|] eqn:Hd; [|by destruct Hdir]. cbn [fmap option_fmap option_map].
  assert (d !! d_idx i = None) as Hn.
  { apply (no_cap_no_table sp i d w1); [by apply (grown_tables _ _ Hg) | done | by rewrite Hcap | done]. }
  split; [apply (grown_trans _ _ _ Hg); by apply new_table_grown|].
  intros _. unfold cap, get_cap. cbn [fst snd]. rewrite d_idx_ok, dir_of_set_dir, decide_True, lookup_insert_eq by done.
  by apply empty_table_lookup.
Qed.
End caps.

(** * Entries *)

Section entries.
Context `{AR : Arch}.

(** The address of a kernel object: a word whose two low bits are free. *)
Definition kobj (o : Z) : Prop := is_mword o /\ o .& 3 = 0 /\ o <> 0.

Definition entry_ok (e : Entry) : Prop :=
  is_mword (_obj e) /\ in_range 8 (_flags e) /\ (valid e = true -> kobj (obj e)).

Lemma low_bits o n : o .& 3 = 0 -> 0 <= n < 2 -> Z.testbit o n = false.
Proof.
  intros Ho Hn. assert (Z.testbit (o .& 3) n = false) as E by (rewrite Ho; apply Z.bits_0).
  change 3 with (Z.ones 2) in E. rewrite Z.land_spec, testbit_ones in E by lia.
  destruct (Z.ltb_spec n 2); [|lia]. by rewrite andb_true_r in E.
Qed.

Lemma obj_set e o r : kobj o -> obj (set e o r) = o.
Proof.
  intros (Hw & Ho & _). pose proof arch_ge32. unfold obj, set. cbn [_obj]. change 3 with (Z.ones 2).
  apply Z.bits_inj'. intros n Hn. bits_simp; try bits_close. rewrite (low_bits o n) by (done || lia). by rewrite andb_false_r.
Qed.

Lemma valid_set e o r : kobj o -> valid (set e o r) = true.
Proof.
  intros Ho. unfold valid. apply nonzero_spec. intros E. pose proof (obj_set e o r Ho) as Hobj.
  unfold obj in Hobj. rewrite E in Hobj. cbn in Hobj. by destruct Ho as (_ & _ & []).
Qed.

Lemma entry_ok_set e o r : kobj o -> entry_ok (set e o r).
Proof.
  intros Ho. pose proof arch_ge32. split; [|split].
  - cbn. apply in_range_lor; [lia | by destruct Ho|]. apply in_range_land_r; [lia|]. apply (in_range_mono 2); [lia|].
    by unfold in_range.
  - cbn. apply in_range_land_r; [lia|]. by unfold in_range.
  - intros _. by rewrite obj_set.
Qed.

Lemma obj_del_rights e r : obj (del_rights e r) = obj e.
Proof. unfold obj, del_rights. cbn [_obj]. change 3 with (Z.ones 2). bits_ext. Qed.

Lemma obj_valid e : obj e <> 0 -> valid e = true.
Proof. unfold obj, valid. intros Ho. apply nonzero_spec. intros E. rewrite E in Ho. by cbn in Ho. Qed.

Lemma valid_obj e : entry_ok e -> valid e = true -> obj e <> 0.
Proof. intros (_ & _ & H) Hv. by destruct (H Hv) as (_ & _ & ?). Qed.

Lemma valid_del_rights e r : entry_ok e -> valid (del_rights e r) = valid e.
Proof.
  intros He. destruct (valid e) eqn:Hv.
  - apply obj_valid. rewrite obj_del_rights. by apply valid_obj.
  - unfold valid, del_rights in *. cbn [_obj]. apply nonzero_false in Hv. rewrite Hv. by apply nonzero_false.
Qed.

Lemma entry_ok_del e r : entry_ok e -> entry_ok (del_rights e r).
Proof.
  intros He. destruct He as (Hw & Hf & Ho) eqn:E. split; [|split].
  - cbn. rewrite Z.ldiff_land. apply in_range_land_l; [pose proof arch_pos; lia | done].
  - cbn. rewrite Z.ldiff_land. by apply in_range_land_l.
  - rewrite valid_del_rights, obj_del_rights; done.
Qed.

Lemma mword_0 : is_mword 0.
Proof. pose proof arch_pos. pose proof (pow2_pos MWORD_BITS). unfold in_range. lia. Qed.

Lemma entry_ok_invalidate e : entry_ok e -> entry_ok (invalidate e).
Proof. intros (_ & Hf & _). split; [apply mword_0 | done]. Qed.

Lemma entry_ok_zero : entry_ok (mkEntry 0 0).
Proof. split; [apply mword_0 | done]. Qed.

Lemma ref_counted_del e r : is_ref_counted (del_rights e (r .& 0xf)) = is_ref_counted e.
Proof.
  unfold is_ref_counted, del_rights, Ref_cnt, L4_msg_item.C_weak_ref. cbn [_flags]. f_equal.
  change 0x10 with (2 ^ 4). change 0xf with (Z.ones 4). change 0xf8 with (Z.ones 8 - Z.ones 3).
  apply Z.bits_inj'. intros n Hn. bits_simp; rewrite ?Z.pow2_bits_eqb by lia; bits_simp; try bits_close.
Qed.
End entries.

(** * The invariant *)

Section invariant.
Context `{AR : Arch, KO : Kobject_iface} {A : Type} `{KA : !Kmem_alloc A}.
Implicit Types (w : world A) (L : gset Z) (p q : Z * Z).

Definition counted_at w p : bool := match cap p w with Some e => is_ref_counted e | None => false end.

Definition count w (l : list (Z * Z)) : Z := foldr (fun p n => Z.b2z (counted_at w p) + n) 0 l.

(** A slot holds a valid capability. *)
Definition holds w p (e : Entry) : Prop := cap p w = Some e /\ valid e = true.

(** [L] is the set of locked objects; [bias r] is what [dec_cap_refcnt] has
    taken from the count of [r]; [fresh r] says that the first mapping of [r]
    may not exist yet. *)
Record obj_inv (bias : Z -> Z) (fresh : Z -> Prop) L w : Prop := {
  inv_tables : tables_ok w;
  inv_entry : forall q e, slot_ok q -> cap q w = Some e -> entry_ok e;
  inv_cap : forall q e, slot_ok q -> holds w q e ->
    exists m, roots w !! map_root (obj e) = Some m /\ q ∈ _root m;
  inv_root : forall r m q, roots w !! r = Some m -> q ∈ _root m ->
    slot_ok q /\ exists e, holds w q e /\ map_root (obj e) = r;
  inv_nodup : forall r m, roots w !! r = Some m -> NoDup (_root m);
  inv_cnt : forall r m, roots w !! r = Some m -> _cnt m = count w (_root m) - bias r;
  inv_lock : forall r m, roots w !! r = Some m -> _lock m = bool_decide (r ∈ L);
  inv_reap : forall r, r ∈ reap w -> exists m, roots w !! r = Some m /\ _root m = [];
  inv_reap_nodup : NoDup (reap w);
  inv_empty : forall r m, roots w !! r = Some m -> _root m = [] -> r ∈ reap w \/ fresh r }.

Lemma count_app w l1 l2 : count w (l1 ++ l2) = count w l1 + count w l2.
Proof. induction l1; cbn [app count foldr] in *; [done|]. unfold count in *. lia. Qed.

Lemma count_perm w l1 l2 : l1 ≡ₚ l2 -> count w l1 = count w l2.
Proof. induction 1; unfold count in *; cbn [foldr]; lia. Qed.

Lemma count_ext w w' l : (forall q, q ∈ l -> counted_at w' q = counted_at w q) -> count w' l = count w l.
Proof.
  induction l as [|q l IH]; [done|]. intros H. cbn [count foldr]. rewrite H by left. unfold count in IH.
  rewrite IH; [done|]. intros ? ?. apply H. by right.
Qed.

Lemma count_nonneg w l : 0 <= count w l.
Proof. induction l; cbn; [lia|]. unfold count in *. destruct (counted_at w a); cbn; lia. Qed.

Lemma obj_inv_slot bias fresh L w r m q : obj_inv bias fresh L w -> roots w !! r = Some m -> q ∈ _root m -> slot_ok q.
Proof. intros Hi Hm Hq. by destruct (inv_root _ _ _ _ Hi _ _ _ Hm Hq). Qed.

(** ** Capabilities go away *)

(** The capabilities at [K], all of the object [r], are gone, and the object is
    queued for deletion when these were the last ones. *)
Record removed (r : Z) (K : list (Z * Z)) w w' : Prop := {
  rm_tables : tables_ok w -> tables_ok w';
  rm_cap : forall q, slot_ok q -> cap q w' = if decide (q ∈ K) then invalidate <$> cap q w else cap q w;
  rm_roots : exists m m', roots w !! r = Some m /\ _root m ≡ₚ K ++ _root m' /\ roots w' = <[r := m']> (roots w)
    /\ _cnt m' = _cnt m - count w K /\ _lock m' = _lock m
    /\ reap w' = reap w ++ (if no_mappings m' then [r] else []) }.

Lemma invalidate_holds q w e : ~ holds w q (invalidate e).
Proof. by intros []. Qed.

Lemma removed_holds r K w w' q e : slot_ok q -> removed r K w w' -> holds w' q e <-> holds w q e /\ q ∉ K.
Proof.
  intros Hq [_ Hc _]. unfold holds. rewrite Hc by done. case_decide as HK.
  - split; [|by intros []]. destruct (cap q w); cbn; intros [[= <-] Hv]; done.
  - naive_solver.
Qed.

Lemma removed_counted r K w w' q : slot_ok q -> removed r K w w' -> counted_at w' q = counted_at w q.
Proof. intros Hq [_ Hc _]. unfold counted_at. rewrite Hc by done. case_decide; [|done]. by destruct (cap q w). Qed.

Lemma no_mappings_spec m : if no_mappings m then _root m = [] else _root m <> [].
Proof. unfold no_mappings. by destruct (_root m). Qed.

Lemma removed_inv bias fresh L r K w w' : obj_inv bias fresh L w -> K <> [] -> removed r K w w' ->
  obj_inv bias fresh L w'.
Proof.
  intros Hi HK Hrm. pose proof Hrm as [Ht Hc (m & m' & Hm & Hp & Hr & Hcnt & Hlk & Hre)].
  assert (NoDup (K ++ _root m')) as Hnd by (rewrite <- Hp; by eapply inv_nodup).
  apply NoDup_app in Hnd as (_ & Hdis & Hnd').
  assert (forall q, q ∈ _root m <-> q ∈ K \/ q ∈ _root m') as Hin by (intros q; by rewrite Hp, elem_of_app).
  assert (forall s n q, roots w !! s = Some n -> q ∈ _root n -> q ∈ K -> s = r) as Hown.
  { intros s n q Hn Hq HqK. destruct (inv_root _ _ _ _ Hi _ _ _ Hn Hq) as (_ & e & [He1 _] & <-).
    destruct (inv_root _ _ _ _ Hi _ _ q Hm) as (_ & e' & [He2 _] & <-); [apply Hin; by left | congruence]. }
  assert (r ∉ reap w) as Hrr.
  { intros Hrr. destruct (inv_reap _ _ _ _ Hi _ Hrr) as (n & Hn & Hn'). assert (n = m) as -> by congruence.
    rewrite Hn' in Hp. apply Permutation_nil, app_eq_nil in Hp as [? _]. done. }
  split.
  - apply Ht, Hi.
  - intros q e Hq. rewrite Hc by done. case_decide; [|by apply Hi]. destruct (cap q w) as [e0|] eqn:He0; [|done].
    cbn. intros [= <-]. apply entry_ok_invalidate. by apply (inv_entry _ _ _ _ Hi q).
  - intros q e Hq Hh. apply (removed_holds r K w) in Hh as [Hh HqK]; [|done|done].
    destruct (inv_cap _ _ _ _ Hi _ _ Hq Hh) as (n & Hn & Hqn). rewrite Hr.
    destruct (decide (map_root (obj e) = r)) as [E|E].
    + rewrite E in *. exists m'. rewrite lookup_insert_eq. split; [done|]. assert (n = m) as -> by congruence.
      by apply Hin in Hqn as [|].
    + exists n. by rewrite lookup_insert_ne.
  - intros s n q Hn Hq. rewrite Hr in Hn. apply lookup_insert_Some in Hn as [[<- <-]|[Hne Hn]].
    + destruct (inv_root _ _ _ _ Hi _ _ q Hm) as (Hs & e & Hh & He); [apply Hin; by right|].
      split; [done|]. exists e. split; [|done]. apply (removed_holds r K w); [done | done|]. split; [done|].
      intros HqK. by apply (Hdis q).
    + destruct (inv_root _ _ _ _ Hi _ _ q Hn Hq) as (Hs & e & Hh & He). split; [done|]. exists e. split; [|done].
      apply (removed_holds r K w); [done | done|]. split; [done|]. intros HqK. by apply Hne, eq_sym, (Hown s n q).
  - intros s n. rewrite Hr. intros [[<- <-]|[Hne Hn]]%lookup_insert_Some; [done|]. by apply Hi in Hn.
  - intros s n. rewrite Hr. intros [[<- <-]|[Hne Hn]]%lookup_insert_Some.
    + rewrite Hcnt, (inv_cnt _ _ _ _ Hi _ _ Hm), (count_perm _ _ _ Hp), count_app.
      rewrite (count_ext w w' (_root m')); [lia|]. intros q Hq.
      apply (removed_counted r K); [|done]. eapply obj_inv_slot; [done.. | apply Hin; by right].
    + rewrite (inv_cnt _ _ _ _ Hi _ _ Hn). f_equal. symmetry. apply count_ext. intros q Hq.
      apply (removed_counted r K); [|done]. by eapply obj_inv_slot.
  - intros s n. rewrite Hr. intros [[<- <-]|[Hne Hn]]%lookup_insert_Some; [rewrite Hlk|]; by eapply inv_lock.
  - intros s. rewrite Hre, elem_of_app, Hr. intros [Hs|Hs].
    + destruct (inv_reap _ _ _ _ Hi _ Hs) as (n & Hn & Hn'). exists n. rewrite lookup_insert_ne by congruence. done.
    + pose proof (no_mappings_spec m'). destruct (no_mappings m'); [|by apply not_elem_of_nil in Hs].
      apply list_elem_of_singleton in Hs as ->. exists m'. by rewrite lookup_insert_eq.
  - rewrite Hre. apply NoDup_app. split; [by apply Hi|]. destruct (no_mappings m'); [|split; [|by constructor]].
    + split; [|by apply NoDup_singleton]. intros s Hs ->%list_elem_of_singleton. done.
    + by intros s _ ?%not_elem_of_nil.
  - intros s n. rewrite Hr, Hre. intros [[<- <-]|[Hne Hn]]%lookup_insert_Some Hn'.
    + left. pose proof (no_mappings_spec m'). destruct (no_mappings m'); [|done]. apply elem_of_app. right. by apply list_elem_of_singleton.
    + destruct (inv_empty _ _ _ _ Hi _ _ Hn Hn'); [left; by apply elem_of_app; left | by right].
Qed.

(** ** A capability is added *)

Record added (r : Z) (q : Z * Z) (e : Entry) w w' : Prop := {
  ad_tables : tables_ok w -> tables_ok w';
  ad_entry : entry_ok e /\ valid e = true /\ map_root (obj e) = r;
  ad_cap : forall p, slot_ok p -> cap p w' = if decide (p = q) then Some e else cap p w;
  ad_roots : exists m m', roots w !! r = Some m /\ _root m' = q :: _root m /\ roots w' = <[r := m']> (roots w)
    /\ _cnt m' = _cnt m + Z.b2z (is_ref_counted e) /\ _lock m' = _lock m;
  ad_reap : reap w' = reap w }.

Lemma added_inv bias fresh L r q e w w' : obj_inv bias fresh L w -> slot_ok q -> (forall e', ~ holds w q e') ->
  r ∉ reap w -> added r q e w w' -> obj_inv bias fresh L w'.
Proof.
  intros Hi Hq Hfree Hrr [Ht (He & Hv & Hre) Hc (m & m' & Hm & Hl & Hr & Hcnt & Hlk) Hreap].
  assert (forall s n, roots w !! s = Some n -> q ∉ _root n) as Hnot.
  { intros s n Hn Hqn. destruct (inv_root _ _ _ _ Hi _ _ _ Hn Hqn) as (_ & e' & Hh & _). by apply (Hfree e'). }
  assert (forall p, slot_ok p -> p <> q -> cap p w' = cap p w) as Hsame by (intros p Hp Hne; by rewrite Hc, decide_False).
  assert (forall s n p, roots w !! s = Some n -> p ∈ _root n -> slot_ok p /\ cap p w' = cap p w) as Hin.
  { intros s n p Hn Hp. assert (slot_ok p) by by eapply obj_inv_slot. split; [done|]. apply Hsame; [done|].
    intros ->. by apply (Hnot s n). }
  assert (forall s n, roots w !! s = Some n -> count w' (_root n) = count w (_root n)) as Hcount.
  { intros s n Hn. apply count_ext. intros p Hp. unfold counted_at. destruct (Hin _ _ _ Hn Hp) as [_ ->]. done. }
  split.
  - apply Ht, Hi.
  - intros p e' Hp. rewrite Hc by done. case_decide; [by intros [= <-] | by apply Hi].
  - intros p e' Hp. unfold holds. rewrite Hc, Hr by done. case_decide as E.
    + intros [[= <-] _]. subst p. exists m'. rewrite Hre, lookup_insert_eq, Hl. split; [done | by left].
    + intros Hh. destruct (inv_cap _ _ _ _ Hi p e' Hp Hh) as (n & Hn & Hpn).
      destruct (decide (map_root (obj e') = r)) as [E'|E'].
      * exists m'. rewrite E' in *. rewrite lookup_insert_eq, Hl. split; [done|]. right. by assert (n = m) as <- by congruence.
      * exists n. by rewrite lookup_insert_ne.
  - intros s n p. rewrite Hr. intros [[<- <-]|[Hne Hn]]%lookup_insert_Some Hp.
    + rewrite Hl in Hp. apply elem_of_cons in Hp as [->|Hp].
      * split; [done|]. exists e. split; [|done]. split; [|done]. by rewrite Hc, decide_True.
      * destruct (Hin _ _ _ Hm Hp) as [? E], (inv_root _ _ _ _ Hi _ _ _ Hm Hp) as (_ & e' & [] & ?).
        split; [done|]. exists e'. split; [|done]. split; congruence.
    + destruct (Hin _ _ _ Hn Hp) as [? E], (inv_root _ _ _ _ Hi _ _ _ Hn Hp) as (_ & e' & [] & ?).
      split; [done|]. exists e'. split; [|done]. split; congruence.
  - intros s n. rewrite Hr. intros [[<- <-]|[Hne Hn]]%lookup_insert_Some; [|by apply Hi in Hn].
    rewrite Hl. constructor; [by eapply Hnot | by eapply inv_nodup].
  - intros s n. rewrite Hr. intros [[<- <-]|[Hne Hn]]%lookup_insert_Some.
    + rewrite Hl, Hcnt, (inv_cnt _ _ _ _ Hi _ _ Hm). cbn [count foldr]. fold (count w' (_root m)).
      rewrite (Hcount _ _ Hm). unfold counted_at. rewrite Hc, decide_True by done. lia.
    + by rewrite (Hcount _ _ Hn), (inv_cnt _ _ _ _ Hi _ _ Hn).
  - intros s n. rewrite Hr. intros [[<- <-]|[Hne Hn]]%lookup_insert_Some; [rewrite Hlk|]; by eapply inv_lock.
  - intros s. rewrite Hreap, Hr. intros Hs. destruct (inv_reap _ _ _ _ Hi _ Hs) as (n & Hn & Hn'). exists n.
    rewrite lookup_insert_ne by congruence. done.
  - rewrite Hreap. by apply Hi.
  - intros s n. rewrite Hr, Hreap. intros [[<- <-]|[Hne Hn]]%lookup_insert_Some; [by rewrite Hl|]. by eapply inv_empty.
Qed.

(** ** Tables, locks and rights change *)

(** [w'] has the same capabilities as [w], up to rights. *)
Record same_caps w w' : Prop := {
  sc_tables : tables_ok w -> tables_ok w';
  sc_reap : reap w' = reap w;
  sc_new : forall q e', slot_ok q -> cap q w' = Some e' ->
    (exists e, cap q w = Some e /\ obj e' = obj e /\ valid e' = valid e /\ is_ref_counted e' = is_ref_counted e
      /\ (entry_ok e -> entry_ok e'))
    \/ cap q w = None /\ e' = mkEntry 0 0;
  sc_old : forall q e, slot_ok q -> cap q w = Some e -> cap q w' <> None }.

Lemma same_caps_inv bias fresh L w w' : obj_inv bias fresh L w -> same_caps w w' -> roots w' = roots w ->
  obj_inv bias fresh L w'.
Proof.
  intros Hi [Ht Hre Hnew Hold] Hr.
  assert (forall q e, slot_ok q -> cap q w = Some e -> exists e', cap q w' = Some e' /\ obj e' = obj e /\ valid e' = valid e
            /\ is_ref_counted e' = is_ref_counted e) as Hfw.
  { intros q e Hq He. pose proof (Hold q e Hq He) as Hn. destruct (cap q w') as [e'|] eqn:He'; [|done].
    destruct (Hnew q e' Hq He') as [(e0 & H0 & ? & ? & ? & _)|[? _]]; [|congruence]. exists e'. by assert (e0 = e) as <- by congruence. }
  split.
  - apply Ht, Hi.
  - intros q e' Hq He'. destruct (Hnew q e' Hq He') as [(e & He & _ & _ & _ & H)|[_ ->]]; [|apply entry_ok_zero].
    apply H. by apply (inv_entry _ _ _ _ Hi q).
  - intros q e' Hq [He' Hv]. destruct (Hnew q e' Hq He') as [(e & He & Ho & Hv' & _)|[_ ->]]; [|done].
    rewrite Hr, Ho. apply (inv_cap _ _ _ _ Hi q); [done|]. split; congruence.
  - intros r m q. rewrite Hr. intros Hm Hq. destruct (inv_root _ _ _ _ Hi _ _ _ Hm Hq) as (Hs & e & [He Hv] & Hm').
    split; [done|]. destruct (Hfw q e Hs He) as (e' & He' & Ho & Hv' & _). exists e'. split; [split|]; congruence.
  - rewrite Hr. apply Hi.
  - rewrite Hr. intros r m Hm. rewrite (inv_cnt _ _ _ _ Hi _ _ Hm). f_equal. symmetry. apply count_ext. intros q Hq.
    destruct (inv_root _ _ _ _ Hi _ _ _ Hm Hq) as (Hs & e & [He Hv] & Hm'). unfold counted_at.
    destruct (Hfw q e Hs He) as (e' & -> & _ & _ & ->). by rewrite He.
  - rewrite Hr. apply Hi.
  - rewrite Hr, Hre. apply Hi.
  - rewrite Hre. apply Hi.
  - rewrite Hr, Hre. apply Hi.
Qed.

Lemma grown_same_caps w w' : grown w w' -> same_caps w w'.
Proof.
  intros [Hr Hre Ht Hc]. split; [done | done | |].
  - intros q e' Hq He'. destruct (Hc q Hq) as [E|[E1 E2]]; [left; exists e'; rewrite <- E; auto | right; split; congruence].
  - intros q e Hq He. destruct (Hc q Hq) as [E|[E1 E2]]; congruence.
Qed.

Lemma del_rights_same_caps p r w : slot_ok p -> (forall q e, slot_ok q -> cap q w = Some e -> entry_ok e) ->
  same_caps w (upd_cap p.1 p.2 (fun e => del_rights e (r .& 0xf)) w).
Proof.
  intros Hp He. split; [apply tables_ok_upd | done | |].
  - intros q e' Hq Hc'. rewrite cap_upd in Hc' by done. left. case_decide; [|by exists e']. subst q.
    destruct (cap p w) as [e|] eqn:Hc; [|done]. cbn in Hc'. injection Hc' as <-. exists e. pose proof (He p e Hp Hc).
    rewrite obj_del_rights, valid_del_rights, ref_counted_del by done. split_and!; [done..|]. apply entry_ok_del.
  - intros q e Hq. rewrite cap_upd by done. case_decide; [subst q|]; intros ->; done.
Qed.

(** Locking and unlocking an object. *)
Definition set_lock (r : Z) (b : bool) w : world A :=
  match roots w !! r with Some m => set_root r (mkMappable (_root m) (_cnt m) b) w | None => w end.

Lemma set_lock_inv bias fresh L r (b : bool) w : obj_inv bias fresh L w ->
  obj_inv bias fresh (if b then {[r]} ∪ L else L ∖ {[r]}) (set_lock r b w).
Proof.
  intros Hi. 
  assert (forall s n', roots (set_lock r b w) !! s = Some n' -> exists n, roots w !! s = Some n /\ _root n' = _root n
     /\ _cnt n' = _cnt n /\ _lock n' = if decide (s = r) then b else _lock n) as Hbw.
  { intros s n'. unfold set_lock. destruct (roots w !! r) as [m|] eqn:Hm.
    - cbn. intros [[<- <-]|[Hne Hn]]%lookup_insert_Some; [exists m; by rewrite decide_True | exists n'; by rewrite decide_False].
    - intros Hn. exists n'. rewrite decide_False; [done | congruence]. }
  assert (forall s n, roots w !! s = Some n -> exists n', roots (set_lock r b w) !! s = Some n' /\ _root n' = _root n) as Hfw.
  { intros s n Hn. unfold set_lock. destruct (roots w !! r) as [m|] eqn:Hm; [|by exists n]. cbn.
    destruct (decide (s = r)) as [->|Hne]; [|exists n; by rewrite lookup_insert_ne].
    rewrite lookup_insert_eq. eexists; split; [done|]. by assert (n = m) as -> by congruence. }
  assert (spaces (set_lock r b w) = spaces w /\ reap (set_lock r b w) = reap w) as [Hs Hre]
    by (unfold set_lock; by destruct (roots w !! r)).
  assert (forall q, cap q (set_lock r b w) = cap q w) as Hc by (intros q; by apply cap_spaces).
  split.
  - apply (tables_ok_spaces _ _ Hs), Hi.
  - intros q e. rewrite Hc. apply Hi.
  - intros q e Hq. unfold holds. rewrite Hc. intros Hh. destruct (inv_cap _ _ _ _ Hi q e Hq Hh) as (m & Hm & Hqm).
    destruct (Hfw _ _ Hm) as (m' & Hm' & E). exists m'. by rewrite E.
  - intros s n q Hn. destruct (Hbw _ _ Hn) as (n0 & Hn0 & -> & _). unfold holds. setoid_rewrite Hc. by eapply inv_root.
  - intros s n Hn. destruct (Hbw _ _ Hn) as (n0 & Hn0 & -> & _). by eapply inv_nodup.
  - intros s n Hn. destruct (Hbw _ _ Hn) as (n0 & Hn0 & -> & -> & _). rewrite (inv_cnt _ _ _ _ Hi _ _ Hn0). f_equal.
    symmetry. apply count_ext. intros q _. unfold counted_at. by rewrite Hc.
  - intros s n Hn. destruct (Hbw _ _ Hn) as (n0 & Hn0 & _ & _ & ->). rewrite (inv_lock _ _ _ _ Hi _ _ Hn0).
    case_decide; destruct b; apply eq_bool_prop_intro; rewrite ?Is_true_true, ?bool_decide_eq_true; set_solver.
  - intros s. rewrite Hre. intros Hin. destruct (inv_reap _ _ _ _ Hi _ Hin) as (n & Hn & En).
    destruct (Hfw _ _ Hn) as (n' & Hn' & E). exists n'. split; congruence.
  - rewrite Hre. apply Hi.
  - intros s n Hn. destruct (Hbw _ _ Hn) as (n0 & Hn0 & -> & _). rewrite Hre. by eapply inv_empty.
Qed.
End invariant.
