(* ===== verification/ObjUnmap.v ===== *)
(** Unmapping capabilities: [Kobject_mapdb::flush] takes one capability away, or
    all capabilities of the object when the object goes away; [unmap] on a range
    of an object space keeps the invariant, empties the range and otherwise
    only takes capabilities and rights away. *)

From S2P Require Import Prelude Outcome L4Types MapUtil ObjSpace ObjSpaceInv.
Import Obj.

Section flush.
Context `{AR : Arch, KO : Kobject_iface} {A : Type} `{KA : !Kmem_alloc A}.
Implicit Types (w : world A) (L : gset Z) (p q : Z * Z).

(** * Invalidating all capabilities of an object *)

Definition wipe (l : list (Z * Z)) w : world A := foldl (fun w p => upd_cap p.1 p.2 invalidate w) w l.

Lemma wipe_frame l w : roots (wipe l w) = roots w /\ reap (wipe l w) = reap w /\ (tables_ok w -> tables_ok (wipe l w)).
Proof.
  revert w. induction l as [|p l IH]; intros w; [done|].
  change (wipe (p :: l) w) with (wipe l (upd_cap p.1 p.2 invalidate w)). destruct (IH (upd_cap p.1 p.2 invalidate w)) as (-> & -> & Ht).
  split_and!; [done | done|]. intros. by apply Ht, tables_ok_upd.
Qed.

Lemma cap_wipe l w q : (forall p, p ∈ l -> slot_ok p) -> slot_ok q ->
  cap q (wipe l w) = if decide (q ∈ l) then invalidate <$> cap q w else cap q w.
Proof.
  revert w. induction l as [|p l IH]; intros w Hl Hq; [done|].
  change (wipe (p :: l) w) with (wipe l (upd_cap p.1 p.2 invalidate w)). rewrite IH.
  - rewrite cap_upd by (done || apply Hl; by left). destruct (decide (q = p)) as [->|Hne].
    + rewrite (decide_True (P := p ∈ p :: l)) by by left. case_decide; [|done]. by destruct (cap p w).
    + assert (q ∈ p :: l <-> q ∈ l) by set_solver. repeat case_decide; tauto.
  - intros p' ?. apply Hl. by right.
  - done.
Qed.

Lemma invalidate_all_ok l cnt w : (forall p, p ∈ l -> slot_ok p /\ cap p w <> None) ->
  invalidate_all l cnt w = Done (cnt - count w l, wipe l w).
Proof.
  revert cnt w. induction l as [|[sp i] l IH]; intros cnt w Hl; [cbn; do 2 f_equal; lia|].
  destruct (Hl (sp, i)) as [Hs Hc]; [by left|]. cbn [invalidate_all count foldr]. fold (count w l).
  change (get_cap sp i w) with (cap (sp, i) w). unfold counted_at. destruct (cap (sp, i) w) as [e|] eqn:He; [|done].
  set (w1 := upd_cap sp i invalidate w).
  assert (forall q, slot_ok q -> cap q w1 = if decide (q = (sp, i)) then invalidate <$> cap (sp, i) w else cap q w) as Hw1
    by (intros q Hq; by apply (cap_upd (sp, i))).
  assert (count w1 l = count w l) as Hcount.
  { apply count_ext. intros q Hq. destruct (Hl q) as [Hsq _]; [by right|]. unfold counted_at. rewrite Hw1 by done.
    case_decide; [|done]. subst q. by rewrite He. }
  rewrite IH.
  - rewrite Hcount. cbn. do 2 f_equal. destruct (is_ref_counted e); cbn; lia.
  - intros q Hq. destruct (Hl q) as [Hsq Hcq]; [by right|]. split; [done|]. rewrite Hw1 by done. case_decide; [|done]. by rewrite He.
Qed.

(** * Flushing one capability *)

(** The capabilities that go away with the one at [p]. *)
Definition victims (mask : Z) p (e : Entry) (m : Kobject_mappable) : list (Z * Z) :=
  if (nonzero (L4_map_mask.do_delete mask) && delete_rights e) || (is_ref_counted e && (_cnt m <=? 1)) then _root m else [p].

Lemma victims_self mask p e m : p ∈ _root m -> p ∈ victims mask p e m.
Proof. intros Hp. unfold victims. destruct (_ || _); [done | by left]. Qed.

Lemma free_removed r K w w' o m m' : map_root o = r -> roots w !! r = Some m -> _root m ≡ₚ K ++ _root m' ->
  roots w' = <[r := m']> (roots w) -> _cnt m' = _cnt m - count w K -> _lock m' = _lock m -> reap w' = reap w ->
  (tables_ok w -> tables_ok w') ->
  (forall q, slot_ok q -> cap q w' = if decide (q ∈ K) then invalidate <$> cap q w else cap q w) ->
  removed r K w (obj_free_object o w').
Proof.
  intros Ho Hm Hp Hr Hcnt Hlk Hre Ht Hc. unfold obj_free_object. rewrite Ho, Hr, lookup_insert_eq.
  split.
  - by destruct (no_mappings m').
  - intros q Hq. rewrite <- Hc by done. by destruct (no_mappings m').
  - exists m, m'. split_and!; try done; [by destruct (no_mappings m')|].
    destruct (no_mappings m'); cbn; by rewrite Hre, ?app_nil_r.
Qed.

Lemma list_remove_perm p l : NoDup l -> p ∈ l -> l ≡ₚ [p] ++ list_remove p l.
Proof.
  intros Hnd Hp. unfold list_remove. apply NoDup_Permutation; [done | |].
  - cbn. constructor; [|by apply NoDup_filter]. rewrite list_elem_of_filter. naive_solver.
  - intros q. rewrite elem_of_app, list_elem_of_singleton, list_elem_of_filter. destruct (decide (q = p)); naive_solver.
Qed.

Lemma flush_ok bias fresh L w p e m o mask x y : obj_inv bias fresh L w -> slot_ok p -> holds w p e ->
  map_root o = map_root (obj e) -> roots w !! map_root (obj e) = Some m -> _lock m = true ->
  nonzero (L4_map_mask.self_unmap mask) = true ->
  exists w2, kmdb_flush (mkFrame (Some (map_root (obj e))) p) mask x y (upd_cap p.1 p.2 invalidate w) = Done w2
    /\ removed (map_root (obj e)) (victims mask p e m) w (obj_free_object o w2).
Proof.
  intros Hi Hp Hh Ho Hm Hlk Hmask. set (r := map_root (obj e)) in *. pose proof Hh as [He Hv].
  assert (p ∈ _root m) as Hpm by (destruct (inv_cap _ _ _ _ Hi _ _ Hp Hh) as (n & Hn & ?); fold r in Hn; by assert (n = m) as <- by congruence).
  assert (forall q, q ∈ _root m -> slot_ok q /\ exists e', cap q w = Some e') as Hin.
  { intros q Hq. destruct (inv_root _ _ _ _ Hi _ _ _ Hm Hq) as (? & e' & [? _] & _). eauto. }
  set (w1 := upd_cap p.1 p.2 invalidate w).
  assert (forall q, slot_ok q -> cap q w1 = if decide (q = p) then invalidate <$> cap p w else cap q w) as Hw1
    by (intros q Hq; by apply cap_upd).
  assert (removed r [p] w (obj_free_object o (set_root r (mkMappable (list_remove p (_root m)) (_cnt m - Z.b2z (is_ref_counted e)) (_lock m)) w1))) as Hone.
  { eapply free_removed; [done | done | | done | | done | done | |].
    - apply list_remove_perm; [by eapply inv_nodup | done].
    - cbn. unfold counted_at. rewrite He. lia.
    - intros Ht. by apply tables_ok_upd.
    - intros q Hq. rewrite cap_set_root, Hw1 by done. assert (q ∈ [p] <-> q = p) by by rewrite list_elem_of_singleton.
      repeat case_decide; subst; tauto. }
  assert (exists w2, invalidate_mappings r w1 = Done w2 /\ removed r (_root m) w (obj_free_object o w2)) as Hall.
  { unfold invalidate_mappings. cbn [roots upd_cap w1]. rewrite Hm, Hlk. cbn [negb]. fold w1.
    assert (count w1 (_root m) = count w (_root m)) as Hcount.
    { apply count_ext. intros q Hq. unfold counted_at. rewrite Hw1 by by apply Hin. case_decide; [|done]. subst q. by rewrite He. }
    rewrite invalidate_all_ok.
    2: { intros q Hq. destruct (Hin q Hq) as (Hs & e' & He'). split; [done|]. rewrite Hw1 by done.
         case_decide; rewrite ?He, ?He'; done. }
    cbn. eexists. split; [done|]. destruct (wipe_frame (_root m) w1) as (Hr1 & Hr2 & Ht).
    apply (free_removed r (_root m) w _ o m (mkMappable [] (_cnt m - count w1 (_root m)) true)); [done | done | | | | | | |]; cbn.
    - by rewrite app_nil_r.
    - by rewrite Hr1.
    - by rewrite Hcount.
    - done.
    - by rewrite Hr2.
    - intros Htw. by apply Ht, tables_ok_upd.
    - intros q Hq. rewrite cap_set_root, cap_wipe by (done || by intros ? [? _]%Hin). rewrite Hw1 by done.
      destruct (decide (q = p)) as [->|]; [|done]. case_decide; [|done]. by destruct (cap p w). }
  unfold kmdb_flush. rewrite Hmask. cbn [negb frame m_]. change (get_cap p.1 p.2 w1) with (cap p w1).
  rewrite Hw1, decide_True, He by done. cbn [fmap option_fmap option_map]. change (roots w1) with (roots w). rewrite Hm.
  change (delete_rights (invalidate e)) with (delete_rights e). change (is_ref_counted (invalidate e)) with (is_ref_counted e).
  unfold victims. destruct (_ && delete_rights e); [done|]. cbn [orb]. destruct (is_ref_counted e); cbn [negb andb].
  - destruct (_cnt m <=? 1); [done|]. eexists. split; [done | exact Hone].
  - eexists. split; [done|]. by rewrite Z.sub_0_r in Hone.
Qed.
End flush.

Section unmap.
Context `{AR : Arch, KO : Kobject_iface} {A : Type} `{KA : !Kmem_alloc A}.
Implicit Types (w : world A) (L : gset Z) (p q : Z * Z).

(** * What taking away can do *)

Definition rights_le (e' e : Entry) : Prop := rights e' .& rights e = rights e'.

(** No new tables, no new capabilities, no new rights; only objects that had
    capabilities are added to the end of the reap list. *)
Record shrinks w w' : Prop := {
  sh_none : forall q, slot_ok q -> cap q w' = None <-> cap q w = None;
  sh_cap : forall q e', slot_ok q -> holds w' q e' -> exists e, holds w q e /\ obj e' = obj e /\ rights_le e' e;
  sh_reap : reap w `prefix_of` reap w';
  sh_orphan : forall r, r ∈ reap w' -> r ∈ reap w \/ exists q e, slot_ok q /\ holds w q e /\ map_root (obj e) = r;
  sh_roots : forall r, is_Some (roots w !! r) -> is_Some (roots w' !! r) }.

(** Capabilities outside [X] are lost only with their object. *)
Definition keeps (X : Z * Z -> Prop) w w' : Prop :=
  forall q e, slot_ok q -> holds w q e -> ~ X q -> holds w' q e \/ map_root (obj e) ∈ reap w'.

Lemma rights_le_refl e : rights_le e e.
Proof. apply Z.land_diag. Qed.

Lemma rights_le_trans e1 e2 e3 : rights_le e1 e2 -> rights_le e2 e3 -> rights_le e1 e3.
Proof. unfold rights_le. intros H12 H23. rewrite <- H12, <- Z.land_assoc, H23. by rewrite H12. Qed.

Lemma rights_le_del e r : rights_le (del_rights e r) e.
Proof.
  unfold rights_le, rights, cap_rights, del_rights. cbn [_obj _flags]. apply Z.bits_inj'. intros n Hn.
  bits_simp; cbn; btauto.
Qed.

Lemma shrinks_refl w : shrinks w w.
Proof. split; [done | | done | by left | done]. intros q e' _ Hh. exists e'. by split_and!; [| |apply rights_le_refl]. Qed.

Lemma shrinks_trans w1 w2 w3 : shrinks w1 w2 -> shrinks w2 w3 -> shrinks w1 w3.
Proof.
  intros [n1 c1 r1 o1 d1] [n2 c2 r2 o2 d2]. split; [| | | |by auto].
  - intros q Hq. by rewrite n2, n1.
  - intros q e3 Hq H3. destruct (c2 q e3 Hq H3) as (e2 & H2 & Ho2 & Hr2), (c1 q e2 Hq H2) as (e1 & H1 & Ho1 & Hr1).
    exists e1. split_and!; [done | congruence|]. by apply rights_le_trans with e2.
  - by trans (reap w2).
  - intros r Hr. destruct (o2 r Hr) as [H2|(q & e2 & Hq & H2 & Hre)]; [by apply o1|]. right.
    destruct (c1 q e2 Hq H2) as (e1 & H1 & Ho & _). exists q, e1. split_and!; [done | done | congruence].
Qed.

Lemma keeps_trans X w1 w2 w3 : shrinks w2 w3 -> keeps X w1 w2 -> keeps X w2 w3 -> keeps X w1 w3.
Proof.
  intros [_ _ Hpre _ _] H12 H23 q e Hq He HX. destruct (H12 q e Hq He HX) as [H2|H2]; [by apply H23|].
  right. by eapply elem_of_prefix.
Qed.

Lemma keeps_weaken (X Y : Z * Z -> Prop) w w' : (forall q, X q -> Y q) -> keeps X w w' -> keeps Y w w'.
Proof. intros HXY H q e Hq He HY. apply H; auto. Qed.

Lemma removed_reap r K w w' : removed r K w w' -> reap w `prefix_of` reap w'.
Proof. intros Hrm. destruct (rm_roots _ _ _ _ Hrm) as (m & m' & _ & _ & _ & _ & _ & ->). by eexists. Qed.

Lemma removed_shrinks bias fresh L r K w w' : obj_inv bias fresh L w -> K <> [] -> removed r K w w' -> shrinks w w'.
Proof.
  intros Hi HK Hrm. split.
  - intros q Hq. rewrite (rm_cap _ _ _ _ Hrm) by done. case_decide; [|done]. by destruct (cap q w).
  - intros q e' Hq Hh. apply (removed_holds r K w) in Hh as [Hh _]; [|done..]. exists e'. by split_and!; [| |apply rights_le_refl].
  - by eapply removed_reap.
  - intros s. destruct (rm_roots _ _ _ _ Hrm) as (m & m' & Hm & Hp & _ & _ & _ & ->). rewrite elem_of_app. intros [|Hs]; [by left|].
    right. assert (s = r) as -> by (destruct (no_mappings m'); [by apply list_elem_of_singleton | by apply not_elem_of_nil in Hs]).
    destruct K as [|q K]; [done|]. destruct (inv_root _ _ _ _ Hi r m q Hm) as (Hq & e & Hh & Hr); [rewrite Hp; by left|]. by exists q, e.
  - intros s [n Hn]. destruct (rm_roots _ _ _ _ Hrm) as (m & m' & Hm & _ & -> & _).
    destruct (decide (r = s)) as [->|]; [by rewrite lookup_insert_eq|]. rewrite lookup_insert_ne by done. by exists n.
Qed.

Lemma removed_all r K w w' m : roots w !! r = Some m -> K = _root m -> removed r K w w' -> r ∈ reap w'.
Proof.
  intros Hm -> Hrm. destruct (rm_roots _ _ _ _ Hrm) as (m1 & m' & Hm1 & Hperm & _ & _ & _ & ->). assert (m1 = m) as -> by congruence.
  apply Permutation_length in Hperm. rewrite length_app in Hperm. unfold no_mappings.
  destruct (_root m'); [|cbn in Hperm; lia]. apply elem_of_app. right. by apply list_elem_of_singleton.
Qed.

Lemma removed_keeps bias fresh L mask p e m w w' : obj_inv bias fresh L w -> holds w p e -> slot_ok p ->
  roots w !! map_root (obj e) = Some m -> removed (map_root (obj e)) (victims mask p e m) w w' -> keeps (.= p) w w'.
Proof.
  intros Hi Hh Hp Hm Hrm q e' Hq Hq' HX. unfold victims in Hrm. destruct (_ || _).
  - destruct (decide (q ∈ _root m)) as [Hin|Hin]; [right | left; by apply (removed_holds _ _ _ _ _ _ Hq Hrm)].
    destruct (inv_root _ _ _ _ Hi _ _ _ Hm Hin) as (_ & e2 & [He2 _] & Hr). destruct Hq' as [He' _].
    assert (e2 = e') as -> by congruence. rewrite Hr.
    by apply (removed_all _ (_root m) w w' m).
  - left. apply (removed_holds _ _ _ _ _ _ Hq Hrm). split; [done|]. by intros ?%list_elem_of_singleton.
Qed.

(** * Locks *)

Lemma lock_ok bias fresh L w p e : obj_inv bias fresh L w -> slot_ok p -> holds w p e -> map_root (obj e) ∉ L ->
  exists m, roots w !! map_root (obj e) = Some m /\ p ∈ _root m /\ _lock m = false
    /\ lock_safely p.1 p.2 (obj e) w = Done (Some (map_root (obj e)), set_lock (map_root (obj e)) true w).
Proof.
  intros Hi Hp Hh HL. destruct (inv_cap _ _ _ _ Hi _ _ Hp Hh) as (m & Hm & Hpm). exists m.
  assert (_lock m = false) as Hlk by (rewrite (inv_lock _ _ _ _ Hi _ _ Hm); by apply bool_decide_eq_false).
  split_and!; [done..|]. unfold lock_safely. change (get_cap p.1 p.2 w) with (cap p w). destruct Hh as [-> _].
  rewrite Z.eqb_refl. cbn [negb]. unfold set_lock. by rewrite Hm, Hlk.
Qed.

Lemma set_lock_lookup r b w m : roots w !! r = Some m ->
  roots (set_lock r b w) !! r = Some (mkMappable (_root m) (_cnt m) b).
Proof. intros Hm. unfold set_lock. rewrite Hm. apply lookup_insert_eq. Qed.

Lemma set_lock_frame r b w : spaces (set_lock r b w) = spaces w /\ reap (set_lock r b w) = reap w.
Proof. unfold set_lock. by destruct (roots w !! r). Qed.

Lemma cap_set_lock r b w q : cap q (set_lock r b w) = cap q w.
Proof. apply cap_spaces, set_lock_frame. Qed.

Lemma holds_set_lock r b w q e : holds (set_lock r b w) q e <-> holds w q e.
Proof. unfold holds. by rewrite cap_set_lock. Qed.

Lemma count_set_lock r b w l : count (set_lock r b w) l = count w l.
Proof. apply count_ext. intros q _. unfold counted_at. by rewrite cap_set_lock. Qed.

(** What was done under the lock was done to the unlocked object. *)
Lemma removed_unlock r K w w' m : roots w !! r = Some m -> _lock m = false ->
  removed r K (set_lock r true w) w' -> removed r K w (set_lock r false w').
Proof.
  intros Hm Hlk [Ht Hc (m1 & m' & Hm1 & Hp & Hr & Hcnt & _ & Hre)].
  rewrite (set_lock_lookup _ _ _ _ Hm) in Hm1. injection Hm1 as <-. cbn [_root _cnt] in *.
  destruct (set_lock_frame r true w) as [Hsp Hreap]. destruct (set_lock_frame r false w') as [Hsp' Hreap'].
  split.
  - intros Htw. apply (tables_ok_spaces _ _ Hsp'), Ht. by apply (tables_ok_spaces _ _ Hsp).
  - intros q Hq. rewrite cap_set_lock, Hc, cap_set_lock by done. done.
  - exists m, (mkMappable (_root m') (_cnt m') false). split_and!; try done.
    + unfold set_lock at 1. rewrite Hr, lookup_insert_eq. cbn. rewrite Hr, insert_insert_eq. unfold set_lock. rewrite Hm. cbn.
      by rewrite insert_insert_eq.
    + by rewrite Hcnt, count_set_lock.
    + by rewrite Hreap', Hre, Hreap.
Qed.

(** * One turn of the loop *)

Lemma to_size_0 : to_size 0 = 1.
Proof. pose proof arch_pos. unfold to_size, mshl. cbn. apply wrap_small. unfold in_range. destruct MWORD_BITS_ok as [-> | ->]; cbn; lia. Qed.

Lemma to_size_table : to_size Caps_per_page_ld2 = Caps_per_page.
Proof.
  unfold to_size, mshl, mwrap, wrap.
  destruct obj_sizes as [(E1 & E2 & E3 & E4) | (E1 & E2 & E3 & E4)]; rewrite E1, E2, E4; done.
Qed.

Lemma madd_idx i n : idx_ok i -> 0 <= n <= Caps_per_page -> madd i n = i + n.
Proof.
  unfold idx_ok, madd, mwrap. intros. apply wrap_small. unfold in_range.
  destruct obj_sizes as [(E1 & E2 & E3 & E4) | (E1 & E2 & E3 & E4)]; rewrite E2, E3, ?E4 in *; cbn; lia.
Qed.

Lemma del_rights_ok bias fresh L p r w : obj_inv bias fresh L w -> slot_ok p -> in_range 4 r ->
  let w' := upd_cap p.1 p.2 (fun e => del_rights e r) w in
  obj_inv bias fresh L w' /\ shrinks w w' /\ keeps (.= p) w w'.
Proof.
  intros Hi Hp Hr w'.
  assert (same_caps w w') as Hsc.
  { unfold w'. assert (r .& 0xf = r) as E by (change 0xf with (Z.ones 4); rewrite Z.land_ones by lia; by apply Z.mod_small).
    rewrite <- E. apply del_rights_same_caps; [done | apply Hi]. }
  assert (forall q, slot_ok q -> cap q w' = if decide (q = p) then (fun e => del_rights e r) <$> cap p w else cap q w) as Hc
    by (intros q Hq; by apply cap_upd).
  split_and!; [by apply (same_caps_inv _ _ _ w) | split; [| |done|by left|done] |].
  - intros q Hq. rewrite Hc by done. case_decide; [subst q|done]. by destruct (cap p w).
  - intros q e' Hq Hh. pose proof Hh as [Hc' Hv']. rewrite Hc in Hc' by done. case_decide.
    2: { exists e'. by split_and!; [| |apply rights_le_refl]. }
    subst q. destruct (cap p w) as [e|] eqn:He; [|done]. cbn in Hc'. injection Hc' as <-. exists e.
    rewrite valid_del_rights in Hv' by by apply (inv_entry _ _ _ _ Hi p).
    split_and!; [done | apply obj_del_rights | apply rights_le_del].
  - intros q e Hq [He Hv] Hne. left. split; [|done]. by rewrite Hc, decide_False.
Qed.

Definition is_full (rights : Z) : bool := nonzero (rights .& L4_fpage.Rights.CR).
Definition me_too (mask : Z) : bool := nonzero (L4_map_mask.self_unmap mask).

Lemma obj_v_lookup_cap sp i w :
  obj_v_lookup sp i w = match cap (sp, i) w with
                        | None => (Caps_per_page_ld2, None)
                        | Some e => (0, if valid e then Some (obj e, rights e) else None)
                        end.
Proof. done. Qed.

Lemma v_delete_ok p w e rights : holds w p e ->
  obj_v_delete p.1 p.2 0 rights w
  = Done (0, upd_cap p.1 p.2 (if is_full rights then invalidate else fun e => del_rights e rights) w).
Proof. intros [He Hv]. unfold obj_v_delete. change (get_cap p.1 p.2 w) with (cap p w). by rewrite He, Hv. Qed.

Lemma relock r w m : roots w !! r = Some m -> _lock m = false -> set_lock r false (set_lock r true w) = w.
Proof.
  intros Hm Hlk. unfold set_lock at 1. rewrite (set_lock_lookup _ _ _ _ Hm). unfold set_lock. rewrite Hm. unfold set_root. cbn.
  rewrite insert_insert_eq. rewrite insert_id; [by destruct w | by rewrite Hm; destruct m; cbn in *; subst].
Qed.

Lemma relock_upd r w m a b f : roots w !! r = Some m -> _lock m = false ->
  set_lock r false (upd_cap a b f (set_lock r true w)) = upd_cap a b f w.
Proof.
  intros Hm Hlk. rewrite <- (relock r w m Hm Hlk) at 2. unfold set_lock. rewrite Hm. cbn. by rewrite lookup_insert_eq.
Qed.

Lemma free_object_used o w m : roots w !! map_root o = Some m -> _root m <> [] -> obj_free_object o w = w.
Proof. intros Hm Hne. unfold obj_free_object. rewrite Hm. unfold no_mappings. by destruct (_root m). Qed.

(** What the turn does to the page it found: the object is locked, the
    capability or its rights are deleted and flushed, the object is unlocked. *)
Lemma unmap_page_ok bias fresh sp i end_ e rights mask w : obj_inv bias fresh ∅ w -> idx_ok i -> i < end_ ->
  in_range 4 rights -> holds w (sp, i) e ->
  exists w', unmap_turn sp i end_ rights mask w = Done (0, end_, i + 1, w') /\ obj_inv bias fresh ∅ w' /\ shrinks w w'
    /\ keeps (.= (sp, i)) w w' /\ (is_full rights = true -> me_too mask = true -> forall e', ~ holds w' (sp, i) e').
Proof.
  intros Hi Hidx Hend Hr Hh. set (p := (sp, i)). assert (slot_ok p) as Hp by done.
  destruct (lock_ok _ _ _ _ p e Hi Hp Hh) as (m & Hm & Hpm & Hlk & Hlock); [set_solver|].
  assert (obj e <> 0) as Ho by (apply valid_obj; [by apply (inv_entry _ _ _ _ Hi p); [|apply Hh] | apply Hh]).
  set (r := map_root (obj e)) in *. set (w0 := set_lock r true w) in *.
  pose proof (set_lock_inv _ _ _ r true _ Hi) as Hi0. fold w0 in Hi0.
  assert (holds w0 p e) as Hh0 by by apply holds_set_lock.
  pose proof (proj1 Hh) as Hcp. fold p in Hcp.
  unfold unmap_turn. cbn [canonize v_fabricate obj_space]. rewrite obj_v_lookup_cap. fold p. rewrite Hcp, (proj2 Hh), to_size_0.
  cbn [page_address valid_address kobject_mapdb mapdb_lookup v_delete flush_mappings mapdb_flush save_access_flags
       free_object frame_clear is_full_flush obj_space].
  fold (me_too mask) (is_full rights). replace (if me_too mask then i else i) with i by by destruct (me_too mask).
  rewrite (madd_idx i 1) by (done || pose proof obj_sizes; lia).
  replace (end_ <? i + 1) with false by (symmetry; apply Z.ltb_ge; lia). rewrite andb_false_r.
  replace (obj e =? 0) with false by (symmetry; by apply Z.eqb_neq). cbn [negb].
  unfold kmdb_lookup. change (lock_safely sp i (obj e) w) with (lock_safely p.1 p.2 (obj e) w). rewrite Hlock. cbn [obind fmap option_fmap option_map].
  change (obj_v_delete sp i 0 rights w0) with (obj_v_delete p.1 p.2 0 rights w0). rewrite (v_delete_ok p w0 e) by done. fold p.
  destruct (me_too mask) eqn:Hme, (is_full rights) eqn:Hfull; cbn [obind].
  - destruct (flush_ok _ _ _ w0 p e (mkMappable (_root m) (_cnt m) true) (obj e) mask i end_ Hi0 Hp Hh0) as (w2 & Hw2 & Hrm);
      [done | by apply set_lock_lookup | done | done|]. fold r in Hw2, Hrm. rewrite Hw2. cbn [obind].
    apply (removed_unlock _ _ _ _ m Hm Hlk) in Hrm as Hrm'. unfold kmdb_clear. cbn [frame].
    assert (p ∈ victims mask p e (mkMappable (_root m) (_cnt m) true)) as Hv by by apply victims_self.
    assert (victims mask p e (mkMappable (_root m) (_cnt m) true) <> []) as Hne by (intros E; rewrite E in Hv; by apply not_elem_of_nil in Hv).
    eexists. split_and!; [done | | by eapply removed_shrinks | | ].
    + by eapply removed_inv.
    + eapply (removed_keeps _ _ _ mask p e m); [done.. | exact Hrm'].
    + intros _ _ e' Hh'. by apply (removed_holds _ _ _ _ p e' Hp Hrm') in Hh' as [_ []].
  - unfold kmdb_clear. cbn [frame]. exists (upd_cap p.1 p.2 (fun e => del_rights e rights) w).
    destruct (del_rights_ok _ _ _ p rights w Hi Hp Hr) as (? & ? & ?). split_and!; [|done..].
    by rewrite <- (relock_upd r w m p.1 p.2 _ Hm Hlk).
  - unfold kmdb_flush. fold (me_too mask). rewrite Hme. cbn [negb obind].
    rewrite (free_object_used (obj e) w0 (mkMappable (_root m) (_cnt m) true));
      [|by apply set_lock_lookup | cbn; by intros E; rewrite E in Hpm; apply not_elem_of_nil in Hpm].
    exists w. unfold kmdb_clear. cbn [frame]. split_and!; [|done | apply shrinks_refl | by intros ? ? ? ? ?; left | done].
    change (unlock r w0) with (set_lock r false (set_lock r true w)). by rewrite (relock r w m Hm Hlk).
  - exists w. unfold kmdb_clear. cbn [frame]. split_and!; [|done | apply shrinks_refl | by intros ? ? ? ? ?; left | done].
    change (unlock r w0) with (set_lock r false (set_lock r true w)). by rewrite (relock r w m Hm Hlk).
Qed.

Lemma unmap_turn_ok bias fresh sp i end_ rights mask w : obj_inv bias fresh ∅ w -> idx_ok i -> i < end_ -> in_range 4 rights ->
  exists w' next, unmap_turn sp i end_ rights mask w = Done (0, end_, next, w') /\ obj_inv bias fresh ∅ w' /\ shrinks w w'
    /\ keeps (.= (sp, i)) w w'
    /\ (cap (sp, i) w = None /\ next = i + Caps_per_page
        \/ cap (sp, i) w <> None /\ next = i + 1
           /\ (is_full rights = true -> me_too mask = true -> forall e', ~ holds w' (sp, i) e')).
Proof.
  intros Hi Hidx Hend Hr. destruct (cap (sp, i) w) as [e|] eqn:Hc; [destruct (valid e) eqn:Hv|].
  - destruct (unmap_page_ok _ _ sp i end_ e rights mask w Hi Hidx Hend Hr (conj Hc Hv)) as (w' & ? & ? & ? & ? & ?).
    exists w', (i + 1). split_and!; [done..|]. right. done.
  - exists w, (i + 1). split_and!; [|done | apply shrinks_refl | by intros ? ? ? ? ?; left | right; split_and!; [done..|]].
    + unfold unmap_turn. cbn [canonize v_fabricate obj_space page_address]. rewrite obj_v_lookup_cap, Hc, Hv, to_size_0.
      by rewrite madd_idx by (done || pose proof obj_sizes; lia).
    + intros _ _ e' [E Hv']. congruence.
  - exists w, (i + Caps_per_page). split_and!; [|done | apply shrinks_refl | by intros ? ? ? ? ?; left | by left].
    unfold unmap_turn. cbn [canonize v_fabricate obj_space page_address]. rewrite obj_v_lookup_cap, Hc, to_size_table.
    by rewrite madd_idx by (done || pose proof obj_sizes; lia).
Qed.

(** * The loop *)

Lemma same_table sp i j w : tables_ok w -> idx_ok i -> idx_ok j -> i / Caps_per_page = j / Caps_per_page ->
  cap (sp, i) w = None -> cap (sp, j) w = None.
Proof.
  intros Ht Hi Hj Hd Hc. unfold cap, get_cap. cbn [fst snd]. rewrite d_idx_ok by done.
  destruct (dir_of sp w) as [d|] eqn:Hdir; [|done].
  rewrite d_idx_div, <- Hd, <- d_idx_div by done. by rewrite (no_cap_no_table sp i d w).
Qed.

(** A missing table is skipped from its first entry, or to the end of the range. *)
Definition on_track sp i end_ w : Prop :=
  i mod Caps_per_page = 0 \/ end_ <= Caps_per_page * (i / Caps_per_page + 1) \/ cap (sp, i) w <> None.

Lemma obj_unmap_loop_ok bias fresh sp end_ rights mask fuel i w fl : obj_inv bias fresh ∅ w -> 0 <= i -> in_range 4 rights ->
  Z.max 0 (obj_map_max_address - i) < Z.of_nat fuel ->
  exists w', unmap_loop fuel sp i end_ obj_map_max_address rights mask fl w = Done (fl, w') /\ obj_inv bias fresh ∅ w'
    /\ shrinks w w' /\ keeps (fun q => q.1 = sp /\ i <= q.2 < end_) w w'
    /\ (is_full rights = true -> me_too mask = true -> (i < end_ -> idx_ok i -> on_track sp i end_ w) ->
        forall j e, i <= j < end_ -> idx_ok j -> ~ holds w' (sp, j) e).
Proof.
  revert i w. induction fuel as [|fuel IH]; intros i w Hi H0 Hr Hfuel; [lia|]. cbn [unmap_loop].
  destruct (Z.ltb_spec i end_) as [Hend|Hend]; cbn [andb].
  2: { exists w. split_and!; [done | done | apply shrinks_refl | by intros ? ? ? ? ?; left | lia]. }
  destruct (Z.ltb_spec i obj_map_max_address) as [Hmax|Hmax].
  2: { exists w. split_and!; [done | done | apply shrinks_refl | by intros ? ? ? ? ?; left|].
       intros _ _ _ j e ? [_ ?]. unfold obj_map_max_address in *. lia. }
  assert (idx_ok i) as Hidx by (unfold obj_map_max_address in *; by split).
  destruct (unmap_turn_ok bias fresh sp i end_ rights mask w Hi Hidx Hend Hr) as (w1 & next & -> & Hi1 & Hs1 & Hk1 & Hnext).
  cbn [obind]. rewrite Z.lor_0_r. assert (0 < Caps_per_page) as HC by (pose proof obj_sizes; lia).
  assert (i < next) as Hlt by (destruct Hnext as [(_ & ->)|(_ & -> & _)]; lia).
  destruct (IH next w1 Hi1) as (w2 & -> & Hi2 & Hs2 & Hk2 & Hc2); [lia | done | lia|].
  exists w2. split_and!; [done | done | by apply shrinks_trans with w1 | |].
  { apply (keeps_trans _ _ w1); [done | |].
    - apply (keeps_weaken (.= (sp, i))); [|done]. by intros ? ->.
    - revert Hk2. apply keeps_weaken. intros q [? ?]. split; [done | lia]. }
  intros Hfull Hme Htrack j e Hj Hjok Hh. specialize (Htrack Hend Hidx).
  destruct (Z.lt_ge_cases j next) as [Hjn|Hjn].
  - destruct (sh_cap _ _ Hs2 (sp, j) e Hjok Hh) as (e1 & Hh1 & _).
    destruct Hnext as [(Hc & ->)|(Hc & -> & Hclear)].
    + destruct (sh_cap _ _ Hs1 (sp, j) e1 Hjok Hh1) as (e0 & [Hh0 _] & _).
      assert (i / Caps_per_page = j / Caps_per_page) as Hd.
      { destruct Htrack as [Ht|[Ht|]]; [| |done]; Z.div_mod_to_equations; nia. }
      by rewrite (same_table sp i j w (inv_tables _ _ _ _ Hi) Hidx Hjok Hd Hc) in Hh0.
    + assert (j = i) as -> by lia. by apply (Hclear Hfull Hme e1).
  - apply (Hc2 Hfull Hme) with j e; [|lia | done | done]. intros Hne Hnok.
    unfold on_track in *. destruct Hnext as [(Hc & ->)|(Hc & -> & _)].
    + destruct Htrack as [Ht|[Ht|]]; [left | right; left | done].
      * rewrite Z.add_mod, Ht, Z.mod_same by lia. done.
      * Z.div_mod_to_equations. nia.
    + destruct (decide ((i + 1) mod Caps_per_page = 0)) as [|Hm]; [by left|]. right. right.
      rewrite (sh_none _ _ Hs1) by done. intros Hn. apply Hc. apply (same_table sp (i + 1)); [apply Hi | done | done | | done].
      clear -Hm HC H0. Z.div_mod_to_equations. nia.
Qed.

(** * Flex pages *)

Lemma mask_lsb_eq v o : is_mword v -> 0 <= o <= MWORD_BITS -> mask_lsb v o = v - v mod 2 ^ o.
Proof.
  intros Hv Ho. rewrite <- trunc_pow2 by done. unfold mask_lsb. f_equal.
  replace (2 ^ o - 1) with (Z.ones o) by (rewrite Z.ones_equiv; lia). bits_ext.
Qed.

(** The slots of a flex page: [2 ^ order] of them, aligned, and inside the word. *)
Lemma fpage_slots fp : is_mword fp ->
  let order := get_order_from_fp fp 0 in
  let first := mask_lsb (L4_fpage.obj_index fp) order in
  0 <= order < MWORD_BITS /\ 0 <= first /\ first mod 2 ^ order = 0 /\ to_size order = 2 ^ order
  /\ madd first (to_size order) = first + 2 ^ order /\ in_range 4 (L4_fpage.rights fp).
Proof.
  intros Hfp order first. pose proof arch_ge32. assert (0 <= order < MWORD_BITS) as Hord.
  { unfold order, get_order_from_fp. assert (0 <= L4_fpage.order fp) by (apply get_range; unfold field; lia). destruct (Z.leb_spec (L4_fpage.order fp - 0) (MWORD_BITS - 1)); lia. }
  assert (in_range (MWORD_BITS - 12) (L4_fpage.obj_index fp)) as Hidx
    by (replace (MWORD_BITS - 12) with (MWORD_BITS - 1 + 1 - 12) by lia; apply get_range; unfold field; lia).
  assert (in_range 4 (L4_fpage.rights fp)) as Hr by (apply (get_range 0 3); unfold field; lia).
  assert (first = L4_fpage.obj_index fp - L4_fpage.obj_index fp mod 2 ^ order) as Hfirst.
  { apply mask_lsb_eq; [|lia]. eapply in_range_mono; [|exact Hidx]. lia. }
  assert (0 < 2 ^ order) as Hp by (apply pow2_pos; lia).
  assert (to_size order = 2 ^ order) as Hsz.
  { unfold to_size, mshl. rewrite Z.shiftl_1_l. apply wrap_small. split; [lia|]. apply Z.pow_lt_mono_r; lia. }
  pose proof (Z.mod_pos_bound (L4_fpage.obj_index fp) (2 ^ order) Hp) as Hmod. unfold in_range in Hidx.
  assert (L4_fpage.obj_index fp mod 2 ^ order <= L4_fpage.obj_index fp) by (apply Z.mod_le; lia).
  split_and!; try done; [lia | lia | lia | |].
  - rewrite Hfirst. rewrite Zminus_mod_idemp_r, Z.sub_diag. done.
  - rewrite Hsz. apply wrap_small. split; [lia|].
    assert (2 ^ (MWORD_BITS - 12) + 2 ^ (MWORD_BITS - 1) < 2 ^ MWORD_BITS)
      by (destruct MWORD_BITS_ok as [-> | ->]; reflexivity).
    assert (2 ^ order <= 2 ^ (MWORD_BITS - 1)) by (apply Z.pow_le_mono_r; lia). lia.
Qed.

Lemma fpage_on_track sp first order w : 0 <= order -> 0 <= first -> first mod 2 ^ order = 0 -> on_track sp first (first + 2 ^ order) w.
Proof.
  intros Ho Hf Hal. unfold on_track. rewrite Caps_per_page_eq.
  assert (0 <= Caps_per_page_ld2) as Hld by (pose proof obj_sizes; lia).
  assert (0 < 2 ^ order) as Hp by (apply pow2_pos; lia). assert (0 < 2 ^ Caps_per_page_ld2) as HC by (apply pow2_pos; lia).
  destruct (Z.le_ge_cases Caps_per_page_ld2 order) as [Hle|Hle].
  - left. apply Z.mod_divide in Hal; [|lia]. apply Z.mod_divide; [lia|]. destruct Hal as [k Hk].
    exists (k * 2 ^ (order - Caps_per_page_ld2)). rewrite <- Z.mul_assoc, <- Z.pow_add_r, Hk by lia. do 2 f_equal. lia.
  - right. left. replace Caps_per_page_ld2 with (order + (Caps_per_page_ld2 - order)) by lia.
    rewrite Z.pow_add_r by lia. assert (0 < 2 ^ (Caps_per_page_ld2 - order)) by (apply pow2_pos; lia).
    rewrite <- Z.div_div by lia. set (c := 2 ^ (Caps_per_page_ld2 - order)) in *.
    assert (first = 2 ^ order * (first / 2 ^ order)) as E by (rewrite (Z.div_mod first (2 ^ order)) at 1; lia).
    set (k := first / 2 ^ order) in *. rewrite E.
    assert (k + 1 <= c * (k / c + 1)) by (Z.div_mod_to_equations; nia). nia.
Qed.

Lemma fpage_unmap_ok bias fresh sp fp mask w : is_mword fp -> obj_inv bias fresh ∅ w ->
  let order := get_order_from_fp fp 0 in
  let first := mask_lsb (L4_fpage.obj_index fp) order in
  exists w', obj_fpage_unmap sp fp mask w = Done (0, w') /\ obj_inv bias fresh ∅ w' /\ shrinks w w'
    /\ keeps (fun q => q.1 = sp /\ first <= q.2 < first + 2 ^ order) w w'
    /\ (is_full (L4_fpage.rights fp) = true -> me_too mask = true ->
        forall i e, first <= i < first + 2 ^ order -> idx_ok i -> ~ holds w' (sp, i) e).
Proof.
  intros Hfp Hi order first. destruct (fpage_slots fp Hfp) as (Hord & H0 & Hal & Hsz & Hend & Hr). fold order in Hord, H0, Hal, Hsz, Hend.
  fold first in H0, Hal, Hend. unfold obj_fpage_unmap, MapUtil.unmap. fold order first. rewrite Hend.
  change (map_max_address sp) with obj_map_max_address.
  destruct (obj_unmap_loop_ok bias fresh sp (first + 2 ^ order) (L4_fpage.rights fp) mask (S (Z.to_nat obj_map_max_address)) first w 0 Hi H0 Hr)
    as (w' & -> & Hi' & Hs & Hk & Hc); [lia|].
  exists w'. split_and!; [done..|]. intros Hf Hm i e Hx Hok. apply Hc; [done | done | | done | done].
  intros _ _. apply fpage_on_track; [lia | done | done].
Qed.
End unmap.
