(* ===== verification/ObjMap.v ===== *)
(** Mapping and granting capabilities: one turn of [map] locks the objects,
    flushes what is in the way at the receiver and enters the new capability;
    a whole [map] keeps the invariant, and the capabilities afterwards are the
    old ones and copies, with no more rights, of the ones in the sender's
    range. *)

From S2P Require Import Prelude Outcome L4Types MapUtil ObjSpace ObjSpaceInv ObjUnmap.
Import Obj.

(** What mapping relies on of kernel objects: giving up special rights changes
    neither the mappings of the object nor the alignment of its address. *)
Class Kobject_laws `{Arch, Kobject_iface} := {
  map_root_downgrade : forall o a, map_root (downgrade o a) = map_root o;
  downgrade_kobj : forall o a, kobj o -> kobj (downgrade o a) }.

Section insert.
Context `{AR : Arch, KO : Kobject_iface} {A : Type} `{KA : !Kmem_alloc A}.
Implicit Types (w : world A) (L : gset Z) (p q : Z * Z).

(** * Entering a capability *)

Lemma grown_holds w w' q e : slot_ok q -> grown w w' -> holds w' q e <-> holds w q e.
Proof.
  intros Hq Hg. unfold holds. destruct (grown_cap _ _ Hg q Hq) as [->|[-> ->]]; [done|]. split; [|by intros []].
  by intros [[= <-] ?].
Qed.

Lemma grown_inv bias fresh L w w' : obj_inv bias fresh L w -> grown w w' -> obj_inv bias fresh L w'.
Proof. intros Hi Hg. apply (same_caps_inv _ _ _ w); [done | by apply grown_same_caps | by apply grown_roots]. Qed.

Lemma v_insert_ok o q a w : tables_ok w -> slot_ok q -> (forall e, ~ holds w q e) ->
  exists w1, grown w w1
    /\ (obj_v_insert o q.1 q.2 0 a w = Done (Err_nomem, w1)
        \/ exists e0, cap q w1 = Some e0
           /\ obj_v_insert o q.1 q.2 0 a w = Done (Ok, upd_cap q.1 q.2 (fun e => set e o a) w1)).
Proof.
  intros Ht Hq Hfree. unfold obj_v_insert. cbn [Z.eqb negb]. change (get_cap q.1 q.2 w) with (cap q w).
  destruct (cap q w) as [e0|] eqn:Hc.
  - exists w. split; [apply grown_refl|]. right. exists e0. split; [done|]. cbn [negb].
    change (get_cap q.1 q.2 w) with (cap q w). rewrite Hc. destruct (valid e0) eqn:Hv; [by destruct (Hfree e0)|done].
  - rewrite (surjective_pairing q) in Hc. destruct (caps_alloc_ok _ _ _ Ht Hq Hc) as [Hg Hnew].
    destruct (caps_alloc q.1 q.2 w) as [ok w1]. cbn [fst snd] in *. exists w1. split; [done|].
    destruct ok; cbn [negb]; [|by left]. right. exists (mkEntry 0 0). specialize (Hnew eq_refl).
    change (get_cap q.1 q.2 w1) with (cap (q.1, q.2) w1). rewrite <- surjective_pairing in *. by rewrite Hnew.
Qed.

(** The entry and its mapping together. *)
Lemma insert_added o q a e0 w m r : map_root o = r -> kobj o -> slot_ok q -> cap q w = Some e0 -> roots w !! r = Some m ->
  added r q (set e0 o a) w
    (set_root r (mkMappable (q :: _root m) (_cnt m + Z.b2z (is_ref_counted (set e0 o a))) (_lock m))
      (upd_cap q.1 q.2 (fun e => set e o a) w)).
Proof.
  intros Hr Ho Hq Hc Hm. split; [by intros ?%(tables_ok_upd q.1 q.2 (fun e => set e o a)) | | | |].
  - split_and!; [by apply entry_ok_set | by apply valid_set | by rewrite obj_set].
  - intros p Hp. rewrite cap_set_root, cap_upd by done. case_decide; [|done]. by rewrite Hc.
  - eexists m, _. split_and!; [done| |done|done|done]. done.
  - done.
Qed.

Lemma kmdb_insert_ok f o q a e0 w m r : map_root o = r -> slot_ok q -> cap q w = Some e0 -> roots w !! r = Some m ->
  kmdb_insert f q.1 q.2 o 1 (upd_cap q.1 q.2 (fun e => set e o a) w)
  = Done (true, set_root r (mkMappable (q :: _root m) (_cnt m + Z.b2z (is_ref_counted (set e0 o a))) (_lock m))
                  (upd_cap q.1 q.2 (fun e => set e o a) w)).
Proof.
  intros Hr Hq Hc Hm. unfold kmdb_insert. cbn [Z.eqb negb].
  change (get_cap q.1 q.2 (upd_cap q.1 q.2 (fun e => set e o a) w)) with (cap q (upd_cap q.1 q.2 (fun e => set e o a) w)).
  rewrite cap_upd, decide_True, Hc, Hr by done. cbn [roots upd_cap fmap option_fmap option_map]. rewrite Hm. rewrite <- surjective_pairing.
  do 4 f_equal. destruct (is_ref_counted _); cbn; lia.
Qed.

(** * Moving a capability *)

Definition list_replace (p q : Z * Z) (l : list (Z * Z)) : list (Z * Z) := (fun x => if bool_decide (x = p) then q else x) <$> l.

Lemma list_replace_perm p q l : NoDup l -> p ∈ l -> q :: l ≡ₚ [p] ++ list_replace p q l.
Proof.
  intros Hnd Hp. apply list_elem_of_split in Hp as (l1 & l2 & ->). apply NoDup_app in Hnd as (_ & Hd1 & Hnd2).
  apply NoDup_cons in Hnd2 as [Hd2 _]. unfold list_replace. rewrite fmap_app, fmap_cons, bool_decide_true by done.
  assert (forall l : list (Z * Z), p ∉ l -> ((fun x => if bool_decide (x = p) then q else x) <$> l) = l) as Hid.
  { intros l Hl. induction l as [|x l IH]; [done|]. cbn. rewrite IH by set_solver. rewrite bool_decide_false; [done | set_solver]. }
  rewrite !Hid by (done || intros H; by apply (Hd1 p H); left). cbn. rewrite <- !Permutation_middle. by rewrite perm_swap.
Qed.

(** [grant] with the deletion of the source: afterwards the new capability is
    there and the old one gone, or the object has lost its last counted
    capability, and with it all others. *)
Lemma grant_ok bias fresh L o q a e0 p e w m r x : obj_inv bias fresh L w -> map_root o = r -> kobj o -> slot_ok q -> slot_ok p ->
  cap q w = Some e0 -> (forall e, ~ holds w q e) -> holds w p e -> map_root (obj e) = r -> roots w !! r = Some m -> _lock m = true ->
  map_root x = r -> (is_ref_counted (set e0 o a) = true -> is_ref_counted e = true) ->
  exists wA w2 w3 K, added r q (set e0 o a) w wA
    /\ kmdb_grant (mkFrame (Some r) p) q.1 q.2 (upd_cap q.1 q.2 (fun e => set e o a) w) = Done (true, w2)
    /\ obj_v_delete p.1 p.2 0 L4_fpage.Rights.FULL w2 = Done (0, w3)
    /\ removed r K wA (obj_free_object x w3) /\ p ∈ K /\ (K = [p] \/ K = q :: _root m).
Proof.
  intros Hi Hr Ho Hq Hp Hc Hfree Hh Hre Hm Hlk Hx Hcnt.
  set (wi := upd_cap q.1 q.2 (fun e => set e o a) w). set (e' := set e0 o a) in *.
  assert (p <> q) as Hpq by (intros ->; by apply (Hfree e)).
  assert (p ∈ _root m) as Hpm.
  { destruct (inv_cap _ _ _ _ Hi _ _ Hp Hh) as (n & Hn & ?). rewrite Hre in Hn. by assert (n = m) as <- by congruence. }
  assert (forall s, slot_ok s -> cap s wi = if decide (s = q) then Some e' else cap s w) as Hwi.
  { intros s Hs. unfold wi. rewrite cap_upd by done. case_decide; [|done]. by rewrite Hc. }
  assert (NoDup (_root m)) as Hnd by by eapply inv_nodup.
  pose proof (list_replace_perm p q _ Hnd Hpm) as Hperm. set (l := list_replace p q (_root m)) in *.
  pose proof (insert_added o q a e0 w m r Hr Ho Hq Hc Hm) as Had. fold e' wi in Had.
  set (wA := set_root r _ wi) in Had.
  assert (forall s, s ∈ l -> slot_ok s /\ cap s wi <> None) as Hl.
  { intros s Hs. assert (s ∈ q :: _root m) as [->|Hs']%elem_of_cons by (rewrite Hperm; by right).
    - split; [done|]. by rewrite Hwi, decide_True.
    - destruct (inv_root _ _ _ _ Hi _ _ _ Hm Hs') as (Hsok & es & [Hes _] & _). split; [done|]. rewrite Hwi by done.
      case_decide; [done|]. by rewrite Hes. }
  assert (p ∉ l) as Hpl.
  { assert (NoDup (q :: _root m)) as Hnd'.
    { constructor; [|done]. intros Hqm. destruct (inv_root _ _ _ _ Hi _ _ _ Hm Hqm) as (_ & e1 & ? & _). by apply (Hfree e1). }
    rewrite Hperm in Hnd'. by apply NoDup_cons in Hnd' as [? _]. }
  assert (cap p wi = Some e) as Hpi by (rewrite Hwi, decide_False by done; apply Hh).
  assert (count wA [p] = Z.b2z (is_ref_counted e)) as Hcp.
  { unfold count. cbn. unfold counted_at, wA. rewrite cap_set_root, Hpi. lia. }
  assert (count wA l = count wi l) as HcA by (apply count_ext; intros; unfold counted_at, wA; by rewrite cap_set_root).
  assert (count wA (q :: _root m) = Z.b2z (is_ref_counted e) + count wi l) as HcAll
    by (rewrite (count_perm _ _ _ Hperm), count_app, HcA; lia).
  unfold kmdb_grant. cbn [frame m_]. change (get_cap q.1 q.2 wi) with (cap q wi). change (get_cap p.1 p.2 wi) with (cap p wi).
  change (roots wi) with (roots w). rewrite Hm, Hpi, (Hwi q), decide_True, bool_decide_true by done. cbn [negb].
  rewrite <- surjective_pairing. fold (list_replace p q (_root m)). fold l.
  assert (forall c, c = _cnt m + Z.b2z (is_ref_counted e') - Z.b2z (is_ref_counted e) ->
    let w2 := set_root r (mkMappable l c (_lock m)) wi in
    exists w3, obj_v_delete p.1 p.2 0 L4_fpage.Rights.FULL w2 = Done (0, w3) /\ removed r [p] wA (obj_free_object x w3)) as Hone.
  { intros c Hcc w2. rewrite (v_delete_ok p w2 e) by (split; [exact Hpi | apply Hh]). eexists. split; [done|].
    apply (free_removed r [p] wA _ x (mkMappable (q :: _root m) (_cnt m + Z.b2z (is_ref_counted e')) (_lock m)) (mkMappable l c (_lock m))); cbn.
    - done.
    - apply lookup_insert_eq.
    - exact Hperm.
    - by rewrite insert_insert_eq.
    - change (foldr _ 0 [p]) with (count wA [p]). rewrite Hcc, <- Hcp. unfold count. cbn. lia.
    - done.
    - done.
    - intros Ht. by apply tables_ok_upd.
    - intros s Hs. rewrite cap_upd by done. unfold w2, wA. rewrite !cap_set_root.
      assert (s ∈ [p] <-> s = p) by by rewrite list_elem_of_singleton. repeat case_decide; subst; tauto. }
  exists wA. destruct (is_ref_counted e) eqn:He, (is_ref_counted e') eqn:He'; cbn [andb negb].
  - destruct (Hone (_cnt m)) as (w3 & ? & ?); [cbn; lia|]. eexists _, w3, [p]. split_and!; [done.. | by left | by left].
  - destruct (Z.leb_spec (_cnt m - 1) 0) as [Hle|Hgt].
    + unfold invalidate_mappings. cbn [roots set_root]. rewrite lookup_insert_eq, Hlk. cbn [negb _root _cnt _lock].
      set (w2 := set_root r (mkMappable l (_cnt m - 1) true) wi).
      assert (count w2 l = count wi l) as Hc2 by (apply count_ext; intros; unfold counted_at, w2; by rewrite cap_set_root).
      rewrite invalidate_all_ok by (intros s Hs; unfold w2; rewrite cap_set_root; by apply Hl). cbn [obind].
      destruct (wipe_frame l w2) as (Hr1 & Hr2 & Ht2).
      assert (forall s, slot_ok s -> cap s (wipe l w2) = if decide (s ∈ l) then invalidate <$> cap s wi else cap s wi) as Hw.
      { intros s Hs. rewrite cap_wipe by (done || by intros ? [? _]%Hl). unfold w2. by rewrite cap_set_root. }
      set (w4 := set_root r _ (wipe l w2)).
      eexists w4, _, (q :: _root m). split_and!; [done | done | | | by right; done | by right].
      * rewrite (v_delete_ok p w4 e); [done|]. split; [|apply Hh]. unfold w4. by rewrite cap_set_root, Hw, decide_False.
      * apply (free_removed r (q :: _root m) wA _ x (mkMappable (q :: _root m) (_cnt m) (_lock m))
                 (mkMappable [] (_cnt m - 1 - count w2 l) true)); cbn.
        -- done.
        -- unfold wA. cbn. rewrite lookup_insert_eq. do 2 f_equal. lia.
        -- by rewrite app_nil_r.
        -- rewrite Hr1. cbn. by rewrite !insert_insert_eq.
        -- change (Z.b2z (counted_at wA q) + foldr _ 0 (_root m)) with (count wA (q :: _root m)).
           rewrite HcAll, Hc2. cbn. lia.
        -- done.
        -- by rewrite Hr2.
        -- intros Ht. by apply tables_ok_upd, Ht2.
        -- intros s Hs. rewrite cap_upd by done. unfold w4, wA. rewrite !cap_set_root, !Hw by done.
           assert (s ∈ q :: _root m <-> s = p \/ s ∈ l) as Hin by (rewrite Hperm; set_solver).
           rewrite (decide_False (P := p ∈ l)) by done.
           destruct (decide (s = p)) as [->|]; [rewrite decide_True by tauto; done|].
           repeat case_decide; tauto.
    + destruct (Hone (_cnt m - 1)) as (w3 & ? & ?); [cbn; lia|]. eexists _, w3, [p]. split_and!; [done.. | by left | by left].
  - by discriminate Hcnt.
  - destruct (Hone (_cnt m)) as (w3 & ? & ?); [cbn; lia|]. eexists _, w3, [p]. split_and!; [done.. | by left | by left].
Qed.
End insert.

Section turn.
Context `{AR : Arch, KO : Kobject_iface, KL : !Kobject_laws} {A : Type} `{KA : !Kmem_alloc A}.
Implicit Types (w : world A) (L : gset Z) (p q s : Z * Z) (e : Entry).

(** * Copies *)

(** The object and the rights of a capability that is mapped with [attribs]. *)
Definition sent attribs e : Z * Z := obj_apply_attribs (rights e) (obj e) attribs.
Definition mappable attribs e : bool := negb (empty (sent attribs e).1).
Definition copy attribs e e' : Prop := obj e' = (sent attribs e).2 /\ rights e' = (sent attribs e).1.

Lemma empty_bit a : empty a = negb (Z.testbit a 2).
Proof.
  unfold empty, attr_rights, L4_fpage.Rights.CR. rewrite <- (negb_involutive (_ =? 0)). fold (nonzero ((a .& 0x0f) .& 4)).
  change 4 with (2 ^ 2). rewrite nonzero_land_bit by lia. f_equal. change 0x0f with (Z.ones 4). rewrite Z.land_spec, testbit_ones by lia.
  by rewrite andb_true_r.
Qed.

Lemma rights_range e : in_range 8 (rights e).
Proof. apply wrap_range. lia. Qed.

Lemma rights_set e0 o a : kobj o -> in_range 8 a -> empty a = false -> rights (set e0 o a) = a.
Proof.
  intros Ho Ha He. rewrite empty_bit in He. apply negb_false_iff in He.
  unfold rights, cap_rights, set. cbn [_obj _flags]. change 3 with (Z.ones 2). change 4 with (2 ^ 2). change 0xf8 with (Z.ldiff (Z.ones 8) (Z.ones 3)).
  apply Z.bits_inj'. intros n Hn. bits_simp; rewrite ?Z.pow2_bits_eqb by lia; bits_simp; try bits_close.
  all: try (rewrite (low_bits o n) by (apply Ho || lia); bits_close).
  all: subst; rewrite ?He; bits_close.
Qed.

Lemma ref_counted_set e0 o a : is_ref_counted (set e0 o a) = Z.testbit a 4.
Proof.
  unfold is_ref_counted, set, Ref_cnt, L4_msg_item.C_weak_ref. cbn [_flags]. change 0x10 with (2 ^ 4). rewrite nonzero_land_bit by lia.
  rewrite Z.land_spec. change (Z.testbit 248 4) with true. apply andb_true_r.
Qed.

Lemma ref_counted_rights e : Z.testbit (rights e) 4 = is_ref_counted e.
Proof.
  unfold is_ref_counted, Ref_cnt, L4_msg_item.C_weak_ref. change 0x10 with (2 ^ 4). rewrite nonzero_land_bit by lia.
  unfold rights, cap_rights. rewrite testbit_wrap, !Z.lor_spec, Z.ldiff_spec, Z.land_spec by lia.
  change (Z.testbit 3 4) with false. change (Z.testbit 4 4) with false. cbn. rewrite andb_false_r, andb_true_r. cbn. apply orb_false_r.
Qed.

Lemma sent_attr attribs e : (sent attribs e).1 = rights e .& attribs.
Proof. done. Qed.

Lemma sent_root attribs e : map_root (sent attribs e).2 = map_root (obj e).
Proof. unfold sent, obj_apply_attribs. cbn. destruct (nonzero _); [apply map_root_downgrade | done]. Qed.

Lemma sent_kobj attribs e : kobj (obj e) -> kobj (sent attribs e).2.
Proof. unfold sent, obj_apply_attribs. cbn. destruct (nonzero _); [apply downgrade_kobj | done]. Qed.

Lemma copy_set attribs e e0 : kobj (obj e) -> mappable attribs e = true ->
  copy attribs e (set e0 (sent attribs e).2 (sent attribs e).1).
Proof.
  intros Ho Hm. apply negb_true_iff in Hm. pose proof (sent_kobj attribs e Ho). split; [by apply obj_set|].
  apply rights_set; [done | | done]. rewrite sent_attr. apply in_range_land_l; [lia | apply rights_range].
Qed.

(** * The effect of one turn *)

Definition dead w e : Prop := map_root (obj e) ∈ reap w.

Record turn_eff (attribs : Z) (grant ok : bool) p q w w' : Prop := {
  te_new : forall s e', slot_ok s -> holds w' s e' -> holds w s e' \/ s = q /\ exists e, holds w p e /\ copy attribs e e';
  te_keep : forall s e, slot_ok s -> holds w s e -> s <> q -> ~ (grant = true /\ s = p) -> holds w' s e \/ dead w' e;
  te_done : ok = true -> forall e, holds w p e -> mappable attribs e = true ->
    (exists e', holds w' q e' /\ copy attribs e e') \/ dead w' e;
  te_moved : ok = true -> grant = true -> forall e e', holds w p e -> mappable attribs e = true -> ~ holds w' p e';
  te_reap : reap w `prefix_of` reap w' }.

Lemma holds_fun w s e1 e2 : holds w s e1 -> holds w s e2 -> e1 = e2.
Proof. intros [? _] [? _]. congruence. Qed.

Lemma grown_turn_eff attribs grant p q w w' : grown w w' -> turn_eff attribs grant false p q w w'.
Proof.
  intros Hg. split; [| |done|done|by rewrite (grown_reap _ _ Hg)].
  - intros s e' Hs Hh. left. by apply (grown_holds w w').
  - intros s e Hs Hh _ _. left. by apply (grown_holds w w').
Qed.

Lemma added_holds r q e' w w' s e : slot_ok s -> added r q e' w w' ->
  holds w' s e <-> (s = q /\ e = e') \/ s <> q /\ holds w s e.
Proof.
  intros Hs [_ (_ & Hv & _) Hc _ _]. unfold holds. rewrite Hc by done. case_decide; split.
  - intros [[= <-] _]. by left.
  - intros [[_ ->]|[]]; done.
  - intros ?. by right.
  - intros [[? _]|[_ ?]]; done.
Qed.

(** Entering the capability, when nothing is in the way any more. *)
Lemma insert_turn_eff attribs r p q e e' w w1 w' : slot_ok p -> slot_ok q -> p <> q -> holds w p e -> copy attribs e e' ->
  (forall e, ~ holds w q e) -> grown w w1 -> added r q e' w1 w' -> turn_eff attribs false true p q w w'.
Proof.
  intros Hp Hq Hpq Hh Hcopy Hfree Hg Had.
  assert (forall s e1, slot_ok s -> holds w' s e1 <-> (s = q /\ e1 = e') \/ s <> q /\ holds w s e1) as Hw'.
  { intros s e1 Hs. rewrite (added_holds r q e' w1 w' s e1 Hs Had). by rewrite (grown_holds w w1) by done. }
  split.
  - intros s e1 Hs [[-> ->]|[_ ?]]%Hw'; [|by left|done]. right. split; [done|]. by exists e.
  - intros s e1 Hs Hs' Hne _. left. apply Hw'; [done|]. by right.
  - intros _ e1 Hh1 _. left. exists e'. rewrite (holds_fun _ _ _ _ Hh1 Hh). split; [|done]. apply Hw'; [done|]. by left.
  - done.
  - rewrite (ad_reap _ _ _ _ _ Had), (grown_reap _ _ Hg). done.
Qed.

(** The same for a grant: then the source goes away, alone or with the object. *)
Lemma grant_turn_eff attribs bias fresh L r K p q e e' w w1 wA w' m : obj_inv bias fresh L w1 -> roots w1 !! r = Some m ->
  slot_ok p -> slot_ok q -> p <> q -> holds w p e -> map_root (obj e) = r -> copy attribs e e' ->
  (forall e, ~ holds w q e) -> grown w w1 -> added r q e' w1 wA -> removed r K wA w' -> p ∈ K -> K = [p] \/ K = q :: _root m ->
  turn_eff attribs true true p q w w'.
Proof.
  intros Hi Hm Hp Hq Hpq Hh Hre Hcopy Hfree Hg Had Hrm HpK HK.
  assert (forall s e1, slot_ok s -> holds w' s e1 <-> ((s = q /\ e1 = e') \/ s <> q /\ holds w s e1) /\ s ∉ K) as Hw'.
  { intros s e1 Hs. rewrite (removed_holds r K wA w' s e1 Hs Hrm), (added_holds r q e' w1 wA s e1 Hs Had).
    by rewrite (grown_holds w w1) by done. }
  assert (K <> [p] -> r ∈ reap w') as Hdead.
  { intros Hne. destruct HK as [| ->]; [done|].
    destruct (ad_roots _ _ _ _ _ Had) as (m1 & m1' & Hm1 & Hl & Hr & _). assert (m1 = m) as -> by congruence.
    apply (removed_all r (q :: _root m) wA w' m1'); [by rewrite Hr, lookup_insert_eq | done | done]. }
  assert (forall s e1, slot_ok s -> holds w s e1 -> s <> q -> s <> p -> s ∈ K -> dead w' e1) as Hkill.
  { intros s e1 Hs Hs1 Hsq Hsp HsK. destruct HK as [->|HK]; [by apply list_elem_of_singleton in HsK|].
    unfold dead. rewrite HK in HsK. apply elem_of_cons in HsK as [|HsK]; [done|].
    destruct (inv_root _ _ _ _ Hi _ _ _ Hm HsK) as (_ & e2 & Hh2 & Hr2).
    assert (holds w1 s e1) as Hh1 by by apply (grown_holds w w1). rewrite (holds_fun _ _ _ _ Hh1 Hh2), Hr2. apply Hdead.
    rewrite HK. intros [= -> E]. done. }
  split.
  - intros s e1 Hs [[[-> ->]|[_ ?]] _]%Hw'; [|by left|done]. right. split; [done|]. by exists e.
  - intros s e1 Hs Hs1 Hne Hnp. destruct (decide (s ∈ K)); [right | left].
    + apply (Hkill s); try done. intros ->. by apply Hnp.
    + apply Hw'; [done|]. split; [|done]. by right.
  - intros _ e1 Hh1 _. rewrite (holds_fun _ _ _ _ Hh1 Hh). destruct HK as [->|HK].
    + left. exists e'. split; [|done]. apply Hw'; [done|]. split; [by left|]. by intros ?%list_elem_of_singleton.
    + right. unfold dead. rewrite Hre. apply Hdead. rewrite HK. by intros [= ? _].
  - intros _ _ e1 e2 _ _ [_ []]%Hw'; done.
  - destruct (rm_roots _ _ _ _ Hrm) as (mA & m' & _ & _ & _ & _ & _ & ->).
    rewrite (ad_reap _ _ _ _ _ Had), (grown_reap _ _ Hg). by eexists.
Qed.

(** * The code of one turn *)

Lemma holds_root bias fresh L w p e : obj_inv bias fresh L w -> slot_ok p -> holds w p e ->
  exists m, roots w !! map_root (obj e) = Some m /\ p ∈ _root m /\ map_root (obj e) ∉ reap w.
Proof.
  intros Hi Hp Hh. destruct (inv_cap _ _ _ _ Hi _ _ Hp Hh) as (m & Hm & Hpm). exists m. split_and!; [done..|].
  intros Hre. destruct (inv_reap _ _ _ _ Hi _ Hre) as (n & Hn & E). assert (n = m) as -> by congruence.
  rewrite E in Hpm. by apply not_elem_of_nil in Hpm.
Qed.

Lemma holds_kobj bias fresh L w p e : obj_inv bias fresh L w -> slot_ok p -> holds w p e -> kobj (obj e).
Proof. intros Hi Hp [Hc Hv]. by apply (inv_entry _ _ _ _ Hi p e Hp Hc). Qed.

Lemma insert_page_ok bias fresh L attribs grant p q e w : obj_inv bias fresh L w -> slot_ok p -> slot_ok q -> p <> q ->
  holds w p e -> map_root (obj e) ∈ L -> (forall e', ~ holds w q e') -> mappable attribs e = true ->
  exists (failed : bool) w', insert_page p.1 q.1 p.2 0 q.2 0 grant (obj e) (sent attribs e).2 (sent attribs e).1
                      (mkFrame (Some (map_root (obj e))) p) w = Done (failed, w')
    /\ obj_inv bias fresh L w' /\ turn_eff attribs grant (negb failed) p q w w'.
Proof.
  intros Hi Hp Hq Hpq Hh HL Hfree Hmap. pose proof (holds_kobj _ _ _ _ _ _ Hi Hp Hh) as Hko.
  set (r := map_root (obj e)) in *. set (o := (sent attribs e).2). set (a := (sent attribs e).1).
  unfold insert_page. cbn [v_insert obj_space].
  destruct (v_insert_ok o q a w (inv_tables _ _ _ _ Hi) Hq Hfree) as (w1 & Hg & Hins).
  pose proof (grown_inv _ _ _ _ _ Hi Hg) as Hi1.
  destruct Hins as [->|(e0 & Hc & ->)]; cbn [obind].
  { exists true, w1. split_and!; [done | done|]. by apply grown_turn_eff. }
  assert (holds w1 p e) as Hh1 by by apply (grown_holds w w1).
  assert (forall e', ~ holds w1 q e') as Hfree1 by (intros e' Hx; apply (grown_holds w w1) in Hx; [by apply (Hfree e') | done..]).
  destruct (holds_root _ _ _ _ _ _ Hi1 Hp Hh1) as (m & Hm & Hpm & Hre). fold r in Hm, Hre.
  assert (map_root o = r) as Hro by apply sent_root. assert (kobj o) as Hok by by apply sent_kobj.
  assert (copy attribs e (set e0 o a)) as Hcopy by by apply copy_set.
  destruct grant; cbn [mapdb_grant mapdb_insert kobject_mapdb v_delete obj_space free_object page_address].
  - destruct (grant_ok bias fresh L o q a e0 p e w1 m r (obj e)) as (wA & w2 & w3 & K & Had & -> & Hdel & Hrm & HpK & HK); try done.
    { rewrite (inv_lock _ _ _ _ Hi1 _ _ Hm). by apply bool_decide_true. }
    { rewrite ref_counted_set, <- ref_counted_rights. unfold a. rewrite sent_attr, Z.land_spec. by intros [? _]%andb_true_iff. }
    cbn [obind]. rewrite Hdel. cbn [obind]. eexists false, _. split_and!; [done | |].
    + apply (removed_inv _ _ _ r K wA); [|by intros ->; apply not_elem_of_nil in HpK | done].
      by apply (added_inv _ _ _ r q (set e0 o a) w1).
    + cbn [negb]. eapply grant_turn_eff; eauto.
  - rewrite to_size_0, (kmdb_insert_ok _ o q a e0 w1 m r) by done. cbn [obind].
    pose proof (insert_added o q a e0 w1 m r Hro Hok Hq Hc Hm) as Had.
    eexists false, _. split_and!; [done | |].
    + by eapply (added_inv _ _ _ r q (set e0 o a) w1).
    + cbn [negb]. by eapply insert_turn_eff.
Qed.

(** The receiver's capability is flushed. *)
Lemma full_mask : nonzero (L4_map_mask.self_unmap L4_map_mask.full) = true /\ nonzero (L4_map_mask.do_delete L4_map_mask.full) = true.
Proof. done. Qed.

Lemma unmap_dst_ok bias fresh L q e m sf w : obj_inv bias fresh L w -> slot_ok q -> holds w q e ->
  map_root (obj e) ∈ L -> roots w !! map_root (obj e) = Some m ->
  exists w2, unmap_dst q.1 q.2 0 (obj e) (mkFrame (Some (map_root (obj e))) q) sf w
             = Done (if bool_decide (Some (map_root (obj e)) = frame sf) then w2 else set_lock (map_root (obj e)) false w2)
    /\ removed (map_root (obj e)) (victims L4_map_mask.full q e m) w w2.
Proof.
  intros Hi Hq Hh HL Hm. unfold unmap_dst.
  cbn [page_address v_delete obj_space flush_mappings mapdb_flush kobject_mapdb free_object same_lock frame_clear].
  rewrite (v_delete_ok q w e) by done. cbn [obind]. change (is_full L4_fpage.Rights.FULL) with true.
  destruct (flush_ok bias fresh L w q e m (obj e) L4_map_mask.full q.2 (madd q.2 (to_size 0))) as (w2 & -> & Hrm); try done.
  { rewrite (inv_lock _ _ _ _ Hi _ _ Hm). by apply bool_decide_true. }
  cbn [obind frame]. eexists. split; [|exact Hrm]. done.
Qed.

(** A turn that first flushes the receiver's slot. *)
Lemma flush_turn_eff attribs grant ok r K p q e w w1 w' : slot_ok p -> removed r K w w1 -> keeps (.= q) w w1 ->
  holds w p e -> holds w1 p e -> turn_eff attribs grant ok p q w1 w' -> turn_eff attribs grant ok p q w w'.
Proof.
  intros Hp Hrm Hk Hh Hh1 [Hnew Hkeep Hdone Hmoved Hre].
  pose proof (removed_reap _ _ _ _ Hrm) as Hpre.
  split.
  - intros s e1 Hs Hs1. destruct (Hnew s e1 Hs Hs1) as [Hw|(-> & e2 & H2 & Hc)].
    + left. by apply (removed_holds r K w w1) in Hw as [? _].
    + right. split; [done|]. exists e2. by apply (removed_holds r K w w1) in H2 as [? _].
  - intros s e1 Hs Hs1 Hne Hnp. destruct (Hk s e1 Hs Hs1 Hne) as [H1|H1]; [by apply Hkeep|]. right. by eapply elem_of_prefix.
  - intros Hok e1 H1 Hm. apply Hdone; [done | | done]. by rewrite (holds_fun _ _ _ _ H1 Hh).
  - intros Hok Hg e1 e2 H1. rewrite (holds_fun _ _ _ _ H1 Hh). by apply Hmoved.
  - by trans (reap w1).
Qed.

(** Worlds that differ in locks only. *)
Definition same_view w w' : Prop := (forall s e, holds w' s e <-> holds w s e) /\ reap w' = reap w.

Lemma set_lock_view r b w : same_view w (set_lock r b w).
Proof. split; [intros; apply holds_set_lock | apply set_lock_frame]. Qed.

Lemma view_trans w1 w2 w3 : same_view w1 w2 -> same_view w2 w3 -> same_view w1 w3.
Proof. intros [h1 r1] [h2 r2]. split; [intros s e; by rewrite h2, h1 | congruence]. Qed.

Lemma turn_eff_view attribs grant ok p q w0 w w' w1 : same_view w0 w -> same_view w' w1 ->
  turn_eff attribs grant ok p q w w' -> turn_eff attribs grant ok p q w0 w1.
Proof.
  intros [Hh Hr] [Hh' Hr'] [Hnew Hkeep Hdone Hmoved Hre]. setoid_rewrite Hh in Hnew. setoid_rewrite Hh in Hkeep.
  setoid_rewrite Hh in Hdone. setoid_rewrite Hh in Hmoved.
  split; unfold dead; rewrite ?Hr', <- ?Hr; try setoid_rewrite Hh'; done.
Qed.

(** Both capabilities refer to one object, which is locked once. *)
Lemma lookup_same_ok bias fresh w p q e ed : obj_inv bias fresh ∅ w -> slot_ok p -> slot_ok q -> holds w p e -> holds w q ed ->
  map_root (obj ed) = map_root (obj e) ->
  kmdb_lookup_src_dst p.1 (obj e) p.2 q.1 (obj ed) q.2 w
  = Done (if delete_rights ed then 2 else 1, if delete_rights ed then mkFrame None (0, 0) else mkFrame (Some (map_root (obj e))) p,
          mkFrame (Some (map_root (obj ed))) q, set_lock (map_root (obj e)) true w).
Proof.
  intros Hi Hp Hq Hh Hd Hr. unfold kmdb_lookup_src_dst. rewrite Hr, Z.eqb_refl.
  destruct (lock_ok _ _ _ _ p e Hi Hp Hh) as (m & _ & _ & _ & ->); [set_solver|]. cbn [obind].
  rewrite bool_decide_true by done. cbn [negb]. rewrite <- !surjective_pairing.
  change (get_cap q.1 q.2 ?x) with (cap q x). rewrite cap_set_lock. destruct Hd as [-> _]. cbn [andb]. by destruct (delete_rights ed).
Qed.

(** Two objects are locked, in the order of their addresses. *)
Lemma lookup_diff_ok bias fresh w p q e ed : obj_inv bias fresh ∅ w -> slot_ok p -> slot_ok q -> holds w p e -> holds w q ed ->
  map_root (obj ed) <> map_root (obj e) ->
  exists w', kmdb_lookup_src_dst p.1 (obj e) p.2 q.1 (obj ed) q.2 w
             = Done (1, mkFrame (Some (map_root (obj e))) p, mkFrame (Some (map_root (obj ed))) q, w')
    /\ obj_inv bias fresh ({[map_root (obj e)]} ∪ ({[map_root (obj ed)]} ∪ ∅)) w' /\ same_view w w'.
Proof.
  intros Hi Hp Hq Hh Hd Hr. unfold kmdb_lookup_src_dst. rewrite (proj2 (Z.eqb_neq _ _) Hr).
  assert (forall s1 s2 e1 e2, slot_ok s1 -> slot_ok s2 -> holds w s1 e1 -> holds w s2 e2 -> map_root (obj e1) <> map_root (obj e2) ->
    lock_safely s1.1 s1.2 (obj e1) w = Done (Some (map_root (obj e1)), set_lock (map_root (obj e1)) true w)
    /\ lock_safely s2.1 s2.2 (obj e2) (set_lock (map_root (obj e1)) true w)
       = Done (Some (map_root (obj e2)), set_lock (map_root (obj e2)) true (set_lock (map_root (obj e1)) true w))
    /\ obj_inv bias fresh ({[map_root (obj e2)]} ∪ ({[map_root (obj e1)]} ∪ ∅)) (set_lock (map_root (obj e2)) true (set_lock (map_root (obj e1)) true w))) as Hboth.
  { intros s1 s2 e1 e2 H1 H2 Hh1 Hh2 Hne.
    destruct (lock_ok _ _ _ _ s1 e1 Hi H1 Hh1) as (m1 & _ & _ & _ & ->); [set_solver|].
    pose proof (set_lock_inv _ _ _ (map_root (obj e1)) true _ Hi) as Hi1. cbn in Hi1.
    destruct (lock_ok _ _ _ _ s2 e2 Hi1 H2) as (m2 & _ & _ & _ & ->); [by apply holds_set_lock | set_solver|].
    split_and!; [done | done|]. by apply (set_lock_inv _ _ _ (map_root (obj e2)) true _ Hi1). }
  assert (forall r1 r2, same_view w (set_lock r2 true (set_lock r1 true w))) as Hview.
  { intros r1 r2. eapply view_trans; apply set_lock_view. }
  assert (forall r1 r2, cap q (set_lock r2 true (set_lock r1 true w)) = Some ed) as Hcq.
  { intros r1 r2. rewrite !cap_set_lock. apply Hd. }
  unfold lock2_safely. destruct (obj ed <? obj e).
  - destruct (Hboth p q e ed) as (-> & H2 & Hi2); try done. cbn [obind]. rewrite H2. cbn [obind negb]. rewrite <- !surjective_pairing.
    change (get_cap q.1 q.2 ?x) with (cap q x). rewrite Hcq. cbn [andb]. eexists. split_and!; [done | | apply Hview].
    revert Hi2. by rewrite (union_comm_L {[map_root (obj ed)]}), <- union_assoc_L, (union_comm_L ∅).
  - destruct (Hboth q p ed e) as (-> & H2 & Hi2); try done. cbn [obind]. rewrite H2. cbn [obind negb]. rewrite <- !surjective_pairing.
    change (get_cap q.1 q.2 ?x) with (cap q x). rewrite Hcq. cbn [andb]. eexists. split_and!; [done | done | apply Hview].
Qed.

Lemma obj_inv_locks bias fresh L L' w : obj_inv bias fresh L w -> L = L' -> obj_inv bias fresh L' w.
Proof. by intros ? <-. Qed.

(** The end of a turn, with the source's object locked and the receiver's slot free. *)
Lemma go_ok bias fresh attribs grant p q e size w : obj_inv bias fresh ({[map_root (obj e)]} ∪ ∅) w -> slot_ok p -> slot_ok q -> p <> q ->
  holds w p e -> (forall e', ~ holds w q e') -> mappable attribs e = true ->
  exists (failed : bool) w',
    (let* (failed, s) := insert_page p.1 q.1 p.2 0 q.2 0 grant (obj e) (sent attribs e).2 (sent attribs e).1
                           (mkFrame (Some (map_root (obj e))) p) w in
     let s := frame_clear (mkFrame (Some (map_root (obj e))) p) s in
     Done (if failed then Stop false true s else Next false grant size s))
    = Done (if failed then Stop false true w' else Next false grant size w')
    /\ obj_inv bias fresh ∅ w' /\ turn_eff attribs grant (negb failed) p q w w'.
Proof.
  intros Hi Hp Hq Hpq Hh Hfree Hmap.
  destruct (insert_page_ok _ _ _ attribs grant p q e w Hi Hp Hq Hpq Hh) as (failed & w1 & -> & Hi1 & Heff); [set_solver | done | done|].
  cbn [obind frame_clear kobject_mapdb]. unfold kmdb_clear. cbn [frame].
  exists failed, (set_lock (map_root (obj e)) false w1). split_and!; [by destruct failed | |].
  - apply (set_lock_inv _ _ _ (map_root (obj e)) false) in Hi1. eapply obj_inv_locks; [exact Hi1 | set_solver].
  - eapply turn_eff_view; [by split | apply set_lock_view | exact Heff].
Qed.

(** Mapping over a capability of the same object: the object must survive the
    flush, or be deleted by right. *)
Definition pair_safe w p q : Prop :=
  forall e ed, holds w p e -> holds w q ed -> map_root (obj ed) = map_root (obj e) ->
    delete_rights ed = true \/ is_ref_counted ed = false.

Lemma removed_survivor r K w w1 p q e : slot_ok p -> slot_ok q -> holds w p e -> removed r K w w1 -> p ∉ K -> q ∈ K ->
  holds w1 p e /\ forall e', ~ holds w1 q e'.
Proof.
  intros Hp Hq Hh Hrm HpK HqK. split; [by apply (removed_holds r K w w1)|].
  intros e' Hx. by apply (removed_holds r K w w1) in Hx as [_ []].
Qed.

Lemma victims_own bias fresh L mask w q ed m p e : obj_inv bias fresh L w -> slot_ok q -> holds w q ed -> holds w p e ->
  roots w !! map_root (obj ed) = Some m -> p ∈ victims mask q ed m -> map_root (obj e) = map_root (obj ed).
Proof.
  intros Hi Hq Hd Hh Hm Hv. assert (p ∈ _root m) as Hpm.
  { unfold victims in Hv. destruct (_ || _); [done|]. apply list_elem_of_singleton in Hv as ->.
    destruct (inv_cap _ _ _ _ Hi _ _ Hq Hd) as (n & Hn & ?). by assert (n = m) as <- by congruence. }
  destruct (inv_root _ _ _ _ Hi _ _ _ Hm Hpm) as (_ & e1 & H1 & <-). by rewrite (holds_fun _ _ _ _ Hh H1).
Qed.

Lemma dead_turn_eff attribs grant r K p q ok w w1 : slot_ok p -> slot_ok q -> removed r K w w1 -> keeps (.= q) w w1 -> p ∈ K ->
  (forall e, holds w p e -> dead w1 e) -> turn_eff attribs grant ok p q w w1.
Proof.
  intros Hp Hq Hrm Hk HpK Hdead. split.
  - intros s e1 Hs Hs1. left. by apply (removed_holds r K w w1) in Hs1 as [? _].
  - intros s e1 Hs Hs1 Hne _. by apply Hk.
  - intros _ e1 Hh _. right. by apply Hdead.
  - intros _ _ e1 e2 _ _ Hx. by apply (removed_holds r K w w1) in Hx as [_ []].
  - by eapply removed_reap.
Qed.

(** ** The turn with a capability of another object in the way *)
Lemma over_diff_ok bias fresh attribs grant p q e ed size w : obj_inv bias fresh ∅ w -> slot_ok p -> slot_ok q -> p <> q ->
  holds w p e -> holds w q ed -> map_root (obj ed) <> map_root (obj e) -> mappable attribs e = true ->
  exists (failed : bool) w' w1 w2, kmdb_lookup_src_dst p.1 (obj e) p.2 q.1 (obj ed) q.2 w
             = Done (1, mkFrame (Some (map_root (obj e))) p, mkFrame (Some (map_root (obj ed))) q, w1)
    /\ unmap_dst q.1 q.2 0 (obj ed) (mkFrame (Some (map_root (obj ed))) q) (mkFrame (Some (map_root (obj e))) p) w1 = Done w2
    /\ (let* (failed, s) := insert_page p.1 q.1 p.2 0 q.2 0 grant (obj e) (sent attribs e).2 (sent attribs e).1
                           (mkFrame (Some (map_root (obj e))) p) w2 in
        let s := frame_clear (mkFrame (Some (map_root (obj e))) p) s in
        Done (if failed then Stop false true s else Next false grant size s))
       = Done (if failed then Stop false true w' else Next false grant size w')
    /\ obj_inv bias fresh ∅ w' /\ turn_eff attribs grant (negb failed) p q w w'.
Proof.
  intros Hi Hp Hq Hpq Hh Hd Hne Hmap.
  destruct (lookup_diff_ok _ _ w p q e ed Hi Hp Hq Hh Hd Hne) as (w1 & Hlk & Hi1 & Hv).
  assert (holds w1 p e /\ holds w1 q ed) as [Hh1 Hd1] by by split; apply Hv.
  destruct (holds_root _ _ _ _ _ _ Hi1 Hq Hd1) as (m & Hm & Hqm & _).
  destruct (unmap_dst_ok _ _ _ q ed m (mkFrame (Some (map_root (obj e))) p) w1 Hi1 Hq Hd1) as (w2 & Hun & Hrm); [set_solver | done|].
  rewrite bool_decide_false in Hun by (cbn; congruence). set (rd := map_root (obj ed)) in *. set (K := victims _ _ _ _) in *.
  assert (q ∈ K) as HqK by by apply victims_self.
  assert (p ∉ K) as HpK by (intros HpK; by apply Hne, eq_sym, (victims_own _ _ _ L4_map_mask.full w1 q ed m p e Hi1)).
  destruct (removed_survivor rd K w1 w2 p q e) as [Hh2 Hfree]; try done.
  assert (obj_inv bias fresh ({[map_root (obj e)]} ∪ ∅) (set_lock rd false w2)) as Hi2.
  { assert (obj_inv bias fresh ({[map_root (obj e)]} ∪ ({[rd]} ∪ ∅)) w2) as Hi2
      by (apply (removed_inv _ _ _ rd K w1); [done | intros E; rewrite E in HqK; by apply not_elem_of_nil in HqK | done]).
    apply (set_lock_inv _ _ _ rd false) in Hi2. eapply obj_inv_locks; [exact Hi2 | set_solver]. }
  destruct (go_ok bias fresh attribs grant p q e size (set_lock rd false w2) Hi2 Hp Hq Hpq) as (failed & w' & Hgo & Hi' & Heff);
    [by apply holds_set_lock | intros e' Hx; rewrite holds_set_lock in Hx; by apply (Hfree e') | done|].
  exists failed, w', w1, (set_lock rd false w2). split_and!; [done.. |].
  assert (turn_eff attribs grant (negb failed) p q w1 w') as Heff1.
  { apply (flush_turn_eff _ _ _ rd K p q e w1 w2); try done; [by eapply (removed_keeps _ _ _ L4_map_mask.full q ed m)|].
    eapply turn_eff_view; [apply set_lock_view | by split | exact Heff]. }
  eapply turn_eff_view; [exact Hv | by split | done].
Qed.

(** ** The turn with a weak capability of the same object in the way *)
Lemma over_same_ok bias fresh attribs grant p q e ed size w : obj_inv bias fresh ∅ w -> slot_ok p -> slot_ok q -> p <> q ->
  holds w p e -> holds w q ed -> map_root (obj ed) = map_root (obj e) -> delete_rights ed = false -> is_ref_counted ed = false ->
  mappable attribs e = true ->
  exists (failed : bool) w' w2,
    unmap_dst q.1 q.2 0 (obj ed) (mkFrame (Some (map_root (obj ed))) q) (mkFrame (Some (map_root (obj e))) p)
      (set_lock (map_root (obj e)) true w) = Done w2
    /\ (let* (failed, s) := insert_page p.1 q.1 p.2 0 q.2 0 grant (obj e) (sent attribs e).2 (sent attribs e).1
                           (mkFrame (Some (map_root (obj e))) p) w2 in
        let s := frame_clear (mkFrame (Some (map_root (obj e))) p) s in
        Done (if failed then Stop false true s else Next false grant size s))
       = Done (if failed then Stop false true w' else Next false grant size w')
    /\ obj_inv bias fresh ∅ w' /\ turn_eff attribs grant (negb failed) p q w w'.
Proof.
  intros Hi Hp Hq Hpq Hh Hd Hr Hdel Hcnt Hmap. set (r := map_root (obj e)) in *. set (w1 := set_lock r true w).
  pose proof (set_lock_inv _ _ _ r true _ Hi) as Hi1. fold w1 in Hi1. cbn in Hi1.
  assert (holds w1 p e /\ holds w1 q ed) as [Hh1 Hd1] by by split; apply holds_set_lock.
  destruct (holds_root _ _ _ _ _ _ Hi1 Hq Hd1) as (m & Hm & Hqm & _).
  destruct (unmap_dst_ok _ _ _ q ed m (mkFrame (Some r) p) w1 Hi1 Hq Hd1) as (w2 & Hun & Hrm); [rewrite Hr; set_solver | done|].
  rewrite bool_decide_true in Hun by (cbn; congruence). unfold victims in Hrm. rewrite Hdel, Hcnt, andb_false_r in Hrm. cbn [orb andb] in Hrm.
  destruct (removed_survivor (map_root (obj ed)) [q] w1 w2 p q e) as [Hh2 Hfree]; try done;
    [by intros ?%list_elem_of_singleton | by left|].
  assert (obj_inv bias fresh ({[r]} ∪ ∅) w2) as Hi2 by by apply (removed_inv _ _ _ (map_root (obj ed)) [q] w1).
  destruct (go_ok bias fresh attribs grant p q e size w2 Hi2 Hp Hq Hpq Hh2 Hfree Hmap) as (failed & w' & Hgo & Hi' & Heff).
  exists failed, w', w2. split_and!; [done.. |].
  eapply turn_eff_view; [apply (set_lock_view r true) | by split |]. fold w1.
  apply (flush_turn_eff _ _ _ (map_root (obj ed)) [q] p q e w1 w2); try done.
  intros s e1 Hs Hs1 Hsq. left. apply (removed_holds (map_root (obj ed)) [q] w1 w2); [done | done|]. split; [done|].
  by intros ?%list_elem_of_singleton.
Qed.

(** ** The turn with a capability in the way that has the delete right *)
Lemma over_delete_ok bias fresh attribs grant ok p q e ed w : obj_inv bias fresh ∅ w -> slot_ok p -> slot_ok q ->
  holds w p e -> holds w q ed -> map_root (obj ed) = map_root (obj e) -> delete_rights ed = true ->
  exists w', unmap_dst q.1 q.2 0 (obj ed) (mkFrame (Some (map_root (obj ed))) q) (mkFrame None (0, 0))
      (set_lock (map_root (obj e)) true w) = Done w'
    /\ obj_inv bias fresh ∅ w' /\ turn_eff attribs grant ok p q w w'.
Proof.
  intros Hi Hp Hq Hh Hd Hr Hdel. set (r := map_root (obj e)) in *. set (w1 := set_lock r true w).
  pose proof (set_lock_inv _ _ _ r true _ Hi) as Hi1. fold w1 in Hi1. cbn in Hi1.
  assert (holds w1 p e /\ holds w1 q ed) as [Hh1 Hd1] by by split; apply holds_set_lock.
  destruct (holds_root _ _ _ _ _ _ Hi1 Hq Hd1) as (m & Hm & Hqm & _).
  destruct (holds_root _ _ _ _ _ _ Hi1 Hp Hh1) as (m2 & Hm2 & Hpm & _). fold r in Hm2. assert (m2 = m) as -> by congruence.
  destruct (unmap_dst_ok _ _ _ q ed m (mkFrame None (0, 0)) w1 Hi1 Hq Hd1) as (w2 & -> & Hrm); [rewrite Hr; set_solver | done|].
  rewrite bool_decide_false by done. exists (set_lock (map_root (obj ed)) false w2).
  pose proof (removed_keeps _ _ _ L4_map_mask.full q ed m w1 w2 Hi1 Hd1 Hq Hm Hrm) as Hk.
  unfold victims in Hrm. rewrite Hdel in Hrm. change (_ && true || _) with true in Hrm. cbn iota in Hrm.
  split_and!; [done | |].
  - assert (obj_inv bias fresh ({[r]} ∪ ∅) w2) as Hi2.
    { apply (removed_inv _ _ _ (map_root (obj ed)) (_root m) w1); [done | | done]. intros E. rewrite E in Hqm. by apply not_elem_of_nil in Hqm. }
    apply (set_lock_inv _ _ _ r false) in Hi2. rewrite Hr. eapply obj_inv_locks; [exact Hi2 | set_solver].
  - eapply turn_eff_view; [apply (set_lock_view r true) | apply set_lock_view |]. fold w1.
    apply (dead_turn_eff _ _ (map_root (obj ed)) (_root m)); try done.
    intros e1 He1. unfold dead. rewrite (holds_fun _ _ _ _ He1 Hh1). fold r. rewrite <- Hr.
    by apply (removed_all _ (_root m) w1 w2 m).
Qed.

(** ** A whole turn *)

Lemma fit_order_0 fuel to r_order snd_addr snd_size rcv_addr rcv_end grant : (1 <= fuel)%nat -> 1 <= snd_size -> 0 <= r_order ->
  idx_ok snd_addr -> idx_ok rcv_addr -> rcv_addr + 1 <= rcv_end ->
  fit_order (SP := obj_space (A := A)) fuel to 0 r_order snd_addr snd_size rcv_addr rcv_end grant = Done (0, grant).
Proof.
  intros Hf Hs Hr Ha Hb He. destruct fuel as [|fuel]; [lia|]. cbn [fit_order]. rewrite to_size_0, madd_idx by (done || pose proof obj_sizes; lia).
  cbn [subpage_offset obj_space]. assert (forall i, idx_ok i -> get_lsb i 0 = 0) as Hl.
  { intros i [? _]. rewrite lsb_mod by (pose proof arch_pos; lia). apply Z.mod_1_r. }
  rewrite !Hl by done. cbn [Z.eqb negb orb].
  by rewrite (proj2 (Z.ltb_ge _ _) Hs), (proj2 (Z.ltb_ge _ _) Hr), (proj2 (Z.ltb_ge _ _) He).
Qed.

Lemma map_lookup_src_ok attribs p e w : holds w p e ->
  map_lookup_src p.1 p.2 attribs w = (0, if mappable attribs e then Some (obj e, (sent attribs e).2, (sent attribs e).1) else None).
Proof.
  intros [Hc Hv]. unfold map_lookup_src. cbn [v_fabricate obj_space]. rewrite obj_v_lookup_cap, <- surjective_pairing, Hc, Hv.
  cbn [subpage_address attr_apply attr_empty obj_space]. unfold mappable, sent. destruct (obj_apply_attribs _ _ _) as [a o]. cbn.
  by destruct (empty a).
Qed.

(** Nothing is in the way. *)
Lemma free_turn_ok bias fresh attribs grant p q e w : obj_inv bias fresh ∅ w -> slot_ok p -> slot_ok q -> p <> q ->
  holds w p e -> mappable attribs e = true -> (forall ed, ~ holds w q ed) ->
  exists (failed : bool) w',
    (let* (frame, s) := kmdb_lookup p.1 p.2 (obj e) w in
     match frame with
     | None => Done (Next false grant 1 s)
     | Some sender_frame =>
        let* (failed, s) := insert_page p.1 q.1 p.2 0 q.2 0 grant (obj e) (sent attribs e).2 (sent attribs e).1 sender_frame s in
        let s := frame_clear sender_frame s in
        Done (if failed then Stop false true s else Next false grant 1 s)
     end) = Done (if failed then Stop false true w' else Next false grant 1 w')
    /\ obj_inv bias fresh ∅ w' /\ turn_eff attribs grant (negb failed) p q w w'.
Proof.
  intros Hi Hp Hq Hpq Hh Hmap Hfree. unfold kmdb_lookup.
  destruct (lock_ok _ _ _ _ p e Hi Hp Hh) as (m & _ & _ & _ & ->); [set_solver|]. cbn [obind fmap option_fmap option_map].
  rewrite <- surjective_pairing. pose proof (set_lock_inv _ _ _ (map_root (obj e)) true _ Hi) as Hi1. cbn in Hi1.
  destruct (go_ok bias fresh attribs grant p q e 1 _ Hi1 Hp Hq Hpq) as (failed & w' & Hgo & Hi' & Heff);
    [by apply holds_set_lock | intros ed; rewrite holds_set_lock; apply Hfree | done|].
  exists failed, w'. split_and!; [exact Hgo | done|]. eapply turn_eff_view; [apply set_lock_view | by split | exact Heff].
Qed.

Lemma map_turn_ok bias fresh attribs grant p q e n rcv_end np w : obj_inv bias fresh ∅ w -> slot_ok p -> slot_ok q -> p <> q ->
  1 <= n -> q.2 + 1 <= rcv_end -> pair_safe w p q -> holds w p e -> mappable attribs e = true ->
  exists (failed : bool) w', map_turn p.1 q.1 p.2 n q.2 rcv_end grant attribs np w
    = Done (if failed then Stop false true w' else Next false grant 1 w')
    /\ obj_inv bias fresh ∅ w' /\ turn_eff attribs grant (negb failed) p q w w'.
Proof.
  intros Hi Hp Hq Hpq Hn He Hsafe Hh Hmap. pose proof (holds_kobj _ _ _ _ _ _ Hi Hp Hh) as Hko.
  unfold map_turn. rewrite (map_lookup_src_ok _ _ e) by done. rewrite Hmap.
  cbn [v_lookup obj_space fitting_size]. rewrite obj_v_lookup_cap, <- surjective_pairing.
  assert (Caps_per_page_ld2 <=? 0 = false) as -> by (apply Z.leb_gt; pose proof obj_sizes; lia).
  assert (0 <= Caps_per_page_ld2) by (pose proof obj_sizes; lia).
  assert (forall r_order, 0 <= r_order -> fit_order (SP := obj_space (A := A)) (S (Z.to_nat MWORD_BITS)) q.1 0 r_order p.2 n q.2 rcv_end grant = Done (0, grant)) as Hfit
    by (intros; apply fit_order_0; done || lia).
  assert (negb (@valid_address _ _ _ (kobject_mapdb (A := A)) (obj e)) = false) as Hva.
  { cbn. rewrite negb_involutive. apply Z.eqb_neq. by destruct Hko as (_ & _ & ?). }
  destruct (cap q w) as [ed|] eqn:Hcq; [destruct (valid ed) eqn:Hvd|].
  - assert (holds w q ed) as Hd by done. rewrite Hfit by lia. cbn [obind]. rewrite to_size_0, Hva.
    cbn [lookup_src_dst kobject_mapdb page_address obj_space].
    destruct (decide (map_root (obj ed) = map_root (obj e))) as [Hr|Hr].
    + rewrite (lookup_same_ok bias fresh) by done. cbn [obind]. destruct (delete_rights ed) eqn:Hdel; cbn [Z.ltb Z.compare orb Z.eqb].
      * destruct (over_delete_ok bias fresh attribs grant true p q e ed w) as (w' & -> & Hi' & Heff); try done.
        exists false, w'. done.
      * destruct (Hsafe e ed Hh Hd Hr) as [|Hcnt]; [congruence|].
        destruct (over_same_ok bias fresh attribs grant p q e ed 1 w) as (failed & w' & w2 & -> & Hgo & Hi' & Heff); try done.
        exists failed, w'. done.
    + destruct (over_diff_ok bias fresh attribs grant p q e ed 1 w) as (failed & w' & w1 & w2 & -> & Hun & Hgo & Hi' & Heff); try done.
      cbn [obind Z.ltb Z.compare orb Z.eqb]. rewrite Hun. cbn [obind]. exists failed, w'. done.
  - rewrite Hfit by lia. cbn [obind]. rewrite to_size_0, Hva. cbn [mapdb_lookup kobject_mapdb page_address obj_space].
    apply free_turn_ok; [done..|]. intros ed' [? ?]. congruence.
  - rewrite Hfit by lia. cbn [obind]. rewrite to_size_0, Hva. cbn [mapdb_lookup kobject_mapdb page_address obj_space].
    apply free_turn_ok; [done..|]. intros ed' [? ?]. congruence.
Qed.

(** A turn that finds nothing to send. *)
Lemma map_turn_none attribs grant from to i n j rcv_end np w : tables_ok w -> idx_ok i ->
  (forall e, holds w (from, i) e -> mappable attribs e = false) ->
  exists size, map_turn from to i n j rcv_end grant attribs np w = Done (if n <=? size then Stop np false w else Next np grant size w)
    /\ 1 <= size <= Caps_per_page /\ forall k, i <= k < i + size -> idx_ok k -> k = i \/ cap (from, k) w = None.
Proof.
  intros Ht Hi Hno. assert (0 < Caps_per_page) as HC by (pose proof obj_sizes; lia).
  assert (get_lsb i 0 = 0) as Hl by (rewrite lsb_mod by (pose proof arch_pos; unfold idx_ok in *; lia); apply Z.mod_1_r).
  assert (msub 1 0 = 1) as Hms by (unfold msub, mwrap, wrap; destruct MWORD_BITS_ok as [-> | ->]; done).
  unfold map_turn. destruct (cap (from, i) w) as [e|] eqn:Hc; [destruct (valid e) eqn:Hv|].
  - rewrite (map_lookup_src_ok attribs (from, i) e) by done. rewrite Hno by done. cbn [subpage_offset obj_space fst snd].
    rewrite to_size_0, Hl, Hms. exists 1. split_and!; [done | lia | lia | intros; left; lia].
  - unfold map_lookup_src. cbn [v_fabricate obj_space]. rewrite obj_v_lookup_cap, Hc, Hv. cbn [subpage_offset obj_space].
    rewrite to_size_0, Hl, Hms. exists 1. split_and!; [done | lia | lia | intros; left; lia].
  - unfold map_lookup_src. cbn [v_fabricate obj_space]. rewrite obj_v_lookup_cap, Hc. cbn [subpage_offset obj_space].
    rewrite to_size_table, lsb_mod, <- Caps_per_page_eq by (pose proof obj_sizes; unfold idx_ok in *; lia).
    pose proof (Z.mod_pos_bound i _ HC). exists (Caps_per_page - i mod Caps_per_page).
    assert (msub Caps_per_page (i mod Caps_per_page) = Caps_per_page - i mod Caps_per_page) as ->.
    { apply wrap_small. unfold in_range. destruct obj_sizes as [(E1 & E2 & E3 & E4) | (E1 & E2 & E3 & E4)]; rewrite E2, E4 in *; cbn; lia. }
    split_and!; [done | lia | lia|]. intros k Hk Hkok. right. apply (same_table from i k w); try done.
    clear -Hk HC. Z.div_mod_to_equations. nia.
Qed.

(** * The effect of the whole operation *)

Record map_eff (attribs : Z) (grant ok : bool) from snd_addr to rcv_addr (a n : Z) w w' : Prop := {
  me_new : forall s e', slot_ok s -> holds w' s e' ->
    holds w s e' \/ exists k e, a <= k < n /\ s = (to, rcv_addr + k) /\ idx_ok (snd_addr + k) /\ holds w (from, snd_addr + k) e /\ copy attribs e e';
  me_keep : forall s e, slot_ok s -> holds w s e -> (forall k, a <= k < n -> s <> (to, rcv_addr + k)) ->
    (grant = true -> forall k, a <= k < n -> s <> (from, snd_addr + k)) -> holds w' s e \/ dead w' e;
  me_done : ok = true -> forall k e, a <= k < n -> idx_ok (snd_addr + k) -> idx_ok (rcv_addr + k) ->
    holds w (from, snd_addr + k) e -> mappable attribs e = true ->
    (exists e', holds w' (to, rcv_addr + k) e' /\ copy attribs e e') \/ dead w' e;
  me_moved : ok = true -> grant = true -> forall k e, a <= k < n -> idx_ok (snd_addr + k) -> idx_ok (rcv_addr + k) ->
    holds w (from, snd_addr + k) e -> mappable attribs e = true -> forall e', ~ holds w' (from, snd_addr + k) e';
  me_reap : reap w `prefix_of` reap w' }.

Lemma map_eff_refl attribs grant ok from snd_addr to rcv_addr a n w :
  (forall k e, a <= k < n -> idx_ok (snd_addr + k) -> idx_ok (rcv_addr + k) -> holds w (from, snd_addr + k) e -> mappable attribs e = false) ->
  map_eff attribs grant ok from snd_addr to rcv_addr a n w w.
Proof.
  intros Hno. split; [by left | by left | | |done].
  - intros _ k e Hk Hs Hr Hh Hm. rewrite (Hno k e) in Hm; done.
  - intros _ _ k e Hk Hs Hr Hh Hm. rewrite (Hno k e) in Hm; done.
Qed.

(** Sources that send nothing can be left out. *)
Lemma map_eff_skip attribs grant ok from snd_addr to rcv_addr a b n w w' : a <= b ->
  (forall k e, a <= k < b -> idx_ok (snd_addr + k) -> holds w (from, snd_addr + k) e -> mappable attribs e = false) ->
  map_eff attribs grant ok from snd_addr to rcv_addr b n w w' -> map_eff attribs grant ok from snd_addr to rcv_addr a n w w'.
Proof.
  intros Hab Hno [Hnew Hkeep Hdone Hmoved Hre].
  assert (forall k e, a <= k < n -> idx_ok (snd_addr + k) -> holds w (from, snd_addr + k) e -> mappable attribs e = true -> b <= k < n) as Hk.
  { intros k e Hk Hs Hh Hm. destruct (Z.lt_ge_cases k b); [|lia]. rewrite (Hno k e) in Hm; [done | lia | done | done]. }
  split; [| | | |done].
  - intros s e' Hs Hh. destruct (Hnew s e' Hs Hh) as [|(k & e & ? & ?)]; [by left|]. right. exists k, e. split; [lia | done].
  - intros s e Hs Hh H1 H2. apply Hkeep; [done | done | |]; intros; [apply H1; lia | apply H2; [done | lia]].
  - intros Hok k e H1 H2 H3 H4 H5. apply Hdone; eauto.
  - intros Hok Hg k e H1 H2 H3 H4 H5. eapply Hmoved; eauto.
Qed.

(** One turn, and the rest. *)
Lemma map_eff_turn attribs grant ok from snd_addr to rcv_addr a n w w1 w' :
  (forall k l, a <= k < n -> a <= l < n -> (from, snd_addr + k) <> (to, rcv_addr + l)) -> a < n ->
  idx_ok (snd_addr + a) -> idx_ok (rcv_addr + a) -> (forall s e, slot_ok s -> holds w1 s e -> ~ dead w1 e) ->
  turn_eff attribs grant true (from, snd_addr + a) (to, rcv_addr + a) w w1 ->
  map_eff attribs grant ok from snd_addr to rcv_addr (a + 1) n w1 w' -> map_eff attribs grant ok from snd_addr to rcv_addr a n w w'.
Proof.
  intros Hdis Han Hia Hja Halive [Tnew Tkeep Tdone Tmoved Tre] [Hnew Hkeep Hdone Hmoved Hre].
  assert (forall k, a <= k < n -> (from, snd_addr + k) <> (to, rcv_addr + a)) as Hdisa by (intros; apply Hdis; lia).
  assert (forall k e, a + 1 <= k < n -> idx_ok (snd_addr + k) -> holds w1 (from, snd_addr + k) e -> holds w (from, snd_addr + k) e) as Hback.
  { intros k e Hk Hs Hh. destruct (Tnew (from, snd_addr + k) e Hs Hh) as [|[E _]]; [done|]. exfalso. apply (Hdisa k); [lia | done]. }
  assert (forall e, dead w1 e -> dead w' e) as Hdead by (intros e ?; by eapply elem_of_prefix).
  split.
  - intros s e' Hs Hh. destruct (Hnew s e' Hs Hh) as [Hh1|(k & e & Hk & -> & Hsk & Hh1 & Hc)].
    + destruct (Tnew s e' Hs Hh1) as [|(-> & e & ? & ?)]; [by left|]. right. exists a, e. split_and!; [lia | lia | done..].
    + right. exists k, e. split_and!; [lia | lia | done | done | | done]. by apply Hback.
  - intros s e Hs Hh H1 H2. destruct (Tkeep s e Hs Hh) as [Hh1|]; [apply H1; lia | | | right; by apply Hdead].
    { intros [Hg ->]. by apply (H2 Hg a); [lia|]. }
    apply Hkeep; [done | done | |]; intros; [apply H1; lia | apply H2; [done | lia]].
  - intros Hok k e Hk Hs Hr Hh Hm. destruct (decide (k = a)) as [->|Hne].
    + destruct (Tdone eq_refl e Hh Hm) as [(e' & Hh' & Hc)|]; [|right; by apply Hdead].
      destruct (Hkeep (to, rcv_addr + a) e' Hja Hh') as [Hh2|Hd].
      * intros k Hk2 [= E]. lia.
      * intros _ k Hk2 E. apply (Hdisa k); [lia | done].
      * left. by exists e'.
      * right. unfold dead in *. destruct Hc as [Hc _]. by rewrite Hc, sent_root in Hd.
    + destruct (Tkeep (from, snd_addr + k) e Hs Hh) as [Hh1|]; [| | |right; by apply Hdead].
      * apply Hdisa. lia.
      * intros [_ [= E]]. lia.
      * apply Hdone; [done | lia | done..].
  - intros Hok Hg k e Hk Hs Hr Hh Hm e' Hh'.
    assert (holds w1 (from, snd_addr + k) e') as Hh1.
    { destruct (Hnew (from, snd_addr + k) e' Hs Hh') as [|(l & ? & Hl & E & _)]; [done|].
      exfalso. apply (Hdis k l); [lia | lia | done]. }
    destruct (decide (k = a)) as [->|Hne]; [by apply (Tmoved eq_refl Hg e e' Hh Hm)|].
    assert (e' = e) as -> by (apply (holds_fun w (from, snd_addr + k)); [apply Hback; [lia | done | done] | done]).
    destruct (Tkeep (from, snd_addr + k) e Hs Hh) as [_|Hd]; [apply Hdisa; lia | intros [_ [= E]]; lia | |].
    + assert (a + 1 <= k < n) as Hk1 by lia. by apply (Hmoved Hok Hg k e Hk1 Hs Hr Hh1 Hm e).
    + by apply (Halive (from, snd_addr + k) e).
  - by trans (reap w1).
Qed.

(** A turn that fails ends the operation. *)
Lemma map_eff_failed attribs grant ok from snd_addr to rcv_addr a n w w' : a < n -> idx_ok (snd_addr + a) ->
  turn_eff attribs grant ok (from, snd_addr + a) (to, rcv_addr + a) w w' ->
  map_eff attribs grant false from snd_addr to rcv_addr a n w w'.
Proof.
  intros Han Hia [Tnew Tkeep _ _ Tre]. split; [| |done|done|done].
  - intros s e' Hs Hh. destruct (Tnew s e' Hs Hh) as [|(-> & e & ? & ?)]; [by left|]. right. exists a, e. split_and!; [lia | lia | done..].
  - intros s e Hs Hh H1 H2. apply Tkeep; [done | done | apply H1; lia|]. intros [Hg ->]. by apply (H2 Hg a); [lia|].
Qed.

Lemma sendable_dec attribs w s :
  (exists e, holds w s e /\ mappable attribs e = true) \/ (forall e, holds w s e -> mappable attribs e = false).
Proof.
  destruct (cap s w) as [e|] eqn:Hc; [|right; intros e [? _]; congruence].
  destruct (valid e) eqn:Hv; [|right; intros e' [? ?]; congruence].
  destruct (mappable attribs e) eqn:Hm; [left; by exists e|]. right. intros e' [? _]. congruence.
Qed.

(** * The loop *)

Lemma inv_alive bias fresh L w s e : obj_inv bias fresh L w -> slot_ok s -> holds w s e -> ~ dead w e.
Proof. intros Hi Hs Hh. by destruct (holds_root _ _ _ _ _ _ Hi Hs Hh) as (_ & _ & _ & ?). Qed.

Lemma msub_small n k : 0 <= k <= n -> n < 2 ^ MWORD_BITS -> msub n k = n - k.
Proof. intros. apply wrap_small. unfold in_range. lia. Qed.

Lemma turn_pair_safe attribs grant ok p q w w1 p' q' : slot_ok p' -> slot_ok q' -> p' <> q -> q' <> q ->
  turn_eff attribs grant ok p q w w1 -> pair_safe w p' q' -> pair_safe w1 p' q'.
Proof.
  intros Hp Hq Hpq Hqq [Hnew _ _ _ _] Hs e ed H1 H2. destruct (Hnew p' e Hp H1) as [H1'|[? _]]; [|done].
  destruct (Hnew q' ed Hq H2) as [H2'|[? _]]; [|done]. by apply Hs.
Qed.

Section loop.
Context (bias : Z -> Z) (fresh : Z -> Prop) (attribs : Z) (grant : bool) (from snd_addr to rcv_addr n rcv_end : Z).
Hypotheses (Hsnd : 0 <= snd_addr) (Hrcv : 0 <= rcv_addr) (Hn : n < 2 ^ MWORD_BITS) (Hend : rcv_addr + n <= rcv_end).
Hypothesis Hdis : forall k l, 0 <= k < n -> 0 <= l < n -> (from, snd_addr + k) <> (to, rcv_addr + l).

Definition all_safe (a : Z) w : Prop :=
  forall k, a <= k < n -> idx_ok (snd_addr + k) -> idx_ok (rcv_addr + k) -> pair_safe w (from, snd_addr + k) (to, rcv_addr + k).

Definition none_mappable (a b : Z) w : Prop :=
  forall k e, a <= k < b -> idx_ok (snd_addr + k) -> idx_ok (rcv_addr + k) -> holds w (from, snd_addr + k) e -> mappable attribs e = false.

Lemma obj_map_loop_ok fuel a np w : 0 <= a <= n -> n - a < Z.of_nat fuel -> obj_inv bias fresh ∅ w -> all_safe a w ->
  exists failed np' w',
    map_loop fuel from to (snd_addr + a) (n - a) (rcv_addr + a) rcv_end obj_map_max_address obj_map_max_address grant attribs np w
    = Done (failed, np', w') /\ obj_inv bias fresh ∅ w' /\ map_eff attribs grant (negb failed) from snd_addr to rcv_addr a n w w'
    /\ (np' = true -> np = true /\ failed = false /\ none_mappable a n w).
Proof.
  revert a np w. induction fuel as [|fuel IH]; intros a np w Ha Hfuel Hi Hsafe; [lia|]. cbn [map_loop].
  (* the loop ends *)
  assert (none_mappable a n w -> exists failed np' w', Done (false, np, w) = Done (failed, np', w') /\ obj_inv bias fresh ∅ w'
    /\ map_eff attribs grant (negb failed) from snd_addr to rcv_addr a n w w'
    /\ (np' = true -> np = true /\ failed = false /\ none_mappable a n w)) as Hstop.
  { intros Hno. exists false, np, w. split_and!; [done | done | by apply map_eff_refl | done]. }
  destruct (Z.eqb_spec (n - a) 0) as [Hz|Hz]; cbn [negb andb]; [apply Hstop; intros k e; lia|].
  destruct (Z.ltb_spec (rcv_addr + a) obj_map_max_address) as [Hr|Hr]; cbn [andb];
    [|apply Hstop; intros k e ? _ [_ ?]; unfold obj_map_max_address in Hr; lia].
  destruct (Z.ltb_spec (snd_addr + a) obj_map_max_address) as [Hs|Hs];
    [|apply Hstop; intros k e ? [_ ?]; unfold obj_map_max_address in Hs; lia].
  assert (idx_ok (snd_addr + a) /\ idx_ok (rcv_addr + a)) as [Hia Hja] by (unfold obj_map_max_address in *; split; split; lia).
  assert (0 < Caps_per_page) as HC by (pose proof obj_sizes; lia).
  destruct (sendable_dec attribs w (from, snd_addr + a)) as [(e & Hh & Hm)|Hno].
  - destruct (map_turn_ok bias fresh attribs grant (from, snd_addr + a) (to, rcv_addr + a) e (n - a) rcv_end np w)
      as (failed & w1 & Hturn & Hi1 & Heff); try done; [apply Hdis; lia | lia | cbn; lia | apply Hsafe; [lia | done | done]|].
    cbn [fst snd] in Hturn. rewrite Hturn. destruct failed; cbn [obind].
    { exists true, false, w1. split_and!; [done | done | by eapply map_eff_failed; [lia | done..] | done]. }
    rewrite !madd_idx, msub_small by (done || lia). rewrite <- !Z.add_assoc, <- Z.sub_add_distr.
    destruct (IH (a + 1) false w1) as (failed & np' & w' & Hloop & Hi' & Hrest & Hnp); [lia | lia | done | |].
    { intros k Hk Hsk Hrk. eapply turn_pair_safe; [done | done | | | exact Heff | apply Hsafe; [lia | done..]].
      - apply Hdis; lia.
      - intros [= E]. lia. }
    rewrite Hloop. exists failed, np', w'. split_and!; [done | done | |].
    + apply (map_eff_turn _ _ _ _ _ _ _ _ _ _ w1); try done; [intros; apply Hdis; lia | lia|]. intros. by eapply inv_alive.
    + intros Hnp'. by destruct (Hnp Hnp').
  - destruct (map_turn_none attribs grant from to (snd_addr + a) (n - a) (rcv_addr + a) rcv_end np w) as (size & -> & Hsz & Hskip);
      [apply Hi | done | done|].
    assert (forall b, b <= a + size -> forall k e, a <= k < b -> idx_ok (snd_addr + k) -> holds w (from, snd_addr + k) e -> mappable attribs e = false) as Hskip'.
    { intros b Hb k e Hk Hsk Hh. destruct (Hskip (snd_addr + k)) as [E|E]; [lia | done | | by destruct Hh; congruence].
      assert (k = a) as -> by lia. by apply Hno. }
    destruct (Z.leb_spec (n - a) size) as [Hle|Hle]; cbn [obind].
    { apply Hstop. intros k e Hk Hsk _. apply (Hskip' n); [lia | done | done]. }
    rewrite !madd_idx, msub_small by (done || lia). rewrite <- !Z.add_assoc, <- Z.sub_add_distr.
    destruct (IH (a + size) np w) as (failed & np' & w' & Hloop & Hi' & Hrest & Hnp); [lia | lia | done | |].
    { intros k Hk. apply Hsafe. lia. }
    rewrite Hloop. exists failed, np', w'. split_and!; [done | done | |].
    + apply (map_eff_skip _ _ _ _ _ _ _ _ (a + size)); [lia | | done]. apply Hskip'. lia.
    + intros Hnp'. destruct (Hnp Hnp') as (? & ? & Hnone). split_and!; [done | done|]. intros k e Hk Hsk Hrk Hh.
      destruct (Z.lt_ge_cases k (a + size)); [by apply (Hskip' (a + size)) with k; [lia | lia|..] | by apply Hnone with k; [lia|..]].
Qed.
End loop.
End turn.
