(* ===== verification/ObjSpec.v ===== *)
(** What capability spaces promise: unmap empties its range, map confines what
    the receiver gets to copies of the sender's window placed in the receiver's
    window, a new object starts with one full capability, and all of them keep
    the invariant of ObjSpaceInv.v.  Concrete spaces show that the hypotheses
    can hold, and two inputs on which the code breaks the invariant. *)

From S2P Require Import Prelude Outcome L4Types MapUtil ObjSpace ObjSpaceInv ObjUnmap ObjMap.
Import Obj.

Section spec.
Context `{AR : Arch, KO : Kobject_iface, KL : !Kobject_laws} {A : Type} `{KA : !Kmem_alloc A}.
Implicit Types (w : world A) (p q s : Z * Z) (e : Entry).

(** * Map *)

Lemma map_result (failed np : bool) :
  let condition := L4_error.code (if failed then L4_error.Map_failed else L4_error.None) in
  let c := if negb failed && np then L4_error.set_empty_map condition else condition in
  L4_error.ok c = negb failed /\ L4_error.empty_map c = negb failed && np.
Proof. by destruct failed, np. Qed.

Lemma obj_map_ok bias fresh from snd_addr n to rcv_addr grant attribs w :
  obj_inv bias fresh ∅ w -> 0 <= snd_addr -> 0 <= rcv_addr -> 0 <= n -> rcv_addr + n < 2 ^ MWORD_BITS ->
  (forall k l, 0 <= k < n -> 0 <= l < n -> (from, snd_addr + k) <> (to, rcv_addr + l)) ->
  all_safe from snd_addr to rcv_addr n 0 w ->
  exists c w', obj_map from snd_addr n to rcv_addr grant attribs w = Done (c, w') /\ obj_inv bias fresh ∅ w'
    /\ map_eff attribs grant (L4_error.ok c) from snd_addr to rcv_addr 0 n w w'
    /\ (L4_error.empty_map c = true -> none_mappable attribs from snd_addr rcv_addr 0 n w).
Proof.
  intros Hi Hs Hr Hn Hend Hdis Hsafe. unfold obj_map, MapUtil.map.
  assert (madd rcv_addr n = rcv_addr + n) as -> by (apply wrap_small; unfold in_range; lia).
  destruct (obj_map_loop_ok bias fresh attribs grant from snd_addr to rcv_addr n (rcv_addr + n) Hs Hr) with
    (fuel := S (Z.to_nat n)) (a := 0) (np := true) (w := w) as (failed & np & w' & Hloop & Hi' & Heff & Hnp); [lia.. | done | lia | lia | done | done|].
  rewrite !Z.add_0_r, Z.sub_0_r in Hloop. cbn [map_max_address obj_space]. rewrite Hloop. cbn [obind].
  destruct (map_result failed np) as [Hok Hem].
  eexists _, w'. split_and!; [done | done | by rewrite Hok|].
  rewrite Hem. intros [_ Hx]%andb_true_iff. by destruct (Hnp Hx) as (_ & _ & ?).
Qed.

(** ** The windows of the flex pages *)

Lemma free_constraint_window snd_addr so rcv_addr ro hot_spot : 0 <= so < MWORD_BITS -> 0 <= ro < MWORD_BITS -> 0 <= hot_spot ->
  0 <= snd_addr -> 0 <= rcv_addr -> snd_addr + 2 ^ so < 2 ^ MWORD_BITS -> rcv_addr + 2 ^ ro < 2 ^ MWORD_BITS ->
  let '(s, o, r) := free_constraint snd_addr so rcv_addr ro hot_spot in
  o = Z.min so ro /\ snd_addr <= s /\ s + 2 ^ o <= snd_addr + 2 ^ so /\ rcv_addr <= r /\ r + 2 ^ o <= rcv_addr + 2 ^ ro.
Proof.
  intros Hso Hro Hh Hs Hr Hse Hre. unfold free_constraint.
  (* the part of a window of order [big] that the hot spot selects for a window of order [small] *)
  assert (forall big small base, 0 <= small <= big -> big < MWORD_BITS -> 0 <= base -> base + 2 ^ big < 2 ^ MWORD_BITS ->
    let r := madd base (mask_lsb (get_lsb hot_spot big) small) in base <= r /\ r + 2 ^ small <= base + 2 ^ big) as Hsel.
  { intros big small base Hsm Hbig Hb Hbe r. assert (0 < 2 ^ small) by (apply pow2_pos; lia). assert (0 < 2 ^ big) as Hpb by (apply pow2_pos; lia).
    unfold r. rewrite lsb_mod by lia. pose proof (Z.mod_pos_bound hot_spot (2 ^ big) Hpb) as Hx. set (x := hot_spot mod 2 ^ big) in *.
    assert (is_mword x) as Hxw by (split; lia). rewrite mask_lsb_eq by (done || lia). pose proof (Z.mod_pos_bound x (2 ^ small)) as Hm.
    assert (x - x mod 2 ^ small = 2 ^ small * (x / 2 ^ small)) as E by (rewrite (Z.div_mod x (2 ^ small)) at 1; lia).
    assert (x / 2 ^ small + 1 <= 2 ^ (big - small)) as Hq.
    { assert (x / 2 ^ small < 2 ^ (big - small)); [|lia]. apply Z.div_lt_upper_bound; [done|].
      rewrite <- Z.pow_add_r by lia. replace (small + (big - small)) with big by lia. lia. }
    assert (2 ^ big = 2 ^ small * 2 ^ (big - small)) as Eb by (rewrite <- Z.pow_add_r by lia; f_equal; lia).
    assert (0 <= x / 2 ^ small) by (apply Z.div_pos; lia).
    assert (2 ^ small * (x / 2 ^ small) + 2 ^ small <= 2 ^ big) by nia.
    assert (madd base (x - x mod 2 ^ small) = base + (x - x mod 2 ^ small)) as -> by (apply wrap_small; unfold in_range; nia).
    rewrite E. nia. }
  destruct (Z.leb_spec so ro) as [Hle|Hgt].
  - rewrite Z.min_l by lia. destruct (Hsel ro so rcv_addr) as [? ?]; [lia..|]. split_and!; lia.
  - rewrite Z.min_r by lia. destruct (Hsel so ro snd_addr) as [? ?]; [lia..|]. split_and!; lia.
Qed.

Definition window (fp : Z) (i : Z) : Prop :=
  let o := get_order_from_fp fp 0 in
  mask_lsb (L4_fpage.obj_index fp) o <= i < mask_lsb (L4_fpage.obj_index fp) o + 2 ^ o.

Lemma fpage_end fp : is_mword fp ->
  mask_lsb (L4_fpage.obj_index fp) (get_order_from_fp fp 0) + 2 ^ get_order_from_fp fp 0 < 2 ^ MWORD_BITS.
Proof.
  intros Hfp. destruct (fpage_slots fp Hfp) as (_ & _ & _ & _ & Hend & _). rewrite <- Hend. apply mwrap_range.
Qed.

(** The attributes a capability is sent with. *)
Definition send_attribs (fp control : Z) : Z :=
  L4_fpage.rights fp .| wrap 8 (Z.lxor L4_msg_item.C_weak_ref (L4_msg_item.attr control)).

Definition fpage_grant (control : Z) : bool := L4_msg_item.is_grant control.

Lemma fpage_map_ok bias fresh from fp_from to fp_to control w : is_mword fp_from -> is_mword fp_to -> is_mword control ->
  obj_inv bias fresh ∅ w -> from <> to ->
  (forall i j, window fp_from i -> window fp_to j -> idx_ok i -> idx_ok j -> pair_safe w (from, i) (to, j)) ->
  exists c w' sa ra n, obj_fpage_map from fp_from to fp_to control w = Done (c, w') /\ obj_inv bias fresh ∅ w'
    /\ (forall k, 0 <= k < n -> window fp_from (sa + k) /\ window fp_to (ra + k))
    /\ map_eff (send_attribs fp_from control) (fpage_grant control) (L4_error.ok c) from sa to ra 0 n w w'.
Proof.
  intros Hf Ht Hc Hi Hne Hsafe. unfold obj_fpage_map.
  destruct (fpage_slots fp_from Hf) as (Hso & Hs0 & _ & _ & _ & _). destruct (fpage_slots fp_to Ht) as (Hro & Hr0 & _ & _ & _ & _).
  pose proof (fpage_end fp_from Hf) as Hse. pose proof (fpage_end fp_to Ht) as Hre.
  set (so := get_order_from_fp fp_from 0) in *. set (ro := get_order_from_fp fp_to 0) in *.
  set (sa := mask_lsb (L4_fpage.obj_index fp_from) so) in *. set (ra := mask_lsb (L4_fpage.obj_index fp_to) ro) in *.
  assert (0 <= L4_msg_item.index control) as Hhot by (pose proof arch_ge32; apply get_range; unfold field; lia).
  pose proof (free_constraint_window sa so ra ro (L4_msg_item.index control) Hso Hro Hhot Hs0 Hr0 Hse Hre) as Hw.
  destruct (free_constraint sa so ra ro (L4_msg_item.index control)) as [[s o] r]. destruct Hw as (-> & Hs1 & Hs2 & Hr1 & Hr2).
  set (o := Z.min so ro) in *. assert (0 < 2 ^ o) as Hpo by (apply pow2_pos; lia).
  assert (to_size o = 2 ^ o) as Hsz.
  { unfold to_size, mshl. rewrite Z.shiftl_1_l. apply wrap_small. split; [lia|]. apply Z.pow_lt_mono_r; lia. }
  rewrite Hsz. replace (2 ^ o =? 0) with false by (symmetry; apply Z.eqb_neq; lia).
  assert (forall k, 0 <= k < 2 ^ o -> window fp_from (s + k) /\ window fp_to (r + k)) as Hwin
    by (intros k Hk; unfold window; fold so ro sa ra; lia).
  fold (send_attribs fp_from control) (fpage_grant control).
  destruct (obj_map_ok bias fresh from s (2 ^ o) to r (fpage_grant control) (send_attribs fp_from control) w)
    as (c & w' & Hmap & Hi' & Heff & _); [done | lia | lia | lia | lia | intros; congruence | |].
  { intros k Hk Hsk Hrk. destruct (Hwin k Hk). by apply Hsafe. }
  exists c, w', s, r, (2 ^ o). split_and!; [exact Hmap | done | exact Hwin | done].
Qed.

(** * The first capability of an object *)

Lemma put_as_root_full e0 o : put_as_root (set e0 o Full) = set e0 o Full.
Proof. done. Qed.

(** The receiver's slot after what was there has been unmapped. *)
Lemma clear_slot_ok bias fresh to rcv_addr w : obj_inv bias fresh ∅ w -> idx_ok rcv_addr ->
  exists w1, match obj_v_lookup to rcv_addr w with
             | (r_size, Some _) =>
                 let* (_, w) := MapUtil.unmap to rcv_addr (to_size r_size) L4_fpage.Rights.FULL L4_map_mask.full w in Done w
             | (_, None) => Done w
             end = Done w1
    /\ obj_inv bias fresh ∅ w1 /\ shrinks w w1 /\ keeps (.= (to, rcv_addr)) w w1 /\ forall e, ~ holds w1 (to, rcv_addr) e.
Proof.
  intros Hi Hidx. rewrite obj_v_lookup_cap.
  assert ((forall e, ~ holds w (to, rcv_addr) e) -> exists w1, Done w = Done w1
    /\ obj_inv bias fresh ∅ w1 /\ shrinks w w1 /\ keeps (.= (to, rcv_addr)) w w1 /\ forall e, ~ holds w1 (to, rcv_addr) e) as Hnone.
  { intros Hno. exists w. split_and!; [done | done | apply shrinks_refl | by intros ? ? ? ? ?; left | done]. }
  destruct (cap (to, rcv_addr) w) as [e|] eqn:Hc; [destruct (valid e) eqn:Hv|].
  2, 3: apply Hnone; intros e' [? ?]; congruence.
  rewrite to_size_0. unfold MapUtil.unmap. cbn [map_max_address obj_space].
  rewrite madd_idx by (done || pose proof obj_sizes; lia).
  destruct (obj_unmap_loop_ok bias fresh to (rcv_addr + 1) L4_fpage.Rights.FULL L4_map_mask.full (S (Z.to_nat obj_map_max_address)) rcv_addr w 0)
    as (w1 & -> & Hi1 & Hs1 & Hk1 & Hc1); [done | by destruct Hidx | done | unfold idx_ok in Hidx; lia|].
  cbn [obind]. exists w1. split_and!; [done | done | done | |].
  - revert Hk1. apply keeps_weaken. intros [sp i] [E ?]. cbn in *. subst sp. f_equal. lia.
  - intros e'. apply Hc1; [done | done | | lia | done]. intros _ _. right. right. congruence.
Qed.

Lemma orphan_stays bias fresh w w1 r m : obj_inv bias fresh ∅ w -> obj_inv bias fresh ∅ w1 -> shrinks w w1 ->
  roots w !! r = Some m -> _root m = [] -> r ∉ reap w -> exists m1, roots w1 !! r = Some m1 /\ _root m1 = [] /\ r ∉ reap w1.
Proof.
  intros Hi Hi1 Hs Hm Hempty Hre. destruct (sh_roots _ _ Hs r) as [m1 Hm1]; [by exists m|]. exists m1.
  assert (forall q e, slot_ok q -> holds w q e -> map_root (obj e) <> r) as Hno.
  { intros q e Hq Hh <-. destruct (inv_cap _ _ _ _ Hi q e Hq Hh) as (n & Hn & Hqn). assert (n = m) as -> by congruence.
    rewrite Hempty in Hqn. by apply not_elem_of_nil in Hqn. }
  split_and!; [done | |].
  - destruct (_root m1) as [|q l] eqn:El; [done|]. destruct (inv_root _ _ _ _ Hi1 r m1 q Hm1) as (Hq & e & Hh & Hr); [rewrite El; by left|].
    destruct (sh_cap _ _ Hs q e Hq Hh) as (e0 & Hh0 & Ho & _). exfalso. apply (Hno q e0 Hq Hh0). congruence.
  - intros Hin. destruct (sh_orphan _ _ Hs r Hin) as [|(q & e & Hq & Hh & Hr)]; [done|]. by apply (Hno q e).
Qed.

Lemma map_new_ok bias fresh o to rcv_addr w m : obj_inv bias fresh ∅ w -> idx_ok rcv_addr -> kobj o ->
  roots w !! map_root o = Some m -> _root m = [] -> map_root o ∉ reap w -> bias (map_root o) = 0 ->
  exists ok w', map_new o to rcv_addr w = Done (ok, w') /\ obj_inv bias fresh ∅ w' /\ keeps (.= (to, rcv_addr)) w w'
    /\ (ok = true -> exists e m', holds w' (to, rcv_addr) e /\ obj e = o /\ rights e = Full
          /\ roots w' !! map_root o = Some m' /\ _root m' = [(to, rcv_addr)] /\ _cnt m' = 1)
    /\ (ok = false -> forall s e, slot_ok s -> holds w' s e -> exists e0, holds w s e0 /\ obj e = obj e0 /\ rights_le e e0).
Proof.
  intros Hi Hidx Ho Hm Hempty Hre Hbias. set (q := (to, rcv_addr)). assert (slot_ok q) as Hq by done. unfold map_new.
  replace (obj_map_max_address <=? rcv_addr) with false by (symmetry; apply Z.leb_gt, Hidx).
  destruct (clear_slot_ok bias fresh to rcv_addr w Hi Hidx) as (w1 & -> & Hi1 & Hs1 & Hk1 & Hfree). cbn [obind]. fold q in Hk1, Hfree.
  destruct (orphan_stays _ _ w w1 _ m Hi Hi1 Hs1 Hm Hempty Hre) as (m1 & Hm1 & Hempty1 & Hre1).
  destruct (v_insert_ok o q Full w1 (inv_tables _ _ _ _ Hi1) Hq Hfree) as (w2 & Hg & Hins). cbn [fst snd q] in Hins.
  pose proof (grown_inv _ _ _ _ _ Hi1 Hg) as Hi2.
  assert (keeps (.= q) w w2) as Hk2.
  { intros s e Hs Hh Hne. destruct (Hk1 s e Hs Hh Hne) as [|]; [left; by apply (grown_holds w1 w2) | right; by rewrite (grown_reap _ _ Hg)]. }
  destruct Hins as [->|(e0 & Hc & ->)]; cbn [obind].
  { exists false, w2. split_and!; [done | done | done | done|]. intros _ s e Hs Hh. apply (sh_cap _ _ Hs1); [done|].
    by apply (grown_holds w1 w2). }
  unfold insert_root_mapping. cbn [roots upd_cap]. rewrite (grown_roots _ _ Hg), Hm1, Hempty1. cbn [obind].
  pose proof (insert_added o q Full e0 w2 m1 (map_root o) eq_refl Ho Hq Hc) as Had.
  rewrite (grown_roots _ _ Hg), Hm1, Hempty1 in Had. specialize (Had eq_refl).
  set (w3 := upd_cap to rcv_addr (fun e => set e o Full) w2) in *. set (wA := set_root _ _ _) in Had.
  change (upd_cap q.1 q.2 _ w2) with w3 in wA.
  assert (_cnt m1 = 0) as Hcnt by (rewrite (inv_cnt _ _ _ _ Hi1 _ _ Hm1), Hempty1, Hbias; done).
  assert (_lock m1 = false) as Hlk by by apply (inv_lock _ _ _ _ Hi1 _ _ Hm1).
  set (w4 := set_root _ _ _).
  assert (added (map_root o) q (set e0 o Full) w2 w4) as Had4.
  { destruct Had as [Ht He Hcap (n & n' & Hn & Hl & Hr & Hcn & Hlo) Hreap]. split; [|done| |exists n, n'; split_and!; try done|done].
    - intros Htw. unfold w4. by apply tables_ok_upd, tables_ok_upd.
    - intros p Hp. rewrite <- Hcap by done. unfold w4, wA. rewrite !cap_set_root.
      change (upd_cap to rcv_addr put_as_root w3) with (upd_cap q.1 q.2 put_as_root w3). rewrite cap_upd by done.
      case_decide; [subst p|done]. unfold w3. change (upd_cap to rcv_addr ?f w2) with (upd_cap q.1 q.2 f w2).
      rewrite cap_upd, decide_True, Hc by done. done.
    - unfold w4. cbn. rewrite <- Hr. unfold wA. cbn. rewrite Hcnt, ref_counted_set. done. }
  exists true, w4. split_and!; [done | | | | done].
  - apply (added_inv _ _ _ (map_root o) q (set e0 o Full) w2); try done.
    + intros e' Hx. apply (grown_holds w1 w2) in Hx; [by apply (Hfree e') | done | done].
    + by rewrite (grown_reap _ _ Hg).
  - intros s e Hs Hh Hne. destruct (Hk2 s e Hs Hh Hne) as [Hx|Hx]; [left|by right].
    apply (added_holds _ _ _ _ _ s e Hs Had4). by right.
  - intros _. eexists _, _. split_and!; [apply (added_holds _ _ _ _ _ q _ Hq Had4); by left | by apply obj_set | | | |].
    + by apply rights_set.
    + unfold w4. cbn. apply lookup_insert_eq.
    + done.
    + done.
Qed.

(** * The properties *)

(** C15: Unmapping a flex page of an object space ends without a fault, keeps the
    invariant, brings no new capability or right, takes capabilities outside of
    the flex page away only with their object, and, when it includes the space
    itself and the right to hold the capability, leaves no capability in the
    flex page. *)
Theorem obj_unmap_empties bias fresh sp fp mask w : is_mword fp -> obj_inv bias fresh ∅ w ->
  exists w', obj_fpage_unmap sp fp mask w = Done (0, w') /\ obj_inv bias fresh ∅ w' /\ shrinks w w'
    /\ keeps (fun q => q.1 = sp /\ window fp q.2) w w'
    /\ (is_full (L4_fpage.rights fp) = true -> me_too mask = true ->
        forall i e, window fp i -> idx_ok i -> ~ holds w' (sp, i) e).
Proof. apply fpage_unmap_ok. Qed.

(** C14: Mapping an object flex page to another space, where the receiver's window
    has no capability to the object that would be mapped over it, unless with the
    delete right or not counted ([pair_safe], for all pairs of slots of the two
    windows; otherwise see [obj_map_dangles], and [obj_grant_self_faults] for a
    space that maps to itself), ends without a fault and keeps the invariant;
    every capability afterwards was there before, or is in the receiver's window
    and is a copy of one in the sender's window with no more than the rights of
    the flex page; a capability outside of the receiver's window that is not
    granted away is lost only with its object. *)
Theorem obj_map_confined bias fresh from fp_from to fp_to control w : is_mword fp_from -> is_mword fp_to -> is_mword control ->
  obj_inv bias fresh ∅ w -> from <> to ->
  (forall i j, window fp_from i -> window fp_to j -> idx_ok i -> idx_ok j -> pair_safe w (from, i) (to, j)) ->
  exists c w', obj_fpage_map from fp_from to fp_to control w = Done (c, w') /\ obj_inv bias fresh ∅ w'
    /\ (forall s e', slot_ok s -> holds w' s e' ->
          holds w s e' \/ exists i j e, s = (to, j) /\ window fp_to j /\ window fp_from i /\ holds w (from, i) e
            /\ map_root (obj e') = map_root (obj e) /\ rights e' = rights e .& send_attribs fp_from control)
    /\ (forall s e, slot_ok s -> holds w s e -> ~ (s.1 = to /\ window fp_to s.2) ->
          ~ (fpage_grant control = true /\ s.1 = from /\ window fp_from s.2) -> holds w' s e \/ dead w' e).
Proof.
  intros Hf Ht Hc Hi Hne Hsafe.
  destruct (fpage_map_ok bias fresh from fp_from to fp_to control w Hf Ht Hc Hi Hne Hsafe) as (c & w' & sa & ra & n & Hmap & Hi' & Hwin & Heff).
  exists c, w'. split_and!; [done | done | |].
  - intros s e' Hs Hh. destruct (me_new _ _ _ _ _ _ _ _ _ _ _ Heff s e' Hs Hh) as [|(k & e & Hk & -> & _ & He & Ho & Hr)]; [by left|].
    right. destruct (Hwin k Hk). exists (sa + k), (ra + k), e. split_and!; try done. by rewrite Ho, sent_root.
  - intros [sp i] e Hs Hh Hto Hfrom. apply (me_keep _ _ _ _ _ _ _ _ _ _ _ Heff (sp, i) e Hs Hh).
    + intros k Hk [= -> ->]. apply Hto. by destruct (Hwin k Hk).
    + intros Hg k Hk [= -> ->]. apply Hfrom. by destruct (Hwin k Hk).
Qed.

(** C16: Mapping a range of capabilities to a range that has no slot in common with
    it, and in which no capability is mapped over by one to the same object, unless
    it has the delete right or is not counted ([all_safe]; otherwise see
    [obj_map_dangles] and [obj_grant_self_faults]), delivers: unless it reports a
    failure, every capability of the sender's range that can be sent has its copy
    at the corresponding place of the receiver, and is gone at the sender after a
    grant, or its object is being deleted; it reports an empty map only when
    nothing could be sent. *)
Theorem obj_map_delivers bias fresh from snd_addr n to rcv_addr grant attribs w :
  obj_inv bias fresh ∅ w -> 0 <= snd_addr -> 0 <= rcv_addr -> 0 <= n -> rcv_addr + n < 2 ^ MWORD_BITS ->
  (forall k l, 0 <= k < n -> 0 <= l < n -> (from, snd_addr + k) <> (to, rcv_addr + l)) ->
  all_safe from snd_addr to rcv_addr n 0 w ->
  exists c w', obj_map from snd_addr n to rcv_addr grant attribs w = Done (c, w') /\ obj_inv bias fresh ∅ w'
    /\ (L4_error.ok c = true -> forall k e, 0 <= k < n -> idx_ok (snd_addr + k) -> idx_ok (rcv_addr + k) ->
          holds w (from, snd_addr + k) e -> mappable attribs e = true ->
          ((exists e', holds w' (to, rcv_addr + k) e' /\ copy attribs e e') \/ dead w' e)
          /\ (grant = true -> forall e', ~ holds w' (from, snd_addr + k) e'))
    /\ (L4_error.empty_map c = true -> forall k e, 0 <= k < n -> idx_ok (snd_addr + k) -> idx_ok (rcv_addr + k) ->
          holds w (from, snd_addr + k) e -> mappable attribs e = false).
Proof.
  intros Hi Hs Hr Hn Hend Hdis Hsafe.
  destruct (obj_map_ok bias fresh from snd_addr n to rcv_addr grant attribs w) as (c & w' & Hmap & Hi' & Heff & Hem); try done.
  exists c, w'. split_and!; [done | done | | done].
  intros Hok k e Hk Hsk Hrk Hh Hm. split; [by eapply (me_done _ _ _ _ _ _ _ _ _ _ _ Heff)|].
  intros Hg. by eapply (me_moved _ _ _ _ _ _ _ _ _ _ _ Heff).
Qed.

(** The first mapping of a new object replaces what was in the slot, gives
    the slot a capability with all rights and the object the count one, or
    fails for want of memory and adds nothing. *)
Theorem obj_map_first bias fresh o to rcv_addr w m : obj_inv bias fresh ∅ w -> idx_ok rcv_addr -> kobj o ->
  roots w !! map_root o = Some m -> _root m = [] -> map_root o ∉ reap w -> bias (map_root o) = 0 ->
  exists ok w', map_new o to rcv_addr w = Done (ok, w') /\ obj_inv bias fresh ∅ w' /\ keeps (.= (to, rcv_addr)) w w'
    /\ (ok = true -> exists e m', holds w' (to, rcv_addr) e /\ obj e = o /\ rights e = Full
          /\ roots w' !! map_root o = Some m' /\ _root m' = [(to, rcv_addr)] /\ _cnt m' = 1)
    /\ (ok = false -> forall s e, slot_ok s -> holds w' s e -> exists e0, holds w s e0 /\ obj e = obj e0 /\ rights_le e e0).
Proof. apply map_new_ok. Qed.
End spec.

(** On 64-bit machines the directory index is narrowed to 32 bits before it is
    checked: capability numbers that differ by 2^39 name the same slot. *)
Lemma get_cap_aliases {A} (sp i : Z) (w : world A) : 0 <= i ->
  get_cap (H := arch64) sp (i + 2 ^ 39) w = get_cap (H := arch64) sp i w.
Proof.
  intros Hi. unfold get_cap.
  assert (d_idx (H := arch64) (i + 2 ^ 39) = d_idx (H := arch64) i) as ->.
  { unfold d_idx, wrap. cbn. rewrite !Z.shiftr_div_pow2 by lia. change (2 ^ 39) with (2 ^ 32 * 2 ^ 7).
    rewrite Z.div_add by lia. change (2 ^ 32) with (1 * 2 ^ 32) at 1. by rewrite Z.mod_add. }
  assert (offs (H := arch64) (i + 2 ^ 39) = offs (H := arch64) i) as ->; [|done].
  unfold offs. f_equal. rewrite !(lsb_mod (AR := arch64)) by (cbn; lia). cbn. change (2 ^ 39) with (2 ^ 32 * 2 ^ 7). by rewrite Z.mod_add.
Qed.

(** * A concrete system *)

Module Obj_example.
#[local] Existing Instance arch64.

(** Objects with two faces, as IPC gates have them: bit 4 of the address tells
    the face with the special rights, which a downgrade gives up. *)
#[local] Instance gates : Kobject_iface := {
  map_root o := Z.ldiff o 0x10;
  downgrade o a := if nonzero (a .& L4_msg_item.C_obj_right_1) && negb (Z.ldiff o 0x10 =? 0) then Z.ldiff o 0x10 else o }.

(** A pool of pages that all spaces share. *)
#[local] Instance pool : Kmem_alloc Z := {
  q_alloc _ n := if 0 <? n then (true, n - 1) else (false, n);
  q_free _ n := n + 1 }.

#[local] Instance gates_laws : Kobject_laws.
Proof.
  split.
  - intros o a. cbn. destruct (_ && _); [|done]. bits_ext.
  - intros o a (Hw & Hl & Hn). cbn. destruct (_ && _) eqn:E; [|done]. apply andb_true_iff in E as [_ E]. split_and!.
    + rewrite Z.ldiff_land. apply in_range_land_l; [cbn; lia | done].
    + change 3 with (Z.ones 2) in *. apply Z.bits_inj'. intros n Hn'. bits_simp; try bits_close.
      rewrite (low_bits o n) by (done || lia). done.
    + by apply negb_true_iff, Z.eqb_neq in E.
Qed.

Definition no_bias (_ : Z) : Z := 0.
Definition may_be_new (_ : Z) : Prop := True.

(** Two spaces without tables, two objects without mappings. *)
Definition w0 : world Z :=
  mkWorld {[1 := mkSpace None; 2 := mkSpace None]} {[0x1000 := mkMappable [] 0 false; 0x2000 := mkMappable [] 0 false]} [] 10.

Lemma no_caps q : cap q w0 = None.
Proof.
  destruct q as [sp i]. unfold cap, get_cap, dir_of, w0. cbn [spaces fst snd]. destruct (_ <=? _); [done|].
  destruct (({[1 := mkSpace None; 2 := mkSpace None]} : gmap Z Obj_space) !! sp) as [x|] eqn:E; [|done].
  apply lookup_insert_Some in E as [[_ <-]|[_ E]]; [done|]. by apply lookup_singleton_Some in E as [_ <-].
Qed.

Lemma no_roots r m : roots w0 !! r = Some m -> m = mkMappable [] 0 false.
Proof.
  unfold w0. cbn [roots]. intros [[_ <-]|[_ E]]%lookup_insert_Some; [done|]. by apply lookup_singleton_Some in E as [_ <-].
Qed.

Lemma w0_inv : obj_inv no_bias may_be_new ∅ w0.
Proof.
  split.
  - intros sp d k tab. unfold dir_of, w0. cbn [spaces].
    destruct (({[1 := mkSpace None; 2 := mkSpace None]} : gmap Z Obj_space) !! sp) as [x|] eqn:E; [|done].
    apply lookup_insert_Some in E as [[_ <-]|[_ E]]; [done|]. by apply lookup_singleton_Some in E as [_ <-].
  - intros q e _. by rewrite no_caps.
  - intros q e _ [H _]. by rewrite no_caps in H.
  - intros r m q ->%no_roots. by intros ?%not_elem_of_nil.
  - intros r m ->%no_roots. constructor.
  - by intros r m ->%no_roots.
  - by intros r m ->%no_roots.
  - by intros r ?%not_elem_of_nil.
  - constructor.
  - intros r m _ _. by right.
Qed.

Lemma gate_kobj : kobj 0x1010.
Proof. split_and!; [split; vm_compute; congruence | done | done]. Qed.

Lemma slot_idx i : 0 <= i < 65536 -> idx_ok i.
Proof. done. Qed.

Definition world_of {X} (r : outcome (X * world Z)) : world Z := match r with Done (_, w) => w | _ => w0 end.

(** Slot 5 of space 1 gets the first capability of the gate. *)
Definition w1 : world Z := world_of (map_new 0x1010 1 5 w0).

Lemma obj_map_first_witness : exists ok w', map_new 0x1010 1 5 w0 = Done (ok, w') /\ obj_inv no_bias may_be_new ∅ w'
  /\ ok = true.
Proof.
  destruct (obj_map_first no_bias may_be_new 0x1010 1 5 w0 (mkMappable [] 0 false) w0_inv) as (ok & w' & E & Hi & _ & _ & Hf);
    [apply slot_idx; lia | exact gate_kobj | vm_compute; reflexivity | reflexivity | apply not_elem_of_nil | reflexivity|].
  exists ok, w'. split; [exact E|]. split; [exact Hi|].
  assert (match map_new 0x1010 1 5 w0 with Done (b, _) => b | _ => false end = true) as Hb by (vm_compute; reflexivity).
  rewrite E in Hb. exact Hb.
Defined.

Lemma w1_inv : obj_inv no_bias may_be_new ∅ w1.
Proof.
  destruct (map_new_ok no_bias may_be_new 0x1010 1 5 w0 (mkMappable [] 0 false) w0_inv) as (ok & w' & E & Hi & _);
    [apply slot_idx; lia | exact gate_kobj | vm_compute; reflexivity | reflexivity | apply not_elem_of_nil | reflexivity|].
  unfold w1. rewrite E. exact Hi.
Qed.

(** Space 1 gives up slots 4 to 7. *)
Definition fp_four : Z := L4_fpage.obj (4 << 12) 2 L4_fpage.Rights.FULL.

Lemma obj_unmap_empties_witness : exists w', obj_fpage_unmap 1 fp_four L4_map_mask.full w1 = Done (0, w')
  /\ obj_inv no_bias may_be_new ∅ w' /\ (forall e, ~ holds w' (1, 5) e) /\ reap w' = [0x1000].
Proof.
  destruct (obj_unmap_empties no_bias may_be_new 1 fp_four L4_map_mask.full w1) as (w' & E & Hi & _ & _ & Hc);
    [split; vm_compute; congruence | exact w1_inv|].
  exists w'. split; [exact E|]. split; [exact Hi|]. split.
  - intros e. apply Hc; [vm_compute; reflexivity | vm_compute; reflexivity | split; vm_compute; congruence | apply slot_idx; lia].
  - assert (reap (world_of (obj_fpage_unmap 1 fp_four L4_map_mask.full w1)) = [0x1000]) as Hr by (vm_compute; reflexivity).
    rewrite E in Hr. exact Hr.
Defined.

Lemma space_2_empty j : cap (2, j) w1 = None.
Proof.
  unfold cap, get_cap. cbn [fst snd]. destruct (_ <=? _); [done|].
  assert (dir_of 2 w1 = None) as -> by (vm_compute; reflexivity). done.
Qed.

Lemma space_2_safe p j : pair_safe w1 p (2, j).
Proof. intros e ed _ [H _]. by rewrite space_2_empty in H. Qed.

(** Slot 5 of space 1 is mapped to slot 8 of space 2, without the rights to
    delete and without the special rights. *)
Definition fp_snd : Z := L4_fpage.obj (5 << 12) 0 L4_fpage.Rights.CRWS.
Definition fp_rcv : Z := L4_fpage.obj (8 << 12) 0 0.

Lemma obj_map_confined_witness : exists c w', obj_fpage_map 1 fp_snd 2 fp_rcv 0 w1 = Done (c, w') /\ obj_inv no_bias may_be_new ∅ w'
  /\ exists e, cap (2, 8) w' = Some e /\ obj e = 0x1000 /\ rights e = 0x17.
Proof.
  destruct (obj_map_confined no_bias may_be_new 1 fp_snd 2 fp_rcv 0 w1) as (c & w' & E & Hi & _);
    [split; vm_compute; congruence | split; vm_compute; congruence | split; vm_compute; congruence | exact w1_inv | congruence
    | intros; apply space_2_safe|].
  exists c, w'. split; [exact E|]. split; [exact Hi|].
  assert (match cap (2, 8) (world_of (obj_fpage_map 1 fp_snd 2 fp_rcv 0 w1)) with Some e => (obj e, rights e) = (0x1000, 0x17) | None => False end) as Hc
    by (vm_compute; reflexivity).
  rewrite E in Hc. cbn [world_of] in Hc. destruct (cap (2, 8) w') as [e|]; [|destruct Hc]. exists e. injection Hc as H1 H2. auto.
Defined.

Lemma obj_map_delivers_witness : exists c w', obj_map 1 4 4 2 100 true 0xff w1 = Done (c, w')
  /\ L4_error.ok c = true /\ (forall e', ~ holds w' (1, 5) e') /\ exists e', holds w' (2, 101) e' /\ rights e' = 0xff.
Proof.
  destruct (obj_map_delivers no_bias may_be_new 1 4 4 2 100 true 0xff w1) as (c & w' & E & _ & Hd & _);
    [exact w1_inv | lia | lia | lia | vm_compute; reflexivity | congruence | intros k _ _ _; apply space_2_safe|].
  assert (match obj_map 1 4 4 2 100 true 0xff w1 with Done (c, w) => (c, reap w) = (0, []) | _ => False end) as Hok by (vm_compute; reflexivity).
  rewrite E in Hok. injection Hok as -> Hre. exists 0, w'. split; [exact E|]. split; [reflexivity|].
  assert (exists e, holds w1 (1, 5) e /\ rights e = 0xff) as (e & Hh & Hr).
  { eexists. split; [split; vm_compute; reflexivity | vm_compute; reflexivity]. }
  destruct (Hd eq_refl 1 e) as [Hcopy Hgone]; [lia | apply slot_idx; lia | apply slot_idx; lia | exact Hh | |].
  { unfold mappable. rewrite sent_attr, Hr. reflexivity. }
  split; [exact (Hgone eq_refl)|]. destruct Hcopy as [(e' & He' & _ & Hr')|Hdead].
  - exists e'. split; [exact He'|]. rewrite Hr', sent_attr, Hr. reflexivity.
  - unfold dead in Hdead. rewrite Hre in Hdead. destruct (not_elem_of_nil _ Hdead).
Defined.

(** ** Two ways to break the invariant *)

Definition and_then (r : outcome (Z * world Z)) (f : world Z -> outcome (Z * world Z)) : outcome (Z * world Z) :=
  let* (_, w) := r in f w.

(** Attributes of a weak capability, and of a counted one that cannot delete. *)
Definition weak : Z := 0x07.
Definition counted : Z := 0x17.

(** The gate has a weak capability in slot 7 and a counted one in slot 8 of
    space 2, and then loses the one it was created with. *)
Definition w_weak : outcome (Z * world Z) :=
  and_then (obj_map 1 5 1 2 7 false weak w1) (fun w =>
  and_then (obj_map 1 5 1 2 8 false counted w) (fun w =>
  obj_fpage_unmap 1 fp_four 0x80000000 w)).

(** Mapping a weak capability over the last counted capability of the same
    object deletes the object and then enters a capability to it: afterwards
    slot 8 holds a valid capability to an object that is queued for deletion. *)
Theorem obj_map_dangles : exists w e, and_then w_weak (obj_map 2 7 1 2 8 false weak) = Done (0, w)
  /\ cap (2, 8) w = Some e /\ valid e = true /\ map_root (obj e) ∈ reap w.
Proof.
  assert (match and_then w_weak (obj_map 2 7 1 2 8 false weak) with
          | Done (0, w) => match cap (2, 8) w with Some e => valid e && bool_decide (map_root (obj e) ∈ reap w) | None => false end
          | _ => false end = true) as H by (vm_compute; reflexivity).
  destruct (and_then _ _) as [[[| |] w]| |]; try discriminate H. exists w. destruct (cap (2, 8) w) as [e|]; [|discriminate H].
  exists e. apply andb_true_iff in H as [Hv Hr]. apply bool_decide_eq_true in Hr. auto.
Qed.

(** Granting a counted capability that cannot delete onto itself faults: the
    flush of the destination takes the entry out of the list of mappings, and
    the grant then writes through its null link. *)
Theorem obj_grant_self_faults :
  and_then (obj_map 1 5 1 2 8 false counted w1) (obj_map 2 8 1 2 8 true counted) = Fault.
Proof. vm_compute. reflexivity. Qed.
End Obj_example.
