(* ===== verification/IpcMsg.v ===== *)
(** The transfer of a message between two UTCBs: the words, the typed items
    and the errors (src/src/kern/thread_ipc.h), and the map operation by type
    of flex page (map_util.cc).

    The kernel enables interrupts while an item is mapped, so that other
    threads run and can write both UTCBs; the class [Meanwhile] is what they
    do.  A write through a pointer into the receiver's registers that would
    leave the array [values] is a fault of the model. *)

From S2P Require Import Prelude Outcome L4Types.

(** * Interfaces *)

(** What the transfer needs of address spaces, tasks and kernel objects:
    [Space::caps], the map operations of the three kinds of flex pages, the
    lookup of a capability (as its word) and of a task, the virtual functions
    [is_local] and [obj_id] of objects, the existence lock of a task, and the
    deletion of the objects that lost their last capability. *)
Class Map_ops (W : Type) := {
  space_caps : Z -> W -> Z;
  mem_map : Z -> Z -> Z -> Z -> Z -> W -> outcome (Z * W);
  io_map : Z -> Z -> Z -> Z -> Z -> W -> outcome (Z * W);
  obj_map : Z -> Z -> Z -> Z -> Z -> W -> outcome (Z * W);
  lookup : Z -> Z -> W -> Z;
  lookup_task : Z -> Z -> Z -> W -> option Z;
  is_local : Z -> Z -> W -> bool;
  obj_id : Z -> W -> Z;
  existence_lock : Z -> W -> bool * W;
  existence_clear : Z -> W -> W;
  reap_del : W -> W }.

(** What other threads do to the UTCBs of sender and receiver while the item is
    mapped after which a number of items remain. *)
Class Meanwhile := {
  snd_meanwhile : nat -> Utcb.t -> Utcb.t;
  rcv_meanwhile : nat -> Utcb.t -> Utcb.t }.

(** * The state of a transfer *)

Record xfer (W : Type) := mkXfer { snd_utcb : Utcb.t; rcv_utcb : Utcb.t; env : W }.
#[global] Arguments mkXfer {W} _ _ _.
#[global] Arguments snd_utcb {W} _.
#[global] Arguments rcv_utcb {W} _.
#[global] Arguments env {W} _.

Definition with_values (v : list Z) (u : Utcb.t) : Utcb.t :=
  Utcb.mk v (Utcb.utcb_addr u) (Utcb.buf_desc u) (Utcb.buffers u) (Utcb.error u) (Utcb.free_marker u) (Utcb.user u).

Definition with_error (e : Z) (u : Utcb.t) : Utcb.t :=
  Utcb.mk (Utcb.values u) (Utcb.utcb_addr u) (Utcb.buf_desc u) (Utcb.buffers u) e (Utcb.free_marker u) (Utcb.user u).

Definition with_buffers (desc : Z) (bs : list Z) (u : Utcb.t) : Utcb.t :=
  Utcb.mk (Utcb.values u) (Utcb.utcb_addr u) desc bs (Utcb.error u) (Utcb.free_marker u) (Utcb.user u).

Definition get_value (i : nat) (u : Utcb.t) : outcome Z :=
  match Utcb.values u !! i with Some v => Done v | None => Fault end.

Definition set_value (i : nat) (v : Z) (u : Utcb.t) : outcome Utcb.t :=
  if (i <? length (Utcb.values u))%nat then Done (with_values (<[i := v]> (Utcb.values u)) u) else Fault.

(** * Saved parts of a UTCB *)

Module Buf_utcb_saver.
Record t := mk { buf_desc : Z; buf0 : Z; buf1 : Z }.

Definition save (u : Utcb.t) : t := mk (Utcb.buf_desc u) (Utcb.buffers u !!! 0%nat) (Utcb.buffers u !!! 1%nat).

Definition restore (s : t) (u : Utcb.t) : Utcb.t :=
  with_buffers (buf_desc s) (<[1%nat := buf1 s]> (<[0%nat := buf0 s]> (Utcb.buffers u))) u.
End Buf_utcb_saver.

Module Pf_msg_utcb_saver.
Record t := mk { base : Buf_utcb_saver.t; msg0 : Z; msg1 : Z }.

Definition save (u : Utcb.t) : t := mk (Buf_utcb_saver.save u) (Utcb.values u !!! 0%nat) (Utcb.values u !!! 1%nat).

Definition restore (s : t) (u : Utcb.t) : Utcb.t :=
  let u := Buf_utcb_saver.restore (base s) u in
  with_values (<[1%nat := msg1 s]> (<[0%nat := msg0 s]> (Utcb.values u))) u.
End Pf_msg_utcb_saver.

(** * The receiver's side of an item *)

Module Rcv_side_item.
Section rcv_side_item.
Context `{Arch}.

Definition copy_snd_item (i : nat) (item sfp : Z) (u : Utcb.t) : outcome Utcb.t :=
  set_value i ((item .& mnot 0x0ff6) .| (sfp .& 0x0ff0)) u.

Definition or_value (i : nat) (v : Z) (u : Utcb.t) : outcome Utcb.t :=
  let* x := get_value i u in set_value i (x .| v) u.

Definition local_fpage_received (i : nat) (sfp : Z) (u : Utcb.t) : outcome Utcb.t :=
  let* u := or_value i 6 u in set_value (i + 1) sfp u.

Definition obj_id_received (i : nat) (id_n_rights : Z) (u : Utcb.t) : outcome Utcb.t :=
  let* u := or_value i 4 u in set_value (i + 1) id_n_rights u.

Definition flag_empty_map (i : nat) (u : Utcb.t) : outcome Utcb.t := or_value i 2 u.
End rcv_side_item.
End Rcv_side_item.
Import Rcv_side_item.

(** [Space::Caps] *)
Module Caps.
Definition mem := 1.
Definition obj := 2.
Definition io := 4.
End Caps.

(** * The transfer *)

Section transfer.
Context `{AR : Arch} {W : Type} `{MO : !Map_ops W} `{MW : !Meanwhile}.
(** [CONFIG_PF_PC]: the platform has I/O ports. *)
Context (pf_pc : bool).

Implicit Types (s : xfer W) (w : W) (u : Utcb.t).

(** The map operation for a flex page of any kind. *)
Definition fpage_map (from fp_from to fp_to control : Z) w : outcome (Z * W) :=
  if negb (L4_fpage.same_type fp_from fp_to) && negb (L4_fpage.is_all_spaces fp_to)
  then Done (L4_error.code L4_error.None, w)
  else
    let caps := space_caps from w .& space_caps to w in
    if L4_fpage.is_mempage fp_from && nonzero (caps .& Caps.mem) then mem_map from fp_from to fp_to control w
    else if pf_pc && L4_fpage.is_iopage fp_from && nonzero (caps .& Caps.io) then io_map from fp_from to fp_to control w
    else if L4_fpage.is_objpage fp_from && nonzero (caps .& Caps.obj) then obj_map from fp_from to fp_to control w
    else Done (L4_error.code L4_error.None, w).

Definition set_ipc_error (e : Z) s : xfer W :=
  mkXfer (with_error e (snd_utcb s)) (with_error (L4_error.with_phase e L4_error.Rcv) (rcv_utcb s)) (env s).

Definition on_rcv (f : Utcb.t -> outcome Utcb.t) s : outcome (xfer W) :=
  let* u := f (rcv_utcb s) in Done (mkXfer (snd_utcb s) u (env s)).

(** [buf] is the receiver's buffer, [i] the index of the item in its registers. *)
Definition try_transfer_local_id (buf : L4_buf_iter.Item) (sfp : Z) (i : nat) (snd rcv : Z) s : outcome (bool * xfer W) :=
  if L4_msg_item.is_rcv_id (L4_buf_iter.b buf)
  then
    if snd =? rcv
    then let* s := on_rcv (local_fpage_received i sfp) s in Done (true, s)
    else
      let cap := lookup snd (L4_fpage.obj_index sfp) (env s) in
      let o := cap .& mnot 3 in
      if nonzero o && is_local o rcv (env s)
      then
        let rights := (cap .& 3) .& L4_fpage.rights sfp in
        let* s := on_rcv (obj_id_received i (obj_id o (env s) .| rights)) s in Done (true, s)
      else Done (false, s)
  else Done (false, s).

(** The mapping itself, with interrupts enabled. *)
Definition map_locked (n : nat) (snd sfp rcv_t : Z) (buf : L4_buf_iter.Item) (item : Z) s : outcome (Z * xfer W) :=
  let* (e, w) := fpage_map snd sfp rcv_t (L4_buf_iter.d buf) item (env s) in
  Done (e, mkXfer (snd_meanwhile n (snd_utcb s)) (rcv_meanwhile n (rcv_utcb s)) (existence_clear rcv_t w)).

Definition map_one_item (n : nat) (snd item sfp receiver_t : Z) (buf : L4_buf_iter.Item) s : outcome (Z * xfer W) :=
  let overflow := L4_error.code L4_error.Overflow in
  let lock t := match existence_lock t (env s) with
    | (true, w) => map_locked n snd sfp t buf item (mkXfer (snd_utcb s) (rcv_utcb s) w)
    | (false, w) => Done (overflow, mkXfer (snd_utcb s) (rcv_utcb s) w)
    end in
  if L4_msg_item.compound (L4_buf_iter.b buf)
  then
    if negb (L4_obj_ref.valid (L4_buf_iter.target_space buf)) then Done (overflow, s)
    else match lookup_task receiver_t (L4_obj_ref.cap (L4_buf_iter.target_space buf)) L4_fpage.Rights.CS (env s) with
         | Some t => lock t
         | None => Done (overflow, s)
         end
  else lock receiver_t.

(** The three iterators over the receive buffers. *)
Record bufs := mkBufs { mem_buffer : L4_buf_iter.t; io_buffer : L4_buf_iter.t; obj_buffer : L4_buf_iter.t }.

Definition pick (t : L4_fpage.Type_) (b : bufs) : option L4_buf_iter.t :=
  match t with
  | L4_fpage.Memory => Some (mem_buffer b)
  | L4_fpage.Io => Some (io_buffer b)
  | L4_fpage.Obj => Some (obj_buffer b)
  | L4_fpage.Special => None
  end.

Definition put (t : L4_fpage.Type_) (i : L4_buf_iter.t) (b : bufs) : bufs :=
  match t with
  | L4_fpage.Memory => mkBufs i (io_buffer b) (obj_buffer b)
  | L4_fpage.Io => mkBufs (mem_buffer b) i (obj_buffer b)
  | L4_fpage.Obj => mkBufs (mem_buffer b) (io_buffer b) i
  | L4_fpage.Special => b
  end.

Definition fpage_type (fp : Z) : L4_fpage.Type_ :=
  if L4_fpage.is_mempage fp then L4_fpage.Memory
  else if L4_fpage.is_iopage fp then L4_fpage.Io
  else if L4_fpage.is_objpage fp then L4_fpage.Obj else L4_fpage.Special.

Definition overflow s : bool * xfer W := (false, set_ipc_error (L4_error.code L4_error.Overflow) s).

(** The rights an object item is sent with through a restricted IPC gate. *)
Definition diminish (rights sfp : Z) : Z :=
  if L4_fpage.is_objpage sfp
  then L4_fpage.mask_rights sfp (rights .| L4_fpage.Rights.CRW .| L4_fpage.Rights.CD) else sfp.

(** One item that is not void, with the buffer for it; [i] is [rcv_word]. *)
Definition transfer_item (n : nat) (rights snd rcv b d : Z) (buf : L4_buf_iter.Item) (i : nat) s : outcome (bool * xfer W) :=
  let* s := on_rcv (copy_snd_item i b d) s in
  let sfp := diminish rights d in
  let* (r, s) := try_transfer_local_id buf sfp i snd rcv s in
  if r then Done (true, s)
  else
    let* (err, s) := map_one_item n snd b sfp rcv buf s in
    if negb (L4_error.ok err) then Done (false, set_ipc_error err s)
    else if L4_error.empty_map err then let* s := on_rcv (flag_empty_map i) s in Done (true, s)
    else Done (true, s).

(** The loop over the items; [i] is the index [rcv_word - values]. *)
Fixpoint transfer_loop (items : nat) (rights snd rcv : Z) (bs : bufs) (it : L4_snd_item_iter.t) (i : nat) s
  : outcome (bool * xfer W) :=
  match items with
  | O => Done (true, s)
  | S n =>
      if negb (L4_snd_item_iter.more it) then Done (overflow s)
      else match L4_snd_item_iter.next (Utcb.values (snd_utcb s)) it with
      | None => Fault
      | Some (false, _) => Done (overflow s)
      | Some (true, it) =>
          let b := L4_snd_item_iter.b it in
          let d := L4_snd_item_iter.d it in
          if L4_msg_item.is_void b
          then let* s := on_rcv (set_value i 0) s in transfer_loop n rights snd rcv bs it (i + 2) s
          else
            let t := fpage_type d in
            match (if L4_msg_item.type b =? L4_msg_item.Map then pick t bs else None) with
            | None => Done (overflow s)
            | Some bi =>
                let buf := L4_buf_iter.c bi in
                if L4_msg_item.is_void (L4_buf_iter.b buf)
                   || negb (L4_msg_item.type (L4_buf_iter.b buf) =? L4_msg_item.type b)
                then Done (overflow s)
                else
                  let* (ok, s) := transfer_item n rights snd rcv b d buf i s in
                  if negb ok then Done (false, s)
                  else if L4_msg_item.compound b then transfer_loop n rights snd rcv bs it (i + 2) s
                  else match L4_buf_iter.next (Utcb.buffers (rcv_utcb s)) bi with
                       | None => Fault
                       | Some (_, bi) => transfer_loop n rights snd rcv (put t bi bs) it (i + 2) s
                       end
            end
      end
  end.

Definition init_buf (u : Utcb.t) (start : Z) : outcome L4_buf_iter.t :=
  match L4_buf_iter.init (Utcb.buffers u) (Z.to_nat start) with Some i => Done i | None => Fault end.

(** [snd] and [rcv] are the spaces of the two threads; the objects on the reap
    list are deleted on the way out. *)
Definition transfer_msg_items (tag snd rcv rights : Z) s : outcome (bool * xfer W) :=
  let desc := Utcb.buf_desc (rcv_utcb s) in
  let* m := init_buf (rcv_utcb s) (L4_buf_desc.mem desc) in
  let* i := init_buf (rcv_utcb s) (L4_buf_desc.io desc) in
  let* o := init_buf (rcv_utcb s) (L4_buf_desc.obj desc) in
  let words := Z.to_nat (L4_msg_tag.words tag) in
  let* (ok, s) := transfer_loop (Z.to_nat (L4_msg_tag.items tag)) rights snd rcv (mkBufs m i o)
                    (L4_snd_item_iter.init words) words s in
  Done (ok, mkXfer (snd_utcb s) (rcv_utcb s) (reap_del (env s))).

(** [memcpy_mwords] to the registers of the receiver. *)
Definition copy_words (n : nat) s : xfer W :=
  mkXfer (snd_utcb s)
    (with_values (take n (Utcb.values (snd_utcb s)) ++ drop n (Utcb.values (rcv_utcb s))) (rcv_utcb s)) (env s).

(** The second result tells whether the FPU state goes to the receiver. *)
Definition copy_utcb_to_utcb (tag snd rcv rights : Z) s : outcome (bool * bool * xfer W) :=
  let w := Z.to_nat (L4_msg_tag.words tag) in
  let s := copy_words (if (Utcb.Max_words <? w)%nat then Utcb.Max_words else w) s in
  let* (success, s) :=
    if nonzero (L4_msg_tag.items tag) then transfer_msg_items tag snd rcv rights s else Done (true, s) in
  Done (success,
        success && L4_msg_tag.transfer_fpu tag && Utcb.inherit_fpu (rcv_utcb s) && nonzero (rights .& L4_fpage.Rights.CS), s).

End transfer.
#[global] Arguments bufs : clear implicits.

(** * Labels *)

(** [modify_label] of a queued sender: the first quadruple that matches. *)
Fixpoint modify_label `{Arch} (l : Z) (todo : list (Z * Z * Z * Z)) : Z :=
  match todo with
  | [] => l
  | (test_mask, test, del_mask, add_mask) :: todo =>
      if (l .& test_mask) =? test then (l .& mnot del_mask) .| add_mask else modify_label l todo
  end.

(** * Messages the kernel sends for a thread *)

(** The page-fault conventions of the processor. *)
Class PF := {
  addr_to_msgword0 : Z -> Z -> Z;
  is_usermode_error : Z -> bool }.

Section kernel_messages.
Context `{AR : Arch} `{!PF}.

Definition set_value' (i : nat) (v : Z) (u : Utcb.t) : Utcb.t := with_values (<[i := v]> (Utcb.values u)) u.

(** One receive buffer that takes everything. *)
Definition setup_buffers (u : Utcb.t) : Utcb.t :=
  with_buffers (L4_buf_desc.make 0 0 0 L4_buf_desc.Inherit_fpu)
    (<[1%nat := L4_fpage.all_spaces 0]> (<[0%nat := L4_msg_item.map]> (Utcb.buffers u))) u.

(** [pager->invoke] with the tag of the message; it returns the tag of the
    reply.  [canceled] is the flag of the thread when it is back.  Without a
    pager the thread is killed ([None]). *)
Definition handle_page_fault_pager (invoke : option (Z -> Utcb.t -> outcome (Z * Utcb.t))) (canceled : bool)
    (pfa error_code ip protocol : Z) (u : Utcb.t) : outcome (option bool * Utcb.t) :=
  match invoke with
  | None => Done (None, u)
  | Some invoke =>
      let saved := Pf_msg_utcb_saver.save u in
      let u := setup_buffers u in
      let u := set_value' 1 ip (set_value' 0 (addr_to_msgword0 pfa error_code) u) in
      let* (tag, u) := invoke (L4_msg_tag.make 2 0 0 protocol) u in
      let success :=
        if L4_msg_tag.has_error tag
        then negb (L4_error.snd_phase (Utcb.error u)
                   && (L4_error.error (Utcb.error u) =? L4_error.code L4_error.Not_existent)
                   && is_usermode_error error_code && negb canceled)
        else negb ((L4_msg_tag.proto tag <? 0) || (Utcb.values u !!! 0%nat =? mnot 0)) in
      Done (Some success, Pf_msg_utcb_saver.restore saved u)
  end.

(** The exception message: its words are the trap state, which the handler's
    reply changes ([handler->invoke]); only the buffers are saved.
    [msg_size] and [proto] are [L4_exception_ipc::Msg_size] and
    [L4_msg_tag::Label_exception]. *)
Definition exception {TS : Type} (invoke : Z -> TS -> Utcb.t -> outcome (TS * Utcb.t)) (msg_size proto : Z)
    (ts : TS) (u : Utcb.t) : outcome (TS * Utcb.t) :=
  let saved := Buf_utcb_saver.save u in
  let* (ts, u) := invoke (L4_msg_tag.make msg_size 0 L4_msg_tag.Transfer_fpu proto) ts (setup_buffers u) in
  Done (ts, Buf_utcb_saver.restore saved u).
End kernel_messages.
