(* ===== verification/IpcMsgSpec.v ===== *)
(** Theorems about the transfer of messages: the registers that it writes, the
    rights that it passes on, what the receiver finds in its registers, and the
    parts of a UTCB that page-fault and exception messages save. *)

From S2P Require Import Prelude Outcome L4Types MapUtil ObjSpace ObjSpec IpcMsg.
Import Rcv_side_item.

(** * Writing registers *)

Section registers.
Context `{AR : Arch}.
Implicit Types (u : Utcb.t) (i : nat).

(** [u'] differs from [u] in no more than the two registers at [i]. *)
Record touched i u u' : Prop := {
  t_wf : Utcb.wf u';
  t_other : forall j, j <> i -> j <> (i + 1)%nat -> Utcb.values u' !! j = Utcb.values u !! j;
  t_rest : forall v, with_values v u' = with_values v u }.

Lemma touched_refl i u : Utcb.wf u -> touched i u u.
Proof. by constructor. Qed.

Lemma touched_trans i u1 u2 u3 : touched i u1 u2 -> touched i u2 u3 -> touched i u1 u3.
Proof. intros [_ H1 R1] [Hw H2 R2]. split; [done | intros; by rewrite H2, H1 | intros; by rewrite R2, R1]. Qed.

Lemma set_value_ok i j v u : Utcb.wf u -> (j < Utcb.Max_words)%nat -> j = i \/ j = (i + 1)%nat ->
  exists u', set_value j v u = Done u' /\ touched i u u' /\ Utcb.values u' = <[j := v]> (Utcb.values u).
Proof.
  intros [Hv Hb] Hj Hij. unfold set_value. rewrite Hv. destruct (Nat.ltb_spec j Utcb.Max_words); [|lia].
  eexists. split_and!; [done | | done]. split; [split; [cbn; by rewrite length_insert | done] | | done].
  intros k Hk1 Hk2. cbn. apply list_lookup_insert_ne. lia.
Qed.

Lemma or_value_ok i v u : Utcb.wf u -> (i < Utcb.Max_words)%nat ->
  exists x u', Utcb.values u !! i = Some x /\ or_value i v u = Done u' /\ touched i u u'
    /\ Utcb.values u' = <[i := x .| v]> (Utcb.values u).
Proof.
  intros Hw Hi. destruct (lookup_lt_is_Some_2 (Utcb.values u) i) as [x Hx]; [by rewrite (proj1 Hw)|].
  destruct (set_value_ok i i (x .| v) u) as (u' & Hs & Ht & Hv); [done | done | by left |].
  exists x, u'. unfold or_value, get_value. rewrite Hx. by cbn.
Qed.
End registers.

(** The three ways to fetch a send item. *)
Inductive fetched (values : list Z) (it : L4_snd_item_iter.t) : option (bool * L4_snd_item_iter.t) -> Prop :=
  | fetched_void : values !! L4_snd_item_iter._buf it = Some 0 ->
      fetched values it (Some (true, L4_snd_item_iter.mk (L4_snd_item_iter._buf it + 2) 0 0))
  | fetched_last it' : fetched values it (Some (false, it'))
  | fetched_item b d : values !! L4_snd_item_iter._buf it = Some b -> L4_msg_item.is_void b = false ->
      (L4_snd_item_iter._buf it + 1 < Utcb.Max_words)%nat -> values !! (L4_snd_item_iter._buf it + 1)%nat = Some d ->
      fetched values it (Some (true, L4_snd_item_iter.mk (L4_snd_item_iter._buf it + 2) b d)).

Lemma snd_item_fetch values it : length values = Utcb.Max_words -> L4_snd_item_iter.more it = true ->
  fetched values it (L4_snd_item_iter.next values it).
Proof.
  intros Hlen Hm%Nat.ltb_lt. unfold L4_snd_item_iter.next.
  destruct (lookup_lt_is_Some_2 values (L4_snd_item_iter._buf it)) as [b E]; [lia|]. rewrite E. cbn [mbind option_bind].
  destruct (L4_msg_item.is_void b) eqn:Ev.
  { unfold L4_msg_item.is_void in Ev. apply Z.eqb_eq in Ev as ->. by constructor. }
  destruct (Nat.leb_spec Utcb.Max_words (L4_snd_item_iter._buf it + 1)); [by econstructor|].
  destruct (lookup_lt_is_Some_2 values (L4_snd_item_iter._buf it + 1)%nat) as [d Ed]; [lia|]. rewrite Ed. by constructor.
Qed.

(** * The transfer of items *)

(** What a map operation may be asked to send: the weak right [CS] of objects
    only with the right [CS] of the gate. *)
Definition sendable `{Arch} (rights fp : Z) : Prop :=
  L4_fpage.is_objpage fp = true -> Z.testbit fp 1 = true -> Z.testbit rights 1 = true.

Section laws.
Context `{AR : Arch} {W : Type} `{MO : !Map_ops W} (pf_pc : bool).

(** The contract of the map operations with the transfer: on the states [I],
    between the sender's space [snd] and a task in [T], sending no more than
    the rights of the gate, they end without a fault, keep [I] and do no more
    than [R]. *)
Class Map_laws (I : W -> Prop) (R : relation W) (T : Z -> Prop) (snd rcv rights : Z) := {
  ml_pre :: PreOrder R;
  ml_rcv : T rcv;
  ml_task : forall c w t, I w -> lookup_task rcv c L4_fpage.Rights.CS w = Some t -> T t;
  ml_lock : forall t w, I w -> I (existence_lock t w).2 /\ R w (existence_lock t w).2;
  ml_clear : forall t w, I w -> I (existence_clear t w) /\ R w (existence_clear t w);
  ml_reap : forall w, I w -> I (reap_del w) /\ R w (reap_del w);
  ml_map : forall fp to fp' control w, I w -> T to -> sendable rights fp ->
    exists c w', fpage_map pf_pc snd fp to fp' control w = Done (c, w') /\ I w' /\ R w w' }.
End laws.

#[global] Arguments ml_task {_ _ _ _ _ _ _ _ _ _ _} _ _ _ _ _.
#[global] Arguments ml_rcv {_ _ _ _ _ _ _ _ _ _ _}.
#[global] Arguments ml_lock {_ _ _ _ _ _ _ _ _ _ _} _ _ _.
#[global] Arguments ml_clear {_ _ _ _ _ _ _ _ _ _ _} _ _ _.
#[global] Arguments ml_reap {_ _ _ _ _ _ _ _ _ _ _} _ _.
#[global] Arguments ml_map {_ _ _ _ _ _ _ _ _ _ _} _ _ _ _ _ _ _ _.

(** Other threads can write registers, but not change their number. *)
Class Meanwhile_wf `{Arch} (MW : Meanwhile) := {
  snd_wf : forall n u, Utcb.wf u -> Utcb.wf (snd_meanwhile n u);
  rcv_wf : forall n u, Utcb.wf u -> Utcb.wf (rcv_meanwhile n u) }.

Section safety.
Context `{AR : Arch} {W : Type} `{MO : !Map_ops W} `{MW : !Meanwhile} `{!Meanwhile_wf MW} (pf_pc : bool).
Context (I : W -> Prop) (R : relation W) (T : Z -> Prop) (snd rcv rights : Z).
Context `{ML : !Map_laws pf_pc I R T snd rcv rights}.
Implicit Types (s : xfer W) (w : W).

Definition xfer_ok s : Prop := Utcb.wf (snd_utcb s) /\ Utcb.wf (rcv_utcb s) /\ I (env s).

(** A part of the transfer ended in the state [s'] without a fault. *)
Definition safe_to s (s' : xfer W) : Prop := xfer_ok s' /\ R (env s) (env s').

Lemma diminish_sendable sfp : sendable rights (diminish rights sfp).
Proof.
  intros Ho. unfold diminish in *. destruct (L4_fpage.is_objpage sfp) eqn:E; [|by rewrite E in Ho].
  unfold L4_fpage.mask_rights. pose proof arch_ge32. rewrite Z.land_spec, !Z.lor_spec, testbit_mnot by lia.
  rewrite testbit_mask by (unfold field; lia).
  change (Z.testbit L4_fpage.Rights.CRW 1) with false. change (Z.testbit L4_fpage.Rights.CD 1) with false.
  replace (1 <? MWORD_BITS) with true by (symmetry; apply Z.ltb_lt; lia). cbn.
  rewrite !orb_false_r. by intros [_ ?]%andb_true_iff.
Qed.

Lemma on_rcv_ok i f s : xfer_ok s -> (exists u', f (rcv_utcb s) = Done u' /\ touched i (rcv_utcb s) u') ->
  exists s', on_rcv f s = Done s' /\ safe_to s s'.
Proof.
  intros (Hs & Hr & Hi) (u' & Hf & Ht). unfold on_rcv. rewrite Hf. cbn.
  eexists. split; [done|]. split; [split_and!; [done | by destruct Ht | done] | cbn; reflexivity].
Qed.

Lemma safe_to_trans s1 s2 s3 : safe_to s1 s2 -> safe_to s2 s3 -> safe_to s1 s3.
Proof. intros [_ H1] [? H2]. split; [done | by etrans]. Qed.

Lemma safe_to_refl s : xfer_ok s -> safe_to s s.
Proof. by split. Qed.

Lemma set_ipc_error_safe e s : xfer_ok s -> safe_to s (set_ipc_error e s).
Proof. intros (? & ? & ?). split; [by split_and! | cbn; reflexivity]. Qed.

Lemma try_local_safe buf sfp i s : xfer_ok s -> (i + 1 < Utcb.Max_words)%nat ->
  exists r s', try_transfer_local_id buf sfp i snd rcv s = Done (r, s') /\ safe_to s s'.
Proof.
  intros Hs Hi. unfold try_transfer_local_id.
  assert (forall v x : Z, exists s', on_rcv (fun u => let* u := or_value i v u in set_value (i + 1) x u) s = Done s' /\ safe_to s s') as Hboth.
  { intros v x. apply (on_rcv_ok i); [done|]. destruct (or_value_ok i v (rcv_utcb s)) as (y & u1 & _ & H1 & Ht1 & _); [apply Hs | lia |].
    destruct (set_value_ok i (i + 1) x u1) as (u2 & H2 & Ht2 & _); [apply Ht1 | lia | by right |].
    exists u2. rewrite H1. cbn. split; [done | by eapply touched_trans]. }
  assert (exists (r : bool) s', Done (false, s) = Done (r, s') /\ safe_to s s') as Hno by (by eexists _, _; split; [|apply safe_to_refl]).
  destruct (L4_msg_item.is_rcv_id _); [|done]. destruct (snd =? rcv).
  - destruct (Hboth 6 sfp) as (s' & E & H). unfold local_fpage_received. rewrite E. by eexists _, _.
  - destruct (_ && _); [|done]. edestruct (Hboth 4) as (s' & E & H). unfold obj_id_received. rewrite E. by eexists _, _.
Qed.

Lemma lock_case n t b sfp (item : Z) s : xfer_ok s -> T t -> sendable rights sfp ->
  exists e s', match existence_lock t (env s) with
    | (true, w) => map_locked pf_pc n snd sfp t b item (mkXfer (snd_utcb s) (rcv_utcb s) w)
    | (false, w) => Done (L4_error.code L4_error.Overflow, mkXfer (snd_utcb s) (rcv_utcb s) w)
    end = Done (e, s') /\ safe_to s s'.
Proof.
  intros (Hws & Hwr & Hi) Ht Hf. destruct (ml_lock t _ Hi) as [Hi1 Hr1].
  destruct (existence_lock t (env s)) as [[] w] eqn:E; cbn in *.
  - unfold map_locked. destruct (ml_map sfp t (L4_buf_iter.d b) item w Hi1 Ht Hf) as (c & w' & Hm & Hi2 & Hr2).
    destruct (ml_clear t _ Hi2) as [Hi3 Hr3]. cbn. rewrite Hm. cbn. eexists _, _. split; [done|].
    split; [split_and!; [by apply snd_wf | by apply rcv_wf | done] | cbn; by do 2 (etrans; [done|])].
  - eexists _, _. split; [done|]. by split; [split_and! |].
Qed.

Lemma map_one_item_safe n item sfp buf s : xfer_ok s -> sendable rights sfp ->
  exists e s', map_one_item pf_pc n snd item sfp rcv buf s = Done (e, s') /\ safe_to s s'.
Proof.
  intros Hs Hf. unfold map_one_item. destruct (L4_msg_item.compound _).
  - destruct (L4_obj_ref.valid _); cbn; [|by eexists _, _; split; [|apply safe_to_refl]].
    destruct (lookup_task _ _ _ _) as [t|] eqn:E; [|by eexists _, _; split; [|apply safe_to_refl]].
    apply lock_case; [done | | done]. by eapply ml_task; [apply Hs|].
  - apply lock_case; [done | apply ml_rcv | done].
Qed.

Lemma transfer_item_safe n b d buf i s : xfer_ok s -> (i + 1 < Utcb.Max_words)%nat ->
  exists r s', transfer_item pf_pc n rights snd rcv b d buf i s = Done (r, s') /\ safe_to s s'.
Proof.
  intros Hs Hi. unfold transfer_item.
  edestruct (on_rcv_ok i (copy_snd_item i b d) s) as (s1 & E1 & H1); [done | |].
  { destruct (set_value_ok i i ((b .& mnot 0x0ff6) .| (d .& 0x0ff0)) (rcv_utcb s)) as (u & ? & ? & _); [apply Hs | lia | by left | by exists u]. }
  rewrite E1. cbn [obind].
  destruct (try_local_safe buf (diminish rights d) i s1) as (r & s2 & E2 & H2); [apply H1 | done |].
  rewrite E2. cbn [obind]. assert (safe_to s s2) as H02 by by eapply safe_to_trans.
  destruct r; [by eexists _, _|].
  destruct (map_one_item_safe n b (diminish rights d) buf s2) as (e & s3 & E3 & H3); [apply H2 | apply diminish_sendable |].
  rewrite E3. cbn [obind]. assert (safe_to s s3) as H03 by by eapply safe_to_trans.
  destruct (L4_error.ok e); cbn [negb].
  2: { eexists _, _. split; [done|]. eapply safe_to_trans; [done | apply set_ipc_error_safe, H3]. }
  destruct (L4_error.empty_map e); [|by eexists _, _].
  edestruct (on_rcv_ok i (flag_empty_map i) s3) as (s4 & E4 & H4); [apply H3 | |].
  { destruct (or_value_ok i 2 (rcv_utcb s3)) as (x & u & _ & ? & ? & _); [apply H3 | lia | by exists u]. }
  rewrite E4. cbn. eexists _, _. split; [done | by eapply safe_to_trans].
Qed.

Lemma transfer_loop_safe items : forall bs it s, xfer_ok s ->
  exists r s', transfer_loop pf_pc items rights snd rcv bs it (L4_snd_item_iter._buf it) s = Done (r, s') /\ safe_to s s'.
Proof.
  induction items as [|n IH]; intros bs it s Hs; [by eexists _, _; split; [|apply safe_to_refl]|]. cbn [transfer_loop].
  assert (exists r s', Done (overflow s) = Done (r, s') /\ safe_to s s') as Hover
    by (eexists _, _; split; [done | by apply set_ipc_error_safe]).
  destruct (L4_snd_item_iter.more it) eqn:Hm; cbn [negb]; [|done].
  destruct (snd_item_fetch (Utcb.values (snd_utcb s)) it) as [Hv | it' | b d Hb Hv Hi Hd]; [apply Hs | done | | done |]; cbn.
  - edestruct (on_rcv_ok (L4_snd_item_iter._buf it) (set_value (L4_snd_item_iter._buf it) 0) s) as (s1 & E1 & H1); [done | |].
    { apply Nat.ltb_lt in Hm. edestruct set_value_ok as (u & ? & ? & _); [apply Hs | done | by left | by exists u]. }
    rewrite E1. cbn. destruct (IH bs (L4_snd_item_iter.mk (L4_snd_item_iter._buf it + 2) 0 0) s1) as (r & s' & E & H); [apply H1|].
    exists r, s'. split; [done | by eapply safe_to_trans].
  - rewrite Hv. destruct (if L4_msg_item.type b =? _ then pick (fpage_type d) bs else None) as [bi|]; [|done]. destruct (_ || _); [done|].
    destruct (transfer_item_safe n b d (L4_buf_iter.c bi) (L4_snd_item_iter._buf it) s) as (r & s1 & E1 & H1); [done | done |].
    rewrite E1. cbn [obind]. destruct r; [|by eexists _, _]. cbn [negb].
    destruct (IH bs (L4_snd_item_iter.mk (L4_snd_item_iter._buf it + 2) b d) s1) as (r & s' & E & H); [apply H1|].
    destruct (L4_msg_item.compound b); [exists r, s'; split; [done | by eapply safe_to_trans]|].
    destruct (buf_iter_next_safe (Utcb.buffers (rcv_utcb s1)) bi) as (r1 & bi' & -> & _); [apply H1|].
    destruct (IH (put (fpage_type d) bi' bs) (L4_snd_item_iter.mk (L4_snd_item_iter._buf it + 2) b d) s1) as (r2 & s2 & E2 & H2); [apply H1|].
    exists r2, s2. split; [done | by eapply safe_to_trans].
Qed.

Lemma init_buf_ok u start : Utcb.wf u -> exists b, init_buf u start = Done b.
Proof.
  intros Hu. unfold init_buf, L4_buf_iter.init.
  edestruct buf_iter_next_safe as (r & b & -> & _); [apply Hu|]. by exists b.
Qed.

Lemma transfer_items_safe tag s : xfer_ok s ->
  exists r s', transfer_msg_items pf_pc tag snd rcv rights s = Done (r, s') /\ safe_to s s'.
Proof.
  intros Hs. unfold transfer_msg_items.
  destruct (init_buf_ok (rcv_utcb s) (L4_buf_desc.mem (Utcb.buf_desc (rcv_utcb s)))) as (m & ->); [apply Hs|].
  destruct (init_buf_ok (rcv_utcb s) (L4_buf_desc.io (Utcb.buf_desc (rcv_utcb s)))) as (i & ->); [apply Hs|].
  destruct (init_buf_ok (rcv_utcb s) (L4_buf_desc.obj (Utcb.buf_desc (rcv_utcb s)))) as (o & ->); [apply Hs|]. cbn [obind].
  destruct (transfer_loop_safe (Z.to_nat (L4_msg_tag.items tag)) (mkBufs m i o)
    (L4_snd_item_iter.init (Z.to_nat (L4_msg_tag.words tag))) s Hs) as (r & s' & E & (Hs1 & Hs2 & Hs3) & HR).
  cbn [L4_snd_item_iter.init L4_snd_item_iter._buf] in E. rewrite E. cbn [obind].
  destruct (ml_reap _ Hs3) as [Hi4 HR4]. eexists _, _. split; [done|]. split; [by split_and! | cbn; by etrans].
Qed.

Lemma copy_words_ok n s : xfer_ok s -> (n <= Utcb.Max_words)%nat -> safe_to s (copy_words n s).
Proof.
  intros ([Hv Hb] & [Hv' Hb'] & Hi) Hn. split; [|cbn; reflexivity]. split_and!; [done | | done].
  split; [|done]. cbn. rewrite length_app, length_take, length_drop. rewrite Hv, Hv'. lia.
Qed.

(** C12: Whatever other threads write to the two UTCBs while items are mapped, and
    however long message and buffers are, the transfer of a message ends, writes
    no register outside of the receiver's message registers, and asks only for
    map operations from the sender's space to the receiver's task or one the
    receiver named, with the special right of an object only when it was sent
    through a gate with that right. *)
Theorem transfer_confined tag s : xfer_ok s ->
  exists r fpu s', copy_utcb_to_utcb pf_pc tag snd rcv rights s = Done (r, fpu, s') /\ xfer_ok s' /\ R (env s) (env s')
    /\ (fpu = true -> r = true /\ Z.testbit rights 1 = true).
Proof.
  intros Hs. unfold copy_utcb_to_utcb. set (n := if (_ <? _)%nat then _ else _).
  assert (n <= Utcb.Max_words)%nat as Hn by (unfold n; destruct (Nat.ltb_spec Utcb.Max_words (Z.to_nat (L4_msg_tag.words tag))); lia).
  pose proof (copy_words_ok n s Hs Hn) as Hc.
  assert (exists r s', (if nonzero (L4_msg_tag.items tag) then transfer_msg_items pf_pc tag snd rcv rights (copy_words n s)
    else Done (true, copy_words n s)) = Done (r, s') /\ safe_to (copy_words n s) s') as (r & s' & E & H).
  { destruct (nonzero _); [apply transfer_items_safe, Hc|]. eexists _, _. split; [done | by apply safe_to_refl, Hc]. }
  rewrite E. cbn [obind]. destruct (safe_to_trans _ _ _ Hc H) as [? ?].
  eexists _, _, _. split_and!; [done | done | done |]. intros [[[? ?]%andb_true_iff ?]%andb_true_iff Hcs]%andb_true_iff.
  split; [done|]. unfold nonzero in Hcs. change L4_fpage.Rights.CS with (2 ^ 1) in Hcs.
  destruct (Z.testbit rights 1) eqn:Eb; [done|]. apply negb_true_iff, Z.eqb_neq in Hcs. destruct Hcs.
  apply Z.bits_inj'. intros k Hk. rewrite Z.land_spec, Z.pow2_bits_eqb, Z.bits_0 by lia.
  destruct (Z.eqb_spec 1 k) as [<-|]; [by rewrite Eb | apply andb_false_r].
Qed.
End safety.

(** * What the receiver finds *)

Section delivery.
Context `{AR : Arch} {W : Type} `{MO : !Map_ops W} `{MW : !Meanwhile} (pf_pc : bool) (snd rcv rights : Z).
(** Nobody else writes the two UTCBs. *)
Hypothesis quiet_snd : forall n u, snd_meanwhile n u = u.
Hypothesis quiet_rcv : forall n u, rcv_meanwhile n u = u.
Implicit Types (s : xfer W) (w : W).

(** The task that the buffer [buf] of the receiver names for a mapping. *)
Definition destination (buf : L4_buf_iter.Item) (w : W) (t : Z) : Prop :=
  if L4_msg_item.compound (L4_buf_iter.b buf)
  then L4_obj_ref.valid (L4_buf_iter.target_space buf) = true
    /\ lookup_task rcv (L4_obj_ref.cap (L4_buf_iter.target_space buf)) L4_fpage.Rights.CS w = Some t
  else t = rcv.

(** The capability at the sender is for an object that is local to the receiver. *)
Definition local_object (d : Z) (w : W) : bool :=
  let o := lookup snd (L4_fpage.obj_index (diminish rights d)) w .& mnot 3 in nonzero o && is_local o rcv w.

(** The first register of an item before flags are added. *)
Definition item_word (b d : Z) : Z := (b .& mnot 0x0ff6) .| (d .& 0x0ff0).

(** How the item [b], [d] is passed on with the receiver's buffer [buf], in the
    state [w] of the kernel, which becomes [w']; the last two are the registers of
    the item at the receiver, where [old] was in the second one.  A buffer that
    asks for names gets the flex page when both threads share a space, and the
    label of an object that is local to the receiver; everything else is mapped,
    and flagged exactly when the map operation found nothing to map. *)
Inductive received (buf : L4_buf_iter.Item) (b d : Z) (old : option Z) (w : W) : W -> Z -> option Z -> Prop :=
  | received_fpage : L4_msg_item.is_rcv_id (L4_buf_iter.b buf) = true -> snd = rcv ->
      received buf b d old w w (item_word b d .| 6) (Some (diminish rights d))
  | received_id cap : L4_msg_item.is_rcv_id (L4_buf_iter.b buf) = true -> snd <> rcv -> local_object d w = true ->
      cap = lookup snd (L4_fpage.obj_index (diminish rights d)) w ->
      received buf b d old w w (item_word b d .| 4)
        (Some (obj_id (cap .& mnot 3) w .| ((cap .& 3) .& L4_fpage.rights (diminish rights d))))
  | received_map t w1 e w2 :
      L4_msg_item.is_rcv_id (L4_buf_iter.b buf) && ((snd =? rcv) || local_object d w) = false ->
      destination buf w t -> existence_lock t w = (true, w1) ->
      fpage_map pf_pc snd (diminish rights d) t (L4_buf_iter.d buf) b w1 = Done (e, w2) -> L4_error.ok e = true ->
      received buf b d old w (existence_clear t w2)
        (if L4_error.empty_map e then item_word b d .| 2 else item_word b d) old.

(** The parts of both UTCBs that an item leaves alone. *)
Record item_frame (P : nat -> Prop) s s' : Prop := {
  if_snd : Utcb.values (snd_utcb s') = Utcb.values (snd_utcb s);
  if_len : length (Utcb.values (rcv_utcb s')) = length (Utcb.values (rcv_utcb s));
  if_other : forall j, P j -> Utcb.values (rcv_utcb s') !! j = Utcb.values (rcv_utcb s) !! j;
  if_buffers : Utcb.buffers (rcv_utcb s') = Utcb.buffers (rcv_utcb s);
  if_desc : Utcb.buf_desc (rcv_utcb s') = Utcb.buf_desc (rcv_utcb s) }.

Lemma item_frame_refl P s : item_frame P s s.
Proof. done. Qed.

Lemma item_frame_trans (P Q : nat -> Prop) s1 s2 s3 : item_frame P s1 s2 -> item_frame Q s2 s3 ->
  item_frame (fun j => P j /\ Q j) s1 s3.
Proof.
  intros [] []. split; try (by etrans); try congruence. intros j [Hp Hq]. etrans; [by apply if_other1 | by apply if_other0].
Qed.

Lemma item_frame_weaken (P Q : nat -> Prop) s s' : (forall j, Q j -> P j) -> item_frame P s s' -> item_frame Q s s'.
Proof. intros HQ []. split; auto. Qed.

(** How a transfer reports its result. *)
Definition reports (r : bool) s s' : Prop :=
  if r then Utcb.error (snd_utcb s') = Utcb.error (snd_utcb s) /\ Utcb.error (rcv_utcb s') = Utcb.error (rcv_utcb s)
  else exists e, L4_error.ok e = false /\ Utcb.error (snd_utcb s') = e /\ Utcb.error (rcv_utcb s') = e .| L4_error.Rcv.

Lemma on_rcv_set i v s s' : on_rcv (set_value i v) s = Done s' ->
  item_frame (fun j => j <> i) s s' /\ reports true s s' /\ Utcb.values (rcv_utcb s') !! i = Some v.
Proof.
  unfold on_rcv, set_value. destruct (Nat.ltb_spec i (length (Utcb.values (rcv_utcb s)))) as [Hi|]; [|done]. cbn. intros [= <-].
  split; [|split; [done | cbn; by apply list_lookup_insert_eq]]. split; cbn; [done | apply length_insert | | done | done].
  intros j Hj. by apply list_lookup_insert_ne.
Qed.

Lemma on_rcv_or i v x s s' : Utcb.values (rcv_utcb s) !! i = Some x -> on_rcv (or_value i v) s = Done s' ->
  item_frame (fun j => j <> i) s s' /\ reports true s s' /\ Utcb.values (rcv_utcb s') !! i = Some (x .| v).
Proof. intros Hx. unfold on_rcv, or_value, get_value. rewrite Hx. cbn. apply on_rcv_set. Qed.

Lemma reports_trans r s1 s2 s3 : reports true s1 s2 -> reports r s2 s3 -> reports r s1 s3.
Proof. intros [H1 H2]. destruct r; [|done]. intros [H3 H4]. split; congruence. Qed.

(** Setting the flags and the second register of an item. *)
Lemma on_rcv_pair i v x y s s' : Utcb.values (rcv_utcb s) !! i = Some x ->
  on_rcv (fun u => let* u := or_value i v u in set_value (i + 1) y u) s = Done s' ->
  item_frame (fun j => j <> i /\ j <> i + 1)%nat s s' /\ reports true s s'
  /\ Utcb.values (rcv_utcb s') !! i = Some (x .| v) /\ Utcb.values (rcv_utcb s') !! (i + 1)%nat = Some y.
Proof.
  intros Hx H. destruct (on_rcv (or_value i v) s) as [s1| |] eqn:E1.
  2,3: unfold on_rcv in *; destruct (or_value i v (rcv_utcb s)); cbn in *; done.
  destruct (on_rcv (set_value (i + 1) y) s1) as [s2| |] eqn:E2.
  2,3: unfold on_rcv in *; destruct (or_value i v (rcv_utcb s)); cbn in *; [|done..]; injection E1 as <-; cbn in *;
       destruct (set_value (i + 1) y a); done.
  assert (s' = s2) as ->.
  { unfold on_rcv in *. destruct (or_value i v (rcv_utcb s)); cbn in *; [|done..]. injection E1 as <-. cbn in *.
    destruct (set_value (i + 1) y a); cbn in *; congruence. }
  destruct (on_rcv_or i v x s s1 Hx E1) as (F1 & R1 & V1). destruct (on_rcv_set _ _ _ _ E2) as (F2 & R2 & V2).
  split_and!; [| by eapply reports_trans | | done].
  - eapply item_frame_weaken; [|by eapply item_frame_trans]. by intros j [].
  - rewrite (if_other _ _ _ F2) by lia. done.
Qed.

Lemma on_rcv_env f s s' : on_rcv f s = Done s' -> env s' = env s.
Proof. unfold on_rcv. destruct (f (rcv_utcb s)); [|done..]. cbn. by intros [= <-]. Qed.

(** What has happened when [map_one_item] ends: the UTCBs are as before, and
    without an error the destination was locked, the flex page mapped and the
    lock given back. *)
Definition mapped buf b d (w : W) (e : Z) (w' : W) : Prop := exists t w1 w2,
  destination buf w t /\ existence_lock t w = (true, w1)
  /\ fpage_map pf_pc snd (diminish rights d) t (L4_buf_iter.d buf) b w1 = Done (e, w2) /\ w' = existence_clear t w2.

Lemma lock_eff n t b d buf s e s' : destination buf (env s) t ->
  match existence_lock t (env s) with
    | (true, w) => map_locked pf_pc n snd (diminish rights d) t buf b (mkXfer (snd_utcb s) (rcv_utcb s) w)
    | (false, w) => Done (L4_error.code L4_error.Overflow, mkXfer (snd_utcb s) (rcv_utcb s) w)
    end = Done (e, s') ->
  snd_utcb s' = snd_utcb s /\ rcv_utcb s' = rcv_utcb s /\ (L4_error.ok e = true -> mapped buf b d (env s) e (env s')).
Proof.
  intros Ht. destruct (existence_lock t (env s)) as [[] w1] eqn:El; [|by intros [= <- <-]].
  unfold map_locked. destruct (fpage_map _ _ _ _ _ _ _) as [[e0 w2]| |] eqn:E; [|done..]. intros [= <- <-]. cbn in *.
  rewrite quiet_snd, quiet_rcv. split_and!; [done.. | intros _]. by exists t, w1, w2.
Qed.

Lemma map_one_eff n b d buf s e s' : map_one_item pf_pc n snd b (diminish rights d) rcv buf s = Done (e, s') ->
  snd_utcb s' = snd_utcb s /\ rcv_utcb s' = rcv_utcb s /\ (L4_error.ok e = true -> mapped buf b d (env s) e (env s')).
Proof.
  unfold map_one_item. destruct (L4_msg_item.compound _) eqn:Ec.
  - destruct (L4_obj_ref.valid _) eqn:Ev; cbn [negb]; [|by intros [= <- <-]].
    destruct (lookup_task _ _ _ _) as [t|] eqn:E; [|by intros [= <- <-]].
    apply lock_eff. unfold destination. by rewrite Ec.
  - apply lock_eff. unfold destination. by rewrite Ec.
Qed.

(** The second register, the kernel's state and the registers of an item that
    is passed on as a name. *)
Lemma try_local_eff buf b d i s r s' : Utcb.values (rcv_utcb s) !! i = Some (item_word b d) ->
  try_transfer_local_id buf (diminish rights d) i snd rcv s = Done (r, s') ->
  if r then item_frame (fun j => j <> i /\ j <> i + 1)%nat s s' /\ reports true s s'
    /\ exists x0 x1, (forall old, received buf b d old (env s) (env s') x0 x1)
        /\ Utcb.values (rcv_utcb s') !! i = Some x0 /\ Utcb.values (rcv_utcb s') !! (i + 1)%nat = x1
  else s' = s /\ L4_msg_item.is_rcv_id (L4_buf_iter.b buf) && ((snd =? rcv) || local_object d (env s)) = false.
Proof.
  intros Hx. unfold try_transfer_local_id. destruct (L4_msg_item.is_rcv_id _) eqn:Ei; [|by intros [= <- <-]].
  destruct (Z.eqb_spec snd rcv) as [Heq|Hne].
  - destruct (on_rcv _ s) as [s1| |] eqn:E; [|done..]. cbn. intros [= <- <-]. rewrite (on_rcv_env _ _ _ E).
    destruct (on_rcv_pair i 6 _ _ s s1 Hx E) as (? & ? & ? & ?). split; [done | split; [done|]].
    eexists _, _. split_and!; [|done | done]. intros old. by apply received_fpage.
  - fold (local_object d (env s)). destruct (local_object d (env s)) eqn:El; [|by intros [= <- <-]].
    destruct (on_rcv _ s) as [s1| |] eqn:E; [|done..]. cbn. intros [= <- <-]. rewrite (on_rcv_env _ _ _ E).
    destruct (on_rcv_pair i 4 _ _ s s1 Hx E) as (? & ? & ? & ?). split; [done | split; [done|]].
    eexists _, _. split_and!; [|done | done]. intros old. by apply received_id.
Qed.

Abbreviation others i := (fun j => j <> i /\ j <> i + 1)%nat.

Lemma others_trans i s1 s2 s3 : item_frame (others i) s1 s2 -> item_frame (others i) s2 s3 -> item_frame (others i) s1 s3.
Proof. intros H1 H2. eapply item_frame_weaken; [|exact (item_frame_trans _ _ _ _ _ H1 H2)]. by intros j. Qed.

Lemma others_first i s s' : item_frame (fun j => j <> i) s s' -> item_frame (others i) s s'.
Proof. apply item_frame_weaken. by intros j []. Qed.

Lemma transfer_item_eff n b d buf i s r s' : transfer_item pf_pc n rights snd rcv b d buf i s = Done (r, s') ->
  item_frame (others i) s s' /\ reports r s s'
  /\ (r = true -> exists x0 x1, received buf b d (Utcb.values (rcv_utcb s) !! (i + 1)%nat) (env s) (env s') x0 x1
        /\ Utcb.values (rcv_utcb s') !! i = Some x0 /\ Utcb.values (rcv_utcb s') !! (i + 1)%nat = x1).
Proof.
  unfold transfer_item. destruct (on_rcv (copy_snd_item i b d) s) as [s1| |] eqn:E1; [|done..]. cbn [obind].
  destruct (on_rcv_set _ _ _ _ E1) as (F1 & R1 & V1). rewrite <- (on_rcv_env _ _ _ E1).
  assert (Utcb.values (rcv_utcb s1) !! (i + 1)%nat = Utcb.values (rcv_utcb s) !! (i + 1)%nat) as Hold by (apply (if_other _ _ _ F1); lia).
  apply others_first in F1.
  destruct (try_transfer_local_id _ _ _ _ _ s1) as [[r1 s2]| |] eqn:E2; [|done..]. cbn [obind].
  pose proof (try_local_eff _ _ _ _ _ _ _ V1 E2) as H2. destruct r1.
  { intros [= <- <-]. destruct H2 as (F2 & R2 & x0 & x1 & Hr & Hv). split_and!; [by eapply others_trans | by eapply reports_trans |].
    intros _. by exists x0, x1. }
  destruct H2 as [-> Hname]. destruct (map_one_item _ _ _ _ _ _ _ s1) as [[e s3]| |] eqn:E3; [|done..]. cbn [obind].
  destruct (map_one_eff _ _ _ _ _ _ _ E3) as (Hs & Hr & Hmap).
  assert (item_frame (others i) s s3) as F3 by (destruct F1; split; rewrite ?Hs, ?Hr; done).
  assert (reports true s s3) as R3 by (unfold reports in *; rewrite Hs, Hr; done).
  destruct (L4_error.ok e) eqn:Eok; cbn [negb].
  2: { intros [= <- <-]. split_and!; [by destruct F3 | by exists e | done]. }
  destruct (Hmap eq_refl) as (t & w1 & w2 & Ht & Hl & Hm & Hw).
  pose proof (received_map buf b d (Utcb.values (rcv_utcb s) !! (i + 1)%nat) _ _ _ _ _ Hname Ht Hl Hm Eok) as Hrec.
  rewrite <- Hw in Hrec. rewrite <- Hr in V1, Hold. destruct (L4_error.empty_map e).
  - destruct (on_rcv (flag_empty_map i) s3) as [s4| |] eqn:E4; [|done..]. cbn. intros [= <- <-].
    destruct (on_rcv_or i 2 _ s3 s4 V1 E4) as (F4 & R4 & V4). rewrite (on_rcv_env _ _ _ E4).
    split_and!; [by eapply others_trans, others_first | by eapply reports_trans |].
    intros _. eexists _, _. split_and!; [exact Hrec | done |]. rewrite (if_other _ _ _ F4) by lia. done.
  - intros [= <- <-]. split_and!; [done | done |]. intros _. eexists _, _. by split_and!.
Qed.

(** The iterators over the receive buffers behind an item: a compound item
    leaves its buffer for the next one. *)
Definition advance (buffers : list Z) (b d : Z) (bi : L4_buf_iter.t) (bs bs' : bufs) : Prop :=
  if L4_msg_item.compound b then bs' = bs
  else exists more bi', L4_buf_iter.next buffers bi = Some (more, bi') /\ bs' = put (fpage_type d) bi' bs.

(** The items from register [i] on have arrived: [vs] and [old] are the registers
    of sender and receiver before, [new] the receiver's afterwards.  Each item takes
    the buffer for its type of flex page and changes the state of the kernel. *)
Inductive arrived (vs buffers old new : list Z) : nat -> nat -> bufs -> W -> W -> Prop :=
  | arrived_end i bs w : arrived vs buffers old new i 0 bs w w
  | arrived_void i n bs w w' : vs !! i = Some 0 -> new !! i = Some 0 -> new !! (i + 1)%nat = old !! (i + 1)%nat ->
      arrived vs buffers old new (i + 2) n bs w w' -> arrived vs buffers old new i (S n) bs w w'
  | arrived_item i n b d bi bs bs' x0 x1 w w1 w' : vs !! i = Some b -> vs !! (i + 1)%nat = Some d ->
      L4_msg_item.is_void b = false -> L4_msg_item.type b = L4_msg_item.Map ->
      pick (fpage_type d) bs = Some bi -> L4_msg_item.is_void (L4_buf_iter.b (L4_buf_iter.c bi)) = false ->
      L4_msg_item.type (L4_buf_iter.b (L4_buf_iter.c bi)) = L4_msg_item.type b ->
      received (L4_buf_iter.c bi) b d (old !! (i + 1)%nat) w w1 x0 x1 ->
      new !! i = Some x0 -> new !! (i + 1)%nat = x1 -> advance buffers b d bi bs bs' ->
      arrived vs buffers old new (i + 2) n bs' w1 w' -> arrived vs buffers old new i (S n) bs w w'.

(** Only the registers from [i] on matter. *)
Lemma arrived_old vs buffers old old' new i n bs w w' : (forall j, (i <= j)%nat -> old' !! j = old !! j) ->
  arrived vs buffers old new i n bs w w' -> arrived vs buffers old' new i n bs w w'.
Proof.
  intros Ho H. induction H as [| i n bs w w' Hv H0 H1 _ IH | i n b d bi bs bs' x0 x1 w w1 w' Hb Hd Hv Ht Hp Hbv Hbt Hr H0 H1 Ha _ IH].
  - constructor.
  - apply arrived_void; [done | done | by rewrite Ho by lia | apply IH; intros; apply Ho; lia].
  - eapply (arrived_item _ _ _ _ i n b d bi bs bs'); try done; [by rewrite Ho by lia | apply IH; intros; apply Ho; lia].
Qed.

Abbreviation outside i n := (fun j => j < i \/ i + 2 * n <= j)%nat.

Lemma outside_step i n s s1 s' : item_frame (others i) s s1 -> item_frame (outside (i + 2) n) s1 s' -> item_frame (outside i (S n)) s s'.
Proof. intros H1 H2. eapply item_frame_weaken; [|exact (item_frame_trans _ _ _ _ _ H1 H2)]. intros j Hj. cbv beta in *. lia. Qed.

(** The items of a loop, from the state [s] to [s']. *)
Abbreviation arrives i n bs s s' := (arrived (Utcb.values (snd_utcb s)) (Utcb.buffers (rcv_utcb s))
  (Utcb.values (rcv_utcb s)) (Utcb.values (rcv_utcb s')) i n bs (env s) (env s')).

(** The items behind the one at [i] arrive from the registers after it. *)
Lemma arrives_behind i n bs s s1 s' : item_frame (others i) s s1 -> arrives (i + 2)%nat n bs s1 s' ->
  arrived (Utcb.values (snd_utcb s)) (Utcb.buffers (rcv_utcb s)) (Utcb.values (rcv_utcb s))
    (Utcb.values (rcv_utcb s')) (i + 2) n bs (env s1) (env s').
Proof.
  intros F Ha. rewrite <- (if_snd _ _ _ F), <- (if_buffers _ _ _ F). eapply arrived_old; [|exact Ha].
  intros j Hj. symmetry. apply (if_other _ _ _ F). lia.
Qed.

Lemma transfer_loop_eff items : forall bs it s r s', length (Utcb.values (snd_utcb s)) = Utcb.Max_words ->
  transfer_loop pf_pc items rights snd rcv bs it (L4_snd_item_iter._buf it) s = Done (r, s') ->
  item_frame (outside (L4_snd_item_iter._buf it) items) s s' /\ reports r s s'
  /\ (r = true -> arrives (L4_snd_item_iter._buf it) items bs s s').
Proof.
  induction items as [|n IH]; intros bs it s r s' Hlen; cbn [transfer_loop].
  { intros [= <- <-]. split_and!; [done | done | constructor]. }
  set (i := L4_snd_item_iter._buf it) in *.
  assert (Done (overflow s) = Done (r, s') -> item_frame (outside i (S n)) s s' /\ reports r s s' /\ (r = true -> arrives i (S n) bs s s')) as Hov.
  { intros [= <- <-]. split_and!; [done | by exists (L4_error.code L4_error.Overflow) | done]. }
  destruct (L4_snd_item_iter.more it) eqn:Hm; cbn [negb]; [|done].
  destruct (snd_item_fetch (Utcb.values (snd_utcb s)) it) as [Hv | it' | b d Hb Hv Hi Hd]; [done | done | | done |];
    cbn [L4_snd_item_iter.b L4_snd_item_iter.d].
  - destruct (on_rcv (set_value i 0) s) as [s1| |] eqn:E1; [|done..]. cbn [obind L4_msg_item.is_void Z.eqb].
    destruct (on_rcv_set _ _ _ _ E1) as (F1 & R1 & V1). intros Hl.
    edestruct (IH bs (L4_snd_item_iter.mk (i + 2) 0 0)) as (F2 & R2 & A2); [| exact Hl |]; [by rewrite (if_snd _ _ _ F1)|].
    cbn [L4_snd_item_iter._buf] in *. split_and!; [by eapply outside_step; [apply others_first|] | by eapply reports_trans |].
    intros Hr. rewrite <- (on_rcv_env _ _ _ E1). apply arrived_void; [done | by rewrite (if_other _ _ _ F2) by lia | |].
    + rewrite (if_other _ _ _ F2) by lia. apply (if_other _ _ _ F1). lia.
    + by apply arrives_behind; [apply others_first | apply A2].
  - rewrite Hv. destruct (if L4_msg_item.type b =? _ then pick (fpage_type d) bs else None) as [bi|] eqn:Epk; [|done].
    destruct (Z.eqb_spec (L4_msg_item.type b) L4_msg_item.Map) as [Ety|]; [|done].
    destruct (L4_msg_item.is_void _ || _) eqn:Ebuf; [done|]. apply orb_false_iff in Ebuf as [Ebv Ebt%negb_false_iff%Z.eqb_eq].
    destruct (transfer_item _ _ _ _ _ _ _ _ _ s) as [[r1 s1]| |] eqn:E1; [|done..]. cbn [obind].
    destruct (transfer_item_eff _ _ _ _ _ _ _ _ E1) as (F1 & R1 & V1). destruct r1; cbn [negb].
    2: { intros [= <- <-]. split; [|done]. eapply item_frame_weaken; [|exact F1]. intros j Hj. cbv beta in *. subst i. lia. }
    destruct (V1 eq_refl) as (x0 & x1 & Hr & H0 & H1). intros Hl.
    assert (exists bs', advance (Utcb.buffers (rcv_utcb s)) b d bi bs bs'
      /\ transfer_loop pf_pc n rights snd rcv bs' (L4_snd_item_iter.mk (i + 2) b d) (i + 2) s1 = Done (r, s')) as (bs' & Ha & Hl').
    { unfold advance. rewrite <- (if_buffers _ _ _ F1). destruct (L4_msg_item.compound b); [by eexists|].
      destruct (L4_buf_iter.next _ _) as [[more bi']|]; [|done]. eexists. split; [by exists more, bi' | done]. }
    edestruct (IH bs' (L4_snd_item_iter.mk (i + 2) b d)) as (F2 & R2 & A2); [| exact Hl' |]; [by rewrite (if_snd _ _ _ F1)|].
    cbn [L4_snd_item_iter._buf] in *. split_and!; [by eapply outside_step | by eapply reports_trans |].
    intros Hr'. eapply (arrived_item _ _ _ _ i n b d bi bs bs' x0 x1 _ (env s1)); try done.
    + by rewrite (if_other _ _ _ F2) by lia.
    + by rewrite (if_other _ _ _ F2) by lia.
    + by apply arrives_behind; [| apply A2].
Qed.

(** The receive buffers that a transfer starts with. *)
Definition first_buffers (u : Utcb.t) (bs : bufs) : Prop :=
  init_buf u (L4_buf_desc.mem (Utcb.buf_desc u)) = Done (mem_buffer bs)
  /\ init_buf u (L4_buf_desc.io (Utcb.buf_desc u)) = Done (io_buffer bs)
  /\ init_buf u (L4_buf_desc.obj (Utcb.buf_desc u)) = Done (obj_buffer bs).

Lemma transfer_items_eff tag s r s' : length (Utcb.values (snd_utcb s)) = Utcb.Max_words ->
  transfer_msg_items pf_pc tag snd rcv rights s = Done (r, s') ->
  let words := Z.to_nat (L4_msg_tag.words tag) in
  let items := Z.to_nat (L4_msg_tag.items tag) in
  item_frame (outside words items) s s' /\ reports r s s'
  /\ (r = true -> exists bs w, first_buffers (rcv_utcb s) bs
       /\ arrived (Utcb.values (snd_utcb s)) (Utcb.buffers (rcv_utcb s)) (Utcb.values (rcv_utcb s))
            (Utcb.values (rcv_utcb s')) words items bs (env s) w
       /\ env s' = reap_del w).
Proof.
  intros Hlen. unfold transfer_msg_items.
  destruct (init_buf _ (L4_buf_desc.mem _)) as [m| |] eqn:Em; [|done..]. cbn [obind].
  destruct (init_buf _ (L4_buf_desc.io _)) as [io| |] eqn:Ei; [|done..]. cbn [obind].
  destruct (init_buf _ (L4_buf_desc.obj _)) as [o| |] eqn:Eo; [|done..]. cbn [obind].
  destruct (transfer_loop _ _ _ _ _ _ _ _ _) as [[r1 s3]| |] eqn:El; [|done..]. cbn [obind]. intros [= <- <-].
  destruct (transfer_loop_eff _ _ (L4_snd_item_iter.init _) s _ _ Hlen El) as ([] & R2 & A2).
  split_and!; [by split | by destruct r1 |]. intros Hr. exists (mkBufs m io o), (env s3). split_and!; [done | by apply A2 | done].
Qed.

Lemma copy_words_eff n s : Utcb.wf (snd_utcb s) -> Utcb.wf (rcv_utcb s) -> (n <= Utcb.Max_words)%nat ->
  (forall j, (j < n)%nat -> Utcb.values (rcv_utcb (copy_words n s)) !! j = Utcb.values (snd_utcb s) !! j)
  /\ item_frame (fun j => n <= j)%nat s (copy_words n s).
Proof.
  intros [Hs _] [Hr _] Hn. split; [|split; cbn; try done].
  - intros j Hj. cbn. rewrite lookup_app_l by (rewrite length_take, Hs; lia). by apply lookup_take_lt.
  - rewrite length_app, length_take, length_drop, Hs, Hr. lia.
  - intros j Hj. rewrite lookup_app_r by (rewrite length_take, Hs; lia).
    rewrite length_take, Hs, lookup_drop. f_equal. lia.
Qed.

(** C13: What a transfer does when nobody else writes the two UTCBs.  The receiver
    finds the words of the sender.  On success each item behind them was passed
    on with the receiver's buffer for its kind of flex page, in the order of the
    items, each from the kernel state that the one before left: as the flex page
    itself when the buffer asks for names and both share a space, as label with
    the rights of capability and flex page when it asks for names and the object
    is local to the receiver, and else by the map operation to the receiver's task
    or the one the buffer names, which succeeded, and with the flag of an empty
    mapping exactly when that found nothing to map; the two registers of the item
    say which.  Registers behind the items, the buffers and the sender's registers
    keep their values.  A failed transfer leaves the error in both UTCBs, the
    receiver's marked as such; a successful one leaves both error fields. *)
Theorem transfer_delivers tag s r fpu s' : Utcb.wf (snd_utcb s) -> Utcb.wf (rcv_utcb s) ->
  copy_utcb_to_utcb pf_pc tag snd rcv rights s = Done (r, fpu, s') ->
  let words := Z.to_nat (L4_msg_tag.words tag) in
  let items := Z.to_nat (L4_msg_tag.items tag) in
  (forall j, (j < words)%nat -> Utcb.values (rcv_utcb s') !! j = Utcb.values (snd_utcb s) !! j)
  /\ (r = true -> if (items =? 0)%nat then env s' = env s else exists bs w, first_buffers (rcv_utcb s) bs
       /\ arrived (Utcb.values (snd_utcb s)) (Utcb.buffers (rcv_utcb s)) (Utcb.values (rcv_utcb s))
            (Utcb.values (rcv_utcb s')) words items bs (env s) w
       /\ env s' = reap_del w)
  /\ reports r s s' /\ item_frame (fun j => words + 2 * items <= j)%nat s s'.
Proof.
  intros Hs Hr. unfold copy_utcb_to_utcb. set (words := Z.to_nat (L4_msg_tag.words tag)). set (items := Z.to_nat (L4_msg_tag.items tag)).
  assert (words < 64)%nat as Hw.
  { unfold words, L4_msg_tag.words. change 63 with (Z.ones 6). rewrite Z.land_ones by lia. pose proof (Z.mod_pos_bound tag (2 ^ 6)). lia. }
  replace (Utcb.Max_words <? words)%nat with false by (symmetry; apply Nat.ltb_ge; unfold Utcb.Max_words; lia).
  destruct (copy_words_eff words s Hs Hr) as [Hpre F1]; [unfold Utcb.Max_words; lia|]. set (s1 := copy_words words s) in *.
  pose proof (if_other _ _ _ F1) as Hbeh. cbv beta in Hbeh.
  destruct (if nonzero (L4_msg_tag.items tag) then _ else _) as [[r0 s2]| |] eqn:E; [|done..]. cbn [obind]. intros [= <- _ <-].
  unfold nonzero in E. destruct (Z.eqb_spec (L4_msg_tag.items tag) 0) as [Hi|Hi]; cbn [negb] in E.
  { injection E as <- <-. unfold items. rewrite Hi. split_and!; [exact Hpre | done | done |].
    eapply item_frame_weaken; [|exact F1]. intros j Hj. cbv beta in *. lia. }
  assert (0 <= L4_msg_tag.items tag) as Hi0 by (apply Z.land_nonneg; lia).
  replace (items =? 0)%nat with false by (symmetry; apply Nat.eqb_neq; unfold items; lia).
  destruct (transfer_items_eff tag s1 r0 s2 (proj1 Hs) E) as (F2 & R2 & A2). fold words items in F2, A2.
  split_and!.
  - intros j Hj. rewrite (if_other _ _ _ F2) by lia. by apply Hpre.
  - intros Hok. destruct (A2 Hok) as (bs & w & Hfirst & Ha & He). exists bs, w. split_and!; [exact Hfirst | | exact He].
    eapply arrived_old; [|exact Ha]. intros j Hj. symmetry. by apply Hbeh.
  - by eapply reports_trans.
  - eapply item_frame_weaken; [|exact (item_frame_trans _ _ _ _ _ F1 F2)]. intros j Hj. cbv beta in *. lia.
Qed.
End delivery.

(** * Messages of the kernel itself *)

Section saved.
Context `{AR : Arch}.
Implicit Types u : Utcb.t.

(** Whatever a page-fault or exception message does to the registers in
    between, saving and restoring keeps the saved registers and nothing else. *)
Lemma pf_saver_restores u u' : Utcb.wf u -> Utcb.wf u' ->
  let r := Pf_msg_utcb_saver.restore (Pf_msg_utcb_saver.save u) u' in
  Utcb.wf r /\ Utcb.buf_desc r = Utcb.buf_desc u
  /\ (forall j, Utcb.values r !! j = Utcb.values (if (j <? 2)%nat then u else u') !! j)
  /\ (forall j, Utcb.buffers r !! j = Utcb.buffers (if (j <? 2)%nat then u else u') !! j).
Proof.
  assert (forall l l' : list Z, (2 <= length l)%nat -> (2 <= length l')%nat -> forall j,
    <[1%nat := l !!! 1%nat]> (<[0%nat := l !!! 0%nat]> l') !! j = (if (j <? 2)%nat then l else l') !! j) as Htwo.
  { intros l l' Hl Hl' j. destruct l as [|a [|b l]]; [cbn in Hl; lia.. |]. destruct l' as [|a' [|b' l']]; [cbn in Hl'; lia.. |].
    destruct j as [|[|j]]; reflexivity. }
  intros [Hv Hb] [Hv' Hb'] r. split; [split; cbn; by rewrite !length_insert|]. split; [done|].
  split; intros j; subst r; cbn [Pf_msg_utcb_saver.restore Utcb.values Utcb.buffers with_values with_buffers Buf_utcb_saver.restore];
    (etrans; [apply Htwo; rewrite ?Hv, ?Hb, ?Hv', ?Hb'; unfold Utcb.Max_words, Utcb.Max_buffers; lia |
     by destruct (j <? 2)%nat]).
Qed.

(** A page-fault message leaves in the UTCB of the faulting thread what the
    pager's reply left there, except for the registers that the kernel used for
    the message: these are as before the fault. *)
Theorem page_fault_restores `{!PF} invoke canceled pfa error_code ip protocol u r u' :
  Utcb.wf u -> (forall t v x, invoke t v = Done x -> Utcb.wf x.2) ->
  handle_page_fault_pager (Some invoke) canceled pfa error_code ip protocol u = Done (r, u') ->
  exists tag v u1, invoke (L4_msg_tag.make 2 0 0 protocol) v = Done (tag, u1)
    /\ Utcb.values v !! 0%nat = Some (addr_to_msgword0 pfa error_code) /\ Utcb.values v !! 1%nat = Some ip
    /\ Utcb.buf_desc u' = Utcb.buf_desc u
    /\ (forall j, Utcb.values u' !! j = Utcb.values (if (j <? 2)%nat then u else u1) !! j)
    /\ (forall j, Utcb.buffers u' !! j = Utcb.buffers (if (j <? 2)%nat then u else u1) !! j).
Proof.
  intros Hu Hinv. unfold handle_page_fault_pager. set (v := set_value' 1 ip _).
  destruct (invoke _ v) as [[tag u1]| |] eqn:E; [|done..]. cbn [obind]. intros [= _ <-].
  destruct (pf_saver_restores u u1 Hu (Hinv _ _ _ E)) as (_ & Hd & Hval & Hbuf). destruct Hu as [Hl _].
  exists tag, v, u1. split; [done|].
  destruct u as [[|a [|b vs]] ? ? ? ? ? ?]; [done.. |]. by split_and!.
Qed.
End saved.

(** * Concrete transfers *)

Module Ipc_msg_example.
#[local] Existing Instance arch64.

(** A kernel that only notes the map operations it is asked for. *)
Definition call : Type := Z * Z * Z.

Definition note (from fp to _ _ : Z) (w : list call) : outcome (Z * list call) := Done (0, (from, fp, to) :: w).

#[local] Instance noting : Map_ops (list call) := {
  space_caps _ _ := 7; mem_map := note; io_map := note; obj_map := note;
  lookup _ _ _ := 0; lookup_task _ _ _ _ := None; is_local _ _ _ := false; obj_id _ _ := 0;
  existence_lock _ w := (true, w); existence_clear _ w := w; reap_del w := w }.

(** The receiver changes its own registers while items are mapped. *)
#[local] Instance busy : Meanwhile := { snd_meanwhile _ u := u; rcv_meanwhile n u := with_values (replicate 63 (Z.of_nat n)) u }.

#[local] Instance busy_wf : Meanwhile_wf busy.
Proof. split; [done|]. by intros n u [_ Hb]. Qed.

Definition allowed (rights : Z) (c : call) : Prop := c.1.1 = 1 /\ sendable rights c.1.2 /\ c.2 = 2.

#[local] Instance noting_laws rights : Map_laws true (Forall (allowed rights)) (fun w w' => w `suffix_of` w') (.= 2) 1 2 rights.
Proof.
  split; try done; [apply _|]. intros fp to fp' control w Hw -> Hf. unfold fpage_map. cbn [space_caps noting].
  repeat case_match; (eexists _, _; split; [done|]); try done;
    (split; [by constructor | by apply suffix_cons_r]).
Qed.

(** Two words and two items: an object sent with all rights, a page of memory. *)
Definition fp_obj : Z := L4_fpage.obj (5 << 12) 0 L4_fpage.Rights.FULL.
Definition sender : Utcb.t :=
  Utcb.mk ([17; 18; 8; fp_obj; 8; L4_fpage.mem (3 << 12) 12 L4_fpage.Rights.FULL] ++ replicate 57 0) 0 0 (replicate 58 0) 0 0 [].
Definition receiver : Utcb.t :=
  Utcb.mk (replicate 63 9) 0 (L4_buf_desc.make 0 0 2 0)
    ([8; L4_fpage.all_spaces 0; 8; L4_fpage.obj (8 << 12) 0 0] ++ replicate 54 0) 0 0 [].
Definition msg_tag : Z := L4_msg_tag.make 2 2 0 0.

Lemma transfer_confined_witness : exists r fpu s',
  copy_utcb_to_utcb true msg_tag 1 2 L4_fpage.Rights.CRW (mkXfer sender receiver []) = Done (r, fpu, s')
  /\ length (env s') = 2%nat /\ Forall (allowed L4_fpage.Rights.CRW) (env s').
Proof.
  destruct (transfer_confined true (Forall (allowed L4_fpage.Rights.CRW)) (fun w w' => w `suffix_of` w') (.= 2) 1 2
    L4_fpage.Rights.CRW msg_tag (mkXfer sender receiver [])) as (r & fpu & s' & E & (_ & _ & Hi) & _ & _).
  { split_and!; [done | done | constructor]. }
  exists r, fpu, s'. split_and!; [exact E | | exact Hi]. vm_compute in E. injection E as <- <- <-. reflexivity.
Defined.
End Ipc_msg_example.

(** The same with the model of capabilities as the kernel underneath: object
    items are mapped by [obj_fpage_map] between the spaces of [Obj_example]. *)
Module Ipc_obj_example.
Import Obj_example Ipc_msg_example.
#[local] Existing Instance arch64.
#[local] Existing Instance gates.
#[local] Existing Instance pool.

#[local] Instance with_objects : Map_ops (world Z) := {
  space_caps _ _ := Caps.obj; mem_map _ _ _ _ _ _ := Fault; io_map _ _ _ _ _ _ := Fault; obj_map := obj_fpage_map;
  lookup := cap_lookup; lookup_task sp i r w := fst (deref_as (fun _ => None) sp i r w); is_local _ _ _ := false; obj_id _ _ := 0;
  existence_lock _ w := (true, w); existence_clear _ w := w; reap_del w := w }.

#[local] Instance nobody : Meanwhile := { snd_meanwhile _ u := u; rcv_meanwhile _ u := u }.

Definition one_item : Z := L4_msg_tag.make 2 1 0 0.
Definition sent : outcome (bool * bool * xfer (world Z)) :=
  copy_utcb_to_utcb true one_item 1 2 L4_fpage.Rights.CRW (mkXfer sender receiver w1).

(** The receiver has the capability of the sender's slot 5 in its slot 8,
    without the right that the gate does not have, and as the face of the
    object without special rights: the item was mapped, not passed as a name. *)
Lemma transfer_delivers_witness : exists s', sent = Done (true, false, s')
  /\ cap_lookup 1 5 (env s') = 0x1013 /\ cap_lookup 2 8 (env s') = 0x1001
  /\ exists bs w, first_buffers receiver bs
       /\ arrived true 1 2 L4_fpage.Rights.CRW (Utcb.values sender) (Utcb.buffers receiver) (Utcb.values receiver)
            (Utcb.values (rcv_utcb s')) 2 1 bs w1 w
       /\ env s' = w.
Proof.
  assert (exists s', sent = Done (true, false, s') /\ cap_lookup 1 5 (env s') = 0x1013 /\ cap_lookup 2 8 (env s') = 0x1001)
    as (s' & E & H1 & H2) by (eexists; split_and!; vm_compute; reflexivity).
  exists s'. split_and!; [exact E | exact H1 | exact H2 |].
  destruct (transfer_delivers (MW := nobody) true 1 2 L4_fpage.Rights.CRW (fun _ _ => eq_refl) (fun _ _ => eq_refl) one_item
    (mkXfer sender receiver w1) true false s'
    (conj eq_refl eq_refl) (conj eq_refl eq_refl) E) as (_ & Ha & _). exact (Ha eq_refl).
Defined.
End Ipc_obj_example.
