(* ===== verification/Ipc.v ===== *)
(** The handshake of IPC between threads (src/src/kern/thread_ipc.h,
    receiver.h, sender.h, ipc_timeout.cc, thread.h, thread_state.h,
    context_base.h), on one processor.

    The kernel runs with interrupts disabled except while it maps the items of
    a message and while it schedules another thread.  A step of the model is
    what a thread does between two such points, a timeout, a cancellation by
    [ex_regs], or the progress of the clock.  The program counter of a thread
    says in which function, and with which local variables, it was left.  The
    sender list is the list of senders in the order of service, which is what
    [PrioList] proves of the implementation.  Threads in vCPU mode, the work
    queues of IPC gates and the deletion of threads are left out. *)

From S2P Require Import Prelude.

(** * Thread states *)

Module Thread_state.
Definition Thread_ready := 0x1.
Definition Thread_send_wait := 0x4.
Definition Thread_receive_wait := 0x8.
Definition Thread_receive_in_progress := 0x10.
Definition Thread_send_in_progress := 0x20.
Definition Thread_transfer_failed := 0x40.
Definition Thread_cancel := 0x80.
Definition Thread_timeout := 0x100.
Definition Thread_dead := 0x200.
Definition Thread_ipc_receive_mask := Thread_receive_wait .| Thread_receive_in_progress.
Definition Thread_ipc_mask :=
  Thread_send_wait .| Thread_receive_wait .| Thread_receive_in_progress .| Thread_send_in_progress.
Definition Thread_full_ipc_mask := Thread_ipc_mask .| Thread_cancel .| Thread_transfer_failed .| Thread_timeout.
Definition Thread_ipc_abort_mask := Thread_transfer_failed .| Thread_cancel .| Thread_timeout.

(** [Context_base::State]: the operations on the state word; the new word, and
    for the conditional ones whether there is one. *)
Definition change (mask bits s : Z) : Z := (s .& mask) .| bits.
Definition add (bits s : Z) : Z := s .| bits.
Definition del (bits s : Z) : Z := s .& Z.lnot bits.
Definition change_safely (mask bits s : Z) : option Z :=
  if nonzero ((s .& bits .& mask) .| (Z.lnot s .& Z.lnot mask)) then None else Some (change mask bits s).
Definition change_if (test : Z -> bool) (mask bits s : Z) : option Z :=
  if test s then Some (change mask bits s) else None.
Definition has (bits s : Z) : bool := nonzero (s .& bits).
Definition is_invalid (s : Z) : bool := has Thread_dead s.
End Thread_state.
Import Thread_state.

(** * Threads *)

(** A timeout as [L4_timeout] has it, with the point in time it means. *)
Inductive timeout := Never | Zero | Absolute (t : Z) | Relative (us : Z).

Definition is_finite (t : timeout) : bool := match t with Never => false | _ => true end.
Definition is_zero (t : timeout) : bool := match t with Zero => true | _ => false end.
Definition microsecs (t : timeout) (clock : Z) : Z :=
  match t with Never => 0 | Zero => 0 | Absolute v => v | Relative us => clock + us end.

(** An [IPC_timeout] on the stack of its thread: not set, in the timeout queue
    for a point in time, or expired. *)
Inductive timer := Off | Armed (wakeup : Z) | Hit.

(** The arguments of [_do_ipc]. *)
Record ipc := mkIpc {
  partner : option Z;
  have_receive : bool;
  want_reply : bool;
  sender : option Z;               (* closed wait; [None]: open wait *)
  rights : Z;                      (* of the capability that was invoked *)
  snd_timeout : timeout;
  rcv_timeout : timeout }.

(** Where a thread is. *)
Inductive pc :=
  | User                                      (* not in an IPC *)
  | Send_wait (rcv : Z) (i : ipc)             (* in the loop of [do_send_wait] *)
  | Abort_wait (rcv : Z) (i : ipc)            (* in the loop of [abort_send] *)
  | Send_copy (rcv : Z) (i : ipc)             (* in [transfer_msg], called by [_ipc_send] *)
  | Receive (next : option Z) (i : ipc)       (* before a turn of [do_receive] *)
  | Receive_copy (snd : Z) (i : ipc)          (* in [transfer_msg] of the sender, called by [try_receive] *)
  | Receive_done (i : ipc)                    (* back in [try_receive] after [ipc_send_msg] *)
  | Receive_wait (i : ipc)                    (* in [do_receive_wait] *)
  | Leave (i : ipc).                          (* after the partner was activated, without receive phase *)

(** What happened in the current or last IPC of a thread: its arguments, the
    results of the transfers of its message, the messages transferred to it, whether
    [abort_send] found nothing to abort, and what the system call reports. *)
Inductive rcv_result := R_ok | R_timeout | R_canceled.
Record history := mkHist {
  req : option ipc;
  sent : list bool;
  inbox : list (Z * bool);
  aborted : bool;
  snd_ok : bool;
  rcv_res : rcv_result }.

Record thread := mkThread {
  st : Z;
  poi : option Z;                  (* the partner it waits for, or has had *)
  senders : list Z;
  rcv_prepared : bool;             (* [_rcv_regs] is set *)
  want_reply_cap : bool;
  _ipc_send_rights : Z;
  reply_cap : option (Z * Z);      (* caller and rights *)
  partner_reply_cap : option Z;    (* the thread whose reply capability this is *)
  prio : Z;
  queue_invalid : bool;            (* the lock of its sender list was invalidated *)
  tmo : timer;
  at_ : pc;
  hist : history }.

Definition set_st (f : Z -> Z) (t : thread) : thread :=
  mkThread (f (st t)) (poi t) (senders t) (rcv_prepared t) (want_reply_cap t) (_ipc_send_rights t) (reply_cap t) (partner_reply_cap t) (prio t) (queue_invalid t) (tmo t) (at_ t) (hist t).
Definition set_poi (p : option Z) (t : thread) : thread :=
  mkThread (st t) p (senders t) (rcv_prepared t) (want_reply_cap t) (_ipc_send_rights t) (reply_cap t) (partner_reply_cap t) (prio t) (queue_invalid t) (tmo t) (at_ t) (hist t).
Definition set_senders (l : list Z) (t : thread) : thread :=
  mkThread (st t) (poi t) l (rcv_prepared t) (want_reply_cap t) (_ipc_send_rights t) (reply_cap t) (partner_reply_cap t) (prio t) (queue_invalid t) (tmo t) (at_ t) (hist t).
Definition set_rcv_regs (have want : bool) (t : thread) : thread :=
  mkThread (st t) (poi t) (senders t) have want (_ipc_send_rights t) (reply_cap t) (partner_reply_cap t) (prio t) (queue_invalid t) (tmo t) (at_ t) (hist t).
Definition set_rights (r : Z) (t : thread) : thread :=
  mkThread (st t) (poi t) (senders t) (rcv_prepared t) (want_reply_cap t) r (reply_cap t) (partner_reply_cap t) (prio t) (queue_invalid t) (tmo t) (at_ t) (hist t).
Definition set_reply (r : option (Z * Z)) (t : thread) : thread :=
  mkThread (st t) (poi t) (senders t) (rcv_prepared t) (want_reply_cap t) (_ipc_send_rights t) r (partner_reply_cap t) (prio t) (queue_invalid t) (tmo t) (at_ t) (hist t).
Definition set_partner_reply (r : option Z) (t : thread) : thread :=
  mkThread (st t) (poi t) (senders t) (rcv_prepared t) (want_reply_cap t) (_ipc_send_rights t) (reply_cap t) r (prio t) (queue_invalid t) (tmo t) (at_ t) (hist t).
Definition set_tmo (x : timer) (t : thread) : thread :=
  mkThread (st t) (poi t) (senders t) (rcv_prepared t) (want_reply_cap t) (_ipc_send_rights t) (reply_cap t) (partner_reply_cap t) (prio t) (queue_invalid t) x (at_ t) (hist t).
Definition set_pc (p : pc) (t : thread) : thread :=
  mkThread (st t) (poi t) (senders t) (rcv_prepared t) (want_reply_cap t) (_ipc_send_rights t) (reply_cap t) (partner_reply_cap t) (prio t) (queue_invalid t) (tmo t) p (hist t).
Definition set_hist (f : history -> history) (t : thread) : thread :=
  mkThread (st t) (poi t) (senders t) (rcv_prepared t) (want_reply_cap t) (_ipc_send_rights t) (reply_cap t) (partner_reply_cap t) (prio t) (queue_invalid t) (tmo t) (at_ t) (f (hist t)).

Definition note_sent (ok : bool) (h : history) : history := mkHist (req h) (sent h ++ [ok]) (inbox h) (aborted h) (snd_ok h) (rcv_res h).
Definition note_got (s : Z) (ok : bool) (h : history) : history := mkHist (req h) (sent h) (inbox h ++ [(s, ok)]) (aborted h) (snd_ok h) (rcv_res h).
Definition note_aborted (h : history) : history := mkHist (req h) (sent h) (inbox h) true (snd_ok h) (rcv_res h).
Definition note_snd (ok : bool) (h : history) : history := mkHist (req h) (sent h) (inbox h) (aborted h) ok (rcv_res h).
Definition note_rcv (r : rcv_result) (h : history) : history := mkHist (req h) (sent h) (inbox h) (aborted h) (snd_ok h) r.
Definition new_history (i : ipc) : history := mkHist (Some i) [] [] false true R_ok.

Abbreviation threads := (Z -> thread).

Definition upd (t : Z) (f : thread -> thread) (m : threads) : threads := fun x => if x =? t then f (m x) else m x.

Definition eqo (a : option Z) (b : Z) : bool := match a with Some x => x =? b | None => false end.

(** * Sender lists and partners *)

Definition in_sender_list (s r : Z) (m : threads) : bool := existsb (Z.eqb s) (senders (m r)).

(** [Prio_list::insert] in the order of service. *)
Fixpoint prio_insert (pr : Z -> Z) (e p : Z) (l : list Z) : list Z :=
  match l with
  | [] => [e]
  | x :: l => if p <=? pr x then x :: prio_insert pr e p l else e :: x :: l
  end.

(** [sender_enqueue], when the lock of the list is valid; the sender is in no list. *)
Definition sender_enqueue (s r : Z) (m : threads) : threads :=
  upd r (fun t => set_senders (prio_insert (fun x => prio (m x)) s (prio (m s)) (senders t)) t) m.

(** [list->dequeue(s)]: only when it is in this list. *)
Definition sender_dequeue (s r : Z) (m : threads) : option threads :=
  if in_sender_list s r m then Some (upd r (fun t => set_senders (filter (fun x => x <> s) (senders t)) t) m) else None.

(** [Rcv_state] *)
Inductive Rcv_state := Not_receiving | Ipc_receive | Ipc_open_wait.

Definition sender_ok (s r : Z) (m : threads) : Rcv_state :=
  let R := m r in
  if negb ((st R .& Thread_ipc_mask) =? Thread_receive_wait) then Not_receiving
  else if match poi R with None => match senders R with [] => true | x :: _ => x =? s end | Some _ => false end
  then Ipc_open_wait
  else if eqo (poi R) s then Ipc_receive else Not_receiving.

Definition receiving (r : Rcv_state) : bool := match r with Not_receiving => false | _ => true end.

(** * Reply capabilities *)

(** [c.reset_partner_reply_cap()] *)
Definition reset_partner_reply_cap (c : Z) (m : threads) : threads :=
  match partner_reply_cap (m c) with
  | None => m
  | Some r =>
      let m := upd c (set_partner_reply None) m in
      match reply_cap (m r) with
      | Some (x, _) => if x =? c then upd r (set_reply None) m else m
      | None => m
      end
  end.

(** [r.reset_caller()] *)
Definition reset_caller (r : Z) (m : threads) : threads :=
  match reply_cap (m r) with
  | None => m
  | Some (c, _) =>
      let m := upd r (set_reply None) m in
      if eqo (partner_reply_cap (m c)) r then upd c (set_partner_reply None) m else m
  end.

(** [r.reset_caller(old_caller)] *)
Definition reset_caller_of (r old_caller : Z) (m : threads) : threads :=
  match reply_cap (m r) with
  | Some (c, _) => if c =? old_caller then reset_partner_reply_cap c m else m
  | None => m
  end.

(** [r.set_reply_cap(caller, rights)] *)
Definition set_reply_cap (r caller rights : Z) (m : threads) : threads :=
  if want_reply_cap (m r)
  then
    let m := match reply_cap (m r) with Some _ => reset_caller r m | None => m end in
    upd r (set_reply (Some (caller, rights .& 3))) (upd caller (set_partner_reply (Some r)) m)
  else m.

(** * Sending *)

(** [transfer_msg] from [s] to [r], with its result. *)
Definition transfer_msg (s r : Z) (success : bool) (m : threads) : threads :=
  let m := upd s (set_hist (note_sent success)) (upd r (set_hist (note_got s success)) m) in
  if success && eqo (poi (m s)) r then set_reply_cap r s (_ipc_send_rights (m s)) m else m.

Inductive Check_sender := Ok | Queued | Failed.

(** The loop of [check_send]; the fuel bounds its turns. *)
Fixpoint check_send_loop (fuel : nat) (s r : Z) (m : threads) : option (Check_sender * threads) :=
  match fuel with
  | O => None
  | S fuel =>
      let m := upd s (set_st (add Thread_send_wait)) m in
      if queue_invalid (m r) then Some (Failed, m)
      else
      let m := sender_enqueue s r m in
      if receiving (sender_ok s r m)
      then match sender_dequeue s r m with
           | None => Some (Queued, m)
           | Some m =>
               match change_safely (Z.lnot Thread_receive_wait) Thread_receive_in_progress (st (m r)) with
               | Some x => Some (Ok, upd s (set_st (del Thread_send_wait)) (upd r (set_st (fun _ => x)) m))
               | None => check_send_loop fuel s r m
               end
           end
      else Some (Queued, m)
  end.

Definition check_send (s r : Z) (zero_timeout : bool) (m : threads) : option (Check_sender * threads) :=
  if is_invalid (st (m r)) then Some (Failed, m)
  else
    let slow := if zero_timeout then Some (Failed, m) else check_send_loop 2 s r m in
    if receiving (sender_ok s r m)
    then match change_safely (Z.lnot Thread_receive_wait) Thread_receive_in_progress (st (m r)) with
         | Some x => Some (Ok, upd r (set_st (fun _ => x)) m)
         | None => slow
         end
    else slow.

(** * Receiving *)

Definition next_sender (r : Z) (closed : option Z) (m : threads) : option Z :=
  match closed with
  | Some s => if in_sender_list s r m then Some s else None
  | None => head (senders (m r))
  end.

Definition dequeue_next_sender (r next : Z) (m : threads) : option threads :=
  match sender_dequeue next r m with Some m => Some (upd r (set_poi (Some next)) m) | None => None end.

(** [setup_timer]: the result tells that the timeout is set up or is never. *)
Definition setup_timer (t : Z) (to : timeout) (now : Z) (m : threads) : bool * threads :=
  if negb (is_finite to) then (true, m)
  else if is_zero to then (false, upd t (set_st (add (Thread_ready .| Thread_timeout))) m)
  else
    let tval := microsecs to now in
    if now <? tval then (true, upd t (set_tmo (Armed tval)) m)
    else (false, upd t (set_st (add (Thread_ready .| Thread_timeout))) m).

(** [reset_timeout]: takes the timer out of the timeout queue. *)
Definition reset_timer (x : timer) : timer := match x with Armed _ => Off | x => x end.
Definition reset_timeout (t : Z) (m : threads) : threads := upd t (fun T => set_tmo (reset_timer (tmo T)) T) m.

(** * The end of an IPC *)

(** The end of [_do_ipc]; the timers on the stack are gone. *)
Definition finish (t : Z) (i : ipc) (m : threads) : threads :=
  let m := upd t (set_tmo Off) m in
  let state := st (m t) in
  if negb (has Thread_full_ipc_mask state) then upd t (set_pc User) m
  else
    let m :=
      if has Thread_ipc_mask state
      then
        let m := if have_receive i && match sender i, partner i with Some s, Some p => s =? p | _, _ => false end
                 then reset_partner_reply_cap t m else m in
        upd t (set_hist (note_rcv (if has Thread_cancel state then R_canceled else R_timeout))) m
      else m in
    upd t (set_pc User) (upd t (set_st (del Thread_full_ipc_mask)) m).

(** The rest of [_do_ipc] after [_ipc_send]; [activate]: the partner is made
    ready, and may run at once.  The receive phase is a step of its own also when
    there was no partner to switch to. *)
Definition after_send (t : Z) (i : ipc) (ok activate : bool) (now : Z) (m : threads) : threads :=
  let m := upd t (set_hist (note_snd ok)) m in
  let rcv := have_receive i && has Thread_ipc_receive_mask (st (m t)) in
  let next := if rcv then next_sender t (sender i) m else None in
  let m := match next with
           | None => if rcv then snd (setup_timer t (rcv_timeout i) now m) else m
           | Some _ => m
           end in
  let m := match partner i with
           | Some p => if activate then upd p (set_st (change (Z.lnot Thread_receive_in_progress) Thread_ready)) m else m
           | None => m
           end in
  if rcv then upd t (set_pc (Receive next i)) m
  else if activate then upd t (set_pc (Leave i)) m else finish t i m.

(** [abort_send]: [inl] with the result of the send phase, or the thread waits for
    the end of the transfer. *)
Definition abort_send (t r : Z) (m : threads) : (bool * threads) + threads :=
  match sender_dequeue t r m with
  | Some m => inl (false, upd t (set_st (del Thread_full_ipc_mask)) m)
  | None =>
      match change_if (has Thread_send_in_progress) (Z.lnot Thread_ready) 0 (st (m t)) with
      | Some x => inr (upd t (set_st (fun _ => x)) m)
      | None => inl (true, upd t (set_hist note_aborted) (upd t (set_st (del Thread_full_ipc_mask)) m))
      end
  end.

(** The result of [abort_send] in [do_send_wait]. *)
Definition abort_and_go (t r : Z) (i : ipc) (now : Z) (m : threads) : threads :=
  match abort_send t r m with
  | inl (ok, m) => after_send t i ok false now (upd t (set_tmo Off) m)
  | inr m => upd t (set_pc (Abort_wait r i)) m
  end.

(** One turn of the loop of [do_send_wait], and what follows it. *)
Definition send_wait_turn (t r : Z) (i : ipc) (now : Z) (m : threads) : threads :=
  let ipc_state := st (m t) .& (Thread_send_wait .| Thread_ipc_abort_mask) in
  if ipc_state =? Thread_send_wait
  then upd t (set_pc (Send_wait r i)) (upd t (set_st (change (Z.lnot Thread_ready) 0)) m)
  else
    let m := reset_timeout t m in
    if ipc_state =? 0 then after_send t i true false now (upd t (set_tmo Off) m)
    else if has Thread_transfer_failed ipc_state
    then after_send t i false false now (upd t (set_tmo Off) (upd t (set_st (del Thread_full_ipc_mask)) m))
    else if has Thread_cancel ipc_state then abort_and_go t r i now m
    else if has Thread_timeout ipc_state then abort_and_go t r i now m
    else after_send t i true false now (upd t (set_tmo Off) m).

(** The loop of [abort_send], entered again. *)
Definition abort_wait_turn (t r : Z) (i : ipc) (now : Z) (m : threads) : threads :=
  match change_if (has Thread_send_in_progress) (Z.lnot Thread_ready) 0 (st (m t)) with
  | Some x => upd t (set_st (fun _ => x)) m
  | None => after_send t i true false now
              (upd t (set_tmo Off) (upd t (set_hist note_aborted) (upd t (set_st (del Thread_full_ipc_mask)) m)))
  end.

Definition do_send_wait (t r : Z) (i : ipc) (now : Z) (m : threads) : threads :=
  if is_finite (snd_timeout i)
  then
    let tval := microsecs (snd_timeout i) now in
    if (tval =? 0) || (tval <=? now) then abort_and_go t r i now m
    else send_wait_turn t r i now (upd t (set_tmo (Armed tval)) m)
  else send_wait_turn t r i now m.

(** [_ipc_send] up to its first blocking point. *)
Definition ipc_send (t r : Z) (i : ipc) (now : Z) (m : threads) : option threads :=
  match check_send t r (is_zero (snd_timeout i)) m with
  | None => None
  | Some (Queued, m) => Some (do_send_wait t r i now m)
  | Some (Failed, m) => Some (after_send t i false false now (upd t (set_st (del Thread_ipc_mask)) m))
  | Some (Ok, m) => Some (upd t (set_pc (Send_copy r i)) (reset_timeout r m))
  end.

(** [_ipc_send] from the return of [transfer_msg] on. *)
Definition ipc_send_done (t r : Z) (i : ipc) (ok : bool) (now : Z) (m : threads) : threads :=
  let m := transfer_msg t r ok m in
  let m := upd r (set_st (del Thread_receive_in_progress)) m in
  let m := upd t (set_st (change (Z.lnot Thread_ipc_mask) (if ok && have_receive i then Thread_receive_wait else 0))) m in
  after_send t i ok (negb (r =? t)) now m.

(** [ipc_send_msg] of the sender [s] from the return of [transfer_msg] on, called
    by the receiver [t]; it may switch to the sender. *)
Definition ipc_send_msg_done (t s : Z) (i : ipc) (success : bool) (m : threads) : threads :=
  let m := transfer_msg s t success m in
  let m :=
    if success
    then upd s (set_st (change (Z.lnot Thread_ipc_mask)
                          (Thread_ready .| (if rcv_prepared (m s) then Thread_receive_wait else 0)))) m
    else upd s (set_st (add (Thread_transfer_failed .| Thread_ready))) m in
  upd t (set_pc (Receive_done i)) m.

(** ** [try_receive]: the thread blocks, leaves the IPC, starts to receive from a
    sender, or tries again *)
Inductive turn := Blocks (m : threads) | Leaves (m : threads) | Copies (s : Z) (m : threads) | Again (m : threads).

Definition try_receive (t : Z) (next : option Z) (i : ipc) (now : Z) (m : threads) : turn :=
  let state := st (m t) in
  let block m := Blocks (upd t (set_st (change (Z.lnot Thread_ready) 0)) m) in
  if has Thread_ipc_abort_mask state then Leaves m
  else if has Thread_receive_in_progress state then block m
  else if negb (has Thread_ipc_receive_mask state) then Leaves m
  else match (match next with Some s => Some s | None => next_sender t (sender i) m end) with
  | None =>
      match tmo (m t) with
      | Hit => Leaves m
      | Armed _ => if has Thread_receive_wait state then block m else Again m
      | Off =>
          match setup_timer t (rcv_timeout i) now m with
          | (false, m) => Leaves m
          | (true, m) => if has Thread_receive_wait state then block m else Again m
          end
      end
  | Some s =>
      match dequeue_next_sender t s m with
      | None => Again m
      | Some m =>
          match change_safely (Z.lnot Thread_receive_wait) Thread_receive_in_progress (st (m t)) with
          | Some x =>
              Copies s (upd s (set_st (add Thread_send_in_progress)) (upd t (set_st (fun _ => del Thread_timeout x)) m))
          | None =>
              let m := sender_enqueue s t m in
              if negb (has Thread_ipc_receive_mask (st (m t))) then Leaves m else Again m
          end
      end
  end.

(** [do_receive]: a failed turn is followed by one without a sender. *)
Definition do_receive (t : Z) (next : option Z) (i : ipc) (now : Z) (m : threads) : option threads :=
  match try_receive t next i now m with
  | Blocks m => Some (upd t (set_pc (Receive_wait i)) m)
  | Leaves m => Some (finish t i m)
  | Copies s m => Some (upd t (set_pc (Receive_copy s i)) m)
  | Again m =>
      match try_receive t None i now m with
      | Blocks m => Some (upd t (set_pc (Receive_wait i)) m)
      | Leaves m => Some (finish t i m)
      | Copies s m => Some (upd t (set_pc (Receive_copy s i)) m)
      | Again _ => None
      end
  end.

(** [prepare_receive] *)
Definition prepare_receive (t : Z) (i : ipc) (m : threads) : threads :=
  upd t (fun T => set_poi (sender i) (set_rcv_regs (have_receive i) (have_receive i && want_reply i) T)) m.

(** [_do_ipc], after the kernel entry has removed [Thread_cancel]. *)
Definition do_ipc (t : Z) (i : ipc) (now : Z) (m : threads) : option threads :=
  let m := upd t (set_hist (fun _ => new_history i)) (upd t (set_st (del Thread_cancel)) m) in
  let m := upd t (set_rights (rights i)) (prepare_receive t i m) in
  match partner i with
  | Some r => ipc_send t r i now (reset_caller_of t r m)
  | None => Some (after_send t i true false now (upd t (set_st (add Thread_receive_wait)) m))
  end.

(** * Steps *)

Record sys := mkSys { th : threads; clock : Z }.

Inductive label :=
  | L_ipc (t : Z) (i : ipc)           (* a thread starts an IPC *)
  | L_run (t : Z)                     (* a thread that can run goes on *)
  | L_copied (t : Z) (ok : bool)      (* a thread ends the transfer of a message *)
  | L_timeout (t : Z)                 (* the timer of a thread expires *)
  | L_cancel (t : Z)                  (* [ex_regs] with [Exr_cancel] *)
  | L_tick (d : Z).

(** [IPC_timeout::expired] *)
Definition expired (T : thread) : thread :=
  let T := set_tmo Hit T in
  let ipc_state := st T .& Thread_ipc_mask in
  if (ipc_state =? 0) || has Thread_receive_in_progress ipc_state then T
  else set_st (add (Thread_ready .| Thread_timeout)) T.

Definition step (l : label) (s : sys) : option sys :=
  let m := th s in
  let now := clock s in
  let go (r : option threads) := match r with Some m => Some (mkSys m now) | None => None end in
  match l with
  | L_ipc t i =>
      match at_ (m t) with
      | User => if has Thread_ready (st (m t)) && match partner i with Some _ => true | None => have_receive i end
                then go (do_ipc t i now m) else None
      | _ => None
      end
  | L_run t =>
      if has Thread_ready (st (m t))
      then match at_ (m t) with
           | Send_wait r i => Some (mkSys (send_wait_turn t r i now m) now)
           | Abort_wait r i => Some (mkSys (abort_wait_turn t r i now m) now)
           | Receive next i => go (do_receive t next i now m)
           | Receive_wait i => Some (mkSys (finish t i m) now)
           | Receive_done i => Some (mkSys (finish t i (upd t (set_st (del Thread_ipc_mask)) m)) now)
           | Leave i => Some (mkSys (finish t i m) now)
           | _ => None
           end
      else None
  | L_copied t ok =>
      match at_ (m t) with
      | Send_copy r i => Some (mkSys (ipc_send_done t r i ok now m) now)
      | Receive_copy s i => Some (mkSys (ipc_send_msg_done t s i ok m) now)
      | _ => None
      end
  | L_timeout t =>
      match tmo (m t) with
      | Armed v => if v <=? now then Some (mkSys (upd t expired m) now) else None
      | _ => None
      end
  | L_cancel t => Some (mkSys (upd t (set_st (add (Thread_cancel .| Thread_ready))) m) now)
  | L_tick d => if 0 <=? d then Some (mkSys m (now + d)) else None
  end.

Fixpoint run (ls : list label) (s : sys) : option sys :=
  match ls with
  | [] => Some s
  | l :: ls => match step l s with Some s => run ls s | None => None end
  end.
