(* ===== verification/IpcInv.v ===== *)
(** The invariant of the IPC handshake: how the flags of a thread, its place in
    the code, the sender lists and the history of its IPC fit together; every
    step preserves it as long as no thread runs while another one is
    transferring a message to it. *)

From S2P Require Import Prelude Ipc.
Import Thread_state.
#[local] Arguments Z.testbit : simpl never.

(** * Flags *)

(** Tests of the low bits of a state word, one bit at a time. *)
Definition low_bits_eq (s m c : Z) : bool :=
  forallb (fun n => Bool.eqb (Z.testbit m n && Z.testbit s n) (Z.testbit c n)) [0; 1; 2; 3; 4; 5; 6; 7; 8; 9].

Lemma land_eqb s m c : 0 <= m < 2 ^ 10 -> 0 <= c < 2 ^ 10 -> ((s .& m) =? c) = low_bits_eq s m c.
Proof.
  intros Hm Hc. apply eq_true_iff_eq. rewrite Z.eqb_eq. unfold low_bits_eq. rewrite forallb_forall. split.
  - intros <- n _. rewrite Z.land_spec, andb_comm. apply Bool.eqb_reflx.
  - intros H. apply Z.bits_inj'. intros n Hn. rewrite Z.land_spec, andb_comm.
    destruct (Z.lt_ge_cases n 10) as [Hlt|Hge].
    + apply Bool.eqb_prop. apply H. cbn. lia.
    + rewrite (testbit_high 10 m), (testbit_high 10 c) by (unfold in_range; lia). done.
Qed.

Abbreviation tb n T := (Z.testbit (st T) n).

Ltac bit_test s :=
  unfold has, nonzero; rewrite ?land_eqb by (vm_compute; split; congruence); unfold low_bits_eq; cbn [forallb];
  generalize (Z.testbit s 0), (Z.testbit s 1), (Z.testbit s 2), (Z.testbit s 3), (Z.testbit s 4),
    (Z.testbit s 5), (Z.testbit s 6), (Z.testbit s 7), (Z.testbit s 8), (Z.testbit s 9);
  intros; vm_compute; repeat match goal with b : bool |- context [?x] => constr_eq x b; destruct b end; reflexivity.

Section tests.
Implicit Type s : Z.

Lemma has_ready s : has Thread_ready s = Z.testbit s 0.
Proof. bit_test s. Qed.
Lemma has_sip s : has Thread_send_in_progress s = Z.testbit s 5.
Proof. bit_test s. Qed.
Lemma has_rip s : has Thread_receive_in_progress s = Z.testbit s 4.
Proof. bit_test s. Qed.
Lemma has_rw s : has Thread_receive_wait s = Z.testbit s 3.
Proof. bit_test s. Qed.
Lemma has_rcv s : has Thread_ipc_receive_mask s = Z.testbit s 3 || Z.testbit s 4.
Proof. bit_test s. Qed.
Lemma has_abort s : has Thread_ipc_abort_mask s = Z.testbit s 6 || Z.testbit s 7 || Z.testbit s 8.
Proof. bit_test s. Qed.
Lemma has_ipc s : has Thread_ipc_mask s = Z.testbit s 2 || Z.testbit s 3 || Z.testbit s 4 || Z.testbit s 5.
Proof. bit_test s. Qed.
Lemma has_full s :
  has Thread_full_ipc_mask s = has Thread_ipc_mask s || (Z.testbit s 6 || Z.testbit s 7 || Z.testbit s 8).
Proof. bit_test s. Qed.

(** The test of [sender_ok]. *)
Lemma only_rw s : ((s .& Thread_ipc_mask) =? Thread_receive_wait)
  = Z.testbit s 3 && negb (Z.testbit s 2) && negb (Z.testbit s 4) && negb (Z.testbit s 5).
Proof. bit_test s. Qed.

(** The tests of [do_send_wait]. *)
Lemma still_waits s : ((s .& (Thread_send_wait .| Thread_ipc_abort_mask)) =? Thread_send_wait)
  = Z.testbit s 2 && negb (Z.testbit s 6 || Z.testbit s 7 || Z.testbit s 8).
Proof. bit_test s. Qed.
Lemma done_waits s : ((s .& (Thread_send_wait .| Thread_ipc_abort_mask)) =? 0)
  = negb (Z.testbit s 2 || Z.testbit s 6 || Z.testbit s 7 || Z.testbit s 8).
Proof. bit_test s. Qed.
Lemma has_land m c s : has m (s .& c) = has (c .& m) s.
Proof. unfold has. by rewrite Z.land_assoc. Qed.
Lemma failed_waits s : has Thread_transfer_failed (s .& (Thread_send_wait .| Thread_ipc_abort_mask)) = Z.testbit s 6.
Proof. rewrite has_land. bit_test s. Qed.
Lemma cancel_waits s : has Thread_cancel (s .& (Thread_send_wait .| Thread_ipc_abort_mask)) = Z.testbit s 7.
Proof. rewrite has_land. bit_test s. Qed.
Lemma timeout_waits s : has Thread_timeout (s .& (Thread_send_wait .| Thread_ipc_abort_mask)) = Z.testbit s 8.
Proof. rewrite has_land. bit_test s. Qed.

Lemma receive_safely s : change_safely (Z.lnot Thread_receive_wait) Thread_receive_in_progress s
  = if Z.testbit s 3 && negb (Z.testbit s 4)
    then Some (change (Z.lnot Thread_receive_wait) Thread_receive_in_progress s) else None.
Proof.
  unfold change_safely. set (x := _ .| _).
  assert (nonzero x = Z.testbit s 4 || negb (Z.testbit s 3)) as ->.
  { assert (forall n, 0 <= n -> Z.testbit x n = if n =? 4 then Z.testbit s 4 else if n =? 3 then negb (Z.testbit s 3) else false) as Hx.
    { intros n Hn. unfold x. rewrite Z.lor_spec, !Z.land_spec, Z.lnot_involutive, !Z.lnot_spec by lia.
      change Thread_receive_in_progress with (2 ^ 4). change Thread_receive_wait with (2 ^ 3). rewrite !Z.pow2_bits_eqb by lia.
      destruct (Z.eqb_spec n 4) as [->|?]; [by destruct (Z.testbit s 4)|]. rewrite !(Z.eqb_sym _ n).
      destruct (Z.eqb_spec n 3) as [->|?]; [by destruct (Z.testbit s 3)|].
      destruct (Z.eqb_spec n 4); [lia|]. destruct (Z.testbit s n); reflexivity. }
    unfold nonzero. destruct (Z.eqb_spec x 0) as [E|Hne]; cbn.
    - pose proof (Hx 4 ltac:(lia)) as H4. pose proof (Hx 3 ltac:(lia)) as H3. rewrite E in H4, H3. cbn in H4, H3.
      by rewrite <- H4, <- H3.
    - destruct (Z.testbit s 4) eqn:E4; [done|]. destruct (Z.testbit s 3) eqn:E3; [|done]. destruct Hne.
      apply Z.bits_inj_0. intros n. destruct (Z.lt_ge_cases n 0); [by apply Z.testbit_neg_r|]. rewrite Hx by lia.
      by destruct (n =? 4), (n =? 3). }
  by destruct (Z.testbit s 4), (Z.testbit s 3).
Qed.
End tests.

(** * The state of one thread *)

(** The flags of an IPC: waiting to send, waiting for a message, being sent to,
    sending, and that the transfer failed. *)
Record flags := mkFlags { sw : bool; rw : bool; rip : bool; sip : bool; tf : bool }.
Definition fl (T : thread) : flags := mkFlags (tb 2 T) (tb 3 T) (tb 4 T) (tb 5 T) (tb 6 T).
Definition no_flags : flags := mkFlags false false false false false.
Definition rdy (T : thread) : bool := tb 0 T.
Definition hit (T : thread) : bool := tb 7 T || tb 8 T.

(** The arguments of the IPC that a thread is in, which has not reported anything yet. *)
Definition running (i : ipc) (T : thread) : Prop :=
  req (hist T) = Some i /\ aborted (hist T) = false /\ rcv_res (hist T) = R_ok /\ rcv_prepared T = have_receive i.

(** The message of an IPC has been transferred as the send phase reports it. *)
Definition sent_as (i : ipc) (ok : bool) (l : list bool) : Prop :=
  match partner i with
  | None => l = []
  | Some _ => if ok then l = [true] else l = [] \/ l = [false]
  end.

Definition fresh (i : ipc) (T : thread) : Prop := sent (hist T) = [] /\ inbox (hist T) = [] /\ poi T = sender i.

(** The receive phase: while it waits it has no message, afterwards one. *)
Definition receive_phase (i : ipc) (T : thread) : Prop :=
  tb 2 T = false /\ tb 5 T = false /\ tb 6 T = false /\ tb 3 T && tb 4 T = false
  /\ (if tb 3 T || tb 4 T then have_receive i = true /\ inbox (hist T) = []
      else if have_receive i then exists x, inbox (hist T) = [x] else inbox (hist T) = [])
  /\ (tb 3 T = true -> poi T = sender i).

(** What a finished IPC reports. *)
Definition ended (i : ipc) (T : thread) : Prop :=
  sent_as i (snd_ok (hist T)) (sent (hist T))
  /\ (have_receive i = false \/ snd_ok (hist T) = false -> inbox (hist T) = [])
  /\ (have_receive i = true -> snd_ok (hist T) = true -> aborted (hist T) = false ->
      match rcv_res (hist T) with R_ok => exists x, inbox (hist T) = [x] | _ => inbox (hist T) = [] end).

(** The four states of a sender that has left the running state: in the queue,
    being served by the receiver, done, failed. *)
Definition sending (abort : bool) (i : ipc) (T : thread) : Prop :=
  (fl T = mkFlags true false false false false /\ abort = false /\ fresh i T /\ (rdy T = false -> hit T = false))
  \/ (fl T = mkFlags true false false true false /\ fresh i T /\ (abort = false -> rdy T = false -> hit T = false))
  \/ (rdy T = true /\ sent (hist T) = [true] /\ receive_phase i T)
  \/ (fl T = mkFlags true false false true true /\ sent (hist T) = [false] /\ inbox (hist T) = [] /\ (abort = false -> rdy T = true)).

(** No sender that the thread would accept is in its list. *)
Definition none_acceptable (T : thread) : Prop :=
  match poi T with None => senders T = [] | Some p => p ∉ senders T end.

Definition in_receive (i : ipc) (T : thread) : Prop :=
  running i T /\ have_receive i = true /\ snd_ok (hist T) = true /\ sent_as i true (sent (hist T)).

Definition local (T : thread) : Prop :=
  match at_ T with
  | User => fl T = no_flags /\ tb 8 T = false /\ match req (hist T) with Some i => ended i T | None => True end
  | Leave i => running i T /\ fl T = no_flags /\ ended i T
  | Send_copy r i => running i T /\ partner i = Some r /\ fl T = no_flags /\ fresh i T /\ rdy T = true
  | Send_wait r i => running i T /\ partner i = Some r /\ sending false i T
  | Abort_wait r i => running i T /\ partner i = Some r /\ sending true i T /\ hit T = true
  | Receive _ i => in_receive i T /\ rdy T = true /\ receive_phase i T
  | Receive_wait i => in_receive i T /\ receive_phase i T /\ (tb 3 T = true -> none_acceptable T)
      /\ (if tb 3 T || tb 4 T then rdy T = hit T else rdy T = true)
  | Receive_copy _ i => in_receive i T /\ fl T = mkFlags false false true false false /\ inbox (hist T) = []
  | Receive_done i => in_receive i T /\ fl T = mkFlags false false true false false /\ exists x, inbox (hist T) = [x]
  end.

(** * How threads refer to each other *)

Inductive link_to := Free | Queued_at (r : Z) | Served_at (r : Z) | Copying_to (r : Z).

Definition link (T : thread) : link_to :=
  match at_ T with
  | Send_wait r _ | Abort_wait r _ =>
      if tb 2 T && negb (tb 6 T) then if tb 5 T then Served_at r else Queued_at r else Free
  | Send_copy r _ => Copying_to r
  | _ => Free
  end.

(** The sender a thread takes its message from, and whether another thread is
    transferring a message to it. *)
Definition served_by (T : thread) : option Z := match at_ T with Receive_copy x _ => Some x | _ => None end.
Definition copied (T : thread) : bool := match at_ T with Receive_copy _ _ | Receive_done _ => false | _ => tb 4 T end.

Record Cross (sd : Z -> list Z) (lk : Z -> link_to) (sv : Z -> option Z) (cp : Z -> bool) : Prop := {
  x_queued : forall r x, x ∈ sd r <-> lk x = Queued_at r;
  x_nodup : forall r, NoDup (sd r);
  x_served : forall r x, sv r = Some x <-> lk x = Served_at r;
  x_copied : forall r x, lk x = Copying_to r -> cp r = true;
  x_copying : forall r, cp r = true -> exists x, lk x = Copying_to r;
  x_unique : forall r x y, lk x = Copying_to r -> lk y = Copying_to r -> x = y }.

Definition Inv (m : threads) : Prop :=
  (forall t, local (m t)) /\ Cross (fun t => senders (m t)) (fun t => link (m t)) (fun t => served_by (m t)) (fun t => copied (m t)).

(** ** The ways references change *)

Section cross.
Context (sd sd' : Z -> list Z) (lk lk' : Z -> link_to) (sv sv' : Z -> option Z) (cp cp' : Z -> bool).
Hypothesis HX : Cross sd lk sv cp.

Lemma cross_same : (forall x, sd' x = sd x) -> (forall x, lk' x = lk x) -> (forall x, sv' x = sv x) -> (forall x, cp' x = cp x) ->
  Cross sd' lk' sv' cp'.
Proof.
  intros H1 H2 H3 H4. destruct HX. split.
  - intros r x. rewrite H1, H2. done.
  - intros r. by rewrite H1.
  - intros r x. rewrite H3, H2. done.
  - intros r x. rewrite H2, H4. eauto.
  - intros r. rewrite H4. intros [x Hx]%x_copying0. exists x. by rewrite H2.
  - intros r x y. rewrite !H2. eauto.
Qed.

Section one.
Context (t r : Z) (Hlk : forall x, x <> t -> lk' x = lk x).

(** [t] enters the queue of [r]. *)
Lemma cross_enqueue : lk t = Free -> lk' t = Queued_at r -> (forall x, x <> r -> sd' x = sd x) -> sd' r ≡ₚ t :: sd r ->
  (forall x, sv' x = sv x) -> (forall x, cp' x = cp x) -> Cross sd' lk' sv' cp'.
Proof.
  intros Hf Hq H1 Hr H3 H4. destruct HX.
  assert (forall y, t ∉ sd y) as Hnot by (intros y Hy%x_queued0; congruence).
  split.
  - intros y x. destruct (decide (x = t)) as [->|Hx], (decide (y = r)) as [->|Hy].
    + rewrite Hr, Hq. set_solver.
    + rewrite H1, Hq by done. split; [intros []%Hnot | intros [= ->]; done].
    + rewrite Hr, Hlk by done. rewrite elem_of_cons, x_queued0. naive_solver.
    + by rewrite H1, Hlk.
  - intros y. destruct (decide (y = r)) as [->|]; [|by rewrite H1]. rewrite Hr. by constructor.
  - intros y x. rewrite H3. destruct (decide (x = t)) as [->|]; [|by rewrite Hlk]. rewrite x_served0, Hf, Hq. done.
  - intros y x. rewrite H4. destruct (decide (x = t)) as [->|]; [congruence|]. rewrite Hlk by done. eauto.
  - intros y. rewrite H4. intros [x Hx]%x_copying0. exists x. rewrite Hlk; congruence.
  - intros y x z Hx Hz. destruct (decide (x = t)) as [->|]; [congruence|]. destruct (decide (z = t)) as [->|]; [congruence|].
    rewrite Hlk in Hx, Hz by done. eauto.
Qed.

(** [t] leaves the queue of [r]. *)
Lemma cross_dequeue : lk t = Queued_at r -> lk' t = Free -> (forall x, x <> r -> sd' x = sd x) ->
  sd' r = filter (fun x => x <> t) (sd r) -> (forall x, sv' x = sv x) -> (forall x, cp' x = cp x) -> Cross sd' lk' sv' cp'.
Proof.
  intros Hq Hf H1 Hr H3 H4. destruct HX. split.
  - intros y x. destruct (decide (x = t)) as [->|Hx].
    + rewrite Hf. split; [|done]. destruct (decide (y = r)) as [->|Hy]; [rewrite Hr, list_elem_of_filter; tauto|].
      rewrite H1 by done. rewrite x_queued0. congruence.
    + rewrite Hlk by done. destruct (decide (y = r)) as [->|Hy]; [|by rewrite H1]. rewrite Hr, list_elem_of_filter, x_queued0. tauto.
  - intros y. destruct (decide (y = r)) as [->|]; [|by rewrite H1]. rewrite Hr. by apply NoDup_filter.
  - intros y x. rewrite H3. destruct (decide (x = t)) as [->|]; [|by rewrite Hlk]. rewrite x_served0, Hf, Hq. done.
  - intros y x. rewrite H4. destruct (decide (x = t)) as [->|]; [congruence|]. rewrite Hlk by done. eauto.
  - intros y. rewrite H4. intros [x Hx]%x_copying0. exists x. rewrite Hlk; congruence.
  - intros y x z Hx Hz. destruct (decide (x = t)) as [->|]; [congruence|]. destruct (decide (z = t)) as [->|]; [congruence|].
    rewrite Hlk in Hx, Hz by done. eauto.
Qed.

(** [t] starts or ends a transfer to [r]. *)
Lemma cross_copy (b : bool) : cp r = negb b -> cp' r = b -> (if b then lk t = Free /\ lk' t = Copying_to r else lk t = Copying_to r /\ lk' t = Free) ->
  (forall x, x <> r -> cp' x = cp x) -> (forall x, sd' x = sd x) -> (forall x, sv' x = sv x) -> Cross sd' lk' sv' cp'.
Proof.
  intros Hc Hc' Hb H4 H1 H3. destruct HX.
  assert ((forall y, lk t <> Queued_at y /\ lk' t <> Queued_at y) /\ (forall y, lk t <> Served_at y /\ lk' t <> Served_at y)) as [Hnq Hns].
  { destruct b, Hb as [-> ->]; done. }
  split.
  - intros y x. rewrite H1. destruct (decide (x = t)) as [->|]; [|by rewrite Hlk]. rewrite x_queued0. specialize (Hnq y). tauto.
  - intros y. by rewrite H1.
  - intros y x. rewrite H3. destruct (decide (x = t)) as [->|]; [|by rewrite Hlk]. rewrite x_served0. specialize (Hns y). tauto.
  - intros y x Hx. destruct (decide (x = t)) as [->|Hne].
    + destruct b, Hb as [H0 H0']; rewrite H0' in Hx; [by injection Hx as <- | done].
    + rewrite Hlk in Hx by done. destruct (decide (y = r)) as [->|]; [|rewrite H4; eauto].
      destruct b, Hb as [H0 H0']; [done|]. destruct Hne. eauto.
  - intros y Hy. destruct b, Hb as [H0 H0'].
    + destruct (decide (y = r)) as [->|]; [by exists t|]. rewrite H4 in Hy by done. destruct (x_copying0 y Hy) as [x Hx].
      exists x. rewrite Hlk; congruence.
    + destruct (decide (y = r)) as [->|]; [congruence|]. rewrite H4 in Hy by done. destruct (x_copying0 y Hy) as [x Hx].
      exists x. rewrite Hlk; congruence.
  - intros y x z Hx Hz. destruct b, Hb as [H0 H0']; cbn in Hc.
    + destruct (decide (x = t)) as [->|], (decide (z = t)) as [->|]; [done | | |].
      * rewrite Hlk in Hz by done. rewrite H0' in Hx. injection Hx as <-. apply x_copied0 in Hz. congruence.
      * rewrite Hlk in Hx by done. rewrite H0' in Hz. injection Hz as <-. apply x_copied0 in Hx. congruence.
      * rewrite Hlk in Hx, Hz by done. eauto.
    + destruct (decide (x = t)) as [->|]; [congruence|]. destruct (decide (z = t)) as [->|]; [congruence|].
      rewrite Hlk in Hx, Hz by done. eauto.
Qed.

(** [r] takes [t] from its queue to serve it. *)
Lemma cross_serve : lk t = Queued_at r -> lk' t = Served_at r -> (forall x, x <> r -> sd' x = sd x) ->
  sd' r = filter (fun x => x <> t) (sd r) -> sv r = None -> sv' r = Some t -> (forall x, x <> r -> sv' x = sv x) ->
  (forall x, cp' x = cp x) -> Cross sd' lk' sv' cp'.
Proof.
  intros Hq Hs H1 Hr Hn Hv H3 H4. destruct HX. split.
  - intros y x. destruct (decide (x = t)) as [->|Hx].
    + rewrite Hs. split; [|done]. destruct (decide (y = r)) as [->|Hy]; [rewrite Hr, list_elem_of_filter; tauto|].
      rewrite H1 by done. rewrite x_queued0. congruence.
    + rewrite Hlk by done. destruct (decide (y = r)) as [->|Hy]; [|by rewrite H1]. rewrite Hr, list_elem_of_filter, x_queued0. tauto.
  - intros y. destruct (decide (y = r)) as [->|]; [|by rewrite H1]. rewrite Hr. by apply NoDup_filter.
  - intros y x. destruct (decide (x = t)) as [->|Hx].
    + rewrite Hs. destruct (decide (y = r)) as [->|Hy]; [done|]. rewrite H3 by done. rewrite x_served0, Hq. split; congruence.
    + rewrite Hlk by done. destruct (decide (y = r)) as [->|Hy]; [|by rewrite H3]. rewrite <- x_served0, Hv, Hn. split; congruence.
  - intros y x. rewrite H4. destruct (decide (x = t)) as [->|]; [congruence|]. rewrite Hlk by done. eauto.
  - intros y. rewrite H4. intros [x Hx]%x_copying0. exists x. rewrite Hlk; congruence.
  - intros y x z Hx Hz. destruct (decide (x = t)) as [->|]; [congruence|]. destruct (decide (z = t)) as [->|]; [congruence|].
    rewrite Hlk in Hx, Hz by done. eauto.
Qed.

(** [r] has served [t]. *)
Lemma cross_served : sv r = Some t -> sv' r = None -> lk' t = Free -> (forall x, x <> r -> sv' x = sv x) ->
  (forall x, sd' x = sd x) -> (forall x, cp' x = cp x) -> Cross sd' lk' sv' cp'.
Proof.
  intros Hv Hn Hf H3 H1 H4. destruct HX. pose proof (proj1 (x_served0 r t) Hv) as Hl. split.
  - intros y x. rewrite H1. destruct (decide (x = t)) as [->|]; [|by rewrite Hlk]. rewrite x_queued0. split; congruence.
  - intros y. by rewrite H1.
  - intros y x. destruct (decide (x = t)) as [->|Hx].
    + rewrite Hf. split; [|done]. destruct (decide (y = r)) as [->|Hy]; [congruence|]. rewrite H3 by done. rewrite x_served0. congruence.
    + rewrite Hlk by done. destruct (decide (y = r)) as [->|Hy]; [|by rewrite H3]. rewrite <- x_served0, Hv, Hn. split; congruence.
  - intros y x. rewrite H4. destruct (decide (x = t)) as [->|]; [congruence|]. rewrite Hlk by done. eauto.
  - intros y. rewrite H4. intros [x Hx]%x_copying0. exists x. rewrite Hlk; congruence.
  - intros y x z Hx Hz. destruct (decide (x = t)) as [->|]; [congruence|]. destruct (decide (z = t)) as [->|]; [congruence|].
    rewrite Hlk in Hx, Hz by done. eauto.
Qed.
End one.
End cross.

(** * Updates of threads *)

(** The part of a thread that the invariant is about. *)
Definition core (T : thread) : Z * option Z * list Z * bool * pc * history :=
  (st T, poi T, senders T, rcv_prepared T, at_ T, hist T).

Lemma core_eq T T' : core T = core T' ->
  (local T -> local T') /\ link T = link T' /\ served_by T = served_by T' /\ copied T = copied T' /\ senders T = senders T' /\ tb 4 T = tb 4 T'.
Proof.
  destruct T, T'. unfold core. cbn. intros [= -> -> -> -> -> ->]. split; [exact (fun H => H) | by repeat split].
Qed.

Lemma tupd_eq t f m : upd t f m t = f (m t).
Proof. unfold upd. by rewrite Z.eqb_refl. Qed.

Lemma tupd_ne t f m x : x <> t -> upd t f m x = m x.
Proof. unfold upd. by intros ->%Z.eqb_neq. Qed.

Lemma core_upd t f m x : (forall T, core (f T) = core T) -> core (upd t f m x) = core (m x).
Proof. intros H. unfold upd. destruct (x =? t); [apply H | done]. Qed.

#[local] Create Rewrite HintDb core_db.
#[local] Hint Rewrite core_upd using (by intros []) : core_db.

Lemma core_reset_partner c m x : core (reset_partner_reply_cap c m x) = core (m x).
Proof. unfold reset_partner_reply_cap. repeat case_match; autorewrite with core_db; done. Qed.
#[local] Hint Rewrite core_reset_partner : core_db.

Lemma core_reset_caller c m x : core (reset_caller c m x) = core (m x).
Proof. unfold reset_caller. repeat case_match; autorewrite with core_db; done. Qed.
#[local] Hint Rewrite core_reset_caller : core_db.

Lemma core_reset_caller_of r c m x : core (reset_caller_of r c m x) = core (m x).
Proof. unfold reset_caller_of. repeat case_match; autorewrite with core_db; done. Qed.

Lemma core_set_reply_cap r c k m x : core (set_reply_cap r c k m x) = core (m x).
Proof. unfold set_reply_cap. repeat case_match; autorewrite with core_db; done. Qed.
#[local] Hint Rewrite core_reset_caller_of core_set_reply_cap : core_db.

(** ** A thread that is running in the kernel

    While a thread works, what its program counter was is of no importance: it
    counts as free of references to others. *)
Definition Inv_but (t : Z) (m : threads) : Prop :=
  (forall x, x <> t -> local (m x))
  /\ Cross (fun x => senders (m x)) (fun x => if x =? t then Free else link (m x))
       (fun x => if x =? t then None else served_by (m x)) (fun x => if x =? t then tb 4 (m t) else copied (m x)).

Lemma but_core t m m' : (forall x, core (m' x) = core (m x)) -> Inv_but t m -> Inv_but t m'.
Proof.
  intros H [Hl Hx]. split.
  - intros x Hne. by apply (core_eq (m x)); [|apply Hl].
  - pose proof (fun x => proj2 (core_eq _ _ (H x))) as HH.
    eapply cross_same; [exact Hx|..]; intros x; cbn; destruct (x =? t); try done; apply HH.
Qed.

Lemma but_self t f m : senders (f (m t)) = senders (m t) -> tb 4 (f (m t)) = tb 4 (m t) -> Inv_but t m -> Inv_but t (upd t f m).
Proof.
  intros Hs Ht [Hl Hx]. split; [intros x Hne; rewrite tupd_ne by done; by apply Hl|].
  eapply cross_same; [exact Hx|..]; intros x; cbn; unfold upd; destruct (Z.eqb_spec x t) as [->|]; rewrite ?Z.eqb_refl; done.
Qed.

Lemma but_exit t m : Inv_but t m -> local (m t) -> link (m t) = Free -> served_by (m t) = None -> copied (m t) = tb 4 (m t) -> Inv m.
Proof.
  intros [Hl Hx] Ht H1 H2 H3. split.
  - intros x. destruct (decide (x = t)) as [->|]; [done | by apply Hl].
  - eapply cross_same; [exact Hx|..]; intros x; cbn; destruct (Z.eqb_spec x t) as [->|]; done.
Qed.

Lemma but_enter t m : Inv m -> link (m t) = Free -> served_by (m t) = None -> copied (m t) = tb 4 (m t) -> Inv_but t m.
Proof.
  intros [Hl Hx] H1 H2 H3. split; [intros x _; apply Hl|].
  eapply cross_same; [exact Hx|..]; intros x; cbn; destruct (Z.eqb_spec x t) as [->|]; done.
Qed.

Abbreviation without t := (fun T => set_senders (filter (fun x => x <> t) (senders T)) T).

Lemma local_without t T : local T -> local (without t T).
Proof.
  unfold local. cbn. destruct (at_ T); try exact (fun H => H). intros (? & ? & Hn & ?). split_and!; [done | done | | done].
  intros Hrw. specialize (Hn Hrw). unfold none_acceptable in *. cbn. destruct (poi T) as [p|].
  - rewrite list_elem_of_filter. tauto.
  - by rewrite Hn.
Qed.

(** Fields of an updated system, whichever of the threads it is. *)
Lemma upd_field {A} (g : thread -> A) t f m x : g (f (m t)) = g (m t) -> g (upd t f m x) = g (m x).
Proof. intros H. unfold upd. by destruct (Z.eqb_spec x t) as [->|]. Qed.

(** A thread that leaves the queue of its partner works on. *)
Lemma but_dequeue t r m : Inv m -> link (m t) = Queued_at r -> Inv_but t (upd r (without t) m).
Proof.
  intros [Hl Hx] Hq. assert (served_by (m t) = None /\ copied (m t) = tb 4 (m t)) as [Hsv Hcp].
  { unfold link in Hq. unfold served_by, copied. by destruct (at_ (m t)). }
  split.
  - intros x _. unfold upd. destruct (x =? r); [apply local_without, Hl | apply Hl].
  - eapply (cross_dequeue _ _ _ _ _ _ _ _ Hx t r); cbn.
    + intros x Hne%Z.eqb_neq. rewrite Hne. by apply upd_field.
    + done.
    + by rewrite Z.eqb_refl.
    + intros x Hne. by rewrite tupd_ne.
    + by rewrite tupd_eq.
    + intros x. destruct (Z.eqb_spec x t) as [->|]; [done|]. by apply upd_field.
    + intros x. destruct (Z.eqb_spec x t) as [->|]; [rewrite Hcp; by apply (upd_field (fun T => tb 4 T)) | by apply upd_field].
Qed.

(** ** The end of an IPC *)

Ltac flag_simp := unfold change, add, del; repeat rewrite ?Z.lor_spec, ?Z.land_spec, ?Z.lnot_spec by lia.

Lemma testbit_del b s n : 0 <= n -> Z.testbit (del b s) n = Z.testbit s n && negb (Z.testbit b n).
Proof. intros. flag_simp. done. Qed.
Lemma testbit_add b s n : Z.testbit (add b s) n = Z.testbit s n || Z.testbit b n.
Proof. flag_simp. done. Qed.
Lemma testbit_change b c s n : 0 <= n ->
  Z.testbit (change (Z.lnot b) c s) n = Z.testbit s n && negb (Z.testbit b n) || Z.testbit c n.
Proof. intros. flag_simp. done. Qed.

(** Evaluates the tests of the flags of closed words. *)
Ltac const_bits :=
  repeat match goal with
  | |- context [Z.testbit ?c ?n] =>
      let v := eval vm_compute in (Z.testbit c n) in
      lazymatch v with true => change (Z.testbit c n) with true | false => change (Z.testbit c n) with false end
  end.
Ltac bits := repeat rewrite ?testbit_del, ?testbit_add, ?testbit_change by lia; const_bits; cbn [andb orb negb];
  rewrite ?andb_true_r, ?andb_false_r, ?orb_true_r, ?orb_false_r.

(** A thread leaves its IPC. *)
Record leaving (i : ipc) (T : thread) : Prop := {
  lv_flags : exists w, fl T = mkFlags false w false false false;
  lv_req : req (hist T) = Some i;
  lv_sent : sent_as i (snd_ok (hist T)) (sent (hist T));
  lv_res : rcv_res (hist T) = R_ok;
  lv_none : have_receive i = false \/ snd_ok (hist T) = false -> inbox (hist T) = [];
  lv_wait : tb 3 T = true -> inbox (hist T) = [];
  lv_got : tb 3 T = false -> have_receive i = true -> snd_ok (hist T) = true -> aborted (hist T) = false ->
    exists x, inbox (hist T) = [x] }.

Lemma finish_other t i m x : x <> t -> core (finish t i m x) = core (m x).
Proof.
  intros Hx. unfold finish. repeat case_match; rewrite ?tupd_ne by done; autorewrite with core_db; rewrite ?tupd_ne by done; done.
Qed.

Lemma core_fields T T' : core T = core T' -> st T = st T' /\ poi T = poi T' /\ senders T = senders T'
  /\ rcv_prepared T = rcv_prepared T' /\ at_ T = at_ T' /\ hist T = hist T'.
Proof. by intros [= -> -> -> -> -> ->]. Qed.

(** The thread itself after the end of its IPC. *)
Lemma finish_self t i m : let T := m t in let T' := finish t i m t in
  at_ T' = User /\ senders T' = senders T
  /\ st T' = (if has Thread_full_ipc_mask (st T) then del Thread_full_ipc_mask (st T) else st T)
  /\ hist T' = (if has Thread_ipc_mask (st T) then note_rcv (if has Thread_cancel (st T) then R_canceled else R_timeout) (hist T) else hist T).
Proof.
  cbn. unfold finish. rewrite tupd_eq. cbn [st set_tmo]. rewrite has_full.
  destruct (has Thread_ipc_mask (st (m t))) eqn:E; cbn [negb orb].
  - rewrite !tupd_eq. cbn [at_ set_pc senders set_st st hist set_hist].
    set (m1 := upd t (set_tmo Off) m). assert (core (m1 t) = core (m t)) as H1 by (unfold m1; autorewrite with core_db; done).
    case_match; rewrite ?core_reset_partner; [pose proof (core_reset_partner t m1 t) as H2; rewrite H1 in H2|];
      [apply core_fields in H2 as (-> & _ & -> & _ & _ & ->) | apply core_fields in H1 as (-> & _ & -> & _ & _ & ->)]; done.
  - destruct (_ || _); cbn [negb]; rewrite !tupd_eq; done.
Qed.

Lemma finish_local t i m : leaving i (m t) -> let T' := finish t i m t in
  local T' /\ link T' = Free /\ served_by T' = None /\ copied T' = tb 4 T' /\ tb 4 T' = tb 4 (m t).
Proof.
  intros [(w & Hf) Hq Hs Hr Hn Hw Hg]. cbn. destruct (finish_self t i m) as (Ha & _ & Hst & Hh). set (T' := finish t i m t) in *.
  injection Hf as F2 F3 F4 F5 F6.
  assert (fl T' = no_flags) as Hf'.
  { unfold fl. rewrite Hst. destruct (has Thread_full_ipc_mask (st (m t))) eqn:E; [by bits|].
    rewrite has_full, has_ipc, F2, F3, F4, F5, F6 in E. destruct w; [done|]. by rewrite F2, F3, F4, F5, F6. }
  assert (tb 8 T' = false) as H8.
  { rewrite Hst. destruct (has Thread_full_ipc_mask (st (m t))) eqn:E; [by bits|].
    rewrite has_full in E. by apply orb_false_iff in E as [_ [_ E]%orb_false_iff]. }
  unfold local, link, served_by, copied. rewrite Ha. pose proof Hf' as [= G2 G3 G4 G5 G6]. split; [split; [done|]; split; [done|] | split_and!; [done | done | done | congruence]].
  rewrite has_ipc, F2, F3, F4, F5 in Hh. cbn in Hh. rewrite orb_false_r in Hh.
  assert (req (hist T') = Some i) as -> by (rewrite Hh; by destruct w).
  unfold ended. rewrite Hh. destruct w; cbn; rewrite ?Hr; split_and!; try done.
  - intros _ _ _. rewrite Hw by done. by destruct (has Thread_cancel _).
  - intros ? ? ?. by apply Hg.
Qed.
