(* ===== verification/IpcSteps.v ===== *)
(** The steps of the IPC handshake preserve its invariant. *)

From S2P Require Import Prelude Ipc IpcInv.
Import Thread_state.
#[local] Arguments Z.testbit : simpl never.

(** * After the send phase *)

Abbreviation activated := (set_st (change (Z.lnot Thread_receive_in_progress) Thread_ready)).

(** The other threads when the partner is made ready. *)
Definition activate (act : bool) (i : ipc) (m : threads) : threads :=
  match partner i with Some p => if act then upd p activated m else m | None => m end.

(** The send phase of an IPC is over with the result [ok]. *)
Definition over (i : ipc) (ok : bool) (T : thread) : Prop :=
  req (hist T) = Some i /\ rcv_res (hist T) = R_ok /\ rcv_prepared T = have_receive i /\ sent_as i ok (sent (hist T))
  /\ ((ok = true /\ aborted (hist T) = false /\ rdy T = true /\ receive_phase i T)
      \/ (fl T = no_flags /\ ok = false /\ aborted (hist T) = false /\ inbox (hist T) = [])
      \/ (fl T = no_flags /\ ok = true /\ aborted (hist T) = true /\ (have_receive i = false -> inbox (hist T) = []))).

Lemma setup_timer_other t to now m x : x <> t -> snd (setup_timer t to now m) x = m x.
Proof. intros Hx. unfold setup_timer. by repeat case_match; cbn; rewrite ?tupd_ne. Qed.

(** The timer of a thread and the flags that say that it has expired already. *)
Lemma setup_timer_self t to now m : let T := m t in let T' := snd (setup_timer t to now m) t in
  poi T' = poi T /\ senders T' = senders T /\ rcv_prepared T' = rcv_prepared T /\ hist T' = hist T
  /\ (st T' = st T \/ st T' = add (Thread_ready .| Thread_timeout) (st T)).
Proof. cbn. unfold setup_timer. repeat case_match; cbn; rewrite ?tupd_eq; cbn; split_and!; auto. Qed.

Lemma add_ready_timeout s n : n <> 0 -> n <> 8 -> Z.testbit (add (Thread_ready .| Thread_timeout) s) n = Z.testbit s n.
Proof.
  intros H0 H8. rewrite testbit_add. change (Thread_ready .| Thread_timeout) with (2 ^ 8 .| 2 ^ 0).
  rewrite Z.lor_spec. destruct (Z.lt_ge_cases n 0); [by rewrite !Z.testbit_neg_r|].
  rewrite !Z.pow2_bits_eqb by lia. destruct (Z.eqb_spec 8 n); [lia|]. destruct (Z.eqb_spec 0 n); [lia|]. by rewrite !orb_false_r.
Qed.

(** Nothing but the ready and timeout flags of [T'] differs. *)
Definition alike (T T' : thread) : Prop :=
  poi T' = poi T /\ senders T' = senders T /\ rcv_prepared T' = rcv_prepared T /\ hist T' = hist T
  /\ (forall n, n <> 0 -> n <> 8 -> tb n T' = tb n T) /\ (rdy T = true -> rdy T' = true).

Lemma setup_timer_alike t to now m : alike (m t) (snd (setup_timer t to now m) t).
Proof.
  destruct (setup_timer_self t to now m) as (? & ? & ? & ? & [E|E]); split_and!; try done; unfold rdy; rewrite E; try done.
  - apply add_ready_timeout.
  - intros Hrdy. by rewrite testbit_add, Hrdy.
Qed.

Lemma receive_phase_alike i T T' : alike T T' -> receive_phase i T -> receive_phase i T'.
Proof.
  intros (Hp & _ & _ & Hh & Hb & _). unfold receive_phase. by rewrite !Hb, Hh, Hp by done.
Qed.

Lemma after_send_other t i ok act now m x : x <> t -> core (after_send t i ok act now m x) = core (activate act i m x).
Proof.
  intros Hx. unfold after_send, activate.
  set (m1 := upd t (set_hist (note_snd ok)) m).
  set (rcv := have_receive i && _). set (next := if rcv then next_sender t (sender i) m1 else None).
  set (m2 := match next with Some _ => m1 | None => _ end).
  assert (m2 x = m x) as H2.
  { unfold m2, m1. destruct next, rcv; rewrite ?setup_timer_other, ?tupd_ne by done; done. }
  set (m3 := match partner i with Some p => if act then upd p activated m2 else m2 | None => m2 end).
  assert (m3 x = match partner i with Some p => if act then upd p activated m else m | None => m end x) as H3.
  { unfold m3. destruct (partner i) as [p|]; [|done]. destruct act; [|done]. unfold upd at 1 2. destruct (x =? p); by rewrite H2. }
  destruct rcv; [rewrite tupd_ne by done; by rewrite H3|].
  destruct act; [rewrite tupd_ne by done; by rewrite H3|]. rewrite finish_other by done. by rewrite H3.
Qed.

Lemma sent_as_ended i T : running i T -> over i (snd_ok (hist T)) T -> has Thread_ipc_receive_mask (st T) = false \/ have_receive i = false ->
  ended i T.
Proof.
  intros (Hq & Ha & Hr & Hp) (_ & _ & _ & Hs & [(Hok & _ & _ & Hph)|[(Hf & Hok & _ & Hi)|(Hf & Hok & Hb & Hi)]]) Hm; [| |congruence].
  - destruct Hph as (F2 & F5 & F6 & Fw & Hbox & _). split; [done|].
    assert (tb 3 (T) || tb 4 T = false) as E.
    { destruct Hm as [Hm|Hm]; [by rewrite has_rcv in Hm|]. destruct (_ || _) eqn:E; [|done]. destruct Hbox; congruence. }
    rewrite E in Hbox. split.
    + intros [Hh|]; [|congruence]. by rewrite Hh in Hbox.
    + intros Hh _ _. rewrite Hr. by rewrite Hh in Hbox.
  - split; [done|]. split; [done|]. intros _ ?. congruence.
Qed.

Lemma over_note i ok T : over i ok T -> over i ok (set_hist (note_snd ok) T).
Proof. exact (fun H => H). Qed.

(** The thread itself after the send phase. *)
Lemma after_send_self t i ok act now m : (act = true -> exists r, partner i = Some r /\ r <> t) ->
  let T := set_hist (note_snd ok) (m t) in let T' := after_send t i ok act now m t in
  if have_receive i && has Thread_ipc_receive_mask (st T) then alike T T' /\ exists next, at_ T' = Receive next i
  else if act then T' = set_pc (Leave i) T
  else exists m', m' t = T /\ T' = finish t i m' t.
Proof.
  intros Hact. cbn [st set_hist]. unfold after_send. rewrite tupd_eq. cbn [st set_hist].
  set (m1 := upd t (set_hist (note_snd ok)) m). assert (m1 t = set_hist (note_snd ok) (m t)) as H1 by (unfold m1; by rewrite tupd_eq).
  destruct (have_receive i && _) eqn:Er.
  - set (m2 := match next_sender t (sender i) m1 with Some _ => m1 | None => _ end).
    assert (alike (m1 t) (m2 t)) as H2 by (unfold m2; case_match; [by split_and! | apply setup_timer_alike]).
    set (m3 := match partner i with Some p => if act then upd p activated m2 else m2 | None => m2 end).
    assert (m3 t = m2 t) as H3.
    { unfold m3. destruct (partner i) as [p|]; [|done]. destruct act; [|done]. destruct Hact as (r & [= ->] & ?); [done|]. by rewrite tupd_ne. }
    rewrite tupd_eq, H3. rewrite H1 in H2. destruct H2 as (? & ? & ? & ? & ? & ?). split; [by split_and! | by eexists].
  - destruct act.
    + destruct Hact as (r & -> & ?); [done|]. rewrite tupd_eq, tupd_ne by done. by rewrite H1.
    + exists m1. split; [done|]. by destruct (partner i).
Qed.

(** [T'] is where a working thread [T] has come to a rest without references. *)
Definition settles (T T' : thread) : Prop :=
  senders T' = senders T /\ tb 4 T' = tb 4 T /\ local T' /\ link T' = Free /\ served_by T' = None /\ copied T' = tb 4 T'.

Lemma settle_receive i ok next T T' : alike T T' -> at_ T' = Receive next i -> over i ok T -> snd_ok (hist T) = ok ->
  have_receive i = true -> has Thread_ipc_receive_mask (st T) = true -> settles T T'.
Proof.
  intros Hal Ha (Hq & Hr & Hp & Hs & Hcases) Hok Hh Hm. rewrite has_rcv in Hm.
  destruct Hcases as [(-> & Hab & Hrdy & Hph)|[(Hf & _)|(Hf & _)]]; [|injection Hf as _ F3 F4 _ _; by rewrite F3, F4 in Hm..].
  pose proof (receive_phase_alike i _ _ Hal Hph) as Hph'. destruct Hal as (Hpo & Hse & Hrp & Hhi & Hbits & Hrd).
  unfold settles, local, link, served_by, copied. rewrite Ha. split; [done|]. split; [by apply Hbits|]. split; [|done].
  unfold in_receive, running. rewrite Hhi, Hrp. split; [by split_and! | split; [by apply Hrd | done]].
Qed.

Lemma settle_leave i ok T : over i ok T -> snd_ok (hist T) = ok -> aborted (hist T) = false ->
  have_receive i && has Thread_ipc_receive_mask (st T) = false -> settles T (set_pc (Leave i) T).
Proof.
  intros Ho Hok Hab Hm. assert (running i T) as Hrun by (by destruct Ho as (? & ? & ? & _); split_and!).
  assert (ended i T) as He.
  { apply sent_as_ended; [done | by rewrite Hok |]. destruct (have_receive i); [by left | by right]. }
  unfold settles. split; [done|]. split; [done|]. split; [|done]. unfold local. cbn [at_ set_pc]. split; [done|]. split; [|done].
  destruct Ho as (_ & _ & _ & _ & [(_ & _ & _ & F2 & F5 & F6 & _ & Hbox & _)|[[Hf _]|[Hf _]]]); [|done..].
  change (fl (set_pc (Leave i) T)) with (fl T). rewrite has_rcv in Hm.
  assert (tb 3 T || tb 4 T = false) as [F3 F4]%orb_false_iff.
  { destruct (_ || _) eqn:E; [|done]. destruct Hbox as [Hh _]. by rewrite Hh in Hm. }
  unfold fl. by rewrite F2, F3, F4, F5, F6.
Qed.

Lemma over_leaving i ok T : over i ok T -> snd_ok (hist T) = ok -> have_receive i && has Thread_ipc_receive_mask (st T) = false ->
  leaving i T.
Proof.
  intros (Hq & Hr & Hp & Hs & Hcases) Hok Hm. rewrite has_rcv in Hm.
  destruct Hcases as [(-> & Hab & _ & F2 & F5 & F6 & _ & Hbox & _)|[(Hf & -> & Hab & Hi)|(Hf & -> & Hab & Hi)]].
  - assert (tb 3 T || tb 4 T = false) as E.
    { destruct (_ || _) eqn:E; [|done]. destruct Hbox as [Hh _]. by rewrite Hh in Hm. }
    rewrite E in Hbox. apply orb_false_iff in E as [F3 F4]. split; try done.
    + exists false. unfold fl. by rewrite F2, F3, F4, F5, F6.
    + by rewrite Hok.
    + intros [Hh|]; [by rewrite Hh in Hbox | congruence].
    + congruence.
    + intros _ Hh _ _. by rewrite Hh in Hbox.
  - split; try done; [by exists false | by rewrite Hok | congruence].
  - split; try done; [by exists false | by rewrite Hok | | | congruence].
    + intros [|]; [by apply Hi | congruence].
    + injection Hf as _ F3 _ _ _. congruence.
Qed.

(** The invariant after the send phase, when it held for the others. *)
Lemma after_send_inv t i ok act now m : Inv_but t (activate act i m) -> over i ok (m t) ->
  (act = true -> aborted (hist (m t)) = false /\ exists r, partner i = Some r /\ r <> t) -> Inv (after_send t i ok act now m).
Proof.
  intros Hb Ho Hact.
  assert (activate act i m t = m t) as Hmt.
  { unfold activate. destruct (partner i) as [p|] eqn:E; [|done]. destruct act; [|done]. destruct Hact as (_ & r & [= ->] & ?); [done|].
    by rewrite tupd_ne. }
  set (T' := after_send t i ok act now m t). set (T := set_hist (note_snd ok) (m t)).
  assert (settles T T') as (Hsd & H4 & Hl & Hlk & Hsv & Hcp).
  { assert (act = true -> exists r, partner i = Some r /\ r <> t) as Hact' by (intros ?; by apply Hact).
    pose proof (after_send_self t i ok act now m Hact') as HT. fold T' T in HT. cbv zeta in HT.
    assert (over i ok T) as Ho' by exact Ho.
    destruct (have_receive i && has Thread_ipc_receive_mask (st T)) eqn:Er.
    - destruct HT as [Hal (next & Ha)]. apply andb_true_iff in Er as [Hh Hm]. by apply (settle_receive i ok next).
    - destruct act; [rewrite HT; by apply (settle_leave i ok); [| | apply Hact |]|]. destruct HT as (m' & Hm' & HT).
      destruct (finish_self t i m') as (_ & Hse & _ & _).
      destruct (finish_local t i m') as (? & ? & ? & ? & H4'); [rewrite Hm'; by apply (over_leaving i ok)|].
      rewrite <- HT, Hm' in *. by split_and!. }
  apply (but_exit t); try done. apply (but_core t (upd t (fun _ => T') (activate act i m))).
  - intros x. destruct (decide (x = t)) as [->|]; [by rewrite tupd_eq|]. rewrite tupd_ne by done. by apply after_send_other.
  - apply but_self; [by rewrite Hmt | by rewrite Hmt | done].
Qed.

(** * The steps of a working thread *)

(** Only the thread itself has changed. *)
Lemma but_any t m m' : (forall x, x <> t -> core (m' x) = core (m x)) -> senders (m' t) = senders (m t) -> tb 4 (m' t) = tb 4 (m t) ->
  Inv_but t m -> Inv_but t m'.
Proof.
  intros Ho Hs H4 Hb. apply (but_core t (upd t (fun _ => m' t) m)).
  - intros x. destruct (decide (x = t)) as [->|]; [by rewrite tupd_eq|]. rewrite tupd_ne by done. by apply Ho.
  - by apply but_self.
Qed.

Lemma finish_inv t i m : Inv_but t m -> leaving i (m t) -> Inv (finish t i m).
Proof.
  intros Hb Hl. destruct (finish_local t i m Hl) as (? & ? & ? & ? & H4). destruct (finish_self t i m) as (_ & Hse & _).
  apply (but_exit t); try done. apply (but_any t m); try done. intros x Hx. by apply finish_other.
Qed.

(** The send phase fails or succeeds while nobody waits to be activated. *)
Lemma over_inv t i ok now m m0 : Inv_but t m0 -> (forall x, x <> t -> core (m x) = core (m0 x)) -> senders (m t) = senders (m0 t) ->
  tb 4 (m t) = tb 4 (m0 t) -> over i ok (m t) -> Inv (after_send t i ok false now m).
Proof.
  intros Hb Ho Hs H4 Hov. apply after_send_inv; [|done | done]. unfold activate.
  assert (Inv_but t m) by by apply (but_any t m0). by destruct (partner i).
Qed.

Lemma in_list_spec s r m : in_sender_list s r m = true <-> s ∈ senders (m r).
Proof.
  unfold in_sender_list. rewrite existsb_exists. split.
  - intros (x & Hx & ->%Z.eqb_eq). by apply list_elem_of_In.
  - intros Hx. exists s. split; [by apply list_elem_of_In | apply Z.eqb_refl].
Qed.

Lemma over_failed i r T : running i T -> partner i = Some r -> fresh i T -> over i false (set_st (del Thread_full_ipc_mask) T).
Proof.
  intros (Hq & Ha & Hr & Hp) Hpa (Hs & Hi & _). unfold over. cbn [hist set_st rcv_prepared]. split_and!; try done.
  - unfold sent_as. rewrite Hpa. by left.
  - right. left. split_and!; try done. unfold fl. cbn [st set_st]. by bits.
Qed.

(** A sender takes itself out of the queue. *)
Lemma abort_queued t r i now m : Inv_but t (upd r (without t) m) -> t ∈ senders (m r) -> tb 4 (m t) = false ->
  running i (m t) -> partner i = Some r -> fresh i (m t) -> Inv (abort_and_go t r i now m).
Proof.
  intros Hb Hin H4 Hrun Hpa Hfr. unfold abort_and_go, abort_send, sender_dequeue. rewrite (proj2 (in_list_spec t r m) Hin).
  set (m1 := upd r (without t) m) in *.
  assert (exists l, m1 t = set_senders l (m t)) as [l Hl].
  { unfold m1, upd. destruct (t =? r); [by eexists|]. exists (senders (m t)). by destruct (m t). }
  apply (over_inv _ _ _ _ _ m1); [done | intros x Hx; by rewrite !tupd_ne by done | by rewrite !tupd_eq | |];
    rewrite !tupd_eq.
  - cbn [st set_tmo set_st]. rewrite Hl. cbn [st set_senders]. bits. by rewrite H4.
  - rewrite Hl. by apply (over_failed i r (m t)).
Qed.

(** A sender whose message has been taken gives up the rest of its IPC. *)
Lemma abort_done t r i now m : Inv_but t m -> t ∉ senders (m r) -> tb 4 (m t) = false -> running i (m t) -> partner i = Some r ->
  rdy (m t) = true -> sent (hist (m t)) = [true] -> receive_phase i (m t) -> Inv (abort_and_go t r i now m).
Proof.
  intros Hb Hin H4 (Hq & Ha & Hr & Hp) Hpa Hrdy Hs (F2 & F5 & F6 & _ & Hbox & _). unfold abort_and_go, abort_send, sender_dequeue.
  rewrite (not_true_is_false _ (fun H => Hin (proj1 (in_list_spec t r m) H))). unfold change_if. rewrite has_sip, F5.
  apply (over_inv _ _ _ _ _ m); [done | intros x Hx; by rewrite !tupd_ne by done | by rewrite !tupd_eq | |]; rewrite !tupd_eq.
  - cbn [st set_tmo set_st set_hist]. bits. by rewrite H4.
  - unfold over. cbn [hist set_st rcv_prepared set_tmo set_hist note_aborted req rcv_res sent aborted inbox]. split_and!; try done.
    + unfold sent_as. by rewrite Hpa.
    + right. right. split_and!; try done; [unfold fl; cbn [st set_st set_tmo set_hist]; by bits|].
      intros Hh. destruct (tb 3 (m t) || _); [destruct Hbox; congruence|]. by rewrite Hh in Hbox.
Qed.

(** A thread that keeps its references. *)
Lemma inv_self t m m' : Inv m -> (forall x, x <> t -> core (m' x) = core (m x)) -> senders (m' t) = senders (m t) ->
  local (m' t) -> link (m' t) = link (m t) -> served_by (m' t) = served_by (m t) -> copied (m' t) = copied (m t) -> Inv m'.
Proof.
  intros [Hl Hx] Ho Hs Hlo H1 H2 H3. split.
  - intros x. destruct (decide (x = t)) as [->|Hne]; [done|]. by apply (core_eq (m x)); [rewrite Ho|apply Hl].
  - eapply cross_same; [exact Hx|..]; intros x; cbn; (destruct (decide (x = t)) as [->|Hne]; [done|]; by apply (core_eq _ _ (Ho x Hne))).
Qed.

Lemma tmo_core t x m y : core (upd t (set_tmo x) m y) = core (m y).
Proof. apply core_upd. by intros []. Qed.

Lemma reset_timeout_core t m y : core (reset_timeout t m y) = core (m y).
Proof. apply core_upd. by intros []. Qed.

(** Changes of timers do not matter. *)
Lemma inv_core m m' : (forall x, core (m' x) = core (m x)) -> Inv m -> Inv m'.
Proof.
  intros H [Hl Hx]. split; [intros x; by apply (core_eq (m x)); [|apply Hl]|].
  eapply cross_same; [exact Hx|..]; intros x; cbn; apply (core_eq _ _ (H x)).
Qed.

Lemma link_sending t r m : Inv m -> (forall q, link (m t) <> Queued_at q) -> t ∉ senders (m r).
Proof. intros [_ Hx] Hq Hin. by apply (Hq r), (x_queued _ _ _ _ Hx). Qed.

Lemma flags_at T a b c d e : fl T = mkFlags a b c d e -> tb 2 T = a /\ tb 3 T = b /\ tb 4 T = c /\ tb 5 T = d /\ tb 6 T = e.
Proof. by intros [= <- <- <- <- <-]. Qed.

(** The thread blocks, or stays blocked, in the middle of its send phase. *)
Lemma send_blocks t r i m : Inv m -> at_ (m t) = Send_wait r i -> hit (m t) = false -> tb 2 (m t) = true -> tb 6 (m t) = false ->
  Inv (upd t (set_pc (Send_wait r i)) (upd t (set_st (change (Z.lnot Thread_ready) 0)) m)).
Proof.
  intros HI Ha Hh H2 H6. pose proof (proj1 HI t) as Hl. unfold local in Hl. rewrite Ha in Hl. destruct Hl as (Hrun & Hpa & Hs).
  eapply (inv_self t m); [done | intros x Hx; by rewrite !tupd_ne | by rewrite !tupd_eq |..]; rewrite !tupd_eq.
  - unfold local. cbn [at_ set_pc set_st]. split; [done|]. split; [done|].
    assert (fl (set_pc (Send_wait r i) (set_st (change (Z.lnot Thread_ready) 0) (m t))) = fl (m t)) as Hfl.
    { unfold fl. cbn [st set_pc set_st]. by bits. }
    assert (hit (set_pc (Send_wait r i) (set_st (change (Z.lnot Thread_ready) 0) (m t))) = hit (m t)) as Hhit.
    { unfold hit. cbn [st set_pc set_st]. by bits. }
    destruct Hs as [(Hf & ? & ? & _)|[(Hf & ? & _)|[(_ & _ & F2 & _)|(Hf & _)]]]; [| | congruence |].
    + left. rewrite Hfl, Hhit. by split_and!.
    + right. left. rewrite Hfl, Hhit. by split_and!.
    + apply flags_at in Hf as (_ & _ & _ & _ & ?). congruence.
  - unfold link. cbn [at_ set_pc set_st st]. rewrite Ha. by bits.
  - unfold served_by. cbn [at_ set_pc set_st st]. by rewrite Ha.
  - unfold copied. cbn [at_ set_pc set_st st]. rewrite Ha. by bits.
Qed.

(** A sender that is being served when it gives up waits for the end. *)
Lemma abort_served t r i now m : Inv m -> at_ (m t) = Send_wait r i -> fl (m t) = mkFlags true false false true false ->
  hit (m t) = true -> Inv (abort_and_go t r i now m).
Proof.
  intros HI Ha Hf Hh. pose proof (proj1 HI t) as Hl. unfold local in Hl. rewrite Ha in Hl. destruct Hl as (Hrun & Hpa & Hs).
  pose proof (flags_at _ _ _ _ _ _ Hf) as (F2 & F3 & F4 & F5 & F6).
  assert (t ∉ senders (m r)) as Hnin.
  { apply link_sending; [done|]. intros q. unfold link. by rewrite Ha, F2, F5, F6. }
  unfold abort_and_go, abort_send, sender_dequeue. rewrite (not_true_is_false _ (fun H => Hnin (proj1 (in_list_spec t r m) H))).
  unfold change_if. rewrite has_sip, F5.
  eapply (inv_self t m); [done | intros x Hx; by rewrite !tupd_ne | by rewrite !tupd_eq |..]; rewrite !tupd_eq.
  - unfold local. cbn [at_ set_pc set_st]. split; [done|]. split; [done|].
    destruct Hs as [(Hf' & _)|[(_ & Hfr & _)|[(_ & _ & ? & _)|(Hf' & _)]]]; [congruence | | congruence | congruence]. split.
    + right. left. split; [|by split]. unfold fl in *. cbn [st set_pc set_st]. by bits.
    + unfold hit in *. cbn [st set_pc set_st]. by bits.
  - unfold link. cbn [at_ set_pc set_st st]. rewrite Ha. by bits.
  - unfold served_by. cbn [at_ set_pc set_st st]. by rewrite Ha.
  - unfold copied. cbn [at_ set_pc set_st st]. rewrite Ha. by bits.
Qed.

(** The four states of a sender that runs in [do_send_wait]. *)
Lemma abort_step t r i now m : Inv m -> at_ (m t) = Send_wait r i -> hit (m t) = true -> tb 6 (m t) = false ->
  copied (m t) = false -> Inv (abort_and_go t r i now m).
Proof.
  intros HI Ha Hh H6 Hcp. pose proof (proj1 HI t) as Hl. unfold local in Hl. rewrite Ha in Hl. destruct Hl as (Hrun & Hpa & Hs).
  unfold copied in Hcp. rewrite Ha in Hcp.
  destruct Hs as [(Hf & _ & Hfr & _)|[(Hf & _)|[(Hrdy & Hse & Hph)|(Hf & _)]]].
  - pose proof (flags_at _ _ _ _ _ _ Hf) as (F2 & F3 & F4 & F5 & F6).
    assert (link (m t) = Queued_at r) as Hq by (unfold link; by rewrite Ha, F2, F5, F6).
    apply abort_queued; try done; [by apply but_dequeue|]. by apply (x_queued _ _ _ _ (proj2 HI)).
  - by apply abort_served.
  - pose proof Hph as (F2 & _). assert (link (m t) = Free) as Hfree by (unfold link; by rewrite Ha, F2).
    apply abort_done; try done.
    + apply but_enter; try done; [unfold served_by; by rewrite Ha | unfold copied; by rewrite Ha].
    + apply link_sending; [done|]. by rewrite Hfree.
  - apply flags_at in Hf. destruct Hf as (_ & _ & _ & _ & ?). congruence.
Qed.

Lemma send_wait_inv t r i now m : Inv m -> at_ (m t) = Send_wait r i -> rdy (m t) = true ->
  (copied (m t) = true -> has Thread_ipc_abort_mask (st (m t)) = false) -> Inv (send_wait_turn t r i now m).
Proof.
  intros HI Ha Hrdy Hpol. pose proof (proj1 HI t) as Hl. unfold local in Hl. rewrite Ha in Hl. destruct Hl as (Hrun & Hpa & Hs).
  unfold send_wait_turn. rewrite still_waits, done_waits, failed_waits, cancel_waits, timeout_waits.
  rewrite has_abort in Hpol. unfold copied in Hpol. rewrite Ha in Hpol.
  set (m1 := reset_timeout t m). assert (Inv m1) as HI1 by (apply (inv_core m); [apply reset_timeout_core | done]).
  pose proof (core_fields _ _ (reset_timeout_core t m t)) as (C1 & C2 & C3 & C4 & C5 & C6). fold m1 in C1, C2, C3, C4, C5, C6.
  assert (link (m t) = Free -> Inv_but t m1) as Hbut.
  { intros Hfree. apply but_enter; [done | | unfold served_by; by rewrite C5, Ha | unfold copied; by rewrite C5, Ha].
    rewrite <- Hfree. unfold link. by rewrite C5, C1. }
  destruct (tb 6 (m t)) eqn:H6.
  { (* the transfer has failed *)
    rewrite !orb_true_r, !andb_false_r. cbn [negb orb].
    destruct Hs as [(Hf & _)|[(Hf & _)|[(_ & _ & ? & ? & ? & _)|(Hf & Hse & Hib & _)]]];
      [apply flags_at in Hf as (_ & _ & _ & _ & ?); congruence.. | congruence |].
    pose proof (flags_at _ _ _ _ _ _ Hf) as (F2 & F3 & F4 & F5 & F6).
    apply (over_inv _ _ _ _ _ m1); [| intros x Hx; by rewrite !tupd_ne by done | by rewrite !tupd_eq | |]; rewrite ?tupd_eq.
    - apply Hbut. unfold link. by rewrite Ha, F2, F6.
    - cbn [st set_tmo set_st]. bits. by rewrite C1, F4.
    - destruct Hrun as (Hq & Hab & Hr & Hp). unfold over. cbn [hist set_st rcv_prepared set_tmo]. rewrite C6, C4. split_and!; try done.
      + unfold sent_as. rewrite Hpa. by right.
      + right. left. split_and!; try done. unfold fl. cbn [st set_st set_tmo]. by bits. }
  cbn [orb]. fold (hit (m t)). destruct (hit (m t)) eqn:Hh.
  { (* cancelled, or a timeout *)
    rewrite andb_false_r. replace (tb 2 (m t) || false || tb 7 (m t) || tb 8 (m t)) with true.
    2: { unfold hit in Hh. rewrite orb_false_r, <- orb_assoc, Hh. by rewrite orb_true_r. }
    cbn [negb]. assert (Inv (abort_and_go t r i now m1)) as Hgo.
    { apply abort_step; [done | by rewrite C5 | unfold hit in *; by rewrite C1 | by rewrite C1 |].
      unfold copied. rewrite C5, Ha, C1. destruct (tb 4 (m t)) eqn:E4; [|done]. rewrite orb_false_l in Hpol. unfold hit in Hh. rewrite Hh in Hpol. by specialize (Hpol eq_refl). }
    unfold hit in Hh. destruct (tb 7 (m t)); [done|]. cbn in Hh. by rewrite Hh. }
  pose proof Hh as [H7 H8]%orb_false_iff. rewrite H7, H8, !orb_false_r. cbn [negb]. rewrite andb_true_r.
  destruct (tb 2 (m t)) eqn:H2; [by apply send_blocks|]. cbn [negb].
  destruct Hs as [(Hf & _)|[(Hf & _)|[(_ & Hse & Hph)|(Hf & _)]]]; [apply flags_at in Hf as (? & _); congruence.. | |
    apply flags_at in Hf as (? & _); congruence].
  assert (Inv_but t m1) as Hb1 by (apply Hbut; unfold link; by rewrite Ha, H2).
  apply (over_inv _ _ _ _ _ m1); [done | intros x Hx; by rewrite !tupd_ne by done | by rewrite !tupd_eq | by rewrite !tupd_eq |].
  rewrite tupd_eq. destruct Hrun as (Hq & Hab & Hr & Hp). unfold over. cbn [hist set_st rcv_prepared set_tmo]. rewrite C6, C4. split_and!; try done.
  - unfold sent_as. by rewrite Hpa.
  - left. split_and!; [done | done | unfold rdy; cbn; by rewrite C1 |]. unfold receive_phase in *. cbn [st set_tmo hist poi]. by rewrite C1, C2, C6.
Qed.

Lemma abort_wait_inv t r i now m : Inv m -> at_ (m t) = Abort_wait r i ->
  (copied (m t) = true -> has Thread_ipc_abort_mask (st (m t)) = false) -> Inv (abort_wait_turn t r i now m).
Proof.
  intros HI Ha Hpol. pose proof (proj1 HI t) as Hl. unfold local in Hl. rewrite Ha in Hl. destruct Hl as (Hrun & Hpa & Hs & Hh).
  unfold abort_wait_turn, change_if. rewrite has_sip. destruct (tb 5 (m t)) eqn:H5.
  - eapply (inv_self t m); [done | intros x Hx; by rewrite !tupd_ne | by rewrite !tupd_eq |..]; rewrite !tupd_eq.
    + unfold local. cbn [at_ set_st]. rewrite Ha. split; [done|]. split; [done|].
      assert (fl (set_st (fun _ => change (Z.lnot Thread_ready) 0 (st (m t))) (m t)) = fl (m t)) as Hfl by (unfold fl; cbn [st set_st]; by bits).
      split; [|unfold hit in *; cbn [st set_st]; by bits].
      destruct Hs as [(Hf & ? & _)|[(Hf & Hfr & _)|[(_ & _ & _ & F5 & _)|(Hf & ? & ? & _)]]]; [done | | congruence |].
      * right. left. by rewrite Hfl.
      * right. right. right. by rewrite Hfl.
    + unfold link. cbn [at_ set_st st]. rewrite Ha. by bits.
    + unfold served_by. cbn [at_ set_st st]. by rewrite Ha.
    + unfold copied. cbn [at_ set_st st]. rewrite Ha. by bits.
  - destruct Hs as [(Hf & ? & _)|[(Hf & Hfr & _)|[(Hrdy & Hse & Hph)|(Hf & ? & ? & _)]]]; [done | | |].
    1,3: apply flags_at in Hf as (_ & _ & _ & ? & _); congruence.
    assert (tb 4 (m t) = false) as H4.
    { destruct (tb 4 (m t)) eqn:E4; [|done]. unfold copied in Hpol. rewrite Ha in Hpol. specialize (Hpol E4). rewrite has_abort in Hpol.
      unfold hit in Hh. rewrite <- orb_assoc, Hh in Hpol. by rewrite orb_true_r in Hpol. }
    pose proof Hph as (F2 & F5 & F6 & _ & Hbox & _).
    apply (over_inv _ _ _ _ _ m); [| intros x Hx; by rewrite !tupd_ne by done | by rewrite !tupd_eq | |]; rewrite ?tupd_eq.
    + apply but_enter; [done | unfold link; by rewrite Ha, F2 | unfold served_by; by rewrite Ha | unfold copied; by rewrite Ha].
    + cbn [st set_tmo set_st set_hist]. bits. by rewrite H4.
    + destruct Hrun as (Hq & Hab & Hr & Hp). unfold over.
      cbn [hist set_st rcv_prepared set_tmo set_hist note_aborted req rcv_res sent aborted inbox]. split_and!; try done.
      * unfold sent_as. by rewrite Hpa.
      * right. right. split_and!; try done; [unfold fl; cbn [st set_st set_tmo set_hist]; by bits|].
        intros Hhr. destruct (tb 3 (m t) || _); [destruct Hbox; congruence|]. by rewrite Hhr in Hbox.
Qed.

(** A thread that leaves its receive phase. *)
Lemma phase_leaving i T : in_receive i T -> receive_phase i T -> tb 4 T = false -> leaving i T.
Proof.
  intros ((Hq & Hab & Hr & Hp) & Hh & Hok & Hs) (F2 & F5 & F6 & _ & Hbox & _) F4. rewrite F4, orb_false_r, Hh in Hbox. split; try done.
  - exists (tb 3 T). unfold fl. by rewrite F2, F4, F5, F6.
  - by rewrite Hok.
  - intros [|]; congruence.
  - intros H3. rewrite H3 in Hbox. by destruct Hbox.
  - intros H3. by rewrite H3 in Hbox.
Qed.

Lemma receive_wait_inv t i m : Inv m -> at_ (m t) = Receive_wait i -> rdy (m t) = true ->
  (copied (m t) = true -> has Thread_ipc_abort_mask (st (m t)) = false) -> Inv (finish t i m).
Proof.
  intros HI Ha Hrdy Hpol. pose proof (proj1 HI t) as Hl. unfold local in Hl. rewrite Ha in Hl. destruct Hl as (Hin & Hph & _ & Hb).
  assert (tb 4 (m t) = false) as H4.
  { destruct (tb 4 (m t)) eqn:E4; [|done]. unfold copied in Hpol. rewrite Ha in Hpol. specialize (Hpol E4). rewrite has_abort in Hpol.
    rewrite orb_true_r, Hrdy in Hb. unfold hit in Hb. rewrite <- orb_assoc, <- Hb in Hpol. by rewrite orb_true_r in Hpol. }
  apply finish_inv; [|by apply phase_leaving].
  apply but_enter; [done | unfold link; by rewrite Ha | unfold served_by; by rewrite Ha | unfold copied; by rewrite Ha].
Qed.

Lemma ipc_leave_inv t i m : Inv m -> at_ (m t) = Leave i -> Inv (finish t i m).
Proof.
  intros HI Ha. pose proof (proj1 HI t) as Hl. unfold local in Hl. rewrite Ha in Hl. destruct Hl as ((Hq & Hab & Hr & Hp) & Hf & Hs & Hn & Hg).
  pose proof (flags_at _ _ _ _ _ _ Hf) as (F2 & F3 & F4 & F5 & F6).
  apply finish_inv; [apply but_enter; [done | unfold link; by rewrite Ha | unfold served_by; by rewrite Ha | unfold copied; by rewrite Ha]|].
  split; try done; [by exists false | congruence |]. intros _ ? ? ?. rewrite Hr in Hg. by apply Hg.
Qed.

Lemma receive_done_inv t i m : Inv m -> at_ (m t) = Receive_done i -> Inv (finish t i (upd t (set_st (del Thread_ipc_mask)) m)).
Proof.
  intros HI Ha. pose proof (proj1 HI t) as Hl. unfold local in Hl. rewrite Ha in Hl.
  destruct Hl as (((Hq & Hab & Hr & Hp) & Hh & Hok & Hs) & Hf & x & Hx).
  pose proof (flags_at _ _ _ _ _ _ Hf) as (F2 & F3 & F4 & F5 & F6). destruct HI as [HL HC].
  apply finish_inv.
  - split; [intros y Hy; rewrite tupd_ne by done; apply HL|].
    eapply cross_same; [exact HC|..]; intros y; cbn; (destruct (Z.eqb_spec y t) as [->|Hne]; [|by rewrite tupd_ne]); rewrite ?tupd_eq; try done.
    + unfold link. by rewrite Ha.
    + unfold served_by. by rewrite Ha.
    + unfold copied. rewrite Ha. cbn [st set_st]. by bits.
  - rewrite tupd_eq. split; cbn [hist set_st req sent rcv_res inbox aborted snd_ok]; try done.
    + exists false. unfold fl. cbn [st set_st]. bits. by rewrite F6.
    + by rewrite Hok.
    + intros [|]; congruence.
    + cbn [st set_st]. by bits.
    + intros _ _ _ _. by exists x.
Qed.

(** A receiver takes a sender from its queue. *)
Lemma receive_copy_inv t s next i m : Inv m -> at_ (m t) = Receive next i -> tb 3 (m t) = true -> s ∈ senders (m t) ->
  let x := change (Z.lnot Thread_receive_wait) Thread_receive_in_progress (st (m t)) in
  Inv (upd t (set_pc (Receive_copy s i)) (upd s (set_st (add Thread_send_in_progress))
        (upd t (set_st (fun _ => del Thread_timeout x)) (upd t (set_poi (Some s)) (upd t (without s) m))))).
Proof.
  intros HI Ha H3 Hin x. pose proof (proj1 HI t) as Hl. unfold local in Hl. rewrite Ha in Hl. destruct Hl as (Hir & Hrdy & Hph).
  pose proof Hph as (F2 & F5 & F6 & F34 & Hbox & _). rewrite H3 in F34, Hbox. cbn in F34, Hbox. destruct Hbox as [Hh Hbox].
  pose proof (proj1 (x_queued _ _ _ _ (proj2 HI) t s) Hin) as Hq.
  assert (s <> t) as Hne by (intros ->; unfold link in Hq; by rewrite Ha in Hq).
  assert (exists j, at_ (m s) = Send_wait t j /\ fl (m s) = mkFlags true false false false false /\ running j (m s) /\ partner j = Some t
    /\ fresh j (m s) /\ (rdy (m s) = false -> hit (m s) = false)) as (j & Hs & Hf & Hrun & Hpa & Hfr & Hrh).
  { pose proof (proj1 HI s) as Hl. unfold local, link in *. destruct (at_ (m s)) as [|r j|r j| | | | | |] eqn:Es; try done;
      destruct (tb 2 (m s) && negb (tb 6 (m s))) eqn:E; [|done | |done]; destruct (tb 5 (m s)) eqn:E5; [done | | done |]; injection Hq as ->; exists j.
    - destruct Hl as (? & ? & [(? & _ & ? & ?)|[(Hf & _)|[(_ & _ & F & _)|(Hf & _)]]]); [by split_and!|..].
      + apply flags_at in Hf as (_ & _ & _ & ? & _). congruence.
      + by rewrite F in E.
      + apply flags_at in Hf as (_ & _ & _ & ? & _). congruence.
    - destruct Hl as (? & ? & [(? & ? & _)|[(Hf & _)|[(_ & _ & F & _)|(Hf & _)]]] & _); [done|..].
      + apply flags_at in Hf as (_ & _ & _ & ? & _). congruence.
      + by rewrite F in E.
      + apply flags_at in Hf as (_ & _ & _ & ? & _). congruence. }
  set (m' := upd t (set_pc _) _).
  assert (m' t = set_pc (Receive_copy s i) (set_st (fun _ => del Thread_timeout x) (set_poi (Some s) (without s (m t))))) as Ht.
  { unfold m'. by rewrite tupd_eq, (tupd_ne s), !tupd_eq by done. }
  assert (m' s = set_st (add Thread_send_in_progress) (m s)) as Hms.
  { unfold m'. by rewrite tupd_ne, tupd_eq, !tupd_ne by done. }
  assert (forall y, y <> t -> y <> s -> m' y = m y) as Hoth by (intros; unfold m'; by rewrite !tupd_ne).
  pose proof (flags_at _ _ _ _ _ _ Hf) as (G2 & G3 & G4 & G5 & G6). split.
  - intros y. destruct (decide (y = t)) as [->|]; [|destruct (decide (y = s)) as [->|]; [|rewrite Hoth by done; apply HI]].
    + rewrite Ht. unfold local. cbn [at_ set_pc]. split; [done|]. split; [|done]. unfold fl. cbn [st set_pc set_st]. unfold x. bits.
      by rewrite F2, F5, F6.
    + rewrite Hms. unfold local. cbn [at_ set_st]. rewrite Hs. split; [done|]. split; [done|]. right. left. split; [|split; [done|]].
      * unfold fl. cbn [st set_st]. bits. by rewrite G2, G3, G4, G6.
      * intros _. unfold rdy, hit. cbn [st set_st]. bits. done.
  - eapply (cross_serve _ _ _ _ _ _ _ _ (proj2 HI) s t); cbn.
    + intros y Hy. destruct (decide (y = t)) as [->|]; [|by rewrite Hoth]. rewrite Ht. unfold link. cbn. by rewrite Ha.
    + done.
    + rewrite Hms. unfold link. cbn [at_ set_st st]. rewrite Hs. bits. by rewrite G2, G6.
    + intros y Hy. destruct (decide (y = s)) as [->|]; [by rewrite Hms | by rewrite Hoth].
    + by rewrite Ht.
    + unfold served_by. by rewrite Ha.
    + by rewrite Ht.
    + intros y Hy. destruct (decide (y = s)) as [->|]; [rewrite Hms; unfold served_by; cbn; by rewrite Hs | by rewrite Hoth].
    + intros y. destruct (decide (y = t)) as [->|]; [|destruct (decide (y = s)) as [->|]; [|by rewrite Hoth]].
      * rewrite Ht. unfold copied. cbn. by rewrite Ha, F34.
      * rewrite Hms. unfold copied. cbn [at_ set_st st]. rewrite Hs. by bits.
Qed.

(** A receiver blocks. *)
Lemma receive_blocks t next i m : Inv m -> at_ (m t) = Receive next i -> hit (m t) = false -> tb 3 (m t) || tb 4 (m t) = true ->
  (tb 3 (m t) = true -> none_acceptable (m t)) ->
  Inv (upd t (set_pc (Receive_wait i)) (upd t (set_st (change (Z.lnot Thread_ready) 0)) m)).
Proof.
  intros HI Ha Hh H34 Hn. pose proof (proj1 HI t) as Hl. unfold local in Hl. rewrite Ha in Hl. destruct Hl as (Hir & Hrdy & Hph).
  eapply (inv_self t m); [done | intros x Hx; by rewrite !tupd_ne | by rewrite !tupd_eq |..]; rewrite !tupd_eq.
  - unfold local. cbn [at_ set_pc set_st]. split; [done|]. split; [|split].
    + unfold receive_phase in *. cbn [st set_pc set_st hist poi]. by bits.
    + cbn [st set_pc set_st]. bits. done.
    + unfold rdy, hit in *. cbn [st set_pc set_st]. bits. by rewrite H34, Hh.
  - unfold link. cbn [at_ set_pc]. by rewrite Ha.
  - unfold served_by. cbn [at_ set_pc]. by rewrite Ha.
  - unfold copied. cbn [at_ set_pc st set_st]. rewrite Ha. by bits.
Qed.

(** No sender of interest is waiting. *)
Lemma next_sender_none i t m : next_sender t (sender i) m = None -> poi (m t) = sender i -> none_acceptable (m t).
Proof.
  intros Hn Hp. unfold none_acceptable, next_sender in *. rewrite Hp. destruct (sender i) as [s|].
  - intros Hin%in_list_spec. by rewrite Hin in Hn.
  - by destruct (senders (m t)).
Qed.

Lemma receive_leaves t next i m m' : Inv m -> at_ (m t) = Receive next i -> tb 4 (m t) = false ->
  (forall x, x <> t -> m' x = m x) -> alike (m t) (m' t) -> Inv (finish t i m').
Proof.
  intros HI Ha H4 Ho Hal. pose proof (proj1 HI t) as Hl. unfold local in Hl. rewrite Ha in Hl. destruct Hl as (Hir & Hrdy & Hph).
  pose proof (receive_phase_alike i _ _ Hal Hph) as Hph'. destruct Hal as (Hpo & Hse & Hrp & Hhi & Hbits & _).
  apply finish_inv.
  - apply (but_any t m); [intros x Hx; by rewrite Ho | done | by apply Hbits |].
    apply but_enter; [done | unfold link; by rewrite Ha | unfold served_by; by rewrite Ha | unfold copied; by rewrite Ha].
  - apply phase_leaving; [|done | by rewrite Hbits]. unfold in_receive, running in *. by rewrite Hhi, Hrp.
Qed.

Lemma alike_refl T : alike T T.
Proof. by split_and!. Qed.

Definition turn_inv (t : Z) (i : ipc) (next : option Z) (m : threads) (r : turn) : Prop :=
  match r with
  | Blocks m' => Inv (upd t (set_pc (Receive_wait i)) m')
  | Leaves m' => Inv (finish t i m')
  | Copies s m' => Inv (upd t (set_pc (Receive_copy s i)) m')
  | Again m' => m' = m /\ next <> None
  end.

(** A turn of [try_receive]; it is repeated only for a sender that is gone. *)
Lemma try_receive_inv t next0 next i now m : Inv m -> at_ (m t) = Receive next0 i ->
  (copied (m t) = true -> has Thread_ipc_abort_mask (st (m t)) = false) -> turn_inv t i next m (try_receive t next i now m).
Proof.
  intros HI Ha Hpol. pose proof (proj1 HI t) as Hl. unfold local in Hl. rewrite Ha in Hl. destruct Hl as (Hir & Hrdy & Hph).
  unfold copied in Hpol. rewrite Ha in Hpol. pose proof Hph as (F2 & F5 & F6 & F34 & Hbox & Hpoi).
  unfold try_receive. destruct (has Thread_ipc_abort_mask (st (m t))) eqn:Eab.
  { apply (receive_leaves t next0 i m); [done | done | | done | apply alike_refl]. by destruct (tb 4 (m t)); [specialize (Hpol eq_refl)|]. }
  assert (hit (m t) = false) as Hh by (rewrite has_abort, F6 in Eab; done).
  rewrite has_rip, has_rcv, has_rw. destruct (tb 4 (m t)) eqn:H4.
  { rewrite andb_true_r in F34. apply (receive_blocks t next0); [done | done | done | by rewrite H4, orb_true_r | by rewrite F34]. }
  rewrite orb_false_r. destruct (tb 3 (m t)) eqn:H3; cbn [negb].
  2: { apply (receive_leaves t next0 i m); [done | done | done | done | apply alike_refl]. }
  destruct (match next with Some s => Some s | None => next_sender t (sender i) m end) as [s|] eqn:En.
  - unfold dequeue_next_sender, sender_dequeue. destruct (in_sender_list s t m) eqn:Ein.
    + apply in_list_spec in Ein. rewrite !tupd_eq. cbn [st set_poi set_senders]. rewrite receive_safely, H3, H4. cbn [negb andb turn_inv].
      by apply (receive_copy_inv t s next0).
    + split; [done|]. destruct next; [done|]. unfold next_sender in En. destruct (sender i) as [c|].
      * destruct (in_sender_list c t m) eqn:Ec; [|done]. injection En as ->. congruence.
      * rewrite <- not_true_iff_false in Ein. destruct Ein. apply in_list_spec. destruct (senders (m t)) as [|y l]; [done|].
        injection En as ->. apply list_elem_of_here.
  - destruct next as [|]; [done|]. pose proof (next_sender_none i t m En (Hpoi eq_refl)) as Hnone.
    destruct (tmo (m t)).
    + pose proof (setup_timer_alike t (rcv_timeout i) now m) as Hal.
      pose proof (fun x => setup_timer_other t (rcv_timeout i) now m x) as Hot.
      destruct (setup_timer t (rcv_timeout i) now m) as [[] m'] eqn:Et; cbn [snd] in Hal, Hot; [|by apply (receive_leaves t next0 i m)].
      assert (forall x, core (m' x) = core (m x)) as Hc.
      { unfold setup_timer in Et. repeat case_match; try done; injection Et as <-; [done|]. intros x. apply tmo_core. }
      pose proof (core_fields _ _ (Hc t)) as (C1 & C2 & C3 & C4 & C5 & C6).
      apply (receive_blocks t next0); [by apply (inv_core m) | by rewrite C5 | unfold hit in *; by rewrite C1 | by rewrite C1, H3 |].
      intros _. unfold none_acceptable in *. by rewrite C2, C3.
    + apply (receive_blocks t next0); [done | done | done | by rewrite H3 | done].
    + apply (receive_leaves t next0 i m); [done | done | done | done | apply alike_refl].
Qed.

Lemma do_receive_inv t next i now m : Inv m -> at_ (m t) = Receive next i ->
  (copied (m t) = true -> has Thread_ipc_abort_mask (st (m t)) = false) -> exists m', do_receive t next i now m = Some m' /\ Inv m'.
Proof.
  intros HI Ha Hpol. unfold do_receive. pose proof (try_receive_inv t next next i now m HI Ha Hpol) as H1.
  destruct (try_receive t next i now m) as [m1|m1|s m1|m1]; [by eexists..|]. destruct H1 as [-> _].
  pose proof (try_receive_inv t next None i now m HI Ha Hpol) as H2.
  destruct (try_receive t None i now m) as [m1|m1|s m1|m1]; [by eexists..|]. by destruct H2.
Qed.

(** * The end of a transfer *)

Lemma transfer_core s r ok m x :
  core (transfer_msg s r ok m x) = core (upd s (set_hist (note_sent ok)) (upd r (set_hist (note_got s ok)) m) x).
Proof. unfold transfer_msg. case_match; [apply core_set_reply_cap | done]. Qed.

(** A receiver to which a message has been transferred by its sender. *)
Lemma got_local s ok R : local R -> copied R = true ->
  let R' := activated (set_st (del Thread_receive_in_progress) (set_hist (note_got s ok) R)) in
  local R' /\ link R' = link R /\ served_by R' = served_by R /\ copied R' = false.
Proof.
  intros Hl Hc. set (R' := activated _). cbv zeta.
  assert (forall n, 0 <= n -> n <> 0 -> n <> 4 -> tb n R' = tb n R) as Hbits.
  { intros n Hn H0 H4. unfold R'. cbn [st set_st set_hist]. rewrite testbit_change, testbit_del by done.
    change Thread_receive_in_progress with (2 ^ 4). change Thread_ready with (2 ^ 0). rewrite !Z.pow2_bits_eqb by lia.
    destruct (Z.eqb_spec 4 n); [lia|]. destruct (Z.eqb_spec 0 n); [lia|]. by rewrite !andb_true_r, orb_false_r. }
  assert (tb 4 R' = false) as H4' by (unfold R'; cbn [st set_st set_hist]; by bits).
  assert (rdy R' = true) as Hr' by (unfold R', rdy; cbn [st set_st set_hist]; by bits).
  assert (at_ R' = at_ R) as Ha by done.
  assert (tb 4 R = true) as H4 by (unfold copied in Hc; by destruct (at_ R)).
  assert (forall j, receive_phase j R -> receive_phase j R') as Hph.
  { intros j (F2 & F5 & F6 & F34 & Hbox & _). rewrite H4 in F34, Hbox. rewrite andb_true_r in F34. rewrite orb_true_r in Hbox. destruct Hbox as [Hh Hbox].
    unfold receive_phase. rewrite !Hbits, H4', F2, F5, F6, F34, Hh by done. cbn [orb andb]. split_and!; try done.
    exists (s, ok). unfold R'. cbn [hist set_st set_hist note_got inbox]. by rewrite Hbox. }
  assert (forall a j, sending a j R -> sending a j R') as Hsend.
  { intros a j [(Hf & _)|[(Hf & _)|[(_ & Hs & Hp)|(Hf & _)]]]; [apply flags_at in Hf as (_ & _ & ? & _); congruence.. | |
      apply flags_at in Hf as (_ & _ & ? & _); congruence].
    right. right. left. split_and!; [done | done | by apply Hph]. }
  split_and!.
  - unfold local, copied in *. rewrite Ha. destruct (at_ R) as [|r j|r j|r j|nx j|x j|j|j|j]; try done.
    + destruct Hl as (Hf & _). apply flags_at in Hf as (_ & _ & ? & _). congruence.
    + destruct Hl as (? & ? & ?). split_and!; [done | done | by apply Hsend].
    + destruct Hl as (? & ? & ? & Hh). split_and!; [done | done | by apply Hsend |]. unfold hit in *. by rewrite !Hbits.
    + destruct Hl as (_ & _ & Hf & _). apply flags_at in Hf as (_ & _ & ? & _). congruence.
    + destruct Hl as (? & ? & ?). split_and!; [done | done | by apply Hph].
    + destruct Hl as (? & Hp & _ & _). pose proof Hp as (_ & _ & _ & F34 & _). rewrite H4, andb_true_r in F34.
      split; [done|]. split; [by apply Hph|]. rewrite Hbits, F34, H4' by done. cbn [orb]. done.
    + destruct Hl as (_ & Hf & _). apply flags_at in Hf as (_ & _ & ? & _). congruence.
  - unfold link. rewrite Ha, !Hbits by done. done.
  - done.
  - unfold copied. rewrite Ha, H4'. by destruct (at_ R).
Qed.

(** The sender of a direct transfer, with its result. *)
Lemma send_done_over i r ok T : running i T -> partner i = Some r -> fl T = no_flags -> fresh i T -> rdy T = true ->
  over i ok (set_st (change (Z.lnot Thread_ipc_mask) (if ok && have_receive i then Thread_receive_wait else 0)) (set_hist (note_sent ok) T)).
Proof.
  intros (Hq & Hab & Hr & Hp) Hpa Hf (Hs & Hi & Hpoi) Hrdy. pose proof (flags_at _ _ _ _ _ _ Hf) as (F2 & F3 & F4 & F5 & F6).
  unfold over. cbn [hist set_st set_hist note_sent req rcv_res sent aborted inbox rcv_prepared]. rewrite Hs. split_and!; try done.
  { unfold sent_as. rewrite Hpa. destruct ok; [done | by right]. }
  destruct ok; [left|right; left].
  - split_and!; [done | done | |].
    + unfold rdy in *. cbn [st set_st set_hist]. destruct (have_receive i); cbn [andb]; bits; done.
    + unfold receive_phase. cbn [st set_st set_hist hist inbox note_sent poi]. destruct (have_receive i); cbn [andb]; bits; rewrite F6; by split_and!.
  - split_and!; [|done | done | done]. unfold fl. cbn [st set_st set_hist andb]. bits. by rewrite F6.
Qed.

Lemma send_done_inv t r i ok now m : Inv m -> at_ (m t) = Send_copy r i -> Inv (ipc_send_done t r i ok now m).
Proof.
  intros HI Ha. pose proof (proj1 HI t) as Hl. unfold local in Hl. rewrite Ha in Hl. destruct Hl as (Hrun & Hpa & Hf & Hfr & Hrdy).
  pose proof (flags_at _ _ _ _ _ _ Hf) as (F2 & F3 & F4 & F5 & F6).
  assert (link (m t) = Copying_to r) as Hlk by (unfold link; by rewrite Ha).
  pose proof (x_copied _ _ _ _ (proj2 HI) r t Hlk) as Hcp.
  assert (r <> t) as Hne by (intros ->; unfold copied in Hcp; rewrite Ha in Hcp; congruence).
  unfold ipc_send_done. set (m1 := transfer_msg t r ok m). set (m2 := upd r _ m1). set (m3 := upd t _ m2).
  rewrite (proj2 (Z.eqb_neq _ _) Hne). cbn [negb].
  destruct (got_local t ok (m r) (proj1 HI r) Hcp) as (Hlr & Hlkr & Hsvr & Hcpr). set (R' := activated _) in *.
  set (T' := set_st (change (Z.lnot Thread_ipc_mask) (if ok && have_receive i then Thread_receive_wait else 0)) (set_hist (note_sent ok) (m t))).
  assert (core (m3 t) = core T') as Ht.
  { unfold m3, m2. rewrite tupd_eq, tupd_ne by done. pose proof (transfer_core t r ok m t) as Hc. rewrite tupd_eq, tupd_ne in Hc by done.
    fold m1 in Hc. apply core_fields in Hc as (C1 & C2 & C3 & C4 & C5 & C6). unfold core, T'. cbn [st set_st poi senders rcv_prepared at_ hist].
    by rewrite C1, C2, C3, C4, C5, C6. }
  assert (core (activate true i m3 r) = core R') as Hr.
  { unfold activate, m3, m2. rewrite Hpa, tupd_eq, tupd_ne, tupd_eq by done. pose proof (transfer_core t r ok m r) as Hc.
    rewrite tupd_ne, tupd_eq in Hc by done. fold m1 in Hc. apply core_fields in Hc as (C1 & C2 & C3 & C4 & C5 & C6).
    unfold core, R'. cbn [st set_st poi senders rcv_prepared at_ hist]. by rewrite C1, C2, C3, C4, C5, C6. }
  assert (forall x, x <> t -> x <> r -> core (activate true i m3 x) = core (m x)) as Ho.
  { intros x Hx Hxr. unfold activate, m3, m2. rewrite Hpa, !tupd_ne by done. unfold m1. by rewrite transfer_core, !tupd_ne. }
  assert (activate true i m3 t = m3 t) as Hact by (unfold activate; by rewrite Hpa, tupd_ne).
  pose proof (core_fields _ _ Ht) as (C1 & C2 & C3 & C4 & C5 & C6).
  apply after_send_inv.
  - split.
    + intros x Hx. destruct (decide (x = r)) as [->|]; [by apply (core_eq R')|]. apply (core_eq (m x)); [by rewrite Ho | apply HI].
    + assert (forall x, x <> t -> (if x =? t then Free else link (activate true i m3 x)) = link (m x)) as Hlk'.
      { intros x Hx. rewrite (proj2 (Z.eqb_neq _ _) Hx). destruct (decide (x = r)) as [->|].
        - by rewrite (proj1 (proj2 (core_eq _ _ Hr))).
        - by rewrite (proj1 (proj2 (core_eq _ _ (Ho x Hx n)))). }
      apply (cross_copy _ _ _ _ _ _ _ _ (proj2 HI) t r Hlk' false); cbn.
      * done.
      * rewrite (proj2 (Z.eqb_neq _ _) Hne). by rewrite (proj1 (proj2 (proj2 (proj2 (core_eq _ _ Hr))))).
      * by rewrite Z.eqb_refl.
      * intros x Hx. destruct (Z.eqb_spec x t) as [->|].
        -- rewrite Hact, C1. unfold copied. rewrite Ha. unfold T'. cbn [st set_st set_hist]. rewrite F4.
           destruct (ok && have_receive i); by bits.
        -- by rewrite (proj1 (proj2 (proj2 (proj2 (core_eq _ _ (Ho x n Hx)))))).
      * intros x. destruct (decide (x = t)) as [->|]; [rewrite Hact; by rewrite C3|]. destruct (decide (x = r)) as [->|].
        -- by rewrite (proj1 (proj2 (proj2 (core_fields _ _ Hr)))).
        -- by rewrite (proj1 (proj2 (proj2 (core_fields _ _ (Ho x n n0))))).
      * intros x. destruct (Z.eqb_spec x t) as [->|]; [unfold served_by; by rewrite Ha|]. destruct (decide (x = r)) as [->|].
        -- by rewrite (proj1 (proj2 (proj2 (core_eq _ _ Hr)))).
        -- by rewrite (proj1 (proj2 (proj2 (core_eq _ _ (Ho x n n0))))).
  - pose proof (send_done_over i r ok (m t) Hrun Hpa Hf Hfr Hrdy) as Hov. fold T' in Hov.
    unfold over, fl, rdy, receive_phase in *. by rewrite C1, C2, C4, C6.
  - intros _. split; [rewrite C6; unfold T'; cbn; by destruct Hrun as (_ & ? & _) | by exists r].
Qed.

(** A sender after its message was taken by the receiver. *)
Lemma taken_sending (a : bool) (j : ipc) (ok : bool) (T : thread) : running j T -> fresh j T -> fl T = mkFlags true false false true false ->
  let T' := set_st (if ok then change (Z.lnot Thread_ipc_mask) (Thread_ready .| (if rcv_prepared T then Thread_receive_wait else 0))
                    else add (Thread_transfer_failed .| Thread_ready)) (set_hist (note_sent ok) T) in
  sending a j T' /\ hit T' = hit T /\ tb 4 T' = false /\ tb 2 T' && negb (tb 6 T') = false.
Proof.
  intros (Hq & Hab & Hr & Hp) (Hs & Hi & Hpoi) Hf. pose proof (flags_at _ _ _ _ _ _ Hf) as (F2 & F3 & F4 & F5 & F6). rewrite Hp. cbv zeta.
  destruct ok.
  - split_and!; try (unfold hit; cbn [st set_st set_hist]; destruct (have_receive j); bits; by rewrite ?F6).
    right. right. left. split_and!.
    + unfold rdy. cbn [st set_st set_hist]. destruct (have_receive j); by bits.
    + cbn. by rewrite Hs.
    + unfold receive_phase. cbn [st set_st set_hist hist inbox note_sent poi].
      destruct (have_receive j); bits; rewrite F6; by split_and!.
  - split_and!; try (unfold hit; cbn [st set_st set_hist]; bits; by rewrite ?F2, ?F4, ?F6).
    right. right. right. split_and!.
    + unfold fl. cbn [st set_st set_hist]. bits. by rewrite F2, F3, F4, F5.
    + cbn. by rewrite Hs.
    + done.
    + intros _. unfold rdy. cbn [st set_st set_hist]. by bits.
Qed.

(** The thread that a receiver serves. *)
Lemma served_sender t s m : Inv m -> link (m s) = Served_at t ->
  exists (a : bool) j, at_ (m s) = (if a then Abort_wait t j else Send_wait t j) /\ running j (m s) /\ partner j = Some t
    /\ fl (m s) = mkFlags true false false true false /\ fresh j (m s) /\ (a = true -> hit (m s) = true).
Proof.
  intros HI Hq. pose proof (proj1 HI s) as Hl. unfold local, link in *.
  destruct (at_ (m s)) as [|r j|r j| | | | | |] eqn:Es; try done;
    destruct (tb 2 (m s) && negb (tb 6 (m s))) eqn:E; [|done | |done]; destruct (tb 5 (m s)) eqn:E5; [|done | |done]; injection Hq as ->.
  - destruct Hl as (? & ? & [(Hf & _)|[(? & ? & _)|[(_ & _ & F & _)|(Hf & _)]]]).
    + apply flags_at in Hf as (_ & _ & _ & ? & _). congruence.
    + exists false, j. by split_and!.
    + by rewrite F in E.
    + apply flags_at in Hf as (_ & _ & _ & _ & F6). rewrite F6, andb_false_r in E. done.
  - destruct Hl as (? & ? & [(Hf & _)|[(? & ? & _)|[(_ & _ & F & _)|(Hf & _)]]] & ?).
    + apply flags_at in Hf as (_ & _ & _ & ? & _). congruence.
    + exists true, j. by split_and!.
    + by rewrite F in E.
    + apply flags_at in Hf as (_ & _ & _ & _ & F6). rewrite F6, andb_false_r in E. done.
Qed.

Lemma send_msg_done_inv t s i ok m : Inv m -> at_ (m t) = Receive_copy s i -> Inv (ipc_send_msg_done t s i ok m).
Proof.
  intros HI Ha. pose proof (proj1 HI t) as Hl. unfold local in Hl. rewrite Ha in Hl. destruct Hl as (Hir & Hf & Hbox).
  assert (link (m s) = Served_at t) as Hq by (apply (x_served _ _ _ _ (proj2 HI)); unfold served_by; by rewrite Ha).
  assert (s <> t) as Hne by (intros ->; unfold link in Hq; by rewrite Ha in Hq).
  destruct (served_sender t s m HI Hq) as (a & j & Has & Hrun & Hpa & Hfs & Hfr & Hhit).
  destruct (taken_sending a j ok (m s) Hrun Hfr Hfs) as (Hsend & Hhit' & H4' & Hfree).
  set (S' := set_st _ (set_hist (note_sent ok) (m s))) in *. set (T' := set_pc (Receive_done i) (set_hist (note_got s ok) (m t))).
  set (m' := ipc_send_msg_done t s i ok m).
  assert (core (m' s) = core S' /\ core (m' t) = core T' /\ forall x, x <> s -> x <> t -> core (m' x) = core (m x)) as (Hs & Ht & Ho).
  { unfold m', ipc_send_msg_done. pose proof (transfer_core s t ok m) as Hc. set (m1 := transfer_msg s t ok m) in *.
    pose proof (Hc s) as Hcs. rewrite tupd_eq, tupd_ne in Hcs by done. pose proof (Hc t) as Hct. rewrite tupd_ne, tupd_eq in Hct by done.
    apply core_fields in Hcs as (C1 & C2 & C3 & C4 & C5 & C6). apply core_fields in Hct as (D1 & D2 & D3 & D4 & D5 & D6).
    split_and!.
    - rewrite tupd_ne by done. unfold core, S'. destruct ok; rewrite tupd_eq; cbn [st set_st poi senders rcv_prepared at_ hist];
        by rewrite C1, C2, C3, C4, C5, C6.
    - rewrite tupd_eq. unfold core, T'. destruct ok; rewrite tupd_ne by done; cbn [st set_pc poi senders rcv_prepared at_ hist];
        by rewrite D1, D2, D3, D4, D6.
    - intros x Hx1 Hx2. rewrite tupd_ne by done. destruct ok; rewrite tupd_ne by done; by rewrite Hc, !tupd_ne. }
  pose proof (core_eq _ _ (eq_sym Hs)) as (Hls & Hks & Hvs & Hps & Hds & _). pose proof (core_eq _ _ (eq_sym Ht)) as (Hlt & Hkt & Hvt & Hpt & Hdt & _).
  split.
  - intros x. destruct (decide (x = s)) as [->|Hx]; [|destruct (decide (x = t)) as [->|Hx']].
    + apply Hls. unfold local. change (at_ S') with (at_ (m s)). rewrite Has. destruct a; [|by split_and!].
      split_and!; try done. by rewrite Hhit', Hhit.
    + apply Hlt. unfold local. cbn [at_ T' set_pc]. split; [done|]. split; [done|]. exists (s, ok).
      unfold T'. cbn [hist set_pc set_hist note_got inbox]. by rewrite Hbox.
    + by apply (core_eq (m x)); [rewrite Ho | apply HI].
  - assert (forall x, x <> s -> link (m' x) = link (m x)) as Hlk'.
    { intros x Hx. destruct (decide (x = t)) as [->|]; [rewrite <- Hkt; unfold link; by rewrite Ha|].
      by rewrite (proj1 (proj2 (core_eq _ _ (Ho x Hx n)))). }
    apply (cross_served _ _ _ _ _ _ _ _ (proj2 HI) s t Hlk'); cbn.
    + unfold served_by. by rewrite Ha.
    + by rewrite <- Hvt.
    + rewrite <- Hks. unfold link. change (at_ S') with (at_ (m s)). rewrite Has, Hfree. by destruct a.
    + intros x Hx. destruct (decide (x = s)) as [->|]; [rewrite <- Hvs; unfold served_by; change (at_ S') with (at_ (m s)); by rewrite Has|].
      by rewrite (proj1 (proj2 (proj2 (core_eq _ _ (Ho x n Hx))))).
    + intros x. destruct (decide (x = s)) as [->|]; [by rewrite <- Hds|]. destruct (decide (x = t)) as [->|]; [by rewrite <- Hdt|].
      by rewrite (proj1 (proj2 (proj2 (core_fields _ _ (Ho x n n0))))).
    + apply flags_at in Hfs as (_ & _ & F4 & _).
      intros x. destruct (decide (x = s)) as [->|].
      { rewrite <- Hps. unfold copied. change (at_ S') with (at_ (m s)). rewrite Has, H4', F4. by destruct a. }
      destruct (decide (x = t)) as [->|]; [rewrite <- Hpt; unfold copied; by rewrite Ha|].
      by rewrite (proj1 (proj2 (proj2 (proj2 (core_eq _ _ (Ho x n n0)))))).
Qed.

(** * Timeouts and cancellation *)

(** A thread is made ready because of a timeout or cancellation. *)
Record wakes (T T' : thread) : Prop := {
  wk_at : at_ T' = at_ T; wk_poi : poi T' = poi T; wk_senders : senders T' = senders T;
  wk_rcv : rcv_prepared T' = rcv_prepared T; wk_hist : hist T' = hist T;
  wk_flags : fl T' = fl T; wk_rdy : rdy T' = true; wk_hit : hit T' = true;
  wk_user : at_ T = User -> tb 8 T' = tb 8 T }.

Lemma wakes_local T T' : wakes T T' -> local T -> local T'.
Proof.
  intros [Ha Hp Hs Hr Hh Hf Hrdy Hhit Hu] Hl. pose proof (flags_at T' _ _ _ _ _ (eq_trans Hf eq_refl)) as (B2 & B3 & B4 & B5 & B6).
  assert (forall j, receive_phase j T -> receive_phase j T') as Hph by (intros j; unfold receive_phase; by rewrite B2, B3, B4, B5, B6, Hh, Hp).
  assert (forall a j, sending a j T -> sending a j T') as Hsend.
  { intros a j. unfold sending, fresh. rewrite Hf, Hh, Hp, Hrdy, Hhit.
    intros [(? & ? & ? & _)|[(? & ? & _)|[(_ & ? & ?)|(? & ? & ? & _)]]]; [left; split; [done|]; split; [done|]; by split | right; left; split; [done|]; split; [done|]; intros ? ?; congruence | right; right; left; split; [done|]; split; [done|]; by apply Hph |
       right; right; right; split_and!; auto]. }
  unfold local in *. rewrite Ha. unfold in_receive, running, ended, fresh in *. rewrite Hr, Hh, Hp, Hf, Hrdy, Hhit.
  destruct (at_ T); try done.
  - by rewrite Hu.
  - destruct Hl as (? & ? & ?). split; [done|]. split; [done | by apply Hsend].
  - destruct Hl as (? & ? & ? & ?). split; [done|]. split; [done|]. split; [by apply Hsend | done].
  - destruct Hl as (? & ? & ? & ? & _). split; [done|]. split; [done|]. split; [done|]. by split.
  - destruct Hl as (? & ? & ?). split; [done|]. split; [done | by apply Hph].
  - destruct Hl as (? & ? & Hn & _). split; [done|]. split; [by apply Hph|]. rewrite B3, B4. split; [|by destruct (_ || _)].
    intros ?. unfold none_acceptable in *. rewrite Hp, Hs. by apply Hn.
Qed.

Lemma wakes_inv t f m : Inv m -> wakes (m t) (f (m t)) -> Inv (upd t f m).
Proof.
  intros HI Hw. pose proof (wakes_local _ _ Hw (proj1 HI t)) as Hl. destruct Hw as [Ha Hp Hs Hr Hh Hf _ _ _].
  injection Hf as B2 B3 B4 B5 B6.
  apply (inv_self t m); [done | intros x Hx; by rewrite tupd_ne | by rewrite tupd_eq |..]; rewrite ?tupd_eq; [done | ..].
  - unfold link. by rewrite Ha, B2, B5, B6.
  - unfold served_by. by rewrite Ha.
  - unfold copied. by rewrite Ha, B4.
Qed.

Lemma cancel_inv t m : Inv m -> Inv (upd t (set_st (add (Thread_cancel .| Thread_ready))) m).
Proof.
  intros HI. apply wakes_inv; [done|]. split; try done; unfold fl, rdy, hit; cbn [st set_st]; intros; by bits.
Qed.

Lemma expired_inv t m : Inv m -> Inv (upd t expired m).
Proof.
  intros HI. unfold expired. set (f := fun T => _). destruct (Z.eqb_spec (st (m t) .& Thread_ipc_mask) 0) as [Hz|Hnz].
  { apply (inv_core m); [|done]. intros x. unfold upd. destruct (Z.eqb_spec x t) as [->|]; [|done]. unfold f. cbn [st set_tmo]. by rewrite Hz. }
  destruct (has Thread_receive_in_progress (st (m t) .& Thread_ipc_mask)) eqn:Er.
  { apply (inv_core m); [|done]. intros x. unfold upd. destruct (Z.eqb_spec x t) as [->|]; [|done]. unfold f. cbn [st set_tmo].
    by rewrite Er, orb_true_r. }
  apply wakes_inv; [done|]. unfold f. cbn [st set_tmo]. rewrite (proj2 (Z.eqb_neq _ _) Hnz), Er. cbn [orb].
  split; try done; [unfold fl | unfold rdy | unfold hit |]; cbn [st set_st set_tmo]; [by bits..|].
  intros Ha. destruct Hnz. pose proof (proj1 HI t) as Hl. unfold local in Hl. rewrite Ha in Hl. destruct Hl as [Hf _].
  apply flags_at in Hf as (F2 & F3 & F4 & F5 & _). pose proof (has_ipc (st (m t))) as Hi. rewrite F2, F3, F4, F5 in Hi. unfold has, nonzero in Hi.
  apply negb_false_iff, Z.eqb_eq in Hi. done.
Qed.

(** * The start of an IPC *)

Lemma prio_insert_perm pr e p l : prio_insert pr e p l ≡ₚ e :: l.
Proof.
  induction l as [|x l IH]; cbn; [done|]. destruct (p <=? pr x); [|done]. rewrite IH. apply Permutation_swap.
Qed.

Lemma prio_insert_filter pr e p l : e ∉ l -> filter (fun x => x <> e) (prio_insert pr e p l) = l.
Proof.
  assert (forall l : list Z, e ∉ l -> filter (fun x => x <> e) l = l) as Hf.
  { induction l0 as [|y l0 IH]; [done|]. intros [? ?]%not_elem_of_cons. rewrite filter_cons_True by done. by rewrite IH. }
  induction l as [|x l IH]; cbn [prio_insert]; intros Hn.
  - by rewrite filter_cons_False by tauto.
  - apply not_elem_of_cons in Hn as [? ?]. destruct (p <=? pr x).
    + rewrite filter_cons_True by done. by rewrite IH.
    + rewrite filter_cons_False by tauto. rewrite filter_cons_True by done. by rewrite Hf.
Qed.

Lemma del_add_sw st : Z.testbit st 2 = false -> del Thread_send_wait (add Thread_send_wait st) = st.
Proof.
  intros H2. apply Z.bits_inj'. intros n Hn. rewrite testbit_del, testbit_add by done. change Thread_send_wait with (2 ^ 2).
  rewrite Z.pow2_bits_eqb by lia. destruct (Z.eqb_spec 2 n) as [<-|]; [by rewrite H2|]. by rewrite orb_false_r, andb_true_r.
Qed.

Abbreviation started := (set_st (change (Z.lnot Thread_receive_wait) Thread_receive_in_progress)).

(** The results of [check_send]. *)
Inductive checked (t r : Z) (m : threads) : Check_sender * threads -> Prop :=
  | checked_failed m' : m' = m \/ m' = upd t (set_st (add Thread_send_wait)) m -> checked t r m (Failed, m')
  | checked_ok m' : t <> r -> (st (m r) .& Thread_ipc_mask) =? Thread_receive_wait = true ->
      (forall x, core (m' x) = core (upd r started m x)) -> checked t r m (Ok, m')
  | checked_queued : let m' := sender_enqueue t r (upd t (set_st (add Thread_send_wait)) m) in
      receiving (sender_ok t r m') = false -> checked t r m (Queued, m').

Lemma sender_ok_rw t r m : receiving (sender_ok t r m) = true -> ((st (m r) .& Thread_ipc_mask) =? Thread_receive_wait) = true.
Proof. unfold sender_ok. by destruct (_ =? _). Qed.

Lemma check_send_spec t r z m : t ∉ senders (m r) -> tb 2 (m t) = false -> tb 3 (m t) = false ->
  exists res, check_send t r z m = Some res /\ checked t r m res.
Proof.
  intros Hnin H2 H3. unfold check_send. destruct (is_invalid _); [eexists; split; [done | constructor; by left]|].
  assert (exists res, check_send_loop 2 t r m = Some res /\ checked t r m res) as Hloop.
  { cbn [check_send_loop]. destruct (queue_invalid _); [eexists; split; [done | constructor; by right]|]. set (m1 := sender_enqueue t r _). destruct (receiving (sender_ok t r m1)) eqn:Eok.
    2: { eexists. split; [done|]. by constructor. }
    pose proof (sender_ok_rw _ _ _ Eok) as Hrw.
    assert (senders (m1 r) = prio_insert (fun x => prio (upd t (set_st (add Thread_send_wait)) m x)) t
      (prio (upd t (set_st (add Thread_send_wait)) m t)) (senders (m r))) as Hs1.
    { unfold m1, sender_enqueue. rewrite tupd_eq. cbn [senders set_senders]. f_equal. unfold upd. by destruct (r =? t). }
    assert (in_sender_list t r m1 = true) as Hin.
    { apply in_list_spec. rewrite Hs1, prio_insert_perm. apply list_elem_of_here. }
    unfold sender_dequeue. rewrite Hin. rewrite !tupd_eq. cbn [st set_senders].
    rewrite only_rw in Hrw. rewrite receive_safely. apply andb_true_iff in Hrw as [[[Hr3 Hr2]%andb_true_iff Hr4]%andb_true_iff Hr5].
    rewrite Hr3, Hr4. cbn [andb]. assert (t <> r) as Hne.
    { intros <-. revert Hr3. unfold m1, sender_enqueue. rewrite !tupd_eq. cbn [st set_senders set_st]. bits. by rewrite H3. }
    assert (m1 r = set_senders (senders (m1 r)) (m r) /\ m1 t = set_st (add Thread_send_wait) (m t)) as [Hm1r Hm1t].
    { unfold m1, sender_enqueue. rewrite !tupd_eq, !tupd_ne by done. by rewrite tupd_eq. }
    eexists. split; [done|]. apply checked_ok; [done | rewrite only_rw; rewrite Hm1r in Hr2, Hr3, Hr4, Hr5; cbn [st set_senders] in *; by rewrite Hr2, Hr3, Hr4, Hr5 |].
    intros x. destruct (decide (x = t)) as [->|Hx]; [|destruct (decide (x = r)) as [->|Hx']].
    - rewrite tupd_eq, !(tupd_ne r) by done. rewrite Hm1t. unfold core. cbn [st set_st poi senders rcv_prepared at_ hist].
      by rewrite del_add_sw.
    - rewrite tupd_ne, !tupd_eq by done. rewrite Hs1, prio_insert_filter by done. rewrite Hm1r. by destruct (m r).
    - rewrite !tupd_ne by done. unfold m1, sender_enqueue. by rewrite !tupd_ne by done. }
  assert (exists res, (if z then Some (Failed, m) else check_send_loop 2 t r m) = Some res /\ checked t r m res) as Hslow.
  { destruct z; [eexists; split; [done | constructor; by left] | done]. }
  destruct (receiving (sender_ok t r m)) eqn:Eok; [|done]. pose proof (sender_ok_rw _ _ _ Eok) as Hrw. pose proof Hrw as Hrw'.
  rewrite only_rw in Hrw. apply andb_true_iff in Hrw as [[[Hr3 Hr2]%andb_true_iff Hr4]%andb_true_iff Hr5].
  rewrite receive_safely, Hr3, Hr4. cbn [andb]. eexists. split; [done|]. apply checked_ok; [|done|].
  - intros <-. congruence.
  - intros x. unfold upd. by destruct (Z.eqb_spec x r) as [->|].
Qed.

(** A receiver when a transfer to it starts. *)
Lemma started_local R : local R -> ((st R .& Thread_ipc_mask) =? Thread_receive_wait) = true ->
  local (started R) /\ link (started R) = link R /\ served_by (started R) = served_by R /\ copied R = false /\ copied (started R) = true.
Proof.
  intros Hl Hrw. rewrite only_rw in Hrw. apply andb_true_iff in Hrw as [[[H3 H2]%andb_true_iff H4]%andb_true_iff H5].
  apply negb_true_iff in H2, H4, H5.
  assert (tb 2 (started R) = false /\ tb 3 (started R) = false /\ tb 4 (started R) = true /\ tb 5 (started R) = false
    /\ tb 6 (started R) = tb 6 R /\ rdy (started R) = rdy R /\ hit (started R) = hit R) as (S2 & S3 & S4 & S5 & S6 & Sr & Sh).
  { unfold rdy, hit. cbn [st set_st]. bits. by rewrite H2, H5. }
  assert (forall j, receive_phase j R -> receive_phase j (started R)) as Hph.
  { intros j (F2 & F5 & F6 & F34 & Hbox & Hpo). rewrite H3 in Hbox. unfold receive_phase. rewrite S2, S3, S4, S5, S6. by split_and!. }
  assert (forall a j, sending a j R -> sending a j (started R)) as Hsend.
  { intros a j [(Hf & _)|[(Hf & _)|[(? & ? & Hp)|(Hf & _)]]]; [apply flags_at in Hf as (_ & ? & _); congruence.. | |
      apply flags_at in Hf as (_ & ? & _); congruence].
    right. right. left. rewrite Sr. split_and!; [done | done | by apply Hph]. }
  split_and!.
  - unfold local in *. cbn [at_ set_st]. destruct (at_ R).
    + destruct Hl as [Hf _]. apply flags_at in Hf as (_ & ? & _). congruence.
    + destruct Hl as (? & ? & ?). split; [done|]. split; [done | by apply Hsend].
    + destruct Hl as (? & ? & ? & ?). rewrite Sh. split; [done|]. split; [done|]. split; [by apply Hsend | done].
    + destruct Hl as (_ & _ & Hf & _). apply flags_at in Hf as (_ & ? & _). congruence.
    + destruct Hl as (? & ? & ?). rewrite Sr. split; [done|]. split; [done | by apply Hph].
    + destruct Hl as (_ & Hf & _). apply flags_at in Hf as (_ & ? & _). congruence.
    + destruct Hl as (_ & Hf & _). apply flags_at in Hf as (_ & ? & _). congruence.
    + destruct Hl as (? & ? & _ & Hb). rewrite S3, S4, Sr, Sh. rewrite H3 in Hb. cbn [orb] in *. split; [done|]. split; [by apply Hph | done].
    + destruct Hl as (_ & Hf & _). apply flags_at in Hf as (_ & ? & _). congruence.
  - unfold link. rewrite S2, H2. done.
  - done.
  - unfold copied. rewrite H4. by destruct (at_ R).
  - unfold copied. rewrite S4. unfold local in Hl. change (at_ (started R)) with (at_ R).
    destruct (at_ R); try done; destruct Hl as (_ & Hf & _); apply flags_at in Hf as (_ & ? & _); congruence.
Qed.

(** A thread at the start of its IPC, before it does anything visible. *)
Definition prepared (i : ipc) (T : thread) : Prop :=
  running i T /\ fresh i T /\ fl T = no_flags /\ hit T = false /\ rdy T = true.

Lemma start_copy_inv t r i m m' : Inv_but t m -> prepared i (m t) -> partner i = Some r -> t <> r ->
  ((st (m r) .& Thread_ipc_mask) =? Thread_receive_wait) = true -> (forall x, core (m' x) = core (upd r started m x)) ->
  Inv (upd t (set_pc (Send_copy r i)) (reset_timeout r m')).
Proof.
  intros [HL HC] (Hrun & Hfr & Hf & Hh & Hrdy) Hpa Hne Hrw Hc. pose proof (flags_at _ _ _ _ _ _ Hf) as (F2 & F3 & F4 & F5 & F6).
  destruct (started_local (m r) (HL r (not_eq_sym Hne)) Hrw) as (Hlr & Hkr & Hvr & Hcr & Hcr').
  set (m'' := upd t _ _).
  assert (forall x, x <> t -> core (m'' x) = core (upd r started m x)) as Ho.
  { intros x Hx. unfold m''. rewrite tupd_ne by done. by rewrite reset_timeout_core, Hc. }
  assert (core (m'' t) = core (set_pc (Send_copy r i) (m t))) as Ht.
  { unfold m''. rewrite tupd_eq. pose proof (Hc t) as Hct. rewrite <- (reset_timeout_core r m' t), tupd_ne in Hct by done.
    apply core_fields in Hct as (C1 & C2 & C3 & C4 & C5 & C6). unfold core. cbn [st set_pc poi senders rcv_prepared at_ hist].
    by rewrite C1, C2, C3, C4, C6. }
  assert (forall x, x <> t -> core (m'' x) = core (if x =? r then started (m r) else m x)) as Ho'.
  { intros x Hx. rewrite Ho by done. unfold upd. by destruct (Z.eqb_spec x r) as [->|]. }
  pose proof (core_eq _ _ (eq_sym Ht)) as (Hlt & Hkt & Hvt & Hpt & Hdt & _).
  split.
  - intros x. destruct (decide (x = t)) as [->|Hx].
    + apply Hlt. unfold local. cbn [at_ set_pc]. by split_and!.
    + eapply core_eq; [symmetry; by apply Ho'|]. destruct (Z.eqb_spec x r) as [->|]; [done | by apply HL].
  - assert (forall x, x <> t -> link (m'' x) = (if x =? t then Free else link (m x))) as Hlk'.
    { intros x Hx. rewrite (proj2 (Z.eqb_neq _ _) Hx). rewrite (proj1 (proj2 (core_eq _ _ (Ho' x Hx)))).
      by destruct (Z.eqb_spec x r) as [->|]. }
    apply (cross_copy _ _ _ _ _ _ _ _ HC t r Hlk' true); cbn.
    + by rewrite (proj2 (Z.eqb_neq r t) (not_eq_sym Hne)).
    + rewrite (proj1 (proj2 (proj2 (proj2 (core_eq _ _ (Ho' r (not_eq_sym Hne))))))). by rewrite Z.eqb_refl.
    + rewrite Z.eqb_refl, <- Hkt. done.
    + intros x Hx. destruct (Z.eqb_spec x t) as [->|Hxt]; [rewrite <- Hpt; by unfold copied|].
      rewrite (proj1 (proj2 (proj2 (proj2 (core_eq _ _ (Ho' x Hxt)))))). by rewrite (proj2 (Z.eqb_neq _ _) Hx).
    + intros x. destruct (decide (x = t)) as [->|Hx]; [by rewrite <- Hdt|].
      rewrite (proj1 (proj2 (proj2 (core_fields _ _ (Ho' x Hx))))). by destruct (Z.eqb_spec x r) as [->|].
    + intros x. destruct (Z.eqb_spec x t) as [->|Hx]; [by rewrite <- Hvt|].
      rewrite (proj1 (proj2 (proj2 (core_eq _ _ (Ho' x Hx))))). by destruct (Z.eqb_spec x r) as [->|].
Qed.

(** A sender joins a queue only where it is not acceptable to a waiting receiver. *)
Lemma enqueue_local t r m R pr p : local R -> core (m r) = core (set_senders (prio_insert pr t p (senders R)) R) ->
  receiving (sender_ok t r m) = false -> local (set_senders (prio_insert pr t p (senders R)) R).
Proof.
  intros Hl Hc Hok. unfold local in *. cbn [at_ set_senders]. destruct (at_ R) as [| | | | | | |i|]; try exact Hl.
  destruct Hl as (Hin & Hph & Hn & Hb). split; [done|]. split; [done|]. split; [|done].
  change (tb 3 (set_senders (prio_insert pr t p (senders R)) R)) with (tb 3 R). intros H3. specialize (Hn H3).
  destruct Hph as (F2 & F5 & F6 & F34 & _). rewrite H3 in F34. cbn in F34.
  apply core_fields in Hc as (C1 & C2 & C3 & _). unfold sender_ok in Hok. rewrite C1, C2, C3 in Hok. cbn [st set_senders poi senders] in Hok.
  rewrite only_rw, H3, F2, F34, F5 in Hok. cbn [andb negb] in Hok. unfold none_acceptable in *. cbn [poi set_senders senders].
  destruct (poi R) as [q|].
  - rewrite prio_insert_perm. unfold eqo in Hok. destruct (Z.eqb_spec q t) as [->|]; [done|]. by apply not_elem_of_cons.
  - rewrite Hn in Hok. cbn in Hok. by rewrite Z.eqb_refl in Hok.
Qed.

Section queued.
Context (t r : Z) (i : ipc) (m : threads).
Hypotheses (HB : Inv_but t m) (Hprep : prepared i (m t)) (Hpa : partner i = Some r) (Hnin : t ∉ senders (m r)).

Abbreviation mq := (sender_enqueue t r (upd t (set_st (add Thread_send_wait)) m)).

Lemma queued_self : exists l, mq t = set_senders l (set_st (add Thread_send_wait) (m t)).
Proof.
  unfold sender_enqueue. destruct (decide (t = r)) as [<-|Hne]; [rewrite !tupd_eq; by eexists|].
  rewrite tupd_ne, tupd_eq by done. exists (senders (m t)). by destruct (m t).
Qed.

Lemma queued_senders : senders (mq r) ≡ₚ t :: senders (m r) /\ filter (fun x => x <> t) (senders (mq r)) = senders (m r).
Proof.
  unfold sender_enqueue. rewrite tupd_eq. cbn [senders set_senders].
  assert (senders (upd t (set_st (add Thread_send_wait)) m r) = senders (m r)) as -> by (unfold upd; by destruct (r =? t)).
  split; [apply prio_insert_perm | by apply prio_insert_filter].
Qed.

Lemma queued_other x : x <> t -> x <> r -> mq x = m x.
Proof. intros. unfold sender_enqueue. by rewrite !tupd_ne. Qed.

(** It blocks in the queue. *)
Lemma queue_inv m' : receiving (sender_ok t r mq) = false -> (forall x, core (m' x) = core (mq x)) ->
  Inv (upd t (set_pc (Send_wait r i)) (upd t (set_st (change (Z.lnot Thread_ready) 0)) m')).
Proof.
  intros Hok Hc. destruct HB as [HL HC]. destruct Hprep as (Hrun & Hfr & Hf & Hh & Hrdy).
  pose proof (flags_at _ _ _ _ _ _ Hf) as (F2 & F3 & F4 & F5 & F6). destruct queued_self as [l Hl]. destruct queued_senders as [Hperm _].
  set (m'' := upd t (set_pc _) _).
  assert (forall x, x <> t -> core (m'' x) = core (mq x)) as Ho by (intros x Hx; unfold m''; by rewrite !tupd_ne).
  assert (core (m'' t) = core (set_pc (Send_wait r i) (set_st (fun _ => change (Z.lnot Thread_ready) 0 (add Thread_send_wait (st (m t)))) (set_senders l (m t))))) as Ht.
  { unfold m''. rewrite !tupd_eq. pose proof (Hc t) as Hct. rewrite Hl in Hct. apply core_fields in Hct as (C1 & C2 & C3 & C4 & C5 & C6).
    unfold core. cbn [st set_pc set_st set_senders poi senders rcv_prepared at_ hist] in *. by rewrite C1, C2, C3, C4, C6. }
  set (T' := set_pc _ _) in Ht. pose proof (core_eq _ _ (eq_sym Ht)) as (Hlt & Hkt & Hvt & Hpt & Hdt & _).
  assert (forall x, senders (m'' x) = senders (mq x)) as Hsd.
  { intros x. destruct (decide (x = t)) as [->|Hx]; [rewrite <- Hdt; by rewrite Hl | by apply (core_fields _ _ (Ho x Hx))]. }
  assert (forall x, x <> t -> exists k, mq x = set_senders k (m x)) as Hk.
  { intros x Hx. unfold sender_enqueue. destruct (decide (x = r)) as [->|Hxr].
    - rewrite (tupd_eq r), (tupd_ne t _ _ r) by done. by eexists.
    - rewrite !tupd_ne by done. exists (senders (m x)). by destruct (m x). }
  assert (forall x, x <> t -> link (mq x) = link (m x) /\ served_by (mq x) = served_by (m x) /\ copied (mq x) = copied (m x)) as Hsame.
  { intros x Hx. destruct (Hk x Hx) as [k ->]. done. }
  split.
  - intros x. destruct (decide (x = t)) as [->|Hx].
    + apply Hlt. unfold local. cbn [at_ T' set_pc]. split; [done|]. split; [done|]. left.
      split; [|split; [done|]; split; [done|]].
      * unfold fl, T'. cbn [st set_pc set_st set_senders]. bits. by rewrite F3, F4, F5, F6.
      * intros _. unfold hit, T' in *. cbn [st set_pc set_st set_senders]. bits. done.
    + eapply core_eq; [symmetry; by apply Ho|]. destruct (decide (x = r)) as [->|Hxr]; [|rewrite queued_other by done; by apply HL].
      unfold sender_enqueue at 1. rewrite (tupd_eq r), (tupd_ne t _ _ r) by done. eapply (enqueue_local t r mq); [by apply HL | | done].
      unfold sender_enqueue. by rewrite (tupd_eq r), (tupd_ne t _ _ r).
  - assert (forall x, x <> t -> link (m'' x) = (if x =? t then Free else link (m x))) as Hlk'.
    { intros x Hx. rewrite (proj2 (Z.eqb_neq _ _) Hx), (proj1 (proj2 (core_eq _ _ (Ho x Hx)))). by apply Hsame. }
    apply (cross_enqueue _ _ _ _ _ _ _ _ HC t r Hlk'); cbn.
    + by rewrite Z.eqb_refl.
    + rewrite <- Hkt. unfold link, T'. cbn [at_ set_pc st set_st set_senders]. bits. by rewrite F5, F6.
    + intros x Hx. rewrite Hsd. destruct (decide (x = t)) as [->|Hxt]; [|by rewrite queued_other].
      unfold sender_enqueue. by rewrite tupd_ne, tupd_eq.
    + by rewrite Hsd.
    + intros x. destruct (Z.eqb_spec x t) as [->|Hx]; [by rewrite <- Hvt|]. rewrite (proj1 (proj2 (proj2 (core_eq _ _ (Ho x Hx))))). by apply Hsame.
    + intros x. destruct (Z.eqb_spec x t) as [->|Hx].
      * rewrite <- Hpt. unfold copied, T'. cbn [at_ set_pc st set_st set_senders]. by bits.
      * rewrite (proj1 (proj2 (proj2 (proj2 (core_eq _ _ (Ho x Hx)))))). by apply Hsame.
Qed.

(** It gives up at once, or blocks. *)
Lemma do_send_wait_inv now : receiving (sender_ok t r mq) = false -> Inv (do_send_wait t r i now mq).
Proof.
  intros Hok. destruct queued_self as [l Hl]. destruct queued_senders as [Hperm Hfil].
  pose proof Hprep as (Hrun & Hfr & Hf & Hh & Hrdy). pose proof (flags_at _ _ _ _ _ _ Hf) as (F2 & F3 & F4 & F5 & F6).
  assert (forall m', (forall x, core (m' x) = core (mq x)) -> Inv (send_wait_turn t r i now m')) as Hturn.
  { intros m' Hc. unfold send_wait_turn. rewrite still_waits. pose proof (Hc t) as Hct. rewrite Hl in Hct.
    apply core_fields in Hct as (C1 & _). rewrite C1. cbn [st set_senders set_st].
    assert (Z.testbit (add Thread_send_wait (st (m t))) 2 && negb (Z.testbit (add Thread_send_wait (st (m t))) 6
      || Z.testbit (add Thread_send_wait (st (m t))) 7 || Z.testbit (add Thread_send_wait (st (m t))) 8) = true) as ->.
    { bits. rewrite F6. unfold hit in Hh. cbn [orb]. by rewrite Hh. }
    by apply queue_inv. }
  unfold do_send_wait. destruct (is_finite (snd_timeout i)); [|by apply Hturn].
  destruct (_ || _); [|apply Hturn; intros x; apply tmo_core].
  apply abort_queued.
  - apply (but_any t m); [| | | done].
    + intros x Hx. destruct (decide (x = r)) as [->|Hxr]; [|rewrite tupd_ne, queued_other by done; done].
      rewrite tupd_eq, Hfil. unfold sender_enqueue. rewrite (tupd_eq r), (tupd_ne t _ _ r) by done. by destruct (m r).
    + destruct (decide (t = r)) as [<-|Hne]; [by rewrite tupd_eq|]. rewrite tupd_ne by done. unfold sender_enqueue. by rewrite tupd_ne, tupd_eq.
    + assert (tb 4 (upd r (without t) mq t) = tb 4 (mq t)) as -> by (by apply (upd_field (fun T => tb 4 T))).
      rewrite Hl. cbn [st set_senders set_st]. by bits.
  - rewrite Hperm. apply list_elem_of_here.
  - rewrite Hl. cbn [st set_senders set_st]. by bits.
  - by rewrite Hl.
  - done.
  - by rewrite Hl.
Qed.
End queued.

(** The thread when its IPC starts. *)
Lemma prepare_inv t i m : Inv m -> at_ (m t) = User -> rdy (m t) = true -> exists m1, Inv_but t m1 /\ prepared i (m1 t)
  /\ (forall x, senders (m1 x) = senders (m x)) /\ at_ (m1 t) = User
  /\ m1 = upd t (set_rights (rights i)) (prepare_receive t i
       (upd t (set_hist (fun _ => new_history i)) (upd t (set_st (del Thread_cancel)) m))).
Proof.
  intros HI Ha Hrdy. pose proof (proj1 HI t) as Hl. unfold local in Hl. rewrite Ha in Hl. destruct Hl as (Hf & H8 & _).
  pose proof (flags_at _ _ _ _ _ _ Hf) as (F2 & F3 & F4 & F5 & F6). eexists. split_and!; [| | | | reflexivity].
  - unfold prepare_receive. repeat (apply but_self; [by rewrite ?tupd_eq | by rewrite ?tupd_eq; cbn [st set_rights set_poi set_rcv_regs set_hist set_st]; bits |]).
    apply but_enter; [done | unfold link; by rewrite Ha | unfold served_by; by rewrite Ha | unfold copied; by rewrite Ha].
  - unfold prepare_receive. rewrite !tupd_eq. unfold prepared, fl, rdy, hit, running, fresh.
    cbn [st set_rights set_poi set_rcv_regs set_hist set_st hist poi rcv_prepared new_history req aborted rcv_res sent inbox]. bits.
    by rewrite F2, F3, F4, F5, F6, H8.
  - intros x. unfold prepare_receive, upd. by destruct (x =? t).
  - unfold prepare_receive. by rewrite !tupd_eq.
Qed.

Lemma do_ipc_inv t i now m : Inv m -> at_ (m t) = User -> rdy (m t) = true -> match partner i with Some _ => true | None => have_receive i end = true ->
  exists m', do_ipc t i now m = Some m' /\ Inv m'.
Proof.
  intros HI Ha Hrdy Hv. destruct (prepare_inv t i m HI Ha Hrdy) as (m1 & Hb & Hprep & Hsd & Ha1 & E). unfold do_ipc. rewrite <- E.
  destruct (partner i) as [r|] eqn:Hpa.
  - set (m2 := reset_caller_of t r m1). pose proof (core_reset_caller_of t r m1) as Hc. fold m2 in Hc.
    assert (Inv_but t m2) as Hb2 by (by apply (but_core t m1)).
    pose proof (core_fields _ _ (Hc t)) as (C1 & C2 & C3 & C4 & C5 & C6).
    assert (prepared i (m2 t)) as Hprep2.
    { unfold prepared, running, fresh, fl, hit, rdy in *. by rewrite C1, C2, C4, C6. }
    pose proof Hprep2 as (Hrun & Hfr & Hf & Hh & Hr2). pose proof (flags_at _ _ _ _ _ _ Hf) as (F2 & F3 & F4 & F5 & F6).
    assert (t ∉ senders (m2 r)) as Hnin.
    { rewrite (proj1 (proj2 (proj2 (core_fields _ _ (Hc r))))), Hsd. apply link_sending; [done|]. unfold link. by rewrite Ha. }
    unfold ipc_send. destruct (check_send_spec t r (is_zero (snd_timeout i)) m2 Hnin F2 F3) as (res & -> & Hres).
    destruct Hres as [m' Hm'|m' Hne Hrw Hc'|Hok].
    + eexists. split; [done|].
      assert (core (m' t) = core (set_st (fun _ => st (m' t)) (m2 t)) /\ tb 6 (m' t) = false) as [Hct H6'].
      { destruct Hm' as [-> | ->]; [done|]. rewrite tupd_eq. cbn [st set_st]. by bits. }
      apply core_fields in Hct as (_ & D2 & D3 & D4 & D5 & D6). cbn [poi senders rcv_prepared at_ hist set_st] in *.
      apply (over_inv _ _ _ _ _ m2); [done | | by rewrite tupd_eq | rewrite tupd_eq; cbn [st set_st]; bits; by rewrite F4 |].
      { intros x Hx. rewrite tupd_ne by done. destruct Hm' as [-> | ->]; [done|]. by rewrite tupd_ne. }
      rewrite tupd_eq. unfold over, receive_phase. cbn [hist set_st rcv_prepared poi]. rewrite D2, D4, D6. destruct Hrun as (? & ? & ? & ?), Hfr as (Hs & ? & ?). split_and!; try done.
      * unfold sent_as. rewrite Hpa. by left.
      * right. left. split_and!; try done. unfold fl. cbn [st set_st]. bits. by rewrite H6'.
    + eexists. split; [done|]. by apply (start_copy_inv t r i m2 m').
    + eexists. split; [done|]. by apply do_send_wait_inv.
  - eexists. split; [done|]. destruct Hprep as (Hrun & Hfr & Hf & Hh & Hr2). pose proof (flags_at _ _ _ _ _ _ Hf) as (F2 & F3 & F4 & F5 & F6).
    apply (over_inv _ _ _ _ _ m1); [done | intros x Hx; by rewrite tupd_ne | by rewrite tupd_eq | rewrite tupd_eq; cbn [st set_st]; by bits |].
    rewrite tupd_eq. destruct Hrun as (? & ? & ? & ?), Hfr as (Hs & ? & ?). unfold over. cbn [hist set_st rcv_prepared]. split_and!; try done.
    + unfold sent_as. by rewrite Hpa.
    + left. split_and!; [done | done | unfold rdy in *; cbn [st set_st]; by bits |].
      unfold receive_phase. cbn [st set_st hist poi]. bits. rewrite F2, F4, F5, F6. by split_and!.
Qed.

(** * All steps *)

(** No thread runs with a pending timeout or cancellation while another thread is
    transferring a message to it. *)
Definition orderly (l : label) (s : sys) : Prop :=
  match l with
  | L_run t => copied (th s t) = true -> has Thread_ipc_abort_mask (st (th s t)) = false
  | _ => True
  end.

Lemma step_inv l s s' : Inv (th s) -> orderly l s -> step l s = Some s' -> Inv (th s').
Proof.
  intros HI Hord. destruct l as [t i|t|t ok|t|t|d]; cbn [step].
  - destruct (at_ (th s t)) eqn:Ha; try done. destruct (_ && _) eqn:E; [|done]. apply andb_true_iff in E as [Hrdy Hv]. rewrite has_ready in Hrdy.
    destruct (do_ipc_inv t i (clock s) (th s) HI Ha Hrdy Hv) as (m' & -> & HI'). by intros [= <-].
  - rewrite has_ready. destruct (Z.testbit (st (th s t)) 0) eqn:Hrdy; [|done]. cbn in Hord. destruct (at_ (th s t)) eqn:Ha; try done.
    + intros [= <-]. by apply send_wait_inv.
    + intros [= <-]. by apply abort_wait_inv.
    + destruct (do_receive_inv t next i (clock s) (th s) HI Ha Hord) as (m' & -> & HI'). by intros [= <-].
    + intros [= <-]. by apply receive_done_inv.
    + intros [= <-]. by apply receive_wait_inv.
    + intros [= <-]. by apply ipc_leave_inv.
  - destruct (at_ (th s t)) eqn:Ha; try done; intros [= <-]; [by apply send_done_inv | by apply send_msg_done_inv].
  - destruct (tmo (th s t)); try done. destruct (_ <=? _); [|done]. intros [= <-]. by apply expired_inv.
  - intros [= <-]. by apply cancel_inv.
  - destruct (_ <=? _); [|done]. by intros [= <-].
Qed.
