(* ===== verification/IpcSpec.v ===== *)
(** Theorems about the IPC handshake: every message is transferred exactly once
    and reported truthfully, no wake-up is lost, every step ends; and scenarios
    in which the code does not keep to this. *)

From S2P Require Import Prelude Ipc IpcInv IpcSteps.
Import Thread_state.
#[local] Arguments Z.testbit : simpl never.

(** No thread is in an IPC or has been. *)
Definition idle (T : thread) : Prop :=
  at_ T = User /\ fl T = no_flags /\ tb 8 T = false /\ senders T = [] /\ req (hist T) = None.

(** The states that are reached while no thread runs with a pending timeout or
    cancellation during a transfer to it.  Messages without items are transferred
    without interruption, so that this restricts only messages with items. *)
Inductive reachable (s0 : sys) : sys -> Prop :=
  | reachable_start : (forall t, idle (th s0 t)) -> reachable s0 s0
  | reachable_step l s s' : reachable s0 s -> orderly l s -> step l s = Some s' -> reachable s0 s'.

Lemma ipc_idle_inv m : (forall t, idle (m t)) -> Inv m.
Proof.
  intros Hi. split.
  - intros t. destruct (Hi t) as (Ha & Hf & H8 & _ & Hq). unfold local. rewrite Ha, Hq. done.
  - assert (forall t, link (m t) = Free /\ served_by (m t) = None /\ copied (m t) = false /\ senders (m t) = []) as Hall.
    { intros t. destruct (Hi t) as (Ha & Hf & _ & Hs & _). apply flags_at in Hf as (_ & _ & F4 & _).
      unfold link, served_by, copied. by rewrite Ha. }
    split.
    + intros r x. destruct (Hall r) as (_ & _ & _ & ->), (Hall x) as (-> & _). split; [by intros ?%not_elem_of_nil | done].
    + intros r. destruct (Hall r) as (_ & _ & _ & ->). constructor.
    + intros r x. destruct (Hall r) as (_ & -> & _ & _), (Hall x) as (-> & _). done.
    + intros r x. by destruct (Hall x) as (-> & _).
    + intros r. by destruct (Hall r) as (_ & _ & -> & _).
    + intros r x y. by destruct (Hall x) as (-> & _).
Qed.

Lemma reachable_handshake s0 s : reachable s0 s -> Inv (th s).
Proof. induction 1; [by apply ipc_idle_inv | by eapply step_inv]. Qed.

(** C10: In every run in which no thread runs with a pending timeout or
    cancellation while another transfers a message to it ([orderly]; otherwise see
    [ipc_receiver_leaves_transfer]), what an IPC system call reports when it has
    returned is what happened: a send phase that reports success has transferred
    its message exactly once, one that reports an error has not transferred it, or
    with an error; a receive phase that reports a timeout or cancellation has
    received nothing, one that reports success has received exactly one message,
    unless its send phase was cut short after the message had been taken
    ([ipc_call_without_reply]). *)
Theorem ipc_reports_truth s0 s t i : reachable s0 s -> at_ (th s t) = User -> req (hist (th s t)) = Some i ->
  let h := hist (th s t) in
  (forall r, partner i = Some r -> if snd_ok h then sent h = [true] else sent h = [] \/ sent h = [false])
  /\ (have_receive i = false \/ snd_ok h = false -> inbox h = [])
  /\ (have_receive i = true -> snd_ok h = true -> aborted h = false ->
      match rcv_res h with R_ok => exists m, inbox h = [m] | _ => inbox h = [] end).
Proof.
  intros Hr Ha Hq. pose proof (proj1 (reachable_handshake s0 s Hr) t) as Hl. unfold local in Hl. rewrite Ha, Hq in Hl.
  destruct Hl as (_ & _ & Hs & Hn & Hg). split_and!; [|done | done]. intros r Hp. unfold sent_as in Hs. by rewrite Hp in Hs.
Qed.

(** C11: In every run in which no thread runs with a pending timeout or
    cancellation while another transfers a message to it ([orderly]) no wake-up is
    lost.  A thread that is blocked in the loop of its send phase, [do_send_wait],
    is in the queue of its receiver, or the receiver is transferring its message; a
    thread that is blocked in its receive phase waits for a message, or a sender is
    transferring one to it; and no sender is blocked in [do_send_wait] on a receiver
    that is blocked waiting for it or for anyone.  This does not cover a sender that
    has been cut short and waits in [abort_send] for the end of the transfer: it
    can be blocked for ever ([ipc_abort_send_hangs]). *)
Theorem ipc_no_lost_wakeup s0 s : reachable s0 s ->
  (forall x r i, at_ (th s x) = Send_wait r i -> has Thread_ready (st (th s x)) = false ->
     x ∈ senders (th s r) \/ exists j, at_ (th s r) = Receive_copy x j)
  /\ (forall r i, at_ (th s r) = Receive_wait i -> has Thread_ready (st (th s r)) = false ->
     has Thread_receive_wait (st (th s r)) = true \/ exists x j, at_ (th s x) = Send_copy r j)
  /\ (forall x r i j, at_ (th s x) = Send_wait r i -> has Thread_ready (st (th s x)) = false ->
     at_ (th s r) = Receive_wait j -> has Thread_receive_wait (st (th s r)) = true ->
     poi (th s r) <> None /\ poi (th s r) <> Some x).
Proof.
  intros Hr. pose proof (reachable_handshake s0 s Hr) as HI. destruct HI as [HL HC].
  assert (forall x r i, at_ (th s x) = Send_wait r i -> has Thread_ready (st (th s x)) = false ->
     x ∈ senders (th s r) \/ exists j, at_ (th s r) = Receive_copy x j) as Hsend.
  { intros x r i Ha Hrdy. rewrite has_ready in Hrdy. pose proof (HL x) as Hl. unfold local in Hl. rewrite Ha in Hl.
    destruct Hl as (_ & _ & [(Hf & _)|[(Hf & _)|[(Hr' & _)|(_ & _ & _ & Hr')]]]); [| | unfold rdy in *; congruence | unfold rdy in *; specialize (Hr' eq_refl); congruence].
    - left. apply (x_queued _ _ _ _ HC). apply flags_at in Hf as (F2 & _ & _ & F5 & F6). unfold link. by rewrite Ha, F2, F5, F6.
    - right. apply flags_at in Hf as (F2 & _ & _ & F5 & F6).
      assert (served_by (th s r) = Some x) as Hs by (apply (x_served _ _ _ _ HC); unfold link; by rewrite Ha, F2, F5, F6).
      unfold served_by in Hs. destruct (at_ (th s r)) as [| | | | |y j| | |]; try done. injection Hs as ->. by exists j. }
  split_and!; [done | |].
  - intros r i Ha Hrdy. rewrite has_ready in Hrdy. rewrite has_rw. pose proof (HL r) as Hl. unfold local in Hl. rewrite Ha in Hl.
    destruct Hl as (_ & _ & _ & Hb). unfold rdy in Hb. rewrite Hrdy in Hb. destruct (tb 3 (th s r)); [by left|]. cbn [orb] in Hb.
    destruct (tb 4 (th s r)) eqn:H4; [|done]. right.
    destruct (x_copying _ _ _ _ HC r) as [x Hx]; [unfold copied; by rewrite Ha|]. exists x. unfold link in Hx.
    destruct (at_ (th s x)) as [|? ?|? ?|y j| | | | |]; try done; [repeat case_match; done.. | injection Hx as ->; by exists j].
  - intros x r i j Ha Hrdy Hw H3. rewrite has_rw in H3. destruct (Hsend x r i Ha Hrdy) as [Hin|[k Hk]]; [|congruence].
    pose proof (HL r) as Hl. unfold local in Hl. rewrite Hw in Hl. destruct Hl as (_ & _ & Hn & _). specialize (Hn H3).
    unfold none_acceptable in Hn. split; intros Hp; rewrite Hp in Hn; [rewrite Hn in Hin; by apply not_elem_of_nil in Hin | done].
Qed.

(** Every thread that can run goes on: the loops of sending and receiving
    end, in every reachable state. *)
Theorem ipc_steps_end s0 s t : reachable s0 s -> orderly (L_run t) s -> has Thread_ready (st (th s t)) = true ->
  match at_ (th s t) with
  | User => forall i, match partner i with Some _ => true | None => have_receive i end = true -> is_Some (step (L_ipc t i) s)
  | Send_copy _ _ | Receive_copy _ _ => forall ok, is_Some (step (L_copied t ok) s)
  | _ => is_Some (step (L_run t) s)
  end.
Proof.
  intros Hr Ho Hrdy. pose proof (reachable_handshake s0 s Hr) as HI. cbn [step]. rewrite Hrdy. pose proof Hrdy as Hrdy'. rewrite has_ready in Hrdy'.
  destruct (at_ (th s t)) eqn:Ha; try (by eexists).
  - intros i Hv. rewrite Hv. cbn [andb]. destruct (do_ipc_inv t i (clock s) (th s) HI Ha Hrdy' Hv) as (m' & -> & _). by eexists.
  - destruct (do_receive_inv t next i (clock s) (th s) HI Ha Ho) as (m' & -> & _). by eexists.
Qed.

(** ** A call that does not wait for its reply *)

(** [abort_send] of a thread that is in no list and whose message nobody is
    taking: it leaves the IPC as if the whole of it had succeeded. *)
Lemma abort_leaves t r i now m : t ∉ senders (m r) -> tb 5 (m t) = false -> rcv_res (hist (m t)) = R_ok ->
  let m' := abort_and_go t r i now m in
  at_ (m' t) = User /\ snd_ok (hist (m' t)) = true /\ rcv_res (hist (m' t)) = R_ok
  /\ inbox (hist (m' t)) = inbox (hist (m t)) /\ forall x, reply_cap (m' x) = reply_cap (m x).
Proof.
  intros Hin H5 Hr. unfold abort_and_go, abort_send, sender_dequeue.
  rewrite (not_true_is_false _ (fun H => Hin (proj1 (in_list_spec t r m) H))). unfold change_if. rewrite has_sip, H5.
  set (m1 := upd t (set_tmo Off) _). assert (st (m1 t) = del Thread_full_ipc_mask (st (m t))) as Est by (unfold m1; by rewrite !tupd_eq).
  unfold after_send. rewrite has_rcv. rewrite (tupd_eq t (set_hist (note_snd true))). cbn [st set_hist]. rewrite Est.
  assert (have_receive i && (Z.testbit (del Thread_full_ipc_mask (st (m t))) 3 || Z.testbit (del Thread_full_ipc_mask (st (m t))) 4) = false) as ->
    by (by bits).
  set (m2 := upd t (set_hist (note_snd true)) m1).
  replace (match partner i with Some _ | None => m2 end) with m2 by (by destruct (partner i)).
  unfold finish. rewrite (tupd_eq t (set_tmo Off)). change (st (set_tmo Off (m2 t))) with (st (m2 t)).
  replace (st (m2 t)) with (del Thread_full_ipc_mask (st (m t))) by (unfold m2; by rewrite tupd_eq).
  replace (negb (has Thread_full_ipc_mask (del Thread_full_ipc_mask (st (m t))))) with true
    by (rewrite has_full, has_ipc; by bits).
  unfold m2, m1. split_and!; [by rewrite !tupd_eq.. |].
  intros x. destruct (decide (x = t)) as [->|Hne]; [by rewrite !tupd_eq | by rewrite !tupd_ne].
Qed.

(** C40: A sender whose message has been taken, and that is cancelled or whose send
    timeout expires before it runs again, leaves its IPC on the spot: it reports
    success for both phases, whatever it has received, so that a call returns
    without having waited for the reply; and the server keeps its reply capability. *)
Theorem ipc_call_without_reply s0 s t r i : reachable s0 s -> at_ (th s t) = Send_wait r i ->
  sent (hist (th s t)) = [true] -> hit (th s t) = true ->
  exists s', step (L_run t) s = Some s' /\ at_ (th s' t) = User
    /\ snd_ok (hist (th s' t)) = true /\ rcv_res (hist (th s' t)) = R_ok
    /\ inbox (hist (th s' t)) = inbox (hist (th s t)) /\ forall x, reply_cap (th s' x) = reply_cap (th s x).
Proof.
  intros Hr Ha Hse Hh. pose proof (reachable_handshake s0 s Hr) as HI. pose proof (proj1 HI t) as Hl. unfold local in Hl. rewrite Ha in Hl.
  destruct Hl as ((Hq & Hab & Hres & _) & _ & Hs).
  destruct Hs as [(_ & _ & (Hx & _) & _)|[(_ & (Hx & _) & _)|[(Hrdy & _ & (F2 & F5 & F6 & _))|(_ & Hx & _)]]];
    [congruence.. | | congruence].
  pose proof (reset_timeout_core t (th s)) as Hcore. set (m1 := reset_timeout t (th s)) in *.
  pose proof (core_fields _ _ (Hcore t)) as (C1 & _ & _ & _ & _ & C6).
  assert (t ∉ senders (m1 r)) as Hin.
  { rewrite (proj1 (proj2 (proj2 (core_fields _ _ (Hcore r))))). intros Hx. apply (x_queued _ _ _ _ (proj2 HI)) in Hx.
    cbn in Hx. unfold link in Hx. by rewrite Ha, F2 in Hx. }
  destruct (abort_leaves t r i (clock s) m1 Hin) as (G1 & G2 & G3 & G4 & G5); [by rewrite C1 | by rewrite C6 |].
  cbn [step]. rewrite has_ready. unfold rdy in Hrdy. rewrite Hrdy, Ha. eexists. split; [done|]. cbn [th].
  assert (send_wait_turn t r i (clock s) (th s) = abort_and_go t r i (clock s) m1) as ->.
  { unfold send_wait_turn. rewrite still_waits, done_waits, failed_waits, cancel_waits, timeout_waits. fold m1.
    rewrite F2, F6. cbn [andb orb negb]. unfold hit in Hh. destruct (tb 7 (th s t)); [done|]. cbn in Hh. by rewrite Hh. }
  rewrite C6 in G4. split_and!; [done.. |]. intros x. rewrite G5. unfold m1, reset_timeout, upd. by destruct (x =? t).
Qed.

(** * Scenarios *)

Module Ipc_example.

(** All threads are idle and ready. *)
Definition nobody : thread :=
  mkThread Thread_ready None [] false false 0 None None 10 false Off User (mkHist None [] [] false true R_ok).
Definition s0 : sys := mkSys (fun _ => nobody) 100.

Definition call (r : Z) (snd_to : timeout) : ipc := mkIpc (Some r) true false (Some r) 15 snd_to Never.
Definition send (r : Z) : ipc := mkIpc (Some r) false false (Some r) 15 Never Never.
Definition wait (rcv_to : timeout) : ipc := mkIpc None true true None 15 Never rcv_to.

Definition state_of (s : option sys) : sys := match s with Some s => s | None => s0 end.

Definition orderly_b (l : label) (s : sys) : bool :=
  match l with
  | L_run t => negb (copied (th s t)) || negb (has Thread_ipc_abort_mask (st (th s t)))
  | _ => true
  end.

Fixpoint orderly_run (ls : list label) (s : sys) : bool :=
  match ls with
  | [] => true
  | l :: ls => orderly_b l s && match step l s with Some s => orderly_run ls s | None => false end
  end.

Lemma orderly_reachable ls : forall s, reachable s0 s -> orderly_run ls s = true -> reachable s0 (state_of (run ls s)).
Proof.
  induction ls as [|l ls IH]; intros s Hr; [done|]. cbn [orderly_run run]. intros [Ho Hs]%andb_true_iff.
  destruct (step l s) as [s'|] eqn:E; [|done]. apply IH; [|done]. eapply reachable_step; [done | | done].
  destruct l; try done. cbn in *. intros Hc. rewrite Hc in Ho. by apply negb_true_iff in Ho.
Qed.

Lemma s0_reachable : reachable s0 s0.
Proof. constructor. intros t. repeat split. Qed.

(** A server waits, a client calls it and gets the reply. *)
Definition round_trip : list label :=
  [L_ipc 2 (wait Never); L_run 2; L_ipc 1 (call 2 Never); L_copied 1 true; L_run 1; L_run 2; L_ipc 2 (send 1); L_copied 2 true;
   L_run 1; L_run 2].

Lemma ipc_reports_truth_witness : exists m, inbox (hist (th (state_of (run round_trip s0)) 1)) = [m].
Proof.
  destruct (ipc_reports_truth s0 (state_of (run round_trip s0)) 1 (call 2 Never)) as (_ & _ & H);
    [apply orderly_reachable; [apply s0_reachable | vm_compute; reflexivity] | vm_compute; reflexivity | vm_compute; reflexivity |].
  specialize (H eq_refl ltac:(vm_compute; reflexivity) ltac:(vm_compute; reflexivity)).
  assert (rcv_res (hist (th (state_of (run round_trip s0)) 1)) = R_ok) as E by (vm_compute; reflexivity). rewrite E in H. exact H.
Defined.

(** A client is blocked on a server that is at work. *)
Definition blocked : list label := [L_ipc 1 (call 2 Never); L_tick 5].

Lemma ipc_no_lost_wakeup_witness : 1 ∈ senders (th (state_of (run blocked s0)) 2).
Proof.
  destruct (ipc_no_lost_wakeup s0 (state_of (run blocked s0))) as (H & _);
    [apply orderly_reachable; [apply s0_reachable | vm_compute; reflexivity]|].
  destruct (H 1 2 (call 2 Never)) as [Hin|[j Hj]]; [vm_compute; reflexivity | vm_compute; reflexivity | exact Hin |].
  vm_compute in Hj. discriminate Hj.
Defined.

Definition at_work : list label := [L_ipc 1 (call 2 Never); L_ipc 2 (wait Never)].

Lemma ipc_steps_end_witness : is_Some (step (L_run 2) (state_of (run at_work s0))).
Proof.
  assert (reachable s0 (state_of (run at_work s0))) as Hr by (apply orderly_reachable; [apply s0_reachable | vm_compute; reflexivity]).
  assert (has Thread_ready (st (th (state_of (run at_work s0)) 2)) = true) as Hrdy by (vm_compute; reflexivity).
  assert (orderly (L_run 2) (state_of (run at_work s0))) as Ho by (vm_compute; discriminate).
  assert (at_ (th (state_of (run at_work s0)) 2) = Receive (Some 1) (wait Never)) as E by (vm_compute; reflexivity).
  pose proof (ipc_steps_end s0 (state_of (run at_work s0)) 2 Hr Ho Hrdy) as H. rewrite E in H. exact H.
Defined.

(** ** What goes wrong *)

(** The server has taken the message of a call, and the send timeout expires
    before the client runs. *)
Definition late_timeout : list label :=
  [L_ipc 1 (call 2 (Relative 5)); L_ipc 2 (wait Never); L_run 2; L_copied 2 true; L_run 2; L_tick 10; L_timeout 1].

(** The server holds a reply capability to a client that does not wait. *)
Lemma ipc_call_without_reply_witness : exists s', step (L_run 1) (state_of (run late_timeout s0)) = Some s'
  /\ at_ (th s' 1) = User /\ snd_ok (hist (th s' 1)) = true /\ rcv_res (hist (th s' 1)) = R_ok /\ inbox (hist (th s' 1)) = []
  /\ reply_cap (th s' 2) = Some (1, 3).
Proof.
  destruct (ipc_call_without_reply s0 (state_of (run late_timeout s0)) 1 2 (call 2 (Relative 5))) as (s' & H1 & H2 & H3 & H4 & H5 & H6);
    [apply orderly_reachable; [apply s0_reachable | vm_compute; reflexivity] | vm_compute; reflexivity.. |].
  exists s'. split_and!; [exact H1 | exact H2 | exact H3 | exact H4 | rewrite H5; vm_compute; reflexivity | rewrite H6; vm_compute; reflexivity].
Defined.

Definition left_alone : list label :=
  [L_ipc 2 (wait (Relative 5)); L_run 2; L_tick 5; L_timeout 2; L_ipc 1 (send 2); L_run 2; L_copied 1 true; L_run 1].

(** A receiver whose timeout has expired when a transfer to it starts, and that
    runs during the transfer, reports the timeout and leaves; the transfer goes on
    and the sender reports success. *)
Theorem ipc_receiver_leaves_transfer : orderly_run left_alone s0 = false
  /\ let s := state_of (run left_alone s0) in
     at_ (th s 1) = User /\ snd_ok (hist (th s 1)) = true /\ sent (hist (th s 1)) = [true]
     /\ at_ (th s 2) = User /\ rcv_res (hist (th s 2)) = R_timeout /\ inbox (hist (th s 2)) = [(1, true)].
Proof. vm_compute. repeat split. Qed.

(** The events that can happen to a single thread. *)
Definition own_event (t : Z) (l : label) : Prop :=
  l = L_run t \/ l = L_cancel t \/ l = L_timeout t \/ exists d, l = L_tick d.

Lemma abort_wait_stays t r i ls : forall s s', Forall (own_event t) ls -> at_ (th s t) = Abort_wait r i -> tb 5 (th s t) = true ->
  run ls s = Some s' -> at_ (th s' t) = Abort_wait r i /\ tb 5 (th s' t) = true.
Proof.
  induction ls as [|l ls IH]; intros s s' Hls Ha H5; [by intros [= <-]|]. apply Forall_cons in Hls as [Hl Hls]. cbn [run].
  destruct (step l s) as [s1|] eqn:E; [|done]. apply IH; [done | |]; destruct Hl as [->|[->|[->|[d ->]]]]; cbn [step] in E.
  1,5: rewrite Ha in E; destruct (has _ _); [|done]; injection E as <-; cbn [th]; unfold abort_wait_turn, change_if; rewrite has_sip, H5, tupd_eq;
    first [done | cbn [st set_st]; by bits].
  1,4: injection E as <-; cbn [th]; rewrite tupd_eq; first [done | cbn [st set_st]; by bits].
  1,3: destruct (tmo (th s t)); try done; destruct (_ <=? _); [|done]; injection E as <-; cbn [th]; rewrite tupd_eq; unfold expired;
    destruct (_ || _); first [done | cbn [st set_st set_tmo]; by bits].
  1,2: destruct (0 <=? d); [|done]; by injection E as <-.
Qed.

Definition failed_transfer : list label :=
  [L_ipc 1 (call 2 (Relative 5)); L_ipc 2 (wait Never); L_run 2; L_tick 10; L_timeout 1; L_run 1; L_copied 2 false; L_run 2].

(** A sender that gives up while the receiver is transferring its message waits
    for the end of the transfer; when the transfer fails, it waits for ever: no
    cancellation or timeout gets it out of the kernel any more. *)
Theorem ipc_abort_send_hangs : orderly_run failed_transfer s0 = true
  /\ at_ (th (state_of (run failed_transfer s0)) 2) = User
  /\ forall ls s, Forall (own_event 1) ls -> run ls (state_of (run failed_transfer s0)) = Some s -> at_ (th s 1) = Abort_wait 2 (call 2 (Relative 5)).
Proof.
  split; [vm_compute; reflexivity|]. split; [vm_compute; reflexivity|]. intros ls s Hls Hrun.
  destruct (abort_wait_stays 1 2 (call 2 (Relative 5)) ls (state_of (run failed_transfer s0)) s Hls) as [H _];
    [vm_compute; reflexivity | vm_compute; reflexivity | exact Hrun | exact H].
Qed.

Lemma ipc_abort_send_hangs_witness : exists s, run [L_run 1; L_cancel 1; L_run 1] (state_of (run failed_transfer s0)) = Some s
  /\ at_ (th s 1) = Abort_wait 2 (call 2 (Relative 5)).
Proof.
  destruct ipc_abort_send_hangs as (_ & _ & H).
  assert (match run [L_run 1; L_cancel 1; L_run 1] (state_of (run failed_transfer s0)) with Some _ => true | None => false end = true)
    as Hsome by (vm_compute; reflexivity).
  destruct (run [L_run 1; L_cancel 1; L_run 1] (state_of (run failed_transfer s0))) as [s|] eqn:E; [|discriminate Hsome].
  exists s. split; [reflexivity|]. apply (H [L_run 1; L_cancel 1; L_run 1] s); [|exact E].
  repeat constructor; unfold own_event; tauto.
Defined.

(** A thread that only sends, without a receive phase, also gives the receiver a
    reply capability. *)
Lemma send_gives_reply_cap :
  reply_cap (th (state_of (run [L_ipc 2 (wait Never); L_run 2; L_ipc 1 (send 2); L_copied 1 true] s0)) 2) = Some (1, 3).
Proof. vm_compute. reflexivity. Qed.
End Ipc_example.
