(* ===== verification/Asid.v ===== *)
(** Address-space identifiers: [src/src/kern/asid_alloc.h] and their use in
    [kern/arm/mem_space-arm-asid.h].

    All CPUs share one set of hardware identifiers.  An address space keeps a
    word of a generation and an identifier; when the identifiers are used up, a
    roll-over starts the next generation, and only the identifiers in use on a
    CPU are taken over.  A CPU whose address space is of the current generation
    does not take the lock: it reads the word, compares generations and exchanges
    its active identifier in three separate accesses.

    The step function [step] interleaves these accesses, the steps of the section
    under the lock that others can see, the flush of the TLB, the load of the
    hardware register, and the TLB itself, which may at any time take in an entry
    of the address space that the register selects. *)

From stdpp Require Import functions.
From S2P Require Import Prelude Bitmap.

(** The parameters of the template [Asid_alloc_t]: the width of [ASID_TYPE], and
    [ASID_BITS], [ASID_BASE] and the result of [ASID_NUM]. *)
Class Asid_params `{Arch} := {
  W : Z;
  ASID_BITS : Z;
  Asid_base : Z;
  asid_num : Z;
  W_ok : W = MWORD_BITS \/ W = 64;
  ASID_BITS_ok : 0 < ASID_BITS < 32;
  Asid_base_ok : 0 <= Asid_base;
  asid_num_ok : asid_num <= 2 ^ ASID_BITS }.

(** * [Asid_t] *)
Module Asid_t.
Section asid.
Context `{Asid_params}.

Definition Generation_inc : Z := 2 ^ ASID_BITS.
Definition Mask : Z := Generation_inc - 1.
Definition Invalid : Z := 2 ^ W - 1.

Definition is_valid (a : Z) : bool :=
  if W =? MWORD_BITS then negb (a =? Invalid)
  else negb ((wrap 32 (a >> 32) .& wrap 32 a) =? 2 ^ 32 - 1).

Definition is_invalid_generation (a : Z) : bool := a =? (Invalid .& Z.lnot Mask).
Definition asid (a : Z) : Z := a .& Mask.
Definition is_same_generation (a generation : Z) : bool := (a .& Z.lnot Mask) =? generation.
Definition add (a b : Z) : Z := wrap W (a + b).
End asid.
End Asid_t.
Import Asid_t.

(** The CPUs of the machine and the mask of those that are online. *)
Class Cpus (N : Type) `{Bit_set N} := {
  max_num_cpus : Z;
  online_mask : N;
  max_num_cpus_ok : max_num_cpus <= bs_size;
  online_mask_ok : bs_ok online_mask }.

Section allocator.
Context `{Asid_params}.
(** [M] is the bitmap of identifiers, [N] the masks of CPUs. *)
Context {M N : Type} {BM : Bit_set M} {BN : Bit_set N} `{!Cpus N}.

Definition cpu_online (c : Z) : bool := bs_get online_mask c.

(** [for (cpu = first; cpu < max_num_cpus; ++cpu)] *)
Definition cpu_numbers : list Z := seqZ 0 max_num_cpus.

(** * [Asid_bitmap_t] *)

Fixpoint find_from (fuel : nat) (b : M) (i : Z) : Z :=
  match fuel with
  | O => asid_num
  | S f => if i <? asid_num
           then if bs_get b i then find_from f b (i + 1) else i
           else asid_num
  end.

(** The identifier, or [asid_num], and the new [_current_idx]. *)
Definition find_next (b : M) (current_idx : Z) : Z * Z :=
  let i := find_from (Z.to_nat (asid_num - current_idx)) b current_idx in
  if i <? asid_num then (i, i + 1) else (asid_num, current_idx).

(** * The section under the lock *)

(** Where a CPU is in [Mem_space_arm_asid::asid], called by [make_current] for
    the address space [s]. *)
Inductive pc_t :=
  | Idle                          (** not in [make_current] *)
  | Load (s : Z)                  (** before [Asid a = *asid] *)
  | Check (s a : Z)               (** before [can_use_asid] *)
  | Exchange (s a : Z)            (** before [set_active_asid] *)
  | Acquire (s : Z) (lost : bool) (** before the lock; [lost]: [set_active_asid] failed *)
  | Locked (s : Z) (lost : bool)  (** has the lock *)
  | Roll (s : Z) (lost : bool) (todo : list Z) (** in the loop of [roll_over] *)
  | Store (s : Z) (lost : bool) (a : Z)        (** before [*active_asid = a] *)
  | Flush (s : Z)                 (** before [tlb_flush] *)
  | Reload (s : Z)                (** before [_asid.load()] *)
  | Write (s n : Z).              (** before the load of the register *)

Record sys := mk {
  gen : Z;                        (** [_gen] *)
  space : Z -> Z;                 (** [_asid] of each address space *)
  lock : option Z;                (** [_lock]: the CPU that has it *)
  active : Z -> Z;                (** per CPU *)
  reserved : Z -> Z;              (** per CPU *)
  pending : N;                    (** [_tlb_flush_pending] *)
  bmap : M;                       (** [_reserved] *)
  idx : Z;                        (** [_reserved._current_idx] *)
  pc : Z -> pc_t;
  hw : Z -> option (Z * Z);       (** identifier and address space of the register *)
  tlb : Z -> list (Z * Z) }.      (** entries by identifier, with their address space *)

Definition set_pc (c : Z) (p : pc_t) (s : sys) : sys :=
  mk (gen s) (space s) (lock s) (active s) (reserved s) (pending s) (bmap s) (idx s)
     (<[c := p]> (pc s)) (hw s) (tlb s).
Definition set_space (x a : Z) (s : sys) : sys :=
  mk (gen s) (<[x := a]> (space s)) (lock s) (active s) (reserved s) (pending s) (bmap s) (idx s)
     (pc s) (hw s) (tlb s).
Definition set_lock (l : option Z) (s : sys) : sys :=
  mk (gen s) (space s) l (active s) (reserved s) (pending s) (bmap s) (idx s) (pc s) (hw s) (tlb s).
Definition set_active (c a : Z) (s : sys) : sys :=
  mk (gen s) (space s) (lock s) (<[c := a]> (active s)) (reserved s) (pending s) (bmap s) (idx s)
     (pc s) (hw s) (tlb s).
Definition set_reserved (r : Z -> Z) (s : sys) : sys :=
  mk (gen s) (space s) (lock s) (active s) r (pending s) (bmap s) (idx s) (pc s) (hw s) (tlb s).
Definition set_pending (m : N) (s : sys) : sys :=
  mk (gen s) (space s) (lock s) (active s) (reserved s) m (bmap s) (idx s) (pc s) (hw s) (tlb s).
Definition set_bitmap (b : M) (i : Z) (s : sys) : sys :=
  mk (gen s) (space s) (lock s) (active s) (reserved s) (pending s) b i (pc s) (hw s) (tlb s).
Definition set_gen (g : Z) (s : sys) : sys :=
  mk g (space s) (lock s) (active s) (reserved s) (pending s) (bmap s) (idx s) (pc s) (hw s) (tlb s).
Definition set_hw (c : Z) (r : option (Z * Z)) (s : sys) : sys :=
  mk (gen s) (space s) (lock s) (active s) (reserved s) (pending s) (bmap s) (idx s) (pc s)
     (<[c := r]> (hw s)) (tlb s).
Definition set_tlb (c : Z) (es : list (Z * Z)) (s : sys) : sys :=
  mk (gen s) (space s) (lock s) (active s) (reserved s) (pending s) (bmap s) (idx s) (pc s)
     (hw s) (<[c := es]> (tlb s)).

(** [Asids_per_cpu_t::check_and_update_reserved] on one CPU, and the loop over
    all of them. *)
Definition check_and_update_reserved_cpu (cpu a update : Z) (r : Z -> Z) : bool * (Z -> Z) :=
  if r cpu =? a then (true, <[cpu := update]> r) else (false, r).

Fixpoint check_and_update_reserved (cpus : list Z) (a update : Z) (res : bool) (r : Z -> Z)
    : bool * (Z -> Z) :=
  match cpus with
  | [] => (res, r)
  | cpu :: cpus' =>
      if negb (cpu_online cpu) then check_and_update_reserved cpus' a update res r
      else let '(hit, r') := check_and_update_reserved_cpu cpu a update r in
           check_and_update_reserved cpus' a update (res || hit) r'
  end.

(** [Asid_bitmap_t::reset] *)
Definition bitmap_reset (s : sys) : sys := set_bitmap bs_none Asid_base s.

(** The body of the loop of [roll_over] for one CPU. *)
Definition roll_over_cpu (cpu : Z) (s : sys) : sys :=
  if negb (cpu_online cpu) then s
  else
    let asid := active s cpu in
    let s := set_active cpu Invalid s in
    let '(asid, s) := if is_valid asid
                      then (asid, set_reserved (<[cpu := asid]> (reserved s)) s)
                      else (reserved s cpu, s) in
    if is_valid asid then set_bitmap (bs_set (bmap s) (Asid_t.asid asid)) (idx s) s else s.

(** The next generation, without the one that [Invalid] has. *)
Definition next_generation (generation : Z) : Z :=
  let g := Asid_t.add generation Generation_inc in
  if is_invalid_generation g then Asid_t.add g Generation_inc else g.

(** [new_asid] up to the roll-over, and with it the store to [*asid]; when all
    identifiers are in use it stops where the new generation becomes visible. *)
Definition new_asid (c x : Z) (lost : bool) (s : sys) : sys :=
  let a := space s x in
  let generation := gen s in
  let update := Asid_t.asid a .| generation in
  let '(hit, r) := if is_valid a && bs_get (bmap s) (Asid_t.asid a)
                   then check_and_update_reserved cpu_numbers a update false (reserved s)
                   else (false, reserved s) in
  let s := set_reserved r s in
  if hit then set_pc c (Store x lost update) (set_space x update s)
  else
    let '(n, i) := find_next (bmap s) (idx s) in
    let s := set_bitmap (bmap s) i s in
    if n =? asid_num
    then set_pc c (Roll x lost cpu_numbers) (bitmap_reset (set_gen (next_generation generation) s))
    else set_pc c (Store x lost (n .| generation)) (set_space x (n .| generation) s).

(** The end of [roll_over] and of [new_asid]. *)
Definition finish_roll_over (c x : Z) (lost : bool) (s : sys) : sys :=
  let s := set_pending online_mask s in
  let '(n, i) := find_next (bmap s) (idx s) in
  let s := set_bitmap (bmap s) i s in
  set_pc c (Store x lost (n .| gen s)) (set_space x (n .| gen s) s).

(** [alloc_asid] once it has the lock. *)
Definition alloc_locked (c x : Z) (lost : bool) (s : sys) : sys :=
  if negb (is_same_generation (space s x) (gen s)) then new_asid c x lost s
  else set_pc c (Store x lost (space s x)) s.

(** The end of [alloc_asid]: the active identifier, the pending flush, the lock. *)
Definition alloc_store (c x a : Z) (s : sys) : sys :=
  let s := set_active c a s in
  let flush := bs_get (pending s) c in
  let s := set_lock None (set_pending (bs_clear (pending s) c) s) in
  set_pc c (if flush then Flush x else Reload x) s.

(** * Steps *)

(** A step of one CPU from where it is.  [None]: it waits for the lock. *)
Definition run (c : Z) (s : sys) : option sys :=
  match pc s c with
  | Idle => None
  | Load x => Some (set_pc c (Check x (space s x)) s)
  | Check x a =>
      Some (set_pc c (if is_same_generation a (gen s) then Exchange x a else Acquire x false) s)
  | Exchange x a =>
      let old := active s c in
      Some (set_pc c (if is_valid old then Reload x else Acquire x true) (set_active c a s))
  | Acquire x lost =>
      match lock s with
      | None => Some (set_pc c (Locked x lost) (set_lock (Some c) s))
      | Some _ => None
      end
  | Locked x lost => Some (alloc_locked c x lost s)
  | Roll x lost (cpu :: todo) => Some (set_pc c (Roll x lost todo) (roll_over_cpu cpu s))
  | Roll x lost [] => Some (finish_roll_over c x lost s)
  | Store x _ a => Some (alloc_store c x a s)
  | Flush x => Some (set_pc c (Reload x) (set_tlb c [] s))
  | Reload x => Some (set_pc c (Write x (Asid_t.asid (space s x))) s)
  | Write x n => Some (set_pc c Idle (set_hw c (Some (n, x)) s))
  end.

(** The CPUs that run. *)
Definition is_online (c : Z) : bool := cpu_online c && (0 <=? c) && (c <? max_num_cpus).

Inductive label :=
  | Call (c x : Z)    (** CPU [c] starts to make [x] its address space *)
  | Run (c : Z)       (** the next access of [c] *)
  | Fill (c : Z).     (** the TLB of [c] takes in an entry *)

Definition step (l : label) (s : sys) : option sys :=
  match l with
  | Call c x =>
      match pc s c with
      | Idle => if is_online c then Some (set_pc c (Load x) s) else None
      | _ => None
      end
  | Run c => run c s
  | Fill c =>
      match hw s c with
      | Some e => if is_online c then Some (set_tlb c (e :: tlb s c) s) else None
      | None => None
      end
  end.

(** The state after boot: no address space has an identifier. *)
Definition start : sys :=
  mk Generation_inc (fun _ => Invalid) None (fun _ => Invalid) (fun _ => Invalid)
     bs_none bs_none Asid_base (fun _ => Idle) (fun _ => None) (fun _ => []).

Fixpoint runs (ls : list label) (s : sys) : option sys :=
  match ls with
  | [] => Some s
  | l :: ls' => match step l s with Some s' => runs ls' s' | None => None end
  end.

End allocator.
