(* ===== verification/AsidInv.v ===== *)
(** The invariant of the allocator of address-space identifiers ([Asid]): what
    the shared words say about each other, and what a CPU can rely on at each
    point of its way. *)

From stdpp Require Import functions.
From S2P Require Import Prelude Bitmap Asid.
Import Asid_t.

(** * Words of a generation and an identifier *)

Section words.
Context `{Asid_params}.

Definition gof (a : Z) : Z := a .& Z.lnot Mask.
Abbreviation num := Asid_t.asid.
Abbreviation inc := Generation_inc.

(** A generation that is not the last one. *)
Definition gen_word (g : Z) : Prop := inc <= g <= 2 ^ W - 2 * inc /\ g mod inc = 0.

Lemma inc_pos : 0 < inc.
Proof. apply pow2_pos. pose proof ASID_BITS_ok. lia. Qed.

Lemma mask_ones : Mask = Z.ones ASID_BITS.
Proof. unfold Mask, inc. rewrite Z.ones_equiv. lia. Qed.

Lemma num_mod a : num a = a mod inc.
Proof. unfold num. rewrite mask_ones, Z.land_ones; [done | pose proof ASID_BITS_ok; lia]. Qed.

Lemma gof_mod a : gof a = a - a mod inc.
Proof.
  unfold gof. pose proof ASID_BITS_ok as Hb. rewrite <- Z.ldiff_land, mask_ones, Z.ldiff_ones_r by lia.
  rewrite Z.shiftl_mul_pow2, Z.shiftr_div_pow2 by lia.
  pose proof (Z.div_mod a inc). pose proof inc_pos. unfold inc in *. lia.
Qed.

Lemma num_range a : 0 <= num a < inc.
Proof. rewrite num_mod. apply Z.mod_pos_bound, inc_pos. Qed.

Lemma word_eq a b : num a = num b -> gof a = gof b -> a = b.
Proof. rewrite !num_mod, !gof_mod. lia. Qed.

Lemma pack_add n g : 0 <= n < inc -> g mod inc = 0 -> n .| g = n + g.
Proof.
  intros Hn Hg. pose proof ASID_BITS_ok. rewrite <- Z.add_lor_land.
  assert (n .& g = 0) as ->; [| lia].
  apply Z.bits_inj'. intros i Hi. rewrite Z.land_spec, Z.bits_0.
  destruct (Z.ltb_spec i ASID_BITS) as [Hlt | Hge].
  - rewrite <- (Z.mod_pow2_bits_low g ASID_BITS i) by lia.
    unfold inc in Hg. rewrite Hg, Z.bits_0. apply andb_false_r.
  - rewrite (testbit_high ASID_BITS n i); [done | exact Hn | lia].
Qed.

Lemma num_pack n g : 0 <= n < inc -> g mod inc = 0 -> num (n .| g) = n.
Proof.
  intros Hn Hg. rewrite pack_add, num_mod by done.
  rewrite Z.add_mod, Hg, Z.add_0_r, Z.mod_mod by lia. apply Z.mod_small, Hn.
Qed.

Lemma gof_pack n g : 0 <= n < inc -> g mod inc = 0 -> gof (n .| g) = g.
Proof.
  intros Hn Hg. rewrite gof_mod, <- num_mod, num_pack, pack_add by done. lia.
Qed.

Lemma W_range : 32 <= W.
Proof. destruct W_ok as [-> | ->]; [apply arch_ge32 | lia]. Qed.

Lemma inc_lt : 2 * inc <= 2 ^ W.
Proof.
  pose proof W_range. pose proof ASID_BITS_ok. unfold inc.
  replace (2 * 2 ^ ASID_BITS) with (2 ^ (1 + ASID_BITS)) by (rewrite Z.pow_add_r by lia; lia).
  apply Z.pow_le_mono_r; lia.
Qed.

Lemma same_generation_spec a g : is_same_generation a g = true <-> gof a = g.
Proof. unfold is_same_generation, gof. apply Z.eqb_eq. Qed.

Lemma land_ones_full x y : in_range 32 x -> in_range 32 y -> x .& y = 2 ^ 32 - 1 -> x = 2 ^ 32 - 1 /\ y = 2 ^ 32 - 1.
Proof.
  intros Hx Hy Hxy.
  assert (forall z, in_range 32 z -> (forall i, 0 <= i < 32 -> Z.testbit z i = true) -> z = 2 ^ 32 - 1) as Hall.
  { intros z Hz Hb. change (2 ^ 32 - 1) with (Z.ones 32). apply Z.bits_inj'. intros i Hi.
    rewrite Z.testbit_ones_nonneg by lia. destruct (Z.ltb_spec i 32); [apply Hb; lia |].
    by apply (testbit_high 32). }
  assert (forall i, 0 <= i < 32 -> Z.testbit x i && Z.testbit y i = true) as Hb.
  { intros i Hi. rewrite <- Z.land_spec, Hxy. change (2 ^ 32 - 1) with (Z.ones 32).
    rewrite Z.testbit_ones_nonneg by lia. apply Z.ltb_lt; lia. }
  split; (apply Hall; [assumption | intros i Hi; destruct (andb_prop _ _ (Hb i Hi)); assumption]).
Qed.

(** Both forms of the test mean the same. *)
Lemma is_valid_spec a : in_range W a -> is_valid a = negb (a =? Invalid).
Proof.
  intros Ha. unfold is_valid. destruct (Z.eqb_spec W MWORD_BITS) as [| Hne]; [done |].
  destruct W_ok as [? | HW]; [done |]. unfold Invalid. rewrite HW in *. f_equal.
  assert (in_range 32 (a >> 32)) as Hhi.
  { unfold in_range in *. rewrite Z.shiftr_div_pow2 by lia. split; [apply Z.div_pos; lia |].
    apply Z.div_lt_upper_bound; lia. }
  rewrite (wrap_small 32 (a >> 32)) by done.
  assert (in_range 32 (wrap 32 a)) as Hlo by (apply wrap_range; lia).
  assert (a = 2 ^ 32 * (a >> 32) + wrap 32 a) as Hsum.
  { unfold wrap. rewrite Z.shiftr_div_pow2 by lia. apply Z.div_mod. lia. }
  apply eq_true_iff_eq. rewrite !Z.eqb_eq. split.
  - intros Heq. destruct (land_ones_full _ _ Hhi Hlo Heq) as [H1 H2]. lia.
  - intros ->. vm_compute. done.
Qed.

Lemma invalid_not_valid : is_valid Invalid = false.
Proof.
  rewrite is_valid_spec; [by rewrite Z.eqb_refl |].
  pose proof W_range. pose proof (pow2_pos W). unfold in_range, Invalid. lia.
Qed.

Lemma pack_valid n g : 0 <= n < inc -> gen_word g -> is_valid (n .| g) = true.
Proof.
  intros Hn [Hg Hm]. pose proof inc_pos. rewrite pack_add by done.
  rewrite is_valid_spec; unfold in_range, Invalid; [| lia].
  apply negb_true_iff, Z.eqb_neq. lia.
Qed.

Lemma gof_invalid g : gen_word g -> gof Invalid <> g.
Proof.
  intros [Hg Hm] E. apply (f_equal (fun g => num Invalid + g)) in E.
  rewrite num_mod, gof_mod in E. unfold Invalid in *.
  pose proof (Z.mod_pos_bound (2 ^ W - 1) inc inc_pos). lia.
Qed.

(** The generation after one that is followed by a valid one. *)
Lemma next_generation_add g :
  gen_word g -> g + inc <= 2 ^ W - 2 * inc -> next_generation g = g + inc /\ gen_word (g + inc).
Proof.
  intros [Hg Hm] Hle. pose proof inc_pos. unfold next_generation, Asid_t.add.
  rewrite wrap_small by (unfold in_range; lia). assert (gen_word (g + inc)) as Hgw.
  { split; [lia |]. rewrite Z.add_mod, Hm, Z.mod_same, Z.mod_0_l by lia. done. }
  split; [| done]. unfold is_invalid_generation. fold (gof Invalid).
  destruct (Z.eqb_spec (g + inc) (gof Invalid)) as [E |]; [| done]. by apply gof_invalid in Hgw.
Qed.
End words.

(** * The invariant *)

Section invariant.
Context `{Asid_params}.
Context {M N : Type} {BM : Bit_set M} {BN : Bit_set N} `{!Cpus N}.
Abbreviation num := Asid_t.asid.
Abbreviation inc := Generation_inc.
Abbreviation sys := (sys (M := M) (N := N)).

Definition online (c : Z) : Prop := cpu_online c = true /\ 0 <= c < max_num_cpus.

Lemma online_numbers c : online c -> c ∈ cpu_numbers.
Proof. intros [_ Hc]. unfold cpu_numbers. apply elem_of_seqZ. lia. Qed.

(** The CPUs that a roll-over has still to pass. *)
Definition todo_ok (todo : list Z) : Prop := NoDup todo /\ todo ⊆ cpu_numbers.

(** What all CPUs share. *)
Record view := mk_view {
  v_space : Z -> Z;
  v_gen : Z;
  v_rolling : bool;
  v_res : Z -> Z;
  v_bm : Z -> bool;
  v_idx : Z }.

(** The generation in which identifiers were handed out: during a roll-over the
    one that ends. *)
Definition ag (v : view) : Z := if v_rolling v then v_gen v - inc else v_gen v.

(** What belongs to one CPU; [o_done]: the roll-over under way has passed it. *)
Record own := mk_own {
  o_active : Z;
  o_res : Z;
  o_done : bool;
  o_pending : bool;
  o_hw : option (Z * Z);
  o_tlb : list (Z * Z) }.

Record View_ok (v : view) (done : Z -> bool) : Prop := {
  vo_gen : gen_word (v_gen v);
  vo_ag : gen_word (ag v);
  vo_range x : is_valid (v_space v x) = true ->
    0 <= num (v_space v x) < asid_num /\ gof (v_space v x) <= ag v;
  vo_uniq x y : is_valid (v_space v x) = true -> v_space v x = v_space v y -> x = y;
  (** identifiers of this generation are used up or reserved *)
  vo_alloc x : v_rolling v = false -> is_valid (v_space v x) = true -> gof (v_space v x) = ag v ->
    num (v_space v x) < v_idx v \/ v_bm v (num (v_space v x)) = true;
  vo_bit d : online d -> (v_rolling v = true -> done d = true) -> is_valid (v_res v d) = true ->
    v_bm v (num (v_res v d)) = true;
  vo_few n : v_rolling v = true -> 0 <= n < inc -> v_bm v n = true ->
    exists d, online d /\ done d = true /\ is_valid (v_res v d) = true /\ num (v_res v d) = n;
  vo_base : 0 <= v_idx v /\ (v_rolling v = true -> v_idx v = Asid_base);
  (** reserved identifiers are those of one address space each *)
  vo_res d e : online d -> online e -> is_valid (v_res v d) = true -> is_valid (v_res v e) = true ->
    num (v_res v d) = num (v_res v e) -> v_res v d = v_res v e;
  vo_own x d : online d -> is_valid (v_space v x) = true -> gof (v_space v x) = ag v ->
    is_valid (v_res v d) = true -> num (v_res v d) = num (v_space v x) -> v_res v d = v_space v x }.

(** No address space but [x] has the identifier [n] or can get it in this
    generation. *)
Record ok (v : view) (n x : Z) : Prop := {
  ok_space y : is_valid (v_space v y) = true -> gof (v_space v y) = ag v -> num (v_space v y) = n -> y = x;
  ok_res y d : online d -> is_valid (v_space v y) = true -> v_res v d = v_space v y ->
    num (v_space v y) = n -> y = x;
  ok_used : v_rolling v = false -> n < v_idx v \/ v_bm v n = true }.

Definition lost (p : pc_t) : bool :=
  match p with Acquire _ l | Locked _ l | Roll _ l _ | Store _ l _ => l | _ => false end.

Definition in_lock (p : pc_t) : bool :=
  match p with Locked _ _ | Roll _ _ _ | Store _ _ _ => true | _ => false end.

(** The address space a CPU is about to run. *)
Definition target (p : pc_t) : option Z :=
  match p with Flush x | Reload x | Write x _ => Some x | _ => None end.

Definition flushing (p : pc_t) : bool := match p with Flush _ => true | _ => false end.

(** What a roll-over takes over from the CPU. *)
Definition keep (o : own) (p : pc_t) : Z :=
  if o_done o || lost p || negb (is_valid (o_active o)) then o_res o else o_active o.

(** The CPU has to flush its TLB before it uses another identifier. *)
Definition behind (o : own) : bool := o_done o || o_pending o.

Definition pc_ok (v : view) (o : own) (p : pc_t) : Prop :=
  match p with
  | Check x a => v_space v x = a \/ gof a < v_gen v \/ is_valid a = false
  | Exchange x a =>
      is_valid (o_active o) = true -> o_done o = false ->
      is_valid a = true /\ gof a = ag v /\ v_space v x = a
  | Roll x _ todo =>
      todo_ok todo /\ (is_valid (v_space v x) = true -> gof (v_space v x) <> ag v) /\
      forall d, online d -> is_valid (v_res v d) = true -> v_res v d <> v_space v x
  | Store x _ a => v_space v x = a /\ gof a = ag v /\ is_valid a = true
  | Flush x | Reload x => is_valid (keep o p) = true /\ keep o p = v_space v x
  | Write x n => is_valid (keep o p) = true /\ keep o p = v_space v x /\ num (v_space v x) = n
  | _ => True
  end.

Record Loc (v : view) (o : own) (p : pc_t) : Prop := {
  l_active : lost p = false -> o_done o = false -> is_valid (o_active o) = true ->
    gof (o_active o) = ag v /\ exists x, v_space v x = o_active o;
  l_behind : behind o = true -> lost p = true \/ is_valid (o_active o) = false;
  l_pc : pc_ok v o p;
  (** what the CPU runs is what a roll-over would take over *)
  l_hw n x : target p = None -> o_hw o = Some (n, x) ->
    is_valid (keep o p) = true /\ v_space v x = keep o p /\ num (keep o p) = n;
  l_hw_ok n x : target p <> None -> behind o = false -> o_hw o = Some (n, x) -> ok v n x;
  l_safe n x y : o_hw o = Some (n, x) -> (n, y) ∈ o_tlb o -> y = x;
  l_clean n y : behind o = false -> flushing p = false -> (n, y) ∈ o_tlb o -> ok v n y;
  l_t_hw x n y : target p = Some x -> o_hw o = Some (n, y) -> num (v_space v x) = n -> y = x;
  l_t_tlb x n y : target p = Some x -> flushing p = false -> (n, y) ∈ o_tlb o ->
    num (v_space v x) = n -> y = x }.

(** The CPUs that the roll-over under way has still to pass. *)
Definition todo_of (s : sys) : option (list Z) :=
  match lock s with
  | Some h => match pc s h with Roll _ _ todo => Some todo | _ => None end
  | None => None
  end.

Definition done_in (t : option (list Z)) (d : Z) : bool :=
  match t with Some todo => negb (bool_decide (d ∈ todo)) | None => false end.

Definition view_of (s : sys) : view :=
  mk_view (space s) (gen s) (bool_decide (is_Some (todo_of s))) (reserved s) (bs_get (bmap s)) (idx s).

Definition own_of (s : sys) (d : Z) : own :=
  mk_own (active s d) (reserved s d) (done_in (todo_of s) d) (bs_get (pending s) d) (hw s d) (tlb s d).

Record Inv (s : sys) : Prop := {
  i_bitmap : bs_ok (bmap s);
  i_pending : bs_ok (pending s);
  i_lock d : in_lock (pc s d) = true <-> lock s = Some d;
  i_online d : pc s d <> Idle -> online d;
  i_view : View_ok (view_of s) (done_in (todo_of s));
  i_loc d : online d -> Loc (view_of s) (own_of s d) (pc s d) }.

(** No roll-over takes over the active word of a CPU that has exchanged it in
    vain, and the generations do not wrap around. *)
Definition orderly (l : label) (s : sys) : Prop :=
  match l with
  | Run c =>
      match pc s c with
      | Locked _ _ => gen s + inc <= 2 ^ W - 2 * inc
      | Roll _ _ (d :: _) => lost (pc s d) = false
      | _ => True
      end
  | _ => True
  end.
End invariant.
