(* ===== verification/AsidSteps.v ===== *)
(** The steps of the allocator of address-space identifiers keep the invariant
    of [AsidInv].  The changes of what all CPUs share come first (an identifier
    is taken over or fresh, a roll-over starts, passes a CPU, ends), then the
    steps. *)

From stdpp Require Import functions.
From S2P Require Import Prelude Bitmap Asid AsidInv.
Import Asid_t.

Section shared.
Context `{Asid_params}.
Context {M N : Type} {BM : Bit_set M} {BN : Bit_set N} `{!Cpus N}.
Abbreviation num := Asid_t.asid.
Abbreviation inc := Generation_inc.

Lemma gof_valid a g : gen_word g -> gof a = g -> is_valid a = true.
Proof.
  intros Hg Ha. rewrite <- (pack_valid (num a) g (num_range a) Hg).
  destruct Hg as [_ Hm]. f_equal. apply word_eq.
  - by rewrite num_pack by (done || apply num_range).
  - by rewrite gof_pack by (done || apply num_range).
Qed.

(** * Holding an identifier *)

(** The address space [x] has its identifier in this generation, or a CPU keeps
    it reserved. *)
Definition holds (v : view) (x : Z) : Prop :=
  is_valid (v_space v x) = true /\
  (gof (v_space v x) = ag v \/ exists d, online d /\ (v_rolling v = false -> v_bm v (num (v_space v x)) = true)
     /\ v_res v d = v_space v x).

Lemma holds_ok v done x : View_ok v done -> holds v x -> ok v (num (v_space v x)) x.
Proof.
  intros V [Hv Hh]. split.
  - intros y Hy Hg Hn. symmetry. apply (vo_uniq _ _ V); [done |].
    destruct Hh as [Hgx | (d & Hd & _ & Hr)].
    + apply word_eq; congruence.
    + rewrite <- Hr. apply (vo_own _ _ V y d); congruence.
  - intros y d Hd Hy Hr Hn. symmetry. apply (vo_uniq _ _ V); [done |]. rewrite <- Hr.
    destruct Hh as [Hgx | (e & He & _ & Hre)].
    + symmetry. apply (vo_own _ _ V x d); congruence.
    + rewrite <- Hre. apply (vo_res _ _ V e d); congruence.
  - intros Hroll. destruct Hh as [Hgx | (d & _ & Hb & _)]; [by apply (vo_alloc _ _ V) | auto].
Qed.

Lemma ok_holds v n x y : ok v n y -> holds v x -> num (v_space v x) = n -> x = y.
Proof.
  intros O [Hv [Hg | (d & Hd & _ & Hr)]] Hn; [by apply (ok_space _ _ _ O) | by apply (ok_res _ _ _ O x d)].
Qed.

Lemma keep_holds v done o p d x :
  View_ok v done -> Loc v o p -> online d -> o_res o = v_res v d ->
  is_valid (keep o p) = true -> v_space v x = keep o p -> holds v x.
Proof.
  intros V L Hd Hr Hk Hx. unfold holds. rewrite Hx. split; [done |]. unfold keep in *.
  destruct (o_done o) eqn:Ed; simpl in *; [right | destruct (lost p) eqn:El; simpl in *; [right |
    destruct (is_valid (o_active o)) eqn:Ea; simpl in *; [left | right]]].
  2, 4, 1: exists d; split_and!; [done | | by rewrite Hr];
    intros Hroll; rewrite Hr in *; by apply (vo_bit _ _ V); [| rewrite Hroll |].
  by apply (l_active _ _ _ L).
Qed.

Lemma hw_ok v done o p d n x :
  View_ok v done -> Loc v o p -> online d -> o_res o = v_res v d ->
  target p = None -> o_hw o = Some (n, x) -> ok v n x.
Proof.
  intros V L Hd Hr Ht Hw. destruct (l_hw _ _ _ L n x Ht Hw) as (Hk & Hx & <-). rewrite <- Hx.
  eapply holds_ok, keep_holds; done.
Qed.

(** * A step that changes only the program counter of a CPU that does not switch *)

Lemma loc_pc v o p p' :
  Loc v o p -> lost p' = lost p -> target p = None -> target p' = None -> pc_ok v o p' -> Loc v o p'.
Proof.
  intros L Hl Ht Ht' Hp.
  assert (flushing p = false) as Hf by (by destruct p).
  assert (flushing p' = false) as Hf' by (by destruct p').
  assert (keep o p' = keep o p) as Hk by (unfold keep; by rewrite Hl).
  destruct L. split; rewrite ?Hl, ?Hk, ?Ht', ?Hf'; auto; try done.
Qed.

(** * An identifier is taken over *)

Section renew.
Context (v v' : view) (done : Z -> bool) (a a' : Z).
Let f (w : Z) : Z := if w =? a then a' else w.
Hypothesis V : View_ok v done.
Hypothesis Hroll : v_rolling v = false.
Hypothesis Hva : is_valid a = true.
Hypothesis Hga : gof a <> ag v.
Hypothesis Ha' : gof a' = ag v.
Hypothesis Hn : num a' = num a.
Hypothesis Hres : exists d, online d /\ v_res v d = a.
Hypothesis Hspace' : forall y, v_space v' y = f (v_space v y).
Hypothesis Hres' : forall d, online d -> v_res v' d = f (v_res v d).
Hypothesis Hgen' : v_gen v' = v_gen v.
Hypothesis Hroll' : v_rolling v' = false.
Hypothesis Hbm' : v_bm v' = v_bm v.
Hypothesis Hidx' : v_idx v' = v_idx v.

Lemma renew_ag : ag v' = ag v.
Proof. unfold ag. by rewrite Hroll, Hroll', Hgen'. Qed.

Lemma renew_valid' : is_valid a' = true.
Proof. eapply gof_valid; [| exact Ha']. apply (vo_ag _ _ V). Qed.

Lemma f_valid w : is_valid (f w) = is_valid w.
Proof. unfold f. destruct (Z.eqb_spec w a) as [-> |]; [by rewrite renew_valid' | done]. Qed.

Lemma f_num w : num (f w) = num w.
Proof. unfold f. destruct (Z.eqb_spec w a) as [-> |]; done. Qed.

(** The words that the renaming must not confuse with the new one. *)
Definition known (w : Z) : Prop := (exists y, v_space v y = w) \/ (exists d, online d /\ v_res v d = w).

Lemma known_new w : known w -> is_valid w = true -> w <> a'.
Proof.
  destruct Hres as (d & Hd & Hr). intros [[y Hy] | (e & He & Hre)] Hw ->.
  - apply Hga. rewrite <- Hr, (vo_own _ _ V y d); rewrite ?Hr, ?Hy; congruence.
  - apply Hga. rewrite <- Hr, (vo_res _ _ V d e); rewrite ?Hr, ?Hre; congruence.
Qed.

Lemma f_inj w u : known w -> known u -> is_valid w = true -> f w = f u -> w = u.
Proof.
  intros Hw Hu Hv E. pose proof (f_valid w) as Ew. pose proof (f_valid u) as Eu.
  rewrite E in Ew. assert (is_valid u = true) as Hvu by congruence. unfold f in E.
  destruct (Z.eqb_spec w a), (Z.eqb_spec u a); try congruence.
  - symmetry in E. by apply known_new in Hu.
  - by apply known_new in Hw.
Qed.

Lemma f_gof w : gof (f w) = ag v -> w = a \/ gof w = ag v.
Proof. unfold f. destruct (Z.eqb_spec w a); auto. Qed.

Lemma f_le w : is_valid w = true -> gof w <= ag v -> gof (f w) <= ag v.
Proof. unfold f. destruct (Z.eqb_spec w a) as [-> |]; [rewrite Ha'; lia | done]. Qed.

Lemma known_space y : known (v_space v y). Proof. left; eauto. Qed.
Lemma known_res d : online d -> known (v_res v d). Proof. right; eauto. Qed.
Hint Resolve known_space known_res : core.

Lemma view_renew done' : View_ok v' done'.
Proof.
  destruct Hres as (d0 & Hd0 & Hr0).
  split; try rewrite renew_ag; rewrite ?Hgen', ?Hidx'.
  - apply V.
  - apply (vo_ag _ _ V).
  - intros x. rewrite Hspace', f_valid, f_num. intros Hv. destruct (vo_range _ _ V x Hv).
    split; [done | by apply f_le].
  - intros x y. rewrite !Hspace', f_valid. intros Hv E. apply (vo_uniq _ _ V); [done |].
    apply f_inj; auto.
  - intros x _. rewrite Hspace', f_valid, f_num, Hbm'. intros Hv [Hx | Hg]%f_gof; [| by apply (vo_alloc _ _ V)].
    right. rewrite Hx, <- Hr0. apply (vo_bit _ _ V); [done | by rewrite Hroll | congruence].
  - intros d Hd _. rewrite Hres', f_valid, f_num, Hbm' by done. intros Hv.
    apply (vo_bit _ _ V); [done | by rewrite Hroll | done].
  - by rewrite Hroll'.
  - rewrite Hroll'. split; [apply (vo_base _ _ V) | done].
  - intros d e Hd He. rewrite !Hres', !f_valid, !f_num by done. intros Hv Hve E.
    f_equal. by apply (vo_res _ _ V).
  - intros x d Hd. rewrite Hspace', Hres', !f_valid, !f_num by done. intros Hv [Hx | Hg]%f_gof Hvd E.
    + f_equal. rewrite Hx, <- Hr0. apply (vo_res _ _ V); [done.. | congruence | by rewrite Hr0, <- Hx].
    + f_equal. by apply (vo_own _ _ V).
Qed.

Lemma ok_renew n y : ok v n y -> ok v' n y.
Proof.
  destruct Hres as (d0 & Hd0 & Hr0). intros O. split; rewrite ?Hidx', ?Hbm'.
  - intros x. rewrite renew_ag, Hspace', f_valid, f_num. intros Hv [Hx | Hg]%f_gof Hx';
      [apply (ok_res _ _ _ O x d0); congruence | by apply (ok_space _ _ _ O)].
  - intros x d Hd. rewrite Hspace', Hres', f_valid, f_num by done. intros Hv E Hx.
    apply (ok_res _ _ _ O x d); try done. apply f_inj; auto.
    rewrite <- (f_valid (v_res v d)), E, f_valid. done.
  - intros _. by apply (ok_used _ _ _ O).
Qed.

Definition own_renew (o : own) : own :=
  mk_own (o_active o) (f (o_res o)) (o_done o) (o_pending o) (o_hw o) (o_tlb o).

Lemma keep_renew o p : Loc v o p -> o_done o = false -> keep (own_renew o) p = f (keep o p).
Proof.
  intros L Hd. unfold keep, own_renew. simpl. rewrite Hd. simpl.
  destruct (lost p) eqn:El; simpl; [done |]. destruct (is_valid (o_active o)) eqn:Ea; [simpl | done].
  unfold f. destruct (Z.eqb_spec (o_active o) a) as [E |]; [| done].
  destruct (l_active _ _ _ L El Hd Ea) as [Hg _]. congruence.
Qed.

Lemma loc_renew d o p :
  online d -> Loc v o p -> o_res o = v_res v d -> o_done o = false ->
  (forall x l t, p <> Roll x l t) -> (forall x l b, p <> Store x l b) -> Loc v' (own_renew o) p.
Proof.
  intros Hd L Hr Hdone Hnr Hns. pose proof (keep_renew o p L Hdone) as Hk.
  assert (forall b, is_valid b = true -> gof b = ag v -> f b = b) as Hcur.
  { intros b _ Hb. unfold f. destruct (Z.eqb_spec b a); congruence. }
  split; rewrite ?renew_ag.
  - intros Hl _ Ha. destruct (l_active _ _ _ L Hl Hdone Ha) as [Hg [x Hx]]. split; [done |].
    exists x. rewrite Hspace', Hx. by apply Hcur.
  - apply (l_behind _ _ _ L).
  - pose proof (l_pc _ _ _ L) as Hp. destruct p; simpl in *; try done.
    + rewrite Hspace', Hgen'. unfold f. destruct Hp as [Hp | Hp]; [| by auto].
      rewrite Hp. destruct (Z.eqb_spec a0 a) as [-> |]; [| by auto].
      right; left. assert (gof a <= ag v) as Hle.
      { rewrite <- Hp. apply (vo_range _ _ V). by rewrite Hp. }
      unfold ag in *. rewrite Hroll in *. lia.
    + intros Ha _. destruct (Hp Ha Hdone) as (Hv & Hg & Hx). rewrite renew_ag, Hspace', Hx.
      split_and!; [done.. | by apply Hcur].
    + by edestruct Hnr.
    + by edestruct Hns.
    + destruct Hp as [? Hx]. by rewrite Hk, f_valid, Hspace', <- Hx.
    + destruct Hp as [? Hx]. by rewrite Hk, f_valid, Hspace', <- Hx.
    + destruct Hp as (? & Hx & ?). rewrite Hk, f_valid, Hspace', f_num. by rewrite <- Hx in *.
  - intros n x Ht Hw. destruct (l_hw _ _ _ L n x Ht Hw) as (? & Hx & ?).
    by rewrite Hk, f_valid, Hspace', f_num, Hx.
  - intros n x Ht Hb Hw. by apply ok_renew, (l_hw_ok _ _ _ L).
  - apply (l_safe _ _ _ L).
  - intros n y Hb Hf Hy. by apply ok_renew, (l_clean _ _ _ L).
  - intros x n y. rewrite Hspace', f_num. apply (l_t_hw _ _ _ L).
  - intros x n y. rewrite Hspace', f_num. apply (l_t_tlb _ _ _ L).
Qed.
End renew.

(** * A fresh identifier *)

Section fresh.
Context (v v' : view) (done : Z -> bool) (x a' : Z).
Hypothesis V : View_ok v done.
Hypothesis Hroll : v_rolling v = false.
Hypothesis Hold : is_valid (v_space v x) = true -> gof (v_space v x) <> ag v.
Hypothesis Hnone : forall d, online d -> is_valid (v_res v d) = true -> v_res v d <> v_space v x.
Hypothesis Ha' : gof a' = ag v.
Hypothesis Hidx : v_idx v <= num a' < asid_num.
Hypothesis Hfree : v_bm v (num a') = false.
Hypothesis Hspace' : forall y, v_space v' y = if y =? x then a' else v_space v y.
Hypothesis Hres' : forall d, v_res v' d = v_res v d.
Hypothesis Hgen' : v_gen v' = v_gen v.
Hypothesis Hroll' : v_rolling v' = false.
Hypothesis Hbm' : v_bm v' = v_bm v.
Hypothesis Hidx' : v_idx v' = num a' + 1.

Lemma fresh_ag : ag v' = ag v.
Proof. unfold ag. by rewrite Hroll, Hroll', Hgen'. Qed.

Lemma fresh_valid : is_valid a' = true.
Proof. eapply gof_valid; [apply (vo_ag _ _ V) | done]. Qed.

(** Nobody has the fresh identifier or may take it over. *)
Lemma fresh_space y : gof (v_space v y) = ag v -> num (v_space v y) <> num a'.
Proof.
  intros Hg E. destruct (vo_alloc _ _ V y Hroll) as [Hlt | Hb]; [| done | lia | congruence].
  eapply gof_valid; [apply (vo_ag _ _ V) | done].
Qed.

Lemma fresh_res d : online d -> is_valid (v_res v d) = true -> num (v_res v d) <> num a'.
Proof.
  intros Hd Hv E. pose proof (vo_bit _ _ V d Hd) as Hb. rewrite Hroll in Hb.
  specialize (Hb ltac:(done) Hv). congruence.
Qed.

Lemma fresh_keeps y : holds v y -> v_space v' y = v_space v y.
Proof.
  intros [Hv Hh]. rewrite Hspace'. destruct (Z.eqb_spec y x) as [-> |]; [| done].
  destruct Hh as [Hg | (d & Hd & _ & Hr)]; [by apply Hold in Hv |].
  by destruct (Hnone d Hd); [rewrite Hr |].
Qed.

Ltac space_cases := rewrite ?Hspace' in *; repeat match goal with
  | |- context [?y =? x] => destruct (Z.eqb_spec y x) as [-> |]
  | H : context [?y =? x] |- _ => destruct (Z.eqb_spec y x) as [-> |] end.

Lemma view_fresh done' : View_ok v' done'.
Proof.
  split; try rewrite fresh_ag; rewrite ?Hgen'.
  - apply V.
  - apply (vo_ag _ _ V).
  - intros y. space_cases; [| apply V]. intros _. pose proof (num_range a'). rewrite Ha'. lia.
  - intros y z. space_cases; try done; try apply V.
    + intros _ E. exfalso. apply (fresh_space z); by rewrite <- E.
    + intros _ E. exfalso. apply (fresh_space y); by rewrite E.
  - intros y _. space_cases; rewrite Hidx', Hbm'; [lia |]. intros Hv Hg.
    destruct (vo_alloc _ _ V y Hroll Hv Hg); [left; lia | by right].
  - intros d Hd _. rewrite Hres', Hbm'. intros Hv. apply (vo_bit _ _ V); [done | by rewrite Hroll | done].
  - by rewrite Hroll'.
  - rewrite Hroll', Hidx'. pose proof (vo_base _ _ V). split; [lia | done].
  - intros d e. rewrite !Hres'. apply V.
  - intros y d Hd. space_cases; rewrite Hres'; [| by apply V]. intros _ _ Hv E. by apply fresh_res in E.
Qed.

Lemma ok_fresh n y : ok v n y -> ok v' n y.
Proof.
  intros O. split; rewrite ?fresh_ag, ?Hbm', ?Hidx'.
  - intros z. space_cases; [| apply (ok_space _ _ _ O)]. intros _ _ E.
    destruct (ok_used _ _ _ O Hroll); [lia | congruence].
  - intros z d Hd. rewrite Hres'. space_cases; [| by apply (ok_res _ _ _ O)].
    intros Hv E _. exfalso. apply (fresh_res d Hd); by rewrite E.
  - intros _. destruct (ok_used _ _ _ O Hroll); [left; lia | by right].
Qed.

Lemma loc_fresh d o p :
  online d -> Loc v o p -> o_res o = v_res v d ->
  (forall x l t, p <> Roll x l t) -> (forall x l b, p <> Store x l b) -> Loc v' o p.
Proof.
  intros Hd L Hr Hnr Hns.
  assert (forall y, is_valid (keep o p) = true -> v_space v y = keep o p -> v_space v' y = keep o p) as Hkeep.
  { intros y Hv Hy. rewrite <- Hy. eapply fresh_keeps, keep_holds; done. }
  assert (forall y, target p = Some y -> v_space v' y = v_space v y) as Ht.
  { pose proof (l_pc _ _ _ L) as Hp. intros y Hy.
    destruct p; simplify_eq/=; [destruct Hp as [Hv Hp].. | destruct Hp as (Hv & Hp & _)]; rewrite <- Hp; auto. }
  assert (forall y, gof (v_space v y) = ag v -> v_space v' y = v_space v y) as Hcur.
  { intros y Hg. apply fresh_keeps. split; [eapply gof_valid; [apply (vo_ag _ _ V) | done] | by left]. }
  split; rewrite ?fresh_ag.
  - intros Hl Hdn Ha. destruct (l_active _ _ _ L Hl Hdn Ha) as [Hg [z Hz]]. split; [done |].
    exists z. rewrite Hcur; congruence.
  - apply (l_behind _ _ _ L).
  - pose proof (l_pc _ _ _ L) as Hp. destruct p; simpl in *; try done.
    + rewrite Hgen'. destruct Hp as [Hp | Hp]; [| by auto]. space_cases; [| by auto]. right.
      destruct (is_valid a) eqn:Eva; [left | by right]. subst a.
      pose proof (proj2 (vo_range _ _ V x Eva)). specialize (Hold Eva).
      unfold ag in *. rewrite Hroll in *. lia.
    + intros Ha Hdn. destruct (Hp Ha Hdn) as (? & Hg & <-). rewrite fresh_ag. auto.
    + by edestruct Hnr.
    + by edestruct Hns.
    + destruct Hp. by rewrite Ht.
    + destruct Hp. by rewrite Ht.
    + destruct Hp as (? & ? & ?). by rewrite Ht.
  - intros n y Hy Hw. destruct (l_hw _ _ _ L n y Hy Hw) as (? & ? & ?). auto.
  - intros n y Hy Hb Hw. by apply ok_fresh, (l_hw_ok _ _ _ L).
  - apply (l_safe _ _ _ L).
  - intros n y Hb Hf Hy. by apply ok_fresh, (l_clean _ _ _ L).
  - intros y n z Hy. rewrite Ht by done. by apply (l_t_hw _ _ _ L).
  - intros y n z Hy. rewrite Ht by done. by apply (l_t_tlb _ _ _ L).
Qed.
End fresh.

(** * A roll-over *)

(** The roll-over starts: the generation that ends is still the one in which
    identifiers have been handed out. *)
Section start.
Context (v v' : view) (done : Z -> bool).
Hypothesis V : View_ok v done.
Hypothesis Hroll : v_rolling v = false.
Hypothesis Hspace' : v_space v' = v_space v.
Hypothesis Hres' : v_res v' = v_res v.
Hypothesis Hgen' : v_gen v' = v_gen v + inc.
Hypothesis Hlast : gen_word (v_gen v + inc).
Hypothesis Hroll' : v_rolling v' = true.
Hypothesis Hbm' : forall n, 0 <= n < inc -> v_bm v' n = false.
Hypothesis Hidx' : v_idx v' = Asid_base.

Lemma start_ag : ag v' = ag v.
Proof. unfold ag. rewrite Hroll, Hroll', Hgen'. lia. Qed.

Lemma view_start done' : (forall d, online d -> done' d = false) -> View_ok v' done'.
Proof.
  intros Hdone'. split; try rewrite start_ag; rewrite ?Hspace', ?Hres', ?Hroll'; try done; try apply V.
  - by rewrite Hgen'.
  - intros d Hd Hy. specialize (Hy eq_refl). by rewrite Hdone' in Hy.
  - intros n _ Hn. by rewrite Hbm'.
  - rewrite Hidx'. pose proof Asid_base_ok. auto.
Qed.

Lemma ok_start n y : ok v n y -> ok v' n y.
Proof.
  intros O. split; rewrite ?start_ag, ?Hspace', ?Hres', ?Hroll'; try done; apply O.
Qed.

Lemma loc_start o p : Loc v o p -> Loc v' o p.
Proof.
  intros L. destruct L as [L1 L2 L3 L4 L5 L6 L7 L8 L9].
  split; rewrite ?start_ag, ?Hspace'; auto using ok_start.
  pose proof inc_pos.
  destruct p; simpl in *; rewrite ?start_ag, ?Hspace', ?Hres', ?Hgen'; auto.
  destruct L3 as [? | [? | ?]]; auto. right; left; lia.
Qed.
End start.

Lemma pc_ok_passed v v' o o' p :
  pc_ok v o p -> keep o' p = keep o p -> is_valid (o_active o') = false ->
  v_space v' = v_space v -> v_gen v' = v_gen v -> ag v' = ag v ->
  (forall x, (is_valid (v_space v x) = true -> gof (v_space v x) <> ag v) ->
     (forall d, online d -> is_valid (v_res v d) = true -> v_res v d <> v_space v x) ->
     forall d, online d -> is_valid (v_res v' d) = true -> v_res v' d <> v_space v x) ->
  pc_ok v' o' p.
Proof.
  intros Hp Hk Hi Hs Hg Ha Hroll. destruct p; simpl in *; rewrite ?Hs, ?Hg, ?Ha, ?Hk, ?Hi; auto; [done |].
  destruct Hp as (? & Hx & Hn). split; [done | split; [done | by apply Hroll]].
Qed.

(** The roll-over passes a CPU whose active word is what it says. *)
Section pass.
Context (v v' : view) (done done' : Z -> bool) (d0 : Z) (o : own) (p : pc_t).
Let k := keep o p.
Hypothesis V : View_ok v done.
Hypothesis L : Loc v o p.
Hypothesis Hd0 : online d0.
Hypothesis Hr : o_res o = v_res v d0.
Hypothesis Hdone : done d0 = false.
Hypothesis Hodone : o_done o = false.
Hypothesis Hlost : lost p = false.
Hypothesis Hroll : v_rolling v = true.
Hypothesis Hroll' : v_rolling v' = true.
Hypothesis Hgen' : v_gen v' = v_gen v.
Hypothesis Hspace' : v_space v' = v_space v.
Hypothesis Hres' : forall d, v_res v' d = if d =? d0 then k else v_res v d.
Hypothesis Hbm' : forall n, 0 <= n < inc -> v_bm v' n = (is_valid k && (n =? num k)) || v_bm v n.
Hypothesis Hidx' : v_idx v' = v_idx v.
Hypothesis Hdone' : forall d, done' d = (d =? d0) || done d.

Lemma pass_ag : ag v' = ag v.
Proof. unfold ag. by rewrite Hroll, Hroll', Hgen'. Qed.

(** What is taken over is a word of this generation or was reserved already. *)
Lemma pass_cases :
  (is_valid k = true /\ gof k = ag v /\ (exists z, v_space v z = k)) \/ k = v_res v d0.
Proof.
  unfold k, keep. rewrite Hodone, Hlost. simpl.
  destruct (is_valid (o_active o)) eqn:Ea; simpl; [left | by right].
  destruct (l_active _ _ _ L Hlost Hodone Ea) as [? ?]. by rewrite Ea.
Qed.

Lemma pass_res d : online d -> is_valid k = true -> is_valid (v_res v d) = true ->
  num k = num (v_res v d) -> k = v_res v d.
Proof.
  intros Hd Hk Hv E. destruct pass_cases as [(_ & Hg & z & Hz) | Hk0].
  - symmetry. rewrite <- Hz in *. by apply (vo_own _ _ V).
  - rewrite Hk0 in *. by apply (vo_res _ _ V).
Qed.

Lemma pass_own x : is_valid (v_space v x) = true -> gof (v_space v x) = ag v -> is_valid k = true ->
  num k = num (v_space v x) -> k = v_space v x.
Proof.
  intros Hv Hg Hk E. destruct pass_cases as [(_ & Hgk & _) | Hk0].
  - apply word_eq; congruence.
  - rewrite Hk0 in *. by apply (vo_own _ _ V).
Qed.

Ltac res_cases := rewrite ?Hres' in *; repeat match goal with
  | |- context [?y =? d0] => destruct (Z.eqb_spec y d0) as [-> |]; simpl
  end.

Lemma view_pass : View_ok v' done'.
Proof.
  split; try rewrite pass_ag; rewrite ?Hspace', ?Hgen', ?Hidx', ?Hroll'; try done; try apply V.
  - intros d Hd. rewrite Hdone'. res_cases.
    + intros _ Hk. rewrite Hbm', Hk, Z.eqb_refl by apply num_range. done.
    + intros Hy Hv. rewrite Hbm' by apply num_range. rewrite (vo_bit _ _ V d Hd); [apply orb_true_r | intros _; by apply Hy | done].
  - intros n _ Hn. rewrite Hbm' by done. intros [[Hk ->%Z.eqb_eq]%andb_prop | Hb]%orb_prop.
    + exists d0. by rewrite Hdone', Hres', Z.eqb_refl.
    + destruct (vo_few _ _ V n Hroll Hn Hb) as (d & ? & Hdn & Hv & E). exists d.
      rewrite Hdone', Hres'. destruct (Z.eqb_spec d d0); [congruence | done].
  - split; [apply V |]. intros _. by apply (vo_base _ _ V).
  - intros d e Hd He. res_cases; try done; [apply pass_res | | apply V]; try done.
    intros Hv Hk E. symmetry. by apply pass_res.
  - intros x d Hd. res_cases; [| by apply V]. intros. by apply pass_own.
Qed.

Lemma ok_pass n y : ok v n y -> ok v' n y.
Proof.
  intros O. split; rewrite ?pass_ag, ?Hspace', ?Hroll'; [apply O | | done].
  intros z d Hd. res_cases; [| by apply O]. intros Hv E Hn.
  destruct pass_cases as [(_ & Hg & _) | Hk0]; [apply (ok_space _ _ _ O); congruence |].
  apply (ok_res _ _ _ O z d0); congruence.
Qed.

Lemma pass_roll x :
  (is_valid (v_space v x) = true -> gof (v_space v x) <> ag v) ->
  (forall d, online d -> is_valid (v_res v d) = true -> v_res v d <> v_space v x) ->
  forall d, online d -> is_valid (v_res v' d) = true -> v_res v' d <> v_space v x.
Proof.
  intros Hg Hn d Hd. res_cases; [| by apply Hn]. intros Hk E.
  destruct pass_cases as [(_ & Hgk & _) | Hk0]; [rewrite <- E in Hg; by apply Hg |].
  apply (Hn d0); congruence.
Qed.

Lemma loc_pass_other d o2 p2 : Loc v o2 p2 -> d <> d0 -> o_res o2 = v_res v d -> Loc v' o2 p2.
Proof.
  intros L2 Hne Hr2. destruct L2 as [L21 L22 L23 L24 L25 L26 L27 L28 L29].
  split; rewrite ?pass_ag, ?Hspace'; auto using ok_pass.
  destruct p2; simpl in *; rewrite ?pass_ag, ?Hspace', ?Hgen'; auto.
  destruct L23 as (? & Hg & Hn). split; [done | split; [done | by apply pass_roll]].
Qed.

Definition own_pass : own :=
  mk_own Invalid k true (o_pending o) (o_hw o) (o_tlb o).

Lemma loc_pass : Loc v' own_pass p.
Proof.
  assert (keep own_pass p = k) as Hk by done.
  assert (L' := L). destruct L' as [L1 L2 L3 L4 L5 L6 L7 L8 L9].
  split; rewrite ?pass_ag, ?Hspace', ?Hk; simpl in *; auto using ok_pass; try done.
  - intros _. right. apply invalid_not_valid.
  - eapply pc_ok_passed; [exact L3 | done | apply invalid_not_valid | done | done | apply pass_ag |].
    apply pass_roll.
Qed.
End pass.

(** The roll-over ends: every CPU has to flush its TLB. *)
Section finish.
Context (v v' : view) (done : Z -> bool).
Hypothesis V : View_ok v done.
Hypothesis Hall : forall d, online d -> done d = true.
Hypothesis Hroll : v_rolling v = true.
Hypothesis Hroll' : v_rolling v' = false.
Hypothesis Hgen' : v_gen v' = v_gen v.
Hypothesis Hspace' : v_space v' = v_space v.
Hypothesis Hres' : v_res v' = v_res v.
Hypothesis Hbm' : v_bm v' = v_bm v.
Hypothesis Hidx' : v_idx v' = v_idx v.

Lemma finish_ag : ag v' = ag v + inc.
Proof. unfold ag. rewrite Hroll, Hroll', Hgen'. lia. Qed.

Lemma finish_old x : is_valid (v_space v x) = true -> gof (v_space v x) < ag v'.
Proof. intros Hv. pose proof (vo_range _ _ V x Hv). pose proof inc_pos. rewrite finish_ag. lia. Qed.

Lemma view_finish done' : View_ok v' done'.
Proof.
  split; rewrite ?Hspace', ?Hres', ?Hbm', ?Hidx'; try apply V.
  - rewrite Hgen'. apply V.
  - unfold ag. rewrite Hroll', Hgen'. apply V.
  - intros x Hv. split; [by apply V | pose proof (finish_old x Hv); lia].
  - intros x _ Hv E. pose proof (finish_old x Hv). lia.
  - intros d Hd _. apply V; [done |]. intros _. by apply Hall.
  - by rewrite Hroll'.
  - rewrite Hroll'. split; [apply V | done].
  - intros x d _ Hv E. pose proof (finish_old x Hv). lia.
Qed.

Definition own_finish (o : own) : own :=
  mk_own (o_active o) (o_res o) false true (o_hw o) (o_tlb o).

Lemma loc_finish o p :
  Loc v o p -> o_done o = true ->
  (forall x l t, p <> Roll x l t) -> (forall x l b, p <> Store x l b) -> Loc v' (own_finish o) p.
Proof.
  intros L Hd Hnr Hns. destruct L as [L1 L2 L3 L4 L5 L6 L7 L8 L9].
  assert (lost p = true \/ is_valid (o_active o) = false) as Hinv by (apply L2; unfold behind; by rewrite Hd).
  assert (keep (own_finish o) p = keep o p) as Hk.
  { unfold keep, own_finish. rewrite Hd. simpl. by destruct Hinv as [-> | ->]; simpl; [| rewrite orb_true_r]. }
  split; rewrite ?Hspace', ?Hk; simpl in *; auto; try done.
  - intros Hl _ Ha. destruct Hinv; congruence.
  - destruct p; simpl in *; rewrite ?Hspace', ?Hgen', ?Hk; auto.
    + intros Ha. destruct Hinv; congruence.
    + by edestruct Hnr.
    + by edestruct Hns.
Qed.
End finish.
End shared.

(** * The functions under the lock *)

Section functions.
Context `{Asid_params}.
Context {M N : Type} {BM : Bit_set M} {BN : Bit_set N} `{!Cpus N}.

Lemma find_from_spec fuel (b : M) i :
  asid_num - i <= Z.of_nat fuel ->
  let r := find_from fuel b i in
  (i <= r < asid_num /\ bs_get b r = false) \/
  (r = asid_num /\ forall j, i <= j < asid_num -> bs_get b j = true).
Proof.
  revert i. induction fuel as [| f IH]; intros i Hf; simpl; [right; split; [done | lia] |].
  destruct (Z.ltb_spec i asid_num); [| right; split; [done | lia]].
  destruct (bs_get b i) eqn:Eb; [| left; split; [lia | done]].
  destruct (IH (i + 1)) as [[? ?] | [? Hall]]; [lia | left; split; [lia | done] | right].
  split; [done |]. intros j Hj. destruct (Z.eqb_spec j i) as [-> |]; [done | apply Hall; lia].
Qed.

Lemma find_next_spec (b : M) i n i' :
  find_next b i = (n, i') ->
  (i <= n < asid_num /\ bs_get b n = false /\ i' = n + 1) \/
  (n = asid_num /\ i' = i /\ forall j, i <= j < asid_num -> bs_get b j = true).
Proof.
  unfold find_next. intros E.
  destruct (find_from_spec (Z.to_nat (asid_num - i)) b i) as [[Hr Hb] | [Hr Hall]]; [lia | |].
  - left. destruct (Z.ltb_spec (find_from (Z.to_nat (asid_num - i)) b i) asid_num); [by simplify_eq | lia].
  - right. rewrite Hr, Z.ltb_irrefl in E. by simplify_eq.
Qed.

(** Every CPU that reserves the old word reserves the new one afterwards. *)
Lemma check_and_update_spec cpus a u res r :
  let '(res', r') := check_and_update_reserved cpus a u res r in
  (res' = true <-> res = true \/ exists d, d ∈ cpus /\ cpu_online d = true /\ r d = a) /\
  forall d, r' d = if bool_decide (d ∈ cpus) && cpu_online d && (r d =? a) then u else r d.
Proof.
  revert res r. induction cpus as [| c cpus IH]; intros res r; simpl.
  { split; [| done]. split; [by left | intros [? | (d & Hd & _)]; [done | by apply not_elem_of_nil in Hd]]. }
  destruct (cpu_online c) eqn:Eo; simpl.
  - unfold check_and_update_reserved_cpu. destruct (Z.eqb_spec (r c) a) as [Ec | Ec].
    + specialize (IH (res || true) (<[c := u]> r)). destruct check_and_update_reserved as [res' r'].
      destruct IH as [IH1 IH2]. rewrite orb_true_r in IH1. split.
      * split; [intros _; right; exists c; by rewrite elem_of_cons; auto | intros _; apply IH1; by left].
      * intros d. rewrite IH2. destruct (decide (d = c)) as [-> | Hne].
        { rewrite fn_lookup_insert, (bool_decide_eq_true_2 (c ∈ c :: cpus)) by apply list_elem_of_here.
          rewrite Eo, Ec, Z.eqb_refl. simpl. by destruct (bool_decide _), (u =? a). }
        rewrite fn_lookup_insert_ne by done.
        rewrite (bool_decide_ext (d ∈ c :: cpus) (d ∈ cpus)); [done | rewrite elem_of_cons; naive_solver].
    + specialize (IH (res || false) r). destruct check_and_update_reserved as [res' r'].
      destruct IH as [IH1 IH2]. rewrite orb_false_r in IH1. split.
      * rewrite IH1. setoid_rewrite elem_of_cons. naive_solver.
      * intros d. rewrite IH2. destruct (decide (d = c)) as [-> | Hne].
        { apply Z.eqb_neq in Ec. by rewrite Ec, !andb_false_r. }
        rewrite (bool_decide_ext (d ∈ c :: cpus) (d ∈ cpus)); [done | rewrite elem_of_cons; naive_solver].
  - specialize (IH res r). destruct check_and_update_reserved as [res' r']. destruct IH as [IH1 IH2]. split.
    + rewrite IH1. setoid_rewrite elem_of_cons. split; [naive_solver |].
      intros [? | (d & [-> | ?] & ? & ?)]; [by left | congruence | right; eauto].
    + intros d. rewrite IH2. destruct (decide (d = c)) as [-> | Hne]; [by rewrite Eo, !andb_false_r |].
      rewrite (bool_decide_ext (d ∈ c :: cpus) (d ∈ cpus)); [done | rewrite elem_of_cons; naive_solver].
Qed.
End functions.

(** * The steps *)

Section steps.
Context `{Asid_params}.
Context {M N : Type} {BM : Bit_set M} {BN : Bit_set N} `{!Cpus N}.
Abbreviation num := Asid_t.asid.
Abbreviation inc := Generation_inc.
Abbreviation sys := (sys (M := M) (N := N)).

(** The bitmap has a bit for each identifier, and there are more identifiers
    than CPUs. *)
Hypothesis ids_size : bs_size (M := M) = 2 ^ ASID_BITS.
Hypothesis ids_enough : max_num_cpus < asid_num - Asid_base.

Definition rtodo (p : pc_t) : option (list Z) := match p with Roll _ _ t => Some t | _ => None end.

Lemma todo_set_pc c p (s : sys) : rtodo p = rtodo (pc s c) -> todo_of (set_pc c p s) = todo_of s.
Proof.
  intros E. unfold todo_of. simpl. destruct (lock s) as [h |]; [| done].
  destruct (decide (h = c)) as [-> | Hne]; [| by rewrite fn_lookup_insert_ne].
  rewrite fn_lookup_insert. destruct p, (pc s c); simpl in *; by simplify_eq.
Qed.

Lemma inv_local (s s' : sys) c :
  Inv s -> online c -> view_of s' = view_of s -> todo_of s' = todo_of s ->
  bmap s' = bmap s -> bs_ok (pending s') ->
  (forall d, d <> c -> online d -> own_of s' d = own_of s d) ->
  (forall d, d <> c -> pc s' d = pc s d) ->
  (in_lock (pc s' c) = true <-> lock s' = Some c) ->
  (forall d, d <> c -> lock s' = Some d <-> lock s = Some d) ->
  Loc (view_of s) (own_of s' c) (pc s' c) -> Inv s'.
Proof.
  intros I Hc Hv Ht Hb Hp Ho Hpc Hl Hlo L. split; rewrite ?Hb, ?Hv, ?Ht; try apply I; try done.
  - intros d. destruct (decide (d = c)) as [-> | Hne]; [done |].
    rewrite Hpc, Hlo by done. apply I.
  - intros d Hd. destruct (decide (d = c)) as [-> | Hne]; [done |].
    rewrite Hpc in Hd by done. by apply I.
  - intros d Hd. destruct (decide (d = c)) as [-> | Hne]; [done |].
    rewrite Ho, Hpc by done. by apply I.
Qed.

Lemma view_set_pc c p (s : sys) : rtodo p = rtodo (pc s c) -> view_of (set_pc c p s) = view_of s.
Proof. intros E. unfold view_of. by rewrite todo_set_pc. Qed.

Lemma inv_set_pc c p (s : sys) :
  Inv s -> online c -> rtodo p = rtodo (pc s c) -> in_lock p = in_lock (pc s c) ->
  Loc (view_of s) (own_of s c) p -> Inv (set_pc c p s).
Proof.
  intros I Hc Hr Hl L. apply (inv_local s _ c); try done; try apply I.
  - by apply view_set_pc.
  - by apply todo_set_pc.
  - intros d Hne _. unfold own_of. by rewrite todo_set_pc by done.
  - intros d Hne. simpl. by rewrite fn_lookup_insert_ne.
  - simpl. rewrite fn_lookup_insert, Hl. apply I.
  - unfold own_of. rewrite todo_set_pc by done. simpl. by rewrite fn_lookup_insert.
Qed.

(** ** Steps of one CPU on its own *)

Definition with_active (a : Z) (o : own) : own :=
  mk_own a (o_res o) (o_done o) (o_pending o) (o_hw o) (o_tlb o).

Lemma loc_hit v done o d x a :
  View_ok v done -> online d -> o_res o = v_res v d -> Loc v o (Exchange x a) ->
  is_valid (o_active o) = true -> Loc v (with_active a o) (Reload x).
Proof.
  intros V Hd Hr L Ha.
  assert (behind o = false) as Hb.
  { destruct (behind o) eqn:E; [| done]. destruct (l_behind _ _ _ L E) as [? | ?]; simplify_eq/=; congruence. }
  assert (o_done o = false) as Hdn by (by apply orb_false_elim in Hb as [? _]).
  destruct (l_pc _ _ _ L Ha Hdn) as (Hva & Hg & Hx).
  assert (holds v x) as Hh by (split; [by rewrite Hx | left; by rewrite Hx]).
  assert (forall n y, o_hw o = Some (n, y) -> ok v n y) as Hw by (intros; by eapply (hw_ok v done o)).
  split; simpl; try done.
  - intros _ _ _. eauto.
  - intros E. change (behind o = true) in E. congruence.
  - unfold keep. simpl. by rewrite Hdn, Hva.
  - intros n y _ _. apply Hw.
  - apply (l_safe _ _ _ L).
  - intros n y _ _. by apply (l_clean _ _ _ L).
  - intros x' n y [= <-] Ho Hn. symmetry. by eapply ok_holds; [apply Hw | |].
  - intros x' n y [= <-] _ Ho Hn. symmetry. by eapply ok_holds; [apply (l_clean _ _ _ L) | |].
Qed.

Lemma loc_miss v o x a :
  Loc v o (Exchange x a) -> is_valid (o_active o) = false -> Loc v (with_active a o) (Acquire x true).
Proof.
  intros L Ha.
  assert (keep (with_active a o) (Acquire x true) = keep o (Exchange x a)) as Hk.
  { unfold keep. simpl. rewrite Ha. simpl. by rewrite !orb_true_r. }
  destruct L. split; rewrite ?Hk; simpl in *; auto; done.
Qed.

Lemma exchange_inv c x a (s : sys) :
  Inv s -> pc s c = Exchange x a ->
  Inv (set_pc c (if is_valid (active s c) then Reload x else Acquire x true) (set_active c a s)).
Proof.
  intros I Hp. assert (online c) as Hc by (apply I; by rewrite Hp).
  pose proof (i_loc _ I c Hc) as L. rewrite Hp in L.
  assert (in_lock (pc s c) = false) as Hil by (by rewrite Hp).
  apply (inv_local s _ c); try done.
  - unfold view_of. rewrite todo_set_pc; [done |]. simpl. rewrite Hp. by destruct is_valid.
  - rewrite todo_set_pc; [done |]. simpl. rewrite Hp. by destruct is_valid.
  - apply I.
  - intros d Hne _. unfold own_of. rewrite todo_set_pc; [| simpl; rewrite Hp; by destruct is_valid].
    simpl. by rewrite !fn_lookup_insert_ne.
  - intros d Hne. simpl. by rewrite fn_lookup_insert_ne.
  - simpl. rewrite fn_lookup_insert, <- (i_lock _ I c), Hil. by destruct is_valid.
  - unfold own_of. rewrite todo_set_pc; [| simpl; rewrite Hp; by destruct is_valid].
    simpl. rewrite !fn_lookup_insert. destruct (is_valid (active s c)) eqn:Ea.
    + change (Loc (view_of s) (with_active a (own_of s c)) (Reload x)).
      by eapply loc_hit; [apply I | | | |].
    + change (Loc (view_of s) (with_active a (own_of s c)) (Acquire x true)). by apply loc_miss.
Qed.

Definition with_tlb (es : list (Z * Z)) (o : own) : own :=
  mk_own (o_active o) (o_res o) (o_done o) (o_pending o) (o_hw o) es.
Definition with_hw (r : option (Z * Z)) (o : own) : own :=
  mk_own (o_active o) (o_res o) (o_done o) (o_pending o) r (o_tlb o).

Lemma loc_flush v o x : Loc v o (Flush x) -> Loc v (with_tlb [] o) (Reload x).
Proof.
  intros L. destruct L. split; simpl in *; auto; try done.
  all: intros; match goal with Hn : _ ∈ [] |- _ => by apply not_elem_of_nil in Hn end.
Qed.

Lemma loc_reload v o x : Loc v o (Reload x) -> Loc v o (Write x (num (v_space v x))).
Proof. intros L. destruct L as [L1 L2 [L3 L3'] L4 L5 L6 L7 L8 L9]. split; simpl in *; auto; done. Qed.

Lemma loc_write v done o d x n :
  View_ok v done -> online d -> o_res o = v_res v d ->
  Loc v o (Write x n) -> Loc v (with_hw (Some (n, x)) o) Idle.
Proof.
  intros V Hd Hr L. destruct (l_pc _ _ _ L) as (Hk & Hx & Hn).
  split; simpl; try done.
  - apply (l_active _ _ _ L).
  - apply (l_behind _ _ _ L).
  - intros n' x' _ [= <- <-]. split; [done |]. split; [by rewrite <- Hx | by rewrite <- Hn, <- Hx].
  - intros n' x' y [= <- <-] Hy. by eapply (l_t_tlb _ _ _ L).
  - intros n' y Hb _ Hy. by apply (l_clean _ _ _ L).
Qed.

Lemma loc_fill v done o d p n x :
  View_ok v done -> online d -> o_res o = v_res v d ->
  Loc v o p -> o_hw o = Some (n, x) -> Loc v (with_tlb ((n, x) :: o_tlb o) o) p.
Proof.
  intros V Hd Hr L Hw.
  assert (behind o = false -> ok v n x) as Hok.
  { intros Hb. destruct (target p) eqn:Et; [apply (l_hw_ok _ _ _ L); by rewrite ?Et |].
    by eapply (hw_ok v done o). }
  assert (L' := L). destruct L' as [L1 L2 L3 L4 L5 L6 L7 L8 L9].
  split; simpl in *; auto.
  - intros m y z Hy. rewrite elem_of_cons. intros [[= -> ->] | ?]; [congruence | by eapply L6].
  - intros m y Hb Hf. rewrite elem_of_cons. intros [[= -> ->] | ?]; auto.
  - intros y m z Ht Hf. rewrite elem_of_cons. intros [[= -> ->] | ?]; eauto.
Qed.

Lemma local_inv c p (s s1 : sys) :
  Inv s -> online c -> rtodo p = rtodo (pc s c) -> in_lock p = in_lock (pc s c) ->
  pc s1 = pc s -> lock s1 = lock s -> view_of s1 = view_of s -> bmap s1 = bmap s -> pending s1 = pending s ->
  (forall d, d <> c -> own_of s1 d = own_of s d) ->
  Loc (view_of s) (own_of s1 c) p -> Inv (set_pc c p s1).
Proof.
  intros I Hc Hr Hil Hpc Hl Hv Hb Hp Ho L.
  assert (todo_of s1 = todo_of s) as Ht by (unfold todo_of; by rewrite Hl, Hpc).
  assert (todo_of (set_pc c p s1) = todo_of s1) as Ht1 by (apply todo_set_pc; by rewrite Hpc).
  apply (inv_local s _ c); try done; try (by rewrite Ht1).
  - rewrite view_set_pc; [done | by rewrite Hpc].
  - simpl. rewrite Hp. apply I.
  - intros d Hne _. rewrite <- Ho by done. unfold own_of. by rewrite Ht1.
  - intros d Hne. simpl. rewrite Hpc. by rewrite fn_lookup_insert_ne.
  - simpl. rewrite fn_lookup_insert, Hil, Hl. apply I.
  - simpl. by rewrite Hl.
  - simpl. rewrite fn_lookup_insert. unfold own_of. by rewrite Ht1.
Qed.

Lemma flush_inv c x (s : sys) : Inv s -> pc s c = Flush x -> Inv (set_pc c (Reload x) (set_tlb c [] s)).
Proof.
  intros I Hp. assert (online c) as Hc by (apply I; by rewrite Hp).
  pose proof (i_loc _ I c Hc) as L. rewrite Hp in L.
  apply (local_inv c _ s); try done; try (by rewrite Hp).
  - intros d Hne. unfold own_of. simpl. by rewrite fn_lookup_insert_ne.
  - apply loc_flush in L. unfold own_of, with_tlb in *. simpl in *. by rewrite fn_lookup_insert.
Qed.

Lemma write_inv c x n (s : sys) :
  Inv s -> pc s c = Write x n -> Inv (set_pc c Idle (set_hw c (Some (n, x)) s)).
Proof.
  intros I Hp. assert (online c) as Hc by (apply I; by rewrite Hp).
  pose proof (i_loc _ I c Hc) as L. rewrite Hp in L.
  apply (local_inv c _ s); try done; try (by rewrite Hp).
  - intros d Hne. unfold own_of. simpl. by rewrite fn_lookup_insert_ne.
  - eapply loc_write in L; [| apply I | done | done].
    unfold own_of, with_hw in *. simpl in *. by rewrite fn_lookup_insert.
Qed.

Lemma fill_inv c n x (s : sys) :
  Inv s -> online c -> hw s c = Some (n, x) -> Inv (set_tlb c ((n, x) :: tlb s c) s).
Proof.
  intros I Hc Hw. pose proof (i_loc _ I c Hc) as L.
  apply (inv_local s _ c); try done; try apply I.
  - intros d Hne _. unfold own_of. simpl. by rewrite fn_lookup_insert_ne.
  - eapply loc_fill in L; [| apply I | done | done | done].
    unfold own_of, with_tlb in *. simpl in *. by rewrite fn_lookup_insert.
Qed.

(** ** The end of [alloc_asid] *)

Definition stored (a : Z) (o : own) : own := mk_own a (o_res o) false false (o_hw o) (o_tlb o).

Lemma loc_store v done o d x l a :
  View_ok v done -> online d -> o_res o = v_res v d -> o_done o = false ->
  Loc v o (Store x l a) -> Loc v (stored a o) (if o_pending o then Flush x else Reload x).
Proof.
  intros V Hd Hr Hdn L. destruct (l_pc _ _ _ L) as (Hx & Hg & Hva).
  assert (holds v x) as Hh by (split; [by rewrite Hx | left; by rewrite Hx]).
  assert (forall n y, o_hw o = Some (n, y) -> ok v n y) as Hw by (intros; by eapply (hw_ok v done o)).
  assert (o_pending o = false -> forall n y, (n, y) ∈ o_tlb o -> ok v n y) as Hcl.
  { intros Hp n y. apply (l_clean _ _ _ L); [unfold behind; by rewrite Hdn, Hp | done]. }
  assert (target (if o_pending o then Flush x else Reload x) = Some x) as Ht by (by destruct o_pending).
  assert (flushing (if o_pending o then Flush x else Reload x) = false -> o_pending o = false) as Hf
    by (by destruct o_pending).
  assert (keep (stored a o) (if o_pending o then Flush x else Reload x) = a) as Hk.
  { unfold keep. simpl. rewrite Hva. by destruct (o_pending o). }
  split; rewrite ?Ht, ?Hk; simpl; try done.
  - intros _ _ _. eauto.
  - destruct (o_pending o); simpl in *; rewrite Hk; by rewrite Hx.
  - intros n y _ _. apply Hw.
  - apply (l_safe _ _ _ L).
  - intros n y _ Hfl. by apply Hcl, Hf.
  - intros x' n y [= <-] Ho Hn. symmetry. by eapply ok_holds; [apply Hw | |].
  - intros x' n y [= <-] Hfl Ho Hn. symmetry. by eapply ok_holds; [apply Hcl; auto | |].
Qed.

Lemma cpu_in_mask d : online d -> 0 <= d < bs_size (M := N).
Proof. intros [_ Hd]. pose proof max_num_cpus_ok. lia. Qed.

Lemma todo_none (s : sys) c : lock s = Some c -> rtodo (pc s c) = None -> todo_of s = None.
Proof. intros Hl Hr. unfold todo_of. rewrite Hl. by destruct (pc s c). Qed.

Lemma alloc_store_inv c x l a (s : sys) :
  Inv s -> pc s c = Store x l a -> Inv (alloc_store c x a s).
Proof.
  intros I Hp. assert (online c) as Hc by (apply I; by rewrite Hp).
  assert (lock s = Some c) as Hl by (apply I; by rewrite Hp).
  assert (todo_of s = None) as Ht by (by eapply todo_none; [| rewrite Hp]).
  pose proof (i_loc _ I c Hc) as L. rewrite Hp in L.
  unfold alloc_store. apply (inv_local s _ c); try done.
  - unfold view_of. by rewrite Ht.
  - simpl. apply bs_clear_ok; [apply I | by apply cpu_in_mask].
  - intros d Hne Hd. unfold own_of. rewrite Ht. simpl. rewrite fn_lookup_insert_ne by done.
    rewrite bs_get_clear by (apply I || by apply cpu_in_mask). by destruct (Z.eqb_spec d c).
  - intros d Hne. simpl. by rewrite fn_lookup_insert_ne.
  - simpl. rewrite fn_lookup_insert. by destruct bs_get.
  - intros d Hne. simpl. rewrite Hl. split; [done | by intros [= ->]].
  - eapply loc_store in L; [| apply I | done | done | unfold own_of; by rewrite Ht].
    unfold own_of, stored in *. rewrite Ht in L. simpl in *. rewrite !fn_lookup_insert.
    rewrite bs_get_clear by (apply I || by apply cpu_in_mask). by rewrite Z.eqb_refl.
Qed.

(** ** Steps of the CPU that has the lock *)

Lemma inv_shared (s s' : sys) c :
  Inv s -> online c -> lock s = Some c -> bs_ok (bmap s') -> bs_ok (pending s') -> lock s' = Some c ->
  (forall d, d <> c -> pc s' d = pc s d) -> in_lock (pc s' c) = true ->
  View_ok (view_of s') (done_in (todo_of s')) ->
  (forall d, online d -> Loc (view_of s') (own_of s' d) (pc s' d)) -> Inv s'.
Proof.
  intros I Hc Hl Hb Hp Hl' Hpc Hil V L. split; try done.
  - intros d. destruct (decide (d = c)) as [-> | Hne]; [by rewrite Hil, Hl' |].
    rewrite Hpc, Hl', (i_lock _ I d), Hl by done. done.
  - intros d Hd. destruct (decide (d = c)) as [-> | Hne]; [done |]. rewrite Hpc in Hd by done. by apply I.
Qed.

Lemma not_holder (s : sys) c d : Inv s -> lock s = Some c -> d <> c ->
  (forall x l t, pc s d <> Roll x l t) /\ (forall x l a, pc s d <> Store x l a).
Proof.
  intros I Hl Hne. split; intros x l y E; apply Hne;
    assert (lock s = Some d) as Hd by (apply I; by rewrite E); congruence.
Qed.

Lemma check_and_update_miss cpus a u r : forall res,
  fst (check_and_update_reserved cpus a u res r) = false ->
  snd (check_and_update_reserved cpus a u res r) = r /\
  (forall d, d ∈ cpus -> cpu_online d = true -> r d <> a).
Proof.
  induction cpus as [| c cpus IH]; intros res; simpl.
  { intros _. split; [done |]. intros d Hd. by apply not_elem_of_nil in Hd. }
  destruct (cpu_online c) eqn:Eo; simpl.
  - unfold check_and_update_reserved_cpu. destruct (Z.eqb_spec (r c) a).
    + intros E. exfalso. rewrite orb_true_r in E.
      pose proof (check_and_update_spec cpus a u true (<[c := u]> r)) as Hs.
      destruct (check_and_update_reserved cpus a u true (<[c := u]> r)) as [res' r'].
      destruct Hs as [Hs _]. simpl in *. destruct Hs as [_ Hs]. rewrite Hs in E; [done | by left].
    + intros E. apply IH in E as [E1 E2]. split; [done |]. intros d Hd. apply elem_of_cons in Hd as [-> | Hd]; auto.
  - intros E. apply IH in E as [E1 E2]. split; [done |]. intros d Hd Ho.
    apply elem_of_cons in Hd as [-> | Hd]; [congruence | auto].
Qed.

Lemma asid_num_inc : asid_num <= inc.
Proof. apply asid_num_ok. Qed.

(** The state of the CPU that has the lock and is not rolling over. *)
Lemma locked_view c x l (s : sys) :
  Inv s -> pc s c = Locked x l ->
  online c /\ lock s = Some c /\ todo_of s = None /\ v_rolling (view_of s) = false /\ ag (view_of s) = gen s.
Proof.
  intros I Hp. assert (lock s = Some c) as Hl by (apply I; by rewrite Hp).
  assert (todo_of s = None) as Ht by (by eapply todo_none; [| rewrite Hp]).
  split_and!; [apply I; by rewrite Hp | done | done | unfold view_of; by rewrite Ht |].
  unfold ag, view_of. by rewrite Ht.
Qed.

Lemma pc_update c p (s : sys) d : pc (set_pc c p s) d = if decide (d = c) then p else pc s d.
Proof. simpl. destruct (decide (d = c)) as [-> |]; [by rewrite fn_lookup_insert | by rewrite fn_lookup_insert_ne]. Qed.

Lemma renew_inv c x l r (s : sys) :
  Inv s -> pc s c = Locked x l ->
  gof (space s x) <> gen s -> is_valid (space s x) = true ->
  let u := num (space s x) .| gen s in
  check_and_update_reserved cpu_numbers (space s x) u false (reserved s) = (true, r) ->
  Inv (set_pc c (Store x l u) (set_space x u (set_reserved r s))).
Proof.
  intros I Hp Hg Hv u Hcu. destruct (locked_view c x l s I Hp) as (Hc & Hl & Ht & Hroll & Hag).
  set (a := space s x) in *. pose proof (vo_gen _ _ (i_view _ I)) as [Hgw Hgm]. simpl in Hgm.
  pose proof (check_and_update_spec cpu_numbers a u false (reserved s)) as Hs. rewrite Hcu in Hs.
  destruct Hs as [[Hhit _] Hr].
  assert (exists d, online d /\ reserved s d = a) as (d0 & Hd0 & Hr0).
  { destruct (Hhit eq_refl) as [? | (d & Hd & Ho & E)]; [done |]. exists d. split; [| done].
    split; [done |]. apply elem_of_seqZ in Hd. lia. }
  assert (forall y, (<[x := u]> (space s)) y = if space s y =? a then u else space s y) as Hsp.
  { intros y. destruct (decide (y = x)) as [-> | Hne]; [by rewrite fn_lookup_insert; fold a; rewrite Z.eqb_refl |].
    rewrite fn_lookup_insert_ne by done. destruct (Z.eqb_spec (space s y) a) as [E |]; [| done].
    destruct Hne. by apply (vo_uniq _ _ (i_view _ I)); [simpl; rewrite E |]. }
  assert (forall d, online d -> r d = if reserved s d =? a then u else reserved s d) as Hre.
  { intros d Hd. rewrite Hr, bool_decide_eq_true_2 by (by apply online_numbers). by rewrite (proj1 Hd). }
  assert (gof u = ag (view_of s)) as Hgu by (rewrite Hag; by apply gof_pack; [apply num_range |]).
  assert (num u = num a) as Hnu by (by apply num_pack; [apply num_range |]).
  assert (Hga : gof a <> ag (view_of s)) by (by rewrite Hag).
  set (s' := set_pc c (Store x l u) (set_space x u (set_reserved r s))).
  assert (todo_of s' = None) as Ht' by (apply (todo_none s' c); [done |]; unfold s'; rewrite pc_update; by case_decide).
  assert (Hroll' : v_rolling (view_of s') = false) by (unfold view_of; by rewrite Ht').
  apply (inv_shared s s' c); try done; try apply I.
  - intros d Hne. unfold s'. rewrite pc_update. by case_decide.
  - unfold s'. rewrite pc_update. by case_decide.
  - eapply (view_renew (view_of s) _ _ a u (i_view _ I)); try done. eauto.
  - intros d Hd.
    assert (Loc (view_of s') (own_renew a u (own_of s d)) (if decide (d = c) then Locked x l else pc s d)) as L.
    { eapply (loc_renew (view_of s) _ _ a u (i_view _ I)); try done; try (by eauto).
      - pose proof (i_loc _ I d Hd). case_decide; [| done]. subst d. by rewrite <- Hp.
      - unfold own_of. by rewrite Ht.
      - case_decide; [done |]. by apply (not_holder s c d).
      - case_decide; [done |]. by apply (not_holder s c d). }
    assert (own_of s' d = own_renew a u (own_of s d)) as ->.
    { unfold own_of, own_renew. rewrite Ht', Ht. unfold s'. simpl. by rewrite Hre. }
    unfold s' at 2. rewrite pc_update. case_decide; [| done].
    eapply loc_pc; [exact L | done | done | done |]. simpl. rewrite fn_lookup_insert.
    split_and!; [done | | ].
    + rewrite Hgu. symmetry. by apply (renew_ag (view_of s)).
    + eapply (gof_valid u); [| exact Hgu]. apply (vo_ag _ _ (i_view _ I)).
Qed.

Lemma fresh_inv c x l n (s s' : sys) :
  Inv s -> pc s c = Locked x l ->
  (is_valid (space s x) = true -> gof (space s x) <> gen s) ->
  (forall d, online d -> is_valid (reserved s d) = true -> reserved s d <> space s x) ->
  idx s <= n < asid_num -> bs_get (bmap s) n = false ->
  let a := n .| gen s in
  gen s' = gen s -> space s' = <[x := a]> (space s) -> lock s' = Some c -> active s' = active s ->
  reserved s' = reserved s -> pending s' = pending s -> bmap s' = bmap s -> idx s' = n + 1 ->
  hw s' = hw s -> tlb s' = tlb s -> (forall d, d <> c -> pc s' d = pc s d) -> pc s' c = Store x l a ->
  Inv s'.
Proof.
  intros I Hp Hg Hnone Hn Hbit a Egen Esp Elock Eact Eres Epend Ebm Eidx Ehw Etlb Epc Epcc.
  destruct (locked_view c x l s I Hp) as (Hc & Hl & Ht & Hroll & Hag).
  pose proof (vo_gen _ _ (i_view _ I)) as [Hgw Hgm]. simpl in Hgm.
  assert (0 <= n < inc) as Hninc.
  { pose proof (vo_base _ _ (i_view _ I)) as [Hb _]. simpl in Hb. pose proof asid_num_inc. lia. }
  assert (gof a = ag (view_of s)) as Hga by (rewrite Hag; by apply gof_pack).
  assert (num a = n) as Hna by (by apply num_pack).
  assert (todo_of s' = None) as Ht' by (apply (todo_none s' c); [done |]; by rewrite Epcc).
  assert (Hroll' : v_rolling (view_of s') = false) by (unfold view_of; by rewrite Ht').
  assert (forall y, v_space (view_of s') y = if y =? x then a else v_space (view_of s) y) as Hsp.
  { intros y. simpl. rewrite Esp. destruct (Z.eqb_spec y x) as [-> |]; [apply fn_lookup_insert | by apply fn_lookup_insert_ne]. }
  assert (is_valid (v_space (view_of s) x) = true -> gof (v_space (view_of s) x) <> ag (view_of s)) as Hold
    by (by rewrite Hag).
  assert (Hfree : v_bm (view_of s) (num a) = false) by (by rewrite Hna).
  assert (Hidx : v_idx (view_of s) <= num a < asid_num) by (by rewrite Hna).
  assert (Hidx' : v_idx (view_of s') = num a + 1) by (by rewrite Hna).
  assert (Hbm' : v_bm (view_of s') = v_bm (view_of s)) by (simpl; by rewrite Ebm).
  assert (Hres' : forall d, v_res (view_of s') d = v_res (view_of s) d) by (intros; simpl; by rewrite Eres).
  apply (inv_shared s s' c); rewrite ?Ebm, ?Epend; try done; try apply I.
  - by rewrite Epcc.
  - by eapply (view_fresh (view_of s) _ _ x a (i_view _ I)).
  - intros d Hd.
    assert (Loc (view_of s') (own_of s d) (if decide (d = c) then Locked x l else pc s d)) as L.
    { eapply (loc_fresh (view_of s) _ _ x a (i_view _ I)); try done.
      - pose proof (i_loc _ I d Hd). case_decide; [| done]. subst d. by rewrite <- Hp.
      - case_decide; [done |]. by apply (not_holder s c d).
      - case_decide; [done |]. by apply (not_holder s c d). }
    assert (own_of s' d = own_of s d) as ->
      by (unfold own_of; by rewrite Ht', Ht, Eact, Eres, Epend, Ehw, Etlb).
    destruct (decide (d = c)) as [-> | Hne]; [rewrite Epcc | by rewrite Epc].
    eapply loc_pc; [exact L | done | done | done |]. simpl. rewrite Esp, fn_lookup_insert.
    split_and!; [done | | ].
    + rewrite Hga. symmetry. by apply (fresh_ag (view_of s)).
    + eapply (gof_valid a); [| exact Hga]. apply (vo_ag _ _ (i_view _ I)).
Qed.

Lemma start_roll_inv c x l i (s : sys) :
  Inv s -> pc s c = Locked x l -> gen s + inc <= 2 ^ W - 2 * inc ->
  (is_valid (space s x) = true -> gof (space s x) <> gen s) ->
  (forall d, online d -> is_valid (reserved s d) = true -> reserved s d <> space s x) ->
  Inv (set_pc c (Roll x l cpu_numbers)
        (bitmap_reset (set_gen (next_generation (gen s)) (set_bitmap (bmap s) i (set_reserved (reserved s) s))))).
Proof.
  intros I Hp Hlast Hg Hnone. destruct (locked_view c x l s I Hp) as (Hc & Hl & Ht & Hroll & Hag).
  destruct (next_generation_add (gen s)) as [-> Hgw]; [apply (vo_gen _ _ (i_view _ I)) | done |].
  set (s' := set_pc c _ _).
  assert (todo_of s' = Some cpu_numbers) as Ht'.
  { unfold s', todo_of. simpl. by rewrite Hl, fn_lookup_insert. }
  assert (Hroll' : v_rolling (view_of s') = true) by (unfold view_of; by rewrite Ht').
  assert (forall d, online d -> done_in (todo_of s') d = false) as Hdone.
  { intros d Hd. rewrite Ht'. simpl. by rewrite bool_decide_eq_true_2 by (by apply online_numbers). }
  assert (forall k, 0 <= k < inc -> v_bm (view_of s') k = false) as Hbm.
  { intros k Hk. simpl. apply bs_get_none. by rewrite ids_size. }
  apply (inv_shared s s' c); try done; try apply I.
  - apply bs_none_ok.
  - intros d Hne. unfold s'. rewrite pc_update. by case_decide.
  - unfold s'. rewrite pc_update. by case_decide.
  - by apply (view_start (view_of s) _ _ (i_view _ I)).
  - intros d Hd.
    assert (Loc (view_of s') (own_of s d) (if decide (d = c) then Locked x l else pc s d)) as L.
    { eapply (loc_start (view_of s)); try done.
      pose proof (i_loc _ I d Hd). case_decide; [| done]. subst d. by rewrite <- Hp. }
    assert (own_of s' d = own_of s d) as ->.
    { pose proof (Hdone d Hd) as E. unfold own_of. rewrite E. by rewrite Ht. }
    unfold s' at 2. rewrite pc_update. case_decide; [| done].
    eapply loc_pc; [exact L | done | done | done |]. simpl. split; [split; [apply NoDup_seqZ | done] |].
    rewrite (start_ag (view_of s)), Hag by done. done.
Qed.

(** An identifier is fresh, or a roll-over starts. *)
Lemma find_inv c x l (s : sys) :
  Inv s -> pc s c = Locked x l -> gen s + inc <= 2 ^ W - 2 * inc ->
  gof (space s x) <> gen s ->
  (forall d, online d -> is_valid (reserved s d) = true -> reserved s d <> space s x) ->
  Inv (let '(n, i) := find_next (bmap s) (idx s) in
       let s1 := set_bitmap (bmap s) i (set_reserved (reserved s) s) in
       if n =? asid_num
       then set_pc c (Roll x l cpu_numbers) (bitmap_reset (set_gen (next_generation (gen s)) s1))
       else set_pc c (Store x l (n .| gen s)) (set_space x (n .| gen s) s1)).
Proof.
  intros I Hp Hlast Hg Hnone. destruct (find_next (bmap s) (idx s)) as [n i] eqn:Ef. simpl.
  destruct (find_next_spec _ _ _ _ Ef) as [(Hn & Hb & ->) | (-> & -> & _)].
  - destruct (Z.eqb_spec n asid_num); [lia |].
    assert (lock s = Some c) by (apply I; by rewrite Hp).
    eapply (fresh_inv c x l n s); try done; intros; rewrite pc_update; by case_decide.
  - rewrite Z.eqb_refl. by apply start_roll_inv.
Qed.

(** [alloc_asid] once it has the lock. *)
Lemma alloc_locked_inv c x l (s : sys) :
  Inv s -> pc s c = Locked x l -> gen s + inc <= 2 ^ W - 2 * inc -> Inv (alloc_locked c x l s).
Proof.
  intros I Hp Hlast. destruct (locked_view c x l s I Hp) as (Hc & Hl & Ht & Hroll & Hag).
  unfold alloc_locked. destruct (is_same_generation (space s x) (gen s)) eqn:Esg; simpl.
  { apply same_generation_spec in Esg. apply inv_set_pc; try done; try (by rewrite Hp).
    pose proof (i_loc _ I c Hc) as L. rewrite Hp in L. eapply loc_pc; [exact L | done | done | done |].
    simpl. rewrite Hag. split_and!; [done.. |].
    eapply gof_valid; [apply (vo_gen _ _ (i_view _ I)) | done]. }
  assert (gof (space s x) <> gen s) as Hg.
  { intros E. apply same_generation_spec in E. congruence. }
  unfold new_asid. destruct (is_valid (space s x) && bs_get (bmap s) (num (space s x))) eqn:Ev.
  - apply andb_prop in Ev as [Ev Eb].
    destruct (check_and_update_reserved cpu_numbers (space s x) (num (space s x) .| gen s) false (reserved s))
      as [[] r] eqn:Ecu; [by apply renew_inv |].
    pose proof (check_and_update_miss cpu_numbers (space s x) (num (space s x) .| gen s) (reserved s) false) as Hm.
    rewrite Ecu in Hm. destruct (Hm eq_refl) as [Er Hno]. simpl in Er. subst r.
    apply (find_inv c x l s); try done. intros d Hd _. apply Hno; [by apply online_numbers | apply Hd].
  - apply (find_inv c x l s); try done. intros d Hd Hv E. rewrite E in Hv. rewrite Hv in Ev. simpl in Ev.
    pose proof (vo_bit _ _ (i_view _ I) d Hd) as Hb. rewrite Hroll in Hb. simpl in Hb.
    rewrite E in Hb. specialize (Hb ltac:(done) Hv). congruence.
Qed.

Lemma view_done v done done' :
  View_ok v done -> (forall d, online d -> done' d = done d) -> View_ok v done'.
Proof.
  intros V E. split; try apply V.
  - intros d Hd Hr. apply (vo_bit _ _ V); [done |]. intros Hy. rewrite <- E by done. auto.
  - intros n Hr Hn Hb. destruct (vo_few _ _ V n Hr Hn Hb) as (d & Hd & Hdn & ?).
    exists d. by rewrite E.
Qed.

(** The state of the CPU that rolls over. *)
Lemma roll_view c x l todo (s : sys) :
  Inv s -> pc s c = Roll x l todo ->
  online c /\ lock s = Some c /\ todo_of s = Some todo /\ todo_ok todo.
Proof.
  intros I Hp. assert (lock s = Some c) as Hl by (apply I; by rewrite Hp).
  assert (online c) as Hc by (apply I; by rewrite Hp).
  pose proof (l_pc _ _ _ (i_loc _ I c Hc)) as Hok. rewrite Hp in Hok. destruct Hok as [Hnd _].
  split_and!; [done.. | | done]. unfold todo_of. by rewrite Hl, Hp.
Qed.

Lemma done_tail cpu todo d :
  NoDup (cpu :: todo) -> done_in (Some todo) d = (d =? cpu) || done_in (Some (cpu :: todo)) d.
Proof.
  intros [Hni _]%NoDup_cons. simpl. destruct (Z.eqb_spec d cpu) as [-> | Hne].
  - by rewrite bool_decide_eq_false_2.
  - simpl. f_equal. apply bool_decide_ext. rewrite elem_of_cons. naive_solver.
Qed.

Lemma todo_ok_tail cpu todo : todo_ok (cpu :: todo) -> todo_ok todo /\ 0 <= cpu < max_num_cpus.
Proof.
  intros [[_ Hnd]%NoDup_cons Hsub]. split; [split; [done |] |].
  - intros d Hd. apply Hsub. by apply list_elem_of_further.
  - assert (cpu ∈ cpu_numbers) as Hin by (apply Hsub, list_elem_of_here). apply elem_of_seqZ in Hin. lia.
Qed.

Lemma skip_inv c x l cpu todo (s : sys) :
  Inv s -> pc s c = Roll x l (cpu :: todo) -> cpu_online cpu = false ->
  Inv (set_pc c (Roll x l todo) s).
Proof.
  intros I Hp Hoff. destruct (roll_view c x l _ s I Hp) as (Hc & Hl & Ht & [Hnd Hsub]).
  set (s' := set_pc c (Roll x l todo) s).
  assert (todo_of s' = Some todo) as Ht' by (unfold s', todo_of; simpl; by rewrite Hl, fn_lookup_insert).
  assert (forall d, online d -> done_in (todo_of s') d = done_in (todo_of s) d) as Hdn.
  { intros d [Hd _]. rewrite Ht', Ht, (done_tail cpu) by done. destruct (Z.eqb_spec d cpu); [congruence | done]. }
  assert (view_of s' = view_of s) as Hv by (unfold view_of; by rewrite Ht', Ht).
  apply (inv_shared s s' c); try done; try apply I.
  - intros d Hne. unfold s'. rewrite pc_update. by case_decide.
  - unfold s'. rewrite pc_update. by case_decide.
  - rewrite Hv. eapply view_done; [apply I | done].
  - intros d Hd. rewrite Hv.
    assert (own_of s' d = own_of s d) as -> by (unfold own_of; by rewrite Hdn).
    pose proof (i_loc _ I d Hd) as L. unfold s'. rewrite pc_update. case_decide; [subst d | done].
    rewrite Hp in L. eapply loc_pc; [exact L | done | done | done |].
    destruct (l_pc _ _ _ L) as [[? _]%todo_ok_tail ?]. done.
Qed.

Lemma pass_inv c x l cpu todo (s : sys) :
  Inv s -> pc s c = Roll x l (cpu :: todo) -> online cpu -> lost (pc s cpu) = false ->
  Inv (set_pc c (Roll x l todo) (roll_over_cpu cpu s)).
Proof.
  intros I Hp Hon Hlost. destruct (roll_view c x l _ s I Hp) as (Hc & Hl & Ht & [Hnd Hsub]).
  set (k := keep (own_of s cpu) (pc s cpu)).
  assert (done_in (todo_of s) cpu = false) as Hdone
    by (rewrite Ht; simpl; by rewrite bool_decide_eq_true_2 by apply list_elem_of_here).
  assert (k = if is_valid (active s cpu) then active s cpu else reserved s cpu) as Hk.
  { unfold k, keep, own_of. simpl. rewrite Hdone, Hlost. by destruct is_valid. }
  set (s' := set_pc c (Roll x l todo) (roll_over_cpu cpu s)).
  assert (gen s' = gen s /\ space s' = space s /\ lock s' = Some c /\ active s' = <[cpu := Invalid]> (active s) /\
    (forall d, reserved s' d = if d =? cpu then k else reserved s d) /\ pending s' = pending s /\
    bmap s' = (if is_valid k then bs_set (bmap s) (num k) else bmap s) /\ idx s' = idx s /\
    hw s' = hw s /\ tlb s' = tlb s /\ pc s' = <[c := Roll x l todo]> (pc s))
    as (Egen & Esp & Elk & Eact & Eres & Epend & Ebm & Eidx & Ehw & Etlb & Epc).
  { unfold s', roll_over_cpu. rewrite (proj1 Hon). simpl. rewrite Hk.
    destruct (is_valid (active s cpu)) eqn:Ea; simpl; [rewrite Ea; simpl | destruct (is_valid (reserved s cpu)) eqn:Er; simpl].
    all: split_and!; try done; intros d; destruct (Z.eqb_spec d cpu) as [-> |]; try done.
    - apply fn_lookup_insert.
    - by apply fn_lookup_insert_ne. }
  clearbody s'.
  assert (todo_of s' = Some todo) as Ht' by (unfold todo_of; by rewrite Elk, Epc, fn_lookup_insert).
  assert (Hroll : v_rolling (view_of s) = true) by (unfold view_of; by rewrite Ht).
  assert (Hroll' : v_rolling (view_of s') = true) by (unfold view_of; by rewrite Ht').
  assert (bs_ok (bmap s')) as Hbok.
  { rewrite Ebm. destruct (is_valid k); [| apply I]. apply bs_set_ok; [apply I |].
    rewrite ids_size. apply num_range. }
  assert (forall n, 0 <= n < inc ->
    v_bm (view_of s') n = (is_valid k && (n =? num k)) || v_bm (view_of s) n) as Hbm.
  { intros n Hn. simpl. rewrite Ebm. destruct (is_valid k); [| done].
    rewrite bs_get_set by (apply I || (rewrite ids_size; apply num_range || done)). done. }
  assert (forall d, done_in (todo_of s') d = (d =? cpu) || done_in (todo_of s) d) as Hdn
    by (intros d; rewrite Ht', Ht; by apply done_tail).
  pose proof (i_view _ I) as V. pose proof (i_loc _ I cpu Hon) as Lcpu.
  assert (Hgen' : v_gen (view_of s') = v_gen (view_of s)) by done.
  assert (Hsp' : v_space (view_of s') = v_space (view_of s)) by done.
  assert (Hod : o_done (own_of s cpu) = false) by done.
  assert (forall d, online d -> Loc (view_of s') (own_of s' d) (pc s d)) as L'.
  { intros d Hd. destruct (decide (d = cpu)) as [-> | Hne].
    - assert (own_of s' cpu = own_pass (own_of s cpu) (pc s cpu)) as ->.
      { unfold own_of at 1, own_pass. rewrite Hdn, Eact, Eres, Epend, Ehw, Etlb, fn_lookup_insert, Z.eqb_refl. done. }
      by eapply (loc_pass (view_of s) (view_of s') cpu).
    - assert (own_of s' d = own_of s d) as ->.
      { unfold own_of. rewrite Hdn, Eact, Eres, Epend, Ehw, Etlb, fn_lookup_insert_ne by done.
        by destruct (Z.eqb_spec d cpu). }
      eapply (loc_pass_other (view_of s) (view_of s') cpu (own_of s cpu) (pc s cpu)); try done. by apply I. }
  apply (inv_shared s s' c); try done.
  - rewrite Epend. apply I.
  - intros d Hne. rewrite Epc. by apply fn_lookup_insert_ne.
  - by rewrite Epc, fn_lookup_insert.
  - by eapply (view_pass (view_of s) (view_of s') _ _ cpu (own_of s cpu) (pc s cpu)).
  - intros d Hd. specialize (L' d Hd). rewrite Epc.
    destruct (decide (d = c)) as [-> | Hne]; [rewrite fn_lookup_insert | by rewrite fn_lookup_insert_ne].
    rewrite Hp in L'. eapply loc_pc; [exact L' | done | done | done |].
    destruct (l_pc _ _ _ L') as [[? _]%todo_ok_tail ?]. done.
Qed.

(** The roll-over has passed all CPUs; an identifier is still to be found. *)
Lemma end_roll_inv c x l (s : sys) :
  Inv s -> pc s c = Roll x l [] -> Inv (set_pc c (Locked x l) (set_pending online_mask s)).
Proof.
  intros I Hp. destruct (roll_view c x l _ s I Hp) as (Hc & Hl & Ht & [Hnd Hsub]).
  set (s' := set_pc c _ _).
  assert (todo_of s' = None) as Ht' by (unfold s', todo_of; simpl; by rewrite Hl, fn_lookup_insert).
  assert (forall d, online d -> done_in (todo_of s) d = true) as Hall by (intros d _; by rewrite Ht).
  assert (Hroll : v_rolling (view_of s) = true) by (unfold view_of; by rewrite Ht).
  assert (Hroll' : v_rolling (view_of s') = false) by (unfold view_of; by rewrite Ht').
  apply (inv_shared s s' c); try done; try apply I.
  - apply online_mask_ok.
  - intros d Hne. unfold s'. rewrite pc_update. by case_decide.
  - unfold s'. rewrite pc_update. by case_decide.
  - by eapply (view_finish (view_of s) _ _ (i_view _ I)).
  - intros d Hd.
    assert (own_of s' d = own_finish (own_of s d)) as ->.
    { unfold own_of, own_finish. rewrite Ht'. simpl. f_equal. apply Hd. }
    unfold s' at 2. rewrite pc_update.
    eapply (loc_finish (view_of s)); try done; simpl; try by rewrite Ht.
    + pose proof (i_loc _ I d Hd) as L. case_decide; [subst d | done]. rewrite Hp in L.
      eapply loc_pc; [exact L | done..].
    + case_decide; [done |]. by apply (not_holder s c d).
    + case_decide; [done |]. by apply (not_holder s c d).
Qed.

(** There are more identifiers than CPUs that can reserve one. *)
Lemma some_free (s : sys) :
  Inv s -> is_Some (todo_of s) -> 0 <= max_num_cpus ->
  ~ (forall j, Asid_base <= j < asid_num -> bs_get (bmap s) j = true).
Proof.
  intros I Ht Hmax Hall.
  assert (Hroll : v_rolling (view_of s) = true) by (simpl; by apply bool_decide_eq_true_2).
  assert (seqZ Asid_base (asid_num - Asid_base) ⊆ (fun d => num (reserved s d)) <$> cpu_numbers) as Hsub.
  { intros j Hj%elem_of_seqZ. pose proof Asid_base_ok. pose proof asid_num_inc.
    destruct (vo_few _ _ (i_view _ I) j Hroll) as (d & Hd & _ & _ & E); [lia | apply Hall; lia |].
    apply list_elem_of_fmap. exists d. split; [done | by apply online_numbers]. }
  apply NoDup_submseteq in Hsub; [| apply NoDup_seqZ]. apply submseteq_length in Hsub.
  unfold cpu_numbers in Hsub. rewrite length_fmap, !length_seqZ in Hsub. lia.
Qed.

Lemma asid_finish_inv c x l (s : sys) : Inv s -> pc s c = Roll x l [] -> Inv (finish_roll_over c x l s).
Proof.
  intros I Hp. destruct (roll_view c x l _ s I Hp) as (Hc & Hl & Ht & [Hnd Hsub]).
  pose proof (end_roll_inv c x l s I Hp) as I1. set (s1 := set_pc c (Locked x l) _) in I1.
  assert (Hroll : v_rolling (view_of s) = true) by (unfold view_of; by rewrite Ht).
  assert (idx s = Asid_base) as Hidx by (by apply (vo_base _ _ (i_view _ I))).
  pose proof (l_pc _ _ _ (i_loc _ I c Hc)) as Hok. rewrite Hp in Hok. destruct Hok as (_ & Hg & Hnone).
  assert (pc s1 c = Locked x l) as Hp1 by (unfold s1; rewrite pc_update; by case_decide).
  unfold finish_roll_over. simpl. destruct (find_next (bmap s) (idx s)) as [n i] eqn:Ef.
  destruct (find_next_spec _ _ _ _ Ef) as [(Hn & Hb & ->) | (_ & _ & Hfull)].
  - eapply (fresh_inv c x l n s1); try done.
    + intros Hv E. pose proof (vo_range _ _ (i_view _ I) x Hv) as [_ Hle]. simpl in Hle.
      pose proof inc_pos. unfold ag in Hle. rewrite Hroll in Hle. simpl in *. lia.
    + intros d Hne. unfold s1. rewrite !pc_update. by case_decide.
    + rewrite pc_update. by case_decide.
  - exfalso. eapply (some_free s I); [by rewrite Ht | destruct Hc; lia | by rewrite <- Hidx].
Qed.

Lemma acquire_inv c x l (s : sys) :
  Inv s -> pc s c = Acquire x l -> lock s = None -> Inv (set_pc c (Locked x l) (set_lock (Some c) s)).
Proof.
  intros I Hp El. assert (online c) as Hc by (apply I; by rewrite Hp).
  pose proof (i_loc _ I c Hc) as L. rewrite Hp in L. set (s' := set_pc c _ _).
  assert (todo_of s = None) as Ht by (unfold todo_of; by rewrite El).
  assert (pc s' c = Locked x l) as Hp' by (unfold s'; rewrite pc_update; by case_decide).
  assert (todo_of s' = None) as Ht' by (apply (todo_none s' c); [done | by rewrite Hp']).
  assert (forall d, own_of s' d = own_of s d) as Ho by (intros d; unfold own_of; by rewrite Ht', Ht).
  apply (inv_local s s' c); try done; try apply I.
  - unfold view_of. by rewrite Ht', Ht.
  - by rewrite Ht', Ht.
  - intros d Hne. unfold s'. rewrite pc_update. by case_decide.
  - by rewrite Hp'.
  - intros d Hne. rewrite El. split; [by intros [= ->] | done].
  - rewrite Ho, Hp'. by eapply loc_pc; [exact L | done..].
Qed.

(** The comparison of generations. *)
Lemma asid_check_inv c x a (s : sys) :
  Inv s -> pc s c = Check x a ->
  Inv (set_pc c (if is_same_generation a (gen s) then Exchange x a else Acquire x false) s).
Proof.
  intros I Hp. assert (online c) as Hc by (apply I; by rewrite Hp).
  pose proof (i_loc _ I c Hc) as L. rewrite Hp in L.
  destruct (is_same_generation a (gen s)) eqn:Eg; (apply inv_set_pc; try done; try by rewrite Hp);
    (eapply loc_pc; [exact L | done.. |]); [| done].
  apply same_generation_spec in Eg. pose proof (l_pc _ _ _ L) as Hx. simpl in Hx.
  assert (is_valid a = true) as Hva by (eapply gof_valid; [apply (vo_gen _ _ (i_view _ I)) | done]).
  assert (space s x = a) as Hsp.
  { destruct Hx as [? | [? | ?]]; [done | simpl in *; lia | congruence]. }
  assert (gof a <= ag (view_of s)) as Hle by (rewrite <- Hsp; apply (vo_range _ _ (i_view _ I)); simpl; congruence).
  simpl. intros _ _. split_and!; [done | | done]. pose proof inc_pos.
  unfold ag in *. destruct (v_rolling (view_of s)); simpl in *; lia.
Qed.

(** Every orderly step keeps the invariant. *)
Lemma run_inv c (s s' : sys) : Inv s -> orderly (Run c) s -> run c s = Some s' -> Inv s'.
Proof.
  intros I Ho E. unfold run in E. simpl in Ho. destruct (pc s c) as [| x | x a | x a | x l | x l | x l todo | x l a | x | x | x n] eqn:Hp;
    simplify_eq.
  all: assert (online c) as Hc by (apply I; by rewrite Hp).
  all: pose proof (i_loc _ I c Hc) as L; rewrite Hp in L.
  - apply inv_set_pc; try done; try by rewrite Hp. by eapply loc_pc; [exact L | done.. | left].
  - by apply asid_check_inv.
  - by apply exchange_inv.
  - destruct (lock s) eqn:El; simplify_eq. by apply acquire_inv.
  - by apply alloc_locked_inv.
  - destruct todo as [| cpu todo]; simplify_eq; [by apply asid_finish_inv |].
    destruct (cpu_online cpu) eqn:Eo.
    + destruct (l_pc _ _ _ L) as [[_ Hcpu]%todo_ok_tail _]. by apply pass_inv.
    + unfold roll_over_cpu. rewrite Eo. by apply (skip_inv c x l cpu).
  - by apply (alloc_store_inv c x l).
  - by apply flush_inv.
  - apply inv_set_pc; try done; try by rewrite Hp. by apply loc_reload.
  - by apply write_inv.
Qed.
End steps.
