(* ===== verification/AsidSpec.v ===== *)
(** Theorems about address-space identifiers: identifiers are unique and no CPU
    runs an address space with TLB entries of another one, as long as no
    roll-over takes over the active word of a CPU that has exchanged it in vain;
    and a run in which this happens and both fail. *)

From stdpp Require Import functions.
From S2P Require Import Prelude Bitmap Asid AsidInv AsidSteps.
Import Asid_t.

Section spec.
Context `{Asid_params}.
Context {M N : Type} {BM : Bit_set M} {BN : Bit_set N} `{!Cpus N}.
Abbreviation num := Asid_t.asid.
Abbreviation inc := Generation_inc.
Abbreviation sys := (sys (M := M) (N := N)).

#[export] Instance asid_orderly_decision (l : label) (s : sys) : Decision (orderly l s).
Proof.
  destruct l as [c x | c | c]; simpl; try apply _.
  destruct (pc s c) as [| | | | | | ? ? [] | | | |]; apply _.
Defined.

(** The states that orderly steps reach. *)
Inductive reachable : sys -> Prop :=
  | reachable_start : reachable start
  | reachable_step l s s' : reachable s -> orderly l s -> step l s = Some s' -> reachable s'.

Fixpoint orderly_runs (ls : list label) (s : sys) : option sys :=
  match ls with
  | [] => Some s
  | l :: ls' => if decide (orderly l s)
                then match step l s with Some s' => orderly_runs ls' s' | None => None end
                else None
  end.

Lemma asid_orderly_runs_reachable ls : forall s s', reachable s -> orderly_runs ls s = Some s' -> reachable s'.
Proof.
  induction ls as [| l ls IH]; intros s s' Hs; simpl; [by intros [= <-] |].
  destruct (decide (orderly l s)); [| done]. destruct (step l s) as [s1 |] eqn:E; [| done].
  apply IH. by eapply reachable_step.
Qed.

Lemma is_online_spec c : is_online c = true -> online c.
Proof.
  unfold is_online. intros [[? Hlo%Z.leb_le]%andb_prop Hhi%Z.ltb_lt]%andb_prop. by split.
Qed.

Hypothesis ids_size : bs_size (M := M) = 2 ^ ASID_BITS.
Hypothesis ids_enough : max_num_cpus < asid_num - Asid_base.

(** There is a generation before the last one. *)
Hypothesis gens_enough : 3 * inc <= 2 ^ W.

Lemma asid_start_inv : Inv (start (M := M) (N := N)).
Proof.
  assert (gen_word inc) as Hg.
  { pose proof inc_pos. split; [lia | apply Z.mod_same; lia]. }
  pose proof invalid_not_valid as Hi.
  split; simpl; try apply bs_none_ok; try done.
  - split; simpl; rewrite ?Hi; try done. pose proof Asid_base_ok. done.
  - intros d Hd. split; simpl; try done.
    + by rewrite Hi.
    + intros _. by right.
    + intros n y _ _ Hy. by apply not_elem_of_nil in Hy.
Qed.

Lemma asid_reachable_inv s : reachable s -> Inv s.
Proof.
  induction 1 as [| l s s' _ I Ho E]; [apply asid_start_inv |].
  destruct l as [c x | c | c]; simpl in E.
  - destruct (pc s c) eqn:Hp; try done. destruct (is_online c) eqn:Eo; simplify_eq.
    apply is_online_spec in Eo. apply inv_set_pc; try done; try (by rewrite Hp).
    pose proof (i_loc _ I c Eo) as L. rewrite Hp in L. by eapply loc_pc.
  - by eapply run_inv.
  - destruct (hw s c) as [[n x] |] eqn:Hw; [| done]. destruct (is_online c) eqn:Eo; simplify_eq.
    apply is_online_spec in Eo. by apply fill_inv.
Qed.

(** C8: As long as no roll-over takes over the active word of a CPU that has
    exchanged it in vain, and the generations do not wrap around, a CPU finds in
    its TLB for the identifier it runs with only entries of the address space it
    runs; no two address spaces have the same generation and identifier; and
    identifiers are within the range of the hardware. *)
Theorem asid_tlb_safe (s : sys) :
  reachable s ->
  (forall c n x y, online c -> hw s c = Some (n, x) -> (n, y) ∈ tlb s c -> y = x) /\
  (forall x y, is_valid (space s x) = true -> space s x = space s y -> x = y) /\
  (forall x, is_valid (space s x) = true -> 0 <= num (space s x) < asid_num).
Proof.
  intros I%asid_reachable_inv. split_and!.
  - intros c n x y Hc. apply (l_safe _ _ _ (i_loc _ I c Hc)).
  - intros x y. apply (vo_uniq _ _ (i_view _ I)).
  - intros x Hx. by apply (vo_range _ _ (i_view _ I)).
Qed.
End spec.

(** * Runs of two CPUs with four identifiers *)
Module Asid_example.
#[local] Existing Instance arch64.

#[local] Instance params : Asid_params.
Proof. refine {| W := 64; ASID_BITS := 2; Asid_base := 0; asid_num := 4 |}; [by right | lia | lia | simpl; lia]. Defined.

Lemma four_ids : 0 < 4 < 2 ^ 32 - MWORD_BITS.
Proof. simpl; lia. Qed.
Lemma two_masks : 0 < 2 < 2 ^ 32 - MWORD_BITS.
Proof. simpl; lia. Qed.
Definition ids : Bit_set Bitmap.t := cpu_mask_bit_set 4 four_ids.
Definition masks : Bit_set Bitmap.t := cpu_mask_bit_set 2 two_masks.
#[local] Existing Instance masks.

#[local] Instance two_cpus : Cpus Bitmap.t (H := masks).
Proof.
  refine {| max_num_cpus := 2; online_mask := bs_set (bs_set bs_none 0) 1 |}; [simpl; lia |].
  apply bs_set_ok; [apply bs_set_ok; [apply bs_none_ok |] |]; simpl; lia.
Defined.

Abbreviation boot := (start (M := Bitmap.t) (N := Bitmap.t) (BM := ids) (BN := masks)).

(** CPU [c] makes [x] its address space, in [n] accesses. *)
Definition switch (n : nat) (c x : Z) : list label := Call c x :: replicate n (Run c).

(** CPU 0 runs address space 0; CPU 1 runs address spaces 1 to 5 one after the
    other, the fourth of them with a roll-over. *)
Definition beginning : list label :=
  switch 7 0 0 ++ [Fill 0] ++ switch 7 1 1 ++ [Fill 1] ++ switch 7 1 2 ++ switch 7 1 3 ++ [Fill 1]
  ++ switch 11 1 4 ++ switch 7 1 5 ++ [Fill 1].

(** Then CPU 0 runs 5 as well and flushes its TLB before. *)
Definition orderly_end : list label := switch 9 0 5 ++ [Fill 0].

(** What an observer sees of a state. *)
Definition seen (s : sys (M := Bitmap.t) (N := Bitmap.t)) :=
  (map (space s) [0; 1; 2; 3; 4; 5; 6], map (hw s) [0; 1], map (tlb s) [0; 1]).

Lemma asid_seen_some o v : option_map seen o = Some v -> exists s, o = Some s /\ seen s = v.
Proof. destruct o as [s |]; [| done]. simpl. intros [= E]. by exists s. Qed.

Abbreviation safe_run := (orderly_runs (BM := ids) (BN := masks) (beginning ++ orderly_end) boot).

Lemma asid_tlb_safe_witness :
  exists s, safe_run = Some s /\
    seen s = ([4; 5; 6; 7; 9; 10; 2 ^ 64 - 1], [Some (2, 5); Some (2, 5)], [[(2, 5)]; [(2, 5)]]) /\
    (forall c n x y, online c -> hw s c = Some (n, x) -> (n, y) ∈ tlb s c -> y = x).
Proof.
  assert (option_map seen safe_run =
    Some ([4; 5; 6; 7; 9; 10; 2 ^ 64 - 1], [Some (2, 5); Some (2, 5)], [[(2, 5)]; [(2, 5)]])) as Hseen
    by (vm_compute; reflexivity).
  apply asid_seen_some in Hseen as (s & E & Hseen).
  exists s. split; [exact E |]. split; [exact Hseen |].
  apply (asid_tlb_safe (M := Bitmap.t) (N := Bitmap.t) (BM := ids) (BN := masks)).
  - reflexivity.
  - vm_compute. reflexivity.
  - vm_compute. discriminate.
  - eapply asid_orderly_runs_reachable; [apply reachable_start | exact E].
Defined.

(** CPU 0, still running address space 0 since before the roll-over, checks and
    exchanges its active word for that of 5 and finds that it was invalid; before
    it gets the lock, CPU 1 rolls over for 6.  The identifier of 0 is no longer
    reserved and goes to 6.  CPU 0 flushes its TLB, an entry of 0 is taken in
    before the register is loaded, and CPU 0 switches to 6 without a flush. *)
Definition racing : list label :=
  beginning ++ switch 3 0 5 ++ switch 11 1 6 ++ replicate 4 (Run 0) ++ [Fill 0] ++ replicate 2 (Run 0)
  ++ switch 5 0 6.

Abbreviation all_runs ls := (runs (BM := ids) (BN := masks) ls boot).

(** The exchange of [set_active_asid] overwrites the mark of a roll-over: when
    another roll-over follows before the CPU gets the lock, the identifier that
    the CPU runs with is handed out again, and the CPU can run an address space
    with a TLB entry of another one. *)
Theorem asid_race_stale_entry :
  option_map (fun s => (hw s 0, tlb s 0)) (all_runs racing) = Some (Some (0, 6), [(0, 0)]).
Proof. vm_compute. reflexivity. Qed.

(** The same race with two roll-overs: the stale word is reserved beside the word
    of the address space that has the identifier now, and both are taken over
    into the next generation. *)
Definition racing_twice : list label :=
  switch 7 0 0 ++ switch 7 1 1 ++ switch 5 0 1 ++ switch 5 0 0 ++ switch 7 1 2 ++ switch 7 1 3
  ++ switch 2 0 1 ++ switch 11 1 4 ++ [Run 0] ++ switch 7 1 5 ++ switch 5 1 4 ++ switch 11 1 6
  ++ replicate 6 (Run 0) ++ switch 7 1 4.

Theorem asid_race_shared_word :
  option_map (fun s => (space s 1, space s 4, hw s 0, hw s 1)) (all_runs racing_twice)
  = Some (13, 13, Some (1, 1), Some (1, 4)).
Proof. vm_compute. reflexivity. Qed.
End Asid_example.
