(* ===== verification/Irq.v ===== *)
(** Interrupt objects ([src/src/kern/irq_chip.h], [irq.h], [irq.cc]): the mask of
    an interrupt and its chip, the messages that all interrupt objects
    understand, and the objects that turn interrupts into IPC messages.

    [Irq_sender] is modelled on one processor, where its operations run with
    interrupts disabled and are steps.  What it sends its messages to is an
    endpoint, a thread or a wait queue: the number of threads that wait there for
    a message of this sender, and the sender list, of which it matters only
    whether this sender is in it. *)

From stdpp Require Import functions.
From S2P Require Import Prelude L4Types.

(** * [Irq_base] *)
Module Irq_base.
Section ops.
Context `{Arch}.

(** What an interrupt chip is told about a pin. *)
Inductive chip_op := Mask | Unmask | Ack | Mask_and_ack | Set_cpu (cpu : Z).

(** [told]: what the chips have been told, with chip and pin.  Chip 0 is
    [Irq_chip_soft::sw_chip], which does nothing. *)
Record t := mk { _chip : Z; _pin : Z; _flags : Z; told : list (Z * Z * chip_op) }.

Definition F_enabled : Z := 1.

Definition tell (o : chip_op) (i : t) : t :=
  mk (_chip i) (_pin i) (_flags i) (told i ++ [(_chip i, _pin i, o)]).
Definition set_flags (f : Z) (i : t) : t := mk (_chip i) (_pin i) f (told i).

Definition masked (i : t) : bool := negb (nonzero (_flags i .& F_enabled)).

(** The result of both is whether the interrupt was masked before. *)
Definition __mask (i : t) : bool * t :=
  if negb (nonzero (_flags i .& F_enabled)) then (true, i)
  else (false, set_flags (_flags i .& mnot F_enabled) i).
Definition __unmask (i : t) : bool * t :=
  if nonzero (_flags i .& F_enabled) then (false, i)
  else (true, set_flags (_flags i .| F_enabled) i).

Definition mask (i : t) : t := let '(was, i) := __mask i in if was then i else tell Mask i.
Definition mask_and_ack (i : t) : t :=
  let '(was, i) := __mask i in if was then tell Ack i else tell Mask_and_ack i.
Definition unmask (i : t) : t := let '(was, i) := __unmask i in if was then tell Unmask i else i.
Definition ack (i : t) : t := tell Ack i.
Definition set_cpu (cpu : Z) (i : t) : t := tell (Set_cpu cpu) i.

(** [Irq_chip::bind] with [ctor_only] *)
Definition bind_only (chip pin : Z) (i : t) : t := mk chip pin (_flags i) (told i).
(** [Irq_chip::bind], after [switch_mode] *)
Definition bind (chip pin : Z) (i : t) : t :=
  let i := bind_only chip pin i in if masked i then tell Mask i else tell Unmask i.
Definition unbind (i : t) : t := bind_only 0 0 i.

(** The constructor *)
Definition make : t := mask (bind_only 0 0 (mk 0 0 0 [])).

(** [Upstream_irq::ack]: the chips and pins that the interrupt came through. *)
Definition upstream_ack (ui : list (Z * Z)) (i : t) : t :=
  mk (_chip i) (_pin i) (_flags i) (told i ++ map (fun cp => (cp.1, cp.2, Ack)) ui).
End ops.
End Irq_base.

(** * Messages to interrupt objects *)

Definition Label_irq : Z := -1.
Definition Label_kobject : Z := -10.
Definition Label_irq_sender : Z := -18.
Definition Label_semaphore : Z := -20.

Definition Op_eoi_1 : Z := 0.
Definition Op_trigger : Z := 2.
Definition Op_eoi_2 : Z := 4.

Section messages.
Context `{Arch}.

Definition get_irq_opcode (tag v0 : Z) : Z :=
  if (L4_msg_tag.proto tag =? Label_irq) && (L4_msg_tag.words tag =? 0) then Op_trigger
  else if L4_msg_tag.words tag <? 1 then -1
  else v0 .& 0xffff.

Inductive irq_request := Eoi | Trigger.

(** [dispatch_irq_proto]; [None]: [-ENosys]. *)
Definition dispatch_irq_proto (op : Z) : option irq_request :=
  if (op =? Op_eoi_1) || (op =? Op_eoi_2) then Some Eoi
  else if op =? Op_trigger then Some Trigger else None.
End messages.

(** * [Irq_sender] *)
Module Irq_sender.

(** [_irq_target] *)
Inductive target := Null | Detach_in_progress | Endpoint (e : Z).

#[export] Instance target_eq_dec : EqDecision target.
Proof. solve_decision. Defined.

(** The mode and the kind of the target are which function [hit_func] is. *)
Record t := mk {
  base : Irq_base.t;
  edge : bool;
  wq : bool;
  _queued : Z;
  _irq_target : target;
  _irq_id : Z }.

(** The sender and the endpoints. *)
Record sys := mk_sys {
  irq : t;
  in_list : option Z;        (** the endpoint in whose sender list the sender is *)
  receivers : Z -> nat;      (** threads that wait at an endpoint *)
  refs : Z -> Z;             (** references to an endpoint that senders hold *)
  got : list (Z * Z);        (** messages: endpoint and label *)
  deleted : list (Z * Z) }.  (** calls of [sender_deleted] *)

Section ops.
Context `{Arch}.
(** [cxx::dyn_cast<Thread *>], and the CPU of a thread when it is online. *)
Context (is_thread : Z -> bool) (online_cpu : Z -> option Z).

Definition all_ones : Z := mnot 0.

Definition make : t := mk Irq_base.make false false 0 Null all_ones.

Definition set_base (b : Irq_base.t) (i : t) : t := mk b (edge i) (wq i) (_queued i) (_irq_target i) (_irq_id i).
Definition set_mode (e w : bool) (i : t) : t := mk (base i) e w (_queued i) (_irq_target i) (_irq_id i).
Definition set_queued (n : Z) (i : t) : t := mk (base i) (edge i) (wq i) n (_irq_target i) (_irq_id i).
Definition set_target (x : target) (i : t) : t := mk (base i) (edge i) (wq i) (_queued i) x (_irq_id i).
Definition set_id (n : Z) (i : t) : t := mk (base i) (edge i) (wq i) (_queued i) (_irq_target i) n.

Definition on_irq (f : t -> t) (s : sys) : sys :=
  mk_sys (f (irq s)) (in_list s) (receivers s) (refs s) (got s) (deleted s).
Definition on_base (f : Irq_base.t -> Irq_base.t) : sys -> sys := on_irq (fun i => set_base (f (base i)) i).
Definition set_list (l : option Z) (s : sys) : sys :=
  mk_sys (irq s) l (receivers s) (refs s) (got s) (deleted s).
Definition set_receivers (e : Z) (n : nat) (s : sys) : sys :=
  mk_sys (irq s) (in_list s) (<[e := n]> (receivers s)) (refs s) (got s) (deleted s).
Definition add_ref (e d : Z) (s : sys) : sys :=
  mk_sys (irq s) (in_list s) (receivers s) (<[e := refs s e + d]> (refs s)) (got s) (deleted s).
Definition deliver (e l : Z) (s : sys) : sys :=
  mk_sys (irq s) (in_list s) (receivers s) (refs s) (got s ++ [(e, l)]) (deleted s).
Definition sender_deleted (e l : Z) (s : sys) : sys :=
  mk_sys (irq s) (in_list s) (receivers s) (refs s) (got s) (deleted s ++ [(e, l)]).

Definition switch_mode (e : bool) (i : t) : t := set_mode e (wq i) i.

Definition queue (i : t) : Z * t := (_queued i, set_queued (to_signed MWORD_BITS (_queued i + 1)) i).

Definition consume (i : t) : t :=
  let old := _queued i in
  let i := set_queued 0 i in
  if (2 <=? old) && edge i then set_base (Irq_base.unmask (base i)) i else i.

(** [transfer_msg] and [requeue_sender], which is never true. *)
Definition transfer (e : Z) (s : sys) : sys := on_irq consume (deliver e (_irq_id (irq s)) s).

(** [send] and [send_to_wq]: to a thread that waits, or into the sender list. *)
Definition send (e : Z) (s : sys) : sys :=
  match receivers s e with
  | S n => transfer e (set_receivers e n s)
  | O => set_list (Some e) s
  end.

(** [sender_dequeue]: was the sender in the list? *)
Definition sender_dequeue (e : Z) (s : sys) : bool * sys :=
  if decide (in_list s = Some e) then (true, set_list None s) else (false, s).

Definition _hit_level_irq (ui : list (Z * Z)) (s : sys) : sys :=
  let s := on_base (fun b => Irq_base.upstream_ack ui (Irq_base.mask_and_ack b)) s in
  match _irq_target (irq s) with
  | Endpoint e =>
      let '(q, i) := queue (irq s) in
      let s := on_irq (fun _ => i) s in
      if q =? 0 then send e s else s
  | _ => s
  end.

Definition _hit_edge_irq (ui : list (Z * Z)) (s : sys) : sys :=
  match _irq_target (irq s) with
  | Endpoint e =>
      let '(q, i) := queue (irq s) in
      let s := on_irq (fun _ => i) s in
      let s := on_base (fun b => Irq_base.upstream_ack ui (if q =? 0 then Irq_base.ack b else Irq_base.mask_and_ack b)) s in
      if q =? 0 then send e s else s
  | _ => on_base (fun b => Irq_base.upstream_ack ui (Irq_base.mask_and_ack b)) s
  end.

Definition hit (ui : list (Z * Z)) (s : sys) : sys :=
  if edge (irq s) then _hit_edge_irq ui s else _hit_level_irq ui s.

(** [bind_irq]: the result, [label] is the second word of the message. *)
Definition bind_irq (tgt label : Z) (s : sys) : Z * sys :=
  let old := _irq_target (irq s) in
  if decide (old = Endpoint tgt) then (0, on_irq (set_id label) s)
  else match old with
  | Detach_in_progress => (- L4_err.val L4_err.EBusy, s)
  | _ =>
      let s := add_ref tgt 1 (on_irq (fun i => set_id label (set_target (Endpoint tgt) i)) s) in
      let s := on_irq (fun i => set_mode (edge i) (negb (is_thread tgt)) i) s in
      let s := if is_thread tgt
               then match online_cpu tgt with Some c => on_base (Irq_base.set_cpu c) s | None => s end
               else s in
      match old with
      | Endpoint e =>
          let '(was, s) := sender_dequeue e s in
          (0, add_ref e (-1) (if was then send tgt s else s))
      | _ => (0, s)
      end
  end.

Definition detach_irq_thread (s : sys) : Z * sys :=
  match _irq_target (irq s) with
  | Detach_in_progress => (- L4_err.val L4_err.EBusy, s)
  | Null => (- L4_err.val L4_err.ENoent, s)
  | Endpoint e =>
      let s := on_base Irq_base.mask (on_irq (set_target Detach_in_progress) s) in
      let '(_, s) := sender_dequeue e s in
      (0, add_ref e (-1) (on_irq (set_target Null) s))
  end.

Definition sys_detach (rights : Z) (s : sys) : Z * sys :=
  if negb (nonzero (rights .& L4_fpage.Rights.CS)) then (- L4_err.val L4_err.EPerm, s)
  else let '(r, s) := detach_irq_thread s in (r, on_irq (set_id all_ones) s).

(** [sys_bind]; [ep]: the endpoint that the capability in the message refers to. *)
Definition sys_bind (rights : Z) (ep : Z + Z) (label : Z) (s : sys) : Z * sys :=
  if negb (nonzero (rights .& L4_fpage.Rights.CS)) then (- L4_err.val L4_err.EPerm, s)
  else match ep with
       | inl tag => (tag, s)
       | inr e => bind_irq e label s
       end.

Definition destroy (s : sys) : sys :=
  let s := on_base Irq_base.unbind s in
  let s := match _irq_target (irq s) with
           | Endpoint e => sender_deleted e (_irq_id (irq s)) s
           | _ => s
           end in
  snd (detach_irq_thread s).

(** [modify_label]: the first entry of four words that matches. *)
Fixpoint modify_label (todo : list (Z * Z * Z * Z)) (i : t) : t :=
  match todo with
  | [] => i
  | (test_mask, test, set_mask, set) :: todo' =>
      if (_irq_id i .& test_mask) =? test then set_id ((_irq_id i .& mnot set_mask) .| set) i
      else modify_label todo' i
  end.

(** A thread at an endpoint starts to receive: it takes the message of a sender in
    the list, or waits. *)
Definition receive (e : Z) (s : sys) : sys :=
  if decide (in_list s = Some e) then transfer e (set_list None s)
  else set_receivers e (S (receivers s e)) s.

(** A thread gives up. *)
Definition stop_receiving (e : Z) (s : sys) : sys := set_receivers e (pred (receivers s e)) s.

(** [dispatch_irq_proto] with [may_unmask] when nothing is pending. *)
Definition eoi (s : sys) : sys := if _queued (irq s) <? 1 then on_base Irq_base.unmask s else s.

Definition Op_bind : Z := 16.
Definition Op_detach : Z := 1.

(** [kinvoke]: a result, or none for the messages without reply. *)
Definition kinvoke (tag v0 rights : Z) (ep : Z + Z) (label : Z) (s : sys) : option Z * sys :=
  let op := get_irq_opcode tag v0 in
  let fail e := (Some (- L4_err.val e), s) in
  let reply (rs : Z * sys) := (Some (fst rs), snd rs) in
  if op <? 0 then fail L4_err.EInval
  else if L4_msg_tag.proto tag =? Label_kobject then
    if op =? Op_bind then reply (sys_bind rights ep label s) else fail L4_err.ENosys
  else if L4_msg_tag.proto tag =? Label_irq then
    match dispatch_irq_proto op with
    | Some Eoi => (None, eoi s)
    | Some Trigger => (None, hit [] s)
    | None => fail L4_err.ENosys
    end
  else if L4_msg_tag.proto tag =? Label_irq_sender then
    if op =? Op_detach then reply (sys_detach rights s) else fail L4_err.ENosys
  else fail L4_err.EBadproto.

(** ** Steps *)

Inductive label :=
  | Hit (ui : list (Z * Z))
  | Invoke (tag v0 rights : Z) (ep : Z + Z) (lbl : Z)
  | Receive (e : Z)
  | Stop (e : Z)
  | Modify (todo : list (Z * Z * Z * Z))
  | Chip_bind (chip pin : Z) (e : bool)   (** [Irq_chip::bind]; [e]: [is_edge_triggered(pin)] *)
  | Chip_unbind
  | Destroy.

Definition step (l : label) (s : sys) : sys :=
  match l with
  | Hit ui => hit ui s
  | Invoke tag v0 rights ep lbl => snd (kinvoke tag v0 rights ep lbl s)
  | Receive e => receive e s
  | Stop e => stop_receiving e s
  | Modify todo => on_irq (modify_label todo) s
  | Chip_bind c p e => on_irq (fun i => set_base (Irq_base.bind c p (base i)) (switch_mode e i)) s
  | Chip_unbind => on_base Irq_base.unbind s
  | Destroy => destroy s
  end.

Definition boot (waiting : Z -> nat) : sys := mk_sys make None waiting (fun _ => 0) [] [].

Definition steps (ls : list label) (s : sys) : sys := fold_left (fun s l => step l s) ls s.
End ops.
End Irq_sender.
