(* ===== verification/Semaphore.v ===== *)
(** Semaphores ([src/src/kern/semaphore.cc]).

    A semaphore counts the interrupts that nobody has waited for, or has a queue
    of threads that wait.  The sections under the lock of the queue are steps; a
    CPU that wakes a thread up does so after it has released the lock, as a step
    of its own, and so are the wake-up and the error code by which the
    destruction of the semaphore ends a wait.  Cancellation and timeouts come
    while the thread is in [schedule] or in user mode, because they run on the
    CPU of the thread with interrupts disabled.  The queue is the list of waiting
    threads in the order of service, which is what [PrioList] proves of
    [Locked_prio_list]. *)

From stdpp Require Import functions.
From S2P Require Import Prelude L4Types Ipc Irq.
Import Thread_state.

(** * Threads at a semaphore *)

(** What [sys_down] reports: success, an [L4_error], or [-L4_err::EPerm]. *)
Inductive result := Ok | R_canceled | R_timeout | Not_existent | EPerm.

(** Where a thread is in [sys_down]. *)
Inductive pc :=
  | User                        (** not in [sys_down] *)
  | Unmask_edge (to : timeout)  (** before [unmask], after [down] took a unit *)
  | Timer (to : timeout)        (** before [setup_timer] *)
  | Wait                        (** in the loop around [schedule] *)
  | Abort (s : Z)               (** woken up with the state [s] by a cancellation or timeout *)
  | Finish                      (** before the test of [utcb->error] *)
  | Ret (r : result).           (** has returned *)

(** [unit] and [late] are not in the code: the call has been given a unit of the
    semaphore; the semaphore was deleted already when the call came. *)
Record thread := mk_thread {
  st : Z;
  error : bool;                 (** [utcb->error] is [Not_existent] *)
  timeout_q : timer;
  at_ : pc;
  unit : bool;
  late : bool }.

Definition set_at (p : pc) (t : thread) : thread := mk_thread (st t) (error t) (timeout_q t) p (unit t) (late t).
Definition set_st (f : Z -> Z) (t : thread) : thread :=
  mk_thread (f (st t)) (error t) (timeout_q t) (at_ t) (unit t) (late t).
Definition set_error (t : thread) : thread := mk_thread (st t) true (timeout_q t) (at_ t) (unit t) (late t).
Definition set_timer (x : timer) (t : thread) : thread := mk_thread (st t) (error t) x (at_ t) (unit t) (late t).
Definition give_unit (t : thread) : thread := mk_thread (st t) (error t) (timeout_q t) (at_ t) true (late t).

(** Where a CPU is that wakes somebody up: in [_hit_edge_irq] and [_hit_level_irq]
    after [count_up], and in the loop of [destroy]. *)
Inductive waker :=
  | Off_duty
  | Activate (t : Z)            (** before [t->activate] *)
  | Emptying                    (** in [destroy], before [dequeue_first] *)
  | Write_error (t : Z)         (** in [destroy], before [error = Not_existent] *)
  | Activate_gone (t : Z).      (** in [destroy], before [t->activate] *)

Section sem.
Context `{Arch}.
(** The priorities of the threads, and the CPUs. *)
Context (prio : Z -> Z) (all_cpus : list Z).

Record sem := mk {
  _queued : Z;
  _waiting : list Z;
  edge : bool;                  (** [hit_func == &hit_edge_irq] *)
  irq : Irq_base.t;
  valid : bool;                 (** [existence_lock.valid()] *)
  clock : Z;
  threads : Z -> thread;
  cpus : Z -> waker;
  (** not in the code: interrupts, units given away, interrupts that the full
      counter did not count *)
  hits : Z;
  given : Z;
  dropped : Z }.

Definition LONG_MAX : Z := 2 ^ (MWORD_BITS - 1) - 1.

Definition on_thread (t : Z) (f : thread -> thread) (s : sem) : sem :=
  mk (_queued s) (_waiting s) (edge s) (irq s) (valid s) (clock s) (<[t := f (threads s t)]> (threads s))
     (cpus s) (hits s) (given s) (dropped s).
Definition set_queue (q : list Z) (s : sem) : sem :=
  mk (_queued s) q (edge s) (irq s) (valid s) (clock s) (threads s) (cpus s) (hits s) (given s) (dropped s).
Definition set_queued (n : Z) (s : sem) : sem :=
  mk n (_waiting s) (edge s) (irq s) (valid s) (clock s) (threads s) (cpus s) (hits s) (given s) (dropped s).
Definition set_irq (i : Irq_base.t) (s : sem) : sem :=
  mk (_queued s) (_waiting s) (edge s) i (valid s) (clock s) (threads s) (cpus s) (hits s) (given s) (dropped s).
Definition set_cpu (k : Z) (w : waker) (s : sem) : sem :=
  mk (_queued s) (_waiting s) (edge s) (irq s) (valid s) (clock s) (threads s) (<[k := w]> (cpus s))
     (hits s) (given s) (dropped s).
Definition note (h g d : Z) (s : sem) : sem :=
  mk (_queued s) (_waiting s) (edge s) (irq s) (valid s) (clock s) (threads s) (cpus s)
     (hits s + h) (given s + g) (dropped s + d).
Definition set_valid (v : bool) (s : sem) : sem :=
  mk (_queued s) (_waiting s) (edge s) (irq s) v (clock s) (threads s) (cpus s) (hits s) (given s) (dropped s).
Definition set_clock (c : Z) (s : sem) : sem :=
  mk (_queued s) (_waiting s) (edge s) (irq s) (valid s) c (threads s) (cpus s) (hits s) (given s) (dropped s).
Definition set_edge (e : bool) (s : sem) : sem :=
  mk (_queued s) (_waiting s) e (irq s) (valid s) (clock s) (threads s) (cpus s) (hits s) (given s) (dropped s).

(** [insert_dirty]: behind the threads of the same and of higher priorities. *)
Fixpoint insert_by_prio (t : Z) (q : list Z) : list Z :=
  match q with
  | [] => [t]
  | u :: q' => if prio u <? prio t then t :: q else u :: insert_by_prio t q'
  end.

(** ** [down] and [sys_down] *)

(** A new call; [sys_down] resets the error, the kernel entry [Thread_cancel]. *)
Definition new_call (s : sem) (t : thread) : thread :=
  mk_thread (del Thread_cancel (st t)) false Off (at_ t) false (negb (valid s)).

Definition down (t : Z) (to : timeout) (s : sem) : sem :=
  if _queued s =? 0 then
    if negb (valid s) then on_thread t (set_at (Timer to)) s
    else set_queue (insert_by_prio t (_waiting s))
           (on_thread t (fun x => set_at (Timer to) (set_st (change (Z.lnot Thread_ready) Thread_receive_wait) x)) s)
  else
    let n := _queued s - 1 in
    let s := note 0 1 0 (set_queued n (on_thread t give_unit s)) in
    on_thread t (set_at (if (n =? 1) && edge s then Unmask_edge to else Timer to)) s.

(** A call without the right to use the semaphore. *)
Definition refused (t : thread) : thread := mk_thread (st t) (error t) (timeout_q t) (Ret EPerm) false false.

Definition sys_down (t : Z) (rights : Z) (to : timeout) (s : sem) : sem :=
  if negb (nonzero (rights .& L4_fpage.Rights.CS)) then on_thread t refused s
  else down t to (on_thread t (new_call s) s).

(** [if (!(state & Thread_ready)) setup_timer(...)] *)
Definition setup_timer (to : timeout) (now : Z) (x : thread) : thread :=
  if has Thread_ready (st x) then x
  else match to with
       | Never => x
       | Zero => set_st (add (Thread_ready .| Thread_timeout)) x
       | _ => if now <? microsecs to now then set_timer (Armed (microsecs to now)) x
              else set_st (add (Thread_ready .| Thread_timeout)) x
       end.

Definition Thread_wait_mask : Z := Thread_cancel .| Thread_timeout .| Thread_receive_wait.

(** From the end of the loop to the test for cancellation and timeout. *)
Definition woken (x : thread) : thread :=
  let x := set_timer Off x in
  let s := st x in
  let x := if has Thread_wait_mask s then set_st (del Thread_wait_mask) x else x in
  set_at (if has (Thread_cancel .| Thread_timeout) s then Abort s else Finish) x.

(** A step of a thread from where it is; [None]: it sleeps. *)
Definition run (t : Z) (s : sem) : option sem :=
  let x := threads s t in
  match at_ x with
  | User | Ret _ => None
  | Unmask_edge to => Some (on_thread t (set_at (Timer to)) (set_irq (Irq_base.unmask (irq s)) s))
  | Timer to => Some (on_thread t (fun x => set_at Wait (setup_timer to (clock s) x)) s)
  | Wait => if has Thread_ready (st x) then Some (on_thread t woken s) else None
  | Abort f =>
      if decide (t ∈ _waiting s)
      then Some (on_thread t (set_at (Ret (if has Thread_cancel f then R_canceled else R_timeout)))
                   (set_queue (filter (fun u => u <> t) (_waiting s)) s))
      else Some (on_thread t (set_at Finish) s)
  | Finish => Some (on_thread t (fun x => set_at (Ret (if error x then Not_existent else Ok)) x) s)
  end.

(** ** Interrupts *)

Definition count_up (k : Z) (s : sem) : Z * sem :=
  match _waiting s with
  | w :: q => (_queued s, set_cpu k (Activate w) (note 1 1 0 (on_thread w give_unit (set_queue q s))))
  | [] => (_queued s, if _queued s <? LONG_MAX then note 1 0 0 (set_queued (_queued s + 1) s) else note 1 0 1 s)
  end.

Definition _hit_edge_irq (k : Z) (ui : list (Z * Z)) (s : sem) : sem :=
  let '(q, s) := count_up k s in
  let i := if q <=? 0 then Irq_base.ack (irq s) else Irq_base.mask_and_ack (irq s) in
  set_irq (Irq_base.upstream_ack ui i) s.

Definition _hit_level_irq (k : Z) (ui : list (Z * Z)) (s : sem) : sem :=
  let s := set_irq (Irq_base.upstream_ack ui (Irq_base.mask_and_ack (irq s))) s in
  snd (count_up k s).

Definition hit (k : Z) (ui : list (Z * Z)) (s : sem) : sem :=
  if edge s then _hit_edge_irq k ui s else _hit_level_irq k ui s.

(** The next step of a CPU that wakes threads up. *)
Definition wake (k : Z) (s : sem) : option sem :=
  match cpus s k with
  | Off_duty => None
  | Activate t => Some (set_cpu k Off_duty (on_thread t (set_st (add Thread_ready)) s))
  | Emptying =>
      match _waiting s with
      | [] => Some (set_cpu k Off_duty s)
      | w :: q => Some (set_cpu k (Write_error w) (set_queue q s))
      end
  | Write_error t => Some (set_cpu k (Activate_gone t) (on_thread t set_error s))
  | Activate_gone t => Some (set_cpu k Emptying (on_thread t (set_st (add Thread_ready)) s))
  end.

(** [IPC_timeout::expired] *)
Definition expired (x : thread) : thread :=
  let ipc := st x .& Thread_ipc_mask in
  let x := set_timer Hit x in
  if negb (nonzero ipc) || has Thread_receive_in_progress ipc then x
  else set_st (add (Thread_ready .| Thread_timeout)) x.

(** ** Steps *)

Inductive label :=
  | L_call (t rights : Z) (to : timeout) (** [sys_down] *)
  | L_run (t : Z)
  | L_return (t : Z)              (** back in user mode *)
  | L_hit (k : Z) (ui : list (Z * Z))   (** an interrupt or [Op_trigger] on CPU [k] *)
  | L_wake (k : Z)
  | L_destroy (k : Z)             (** the lock is invalid, the queue is emptied *)
  | L_expire (t : Z)
  | L_cancel (t : Z)
  | L_eoi                         (** [Op_eoi]: [dispatch_irq_proto] *)
  | L_mode (e : bool)             (** [switch_mode] *)
  | L_clock (c : Z).

(** Is the thread in [schedule] or in user mode? *)
Definition interruptible (x : thread) : bool := match at_ x with User | Wait => true | _ => false end.

Definition step (l : label) (s : sem) : option sem :=
  match l with
  | L_call t rights to =>
      match at_ (threads s t) with
      | User => if has Thread_ready (st (threads s t)) then Some (sys_down t rights to s) else None
      | _ => None
      end
  | L_run t => run t s
  | L_return t => match at_ (threads s t) with Ret _ => Some (on_thread t (set_at User) s) | _ => None end
  | L_hit k ui =>
      match cpus s k with
      | Off_duty => if decide (k ∈ all_cpus) then Some (hit k ui s) else None
      | _ => None
      end
  | L_wake k => wake k s
  | L_destroy k =>
      match cpus s k with
      | Off_duty => if valid s && bool_decide (k ∈ all_cpus) then Some (set_cpu k Emptying (set_valid false s)) else None
      | _ => None
      end
  | L_expire t =>
      match timeout_q (threads s t) with
      | Armed c => if interruptible (threads s t) && (c <=? clock s) then Some (on_thread t expired s) else None
      | _ => None
      end
  | L_cancel t =>
      if interruptible (threads s t) then Some (on_thread t (set_st (add (Thread_cancel .| Thread_ready))) s) else None
  | L_eoi => Some (if _queued s <? 1 then set_irq (Irq_base.unmask (irq s)) s else s)
  | L_mode e => Some (set_edge e s)
  | L_clock c => if clock s <=? c then Some (set_clock c s) else None
  end.

(** The constructor: nobody waits, the interrupt is not masked. *)
Definition start (state : Z -> Z) : sem :=
  mk 0 [] true (snd (Irq_base.__unmask Irq_base.make)) true 0
     (fun t => mk_thread (state t) false Off User false false) (fun _ => Off_duty) 0 0 0.

(** ** [kinvoke] *)

Definition Op_down : Z := 0.

(** The operation that a message of thread [t] on CPU [k] asks for, or an error;
    [v0] is the first word of the message. *)
Definition kinvoke (k t tag v0 rights : Z) (to : timeout) : Z + label :=
  let op := get_irq_opcode tag v0 in
  if op <? 0 then inl (- L4_err.val L4_err.EInval)
  else if L4_msg_tag.proto tag =? Label_irq then
    match dispatch_irq_proto op with
    | Some Eoi => inr L_eoi
    | Some Trigger => inr (L_hit k [])
    | None => inl (- L4_err.val L4_err.ENosys)
    end
  else if L4_msg_tag.proto tag =? Label_semaphore then
    if op =? Op_down then inr (L_call t rights to) else inl (- L4_err.val L4_err.ENosys)
  else inl (- L4_err.val L4_err.EBadproto).

Fixpoint runs (ls : list label) (s : sem) : option sem :=
  match ls with
  | [] => Some s
  | l :: ls' => match step l s with Some s' => runs ls' s' | None => None end
  end.
End sem.
