(* ===== verification/SemaphoreSpec.v ===== *)
(** Theorems about semaphores: what [sys_down] reports is what happened, every
    interrupt is counted once, and no wake-up is lost, as long as a thread does
    not leave [sys_down] while another CPU is about to wake it up, which cannot
    happen on one processor; and two runs in which a call reports success
    without a unit of the semaphore. *)

From stdpp Require Import functions.
From S2P Require Import Prelude Ipc Semaphore.
Import Thread_state.
#[local] Arguments Z.testbit : simpl never.
#[local] Arguments has : simpl never.

Section spec.
Context `{Arch} (prio : Z -> Z) (all_cpus : list Z).

(** * The invariant *)

Definition ready (x : thread) : bool := has Thread_ready (st x).
Definition aborting (x : thread) : bool := has (Thread_cancel .| Thread_timeout) (st x).

(** Some CPU is at this point. *)
Definition busy (s : sem) (w : waker) : Prop := exists k, cpus s k = w.
Definition about_to_wake (s : sem) (t : Z) : Prop :=
  busy s (Activate t) \/ busy s (Write_error t) \/ busy s (Activate_gone t).

(** The state of a thread, whether it is in the queue, which wake-ups of it are
    under way, and whether the semaphore is deleted. *)
Section fates.
Context (x : thread) (inq act err gone : Prop) (deleted : Prop).

Definition woken_soon : Prop := act \/ err \/ gone.

(** What has become of a call: it is in the queue, it has been given a unit, it
    is ended by the destruction of the semaphore, or it came too late. *)
Definition in_queue : Prop := inq /\ unit x = false /\ error x = false /\ ~ woken_soon.
Definition served : Prop := ~ inq /\ unit x = true /\ error x = false /\ ~ err.
Definition ended : Prop := ~ inq /\ unit x = false /\ (err \/ error x = true) /\ ~ act /\ deleted.
Definition too_late : Prop := ~ inq /\ unit x = false /\ error x = false /\ late x = true /\ ~ woken_soon.
Definition outside : Prop := ~ inq /\ ~ woken_soon.

(** What a result says. *)
Definition truth (r : result) : Prop :=
  match r with
  | Ok => unit x = true \/ late x = true
  | R_canceled | R_timeout | EPerm => unit x = false
  | Not_existent => unit x = false /\ deleted
  end.

Definition call_ok : Prop :=
  match at_ x with
  | User => outside
  | Ret r => outside /\ truth r
  | Unmask_edge _ => served /\ ready x = true
  | Timer _ | Wait =>
      (in_queue /\ (ready x = true -> aborting x = true)) \/
      ((served \/ ended) /\ (ready x = false -> woken_soon)) \/
      (too_late /\ ready x = true)
  | Abort _ => in_queue \/ served \/ ended \/ too_late
  | Finish => served \/ ended \/ too_late
  end.
End fates.

Definition thread_ok (s : sem) (t : Z) : Prop :=
  call_ok (threads s t) (t ∈ _waiting s) (busy s (Activate t)) (busy s (Write_error t)) (busy s (Activate_gone t))
    (valid s = false).

Record Inv (s : sem) : Prop := {
  i_thread t : thread_ok s t;
  i_nodup : NoDup (_waiting s);
  i_range : 0 <= _queued s <= LONG_MAX;
  i_empty : 0 < _queued s -> _waiting s = [];
  i_count : hits s = _queued s + given s + dropped s;
  i_cpus k : cpus s k <> Off_duty -> k ∈ all_cpus;
  i_emptying : (busy s Emptying \/ exists t, busy s (Activate_gone t) \/ busy s (Write_error t)) -> valid s = false;
  i_late t : late (threads s t) = true -> valid s = false }.

(** No thread leaves [sys_down] while a CPU is about to wake it up. *)
Definition orderly (l : label) (s : sem) : Prop :=
  match l with
  | L_run t =>
      match at_ (threads s t) with
      | Finish => Forall (fun k => match cpus s k with
                                   | Activate u | Write_error u | Activate_gone u => u <> t
                                   | _ => True end) all_cpus
      | _ => True
      end
  | _ => True
  end.

(** * Bits of the state word *)

Lemma has_add m b w : has m (add b w) = has m w || nonzero (b .& m).
Proof.
  unfold has, add. rewrite Z.land_lor_distr_l.
  destruct (nonzero (w .& m)) eqn:E1, (nonzero (b .& m)) eqn:E2; simpl;
    rewrite ?nonzero_spec, ?nonzero_false in *; rewrite ?Z.lor_eq_0_iff; naive_solver.
Qed.

Lemma ready_change w : has Thread_ready (change (Z.lnot Thread_ready) Thread_receive_wait w) = false.
Proof.
  unfold has, change. rewrite nonzero_false, Z.land_lor_distr_l, <- Z.land_assoc.
  change (Z.lnot Thread_ready .& Thread_ready) with 0. by rewrite Z.land_0_r.
Qed.

Lemma has_del_other m b w : b .& m = 0 -> has m (del b w) = has m w.
Proof.
  intros Hd. unfold has, del. f_equal. rewrite <- Z.land_assoc. f_equal.
  apply Z.bits_inj'. intros n Hn. apply (f_equal (fun z => Z.testbit z n)) in Hd.
  rewrite Z.land_spec, Z.bits_0 in Hd. rewrite Z.land_spec, Z.lnot_spec by done.
  destruct (Z.testbit b n), (Z.testbit m n); done.
Qed.

(** * Calls that a step does not concern *)

Ltac fates := unfold call_ok, truth, in_queue, served, ended, too_late, outside, woken_soon in *; simpl in *.

Lemma call_ok_ext x i a e g d i' a' e' g' (d' : Prop) :
  (i' <-> i) -> (a' <-> a) -> (e' <-> e) -> (g' <-> g) -> (d -> d') ->
  call_ok x i a e g d -> call_ok x i' a' e' g' d'.
Proof. fates. destruct (at_ x) as [| | | | | | []]; tauto. Qed.

Lemma thread_ok_ext s s' t :
  threads s' t = threads s t -> (t ∈ _waiting s' <-> t ∈ _waiting s) ->
  (forall w, w <> Off_duty -> w <> Emptying -> (forall u, u <> t -> w <> Activate u /\ w <> Write_error u /\ w <> Activate_gone u) ->
     busy s' w <-> busy s w) ->
  (valid s = false -> valid s' = false) -> thread_ok s t -> thread_ok s' t.
Proof.
  intros Ht Hw Hb Hv. unfold thread_ok. rewrite Ht.
  apply call_ok_ext; try done; apply Hb; try done; intros u Hne; split_and!; congruence.
Qed.

Lemma threads_on t f s : threads (on_thread t f s) t = f (threads s t).
Proof. simpl. apply fn_lookup_insert. Qed.

Lemma threads_on_ne t u f s : u <> t -> threads (on_thread t f s) u = threads s u.
Proof. intros. simpl. by apply fn_lookup_insert_ne. Qed.

(** A step that changes one thread only. *)
Lemma on_thread_inv t f s :
  Inv s -> thread_ok (on_thread t f s) t ->
  (late (f (threads s t)) = true -> late (threads s t) = true \/ valid s = false) -> Inv (on_thread t f s).
Proof.
  intros I Hok Hl. destruct I as [I1 I2 I3 I4 I5 I6 I7 I8]. split; try done.
  - intros u. destruct (decide (u = t)) as [-> | Hne]; [done |].
    apply (thread_ok_ext s); try done. by apply threads_on_ne.
  - intros u. destruct (decide (u = t)) as [-> | Hne].
    + rewrite threads_on. intros [? | ?]%Hl; [by apply (I8 t) | done].
    + rewrite threads_on_ne by done. apply I8.
Qed.

Lemma on_call_inv t f s :
  Inv s ->
  (forall i a e g d, call_ok (threads s t) i a e g d -> call_ok (f (threads s t)) i a e g d) ->
  late (f (threads s t)) = late (threads s t) -> Inv (on_thread t f s).
Proof.
  intros I Hok Hl. apply on_thread_inv; [done | | rewrite Hl; by left].
  unfold thread_ok. rewrite threads_on. apply Hok, I.
Qed.

Lemma set_irq_inv i s : Inv s -> Inv (set_irq i s).
Proof. by intros []. Qed.

(** * Steps of a thread *)

Lemma setup_timer_inv t to s :
  Inv s -> at_ (threads s t) = Timer to ->
  Inv (on_thread t (fun x => set_at Wait (setup_timer to (clock s) x)) s).
Proof.
  intros I Hp. apply on_call_inv; [done | |].
  - intros i a e g d. unfold setup_timer. fold (ready (threads s t)). fates. rewrite Hp.
    destruct (ready (threads s t)) eqn:Er; simpl; [unfold ready in *; simpl; rewrite Er; done |].
    assert (forall b, nonzero ((Thread_ready .| b) .& Thread_ready) = true) as Hr.
    { intros b. apply nonzero_spec. intros E. apply (f_equal (fun z => Z.testbit z 0)) in E.
      rewrite Z.land_spec, Z.lor_spec, Z.bits_0 in E. by destruct (Z.testbit b 0). }
    destruct to as [| | c | c]; simpl; [unfold ready in *; simpl; rewrite Er; done | ..].
    2, 3: destruct (_ <? _); simpl; [unfold ready in *; simpl; rewrite Er; done |].
    all: unfold ready, aborting in *; simpl; rewrite !has_add, Hr, orb_true_r, orb_true_r; tauto.
  - unfold setup_timer. destruct (has _ _), to; try done; simpl; by destruct (_ <? _).
Qed.

Lemma woken_inv t s :
  Inv s -> at_ (threads s t) = Wait -> ready (threads s t) = true -> Inv (on_thread t woken s).
Proof.
  intros I Hp Hr. apply on_call_inv; [done | | unfold woken; simpl; by destruct (has _ _)].
  intros i a e g d. unfold woken. simpl.
  fold (aborting (threads s t)). destruct (has Thread_wait_mask _); fates; rewrite Hp, Hr;
    destruct (aborting (threads s t)); simpl; intuition congruence.
Qed.

(** A step that concerns one thread, the queue and the counters. *)
Lemma inv_one t s s' :
  Inv s -> (forall u, u <> t -> threads s' u = threads s u) ->
  (forall u, u <> t -> u ∈ _waiting s' <-> u ∈ _waiting s) -> cpus s' = cpus s -> valid s' = valid s ->
  thread_ok s' t -> NoDup (_waiting s') -> 0 <= _queued s' <= LONG_MAX -> (0 < _queued s' -> _waiting s' = []) ->
  hits s' = _queued s' + given s' + dropped s' -> late (threads s' t) = late (threads s t) -> Inv s'.
Proof.
  intros I Ht Hw Hc Hv Hok Hnd Hr He Hn Hl.
  assert (forall w, busy s' w <-> busy s w) as Hb by (intros w; unfold busy; by rewrite Hc).
  split; try done.
  - intros u. destruct (decide (u = t)) as [-> | Hne]; [done |].
    apply (thread_ok_ext s); [by apply Ht | by apply Hw | intros; apply Hb | by rewrite Hv | apply I].
  - rewrite Hc. apply I.
  - rewrite Hv. setoid_rewrite Hb. apply I.
  - intros u. rewrite Hv. destruct (decide (u = t)) as [-> | Hne]; [rewrite Hl | rewrite Ht by done]; apply I.
Qed.

Lemma abort_in_queue_inv t f s :
  Inv s -> at_ (threads s t) = Abort f -> t ∈ _waiting s ->
  Inv (on_thread t (set_at (Ret (if has Thread_cancel f then R_canceled else R_timeout)))
         (set_queue (filter (fun u => u <> t) (_waiting s)) s)).
Proof.
  intros I Hp Hin. apply (inv_one t s); try done; try apply I.
  - intros u Hne. simpl. by apply fn_lookup_insert_ne.
  - intros u Hne. simpl. rewrite list_elem_of_filter. tauto.
  - pose proof (i_thread _ I t) as Hok. unfold thread_ok in *. rewrite threads_on.
    assert (t ∉ filter (fun u => u <> t) (_waiting s)) as Hno by (rewrite list_elem_of_filter; tauto).
    fates. rewrite Hp in Hok. change (busy (on_thread _ _ _) ?w) with (busy s w).
    destruct (has Thread_cancel f); tauto.
  - simpl. apply NoDup_filter, I.
  - simpl. intros Hq. rewrite (i_empty _ I Hq) in Hin. by apply not_elem_of_nil in Hin.
  - by rewrite threads_on.
Qed.

Lemma abort_done_inv t f s :
  Inv s -> at_ (threads s t) = Abort f -> t ∉ _waiting s -> Inv (on_thread t (set_at Finish) s).
Proof.
  intros I Hp Hno. apply on_thread_inv; [done | | by left].
  pose proof (i_thread _ I t) as Hok. unfold thread_ok in *. rewrite threads_on. fates. rewrite Hp in Hok.
  change (busy (on_thread _ _ _) ?w) with (busy s w). tauto.
Qed.

Lemma not_woken t s :
  Inv s -> Forall (fun k => match cpus s k with
                            | Activate u | Write_error u | Activate_gone u => u <> t
                            | _ => True end) all_cpus ->
  ~ busy s (Activate t) /\ ~ busy s (Write_error t) /\ ~ busy s (Activate_gone t).
Proof.
  intros I Hall. rewrite Forall_forall in Hall.
  split_and!; intros [k Hk]; (assert (k ∈ all_cpus) as Hin by (apply I; by rewrite Hk));
    specialize (Hall k Hin); by rewrite Hk in Hall.
Qed.

Lemma sem_finish_inv t s :
  Inv s -> at_ (threads s t) = Finish -> orderly (L_run t) s ->
  Inv (on_thread t (fun x => set_at (Ret (if error x then Not_existent else Ok)) x) s).
Proof.
  intros I Hp Ho. simpl in Ho. rewrite Hp in Ho. destruct (not_woken t s I Ho) as (Ha & He & Hg).
  apply on_thread_inv; [done | | by left].
  pose proof (i_thread _ I t) as Hok. unfold thread_ok in *. rewrite threads_on. fates. rewrite Hp in Hok.
  change (busy (on_thread _ _ _) ?w) with (busy s w).
  destruct (error (threads s t)) eqn:Ee; intuition congruence.
Qed.

Lemma elem_of_insert_by_prio t u q : u ∈ insert_by_prio prio t q <-> u = t \/ u ∈ q.
Proof.
  induction q as [| v q IH]; simpl; [rewrite list_elem_of_singleton; split; [auto | intros [-> | []%not_elem_of_nil]; done] |].
  destruct (prio v <? prio t); rewrite !elem_of_cons; [tauto | rewrite IH; tauto].
Qed.

Lemma NoDup_insert_by_prio t q : t ∉ q -> NoDup q -> NoDup (insert_by_prio prio t q).
Proof.
  induction q as [| v q IH]; simpl; intros Hni Hnd; [apply NoDup_singleton |].
  destruct (prio v <? prio t); [by apply NoDup_cons |].
  apply NoDup_cons in Hnd as [Hv Hnd]. apply not_elem_of_cons in Hni as [Hne Hni].
  apply NoDup_cons. split; [rewrite elem_of_insert_by_prio; naive_solver | auto].
Qed.

(** The invariant for a thread in user mode that starts a call. *)
Lemma new_call_inv t s :
  Inv s -> at_ (threads s t) = User -> Inv (on_thread t (new_call s) s).
Proof.
  intros I Hp. apply on_thread_inv; [done | |].
  - pose proof (i_thread _ I t) as Hok. unfold thread_ok in *. rewrite threads_on. fates. rewrite Hp in *.
    change (busy (on_thread _ _ _) ?w) with (busy s w). done.
  - simpl. intros ->%negb_true_iff. by right.
Qed.

(** A call that starts; the kernel entry is from a thread that runs. *)
Lemma down_inv t to s :
  Inv s -> at_ (threads s t) = User -> unit (threads s t) = false -> error (threads s t) = false ->
  ready (threads s t) = true -> (valid s = false -> late (threads s t) = true) -> Inv (down prio t to s).
Proof.
  intros I Hp Hu He Hr Hl. pose proof (i_thread _ I t) as Hok. unfold thread_ok in Hok.
  unfold down. unfold ready in Hr. destruct (Z.eqb_spec (_queued s) 0) as [Hq | Hq].
  - destruct (valid s) eqn:Ev; simpl.
    + apply (inv_one t s); try done; try apply I.
      * intros u Hne. simpl. by apply fn_lookup_insert_ne.
      * intros u Hne. simpl. rewrite elem_of_insert_by_prio. tauto.
      * unfold thread_ok. simpl threads. rewrite fn_lookup_insert. simpl _waiting. fates. rewrite Hp in Hok.
        change (busy (set_queue _ _) ?w) with (busy s w). left. rewrite elem_of_insert_by_prio.
        unfold ready, aborting in *. simpl. rewrite ready_change. intuition congruence.
      * simpl. apply NoDup_insert_by_prio; [| apply I]. fates. rewrite Hp in Hok. tauto.
      * simpl. lia.
      * simpl. by rewrite fn_lookup_insert.
    + apply on_thread_inv; [done | | by left]. unfold thread_ok. rewrite threads_on. fates. rewrite Hp in Hok.
      change (busy (on_thread _ _ _) ?w) with (busy s w). right; right.
      unfold ready. simpl. rewrite (Hl eq_refl), Hr. tauto.
  - pose proof (i_range _ I). apply (inv_one t s); try done; try apply I; simpl.
    + intros u Hne. by rewrite !fn_lookup_insert_ne.
    + unfold thread_ok. simpl threads. rewrite !fn_lookup_insert. fates. rewrite Hp in Hok.
      change (busy (on_thread _ _ _) ?w) with (busy s w).
      destruct (_ && _); simpl; unfold ready; simpl; rewrite Hr; intuition congruence.
    + lia.
    + intros _. apply I. lia.
    + pose proof (i_count _ I). lia.
    + by rewrite !fn_lookup_insert.
Qed.

Lemma sys_down_inv t rights to s :
  Inv s -> at_ (threads s t) = User -> ready (threads s t) = true -> Inv (sys_down prio t rights to s).
Proof.
  intros I Hp Hr. unfold sys_down. destruct (nonzero _); simpl.
  - apply down_inv; [by apply new_call_inv | rewrite threads_on.. |]; try done.
    + unfold ready in *. simpl. by rewrite has_del_other.
    + rewrite threads_on. simpl. by intros ->.
  - apply on_thread_inv; [done | | done].
    pose proof (i_thread _ I t) as Hok. unfold thread_ok in *. rewrite threads_on. fates. rewrite Hp in Hok.
    change (busy (on_thread _ _ _) ?w) with (busy s w). tauto.
Qed.

(** * Steps of other CPUs *)

(** A CPU that was idle, or at [w], goes to [w']; nobody else is at [w]. *)
Lemma busy_set k w' s w : cpus s k <> w -> busy (set_cpu k w' s) w <-> w = w' \/ busy s w.
Proof.
  intros Hk. unfold busy. simpl. split.
  - intros [j Hj]. destruct (decide (j = k)) as [-> | Hne].
    + rewrite fn_lookup_insert in Hj. by left.
    + rewrite fn_lookup_insert_ne in Hj by done. eauto.
  - intros [-> | [j Hj]].
    + exists k. by rewrite fn_lookup_insert.
    + exists j. rewrite fn_lookup_insert_ne; [done |]. intros ->. done.
Qed.

Lemma busy_gone k w' s w : w <> w' -> busy (set_cpu k w' s) w -> busy s w.
Proof.
  intros Hw [j Hj]. simpl in Hj. destruct (decide (j = k)) as [-> | Hne].
  - rewrite fn_lookup_insert in Hj. congruence.
  - rewrite fn_lookup_insert_ne in Hj by done. by exists j.
Qed.

(** The fields of the invariant that a step on CPU [k] leaves to prove. *)
Lemma sem_cpu_inv k t w s s' :
  Inv s -> k ∈ all_cpus -> cpus s' = <[k := w]> (cpus s) ->
  (forall u, u <> t -> thread_ok s' u) -> thread_ok s' t ->
  (forall u, late (threads s' u) = late (threads s u)) -> (valid s = false -> valid s' = false) ->
  NoDup (_waiting s') -> 0 <= _queued s' <= LONG_MAX -> (0 < _queued s' -> _waiting s' = []) ->
  hits s' = _queued s' + given s' + dropped s' ->
  (w = Off_duty \/ (exists u, w = Activate u) \/ valid s' = false) -> Inv s'.
Proof.
  intros I Hk Hc Hu Ht Hl Hv Hnd Hr He Hn Hw. split; try done.
  - intros u. destruct (decide (u = t)) as [-> |]; auto.
  - intros j. rewrite Hc. destruct (decide (j = k)) as [-> | Hne]; [done | rewrite fn_lookup_insert_ne by done; apply I].
  - assert (forall v, busy s' v -> v = w \/ busy s v) as Hcase.
    { intros v [j Hj]. rewrite Hc in Hj. destruct (decide (j = k)) as [-> | Hne];
        [rewrite fn_lookup_insert in Hj; by left | rewrite fn_lookup_insert_ne in Hj by done; right; by exists j]. }
    intros Hb. destruct Hw as [-> | [[u ->] | ?]]; [.. | done]; apply Hv, (i_emptying _ I);
      destruct Hb as [Hb | [u' [Hb | Hb]]]; apply Hcase in Hb as [Hb | Hb]; try done; eauto.
  - intros u. rewrite Hl. intros Hlu. by apply Hv, (i_late _ I u).
Qed.

(** The wake-ups of the thread [u] are the same before and after a step of CPU
    [k] that is not about [u]. *)
Definition about (w : waker) (u : Z) : Prop := w = Activate u \/ w = Write_error u \/ w = Activate_gone u.

Lemma other_ok k w s s' u :
  cpus s' = <[k := w]> (cpus s) -> ~ about w u -> ~ about (cpus s k) u ->
  threads s' u = threads s u -> (u ∈ _waiting s' <-> u ∈ _waiting s) -> (valid s = false -> valid s' = false) ->
  thread_ok s u -> thread_ok s' u.
Proof.
  intros Hc Hw Hk Ht Hq Hv. apply thread_ok_ext; try done. intros v Hv1 Hv2 Hv3.
  assert (about v u) as Hvu.
  { unfold about. destruct v as [| y | | y | y]; try done; destruct (decide (y = u)) as [-> | Hne]; auto;
      destruct (Hv3 y Hne) as (? & ? & ?); congruence. }
  assert (v <> w) as Hvw by (intros ->; done).
  assert (v <> cpus s k) as Hvk by (intros ->; done).
  unfold busy. rewrite Hc. split; intros [j Hj]; exists j; destruct (decide (j = k)) as [-> | Hne];
    rewrite ?fn_lookup_insert in *; rewrite ?fn_lookup_insert_ne in * by done; congruence.
Qed.

Lemma about_other w t u : about w t -> u <> t -> ~ about w u.
Proof. unfold about. intuition congruence. Qed.

Lemma count_up_inv k s : Inv s -> k ∈ all_cpus -> cpus s k = Off_duty -> Inv (snd (count_up k s)).
Proof.
  intros I Hk Hc. unfold count_up. destruct (_waiting s) as [| w q] eqn:Hq; simpl.
  - pose proof (i_range _ I). pose proof (i_count _ I).
    destruct I as [I1 I2 I3 I4 I5 I6 I7 I8].
    destruct (Z.ltb_spec (_queued s) LONG_MAX); split; simpl; try done; lia.
  - pose proof (i_nodup _ I) as Hnd. rewrite Hq in Hnd. apply NoDup_cons in Hnd as [Hw Hnd].
    assert (_queued s = 0) as Hz.
    { pose proof (i_range _ I). destruct (Z.ltb_spec 0 (_queued s)) as [Hp |]; [| lia].
      apply (i_empty _ I) in Hp. congruence. }
    apply (sem_cpu_inv k w (Activate w) s); try done; simpl.
    + intros u Hne. eapply (other_ok k (Activate w) s); try done.
      * eapply about_other; [by left | done].
      * rewrite Hc. unfold about. naive_solver.
      * simpl. by apply fn_lookup_insert_ne.
      * simpl. rewrite Hq, elem_of_cons. tauto.
      * apply I.
    + pose proof (i_thread _ I w) as Hok. unfold thread_ok in *. simpl threads. simpl _waiting.
      rewrite fn_lookup_insert, Hq in *. assert (w ∈ w :: q) as Hin by apply list_elem_of_here.
      assert (busy (set_cpu k (Activate w) (note 1 1 0 (on_thread w give_unit (set_queue q s)))) (Activate w)) as Hb.
      { exists k. simpl. by rewrite fn_lookup_insert. }
      assert (~ busy s (Write_error w) -> ~ busy (set_cpu k (Activate w) (note 1 1 0 (on_thread w give_unit (set_queue q s)))) (Write_error w)) as He.
      { intros Hn Hy. apply Hn. by apply busy_gone in Hy. }
      fates. destruct (at_ (threads s w)); tauto.
    + intros u. destruct (decide (u = w)) as [-> | Hne]; [by rewrite fn_lookup_insert | by rewrite fn_lookup_insert_ne].
    + apply I.
    + lia.
    + pose proof (i_count _ I). lia.
    + right; left. eauto.
Qed.

Lemma sem_hit_inv k ui s : Inv s -> k ∈ all_cpus -> cpus s k = Off_duty -> Inv (hit k ui s).
Proof.
  intros I Hk Hc. unfold hit, _hit_edge_irq, _hit_level_irq. destruct (edge s).
  - pose proof (count_up_inv k s I Hk Hc) as I'. destruct (count_up k s) as [q s']. by apply set_irq_inv.
  - apply count_up_inv; [by apply set_irq_inv | done..].
Qed.

Lemma ready_add x b : nonzero (b .& Thread_ready) = true -> ready (set_st (add b) x) = true.
Proof. intros Hb. unfold ready. simpl. by rewrite has_add, Hb, orb_true_r. Qed.

Lemma activate_inv k t w s :
  Inv s -> k ∈ all_cpus -> cpus s k = Activate t \/ cpus s k = Activate_gone t ->
  w = Off_duty \/ (w = Emptying /\ valid s = false) ->
  Inv (set_cpu k w (on_thread t (set_st (add Thread_ready)) s)).
Proof.
  intros I Hk Hc Hw. assert (about (cpus s k) t) as Hab by (unfold about; tauto).
  assert (forall u, ~ about w u) as Hnw by (unfold about; intros u; destruct Hw as [-> | [-> _]]; naive_solver).
  apply (sem_cpu_inv k t w s); try done; try apply I; simpl.
  - intros u Hne. eapply (other_ok k w s); try done; [by eapply about_other | simpl; by apply fn_lookup_insert_ne | apply I].
  - pose proof (i_thread _ I t) as Hok. unfold thread_ok in *. simpl threads. simpl _waiting. rewrite fn_lookup_insert.
    assert (ready (set_st (add Thread_ready) (threads s t)) = true) as Hr by (by apply ready_add).
    set (s' := set_cpu k w _).
    assert (busy s (Activate t) \/ busy s (Activate_gone t)) as Hb.
    { destruct Hc as [Hc | Hc]; [left | right]; by exists k. }
    assert (busy s' (Write_error t) <-> busy s (Write_error t)) as He.
    { assert (Write_error t <> w) as Hne by (intros E; destruct (Hnw t); unfold about; auto).
      unfold s'. rewrite busy_set by (simpl; destruct Hc as [-> | ->]; done). split; [intros [? | ?]; [done |] | right]; done. }
    assert (busy s' (Activate t) -> busy s (Activate t)) as Ha.
    { apply (busy_gone k w (on_thread t (set_st (add Thread_ready)) s)). intros E. destruct (Hnw t). unfold about; auto. }
    fates. rewrite Hr. destruct (at_ (threads s t)); intuition congruence.
  - intros u. destruct (decide (u = t)) as [-> | Hne]; [by rewrite fn_lookup_insert | by rewrite fn_lookup_insert_ne].
  - destruct Hw as [-> | [-> ?]]; auto.
Qed.

Lemma take_waiter_inv k w q s :
  Inv s -> k ∈ all_cpus -> cpus s k = Emptying -> _waiting s = w :: q -> Inv (set_cpu k (Write_error w) (set_queue q s)).
Proof.
  intros I Hk Hc Hq. assert (valid s = false) as Hv by (apply (i_emptying _ I); left; by exists k).
  pose proof (i_nodup _ I) as Hnd. rewrite Hq in Hnd. apply NoDup_cons in Hnd as [Hw Hnd].
  apply (sem_cpu_inv k w (Write_error w) s); try done; try apply I; simpl; auto.
  - intros u Hne. eapply (other_ok k (Write_error w) s); try done.
    + eapply about_other; [by right; left | done].
    + rewrite Hc. unfold about. naive_solver.
    + simpl. rewrite Hq, elem_of_cons. tauto.
    + apply I.
  - pose proof (i_thread _ I w) as Hok. unfold thread_ok in *. simpl threads. simpl _waiting. rewrite Hq in Hok.
    assert (w ∈ w :: q) as Hin by apply list_elem_of_here. set (s' := set_cpu k _ _).
    assert (busy s' (Write_error w)) as Hb by (exists k; simpl; by rewrite fn_lookup_insert).
    assert (busy s' (Activate w) -> busy s (Activate w)) as Ha by (by apply (busy_gone k (Write_error w) (set_queue q s))).
    fates. destruct (at_ (threads s w)); tauto.
  - intros Hp. apply (i_empty _ I) in Hp. congruence.
Qed.

Lemma write_error_inv k t s :
  Inv s -> k ∈ all_cpus -> cpus s k = Write_error t -> Inv (set_cpu k (Activate_gone t) (on_thread t set_error s)).
Proof.
  intros I Hk Hc. assert (busy s (Write_error t)) as Hb by (by exists k).
  assert (valid s = false) as Hv by (apply (i_emptying _ I); eauto).
  apply (sem_cpu_inv k t (Activate_gone t) s); try done; try apply I; simpl; auto.
  - intros u Hne. eapply (other_ok k (Activate_gone t) s); try done.
    + eapply about_other; [by right; right | done].
    + rewrite Hc. eapply about_other; [by right; left | done].
    + simpl. by apply fn_lookup_insert_ne.
    + apply I.
  - pose proof (i_thread _ I t) as Hok. unfold thread_ok in *. simpl threads. simpl _waiting. rewrite fn_lookup_insert.
    set (s' := set_cpu k _ _).
    assert (busy s' (Activate_gone t)) as Hg by (exists k; simpl; by rewrite fn_lookup_insert).
    assert (busy s' (Activate t) -> busy s (Activate t)) as Ha
      by (by apply (busy_gone k (Activate_gone t) (on_thread t set_error s))).
    fates. destruct (at_ (threads s t)); tauto.
  - intros u. destruct (decide (u = t)) as [-> | Hne]; [by rewrite fn_lookup_insert | by rewrite fn_lookup_insert_ne].
Qed.

(** A CPU whose step concerns no thread. *)
Lemma idle_cpu_inv k w v s :
  Inv s -> k ∈ all_cpus -> (forall u, ~ about w u) -> (forall u, ~ about (cpus s k) u) ->
  (valid s = false -> v = false) -> w = Off_duty \/ v = false -> Inv (set_cpu k w (set_valid v s)).
Proof.
  intros I Hk Hw Hc Hv Hd. apply (sem_cpu_inv k 0 w s); try done; try apply I; simpl; auto.
  - intros u _. eapply (other_ok k w s); try done. apply I.
  - eapply (other_ok k w s); try done. apply I.
  - tauto.
Qed.

Lemma wake_inv k s s' : Inv s -> wake k s = Some s' -> Inv s'.
Proof.
  intros I E. unfold wake in E.
  assert (cpus s k <> Off_duty -> k ∈ all_cpus) as Hk by apply I.
  destruct (cpus s k) as [| t | | t | t] eqn:Hc; simplify_eq.
  - apply (activate_inv k t); auto.
  - destruct (_waiting s) as [| w q] eqn:Hq; simplify_eq.
    + assert (set_cpu k Off_duty s = set_cpu k Off_duty (set_valid (valid s) s)) as -> by (by destruct s).
      apply idle_cpu_inv; try auto; rewrite ?Hc; unfold about; naive_solver.
    + apply take_waiter_inv; auto.
  - apply write_error_inv; auto.
  - apply (activate_inv k t); auto. right. split; [done |]. apply (i_emptying _ I). right. exists t. left. by exists k.
Qed.

Lemma interrupt_inv t f s :
  Inv s -> interruptible (threads s t) = true ->
  (forall x, at_ (f x) = at_ x /\ unit (f x) = unit x /\ error (f x) = error x /\ late (f x) = late x /\
     ((ready (f x) = true /\ aborting (f x) = true) \/ (ready (f x) = ready x /\ aborting (f x) = aborting x))) ->
  Inv (on_thread t f s).
Proof.
  intros I Hi Hf. destruct (Hf (threads s t)) as (Hat & Hu & He & Hl & Hra). apply on_call_inv; [done | | done].
  intros i a e g d. unfold interruptible in Hi. fates. rewrite Hat, Hu, He, ?Hl.
  destruct (at_ (threads s t)); try done. destruct Hra as [[-> ->] | [-> ->]]; intuition congruence.
Qed.

Lemma sem_has_abort b w : nonzero (b .& (Thread_cancel .| Thread_timeout)) = true ->
  has (Thread_cancel .| Thread_timeout) (add b w) = true.
Proof. intros Hb. by rewrite has_add, Hb, orb_true_r. Qed.

(** Every orderly step keeps the invariant. *)
Lemma sem_step_inv l s s' : Inv s -> orderly l s -> step prio all_cpus l s = Some s' -> Inv s'.
Proof.
  intros I Ho E. destruct l as [t rights to | t | t | k ui | k | k | t | t | | e | c]; simpl in E.
  - destruct (at_ (threads s t)) eqn:Hp; try done. destruct (has _ _) eqn:Hr; simplify_eq. by apply sys_down_inv.
  - unfold run in E. destruct (at_ (threads s t)) eqn:Hp; simplify_eq.
    + apply on_call_inv; [by apply set_irq_inv | | done]. intros i a e g d. simpl threads. fates. rewrite Hp.
      unfold ready. simpl. intuition congruence.
    + by apply setup_timer_inv.
    + destruct (has Thread_ready _) eqn:Hr; simplify_eq. by apply woken_inv.
    + destruct (decide (t ∈ _waiting s)); simplify_eq; [by apply abort_in_queue_inv | by eapply abort_done_inv].
    + by apply sem_finish_inv.
  - destruct (at_ (threads s t)) eqn:Hp; simplify_eq. apply on_call_inv; [done | | done].
    intros i a e g d. fates. rewrite Hp. tauto.
  - destruct (cpus s k) eqn:Hc; try done. destruct (decide (k ∈ all_cpus)); simplify_eq. by apply sem_hit_inv.
  - by eapply wake_inv.
  - destruct (cpus s k) eqn:Hc; try done. destruct (valid s && bool_decide (k ∈ all_cpus)) eqn:Ev; simplify_eq.
    apply andb_prop in Ev as [_ Hk%bool_decide_eq_true]. apply idle_cpu_inv; try done; rewrite ?Hc; unfold about; naive_solver.
  - destruct (timeout_q (threads s t)); try done. destruct (_ && _) eqn:Ei; simplify_eq.
    apply andb_prop in Ei as [Hi _]. apply interrupt_inv; [done.. |]. intros x. unfold expired.
    destruct (_ || _); simpl; [tauto |]. split_and!; try done. left. unfold ready, aborting. simpl.
    split; [by rewrite has_add, orb_true_r | by apply sem_has_abort].
  - destruct (interruptible (threads s t)) eqn:Hi; simplify_eq. apply interrupt_inv; [done.. |].
    intros x. simpl. split_and!; try done. left. unfold ready, aborting. simpl.
    split; [by rewrite has_add, orb_true_r | by apply sem_has_abort].
  - destruct (_ <? _); simplify_eq; [by apply set_irq_inv | done].
  - simplify_eq. by destruct I.
  - destruct (_ <=? _); simplify_eq. by destruct I.
Qed.

(** * Reachable states *)

#[export] Instance sem_orderly_decision l s : Decision (orderly l s).
Proof.
  destruct l as [| t | | | | | | | | |]; simpl; try apply _. destruct (at_ (threads s t)); try apply _.
  apply Forall_dec. intros k. destruct (cpus s k); apply _.
Defined.

Inductive reachable (state : Z -> Z) : sem -> Prop :=
  | reachable_start : reachable state (start state)
  | reachable_step l s s' : reachable state s -> orderly l s -> step prio all_cpus l s = Some s' -> reachable state s'.

Fixpoint orderly_runs (ls : list label) (s : sem) : option sem :=
  match ls with
  | [] => Some s
  | l :: ls' => if decide (orderly l s)
                then match step prio all_cpus l s with Some s' => orderly_runs ls' s' | None => None end
                else None
  end.

Lemma sem_orderly_runs_reachable state ls : forall s s', reachable state s -> orderly_runs ls s = Some s' -> reachable state s'.
Proof.
  induction ls as [| l ls IH]; intros s s' Hs; simpl; [by intros [= <-] |].
  destruct (decide (orderly l s)); [| done]. destruct (step prio all_cpus l s) as [s1 |] eqn:E; [| done].
  apply IH. by eapply reachable_step.
Qed.

Lemma sem_start_inv state : Inv (start state).
Proof.
  assert (forall w, w <> Off_duty -> ~ busy (start state) w) as Hb by (intros w Hw [k Hk]; by subst).
  split; simpl; try done.
  - intros t. split; simpl; [apply not_elem_of_nil |]. intros [Hy | [Hy | Hy]]; by apply Hb in Hy.
  - constructor.
  - pose proof arch_ge32. unfold LONG_MAX. pose proof (pow2_pos (MWORD_BITS - 1)). lia.
  - intros [Hy | [t [Hy | Hy]]]; by apply Hb in Hy.
Qed.

Lemma sem_reachable_inv state s : reachable state s -> Inv s.
Proof. induction 1; [apply sem_start_inv | by eapply sem_step_inv]. Qed.

(** C7: As long as no thread leaves [sys_down] while another CPU is about to wake it
    up, a call that has reported success was given a unit of the semaphore, or
    came when the semaphore was deleted already; one that has reported a
    cancellation, a timeout, a missing right or the deletion was given none, and
    no call that is over is left in the queue; every interrupt is in the counter,
    given to one call, or lost to the full counter; nobody waits while the
    counter is positive; and a thread that sleeps is in the queue or about to be
    woken up. *)
Theorem sem_down_truth state s :
  reachable state s ->
  (forall t r, at_ (threads s t) = Ret r ->
     t ∉ _waiting s /\
     match r with
     | Ok => unit (threads s t) = true \/ (late (threads s t) = true /\ valid s = false)
     | Not_existent => unit (threads s t) = false /\ valid s = false
     | _ => unit (threads s t) = false
     end) /\
  hits s = _queued s + given s + dropped s /\
  (0 < _queued s -> _waiting s = []) /\
  (forall t, at_ (threads s t) = Wait -> has Thread_ready (st (threads s t)) = false ->
     t ∈ _waiting s \/ about_to_wake s t).
Proof.
  intros I%sem_reachable_inv. split_and!.
  - intros t r Hr. pose proof (i_thread _ I t) as Hok. unfold thread_ok in Hok. fates. rewrite Hr in Hok.
    split; [tauto |]. pose proof (i_late _ I t). destruct r; tauto.
  - apply I.
  - apply I.
  - intros t Hp Hr. pose proof (i_thread _ I t) as Hok. unfold thread_ok in Hok. unfold about_to_wake. fates.
    rewrite Hp in Hok. unfold ready in Hok. rewrite Hr in Hok. intuition congruence.
Qed.
End spec.

(** * Runs *)
Module Semaphore_example.
#[local] Existing Instance arch64.

Definition prio_of (t : Z) : Z := 10 - t.
Definition two_cpus : list Z := [0; 1].
Definition running (t : Z) : Z := Thread_ready.
Abbreviation boot := (start running).
Abbreviation CS := L4Types.L4_fpage.Rights.CS.

(** What an observer sees: the counter, the queue, the results and units of the
    first threads. *)
Definition seen (s : sem) :=
  (_queued s, _waiting s, map (fun t => (at_ (threads s t), unit (threads s t))) [1; 2; 3]).

Lemma sem_seen_some o v : option_map seen o = Some v -> exists s, o = Some s /\ seen s = v.
Proof. destruct o as [s |]; [| done]. simpl. intros [= E]. by exists s. Qed.

(** Three threads wait; an interrupt wakes up the first, the second is cancelled,
    the third is there when the semaphore is deleted. *)
Definition scenario : list label :=
  [L_call 2 CS Never; L_run 2; L_call 1 CS (Relative 10); L_run 1; L_call 3 CS Never; L_run 3;
   L_hit 0 [(1, 7)]; L_clock 10; L_expire 1; L_run 1; L_wake 0; L_run 1; L_run 1;
   L_cancel 2; L_run 2; L_run 2;
   L_destroy 1; L_wake 1; L_wake 1; L_wake 1; L_wake 1; L_run 3; L_run 3].

Abbreviation orderly_run := (orderly_runs prio_of two_cpus scenario boot).
Definition outcome := (0, @nil Z, [(Ret Ok, true); (Ret R_canceled, false); (Ret Not_existent, false)]).

Lemma sem_down_truth_witness :
  exists s, orderly_run = Some s /\ seen s = outcome /\ hits s = _queued s + given s + dropped s.
Proof.
  assert (option_map seen orderly_run = Some outcome) as Hseen by (vm_compute; reflexivity).
  apply sem_seen_some in Hseen as (s & E & Hseen).
  exists s. split; [exact E |]. split; [exact Hseen |].
  apply (sem_down_truth prio_of two_cpus running s).
  eapply sem_orderly_runs_reachable; [apply reachable_start | exact E].
Defined.

(** A call of [sys_down] that finds the counter zero and the semaphore deleted
    reports success, although it was given no unit. *)
Theorem sem_deleted_down_succeeds :
  option_map seen (runs prio_of two_cpus
    [L_destroy 0; L_wake 0; L_call 1 CS Never; L_run 1; L_run 1; L_run 1] boot)
  = Some (0, [], [(Ret Ok, false); (User, false); (User, false)]).
Proof. vm_compute. reflexivity. Qed.

(** CPU 0 takes thread 1 out of the queue; before it makes the thread ready, the
    timeout of the thread is over, the thread finds that it is not in the queue,
    reports success, and waits again; now CPU 0 makes it ready. *)
Definition late_wakeup : list label :=
  [L_call 1 CS (Relative 10); L_run 1; L_hit 0 []; L_clock 10; L_expire 1; L_run 1; L_run 1; L_run 1; L_return 1;
   L_call 1 CS Never; L_run 1; L_wake 0; L_run 1; L_run 1].

(** A thread that leaves [sys_down] because of a timeout while another CPU is
    about to wake it up can be woken up in its next call, which then reports
    success without a unit and leaves the thread in the queue. *)
Theorem sem_late_wakeup_succeeds :
  option_map seen (runs prio_of two_cpus late_wakeup boot)
  = Some (0, [1], [(Ret Ok, false); (User, false); (User, false)]).
Proof. vm_compute. reflexivity. Qed.
End Semaphore_example.
