(* ===== verification/IrqSpec.v ===== *)
(** Theorems about interrupts that become messages: as long as no handler is
    detached while an interrupt is pending, every interrupt reaches the handler,
    at the latest when it receives next; and an interrupt object whose handler is
    detached at the wrong moment never delivers anything again. *)

From stdpp Require Import functions.
From S2P Require Import Prelude L4Types Irq.
Import Irq_sender.
#[local] Arguments consume : simpl never.
#[local] Arguments Irq_base.mask_and_ack : simpl never.
#[local] Arguments Irq_base.mask : simpl never.
#[local] Arguments Irq_base.unmask : simpl never.
#[local] Arguments Irq_base.upstream_ack : simpl never.
#[local] Arguments Irq_base.masked : simpl never.

Section spec.
Context `{Arch} (is_thread : Z -> bool) (online_cpu : Z -> option Z).
Abbreviation istep := (step is_thread online_cpu).

Definition Smword_max : Z := 2 ^ (MWORD_BITS - 1) - 1.

(** * The mask *)

Lemma masked_mask b : Irq_base.masked (Irq_base.mask b) = true.
Proof.
  unfold Irq_base.mask, Irq_base.__mask, Irq_base.masked.
  destruct (nonzero (Irq_base._flags b .& Irq_base.F_enabled)) eqn:E; simpl; [| by rewrite E].
  apply negb_true_iff, nonzero_false. unfold Irq_base.F_enabled. rewrite <- Z.land_assoc.
  assert (mnot 1 .& 1 = 0) as ->; [| apply Z.land_0_r]. bits_ext.
Qed.

Lemma masked_mask_and_ack b : Irq_base.masked (Irq_base.mask_and_ack b) = true.
Proof.
  pose proof (masked_mask b) as Hm. unfold Irq_base.mask, Irq_base.mask_and_ack in *.
  destruct (Irq_base.__mask b) as [[] b']; done.
Qed.

Lemma masked_bind c p b : Irq_base.masked (Irq_base.bind c p b) = Irq_base.masked b.
Proof. unfold Irq_base.bind. destruct (Irq_base.masked (Irq_base.bind_only c p b)); reflexivity. Qed.

Lemma to_signed_small n : - 2 ^ (MWORD_BITS - 1) <= n <= Smword_max -> to_signed MWORD_BITS n = n.
Proof.
  intros Hn. pose proof arch_ge32. unfold to_signed, Smword_max in *.
  assert (2 ^ MWORD_BITS = 2 * 2 ^ (MWORD_BITS - 1)) as E
    by (rewrite <- Z.pow_succ_r by lia; f_equal; lia).
  pose proof (pow2_pos (MWORD_BITS - 1)). rewrite E. destruct (Z.ltb_spec n 0).
  - rewrite <- (Z.mod_add n 1) by lia. rewrite Z.mod_small by lia. destruct (Z.ltb_spec (n + 1 * (2 * 2 ^ (MWORD_BITS - 1))) (2 ^ (MWORD_BITS - 1))); lia.
  - rewrite Z.mod_small by lia. destruct (Z.ltb_spec n (2 ^ (MWORD_BITS - 1))); lia.
Qed.

(** * The invariant *)

Record Inv (s : sys) : Prop := {
  i_pending :
    match _irq_target (irq s) with
    | Endpoint e => 0 <= _queued (irq s) <= Smword_max /\
                    in_list s = (if 0 <? _queued (irq s) then Some e else None) /\
                    (0 < _queued (irq s) -> receivers s e = O)
    | Null => _queued (irq s) = 0 /\ in_list s = None
    | Detach_in_progress => False
    end;
  i_masked : 2 <= _queued (irq s) -> Irq_base.masked (base (irq s)) = true;
  i_refs e : refs s e = if decide (_irq_target (irq s) = Endpoint e) then 1 else 0 }.

(** No handler is detached while an interrupt is pending, and the counter does not
    overflow. *)
Definition orderly (l : label) (s : sys) : Prop :=
  (_irq_target (irq (istep l s)) = Null -> _queued (irq s) = 0) /\ _queued (irq s) < Smword_max.

Lemma consume_queued i : _queued (consume i) = 0.
Proof. unfold consume. by destruct (_ && _). Qed.

Lemma consume_target i : _irq_target (consume i) = _irq_target i.
Proof. unfold consume. by destruct (_ && _). Qed.

(** A message is passed on and nothing is pending any more. *)
Lemma transfer_inv e s :
  _irq_target (irq s) = Endpoint e -> in_list s = None -> (forall e', refs s e' = if decide (_irq_target (irq s) = Endpoint e') then 1 else 0) ->
  Inv (transfer e s).
Proof.
  intros Ht Hl Hr. assert (0 <= Smword_max).
  { pose proof arch_ge32. unfold Smword_max. pose proof (pow2_pos (MWORD_BITS - 1)). lia. }
  split; simpl.
  - rewrite consume_target, consume_queued, Ht. simpl. split_and!; [lia.. | done | lia].
  - rewrite consume_queued. lia.
  - intros e'. rewrite consume_target. apply Hr.
Qed.

(** The first interrupt is sent. *)
Lemma send_inv e s :
  _irq_target (irq s) = Endpoint e -> 0 < _queued (irq s) <= Smword_max -> in_list s = None ->
  (2 <= _queued (irq s) -> Irq_base.masked (base (irq s)) = true) ->
  (forall e', refs s e' = if decide (_irq_target (irq s) = Endpoint e') then 1 else 0) -> Inv (send e s).
Proof.
  intros Ht Hq Hl Hm Hr. unfold send. destruct (receivers s e) as [| n] eqn:En; [| by apply transfer_inv].
  split; simpl; [| done | done]. rewrite Ht. split_and!; [lia.. | | done].
  by rewrite (proj2 (Z.ltb_lt _ _)) by lia.
Qed.

Lemma irq_hit_inv ui s : Inv s -> _queued (irq s) < Smword_max -> Inv (hit ui s).
Proof.
  intros [Ip Im Ir] Hb. pose proof arch_ge32. pose proof (pow2_pos (MWORD_BITS - 1)).
  assert (forall b, Irq_base.masked (Irq_base.upstream_ack ui b) = Irq_base.masked b) as Hu by done.
  unfold hit. destruct (edge (irq s)) eqn:Eg; [unfold _hit_edge_irq | unfold _hit_level_irq]; simpl;
    destruct (_irq_target (irq s)) as [| | e] eqn:Et; try done;
    try (split; simpl; rewrite ?Et; [done | intros; by rewrite Hu, masked_mask_and_ack | done]).
  all: destruct Ip as (Hq & Hl & Hn).
  all: destruct (Z.eqb_spec (_queued (irq s)) 0) as [Ez | Ez].
  1, 3: apply send_inv; simpl; rewrite ?to_signed_small, ?Ez, ?Et by lia; try done; try lia;
    by rewrite Hl, Ez.
  all: split; simpl; rewrite ?to_signed_small, ?Et by lia; [| intros; by rewrite Hu, masked_mask_and_ack | done].
  all: rewrite Hl, !(proj2 (Z.ltb_lt _ _)) by lia; split_and!; try lia; try done; intros _; apply Hn; lia.
Qed.

Lemma receive_inv e s : Inv s -> Inv (receive e s).
Proof.
  intros [Ip Im Ir]. unfold receive. destruct (decide (in_list s = Some e)) as [Hl | Hl].
  - destruct (_irq_target (irq s)) as [| | e'] eqn:Et; [naive_solver | done |].
    destruct Ip as (Hq & Hl' & Hn). rewrite Hl in Hl'. destruct (0 <? _queued (irq s)); simplify_eq.
    apply transfer_inv; simpl; [done | done |]. by rewrite Et.
  - split; simpl; [| done..]. destruct (_irq_target (irq s)) as [| | e'] eqn:Et; [done.. |].
    destruct Ip as (Hq & Hl' & Hn). split_and!; [lia.. | done |]. intros Hp.
    destruct (decide (e' = e)) as [-> | Hne]; [| rewrite fn_lookup_insert_ne by done; auto].
    rewrite (proj2 (Z.ltb_lt _ _)) in Hl' by lia. congruence.
Qed.

Lemma stop_inv e s : Inv s -> Inv (stop_receiving e s).
Proof.
  intros [Ip Im Ir]. split; simpl; [| done..]. destruct (_irq_target (irq s)) as [| | e'] eqn:Et; [done.. |].
  destruct Ip as (Hq & Hl & Hn). split_and!; [lia.. | done |]. intros Hp.
  destruct (decide (e' = e)) as [-> | Hne]; [rewrite fn_lookup_insert | rewrite fn_lookup_insert_ne by done; auto].
  by rewrite Hn.
Qed.

(** A change of the object that the invariant does not depend on. *)
Lemma on_irq_inv f s :
  Inv s -> _irq_target (f (irq s)) = _irq_target (irq s) -> _queued (f (irq s)) = _queued (irq s) ->
  (2 <= _queued (irq s) -> Irq_base.masked (base (f (irq s))) = Irq_base.masked (base (irq s))) -> Inv (on_irq f s).
Proof.
  intros [Ip Im Ir] Ht Hq Hm. split; simpl; rewrite ?Ht, ?Hq; try done. intros Hp. rewrite Hm; auto.
Qed.

Lemma eoi_inv s : Inv s -> Inv (eoi s).
Proof.
  intros I. unfold eoi. destruct (Z.ltb_spec (_queued (irq s)) 1); [| done]. apply on_irq_inv; simpl; auto. lia.
Qed.

(** A new target, once the sender is not in the list of the old one. *)
Lemma bind_irq_inv tgt lbl s : Inv s -> Inv (snd (bind_irq is_thread online_cpu tgt lbl s)).
Proof.
  intros I. assert (I' := I). destruct I' as [Ip Im Ir]. unfold bind_irq.
  destruct (decide (_irq_target (irq s) = Endpoint tgt)) as [Et | Et]; [by apply on_irq_inv |].
  assert (0 <= Smword_max).
  { pose proof arch_ge32. unfold Smword_max. pose proof (pow2_pos (MWORD_BITS - 1)). lia. }
  destruct (_irq_target (irq s)) as [| | e] eqn:Eo; [| done |].
  - destruct Ip as [Hq Hl]. assert (forall e', (<[tgt := refs s tgt + 1]> (refs s)) e' = if decide (Endpoint tgt = Endpoint e') then 1 else 0) as Hr.
    { intros e'. destruct (decide (e' = tgt)) as [-> | Hne]; [rewrite fn_lookup_insert, Ir | rewrite fn_lookup_insert_ne, Ir by done];
        repeat case_decide; (congruence || lia). }
    assert (Inv (add_ref tgt 1 (on_irq (fun i => set_id lbl (set_target (Endpoint tgt) i)) s))) as I1.
    { split; simpl; rewrite ?Hq, ?Hl; [split_and!; [lia.. | done | lia] | lia | done]. }
    apply (on_irq_inv (fun i => set_mode (edge i) (negb (is_thread tgt)) i)) in I1; [| done..].
    simpl. destruct (is_thread tgt); [destruct (online_cpu tgt) |]; simpl; try done. by apply on_irq_inv.
  - destruct Ip as (Hq & Hl & Hn). assert (tgt <> e) as Hne by congruence.
    set (s1 := if is_thread tgt then _ else _).
    assert (_irq_target (irq s1) = Endpoint tgt /\ _queued (irq s1) = _queued (irq s) /\ in_list s1 = in_list s /\
      Irq_base.masked (base (irq s1)) = Irq_base.masked (base (irq s)) /\ refs s1 = <[tgt := refs s tgt + 1]> (refs s))
      as (Ht1 & Hq1 & Hl1 & Hm1 & Hr1).
    { unfold s1. destruct (is_thread tgt); [destruct (online_cpu tgt) |]; done. }
    clearbody s1.
    assert (forall e', (<[e := refs s1 e + -1]> (refs s1)) e' = if decide (Endpoint tgt = Endpoint e') then 1 else 0) as Hr.
    { intros e'. rewrite Hr1. destruct (decide (e' = e)) as [-> | Hne'].
      - rewrite fn_lookup_insert, fn_lookup_insert_ne, Ir by done. repeat case_decide; (congruence || lia).
      - rewrite fn_lookup_insert_ne by done. destruct (decide (e' = tgt)) as [-> | Hne''];
          [rewrite fn_lookup_insert, Ir | rewrite fn_lookup_insert_ne, Ir by done]; repeat case_decide; (congruence || lia). }
    unfold sender_dequeue. destruct (Z.ltb_spec 0 (_queued (irq s))) as [Hp | Hp].
    + destruct (decide (in_list s1 = Some e)); [simpl | congruence].
      assert (add_ref e (-1) (send tgt (set_list None s1)) = send tgt (add_ref e (-1) (set_list None s1))) as ->.
      { unfold send. simpl. by destruct (receivers s1 tgt). }
      apply send_inv; simpl; rewrite ?Ht1, ?Hq1, ?Hm1; auto; lia.
    + destruct (decide (in_list s1 = Some e)); [congruence | simpl].
      split; simpl; rewrite ?Ht1, ?Hq1, ?Hm1; auto.
      rewrite Hl1, Hl, (proj2 (Z.ltb_ge _ _)) by lia. split_and!; [lia.. | done | lia].
Qed.

Lemma detach_inv s : Inv s -> _queued (irq s) = 0 -> Inv (snd (detach_irq_thread s)).
Proof.
  intros I Hq. assert (I' := I). destruct I' as [Ip Im Ir]. unfold detach_irq_thread.
  destruct (_irq_target (irq s)) as [| | e] eqn:Et; [done.. |].
  destruct Ip as (_ & Hl & _). rewrite Hq in Hl. simpl in Hl.
  unfold sender_dequeue. simpl. destruct (decide (in_list s = Some e)); [congruence | simpl].
  split; simpl; rewrite ?Hq; [done | lia |]. intros e'.
  destruct (decide (e' = e)) as [-> | Hne]; [rewrite fn_lookup_insert, Ir | rewrite fn_lookup_insert_ne, Ir by done];
    repeat case_decide; (congruence || lia).
Qed.

Lemma detach_orderly_inv s :
  Inv s -> (_irq_target (irq (snd (detach_irq_thread s))) = Null -> _queued (irq s) = 0) ->
  Inv (snd (detach_irq_thread s)).
Proof.
  intros I Ho. destruct (_irq_target (irq s)) as [| | e] eqn:Et.
  1, 2: unfold detach_irq_thread; by rewrite Et.
  apply detach_inv; [done |]. apply Ho. unfold detach_irq_thread. rewrite Et. by destruct (sender_dequeue e _).
Qed.

Lemma modify_label_keeps todo i :
  _irq_target (modify_label todo i) = _irq_target i /\ _queued (modify_label todo i) = _queued i /\
  base (modify_label todo i) = base i.
Proof.
  revert i. induction todo as [| [[[? ?] ?] ?] todo IH]; intros i; simpl; [done |].
  destruct (_ =? _); [done | apply IH].
Qed.

Lemma irq_step_inv l s : Inv s -> orderly l s -> Inv (istep l s).
Proof.
  intros I [Ho Hb]. destruct l as [ui | tag v0 rights ep lbl | e | e | todo | c p m | |]; cbn [step] in *.
  - by apply irq_hit_inv.
  - unfold kinvoke in *. destruct (_ <? 0); [done |]. destruct (_ =? Label_kobject).
    { destruct (_ =? Op_bind); [| done]. simpl. unfold sys_bind. destruct (nonzero _); [| done].
      destruct ep; [done | by apply bind_irq_inv]. }
    destruct (_ =? Label_irq).
    { destruct (dispatch_irq_proto _) as [[] |]; simpl; [by apply eoi_inv | by apply irq_hit_inv | done]. }
    destruct (_ =? Label_irq_sender); [| done]. destruct (_ =? Op_detach); [| done]. cbn [fst snd] in *.
    unfold sys_detach in *. destruct (nonzero _); [cbn [negb] in * | done].
    pose proof (detach_orderly_inv s I) as Hd. destruct (detach_irq_thread s) as [r s']. simpl in *.
    apply on_irq_inv; auto.
  - by apply receive_inv.
  - by apply stop_inv.
  - destruct (modify_label_keeps todo (irq s)) as (? & ? & Hbase). apply on_irq_inv; try done. by rewrite Hbase.
  - apply on_irq_inv; try done. intros _. apply masked_bind.
  - by apply on_irq_inv.
  - unfold destroy in *. set (s1 := match _irq_target _ with Endpoint _ => _ | _ => _ end) in *.
    assert (_queued (irq s1) = _queued (irq s)) as Hq by (unfold s1; by destruct (_irq_target _)).
    apply detach_orderly_inv; [| intros Hn; rewrite Hq; by apply Ho].
    assert (Inv (on_base Irq_base.unbind s)) as I1 by (by apply on_irq_inv).
    unfold s1. destruct (_irq_target _); try done. destruct I1. by split.
Qed.

Inductive reachable (waiting : Z -> nat) : sys -> Prop :=
  | reachable_boot : reachable waiting (boot waiting)
  | reachable_step l s : reachable waiting s -> orderly l s -> reachable waiting (istep l s).

Lemma reachable_pending waiting s : reachable waiting s -> Inv s.
Proof. induction 1; [split; simpl; by intros | by apply irq_step_inv]. Qed.

(** C9: As long as no handler is detached while an interrupt is pending, an interrupt
    object that has a handler and pending interrupts is in the sender list of the
    handler and nobody waits there in vain; with more than one pending interrupt
    it is masked; it holds exactly one reference, to its handler; and an
    interrupt that comes now gives the handler one message with the label of the
    object, at the latest when the handler receives next, with nothing pending
    after that. *)
Theorem irq_reaches_handler waiting s e :
  reachable waiting s -> _irq_target (irq s) = Endpoint e ->
  (0 < _queued (irq s) -> in_list s = Some e /\ receivers s e = O) /\
  (2 <= _queued (irq s) -> Irq_base.masked (base (irq s)) = true) /\
  (forall e', refs s e' = if decide (e' = e) then 1 else 0) /\
  (forall ui, _queued (irq s) < Smword_max ->
     got (receive e (hit ui s)) = got s ++ [(e, _irq_id (irq s))] /\
     _queued (irq (receive e (hit ui s))) = 0).
Proof.
  intros I%reachable_pending Et. assert (I' := I). destruct I' as [Ip Im Ir]. rewrite Et in Ip.
  destruct Ip as (Hq & Hl & Hn). split_and!; [| done | |].
  - intros Hp. by rewrite Hl, (proj2 (Z.ltb_lt _ _)), Hn by lia.
  - intros e'. rewrite Ir, Et. repeat case_decide; congruence.
  - intros ui Hb. pose proof arch_ge32. pose proof (pow2_pos (MWORD_BITS - 1)).
    assert (forall s', in_list s' = Some e -> got (receive e s') = got s' ++ [(e, _irq_id (irq s'))] /\ _queued (irq (receive e s')) = 0) as Hrcv.
    { intros s' Hs'. unfold receive. rewrite decide_True by done. simpl. split; [done | apply consume_queued]. }
    assert (forall s', in_list s' = None -> got (receive e s') = got s' /\ _queued (irq (receive e s')) = _queued (irq s')) as Hwait.
    { intros s' Hs'. unfold receive. rewrite decide_False by congruence. done. }
    assert (forall s', in_list s' = None -> got (receive e (send e s')) = got s' ++ [(e, _irq_id (irq s'))] /\ _queued (irq (receive e (send e s'))) = 0) as Hsend.
    { intros s' Hs'. unfold send. destruct (receivers s' e); [by apply (Hrcv (set_list (Some e) s')) |].
      match goal with |- context [receive e ?x] => destruct (Hwait x) as [-> ->]; [done |] end. split; [done | apply consume_queued]. }
    unfold hit. destruct (edge (irq s)); [unfold _hit_edge_irq | unfold _hit_level_irq]; simpl; rewrite Et;
      (destruct (Z.eqb_spec (_queued (irq s)) 0) as [Ez | Ez];
       [rewrite Ez in Hl; match goal with |- context [send e ?x] => by apply (Hsend x) end
       | rewrite (proj2 (Z.ltb_lt _ _)) in Hl by lia; match goal with |- context [receive e ?x] => by apply (Hrcv x) end]).
Qed.

(** * An interrupt object that is lost *)

(** Interrupts are counted as pending, but the sender is in no list. *)
Definition lost (n : Z) (s : sys) : Prop := 0 < _queued (irq s) <= Smword_max - n /\ in_list s = None.

Lemma lost_step n l s : 0 < n -> lost n s -> lost (n - 1) (istep l s) /\ got (istep l s) = got s.
Proof.
  intros Hn [Hq Hl]. pose proof arch_ge32. pose proof (pow2_pos (MWORD_BITS - 1)).
  assert (forall f, _queued (f (irq s)) = _queued (irq s) -> lost (n - 1) (on_irq f s)) as Hon.
  { intros f Hf. split; simpl; [rewrite Hf; lia | done]. }
  assert (forall ui, lost (n - 1) (hit ui s) /\ got (hit ui s) = got s) as Hhit.
  { intros ui. unfold hit. destruct (edge (irq s)); [unfold _hit_edge_irq | unfold _hit_level_irq]; simpl;
      destruct (_irq_target (irq s)); try (split; [by apply Hon | done]);
      rewrite (proj2 (Z.eqb_neq _ _)) by lia; (split; [| done]); (split; simpl; [| done]);
      rewrite to_signed_small; lia. }
  assert (forall s', _queued (irq s') = _queued (irq s) -> in_list s' = None ->
    lost (n - 1) (snd (detach_irq_thread s')) /\ got (snd (detach_irq_thread s')) = got s') as Hdet.
  { intros s' Hq' Hl'. unfold detach_irq_thread, lost. destruct (_irq_target (irq s')); simpl; rewrite ?Hq'; try (split; [split; [lia | done] | done]).
    unfold sender_dequeue. simpl. destruct (decide _); [congruence | simpl]. rewrite Hq'. split; [split; [lia | done] | done]. }
  destruct l as [ui | tag v0 rights ep lbl | e | e | todo | c p m | |]; cbn [step]; try (split; [by apply Hon | done]).
  - apply Hhit.
  - assert (lost (n - 1) s) as Hid by (split; [lia | done]).
    unfold kinvoke. destruct (_ <? 0); [done |]. destruct (_ =? Label_kobject).
    { destruct (_ =? Op_bind); [| done]. simpl. unfold sys_bind. destruct (nonzero _); [| done].
      destruct ep as [| e]; [done |]. simpl. unfold bind_irq.
      destruct (decide (_irq_target (irq s) = Endpoint e)); [split; [by apply Hon | done] |].
      destruct (_irq_target (irq s)) as [| | old]; [| done |].
      all: destruct (is_thread e); [destruct (online_cpu e) |]; simpl; try (split; [split; simpl; [lia | done] | done]).
      all: unfold sender_dequeue; simpl; destruct (decide _); [congruence |]; simpl; split; [split; simpl; [lia | done] | done]. }
    destruct (_ =? Label_irq).
    { destruct (dispatch_irq_proto _) as [[] |]; simpl; [| apply Hhit | done].
      unfold eoi. destruct (_ <? 1); [split; [by apply Hon | done] | done]. }
    destruct (_ =? Label_irq_sender); [| done]. destruct (_ =? Op_detach); [| done]. simpl.
    unfold sys_detach. destruct (nonzero _); [| done]. specialize (Hdet s eq_refl Hl). simpl.
    by destruct (detach_irq_thread s) as [r s'].
  - unfold receive. rewrite decide_False by congruence. split; [split; simpl; [lia | done] | done].
  - split; [split; simpl; [lia | done] | done].
  - split; [| done]. apply Hon, modify_label_keeps.
  - unfold destroy. destruct (_irq_target _); match goal with |- context [detach_irq_thread ?x] => by apply (Hdet x) end.
Qed.

Lemma lost_steps ls : forall s,
  lost (Z.of_nat (length ls)) s -> got (steps is_thread online_cpu ls s) = got s /\ lost 0 (steps is_thread online_cpu ls s).
Proof.
  induction ls as [| l ls IH]; intros s Hs; [by split |]. simpl.
  destruct (lost_step (Z.of_nat (length (l :: ls))) l s) as [Hs' Hg]; [simpl; lia | done |].
  destruct (IH (istep l s)) as [IH1 IH2].
  { replace (Z.of_nat (length ls)) with (Z.of_nat (length (l :: ls)) - 1) by (simpl; lia). done. }
  split; [| done]. unfold steps in *. by rewrite IH1.
Qed.
End spec.

(** * Runs *)
Module Irq_example.
#[local] Existing Instance arch64.
Definition thread_handler (e : Z) : bool := e <? 10.
Definition cpu_0 (e : Z) : option Z := Some 0.
Abbreviation run ls := (steps thread_handler cpu_0 ls (boot (fun _ => O))).

(** Messages: bind to an endpoint, detach, end of interrupt. *)
Definition bind_to (e lbl : Z) : label := Invoke (Label_kobject << 16 .| 2) Op_bind L4_fpage.Rights.CS (inr e) lbl.
Definition detach : label := Invoke (Label_irq_sender << 16 .| 1) Op_detach L4_fpage.Rights.CS (inl 0) 0.
Definition end_of_interrupt : label := Invoke (Label_irq << 16 .| 1) Op_eoi_1 L4_fpage.Rights.CS (inl 0) 0.

(** An edge-triggered interrupt with handler 5, three times, then handler 6. *)
Definition scenario : list label :=
  [Chip_bind 1 7 true; bind_to 5 77; end_of_interrupt; Hit []; Hit [(2, 3)]; Hit []; bind_to 6 78].

Lemma irq_reaches_handler_witness :
  _queued (irq (run scenario)) = 3 /\ in_list (run scenario) = Some 6 /\
  got (receive 6 (hit [] (run scenario))) = got (run scenario) ++ [(6, 78)].
Proof.
  split; [vm_compute; reflexivity |].
  assert (reachable thread_handler cpu_0 (fun _ => O) (run scenario)) as Hr.
  { repeat (apply reachable_step; [| split; vm_compute; congruence]). apply reachable_boot. }
  destruct (irq_reaches_handler thread_handler cpu_0 (fun _ => O) (run scenario) 6 Hr) as (H1 & _ & _ & H2).
  { vm_compute. reflexivity. }
  split; [apply H1; vm_compute; reflexivity |]. apply H2. vm_compute. reflexivity.
Defined.

(** When a handler is detached while an interrupt is pending, the counter of
    pending interrupts stays positive although the sender is in no list: whatever
    happens to the object afterwards (other handlers, interrupts, receive
    operations, acknowledgements), no message is ever sent again, up to the
    overflow of the counter. *)
Theorem irq_detach_deafens (ls : list label) :
  Z.of_nat (length ls) <= Smword_max - 1 ->
  got (steps thread_handler cpu_0 ls (run [bind_to 5 77; Hit []; detach])) = [].
Proof.
  intros Hlen. transitivity (got (run [bind_to 5 77; Hit []; detach])); [| vm_compute; reflexivity].
  apply lost_steps. split; [| vm_compute; reflexivity].
  assert (_queued (irq (run [bind_to 5 77; Hit []; detach])) = 1) as -> by (vm_compute; reflexivity). lia.
Qed.

Lemma irq_detach_deafens_witness :
  got (steps thread_handler cpu_0 [bind_to 6 78; end_of_interrupt; Hit []; Receive 6; Hit []; Receive 6]
         (run [bind_to 5 77; Hit []; detach])) = [].
Proof. apply (irq_detach_deafens [bind_to 6 78; end_of_interrupt; Hit []; Receive 6; Hit []; Receive 6]). vm_compute. discriminate. Defined.
End Irq_example.
