(* ===== verification/SwitchLock.v ===== *)
(** Locks with helping on several processors ([src/src/kern/switch_lock.h],
    [context_mp.h], and [schedule], [switch_exec_locked] and
    [switch_exec_helping] of [context.cc]).

    A context that finds a lock taken lends its CPU to the owner of the lock; the
    owner then runs on a CPU that is not its home.  The word
    [_running_under_lock] keeps the owner from running on two CPUs at once.

    Every access to a word that other CPUs write is a step of the CPU that does
    it.  A context keeps its place in the kernel while another one runs on its
    CPU ([Away]).  What the code outside of the lock does (user mode, other kernel
    functions, interrupts, deferred requests) is an event that may come where
    interrupts are enabled.  The choice of the scheduler and the results of
    deferred requests are arguments of a step. *)

From stdpp Require Import functions.
From S2P Require Import Prelude.

(** * State *)

(** [Switch_lock::Status] *)
Inductive Status := Not_locked | Locked | Invalid.

(** [Running_under_lock::State].  The number of the CPU that has made the
    transition is not in the code, and no step reads it. *)
Inductive State := Not_running | Trying (by_cpu : Z) | Running (by_cpu : Z).

Definition is_not_running (s : State) : bool := match s with Not_running => true | _ => false end.
Definition is_running (s : State) : bool := match s with Running _ => true | _ => false end.

(** [_lock_owner]: the owner, and the lowest bit, which says that the lock does
    not exist any more. *)
Record word := mk_word { owner : option Z; gone : bool }.

#[export] Instance word_eq_dec : EqDecision word.
Proof. solve_decision. Defined.

(** [Context::Helping_mode] *)
Inductive Helping_mode := Helping | Not_Helping | Ignore_Helping.

(** The loops in which a context helps: in [lock] and in [wait_free]. *)
Inductive waiting := Acquire | Wait_free.

(** Where [schedule] returns to. *)
Inductive ret :=
  | R_out                              (** to code outside *)
  | R_recheck                          (** to [Switch_lock::schedule] *)
  | R_retry (w : waiting) (l : Z)      (** to the end of [help] *)
  | R_point (w : waiting) (l : Z)      (** to the preemption point of [help] *)
  | R_sched (k : Z) (r : ret).         (** to the preemption point of [schedule] *)

(** Where a switch returns to. *)
Inductive cont :=
  | K_sched (r : ret)                  (** to the loop of [schedule] *)
  | K_foreign (r : ret)                (** to the loop of [schedule] on a foreign CPU *)
  | K_clear                            (** to [switch_dirty] *)
  | K_help (w : waiting) (l : Z)       (** to [help] *)
  | K_drq (r : ret).                   (** to an interrupt that called [kernel_context_drq] *)

(** The place of a context in the kernel: what it does next. *)
Inductive place :=
  | Out                                             (** outside, interrupts enabled *)
  (* lock *)
  | Lock (l : Z) | Load (w : waiting) (l : Z)
  | Try (w : waiting) (l t : Z) (v : word)          (** [try_to_help] *)
  | Cnt (w : waiting) (l t : Z) (v : word)          (** the load of [_lock_cnt] *)
  | Own (w : waiting) (l t : Z) (v : word)          (** the load of the lock *)
  | Help (w : waiting) (l t : Z) | Reset (w : waiting) (l : Z) (t : Z)
  | Lend (w : waiting) (l t : Z)                    (** the switch to the owner *)
  | Point (w : waiting) (l : Z)                     (** [preemption_point] *)
  | Set_owner (l : Z) | Dispatch (l : Z) | Cas (l : Z) (have_no_locks : bool)
  | Undo (l : Z) | Inc (l : Z)
  (* clear *)
  | Clear (l : Z) | Dec | Home | Clear_reset | Back_to_helper | Check
  | Recheck | Recheck_load | Recheck_store
  (* wait_free *)
  | Free (l : Z)
  (* schedule *)
  | Sched (r : ret) | Sched_loop (r : ret) | Sched_home (r : ret) | Sched_point (k : Z) (r : ret)
  (* switch_exec_locked *)
  | Sw (c : cont) (t : Z) (m : Helping_mode) | Sw_rul (c : cont) (t : Z) (m : Helping_mode)
  | Sw_dispatch (c : cont) (t : Z) (m : Helping_mode) | Sw_cnt (c : cont) (t : Z) (m : Helping_mode)
  | Sw_reset (c : cont) (t : Z) (m : Helping_mode) | Sw_ready (c : cont) (t : Z) (m : Helping_mode)
  (* after a switch *)
  | Fin (f : Z) (c : cont) | Fin_store (f : Z) (c : cont) | Back (c : cont)
  | Away (c : cont)                                 (** another context runs *)
  | Panic.

(** [held] is not in the code: the locks that [lock] has reported as taken and
    that have not been given to [clear]. *)
Record ctx := mk_ctx {
  home : Z;
  lock_cnt : Z;
  rul : State;                 (** [_running_under_lock] *)
  helper : Z;
  ready : bool;                (** [Thread_ready_mask] *)
  at_ : place;
  status : option Status;      (** what the last [lock] has returned *)
  held : list Z }.

(** [freed] is not in the code: [wait_free] has returned. *)
Record sys := mk {
  ctxs : Z -> ctx;
  current : Z -> Z;
  locks : Z -> word;
  freed : Z -> bool }.

Definition set_home (h : Z) (x : ctx) : ctx := mk_ctx h (lock_cnt x) (rul x) (helper x) (ready x) (at_ x) (status x) (held x).
Definition set_cnt (n : Z) (x : ctx) : ctx := mk_ctx (home x) n (rul x) (helper x) (ready x) (at_ x) (status x) (held x).
Definition set_rul (r : State) (x : ctx) : ctx := mk_ctx (home x) (lock_cnt x) r (helper x) (ready x) (at_ x) (status x) (held x).
Definition put_helper (h : Z) (x : ctx) : ctx := mk_ctx (home x) (lock_cnt x) (rul x) h (ready x) (at_ x) (status x) (held x).
Definition set_ready (b : bool) (x : ctx) : ctx := mk_ctx (home x) (lock_cnt x) (rul x) (helper x) b (at_ x) (status x) (held x).
Definition set_at (p : place) (x : ctx) : ctx := mk_ctx (home x) (lock_cnt x) (rul x) (helper x) (ready x) p (status x) (held x).
Definition set_status (r : Status) (x : ctx) : ctx := mk_ctx (home x) (lock_cnt x) (rul x) (helper x) (ready x) (at_ x) (Some r) (held x).
Definition set_held (h : list Z) (x : ctx) : ctx := mk_ctx (home x) (lock_cnt x) (rul x) (helper x) (ready x) (at_ x) (status x) h.

Definition on (t : Z) (f : ctx -> ctx) (s : sys) : sys := mk (<[t := f (ctxs s t)]> (ctxs s)) (current s) (locks s) (freed s).
Definition set_current (k t : Z) (s : sys) : sys := mk (ctxs s) (<[k := t]> (current s)) (locks s) (freed s).
Definition set_lock (l : Z) (w : word) (s : sys) : sys := mk (ctxs s) (current s) (<[l := w]> (locks s)) (freed s).
Definition set_freed (l : Z) (s : sys) : sys := mk (ctxs s) (current s) (locks s) (<[l := true]> (freed s)).

Definition go (c : Z) (p : place) : sys -> sys := on c (set_at p).

(** Where [schedule] returns to, and what follows a switch that has failed on CPU
    [k]: a deferred request of the kernel context that could not be made asks for
    scheduling, except within the scheduler. *)
Definition resume_at (r : ret) : place :=
  match r with
  | R_out => Out
  | R_recheck => Recheck
  | R_retry w l => Load w l
  | R_point w l => Point w l
  | R_sched k' r => Sched_point k' r
  end.

Definition failed_at (k : Z) (q : cont) : place :=
  match q with
  | K_sched r => Sched_point k r
  | K_foreign r => Sched_loop r
  | K_clear => Sched R_recheck
  | K_help w l => Point w l
  | K_drq (R_sched k' r) => Sched_point k' r
  | K_drq r => Sched r
  end.

(** * The operations *)

Section ops.
(** The idle context of each CPU. *)
Variable kernel_context : Z -> Z.

(** Here [k] is the CPU that makes the step and [c] its current context. *)
Section cpu.
Variables (k c : Z) (s : sys).

Definition return_status (r : Status) (s : sys) : sys := on c (fun x => set_at Out (set_status r x)) s.

(** ** [Switch_lock::lock] *)

Definition lock (l : Z) : sys :=
  let o := locks s l in
  if gone o then return_status Invalid s
  else if decide (owner o = Some c) then return_status Locked s
  else go c (Load Acquire l) s.

Definition lock_load (l : Z) : sys :=
  let o := locks s l in
  if gone o then return_status Invalid s
  else match owner o with
  | None => go c (Set_owner l) s
  | Some t => go c (Try Acquire l t o) s
  end.

(** [Running_under_lock::try_to_help] and [need_help] *)
Definition try_to_help (w : waiting) (l t : Z) (v : word) : sys :=
  if is_not_running (rul (ctxs s t)) then go c (Cnt w l t v) (on t (set_rul (Trying k)) s)
  else go c (Point w l) s.

Definition need_help_cnt (w : waiting) (l t : Z) (v : word) : sys :=
  go c (if lock_cnt (ctxs s t) =? 0 then Reset w l t else Own w l t v) s.

Definition need_help_own (w : waiting) (l t : Z) (v : word) : sys :=
  go c (if decide (locks s l = v) then Help w l t else Reset w l t) s.

Definition help (w : waiting) (l t : Z) : sys := go c (Lend w l t) (on t (set_rul (Running k)) s).

Definition help_reset (w : waiting) (l t : Z) : sys := go c (Point w l) (on t (set_rul Not_running) s).

Definition set_helper (m : Helping_mode) (t : Z) (s : sys) : sys :=
  match m with
  | Helping => on t (put_helper c) s
  | Not_Helping => on t (put_helper t) s
  | Ignore_Helping => s
  end.

(** [switch_cpu]: [t] goes on where it has left. *)
Definition switch_cpu (t : Z) (q : cont) (s : sys) : sys :=
  let s := on t (fun x => match at_ x with Away q => set_at (Fin c q) x | _ => x end) s in
  set_current k t (go c (Away q) s).

(** [switch_exec_helping] after [need_help] *)
Definition switch_exec_helping (w : waiting) (l t : Z) : sys :=
  if ready (ctxs s t) then switch_cpu t (K_help w l) (set_helper Helping t s)
  else go c (Point w l) s.

(** The end of [Switch_lock::help], after the preemption point *)
Definition help_failed (w : waiting) (l : Z) : sys :=
  go c (if decide (home (ctxs s c) = k) then Load w l else Sched (R_retry w l)) s.

(** ** [Switch_lock::set_lock_owner] *)

Definition set_lock_owner (l : Z) : sys := go c (if lock_cnt (ctxs s c) <? 1 then Dispatch l else Cas l false) s.

(** [try_dispatch], in a loop *)
Definition set_owner_dispatch (l : Z) : sys :=
  if is_not_running (rul (ctxs s c)) then on c (fun x => set_at (Cas l true) (set_rul (Running k) x)) s else s.

Definition set_owner_cas (l : Z) (have_no_locks : bool) : sys :=
  if decide (locks s l = mk_word None false) then go c (Inc l) (set_lock l (mk_word (Some c) false) s)
  else go c (if have_no_locks then Undo l else Load Acquire l) s.

Definition set_owner_undo (l : Z) : sys := on c (fun x => set_at (Load Acquire l) (set_rul Not_running x)) s.

Definition inc_lock_cnt (l : Z) : sys :=
  on c (fun x => set_at Out (set_status Not_locked (set_held (l :: held x) (set_cnt (lock_cnt x + 1) x)))) s.

(** ** [Switch_lock::clear] *)

Definition clear_lock_owner (l : Z) : sys := go c Dec (set_lock l (mk_word None (gone (locks s l))) s).

Definition dec_lock_cnt : sys :=
  let n := lock_cnt (ctxs s c) - 1 in
  on c (fun x => set_at (if n =? 0 then Home else Back_to_helper) (set_cnt n x)) s.

Definition dec_lock_cnt_home : sys := go c (if decide (home (ctxs s c) = k) then Clear_reset else Back_to_helper) s.

Definition dec_lock_cnt_reset : sys := on c (fun x => set_at Back_to_helper (set_rul Not_running x)) s.

(** [switch_dirty]: back to the helper *)
Definition switch_dirty : sys :=
  let h := helper (ctxs s c) in
  if decide (h = c) then go c Check s
  else if decide (home (ctxs s h) = k) then go c (Sw K_clear h Ignore_Helping) s
  else go c (Sched R_recheck) s.

Definition switch_dirty_check : sys :=
  go c (if (lock_cnt (ctxs s c) =? 0) && negb (bool_decide (home (ctxs s c) = k)) then Sched R_recheck else Out) s.

(** [Switch_lock::schedule] after [Context::schedule]; [Running_under_lock::preempt] *)
Definition recheck : sys :=
  go c (if bool_decide (home (ctxs s c) = k) && (lock_cnt (ctxs s c) =? 0) then Recheck_load else Out) s.

Definition recheck_load : sys := go c (if is_running (rul (ctxs s c)) then Recheck_store else Out) s.

Definition recheck_store : sys := on c (fun x => set_at Out (set_rul Not_running x)) s.

(** ** [Switch_lock::wait_free] *)

Definition wait_free (l : Z) : sys :=
  if decide (owner (locks s l) = Some c) then go c Panic s else go c (Load Wait_free l) s.

Definition wait_free_load (l : Z) : sys :=
  let o := locks s l in
  match owner o with
  | None => set_freed l (go c Out s)
  | Some t => go c (Try Wait_free l t o) s
  end.

(** ** [Context::schedule] *)

Definition resume (r : ret) : sys -> sys := go c (resume_at r).

Definition schedule (r : ret) : sys := on c (fun x => set_at (Sched_loop r) (put_helper c x)) s.

(** On a foreign CPU the kernel context is asked to schedule. *)
Definition schedule_foreign (r : ret) : sys :=
  go c (if decide (home (ctxs s c) = k) then Sched_home r else Sw (K_foreign r) (kernel_context k) Ignore_Helping) s.

(** [n] is what [next_to_run] gives, [drq] the result of [handle_drq]. *)
Definition schedule_home (r : ret) (n : Z) (drq : bool) : option sys :=
  if bool_decide (home (ctxs s n) = k) && ready (ctxs s n) then
    Some (if decide (n = c) then if drq then s else resume r s
          else go c (Sw (K_sched r) n Not_Helping) s)
  else None.

Definition schedule_point (k' : Z) (r : ret) : sys := if decide (k' = k) then go c (Sched_home r) s else resume r s.

(** ** [Context::switch_exec_locked] *)

(** [Context_mp_x::running_on_different_cpu] *)
Definition different_cpu_cnt (q : cont) (t : Z) (m : Helping_mode) : sys :=
  go c (if lock_cnt (ctxs s t) =? 0 then Sw_rul q t m else Sw_dispatch q t m) s.

Definition different_cpu_rul (q : cont) (t : Z) (m : Helping_mode) : sys :=
  go c (if is_not_running (rul (ctxs s t)) then Sw_ready q t m else Sw_dispatch q t m) s.

(** What follows a switch that has failed. *)
Definition switch_failed (q : cont) : sys -> sys := go c (failed_at k q).

Definition different_cpu_dispatch (q : cont) (t : Z) (m : Helping_mode) : sys :=
  if is_not_running (rul (ctxs s t)) then go c (Sw_cnt q t m) (on t (set_rul (Running k)) s)
  else switch_failed q s.

Definition different_cpu_cnt2 (q : cont) (t : Z) (m : Helping_mode) : sys :=
  go c (if lock_cnt (ctxs s t) =? 0 then Sw_reset q t m else Sw_ready q t m) s.

Definition different_cpu_reset (q : cont) (t : Z) (m : Helping_mode) : sys :=
  go c (Sw_ready q t m) (on t (set_rul Not_running) s).

Definition switch_exec_locked (q : cont) (t : Z) (m : Helping_mode) : sys :=
  if ready (ctxs s t) then switch_cpu t q (set_helper m t s) else switch_failed q s.

(** [handle_lock_holder_preemption] of the context that ran before *)
Definition preempt_load (f : Z) (q : cont) : sys := go c (if is_running (rul (ctxs s f)) then Fin_store f q else Back q) s.

Definition preempt_store (f : Z) (q : cont) : sys := go c (Back q) (on f (set_rul Not_running) s).

(** [switch_handle_drq] and the return to the caller; [drq] is the result of
    [handle_drq], which only the home CPU calls. *)
Definition switch_handle_drq (q : cont) (drq : bool) : sys :=
  let resched := bool_decide (home (ctxs s c) = k) && drq in
  match q with
  | K_sched r => if resched then go c (Sched_home r) s else resume r s
  | K_foreign r => if resched then go c (Sched_loop r) s else resume r s
  | K_clear => if resched then go c (Sched R_recheck) s else go c Check s
  | K_help w l => go c (Load w l) s
  | K_drq r => if drq then go c (Sched r) s else resume r s
  end.
End cpu.

(** ** Steps *)

Definition run (k n : Z) (drq : bool) (s : sys) : option sys :=
  let c := current s k in
  match at_ (ctxs s c) with
  | Out | Away _ | Panic => None
  | Lock l => Some (lock c s l)
  | Load Acquire l => Some (lock_load c s l)
  | Load Wait_free l => Some (wait_free_load c s l)
  | Try w l t v => Some (try_to_help k c s w l t v)
  | Cnt w l t v => Some (need_help_cnt c s w l t v)
  | Own w l t v => Some (need_help_own c s w l t v)
  | Help w l t => Some (help k c s w l t)
  | Reset w l t => Some (help_reset c s w l t)
  | Lend w l t => Some (switch_exec_helping k c s w l t)
  | Point w l => Some (help_failed k c s w l)
  | Set_owner l => Some (set_lock_owner c s l)
  | Dispatch l => Some (set_owner_dispatch k c s l)
  | Cas l b => Some (set_owner_cas c s l b)
  | Undo l => Some (set_owner_undo c s l)
  | Inc l => Some (inc_lock_cnt c s l)
  | Clear l => Some (clear_lock_owner c s l)
  | Dec => Some (dec_lock_cnt c s)
  | Home => Some (dec_lock_cnt_home k c s)
  | Clear_reset => Some (dec_lock_cnt_reset c s)
  | Back_to_helper => Some (switch_dirty k c s)
  | Check => Some (switch_dirty_check k c s)
  | Recheck => Some (recheck k c s)
  | Recheck_load => Some (recheck_load c s)
  | Recheck_store => Some (recheck_store c s)
  | Free l => Some (wait_free c s l)
  | Sched r => Some (schedule c s r)
  | Sched_loop r => Some (schedule_foreign k c s r)
  | Sched_home r => schedule_home k c s r n drq
  | Sched_point k' r => Some (schedule_point k c s k' r)
  | Sw q t m => Some (different_cpu_cnt c s q t m)
  | Sw_rul q t m => Some (different_cpu_rul c s q t m)
  | Sw_dispatch q t m => Some (different_cpu_dispatch k c s q t m)
  | Sw_cnt q t m => Some (different_cpu_cnt2 c s q t m)
  | Sw_reset q t m => Some (different_cpu_reset c s q t m)
  | Sw_ready q t m => Some (switch_exec_locked k c s q t m)
  | Fin f q => Some (preempt_load c s f q)
  | Fin_store f q => Some (preempt_store c s f q)
  | Back q => Some (switch_handle_drq k c s q drq)
  end.

Inductive label :=
  | L_run (k n : Z) (drq : bool)      (** the next access of a CPU *)
  | L_lock (k l : Z)                  (** a call of [lock] *)
  | L_clear (k l : Z)                 (** a call of [clear] by a holder *)
  | L_invalidate (k l : Z)            (** [invalidate] *)
  | L_wait_free (k l : Z)             (** a call of [wait_free] *)
  | L_irq (k : Z)                     (** an interrupt that calls [schedule] *)
  | L_block (k : Z)                   (** the context is not ready and calls [schedule] *)
  | L_wake (t : Z)                    (** the context is made ready *)
  | L_kdrq (k : Z)                    (** [kernel_context_drq] in an interrupt *)
  | L_migrate (t n : Z).              (** [migrate_away] *)

(** Where an interrupt, or a deferred request, can migrate other contexts. *)
Definition may_migrate (p : place) : bool :=
  match p with Out | Point _ _ | Sched_point _ _ | Back _ => true | _ => false end.

Definition kdrq (k c : Z) (s : sys) : option sys :=
  let go_to r := Some (go c (Sw (K_drq r) (kernel_context k) Not_Helping) s) in
  if bool_decide (home (ctxs s c) = k) && negb (bool_decide (c = kernel_context k)) then
    match at_ (ctxs s c) with
    | Out => go_to R_out
    | Point w l => go_to (R_point w l)
    | Sched_point k' r => go_to (R_sched k' r)
    | _ => None
    end
  else None.

(** [migrate_away] on the home CPU of [t], which must not be current there; the
    idle contexts do not migrate. *)
Definition migrate_away (t n : Z) (s : sys) : option sys :=
  let k := home (ctxs s t) in
  if may_migrate (at_ (ctxs s (current s k))) && negb (bool_decide (current s k = t))
     && negb (bool_decide (t = kernel_context k)) && negb (bool_decide (n = k))
  then Some (on t (set_home n) s) else None.

Definition step (a : label) (s : sys) : option sys :=
  match a with
  | L_run k n drq => run k n drq s
  | L_lock k l =>
      match at_ (ctxs s (current s k)) with Out => Some (go (current s k) (Lock l) s) | _ => None end
  | L_clear k l =>
      match at_ (ctxs s (current s k)) with
      | Out => if decide (l ∈ held (ctxs s (current s k)))
               then Some (on (current s k) (fun x => set_at (Clear l) (set_held (filter (.≠ l) (held x)) x)) s)
               else None
      | _ => None
      end
  | L_invalidate k l =>
      match at_ (ctxs s (current s k)) with
      | Out => Some (set_lock l (mk_word (owner (locks s l)) true) s)
      | _ => None
      end
  | L_wait_free k l =>
      match at_ (ctxs s (current s k)) with
      | Out => if gone (locks s l) then Some (go (current s k) (Free l) s) else None
      | _ => None
      end
  | L_irq k =>
      match at_ (ctxs s (current s k)) with
      | Out => Some (go (current s k) (Sched R_out) s)
      | Point w l => Some (go (current s k) (Sched (R_point w l)) s)
      | _ => None
      end
  | L_block k =>
      let c := current s k in
      match at_ (ctxs s c) with
      | Out => if (lock_cnt (ctxs s c) =? 0) && negb (bool_decide (c = kernel_context k))
               then Some (on c (fun x => set_at (Sched R_out) (set_ready false x)) s) else None
      | _ => None
      end
  | L_wake t => Some (on t (set_ready true) s)
  | L_kdrq k => kdrq k (current s k) s
  | L_migrate t n => migrate_away t n s
  end.

(** At first every CPU runs its idle context. *)
Definition start (homes : Z -> Z) : sys :=
  mk (fun t => mk_ctx (homes t) 0 Not_running t true
                      (if decide (t = kernel_context (homes t)) then Out else Away (K_sched R_out)) None [])
     kernel_context (fun _ => mk_word None false) (fun _ => false).

Inductive reachable (homes : Z -> Z) : sys -> Prop :=
  | reachable_start : reachable homes (start homes)
  | reachable_step a s s' : reachable homes s -> step a s = Some s' -> reachable homes s'.

Fixpoint runs (ls : list label) (s : sys) : option sys :=
  match ls with
  | [] => Some s
  | a :: ls' => match step a s with Some s' => runs ls' s' | None => None end
  end.
End ops.
