(* ===== verification/SwitchLockInv.v ===== *)
(** The invariant of the locks with helping: who may run a context.

    A CPU is entitled to a context ([here]) when it has marked the word
    [_running_under_lock] as [Running], or when the context has no lock and the
    CPU is its home.  The invariant says that every CPU is entitled to its current
    context, to the one it is switching to and to the one it has just switched
    away from.  What the other CPUs may do meanwhile is [rely]. *)

From stdpp Require Import functions.
From S2P Require Import Prelude SwitchLock.

(** * Entitlement *)

Definition free (k : Z) (x : ctx) : Prop := is_running (rul x) = false /\ lock_cnt x = 0 /\ home x = k.
Definition here (k : Z) (x : ctx) : Prop := rul x = Running k \/ free k x.
Definition quiet (k : Z) (x : ctx) : Prop := lock_cnt x = 0 -> free k x.
Definition led (k c : Z) (x : ctx) : Prop := helper x = c -> home x = k.
Definition calm (k c : Z) (x : ctx) : Prop := quiet k x /\ led k c x.

Lemma here_unique k j x : here k x -> here j x -> k = j.
Proof. unfold here, free. intros [E | (E & _ & E')] [F | (F & _ & F')]; rewrite ?E, ?F in *; simpl in *; congruence. Qed.

(** The context that a place checks before it helps, and the one it is switching to
    or has switched away from. *)
Definition tries (p : place) : option Z :=
  match p with Cnt _ _ t _ | Own _ _ t _ | Help _ _ t | Reset _ _ t => Some t | _ => None end.

Definition moves (p : place) : option Z :=
  match p with
  | Lend _ _ t | Sw_cnt _ t _ | Sw_reset _ t _ | Sw_ready _ t _ => Some t
  | Fin f _ | Fin_store f _ => Some f
  | _ => None
  end.

(** * The invariant of a CPU *)

Section place_ok.
Variables (s : sys) (k c : Z) (x : ctx).

Definition ret_ok (r : ret) : Prop := match r with R_recheck => True | _ => quiet k x end.

Definition back_ok (r : ret) : Prop :=
  match r with
  | R_recheck => True
  | R_sched k' r => (k' <> k -> calm k c x) /\ ret_ok r
  | _ => calm k c x
  end.

Definition cont_ok (q : cont) : Prop :=
  match q with
  | K_sched r | K_foreign r => ret_ok r
  | K_clear => True
  | K_help _ _ => False
  | K_drq r => back_ok r
  end.

Definition sw_ok (q : cont) (t : Z) : Prop := home (ctxs s t) = k /\ t <> c /\ cont_ok q.

Definition place_ok (p : place) : Prop :=
  match p with
  | Out | Lock _ | Load _ _ | Try _ _ _ _ | Cnt _ _ _ _ | Reset _ _ _ | Point _ _ | Free _ | Check | Set_owner _
  | Back _ | Panic => calm k c x
  | Own _ _ t _ | Help _ _ t => calm k c x /\ lock_cnt (ctxs s t) <> 0
  | Lend _ _ t => calm k c x /\ rul (ctxs s t) = Running k /\ lock_cnt (ctxs s t) <> 0
  | Dispatch _ => calm k c x /\ lock_cnt x = 0
  | Cas _ true | Undo _ | Clear_reset => rul x = Running k /\ lock_cnt x = 0 /\ home x = k
  | Cas _ false => calm k c x /\ lock_cnt x <> 0
  | Inc _ => rul x = Running k /\ (lock_cnt x = 0 -> home x = k) /\ led k c x
  | Clear _ | Dec => lock_cnt x <> 0 /\ led k c x
  | Home => lock_cnt x = 0 /\ rul x = Running k /\ led k c x
  | Back_to_helper => calm k c x \/ helper x <> c
  | Recheck => (lock_cnt x = 0 -> home x = k) /\ led k c x
  | Recheck_load => lock_cnt x = 0 /\ home x = k
  | Recheck_store => lock_cnt x = 0 /\ home x = k /\ rul x = Running k
  | Sched r | Sched_loop r | Sched_home r => ret_ok r
  | Sched_point k' r => (k' <> k -> calm k c x) /\ ret_ok r
  | Sw q t _ | Sw_dispatch q t _ => sw_ok q t
  | Sw_rul q t _ => sw_ok q t /\ lock_cnt (ctxs s t) = 0
  | Sw_cnt q t _ => sw_ok q t /\ rul (ctxs s t) = Running k
  | Sw_reset q t _ => sw_ok q t /\ rul (ctxs s t) = Running k /\ lock_cnt (ctxs s t) = 0
  | Sw_ready q t _ => sw_ok q t /\ quiet k (ctxs s t)
  | Fin _ _ => calm k c x
  | Fin_store f _ => calm k c x /\ rul (ctxs s f) = Running k
  | Away _ => False
  end.
End place_ok.

Abbreviation cur s k := (ctxs s (current s k)).

Record cpu_ok (s : sys) (k : Z) : Prop := {
  c_here : here k (cur s k);
  c_moves u : moves (at_ (cur s k)) = Some u -> here k (ctxs s u) /\ u <> current s k;
  c_tries u : rul (ctxs s u) = Trying k <-> tries (at_ (cur s k)) = Some u;
  c_running u : rul (ctxs s u) = Running k -> u = current s k \/ moves (at_ (cur s k)) = Some u;
  c_place : place_ok s k (current s k) (cur s k) (at_ (cur s k)) }.

(** * What the other CPUs do *)

Record ctx_rely (j : Z) (now : Prop) (x y : ctx) : Prop := {
  r_now : now -> at_ y = at_ x /\ helper y = helper x;
  r_running : rul x = Running j <-> rul y = Running j;
  r_trying : rul x = Trying j <-> rul y = Trying j;
  r_here : here j x -> here j y /\ lock_cnt y = lock_cnt x;
  r_home : home x = j -> home y = j;
  r_zero : home x = j -> lock_cnt x = 0 -> lock_cnt y = 0;
  r_help : rul x = Trying j -> lock_cnt x <> 0 -> lock_cnt y <> 0 }.

Record rely (j : Z) (s s' : sys) : Prop := {
  r_current : current s' j = current s j;
  r_ctx u : ctx_rely j (u = current s j) (ctxs s u) (ctxs s' u) }.

Lemma ctx_rely_refl j now x : ctx_rely j now x x.
Proof. split; tauto. Qed.
#[export] Hint Resolve ctx_rely_refl : core.

Lemma rely_free j now x y : ctx_rely j now x y -> free j x -> free j y.
Proof.
  intros [_ R1 _ R2 R3 R4 _] Hf. pose proof Hf as (E1 & E2 & E3).
  destruct (R2 (or_intror Hf)) as [[E | ?] E4]; [| done].
  apply R1 in E. rewrite E in E1. done.
Qed.

Section rely_cur.
Context (j : Z) (x y : ctx) (Hr : ctx_rely j True x y) (Hh : here j x).

Lemma rely_cnt : lock_cnt y = lock_cnt x.
Proof using Hr Hh. by apply Hr. Qed.

Lemma rely_quiet : quiet j x -> quiet j y.
Proof using Hr Hh. unfold quiet. rewrite rely_cnt. intros H ?. by eapply rely_free, H. Qed.

Lemma rely_led c : led j c x -> led j c y.
Proof using Hr. unfold led. intros H E. destruct (r_now _ _ _ _ Hr I) as [_ E']. rewrite E' in E. by apply Hr, H. Qed.

Lemma rely_calm c : calm j c x -> calm j c y.
Proof using Hr Hh. unfold calm. intros [? ?]. split; [by apply rely_quiet | by apply rely_led]. Qed.

Lemma rely_ret r : ret_ok j x r -> ret_ok j y r.
Proof using Hr Hh. destruct r; simpl; try done; apply rely_quiet. Qed.

Lemma rely_back c r : back_ok j c x r -> back_ok j c y r.
Proof using Hr Hh. destruct r; simpl; try done; try apply rely_calm. intros [H1 H2]. split; [intros; by apply rely_calm, H1 | by apply rely_ret]. Qed.

Lemma rely_cont c q : cont_ok j c x q -> cont_ok j c y q.
Proof using Hr Hh. destruct q; simpl; try done; try apply rely_ret; try apply rely_calm; apply rely_back. Qed.
End rely_cur.

(** The invariant of a CPU is stable under what the other ones do. *)
Lemma rely_place j s s' p :
  cpu_ok s j -> p = at_ (cur s j) -> rely j s s' ->
  place_ok s' j (current s j) (ctxs s' (current s j)) p.
Proof.
  intros [Hh Hm Ht _ Hp] Ep [_ Hr]. rewrite <- Ep in *.
  set (c := current s j) in *. set (x := ctxs s c) in *. set (y := ctxs s' c).
  assert (ctx_rely j True x y) as Hx by (pose proof (Hr c) as []; split; tauto).
  assert (forall q t, sw_ok s j c x q t -> sw_ok s' j c y q t) as Hsw.
  { intros q t (E1 & E2 & E3). split_and!; [by apply (Hr t) | done | by eapply rely_cont]. }
  assert (calm j c x -> calm j c y) as Hc by by apply rely_calm.
  assert (led j c x -> led j c y) as Hl by by apply rely_led.
  assert (forall r, ret_ok j x r -> ret_ok j y r) as Hre by by apply rely_ret.
  assert (lock_cnt y = lock_cnt x) as Ec by by apply Hx.
  assert (helper y = helper x) as Eh by by apply Hx.
  assert (rul x = Running j -> rul y = Running j) as Er by by apply Hx.
  assert (home x = j -> home y = j) as Eo by by apply Hx.
  destruct p; simpl in *; rewrite ?Ec, ?Eh; try tauto.
  1-2: destruct Hp as [? Hp]; split; [tauto |]; apply (Hr t); [by apply Ht | done].
  - destruct (Hm _ eq_refl) as [Hu _]. destruct (r_here _ _ _ _ (Hr t) Hu) as [_ ->].
    destruct Hp as (? & ? & ?). split_and!; [tauto | by apply (Hr t) | done].
  - destruct have_no_locks; tauto.
  - by apply Hre.
  - by apply Hre.
  - by apply Hre.
  - destruct Hp as [H1 H2]. split; [tauto | by apply Hre].
  - by apply Hsw.
  - destruct Hp as [Hp Hz]. split; [by apply Hsw |]. by apply (Hr t); [apply Hp |].
  - by apply Hsw.
  - destruct Hp as [Hp Hz]. split; [by apply Hsw |]. by apply (Hr t).
  - destruct Hp as (Hp & Hz & Hz'). split_and!; [by apply Hsw | by apply (Hr t) |].
    by apply (Hr t); [apply Hp |].
  - destruct Hp as [Hp Hz]. split; [by apply Hsw |]. destruct (Hm _ eq_refl) as [Hu _].
    intros E. destruct (r_here _ _ _ _ (Hr t) Hu) as [_ E2]. rewrite E2 in E.
    apply (rely_free _ _ _ _ (Hr t)). by apply Hz.
  - destruct Hp as [Hp Hz]. split; [tauto |]. by apply (Hr f).
Qed.

Lemma rely_cpu j s s' : cpu_ok s j -> rely j s s' -> cpu_ok s' j.
Proof.
  intros I R. pose proof (rely_place j s s' _ I eq_refl R) as Hp.
  destruct I as [Hh Hm Ht Hru _]. destruct R as [Ec Hr].
  assert (at_ (ctxs s' (current s j)) = at_ (cur s j)) as Ea by by apply (Hr (current s j)).
  split; rewrite Ec, ?Ea.
  - by apply (Hr (current s j)).
  - intros u Hu. destruct (Hm u Hu). split; [by apply (Hr u) | done].
  - intros u. rewrite <- Ht. symmetry. apply (Hr u).
  - intros u Hu. apply Hru. by apply (Hr u).
  - apply Hp.
Qed.

(** * The invariant of a context *)

(** The lock that a context owns although it is not in [held], and the locks that
    [_lock_cnt] counts beyond [held]. *)
Definition extra (p : place) : option Z := match p with Inc l | Clear l => Some l | _ => None end.
Definition uncounted (p : place) : Z := match p with Clear _ | Dec => 1 | _ => 0 end.

(** The locks in the loop of [wait_free]. *)
Fixpoint ret_frees (r : ret) (l : Z) : Prop :=
  match r with
  | R_retry Wait_free l' | R_point Wait_free l' => l' = l
  | R_sched _ r => ret_frees r l
  | _ => False
  end.

Definition cont_frees (q : cont) (l : Z) : Prop :=
  match q with
  | K_sched r | K_foreign r | K_drq r => ret_frees r l
  | K_help Wait_free l' => l' = l
  | _ => False
  end.

Definition frees (p : place) (l : Z) : Prop :=
  match p with
  | Free l' | Load Wait_free l' | Try Wait_free l' _ _ | Cnt Wait_free l' _ _ | Own Wait_free l' _ _
  | Help Wait_free l' _ | Reset Wait_free l' _ | Lend Wait_free l' _ | Point Wait_free l' => l' = l
  | Sched r | Sched_loop r | Sched_home r | Sched_point _ r => ret_frees r l
  | Sw q _ _ | Sw_rul q _ _ | Sw_dispatch q _ _ | Sw_cnt q _ _ | Sw_reset q _ _ | Sw_ready q _ _
  | Fin _ q | Fin_store _ q | Back q | Away q => cont_frees q l
  | _ => False
  end.

Record ctx_ok (s : sys) (t : Z) : Prop := {
  x_cnt : lock_cnt (ctxs s t) = Z.of_nat (length (held (ctxs s t))) + uncounted (at_ (ctxs s t));
  x_nodup : NoDup (held (ctxs s t));
  x_extra l : extra (at_ (ctxs s t)) = Some l -> l ∉ held (ctxs s t);
  x_owner l : owner (locks s l) = Some t <-> l ∈ held (ctxs s t) \/ extra (at_ (ctxs s t)) = Some l;
  x_ready : lock_cnt (ctxs s t) <> 0 -> ready (ctxs s t) = true;
  x_gone l : frees (at_ (ctxs s t)) l -> gone (locks s l) = true;
  x_away : (forall k, current s k <> t) -> exists q, at_ (ctxs s t) = Away q }.

(** The places where the current context of CPU [k] need not be ready. *)
Definition may_sleep (k : Z) (p : place) : bool :=
  match p with
  | Sched _ | Sched_loop _ | Sched_home _ => true
  | Sched_point k' _
  | Sw (K_drq (R_sched k' _)) _ _ | Sw_rul (K_drq (R_sched k' _)) _ _ | Sw_dispatch (K_drq (R_sched k' _)) _ _
  | Sw_cnt (K_drq (R_sched k' _)) _ _ | Sw_reset (K_drq (R_sched k' _)) _ _ | Sw_ready (K_drq (R_sched k' _)) _ _ => k' =? k
  | Sw _ _ _ | Sw_rul _ _ _ | Sw_dispatch _ _ _ | Sw_cnt _ _ _ | Sw_reset _ _ _ | Sw_ready _ _ _ => true
  | _ => false
  end.

Record Inv (kc : Z -> Z) (s : sys) : Prop := {
  i_cpu k : cpu_ok s k;
  i_awake k : may_sleep k (at_ (cur s k)) = false -> ready (cur s k) = true;
  i_ctx t : ctx_ok s t;
  i_kc k : home (ctxs s (kc k)) = k;
  i_freed l : freed s l = true -> locks s l = mk_word None true }.
