(* ===== verification/SwitchLockSteps.v ===== *)
(** Every step of the machine of [SwitchLock] keeps the invariant. *)

From stdpp Require Import functions.
From S2P Require Import Prelude SwitchLock SwitchLockInv.

(** * Reading a changed state *)

Lemma ctxs_on t f s u : ctxs (on t f s) u = if decide (u = t) then f (ctxs s t) else ctxs s u.
Proof. unfold on. simpl. case_decide; subst; [by rewrite fn_lookup_insert | by rewrite fn_lookup_insert_ne]. Qed.

Lemma ctxs_on_eq t f s : ctxs (on t f s) t = f (ctxs s t).
Proof. by rewrite ctxs_on, decide_True. Qed.

Lemma ctxs_on_ne t f s u : u <> t -> ctxs (on t f s) u = ctxs s u.
Proof. intros. by rewrite ctxs_on, decide_False. Qed.

Lemma ctxs_set_current k t s : ctxs (set_current k t s) = ctxs s.
Proof. done. Qed.

Lemma ctxs_set_lock l w s : ctxs (set_lock l w s) = ctxs s.
Proof. done. Qed.

Lemma current_on t f s : current (on t f s) = current s.
Proof. done. Qed.

Lemma current_set_lock l w s : current (set_lock l w s) = current s.
Proof. done. Qed.

Lemma current_set_current k t s j : current (set_current k t s) j = if decide (j = k) then t else current s j.
Proof. unfold set_current. simpl. case_decide; subst; [by rewrite fn_lookup_insert | by rewrite fn_lookup_insert_ne]. Qed.

Lemma locks_on t f s : locks (on t f s) = locks s.
Proof. done. Qed.

Lemma locks_set_lock l w s m : locks (set_lock l w s) m = if decide (m = l) then w else locks s m.
Proof. unfold set_lock. simpl. case_decide; subst; [by rewrite fn_lookup_insert | by rewrite fn_lookup_insert_ne]. Qed.

(** * What a step of a CPU changes *)

(** What CPU [k] does to [_running_under_lock]. *)
Definition own_change (k : Z) (x : ctx) (r : State) : Prop :=
  r = rul x \/
  match rul x, r with
  | Not_running, Trying i => i = k
  | Not_running, Running i => i = k /\ home x = k
  | Trying i, Not_running => i = k
  | Trying i, Running i' => i = k /\ i' = k /\ lock_cnt x <> 0
  | Running i, Not_running => i = k
  | _, _ => False
  end.

Record change (k : Z) (x y : ctx) : Prop := {
  h_home : home y = home x;
  h_rul : own_change k x (rul y);
  h_cnt : lock_cnt y = lock_cnt x \/ (here k x /\ (lock_cnt x = 0 -> home x = k));
  h_place : (at_ y = at_ x /\ helper y = helper x) \/ here k x }.

Lemma change_refl k x : change k x x.
Proof. split; [done | by left | by left | by left]. Qed.
#[export] Hint Resolve change_refl : core.

Lemma change_ctx_rely j k x y : j <> k -> change k x y -> ctx_rely j (here j x) x y.
Proof.
  intros Hj [Eh Hr Hc Hp].
  assert (here k x -> here j x -> False) as Hno by (intros H1 H2; by destruct Hj; apply (here_unique j k x)).
  assert (forall i, i <> k -> rul x = Running i <-> rul y = Running i) as H1.
  { intros i Hi. destruct Hr as [-> | Hr]; [done |]. destruct (rul x), (rul y); naive_solver. }
  assert (forall i, i <> k -> rul x = Trying i <-> rul y = Trying i) as H2.
  { intros i Hi. destruct Hr as [-> | Hr]; [done |]. destruct (rul x), (rul y); naive_solver. }
  split; [naive_solver | by apply H1 | by apply H2 | | congruence | |].
  - intros Hx. destruct Hc as [Ec | [Hc _]]; [| by destruct Hno]. split; [| done].
    destruct Hx as [Hx | (F1 & F2 & F3)]; [left; by apply H1 |]. right. split_and!; [| congruence | congruence].
    destruct Hr as [-> | Hr]; [done |]. destruct (rul x), (rul y); simpl in *; naive_solver congruence.
  - intros E0 E1. destruct Hc as [-> | [_ Hc]]; [done |]. specialize (Hc E1). congruence.
  - intros E0 E1. destruct Hc as [-> | [[Hc | Hc] _]]; [done | congruence |]. by destruct Hc as (_ & ? & _).
Qed.

Lemma change_rely s s' j k :
  cpu_ok s j -> j <> k -> current s' j = current s j -> (forall u, change k (ctxs s u) (ctxs s' u)) -> rely j s s'.
Proof.
  intros Hj Hne Hc Hu. split; [done |]. intros u.
  pose proof (change_ctx_rely j k _ _ Hne (Hu u)) as R. destruct R. split; try done.
  intros ->. apply r_now. apply Hj.
Qed.

Lemma change_go k c p s s1 :
  here k (ctxs s c) -> (forall u, change k (ctxs s u) (ctxs s1 u)) ->
  forall u, change k (ctxs s u) (ctxs (go c p s1) u).
Proof.
  intros Hh Hu u. unfold go. rewrite ctxs_on. case_decide; [subst | done].
  destruct (Hu c). split; simpl; try done. by right.
Qed.

Lemma change_rul k t r s :
  own_change k (ctxs s t) r -> forall u, change k (ctxs s u) (ctxs (on t (set_rul r) s) u).
Proof. intros Ho u. rewrite ctxs_on. case_decide; [subst | done]. split; simpl; try done; by left. Qed.

Lemma change_own k c f s :
  here k (ctxs s c) -> home (f (ctxs s c)) = home (ctxs s c) -> own_change k (ctxs s c) (rul (f (ctxs s c))) ->
  (lock_cnt (f (ctxs s c)) = lock_cnt (ctxs s c) \/ (lock_cnt (ctxs s c) = 0 -> home (ctxs s c) = k)) ->
  forall u, change k (ctxs s u) (ctxs (on c f s) u).
Proof.
  intros Hh He Ho Hc u. rewrite ctxs_on. case_decide; [subst | done].
  split; [done | done | | by right]. destruct Hc; [by left | by right].
Qed.

(** [s1] is [s] with another helper of [t]. *)
Definition helped (t : Z) (s s1 : sys) : Prop :=
  current s1 = current s /\ locks s1 = locks s /\ freed s1 = freed s /\
  (forall u, u <> t -> ctxs s1 u = ctxs s u) /\ exists h, ctxs s1 t = put_helper h (ctxs s t).

Lemma set_helper_helped c m t s : helped t s (set_helper c m t s).
Proof.
  unfold helped. destruct m; simpl; split_and!; try done.
  1, 3: intros u Hu; by apply fn_lookup_insert_ne.
  1, 2: eexists; by rewrite fn_lookup_insert.
  exists (helper (ctxs s t)). by destruct (ctxs s t).
Qed.

Lemma change_switch k c t q s s1 :
  helped t s s1 -> here k (ctxs s c) -> here k (ctxs s t) ->
  forall u, change k (ctxs s u) (ctxs (switch_cpu k c t q s1) u).
Proof.
  intros (_ & _ & _ & Hs & h & Ht) Hc Hh. unfold switch_cpu. rewrite ctxs_set_current. apply change_go; [done |].
  intros u. rewrite ctxs_on. case_decide; [subst | by rewrite Hs].
  rewrite Ht. split; [| left | left | by right]; simpl; destruct (at_ (ctxs s t)); done.
Qed.

(** * The CPU that makes a step *)

Record same (x y : ctx) : Prop := {
  s_home : home y = home x; s_cnt : lock_cnt y = lock_cnt x; s_rul : rul y = rul x; s_helper : helper y = helper x }.

Lemma same_refl x : same x x.
Proof. done. Qed.
#[export] Hint Resolve same_refl : core.
#[local] Arguments switch_cpu : simpl never.
#[local] Arguments on : simpl never.
#[local] Arguments go : simpl never.

Lemma place_ok_same s s' k c x y p :
  (forall u, same (ctxs s u) (ctxs s' u)) -> same x y -> place_ok s k c x p -> place_ok s' k c y p.
Proof.
  intros Hs [E1 E2 E3 E4].
  assert (forall r, ret_ok k x r -> ret_ok k y r) as Hr by (intros []; simpl; unfold quiet, free; by rewrite ?E1, ?E2, ?E3).
  assert (calm k c x -> calm k c y) as Hc by (unfold calm, quiet, led, free; by rewrite E1, E2, E3, E4).
  assert (forall q t, sw_ok s k c x q t -> sw_ok s' k c y q t) as Hw.
  { intros q t (H1 & H2 & H3). split_and!; [by rewrite (s_home _ _ (Hs t)) | done |].
    destruct q as [| | | | []]; simpl in *; auto. naive_solver. }
  destruct p; simpl; rewrite ?E1, ?E2, ?E3, ?E4, ?(s_cnt _ _ (Hs _)), ?(s_rul _ _ (Hs _)); unfold led; rewrite ?E4, ?E1;
    try tauto; try (intros [? ?]; split; auto; naive_solver); auto.
  - destruct have_no_locks; rewrite ?E1, ?E2, ?E3; tauto.
  - intros [? ?]. split; [auto |]. unfold quiet, free. destruct (Hs t) as [-> -> -> _]. done.
Qed.

Lemma here_same k x y : same x y -> here k x -> here k y.
Proof. intros [E1 E2 E3 _]. unfold here, free. by rewrite E1, E2, E3. Qed.

(** A step that changes the place of the current context only. *)
Lemma self_go s s1 k p :
  cpu_ok s k -> current s1 = current s -> (forall u, same (ctxs s u) (ctxs s1 u)) -> at_ (cur s1 k) = p ->
  tries p = tries (at_ (cur s k)) ->
  (forall u, moves p = Some u -> moves (at_ (cur s k)) = Some u \/ (here k (ctxs s u) /\ u <> current s k)) ->
  (forall u, moves (at_ (cur s k)) = Some u -> moves p = Some u \/ rul (ctxs s u) <> Running k) ->
  place_ok s k (current s k) (cur s k) p -> cpu_ok s1 k.
Proof.
  intros [Hh Hm Ht Hr _] Ec Hs Ep E1 E2 E3 Hp.
  split; rewrite ?Ep, ?Ec.
  - by apply (here_same _ (cur s k)).
  - intros u Hu. assert (here k (ctxs s u) /\ u <> current s k) as [H1 H2] by (destruct (E2 u Hu); auto).
    split; [by apply (here_same _ (ctxs s u)) | done].
  - intros u. by rewrite (s_rul _ _ (Hs u)), E1.
  - intros u. rewrite (s_rul _ _ (Hs u)). intros Hu. destruct (Hr u Hu) as [|Hu']; [by left |].
    destruct (E3 u Hu'); [by right | done].
  - eapply place_ok_same; [done | apply Hs | done].
Qed.

(** A step that changes [_running_under_lock] of [t]. *)
Lemma self_token s s1 k t r p :
  cpu_ok s k -> current s1 = current s -> (forall u, same (ctxs (on t (set_rul r) s) u) (ctxs s1 u)) -> at_ (cur s1 k) = p ->
  (forall u, tries (at_ (cur s k)) = Some u -> u = t) -> (forall u, tries p = Some u -> u = t) ->
  (forall u, moves (at_ (cur s k)) = Some u -> u = t) ->
  (r = Trying k <-> tries p = Some t) ->
  (forall u, moves p = Some u -> u = t /\ t <> current s k /\ here k (set_rul r (ctxs s t))) ->
  (r = Running k -> t = current s k \/ moves p = Some t) ->
  (t = current s k -> here k (set_rul r (cur s k))) ->
  place_ok (on t (set_rul r) s) k (current s k) (ctxs (on t (set_rul r) s) (current s k)) p ->
  cpu_ok s1 k.
Proof.
  intros [Hh Hm Ht Hr _] Ec Hs Ep T1 T2 M1 T3 M2 R1 H1 Hp.
  assert (forall u, u <> t -> same (ctxs s u) (ctxs s1 u)) as Hne.
  { intros u Hu. specialize (Hs u). by rewrite ctxs_on, decide_False in Hs by done. }
  assert (same (set_rul r (ctxs s t)) (ctxs s1 t)) as Heq by (specialize (Hs t); by rewrite ctxs_on, decide_True in Hs by done).
  split; rewrite ?Ep, ?Ec.
  - destruct (decide (current s k = t)) as [E | E].
    + apply (here_same _ (set_rul r (ctxs s t))); [by rewrite E | rewrite <- E; by apply H1].
    + by apply (here_same _ (cur s k)); [apply Hne |].
  - intros u Hu. destruct (M2 u Hu) as (-> & ? & ?). split; [| done]. by apply (here_same _ (set_rul r (ctxs s t))).
  - intros u. destruct (decide (u = t)) as [-> | E].
    + rewrite (s_rul _ _ Heq). apply T3.
    + rewrite (s_rul _ _ (Hne u E)), Ht. split; intros Hu; [by apply T1 in Hu | by apply T2 in Hu].
  - intros u. destruct (decide (u = t)) as [-> | E].
    + rewrite (s_rul _ _ Heq). apply R1.
    + rewrite (s_rul _ _ (Hne u E)). intros Hu. destruct (Hr u Hu) as [? | Hu']; [by left |]. by apply M1 in Hu'.
  - eapply place_ok_same; [done | apply Hs | done].
Qed.

Lemma calm_rul k c x r : is_running r = is_running (rul x) -> calm k c x -> calm k c (set_rul r x).
Proof. intros E. unfold calm, quiet, led, free. simpl. by rewrite E. Qed.

Lemma here_not_running k x r : is_running r = false -> lock_cnt x = 0 -> home x = k -> here k (set_rul r x).
Proof. intros. right. by split_and!. Qed.

Lemma same_go c p s u : same (ctxs s u) (ctxs (go c p s) u).
Proof. unfold go. rewrite ctxs_on. by case_decide; subst. Qed.

Lemma at_go c p s : at_ (ctxs (go c p s) c) = p.
Proof. unfold go. by rewrite ctxs_on, decide_True. Qed.

Lemma self_switch s s1 k t q qt (me := current s k) :
  cpu_ok s k -> helped t s s1 -> t <> me -> moves (at_ (ctxs s me)) = Some t -> at_ (ctxs s t) = Away qt ->
  tries (at_ (ctxs s me)) = None -> calm k t (ctxs s1 t) -> cpu_ok (switch_cpu k me t q s1) k.
Proof.
  intros [Hh Hm Ht Hr _] (Ec & _ & _ & Hs & h & Hst) Hne Em Ea Et Hc. fold me in Hh, Hm, Ht, Hr.
  assert (here k (ctxs s t)) as Hht by by apply Hm.
  assert (forall u, same (ctxs s1 u) (ctxs (switch_cpu k me t q s1) u)) as Hsame.
  { intros u. unfold switch_cpu, go. rewrite ctxs_set_current, !ctxs_on. 
    repeat case_decide; try congruence; simplify_eq; try by split.
    destruct (at_ (ctxs s1 t)); by split. }
  assert (forall u, rul (ctxs (switch_cpu k me t q s1) u) = rul (ctxs s u)) as Hrul.
  { intros u. rewrite (s_rul _ _ (Hsame u)). destruct (decide (u = t)) as [-> | Hu]; [by rewrite Hst | by rewrite Hs]. }
  assert (current (switch_cpu k me t q s1) k = t) as Hcur.
  { unfold switch_cpu. by rewrite current_set_current, decide_True. }
  assert (at_ (ctxs (switch_cpu k me t q s1) t) = Fin me qt) as Hat.
  { unfold switch_cpu, go. rewrite ctxs_set_current, ctxs_on, decide_False, ctxs_on, decide_True by done. by rewrite Hst; simpl; rewrite Ea. }
  split; rewrite Hcur, ?Hat.
  - apply (here_same _ (ctxs s1 t)); [done |]. by rewrite Hst.
  - intros u [= <-]. split; [| done]. apply (here_same _ (ctxs s1 me)); [done |]. by rewrite Hs.
  - intros u. by rewrite Hrul, Ht, Et.
  - intros u. rewrite Hrul. intros Hu. destruct (Hr u Hu) as [-> | Hu']; [by right |]. left. congruence.
  - change (calm k t (ctxs (switch_cpu k me t q s1) t)). unfold calm, quiet, led, free in *. destruct (Hsame t) as [-> -> -> ->]. done.
Qed.

(** Nobody but [k] has a context that [k] is switching to. *)
Lemma away_from kc s k t :
  Inv kc s -> here k (ctxs s t) -> t <> current s k -> exists q, at_ (ctxs s t) = Away q.
Proof.
  intros I Hh Hne. apply (x_away _ _ (i_ctx _ _ I t)). intros j Ej.
  assert (j = k) as -> by (apply (here_unique j k (ctxs s t)); [rewrite <- Ej; apply (i_cpu _ _ I j) | done]).
  done.
Qed.

Lemma not_running_eq r : is_not_running r = true -> r = Not_running.
Proof. by destruct r. Qed.

Lemma running_here k x : is_running (rul x) = true -> here k x -> rul x = Running k.
Proof. intros E [H | (H & _)]; [done | congruence]. Qed.

Lemma not_running_ne k x : is_running (rul x) = false -> rul x <> Running k.
Proof. intros E H. by rewrite H in E. Qed.

Lemma not_running_is r : is_not_running r = true -> is_running r = false.
Proof. by destruct r. Qed.

(** ** Places after a return *)

Lemma resume_tries r : tries (resume_at r) = None.
Proof. by destruct r. Qed.
Lemma resume_moves r : moves (resume_at r) = None.
Proof. by destruct r. Qed.
Lemma failed_tries k q : tries (failed_at k q) = None.
Proof. by destruct q as [| | | | []]. Qed.
Lemma failed_moves k q : moves (failed_at k q) = None.
Proof. by destruct q as [| | | | []]. Qed.

Lemma calm_ret k c x r : calm k c x -> ret_ok k x r.
Proof. intros [? _]. by destruct r. Qed.

Lemma resume_place s k c x r : calm k c x -> place_ok s k c x (resume_at r).
Proof.
  intros Hc. pose proof (calm_ret k c x) as Hr. destruct r; simpl; auto.
  destruct Hc as [Hq Hl]. split; [| done]. intros E. by apply Hq.
Qed.

Lemma resume_place_home s k c x r : ret_ok k x r -> home x = k -> place_ok s k c x (resume_at r).
Proof.
  intros Hr Hh. assert (led k c x) as Hl by by intros _.
  assert (quiet k x -> forall r, ret_ok k x r) as Hq by by intros ? [].
  destruct r; simpl in *; unfold calm; tauto || auto.
Qed.

Lemma failed_place s k c x q : cont_ok k c x q -> place_ok s k c x (failed_at k q).
Proof.
  destruct q as [r | r | | | r]; simpl; try done. destruct r; simpl; try done; by intros [? _].
Qed.

Lemma sw_not_running s k c x q t : ready (ctxs s t) = false -> (lock_cnt (ctxs s t) <> 0 -> ready (ctxs s t) = true) ->
  place_ok s k c x (Sw_ready q t Helping) -> rul (ctxs s t) <> Running k.
Proof.
  intros E Hr [_ Hq] Eru. destruct (decide (lock_cnt (ctxs s t) = 0)) as [E0 | E0]; [| rewrite Hr in E; done].
  destruct (Hq E0) as [Hn _]. by rewrite Eru in Hn.
Qed.

(** ** The steps that change more than the place *)

Section self.
Context (s : sys) (k : Z) (Hcpu : cpu_ok s k).
Abbreviation me := (current s k).
Abbreviation x := (ctxs s me).

Lemma self_token_go t r p :
  (forall u, tries (at_ x) = Some u -> u = t) -> (forall u, tries p = Some u -> u = t) ->
  (forall u, moves (at_ x) = Some u -> u = t) ->
  (r = Trying k <-> tries p = Some t) ->
  (forall u, moves p = Some u -> u = t /\ t <> me /\ here k (set_rul r (ctxs s t))) ->
  (r = Running k -> t = me \/ moves p = Some t) ->
  (t = me -> here k (set_rul r x)) ->
  place_ok (on t (set_rul r) s) k me (ctxs (on t (set_rul r) s) me) p ->
  cpu_ok (go me p (on t (set_rul r) s)) k.
Proof using Hcpu.
  intros. eapply (self_token s _ k t r p); try done; [by apply same_go | by apply at_go].
Qed.

Lemma self_token_me r p :
  tries (at_ x) = None -> tries p = None -> moves (at_ x) = None -> moves p = None ->
  r <> Trying k -> here k (set_rul r x) -> place_ok (on me (set_rul r) s) k me (set_rul r x) p ->
  cpu_ok (on me (fun y => set_at p (set_rul r y)) s) k.
Proof using Hcpu.
  intros T1 T2 M1 M2 Hr Hh Hp.
  eapply (self_token s _ k me r p); rewrite ?T1, ?T2, ?M1, ?M2; try done.
  - intros u. rewrite !ctxs_on. by case_decide.
  - rewrite current_on, ctxs_on, decide_True by done. done.
  - by left.
  - by rewrite ctxs_on_eq.
Qed.

(** The count or the helper of the current context changes. *)
Lemma self_on f p :
  tries (at_ x) = None -> tries p = None -> moves (at_ x) = None -> moves p = None -> at_ (f x) = p ->
  rul (f x) = rul x -> here k (f x) -> place_ok s k me (f x) p ->
  (forall s1 y, place_ok s k me y p -> place_ok s1 k me y p) ->
  cpu_ok (on me f s) k.
Proof using Hcpu.
  intros T1 T2 M1 M2 Ep Er Hh Hp Hs. destruct Hcpu as [_ Hm Ht Hr _].
  assert (ctxs (on me f s) me = f x) as E by by rewrite ctxs_on_eq.
  assert (forall u, rul (ctxs (on me f s) u) = rul (ctxs s u)) as Eu by (intros u; rewrite ctxs_on; by case_decide; subst).
  split; rewrite !current_on, ?E, ?Ep, ?M2, ?T2; try done.
  - intros u. by rewrite Eu, Ht, T1.
  - intros u. rewrite Eu. intros Hu. rewrite M1 in Hr. by apply Hr.
  - by apply Hs.
Qed.

Lemma self_try w l t v :
  at_ x = Try w l t v -> rul (ctxs s t) = Not_running -> cpu_ok (go me (Cnt w l t v) (on t (set_rul (Trying k)) s)) k.
Proof using Hcpu.
  intros Ep Enr. destruct Hcpu as [Hh _ _ _ Hp]. rewrite Ep in Hp.
  apply self_token_go; rewrite ?Ep; try done; [naive_solver | |].
  - intros ->. destruct Hh as [Hh | (_ & ? & ?)]; [congruence | by apply here_not_running].
  - cbn [place_ok] in *. rewrite ctxs_on. case_decide; [| done]. apply calm_rul; [by subst; rewrite Enr | by subst].
Qed.

Lemma self_help w l t :
  at_ x = Help w l t -> cpu_ok (go me (Lend w l t) (on t (set_rul (Running k)) s)) k.
Proof using Hcpu.
  intros Ep. destruct Hcpu as [Hh _ Ht _ Hp]. rewrite Ep in Ht, Hp. destruct Hp as [Hp Hz].
  assert (t <> me) as Hne.
  { intros ->. destruct Hh as [Hh | (_ & ? & _)]; [| done]. by rewrite (proj2 (Ht _) eq_refl) in Hh. }
  apply self_token_go; rewrite ?Ep; try done; [naive_solver | | |].
  - intros u [= <-]. split_and!; [done | done | by left].
  - by right.
  - cbn [place_ok]. rewrite ?ctxs_on_eq, ?ctxs_on_ne by done. done.
Qed.

(** A token is given back. *)
Lemma self_reset t p :
  (forall u, tries (at_ x) = Some u -> u = t) -> tries p = None -> (forall u, moves (at_ x) = Some u -> u = t) ->
  (forall u, moves p = Some u -> u = t /\ t <> me /\ here k (set_rul Not_running (ctxs s t))) ->
  (t = me -> lock_cnt x = 0 /\ home x = k) ->
  place_ok (on t (set_rul Not_running) s) k me (ctxs (on t (set_rul Not_running) s) me) p ->
  cpu_ok (go me p (on t (set_rul Not_running) s)) k.
Proof using Hcpu.
  intros T1 T2 M1 M2 Hc Hp. apply self_token_go; rewrite ?T2; try done.
  intros E. destruct (Hc E). by apply here_not_running.
Qed.

Lemma self_help_reset w l t :
  at_ x = Reset w l t -> cpu_ok (go me (Point w l) (on t (set_rul Not_running) s)) k.
Proof using Hcpu.
  intros Ep. destruct Hcpu as [Hh _ Ht _ Hp]. rewrite Ep in Ht, Hp.
  assert (rul (ctxs s t) = Trying k) as Et by by apply Ht.
  apply self_reset; rewrite ?Ep; try done; [naive_solver | |].
  - intros ->. destruct Hh as [Hh | (_ & ? & ?)]; [congruence | done].
  - cbn [place_ok] in *. rewrite ctxs_on. case_decide; [| done]. apply calm_rul; [by subst; rewrite Et | by subst].
Qed.

Lemma self_sw_dispatch q t m :
  at_ x = Sw_dispatch q t m -> rul (ctxs s t) = Not_running ->
  cpu_ok (go me (Sw_cnt q t m) (on t (set_rul (Running k)) s)) k.
Proof using Hcpu.
  intros Ep Enr. destruct Hcpu as [Hh _ _ _ Hp]. rewrite Ep in Hp. destruct Hp as (Hp & Hne & Hq).
  apply self_token_go; rewrite ?Ep; try done.
  - intros u [= <-]. split_and!; [done | done | by left].
  - by right.
  - cbn [place_ok]. rewrite ?ctxs_on_eq, ?ctxs_on_ne by done. split; [| done].
    unfold sw_ok. by rewrite ctxs_on_eq.
Qed.

Lemma self_sw_reset q t m :
  at_ x = Sw_reset q t m -> cpu_ok (go me (Sw_ready q t m) (on t (set_rul Not_running) s)) k.
Proof using Hcpu.
  intros Ep. destruct Hcpu as [Hh Hm _ _ Hp]. rewrite Ep in Hp, Hm. destruct Hp as ((Hp & Hne & Hq) & Hr & Hz).
  apply self_reset; rewrite ?Ep; try done; [naive_solver | |].
  - intros u [= <-]. split_and!; [done | done |]. by apply here_not_running.
  - cbn [place_ok]. unfold sw_ok. rewrite ?ctxs_on_eq, ?ctxs_on_ne by done. split; [by split_and! |].
    intros _. by split_and!.
Qed.

Lemma self_preempt f q :
  at_ x = Fin_store f q -> cpu_ok (go me (Back q) (on f (set_rul Not_running) s)) k.
Proof using Hcpu.
  intros Ep. destruct Hcpu as [Hh Hm _ _ Hp]. rewrite Ep in Hp, Hm. destruct (Hm _ eq_refl) as [_ Hne].
  apply self_reset; rewrite ?Ep; try done; [naive_solver |].
  cbn [place_ok] in *. rewrite ctxs_on_ne by done. apply Hp.
Qed.

(** The steps on the word of the current context. *)
Lemma self_dispatch l :
  at_ x = Dispatch l -> rul x = Not_running -> cpu_ok (on me (fun y => set_at (Cas l true) (set_rul (Running k) y)) s) k.
Proof using Hcpu.
  intros Ep Enr. destruct Hcpu as [_ _ _ _ Hp]. rewrite Ep in Hp. destruct Hp as [[Hq _] Hz].
  destruct (Hq Hz) as (_ & _ & Eh).
  apply self_token_me; rewrite ?Ep; try done; by left.
Qed.

Lemma self_put_back p :
  tries (at_ x) = None -> moves (at_ x) = None -> tries p = None -> moves p = None ->
  lock_cnt x = 0 -> home x = k ->
  place_ok (on me (set_rul Not_running) s) k me (set_rul Not_running x) p ->
  cpu_ok (on me (fun y => set_at p (set_rul Not_running y)) s) k.
Proof using Hcpu. intros. apply self_token_me; try done. by apply here_not_running. Qed.

Lemma calm_not_running : lock_cnt x = 0 -> home x = k -> calm k me (set_rul Not_running x).
Proof using. intros Hz Hh. split; [intros _; by split_and! | by intros _]. Qed.

Lemma self_inc l :
  at_ x = Inc l -> 0 <= lock_cnt x ->
  cpu_ok (on me (fun y => set_at Out (set_status Not_locked (set_held (l :: held y) (set_cnt (lock_cnt y + 1) y)))) s) k.
Proof using Hcpu.
  intros Ep Hn. destruct Hcpu as [Hh _ _ _ Hp]. rewrite Ep in Hp. destruct Hp as (Hr & Hz & Hl).
  apply (self_on _ Out); rewrite ?Ep; try done; [by left |].
  split; [| done]. intros E. simpl in E. lia.
Qed.

Lemma self_dec :
  at_ x = Dec ->
  cpu_ok (on me (fun y => set_at (if lock_cnt x - 1 =? 0 then Home else Back_to_helper) (set_cnt (lock_cnt x - 1) y)) s) k.
Proof using Hcpu.
  intros Ep. destruct Hcpu as [Hh _ _ _ Hp]. rewrite Ep in Hp. destruct Hp as (Hz & Hl).
  assert (rul x = Running k) as Hr by (destruct Hh as [? | (_ & ? & _)]; done).
  destruct (Z.eqb_spec (lock_cnt x - 1) 0) as [E | E].
  - apply (self_on _ Home); rewrite ?Ep; try done; by left.
  - apply (self_on _ Back_to_helper); rewrite ?Ep; try done; left; [done |]. split; [by intros ? | done].
Qed.

Lemma self_schedule r :
  at_ x = Sched r -> cpu_ok (on me (fun y => set_at (Sched_loop r) (put_helper me y)) s) k.
Proof using Hcpu.
  intros Ep. destruct Hcpu as [Hh _ _ _ Hp]. rewrite Ep in Hp. by apply (self_on _ (Sched_loop r)); rewrite ?Ep.
Qed.
End self.

(** * Steps in the code of the lock *)

Ltac open_steps :=
  unfold lock, lock_load, return_status, need_help_cnt, need_help_own, help_failed, set_lock_owner, clear_lock_owner,
    dec_lock_cnt_home, switch_dirty, switch_dirty_check, recheck, recheck_load, wait_free, wait_free_load, resume, set_freed,
    schedule_foreign, schedule_home, schedule_point, different_cpu_cnt, different_cpu_rul, different_cpu_cnt2, preempt_load,
    switch_handle_drq, inc_lock_cnt, try_to_help, help, help_reset, switch_exec_helping, set_owner_dispatch, set_owner_cas,
    set_owner_undo, dec_lock_cnt, dec_lock_cnt_reset, recheck_store, schedule, different_cpu_dispatch, different_cpu_reset,
    switch_exec_locked, preempt_store, switch_failed in *.

Section run.
Context (kc : Z -> Z) (k n : Z) (drq : bool) (s s' : sys).
Hypotheses (I : Inv kc s) (Hrun : run kc k n drq s = Some s').
Abbreviation me := (current s k).
Abbreviation x := (ctxs s me).

Lemma run_change u : change k (ctxs s u) (ctxs s' u).
Proof using I Hrun.
  revert u. destruct (i_cpu _ _ I k) as [Hh Hm Ht Hr Hp]. unfold run in Hrun.
  assert (own_change k x (rul x)) as Hsame by by left.
  assert (forall p s1, (forall u, change k (ctxs s u) (ctxs s1 u)) -> forall u, change k (ctxs s u) (ctxs (go me p s1) u)) as Hgo
    by (intros; by apply change_go).
  assert (forall f, home (f x) = home x -> own_change k x (rul (f x)) ->
     (lock_cnt (f x) = lock_cnt x \/ (lock_cnt x = 0 -> home x = k)) -> forall u, change k (ctxs s u) (ctxs (on me f s) u)) as Hown
    by (intros; by apply change_own).
  assert (forall f, home (f x) = home x -> own_change k x (rul (f x)) -> lock_cnt (f x) = lock_cnt x ->
     forall u, change k (ctxs s u) (ctxs (on me f s) u)) as Hown'
    by (intros; apply change_own; auto).
  assert (forall t r, own_change k (ctxs s t) r -> forall u, change k (ctxs s u) (ctxs (on t (set_rul r) s) u)) as Hrul
    by (intros; by apply change_rul).
  assert (forall t r, rul (ctxs s t) = Running k -> r = Not_running -> own_change k (ctxs s t) r) as Hoff
    by (intros t r E ->; right; by rewrite E).
  destruct (at_ x) as [] eqn:Ep; simpl in *; try done.
  all: try (destruct w; [| ]).
  all: try (injection Hrun as <-).
  all: open_steps; repeat case_match; rewrite ?ctxs_set_lock; try (apply Hgo; intros; done); try (by apply Hown').
  all: try match goal with H : is_not_running (rul ?y) = true |- _ => assert (rul y = Not_running) as Enr by (by destruct (rul y)) end.
  all: try discriminate Hrun.
  all: try (by injection Hrun as <-).
  all: try (injection Hrun as <-; apply Hgo; by intros).
  - apply Hgo, Hrul. right. by rewrite Enr.
  - apply Hgo, Hrul. right. by rewrite Enr.
  - apply Hgo, Hrul. right. rewrite (proj2 (Ht t) eq_refl). tauto.
  - apply Hgo, Hrul. right. rewrite (proj2 (Ht t) eq_refl). tauto.
  - apply Hgo, Hrul. right. by rewrite (proj2 (Ht t) eq_refl).
  - apply Hgo, Hrul. right. by rewrite (proj2 (Ht t) eq_refl).
  - apply change_switch; [apply (set_helper_helped me Helping) | done | by apply Hm].
  - apply change_switch; [apply (set_helper_helped me Helping) | done | by apply Hm].
  - apply Hown'; [done | | done]. right. simpl. rewrite Enr. destruct Hp as [[Hq _] Hz]. split; [done |]. by apply Hq.
  - done.
  - apply Hown'; [done | apply Hoff; tauto | done].
  - apply Hown; [done | done |]. right. tauto.
  - apply Hown; [done | done |]. right. tauto.
  - apply Hown; [done | done |]. right. tauto.
  - apply Hown'; [done | apply Hoff; tauto | done].
  - apply Hown'; [done | apply Hoff; tauto | done].
  - apply Hgo, Hrul. right. rewrite Enr. split; [done |]. apply Hp.
  - apply Hgo, Hrul, Hoff; tauto.
  - apply change_switch; [apply set_helper_helped | done | by apply Hm].
  - apply Hgo, Hrul, Hoff; tauto.
Qed.

Lemma self_resume r :
  cpu_ok s k -> tries (at_ x) = None -> (forall u, moves (at_ x) <> Some u) -> place_ok s k me x (resume_at r) ->
  cpu_ok (resume me r s) k.
Proof using.
  intros Hcpu Ht Hm Hp. eapply (self_go s _ k (resume_at r)); try done; [by apply same_go | by apply at_go | | |].
  - by rewrite resume_tries.
  - intros u. by rewrite resume_moves.
  - intros u Hu. by apply Hm in Hu.
Qed.

Lemma cnt_nonneg t : 0 <= lock_cnt (ctxs s t).
Proof using I. rewrite (x_cnt _ _ (i_ctx _ _ I t)). destruct (at_ (ctxs s t)); simpl; lia. Qed.

Lemma run_lend w l t :
  at_ x = Lend w l t -> cpu_ok (switch_cpu k me t (K_help w l) (set_helper me Helping t s)) k.
Proof using I.
  intros Ep. pose proof (i_cpu _ _ I k) as Hcpu. pose proof Hcpu as [Hh Hm _ _ Hp].
  rewrite Ep in Hm, Hp. destruct (Hm _ eq_refl) as [Ht Hne]. destruct Hp as (_ & Hr & Hz).
  destruct (away_from kc s k t I Ht Hne) as [q Hq].
  apply (self_switch s _ k t _ q); rewrite ?Ep; try done; [apply (set_helper_helped me Helping) |].
  cbn [set_helper]. rewrite ctxs_on_eq. split; [by intros E | intros E; simpl in E; congruence].
Qed.

Lemma run_switch q t m :
  at_ x = Sw_ready q t m -> cpu_ok (switch_cpu k me t q (set_helper me m t s)) k.
Proof using I.
  intros Ep. pose proof (i_cpu _ _ I k) as Hcpu. pose proof Hcpu as [Hh Hm _ _ Hp].
  rewrite Ep in Hm, Hp. destruct (Hm _ eq_refl) as [Ht Hne]. destruct Hp as [(Hk & _ & _) Hqu].
  destruct (away_from kc s k t I Ht Hne) as [qt Hq].
  apply (self_switch s _ k t _ qt); rewrite ?Ep; try done; [apply set_helper_helped |].
  destruct (set_helper_helped me m t s) as (_ & _ & _ & _ & h & ->). split; [done |]. by intros _.
Qed.

(** The places of which the lemmas above treat the step. *)
Lemma run_self_token :
  match at_ x with
  | Try _ _ t _ => rul (ctxs s t) = Not_running | Help _ _ _ | Reset _ _ _ | Inc _ | Dec | Sched _ => True
  | Lend _ _ t => ready (ctxs s t) = true
  | Dispatch _ => rul x = Not_running
  | Undo _ | Clear_reset | Recheck_store => True
  | Sw_dispatch _ t _ => rul (ctxs s t) = Not_running | Sw_reset _ _ _ | Fin_store _ _ => True
  | Sw_ready _ t _ => ready (ctxs s t) = true
  | _ => False
  end -> cpu_ok s' k.
Proof using I Hrun.
  intros Hc. pose proof (i_cpu _ _ I k) as Hcpu. unfold run in Hrun.
  pose proof (c_place _ _ Hcpu) as Hp.
  destruct (at_ x) as [] eqn:Ep; try done; injection Hrun as <-.
  - unfold try_to_help. rewrite Hc. by apply self_try.
  - by apply self_help.
  - by apply self_help_reset.
  - unfold switch_exec_helping. rewrite Hc. by apply run_lend.
  - unfold set_owner_dispatch. rewrite Hc. by apply self_dispatch.
  - destruct Hp as (_ & ? & ?). apply self_put_back; rewrite ?Ep; try done. by apply calm_not_running.
  - apply self_inc; [done | done | apply cnt_nonneg].
  - by apply self_dec.
  - destruct Hp as (_ & ? & ?). apply self_put_back; rewrite ?Ep; try done. left. by apply calm_not_running.
  - destruct Hp as (? & ? & ?). apply self_put_back; rewrite ?Ep; try done. by apply calm_not_running.
  - by apply self_schedule.
  - unfold different_cpu_dispatch. rewrite Hc. by apply self_sw_dispatch.
  - by apply self_sw_reset.
  - unfold switch_exec_locked. rewrite Hc. by apply run_switch.
  - by apply self_preempt.
Qed.
Lemma run_self : cpu_ok s' k.
Proof using I Hrun.
  pose proof run_self_token as Htok.
  pose proof (i_cpu _ _ I k) as Hcpu. pose proof Hcpu as [Hh Hm Ht Hr Hp]. unfold run in Hrun.
  pose proof (i_kc _ _ I) as Hkc. pose proof (cnt_nonneg me) as Hnn. pose proof (fun t => x_ready _ _ (i_ctx _ _ I t)) as Hready.
  assert (forall s1 p, current s1 = current s -> (forall u, same (ctxs s u) (ctxs s1 u)) -> at_ (cur s1 k) = p ->
    tries p = tries (at_ x) ->
    (forall u, moves p = Some u -> moves (at_ x) = Some u \/ (here k (ctxs s u) /\ u <> me)) ->
    (forall u, moves (at_ x) = Some u -> moves p = Some u \/ rul (ctxs s u) <> Running k) ->
    place_ok s k me x p -> cpu_ok s1 k) as Hself by (intros; by eapply self_go).
  destruct (at_ x) as [] eqn:Ep; cbn [tries moves place_ok] in *; try done; try (by apply Htok).
  all: try (destruct w; [| ]).
  all: try (injection Hrun as <-).
  all: open_steps; repeat case_match; try discriminate Hrun; simplify_eq; try done.
  all: try (first [apply self_try | apply self_dispatch | apply self_sw_dispatch];
    [done | done | by apply not_running_eq]).
  all: try (first [by apply run_lend | by apply run_switch]).
  all: try (by apply self_resume; [.. | apply resume_place; tauto]).
  all: try (eapply Hself;
    [ reflexivity
    | intros u; unfold go; rewrite ?ctxs_set_lock, ctxs_on; destruct (decide (u = me)) as [-> |]; by split
    | unfold go; rewrite current_on, ctxs_on, decide_True by done; reflexivity
    | cbn [at_ set_at set_status]; rewrite ?failed_tries; reflexivity
    | cbn [at_ set_at set_status]; rewrite ?failed_moves; cbn [moves]; try done; try by left
    | cbn [at_ set_at set_status]; rewrite ?failed_moves; cbn [moves]; try done; try by left
    | cbn [at_ set_at set_status place_ok]; try tauto; try (apply failed_place, Hp) ]).
  all: clear Hself.
  all: rewrite ?andb_true_iff, ?andb_false_iff, ?negb_true_iff, ?negb_false_iff, ?bool_decide_eq_true,
    ?bool_decide_eq_false, ?Z.eqb_eq, ?Z.eqb_neq, ?Z.ltb_lt, ?Z.ltb_ge in *.
  all: unfold sw_ok in *; try tauto.
  all: try (apply calm_ret; tauto).
  all: try (unfold ret_ok, calm in *; tauto).
  - apply (self_go s _ k Out); rewrite ?Ep; try done.
    + intros u. exact (same_go me Out s u).
    + exact (at_go me Out s).
  - intros u [= <-]. right. intros E. destruct Hp as (_ & _ & Hz). rewrite (Hready t Hz) in *. congruence.
  - intros u [= <-]. right. intros E. destruct Hp as (_ & _ & Hz). rewrite (Hready t Hz) in *. congruence.
  - split; [tauto |]. lia.
  - split; [tauto |]. lia.
  - split_and!; try tauto. intros _. tauto.
  - destruct Hp as [[_ Hl] Hz]. split_and!; [| done | done]. destruct Hh as [? | (_ & ? & _)]; done.
  - right. intros E. destruct Hp as (_ & _ & Hl). by apply Hl in E.
  - split_and!; done.
  - destruct Hp as [Hp Hl]. split; [| done]. intros E. destruct (Hp E). tauto.
  - split_and!; try tauto. by apply running_here.
  - destruct Hp. split; [intros _; by split_and! | by intros _].
  - split_and!; [done | | done]. intros E. pose proof (Hkc k) as Hk. rewrite E in Hk. done.
  - apply self_resume; rewrite ?Ep; try done. apply resume_place_home; tauto.
  - split_and!; [tauto | done | apply Hp].
  - apply self_resume; rewrite ?Ep; try done. apply resume_place. tauto.
  - intros u [= <-]. right. destruct Hp as ((? & ? & ?) & ?). split; [| done]. right. split_and!; try done. by apply not_running_is.
  - destruct Hp as ((? & ? & ?) & ?). split; [done |]. intros _. split_and!; try done. by apply not_running_is.
  - destruct Hp as ((? & ? & ?) & ?). split; [done |]. by intros ?.
  - intros u [= <-]. right. eapply sw_not_running; [done | apply Hready | exact Hp].
  - split; [done |]. apply running_here; [done |]. by apply Hm.
  - intros u [= <-]. right. by apply not_running_ne.
  - by apply calm_ret with me.
  - apply self_resume; rewrite ?Ep; try done. by apply resume_place.
  - by apply calm_ret with me.
  - apply self_resume; rewrite ?Ep; try done. by apply resume_place.
  - by apply calm_ret with me.
  - apply self_resume; rewrite ?Ep; try done. by apply resume_place.
Qed.
End run.

(** * Locks and their owners *)

(** A step that neither takes nor releases a lock. *)
Lemma ctx_step s s1 u :
  ctx_ok s u -> lock_cnt (ctxs s1 u) = lock_cnt (ctxs s u) -> held (ctxs s1 u) = held (ctxs s u) ->
  ready (ctxs s1 u) = ready (ctxs s u) -> locks s1 = locks s ->
  extra (at_ (ctxs s1 u)) = extra (at_ (ctxs s u)) -> uncounted (at_ (ctxs s1 u)) = uncounted (at_ (ctxs s u)) ->
  (forall l, frees (at_ (ctxs s1 u)) l -> frees (at_ (ctxs s u)) l \/ gone (locks s l) = true) ->
  ((forall k, current s1 k <> u) -> exists q, at_ (ctxs s1 u) = Away q) -> ctx_ok s1 u.
Proof.
  intros [] E1 E2 E3 E4 E5 E6 Hf Ha. split; rewrite ?E1, ?E2, ?E3, ?E4, ?E5, ?E6; try done.
  intros l Hl. destruct (Hf l Hl); auto.
Qed.

Lemma ctx_other s s1 u :
  ctx_ok s u -> ctxs s1 u = ctxs s u -> current s1 = current s ->
  (forall l, owner (locks s1 l) = Some u <-> owner (locks s l) = Some u) ->
  (forall l, gone (locks s l) = true -> gone (locks s1 l) = true) -> ctx_ok s1 u.
Proof.
  intros [] E Ec Ho Hg. split; rewrite ?E, ?Ec; try done; [|].
  - intros l. by rewrite Ho.
  - intros l Hl. auto.
Qed.

(** The places of a context that is in the same operation. *)
Definition alike (s : sys) (p q : place) : Prop :=
  extra q = extra p /\ uncounted q = uncounted p /\ (forall l, frees q l -> frees p l \/ gone (locks s l) = true).

Section ctx.
Context (s : sys) (k : Z) (Hctx : forall u, ctx_ok s u).
Abbreviation me := (current s k).

Lemma ctx_current s1 u : current s1 = current s -> (u <> me -> at_ (ctxs s1 u) = at_ (ctxs s u)) ->
  (forall j, current s1 j <> u) -> exists q, at_ (ctxs s1 u) = Away q.
Proof using Hctx.
  intros Ec Ea Hn. assert (u <> me) as Hu by (intros ->; by apply (Hn k); rewrite Ec).
  rewrite Ea by done. apply Hctx. intros j. rewrite <- Ec. apply Hn.
Qed.

Lemma ctx_plain s1 u :
  current s1 = current s -> locks s1 = locks s ->
  (forall v, lock_cnt (ctxs s1 v) = lock_cnt (ctxs s v) /\ held (ctxs s1 v) = held (ctxs s v) /\
             ready (ctxs s1 v) = ready (ctxs s v) /\ (v <> me -> at_ (ctxs s1 v) = at_ (ctxs s v))) ->
  alike s (at_ (ctxs s me)) (at_ (ctxs s1 me)) -> ctx_ok s1 u.
Proof using Hctx.
  intros Ec El Hv (A1 & A2 & A3). destruct (Hv u) as (E1 & E2 & E3 & E4).
  assert (alike s (at_ (ctxs s u)) (at_ (ctxs s1 u))) as (B1 & B2 & B3).
  { destruct (decide (u = me)) as [-> | Hu]; [done |]. rewrite E4 by done. split_and!; [done | done | by left]. }
  apply (ctx_step s); try done; by apply ctx_current.
Qed.
End ctx.

Lemma resume_frees r l : frees (resume_at r) l <-> ret_frees r l.
Proof. by destruct r as [| | [] | [] |]. Qed.

Lemma failed_frees k q l : frees (failed_at k q) l <-> cont_frees q l.
Proof. by destruct q as [| | | [] | [| | [] | [] |]]. Qed.

Lemma resume_alike s r p : extra p = None -> uncounted p = 0 -> (forall l, ret_frees r l -> frees p l) -> alike s p (resume_at r).
Proof.
  intros E1 E2 Hf. split_and!; [rewrite E1; by destruct r | rewrite E2; by destruct r |].
  intros l. rewrite resume_frees. auto.
Qed.

Lemma failed_alike s k q p : extra p = None -> uncounted p = 0 -> (forall l, cont_frees q l -> frees p l) -> alike s p (failed_at k q).
Proof.
  intros E1 E2 Hf. split_and!; [rewrite E1; by destruct q as [| | | | []] | rewrite E2; by destruct q as [| | | | []] |].
  intros l. rewrite failed_frees. auto.
Qed.

Section run_ctx.
Context (kc : Z -> Z) (k n : Z) (drq : bool) (s s' : sys).
Hypotheses (I : Inv kc s) (Hrun : run kc k n drq s = Some s').
Abbreviation me := (current s k).
Abbreviation x := (ctxs s me).

Lemma plain_go s1 p u :
  current s1 = current s -> locks s1 = locks s ->
  (forall v, lock_cnt (ctxs s1 v) = lock_cnt (ctxs s v) /\ held (ctxs s1 v) = held (ctxs s v) /\
             ready (ctxs s1 v) = ready (ctxs s v) /\ (v <> me -> at_ (ctxs s1 v) = at_ (ctxs s v))) ->
  alike s (at_ x) p -> ctx_ok (go me p s1) u.
Proof using I.
  intros Ec El Hv Ha. apply (ctx_plain s k (i_ctx _ _ I)); try done; [|].
  - intros v. unfold go. destruct (Hv v) as (? & ? & ? & ?).
    destruct (decide (v = me)) as [-> | Hne]; [by rewrite ctxs_on_eq | by rewrite ctxs_on_ne].
  - by rewrite at_go.
Qed.

Lemma plain_me f u :
  lock_cnt (f x) = lock_cnt x -> held (f x) = held x -> ready (f x) = ready x -> alike s (at_ x) (at_ (f x)) ->
  ctx_ok (on me f s) u.
Proof using I.
  intros. apply (ctx_plain s k (i_ctx _ _ I)); try done; [|].
  - intros v. destruct (decide (v = me)) as [-> | Hne]; [by rewrite ctxs_on_eq | by rewrite ctxs_on_ne].
  - by rewrite ctxs_on_eq.
Qed.

Lemma plain_rul p t r u : alike s (at_ x) p -> ctx_ok (go me p (on t (set_rul r) s)) u.
Proof using I.
  apply plain_go; try done. intros v.
  destruct (decide (v = t)) as [-> | Hne]; [by rewrite ctxs_on_eq | by rewrite ctxs_on_ne].
Qed.

Lemma plain_place p u : alike s (at_ x) p -> ctx_ok (go me p s) u.
Proof using I. by apply plain_go. Qed.

Lemma run_ctx_plain u :
  match at_ x with Cas _ _ | Inc _ | Clear _ | Dec | Lend _ _ _ | Sw_ready _ _ _ => False | _ => True end -> ctx_ok s' u.
Proof using I Hrun.
  intros Hc. unfold run in Hrun. pose proof (i_ctx _ _ I) as Hctx.
  pose proof (x_gone _ _ (Hctx me)) as Hgone.
  destruct (at_ x) as [] eqn:Ep; try done.
  all: try (destruct w; [| ]).
  all: try (injection Hrun as <-).
  all: open_steps; repeat case_match; try discriminate Hrun; simplify_eq; try done.
  all: try (first [apply plain_place | apply plain_rul | apply plain_me; [done | done | done |]]; rewrite Ep).
  all: try (split_and!; [done | done |]; cbn; intros l'; try done; by left).
  all: try (apply resume_alike; [done | done |]; cbn; try done; tauto).
  all: try (apply failed_alike; [done | done |]; cbn; try done; tauto).
  apply (ctx_other (go me Out s)); try done. apply plain_place. rewrite Ep. by split_and!.
Qed.

Lemma run_ctx_switch t q u :
  moves (at_ x) = Some t -> extra (at_ x) = None -> uncounted (at_ x) = 0 -> (forall l, cont_frees q l -> frees (at_ x) l) ->
  forall s1, helped t s s1 -> ctx_ok (switch_cpu k me t q s1) u.
Proof using I.
  intros Em Ex Eu Hf s1 (Ec & El & _ & Hs & h & Ht).
  pose proof (i_ctx _ _ I) as Hctx. destruct (c_moves _ _ (i_cpu _ _ I k) t Em) as [Hh Hne].
  destruct (away_from kc s k t I Hh Hne) as [qt Hq].
  assert (ctxs (switch_cpu k me t q s1) me = set_at (Away q) (ctxs s me)) as Eme.
  { unfold switch_cpu, go. rewrite ctxs_set_current, ctxs_on_eq, ctxs_on_ne, Hs by done. done. }
  assert (ctxs (switch_cpu k me t q s1) t = set_at (Fin me qt) (put_helper h (ctxs s t))) as Et.
  { unfold switch_cpu, go. rewrite ctxs_set_current, ctxs_on_ne, ctxs_on_eq, Ht by done. simpl. by rewrite Hq. }
  assert (forall v, v <> me -> v <> t -> ctxs (switch_cpu k me t q s1) v = ctxs s v) as Eo.
  { intros v H1 H2. unfold switch_cpu, go. by rewrite ctxs_set_current, !ctxs_on_ne, Hs by done. }
  assert (forall j, current (switch_cpu k me t q s1) j = if decide (j = k) then t else current s j) as Ecur.
  { intros j. unfold switch_cpu. rewrite current_set_current. case_decide; [done |]. exact (f_equal (fun f => f j) Ec). }
  assert (locks (switch_cpu k me t q s1) = locks s) as Elk by done.
  apply (ctx_step s); [done | | | | done | | | |].
  all: destruct (decide (u = me)) as [-> | H1]; [rewrite Eme | destruct (decide (u = t)) as [-> | H2]; [rewrite Et | rewrite Eo by done]];
    cbn; rewrite ?Hq, ?Ex, ?Eu; try done; try (by left); try (by intros; left).
  - intros l Hl. left. by apply Hf.
  - by exists q.
  - intros Hn. exfalso. apply (Hn k). by rewrite Ecur, decide_True.
  - intros Hn. apply Hctx. intros j Hj. apply (Hn j). rewrite Ecur. case_decide; [subst; done | done].
Qed.

Lemma run_ctx_cas l b u : at_ x = Cas l b -> ctx_ok (set_owner_cas me s l b) u.
Proof using I.
  intros Ep. pose proof (i_ctx _ _ I) as Hctx. unfold set_owner_cas. case_decide as El.
  2: { apply plain_place. rewrite Ep. destruct b; by split_and!. }
  assert (forall l', locks (go me (Inc l) (set_lock l (mk_word (Some me) false) s)) l' =
    if decide (l' = l) then mk_word (Some me) false else locks s l') as Elk.
  { intros l'. unfold go. rewrite locks_on. apply locks_set_lock. }
  destruct (decide (u = me)) as [-> | Hu].
  - destruct (Hctx me) as [H1 H2 H3 H4 H5 H6 H7]. rewrite Ep in *.
    assert (l ∉ held x) as Hl. { intros Hin. assert (owner (locks s l) = Some me) as E by (apply H4; by left). by rewrite El in E. }
    unfold go in *. split; rewrite ?ctxs_on_eq; cbn; try done.
    + by intros l' [= <-].
    + intros l'. rewrite Elk. case_decide as El'; cbn; [subst; split; [by right | done] |].
      rewrite H4. cbn. split; [intros [? | ?]; [by left | done] | intros [? | [= ?]]; [by left | congruence]].
    + intros Hn. by destruct (Hn k).
  - apply (ctx_other s); [done | unfold go; by rewrite ctxs_on_ne | done | |].
    + intros l'. rewrite Elk. case_decide as El'; [subst; rewrite El; cbn | done]. split; congruence.
    + intros l'. rewrite Elk. case_decide as El'; [subst; by rewrite El | done].
Qed.

Lemma run_ctx_inc l u : at_ x = Inc l -> ctx_ok (inc_lock_cnt me s l) u.
Proof using I.
  intros Ep. pose proof (i_ctx _ _ I) as Hctx. unfold inc_lock_cnt. destruct (decide (u = me)) as [-> | Hu].
  2: { apply (ctx_other s); try done. by rewrite ctxs_on_ne. }
  destruct (Hctx me) as [H1 H2 H3 H4 H5 H6 H7]. rewrite Ep in *. cbn in H1.
  split; rewrite ?ctxs_on_eq; cbn; try done.
  - rewrite H1. lia.
  - constructor; [by apply H3 | done].
  - intros l'. rewrite locks_on, H4, elem_of_cons. cbn. split; [intros [? | [= ->]]; auto | intros [[-> | ?] | ?]; auto; done].
  - intros _. apply (i_awake _ _ I). by rewrite Ep.
  - intros Hn. by destruct (Hn k).
Qed.

Lemma run_ctx_clear l u : at_ x = Clear l -> ctx_ok (clear_lock_owner me s l) u.
Proof using I.
  intros Ep. pose proof (i_ctx _ _ I) as Hctx. unfold clear_lock_owner.
  assert (forall l', locks (go me Dec (set_lock l (mk_word None (gone (locks s l))) s)) l' =
    if decide (l' = l) then mk_word None (gone (locks s l)) else locks s l') as Elk.
  { intros l'. unfold go. rewrite locks_on. apply locks_set_lock. }
  assert (owner (locks s l) = Some me) as Eo by (apply (x_owner _ _ (Hctx me)); right; by rewrite Ep).
  destruct (decide (u = me)) as [-> | Hu].
  - destruct (Hctx me) as [H1 H2 H3 H4 H5 H6 H7]. rewrite Ep in *. unfold go in *.
    split; rewrite ?ctxs_on_eq; cbn; try done.
    + intros l'. rewrite Elk. case_decide as El'; cbn.
      * subst. split; [done |]. intros [Hl | ?]; [by apply H3 in Hl | done].
      * rewrite H4. cbn. split; [intros [? | [= ?]]; [by left | congruence] | intros [? | ?]; [by left | done]].
    + intros Hn. by destruct (Hn k).
  - apply (ctx_other s); [done | unfold go; by rewrite ctxs_on_ne | done | |].
    + intros l'. rewrite Elk. case_decide as El'; [subst; rewrite Eo; cbn | done]. split; congruence.
    + intros l'. rewrite Elk. case_decide as El'; [by subst | done].
Qed.

Lemma run_ctx_dec u : at_ x = Dec -> ctx_ok (dec_lock_cnt me s) u.
Proof using I.
  intros Ep. pose proof (i_ctx _ _ I) as Hctx. unfold dec_lock_cnt. destruct (decide (u = me)) as [-> | Hu].
  2: { apply (ctx_other s); try done. by rewrite ctxs_on_ne. }
  destruct (Hctx me) as [H1 H2 H3 H4 H5 H6 H7]. rewrite Ep in *. cbn in H1.
  assert (forall b : bool, extra (if b then Home else Back_to_helper) = None) as E1 by by intros [].
  assert (forall b : bool, uncounted (if b then Home else Back_to_helper) = 0) as E2 by by intros [].
  split; rewrite ?ctxs_on_eq; cbn; rewrite ?E1, ?E2; try done.
  - rewrite H1. lia.
  - intros _. apply (i_awake _ _ I). by rewrite Ep.
  - intros l'. by destruct (_ =? _).
  - intros Hn. by destruct (Hn k).
Qed.

Lemma run_ctx u : ctx_ok s' u.
Proof using I Hrun.
  destruct (at_ x) as [] eqn:Ep; try (apply run_ctx_plain; by rewrite Ep).
  all: revert Hrun; unfold run; rewrite Ep; intros [= <-].
  - unfold switch_exec_helping. case_match.
    + apply run_ctx_switch; rewrite ?Ep; try done. apply (set_helper_helped me Helping).
    + apply plain_place. rewrite Ep. split_and!; [done | done |]. intros l'. by destruct w; left.
  - by apply run_ctx_cas.
  - by apply run_ctx_inc.
  - by apply run_ctx_clear.
  - by apply run_ctx_dec.
  - unfold switch_exec_locked. case_match.
    + apply run_ctx_switch; rewrite ?Ep; try done. apply set_helper_helped.
    + apply plain_place. rewrite Ep. by apply failed_alike.
Qed.
End run_ctx.

(** * The other clauses *)

Section run_all.
Context (kc : Z -> Z) (k n : Z) (drq : bool) (s s' : sys).
Hypotheses (I : Inv kc s) (Hrun : run kc k n drq s = Some s').
Abbreviation me := (current s k).
Abbreviation x := (ctxs s me).

Lemma run_current j : j <> k -> current s' j = current s j.
Proof using I Hrun.
  intros Hj. unfold run in Hrun. destruct (at_ x) as [] eqn:Ep; try done.
  all: try (destruct w; [| ]).
  all: try (injection Hrun as <-).
  all: open_steps; repeat case_match; try discriminate Hrun; simplify_eq; try done.
  all: unfold switch_cpu; rewrite current_set_current, decide_False by done; try done; by destruct m.
Qed.

Lemma run_ready u : ready (ctxs s' u) = ready (ctxs s u).
Proof using I Hrun.
  unfold run in Hrun. assert (forall c' p t, ready (ctxs (go c' p t) u) = ready (ctxs t u)) as Hgo.
  { intros c' p t. unfold go. rewrite ctxs_on. by case_decide; subst. }
  assert (forall c' f t, (forall y, ready (f y) = ready y) -> ready (ctxs (on c' f t) u) = ready (ctxs t u)) as Hon.
  { intros c' f t Hf. rewrite ctxs_on. case_decide; [subst; apply Hf | done]. }
  destruct (at_ x) as [] eqn:Ep; try done.
  all: try (destruct w; [| ]).
  all: try (injection Hrun as <-).
  all: open_steps; repeat case_match; try discriminate Hrun; simplify_eq; try done.
  all: unfold resume; cbn [ctxs]; rewrite ?Hgo, ?Hon by done; try done.
  all: unfold switch_cpu, set_helper; rewrite ctxs_set_current, Hgo, Hon by (intros y; by destruct (at_ y)).
  all: try destruct m; rewrite ?Hon by done; done.
Qed.

Lemma run_freed l : freed s' l = true -> locks s' l = mk_word None true.
Proof using I Hrun.
  pose proof (i_freed _ _ I l) as Hl. pose proof (x_gone _ _ (i_ctx _ _ I me)) as Hg. unfold run in Hrun.
  destruct (at_ x) as [] eqn:Ep; try done.
  all: try (destruct w; [| ]).
  all: try (injection Hrun as <-).
  all: open_steps; repeat case_match; try discriminate Hrun; simplify_eq; try done.
  - cbn. destruct (decide (l = l0)) as [-> | Hne]; [| by rewrite fn_lookup_insert_ne].
    intros _. specialize (Hg l0 eq_refl). unfold go. rewrite locks_on. destruct (locks s l0) as [o g]. simpl in *. by subst.
  - unfold go. rewrite locks_on, locks_set_lock. intros Hf. specialize (Hl Hf). destruct (decide (l = l0)); [subst; congruence | done].
  - unfold go. rewrite locks_on, locks_set_lock. intros Hf. specialize (Hl Hf). destruct (decide (l = l0)); [by subst; rewrite Hl | done].
  - by destruct m.
Qed.

Lemma run_awake : may_sleep k (at_ (cur s' k)) = false -> ready (cur s' k) = true.
Proof using I Hrun.
  rewrite run_ready. pose proof (i_awake _ _ I k) as Haw. pose proof (c_place _ _ (i_cpu _ _ I k)) as Hp. unfold run in Hrun.
  destruct (at_ x) as [] eqn:Ep; try done.
  all: try (destruct w; [| ]).
  all: try (injection Hrun as <-).
  all: open_steps; repeat case_match; try discriminate Hrun; simplify_eq; try done.
  all: unfold resume; rewrite ?current_on; try (intros _; by apply Haw).
  all: try (rewrite at_go; destruct c as [| | | | []]; by try apply Haw).
  all: try (rewrite at_go; by destruct r).
  all: unfold switch_cpu; rewrite ?current_set_current, ?decide_True by done; try done.
  - by rewrite ctxs_on_eq.
  - by rewrite Ep.
  - intros _. apply andb_true_iff in H as [_ H]. exact H.
  - intros _. apply Haw. by apply Z.eqb_neq.
  - rewrite at_go. destruct Hp as (_ & _ & Hq). destruct c as [| | | | []]; cbn in *; try done; rewrite ?Z.eqb_refl; try done; by apply Haw.
  - rewrite at_go. destruct Hp as ((_ & _ & Hq) & _). destruct c as [| | | | []]; cbn in *; try done; rewrite ?Z.eqb_refl; try done; by apply Haw.
Qed.
End run_all.

Lemma inv_step kc k s s' :
  Inv kc s -> (forall j, j <> k -> current s' j = current s j) -> (forall u, change k (ctxs s u) (ctxs s' u)) ->
  (forall u, u <> current s k -> ready (ctxs s u) = true -> ready (ctxs s' u) = true) ->
  cpu_ok s' k -> (may_sleep k (at_ (cur s' k)) = false -> ready (cur s' k) = true) ->
  (forall u, ctx_ok s' u) -> (forall l, freed s' l = true -> locks s' l = mk_word None true) -> Inv kc s'.
Proof.
  intros I Hcur Hch Hrd Hk Haw Hctx Hf.
  assert (forall j, j <> k -> rely j s s') as Hrely by (intros j Hj; apply (change_rely s s' j k); auto; apply I).
  split; try done.
  - intros j. destruct (decide (j = k)) as [-> | Hj]; [done |]. apply (rely_cpu j s); [apply I | by apply Hrely].
  - intros j. destruct (decide (j = k)) as [-> | Hj]; [done |].
    rewrite Hcur by done. destruct (r_now _ _ _ _ (r_ctx _ _ _ (Hrely j Hj) (current s j)) eq_refl) as [-> _].
    intros E. apply Hrd; [| by apply (i_awake _ _ I)]. intros Ej. destruct Hj.
    apply (here_unique j k (cur s j)); [apply I | rewrite Ej; apply I].
  - intros j. rewrite (h_home _ _ _ (Hch (kc j))). apply I.
Qed.

Lemma switch_run_inv kc k n drq s s' : Inv kc s -> run kc k n drq s = Some s' -> Inv kc s'.
Proof.
  intros I Hrun. apply (inv_step kc k s); [done | | | | | | |].
  - intros j. by apply (run_current kc k n drq).
  - by apply (run_change kc k n drq).
  - intros u _ E. by rewrite (run_ready kc k n drq s s' I Hrun).
  - by apply (run_self kc k n drq s).
  - by apply (run_awake kc k n drq s).
  - by apply (run_ctx kc k n drq s).
  - by apply (run_freed kc k n drq s).
Qed.

(** * Events *)

Section events.
Context (kc : Z -> Z) (k : Z) (s : sys) (I : Inv kc s).
Abbreviation me := (current s k).
Abbreviation x := (ctxs s me).

(** The current context starts an operation, or is interrupted. *)
Lemma event_inv p :
  tries (at_ x) = None -> moves (at_ x) = None -> tries p = None -> moves p = None ->
  place_ok s k me x p -> alike s (at_ x) p -> (may_sleep k p = false -> ready x = true) -> Inv kc (go me p s).
Proof using I.
  intros T1 M1 T2 M2 Hp Ha Haw. pose proof (i_cpu _ _ I k) as Hcpu. apply (inv_step kc k s); try done.
  - apply change_go; [apply Hcpu | done].
  - intros u Hu. unfold go. by rewrite ctxs_on_ne.
  - apply (self_go s _ k p); rewrite ?T1, ?T2, ?M1, ?M2; try done; [by apply same_go | by apply at_go].
  - rewrite at_go. intros E. unfold go. rewrite ctxs_on_eq. by apply Haw.
  - intros u. by apply (plain_place kc k).
  - apply I.
Qed.

Lemma lock_clear_inv l :
  at_ x = Out -> l ∈ held x -> Inv kc (on me (fun y => set_at (Clear l) (set_held (filter (.≠ l) (held y)) y)) s).
Proof using I.
  intros Ep Hl. pose proof (i_cpu _ _ I k) as Hcpu. pose proof (i_ctx _ _ I) as Hctx.
  assert (calm k me x) as Hc by (pose proof (c_place _ _ Hcpu) as Hp; by rewrite Ep in Hp).
  destruct (Hctx me) as [H1 H2 H3 H4 H5 H6 H7]. rewrite Ep in *. cbn in H1.
  assert (Permutation (held x) (l :: filter (.≠ l) (held x))) as Hperm.
  { apply NoDup_Permutation; [done | constructor; [rewrite list_elem_of_filter; tauto | by apply NoDup_filter] |].
    intros l'. rewrite elem_of_cons, list_elem_of_filter. destruct (decide (l' = l)); naive_solver. }
  assert (Z.of_nat (length (held x)) = Z.of_nat (length (filter (.≠ l) (held x))) + 1) as Elen.
  { rewrite (Permutation_length Hperm) at 1. cbn [length]. lia. }
  apply (inv_step kc k s); try done.
  - apply change_own; [apply Hcpu | done | by left | by left].
  - intros u Hu. by rewrite ctxs_on_ne.
  - apply (self_go s _ k (Clear l)); rewrite ?Ep; try done.
    + intros u. rewrite ctxs_on. by case_decide; subst.
    + by rewrite current_on, ctxs_on_eq.
    + split; [lia | apply Hc].
  - rewrite current_on, ctxs_on_eq. intros _. apply (i_awake _ _ I). by rewrite Ep.
  - intros u. destruct (decide (u = me)) as [-> | Hu]; [| by apply (ctx_other s); try done; rewrite ctxs_on_ne].
    split; rewrite ?ctxs_on_eq; cbn; try done.
    + lia.
    + by apply NoDup_filter.
    + intros l' [= <-]. rewrite list_elem_of_filter. tauto.
    + intros l'. rewrite locks_on, H4, list_elem_of_filter. cbn.
      destruct (decide (l' = l)) as [-> | Hne]; [| naive_solver]. split; [by right | by left].
    + intros Hn. by destruct (Hn k).
  - apply I.
Qed.

Lemma invalidate_inv l : Inv kc (set_lock l (mk_word (owner (locks s l)) true) s).
Proof using I.
  assert (forall l', owner (locks (set_lock l (mk_word (owner (locks s l)) true) s) l') = owner (locks s l')) as Eo
    by (intros l'; rewrite locks_set_lock; by case_decide; subst).
  assert (forall l', gone (locks s l') = true -> gone (locks (set_lock l (mk_word (owner (locks s l)) true) s) l') = true) as Eg
    by (intros l'; rewrite locks_set_lock; by case_decide; subst).
  destruct I as [Hcpu Haw Hctx Hkc Hf]. split; try done.
  - intros j. destruct (Hcpu j) as [? ? ? ? Hp]. split; done.
  - intros u. apply (ctx_other s); try done. intros l'. by rewrite Eo.
  - intros l' Hl'. specialize (Hf l' Hl'). rewrite locks_set_lock. case_decide; [subst | done]. by rewrite Hf.
Qed.

Lemma block_inv : at_ x = Out -> lock_cnt x = 0 -> Inv kc (on me (fun y => set_at (Sched R_out) (set_ready false y)) s).
Proof using I.
  intros Ep Hz. pose proof (i_cpu _ _ I k) as Hcpu. pose proof (i_ctx _ _ I) as Hctx.
  assert (calm k me x) as Hc by (pose proof (c_place _ _ Hcpu) as Hp; by rewrite Ep in Hp).
  apply (inv_step kc k s); try done.
  - apply change_own; [apply Hcpu | done | by left | by left].
  - intros u Hu. by rewrite ctxs_on_ne.
  - apply (self_go s _ k (Sched R_out)); rewrite ?Ep; try done.
    + intros u. rewrite ctxs_on. by case_decide; subst.
    + by rewrite current_on, ctxs_on_eq.
    + apply Hc.
  - by rewrite current_on, ctxs_on_eq.
  - intros u. destruct (decide (u = me)) as [-> | Hu]; [| by apply (ctx_other s); try done; rewrite ctxs_on_ne].
    destruct (Hctx me) as [H1 H2 H3 H4 H5 H6 H7]. rewrite Ep in *.
    split; rewrite ?ctxs_on_eq; cbn; try done. intros Hn. by destruct (Hn k).
  - apply I.
Qed.

(** Migration by the home CPU of [t]. *)
Lemma migrate_inv t n :
  home (ctxs s t) = k -> may_migrate (at_ x) = true -> me <> t -> t <> kc k -> Inv kc (on t (set_home n) s).
Proof using I.
  intros Hk Hm Hne Hkc. destruct I as [Hcpu Haw Hctx Hkc' Hf].
  assert (forall u, u <> t -> ctxs (on t (set_home n) s) u = ctxs s u) as Eo by (intros; by rewrite ctxs_on_ne).
  assert (ctxs (on t (set_home n) s) t = set_home n (ctxs s t)) as Et by by rewrite ctxs_on_eq.
  split.
  - intros j. destruct (decide (j = k)) as [-> | Hj].
    + destruct (Hcpu k) as [Hh Hmv Ht Hr Hp].
      assert (forall u, rul (ctxs (on t (set_home n) s) u) = rul (ctxs s u)) as Er
        by (intros u; destruct (decide (u = t)) as [-> | ?]; [by rewrite Et | by rewrite Eo]).
      assert (moves (at_ x) = None) as Em by by destruct (at_ x).
      split; rewrite current_on, (Eo me) by done; [done | by rewrite Em | intros u; by rewrite Er | intros u; rewrite Er; apply Hr |].
      by destruct (at_ x).
    + apply (rely_cpu j s); [done |]. split; [done |]. intros u.
      destruct (decide (u = t)) as [-> | Hu]; [rewrite Et | by rewrite Eo].
      split; cbn; try done; try congruence. intros [Hh | (_ & _ & Hh)]; [split; [by left | done] | congruence].
  - intros j. rewrite current_on. pose proof (Haw j) as Ha.
    destruct (decide (current s j = t)) as [Ej | Hu]; [by rewrite Ej, Et in * | by rewrite Eo].
  - intros u. destruct (decide (u = t)) as [-> | Hu]; [| apply (ctx_other s); try done; by apply Eo].
    destruct (Hctx t). split; rewrite ?Et; done.
  - intros j. destruct (decide (kc j = t)) as [E | E]; [| by rewrite Eo].
    destruct Hkc. rewrite <- E in Hk. rewrite Hkc' in Hk. congruence.
  - done.
Qed.

Lemma kdrq_inv s' : kdrq kc k me s = Some s' -> Inv kc s'.
Proof using I.
  pose proof (i_cpu _ _ I k) as Hcpu. pose proof (c_place _ _ Hcpu) as Hp.
  unfold kdrq. intros Hs. destruct (bool_decide (home x = k) && negb (bool_decide (me = kc k))) eqn:E; [| done].
  apply andb_true_iff in E as [_ E]. rewrite negb_true_iff, bool_decide_eq_false in E.
  destruct (at_ x) as [] eqn:Ep; try done; injection Hs as <-.
  all: apply event_inv; rewrite ?Ep; try done; try (intros _; apply (i_awake _ _ I); by rewrite Ep).
  all: try (split_and!; [apply I | done | exact Hp]).
  - split_and!; [done | done |]. cbn. intros l' Hl'. left. by destruct w.
  - split_and!; [done | done |]. cbn. by left.
  - cbn. intros Ek. apply (i_awake _ _ I). rewrite Ep. done.
Qed.
End events.

Lemma switch_wake_inv kc t s : Inv kc s -> Inv kc (on t (set_ready true) s).
Proof.
  intros [Hcpu Haw Hctx Hkc Hf].
  assert (forall u, same (ctxs s u) (ctxs (on t (set_ready true) s) u)) as Hs
    by (intros u; rewrite ctxs_on; by case_decide; subst).
  assert (forall u, at_ (ctxs (on t (set_ready true) s) u) = at_ (ctxs s u)) as Ea
    by (intros u; rewrite ctxs_on; by case_decide; subst).
  assert (forall u, ready (ctxs s u) = true -> ready (ctxs (on t (set_ready true) s) u) = true) as Er
    by (intros u; rewrite ctxs_on; by case_decide; subst).
  split; try done.
  - intros j. destruct (Hcpu j) as [Hh Hm Ht Hr Hp]. apply (self_go s _ j (at_ (cur s j))); auto; by split.
  - intros j. rewrite current_on, Ea. intros E. by apply Er, Haw.
  - intros u. destruct (decide (u = t)) as [-> | Hu]; [| apply (ctx_other s); try done; by rewrite ctxs_on_ne].
    destruct (Hctx t). split; rewrite ?ctxs_on_eq; done.
  - intros j. rewrite (s_home _ _ (Hs (kc j))). apply Hkc.
Qed.

Lemma switch_step_inv kc a s s' : Inv kc s -> step kc a s = Some s' -> Inv kc s'.
Proof.
  intros I. pose proof (fun k => c_place _ _ (i_cpu _ _ I k)) as Hp.
  assert (forall k, at_ (cur s k) = Out -> calm k (current s k) (cur s k)) as Hcalm by (intros k E; specialize (Hp k); by rewrite E in Hp).
  destruct a as [k n drq | k l | k l | k l | k l | k | k | t | k | t n]; cbn [step]; intros Hs.
  - by apply (switch_run_inv kc k n drq s).
  - destruct (at_ (cur s k)) as [] eqn:Ep; try done. injection Hs as <-.
    apply event_inv; rewrite ?Ep; try done; [by apply Hcalm |]. intros _. apply (i_awake _ _ I). by rewrite Ep.
  - destruct (at_ (cur s k)) as [] eqn:Ep; try done. case_decide; [| done]. injection Hs as <-. by apply lock_clear_inv.
  - destruct (at_ (cur s k)) as [] eqn:Ep; try done. injection Hs as <-. by apply invalidate_inv.
  - destruct (at_ (cur s k)) as [] eqn:Ep; try done. destruct (gone (locks s l)) eqn:Eg; [| done]. injection Hs as <-.
    apply event_inv; rewrite ?Ep; try done; [by apply Hcalm | |].
    + split_and!; [done | done |]. cbn. intros l' ->. by right.
    + intros _. apply (i_awake _ _ I). by rewrite Ep.
  - destruct (at_ (cur s k)) as [] eqn:Ep; try done; injection Hs as <-.
    + apply event_inv; rewrite ?Ep; try done. by apply Hcalm.
    + apply event_inv; rewrite ?Ep; try done; [specialize (Hp k); rewrite Ep in Hp; apply Hp |].
      split_and!; [done | done |]. cbn. intros l' Hl'. left. by destruct w.
  - destruct (at_ (cur s k)) as [] eqn:Ep; try done. destruct (_ && _) eqn:E; [| done]. injection Hs as <-.
    apply andb_true_iff in E as [E _]. apply Z.eqb_eq in E. by apply block_inv.
  - injection Hs as <-. by apply switch_wake_inv.
  - by apply (kdrq_inv kc k s I).
  - unfold migrate_away in Hs. destruct (_ && _ && _ && _) eqn:E; [| done]. injection Hs as <-.
    rewrite !andb_true_iff, !negb_true_iff, !bool_decide_eq_false in E. destruct E as [[[E1 E2] E3] _].
    by apply (migrate_inv kc (home (ctxs s t)) s I).
Qed.

Lemma switch_start_inv kc homes : (forall k, homes (kc k) = k) -> Inv kc (start kc homes).
Proof.
  intros Hkc.
  assert (forall k, ctxs (start kc homes) (kc k) = mk_ctx k 0 Not_running (kc k) true Out None []) as E.
  { intros k. cbn. by rewrite Hkc, decide_True. }
  split.
  - intros k. split; cbn [start current]; rewrite ?E; try done; cbn.
    by right.
  - intros k. cbn [start current]. by rewrite E.
  - intros t. split; cbn; try done; try (by constructor); try (by case_decide).
    + intros l. case_decide; cbn; (split; [done | intros [Hl | ?]; [by apply not_elem_of_nil in Hl | done]]).
    + intros Hn. case_decide as Et; [| by eexists]. by destruct (Hn (homes t)).
  - intros k. by rewrite E.
  - done.
Qed.
