(* ===== verification/SwitchLockSpec.v ===== *)
(** What the locks with helping promise: a context runs on one CPU at a time, a
    lock has one holder, and helping succeeds. *)

From stdpp Require Import functions.
From S2P Require Import Prelude SwitchLock SwitchLockInv SwitchLockSteps.

Section spec.
Context (kc homes : Z -> Z) (Hkc : forall k, homes (kc k) = k).

Lemma switch_reachable_inv s : reachable kc homes s -> Inv kc s.
Proof using Hkc. induction 1; [by apply switch_start_inv | by eapply switch_step_inv]. Qed.

Lemma runs_reachable ls : forall s s', reachable kc homes s -> runs kc ls s = Some s' -> reachable kc homes s'.
Proof using.
  induction ls as [| a ls IH]; intros s s' Hs; simpl; [by intros [= <-] |].
  destruct (step kc a s) as [s1 |] eqn:E; [| done]. apply IH. by eapply reachable_step.
Qed.

(** The owner of a lock that nobody runs has counted it. *)
Lemma owner_counted s l t :
  Inv kc s -> owner (locks s l) = Some t -> (forall k, rul (ctxs s t) <> Running k) -> lock_cnt (ctxs s t) <> 0.
Proof using.
  intros I Ho Hn. destruct (i_ctx _ _ I t) as [H1 _ _ H4 _ _ H7]. apply H4 in Ho as [Hl | Hx].
  - rewrite H1. destruct (held (ctxs s t)); [by apply not_elem_of_nil in Hl |].
    destruct (at_ (ctxs s t)); simpl; lia.
  - intros E. destruct (at_ (ctxs s t)) as [] eqn:Ep; try done; simpl in Hx, H1; injection Hx as ->.
    + assert (~ forall k, current s k <> t) as Hc by (intros Hc; by destruct (H7 Hc)).
      apply Hc. intros k Ek. pose proof (c_place _ _ (i_cpu _ _ I k)) as Hp. rewrite Ek, Ep in Hp.
      destruct Hp as [Hp _]. by apply Hn in Hp.
    + lia.
Qed.

(** C1: Whatever the interleaving of taking and releasing locks, helping, scheduling,
    interrupts, blocking without locks and migration on all CPUs, a context is
    never current on two CPUs; a context that has locks or runs away from home is
    marked as running by its CPU; a lock that [lock] has reported as taken is held
    by one context, and outside of the lock operations [_lock_cnt] is the number of
    locks held; and a lock of which [wait_free] has returned has no owner ever
    again. *)
Theorem helping_safe s :
  reachable kc homes s ->
  (forall k j, current s k = current s j -> k = j) /\
  (forall k, lock_cnt (cur s k) <> 0 \/ home (cur s k) <> k -> rul (cur s k) = Running k) /\
  (forall l t u, l ∈ held (ctxs s t) -> l ∈ held (ctxs s u) -> t = u) /\
  (forall t, (forall k, current s k = t -> at_ (ctxs s t) = Out) ->
     lock_cnt (ctxs s t) = Z.of_nat (length (held (ctxs s t))) /\
     forall l, owner (locks s l) = Some t <-> l ∈ held (ctxs s t)) /\
  (forall l, freed s l = true -> owner (locks s l) = None /\ forall t, l ∉ held (ctxs s t)).
Proof using Hkc.
  intros I%switch_reachable_inv. split_and!.
  - intros k j E. apply (here_unique k j (cur s k)); [apply I | rewrite E; apply I].
  - intros k Hn. destruct (c_here _ _ (i_cpu _ _ I k)) as [? | (_ & ? & ?)]; [done | tauto].
  - intros l t u Ht Hu. assert (owner (locks s l) = Some t) as E1 by (apply (i_ctx _ _ I t); by left).
    assert (owner (locks s l) = Some u) as E2 by (apply (i_ctx _ _ I u); by left). congruence.
  - intros t Hout. destruct (i_ctx _ _ I t) as [H1 _ _ H4 _ _ H7].
    assert (extra (at_ (ctxs s t)) = None /\ uncounted (at_ (ctxs s t)) = 0) as [E1 E2].
    { destruct (at_ (ctxs s t)) as [] eqn:Ep; try done.
      all: exfalso; assert (forall k, current s k <> t) as Hn by (intros k Ek; by specialize (Hout k Ek)).
      all: by destruct (H7 Hn). }
    rewrite E1, E2 in *. split; [lia |]. intros l. rewrite H4. split; [intros [? | ?]; done | by left].
  - intros l Hf. rewrite (i_freed _ _ I l Hf). split; [done |]. intros t Ht.
    assert (owner (locks s l) = Some t) as E by (apply (i_ctx _ _ I t); by left).
    by rewrite (i_freed _ _ I l Hf) in E.
Qed.

(** The steps of [need_help] by [k], when nobody else interferes. *)
Lemma runs_step k n drq ls s s1 s' :
  run kc k n drq s = Some s1 -> runs kc ls s1 = Some s' -> runs kc (L_run k n drq :: ls) s = Some s'.
Proof using. intros E1 E2. simpl. by rewrite E1. Qed.

Lemma run_at k n drq s p : at_ (cur s k) = p ->
  match p with
  | Try w l t v => run kc k n drq s = Some (try_to_help k (current s k) s w l t v)
  | Cnt w l t v => run kc k n drq s = Some (need_help_cnt (current s k) s w l t v)
  | Own w l t v => run kc k n drq s = Some (need_help_own (current s k) s w l t v)
  | Help w l t => run kc k n drq s = Some (help k (current s k) s w l t)
  | Reset w l t => run kc k n drq s = Some (help_reset (current s k) s w l t)
  | Lend w l t => run kc k n drq s = Some (switch_exec_helping k (current s k) s w l t)
  | _ => True
  end.
Proof using. intros <-. unfold run. by destruct (at_ (cur s k)). Qed.

Lemma switch_cpu_target k c t q s : t <> c ->
  rul (ctxs (switch_cpu k c t q s) t) = rul (ctxs s t) /\ helper (ctxs (switch_cpu k c t q s) t) = helper (ctxs s t).
Proof using.
  intros Hne. unfold switch_cpu, go. rewrite ctxs_set_current, ctxs_on_ne, ctxs_on_eq by done.
  by destruct (at_ (ctxs s t)).
Qed.

Lemma need_help_runs s k w l t :
  t <> current s k -> at_ (cur s k) = Try w l t (locks s l) -> rul (ctxs s t) = Not_running ->
  lock_cnt (ctxs s t) <> 0 -> ready (ctxs s t) = true ->
  exists s', runs kc (replicate 5 (L_run k 0 false)) s = Some s' /\ current s' k = t /\
             rul (ctxs s' t) = Running k /\ helper (ctxs s' t) = current s k.
Proof using.
  intros Hne Ep Er Ec Erd. set (c := current s k) in *.
  set (s1 := go c (Cnt w l t (locks s l)) (on t (set_rul (Trying k)) s)).
  set (s2 := go c (Own w l t (locks s l)) s1).
  set (s3 := go c (Help w l t) s2).
  set (s4 := go c (Lend w l t) (on t (set_rul (Running k)) s3)).
  set (s5 := switch_cpu k c t (K_help w l) (set_helper c Helping t s4)).
  assert (forall u f s, u <> c -> ctxs (go c f s) u = ctxs s u) as Hgo by (intros; by apply ctxs_on_ne).
  assert (lock_cnt (ctxs s1 t) = lock_cnt (ctxs s t)) as E1 by (unfold s1; rewrite Hgo, ctxs_on_eq by done; done).
  assert (ready (ctxs s4 t) = true) as E4.
  { unfold s4, s3, s2, s1. rewrite Hgo, ctxs_on_eq, !Hgo, ctxs_on_eq by done. done. }
  exists s5. split_and!.
  - apply (runs_step _ _ _ _ _ s1). { rewrite (run_at k 0 false s _ Ep). unfold try_to_help. by rewrite Er. }
    apply (runs_step _ _ _ _ _ s2).
    { rewrite (run_at k 0 false s1 _ (at_go _ _ _)). unfold need_help_cnt. rewrite E1. apply Z.eqb_neq in Ec. by rewrite Ec. }
    apply (runs_step _ _ _ _ _ s3).
    { rewrite (run_at k 0 false s2 _ (at_go _ _ _)). unfold need_help_own. by rewrite decide_True. }
    apply (runs_step _ _ _ _ _ s4). { apply (run_at k 0 false s3 _ (at_go _ _ _)). }
    apply (runs_step _ _ _ _ _ s5); [| done].
    rewrite (run_at k 0 false s4 _ (at_go _ _ _)). unfold switch_exec_helping. by rewrite E4.
  - unfold s5, switch_cpu. by rewrite current_set_current, decide_True.
  - destruct (switch_cpu_target k c t (K_help w l) (set_helper c Helping t s4) Hne) as [E _]. fold s5 in E. rewrite E.
    cbn [set_helper]. rewrite ctxs_on_eq. unfold s4. by rewrite Hgo, ctxs_on_eq.
  - destruct (switch_cpu_target k c t (K_help w l) (set_helper c Helping t s4) Hne) as [_ E]. fold s5 in E. rewrite E.
    cbn [set_helper]. by rewrite ctxs_on_eq.
Qed.

(** A context without locks is given back by who tries to help it. *)
Lemma trying_gives_back s j c :
  Inv kc s -> rul (ctxs s c) = Trying j -> lock_cnt (ctxs s c) = 0 ->
  exists n s', (n <= 2)%nat /\ runs kc (replicate n (L_run j 0 false)) s = Some s' /\ rul (ctxs s' c) = Not_running.
Proof using.
  intros I Er Ec. pose proof (proj1 (c_tries _ _ (i_cpu _ _ I j) c) Er) as Ht.
  pose proof (c_place _ _ (i_cpu _ _ I j)) as Hp.
  assert (forall w l s1, rul (ctxs (go (current s j) (Point w l) (on c (set_rul Not_running) s1)) c) = Not_running) as Hnr.
  { intros w l s1. unfold go. rewrite ctxs_on. case_decide; [subst; by rewrite ctxs_on_eq | by rewrite ctxs_on_eq]. }
  destruct (at_ (cur s j)) as [] eqn:Ep; try done; simpl in Ht; injection Ht as ->.
  - exists 2%nat, (go (current s j) (Point w l) (on c (set_rul Not_running) (go (current s j) (Reset w l c) s))).
    split_and!; [lia | | apply Hnr].
    eapply runs_step. { rewrite (run_at j 0 false s _ Ep). unfold need_help_cnt. rewrite Ec. reflexivity. }
    eapply runs_step; [| done]. exact (run_at j 0 false (go (current s j) (Reset w l c) s) _ (at_go _ _ _)).
  - by destruct Hp.
  - by destruct Hp.
  - exists 1%nat, (go (current s j) (Point w l) (on c (set_rul Not_running) s)).
    split_and!; [lia | | apply Hnr]. eapply runs_step; [exact (run_at j 0 false s _ Ep) | done].
Qed.

(** C2: A CPU that finds a lock owned by a context that nobody runs, and is not
    disturbed, runs the owner after five steps as its helper; and a context that
    waits for permission to run under its first lock waits only for a CPU whose
    next two steps give the permission back. *)
Theorem helping_progress s k :
  reachable kc homes s ->
  (forall w l t, at_ (cur s k) = Try w l t (locks s l) -> owner (locks s l) = Some t -> rul (ctxs s t) = Not_running ->
     exists s', runs kc (replicate 5 (L_run k 0 false)) s = Some s' /\ current s' k = t /\
                rul (ctxs s' t) = Running k /\ helper (ctxs s' t) = current s k) /\
  (forall l, at_ (cur s k) = Dispatch l ->
     rul (cur s k) = Not_running \/
     exists j n s', rul (cur s k) = Trying j /\ (n <= 2)%nat /\
                    runs kc (replicate n (L_run j 0 false)) s = Some s' /\ rul (ctxs s' (current s k)) = Not_running).
Proof using Hkc.
  intros I%switch_reachable_inv. split.
  - intros w l t Ep Ho Er.
    assert (lock_cnt (ctxs s t) <> 0) as Ec by (apply (owner_counted s l); [done | done | intros j; by rewrite Er]).
    apply (need_help_runs s k w l t); try done; [| by apply (x_ready _ _ (i_ctx _ _ I t))]. intros ->.
    destruct (c_here _ _ (i_cpu _ _ I k)) as [? | (_ & ? & _)]; congruence.
  - intros l Ep. pose proof (c_place _ _ (i_cpu _ _ I k)) as Hp. rewrite Ep in Hp. destruct Hp as [[Hq _] Hz].
    destruct (Hq Hz) as (Hn & _ & _). destruct (rul (cur s k)) as [| j |] eqn:Er; [by left | right | done].
    destruct (trying_gives_back s j (current s k) I Er Hz) as (n & s' & ? & ? & ?). by exists j, n, s'.
Qed.
End spec.

(** * Runs *)
Module Switch_lock_example.

(** Context [100 * k + i] has CPU [k] as its home; [100 * k] is the idle one. *)
Definition kc (k : Z) : Z := 100 * k.
Definition homes (t : Z) : Z := t / 100.

Lemma homes_kc k : homes (kc k) = k.
Proof. unfold homes, kc. rewrite Z.mul_comm. apply Z.div_mul. lia. Qed.

Abbreviation boot := (start kc homes).

(** CPU [k] schedules [n]. *)
Definition dispatch (k n : Z) (steps : nat) : list label := L_irq k :: replicate steps (L_run k n false).

(** Context 1 takes lock 7 at home and is preempted; context 101 finds the lock
    taken. *)
Definition contention : list label :=
  dispatch 0 1 8 ++ L_lock 0 7 :: replicate 6 (L_run 0 0 false) ++ dispatch 0 0 9 ++
  dispatch 1 101 8 ++ L_lock 1 7 :: replicate 2 (L_run 1 0 false).

(** Context 101 lends its CPU; context 1 releases the lock there and switches back;
    context 101 takes the lock. *)
Definition handover : list label :=
  contention ++ replicate 7 (L_run 1 0 false) ++ L_clear 1 7 :: replicate 15 (L_run 1 0 false).

Definition seen (s : sys) :=
  (map (fun t => (at_ (ctxs s t), rul (ctxs s t), lock_cnt (ctxs s t), held (ctxs s t))) [1; 101], (current s 0, current s 1), locks s 7).

Lemma switch_seen_some o v : option_map seen o = Some v -> exists s, o = Some s /\ seen s = v.
Proof. destruct o as [s |]; [| done]. simpl. intros [= E]. by exists s. Qed.

Lemma helping_safe_witness :
  exists s, runs kc handover boot = Some s /\ current s 1 = 101 /\ held (ctxs s 101) = [7] /\
            rul (cur s 1) = Running 1 /\ (forall t, 7 ∈ held (ctxs s t) -> t = 101).
Proof.
  assert (option_map seen (runs kc handover boot) =
    Some ([(Away K_clear, Not_running, 0, []); (Out, Running 1, 1, [7])], (0, 101), mk_word (Some 101) false)) as E
    by (vm_compute; reflexivity).
  apply switch_seen_some in E as (s & E & Hs). unfold seen in Hs. simpl in Hs. injection Hs as _ _ _ _ _ _ Hc Hh _ Hk _.
  assert (reachable kc homes s) as Hr by (eapply runs_reachable; [apply reachable_start | exact E]).
  destruct (helping_safe kc homes homes_kc s Hr) as (_ & Hrun & Hex & _).
  exists s. split_and!; [exact E | exact Hk | exact Hh | |].
  - apply Hrun. left. rewrite Hk, Hc. lia.
  - intros t Ht. apply (Hex 7); [exact Ht |]. rewrite Hh. left.
Defined.

Lemma helping_progress_witness :
  exists s s', runs kc contention boot = Some s /\ current s 1 = 101 /\
    runs kc (replicate 5 (L_run 1 0 false)) s = Some s' /\ current s' 1 = 1 /\ helper (ctxs s' 1) = 101.
Proof.
  assert (option_map seen (runs kc contention boot) =
    Some ([(Away (K_sched R_out), Not_running, 1, [7]); (Try Acquire 7 1 (mk_word (Some 1) false), Not_running, 0, [])],
          (0, 101), mk_word (Some 1) false)) as E by (vm_compute; reflexivity).
  apply switch_seen_some in E as (s & E & Hs). unfold seen in Hs. simpl in Hs. injection Hs as _ Hr1 _ _ Ha _ _ _ _ Hk Hw.
  assert (reachable kc homes s) as Hr by (eapply runs_reachable; [apply reachable_start | exact E]).
  destruct (helping_progress kc homes homes_kc s 1 Hr) as [Hp _].
  destruct (Hp Acquire 7 1) as (s' & Hs' & Hc' & _ & Hh').
  - rewrite Hk, Hw. exact Ha.
  - by rewrite Hw.
  - exact Hr1.
  - rewrite Hk in Hh'. exists s, s'. exact (conj E (conj Hk (conj Hs' (conj Hc' Hh')))).
Defined.
End Switch_lock_example.
