(* ===== verification/GccLib.v ===== *)
(** The arithmetic that the compiler does not emit code for
    ([src/src/lib/libk/gcc_lib.c]): division of wide integers by shifting and
    subtracting, shifts of 64-bit integers in 32-bit halves, and counting zero
    bits by bisection.  Each routine is proved equal to what it computes.

    The width of the division is a parameter: [ullmoddiv] and [umoddiv] are the
    same code for 64 and for 32 bits. *)

From S2P Require Import Prelude.

(** * Division *)

Section moddiv.
(** The number of bits of the type. *)
Variable w : Z.

(** The divisor is shifted up; [tmp] is the power of two that belongs to it. *)
Fixpoint moddiv_shift (fuel : nat) (div s tmp : Z) : option (Z * Z) :=
  match fuel with
  | O => None
  | S fuel =>
      if negb (Z.testbit s (w - 1)) && (s <? div) then moddiv_shift fuel div (wrap w (s << 1)) (wrap w (tmp << 1))
      else Some (s, tmp)
  end.

(** The loop that subtracts; the result is the quotient and the remainder. *)
Fixpoint moddiv_loop (fuel : nat) (div s tmp i : Z) : option (Z * Z) :=
  match fuel with
  | O => None
  | S fuel =>
      let '(div, i) := if s <=? div then (wrap w (div - s), i .| tmp) else (div, i) in
      if div =? 0 then Some (i, div)
      else
        let tmp := tmp >> 1 in
        if tmp =? 0 then Some (i, div) else moddiv_loop fuel div (s >> 1) tmp i
  end.

Definition moddiv (fuel : nat) (div s : Z) : option (Z * Z) :=
  if s =? 0 then Some (0, 0)
  else if div <? s then Some (0, div)
  else match moddiv_shift fuel div s 1 with
       | Some (s, tmp) => moddiv_loop fuel div s tmp 0
       | None => None
       end.
End moddiv.

Definition ullmoddiv (div s : Z) : option (Z * Z) := moddiv 64 64 div s.
Definition umoddiv (div s : Z) : option (Z * Z) := moddiv 32 32 div s.
Definition __udivdi3 (div s : Z) : option Z := fst <$> ullmoddiv div s.
Definition __umoddi3 (div s : Z) : option Z := snd <$> ullmoddiv div s.

(** The value stored through [r], when [r] is not null, and the result. *)
Definition __udivmoddi4 (div s : Z) (r : bool) : option (option Z * Z) :=
  match ullmoddiv div s with
  | Some (d, m) => Some (if r then Some m else None, d)
  | None => None
  end.

(** * Shifts *)

(** [llval_t]: the high half is signed, the low half is not. *)
Record llval := { high : Z; low : Z }.
Definition of_ll (v : Z) : llval := {| high := v >> 32; low := wrap 32 v |}.
Definition to_ll (v : llval) : Z := (high v << 32) + low v.

Definition __ashldi3 (val bits : Z) : Z :=
  if 64 <=? bits then 0
  else
    let v := of_ll val in
    to_ll (if 32 <=? bits then {| high := to_signed 32 (low v << (bits - 32)); low := 0 |}
           else if negb (bits =? 0) then
             {| high := to_signed 32 ((high v << bits) .| (low v >> (32 - bits))); low := wrap 32 (low v << bits) |}
           else v).

Definition __ashrdi3 (val bits : Z) : Z :=
  if 64 <=? bits then if val <? 0 then to_signed 64 0xffffffffffffffff else 0
  else
    let v := of_ll val in
    to_ll (if 32 <=? bits then {| high := high v >> 31; low := wrap 32 (high v >> (bits - 32)) |}
           else if negb (bits =? 0) then
             {| high := high v >> bits; low := wrap 32 ((high v << (32 - bits)) .| (low v >> bits)) |}
           else v).

(** * Counting zeros *)

(** One [if] of [__ctzsi2] and of [__clzsi2]. *)
Definition ctz_half (mask n : Z) (x : Z * Z) : Z * Z :=
  let '(val, c) := x in if val .& mask =? 0 then (val >> n, c + n) else (val, c).
Definition clz_half (mask n : Z) (x : Z * Z) : Z * Z :=
  let '(val, c) := x in if val .& mask =? 0 then (wrap 32 (val << n), c + n) else (val, c).

Definition __ctzsi2 (val : Z) : Z :=
  if val =? 0 then 32
  else
    let x := (val, 0) in
    let x := ctz_half 0xffff 16 x in
    let x := ctz_half 0xff 8 x in
    let x := ctz_half 0xf 4 x in
    let '(val, c) := ctz_half 0x3 2 x in
    if val .& 0x1 =? 0 then c + 1 else c.

Definition __clzsi2 (val : Z) : Z :=
  if val =? 0 then 32
  else
    let x := (val, 0) in
    let x := clz_half 0xffff0000 16 x in
    let x := clz_half 0xff000000 8 x in
    let x := clz_half 0xf0000000 4 x in
    let '(val, c) := clz_half 0xc0000000 2 x in
    if val .& 0x80000000 =? 0 then c + 1 else c.

(** The variants for [unsigned long], whose width is that of the machine. *)
Definition __ctzdi2 `{Arch} (val : Z) : Z :=
  let c := __ctzsi2 (val .& 0xffffffff) in
  if MWORD_BITS =? 64 then if c =? 32 then c + __ctzsi2 (val >> 32) else c else c.

Definition __clzdi2 `{Arch} (val : Z) : Z :=
  if MWORD_BITS =? 64 then
    let c := __clzsi2 (val >> 32) in
    if c =? 32 then c + __clzsi2 (val .& 0xffffffff) else c
  else __clzsi2 (val .& 0xffffffff).

(** [__ffssi2] and [__ffsdi2]: [i] counts from one. *)
Fixpoint ffs_loop (n : nat) (i val : Z) : Z :=
  match n with
  | O => 0
  | S n => if Z.testbit val 0 then i else ffs_loop n (i + 1) (val >> 1)
  end.

Definition __ffssi2 (val : Z) : Z := ffs_loop 32 1 val.
Definition __ffsdi2 `{Arch} (val : Z) : Z := ffs_loop (Z.to_nat MWORD_BITS) 1 val.

(** * Division: proofs *)

Section moddiv_proofs.
Context (w : Z) (Hw : 0 < w).

Lemma top_bit x : in_range w x -> Z.testbit x (w - 1) = (2 ^ (w - 1) <=? x).
Proof using Hw.
  intros [Hl Hh]. assert (2 ^ w = 2 * 2 ^ (w - 1)) as E by (rewrite <- Z.pow_succ_r by lia; f_equal; lia).
  assert (0 < 2 ^ (w - 1)) by (apply pow2_pos; lia).
  rewrite Z.testbit_eqb by lia. destruct (Z.leb_spec (2 ^ (w - 1)) x) as [H1 | H1].
  - assert (x / 2 ^ (w - 1) = 1) as -> by (symmetry; apply Z.div_unique with (x - 2 ^ (w - 1)); lia). done.
  - by rewrite Z.div_small by lia.
Qed.

Lemma pow2_succ k : 0 <= k -> 2 ^ (k + 1) = 2 * 2 ^ k.
Proof using. intros. rewrite Z.pow_add_r by lia. lia. Qed.

Lemma moddiv_shift_ok fuel D s0 k :
  in_range w D -> 0 < s0 <= D -> 0 <= k -> s0 * 2 ^ k < 2 ^ w -> w - k <= Z.of_nat fuel ->
  exists k', 0 <= k' < w /\ s0 * 2 ^ k' < 2 ^ w /\ D < 2 * (s0 * 2 ^ k') /\
             moddiv_shift w fuel D (s0 * 2 ^ k) (2 ^ k) = Some (s0 * 2 ^ k', 2 ^ k').
Proof using Hw.
  intros HD Hs. revert k. induction fuel as [| fuel IH]; intros k Hk Hb Hf.
  all: assert (0 < 2 ^ k) by (by apply pow2_pos).
  all: assert (k < w) by (apply (Z.pow_lt_mono_r_iff 2); nia).
  { lia. }
  cbn [moddiv_shift]. rewrite top_bit by (split; nia).
  assert (2 ^ w = 2 * 2 ^ (w - 1)) as E by (rewrite <- pow2_succ by lia; f_equal; lia).
  destruct (Z.leb_spec (2 ^ (w - 1)) (s0 * 2 ^ k)) as [H1 | H1]; cbn [negb andb].
  { exists k. split_and!; try lia; try done. unfold in_range in HD. lia. }
  destruct (Z.ltb_spec (s0 * 2 ^ k) D) as [H2 | H2].
  2: { exists k. split_and!; try lia; try done. }
  rewrite !Z.shiftl_mul_pow2 by lia.
  assert (s0 * 2 ^ k * 2 ^ 1 = s0 * 2 ^ (k + 1)) as -> by (rewrite pow2_succ by lia; lia).
  assert (2 ^ k * 2 ^ 1 = 2 ^ (k + 1)) as -> by (rewrite pow2_succ by lia; lia).
  rewrite !wrap_small by (split; rewrite pow2_succ by lia; nia).
  apply IH; [lia | rewrite pow2_succ by lia; lia | lia].
Qed.

Lemma lor_pow2 k m : 0 <= k -> (m * 2 ^ (k + 1)) .| 2 ^ k = m * 2 ^ (k + 1) + 2 ^ k.
Proof using.
  intros Hk. rewrite (Z.add_nocarry_lxor (m * _)), Z.lxor_lor; [done | |].
  all: apply Z.bits_inj'; intros n Hn; rewrite Z.land_spec, Z.bits_0, Z.mul_pow2_bits by lia.
  all: destruct (Z.eqb_spec n k) as [-> | Hne]; [by rewrite Z.testbit_neg_r by lia |].
  all: rewrite (Z.pow2_bits_false k n) by lia; apply andb_false_r.
Qed.

Lemma moddiv_loop_ok fuel D s0 k m d :
  in_range w D -> 0 < s0 -> 0 <= k -> s0 * 2 ^ k < 2 ^ w -> 0 <= d < 2 * (s0 * 2 ^ k) -> d <= D ->
  D = m * 2 ^ (k + 1) * s0 + d -> 0 <= m -> k < Z.of_nat fuel ->
  moddiv_loop w fuel d (s0 * 2 ^ k) (2 ^ k) (m * 2 ^ (k + 1)) = Some (D / s0, D mod s0).
Proof using Hw.
  intros HD Hs. revert k m d. induction fuel as [| fuel IH]; intros k m d Hk Hb Hd HdD Hm Hm0 Hf; [lia |].
  assert (0 < 2 ^ k) by (by apply pow2_pos).
  assert (exists d' i', (if s0 * 2 ^ k <=? d then (wrap w (d - s0 * 2 ^ k), (m * 2 ^ (k + 1)) .| 2 ^ k) else (d, m * 2 ^ (k + 1)))
            = (d', i' * 2 ^ k) /\ 0 <= d' < s0 * 2 ^ k /\ d' <= D /\ D = i' * 2 ^ k * s0 + d' /\ 0 <= i') as (d' & i' & E & Hd' & HdD' & Hi & Hi0).
  { rewrite lor_pow2, pow2_succ in * by lia. destruct (Z.leb_spec (s0 * 2 ^ k) d).
    - exists (d - s0 * 2 ^ k), (2 * m + 1). rewrite wrap_small by (unfold in_range in *; nia). split_and!; try nia. f_equal. lia.
    - exists d, (2 * m). split_and!; try nia. f_equal. lia. }
  cbn [moddiv_loop]. rewrite E.
  destruct (Z.eqb_spec d' 0) as [-> | Hnz].
  { f_equal. f_equal; [apply Z.div_unique with 0 | apply Z.mod_unique with (i' * 2 ^ k)]; lia. }
  rewrite !Z.shiftr_div_pow2, !Z.pow_1_r by lia.
  destruct (decide (k = 0)) as [-> | Hk0].
  { rewrite Z.pow_0_r in *. change (1 / 2 =? 0) with true. cbn iota.
    f_equal. f_equal; [apply Z.div_unique with d' | apply Z.mod_unique with (i' * 1)]; lia. }
  assert (2 ^ k = 2 * 2 ^ (k - 1)) as Ek by (rewrite <- pow2_succ by lia; f_equal; lia).
  assert (0 < 2 ^ (k - 1)) by (apply pow2_pos; lia).
  assert (2 ^ k / 2 = 2 ^ (k - 1)) as -> by (symmetry; apply Z.div_unique with 0; lia).
  assert (s0 * 2 ^ k / 2 = s0 * 2 ^ (k - 1)) as -> by (symmetry; apply Z.div_unique with 0; nia).
  destruct (Z.eqb_spec (2 ^ (k - 1)) 0); [lia |].
  replace (i' * 2 ^ k) with (i' * 2 ^ (k - 1 + 1)) by (do 2 f_equal; lia).
  apply IH; try lia; try nia. replace (k - 1 + 1) with k by lia. lia.
Qed.

Lemma moddiv_ok D s :
  in_range w D -> in_range w s ->
  moddiv w (Z.to_nat w) D s = Some (if s =? 0 then (0, 0) else (D / s, D mod s)).
Proof using Hw.
  intros HD Hs. unfold moddiv. destruct (Z.eqb_spec s 0) as [-> | Hs0]; [done |].
  unfold in_range in Hs. destruct (Z.ltb_spec D s) as [Hlt | Hge].
  { unfold in_range in HD. rewrite Z.div_small, Z.mod_small by lia. done. }
  destruct (moddiv_shift_ok (Z.to_nat w) D s 0) as (k & Hk & Hb & HD2 & E); try lia; [done |].
  rewrite Z.pow_0_r, Z.mul_1_r in E. rewrite E.
  apply (moddiv_loop_ok (Z.to_nat w) D s k 0 D); unfold in_range in *; try lia; done.
Qed.
End moddiv_proofs.

(** C19: The division routines end within as many turns as the type has bits and
    give quotient and remainder, for all operands of 64 and of 32 bits; division
    by zero gives zero for both. *)
Theorem ullmoddiv_correct D s :
  (in_range 64 D -> in_range 64 s ->
     ullmoddiv D s = Some (if s =? 0 then (0, 0) else (D / s, D mod s)) /\
     __udivdi3 D s = Some (if s =? 0 then 0 else D / s) /\
     __umoddi3 D s = Some (if s =? 0 then 0 else D mod s) /\
     (forall r, __udivmoddi4 D s r = Some (if r then Some (if s =? 0 then 0 else D mod s) else None, if s =? 0 then 0 else D / s))) /\
  (in_range 32 D -> in_range 32 s -> umoddiv D s = Some (if s =? 0 then (0, 0) else (D / s, D mod s))).
Proof.
  split; intros HD Hs; [| exact (moddiv_ok 32 eq_refl D s HD Hs)].
  assert (ullmoddiv D s = Some (if s =? 0 then (0, 0) else (D / s, D mod s))) as E by exact (moddiv_ok 64 eq_refl D s HD Hs).
  unfold __udivdi3, __umoddi3, __udivmoddi4. rewrite E. by destruct (s =? 0).
Qed.

Lemma ullmoddiv_correct_witness :
  in_range 64 (2 ^ 64 - 1) /\ ullmoddiv (2 ^ 64 - 1) 10 = Some (1844674407370955161, 5) /\
  umoddiv (2 ^ 32 - 1) 10 = Some (429496729, 5).
Proof.
  split; [by split |]. split.
  - by apply (ullmoddiv_correct (2 ^ 64 - 1) 10).
  - by apply (ullmoddiv_correct (2 ^ 32 - 1) 10).
Defined.

(** * Shifts: proofs *)

Lemma testbit_to_ll v n :
  in_range 32 (low v) -> 0 <= n ->
  Z.testbit (to_ll v) n = if n <? 32 then Z.testbit (low v) n else Z.testbit (high v) (n - 32).
Proof.
  intros Hl Hn. unfold to_ll.
  rewrite Z.add_nocarry_lxor, Z.lxor_lor; [| bits_ext..]. bits_simp; bits_close.
Qed.

(** The shift of a signed number to the left is that of its pattern, so the
    sign of the result is that of bit 63 after the shift. *)
Theorem ashldi3_correct val bits :
  - 2 ^ 63 <= val < 2 ^ 63 -> 0 <= bits -> __ashldi3 val bits = to_signed 64 (val << bits).
Proof.
  intros Hv Hb. unfold __ashldi3, of_ll. cbn [high low]. cbn zeta.
  destruct (Z.leb_spec 64 bits).
  { symmetry. apply to_signed_unique; [lia.. |]. rewrite Zmod_0_l. symmetry.
    apply Z.bits_inj'. intros n Hn. fold (wrap 64 (val << bits)). bits_simp; bits_close. }
  apply Z.bits_inj'. intros n Hn. rewrite testbit_to_signed by lia.
  destruct (Z.leb_spec 32 bits); [| destruct (Z.eqb_spec bits 0) as [-> |]; cbn [negb]].
  all: rewrite testbit_to_ll; cbn [high low]; [| try (by apply wrap_range) |]; try done.
  all: bits_simp; rewrite ?testbit_to_signed by lia; bits_simp; try bits_close.
  rewrite !(testbit_sign 63) by lia. done.
Qed.

(** The sign is shifted in at the top, whatever the distance. *)
Theorem ashrdi3_correct val bits :
  - 2 ^ 63 <= val < 2 ^ 63 -> 0 <= bits -> __ashrdi3 val bits = val >> bits.
Proof.
  intros Hv Hb. unfold __ashrdi3, of_ll. cbn [high low]. cbn zeta.
  assert (forall n, 63 <= n -> Z.testbit val n = (val <? 0)) as Hs by (intros; apply (testbit_sign 63); lia).
  destruct (Z.leb_spec 64 bits).
  { apply Z.bits_inj'. intros n Hn. rewrite Z.shiftr_spec, Hs by lia.
    destruct (Z.ltb_spec val 0); [change (to_signed 64 _) with (-1); by rewrite Z.bits_m1 | apply Z.bits_0]. }
  apply Z.bits_inj'. intros n Hn.
  destruct (Z.leb_spec 32 bits); [| destruct (Z.eqb_spec bits 0) as [-> |]; cbn [negb]].
  all: rewrite testbit_to_ll; cbn [high low]; [| try (by apply wrap_range) |]; try done.
  all: bits_simp; try bits_close.
  rewrite !Hs by lia. done.
Qed.

(** * Counting zeros: proofs *)

(** Bit [n] is the least one of [val] that is set. *)
Definition lowest_bit (val n : Z) : Prop :=
  0 <= n /\ Z.testbit val n = true /\ (forall m, 0 <= m < n -> Z.testbit val m = false).

Lemma lowest_bit_scale v k c : 0 <= c -> lowest_bit v k -> lowest_bit (v * 2 ^ c) (k + c).
Proof.
  intros Hc (Hk & Hb & Hlow). split_and!; [lia | |].
  - rewrite Z.mul_pow2_bits by lia. by rewrite Z.add_simpl_r.
  - intros m Hm. rewrite Z.mul_pow2_bits by lia. destruct (Z.lt_ge_cases m c); [apply Z.testbit_neg_r; lia |].
    apply Hlow. lia.
Qed.

Lemma lowest_bit_odd v c : 0 <= c -> v mod 2 <> 0 -> lowest_bit (v * 2 ^ c) c.
Proof.
  intros Hc H. apply (lowest_bit_scale v 0); [done |]. split_and!; [done | | lia].
  rewrite <- Z.bit0_mod in H. by destruct (Z.testbit v 0).
Qed.

(** After a step of the bisection the shifted value is [val] without [c] zeros
    and has a bit set among its [n] lowest ones. *)
Definition ctz_inv (val n : Z) (x : Z * Z) : Prop := x.1 * 2 ^ x.2 = val /\ 0 <= x.2 /\ x.1 mod 2 ^ n <> 0.

Lemma ctz_half_ok val n x :
  0 <= n -> ctz_inv val (n + n) x -> ctz_inv val n (ctz_half (Z.ones n) n x).
Proof.
  destruct x as [v c]. intros Hn (Hx & Hc & Hm). unfold ctz_inv, ctz_half. cbn [fst snd] in *.
  rewrite Z.land_ones by lia. assert (0 < 2 ^ n) by (by apply pow2_pos).
  destruct (Z.eqb_spec (v mod 2 ^ n) 0) as [E |]; [| done]. cbn [fst snd].
  assert (v = 2 ^ n * (v / 2 ^ n)) as Hv by (rewrite (Z.div_mod v (2 ^ n)) at 1 by lia; lia).
  rewrite Z.shiftr_div_pow2 by lia. split_and!; [| lia |].
  - rewrite <- Hx, Z.pow_add_r by lia. nia.
  - intros E2. apply Hm. rewrite Z.pow_add_r, Hv, Z.mul_mod_distr_l by lia. rewrite E2. lia.
Qed.

Lemma ctzsi2_ok val : in_range 32 val -> val <> 0 -> lowest_bit val (__ctzsi2 val) /\ __ctzsi2 val < 32.
Proof.
  intros [Hl Hh] Hnz. unfold __ctzsi2. destruct (Z.eqb_spec val 0); [done |]. cbn zeta.
  assert (ctz_inv val (16 + 16) (val, 0)) as H.
  { unfold ctz_inv. cbn [fst snd]. rewrite Z.mod_small by lia. lia. }
  apply ctz_half_ok, (ctz_half_ok val 8), (ctz_half_ok val 4), (ctz_half_ok val 2) in H; [| done..].
  change (Z.ones 16) with 0xffff in H. change (Z.ones 8) with 0xff in H.
  change (Z.ones 4) with 0xf in H. change (Z.ones 2) with 0x3 in H.
  destruct (ctz_half 0x3 2 _) as [v c]. destruct H as (Hx & Hc & Hm). cbn [fst snd] in *.
  assert (lowest_bit val (if v .& 1 =? 0 then c + 1 else c)) as Hlow.
  { change 1 with (Z.ones 1) at 1. rewrite Z.land_ones by lia. change (2 ^ 2) with 4 in Hm. change (2 ^ 1) with 2.
    destruct (Z.eqb_spec (v mod 2) 0).
    - assert (val = v / 2 * 2 ^ (c + 1)) as ->.
      { rewrite pow2_succ by lia. rewrite <- Hx. pose proof (Z.div_mod v 2). nia. }
      apply lowest_bit_odd; [lia | clear -e Hm; Z.to_euclidean_division_equations; lia].
    - rewrite <- Hx. apply lowest_bit_odd; [lia | lia]. }
  split; [done |]. destruct Hlow as (? & Hb & _).
  destruct (Z.lt_ge_cases (if v .& 1 =? 0 then c + 1 else c) 32) as [? | Hge]; [done |].
  rewrite (testbit_high 32) in Hb; [done | done | lia].
Qed.

(** After a step of the other bisection the value is [val] shifted by [c] and
    has a bit set among its [n] highest ones of 32. *)
Definition clz_inv (val n : Z) (x : Z * Z) : Prop := x.1 = val * 2 ^ x.2 /\ 0 <= x.2 /\ 2 ^ (32 - n) <= x.1 < 2 ^ 32.

Lemma clz_mask v n : in_range 32 v -> 0 <= n <= 32 -> (v .& (Z.ones n << (32 - n)) =? 0) = (v <? 2 ^ (32 - n)).
Proof.
  intros Hv Hn. assert (v .& (Z.ones n << (32 - n)) = (v >> (32 - n)) << (32 - n)) as -> by bits_ext.
  rewrite Z.shiftl_mul_pow2, Z.shiftr_div_pow2 by lia. assert (0 < 2 ^ (32 - n)) by (apply pow2_pos; lia).
  unfold in_range in Hv. destruct (Z.ltb_spec v (2 ^ (32 - n))).
  - by rewrite Z.div_small by lia.
  - assert (1 <= v / 2 ^ (32 - n)) by (apply Z.div_le_lower_bound; lia). apply Z.eqb_neq. nia.
Qed.

Lemma clz_half_ok val n x mask :
  0 <= n -> n + n <= 32 -> mask = Z.ones n << (32 - n) -> clz_inv val (n + n) x -> clz_inv val n (clz_half mask n x).
Proof.
  destruct x as [v c]. intros Hn Hn2 -> (Hx & Hc & Hv). unfold clz_inv, clz_half. cbn [fst snd] in *.
  assert (0 < 2 ^ (32 - (n + n))) by (apply pow2_pos; lia). assert (0 < 2 ^ n) by (apply pow2_pos; lia).
  rewrite clz_mask by (unfold in_range; lia). destruct (Z.ltb_spec v (2 ^ (32 - n))) as [Hlt | Hge]; cbn [fst snd].
  2: { split_and!; try lia. }
  assert (2 ^ 32 = 2 ^ (32 - n) * 2 ^ n) as E by (rewrite <- Z.pow_add_r by lia; f_equal; lia).
  assert (2 ^ (32 - n) = 2 ^ (32 - (n + n)) * 2 ^ n) as E2 by (rewrite <- Z.pow_add_r by lia; f_equal; lia).
  rewrite Z.shiftl_mul_pow2 by lia. rewrite wrap_small by (split; nia). split_and!; [| lia | nia | nia].
  rewrite Hx, Z.pow_add_r by lia. lia.
Qed.

Lemma clzsi2_ok val : in_range 32 val -> val <> 0 -> __clzsi2 val = 31 - Z.log2 val.
Proof.
  intros [Hl Hh] Hnz. unfold __clzsi2. destruct (Z.eqb_spec val 0); [done |]. cbn zeta.
  assert (clz_inv val (16 + 16) (val, 0)) as H by (unfold clz_inv; cbn [fst snd]; lia).
  apply (clz_half_ok val 16 _ 0xffff0000), (clz_half_ok val 8 _ 0xff000000), (clz_half_ok val 4 _ 0xf0000000),
    (clz_half_ok val 2 _ 0xc0000000) in H; [| done..].
  destruct (clz_half 0xc0000000 2 _) as [v c]. destruct H as (Hx & Hc & Hv). cbn [fst snd] in *.
  change 0x80000000 with (Z.ones 1 << (32 - 1)). rewrite (clz_mask v 1) by (unfold in_range; lia). change (2 ^ (32 - 2)) with (2 ^ 30) in Hv.
  assert (forall c', 2 ^ 31 <= val * 2 ^ c' < 2 ^ 32 -> 0 <= c' -> c' = 31 - Z.log2 val) as Hlog.
  { intros c' Hr Hc'. assert (Z.log2 (val * 2 ^ c') = 31) as E by (apply Z.log2_unique; lia).
    rewrite Z.log2_mul_pow2 in E by lia. lia. }
  change (2 ^ (32 - 1)) with (2 ^ 31). destruct (Z.ltb_spec v (2 ^ 31)); apply Hlog; try lia.
  all: rewrite pow2_succ; lia.
Qed.

Lemma ffs_loop_zero n i : ffs_loop n i 0 = 0.
Proof. revert i. induction n as [| n IH]; intros i; cbn [ffs_loop]; [done |]. rewrite Z.bits_0. apply IH. Qed.

Lemma ffs_loop_ok n i val k : lowest_bit val k -> k < Z.of_nat n -> ffs_loop n i val = i + k.
Proof.
  revert i val k. induction n as [| n IH]; intros i val k (Hk & Hb & Hlow) Hn; [lia |]. cbn [ffs_loop].
  destruct (decide (k = 0)) as [-> |]; [by rewrite Hb, Z.add_0_r |].
  rewrite Hlow by lia. rewrite (IH (i + 1) (val >> 1) (k - 1)); [lia | | lia]. split_and!; [lia | |].
  - rewrite Z.shiftr_spec by lia. by replace (k - 1 + 1) with k by lia.
  - intros m Hm. rewrite Z.shiftr_spec by lia. apply Hlow. lia.
Qed.

(** The two halves of a word of 64 bits. *)
Lemma halves val :
  in_range 64 val ->
  in_range 32 (val .& 0xffffffff) /\ in_range 32 (val >> 32) /\ val = (val >> 32) * 2 ^ 32 + (val .& 0xffffffff).
Proof.
  intros Hv. change 0xffffffff with (Z.ones 32). rewrite Z.land_ones, Z.shiftr_div_pow2 by lia.
  pose proof (Z.mod_pos_bound val (2 ^ 32)). pose proof (Z.div_mod val (2 ^ 32)). unfold in_range in *.
  split_and!; lia.
Qed.

Lemma land_low32 val : in_range 32 val -> val .& 0xffffffff = val.
Proof. intros Hv. change 0xffffffff with (Z.ones 32). rewrite Z.land_ones by lia. by apply Z.mod_small. Qed.

Lemma ctzdi2_ok `{Arch} val : is_mword val -> val <> 0 -> lowest_bit val (__ctzdi2 val) /\ __ctzdi2 val < MWORD_BITS.
Proof.
  unfold __ctzdi2. cbn zeta. intros Hv Hnz. destruct MWORD_BITS_ok as [E | E]; rewrite E in *; cbn [Z.eqb Pos.eqb].
  { rewrite land_low32 by done. by apply ctzsi2_ok. }
  destruct (halves val Hv) as (Hl & Hh & Hs). destruct (decide (val .& 0xffffffff = 0)) as [E0 | E0].
  - rewrite E0 in *. change (__ctzsi2 0) with 32. cbn [Z.eqb Pos.eqb].
    destruct (ctzsi2_ok (val >> 32) Hh) as (Hk & Hb); [lia |]. split; [| lia].
    rewrite Hs at 1. rewrite Z.add_0_r, Z.add_comm. by apply lowest_bit_scale.
  - destruct (ctzsi2_ok _ Hl E0) as ((Hk & Hb & Hlow) & Hlt).
    destruct (Z.eqb_spec (__ctzsi2 (val .& 0xffffffff)) 32); [lia |]. split; [| lia].
    assert (forall m, 0 <= m < 32 -> Z.testbit (val .& 0xffffffff) m = Z.testbit val m) as Ht.
    { intros m Hm. change 0xffffffff with (Z.ones 32). bits_simp; bits_close. }
    split_and!; [done | by rewrite <- Ht by lia |]. intros m Hm. rewrite <- Ht by lia. by apply Hlow.
Qed.

Lemma clzdi2_ok `{Arch} val : is_mword val -> val <> 0 -> __clzdi2 val = MWORD_BITS - 1 - Z.log2 val.
Proof.
  unfold __clzdi2. cbn zeta. intros Hv Hnz. destruct MWORD_BITS_ok as [E | E]; rewrite E in *; cbn [Z.eqb Pos.eqb].
  { rewrite land_low32 by done. by apply clzsi2_ok. }
  destruct (halves val Hv) as (Hl & Hh & Hs). unfold in_range in *. destruct (decide (val >> 32 = 0)) as [E0 | E0].
  - rewrite E0 in *. change (__clzsi2 0) with 32. cbn [Z.eqb Pos.eqb]. rewrite Z.mul_0_l, Z.add_0_l in Hs.
    rewrite <- Hs. rewrite clzsi2_ok by (unfold in_range; lia). lia.
  - rewrite clzsi2_ok by done. assert (Z.log2 (val >> 32) = Z.log2 val - 32) as ->.
    { assert (32 <= Z.log2 val) by (apply Z.log2_le_pow2; lia). rewrite Z.log2_shiftr by lia. lia. }
    assert (32 <= Z.log2 val) by (apply Z.log2_le_pow2; lia).
    destruct (Z.eqb_spec (31 - (Z.log2 val - 32)) 32); lia.
Qed.

(** Counting the trailing zeros of a machine word gives the position of its
    lowest set bit, counting the leading ones the distance of the highest set
    bit from the top, and the first set bit is numbered from one; without a set
    bit the counts are the width and zero.  The variants for 32 bits agree. *)
Theorem bit_counts_correct `{Arch} val :
  is_mword val ->
  (val = 0 -> __ctzdi2 val = MWORD_BITS /\ __clzdi2 val = MWORD_BITS /\ __ffsdi2 val = 0) /\
  (val <> 0 -> lowest_bit val (__ctzdi2 val) /\ __ffsdi2 val = __ctzdi2 val + 1 /\
               __clzdi2 val = MWORD_BITS - 1 - Z.log2 val) /\
  (in_range 32 val -> val <> 0 ->
     lowest_bit val (__ctzsi2 val) /\ __ffssi2 val = __ctzsi2 val + 1 /\ __clzsi2 val = 31 - Z.log2 val).
Proof.
  intros Hv. pose proof arch_pos as Hw. split_and!.
  - intros ->. unfold __ctzdi2, __clzdi2, __ffsdi2. rewrite ffs_loop_zero.
    destruct MWORD_BITS_ok as [-> | ->]; done.
  - intros Hnz. destruct (ctzdi2_ok val Hv Hnz) as [Hlow Hlt]. split_and!; [done | | by apply clzdi2_ok].
    unfold __ffsdi2. rewrite (ffs_loop_ok _ _ _ _ Hlow) by lia. lia.
  - intros Hr Hnz. destruct (ctzsi2_ok val Hr Hnz) as [Hlow Hlt]. split_and!; [done | | by apply clzsi2_ok].
    unfold __ffssi2. rewrite (ffs_loop_ok _ _ _ _ Hlow) by lia. lia.
Qed.

Lemma bit_counts_correct_witness :
  let _ := arch64 in
  in_range 64 (0x50 << 32) /\ lowest_bit (0x50 << 32) (__ctzdi2 (0x50 << 32)) /\ __ctzdi2 (0x50 << 32) = 36.
Proof.
  cbn zeta. split; [by split |]. split; [| by vm_compute].
  apply (@bit_counts_correct arch64 (0x50 << 32)); [by split | done].
Defined.
