(* ===== verification/Gate.v ===== *)
(** IPC gates ([src/src/kern/ipc_gate.h] and [ipc_gate.cc]).

    A gate passes messages on to a thread or a wait queue, its target, with a
    label.  A gate without target keeps senders waiting in a queue until it is
    bound or deleted.  Contexts of all CPUs invoke, bind and delete the gate at
    the same time: every access to the words of the gate, to its queue (which has
    a lock), to the reference counter of a target and to the state word of a
    thread is a step.  [L_destroy] stands for the removal of the last capability
    of the gate, with which [Kobject::Reap_list::del] begins, and the deletion of
    a target follows the same protocol.

    Memory that has been freed is marked, and a step that uses it raises a fault
    and does nothing else.  A context is in a section, which a grace period of
    RCU waits for, from the lookup of a capability until it sleeps or is done,
    because interrupts are disabled; [passed] counts the sections that it has
    left.  What [rcu_wait] waits for is proved of the implementation in
    [RcuSafety].

    Left out: receiving through a gate, which does not concern the gate, and
    what the target does with the message ([Ipc]). *)

From stdpp Require Import functions.
From S2P Require Import Prelude L4Types Ipc Irq.
Import Thread_state.

(** * Data *)

(** What the casts in [bind_target] find. *)
Inductive kind := Kind_thread | Kind_wait_queue | Kind_other.
#[export] Instance kind_eq_dec : EqDecision kind.
Proof. solve_decision. Defined.

(** The class of the object in [_gate_storage]. *)
Inductive gate_type := Unbound | Bound | Dispatch | Destruct.
#[export] Instance gate_type_eq_dec : EqDecision gate_type.
Proof. solve_decision. Defined.

(** Results of system calls; [Gone]: the capability is not valid any more. *)
Inductive result := Sent | Not_existent | Timeout | Canceled | EInval | Gone | Bound_ok | Deleted.

(** The calls of [unblock_all]: two of a bind, the one in [destroy] and the one
    in the destructor. *)
Inductive stage := Bind_first | Bind_second | Destroy_first | Destroy_last.

(** Contexts in sections at the beginning of [rcu_wait], each with the number of
    sections it had left. *)
Definition snapshot : Type := list (Z * nat).

Inductive pc :=
  | User
  | Ret (r : result)
  (* invocation *)
  | Invoke                      (** before the call of [gate()->invoke] *)
  | Load                        (** bound: before the load of [_tgt] *)
  | Have_target (o : Z)         (** before the load of [_id] *)
  | Send (o label : Z)          (** before [do_send_ipc] *)
  | Block                       (** not bound: in [block], before [sender_enqueue] *)
  | Enqueued (tval : Z)         (** before [change_dirty] *)
  | Arm (tval : Z)              (** before the timeout is set *)
  | Wait                        (** in [schedule] *)
  | Woken                       (** before [state.change] *)
  | Dequeue (state : Z)         (** before the test in [sender_dequeue] *)
  | Dequeue_lock (state : Z)    (** in [Prio_list::dequeue], before the lock *)
  | Reenter
  (* bind *)
  | Bind_target (o id : Z)
  | Retype_test (o id : Z)      (** before the first test of [can_retype] *)
  | Retype_lock (o id : Z)      (** before the lock *)
  | Retype_ref (o id : Z) | Retype_id (o id : Z) | Retype_tgt (o : Z) | Retype_construct (o : Z)
  | Retarget_test (o id : Z)    (** before the comparison of types *)
  | Retarget_ref (o id : Z) | Retarget_id (o id : Z) | Retarget_exchange (o : Z) | Retarget_del (o : Z)
  (* [unblock_all] *)
  | Unblock (g : stage)         (** before [dequeue_first] *)
  | Wake_cancel (w : Z) (g : stage)
  | Wake (w : Z) (g : stage)    (** before [activate] *)
  | Rcu (l : snapshot) (g : stage)
  (* deletion of the gate *)
  | Destroy_notify | Destroy_hit (o : Z) | Destroy_load | Destroy_store (o : Z) | Destroy_del (o : Z) | Destroy_retype
  (* deletion of a target *)
  | Target_rcu (l : snapshot) (o : Z).

Record thread := mk_thread {
  st : Z;
  timeout_q : timer;
  at_ : pc;
  rights : Z;
  snd_to : timeout;
  passed : nat }.

(** [Inner_gate], with the lock of the queue. *)
Record gate := mk_gate {
  type : gate_type;
  _tgt : option Z;
  _id : Z;
  qlock : option Z;
  _wait_q : list Z;
  freed : bool }.

(** A target: its counter, whether it still has capabilities and its own
    reference, whether its memory has been freed. *)
Record object := mk_object { ref_cnt : Z; obj_valid : bool; own : bool; gone : bool }.

(** [valid]: the gate has capabilities.  [sent] lists what senders have passed on:
    sender, target and label. *)
Record state := mk {
  gt : gate;
  valid : bool;
  objs : Z -> object;
  threads : Z -> thread;
  clock : Z;
  sent : list (Z * Z * Z);
  fault : bool }.

Definition set_at (p : pc) (x : thread) : thread := mk_thread (st x) (timeout_q x) p (rights x) (snd_to x) (passed x).
Definition set_st (f : Z -> Z) (x : thread) : thread :=
  mk_thread (f (st x)) (timeout_q x) (at_ x) (rights x) (snd_to x) (passed x).
Definition set_timer (q : timer) (x : thread) : thread := mk_thread (st x) q (at_ x) (rights x) (snd_to x) (passed x).
Definition leave (x : thread) : thread :=
  mk_thread (st x) (timeout_q x) (at_ x) (rights x) (snd_to x) (S (passed x)).

Definition on_thread (t : Z) (f : thread -> thread) (s : state) : state :=
  mk (gt s) (valid s) (objs s) (<[t := f (threads s t)]> (threads s)) (clock s) (sent s) (fault s).
Definition on_obj (o : Z) (f : object -> object) (s : state) : state :=
  mk (gt s) (valid s) (<[o := f (objs s o)]> (objs s)) (threads s) (clock s) (sent s) (fault s).
Definition on_gate (f : gate -> gate) (s : state) : state :=
  mk (f (gt s)) (valid s) (objs s) (threads s) (clock s) (sent s) (fault s).
Definition set_valid (v : bool) (s : state) : state :=
  mk (gt s) v (objs s) (threads s) (clock s) (sent s) (fault s).
Definition set_clock (c : Z) (s : state) : state :=
  mk (gt s) (valid s) (objs s) (threads s) c (sent s) (fault s).
Definition log (t o l : Z) (s : state) : state :=
  mk (gt s) (valid s) (objs s) (threads s) (clock s) (sent s ++ [(t, o, l)]) (fault s).
Definition raise (s : state) : state :=
  mk (gt s) (valid s) (objs s) (threads s) (clock s) (sent s) true.

Definition set_type (x : gate_type) (g : gate) : gate := mk_gate x (_tgt g) (_id g) (qlock g) (_wait_q g) (freed g).
Definition set_tgt (x : option Z) (g : gate) : gate := mk_gate (type g) x (_id g) (qlock g) (_wait_q g) (freed g).
Definition set_id (x : Z) (g : gate) : gate := mk_gate (type g) (_tgt g) x (qlock g) (_wait_q g) (freed g).
Definition set_lock (x : option Z) (g : gate) : gate := mk_gate (type g) (_tgt g) (_id g) x (_wait_q g) (freed g).
Definition set_queue (x : list Z) (g : gate) : gate := mk_gate (type g) (_tgt g) (_id g) (qlock g) x (freed g).
Definition set_freed (g : gate) : gate := mk_gate (type g) (_tgt g) (_id g) (qlock g) (_wait_q g) true.

(** Control of [t] moves to [p]; with [done] it leaves its section. *)
Definition go (t : Z) (p : pc) (s : state) : state := on_thread t (set_at p) s.
Definition done (t : Z) (p : pc) (s : state) : state := on_thread t (fun x => leave (set_at p x)) s.

(** Uses of memory that may have been freed. *)
Definition touch (k : state -> state) (s : state) : state := if freed (gt s) then raise s else k s.
Definition use (o : Z) (k : state -> state) (s : state) : state := if gone (objs s o) then raise s else k s.

(** Is the context in a section? *)
Definition section (p : pc) : bool :=
  match p with
  | Invoke | Load | Have_target _ | Send _ _ | Block | Enqueued _ | Arm _ | Woken | Dequeue _ | Dequeue_lock _
  | Bind_target _ _ | Retype_test _ _ | Retype_lock _ _ | Retype_ref _ _ | Retype_id _ _ | Retype_tgt _ | Retype_construct _
  | Retarget_test _ _ | Retarget_ref _ _ | Retarget_id _ _ | Retarget_exchange _ | Retarget_del _ => true
  | _ => false
  end.

(** * Operations *)

Section model.
(** The classes of the targets, the priorities of the threads, all contexts. *)
Context (kind_of : Z -> kind) (prio : Z -> Z) (ctxs : list Z).

(** ** Reference counters *)

Definition inc_ref (o : Z) : state -> state :=
  use o (on_obj o (fun x => mk_object (ref_cnt x + 1) (obj_valid x) (own x) (gone x))).

(** [dec_ref], and [delete] when the result is zero. *)
Definition release (o : Z) : state -> state :=
  use o (on_obj o (fun x => mk_object (ref_cnt x - 1) (obj_valid x) (own x) (ref_cnt x - 1 =? 0))).

(** ** RCU *)

Definition take_snapshot (s : state) : snapshot :=
  map (fun u => (u, passed (threads s u))) (filter (fun u => section (at_ (threads s u)) = true) ctxs).

(** Every context has left the section it was in. *)
Definition grace_over (s : state) (l : snapshot) : bool :=
  forallb (fun '(u, n) => bool_decide (n < passed (threads s u))%nat) l.

(** ** Invocation *)

(** [insert_dirty]: behind the threads of the same and of higher priorities. *)
Fixpoint insert_by_prio (t : Z) (q : list Z) : list Z :=
  match q with
  | [] => [t]
  | u :: q' => if prio u <? prio t then t :: q else u :: insert_by_prio t q'
  end.

(** [Ipc_gate::invoke]: the virtual call. *)
Definition invoke (t : Z) (s : state) : state :=
  touch (fun s => match type (gt s) with
                  | Unbound => go t Block s
                  | Bound | Dispatch => go t Load s
                  | Destruct => done t (Ret EInval) s
                  end) s.

(** [Ipc_gate_helper::invoke_generic] *)
Definition load_target (t : Z) (s : state) : state :=
  touch (fun s => match _tgt (gt s) with
                  | None => done t (Ret Not_existent) s
                  | Some o => go t (Have_target o) s
                  end) s.

Definition load_id (t o : Z) (s : state) : state :=
  touch (fun s => go t (Send o (_id (gt s) .| rights (threads s t))) s) s.

Definition do_send_ipc (t o l : Z) : state -> state :=
  use o (fun s => done t (Ret Sent) (log t o l s)).

(** [Ipc_gate_unbound::block] *)
Definition block (t : Z) (s : state) : state :=
  let to := snd_to (threads s t) in
  let tval := microsecs to (clock s) in
  if is_finite to && ((tval =? 0) || (tval <=? clock s)) then done t (Ret Timeout) s
  else touch (fun s => go t (Enqueued tval) (on_gate (fun g => set_queue (insert_by_prio t (_wait_q g)) g) s)) s.

Definition sleep (tval : Z) (x : thread) : thread :=
  leave (set_at Wait (if tval =? 0 then x else set_timer (Armed tval) x)).

(** What [block] returns, and what [invoke] makes of it. *)
Definition unblocked (f : Z) : pc :=
  if has Thread_timeout f then Ret Timeout
  else if has Thread_cancel f then Ret Canceled
  else Reenter.

Definition sender_dequeue (t f : Z) (s : state) : state :=
  if decide (t ∈ _wait_q (gt s)) then go t (Dequeue_lock f) s else done t (unblocked f) s.

Definition dequeue (t f : Z) (s : state) : state :=
  touch (fun s => done t (unblocked f) (on_gate (fun g => set_queue (filter (fun u => u <> t) (_wait_q g)) g) s)) s.

(** ** [bind_target] and [set_target] *)

Definition can_retype (s : state) : bool := bool_decide (type (gt s) = Unbound).
Definition gate_for (o : Z) : gate_type := match kind_of o with Kind_wait_queue => Dispatch | _ => Bound end.

Definition bind_target (t o id : Z) (s : state) : state :=
  match kind_of o with
  | Kind_other => done t (Ret EInval) s
  | _ => go t (Retype_test o id) s
  end.

Definition retype_test (t o id : Z) (s : state) : state :=
  touch (fun s => go t (if can_retype s then Retype_lock o id else Retarget_test o id) s) s.

Definition retype_lock (t o id : Z) (s : state) : state :=
  touch (fun s => if can_retype s then go t (Retype_ref o id) (on_gate (set_lock (Some t)) s)
                  else go t (Retarget_test o id) s) s.

(** The new gate is constructed and the lock released. *)
Definition retype_construct (t o : Z) (s : state) : state :=
  touch (fun s => go t (Unblock Bind_first) (on_gate (fun g => set_lock None (set_type (gate_for o) g)) s)) s.

Definition retarget_test (t o id : Z) (s : state) : state :=
  touch (fun s => if decide (type (gt s) = gate_for o) then go t (Retarget_ref o id) s else done t (Ret EInval) s) s.

(** [gate()->del(o)] *)
Definition del_target (o : Z) (s : state) : state :=
  match type (gt s) with Bound | Dispatch => release o s | _ => s end.

Definition retarget_exchange (t o : Z) (s : state) : state :=
  touch (fun s => match _tgt (gt s) with
                  | Some old => go t (Retarget_del old) (on_gate (set_tgt (Some o)) s)
                  | None => done t (Ret Bound_ok) (on_gate (set_tgt (Some o)) s)
                  end) s.

(** ** [unblock_all] *)

Definition aborts (g : stage) : bool := match g with Bind_first | Bind_second => false | _ => true end.

(** What follows when the queue is empty. *)
Definition unblocked_all (t : Z) (g : stage) (s : state) : state :=
  match g with
  | Bind_first | Destroy_first => go t (Rcu (take_snapshot s) g) s
  | Bind_second => done t (Ret Bound_ok) s
  | Destroy_last => done t (Ret Deleted) (on_gate set_freed s)
  end.

Definition dequeue_first (t : Z) (g : stage) (s : state) : state :=
  touch (fun s => match _wait_q (gt s) with
                  | [] => unblocked_all t g s
                  | w :: q => go t (if aborts g then Wake_cancel w g else Wake w g) (on_gate (set_queue q) s)
                  end) s.

Definition activate (w : Z) : state -> state := on_thread w (set_st (add Thread_ready)).
Definition cancel_wait (w : Z) : state -> state := on_thread w (set_st (change (Z.lnot Thread_send_wait) Thread_cancel)).

Definition after_grace (g : stage) : stage :=
  match g with Bind_first | Bind_second => Bind_second | _ => Destroy_last end.

(** ** [destroy] *)

Definition del_notify (t : Z) (s : state) : state :=
  touch (fun s => match type (gt s), _tgt (gt s) with
                  | (Bound | Dispatch), Some ep => go t (Destroy_hit ep) s
                  | _, _ => go t Destroy_load s
                  end) s.

Definition destroy_load (t : Z) (s : state) : state :=
  touch (fun s => match _tgt (gt s) with
                  | Some o => go t (Destroy_store o) s
                  | None => go t Destroy_retype s
                  end) s.

(** ** Steps of contexts *)

Definition lock_free (s : state) : bool := bool_decide (qlock (gt s) = None).
Definition locked (s : state) (k : state) : option state := if lock_free s then Some k else None.

(** The next step of a context; [None]: it waits. *)
Definition run (t : Z) (s : state) : option state :=
  let x := threads s t in
  match at_ x with
  | User | Ret _ => None
  | Invoke => Some (invoke t s)
  | Load => Some (load_target t s)
  | Have_target o => Some (load_id t o s)
  | Send o l => Some (do_send_ipc t o l s)
  | Block => locked s (block t s)
  | Enqueued tval => Some (go t (Arm tval) (on_thread t (set_st (change (Z.lnot Thread_ready) Thread_send_wait)) s))
  | Arm tval => Some (on_thread t (sleep tval) s)
  | Wait => if has Thread_ready (st x) then Some (go t Woken s) else None
  | Woken => Some (on_thread t (fun x => set_at (Dequeue (st x))
                     (set_timer Off (set_st (change (Z.lnot Thread_full_ipc_mask) Thread_ready) x))) s)
  | Dequeue f => Some (sender_dequeue t f s)
  | Dequeue_lock f => locked s (dequeue t f s)
  | Reenter => Some (go t (if valid s then Invoke else Ret Gone) s)
  | Bind_target o id => Some (bind_target t o id s)
  | Retype_test o id => Some (retype_test t o id s)
  | Retype_lock o id => locked s (retype_lock t o id s)
  | Retype_ref o id => Some (inc_ref o (go t (Retype_id o id) s))
  | Retype_id o id => Some (touch (fun s => go t (Retype_tgt o) (on_gate (set_id id) s)) s)
  | Retype_tgt o => Some (touch (fun s => go t (Retype_construct o) (on_gate (set_tgt (Some o)) s)) s)
  | Retype_construct o => Some (retype_construct t o s)
  | Retarget_test o id => Some (retarget_test t o id s)
  | Retarget_ref o id => Some (inc_ref o (go t (Retarget_id o id) s))
  | Retarget_id o id => Some (touch (fun s => go t (Retarget_exchange o) (on_gate (set_id id) s)) s)
  | Retarget_exchange o => Some (retarget_exchange t o s)
  | Retarget_del o => Some (touch (fun s => del_target o (done t (Ret Bound_ok) s)) s)
  | Unblock g => locked s (dequeue_first t g s)
  | Wake_cancel w g => Some (go t (Wake w g) (cancel_wait w s))
  | Wake w g => Some (go t (Unblock g) (activate w s))
  | Rcu l g => if grace_over s l then Some (go t (Unblock (after_grace g)) s) else None
  | Destroy_notify => Some (del_notify t s)
  | Destroy_hit o => Some (use o (go t Destroy_load) s)
  | Destroy_load => Some (destroy_load t s)
  | Destroy_store o => Some (touch (fun s => go t (Destroy_del o) (on_gate (set_tgt None) s)) s)
  | Destroy_del o => Some (touch (fun s => del_target o (go t Destroy_retype s)) s)
  | Destroy_retype => locked s (touch (fun s => go t (Unblock Destroy_first) (on_gate (set_type Destruct) s)) s)
  | Target_rcu l o =>
      if grace_over s l
      then Some (go t (Ret Deleted) (on_obj o (fun x => mk_object (ref_cnt x - 1) (obj_valid x) false (ref_cnt x - 1 =? 0)) s))
      else None
  end.

(** ** Events *)

Inductive label :=
  | L_invoke (t rights : Z) (to : timeout)
  | L_run (t : Z)
  | L_return (t : Z)
  | L_bind (t o id : Z)
  | L_destroy (t : Z)               (** the last capability of the gate is removed *)
  | L_target_destroy (t o : Z)      (** the last capability of a target is removed *)
  | L_expire (t : Z)
  | L_cancel (t : Z)
  | L_clock (c : Z).

(** [IPC_timeout::expired] *)
Definition expired (x : thread) : thread :=
  let ipc := st x .& Thread_ipc_mask in
  let x := set_timer Hit x in
  if negb (nonzero ipc) || has Thread_receive_in_progress ipc then x
  else set_st (add (Thread_ready .| Thread_timeout)) x.

Definition in_user (t : Z) (s : state) : bool :=
  bool_decide (t ∈ ctxs) && match at_ (threads s t) with User => true | _ => false end.

Definition enter (p : pc) (r : Z) (to : timeout) (x : thread) : thread :=
  mk_thread (del Thread_cancel (st x)) Off p r to (passed x).

Definition step (l : label) (s : state) : option state :=
  match l with
  | L_invoke t r to => if in_user t s && valid s then Some (on_thread t (enter Invoke r to) s) else None
  | L_run t => run t s
  | L_return t => match at_ (threads s t) with Ret _ => Some (go t User s) | _ => None end
  | L_bind t o id =>
      if in_user t s && valid s && obj_valid (objs s o) then Some (on_thread t (enter (Bind_target o id) 0 Never) s) else None
  | L_destroy t =>
      if in_user t s && valid s then Some (set_valid false (on_thread t (enter Destroy_notify 0 Never) s)) else None
  | L_target_destroy t o =>
      if in_user t s && obj_valid (objs s o)
      then Some (on_thread t (enter (Target_rcu (take_snapshot s) o) 0 Never)
                   (on_obj o (fun x => mk_object (ref_cnt x) false (own x) (gone x)) s))
      else None
  | L_expire t =>
      match timeout_q (threads s t), at_ (threads s t) with
      | Armed c, Wait => if c <=? clock s then Some (on_thread t expired s) else None
      | _, _ => None
      end
  | L_cancel t =>
      match at_ (threads s t) with
      | User | Wait => Some (on_thread t (set_st (add (Thread_cancel .| Thread_ready))) s)
      | _ => None
      end
  | L_clock c => if clock s <=? c then Some (set_clock c s) else None
  end.

(** ** Creation and dispatch *)

(** [Ipc_gate::Ipc_gate], of a target that nobody else refers to or without one.
    [_tgt] and [_id] are not initialised without a target; nobody reads them
    before the gate is bound, except [get_infos], and [destroy], whose call of
    [del] then does nothing. *)
Definition create (word : Z -> Z) (target : option (Z * Z)) : state :=
  let fresh := mk_object 1 true true false in
  let g := mk_gate Unbound None 0 None [] false in
  let ts := fun t => mk_thread (word t) Off User 0 Never 0 in
  match target with
  | Some (o, id) =>
      match kind_of o with
      | Kind_other => mk g true (fun _ => fresh) ts 0 [] false
      | _ => mk (mk_gate (gate_for o) (Some o) id None [] false) true
                (<[o := mk_object 2 true true false]> (fun _ => fresh)) ts 0 [] false
      end
  | None => mk g true (fun _ => fresh) ts 0 [] false
  end.

(** [Ipc_gate::invoke]: a message of the protocol for kernel objects is for the
    gate itself. *)
Definition to_gate `{Arch} (tag op : Z) : bool := (L4_msg_tag.proto tag =? Label_kobject) && nonzero (op .& L4_obj_ref.Ipc_send).

(** What a message to the gate itself asks for: an error, a step of [t], or the
    label.  [cap] is the target that the first item of the message names. *)
Inductive request := Error (e : Z) | Step (l : label) | Info (id : Z) | Generic.

Definition bind_thread `{Arch} (t rights tag : Z) (cap : Z + Z) (v1 : Z) : request :=
  if negb (nonzero (rights .& L4_fpage.Rights.CS)) then Error (- L4_err.val L4_err.EPerm)
  else if L4_msg_tag.words tag <? 2 then Error (- L4_err.val L4_err.EMsgtooshort)
  else match cap with
       | inl tag => Error tag
       | inr o => Step (L_bind t o v1)
       end.

Definition get_infos (s : state) : request := Info (_id (gt s)).

Definition Op_bind : Z := 0x10.
Definition Op_get_info : Z := 0x11.

Definition kinvoke `{Arch} (t rights tag v0 v1 : Z) (cap : Z + Z) (s : state) : request :=
  if L4_msg_tag.words tag <? 1 then Error (- L4_err.val L4_err.EInval)
  else if v0 =? Op_bind then bind_thread t rights tag cap v1
  else if v0 =? Op_get_info then get_infos s
  else Generic.

(** [Ipc_gate::downgrade]: a capability that loses the object right is one of the
    inner gate, which only passes messages on. *)
Definition downgrade (attr : Z) : bool := nonzero (attr .& L4_msg_item.C_obj_right_1).
End model.
