(* ===== verification/GateInv.v ===== *)
(** The invariant of IPC gates in three parts: who binds and deletes the gate and
    what state it is in meanwhile ([Control]); who waits and who wakes ([Waiting]);
    who refers to which memory ([Memory]).  Each part is kept by every orderly
    step. *)

From stdpp Require Import functions.
From S2P Require Import Prelude L4Types Ipc Gate.
Import Thread_state.
#[local] Arguments Z.testbit : simpl never.
#[local] Arguments has : simpl never.

Section inv.
Context (kind_of : Z -> kind) (prio : Z -> Z) (ctxs : list Z).

(** * Kinds of places *)

Definition pc_of (s : state) (t : Z) : pc := at_ (threads s t).

(** A context binds the gate. *)
Definition binding (p : pc) : bool :=
  match p with
  | Bind_target _ _ | Retype_test _ _ | Retype_lock _ _ | Retype_ref _ _ | Retype_id _ _ | Retype_tgt _ | Retype_construct _
  | Retarget_test _ _ | Retarget_ref _ _ | Retarget_id _ _ | Retarget_exchange _ | Retarget_del _ => true
  | Unblock g | Wake_cancel _ g | Wake _ g | Rcu _ g => negb (aborts g)
  | _ => false
  end.

(** A context deletes the gate. *)
Definition destroying (p : pc) : bool :=
  match p with
  | Destroy_notify | Destroy_hit _ | Destroy_load | Destroy_store _ | Destroy_del _ | Destroy_retype => true
  | Unblock g | Wake_cancel _ g | Wake _ g | Rcu _ g => aborts g
  | _ => false
  end.

Definition locking (p : pc) : bool :=
  match p with Retype_ref _ _ | Retype_id _ _ | Retype_tgt _ | Retype_construct _ => true | _ => false end.

(** The target that a context is about to give the gate. *)
Definition binds_to (p : pc) : option Z :=
  match p with
  | Bind_target o _ | Retype_test o _ | Retype_lock o _ | Retype_ref o _ | Retype_id o _ | Retype_tgt o | Retype_construct o
  | Retarget_test o _ | Retarget_ref o _ | Retarget_id o _ | Retarget_exchange o => Some o
  | _ => None
  end.

(** The target of which a context has a counted reference. *)
Definition holds (p : pc) : option Z :=
  match p with
  | Retype_id o _ | Retype_tgt o | Retarget_id o _ | Retarget_exchange o | Retarget_del o | Destroy_del o => Some o
  | _ => None
  end.

(** The target that a sender has loaded. *)
Definition loaded (p : pc) : option Z := match p with Have_target o | Send o _ => Some o | _ => None end.

(** Places of senders that use the gate afterwards. *)
Definition touching (p : pc) : bool := match p with Invoke | Load | Have_target _ | Block => true | _ => false end.

(** Places of senders that may be in the queue. *)
Definition may_queue (p : pc) : bool :=
  match p with Enqueued _ | Arm _ | Wait | Woken | Dequeue _ | Dequeue_lock _ => true | _ => false end.

(** * Orderly steps *)

(** The gate is not deleted while it is being bound; a target is not deleted while
    the gate is, or is about to be, bound to it; a sender is not taken out of the
    queue before it has marked itself as waiting; and the memory of the gate is
    not freed while a sender that has timed out is about to lock its queue. *)
Definition orderly (l : label) (s : state) : Prop :=
  match l with
  | L_destroy _ => Forall (fun u => binding (pc_of s u) = false) ctxs
  | L_target_destroy _ o => _tgt (gt s) <> Some o /\ Forall (fun u => binds_to (pc_of s u) <> Some o) ctxs
  | L_run t =>
      match pc_of s t with
      | Unblock g =>
          match _wait_q (gt s) with
          | w :: _ => match pc_of s w with Enqueued _ => False | _ => True end
          | [] => match g with
                  | Destroy_last => Forall (fun u => match pc_of s u with Dequeue_lock _ => False | _ => True end) ctxs
                  | _ => True
                  end
          end
      | _ => True
      end
  | _ => True
  end.

(** * Control *)

(** The state of the gate while [t] is at [p]. *)
Definition control_ok (g : gate) (v : bool) (t : Z) (p : pc) : Prop :=
  (binding p = true -> v = true) /\
  (destroying p = true -> v = false) /\
  match p with
  | Retype_ref _ _ | Retype_id _ _ | Retype_tgt _ => qlock g = Some t /\ type g = Unbound /\ _tgt g = None
  | Retype_construct o => qlock g = Some t /\ type g = Unbound /\ _tgt g = Some o
  | Retarget_ref _ _ | Retarget_id _ _ | Retarget_exchange _ | Retarget_del _ => type g = Bound \/ type g = Dispatch
  | Destroy_notify | Destroy_load => type g <> Destruct /\ qlock g = None
  | Destroy_hit o => type g <> Destruct /\ qlock g = None /\ _tgt g = Some o
  | Destroy_store o => (type g = Bound \/ type g = Dispatch) /\ qlock g = None /\ _tgt g = Some o
  | Destroy_del o => (type g = Bound \/ type g = Dispatch) /\ qlock g = None /\ _tgt g = None
  | Destroy_retype => type g <> Destruct /\ qlock g = None /\ _tgt g = None
  | Unblock h | Wake_cancel _ h | Wake _ h | Rcu _ h =>
      if aborts h then type g = Destruct /\ _tgt g = None /\ qlock g = None else type g <> Unbound
  | _ => True
  end.

Record Control (s : state) : Prop := {
  c_ctx t : pc_of s t <> User -> t ∈ ctxs;
  c_ok t : control_ok (gt s) (valid s) t (pc_of s t);
  c_one t u : destroying (pc_of s t) = true -> destroying (pc_of s u) = true -> t = u;
  c_lock b : qlock (gt s) = Some b -> locking (pc_of s b) = true;
  c_unbound : type (gt s) = Unbound -> qlock (gt s) = None -> _tgt (gt s) = None;
  c_valid : valid s = true -> type (gt s) <> Destruct }.

(** ** Views of changed states *)

Lemma pc_on t f s u : pc_of (on_thread t f s) u = if decide (u = t) then at_ (f (threads s t)) else pc_of s u.
Proof. unfold pc_of. simpl. destruct (decide (u = t)) as [-> | ?]; [by rewrite fn_lookup_insert | by rewrite fn_lookup_insert_ne]. Qed.

Lemma pc_go t p s u : pc_of (go t p s) u = if decide (u = t) then p else pc_of s u.
Proof. unfold go. by rewrite pc_on. Qed.

Lemma pc_done t p s u : pc_of (done t p s) u = if decide (u = t) then p else pc_of s u.
Proof. unfold done. by rewrite pc_on. Qed.

(** Contexts that stay where they are do not notice changes of the label, the
    queue and the like. *)
Definition same_control (g g' : gate) : Prop := type g' = type g /\ _tgt g' = _tgt g /\ qlock g' = qlock g.

Lemma control_ok_same g g' v t p : same_control g g' -> control_ok g v t p -> control_ok g' v t p.
Proof. unfold control_ok. intros (-> & -> & ->). done. Qed.

(** A step of [t] that leaves the state of the gate alone. *)
Lemma control_step t p s s' :
  Control s -> (forall u, pc_of s' u = if decide (u = t) then p else pc_of s u) ->
  same_control (gt s) (gt s') -> valid s' = valid s -> t ∈ ctxs ->
  (locking p = locking (pc_of s t)) -> (destroying p = true -> destroying (pc_of s t) = true) ->
  control_ok (gt s) (valid s) t p -> Control s'.
Proof.
  intros [C1 C2 C3 C4 C5 C6] Hp Hg Hv Ht Hl Hd Hok. pose proof Hg as (Ety & Etg & Elk). split.
  - intros u. rewrite Hp. destruct (decide (u = t)) as [-> | ?]; [done | apply C1].
  - intros u. rewrite Hp, Hv. apply (control_ok_same (gt s)); [done |]. destruct (decide (u = t)) as [-> | ?]; [done | apply C2].
  - intros u v. rewrite !Hp. destruct (decide (u = t)) as [-> | ?], (decide (v = t)) as [-> | ?]; auto.
  - intros b. rewrite Elk, Hp. intros Hb%C4. destruct (decide (b = t)) as [-> | ?]; congruence.
  - by rewrite Ety, Elk, Etg.
  - by rewrite Ety, Hv.
Qed.

(** A change of the state word of a thread. *)
Lemma pc_st t f s u : pc_of (on_thread t (set_st f) s) u = pc_of s u.
Proof. rewrite pc_on. by destruct (decide (u = t)) as [-> | ?]. Qed.

Lemma control_same s s' :
  Control s -> (forall u, pc_of s' u = pc_of s u) -> same_control (gt s) (gt s') -> valid s' = valid s -> Control s'.
Proof.
  intros [C1 C2 C3 C4 C5 C6] Hp Hg Hv. pose proof Hg as (Ety & Etg & Elk). split.
  - intros u. rewrite Hp. apply C1.
  - intros u. rewrite Hp, Hv. apply (control_ok_same (gt s)); [done | apply C2].
  - intros u v. rewrite !Hp. apply C3.
  - intros b. rewrite Elk, Hp. apply C4.
  - by rewrite Ety, Elk, Etg.
  - by rewrite Ety, Hv.
Qed.
(** A step of [t] that changes the state of the gate. *)
Lemma control_change t p s s' :
  Control s -> (forall u, pc_of s' u = if decide (u = t) then p else pc_of s u) -> valid s' = valid s -> t ∈ ctxs ->
  (destroying p = true -> destroying (pc_of s t) = true) -> control_ok (gt s') (valid s) t p ->
  (forall u, u <> t -> control_ok (gt s) (valid s) u (pc_of s u) -> control_ok (gt s') (valid s) u (pc_of s u)) ->
  (forall b, qlock (gt s') = Some b -> (b = t /\ locking p = true) \/ (b <> t /\ qlock (gt s) = Some b)) ->
  (type (gt s') = Unbound -> qlock (gt s') = None -> _tgt (gt s') = None) ->
  (valid s = true -> type (gt s') <> Destruct) -> Control s'.
Proof.
  intros [C1 C2 C3 C4 C5 C6] Hp Hv Ht Hd Hok Ho Hl Hu Hn. split.
  - intros u. rewrite Hp. destruct (decide (u = t)) as [-> | ?]; [done | apply C1].
  - intros u. rewrite Hp, Hv. destruct (decide (u = t)) as [-> | ?]; [done | by apply Ho].
  - intros u v. rewrite !Hp. destruct (decide (u = t)) as [-> | ?], (decide (v = t)) as [-> | ?]; auto.
  - intros b [(-> & Hb) | (Hne & Hb%C4)]%Hl; rewrite Hp; destruct (decide _); done.
  - done.
  - by rewrite Hv.
Qed.

(** ** Steps *)

(** The two outcomes of a use of memory. *)
Lemma touch_cases k s : touch k s = if freed (gt s) then raise s else k s.
Proof. done. Qed.

Lemma raise_control s : Control s -> Control (raise s).
Proof. intros C. by apply (control_same s). Qed.

Lemma lock_free_spec s : lock_free s = true <-> qlock (gt s) = None.
Proof. unfold lock_free. apply bool_decide_eq_true. Qed.

Lemma locked_spec s k s' : locked s k = Some s' -> qlock (gt s) = None /\ s' = k.
Proof. unfold locked. destruct (lock_free s) eqn:E; [| done]. intros [= <-]. by apply lock_free_spec in E. Qed.

(** Targets do not matter to the control of the gate. *)
Lemma on_obj_control o f s : Control s -> Control (on_obj o f s).
Proof. intros C. by apply (control_same s). Qed.

Lemma use_control o k s : (Control s -> Control (k s)) -> Control s -> Control (use o k s).
Proof. unfold use. destruct (gone _); [intros _; apply raise_control | auto]. Qed.

Lemma touch_control k s : (Control s -> Control (k s)) -> Control s -> Control (touch k s).
Proof. unfold touch. destruct (freed _); [intros _; apply raise_control | auto]. Qed.

Lemma release_control o s : Control s -> Control (release o s).
Proof. intros C. unfold release. apply use_control; [apply on_obj_control | done]. Qed.

Lemma del_target_control o s : Control s -> Control (del_target o s).
Proof. intros C. unfold del_target. destruct (type _); try done; by apply release_control. Qed.
Lemma go_control t p s :
  Control s -> t ∈ ctxs -> locking p = locking (pc_of s t) -> (destroying p = true -> destroying (pc_of s t) = true) ->
  control_ok (gt s) (valid s) t p -> Control (go t p s).
Proof. intros C Ht Hl Hd Hok. apply (control_step t p s); try done. intros u. apply pc_go. Qed.

Lemma done_control t p s :
  Control s -> t ∈ ctxs -> locking p = locking (pc_of s t) -> (destroying p = true -> destroying (pc_of s t) = true) ->
  control_ok (gt s) (valid s) t p -> Control (done t p s).
Proof. intros C Ht Hl Hd Hok. apply (control_step t p s); try done. intros u. apply pc_done. Qed.

Lemma on_gate_control f s : Control s -> same_control (gt s) (f (gt s)) -> Control (on_gate f s).
Proof. intros C Hg. by apply (control_same s). Qed.

Lemma st_control t f s : Control s -> Control (on_thread t (set_st f) s).
Proof. intros C. apply (control_same s); try done. apply pc_st. Qed.

Lemma log_control t o l s : Control s -> Control (log t o l s).
Proof. intros C. by apply (control_same s). Qed.

(** Takes a step apart. *)
Ltac control_shape :=
  first [ apply touch_control; [intros _ | assumption] | apply use_control; [intros _ | ]
        | apply go_control | apply done_control | apply st_control | apply del_target_control
        | apply log_control | apply on_obj_control | apply on_gate_control; [| by split_and!] | assumption ].

(** A side condition at the place of [t]. *)
Ltac control_side s t Ep :=
  rewrite ?pc_st; try change (pc_of _ t) with (pc_of s t); try change (valid _) with (valid s); rewrite ?Ep.

Lemma at_place s t p : Control s -> pc_of s t = p -> control_ok (gt s) (valid s) t p.
Proof. intros C <-. apply C. Qed.

(** The steps that change the state of the gate. *)
Ltac others :=
  let u := fresh "u" in let Hne := fresh in let Hk := fresh in
  intros u Hne; unfold control_ok; intros (? & ? & Hk); destruct (pc_of _ u); simpl in *;
  try match goal with g : stage |- _ => destruct g; simpl in * end; intuition congruence.

Lemma retype_lock_control t o id s :
  Control s -> pc_of s t = Retype_lock o id -> t ∈ ctxs -> qlock (gt s) = None -> Control (retype_lock t o id s).
Proof.
  intros C Ep Ht Hq. apply touch_control; [intros _ | done]. pose proof (at_place _ _ _ C Ep) as (Hb & _ & _).
  unfold can_retype. destruct (bool_decide_reflect (type (gt s) = Unbound)) as [Hty |].
  2: { apply go_control; try done; rewrite ?Ep; done. }
  pose proof (c_unbound _ C Hty Hq) as Htg.
  apply (control_change t (Retype_ref o id) s); try done; simpl; try by intros u; rewrite pc_go.
  - others.
  - intros b [= <-]. by left.
  - congruence.
Qed.

Lemma retype_tgt_control t o s :
  Control s -> pc_of s t = Retype_tgt o -> t ∈ ctxs -> Control (go t (Retype_construct o) (on_gate (set_tgt (Some o)) s)).
Proof.
  intros C Ep Ht. pose proof (at_place _ _ _ C Ep) as (Hb & _ & Hl & Hty & _). specialize (Hb eq_refl).
  apply (control_change t (Retype_construct o) s); try done; simpl; try by intros u; rewrite pc_go.
  - others.
  - intros b Hb'. destruct (decide (b = t)); [left | right]; intuition congruence.
  - congruence.
  - congruence.
Qed.

Lemma gate_for_type o : gate_for kind_of o = Bound \/ gate_for kind_of o = Dispatch.
Proof. unfold gate_for. destruct (kind_of o); auto. Qed.

Lemma retype_construct_control t o s :
  Control s -> pc_of s t = Retype_construct o -> t ∈ ctxs -> Control (retype_construct kind_of t o s).
Proof.
  intros C Ep Ht. apply touch_control; [intros _ | done]. pose proof (at_place _ _ _ C Ep) as (Hb & _ & Hl & Hty & _). specialize (Hb eq_refl).
  pose proof (gate_for_type o) as Hg.
  apply (control_change t (Unblock Bind_first) s); try done; simpl; try by intros u; rewrite pc_go.
  - unfold control_ok; simpl. intuition congruence.
  - others.
  - intros Hu _. intuition congruence.
  - intros _. intuition congruence.
Qed.

Lemma retarget_exchange_control t o s :
  Control s -> pc_of s t = Retarget_exchange o -> t ∈ ctxs -> Control (retarget_exchange t o s).
Proof.
  intros C Ep Ht. apply touch_control; [intros _ | done]. pose proof (at_place _ _ _ C Ep) as (Hb & _ & Hty).
  specialize (Hb eq_refl). destruct (_tgt (gt s)) as [old |].
  - apply (control_change t (Retarget_del old) s); try done; simpl; try by intros u; rewrite pc_go.
    + others.
    + intros b Hl. right. split; [| done]. intros ->. pose proof (c_lock _ C t Hl) as Hk. by rewrite Ep in Hk.
    + intuition congruence.
    + apply C.
  - apply (control_change t (Ret Bound_ok) s); try done; simpl; try by intros u; rewrite pc_done.
    + others.
    + intros b Hl. right. split; [| done]. intros ->. pose proof (c_lock _ C t Hl) as Hk. by rewrite Ep in Hk.
    + intuition congruence.
    + apply C.
Qed.

(** While the gate is deleted nobody binds it, and nobody else deletes it. *)
Lemma others_idle s t u :
  Control s -> destroying (pc_of s t) = true -> u <> t -> binding (pc_of s u) = false /\ destroying (pc_of s u) = false.
Proof.
  intros C Hd Hne. pose proof (c_ok _ C t) as (_ & Hv & _). specialize (Hv Hd).
  pose proof (c_ok _ C u) as (Hb & _ & _). split; apply not_true_iff_false; intros H.
  - specialize (Hb H). congruence.
  - apply Hne. by apply (c_one _ C).
Qed.

(** Contexts that neither bind nor delete the gate do not care for its state. *)
Lemma idle_ok g v t p : binding p = false -> destroying p = false -> control_ok g v t p.
Proof. unfold control_ok. destruct p; try done; try destruct g0; done. Qed.

Lemma destroy_change t p s s' :
  Control s -> destroying (pc_of s t) = true -> t ∈ ctxs -> locking p = false ->
  (forall u, pc_of s' u = if decide (u = t) then p else pc_of s u) -> valid s' = valid s ->
  qlock (gt s) = None -> qlock (gt s') = None -> control_ok (gt s') (valid s) t p ->
  (type (gt s') = Unbound -> _tgt (gt s') = None) -> Control s'.
Proof.
  intros C Hd Ht Hp Hps Hv Hl Hl' Hok Hu. pose proof (c_ok _ C t) as (_ & Hval & _). specialize (Hval Hd).
  apply (control_change t p s); try done; try congruence; auto.
  intros u Hne _. apply idle_ok; by apply (others_idle s t u).
Qed.

Lemma destroy_store_control t o s :
  Control s -> pc_of s t = Destroy_store o -> t ∈ ctxs -> Control (go t (Destroy_del o) (on_gate (set_tgt None) s)).
Proof.
  intros C Ep Ht. pose proof (at_place _ _ _ C Ep) as (_ & Hd & Hty & Hl & _).
  apply (destroy_change t (Destroy_del o) s); try done; [by rewrite Ep | intros u; by rewrite pc_go].
Qed.

Lemma destroy_retype_control t s :
  Control s -> pc_of s t = Destroy_retype -> t ∈ ctxs -> Control (go t (Unblock Destroy_first) (on_gate (set_type Destruct) s)).
Proof.
  intros C Ep Ht. pose proof (at_place _ _ _ C Ep) as (_ & Hd & Hty & Hl & Htg).
  apply (destroy_change t (Unblock Destroy_first) s); try done; [by rewrite Ep | intros u; by rewrite pc_go].
Qed.

Lemma dequeue_first_control t g s :
  Control s -> pc_of s t = Unblock g -> t ∈ ctxs -> Control (dequeue_first ctxs t g s).
Proof.
  intros C Ep Ht. apply touch_control; [intros _ | done]. pose proof (at_place _ _ _ C Ep) as Hok.
  destruct (_wait_q (gt s)) as [| w q].
  - destruct g; simpl; first [apply go_control | apply done_control]; try apply on_gate_control; try done; control_side s t Ep; done.
  - destruct g; simpl; apply go_control; try apply on_gate_control; try done; control_side s t Ep; done.
Qed.

Lemma unblocked_cases f : unblocked f = Ret Timeout \/ unblocked f = Ret Canceled \/ unblocked f = Reenter.
Proof. unfold unblocked. destruct (has _ _); [auto |]. destruct (has _ _); auto. Qed.

Lemma grace_control t l g s :
  Control s -> pc_of s t = Rcu l g -> t ∈ ctxs -> Control (go t (Unblock (after_grace g)) s).
Proof.
  intros C Ep Ht. pose proof (at_place _ _ _ C Ep) as Hok.
  destruct g; apply go_control; try done; control_side s t Ep; done.
Qed.

Lemma run_control t s s' : Control s -> run kind_of prio ctxs t s = Some s' -> Control s'.
Proof.
  intros C. unfold run. pose proof (c_ok _ C t) as Hok. pose proof (c_ctx _ C t) as Hin.
  unfold pc_of in Hok, Hin. destruct (at_ (threads s t)) eqn:E; try done.
  all: assert (t ∈ ctxs) as Ht by (by apply Hin).
  all: assert (pc_of s t = at_ (threads s t)) as Ep by done; rewrite E in Ep.
  all: try (intros [= <-]).
  all: try (intros [Hq ->]%locked_spec).
  all: try (by apply (retype_lock_control _ _ _ _ C Ep)).
  all: try (apply touch_control; [intros _ | done]; by apply retype_tgt_control).
  all: try (by apply retype_construct_control).
  all: try (by apply retarget_exchange_control).
  all: try (by apply dequeue_first_control).
  all: try (apply touch_control; [intros _ | done]; by apply destroy_store_control).
  all: try (apply touch_control; [intros _ | done]; by apply destroy_retype_control).
  all: unfold invoke, load_target, load_id, do_send_ipc, block, sender_dequeue, dequeue, bind_target, retype_test, retarget_test, inc_ref,
    activate, cancel_wait, del_notify, destroy_load.
  all: try (destruct (unblocked_cases state) as [-> | [-> | ->]]).
  all: try match goal with |- (if ?b then _ else _) = _ -> _ => destruct b; [intros [= <-] | done] end.
  all: try (by apply (grace_control _ l)).
  all: repeat first [ match goal with |- Control (go _ (if ?b then _ else _) _) => destruct b eqn:? end
                    | control_shape | match goal with |- Control (if ?b then _ else _) => destruct b eqn:? end
                    | match goal with |- Control (match ?x with _ => _ end) => destruct x eqn:? end ].
  all: try (control_side s t Ep; done).
  all: try (control_side s t Ep; unfold control_ok in *; simpl in *; intuition congruence).
  - apply (control_step t Wait s); try done; [| by rewrite Ep].
    intros u. rewrite pc_on. by destruct (decide (u = t)).
  - apply (control_step t (Dequeue (st (threads s t))) s); try done; [| by rewrite Ep].
    intros u. by rewrite pc_on.
  - pose proof (gate_for_type o) as Hg. unfold control_ok in *. simpl in *. intuition congruence.
  - pose proof (c_unbound _ C) as Hu. unfold control_ok in *. simpl in *.
    destruct (type (gt s)) eqn:Ety; intuition congruence.
Qed.
(** Every orderly step keeps the invariant. *)
Lemma in_user_spec t s : in_user ctxs t s = true -> t ∈ ctxs /\ pc_of s t = User.
Proof.
  unfold in_user, pc_of. intros [Ht%bool_decide_eq_true Hp]%andb_prop. split; [done |]. by destruct (at_ _).
Qed.

Lemma enter_control t p r to s :
  Control s -> t ∈ ctxs -> pc_of s t = User -> locking p = false -> destroying p = false ->
  control_ok (gt s) (valid s) t p -> Control (on_thread t (enter p r to) s).
Proof.
  intros C Ht Ep Hl Hd Hok. apply (control_step t p s); try done; [| by rewrite Ep | congruence].
  intros u. by rewrite pc_on.
Qed.

Lemma not_binding s : Control s -> Forall (fun u => binding (pc_of s u) = false) ctxs -> forall u, binding (pc_of s u) = false.
Proof.
  intros C Hall u. rewrite Forall_forall in Hall. destruct (decide (u ∈ ctxs)) as [Hin | Hno]; [by apply Hall |].
  destruct (pc_of s u) eqn:E; try done; exfalso; apply Hno, (c_ctx _ C u); congruence.
Qed.

Lemma step_control l s s' : Control s -> orderly l s -> step kind_of prio ctxs l s = Some s' -> Control s'.
Proof.
  intros C Ho. destruct l; simpl.
  - destruct (in_user _ _ _) eqn:Eu; [| done]. destruct (valid s) eqn:Ev; [| done]. intros [= <-].
    apply in_user_spec in Eu as [? ?]. by apply enter_control.
  - apply run_control, C.
  - destruct (at_ (threads s t)) eqn:E; try done. intros [= <-].
    assert (pc_of s t = Ret r) as Ep by done.
    apply go_control; rewrite ?Ep; try done. apply C. by rewrite Ep.
  - destruct (in_user _ _ _) eqn:Eu; [| done]. destruct (valid s) eqn:Ev; [| done].
    destruct (obj_valid _); [| done]. intros [= <-].
    apply in_user_spec in Eu as [? ?]. apply enter_control; try done.
  - destruct (in_user _ _ _) eqn:Eu; [| done]. destruct (valid s) eqn:Ev; [| done]. intros [= <-].
    apply in_user_spec in Eu as [Ht Ep]. pose proof (not_binding s C Ho) as Hb. destruct C as [C1 C2 C3 C4 C5 C6].
    assert (forall u, destroying (pc_of s u) = false) as Hd.
    { intros u. apply not_true_iff_false. intros H. destruct (C2 u) as (_ & Hv & _). specialize (Hv H). congruence. }
    assert (qlock (gt s) = None) as Hq.
    { destruct (qlock (gt s)) as [b |] eqn:E; [| done]. pose proof (C4 b eq_refl) as Hl. specialize (Hb b).
      by destruct (pc_of s b). }
    assert (forall u, pc_of (set_valid false (on_thread t (enter Destroy_notify 0 Never) s)) u =
                      if decide (u = t) then Destroy_notify else pc_of s u) as Hp by (intros u; apply pc_on).
    split; simpl.
    + intros u. rewrite Hp. destruct (decide (u = t)) as [-> |]; [done | apply C1].
    + intros u. rewrite Hp. destruct (decide (u = t)) as [-> |]; [| by apply idle_ok].
      unfold control_ok. simpl. auto.
    + intros u v. rewrite !Hp. destruct (decide (u = t)), (decide (v = t)); [congruence | | | auto];
        intros; rewrite Hd in *; done.
    + intros b Hb'. congruence.
    + done.
    + done.
  - destruct (in_user _ _ _) eqn:Eu; [| done]. destruct (obj_valid _); [| done]. intros [= <-].
    apply in_user_spec in Eu as [? ?]. apply enter_control; try done. by apply on_obj_control.
  - destruct (timeout_q _); try done. destruct (at_ (threads s t)) eqn:E; try done. destruct (_ <=? _); [| done].
    intros [= <-]. apply (control_same s); try done. intros u. rewrite pc_on. destruct (decide (u = t)) as [-> |]; [| done].
    unfold expired, pc_of. simpl. by destruct (_ || _).
  - destruct (at_ (threads s t)) eqn:E; try done; intros [= <-]; by apply st_control.
  - destruct (_ <=? _); [| done]. intros [= <-]. by apply (control_same s).
Qed.
End inv.
