(* ===== verification/GateWait.v ===== *)
(** Waiting at an IPC gate that is not bound: a sender that sleeps is in the
    queue or about to be woken, and as soon as the gate has got another class
    somebody is responsible for everybody who found it unbound. *)

From stdpp Require Import functions.
From S2P Require Import Prelude L4Types Ipc Gate GateInv.
Import Thread_state.
#[local] Arguments Z.testbit : simpl never.
#[local] Arguments has : simpl never.

Section waiting.
Context (kind_of : Z -> kind) (prio : Z -> Z) (ctxs : list Z).

(** * The invariant *)

Definition ready_of (s : state) (t : Z) : Prop := has Thread_ready (st (threads s t)) = true.

(** A context at [p] has taken [t] out of the queue and will activate it. *)
Definition wakes (p : pc) (t : Z) : Prop :=
  match p with Wake_cancel w _ | Wake w _ => w = t | _ => False end.

(** A context at [p] will empty the queue after [u] has left the section of which
    it has left [n] before. *)
Definition covers (p : pc) (u : Z) (n : nat) : Prop :=
  match p with
  | Unblock g | Wake_cancel _ g | Wake _ g => g = Bind_first \/ g = Destroy_first
  | Rcu l _ => (u, n) ∈ l
  | _ => False
  end.

(** A context at [p] empties the queue. *)
Definition draining (p : pc) : bool :=
  match p with Unblock _ | Wake_cancel _ _ | Wake _ _ | Rcu _ _ => true | _ => false end.

Definition sleep_ok (s : state) (t : Z) : Prop :=
  match pc_of s t with
  | Enqueued _ => t ∈ _wait_q (gt s)
  | Arm _ | Wait => ready_of s t \/ t ∈ _wait_q (gt s) \/ exists b, wakes (pc_of s b) t
  | _ => True
  end.

Record Waiting (s : state) : Prop := {
  w_queue t : t ∈ _wait_q (gt s) -> may_queue (pc_of s t) = true;
  w_nodup : NoDup (_wait_q (gt s));
  w_sleep t : sleep_ok s t;
  w_stale u : pc_of s u = Block -> type (gt s) = Unbound \/ exists b, covers (pc_of s b) u (passed (threads s u));
  w_drain : _wait_q (gt s) <> [] -> type (gt s) = Unbound \/ exists b, draining (pc_of s b) = true }.

Lemma covers_draining p u n : covers p u n -> draining p = true.
Proof. by destruct p. Qed.

Lemma wakes_draining p u : wakes p u -> draining p = true.
Proof. by destruct p. Qed.

(** A step of [t] to [p]. *)
Lemma waiting_change t p s s' :
  Waiting s ->
  (forall u, pc_of s' u = if decide (u = t) then p else pc_of s u) ->
  (forall u, u <> t -> passed (threads s' u) = passed (threads s u)) ->
  (forall u, u <> t -> ready_of s u -> ready_of s' u) ->
  NoDup (_wait_q (gt s')) ->
  (forall u, u <> t -> u ∈ _wait_q (gt s') -> u ∈ _wait_q (gt s)) ->
  (forall u, u <> t -> u ∈ _wait_q (gt s) ->
     u ∈ _wait_q (gt s') \/ wakes p u /\ match pc_of s u with Enqueued _ => False | _ => True end) ->
  (forall u, u <> t -> wakes (pc_of s t) u -> wakes p u \/ ready_of s' u) ->
  (t ∈ _wait_q (gt s') -> may_queue p = true) ->
  match p with
  | Enqueued _ => t ∈ _wait_q (gt s')
  | Arm _ | Wait => ready_of s' t \/ t ∈ _wait_q (gt s') \/ exists b, b <> t /\ wakes (pc_of s b) t
  | _ => True
  end ->
  (p = Block -> type (gt s') = Unbound) ->
  (forall u, u <> t -> pc_of s u = Block -> type (gt s) = Unbound \/ covers (pc_of s t) u (passed (threads s u)) ->
     type (gt s') = Unbound \/ covers p u (passed (threads s u))) ->
  (_wait_q (gt s') <> [] -> type (gt s') = Unbound \/ draining p = true \/ exists b, b <> t /\ draining (pc_of s b) = true) ->
  Waiting s'.
Proof.
  intros [W1 W2 W3 W4 W5] Hp Hn Hr Hnd Hq Hq' Hw Hmq Hsl Hbl Hst Hdr.
  assert (forall b, b <> t -> pc_of s' b = pc_of s b) as Hne by (intros b ?; rewrite Hp; by destruct (decide (b = t))).
  assert (pc_of s' t = p) as Ht by (rewrite Hp; by destruct (decide (t = t))).
  assert (forall u, u <> t -> forall b, wakes (pc_of s b) u -> (exists b, wakes (pc_of s' b) u) \/ ready_of s' u) as Hwk.
  { intros u Hu b Hb. destruct (decide (b = t)) as [-> | Hbt].
    - destruct (Hw u Hu Hb) as [? | ?]; [left; exists t; by rewrite Ht | by right].
    - left. exists b. by rewrite Hne. }
  split.
  - intros u Hu. destruct (decide (u = t)) as [-> | Hut]; [rewrite Ht; auto |]. rewrite Hne by done. auto.
  - done.
  - intros u. unfold sleep_ok. destruct (decide (u = t)) as [-> | Hut].
    + rewrite Ht. destruct p; try done; destruct Hsl as [? | [? | (b & Hb & Hb')]]; auto; right; right; exists b; by rewrite Hne.
    + rewrite Hne by done. pose proof (W3 u) as Hs. unfold sleep_ok in Hs.
      destruct (pc_of s u) eqn:Eu; try done.
      * destruct (Hq' u Hut Hs) as [? | (_ & Hf)]; [done | by rewrite Eu in Hf].
      * destruct Hs as [? | [Hs | (b & Hb)]]; [left; auto | |].
        -- destruct (Hq' u Hut Hs) as [? | (Hf & _)]; [auto | right; right; exists t; by rewrite Ht].
        -- destruct (Hwk u Hut b Hb) as [? | ?]; auto.
      * destruct Hs as [? | [Hs | (b & Hb)]]; [left; auto | |].
        -- destruct (Hq' u Hut Hs) as [? | (Hf & _)]; [auto | right; right; exists t; by rewrite Ht].
        -- destruct (Hwk u Hut b Hb) as [? | ?]; auto.
  - intros u Hu. destruct (decide (u = t)) as [-> | Hut]; [left; apply Hbl; congruence |].
    rewrite Hne in Hu by done. rewrite Hn by done.
    destruct (W4 u Hu) as [Hty | (b & Hb)].
    + destruct (Hst u Hut Hu (or_introl Hty)) as [? | ?]; [by left | right; exists t; by rewrite Ht].
    + destruct (decide (b = t)) as [-> | Hbt]; [| right; exists b; by rewrite Hne].
      destruct (Hst u Hut Hu (or_intror Hb)) as [? | ?]; [by left | right; exists t; by rewrite Ht].
  - intros [? | [? | (b & Hb & Hd)]]%Hdr; [by left | right; exists t; by rewrite Ht | right; exists b; by rewrite Hne].
Qed.

(** A step that moves no context and does not touch the gate. *)
Lemma waiting_same s s' :
  Waiting s -> (forall u, pc_of s' u = pc_of s u) -> (forall u, passed (threads s' u) = passed (threads s u)) ->
  (forall u, ready_of s u -> ready_of s' u) -> gt s' = gt s -> Waiting s'.
Proof.
  intros [W1 W2 W3 W4 W5] Hp Hn Hr Hg. split; rewrite ?Hg; try done.
  - intros u. rewrite Hp. auto.
  - intros u. unfold sleep_ok. rewrite Hp, Hg. pose proof (W3 u) as Hs. unfold sleep_ok in Hs.
    destruct (pc_of s u); try done; destruct Hs as [? | [? | (b & Hb)]]; auto; right; right; exists b; by rewrite Hp.
  - intros u. rewrite Hp, Hn. intros [? | (b & Hb)]%W4; [by left | right; exists b; by rewrite Hp].
  - intros [? | (b & Hb)]%W5; [by left | right; exists b; by rewrite Hp].
Qed.

Lemma raise_waiting s : Waiting s -> Waiting (raise s).
Proof. intros W. by apply (waiting_same s). Qed.

(** * Steps of contexts that do not empty the queue *)

(** A step of [t] that leaves the queue and the class of the gate alone. *)
Lemma waiting_step t p s s' :
  Waiting s -> draining (pc_of s t) = false ->
  (forall u, pc_of s' u = if decide (u = t) then p else pc_of s u) ->
  (forall u, u <> t -> threads s' u = threads s u) ->
  _wait_q (gt s') = _wait_q (gt s) -> type (gt s') = type (gt s) ->
  (may_queue (pc_of s t) = true -> may_queue p = true \/ t ∉ _wait_q (gt s)) ->
  match p with
  | Enqueued _ => False
  | Arm _ | Wait => ready_of s' t \/ t ∈ _wait_q (gt s) \/ exists b, wakes (pc_of s b) t
  | _ => True
  end ->
  (p = Block -> type (gt s) = Unbound) -> Waiting s'.
Proof.
  intros W Hd Hp Ht Hq Hty Hm Hs Hb.
  assert (forall b u, wakes (pc_of s b) u -> b <> t) as Hbt by (intros b u Hw ->; apply wakes_draining in Hw; congruence).
  apply (waiting_change t p s); try done; rewrite ?Hq, ?Hty; try apply W.
  - intros u Hu. by rewrite Ht.
  - intros u Hu. unfold ready_of. by rewrite Ht.
  - done.
  - auto.
  - intros u _ Hw%wakes_draining. congruence.
  - intros Hin. pose proof (w_queue _ W t Hin) as Hmq. destruct (Hm Hmq); done.
  - destruct p; try done; destruct Hs as [? | [? | (b & Hw)]]; auto; right; right; exists b; split; eauto.
  - done.
  - intros u Hu _ [? | Hc%covers_draining]; [by left | congruence].
  - intros [? | (b & Hb')]%(w_drain _ W); [by left | right; right; exists b; split; [congruence | done]].
Qed.
(** Places without obligations. *)
Definition quiet (p : pc) : bool := match p with Enqueued _ | Arm _ | Wait | Block => false | _ => true end.

Lemma go_waiting t p s :
  Waiting s -> draining (pc_of s t) = false -> (may_queue (pc_of s t) = true -> may_queue p = true \/ t ∉ _wait_q (gt s)) ->
  quiet p = true -> Waiting (go t p s).
Proof.
  intros W Hd Hm Hq. apply (waiting_step t p s); try done.
  - intros u. by rewrite pc_go.
  - intros u Hu. simpl. by apply fn_lookup_insert_ne.
  - by destruct p.
  - intros ->. done.
Qed.

Lemma done_waiting t p s :
  Waiting s -> draining (pc_of s t) = false -> (may_queue (pc_of s t) = true -> may_queue p = true \/ t ∉ _wait_q (gt s)) ->
  quiet p = true -> Waiting (done t p s).
Proof.
  intros W Hd Hm Hq. apply (waiting_step t p s); try done.
  - intros u. by rewrite pc_done.
  - intros u Hu. simpl. by apply fn_lookup_insert_ne.
  - by destruct p.
  - intros ->. done.
Qed.

(** Changes that the invariant does not see. *)
Lemma waiting_view s s' :
  Waiting s -> threads s' = threads s -> _wait_q (gt s') = _wait_q (gt s) -> type (gt s') = type (gt s) -> Waiting s'.
Proof.
  intros [W1 W2 W3 W4 W5] Ht Hq Hty.
  split; unfold sleep_ok, ready_of, pc_of in *; rewrite ?Ht, ?Hq, ?Hty; done.
Qed.

Lemma touch_waiting k s : (Waiting s -> Waiting (k s)) -> Waiting s -> Waiting (touch k s).
Proof. unfold touch. destruct (freed _); [intros _; apply raise_waiting | auto]. Qed.

Lemma use_waiting o k s : (Waiting s -> Waiting (k s)) -> Waiting s -> Waiting (use o k s).
Proof. unfold use. destruct (gone _); [intros _; apply raise_waiting | auto]. Qed.

Lemma on_obj_waiting o f s : Waiting s -> Waiting (on_obj o f s).
Proof. intros W. by apply (waiting_view s). Qed.

Lemma log_waiting t o l s : Waiting s -> Waiting (log t o l s).
Proof. intros W. by apply (waiting_view s). Qed.

Lemma del_target_waiting o s : Waiting s -> Waiting (del_target o s).
Proof.
  intros W. unfold del_target. destruct (type _); try done; apply use_waiting; try done; apply on_obj_waiting.
Qed.

Lemma on_gate_waiting f s :
  Waiting s -> _wait_q (f (gt s)) = _wait_q (gt s) -> type (f (gt s)) = type (gt s) -> Waiting (on_gate f s).
Proof. intros W Hq Ht. by apply (waiting_view s). Qed.

(** Takes a step apart that does not concern the queue. *)
Ltac waiting_shape :=
  first [ apply touch_waiting; [intros _ | assumption] | apply use_waiting; [intros _ | ]
        | apply go_waiting | apply done_waiting | apply del_target_waiting
        | apply log_waiting | apply on_obj_waiting | apply on_gate_waiting; [| done | done] | assumption ].

Ltac waiting_side s t Ep := try change (pc_of _ t) with (pc_of s t); rewrite ?Ep.

(** Places whose next step moves nobody else and leaves queue and class alone. *)
Definition simple (p : pc) : bool :=
  match p with
  | Load | Have_target _ | Send _ _ | Wait | Dequeue _ | Reenter
  | Bind_target _ _ | Retype_test _ _ | Retype_lock _ _ | Retype_ref _ _ | Retype_id _ _ | Retype_tgt _
  | Retarget_test _ _ | Retarget_ref _ _ | Retarget_id _ _ | Retarget_exchange _ | Retarget_del _
  | Destroy_notify | Destroy_hit _ | Destroy_load | Destroy_store _ | Destroy_del _ | Target_rcu _ _ => true
  | _ => false
  end.

Lemma simple_waiting t s s' :
  Waiting s -> simple (pc_of s t) = true -> run kind_of prio ctxs t s = Some s' -> Waiting s'.
Proof.
  intros W Hs. unfold run. unfold pc_of in Hs. destruct (at_ (threads s t)) eqn:E; try done; clear Hs.
  all: assert (pc_of s t = at_ (threads s t)) as Ep by done; rewrite E in Ep.
  all: try (intros [= <-]).
  all: try (intros [Hq ->]%locked_spec).
  all: unfold load_target, load_id, do_send_ipc, sender_dequeue, bind_target, retype_test, retype_lock, retarget_test, inc_ref,
    retarget_exchange, del_notify, destroy_load.
  all: try (destruct (unblocked_cases state) as [-> | [-> | ->]]).
  all: try match goal with |- (if ?b then _ else _) = _ -> _ => destruct b; [intros [= <-] | done] end.
  all: repeat first [ match goal with |- Waiting (go _ (if ?b then _ else _) _) => destruct b eqn:? end
                    | waiting_shape | match goal with |- Waiting (if ?b then _ else _) => destruct b eqn:? end
                    | match goal with |- Waiting (match ?x with _ => _ end) => destruct x eqn:? end ].
  all: waiting_side s t Ep; simpl; try done; auto.
Qed.
(** * Senders *)

Lemma invoke_waiting t s : Waiting s -> pc_of s t = Invoke -> Waiting (invoke t s).
Proof.
  intros W Ep. apply touch_waiting; [intros _ | done]. destruct (type (gt s)) eqn:Ety.
  2, 3: apply go_waiting; rewrite ?Ep; done.
  2: apply done_waiting; rewrite ?Ep; done.
  apply (waiting_step t Block s); try done; rewrite ?Ep; try done; [intros u; apply pc_go |].
  intros u Hu. simpl. by apply fn_lookup_insert_ne.
Qed.

Lemma elem_of_insert_prio t u q : u ∈ insert_by_prio prio t q <-> u = t \/ u ∈ q.
Proof.
  induction q as [| v q IH]; simpl; [rewrite list_elem_of_singleton; split; [auto | intros [-> | []%not_elem_of_nil]; done] |].
  destruct (prio v <? prio t); rewrite !elem_of_cons; [tauto | rewrite IH; tauto].
Qed.

Lemma NoDup_insert_prio t q : t ∉ q -> NoDup q -> NoDup (insert_by_prio prio t q).
Proof.
  intros Ht. induction 1 as [| v q Hv Hnd IH]; simpl; [apply NoDup_singleton |].
  apply not_elem_of_cons in Ht as [Hne Ht]. destruct (prio v <? prio t).
  - constructor; [| by constructor]. by apply not_elem_of_cons.
  - constructor; [| by apply IH]. rewrite elem_of_insert_prio. intros [-> | ?]; done.
Qed.

(** A sender that is not at a place for it is not in the queue. *)
Lemma not_queued s t : Waiting s -> may_queue (pc_of s t) = false -> t ∉ _wait_q (gt s).
Proof. intros W Hm Hin%(w_queue _ W). congruence. Qed.

Lemma block_waiting t s : Waiting s -> pc_of s t = Block -> Waiting (block prio t s).
Proof.
  intros W Ep. unfold block. set (tval := microsecs _ _).
  destruct (_ && _); [apply done_waiting; rewrite ?Ep; done |]. apply touch_waiting; [intros _ | done].
  assert (t ∉ _wait_q (gt s)) as Hno by (apply not_queued; [done | by rewrite Ep]).
  assert (forall b u, wakes (pc_of s b) u -> b <> t) as Hbt by (intros b u Hw ->; by rewrite Ep in Hw).
  apply (waiting_change t (Enqueued tval) s); try done; simpl.
  - intros u. by rewrite pc_go.
  - intros u Hu. by rewrite fn_lookup_insert_ne.
  - intros u Hu. unfold ready_of. simpl. by rewrite fn_lookup_insert_ne.
  - apply NoDup_insert_prio; [done | apply W].
  - intros u Hu. rewrite elem_of_insert_prio. tauto.
  - intros u Hu Hin. left. apply elem_of_insert_prio. auto.
  - intros u _ Hw. by rewrite Ep in Hw.
  - apply elem_of_insert_prio. auto.
  - intros u _ _ [? | Hc]; [by left | by rewrite Ep in Hc].
  - intros _. destruct (w_stale _ W t Ep) as [? | (b & Hb)]; [by left |]. right; right. exists b.
    apply covers_draining in Hb. split; [intros -> | done]. by rewrite Ep in Hb.
Qed.

Lemma dequeue_waiting t f s : Waiting s -> pc_of s t = Dequeue_lock f -> Waiting (dequeue t f s).
Proof.
  intros W Ep. apply touch_waiting; [intros _ | done].
  apply (waiting_change t (unblocked f) s); try done; simpl.
  - intros u. by rewrite pc_done.
  - intros u Hu. by rewrite fn_lookup_insert_ne.
  - intros u Hu. unfold ready_of. simpl. by rewrite fn_lookup_insert_ne.
  - apply NoDup_filter, W.
  - intros u Hu. rewrite list_elem_of_filter. tauto.
  - intros u Hu Hin. left. by apply list_elem_of_filter.
  - intros u _ Hw. by rewrite Ep in Hw.
  - rewrite list_elem_of_filter. tauto.
  - destruct (unblocked_cases f) as [-> | [-> | ->]]; done.
  - destruct (unblocked_cases f) as [-> | [-> | ->]]; done.
  - intros u _ _ [? | Hc]; [by left | by rewrite Ep in Hc].
  - intros Hq. assert (_wait_q (gt s) <> []) as Hq' by (intros E; by rewrite E in Hq).
    destruct (w_drain _ W Hq') as [? | (b & Hb)]; [by left | right; right; exists b]. split; [intros -> | done]. by rewrite Ep in Hb.
Qed.

Lemma mark_waiting t tval s :
  Waiting s -> pc_of s t = Enqueued tval ->
  Waiting (go t (Arm tval) (on_thread t (set_st (change (Z.lnot Thread_ready) Thread_send_wait)) s)).
Proof.
  intros W Ep. pose proof (w_sleep _ W t) as Hs. unfold sleep_ok in Hs. rewrite Ep in Hs.
  apply (waiting_step t (Arm tval) s); try done; rewrite ?Ep; try done.
  - intros u. rewrite pc_go, pc_st. done.
  - intros u Hu. simpl. by rewrite !fn_lookup_insert_ne.
  - by left.
  - right. by left.
Qed.

Lemma sleep_waiting t tval s : Waiting s -> pc_of s t = Arm tval -> Waiting (on_thread t (sleep tval) s).
Proof.
  intros W Ep. pose proof (w_sleep _ W t) as Hs. unfold sleep_ok in Hs. rewrite Ep in Hs.
  apply (waiting_step t Wait s); try done; rewrite ?Ep; try done.
  - intros u. rewrite pc_on. done.
  - intros u Hu. simpl. by rewrite fn_lookup_insert_ne.
  - by left.
  - unfold ready_of in *. simpl. rewrite fn_lookup_insert. unfold sleep. by destruct (tval =? 0).
Qed.

Lemma woken_waiting t s :
  Waiting s -> pc_of s t = Woken ->
  Waiting (on_thread t (fun x => set_at (Dequeue (st x))
             (set_timer Off (set_st (change (Z.lnot Thread_full_ipc_mask) Thread_ready) x))) s).
Proof.
  intros W Ep. apply (waiting_step t (Dequeue (st (threads s t))) s); try done; rewrite ?Ep; try done.
  - intros u. rewrite pc_on. done.
  - intros u Hu. simpl. by rewrite fn_lookup_insert_ne.
  - by left.
Qed.

(** * Those who empty the queue *)

(** The gate gets another class. *)
Lemma retype_waiting t g f s :
  Waiting s -> draining (pc_of s t) = false -> may_queue (pc_of s t) = false -> (g = Bind_first \/ g = Destroy_first) ->
  _wait_q (f (gt s)) = _wait_q (gt s) -> Waiting (go t (Unblock g) (on_gate f s)).
Proof.
  intros W Hd Hm Hg Hq. assert (t ∉ _wait_q (gt s)) as Hno by (by apply not_queued).
  apply (waiting_change t (Unblock g) s); try done; simpl; rewrite ?Hq; try apply W; auto.
  - intros u. by rewrite pc_go.
  - intros u Hu. by rewrite fn_lookup_insert_ne.
  - intros u Hu. unfold ready_of. simpl. by rewrite fn_lookup_insert_ne.
  - intros u _ Hw%wakes_draining. congruence.
Qed.

(** In a snapshot is everybody who is in a section. *)
Lemma in_snapshot s u : u ∈ ctxs -> section (pc_of s u) = true -> (u, passed (threads s u)) ∈ take_snapshot ctxs s.
Proof.
  intros Hu Hs. unfold take_snapshot. apply list_elem_of_fmap. exists u. split; [done |]. by apply list_elem_of_filter.
Qed.

Lemma grace_over_spec s l u n : grace_over s l = true -> (u, n) ∈ l -> (n < passed (threads s u))%nat.
Proof.
  unfold grace_over. rewrite forallb_forall. intros Hall Hin%list_elem_of_In. apply Hall in Hin. by apply bool_decide_eq_true in Hin.
Qed.

Lemma ready_go t p s u : ready_of s u -> ready_of (go t p s) u.
Proof.
  unfold ready_of. simpl. destruct (decide (u = t)) as [-> |]; [by rewrite fn_lookup_insert | by rewrite fn_lookup_insert_ne].
Qed.

Lemma ready_activate s w u : ready_of s u \/ u = w -> ready_of (activate w s) u.
Proof.
  unfold ready_of, activate. simpl. destruct (decide (u = w)) as [-> | Hne].
  - rewrite fn_lookup_insert. simpl. intros _. unfold has, add. rewrite Z.land_lor_distr_l. apply nonzero_spec.
    intros [_ H]%Z.lor_eq_0_iff. done.
  - rewrite fn_lookup_insert_ne by done. by intros [? | ?].
Qed.

Lemma ready_cancel s w u : ready_of s u -> ready_of (cancel_wait w s) u.
Proof.
  unfold ready_of, cancel_wait. simpl. destruct (decide (u = w)) as [-> | Hne].
  - rewrite fn_lookup_insert. simpl. intros H. unfold has, change in *. rewrite Z.land_lor_distr_l, <- Z.land_assoc.
    change (Z.lnot Thread_send_wait .& Thread_ready) with Thread_ready. apply nonzero_spec in H. apply nonzero_spec.
    by intros [? _]%Z.lor_eq_0_iff.
  - by rewrite fn_lookup_insert_ne by done.
Qed.
Lemma dequeue_first_waiting t g s :
  Waiting s -> Control ctxs s -> pc_of s t = Unblock g -> orderly ctxs (L_run t) s -> Waiting (dequeue_first ctxs t g s).
Proof.
  intros W C Ep Ho. simpl in Ho. rewrite Ep in Ho. apply touch_waiting; [intros _ | done].
  assert (t ∉ _wait_q (gt s)) as Hno by (apply not_queued; [done | by rewrite Ep]).
  destruct (_wait_q (gt s)) as [| w q] eqn:Eq.
  - assert (exists p, (forall u, pc_of (unblocked_all ctxs t g s) u = if decide (u = t) then p else pc_of s u) /\
              quiet p = true /\ (forall u, u <> t -> pc_of s u = Block -> covers (Unblock g) u (passed (threads s u)) ->
              covers p u (passed (threads s u)))) as (p & Hp & Hqp & Hc).
    { assert (forall u, pc_of s u = Block -> (u, passed (threads s u)) ∈ take_snapshot ctxs s) as Hsn.
      { intros u Hu. apply in_snapshot; [apply C |]; by rewrite Hu. }
      destruct g; simpl; eexists; (split; [intros u; first [by rewrite pc_go | by rewrite pc_done] |]);
        (split; [done |]); intros u _ Hu; simpl; first [by intros _; apply Hsn | by intros [? | ?]]. }
    assert (_wait_q (gt (unblocked_all ctxs t g s)) = []) as Hq' by (by destruct g).
    assert (type (gt (unblocked_all ctxs t g s)) = type (gt s)) as Hty by (by destruct g).
    assert (forall u, u <> t -> threads (unblocked_all ctxs t g s) u = threads s u) as Hth.
    { intros u Hu. destruct g; simpl; by apply fn_lookup_insert_ne. }
    apply (waiting_change t p s); try done; rewrite ?Hq', ?Hty, ?Eq; try done.
    + intros u Hu. by rewrite Hth.
    + intros u Hu. unfold ready_of. by rewrite Hth.
    + constructor.
    + by intros u _ ?%not_elem_of_nil.
    + intros u _ Hw. by rewrite Ep in Hw.
    + by destruct p.
    + by intros ->.
    + intros u Hu Hb. rewrite Ep. intros [? | Hcv]; [by left | right; by apply Hc].
  - assert (forall p, (p = Wake_cancel w g \/ p = Wake w g) -> Waiting (go t p (on_gate (set_queue q) s))) as Hgen.
    { intros p Hp. pose proof (w_nodup _ W) as Hnd. rewrite Eq in Hnd. apply NoDup_cons in Hnd as [Hw Hnd].
      apply not_elem_of_cons in Hno as [Hwt Hno].
      apply (waiting_change t p s); try done; simpl; rewrite ?Eq.
      - intros u. by rewrite pc_go.
      - intros u Hu. by rewrite fn_lookup_insert_ne.
      - intros u Hu. unfold ready_of. simpl. by rewrite fn_lookup_insert_ne.
      - intros u _ Hin. by apply elem_of_cons; right.
      - intros u _ [-> | Hin]%elem_of_cons; [right | by left]. split; [destruct Hp as [-> | ->]; done | by destruct (pc_of s w)].
      - intros u _ Hwk. by rewrite Ep in Hwk.
      - destruct Hp as [-> | ->]; done.
      - destruct Hp as [-> | ->]; done.
      - intros u _ _. rewrite Ep. intros [? | Hc]; [by left | right]. destruct Hp as [-> | ->]; done.
      - intros _. right; left. destruct Hp as [-> | ->]; done. }
    destruct (aborts g); apply Hgen; auto.
Qed.

(** A step of a context that empties the queue, to another such place. *)
Lemma drain_step t p s s' :
  Waiting s -> pc_of s t <> User -> may_queue (pc_of s t) = false -> draining p = true ->
  (forall u, pc_of s' u = if decide (u = t) then p else pc_of s u) ->
  (forall u, u <> t -> passed (threads s' u) = passed (threads s u)) ->
  (forall u, u <> t -> ready_of s u -> ready_of s' u) -> gt s' = gt s ->
  (forall u, wakes (pc_of s t) u -> wakes p u \/ ready_of s' u) ->
  (forall u, pc_of s u = Block -> covers (pc_of s t) u (passed (threads s u)) -> covers p u (passed (threads s u))) ->
  Waiting s'.
Proof.
  intros W Hnu Hm Hd Hp Hpa Hr Hg Hw Hc.
  assert (t ∉ _wait_q (gt s)) as Hno by (by apply not_queued).
  apply (waiting_change t p s); try done; rewrite ?Hg; try apply W; auto.
  - by destruct p.
  - intros ->. done.
  - intros u _ Hu [? | ?]; auto.
Qed.

Lemma cancel_waiting t w g s :
  Waiting s -> pc_of s t = Wake_cancel w g -> Waiting (go t (Wake w g) (cancel_wait w s)).
Proof.
  intros W Ep. apply (drain_step t (Wake w g) s); rewrite ?Ep; try done; auto.
  - intros u. unfold cancel_wait. by rewrite pc_go, pc_st.
  - intros u Hu. simpl. rewrite fn_lookup_insert_ne by done. destruct (decide (u = w)) as [-> |];
      [by rewrite fn_lookup_insert | by rewrite fn_lookup_insert_ne].
  - intros u Hu Hr. by apply ready_go, ready_cancel.
Qed.

Lemma wake_waiting t w g s :
  Waiting s -> pc_of s t = Wake w g -> Waiting (go t (Unblock g) (activate w s)).
Proof.
  intros W Ep. pose proof (ready_go t (Unblock g) (activate w s)) as Hgo.
  apply (drain_step t (Unblock g) s); rewrite ?Ep; try done; auto.
  - intros u. unfold activate. by rewrite pc_go, pc_st.
  - intros u Hu. simpl. rewrite fn_lookup_insert_ne by done. destruct (decide (u = w)) as [-> |];
      [by rewrite fn_lookup_insert | by rewrite fn_lookup_insert_ne].
  - intros u Hu Hr. apply Hgo, ready_activate. by left.
  - intros u Hu. simpl in Hu. subst u. right. apply Hgo, ready_activate. by right.
Qed.

Lemma grace_waiting t l g s :
  Waiting s -> pc_of s t = Rcu l g -> grace_over s l = true -> Waiting (go t (Unblock (after_grace g)) s).
Proof.
  intros W Ep Hg. apply (drain_step t (Unblock (after_grace g)) s); rewrite ?Ep; try done; auto.
  - intros u. apply pc_go.
  - intros u Hu. simpl. by rewrite fn_lookup_insert_ne.
  - intros u Hu. unfold ready_of. simpl. by rewrite fn_lookup_insert_ne.
  - intros u _ Hin%(grace_over_spec s l); [lia | done].
Qed.

(** * Every orderly step keeps the invariant *)

Lemma run_waiting t s s' :
  Waiting s -> Control ctxs s -> orderly ctxs (L_run t) s -> run kind_of prio ctxs t s = Some s' -> Waiting s'.
Proof.
  intros W C Ho Hr. destruct (simple (pc_of s t)) eqn:Hs; [by apply (simple_waiting t s) |]. revert Hr.
  unfold run. destruct (pc_of s t) eqn:Ep; try done; unfold pc_of in Ep; rewrite Ep; try (intros [= <-]); try (intros [Hl ->]%locked_spec).
  - by apply invoke_waiting.
  - by apply block_waiting.
  - by apply mark_waiting.
  - by apply sleep_waiting.
  - by apply woken_waiting.
  - by apply (dequeue_waiting t state).
  - apply touch_waiting; [intros _ | done]. apply retype_waiting; try done; unfold pc_of; rewrite ?Ep; auto.
  - by apply dequeue_first_waiting.
  - by apply cancel_waiting.
  - by apply wake_waiting.
  - destruct (grace_over s l) eqn:Eg; [| done]. intros [= <-]. by apply (grace_waiting t l).
  - apply touch_waiting; [intros _ | done]. apply retype_waiting; try done; unfold pc_of; rewrite ?Ep; auto.
Qed.

Lemma enter_waiting t p r to s :
  Waiting s -> pc_of s t = User -> quiet p = true -> draining p = false -> Waiting (on_thread t (enter p r to) s).
Proof.
  intros W Ep Hq Hd. apply (waiting_step t p s); rewrite ?Ep; try done.
  - intros u. by rewrite pc_on.
  - intros u Hu. simpl. by apply fn_lookup_insert_ne.
  - by destruct p.
  - by intros ->.
Qed.

Lemma st_waiting t f s :
  Waiting s -> (has Thread_ready (st (threads s t)) = true -> has Thread_ready (st (f (threads s t))) = true) ->
  at_ (f (threads s t)) = at_ (threads s t) -> passed (f (threads s t)) = passed (threads s t) -> Waiting (on_thread t f s).
Proof.
  intros W Hr Ha Hp. apply (waiting_same s); try done.
  - intros u. rewrite pc_on. destruct (decide (u = t)) as [-> |]; [done | done].
  - intros u. simpl. destruct (decide (u = t)) as [-> |]; [by rewrite fn_lookup_insert | by rewrite fn_lookup_insert_ne].
  - intros u. unfold ready_of. simpl. destruct (decide (u = t)) as [-> |]; [by rewrite fn_lookup_insert | by rewrite fn_lookup_insert_ne].
Qed.

Lemma has_ready_add b w : has Thread_ready w = true -> has Thread_ready (add b w) = true.
Proof.
  unfold has, add. rewrite Z.land_lor_distr_l, !nonzero_spec. by intros Hw [? _]%Z.lor_eq_0_iff.
Qed.

Lemma step_waiting l s s' :
  Waiting s -> Control ctxs s -> orderly ctxs l s -> step kind_of prio ctxs l s = Some s' -> Waiting s'.
Proof.
  intros W C Ho. destruct l; simpl.
  - destruct (in_user _ _ _) eqn:Eu; [| done]. destruct (valid s) eqn:Ev; [| done]. intros [= <-].
    apply in_user_spec in Eu as [? ?]. by apply enter_waiting.
  - by apply run_waiting.
  - destruct (at_ (threads s t)) eqn:E; try done. intros [= <-].
    assert (pc_of s t = Ret r) as Ep by done. apply go_waiting; rewrite ?Ep; done.
  - destruct (in_user _ _ _) eqn:Eu; [| done]. destruct (valid s) eqn:Ev; [| done].
    destruct (obj_valid _); [| done]. intros [= <-].
    apply in_user_spec in Eu as [? ?]. by apply enter_waiting.
  - destruct (in_user _ _ _) eqn:Eu; [| done]. destruct (valid s) eqn:Ev; [| done]. intros [= <-].
    apply in_user_spec in Eu as [? ?]. apply (waiting_view (on_thread t (enter Destroy_notify 0 Never) s)); try done. by apply enter_waiting.
  - destruct (in_user _ _ _) eqn:Eu; [| done]. destruct (obj_valid _); [| done]. intros [= <-].
    apply in_user_spec in Eu as [? ?]. apply enter_waiting; try done. by apply on_obj_waiting.
  - destruct (timeout_q _); try done. destruct (at_ (threads s t)) eqn:E; try done. destruct (_ <=? _); [| done].
    intros [= <-]. apply st_waiting; [done | | |]; unfold expired; simpl; destruct (_ || _); try done. apply has_ready_add.
  - destruct (at_ (threads s t)) eqn:E; try done; intros [= <-]; apply st_waiting; try done; apply has_ready_add.
  - destruct (_ <=? _); [| done]. intros [= <-]. by apply (waiting_view s).
Qed.
End waiting.
