(* ===== verification/GateMem.v ===== *)
(** Memory of IPC gates and their targets: reference counters are exact, a target
    is freed when its counter reaches zero and not used afterwards, and nobody
    uses the gate after it has been freed. *)

From stdpp Require Import functions.
From S2P Require Import Prelude L4Types Ipc Gate GateInv GateWait.
Import Thread_state.
#[local] Arguments Z.testbit : simpl never.
#[local] Arguments has : simpl never.

Section memory.
Context (kind_of : Z -> kind) (prio : Z -> Z) (ctxs : list Z) (Hctxs : NoDup ctxs).

(** * The invariant *)

Definition one (P : Prop) `{Decision P} : Z := if decide P then 1 else 0.

(** Counted references of contexts that are about to store or to drop them. *)
Fixpoint count (f : Z -> pc) (o : Z) (l : list Z) : Z :=
  match l with [] => 0 | u :: l => one (holds (f u) = Some o) + count f o l end.
Definition held (s : state) (o : Z) : Z := count (pc_of s) o ctxs.

(** A context at [p] will use the memory of the gate. *)
Definition uses_gate (p : pc) : bool :=
  touching p || binding p || destroying p || match p with Dequeue_lock _ => true | _ => false end.

(** After the grace period of its deletion no sender uses the gate. *)
Definition stage_ok (s : state) (p : pc) : Prop :=
  match p with
  | Rcu l Destroy_first => forall u, touching (pc_of s u) = true -> (u, passed (threads s u)) ∈ l
  | Rcu _ Destroy_last | Unblock Destroy_last | Wake_cancel _ Destroy_last | Wake _ Destroy_last =>
      forall u, touching (pc_of s u) = false
  | _ => True
  end.

Record Memory (s : state) : Prop := {
  m_refs o : ref_cnt (objs s o) = one (own (objs s o) = true) + one (_tgt (gt s) = Some o) + held s o;
  m_gone o : gone (objs s o) = true <-> ref_cnt (objs s o) = 0;
  m_own o : obj_valid (objs s o) = true -> own (objs s o) = true;
  m_tgt o : _tgt (gt s) = Some o -> obj_valid (objs s o) = true;
  m_binds t o : binds_to (pc_of s t) = Some o -> obj_valid (objs s o) = true;
  m_loaded t o : loaded (pc_of s t) = Some o ->
    own (objs s o) = true /\ forall b l, pc_of s b = Target_rcu l o -> (t, passed (threads s t)) ∈ l;
  m_rcu b l o : pc_of s b = Target_rcu l o -> obj_valid (objs s o) = false /\ own (objs s o) = true;
  m_one a b l l' o : pc_of s a = Target_rcu l o -> pc_of s b = Target_rcu l' o -> a = b;
  m_free : freed (gt s) = true -> _wait_q (gt s) = [] /\ valid s = false /\ forall t, uses_gate (pc_of s t) = false;
  m_stage t : stage_ok s (pc_of s t);
  m_fault : fault s = false }.

(** ** Counting *)

Lemma one_nonneg (P : Prop) `{Decision P} : 0 <= one P.
Proof. unfold one. by destruct (decide P). Qed.

Lemma users_nonneg f o l : 0 <= count f o l.
Proof. induction l as [| u l IH]; simpl; [done |]. pose proof (one_nonneg (holds (f u) = Some o)). lia. Qed.

Lemma count_same f g o l : (forall u, u ∈ l -> g u = f u) -> count g o l = count f o l.
Proof.
  induction l as [| u l IH]; intros Hs; simpl; [done |].
  rewrite (Hs u), IH; [done | intros v Hv; apply Hs | ]; apply elem_of_cons; auto.
Qed.

Lemma count_change f g t o l :
  NoDup l -> (forall u, u <> t -> g u = f u) -> t ∈ l ->
  count g o l = count f o l - one (holds (f t) = Some o) + one (holds (g t) = Some o).
Proof.
  intros Hnd Hne. induction Hnd as [| u l Hu Hnd IH]; [by intros ?%not_elem_of_nil |].
  intros [-> | Hin]%elem_of_cons; simpl.
  - rewrite (count_same f g o l) by (intros v Hv; apply Hne; by intros ->). lia.
  - rewrite (IH Hin), (Hne u) by (by intros ->). lia.
Qed.

Lemma held_step s s' t p o :
  (forall u, pc_of s' u = if decide (u = t) then p else pc_of s u) -> t ∈ ctxs ->
  held s' o = held s o - one (holds (pc_of s t) = Some o) + one (holds p = Some o).
Proof using Hctxs.
  intros Hp Ht. unfold held. rewrite (count_change (pc_of s) (pc_of s') t) by (try done; intros u Hu; rewrite Hp; by destruct (decide (u = t))).
  rewrite Hp. by destruct (decide (t = t)).
Qed.

(** A reference that a context holds is counted. *)
Lemma held_at s t o : holds (pc_of s t) = Some o -> t ∈ ctxs -> 1 <= held s o.
Proof.
  intros Hh. unfold held. induction ctxs as [| u l IH]; [by intros ?%not_elem_of_nil |].
  intros [<- | Hin]%elem_of_cons; simpl.
  - unfold one at 1. rewrite decide_True by done. pose proof (users_nonneg (pc_of s) o l). lia.
  - pose proof (one_nonneg (holds (pc_of s u) = Some o)). assert (NoDup l) by (by inversion Hctxs). specialize (IH H0 Hin). lia.
Qed.

(** ** What is alive *)

Lemma own_alive s o : Memory s -> own (objs s o) = true -> gone (objs s o) = false.
Proof.
  intros M Ho. apply not_true_iff_false. rewrite (m_gone _ M), (m_refs _ M). unfold one at 1. rewrite decide_True by done.
  pose proof (users_nonneg (pc_of s) o ctxs). pose proof (one_nonneg (_tgt (gt s) = Some o)). unfold held. lia.
Qed.

Lemma held_alive s t o : Memory s -> t ∈ ctxs -> holds (pc_of s t) = Some o -> gone (objs s o) = false.
Proof.
  intros M Ht Hh. apply not_true_iff_false. rewrite (m_gone _ M), (m_refs _ M).
  pose proof (held_at s t o Hh Ht). pose proof (one_nonneg (_tgt (gt s) = Some o)). pose proof (one_nonneg (own (objs s o) = true)). lia.
Qed.

Lemma touch_ok k s t : Memory s -> uses_gate (pc_of s t) = true -> touch k s = k s.
Proof.
  intros M Hu. unfold touch. destruct (freed (gt s)) eqn:E; [| done].
  destruct (m_free _ M E) as (_ & _ & Hf). by rewrite Hf in Hu.
Qed.

Lemma use_ok o k s : gone (objs s o) = false -> use o k s = k s.
Proof. unfold use. by intros ->. Qed.
(** ** Steps in general *)

Lemma stage_mono t p s s' q :
  (forall u, pc_of s' u = if decide (u = t) then p else pc_of s u) ->
  (forall u, u <> t -> passed (threads s' u) = passed (threads s u)) ->
  (touching p = true -> touching (pc_of s t) = true /\ passed (threads s' t) = passed (threads s t)) ->
  stage_ok s q -> stage_ok s' q.
Proof.
  intros Hp Hn Ht.
  assert (forall u, touching (pc_of s' u) = true -> touching (pc_of s u) = true /\ passed (threads s' u) = passed (threads s u)) as Hu.
  { intros u. rewrite Hp. destruct (decide (u = t)) as [-> |]; auto. }
  assert ((forall u, touching (pc_of s u) = false) -> forall u, touching (pc_of s' u) = false) as Hlast.
  { intros H u. apply not_true_iff_false. intros [Hc _]%Hu. by rewrite H in Hc. }
  destruct q; simpl; try done; try (destruct g; try done).
  intros Hall u [Hc Hpa]%Hu. rewrite Hpa. auto.
Qed.

Lemma memory_change t p s s' :
  Memory s -> t ∈ ctxs ->
  (forall u, pc_of s' u = if decide (u = t) then p else pc_of s u) ->
  (forall u, u <> t -> passed (threads s' u) = passed (threads s u)) ->
  (forall o, ref_cnt (objs s' o) = one (own (objs s' o) = true) + one (_tgt (gt s') = Some o) +
             (held s o - one (holds (pc_of s t) = Some o) + one (holds p = Some o))) ->
  (forall o, gone (objs s' o) = true <-> ref_cnt (objs s' o) = 0) ->
  (forall o, obj_valid (objs s' o) = true -> own (objs s' o) = true) ->
  (forall o, _tgt (gt s') = Some o -> obj_valid (objs s' o) = true) ->
  (forall u o, u <> t -> binds_to (pc_of s u) = Some o -> obj_valid (objs s' o) = true) ->
  (forall o, binds_to p = Some o -> obj_valid (objs s' o) = true) ->
  (forall u o, u <> t -> loaded (pc_of s u) = Some o -> own (objs s' o) = true /\
     forall l, p = Target_rcu l o -> (u, passed (threads s u)) ∈ l) ->
  (forall o, loaded p = Some o -> own (objs s' o) = true /\
     forall b l, b <> t -> pc_of s b = Target_rcu l o -> (t, passed (threads s' t)) ∈ l) ->
  (forall b l o, b <> t -> pc_of s b = Target_rcu l o -> obj_valid (objs s' o) = false /\ own (objs s' o) = true) ->
  (forall l o, p = Target_rcu l o -> (obj_valid (objs s' o) = false /\ own (objs s' o) = true) /\
     forall b l', b <> t -> pc_of s b <> Target_rcu l' o) ->
  (freed (gt s') = true -> _wait_q (gt s') = [] /\ valid s' = false /\ uses_gate p = false /\
     forall u, u <> t -> uses_gate (pc_of s u) = false) ->
  stage_ok s' p -> (forall b, b <> t -> stage_ok s (pc_of s b) -> stage_ok s' (pc_of s b)) ->
  fault s' = false -> Memory s'.
Proof using Hctxs.
  intros M Ht Hp Hn Hrefs Hgone Hown Htgt Hb Hbp Hl Hlp Hr Hrp Hf Hst Hso Hfault.
  assert (forall b, b <> t -> pc_of s' b = pc_of s b) as Hne by (intros b ?; rewrite Hp; by destruct (decide (b = t))).
  assert (pc_of s' t = p) as Hpt by (rewrite Hp; by destruct (decide (t = t))).
  split; try done.
  - intros o. by rewrite (held_step s s' t p o).
  - intros u o. destruct (decide (u = t)) as [-> | Hu]; [rewrite Hpt; apply Hbp | rewrite Hne by done; by apply Hb].
  - intros u o. destruct (decide (u = t)) as [-> | Hu].
    + rewrite Hpt. intros Hlo. destruct (Hlp o Hlo) as [Ho Hx]. split; [done |]. intros b l.
      destruct (decide (b = t)) as [-> | Hbt]; [rewrite Hpt; by intros -> | rewrite Hne by done; by apply Hx].
    + rewrite Hne, Hn by done. intros Hlo. destruct (Hl u o Hu Hlo) as [Ho Hx]. split; [done |]. intros b l.
      destruct (decide (b = t)) as [-> | Hbt]; [rewrite Hpt; apply Hx | rewrite Hne by done; by apply M].
  - intros b l o. destruct (decide (b = t)) as [-> | Hbt]; [rewrite Hpt; intros H; by apply (Hrp l o) |].
    rewrite Hne by done. by apply Hr.
  - intros a b l l' o.
    destruct (decide (a = t)) as [-> | Ha], (decide (b = t)) as [-> | Hbt]; rewrite ?Hpt, ?Hne by done; [done | | |].
    + intros H H'. destruct (Hrp l o H) as [_ Hx]. by apply Hx in H'.
    + intros H H'. destruct (Hrp l' o H') as [_ Hx]. by apply Hx in H.
    + apply M.
  - intros Hfr. destruct (Hf Hfr) as (? & ? & ? & Hu). split_and!; try done. intros u.
    destruct (decide (u = t)) as [-> | ?]; [by rewrite Hpt | rewrite Hne by done; auto].
  - intros u. destruct (decide (u = t)) as [-> | ?]; [by rewrite Hpt |]. rewrite Hne by done. apply Hso; [done | apply M].
Qed.

(** A step of [t] that leaves the targets alone. *)
Lemma memory_step t p s s' :
  Memory s -> t ∈ ctxs ->
  (forall u, pc_of s' u = if decide (u = t) then p else pc_of s u) ->
  (forall u, u <> t -> passed (threads s' u) = passed (threads s u)) ->
  objs s' = objs s -> _tgt (gt s') = _tgt (gt s) -> freed (gt s') = freed (gt s) -> valid s' = valid s -> fault s' = false ->
  (freed (gt s) = true -> _wait_q (gt s) = [] -> _wait_q (gt s') = []) ->
  holds p = holds (pc_of s t) ->
  (binds_to p = None \/ binds_to p = binds_to (pc_of s t)) ->
  (loaded p = None \/ loaded p = loaded (pc_of s t) /\ passed (threads s' t) = passed (threads s t)) ->
  (uses_gate p = true -> uses_gate (pc_of s t) = true \/ freed (gt s) = false) ->
  (touching p = true -> touching (pc_of s t) = true /\ passed (threads s' t) = passed (threads s t)) ->
  (forall l o, p <> Target_rcu l o) -> (forall l o, pc_of s t <> Target_rcu l o) -> stage_ok s p -> Memory s'.
Proof using Hctxs.
  intros M Ht Hp Hn Ho Htg Hfr Hv Hfa Hq Hh Hb Hl Hu Hto Hnr Hnr' Hst.
  apply (memory_change t p s); rewrite ?Ho, ?Htg, ?Hfr, ?Hv; try done; try apply M.
  - intros o. rewrite Hh. rewrite (m_refs _ M). lia.
  - intros u o _. apply M.
  - intros o Hbo. destruct Hb as [Hb | Hb]; [congruence |]. apply (m_binds _ M t). congruence.
  - intros u o _ Hlo. split; [by apply (m_loaded _ M u o) |]. intros l ->. by destruct (Hnr l o).
  - intros o Hlo. destruct Hl as [Hl | [Hl Hpa]]; [congruence |]. rewrite Hl in Hlo. destruct (m_loaded _ M t o Hlo) as [Hown Hx].
    split; [done |]. intros b l _. rewrite Hpa. apply Hx.
  - intros b l o _. apply M.
  - intros l o ->. by destruct (Hnr l o).
  - intros Hf. destruct (m_free _ M Hf) as (Hqe & Hvf & Huf). split_and!; auto.
    apply not_true_iff_false. intros [Hc | Hc]%Hu; [by rewrite Huf in Hc | congruence].
  - by apply (stage_mono t p s).
  - intros b _. by apply (stage_mono t p s).
Qed.
(** * Steps without references *)

Lemma go_memory t p s :
  Memory s -> t ∈ ctxs -> holds p = holds (pc_of s t) -> (binds_to p = None \/ binds_to p = binds_to (pc_of s t)) ->
  (loaded p = None \/ loaded p = loaded (pc_of s t)) -> (uses_gate p = true -> uses_gate (pc_of s t) = true \/ freed (gt s) = false) ->
  (touching p = true -> touching (pc_of s t) = true) ->
  (forall l o, p <> Target_rcu l o) -> (forall l o, pc_of s t <> Target_rcu l o) -> stage_ok s p -> Memory (go t p s).
Proof using Hctxs.
  intros M Ht Hh Hb Hl Hu Hto Hn Hn' Hst.
  assert (passed (threads (go t p s) t) = passed (threads s t)) as Hpa by (simpl; by rewrite fn_lookup_insert).
  apply (memory_step t p s); try done; try apply M; auto.
  - intros u. apply pc_go.
  - intros u Hne. simpl. by rewrite fn_lookup_insert_ne.
  - destruct Hl; auto.
Qed.

Lemma done_memory t p s :
  Memory s -> t ∈ ctxs -> holds p = holds (pc_of s t) -> binds_to p = None -> loaded p = None -> uses_gate p = false ->
  (forall l o, p <> Target_rcu l o) -> (forall l o, pc_of s t <> Target_rcu l o) -> Memory (done t p s).
Proof using Hctxs.
  intros M Ht Hh Hb Hl Hu Hn Hn'.
  apply (memory_step t p s); try done; try apply M; auto.
  - intros u. apply pc_done.
  - intros u Hne. simpl. by rewrite fn_lookup_insert_ne.
  - intros Hc. congruence.
  - intros Hc. unfold uses_gate in Hu. by rewrite Hc in Hu.
  - destruct p as [| | | | | | | | | | | | | | | | | | | | | | | | | | g | ? g | ? g | ? g | | | | | | |]; try done; by destruct g.
Qed.

(** Changes that the invariant does not see. *)
Lemma memory_view s s' :
  Memory s -> (forall u, pc_of s' u = pc_of s u) -> (forall u, passed (threads s' u) = passed (threads s u)) ->
  objs s' = objs s -> _tgt (gt s') = _tgt (gt s) -> freed (gt s') = freed (gt s) -> valid s' = valid s -> fault s' = fault s ->
  (freed (gt s) = true -> _wait_q (gt s) = [] -> _wait_q (gt s') = []) -> Memory s'.
Proof.
  intros M Hp Hn Ho Htg Hf Hv Hfa Hq.
  assert (forall o, held s' o = held s o) as Hh by (intros o; unfold held; apply count_same; intros u _; apply Hp).
  assert (forall q, stage_ok s q -> stage_ok s' q) as Hst.
  { intros q. destruct q; simpl; try done; try (destruct g; try done); intros H u; rewrite ?Hp, ?Hn; apply H. }
  split.
  - intros o. rewrite Ho, Htg, Hh. apply M.
  - rewrite Ho. apply M.
  - rewrite Ho. apply M.
  - rewrite Ho, Htg. apply M.
  - intros t o. rewrite Hp, Ho. apply M.
  - intros t o. rewrite Hp, Ho, Hn. intros [Hown Hx]%(m_loaded _ M). split; [done |]. intros b l. rewrite Hp. apply Hx.
  - intros b l o. rewrite Hp, Ho. apply M.
  - intros a b l l' o. rewrite !Hp. apply M.
  - rewrite Hf, Hv. intros Hfr. destruct (m_free _ M Hfr) as (Hqe & ? & Hu). split_and!; auto. intros u. by rewrite Hp.
  - intros u. rewrite Hp. apply Hst, M.
  - rewrite Hfa. apply M.
Qed.

Lemma on_gate_memory f s :
  Memory s -> _tgt (f (gt s)) = _tgt (gt s) -> freed (f (gt s)) = freed (gt s) ->
  (freed (gt s) = true -> _wait_q (gt s) = [] -> _wait_q (f (gt s)) = []) -> Memory (on_gate f s).
Proof. intros M Ht Hf Hq. by apply (memory_view s). Qed.

Lemma log_memory t o l s : Memory s -> Memory (log t o l s).
Proof. intros M. by apply (memory_view s). Qed.

Lemma st_memory t f s : Memory s -> at_ (f (threads s t)) = at_ (threads s t) -> passed (f (threads s t)) = passed (threads s t) -> Memory (on_thread t f s).
Proof.
  intros M Ha Hp. apply (memory_view s); try done; auto.
  - intros u. rewrite pc_on. by destruct (decide (u = t)) as [-> |].
  - intros u. simpl. destruct (decide (u = t)) as [-> |]; [by rewrite fn_lookup_insert | by rewrite fn_lookup_insert_ne].
Qed.

Lemma touch_memory t k s : (Memory s -> freed (gt s) = false -> Memory (k s)) -> Memory s -> uses_gate (pc_of s t) = true -> Memory (touch k s).
Proof.
  intros Hk M Hu. unfold touch. destruct (freed (gt s)) eqn:E; [| auto].
  destruct (m_free _ M E) as (_ & _ & Hf). by rewrite Hf in Hu.
Qed.

(** Takes a step apart that does not concern the targets. *)
Ltac memory_shape t :=
  first [ apply (touch_memory t); [intros _ ? | assumption | ]
        | apply go_memory | apply done_memory | apply log_memory | apply on_gate_memory; [| done | done | try done] | assumption ].

Ltac memory_side s t Ep := try change (pc_of _ t) with (pc_of s t); rewrite ?Ep.

(** Places whose next step neither loads nor counts references and does not
    begin or end a use of the gate. *)
Definition plain (p : pc) : bool :=
  match p with
  | Invoke | Have_target _ | Wait | Dequeue _ | Bind_target _ _ | Retype_test _ _ | Retype_lock _ _ | Retype_id _ _
  | Retarget_test _ _ | Retarget_id _ _ | Dequeue_lock _ | Block
  | Retype_construct _ | Destroy_notify | Destroy_load | Destroy_retype => true
  | _ => false
  end.

Lemma plain_memory t s s' :
  Memory s -> t ∈ ctxs -> plain (pc_of s t) = true -> run kind_of prio ctxs t s = Some s' -> Memory s'.
Proof using Hctxs.
  intros M Ht Hs. unfold run. unfold pc_of in Hs. destruct (at_ (threads s t)) eqn:E; try done; clear Hs.
  all: assert (pc_of s t = at_ (threads s t)) as Ep by done; rewrite E in Ep.
  all: try (intros [= <-]).
  all: try (intros [Hq ->]%locked_spec).
  all: unfold invoke, load_id, block, sender_dequeue, dequeue, bind_target, retype_test, retype_lock, retype_construct, retarget_test,
    del_notify, destroy_load.
  all: try (destruct (unblocked_cases state) as [-> | [-> | ->]]).
  all: try match goal with |- (if ?b then _ else _) = _ -> _ => destruct b; [intros [= <-] | done] end.
  all: repeat first [ match goal with |- Memory (go _ (if ?b then _ else _) _) => destruct b eqn:? end
                    | memory_shape t | match goal with |- Memory (if ?b then _ else _) => destruct b eqn:? end
                    | match goal with |- Memory (match ?x with _ => _ end) => destruct x eqn:? end ].
  all: memory_side s t Ep; simpl; try done; auto; try congruence.
  all: intros _; right; apply not_true_iff_false; intros Hfr; destruct (m_free _ M Hfr) as (Hqe & _).
  all: eapply not_elem_of_nil; rewrite <- Hqe; eassumption.
Qed.

(** * Senders *)

Lemma load_memory t s : Memory s -> t ∈ ctxs -> pc_of s t = Load -> Memory (load_target t s).
Proof using Hctxs.
  intros M Ht Ep. apply (touch_memory t); [intros _ Hfr | done | by rewrite Ep]. destruct (_tgt (gt s)) as [o |] eqn:Etg.
  2: { apply done_memory; rewrite ?Ep; done. }
  assert (obj_valid (objs s o) = true) as Hval by (by apply M).
  apply (memory_change t (Have_target o) s); try done; simpl; try apply M.
  - intros u. by rewrite pc_go.
  - intros u Hu. by rewrite fn_lookup_insert_ne.
  - intros o'. rewrite Ep, (m_refs _ M). simpl. lia.
  - intros u o' _. apply M.
  - intros u o' _ Hlo. split; [by apply (m_loaded _ M u o') | done].
  - intros o' [= <-]. split; [by apply M |]. intros b l _ Hb. destruct (m_rcu _ M b l o Hb). congruence.
  - intros b l o' _. apply M.
  - congruence.
  - intros b _. apply (stage_mono t (Have_target o) s); try done.
    + intros u. by rewrite pc_go.
    + intros u Hu. simpl. by rewrite fn_lookup_insert_ne.
    + intros _. rewrite Ep. simpl. by rewrite fn_lookup_insert.
Qed.

Lemma send_memory t o l s : Memory s -> t ∈ ctxs -> pc_of s t = Send o l -> Memory (do_send_ipc t o l s).
Proof using Hctxs.
  intros M Ht Ep. unfold do_send_ipc. destruct (m_loaded _ M t o) as [Hown _]; [by rewrite Ep |].
  rewrite use_ok by (by apply own_alive). apply done_memory; rewrite ?Ep; try done.
  - by apply log_memory.
  - change (pc_of (log t o l s) t) with (pc_of s t). by rewrite Ep.
  - intros k o'. change (pc_of (log t o l s) t) with (pc_of s t). by rewrite Ep.
Qed.

Lemma mark_memory t tval s :
  Memory s -> t ∈ ctxs -> pc_of s t = Enqueued tval ->
  Memory (go t (Arm tval) (on_thread t (set_st (change (Z.lnot Thread_ready) Thread_send_wait)) s)).
Proof using Hctxs.
  intros M Ht Ep. apply go_memory; rewrite ?pc_st, ?Ep; try done; try (by apply st_memory); auto.
Qed.

Lemma sleep_memory t tval s : Memory s -> t ∈ ctxs -> pc_of s t = Arm tval -> Memory (on_thread t (sleep tval) s).
Proof using Hctxs.
  intros M Ht Ep. apply (memory_step t Wait s); rewrite ?Ep; try done; auto; try apply M.
  - intros u. by rewrite pc_on.
  - intros u Hu. simpl. by rewrite fn_lookup_insert_ne.
Qed.

Lemma woken_memory t s :
  Memory s -> t ∈ ctxs -> pc_of s t = Woken ->
  Memory (on_thread t (fun x => set_at (Dequeue (st x))
             (set_timer Off (set_st (change (Z.lnot Thread_full_ipc_mask) Thread_ready) x))) s).
Proof using Hctxs.
  intros M Ht Ep. apply (memory_step t (Dequeue (st (threads s t))) s); rewrite ?Ep; try done; auto; try apply M.
  - intros u. by rewrite pc_on.
  - intros u Hu. simpl. by rewrite fn_lookup_insert_ne.
Qed.

(** Contexts that do not delete the gate have nothing to wait for. *)
Lemma stage_idle s p : destroying p = false -> stage_ok s p.
Proof. destruct p; try done; by destruct g. Qed.

(** A new call, while the gate has capabilities. *)
Lemma entry_memory t p s s' :
  Memory s -> Control ctxs s -> t ∈ ctxs -> valid s = true -> holds p = None -> loaded p = None -> destroying p = false ->
  (forall o, binds_to p = Some o -> obj_valid (objs s o) = true) -> (forall l o, p <> Target_rcu l o) ->
  holds (pc_of s t) = None ->
  (forall u, pc_of s' u = if decide (u = t) then p else pc_of s u) ->
  (forall u, u <> t -> passed (threads s' u) = passed (threads s u)) ->
  objs s' = objs s -> gt s' = gt s -> valid s' = valid s -> fault s' = fault s -> Memory s'.
Proof using Hctxs.
  intros M C Ht Hv Hh Hl Hd Hb Hn Hh' Hp Hpa Ho Hg Hv' Hf.
  apply (memory_change t p s); rewrite ?Ho, ?Hg, ?Hv', ?Hf, ?Hh, ?Hh'; try done; try apply M.
  - intros o. rewrite (m_refs _ M). lia.
  - intros u o _. apply M.
  - intros u o _ Hlo. split; [by apply (m_loaded _ M u o) |]. intros l ->. by destruct (Hn l o).
  - congruence.
  - intros b l o _. apply M.
  - intros l o ->. by destruct (Hn l o).
  - intros Hfr. destruct (m_free _ M Hfr) as (_ & ? & _). congruence.
  - by apply stage_idle.
  - intros b _ _. apply stage_idle. apply not_true_iff_false. intros Hdb.
    destruct (c_ok _ _ C b) as (_ & Hvb & _). specialize (Hvb Hdb). congruence.
Qed.

Lemma reenter_memory t s :
  Memory s -> Control ctxs s -> t ∈ ctxs -> pc_of s t = Reenter -> Memory (go t (if valid s then Invoke else Ret Gone) s).
Proof using Hctxs.
  intros M C Ht Ep. destruct (valid s) eqn:Ev.
  - apply (entry_memory t Invoke s); rewrite ?Ep; try done; [intros u; apply pc_go |].
    intros u Hu. simpl. by rewrite fn_lookup_insert_ne.
  - apply go_memory; rewrite ?Ep; try done; auto.
Qed.
(** * Reference counters *)

Lemma objs_on o f s o' : objs (on_obj o f s) o' = if decide (o' = o) then f (objs s o) else objs s o'.
Proof. simpl. destruct (decide (o' = o)) as [-> |]; [by rewrite fn_lookup_insert | by rewrite fn_lookup_insert_ne]. Qed.

Lemma one_eq (o o' : Z) : one (Some o = Some o') = if decide (o' = o) then 1 else 0.
Proof. unfold one. destruct (decide (Some o = Some o')), (decide (o' = o)); congruence. Qed.

Lemma inc_memory t o p s :
  Memory s -> t ∈ ctxs -> holds (pc_of s t) = None -> binds_to (pc_of s t) = Some o -> uses_gate (pc_of s t) = true ->
  holds p = Some o -> binds_to p = Some o -> loaded p = None -> touching p = false -> destroying p = false ->
  (forall l o, p <> Target_rcu l o) -> Memory (inc_ref o (go t p s)).
Proof using Hctxs.
  intros M Ht Hh Hb Hu Hh' Hb' Hl Hto Hd Hn. pose proof (m_binds _ M t o Hb) as Hval.
  pose proof (own_alive s o M (m_own _ M o Hval)) as Hal.
  unfold inc_ref. rewrite use_ok by done.
  set (s' := on_obj o _ (go t p s)).
  assert (forall o', obj_valid (objs s' o') = obj_valid (objs s o') /\ own (objs s' o') = own (objs s o') /\ gone (objs s' o') = gone (objs s o') /\
            ref_cnt (objs s' o') = ref_cnt (objs s o') + one (Some o = Some o')) as Hobj.
  { intros o'. unfold s'. rewrite objs_on, one_eq. destruct (decide (o' = o)) as [-> |]; split_and!; try done. simpl. lia. }
  assert (forall u, pc_of s' u = if decide (u = t) then p else pc_of s u) as Hp by (intros u; by rewrite <- pc_go).
  assert (forall u, u <> t -> passed (threads s' u) = passed (threads s u)) as Hpa.
  { intros u Hu'. simpl. by rewrite fn_lookup_insert_ne. }
  apply (memory_change t p s); try done.
  - intros o'. destruct (Hobj o') as (_ & -> & _ & ->). rewrite Hh, Hh', (m_refs _ M).
    replace (one (None = Some o')) with 0 by (unfold one; by rewrite decide_False by done). simpl. lia.
  - intros o'. destruct (Hobj o') as (_ & _ & -> & ->). rewrite one_eq. destruct (decide (o' = o)) as [-> |].
    + rewrite Hal. split; [done |]. pose proof (m_refs _ M o) as Hr. pose proof (m_own _ M o Hval) as Hown.
      unfold one at 1 in Hr. rewrite decide_True in Hr by done. pose proof (one_nonneg (_tgt (gt s) = Some o)).
      pose proof (users_nonneg (pc_of s) o ctxs). unfold held in Hr. lia.
    + rewrite Z.add_0_r. apply M.
  - intros o'. destruct (Hobj o') as (-> & -> & _). apply M.
  - intros o'. destruct (Hobj o') as (-> & _). apply M.
  - intros u o' _. destruct (Hobj o') as (-> & _). apply M.
  - intros o'. destruct (Hobj o') as (-> & _). congruence.
  - intros u o' _ Hlo. destruct (Hobj o') as (_ & -> & _). split; [by apply (m_loaded _ M u o') |]. intros l ->. by destruct (Hn l o').
  - congruence.
  - intros b l o' _. destruct (Hobj o') as (-> & -> & _). apply M.
  - intros l o' ->. by destruct (Hn l o').
  - simpl. intros Hf. destruct (m_free _ M Hf) as (_ & _ & Huf). congruence.
  - by apply stage_idle.
  - intros b _. apply (stage_mono t p s); try done. congruence.
  - apply M.
Qed.

(** [s0] is [s] after [t] has moved on from where it held the reference. *)
Lemma release_memory t o p s s0 :
  Memory s -> t ∈ ctxs -> holds (pc_of s t) = Some o -> holds p = None -> binds_to p = None -> loaded p = None -> touching p = false ->
  (uses_gate p = true -> uses_gate (pc_of s t) = true) -> (forall s', stage_ok s' p) -> (forall l o, p <> Target_rcu l o) ->
  (forall u, pc_of s0 u = if decide (u = t) then p else pc_of s u) ->
  (forall u, u <> t -> passed (threads s0 u) = passed (threads s u)) ->
  objs s0 = objs s -> gt s0 = gt s -> valid s0 = valid s -> fault s0 = fault s -> Memory (release o s0).
Proof using Hctxs.
  intros M Ht Hh Hh' Hb Hl Hto Hu Hst Hn Hp Hpa Ho Hg Hv Hf.
  pose proof (held_alive s t o M Ht Hh) as Hal. pose proof (held_at s t o Hh Ht) as Hheld.
  unfold release. rewrite use_ok by (by rewrite Ho).
  set (s' := on_obj o _ s0).
  assert (forall o', obj_valid (objs s' o') = obj_valid (objs s o') /\ own (objs s' o') = own (objs s o') /\
            ref_cnt (objs s' o') = ref_cnt (objs s o') - one (Some o = Some o') /\
            (gone (objs s' o') = true <-> ref_cnt (objs s' o') = 0)) as Hobj.
  { intros o'. unfold s'. rewrite objs_on, one_eq, Ho. destruct (decide (o' = o)) as [-> |]; split_and!; try done.
    - apply Z.eqb_eq.
    - lia.
    - apply M. }
  assert (forall u, pc_of s' u = if decide (u = t) then p else pc_of s u) as Hp' by exact Hp.
  assert (gt s' = gt s) as Hg' by exact Hg. assert (valid s' = valid s) as Hv' by exact Hv.
  assert (fault s' = fault s) as Hf' by exact Hf.
  assert (forall u, u <> t -> passed (threads s' u) = passed (threads s u)) as Hpa' by exact Hpa. clearbody s'.
  apply (memory_change t p s); rewrite ?Hg', ?Hv', ?Hf'; try done.
  - intros o'. destruct (Hobj o') as (_ & -> & -> & _). rewrite Hh, Hh', (m_refs _ M).
    replace (one (None = Some o')) with 0 by (unfold one; by rewrite decide_False by done). lia.
  - intros o'. apply Hobj.
  - intros o'. destruct (Hobj o') as (-> & -> & _). apply M.
  - intros o' Htg. destruct (Hobj o') as (-> & _). by apply M.
  - intros u o' _. destruct (Hobj o') as (-> & _). apply M.
  - intros o'. congruence.
  - intros u o' _ Hlo. destruct (Hobj o') as (_ & -> & _). split; [by apply (m_loaded _ M u o') |]. intros l ->. by destruct (Hn l o').
  - congruence.
  - intros b l o' _. destruct (Hobj o') as (-> & -> & _). apply M.
  - intros l o' ->. by destruct (Hn l o').
  - intros Hfr. destruct (m_free _ M Hfr) as (Hq & ? & Huf). split_and!; auto.
    apply not_true_iff_false. intros Hc%Hu. congruence.
  - intros b _. apply (stage_mono t p s); try done. congruence.
  - apply M.
Qed.

(** The gate gets or loses a target while the number of references stays. *)
Lemma retarget_memory t p s s' :
  Memory s -> t ∈ ctxs ->
  (forall o, one (_tgt (gt s') = Some o) + one (holds p = Some o) = one (_tgt (gt s) = Some o) + one (holds (pc_of s t) = Some o)) ->
  (forall o, _tgt (gt s') = Some o -> _tgt (gt s) = Some o \/ binds_to (pc_of s t) = Some o) ->
  (binds_to p = None \/ binds_to p = binds_to (pc_of s t)) -> loaded p = None -> touching p = false -> (forall s', stage_ok s' p) ->
  (forall l o, p <> Target_rcu l o) ->
  (uses_gate p = true -> uses_gate (pc_of s t) = true) ->
  (forall u, pc_of s' u = if decide (u = t) then p else pc_of s u) ->
  (forall u, u <> t -> passed (threads s' u) = passed (threads s u)) ->
  objs s' = objs s -> freed (gt s') = freed (gt s) -> _wait_q (gt s') = _wait_q (gt s) -> valid s' = valid s -> fault s' = fault s ->
  Memory s'.
Proof using Hctxs.
  intros M Ht Hcnt Htg Hb Hl Hto Hst Hn Hu Hp Hpa Ho Hfr Hq Hv Hf.
  apply (memory_change t p s); rewrite ?Ho, ?Hfr, ?Hq, ?Hv, ?Hf; try done; try apply M.
  - intros o. rewrite (m_refs _ M). specialize (Hcnt o). lia.
  - intros o [? | ?]%Htg; [by apply M | by apply (m_binds _ M t)].
  - intros u o _. apply M.
  - intros o Hbo. destruct Hb as [Hb | Hb]; [congruence | apply (m_binds _ M t); congruence].
  - intros u o _ Hlo. split; [by apply (m_loaded _ M u o) |]. intros l ->. by destruct (Hn l o).
  - congruence.
  - intros b l o _. apply M.
  - intros l o ->. by destruct (Hn l o).
  - intros Hfe. destruct (m_free _ M Hfe) as (? & ? & Huf). split_and!; auto. apply not_true_iff_false. intros Hc%Hu. congruence.
  - intros b _. apply (stage_mono t p s); try done. congruence.
Qed.
(** * The remaining steps *)

Lemma touch_run t k s : Memory s -> uses_gate (pc_of s t) = true -> Memory (k s) -> Memory (touch k s).
Proof. intros M Hu Hk. by apply (touch_memory t). Qed.

Lemma retype_tgt_memory t o s :
  Memory s -> Control ctxs s -> t ∈ ctxs -> pc_of s t = Retype_tgt o ->
  Memory (go t (Retype_construct o) (on_gate (set_tgt (Some o)) s)).
Proof using Hctxs.
  intros M C Ht Ep. pose proof (at_place ctxs _ _ _ C Ep) as (_ & _ & _ & _ & Htg).
  apply (retarget_memory t (Retype_construct o) s); rewrite ?Ep; try done; auto.
  - intros o'. simpl. rewrite Htg. lia.
  - intros u. by rewrite pc_go.
  - intros u Hu. simpl. by rewrite fn_lookup_insert_ne.
Qed.

Lemma retarget_exchange_memory t o s :
  Memory s -> t ∈ ctxs -> pc_of s t = Retarget_exchange o -> Memory (retarget_exchange t o s).
Proof using Hctxs.
  intros M Ht Ep. apply (touch_run t); [done | by rewrite Ep |]. destruct (_tgt (gt s)) as [old |] eqn:Etg.
  - apply (retarget_memory t (Retarget_del old) s); rewrite ?Ep; try done; auto.
    + intros o'. simpl. rewrite Etg. lia.
    + intros u. by rewrite pc_go.
    + intros u Hu. simpl. by rewrite fn_lookup_insert_ne.
  - apply (retarget_memory t (Ret Bound_ok) s); rewrite ?Ep; try done; auto.
    + intros o'. simpl. rewrite Etg. lia.
    + intros u. by rewrite pc_done.
    + intros u Hu. simpl. by rewrite fn_lookup_insert_ne.
Qed.

Lemma destroy_store_memory t o s :
  Memory s -> Control ctxs s -> t ∈ ctxs -> pc_of s t = Destroy_store o -> Memory (go t (Destroy_del o) (on_gate (set_tgt None) s)).
Proof using Hctxs.
  intros M C Ht Ep. pose proof (at_place ctxs _ _ _ C Ep) as (_ & _ & _ & _ & Htg).
  apply (retarget_memory t (Destroy_del o) s); rewrite ?Ep; try done; auto.
  - intros o'. simpl. rewrite Htg. lia.
  - intros u. by rewrite pc_go.
  - intros u Hu. simpl. by rewrite fn_lookup_insert_ne.
Qed.

(** [gate()->del]: the gate has a target, so it drops the reference. *)
Lemma del_target_release o s : type (gt s) = Bound \/ type (gt s) = Dispatch -> del_target o s = release o s.
Proof. unfold del_target. by intros [-> | ->]. Qed.

Lemma retarget_del_memory t o s :
  Memory s -> Control ctxs s -> t ∈ ctxs -> pc_of s t = Retarget_del o -> Memory (del_target o (done t (Ret Bound_ok) s)).
Proof using Hctxs.
  intros M C Ht Ep. pose proof (at_place ctxs _ _ _ C Ep) as (_ & _ & Hty).
  rewrite del_target_release by done. apply (release_memory t o (Ret Bound_ok) s); rewrite ?Ep; try done.
  - intros u. by rewrite pc_done.
  - intros u Hu. simpl. by rewrite fn_lookup_insert_ne.
Qed.

Lemma destroy_del_memory t o s :
  Memory s -> Control ctxs s -> t ∈ ctxs -> pc_of s t = Destroy_del o -> Memory (del_target o (go t Destroy_retype s)).
Proof using Hctxs.
  intros M C Ht Ep. pose proof (at_place ctxs _ _ _ C Ep) as (_ & _ & Hty & _).
  rewrite del_target_release by done. apply (release_memory t o Destroy_retype s); rewrite ?Ep; try done.
  - intros u. by rewrite pc_go.
  - intros u Hu. simpl. by rewrite fn_lookup_insert_ne.
Qed.

Lemma destroy_hit_memory t o s :
  Memory s -> Control ctxs s -> t ∈ ctxs -> pc_of s t = Destroy_hit o -> Memory (use o (go t Destroy_load) s).
Proof using Hctxs.
  intros M C Ht Ep. pose proof (at_place ctxs _ _ _ C Ep) as (_ & _ & _ & _ & Htg).
  rewrite use_ok by (by apply own_alive, M, M). apply go_memory; rewrite ?Ep; try done; auto.
Qed.

(** ** The queue is emptied *)

Lemma snapshot_covers s u : Control ctxs s -> touching (pc_of s u) = true -> (u, passed (threads s u)) ∈ take_snapshot ctxs s.
Proof. intros C Hu. apply in_snapshot; [apply C |]; by destruct (pc_of s u). Qed.

Lemma no_lock_waiter s :
  Control ctxs s -> Forall (fun u => match pc_of s u with Dequeue_lock _ => False | _ => True end) ctxs ->
  forall u, match pc_of s u with Dequeue_lock _ => true | _ => false end = false.
Proof.
  intros C Hall u. rewrite Forall_forall in Hall. destruct (decide (u ∈ ctxs)) as [Hin | Hno].
  - specialize (Hall u Hin). by destruct (pc_of s u).
  - destruct (pc_of s u) eqn:E; try done. exfalso. apply Hno, (c_ctx _ _ C u). congruence.
Qed.

Lemma dequeue_first_memory t g s :
  Memory s -> Control ctxs s -> t ∈ ctxs -> pc_of s t = Unblock g -> orderly ctxs (L_run t) s -> Memory (dequeue_first ctxs t g s).
Proof using Hctxs.
  intros M C Ht Ep Ho. simpl in Ho. rewrite Ep in Ho.
  apply (touch_run t); [done | rewrite Ep; by destruct g |]. destruct (_wait_q (gt s)) as [| w q] eqn:Eq.
  - destruct g; simpl.
    + apply go_memory; rewrite ?Ep; try done; auto.
    + apply done_memory; rewrite ?Ep; done.
    + apply go_memory; rewrite ?Ep; try done; auto. intros u. by apply snapshot_covers.
    + assert (valid s = false) as Hv.
      { destruct (at_place ctxs _ _ _ C Ep) as (_ & Hd & _). by apply Hd. }
      assert (forall u, u <> t -> uses_gate (pc_of s u) = false) as Huse.
      { intros u Hu. pose proof (m_stage _ M t) as Hst. rewrite Ep in Hst. simpl in Hst.
        destruct (others_idle ctxs s t u C) as [Hb Hd]; [by rewrite Ep | done |].
        unfold uses_gate. by rewrite Hst, Hb, Hd, (no_lock_waiter s C Ho). }
      apply (memory_change t (Ret Deleted) s); try done; simpl; rewrite ?Ep; try apply M; auto.
      * intros u. by rewrite pc_done.
      * intros u Hu. by rewrite fn_lookup_insert_ne.
      * intros o. rewrite (m_refs _ M). simpl. lia.
      * intros u o _. apply M.
      * intros u o _ Hlo. split; [by apply (m_loaded _ M u o) | done].
      * intros b l o _. apply M.
      * intros b Hb. apply (stage_mono t (Ret Deleted) s); try done.
        -- intros u. by rewrite pc_done.
        -- intros u Hu. simpl. by rewrite fn_lookup_insert_ne.
  - pose proof (m_stage _ M t) as Hst. rewrite Ep in Hst.
    destruct g; simpl; apply go_memory; try (apply on_gate_memory; try done; congruence);
      change (pc_of (on_gate _ s) t) with (pc_of s t); rewrite ?Ep; try done; auto.
Qed.

Lemma cancel_memory t w g s :
  Memory s -> t ∈ ctxs -> pc_of s t = Wake_cancel w g -> Memory (go t (Wake w g) (cancel_wait w s)).
Proof using Hctxs.
  intros M Ht Ep. pose proof (m_stage _ M t) as Hst. rewrite Ep in Hst.
  assert (pc_of (cancel_wait w s) t = Wake_cancel w g) as Ep' by (unfold cancel_wait; by rewrite pc_st).
  assert (Memory (cancel_wait w s)) as M' by (by apply st_memory).
  pose proof (m_stage _ M' t) as Hst'. rewrite Ep' in Hst'.
  apply go_memory; rewrite ?Ep'; try done; auto.
Qed.

Lemma wake_memory t w g s :
  Memory s -> t ∈ ctxs -> pc_of s t = Wake w g -> Memory (go t (Unblock g) (activate w s)).
Proof using Hctxs.
  intros M Ht Ep.
  assert (pc_of (activate w s) t = Wake w g) as Ep' by (unfold activate; by rewrite pc_st).
  assert (Memory (activate w s)) as M' by (by apply st_memory).
  pose proof (m_stage _ M' t) as Hst'. rewrite Ep' in Hst'.
  apply go_memory; rewrite ?Ep'; try done; auto.
Qed.

Lemma grace_memory t l g s :
  Memory s -> t ∈ ctxs -> pc_of s t = Rcu l g -> grace_over s l = true -> Memory (go t (Unblock (after_grace g)) s).
Proof using Hctxs.
  intros M Ht Ep Hg. pose proof (m_stage _ M t) as Hst. rewrite Ep in Hst.
  apply go_memory; rewrite ?Ep; try done; auto.
  - intros _. left. by destruct g.
  - destruct g; simpl in *; try done. intros u. apply not_true_iff_false. intros Hin%Hst%(grace_over_spec s l); [lia | done].
Qed.

(** ** A target is freed *)

Lemma put_memory t l o s :
  Memory s -> t ∈ ctxs -> pc_of s t = Target_rcu l o -> grace_over s l = true ->
  Memory (go t (Ret Deleted) (on_obj o (fun x => mk_object (ref_cnt x - 1) (obj_valid x) false (ref_cnt x - 1 =? 0)) s)).
Proof using Hctxs.
  intros M Ht Ep Hg. destruct (m_rcu _ M t l o Ep) as [Hval Hown].
  set (s' := go t _ _).
  assert (forall o', obj_valid (objs s' o') = obj_valid (objs s o') /\ (o' <> o -> own (objs s' o') = own (objs s o')) /\
            ref_cnt (objs s' o') - one (own (objs s' o') = true) = ref_cnt (objs s o') - one (own (objs s o') = true) /\
            (gone (objs s' o') = true <-> ref_cnt (objs s' o') = 0) /\ (own (objs s' o') = true -> own (objs s o') = true)) as Hobj.
  { intros o'. unfold s'. change (objs (go t _ ?x)) with (objs x). rewrite objs_on.
    destruct (decide (o' = o)) as [-> |]; split_and!; try done.
    - simpl. unfold one. rewrite Hown, (decide_True (P := true = true)), decide_False by done. lia.
    - apply Z.eqb_eq.
    - apply M. }
  assert (forall u o', loaded (pc_of s u) = Some o' -> o' <> o) as Hlo.
  { intros u o' Hl ->. destruct (m_loaded _ M u o Hl) as [_ Hx]. specialize (Hx t l Ep). apply (grace_over_spec s l) in Hx; [lia | done]. }
  assert (forall u, pc_of s' u = if decide (u = t) then Ret Deleted else pc_of s u) as Hp by (intros u; unfold s'; by rewrite pc_go).
  assert (forall u, u <> t -> passed (threads s' u) = passed (threads s u)) as Hpa.
  { intros u Hu. simpl. by rewrite fn_lookup_insert_ne. }
  assert (gt s' = gt s) as Hgt by done. assert (valid s' = valid s) as Hv by done. assert (fault s' = fault s) as Hf by done. clearbody s'.
  apply (memory_change t (Ret Deleted) s); rewrite ?Hgt, ?Hv, ?Hf, ?Ep; try done; try apply M.
  - intros o'. destruct (Hobj o') as (_ & _ & Hr & _). rewrite (m_refs _ M) in Hr. simpl. lia.
  - intros o'. apply Hobj.
  - intros o'. destruct (Hobj o') as (-> & Hne & _). intros Hv'. rewrite Hne by congruence. by apply M.
  - intros o' Htg. destruct (Hobj o') as (-> & _). by apply M.
  - intros u o' _. destruct (Hobj o') as (-> & _). apply M.
  - intros u o' _ Hl. destruct (Hobj o') as (_ & Hne & _). rewrite Hne by (by apply (Hlo u)). split; [by apply (m_loaded _ M u o') | done].
  - intros b k o' Hb Hr. destruct (Hobj o') as (-> & Hne & _). destruct (m_rcu _ M b k o' Hr) as [? Ho]. split; [done |].
    rewrite Hne; [done |]. intros ->. apply Hb. by apply (m_one _ M b t k l o).
  - intros Hfr. destruct (m_free _ M Hfr) as (? & ? & ?). split_and!; auto.
  - intros b _. by apply (stage_mono t (Ret Deleted) s).
Qed.
(** * Every orderly step keeps the invariant *)

Lemma run_memory t s s' :
  Memory s -> Control ctxs s -> orderly ctxs (L_run t) s -> run kind_of prio ctxs t s = Some s' -> Memory s'.
Proof using Hctxs.
  intros M C Ho Hr. assert (pc_of s t <> User -> t ∈ ctxs) as Hin by apply C.
  destruct (plain (pc_of s t)) eqn:Hs; [apply (plain_memory t s); try done; apply Hin; by destruct (pc_of s t) |]. revert Hr.
  unfold run. destruct (pc_of s t) eqn:Ep; try done; unfold pc_of in Ep; rewrite Ep; try (intros [= <-]); try (intros [Hl ->]%locked_spec).
  all: assert (t ∈ ctxs) as Ht by (by apply Hin).
  all: assert (pc_of s t = at_ (threads s t)) as Ep' by done; rewrite Ep in Ep'.
  - by apply load_memory.
  - by apply send_memory.
  - by apply mark_memory.
  - by apply sleep_memory.
  - by apply woken_memory.
  - by apply reenter_memory.
  - apply inc_memory; rewrite ?Ep'; done.
  - apply (touch_run t); [done | by rewrite Ep' | by apply retype_tgt_memory].
  - apply inc_memory; rewrite ?Ep'; done.
  - by apply retarget_exchange_memory.
  - apply (touch_run t); [done | by rewrite Ep' | by apply retarget_del_memory].
  - by apply dequeue_first_memory.
  - by apply cancel_memory.
  - by apply wake_memory.
  - destruct (grace_over s l) eqn:Eg; [| done]. intros [= <-]. by apply (grace_memory t l).
  - by apply destroy_hit_memory.
  - apply (touch_run t); [done | by rewrite Ep' | by apply destroy_store_memory].
  - apply (touch_run t); [done | by rewrite Ep' | by apply destroy_del_memory].
  - destruct (grace_over s l) eqn:Eg; [| done]. intros [= <-]. by apply (put_memory t l).
Qed.

(** The deletion of the gate begins. *)
Lemma destroy_memory t s :
  Memory s -> t ∈ ctxs -> pc_of s t = User -> valid s = true ->
  Memory (set_valid false (on_thread t (enter Destroy_notify 0 Never) s)).
Proof using Hctxs.
  intros M Ht Ep Hv. apply (memory_change t Destroy_notify s); try done; rewrite ?Ep; simpl; try apply M.
  - intros u. by apply pc_on.
  - intros u Hu. by rewrite fn_lookup_insert_ne.
  - intros o. rewrite (m_refs _ M). simpl. lia.
  - intros u o _. apply M.
  - intros u o _ Hlo. split; [by apply (m_loaded _ M u o) | done].
  - intros b l o _. apply M.
  - intros Hfr. destruct (m_free _ M Hfr) as (_ & ? & _). congruence.
  - intros b _. apply (stage_mono t Destroy_notify s); try done.
    + intros u. by apply pc_on.
    + intros u Hu. simpl. by rewrite fn_lookup_insert_ne.
Qed.

(** The deletion of a target that the gate does not refer to begins. *)
Lemma target_destroy_memory t o s :
  Memory s -> Control ctxs s -> t ∈ ctxs -> pc_of s t = User -> obj_valid (objs s o) = true -> orderly ctxs (L_target_destroy t o) s ->
  Memory (on_thread t (enter (Target_rcu (take_snapshot ctxs s) o) 0 Never)
            (on_obj o (fun x => mk_object (ref_cnt x) false (own x) (gone x)) s)).
Proof using Hctxs.
  intros M C Ht Ep Hval [Htg Hall]. set (p := Target_rcu _ o). set (s' := on_thread _ _ _).
  assert (forall u, binds_to (pc_of s u) <> Some o) as Hbt.
  { intros u. rewrite Forall_forall in Hall. destruct (decide (u ∈ ctxs)) as [Hin | Hno]; [by apply Hall |].
    destruct (pc_of s u) eqn:E; try done; exfalso; apply Hno, (c_ctx _ _ C u); congruence. }
  assert (forall o', own (objs s' o') = own (objs s o') /\ gone (objs s' o') = gone (objs s o') /\ ref_cnt (objs s' o') = ref_cnt (objs s o') /\
            (o' <> o -> obj_valid (objs s' o') = obj_valid (objs s o')) /\ (o' = o -> obj_valid (objs s' o') = false)) as Hobj.
  { intros o'. unfold s'. change (objs (on_thread _ _ ?x)) with (objs x). rewrite objs_on.
    destruct (decide (o' = o)) as [-> |]; split_and!; done. }
  assert (forall u, pc_of s' u = if decide (u = t) then p else pc_of s u) as Hp by (intros u; unfold s'; by rewrite pc_on).
  assert (forall u, u <> t -> passed (threads s' u) = passed (threads s u)) as Hpa.
  { intros u Hu. simpl. by rewrite fn_lookup_insert_ne. }
  assert (gt s' = gt s) as Hgt by done. assert (valid s' = valid s) as Hv by done. assert (fault s' = fault s) as Hf by done. clearbody s'.
  assert (forall b l, pc_of s b <> Target_rcu l o) as Hnone by (intros b l Hb; destruct (m_rcu _ M b l o Hb); congruence).
  apply (memory_change t p s); rewrite ?Hgt, ?Hv, ?Hf, ?Ep; try done; try apply M.
  - intros o'. destruct (Hobj o') as (-> & _ & -> & _). rewrite (m_refs _ M). simpl. lia.
  - intros o'. destruct (Hobj o') as (_ & -> & -> & _). apply M.
  - intros o'. destruct (Hobj o') as (-> & _ & _ & Hne & He). destruct (decide (o' = o)) as [-> | Hd]; [by rewrite He | rewrite Hne by done; apply M].
  - intros o' Ho'. destruct (Hobj o') as (_ & _ & _ & Hne & _). rewrite Hne by congruence. by apply M.
  - intros u o' _ Hb. destruct (Hobj o') as (_ & _ & _ & Hne & _). rewrite Hne by (intros ->; by apply (Hbt u)). by apply (m_binds _ M u).
  - intros u o' _ Hl. destruct (Hobj o') as (-> & _). split; [by apply (m_loaded _ M u o') |].
    intros l [= <- <-]. apply in_snapshot; [apply C |]; by destruct (pc_of s u).
  - intros b l o' _ Hr. destruct (Hobj o') as (-> & _ & _ & Hne & _). rewrite Hne by (intros ->; by apply (Hnone b l)). by apply (m_rcu _ M b l).
  - intros l o' [= _ <-]. split; [| by intros b l' _]. destruct (Hobj o) as (-> & _ & _ & _ & ->); [| done]. split; [done | by apply M].
  - intros Hfr. destruct (m_free _ M Hfr) as (? & ? & ?). split_and!; auto.
  - intros b _. by apply (stage_mono t p s).
Qed.

Lemma step_memory l s s' :
  Memory s -> Control ctxs s -> orderly ctxs l s -> step kind_of prio ctxs l s = Some s' -> Memory s'.
Proof using Hctxs.
  intros M C Ho. destruct l; unfold step.
  - destruct (in_user _ _ _) eqn:Eu; [| done]. destruct (valid s) eqn:Ev; [| done]. intros [= <-].
    apply in_user_spec in Eu as [? Ep]. apply (entry_memory t Invoke s); rewrite ?Ep; try done; [intros u; apply pc_on |].
    intros u Hu. simpl. by rewrite fn_lookup_insert_ne.
  - by apply run_memory.
  - destruct (at_ (threads s t)) eqn:E; try done. intros [= <-].
    assert (pc_of s t = Ret r) as Ep by done. apply go_memory; rewrite ?Ep; try done; auto. apply C. by rewrite Ep.
  - destruct (in_user _ _ _) eqn:Eu; [| done]. destruct (valid s) eqn:Ev; [| done].
    destruct (obj_valid _) eqn:Eo; [| done]. intros [= <-]. apply in_user_spec in Eu as [? Ep].
    apply (entry_memory t (Bind_target o id) s); rewrite ?Ep; try done; [intros ? [= <-]; done | intros u; apply pc_on |].
    intros u Hu. simpl. by rewrite fn_lookup_insert_ne.
  - destruct (in_user _ _ _) eqn:Eu; [| done]. destruct (valid s) eqn:Ev; [| done]. intros [= <-].
    apply in_user_spec in Eu as [? ?]. by apply destroy_memory.
  - destruct (in_user _ _ _) eqn:Eu; [| done]. destruct (obj_valid _) eqn:Eo; [| done]. intros [= <-].
    apply in_user_spec in Eu as [? ?]. by apply target_destroy_memory.
  - destruct (timeout_q _); try done. destruct (at_ (threads s t)) eqn:E; try done. destruct (_ <=? _); [| done].
    intros [= <-]. apply st_memory; [done | |]; unfold expired; simpl; by destruct (_ || _).
  - destruct (at_ (threads s t)) eqn:E; try done; intros [= <-]; by apply st_memory.
  - destruct (_ <=? _); [| done]. intros [= <-]. by apply (memory_view s).
Qed.
End memory.
