(* ===== verification/GateSpec.v ===== *)
(** Theorems about IPC gates: no sender is left asleep at a gate that has been
    bound or deleted, reference counters are exact and no freed memory is used, as
    long as the steps are orderly ([GateInv.orderly]); and runs outside of it in
    which a sender sleeps for ever, a target or the gate is used after it has been
    freed, and two binds leave the gate with the label of one and the target of
    the other. *)

From stdpp Require Import functions.
From S2P Require Import Prelude L4Types Ipc Gate GateInv GateWait GateMem.
Import Thread_state.
#[local] Arguments Z.testbit : simpl never.
#[local] Arguments has : simpl never.

Section spec.
Context (kind_of : Z -> kind) (prio : Z -> Z) (ctxs : list Z).

(** From the creation of the gate, with a target and its label or without. *)
Inductive reachable (word : Z -> Z) (target : option (Z * Z)) : state -> Prop :=
  | reachable_create : reachable word target (create kind_of word target)
  | reachable_step l s s' :
      reachable word target s -> orderly ctxs l s -> step kind_of prio ctxs l s = Some s' -> reachable word target s'.

(** A new gate has no target, or one that is counted. *)
Lemma create_cases word target :
  let s := create kind_of word target in
  (forall t, pc_of s t = User) /\ qlock (gt s) = None /\ _wait_q (gt s) = [] /\ freed (gt s) = false /\ valid s = true /\ fault s = false /\
  (type (gt s) = Unbound /\ _tgt (gt s) = None \/
   (type (gt s) = Bound \/ type (gt s) = Dispatch) /\ exists o, _tgt (gt s) = Some o) /\
  (forall o, objs s o = mk_object (1 + one (_tgt (gt s) = Some o)) true true false).
Proof.
  unfold create. destruct target as [[o id] |]; cbn zeta.
  2: { split_and!; try done. by left. }
  pose proof (gate_for_type kind_of o) as Hg. destruct (kind_of o) eqn:Ek.
  3: { split_and!; try done. by left. }
  all: split_and!; try done; [right; split; [done | by exists o] |].
  all: intros o'; simpl; rewrite one_eq; destruct (decide (o' = o)) as [-> |]; [by rewrite fn_lookup_insert | by rewrite fn_lookup_insert_ne].
Qed.

Lemma create_inv word target :
  Control ctxs (create kind_of word target) /\ Waiting (create kind_of word target) /\ Memory ctxs (create kind_of word target).
Proof.
  destruct (create_cases word target) as (Hp & Hl & Hq & Hf & Hv & Hfa & Hty & Ho).
  set (s := create kind_of word target) in *. clearbody s.
  assert (forall o, held ctxs s o = 0) as Hh by (intros o; unfold held; induction ctxs; simpl; rewrite ?Hp; done).
  split_and!; split; rewrite ?Hq; try done; try (intros t; rewrite ?Hp; done); try congruence.
  - intros Hu _. destruct Hty as [[_ ?] | [[? | ?] _]]; congruence.
  - intros _. destruct Hty as [[? _] | [[? | ?] _]]; congruence.
  - by intros t ?%not_elem_of_nil.
  - constructor.
  - intros t. unfold sleep_ok. by rewrite Hp.
  - intros o. rewrite Ho, Hh. simpl. unfold one at 2. rewrite decide_True by done. lia.
  - intros o. rewrite Ho. simpl. pose proof (one_nonneg (_tgt (gt s) = Some o)). split; [done | lia].
  - intros o. by rewrite Ho.
  - intros o. by rewrite Ho.
Qed.

Lemma gate_reachable_inv word target s : NoDup ctxs -> reachable word target s -> Control ctxs s /\ Waiting s /\ Memory ctxs s.
Proof.
  intros Hnd. induction 1 as [| l s s' _ (C & W & M) Ho Hs].
  - apply create_inv.
  - split_and!; [by apply (step_control kind_of prio ctxs l s) | by apply (step_waiting kind_of prio ctxs l s) |].
    by apply (step_memory kind_of prio ctxs Hnd l s).
Qed.

(** * Emptying the queue *)

(** Steps of one context while the others stand still. *)
Fixpoint run_n (t : Z) (n : nat) (s : state) : option state :=
  match n with
  | O => Some s
  | S n => match run kind_of prio ctxs t s with Some s' => run_n t n s' | None => None end
  end.

Lemma run_n_app t n m s s' : run_n t n s = Some s' -> run_n t (n + m) s = run_n t m s'.
Proof.
  revert s. induction n as [| n IH]; intros s; simpl; [by intros [= ->] |].
  destruct (run _ _ _ t s); [apply IH | done].
Qed.

(** The head of the queue is taken out and activated. *)
Lemma drain_one t g w q s :
  pc_of s t = Unblock g -> freed (gt s) = false -> qlock (gt s) = None -> _wait_q (gt s) = w :: q ->
  exists n s', run_n t n s = Some s' /\ pc_of s' t = Unblock g /\ freed (gt s') = false /\ qlock (gt s') = None /\
    _wait_q (gt s') = q /\ ready_of s' w /\ (forall u, ready_of s u -> ready_of s' u).
Proof.
  intros Ep Hf Hl Hq.
  assert (forall p s1, (p = Wake_cancel w g \/ p = Wake w g) -> gt s1 = set_queue q (gt s) -> pc_of s1 t = p ->
            exists n s', run_n t n s1 = Some s' /\ pc_of s' t = Unblock g /\ freed (gt s') = false /\ qlock (gt s') = None /\
              _wait_q (gt s') = q /\ ready_of s' w /\ (forall u, ready_of s1 u -> ready_of s' u)) as Hgen.
  { assert (forall s1, gt s1 = set_queue q (gt s) -> pc_of s1 t = Wake w g ->
              exists n s', run_n t n s1 = Some s' /\ pc_of s' t = Unblock g /\ freed (gt s') = false /\ qlock (gt s') = None /\
                _wait_q (gt s') = q /\ ready_of s' w /\ (forall u, ready_of s1 u -> ready_of s' u)) as Hwake.
    { intros s1 Hg Hp. exists 1%nat, (go t (Unblock g) (activate w s1)). split_and!.
      - unfold run_n, run. unfold pc_of in Hp. by rewrite Hp.
      - rewrite pc_go. by destruct (decide (t = t)).
      - simpl. by rewrite Hg.
      - simpl. by rewrite Hg.
      - simpl. by rewrite Hg.
      - apply ready_go, ready_activate. by right.
      - intros u Hu. apply ready_go, ready_activate. by left. }
    intros p s1 [-> | ->] Hg Hp; [| by apply Hwake].
    destruct (Hwake (go t (Wake w g) (cancel_wait w s1))) as (n & s' & Hr & ? & ? & ? & ? & ? & Hm); [done | rewrite pc_go; by destruct (decide (t = t)) |].
    exists (S n), s'. split_and!; try done.
    - simpl. unfold run. unfold pc_of in Hp. by rewrite Hp.
    - intros u Hu. apply Hm, ready_go, ready_cancel, Hu. }
  destruct (Hgen (if aborts g then Wake_cancel w g else Wake w g)
              (go t (if aborts g then Wake_cancel w g else Wake w g) (on_gate (set_queue q) s)))
    as (n & s' & Hr & ? & ? & ? & ? & ? & Hm); [destruct (aborts g); auto | done | rewrite pc_go; by destruct (decide (t = t)) |].
  exists (S n), s'. split_and!; try done.
  - simpl. unfold run, locked, lock_free. unfold pc_of in Ep. rewrite Ep, bool_decide_true by done.
    unfold dequeue_first, touch. by rewrite Hf, Hq.
  - intros u Hu. apply Hm. by apply ready_go.
Qed.

Lemma drain_all t g s :
  pc_of s t = Unblock g -> freed (gt s) = false -> qlock (gt s) = None ->
  exists n s', run_n t n s = Some s' /\ pc_of s' t = Unblock g /\ _wait_q (gt s') = [] /\
    (forall w, w ∈ _wait_q (gt s) -> ready_of s' w) /\ (forall u, ready_of s u -> ready_of s' u).
Proof.
  remember (_wait_q (gt s)) as q eqn:Eq. revert s Eq. induction q as [| w q IH]; intros s Eq Ep Hf Hl.
  - exists O, s. split_and!; try done. by intros w ?%not_elem_of_nil.
  - destruct (drain_one t g w q s Ep Hf Hl (eq_sym Eq)) as (n & s1 & Hr & Ep1 & Hf1 & Hl1 & Hq1 & Hw1 & Hm1).
    destruct (IH s1 (eq_sym Hq1) Ep1 Hf1 Hl1) as (m & s2 & Hr2 & Ep2 & Hq2 & Hw2 & Hm2).
    exists (n + m)%nat, s2. split_and!; try done.
    + by rewrite (run_n_app t n m s s1).
    + intros u [-> | Hu]%elem_of_cons; auto.
    + auto.
Qed.

(** * Runs *)

#[export] Instance gate_orderly_decision l s : Decision (orderly ctxs l s).
Proof.
  destruct l; simpl; try apply _. destruct (pc_of s t); try apply _.
  destruct (_wait_q (gt s)) as [| w q].
  - destruct g; try apply _. apply Forall_dec. intros u. destruct (pc_of s u); apply _.
  - destruct (pc_of s w); apply _.
Defined.

(** A run of steps, and one of orderly steps. *)
Fixpoint runs (ls : list label) (s : state) : option state :=
  match ls with
  | [] => Some s
  | l :: ls => match step kind_of prio ctxs l s with Some s' => runs ls s' | None => None end
  end.

Fixpoint orderly_runs (ls : list label) (s : state) : option state :=
  match ls with
  | [] => Some s
  | l :: ls =>
      if decide (orderly ctxs l s)
      then match step kind_of prio ctxs l s with Some s' => orderly_runs ls s' | None => None end
      else None
  end.

Lemma orderly_runs_reachable word target ls : forall s s', reachable word target s -> orderly_runs ls s = Some s' -> reachable word target s'.
Proof.
  induction ls as [| l ls IH]; intros s s' Hr; simpl; [by intros [= <-] |].
  destruct (decide (orderly ctxs l s)); [| done]. destruct (step kind_of prio ctxs l s) as [s1 |] eqn:E; [| done].
  apply IH. by apply (reachable_step word target l s).
Qed.

(** * Sleeping for ever *)

(** A sender that nobody will ever make ready again. *)
Definition asleep (t : Z) (s : state) : Prop :=
  pc_of s t = Wait /\ has Thread_ready (st (threads s t)) = false /\ timeout_q (threads s t) = Off /\
  t ∉ _wait_q (gt s) /\ forall b, ~ wakes (pc_of s b) t.

Lemma asleep_on t b f s :
  asleep t s -> b <> t -> (~ wakes (at_ (threads s b)) t -> ~ wakes (at_ (f (threads s b))) t) -> asleep t (on_thread b f s).
Proof.
  intros (Hp & Hr & Hq & Hin & Hw) Hne Hf. split_and!; try done.
  - rewrite pc_on. by destruct (decide (t = b)).
  - simpl. by rewrite fn_lookup_insert_ne.
  - simpl. by rewrite fn_lookup_insert_ne.
  - intros c. rewrite pc_on. destruct (decide (c = b)); [apply Hf, Hw | apply Hw].
Qed.

Lemma asleep_go t b p s : asleep t s -> b <> t -> ~ wakes p t -> asleep t (go b p s).
Proof. intros Ha Hb Hw. by apply asleep_on. Qed.

Lemma asleep_done t b p s : asleep t s -> b <> t -> ~ wakes p t -> asleep t (done b p s).
Proof. intros Ha Hb Hw. by apply asleep_on. Qed.

Lemma asleep_gate t f s : asleep t s -> (t ∈ _wait_q (f (gt s)) -> t ∈ _wait_q (gt s)) -> asleep t (on_gate f s).
Proof. intros (Hp & Hr & Hq & Hin & Hw) Hf. split_and!; try done. intros Hc. by apply Hin, Hf. Qed.

Lemma asleep_obj t o f s : asleep t s -> asleep t (on_obj o f s).
Proof. done. Qed.

Lemma asleep_touch t k s : (asleep t s -> asleep t (k s)) -> asleep t s -> asleep t (touch k s).
Proof. unfold touch. destruct (freed _); [done | auto]. Qed.

Lemma asleep_use t o k s : (asleep t s -> asleep t (k s)) -> asleep t s -> asleep t (use o k s).
Proof. unfold use. destruct (gone _); [done | auto]. Qed.

Lemma asleep_del t o s : asleep t s -> asleep t (del_target o s).
Proof. intros Ha. unfold del_target. destruct (type _); try done; by apply asleep_use. Qed.

Lemma asleep_log t b o l s : asleep t s -> asleep t (log b o l s).
Proof. done. Qed.

Ltac asleep_shape :=
  first [ apply asleep_touch; [intros _ | assumption] | apply asleep_use; [intros _ | ] | apply asleep_go; [| assumption | ]
        | apply asleep_done; [| assumption | ] | apply asleep_del | apply asleep_log | apply asleep_obj
        | apply asleep_gate | assumption ].

Lemma asleep_run t b s s' : asleep t s -> run kind_of prio ctxs b s = Some s' -> asleep t s'.
Proof.
  intros Ha. pose proof Ha as (Hp & Hr & Hq & Hin & Hw). pose proof (Hw b) as Hwb. unfold run, pc_of in *.
  destruct (decide (b = t)) as [-> | Hne]; [by rewrite Hp, Hr |].
  destruct (at_ (threads s b)) eqn:E; try done.
  all: try (intros [= <-]).
  all: try (intros [_ ->]%locked_spec).
  all: unfold invoke, load_target, load_id, do_send_ipc, block, sender_dequeue, dequeue, bind_target, retype_test, retype_lock,
    retype_construct, retarget_test, retarget_exchange, inc_ref, del_notify, destroy_load, dequeue_first, unblocked_all.
  all: try (destruct (unblocked_cases state) as [-> | [-> | ->]]).
  all: try match goal with |- (if ?c then _ else _) = _ -> _ => destruct c; [intros [= <-] | done] end.
  all: try (apply asleep_on; [done | done | simpl; tauto]).
  all: repeat first [ match goal with |- asleep _ (go _ (if ?c then _ else _) _) => destruct c eqn:? end
                    | asleep_shape | match goal with |- asleep _ (if ?c then _ else _) => destruct c eqn:? end
                    | match goal with |- asleep _ (match ?x with _ => _ end) => destruct x eqn:? end ].
  all: try (simpl; done); try (by intros []).
  all: try (simpl; rewrite list_elem_of_filter; tauto).
  - simpl. rewrite (elem_of_insert_prio kind_of). intros [-> | ?]; done.
  - by apply asleep_on.
  - simpl. intros Hx. exfalso. apply Hin. by apply elem_of_cons; right.
  - simpl. intros ->. apply Hin. by apply elem_of_cons; left.
  - simpl. intros Hx. exfalso. apply Hin. by apply elem_of_cons; right.
  - simpl. intros ->. apply Hin. by apply elem_of_cons; left.
  - by apply asleep_on; [| intros -> |].
  - by apply asleep_on; [| intros -> |].
Qed.

Lemma asleep_step t l s s' : asleep t s -> l <> L_cancel t -> step kind_of prio ctxs l s = Some s' -> asleep t s'.
Proof.
  intros Ha Hl. pose proof Ha as (Hp & Hr & Hq & Hin & Hw). assert (forall b, pc_of s b <> Wait -> b <> t) as Hne by congruence.
  destruct l; simpl.
  - destruct (in_user _ _ _) eqn:Eu; [| done]. destruct (valid s); [| done]. intros [= <-].
    apply in_user_spec in Eu as [_ Ep]. apply asleep_on; [done | apply Hne; congruence | by intros _ []].
  - by apply asleep_run.
  - destruct (at_ (threads s t0)) eqn:E; try done. intros [= <-].
    apply asleep_go; [done | apply Hne; unfold pc_of; congruence | by intros []].
  - destruct (in_user _ _ _) eqn:Eu; [| done]. destruct (valid s); [| done]. destruct (obj_valid _); [| done]. intros [= <-].
    apply in_user_spec in Eu as [_ Ep]. apply asleep_on; [done | apply Hne; congruence | by intros _ []].
  - destruct (in_user _ _ _) eqn:Eu; [| done]. destruct (valid s); [| done]. intros [= <-].
    apply in_user_spec in Eu as [_ Ep]. apply (asleep_on t t0 (enter Destroy_notify 0 Never) s); [done | apply Hne; congruence | by intros _ []].
  - destruct (in_user _ _ _) eqn:Eu; [| done]. destruct (obj_valid _); [| done]. intros [= <-].
    apply in_user_spec in Eu as [_ Ep]. apply asleep_on; [by apply asleep_obj | apply Hne; congruence | by intros _ []].
  - destruct (timeout_q (threads s t0)) eqn:Et; try done. destruct (at_ (threads s t0)) eqn:E; try done. destruct (_ <=? _); [| done].
    intros [= <-]. apply asleep_on; [done | congruence |]. unfold expired. by destruct (_ || _).
  - destruct (decide (t0 = t)) as [-> | Hd]; [done |].
    destruct (at_ (threads s t0)) eqn:E; try done; intros [= <-]; by apply asleep_on.
  - destruct (_ <=? _); [| done]. by intros [= <-].
Qed.

(** Contexts that do not exist stay where they are, whatever the order of steps. *)
Definition absent (s : state) : Prop := forall b, b ∉ ctxs -> pc_of s b = User.

Lemma absent_on t f s : absent s -> t ∈ ctxs -> absent (on_thread t f s).
Proof. intros Ha Ht b Hb. rewrite pc_on. destruct (decide (b = t)) as [-> |]; [done | by apply Ha]. Qed.

Lemma absent_st w f s : absent s -> absent (on_thread w (set_st f) s).
Proof. intros Ha b Hb. rewrite pc_st. by apply Ha. Qed.

Lemma absent_touch k s : absent s -> absent (k s) -> absent (touch k s).
Proof. unfold touch. by destruct (freed _). Qed.

Lemma absent_use o k s : absent s -> absent (k s) -> absent (use o k s).
Proof. unfold use. by destruct (gone _). Qed.

Lemma absent_del o s : absent s -> absent (del_target o s).
Proof. intros Ha. unfold del_target. destruct (type _); try done; by apply absent_use. Qed.

Ltac absent_shape :=
  first [ assumption | apply absent_touch | apply absent_use | apply absent_on; [| assumption] | apply absent_st | apply absent_del
        | match goal with |- absent (on_gate _ ?s) => change (absent s) | |- absent (on_obj _ _ ?s) => change (absent s)
                        | |- absent (log _ _ _ ?s) => change (absent s) end ].

Lemma absent_run t s s' : absent s -> run kind_of prio ctxs t s = Some s' -> absent s'.
Proof.
  intros Ha. unfold run. destruct (decide (t ∈ ctxs)) as [Ht | Ht].
  2: { apply Ha in Ht. unfold pc_of in Ht. by rewrite Ht. }
  destruct (at_ (threads s t)) eqn:E; try done.
  all: try (intros [= <-]).
  all: try (intros [_ ->]%locked_spec).
  all: unfold invoke, load_target, load_id, do_send_ipc, block, sender_dequeue, dequeue, bind_target, retype_test, retype_lock,
    retype_construct, retarget_test, retarget_exchange, inc_ref, del_notify, destroy_load, dequeue_first, unblocked_all, go, done,
    cancel_wait, activate.
  all: try match goal with |- (if ?c then _ else _) = _ -> _ => destruct c; [intros [= <-] | done] end.
  all: repeat first [ absent_shape | match goal with |- absent (if ?c then _ else _) => destruct c eqn:? end
                    | match goal with |- absent (match ?x with _ => _ end) => destruct x eqn:? end ].
Qed.

Lemma absent_step l s s' : absent s -> step kind_of prio ctxs l s = Some s' -> absent s'.
Proof.
  intros Ha. destruct l; simpl.
  - destruct (in_user _ _ _) eqn:Eu; [| done]. apply in_user_spec in Eu as [Ht _].
    destruct (valid s); [| done]. intros [= <-]. by apply absent_on.
  - by apply absent_run.
  - destruct (decide (t ∈ ctxs)) as [Ht | Ht]; [| apply Ha in Ht; unfold pc_of in Ht; by rewrite Ht].
    destruct (at_ (threads s t)); try done. intros [= <-]. by apply absent_on.
  - destruct (in_user _ _ _) eqn:Eu; [| done]. apply in_user_spec in Eu as [Ht _].
    destruct (valid s); [| done]. destruct (obj_valid _); [| done]. intros [= <-]. by apply absent_on.
  - destruct (in_user _ _ _) eqn:Eu; [| done]. apply in_user_spec in Eu as [Ht _].
    destruct (valid s); [| done]. intros [= <-]. by apply (absent_on t (enter Destroy_notify 0 Never) s).
  - destruct (in_user _ _ _) eqn:Eu; [| done]. apply in_user_spec in Eu as [Ht _].
    destruct (obj_valid _); [| done]. intros [= <-]. by apply absent_on.
  - destruct (decide (t ∈ ctxs)) as [Ht | Ht]; [| apply Ha in Ht; unfold pc_of in Ht; rewrite Ht; by destruct (timeout_q _)].
    destruct (timeout_q (threads s t)), (at_ (threads s t)); try done. destruct (_ <=? _); [| done]. intros [= <-]. by apply absent_on.
  - destruct (at_ (threads s t)); try done; intros [= <-]; by apply absent_st.
  - destruct (_ <=? _); [| done]. by intros [= <-].
Qed.

Lemma absent_runs ls : forall s s', absent s -> runs ls s = Some s' -> absent s'.
Proof.
  induction ls as [| l ls IH]; intros s s' Ha; simpl; [by intros [= <-] |].
  destruct (step _ _ _ l s) as [s1 |] eqn:E; [| done]. apply IH. by apply (absent_step l s).
Qed.

Lemma asleep_runs t ls : forall s s', asleep t s -> L_cancel t ∉ ls -> runs ls s = Some s' -> asleep t s'.
Proof.
  induction ls as [| l ls IH]; intros s s' Ha Hno; simpl; [by intros [= <-] |].
  apply not_elem_of_cons in Hno as [Hl Hno]. destruct (step _ _ _ l s) as [s1 |] eqn:E; [| done].
  apply IH; [by apply (asleep_step t l s) | done].
Qed.

(** C3: No sender is left behind at a gate.  One that sleeps in [block] is in the
    queue of a gate that is not bound, or somebody is about to empty the queue or
    to activate it; when nobody is and the gate has been bound or deleted, no
    sender sleeps.  A context that empties the queue, left alone, comes to its end
    and has made ready everybody who was in it. *)
Theorem gate_waiters_released word target s :
  NoDup ctxs -> reachable word target s ->
  (forall t, pc_of s t = Wait -> ready_of s t \/ (exists b, wakes (pc_of s b) t) \/
     t ∈ _wait_q (gt s) /\ (type (gt s) = Unbound \/ exists b, draining (pc_of s b) = true)) /\
  (type (gt s) <> Unbound -> (forall b, draining (pc_of s b) = false) -> forall t, pc_of s t = Wait -> ready_of s t) /\
  (forall b g, pc_of s b = Unblock g -> qlock (gt s) = None ->
     exists n s', run_n b n s = Some s' /\ pc_of s' b = Unblock g /\ _wait_q (gt s') = [] /\
       forall w, w ∈ _wait_q (gt s) -> ready_of s' w).
Proof.
  intros Hnd Hr. destruct (gate_reachable_inv word target s Hnd Hr) as (C & W & M).
  assert (forall t, pc_of s t = Wait -> ready_of s t \/ (exists b, wakes (pc_of s b) t) \/
     t ∈ _wait_q (gt s) /\ (type (gt s) = Unbound \/ exists b, draining (pc_of s b) = true)) as Hs.
  { intros t Ep. pose proof (w_sleep _ W t) as Hs. unfold sleep_ok in Hs. rewrite Ep in Hs.
    destruct Hs as [? | [Hin | ?]]; auto. right; right. split; [done |]. apply (w_drain _ W). intros E. rewrite E in Hin.
    by apply not_elem_of_nil in Hin. }
  split_and!; [done | |].
  - intros Hty Hno t Ep. destruct (Hs t Ep) as [? | [(b & Hb%wakes_draining) | (_ & [? | (b & Hb)])]]; try done.
    + by rewrite Hno in Hb.
    + by rewrite Hno in Hb.
  - intros b g Ep Hl. destruct (drain_all b g s Ep) as (n & s' & ? & ? & ? & ? & _); [| done | by exists n, s'].
    apply not_true_iff_false. intros Hf. destruct (m_free _ _ M Hf) as (_ & _ & Hu). specialize (Hu b).
    rewrite Ep in Hu. by destruct g.
Qed.

(** C4: Reference counters are exact: the counter of a target is the number of
    its own reference, the one of the gate, and those of contexts that are about
    to store or to drop one; it is freed exactly when the counter is zero, and
    nothing is used after it has been freed, neither a target nor the gate. *)
Theorem gate_memory_safe word target s :
  NoDup ctxs -> reachable word target s ->
  fault s = false /\
  (forall o, ref_cnt (objs s o) = one (own (objs s o) = true) + one (_tgt (gt s) = Some o) + held ctxs s o) /\
  (forall o, gone (objs s o) = true <-> ref_cnt (objs s o) = 0) /\
  (forall o, _tgt (gt s) = Some o -> gone (objs s o) = false) /\
  (forall t o, loaded (pc_of s t) = Some o -> gone (objs s o) = false).
Proof.
  intros Hnd Hr. destruct (gate_reachable_inv word target s Hnd Hr) as (C & W & M). split_and!; try apply M.
  - intros o Ho. by apply (own_alive ctxs), M, M.
  - intros t o Ho. apply (own_alive ctxs); [done |]. by apply (m_loaded _ _ M t).
Qed.
End spec.

(** * Examples *)

Module Gate_example.
(** Targets below 20 are threads, the others wait queues; four contexts. *)
Definition kinds (o : Z) : kind := if o <? 20 then Kind_thread else Kind_wait_queue.
Definition contexts : list Z := [1; 2; 3; 4].
Definition all_ready (t : Z) : Z := Thread_ready.
Abbreviation run_of := (runs kinds (fun t => t) contexts).
Abbreviation orderly_run_of := (orderly_runs kinds (fun t => t) contexts).
Abbreviation start := (create kinds all_ready None).

(** [n] steps of a context. *)
Definition times (n : nat) (t : Z) : list label := replicate n (L_run t).

(** What is looked at: the gate, the place of some contexts, the messages, faults. *)
Definition seen (s : state) :=
  (type (gt s), _tgt (gt s), _id (gt s), _wait_q (gt s), (freed (gt s), valid s), map (pc_of s) contexts,
   map (fun t => has Thread_ready (st (threads s t))) contexts, sent s, fault s).

(** Two senders block; a third context binds the gate to the thread 10 with the
    label 64 and wakes them up by priority; both pass their message on; one of
    them had found the gate unbound before it was bound and blocks only then. *)
Definition bound_run : list label :=
  [L_invoke 1 0 Never] ++ times 4 1 ++ [L_invoke 2 3 Never] ++ times 1 2 ++
  [L_bind 3 10 64] ++ times 10 3 ++ times 3 2 ++ times 4 3 ++ times 8 1 ++ times 8 2.

(** The first sender blocks while the gate is being bound: it is taken out of the
    queue before it has marked itself as waiting, and then forgets that it was
    made ready. *)
Definition lost_run : list label :=
  [L_invoke 1 0 Never] ++ times 1 1 ++ [L_bind 3 10 64] ++ times 7 3 ++ times 1 1 ++ times 2 3 ++ times 2 1 ++ times 3 3.

(** The thread 10 is deleted while the gate is bound to it and keeps it alive; a
    sender has loaded it when the gate is deleted too. *)
Definition dangling_target_run : list label :=
  [L_bind 3 10 64] ++ times 10 3 ++ [L_return 3] ++ [L_target_destroy 3 10] ++ times 1 3 ++
  [L_invoke 1 0 Never] ++ times 3 1 ++ [L_destroy 2] ++ times 5 2 ++ times 1 1.

(** The gate is deleted while the context that binds it waits for the grace period. *)
Definition dangling_gate_run : list label :=
  [L_bind 3 10 64] ++ times 8 3 ++ [L_destroy 2] ++ times 9 2 ++ times 2 3.

(** A sender blocks late and is cancelled; it has seen that it is in the queue
    when the destructor takes it out and the gate is freed. *)
Definition late_cancel_run : list label :=
  [L_invoke 1 0 Never] ++ times 1 1 ++ [L_destroy 2] ++ times 4 2 ++ times 3 1 ++ times 1 2 ++
  [L_cancel 1] ++ times 3 1 ++ times 4 2 ++ times 1 1.

(** Two contexts bind the gate again: the label of one, the target of the other. *)
Definition mixed_run : list label :=
  [L_bind 3 10 64] ++ times 10 3 ++ [L_return 3] ++
  [L_bind 3 11 128; L_bind 4 12 192] ++ times 5 3 ++ times 5 4 ++ times 2 4 ++ times 2 3 ++ [L_invoke 1 0 Never] ++ times 4 1.

Definition outcome (s : state) :=
  (type (gt s), _tgt (gt s), _id (gt s), _wait_q (gt s), freed (gt s), map (pc_of s) contexts, sent s, fault s).

Lemma outcome_some A (f : state -> A) o x : option_map f o = Some x -> exists s, o = Some s /\ f s = x.
Proof. destruct o as [s |]; [intros [= <-]; by exists s | done]. Qed.

Lemma gate_waiters_released_witness :
  exists s, orderly_run_of bound_run start = Some s /\ sent s = [(1, 10, 64); (2, 10, 67)] /\
    (forall t, pc_of s t = Wait -> ready_of s t \/ (exists b, wakes (pc_of s b) t) \/
       t ∈ _wait_q (gt s) /\ (type (gt s) = Unbound \/ exists b, draining (pc_of s b) = true)).
Proof.
  destruct (outcome_some _ sent (orderly_run_of bound_run start) [(1, 10, 64); (2, 10, 67)]) as (s & E & Hs); [vm_compute; reflexivity |].
  exists s. split_and!; [exact E | exact Hs |].
  apply (gate_waiters_released kinds (fun t => t) contexts all_ready None); [by apply (bool_decide_unpack _); vm_compute |].
  eapply orderly_runs_reachable; [apply reachable_create | exact E].
Defined.

(** The gate is deleted while a sender has loaded its target, and then the target. *)
Definition deleted_run : list label :=
  [L_bind 3 10 64] ++ times 10 3 ++ [L_return 3; L_invoke 1 0 Never] ++ times 2 1 ++ [L_destroy 2] ++ times 7 2 ++
  [L_target_destroy 3 10] ++ times 2 1 ++ times 2 2 ++ times 1 3.

Lemma gate_memory_safe_witness :
  exists s, orderly_run_of deleted_run start = Some s /\
    (freed (gt s), gone (objs s 10), sent s) = (true, true, [(1, 10, 64)]) /\ fault s = false.
Proof.
  destruct (outcome_some _ (fun s => (freed (gt s), gone (objs s 10), sent s)) (orderly_run_of deleted_run start)
              (true, true, [(1, 10, 64)])) as (s & E & Hs); [vm_compute; reflexivity |].
  exists s. split_and!; [exact E | exact Hs |].
  apply (gate_memory_safe kinds (fun t => t) contexts all_ready None); [by apply (bool_decide_unpack _); vm_compute |].
  eapply orderly_runs_reachable; [apply reachable_create | exact E].
Defined.

(** The gate drops its reference at once: a thread that has been deleted before is
    freed while a sender on another CPU, which no grace period waits for, is
    about to send to it. *)
Theorem gate_target_freed_in_use :
  option_map (fun s => (outcome s, gone (objs s 10))) (run_of dangling_target_run start) =
  Some (Bound, None, 64, [], false, [Send 10 64; Destroy_retype; Ret Deleted; User], [], true, true).
Proof. vm_compute. reflexivity. Qed.

(** A context that binds the gate sleeps in [rcu_wait] without a reference to it:
    when it goes on, the gate may have been freed. *)
Theorem gate_freed_while_bound :
  option_map outcome (run_of dangling_gate_run start) =
  Some (Destruct, None, 64, [], true, [User; Ret Deleted; Unblock Bind_second; User], [], true).
Proof. vm_compute. reflexivity. Qed.

(** A sender that has blocked late and is cancelled finds itself in the queue and
    locks the queue of a gate that is freed meanwhile. *)
Theorem gate_freed_under_waiter :
  option_map outcome (run_of late_cancel_run start) =
  Some (Destruct, None, 0, [], true, [Dequeue_lock 133; Ret Deleted; User; User], [], true).
Proof. vm_compute. reflexivity. Qed.

(** Two contexts bind the gate anew, to the thread 11 with the label 128 and to the
    thread 12 with the label 192; afterwards it passes messages on to the thread
    11 with the label 192, although no step was out of order. *)
Theorem gate_bind_mixes :
  option_map (fun s => (_tgt (gt s), _id (gt s), sent s)) (orderly_run_of mixed_run start) =
  Some (Some 11, 192, [(1, 11, 192)]).
Proof. vm_compute. reflexivity. Qed.
End Gate_example.
