(* ===== verification/CpuCall.v ===== *)
(** Requests between CPUs ([src/src/kern/cpu_call.h], with the queue of
    [queue.h]): [cpu_call_many] has a function run on a set of CPUs and waits for
    them, with at most eight requests under way at a time.  TLB shootdowns are
    such requests.

    CPUs call, handle requests and go offline at the same time.  A step is one
    access to the words of a request or of a queue, which has a lock; a handler
    interrupts the caller on its CPU where interrupts are enabled: between the
    requests of a synchronous call, and not at all during an asynchronous one,
    which is made with interrupts disabled.

    The requests lie on the stack of the caller; each call makes them anew.  A
    request carries the number of the call as the function that it runs; to run
    one that has none is a fault. *)

From stdpp Require Import functions.
From S2P Require Import Prelude.

(** * Data *)

(** [Cpu_call]: the request [snd] of the caller [fst]. *)
Definition call : Type := Z * Z.

Record request := mk_request {
  _func : option Z;
  _wait : bool;
  queued_in : option Z }.

(** Where a CPU is in [cpu_call_many].  [n] is the CPU of the loop, [i] the request
    [c]; [second]: [remote_call] is called from the second loop. *)
Inductive place :=
  | Out
  | First (n : Z) (c : option Z)            (** at the test of the first loop *)
  | Set_queued (n i : Z) (second : bool)    (** in [remote_call], before [set_queued] *)
  | Enq (n i : Z) (second : bool)
  | Online (n i : Z) (second : bool)        (** before the test whether the CPU is online *)
  | Deq (n i : Z) (second : bool)
  | Check (n i : Z) (second : bool)         (** before the test of [queued] *)
  | Check_done (n i : Z) (second : bool)
  | Second (n : Z)                          (** at the test of the second loop *)
  | Find (n i : Z)                          (** in [find_done] *)
  | Waiting (i : Z)                         (** in [wait_all] *)
  | Returned.

(** The call that a CPU makes: its number, the set of CPUs, the mode and [_used]. *)
Record caller := mk_caller { at_ : place; session : Z; cpus : Z -> bool; async : bool; used : Z }.

(** Where a CPU is in [handle_requests]. *)
Inductive handling := Idle | Loop | Run (c : call) | Finish (c : call).

(** [ran] counts how often a CPU has run the function of a call (CPU, caller and
    number of the call), [skipped] says that the CPU was found offline. *)
Record sys := mk {
  callers : Z -> caller;
  requests : call -> request;
  queues : Z -> list call;
  handlers : Z -> handling;
  ipi : Z -> bool;
  online : Z -> bool;
  ran : Z * Z * Z -> Z;
  skipped : Z * Z * Z -> bool;
  fault : bool }.

Definition on_caller (k : Z) (f : caller -> caller) (s : sys) : sys :=
  mk (<[k := f (callers s k)]> (callers s)) (requests s) (queues s) (handlers s) (ipi s) (online s) (ran s) (skipped s) (fault s).
Definition on_request (c : call) (f : request -> request) (s : sys) : sys :=
  mk (callers s) (<[c := f (requests s c)]> (requests s)) (queues s) (handlers s) (ipi s) (online s) (ran s) (skipped s) (fault s).
Definition set_requests (f : call -> request) (s : sys) : sys :=
  mk (callers s) f (queues s) (handlers s) (ipi s) (online s) (ran s) (skipped s) (fault s).
Definition set_queue (n : Z) (q : list call) (s : sys) : sys :=
  mk (callers s) (requests s) (<[n := q]> (queues s)) (handlers s) (ipi s) (online s) (ran s) (skipped s) (fault s).
Definition set_handler (n : Z) (h : handling) (s : sys) : sys :=
  mk (callers s) (requests s) (queues s) (<[n := h]> (handlers s)) (ipi s) (online s) (ran s) (skipped s) (fault s).
Definition set_ipi (n : Z) (b : bool) (s : sys) : sys :=
  mk (callers s) (requests s) (queues s) (handlers s) (<[n := b]> (ipi s)) (online s) (ran s) (skipped s) (fault s).
Definition set_online (n : Z) (b : bool) (s : sys) : sys :=
  mk (callers s) (requests s) (queues s) (handlers s) (ipi s) (<[n := b]> (online s)) (ran s) (skipped s) (fault s).
Definition note_ran (x : Z * Z * Z) (s : sys) : sys :=
  mk (callers s) (requests s) (queues s) (handlers s) (ipi s) (online s) (<[x := ran s x + 1]> (ran s)) (skipped s) (fault s).
Definition note_skipped (x : Z * Z * Z) (s : sys) : sys :=
  mk (callers s) (requests s) (queues s) (handlers s) (ipi s) (online s) (ran s) (<[x := true]> (skipped s)) (fault s).
Definition raise (s : sys) : sys :=
  mk (callers s) (requests s) (queues s) (handlers s) (ipi s) (online s) (ran s) (skipped s) true.

Definition set_at (p : place) (c : caller) : caller := mk_caller p (session c) (cpus c) (async c) (used c).
Definition set_used (u : Z) (c : caller) : caller := mk_caller (at_ c) (session c) (cpus c) (async c) u.
Definition go (k : Z) (p : place) (s : sys) : sys := on_caller k (set_at p) s.

(** * Requests *)

Definition set (f : Z) (r : request) : request := mk_request (Some f) (_wait r) (queued_in r).
Definition set_wait (b : bool) (r : request) : request := mk_request (_func r) b (queued_in r).
Definition set_queued_in (q : option Z) (r : request) : request := mk_request (_func r) (_wait r) q.
Definition queued (r : request) : bool := match queued_in r with Some _ => true | None => false end.
Definition is_done (r : request) (async : bool) : bool := if async then negb (queued r) else negb (_wait r).

(** [Cpu_call::Cpu_call()] *)
Definition fresh : request := mk_request None false None.

(** [_func(cpu)] of a request, run on the CPU [n]. *)
Definition call_func (n : Z) (c : call) (s : sys) : sys :=
  match _func (requests s c) with
  | Some m => note_ran (n, fst c, m) s
  | None => raise s
  end.

Definition enqueue (n : Z) (c : call) (s : sys) : sys :=
  set_queue n (queues s n ++ [c]) (on_request c (set_queued_in (Some n)) s).
Definition dequeue (n : Z) (c : call) (s : sys) : sys :=
  set_queue n (filter (fun d => d <> c) (queues s n)) (on_request c (set_queued_in None) s).

(** * The caller *)

Section model.
(** [Config::max_num_cpus()], the number of CPUs, and [Config::Max_num_cpus], the
    most that the kernel is built for. *)
Context (max_num_cpus Max_num_cpus : Z).

(** [Cpu_calls<8>::Max] *)
Definition Max : Z := if Max_num_cpus <? 8 then Max_num_cpus else 8.

(** [Cpu_calls::next] *)
Definition next (x : caller) : option Z * Z := if used x <? Max then (Some (used x), used x + 1) else (None, used x).

(** [remote_call] has returned [r]. *)
Definition returned (k n i : Z) (second : bool) (r : bool) (s : sys) : sys :=
  if second then go k (Second (n + 1)) s
  else if r then
    let '(c, u) := next (callers s k) in go k (First (n + 1) c) (on_caller k (set_used u) s)
  else go k (First (n + 1) (Some i)) s.

(** [remote_call]: a request to the CPU itself is run at once. *)
Definition remote_call (k n i : Z) (second : bool) (s : sys) : sys :=
  if k =? n then returned k n i second false (call_func n (k, i) s) else go k (Set_queued n i second) s.

(** The next step of [cpu_call_many] on CPU [k]; [None]: it has nothing to do. *)
Definition run (k : Z) (s : sys) : option sys :=
  let x := callers s k in
  match at_ x with
  | Out | Returned => None
  | First n c =>
      match c with
      | Some i =>
          if n <? max_num_cpus then
            if cpus x n then Some (remote_call k n i false (on_request (k, i) (set (session x)) s))
            else Some (go k (First (n + 1) c) s)
          else Some (go k (Second n) s)
      | None => Some (go k (Second n) s)
      end
  | Set_queued n i b => Some (go k (Enq n i b) (if async x then s else on_request (k, i) (set_wait true) s))
  | Enq n i b => Some (go k (Online n i b) (enqueue n (k, i) s))
  | Online n i b => Some (go k (if online s n then Check n i b else Deq n i b) s)
  | Deq n i b =>
      Some (returned k n i b false
              (if queued (requests s (k, i))
               then note_skipped (n, k, session x)
                      (let s := dequeue n (k, i) s in if async x then s else on_request (k, i) (set_wait false) s)
               else s))
  | Check n i b =>
      Some (if queued (requests s (k, i)) then returned k n i b true (set_ipi n true s) else go k (Check_done n i b) s)
  | Check_done n i b => Some (returned k n i b (negb (is_done (requests s (k, i)) (async x))) s)
  | Second n =>
      if n <? max_num_cpus then Some (go k (if cpus x n then Find n 0 else Second (n + 1)) s)
      else Some (go k (Waiting 0) s)
  | Find n i =>
      if i <? used x then
        if is_done (requests s (k, i)) (async x) then Some (remote_call k n i true s) else Some (go k (Find n (i + 1)) s)
      else Some (go k (Find n 0) s)
  | Waiting i =>
      if i <? used x then if is_done (requests s (k, i)) (async x) then Some (go k (Waiting (i + 1)) s) else Some s
      else Some (go k Returned s)
  end.

(** ** The handler *)

(** [Cpu_call_queue::handle_requests] and [Cpu_call::run] *)
Definition handle (n : Z) (s : sys) : option sys :=
  match handlers s n with
  | Idle => None
  | Loop =>
      match queues s n with
      | [] => Some (set_handler n Idle s)
      | c :: q => Some (set_handler n (Run c) (set_queue n q (on_request c (set_queued_in None) s)))
      end
  | Run c => Some (set_handler n (Finish c) (call_func n c s))
  | Finish c => Some (set_handler n Loop (on_request c (set_wait false) s))
  end.

(** ** Steps *)

Inductive label :=
  | L_call (k : Z) (m : Z -> bool) (async : bool)  (** [cpu_call_many] *)
  | L_run (k : Z)
  | L_leave (k : Z)
  | L_irq (n : Z)                    (** the interrupt of a global request *)
  | L_handle (n : Z)
  | L_offline (n : Z)                (** [take_cpu_offline] *)
  | L_online (n : Z).

(** Are interrupts enabled on the CPU, as far as the caller is concerned? *)
Definition interruptible (x : caller) : bool :=
  match at_ x with
  | Out | Returned => true
  | First _ _ | Second _ | Find _ _ | Waiting _ => negb (async x)
  | _ => false
  end.

Definition idle (h : handling) : bool := match h with Idle => true | _ => false end.

(** A CPU without a call that handles no request. *)
Definition at_rest (k : Z) (s : sys) : bool :=
  match at_ (callers s k) with Out => idle (handlers s k) | _ => false end.

(** [cpus.empty()] returns at once; otherwise eight new requests, the first one
    taken. *)
Definition begin_call (k : Z) (m : Z -> bool) (a : bool) (s : sys) : sys :=
  on_caller k (fun x => mk_caller (First 0 (Some 0)) (session x + 1) m a 1)
    (set_requests (fun c => if decide (fst c = k) then fresh else requests s c) s).

Definition step (l : label) (s : sys) : option sys :=
  match l with
  | L_call k m a =>
      if at_rest k s && online s k && existsb m (map Z.of_nat (seq 0 (Z.to_nat max_num_cpus)))
      then Some (begin_call k m a s) else None
  | L_run k => if idle (handlers s k) then run k s else None
  | L_leave k => match at_ (callers s k) with Returned => Some (go k Out s) | _ => None end
  | L_irq n =>
      if ipi s n && online s n && idle (handlers s n) && interruptible (callers s n)
      then Some (set_handler n Loop (set_ipi n false s)) else None
  | L_handle n => handle n s
  | L_offline n => if at_rest n s && online s n then Some (set_handler n Loop (set_online n false s)) else None
  | L_online n => if at_rest n s && negb (online s n) then Some (set_online n true s) else None
  end.
End model.

Definition boot (on : Z -> bool) : sys :=
  mk (fun _ => mk_caller Out 0 (fun _ => false) false 0) (fun _ => fresh) (fun _ => []) (fun _ => Idle) (fun _ => false) on
     (fun _ => 0) (fun _ => false) false.
