(* ===== verification/CpuCallInv.v ===== *)
(** The invariant of [CpuCall]: where every request is, and what a caller knows
    about its requests at every place of [cpu_call_many]. *)

From stdpp Require Import functions.
From S2P Require Import Prelude CpuCall.

(** * Where the requests are *)

(** Where a request is, and for which CPU. *)
Inductive location := Free | Sending (n : Z) | Queued (n : Z) | Running (n : Z) | Ended (n : Z).
#[export] Instance location_eq_dec : EqDecision location.
Proof. solve_decision. Defined.

Definition dest (l : location) : option Z :=
  match l with Free => None | Sending n | Queued n | Running n | Ended n => Some n end.

(** Words of a request, items of a queue and the request that a handler has. *)
Record objects (loc : call -> location) (s : sys) : Prop := {
  o_wait c : _wait (requests s c) = false <-> loc c = Free;
  o_link c : queued_in (requests s c) = match loc c with Queued n => Some n | _ => None end;
  o_queue n c : c ∈ queues s n <-> loc c = Queued n;
  o_running n c : handlers s n = Run c <-> loc c = Running n;
  o_ended n c : handlers s n = Finish c <-> loc c = Ended n;
  o_nodup n : NoDup (queues s n) }.

Ltac upd :=
  repeat match goal with
  | H : context [<[?k := _]> _ ?k] |- _ => rewrite fn_lookup_insert in H
  | |- context [<[?k := _]> _ ?k] => rewrite fn_lookup_insert
  | H : context [<[?k := _]> _ ?j], N : ?k <> ?j |- _ => rewrite (fn_lookup_insert_ne _ k j _ N) in H
  | N : ?k <> ?j |- context [<[?k := _]> _ ?j] => rewrite (fn_lookup_insert_ne _ k j _ N)
  | |- context [<[?k := _]> _ ?j] => destruct (decide (k = j)); subst
  | H : context [<[?k := _]> _ ?j] |- _ => destruct (decide (k = j)); subst
  end.

(** A request's location, if another CPU does not change it. *)
Section objects.
Context (loc : call -> location) (s : sys) (O : objects loc s).

Lemma objects_ext s' :
  requests s' = requests s -> queues s' = queues s -> handlers s' = handlers s -> objects loc s'.
Proof using O. destruct O. intros Hr Hq Hh. split; intros; rewrite ?Hr, ?Hq, ?Hh; auto. Qed.

Lemma objects_func c f : objects loc (on_request c (set f) s).
Proof using O.
  destruct O as [Ow Ol Oq Or Oe On]. split; cbn; intros; try done.
  - rewrite <- Ow. upd; done.
  - rewrite <- Ol. upd; done.
Qed.

Lemma objects_fresh k : (forall i, loc (k, i) = Free) ->
  objects loc (set_requests (fun c => if decide (fst c = k) then fresh else requests s c) s).
Proof using O.
  intros Hf. destruct O as [Ow Ol Oq Or Oe On]. split; cbn; intros; try done.
  - destruct c as [j i]; cbn. case_decide; subst; [|apply Ow]. by rewrite Hf.
  - destruct c as [j i]; cbn. case_decide; subst; [|apply Ol]. by rewrite Hf.
Qed.

Lemma objects_send c n : loc c = Free -> objects (<[c := Sending n]> loc) (on_request c (set_wait true) s).
Proof using O.
  intros Hc. destruct O as [Ow Ol Oq Or Oe On]. split; cbn; intros.
  - upd; [done | apply Ow].
  - upd; cbn; [by rewrite Ol, Hc | apply Ol].
  - upd; [rewrite Oq, Hc; done | apply Oq].
  - upd; [rewrite Or, Hc; done | apply Or].
  - upd; [rewrite Oe, Hc; done | apply Oe].
  - apply On.
Qed.

Lemma objects_enqueue c n : loc c = Sending n -> objects (<[c := Queued n]> loc) (enqueue n c s).
Proof using O.
  intros Hc. destruct O as [Ow Ol Oq Or Oe On]. unfold enqueue. split; cbn; intros.
  - upd; [cbn; rewrite Ow, Hc; done | apply Ow].
  - upd; cbn; [done | apply Ol].
  - upd; rewrite ?elem_of_app, ?list_elem_of_singleton, ?Oq, ?Hc; intuition congruence.
  - upd; [rewrite Or, Hc; done | apply Or].
  - upd; [rewrite Oe, Hc; done | apply Oe].
  - upd; [|apply On]. apply NoDup_app. repeat split; [apply On | | apply NoDup_singleton].
    intros d Hd ->%list_elem_of_singleton. apply Oq in Hd. congruence.
Qed.

Lemma objects_dequeue c n : loc c = Queued n ->
  objects (<[c := Free]> loc) (on_request c (set_wait false) (dequeue n c s)).
Proof using O.
  intros Hc. destruct O as [Ow Ol Oq Or Oe On]. unfold dequeue. split; cbn; intros.
  - upd; [done | apply Ow].
  - upd; cbn; [done | apply Ol].
  - upd; rewrite ?list_elem_of_filter, ?Oq, ?Hc; intuition congruence.
  - upd; [rewrite Or, Hc; done | apply Or].
  - upd; [rewrite Oe, Hc; done | apply Oe].
  - upd; [apply NoDup_filter|]; apply On.
Qed.

Lemma objects_take c n q : handlers s n = Loop -> queues s n = c :: q ->
  loc c = Queued n /\
  objects (<[c := Running n]> loc) (set_handler n (Run c) (set_queue n q (on_request c (set_queued_in None) s))).
Proof using O.
  intros Hh Hq. destruct O as [Ow Ol Oq Or Oe On].
  assert (Hc : loc c = Queued n) by (apply Oq; rewrite Hq; left).
  assert (Hnd := On n). rewrite Hq, NoDup_cons in Hnd. split; [done|]. split; cbn; intros.
  - upd; [cbn; rewrite Ow, Hc; done | apply Ow].
  - upd; cbn; [done | apply Ol].
  - specialize (Oq n0 c0). upd; rewrite ?Hq, ?elem_of_cons in Oq; intuition congruence.
  - specialize (Or n0 c0). upd; intuition congruence.
  - specialize (Oe n0 c0). upd; intuition congruence.
  - upd; [tauto | apply On].
Qed.

Lemma objects_ran c n : loc c = Running n -> objects (<[c := Ended n]> loc) (set_handler n (Finish c) s).
Proof using O.
  intros Hc. destruct O as [Ow Ol Oq Or Oe On]. assert (Hh := proj2 (Or n c) Hc). split; cbn; intros.
  - upd; [rewrite Ow, Hc; done | apply Ow].
  - upd; [rewrite Ol, Hc; done | apply Ol].
  - upd; [rewrite Oq, Hc; done | apply Oq].
  - specialize (Or n0 c0). upd; intuition congruence.
  - specialize (Oe n0 c0). upd; intuition congruence.
  - apply On.
Qed.

Lemma objects_finish c n : loc c = Ended n ->
  objects (<[c := Free]> loc) (set_handler n Loop (on_request c (set_wait false) s)).
Proof using O.
  intros Hc. destruct O as [Ow Ol Oq Or Oe On]. assert (Hh := proj2 (Oe n c) Hc). split; cbn; intros.
  - upd; [done | apply Ow].
  - upd; [cbn; rewrite Ol, Hc; done | apply Ol].
  - upd; [rewrite Oq, Hc; done | apply Oq].
  - specialize (Or n0 c0). upd; intuition congruence.
  - specialize (Oe n0 c0). upd; intuition congruence.
  - apply On.
Qed.

Lemma objects_handler n h : handlers s n = Idle \/ handlers s n = Loop -> h = Idle \/ h = Loop ->
  objects loc (set_handler n h s).
Proof using O.
  intros Hn Hh. destruct O as [Ow Ol Oq Or Oe On]. split; cbn; intros; try done.
  - specialize (Or n0 c). upd; intuition congruence.
  - specialize (Oe n0 c). upd; intuition congruence.
Qed.
End objects.

(** * The requests of a caller *)

(** The function has still to be run on the CPU [n]. *)
Definition pending (l : location) (n : Z) : Z :=
  match l with Sending m | Queued m | Running m => if decide (m = n) then 1 else 0 | _ => 0 end.

Fixpoint pend (l : Z -> location) (n : Z) (i : nat) : Z :=
  match i with O => 0 | S j => pending (l (Z.of_nat j)) n + pend l n j end.

#[global] Arguments pend : simpl never.

Lemma pend_ext l l' n i : (forall j, l j = l' j) -> pend l n i = pend l' n i.
Proof. intros H. induction i; unfold pend; fold pend; [done|]. by rewrite IHi, H. Qed.

Lemma pend_free l n i : (forall j, l j = Free) -> pend l n i = 0.
Proof. intros H. induction i; unfold pend; fold pend; [done|]. by rewrite IHi, H. Qed.

Lemma pend_insert l j v n i : 0 <= j ->
  pend (<[j := v]> l) n i = pend l n i + (if j <? Z.of_nat i then pending v n - pending (l j) n else 0).
Proof.
  intros Hj. induction i as [|i IH]; [unfold pend; case_cmp; lia|].
  unfold pend; fold pend. rewrite IH. upd; repeat case_cmp; lia.
Qed.

Lemma pending_nonneg l n : 0 <= pending l n.
Proof. unfold pending. destruct l; try case_decide; lia. Qed.

Lemma pend_nonneg l n i : 0 <= pend l n i.
Proof. induction i; unfold pend; fold pend; [done|]. pose proof (pending_nonneg (l (Z.of_nat i)) n). lia. Qed.

Lemma pend_ge l n i j : 0 <= j < Z.of_nat i -> pending (l j) n <= pend l n i.
Proof.
  induction i as [|i IH]; unfold pend; fold pend; [lia|]. intros Hj. destruct (decide (j = Z.of_nat i)) as [->|].
  - pose proof (pend_nonneg l n i). lia.
  - pose proof (pending_nonneg (l (Z.of_nat i)) n). lia.
Qed.

Section callers.
Context (max_num_cpus Max_num_cpus : Z).
Abbreviation Max := (CpuCall.Max Max_num_cpus).

Lemma Max_le : Max <= 8.
Proof. unfold CpuCall.Max. case_cmp; lia. Qed.

(** Has the request for the CPU [n] been made already? *)
Definition issued (p : place) (n : Z) : bool :=
  match p with
  | Out => false
  | First m _ | Set_queued m _ _ | Second m | Find m _ => n <? m
  | Enq m _ _ | Online m _ _ | Deq m _ _ | Check m _ _ | Check_done m _ _ => n <=? m
  | Waiting _ | Returned => n <? max_num_cpus
  end.

(** The request that the caller is dealing with. *)
Definition current (p : place) : option Z :=
  match p with
  | First _ c => c
  | Set_queued _ i _ | Enq _ i _ | Online _ i _ | Deq _ i _ | Check _ i _ | Check_done _ i _ => Some i
  | _ => None
  end.

(** The CPU of the loop exists and is one of those that are called. *)
Definition in_loop (x : caller) : Prop :=
  match at_ x with
  | First n _ | Second n => 0 <= n
  | Set_queued n _ _ | Enq n _ _ | Online n _ _ | Deq n _ _ | Check n _ _ | Check_done n _ _ =>
      0 <= n < max_num_cpus /\ cpus x n = true
  | Find n i => 0 <= n < max_num_cpus /\ cpus x n = true /\ 0 <= i
  | Waiting i => 0 <= i
  | _ => True
  end.

(** What a place says about the requests. *)
Definition place_ok (p : place) (l : Z -> location) : Prop :=
  match p with
  | First _ (Some i) | Set_queued _ i _ => l i = Free
  | Enq n i _ => l i = Sending n
  | Check_done n i _ => forall m, l i <> Queued m
  | Waiting i => forall j, j < i -> l j = Free
  | Returned | Out => forall j, l j = Free
  | _ => True
  end /\
  match p with
  | Enq _ _ _ => True
  | _ => forall i n, l i <> Sending n
  end /\
  match p with
  | Enq n i _ => forall j m, l j = Sending m -> j = i
  | Online n i _ | Deq n i _ | Check n i _ | Check_done n i _ => l i = Free \/ dest (l i) = Some n
  | _ => True
  end.

(** The requests in use know what to run. *)
Definition func_ok (x : caller) (l : Z -> location) (f : Z -> option Z) : Prop :=
  forall i, 0 <= i < used x ->
    f i = Some (session x) \/
    l i = Free /\
    match at_ x with
    | First _ c => c = Some i
    | Second n => max_num_cpus <= n
    | Waiting _ | Returned | Out => True
    | _ => False
    end.

Definition in_call (p : place) : bool := match p with Out => false | _ => true end.

(** A caller [x] whose requests are at [l] with functions [f]; [cnt]: how many
    CPUs have run its function or were skipped. *)
Record caller_ok (x : caller) (l : Z -> location) (f : Z -> option Z) (cnt : Z -> Z) : Prop := {
  c_sync : async x = false;
  c_used : Z.b2z (in_call (at_ x)) <= used x <= Max;
  c_loop : in_loop x;
  c_current i : current (at_ x) = Some i -> 0 <= i < used x;
  c_unused i : ~ (0 <= i < used x) -> l i = Free;
  c_place : place_ok (at_ x) l;
  c_func : func_ok x l f;
  c_count n : at_ x <> Out ->
    cnt n + pend l n 8 = Z.b2z (issued (at_ x) n && (0 <=? n) && (n <? max_num_cpus) && cpus x n) }.

Lemma caller_ext x l l' f f' cnt cnt' :
  (forall i, l i = l' i) -> (forall i, f i = f' i) -> (forall n, cnt n = cnt' n) ->
  caller_ok x l f cnt -> caller_ok x l' f' cnt'.
Proof.
  intros Hl Hf Hc [Ha Hu Hr Hcu Hun Hp Hfu Hco]. split; try done.
  - intros i Hi. rewrite <- Hl. auto.
  - revert Hp. unfold place_ok. destruct (at_ x) as [|n [?|]| | | | | | | | | |]; intros (H1 & H2 & H3); repeat split; intros; rewrite <- ?Hl; eauto.
    eapply H3. by rewrite Hl.
  - intros i Hi. rewrite <- Hl, <- Hf. auto.
  - intros n Hn. rewrite <- Hc, <- (pend_ext l l') by done. auto.
Qed.

(** ** Steps of a handler *)

(** Which way a request goes while its caller does not touch it. *)
Inductive served : location -> location -> Prop :=
  | served_take n : served (Queued n) (Running n)
  | served_run n : served (Running n) (Ended n)
  | served_finish n : served (Ended n) Free.

Lemma place_served p l i v : place_ok p l -> served (l i) v -> place_ok p (<[i := v]> l).
Proof.
  intros Hp Hs.
  assert (Hv : l i <> Free /\ (forall m, l i <> Sending m) /\ (forall m, v <> Sending m) /\ (forall m, v <> Queued m) /\
    (v = Free \/ dest v = dest (l i))) by (inversion Hs; repeat split; auto; congruence).
  clear Hs. destruct Hv as (V1 & V2 & V3 & V4 & V5). revert Hp. unfold place_ok.
  destruct p as [|n [?|]| | | | | | | | | |]; intros (H1 & H2 & H3); repeat split; intros; upd; try naive_solver.
  all: destruct V5, H3; intuition congruence.
Qed.

Lemma caller_served x l f cnt i v : caller_ok x l f cnt -> served (l i) v ->
  caller_ok x (<[i := v]> l) f (fun n => cnt n + (pending (l i) n - pending v n)).
Proof.
  intros [Ha Hu Hr Hcu Hun Hp Hfu Hco] Hs.
  assert (Hi : 0 <= i < used x).
  { destruct (decide (0 <= i < used x)) as [|N]; [done|]. rewrite (Hun _ N) in Hs. inversion Hs. }
  split; try done.
  - intros j Hj. upd; [tauto | auto].
  - by apply place_served.
  - intros j Hj. destruct (Hfu j Hj) as [|[Hl ?]]; [by left|]. right. upd; [|done]. rewrite Hl in Hs. inversion Hs.
  - intros n Hn. rewrite pend_insert by lia. specialize (Hco n Hn). pose proof Max_le.
    case_cmp; lia.
Qed.

(** ** Steps of the caller *)


Lemma issued_next x n m : 0 <= n < max_num_cpus -> cpus x n = true ->
  Z.b2z ((m <=? n) && (0 <=? m) && (m <? max_num_cpus) && cpus x m) =
  Z.b2z ((m <? n) && (0 <=? m) && (m <? max_num_cpus) && cpus x m) + (if decide (m = n) then 1 else 0).
Proof. intros Hn Hc. case_decide; subst; rewrite ?Hc; repeat case_cmp; cbn; try lia; destruct (cpus x m); cbn; lia. Qed.

Lemma issued_succ x n m :
  Z.b2z ((m <? n + 1) && (0 <=? m) && (m <? max_num_cpus) && cpus x m) =
  Z.b2z ((m <=? n) && (0 <=? m) && (m <? max_num_cpus) && cpus x m).
Proof. repeat case_cmp; done. Qed.

Lemma issued_skip x n m : cpus x n = false ->
  Z.b2z ((m <? n + 1) && (0 <=? m) && (m <? max_num_cpus) && cpus x m) =
  Z.b2z ((m <? n) && (0 <=? m) && (m <? max_num_cpus) && cpus x m).
Proof.
  intros Hc. destruct (decide (m = n)) as [->|]; [rewrite Hc, !andb_false_r; done|]. repeat case_cmp; done.
Qed.

Lemma issued_end x n m : max_num_cpus <= n ->
  Z.b2z ((m <? n) && (0 <=? m) && (m <? max_num_cpus) && cpus x m) =
  Z.b2z ((m <? max_num_cpus) && (0 <=? m) && (m <? max_num_cpus) && cpus x m).
Proof. intros. repeat case_cmp; done. Qed.

Ltac at_place E :=
  destruct_and?; unfold in_loop, func_ok, place_ok, set_at in *; cbn in *; rewrite E in *; cbn in *.

(** The function is set before a request is used. *)
Lemma caller_set x l f cnt n i : at_ x = First n (Some i) -> 0 <= n < max_num_cpus -> cpus x n = true ->
  caller_ok x l f cnt -> caller_ok (set_at (Set_queued n i false) x) l (<[i := Some (session x)]> f) cnt.
Proof.
  intros E Hn Hc [Ha Hu Hr Hcu Hun Hp Hfu Hco]. at_place E. split; unfold in_loop, place_ok; cbn; try done.
  - intros j Hj. cbn in *. upd; [by left|]. destruct (Hfu j Hj) as [|[? ?]]; [by left|congruence].
  - intros m _. by apply Hco.
Qed.

(** [remote_call] comes to [set_queued]. *)
Lemma caller_find x l f cnt n i : at_ x = Find n i -> i < used x -> l i = Free ->
  caller_ok x l f cnt -> caller_ok (set_at (Set_queued n i true) x) l f cnt.
Proof.
  intros E Hi Hl [Ha Hu Hr Hcu Hun Hp Hfu Hco]. at_place E. split; unfold in_loop, place_ok; cbn; try done.
  - tauto.
  - intros j [= <-]. lia.
  - tauto.
  - intros m _. by apply Hco.
Qed.

(** A request of which CPU takes care: the hub of the cases of [remote_call]. *)
Lemma caller_local x l f cnt n i b : at_ x = Set_queued n i b -> caller_ok x l f cnt ->
  caller_ok (set_at (Online n i b) x) l f (fun m => cnt m + if decide (m = n) then 1 else 0).
Proof.
  intros E [Ha Hu Hr Hcu Hun Hp Hfu Hco]. at_place E. split; unfold in_loop, place_ok; cbn; try done.
  - repeat split; tauto.
  - intros m _. rewrite issued_next by tauto. specialize (Hco m). rewrite <- Hco by done. lia.
Qed.

Lemma caller_send x l f cnt n i b : at_ x = Set_queued n i b -> caller_ok x l f cnt ->
  caller_ok (set_at (Enq n i b) x) (<[i := Sending n]> l) f cnt.
Proof.
  intros E [Ha Hu Hr Hcu Hun Hp Hfu Hco]. at_place E. specialize (Hcu _ eq_refl). split; unfold in_loop, place_ok; cbn; try done.
  - naive_solver.
  - intros j Hj. upd; [tauto | auto].
  - rewrite fn_lookup_insert. repeat split; auto. intros j m Hj. upd; [done|]. exfalso. naive_solver.
  - intros j Hj. left. destruct (Hfu j Hj); [done | tauto].
  - intros m _. rewrite issued_next by tauto. rewrite <- Hco by done. rewrite pend_insert by lia.
    replace (l i) with Free by (symmetry; tauto). cbn. pose proof Max_le. case_cmp.
    repeat case_decide; lia.
Qed.

Lemma caller_enqueue x l f cnt n i b : at_ x = Enq n i b -> caller_ok x l f cnt ->
  caller_ok (set_at (Online n i b) x) (<[i := Queued n]> l) f cnt.
Proof.
  intros E [Ha Hu Hr Hcu Hun Hp Hfu Hco]. at_place E. specialize (Hcu _ eq_refl). split; unfold in_loop, place_ok; cbn; try done.
  - naive_solver.
  - intros j Hj. upd; [tauto | auto].
  - rewrite fn_lookup_insert. repeat split; auto. intros j m Hj. upd; [done|]. naive_solver.
  - intros j Hj. left. destruct (Hfu j Hj); [done | tauto].
  - intros m _. rewrite <- Hco by done. rewrite pend_insert by lia.
    replace (l i) with (Sending n) by (symmetry; tauto). cbn. case_cmp; lia.
Qed.

(** The places between [enq] and the return of [remote_call]. *)
Definition sent (p : place) (n i : Z) (b : bool) : Prop :=
  p = Online n i b \/ p = Deq n i b \/ p = Check n i b \/ p = Check_done n i b.

Lemma caller_sent x l f cnt n i b p : sent (at_ x) n i b -> sent p n i b ->
  (p = Check_done n i b -> forall m, l i <> Queued m) ->
  caller_ok x l f cnt -> caller_ok (set_at p x) l f cnt.
Proof.
  intros E1 E2 Hq [Ha Hu Hr Hcu Hun Hp Hfu Hco].
  destruct E1 as [E|[E|[E|E]]]; at_place E; destruct E2 as [->|[->|[->| ->]]]; split; unfold in_loop, place_ok; cbn; try done;
    try (by apply Hcu); try (by intros m _; apply Hco); try tauto; repeat split; try tauto; by apply Hq.
Qed.

(** The caller takes the request of an offline CPU back. *)
Lemma caller_dequeue x l f cnt n i b : at_ x = Deq n i b -> l i = Queued n -> caller_ok x l f cnt ->
  caller_ok x (<[i := Free]> l) f (fun m => cnt m + if decide (m = n) then 1 else 0).
Proof.
  intros E Hl [Ha Hu Hr Hcu Hun Hp Hfu Hco]. assert (Hi := Hcu i). rewrite E in Hi. specialize (Hi eq_refl).
  split; try done.
  - intros j Hj. upd; [done | auto].
  - clear Hco. at_place E. repeat split; [|rewrite fn_lookup_insert; by left].
    intros j m. upd; [done|]. naive_solver.
  - intros j Hj. specialize (Hfu j Hj). rewrite E in Hfu |- *. destruct Hfu; [by left | tauto].
  - intros m Hm. rewrite <- Hco by done. rewrite pend_insert by lia. rewrite Hl. cbn. pose proof Max_le.
    case_cmp. repeat case_decide; lia.
Qed.

(** The caller [x] when [remote_call] has returned [r] to it. *)
Definition resumed (x : caller) (n i : Z) (b r : bool) : caller :=
  if b then set_at (Second (n + 1)) x
  else if r then let '(c, u) := next Max_num_cpus x in set_at (First (n + 1) c) (set_used u x)
  else set_at (First (n + 1) (Some i)) x.

Lemma caller_resumed x l f cnt n i b r : sent (at_ x) n i b -> (b = false -> r = false -> l i = Free) ->
  caller_ok x l f cnt -> caller_ok (resumed x n i b r) l f cnt.
Proof.
  intros E Hf O. apply (caller_sent _ _ _ _ n i b (Online n i b)) in O; [| done | by left | done].
  replace (resumed x n i b r) with (resumed (set_at (Online n i b) x) n i b r) by (unfold resumed; by destruct b, r).
  assert (E' : at_ (set_at (Online n i b) x) = Online n i b) by done. revert O E'.
  generalize (set_at (Online n i b) x) as y. clear x E. intros x [Ha Hu Hr Hcu Hun Hp Hfu Hco] E. at_place E.
  assert (Hfs : forall j, 0 <= j < used x -> f j = Some (session x)) by (intros j Hj; destruct (Hfu j Hj); tauto).
  unfold resumed, next.
  assert (Hc : forall m, cnt m + pend l m 8 = Z.b2z ((m <? n + 1) && (0 <=? m) && (m <? max_num_cpus) && cpus x m)).
  { intros m. rewrite issued_succ. by apply Hco. }
  destruct b; [|destruct r; [case_cmp|]]; split; unfold in_loop, place_ok, func_ok; cbn; try done; try lia; try tauto.
  - intros j Hj. left. auto.
  - intros j [= <-]. lia.
  - intros j Hj. apply Hun. lia.
  - repeat split; [apply Hun; lia | tauto].
  - intros j Hj. destruct (decide (j = used x)) as [->|]; [right | left; apply Hfs; lia]. split; [apply Hun; lia | done].
  - intros j Hj. left. auto.
  - intros j Hj. left. auto.
Qed.

(** ** The loops *)

Lemma caller_skip x l f cnt n c : at_ x = First n c -> cpus x n = false ->
  caller_ok x l f cnt -> caller_ok (set_at (First (n + 1) c) x) l f cnt.
Proof.
  intros E Hc [Ha Hu Hr Hcu Hun Hp Hfu Hco]. at_place E. split; unfold in_loop, place_ok; cbn; try done; try lia.
  intros m _. rewrite issued_skip by done. by apply Hco.
Qed.

Lemma caller_first_end x l f cnt n c : at_ x = First n c -> c = None \/ max_num_cpus <= n ->
  caller_ok x l f cnt -> caller_ok (set_at (Second n) x) l f cnt.
Proof.
  intros E Hc [Ha Hu Hr Hcu Hun Hp Hfu Hco]. at_place E. split; unfold in_loop, place_ok, func_ok; cbn; try done.
  - repeat split. apply Hp.
  - intros j Hj. destruct (Hfu j Hj) as [|[? ->]]; [by left|]. right. destruct Hc; done.
  - intros m _. by apply Hco.
Qed.

Lemma caller_second x l f cnt n : at_ x = Second n -> n < max_num_cpus ->
  caller_ok x l f cnt -> caller_ok (set_at (if cpus x n then Find n 0 else Second (n + 1)) x) l f cnt.
Proof.
  intros E Hn [Ha Hu Hr Hcu Hun Hp Hfu Hco]. at_place E.
  destruct (cpus x n) eqn:Hc; split; unfold in_loop, place_ok, func_ok; cbn; try done; try lia.
  - intros j Hj. destruct (Hfu j Hj) as [|[]]; [by left | lia].
  - intros m _. by apply Hco.
  - intros j Hj. destruct (Hfu j Hj) as [|[]]; [by left | lia].
  - intros m _. rewrite issued_skip by done. by apply Hco.
Qed.

Lemma caller_second_end x l f cnt n : at_ x = Second n -> max_num_cpus <= n ->
  caller_ok x l f cnt -> caller_ok (set_at (Waiting 0) x) l f cnt.
Proof.
  intros E Hn [Ha Hu Hr Hcu Hun Hp Hfu Hco]. at_place E. split; unfold in_loop, place_ok, func_ok; cbn; try done.
  - repeat split; [|apply Hp]. intros j Hj. apply Hun. lia.
  - intros j Hj. destruct (Hfu j Hj) as [|[]]; auto.
  - intros m _. rewrite <- (issued_end x n m) by done. by apply Hco.
Qed.

Lemma caller_find_next x l f cnt n i j : at_ x = Find n i -> 0 <= j ->
  caller_ok x l f cnt -> caller_ok (set_at (Find n j) x) l f cnt.
Proof.
  intros E Hj [Ha Hu Hr Hcu Hun Hp Hfu Hco]. at_place E. split; unfold in_loop, place_ok, func_ok; cbn; try done; try lia; try tauto.
  intros m _. by apply Hco.
Qed.

Lemma caller_wait_next x l f cnt i : at_ x = Waiting i -> l i = Free ->
  caller_ok x l f cnt -> caller_ok (set_at (Waiting (i + 1)) x) l f cnt.
Proof.
  intros E Hl [Ha Hu Hr Hcu Hun Hp Hfu Hco]. at_place E.
  split; unfold in_loop, place_ok, func_ok; cbn; try done; try lia; try tauto; [|intros m _; by apply Hco].
  repeat split; [|apply Hp]. intros j Hj. destruct (decide (j = i)) as [->|]; [done|]. apply Hp. lia.
Qed.

Lemma caller_wait_end x l f cnt i : at_ x = Waiting i -> used x <= i ->
  caller_ok x l f cnt -> caller_ok (set_at Returned x) l f cnt.
Proof.
  intros E Hl [Ha Hu Hr Hcu Hun Hp Hfu Hco]. at_place E.
  split; unfold in_loop, place_ok, func_ok; cbn; try done; try lia; try tauto; [|intros m _; by apply Hco].
  repeat split; [|apply Hp]. intros j. destruct (decide (0 <= j < used x)); [apply Hp; lia | by apply Hun].
Qed.

Lemma caller_leave x l f cnt cnt' : at_ x = Returned -> caller_ok x l f cnt -> caller_ok (set_at Out x) l f cnt'.
Proof.
  intros E [Ha Hu Hr Hcu Hun Hp Hfu Hco]. at_place E.
  split; unfold in_loop, place_ok, func_ok; cbn; try done; try lia; try tauto.
Qed.

Lemma caller_begin x l f f' cnt m : 0 < Max_num_cpus -> at_ x = Out -> caller_ok x l f cnt ->
  caller_ok (mk_caller (First 0 (Some 0)) (session x + 1) m false 1) l f' (fun _ => 0).
Proof.
  intros HM E [Ha Hu Hr Hcu Hun Hp Hfu Hco]. at_place E.
  assert (1 <= Max) by (unfold CpuCall.Max; case_cmp; lia).
  split; unfold in_loop, place_ok, func_ok; cbn; try done; try lia.
  - intros i [= <-]. lia.
  - intros i _. apply Hp.
  - repeat split; apply Hp.
  - intros i Hi. right. split; [apply Hp | f_equal; lia].
  - intros n _. rewrite pend_free by apply Hp. repeat case_cmp; done.
Qed.
End callers.
