(* ===== verification/CpuCallSpec.v ===== *)
(** Requests between CPUs: a synchronous call returns when the function has run
    once on every CPU of the set that is online, and no request is forgotten
    ([orderly] excludes that a CPU that goes offline takes up a request while its
    caller finds the CPU offline); and runs in which an asynchronous call returns
    too early and in which the excluded race leaves a request under way. *)

From stdpp Require Import functions.
From S2P Require Import Prelude CpuCall CpuCallInv.

#[local] Instance handling_eq_dec : EqDecision handling.
Proof. solve_decision. Defined.

Section spec.
Context (max_num_cpus Max_num_cpus : Z) (HMax : 0 < Max_num_cpus).
Abbreviation step := (CpuCall.step max_num_cpus Max_num_cpus).
Abbreviation run := (CpuCall.run max_num_cpus Max_num_cpus).
Abbreviation returned := (CpuCall.returned Max_num_cpus).
Abbreviation remote_call := (CpuCall.remote_call Max_num_cpus).
Abbreviation caller_ok := (CpuCallInv.caller_ok max_num_cpus Max_num_cpus).

(** * The invariant *)

(** How often a CPU has run a function or was skipped as offline. *)
Definition count (s : sys) (n k m : Z) : Z := ran s (n, k, m) + Z.b2z (skipped s (n, k, m)).

(** The caller is about to find the CPU [n] offline with the request [i] queued. *)
Definition minds (p : place) (n i : Z) : Prop :=
  match p with Online m j _ | Deq m j _ => m = n /\ j = i | _ => False end.
Definition checks (p : place) (n i : Z) : Prop := match p with Check m j _ => m = n /\ j = i | _ => False end.

(** Somebody will take up the request [c], queued for the CPU [n]. *)
Definition noticed (s : sys) (c : call) (n : Z) : Prop :=
  minds (at_ (callers s (fst c))) n (snd c) \/ handlers s n <> Idle \/
  online s n = true /\ (ipi s n = true \/ checks (at_ (callers s (fst c))) n (snd c)).

Definition my_caller_ok (loc : call -> location) (s : sys) (k : Z) : Prop :=
  caller_ok (callers s k) (fun i => loc (k, i)) (fun i => _func (requests s (k, i)))
    (fun n => count s n k (session (callers s k))).

Record Inv (loc : call -> location) (s : sys) : Prop := {
  i_objects : objects loc s;
  i_caller k : my_caller_ok loc s k;
  i_future k n m : session (callers s k) < m -> count s n k m = 0;
  i_noticed c n : loc c = Queued n -> noticed s c n;
  i_ran x : 0 <= ran s x;
  i_fault : fault s = false }.

(** All calls are synchronous, and a caller that finds a CPU offline does not meet
    its handler with the request. *)
Definition orderly (l : label) (s : sys) : Prop :=
  match l with
  | L_call _ _ a => a = false
  | L_run k =>
      match at_ (callers s k) with
      | Deq n i _ => match handlers s n with Run c | Finish c => c <> (k, i) | _ => True end
      | _ => True
      end
  | _ => True
  end.

(** A step of which only the caller [k] takes notice. *)
Lemma inv_change k loc s loc' s' : Inv loc s -> objects loc' s' ->
  (forall j, j <> k -> callers s' j = callers s j) ->
  (forall c, fst c <> k -> loc' c = loc c /\ _func (requests s' c) = _func (requests s c)) ->
  (forall n j m, j <> k \/ m <> session (callers s k) -> count s' n j m = count s n j m) ->
  session (callers s k) <= session (callers s' k) ->
  my_caller_ok loc' s' k ->
  (forall c n, loc' c = Queued n -> noticed s' c n) -> (forall x, ran s x <= ran s' x) -> fault s' = false -> Inv loc' s'.
Proof.
  intros [Io Ic If In Ir Ifa] Ho Hc Hr Hn Hs Hk Hno Hra Hf. split; try done.
  - intros j. destruct (decide (j = k)) as [->|Hj]; [done|]. unfold my_caller_ok. rewrite (Hc j Hj).
    eapply caller_ext; [| | | apply (Ic j)].
    + intros i. symmetry. by apply Hr.
    + intros i. symmetry. by apply Hr.
    + intros n. symmetry. by apply Hn; left.
  - intros j n m Hm. destruct (decide (j = k)) as [->|Hj].
    + rewrite Hn by (right; lia). apply If. lia.
    + rewrite Hn by auto. apply If. by rewrite <- Hc.
  - intros x. etrans; [apply (Ir x) | apply Hra].
Qed.

(** Requests stay noticed when only the caller [k] moves on. *)
Lemma noticed_caller k s s' c n :
  (forall j, j <> k -> callers s' j = callers s j) -> handlers s' = handlers s -> online s' = online s ->
  (ipi s n = true -> ipi s' n = true) ->
  (fst c = k -> minds (at_ (callers s k)) n (snd c) \/ checks (at_ (callers s k)) n (snd c) -> noticed s' c n) ->
  noticed s c n -> noticed s' c n.
Proof.
  intros Hc Hh Ho Hi Hk [Hm|[Hr|[Hon [Hp|Hm]]]].
  - destruct (decide (fst c = k)) as [<-|Hj]; [by auto|]. left. by rewrite Hc.
  - right; left. by rewrite Hh.
  - right; right. rewrite Ho. auto.
  - destruct (decide (fst c = k)) as [<-|Hj]; [by auto|]. right; right. rewrite Hc, Ho by done. auto.
Qed.

(** * Handlers *)

(** A request that is under way knows its function. *)
Lemma func_of loc s c : Inv loc s -> loc c <> Free -> _func (requests s c) = Some (session (callers s (fst c))).
Proof.
  intros I Hc. destruct c as [k i]. destruct (i_caller _ _ I k) as [_ _ _ _ Hun _ Hfu _]. cbn in *.
  destruct (decide (0 <= i < used (callers s k))) as [Hi|Hi]; [|by destruct (Hc (Hun i Hi))].
  destruct (Hfu i Hi) as [|[]]; done.
Qed.

(** The caller of a request that a handler takes on. *)
Lemma served_caller loc s s' c v :
  Inv loc s -> served (loc c) v -> callers s' = callers s ->
  (forall d, _func (requests s' d) = _func (requests s d)) ->
  (forall n, count s' n (fst c) (session (callers s (fst c))) =
    count s n (fst c) (session (callers s (fst c))) + (pending (loc c) n - pending v n)) ->
  my_caller_ok (<[c := v]> loc) s' (fst c).
Proof.
  intros I Hs Hc Hf Hn. destruct c as [k i]. unfold my_caller_ok. rewrite Hc.
  eapply caller_ext; [| | | apply (caller_served _ _ _ _ _ _ i v (i_caller _ _ I k) Hs)]; cbn.
  - intros j. destruct (decide (i = j)) as [->|Hj]; [by rewrite !fn_lookup_insert|].
    rewrite !fn_lookup_insert_ne by congruence. done.
  - intros j. by rewrite Hf.
  - intros n. by rewrite Hn.
Qed.

Lemma other_loc (c d : call) (loc : call -> location) v k : fst c = k -> fst d <> k -> <[c := v]> loc d = loc d.
Proof. intros <- Hd. rewrite fn_lookup_insert_ne; [done | congruence]. Qed.

Ltac others := intros d Hd; split; [by eapply other_loc | cbn; upd; done].

(** A request that is served needs no notice any more, and its handler is active. *)
Lemma noticed_served loc s s' c v n h : Inv loc s -> (forall m, v <> Queued m) -> h <> Idle ->
  callers s' = callers s -> handlers s' = <[n := h]> (handlers s) -> ipi s' = ipi s -> online s' = online s ->
  forall d m, <[c := v]> loc d = Queued m -> noticed s' d m.
Proof.
  intros I Hv Hh Hc Hn Hi Ho d m Hd. destruct (decide (c = d)) as [->|N].
  - rewrite fn_lookup_insert in Hd. by destruct (Hv m).
  - rewrite fn_lookup_insert_ne in Hd by done. unfold noticed. rewrite Hc, Hn, Hi, Ho.
    destruct (i_noticed _ _ I d m Hd) as [|[|]]; [by left | right; left; by upd | by right; right].
Qed.

Lemma ran_note y s x : ran s x <= ran (note_ran y s) x.
Proof. cbn. upd; lia. Qed.

Lemma handle_inv loc s n s' : Inv loc s -> handle n s = Some s' -> exists loc', Inv loc' s'.
Proof.
  intros I Hs. unfold handle in Hs. assert (O := i_objects _ _ I). destruct (handlers s n) as [| |c|c] eqn:Eh; [done| | |].
  - destruct (queues s n) as [|c q] eqn:Eq; injection Hs as <-.
    + exists loc. apply (inv_change n loc s); try done; [by apply objects_handler; auto | apply I | | apply I].
      intros c m Hc. assert (Hm : m <> n).
      { intros ->. apply O in Hc. rewrite Eq in Hc. by apply elem_of_nil in Hc. }
      destruct (i_noticed _ _ I c m Hc) as [|[|]]; [by left | right; left; cbn; by upd | by right; right].
    + destruct (objects_take loc s O c n q Eh Eq) as [Hc O'].
      exists (<[c := Running n]> loc). apply (inv_change (fst c) loc s); try done; [others | | | apply I].
      * apply (served_caller loc s); try done; [rewrite Hc; constructor | intros d; cbn; upd; done |].
        intros m. rewrite Hc. cbn. unfold count. cbn. lia.
      * by apply (noticed_served loc s _ c _ n (Run c)).
  - injection Hs as <-. assert (Hc : loc c = Running n) by (by apply O).
    unfold call_func. rewrite (func_of loc) by (done || by rewrite Hc).
    exists (<[c := Ended n]> loc). apply (inv_change (fst c) loc s); try done; [| others | | | | by apply ran_note | apply I].
    + by apply objects_ext with (s := set_handler n (Finish c) s); [apply objects_ran|..].
    + intros m j t Hj. unfold count. cbn. rewrite fn_lookup_insert_ne; [done|]. intros [= ? ? ?]; subst. tauto.
    + apply (served_caller loc s); try done; [rewrite Hc; constructor|].
      intros m. rewrite Hc. unfold count. cbn. destruct (decide (n = m)) as [->|Hm].
      * rewrite fn_lookup_insert. lia.
      * rewrite fn_lookup_insert_ne by congruence. lia.
    + by apply (noticed_served loc s _ c _ n (Finish c)).
  - injection Hs as <-. assert (Hc : loc c = Ended n) by (by apply O).
    exists (<[c := Free]> loc). apply (inv_change (fst c) loc s); try done; [by apply objects_finish | others | | | apply I].
    + apply (served_caller loc s); try done; [rewrite Hc; constructor | intros d; cbn; upd; done |].
      intros m. rewrite Hc. unfold count. cbn. lia.
    + by apply (noticed_served loc s _ c _ n Loop).
Qed.

(** * The caller *)

Lemma callers_go k p s j : callers (go k p s) j = if decide (j = k) then set_at p (callers s k) else callers s j.
Proof. unfold go, on_caller. cbn. case_decide; [subst; apply fn_lookup_insert | apply fn_lookup_insert_ne; congruence]. Qed.

Lemma callers_returned k n i b r s j :
  callers (returned k n i b r s) j = if decide (j = k) then resumed Max_num_cpus (callers s k) n i b r else callers s j.
Proof.
  unfold CpuCall.returned, resumed. destruct b; [apply callers_go|]. destruct r; [|apply callers_go].
  destruct (next Max_num_cpus (callers s k)) as [c u]. rewrite callers_go. unfold on_caller. cbn.
  case_decide; [by rewrite fn_lookup_insert | apply fn_lookup_insert_ne; congruence].
Qed.

Lemma returned_same k n i b r s : let s' := returned k n i b r s in
  requests s' = requests s /\ queues s' = queues s /\ handlers s' = handlers s /\ ipi s' = ipi s /\
  online s' = online s /\ ran s' = ran s /\ skipped s' = skipped s /\ fault s' = fault s.
Proof.
  unfold CpuCall.returned. destruct b; [done|]. destruct r; [|done]. by destruct (next Max_num_cpus (callers s k)).
Qed.

Lemma resumed_at x n i b r m j : ~ minds (at_ (resumed Max_num_cpus x n i b r)) m j /\ ~ checks (at_ (resumed Max_num_cpus x n i b r)) m j.
Proof. unfold resumed. destruct b; [by split; intros []|]. destruct r; [|by split; intros []]. destruct (next Max_num_cpus x). by split; intros []. Qed.

Lemma session_resumed x n i b r : session (resumed Max_num_cpus x n i b r) = session x.
Proof. unfold resumed. destruct b; [done|]. destruct r; [|done]. by destruct (next Max_num_cpus x). Qed.

(** The caller [k] goes from place to place and nothing else happens. *)
Lemma go_inv loc s k p : Inv loc s ->
  caller_ok (set_at p (callers s k)) (fun i => loc (k, i)) (fun i => _func (requests s (k, i)))
    (fun n => count s n k (session (callers s k))) ->
  (forall n i, minds (at_ (callers s k)) n i \/ checks (at_ (callers s k)) n i -> loc (k, i) = Queued n ->
    minds p n i \/ handlers s n <> Idle \/ online s n = true /\ (ipi s n = true \/ checks p n i)) ->
  Inv loc (go k p s).
Proof.
  intros I Hk Hn. apply (inv_change k loc s); try done; try apply I.
  - by apply (objects_ext loc s); [apply I|..].
  - intros j Hj. by rewrite callers_go, decide_False.
  - by rewrite callers_go, decide_True.
  - unfold my_caller_ok. by rewrite callers_go, decide_True.
  - intros c n Hc. apply (noticed_caller k s); try done; [| | by apply I].
    + intros j Hj. by rewrite callers_go, decide_False.
    + intros <- Hm. unfold noticed. rewrite callers_go, decide_True by done.
      apply Hn; [done|]. by destruct c.
Qed.

(** [remote_call] returns without having changed a request or a queue. *)
Lemma returned_inv loc s k n i b r : Inv loc s -> sent (at_ (callers s k)) n i b ->
  (b = false -> r = false -> loc (k, i) = Free) ->
  (loc (k, i) = Queued n -> handlers s n <> Idle \/ online s n = true /\ ipi s n = true) ->
  Inv loc (returned k n i b r s).
Proof.
  intros I Hs Hf Hq. destruct (returned_same k n i b r s) as (Er & Eq & Eh & Ei & Eo & Ea & Ek & Ef).
  apply (inv_change k loc s); try done.
  - by apply (objects_ext loc s); [apply I|..].
  - intros j Hj. by rewrite callers_returned, decide_False.
  - intros c _. by rewrite Er.
  - intros. unfold count. by rewrite Ea, Ek.
  - by rewrite callers_returned, decide_True, session_resumed.
  - unfold my_caller_ok. rewrite callers_returned, decide_True, session_resumed by done.
    apply caller_resumed; [done | done |]. eapply caller_ext; [done | | | apply (i_caller _ _ I k)].
    + intros j. by rewrite Er.
    + intros m. unfold count. by rewrite Ea, Ek.
  - intros c m Hc. apply (noticed_caller k s); try done; [| by rewrite Ei | | by apply I].
    + intros j Hj. by rewrite callers_returned, decide_False.
    + intros <- Hm. unfold noticed. rewrite Eh, Eo, Ei.
      assert (Hx : m = n /\ snd c = i) by (destruct Hs as [E|[E|[E|E]]]; rewrite E in Hm; cbn in Hm; intuition congruence).
      destruct Hx as [-> <-]. destruct c as [k i]. cbn in *. destruct (Hq Hc) as [|[]]; auto.
  - intros x. by rewrite Ea.
  - rewrite Ef. apply I.
Qed.

Lemma resumed_set_at p x n i b r : resumed Max_num_cpus (set_at p x) n i b r = resumed Max_num_cpus x n i b r.
Proof. unfold resumed, next. cbn. by destruct b, r. Qed.

(** A request of the CPU to itself. *)
Lemma call_local_inv loc s k i b : Inv loc (go k (Set_queued k i b) s) ->
  Inv loc (returned k k i b false (call_func k (k, i) s)).
Proof.
  intros I. set (t := go k (Set_queued k i b) s) in *.
  assert (Hk : callers t k = set_at (Set_queued k i b) (callers s k)) by (by unfold t; rewrite callers_go, decide_True).
  assert (C := i_caller _ _ I k). unfold my_caller_ok in C. rewrite Hk in C.
  assert (Hf : _func (requests s (k, i)) = Some (session (callers s k))).
  { destruct C as [_ _ _ Hcu _ _ Hfu _]. specialize (Hcu i eq_refl). destruct (Hfu i Hcu) as [E|[_ []]]. exact E. }
  unfold call_func. rewrite Hf. set (u := note_ran (k, fst (k, i), session (callers s k)) s).
  destruct (returned_same k k i b false u) as (Er & Eq & Eh & Ei & Eo & Ea & Ek & Ef).
  apply (inv_change k loc t); try done.
  - by apply (objects_ext loc t); [apply I|..].
  - intros j Hj. rewrite callers_returned, decide_False by done. unfold t. by rewrite callers_go, decide_False.
  - intros c _. by rewrite Er.
  - intros n j m Hj. unfold count. rewrite Ea, Ek. cbn. rewrite fn_lookup_insert_ne; [done|].
    intros [= ? ? ?]; subst. rewrite Hk in Hj. cbn in Hj. tauto.
  - rewrite Hk, callers_returned, decide_True, session_resumed by done. done.
  - unfold my_caller_ok. rewrite callers_returned, decide_True, session_resumed by done. cbn [callers u note_ran].
    rewrite <- (resumed_set_at (Online k i b)). apply caller_resumed; [by left | |].
    { intros _ _. destruct C as [_ _ _ _ _ Hp _ _]. apply Hp. }
    change (set_at (Online k i b) (callers s k)) with (set_at (Online k i b) (set_at (Set_queued k i b) (callers s k))).
    eapply caller_ext; [done | | | apply caller_local, C; done].
    + intros j. by rewrite Er.
    + intros m. unfold count. rewrite Ea, Ek. cbn. destruct (decide (m = k)) as [->|Hm].
      * rewrite fn_lookup_insert. lia.
      * rewrite fn_lookup_insert_ne by congruence. lia.
  - intros c m Hc. apply (noticed_caller k t); try done; [| by rewrite Ei | | by apply I].
    + intros j Hj. rewrite callers_returned, decide_False by done. unfold t. by rewrite callers_go, decide_False.
    + intros <-. rewrite Hk. by intros [[]|[]].
  - intros x. rewrite Ea. apply (ran_note _ s).
  - rewrite Ef. apply I.
Qed.

Lemma my_loc (loc : call -> location) k i v j : <[i := v]> (fun j => loc (k, j)) j = <[(k, i) := v]> loc (k, j).
Proof.
  destruct (decide (i = j)) as [->|N]; [by rewrite !fn_lookup_insert|]. rewrite !fn_lookup_insert_ne by congruence. done.
Qed.

(** A step of the caller [k] that takes its request [i] to [v]. *)
Lemma request_inv loc s s' k i v p d : Inv loc s -> objects (<[(k, i) := v]> loc) s' ->
  (forall j, callers s' j = if decide (j = k) then set_at p (callers s k) else callers s j) ->
  (forall c, _func (requests s' c) = _func (requests s c)) ->
  (forall n j m, count s' n j m = count s n j m + if decide (j = k /\ m = session (callers s k)) then d n else 0) ->
  caller_ok (set_at p (callers s k)) (<[i := v]> (fun i => loc (k, i))) (fun i => _func (requests s (k, i)))
    (fun n => count s n k (session (callers s k)) + d n) ->
  handlers s' = handlers s -> online s' = online s -> ipi s' = ipi s -> fault s' = fault s ->
  (forall n j, j <> i -> ~ minds (at_ (callers s k)) n j /\ ~ checks (at_ (callers s k)) n j) ->
  (forall n, v = Queued n -> minds p n i) -> (forall x, ran s x <= ran s' x) ->
  Inv (<[(k, i) := v]> loc) s'.
Proof.
  intros I O Hc Hf Hn Hk Hh Ho Hi Hfa Hm Hq Hra. assert (Hck := Hc k). rewrite decide_True in Hck by done.
  apply (inv_change k loc s); try done.
  - intros j Hj. by rewrite Hc, decide_False.
  - intros c Hd. split; [by eapply other_loc | apply Hf].
  - intros n j m Hj. rewrite Hn, decide_False by tauto. lia.
  - by rewrite Hck.
  - unfold my_caller_ok. rewrite Hck. eapply caller_ext; [| | | apply Hk].
    + intros j. apply my_loc.
    + intros j. symmetry. apply Hf.
    + intros n. rewrite Hn. cbn. by rewrite decide_True.
  - intros c n Hcn. destruct (decide ((k, i) = c)) as [<-|N].
    + rewrite fn_lookup_insert in Hcn. left. cbn. rewrite Hck. by apply Hq.
    + rewrite fn_lookup_insert_ne in Hcn by done. apply (noticed_caller k s); try done; [| by rewrite Hi | | by apply I].
      * intros j Hj. by rewrite Hc, decide_False.
      * destruct c as [k0 j]. cbn. intros -> Hx. destruct (Hm n j) as [H1 H2]; [congruence | tauto].
  - rewrite Hfa. apply I.
Qed.

(** [Cpu_call_queue::dequeue] for an offline CPU. *)
Lemma taken_back_inv loc s k n i b : Inv loc s -> at_ (callers s k) = Deq n i b -> loc (k, i) = Queued n ->
  let s' := note_skipped (n, k, session (callers s k)) (on_request (k, i) (set_wait false) (dequeue n (k, i) s)) in
  skipped s (n, k, session (callers s k)) = false -> Inv (<[(k, i) := Free]> loc) s'.
Proof.
  intros I E Hl s' Hsk. apply (request_inv loc s s' k i Free (Deq n i b) (fun m => if decide (m = n) then 1 else 0));
    try done.
  - by apply (objects_ext _ (on_request (k, i) (set_wait false) (dequeue n (k, i) s))); [apply objects_dequeue; [apply I|]|..].
  - intros j. case_decide; [subst|done]. cbn. destruct (callers s k); cbn in *. by subst.
  - intros c. cbn. by upd.
  - intros m j t. unfold count. cbn. destruct (decide ((n, k, session (callers s k)) = (m, j, t))) as [[= <- <- <-]|N].
    + rewrite fn_lookup_insert, Hsk, !decide_True by done. cbn. lia.
    + rewrite fn_lookup_insert_ne by done. repeat case_decide; try lia. destruct_and?. subst. done.
  - replace (set_at (Deq n i b) (callers s k)) with (callers s k) by (destruct (callers s k); cbn in *; by subst).
    eapply caller_dequeue; [done | done | apply (i_caller _ _ I k)].
  - intros m j Hj. rewrite E. cbn. intuition.
Qed.

(** A request that is queued has not been skipped. *)
Lemma not_skipped loc s k n i b : Inv loc s -> at_ (callers s k) = Deq n i b -> loc (k, i) = Queued n ->
  skipped s (n, k, session (callers s k)) = false.
Proof.
  intros I E Hl. destruct (i_caller _ _ I k) as [_ Hu _ Hcu _ _ _ Hco]. rewrite E in Hcu, Hco. cbn in *.
  specialize (Hcu i eq_refl). pose proof (Max_le Max_num_cpus). specialize (Hco n ltac:(done)).
  pose proof (pend_ge (fun i => loc (k, i)) n 8 i ltac:(lia)) as Hp. cbn in Hp. rewrite Hl in Hp. cbn in Hp.
  rewrite decide_True in Hp by done. unfold count in Hco. pose proof (i_ran _ _ I (n, k, session (callers s k))).
  destruct (skipped s (n, k, session (callers s k))); [|done]. cbn in Hco.
  destruct (_ && _ && _ && _) in Hco; cbn in Hco; lia.
Qed.

(** Before [remote_call]. *)
Lemma remote_inv loc s k n i b : Inv loc (go k (Set_queued n i b) s) -> Inv loc (remote_call k n i b s).
Proof.
  unfold CpuCall.remote_call. destruct (Z.eqb_spec k n) as [<-|]; [apply call_local_inv | done].
Qed.

Lemma first_set_inv loc s k n i : Inv loc s -> at_ (callers s k) = First n (Some i) -> n < max_num_cpus ->
  cpus (callers s k) n = true ->
  Inv loc (go k (Set_queued n i false) (on_request (k, i) (set (session (callers s k))) s)).
Proof.
  intros I E Hn Hc. apply (inv_change k loc s); try done; try apply I.
  - apply (objects_ext loc (on_request (k, i) (set (session (callers s k))) s)); try done. by apply objects_func, I.
  - intros j Hj. by rewrite callers_go, decide_False.
  - intros [j m] Hj. split; [done|]. cbn in *. by rewrite fn_lookup_insert_ne by congruence.
  - by rewrite callers_go, decide_True.
  - unfold my_caller_ok. rewrite callers_go, decide_True by done. cbn.
    assert (C := i_caller _ _ I k). assert (0 <= n) by (destruct C as [_ _ Hr _ _ _ _ _]; unfold in_loop in Hr; by rewrite E in Hr).
    eapply caller_ext; [done | | done | apply (caller_set _ _ _ _ _ _ n i E ltac:(done) Hc C)].
    intros j. cbn. destruct (decide (i = j)) as [->|N]; [by rewrite !fn_lookup_insert|].
    by rewrite !fn_lookup_insert_ne by congruence.
  - intros c m Hm. apply (noticed_caller k s); try done; [| | by apply I].
    + intros j Hj. by rewrite callers_go, decide_False.
    + rewrite E. by intros _ [[]|[]].
Qed.

Lemma free_iff loc s c : Inv loc s -> is_done (requests s c) false = true -> loc c = Free.
Proof. intros I Hd. apply I. unfold is_done in Hd. by destruct (_wait (requests s c)). Qed.

Lemma queued_iff loc s c n : Inv loc s -> loc c = Queued n -> queued (requests s c) = true.
Proof. intros I Hc. unfold queued. rewrite (o_link _ _ (i_objects _ _ I)), Hc. done. Qed.

Lemma queued_to loc s c : Inv loc s -> queued (requests s c) = true -> exists n, loc c = Queued n.
Proof.
  intros I Hq. unfold queued in Hq. rewrite (o_link _ _ (i_objects _ _ I)) in Hq. destruct (loc c); try done. eauto.
Qed.

(** What the caller knows of the request that it has sent. *)
Lemma sent_dest loc s k n i b : Inv loc s -> sent (at_ (callers s k)) n i b ->
  (loc (k, i) = Free \/ dest (loc (k, i)) = Some n) /\ forall m, loc (k, i) <> Sending m.
Proof.
  intros I Hs. destruct (i_caller _ _ I k) as [_ _ _ _ _ Hp _ _].
  destruct Hs as [E|[E|[E|E]]]; rewrite E in Hp; destruct Hp as (_ & H1 & H2); split; auto.
Qed.

Lemma queued_at loc s k n i b m : Inv loc s -> sent (at_ (callers s k)) n i b -> loc (k, i) = Queued m -> m = n.
Proof. intros I Hs Hl. destruct (sent_dest _ _ _ _ _ _ I Hs) as [[Hf|Hd] _]; rewrite Hl in *; [done|]. by injection Hd. Qed.

(** The three ways out of [remote_call] after [enq]. *)
Lemma deq_inv loc s k n i b s' : Inv loc s -> at_ (callers s k) = Deq n i b -> orderly (L_run k) s ->
  run k s = Some s' -> exists loc', Inv loc' s'.
Proof.
  intros I E Ho Hs. unfold CpuCall.run in Hs. cbn in Ho. rewrite E in Hs, Ho. injection Hs as <-.
  assert (Ha := c_sync _ _ _ _ _ _ (i_caller _ _ I k)). rewrite Ha.
  assert (Se : sent (at_ (callers s k)) n i b) by (rewrite E; right; by left).
  destruct (queued (requests s (k, i))) eqn:Eq.
  - destruct (queued_to _ _ _ I Eq) as [m Hl]. assert (m = n) as -> by by eapply queued_at.
    exists (<[(k, i) := Free]> loc).
    apply returned_inv; [by apply (taken_back_inv loc s k n i b); [| | |eapply not_skipped] | done | |];
      rewrite fn_lookup_insert; done.
  - exists loc. assert (Hf : loc (k, i) = Free).
    { destruct (sent_dest _ _ _ _ _ _ I Se) as [Hd Hn]. destruct (loc (k, i)) eqn:El; try done.
      - by destruct (Hn n0).
      - by rewrite (queued_iff _ _ _ _ I El) in Eq.
      - destruct Hd as [|[= ->]]; [done|]. apply (i_objects _ _ I) in El. by rewrite El in Ho.
      - destruct Hd as [|[= ->]]; [done|]. apply (i_objects _ _ I) in El. by rewrite El in Ho. }
    apply returned_inv; try done. by rewrite Hf.
Qed.

Lemma set_ipi_inv loc s n : Inv loc s -> Inv loc (set_ipi n true s).
Proof.
  intros I. apply (inv_change 0 loc s); try done; try apply I.
  - apply (objects_ext loc s); [apply I | done..].
  - intros c m Hc. destruct (i_noticed _ _ I c m Hc) as [|[|[Hon Hp]]]; [by left | by right; left |].
    right; right. split; [done|]. destruct Hp; [left; cbn; by upd | by right].
Qed.

Lemma call_check_inv loc s k n i b s' : Inv loc s -> at_ (callers s k) = Check n i b ->
  run k s = Some s' -> Inv loc s'.
Proof.
  intros I E Hs. unfold CpuCall.run in Hs. rewrite E in Hs. injection Hs as <-.
  assert (Se : sent (at_ (callers s k)) n i b) by (rewrite E; right; right; by left).
  destruct (queued (requests s (k, i))) eqn:Eq.
  - destruct (queued_to _ _ _ I Eq) as [m Hl]. assert (m = n) as -> by by eapply queued_at.
    apply returned_inv; [by apply set_ipi_inv | done | done |]. intros _.
    destruct (i_noticed _ _ I _ _ Hl) as [Hm|[|[Hon _]]]; [|by left|].
    + cbn in Hm. by rewrite E in Hm.
    + right. split; [done|]. cbn. by rewrite fn_lookup_insert.
  - apply go_inv; [done | |].
    + apply (caller_sent _ _ _ _ _ _ n i b); [done | by right; right; right | | apply I].
      intros _ m Hl. by rewrite (queued_iff _ _ _ _ I Hl) in Eq.
    + intros m j. rewrite E. intros [[]|[-> ->]] Hl. by rewrite (queued_iff _ _ _ _ I Hl) in Eq.
Qed.

Lemma check_done_inv loc s k n i b s' : Inv loc s -> at_ (callers s k) = Check_done n i b ->
  run k s = Some s' -> Inv loc s'.
Proof.
  intros I E Hs. unfold CpuCall.run in Hs. rewrite E in Hs. injection Hs as <-.
  assert (Ha := c_sync _ _ _ _ _ _ (i_caller _ _ I k)). rewrite Ha.
  apply returned_inv; [done | rewrite E; by right; right; right | |].
  - intros _ Hd. apply (free_iff loc s); [done|]. by apply negb_false_iff.
  - intros Hl. destruct (i_caller _ _ I k) as [_ _ _ _ _ Hp _ _]. rewrite E in Hp. destruct Hp as [Hp _]. by destruct (Hp n).
Qed.

Lemma call_send_inv loc s k n i b : Inv loc s -> at_ (callers s k) = Set_queued n i b ->
  Inv (<[(k, i) := Sending n]> loc) (go k (Enq n i b) (on_request (k, i) (set_wait true) s)).
Proof.
  intros I E. assert (C := i_caller _ _ I k). assert (Hf : loc (k, i) = Free).
  { destruct C as [_ _ _ _ _ Hp _ _]. rewrite E in Hp. apply Hp. }
  apply (request_inv loc s _ k i (Sending n) (Enq n i b) (fun _ => 0)); try done.
  - apply (objects_ext _ (on_request (k, i) (set_wait true) s)); try done. by apply objects_send; [apply I|].
  - intros j. by rewrite callers_go.
  - intros c. cbn. by upd.
  - intros m j t. unfold count. cbn. case_decide; lia.
  - eapply caller_ext; [done | done | | by apply caller_send, C]. intros m. cbn. lia.
  - rewrite E. by intros m j _; split; intros [].
Qed.

Lemma call_enqueue_inv loc s k n i b : Inv loc s -> at_ (callers s k) = Enq n i b ->
  Inv (<[(k, i) := Queued n]> loc) (go k (Online n i b) (enqueue n (k, i) s)).
Proof.
  intros I E. assert (C := i_caller _ _ I k). assert (Hf : loc (k, i) = Sending n).
  { destruct C as [_ _ _ _ _ Hp _ _]. rewrite E in Hp. apply Hp. }
  apply (request_inv loc s _ k i (Queued n) (Online n i b) (fun _ => 0)); try done.
  - apply (objects_ext _ (enqueue n (k, i) s)); try done. by apply objects_enqueue; [apply I|].
  - intros j. by rewrite callers_go.
  - intros c. cbn. by upd.
  - intros m j t. unfold count. cbn. case_decide; lia.
  - eapply caller_ext; [done | done | | by apply caller_enqueue, C]. intros m. cbn. lia.
  - rewrite E. by intros m j _; split; intros [].
  - by intros m [= <-].
Qed.

(** A step between places that mind no request. *)
Ltac case_cmp_in H :=
  match type of H with context [?a <? ?b] => destruct (Z.ltb_spec a b) end.

Ltac plain E := apply go_inv; [done | | by rewrite E; intros ? ? [[]|[]]].

Lemma call_run_inv loc s k s' : Inv loc s -> orderly (L_run k) s -> run k s = Some s' -> exists loc', Inv loc' s'.
Proof.
  intros I Ho Hs. assert (C := i_caller _ _ I k). assert (Ha := c_sync _ _ _ _ _ _ C). assert (Hs' := Hs).
  unfold CpuCall.run in Hs. destruct (at_ (callers s k)) as [|n c|n i b|n i b|n i b|n i b|n i b|n i b|n|n i|i|] eqn:E;
    try done; rewrite ?Ha in Hs.
  - destruct c as [i|]; [case_cmp_in Hs|].
    + destruct (cpus (callers s k) n) eqn:Ec; injection Hs as <-; exists loc.
      * by apply remote_inv, first_set_inv.
      * plain E. by apply caller_skip.
    + injection Hs as <-. exists loc. plain E. eapply caller_first_end; [done | right; lia | done].
    + injection Hs as <-. exists loc. plain E. eapply caller_first_end; [done | by left | done].
  - injection Hs as <-. eexists. by apply call_send_inv.
  - injection Hs as <-. eexists. by apply call_enqueue_inv.
  - injection Hs as <-. exists loc. apply go_inv; [done | |].
    + eapply caller_sent; [rewrite E; by left | | | done]; destruct (online s n); unfold sent; auto; done.
    + intros m j. rewrite E. intros [[-> ->]|[]] _. destruct (online s m) eqn:Eo; cbn; [by right; right; auto | by left].
  - by eapply deq_inv.
  - exists loc. by eapply call_check_inv.
  - exists loc. by eapply check_done_inv.
  - case_cmp_in Hs; injection Hs as <-; exists loc; plain E; [by apply caller_second | by eapply caller_second_end].
  - case_cmp_in Hs; [destruct (is_done (requests s (k, i)) false) eqn:Ed|]; injection Hs as <-; exists loc.
    + apply remote_inv. plain E. apply caller_find; [done | done | by eapply free_iff | done].
    + plain E. eapply caller_find_next; [done | | done]. destruct C as [_ _ Hr _ _ _ _ _]. unfold in_loop in Hr. rewrite E in Hr. lia.
    + plain E. by eapply caller_find_next.
  - case_cmp_in Hs; [destruct (is_done (requests s (k, i)) false) eqn:Ed|]; injection Hs as <-; exists loc; [| done |].
    + plain E. apply caller_wait_next; [done | by eapply free_iff | done].
    + plain E. by eapply caller_wait_end.
Qed.

Lemma idle_spec h : idle h = true -> h = Idle.
Proof. by destruct h. Qed.

Lemma at_rest_spec k s : at_rest k s = true -> at_ (callers s k) = Out /\ handlers s k = Idle.
Proof. unfold at_rest. destruct (at_ (callers s k)); try done. intros H. by apply idle_spec in H. Qed.

Lemma begin_inv loc s k m : Inv loc s -> at_ (callers s k) = Out -> Inv loc (begin_call k m false s).
Proof using HMax.
  intros I E. assert (C := i_caller _ _ I k). assert (Hf : forall i, loc (k, i) = Free).
  { destruct C as [_ _ _ _ _ Hp _ _]. rewrite E in Hp. apply Hp. }
  apply (inv_change k loc s); try done; try apply I.
  - apply (objects_ext _ (set_requests (fun c => if decide (fst c = k) then fresh else requests s c) s)); try done.
    by apply objects_fresh; [apply I|].
  - intros j Hj. cbn. by rewrite fn_lookup_insert_ne.
  - intros c Hc. split; [done|]. cbn. by rewrite decide_False.
  - cbn. rewrite fn_lookup_insert. cbn. lia.
  - unfold my_caller_ok. cbn [callers begin_call on_caller set_requests]. rewrite fn_lookup_insert.
    eapply caller_ext; [done | done | | by eapply caller_begin]. intros n. cbn. symmetry.
    apply (i_future _ _ I k n (session (callers s k) + 1)). lia.
  - intros c n Hc. destruct c as [j i]. destruct (decide (j = k)) as [->|N]; [by rewrite Hf in Hc|].
    apply (noticed_caller k s); try done; [| by apply I].
    intros h Hh. cbn. by rewrite fn_lookup_insert_ne.
Qed.

(** A CPU's handler and switches change, and no caller does. *)
Lemma cpu_inv loc s s' : Inv loc s -> objects loc s' -> callers s' = callers s -> requests s' = requests s ->
  ran s' = ran s -> skipped s' = skipped s -> fault s' = fault s ->
  (forall c n, loc c = Queued n -> noticed s c n -> noticed s' c n) -> Inv loc s'.
Proof.
  intros I Ho Hc Hr Ha Hk Hf Hn. apply (inv_change 0 loc s); try done.
  - intros. by rewrite Hc.
  - intros. by rewrite Hr.
  - intros. unfold count. by rewrite Ha, Hk.
  - by rewrite Hc.
  - unfold my_caller_ok. rewrite Hc. eapply caller_ext; [done | | | apply (i_caller _ _ I)].
    + intros. by rewrite Hr.
    + intros. unfold count. by rewrite Ha, Hk.
  - intros. apply Hn; [done|]. by apply I.
  - intros. by rewrite Ha.
  - rewrite Hf. apply I.
Qed.

Lemma call_step_inv loc s l s' : Inv loc s -> orderly l s -> step l s = Some s' -> exists loc', Inv loc' s'.
Proof using HMax.
  intros I Ho Hs. destruct l as [k m a|k|k|n|n|n|n]; cbn in Hs.
  - destruct (_ && _) eqn:Eg in Hs; [|done]. injection Hs as <-. cbn in Ho. subst a. exists loc.
    apply andb_prop in Eg as [Eg _]. apply andb_prop in Eg as [[Ea _]%at_rest_spec _]. by apply begin_inv.
  - destruct (idle _) in Hs; [|done]. by eapply call_run_inv.
  - destruct (at_ (callers s k)) eqn:E; try done. injection Hs as <-. exists loc. plain E.
    eapply caller_leave; [done | apply (i_caller _ _ I k)].
  - destruct (_ && _) eqn:Eg in Hs; [|done]. injection Hs as <-. exists loc.
    apply andb_prop in Eg as [Eg _]. apply andb_prop in Eg as [_ Eh%idle_spec].
    apply (cpu_inv loc s); try done.
    + apply (objects_ext loc (set_handler n Loop s)); try done. apply objects_handler; [apply I | by left | by right].
    + intros c m Hc [|[|[Hon Hp]]]; [by left | right; left; cbn; by upd|].
      destruct (decide (n = m)) as [->|N]; [right; left; cbn; by rewrite fn_lookup_insert|].
      right; right. cbn. by rewrite fn_lookup_insert_ne.
  - by eapply handle_inv.
  - destruct (_ && _) eqn:Eg in Hs; [|done]. injection Hs as <-. exists loc.
    apply andb_prop in Eg as [[_ Eh]%at_rest_spec _]. apply (cpu_inv loc s); try done.
    + apply (objects_ext loc (set_handler n Loop s)); try done. apply objects_handler; [apply I | by left | by right].
    + intros c m Hc [|[|[Hon Hp]]]; [by left | right; left; cbn; by upd|].
      destruct (decide (n = m)) as [->|N]; [right; left; cbn; by rewrite fn_lookup_insert|].
      right; right. cbn. by rewrite fn_lookup_insert_ne.
  - destruct (_ && _) eqn:Eg in Hs; [|done]. injection Hs as <-. exists loc. apply (cpu_inv loc s); try done.
    + apply (objects_ext loc s); try done. apply I.
    + intros c m Hc [|[|[Hon Hp]]]; [by left | by right; left |]. right; right. cbn. split; [by upd | done].
Qed.

(** * Reachable states *)

Inductive reachable (on : Z -> bool) : sys -> Prop :=
  | reachable_boot : reachable on (boot on)
  | reachable_step l s s' : reachable on s -> orderly l s -> step l s = Some s' -> reachable on s'.

Lemma boot_inv on : 0 <= max_num_cpus -> Inv (fun _ => Free) (boot on).
Proof using HMax.
  intros Hn. split; cbn; try done.
  - split; cbn; try done; try (intros; split; done). intros n c. rewrite elem_of_nil. by split. intros; apply NoDup_nil_2.
  - intros k. assert (0 <= CpuCall.Max Max_num_cpus) by (unfold Max; case_cmp; lia).
    split; unfold in_loop, place_ok, func_ok; cbn; try done. intros i Hi. lia.
Qed.

Lemma call_reachable_inv on s : 0 <= max_num_cpus -> reachable on s -> exists loc, Inv loc s.
Proof using HMax.
  intros Hn. induction 1 as [|l s s' _ [loc I] Ho Hs]; [eexists; by apply boot_inv|]. by eapply call_step_inv.
Qed.

Fixpoint runs (ls : list label) (s : sys) : option sys :=
  match ls with
  | [] => Some s
  | l :: ls => match step l s with Some s' => runs ls s' | None => None end
  end.

#[local] Instance orderly_dec l s : Decision (orderly l s).
Proof. destruct l; cbn; try apply _. destruct (at_ (callers s k)); try apply _. destruct (handlers s n); apply _. Defined.

Fixpoint orderly_runs (ls : list label) (s : sys) : option sys :=
  match ls with
  | [] => Some s
  | l :: ls =>
      if decide (orderly l s) then match step l s with Some s' => orderly_runs ls s' | None => None end else None
  end.

Lemma call_runs_reachable on ls : forall s s', reachable on s -> orderly_runs ls s = Some s' -> reachable on s'.
Proof.
  induction ls as [|l ls IH]; intros s s' Hr; cbn [orderly_runs]; [by intros [= <-]|].
  destruct (decide (orderly l s)); [|done]. destruct (step l s) eqn:E; [|done]. apply IH. by eapply reachable_step.
Qed.

(** C5: When a synchronous [cpu_call_many] returns, the function has run exactly
    once on every CPU of the set that was not offline and on no other CPU; no
    queue and no handler has a request of the call any more, so that they may
    disappear with the stack frame of the caller; and no request was ever run
    without its function. *)
Theorem cpu_call_many_correct on s k : 0 <= max_num_cpus -> reachable on s -> at_ (callers s k) = Returned ->
  (forall n, ran s (n, k, session (callers s k)) + Z.b2z (skipped s (n, k, session (callers s k))) =
     Z.b2z ((0 <=? n) && (n <? max_num_cpus) && cpus (callers s k) n)) /\
  (forall n i, (k, i) ∉ queues s n /\ handlers s n <> Run (k, i) /\ handlers s n <> Finish (k, i)) /\
  fault s = false.
Proof using HMax.
  intros Hm Hr E. destruct (call_reachable_inv on s Hm Hr) as [loc I]. destruct (i_caller _ _ I k) as [_ _ _ _ _ Hp _ Hco].
  rewrite E in Hp, Hco. cbn in *. destruct Hp as [Hf _]. split_and!; [| | apply I].
  - intros n. specialize (Hco n ltac:(done)). rewrite pend_free in Hco by done. unfold count in Hco.
    rewrite Z.add_0_r in Hco. rewrite Hco. repeat case_cmp; done.
  - intros n i. split_and!; intros H; apply (i_objects _ _ I) in H; by rewrite Hf in H.
Qed.

(** The caller repeats itself until a request is done. *)
Definition spins (s : sys) (k : Z) : bool :=
  let x := callers s k in
  match at_ x with
  | Waiting i => (i <? used x) && negb (is_done (requests s (k, i)) (async x))
  | Find _ _ => forallb (fun i => negb (is_done (requests s (k, Z.of_nat i)) (async x))) (seq 0 (Z.to_nat (used x)))
  | _ => false
  end.

(** A step of the kernel that is no repetition. *)
Definition works (l : label) (s : sys) : Prop :=
  match l with L_run k => spins s k = false | L_irq _ | L_handle _ => True | _ => False end.

Lemma handle_some n s : handlers s n <> Idle -> exists s', handle n s = Some s'.
Proof. unfold handle. destruct (handlers s n); try done; [destruct (queues s n)|..]; eauto. Qed.

Lemma run_some k s : at_ (callers s k) <> Out -> at_ (callers s k) <> Returned -> exists s', run k s = Some s'.
Proof.
  unfold CpuCall.run. destruct (at_ (callers s k)) as [|n [i|]| | | | | | | | | |]; try done; intros _ _; eauto;
    repeat case_match; eauto.
Qed.

Lemma spins_on loc s k : Inv loc s -> spins s k = true ->
  exists i n, (loc (k, i) = Queued n \/ loc (k, i) = Running n \/ loc (k, i) = Ended n) /\
    match at_ (callers s k) with Waiting _ | Find _ _ => True | _ => False end.
Proof.
  intros I Hs. destruct (i_caller _ _ I k) as [Ha Hu Hl _ _ Hp _ _]. unfold spins in Hs. rewrite Ha in Hs.
  assert (match at_ (callers s k) with Waiting _ | Find _ _ => True | _ => False end /\
    exists i, _wait (requests s (k, i)) = true) as [Hw [i Hi]].
  { destruct (at_ (callers s k)); try done.
    - split; [done|]. exists 0. cbn in Hu. rewrite forallb_forall in Hs.
      specialize (Hs O). rewrite in_seq in Hs. specialize (Hs ltac:(lia)). cbn in Hs. by destruct (_wait _).
    - split; [done|]. exists i. apply andb_prop in Hs as [_ Hs]. cbn in Hs. by destruct (_wait _). }
  assert (Hn : loc (k, i) <> Free) by (intros Hf; apply (i_objects _ _ I) in Hf; congruence).
  assert (Hse : forall m, loc (k, i) <> Sending m).
  { intros m. destruct (at_ (callers s k)); try done; apply Hp. }
  exists i. destruct (loc (k, i)) as [|m|m|m|m] eqn:El; try done; [by destruct (Hse m)|..]; exists m; auto.
Qed.

(** C6: No call is stuck: as long as some CPU is in a synchronous [cpu_call_many]
    there is a CPU that can take a step other than to look again at requests that
    are not done, in spite of interrupts that are lost while a CPU is offline or
    delayed while it sends requests itself. *)
Theorem cpu_call_not_stuck on s k : 0 <= max_num_cpus -> reachable on s ->
  at_ (callers s k) <> Out -> at_ (callers s k) <> Returned ->
  exists l s', step l s = Some s' /\ works l s.
Proof using HMax.
  intros Hm Hr H1 H2. destruct (call_reachable_inv on s Hm Hr) as [loc I].
  assert (Hh : forall n, handlers s n <> Idle -> exists l s', step l s = Some s' /\ works l s).
  { intros n Hn. destruct (handle_some n s Hn) as [s' E]. by exists (L_handle n), s'. }
  assert (Hk : forall n, at_ (callers s n) <> Out -> at_ (callers s n) <> Returned -> spins s n = false ->
    exists l s', step l s = Some s' /\ works l s).
  { intros n N1 N2 N3. destruct (decide (handlers s n = Idle)) as [Hi|]; [|by apply (Hh n)].
    destruct (run_some n s N1 N2) as [s' E]. exists (L_run n), s'. split; [|done]. cbn. by rewrite Hi. }
  destruct (spins s k) eqn:Hs; [|by apply (Hk k)]. destruct (spins_on loc s k I Hs) as (i & n & Hl & Hw).
  destruct (decide (handlers s n = Idle)) as [Hi|]; [|by apply (Hh n)].
  destruct Hl as [Hl|[Hl|Hl]]; [|apply (i_objects _ _ I) in Hl; congruence..].
  destruct (i_noticed _ _ I _ _ Hl) as [Hmi|[|[Hon [Hip|Hc]]]]; cbn in *; [by destruct (at_ (callers s k)) | done | |
    by destruct (at_ (callers s k))].
  destruct (interruptible (callers s n)) eqn:Hin.
  - exists (L_irq n). eexists. cbn. by rewrite Hip, Hon, Hi, Hin.
  - assert (Ha := c_sync _ _ _ _ _ _ (i_caller _ _ I n)). unfold interruptible in Hin. rewrite Ha in Hin.
    apply (Hk n); unfold spins; destruct (at_ (callers s n)); done.
Qed.
End spec.

(** * Runs *)

Module Cpu_call_example.
(** Three CPUs; CPU 2 is offline in [two]. *)
Abbreviation run_of := (runs 3 3).
Abbreviation orderly_run_of := (orderly_runs 3 3).
Definition all (n : Z) : bool := (0 <=? n) && (n <? 3).
Definition two (n : Z) : bool := (0 <=? n) && (n <? 2).
Definition only_one (n : Z) : bool := n =? 1.
Definition others (n : Z) : bool := (n =? 1) || (n =? 2).

(** [n] steps of the caller on the CPU [k]. *)
Definition times (n : nat) (k : Z) : list label := replicate n (L_run k).

(** CPU 0 calls all CPUs; CPU 1 is interrupted by the request and runs it, CPU 2
    is found offline. *)
Definition called_run : list label :=
  [L_call 0 all false] ++ times 6 0 ++ [L_irq 1; L_handle 1; L_handle 1; L_handle 1; L_handle 1] ++ times 10 0.

(** An asynchronous call to CPU 1, which takes the request out of its queue; the
    caller finds that it is not queued and returns. *)
Definition early_run : list label :=
  [L_call 0 only_one true] ++ times 6 0 ++ [L_irq 1; L_handle 1] ++ times 6 0.

(** CPU 1 goes offline between [enq] and the test of the caller, and takes up the
    request; the caller uses the same request for CPU 2. *)
Definition offline_run : list label :=
  [L_call 0 others false] ++ times 4 0 ++ [L_offline 1; L_handle 1] ++ times 7 0 ++ [L_handle 1; L_handle 1] ++ times 5 0.

(** What is looked at: the place of CPU 0, how often each CPU has run the first
    function, which CPUs are online, the queue of CPU 2 and faults. *)
Definition seen (s : sys) :=
  (at_ (callers s 0), map (fun n => ran s (n, 0, 1)) [0; 1; 2], map (online s) [0; 1; 2], queues s 2, fault s).

Lemma call_seen_some A (f : sys -> A) o x : option_map f o = Some x -> exists s, o = Some s /\ f s = x.
Proof. destruct o as [s|]; [intros [= <-]; by exists s | done]. Qed.

Lemma cpu_call_many_correct_witness :
  exists s, orderly_run_of called_run (boot two) = Some s /\ seen s = (Returned, [1; 1; 0], [true; true; false], [], false) /\
    session (callers s 0) = 1 /\
    (forall n, ran s (n, 0, session (callers s 0)) + Z.b2z (skipped s (n, 0, session (callers s 0))) =
       Z.b2z ((0 <=? n) && (n <? 3) && cpus (callers s 0) n)).
Proof.
  destruct (call_seen_some _ (fun s => (seen s, session (callers s 0))) (orderly_run_of called_run (boot two))
              (Returned, [1; 1; 0], [true; true; false], [], false, 1)) as (s & E & Hs); [vm_compute; reflexivity|].
  assert (H1 : seen s = _) by exact (f_equal fst Hs). exists s.
  split_and!; [exact E | exact H1 | exact (f_equal snd Hs) |].
  apply (cpu_call_many_correct 3 3 ltac:(lia) two s 0 ltac:(lia)); [|by injection H1].
  eapply call_runs_reachable; [apply reachable_boot | exact E].
Defined.

(** CPU 0 waits for CPU 1, which has not been interrupted yet. *)
Definition waiting_run : list label := [L_call 0 only_one false] ++ times 9 0.

Lemma cpu_call_not_stuck_witness :
  exists s, orderly_run_of waiting_run (boot all) = Some s /\ at_ (callers s 0) = Waiting 0 /\ spins s 0 = true /\
    exists l s', CpuCall.step 3 3 l s = Some s' /\ works l s.
Proof.
  destruct (call_seen_some _ (fun s => (at_ (callers s 0), spins s 0)) (orderly_run_of waiting_run (boot all))
              (Waiting 0, true)) as (s & E & Hs); [vm_compute; reflexivity|].
  injection Hs as H1 H2. exists s. split_and!; [exact E | exact H1 | exact H2 |].
  apply (cpu_call_not_stuck 3 3 ltac:(lia) all s 0 ltac:(lia)); [| rewrite H1; discriminate..].
  eapply call_runs_reachable; [apply reachable_boot | exact E].
Defined.

(** An asynchronous call returns before the function has run on the CPU, which is
    online; the CPU then runs a request that the caller has given up. *)
Theorem cpu_call_async_returns_early :
  exists s s', run_of early_run (boot all) = Some s /\ seen s = (Returned, [0; 0; 0], [true; true; true], [], false) /\
    handlers s 1 = Run (0, 0) /\
    run_of [L_leave 0; L_call 0 only_one true; L_handle 1] s = Some s' /\ fault s' = true.
Proof.
  destruct (call_seen_some _ (fun s => (seen s, handlers s 1,
      option_map fault (run_of [L_leave 0; L_call 0 only_one true; L_handle 1] s))) (run_of early_run (boot all))
      (Returned, [0; 0; 0], [true; true; true], [], false, Run (0, 0), Some true)) as (s & E & Hs); [vm_compute; reflexivity|].
  destruct (call_seen_some _ fault _ _ (f_equal snd Hs)) as (s' & E' & Hf).
  exists s, s'. split_and!; [exact E | exact (f_equal (fun x => fst (fst x)) Hs) | exact (f_equal (fun x => snd (fst x)) Hs) | done..].
Qed.

(** A CPU that goes offline runs the request of a caller that has just found it
    offline: the caller uses the request again, and returns before CPU 2, which is
    online, has run the function. *)
Theorem cpu_call_offline_race :
  exists s, run_of offline_run (boot all) = Some s /\
    seen s = (Returned, [0; 1; 0], [true; false; true], [(0, 0)], false).
Proof.
  destruct (call_seen_some _ seen (run_of offline_run (boot all))
              (Returned, [0; 1; 0], [true; false; true], [(0, 0)], false)) as (s & E & Hs); [vm_compute; reflexivity|].
  by exists s.
Qed.
End Cpu_call_example.
