(* ===== verification/Wfq.v ===== *)
(** The weighted fair queueing scheduler ([src/src/kern/ready_queue_wfq.h],
    [sched_context_wfq.h], and the operations of [sched_context.h] on it).

    The ready queue is a binary heap of scheduling contexts in an array, ordered by
    their deadlines; a context has the address of its slot in the array.  A context
    is an address and [store] holds its fields; an address of a slot is its
    distance from the start of the array. *)

From stdpp Require Import functions.
From S2P Require Import Prelude L4Types Outcome.

(** * Scheduling contexts *)

Module Sched_context.
Record t := mk { _ready_link : option Z; _idle : bool; _dl : Z; _left : Z; _q : Z; _w : Z; _qdw : Z }.

Definition set_ready_link (l : option Z) (c : t) : t := mk l (_idle c) (_dl c) (_left c) (_q c) (_w c) (_qdw c).
Definition set_idle_flag (c : t) : t := mk (_ready_link c) true (_dl c) (_left c) (_q c) (_w c) (_qdw c).
Definition set_dl (d : Z) (c : t) : t := mk (_ready_link c) (_idle c) d (_left c) (_q c) (_w c) (_qdw c).
Definition set_left (l : Z) (c : t) : t := mk (_ready_link c) (_idle c) (_dl c) l (_q c) (_w c) (_qdw c).

Section context.
Context (Default_time_slice : Z).

Definition make : t := mk None false 0 Default_time_slice Default_time_slice 1 Default_time_slice.
End context.

Definition in_ready_list (c : t) : bool := match _ready_link c with Some _ => true | None => false end.

Definition replenish (c : t) : t :=
  let c := set_left (_q c) c in set_dl (wrap 64 (_dl c + _qdw c)) c.

Definition dominates (c other : t) : bool := negb (_idle c) && (_dl c <? _dl other).

(** [L4_sched_param_wfq] *)
Record params := mk_params { head : L4_sched_param.t; quantum : Z; weight : Z }.

Definition Class : Z := -2.

Section params.
Context `{Arch}.

Definition sched_classes : Z := mshl 1 (- Class).

Definition check_param (sizeof_wfq : Z) (p : params) : Z :=
  if negb (L4_sched_param.sched_class (head p) =? Class) then - L4_err.val L4_err.ERange
  else if negb (L4_sched_param.check_length (head p) sizeof_wfq) then - L4_err.val L4_err.EInval
  else if (quantum p =? 0) || (weight p =? 0) then - L4_err.val L4_err.EInval
  else 0.

(** The fields are [unsigned], the parameters machine words. *)
Definition set (p : params) (c : t) : t :=
  mk (_ready_link c) (_idle c) 0 (_left c) (wrap 32 (quantum p)) (wrap 32 (weight p)) (wrap 32 (quantum p / weight p)).
End params.
End Sched_context.
Import Sched_context.

(** * The ready queue *)

Module Ready_queue.
Record t := mk { store : Z -> Sched_context.t; _heap : list Z; _cnt : Z; _current_sched : option Z; idle : Z }.

Definition on_sc (e : Z) (f : Sched_context.t -> Sched_context.t) (s : t) : t :=
  mk (<[e := f (store s e)]> (store s)) (_heap s) (_cnt s) (_current_sched s) (idle s).
Definition set_heap (h : list Z) (s : t) : t := mk (store s) h (_cnt s) (_current_sched s) (idle s).
Definition set_cnt (n : Z) (s : t) : t := mk (store s) (_heap s) n (_current_sched s) (idle s).
Definition set_current (c : option Z) (s : t) : t := mk (store s) (_heap s) (_cnt s) c (idle s).

Definition Heap_size : Z := 1024.

(** [&idle - _heap]: [idle], [_current_sched] and [_cnt] lie before the array. *)
Definition Idle_index : Z := -3.

(** Turns of the loops: a path of a heap of 1024 elements is not longer. *)
Definition Turns : nat := 16.

Definition current_sched (s : t) : option Z := _current_sched s.
Definition activate (c : option Z) (s : t) : t := set_current c s.

Definition set_idle (e : Z) (s : t) : t :=
  let s := mk (store s) (_heap s) (_cnt s) (_current_sched s) e in
  on_sc e (fun c => set_idle_flag (set_ready_link (Some Idle_index) c)) s.

(** [_heap[k]] *)
Definition elem (k : Z) (s : t) : outcome Z :=
  if 0 <=? k then match _heap s !! Z.to_nat k with Some e => Done e | None => Fault end else Fault.

Definition dl (s : t) (e : Z) : Z := _dl (store s e).

Definition swap (a b : Z) (s : t) : outcome t :=
  let* x := elem a s in
  let* y := elem b s in
  let s := on_sc y (set_ready_link (Some a)) (on_sc x (set_ready_link (Some b)) s) in
  Done (set_heap (<[Z.to_nat b := x]> (<[Z.to_nat a := y]> (_heap s))) s).

Fixpoint heap_up (n : nat) (a : Z) (s : t) : outcome t :=
  if 0 <? a then
    match n with
    | O => Diverge
    | S n =>
        let p := (a - 1) / 2 in
        let* x := elem p s in
        let* y := elem a s in
        if dl s x <? dl s y then Done s
        else let* s := swap p a s in heap_up n p s
    end
  else Done s.

Fixpoint heap_down (n : nat) (a : Z) (s : t) : outcome t :=
  match n with
  | O => Diverge
  | S n =>
      let c1 := wrap 32 (2 * a + 1) in
      let c2 := wrap 32 (2 * a + 2) in
      if _cnt s <=? c1 then Done s
      else
        let* c :=
          if c2 <? _cnt s then
            let* y := elem c2 s in
            let* x := elem c1 s in
            Done (if dl s y <=? dl s x then c2 else c1)
          else Done c1 in
        let* x := elem a s in
        let* y := elem c s in
        if dl s x <=? dl s y then Done s
        else let* s := swap c a s in heap_down n c s
  end.

(** A full array is a panic. *)
Definition enqueue (i : Z) (s : t) : outcome t :=
  if in_ready_list (store s i) then Done s
  else
    let n := _cnt s in
    let s := set_cnt (wrap 32 (n + 1)) s in
    if Heap_size <=? n then Fault
    else heap_up Turns n (on_sc i (set_ready_link (Some n)) (set_heap (<[Z.to_nat n := i]> (_heap s)) s)).

Definition dequeue (i : Z) (s : t) : outcome t :=
  match _ready_link (store s i) with
  | None => Done s
  | Some l =>
      if i =? idle s then Done s
      else
        let x := wrap 32 l in
        let s := set_cnt (wrap 32 (_cnt s - 1)) s in
        if x =? _cnt s then Done (on_sc i (set_ready_link None) s)
        else
          let* s := swap x (_cnt s) s in
          let* s := heap_down Turns x s in
          Done (on_sc i (set_ready_link None) s)
  end.

Definition requeue (i : Z) (s : t) : outcome t :=
  let* s := if in_ready_list (store s i) then Done s else enqueue i s in
  match _ready_link (store s i) with Some l => heap_down Turns (wrap 32 l) s | None => Fault end.

(** The context chosen, and the queue: the idle context is given the deadline of
    the current one. *)
Definition next_to_run (s : t) : outcome (Z * t) :=
  if negb (_cnt s =? 0) then let* e := elem 0 s in Done (e, s)
  else
    Done (idle s,
      match _current_sched s with Some c => on_sc (idle s) (set_dl (dl s c)) s | None => s end).

Definition deblock_refill (e : Z) (s : t) : t :=
  let da := match _current_sched s with Some c => dl s c | None => 0 end in
  let c := store s e in
  if da <=? _dl c then s
  else
    let left := wrap 64 (_left c + wrap 64 ((da - _dl c) * _w c)) in
    let left := if _q c <? left then _q c else left in
    on_sc e (fun c => set_dl da (set_left left c)) s.

(** ** [Sched_context::Ready_queue] *)

Definition ready_enqueue (e : Z) (s : t) : outcome t :=
  if in_ready_list (store s e) then Done s else enqueue e s.

Definition ready_dequeue (e : Z) (s : t) : outcome t :=
  if in_ready_list (store s e) then dequeue e s else Done s.

Definition dominated (by_ : option Z) (e : Z) (s : t) : bool :=
  match by_ with Some c => dominates (store s c) (store s e) | None => false end.

Definition deblock (e : Z) (crs : option Z) (lazy_q : bool) (s : t) : outcome (bool * t) :=
  let cs := current_sched s in
  let s' := if bool_decide (cs = Some e) then s else deblock_refill e s in
  let res :=
    if bool_decide (cs = Some e) then negb (dominated crs e s)
    else negb (dominated cs e s' || dominated crs e s') in
  if res && lazy_q then Done (true, s')
  else let* s' := ready_enqueue e s' in Done (res, s').

Definition switch_sched (from to : Z) (s : t) : outcome t :=
  let s := if bool_decide (current_sched s = Some from) then activate None s else s in
  let* s := if in_ready_list (store s from) then dequeue from s else Done s in
  enqueue to s.

(** [left]: what the timer of the time slice has left, [_q] is given when it has
    run out. *)
Definition set_current_sched (e : Z) (left : Z) (s : t) : t :=
  let s :=
    match current_sched s with
    | Some c => on_sc c (fun c => if 0 <? left then Sched_context.set_left left c else replenish c) s
    | None => s
    end in
  activate (Some e) s.

(** [Timeslice_timeout::expired] *)
Definition expired (s : t) : outcome t :=
  match current_sched s with
  | Some c => let* s := requeue c (on_sc c replenish s) in Done (activate None s)
  | None => Done s
  end.

(** [Sched::set_sched_params]; [ready]: the thread can run, [left] as above. *)
Definition set_sched_params `{Arch} (e : Z) (p : params) (ready : bool) (left : Z) (s : t) : outcome t :=
  let* s := ready_dequeue e s in
  let s := on_sc e (fun c => replenish (set p c)) s in
  let s := if bool_decide (current_sched s = Some e) then set_current_sched e left s else s in
  if ready then ready_enqueue e s else Done s.
End Ready_queue.
