(* ===== verification/WfqSpec.v ===== *)
(** The heap of [Wfq]: every operation keeps the slots and the links of the
    scheduling contexts in agreement, adds and removes exactly its context and ends;
    and the context chosen has the earliest deadline of those that are ready, as
    long as no removal and no change of the deadline of a queued context disturbs
    the heap ([orderly]).  Runs in which the code does so are exhibited. *)

From stdpp Require Import functions.
From S2P Require Import Prelude L4Types Outcome Wfq.
Import Wfq.Sched_context Wfq.Ready_queue.

(** * The slots *)

Definition at_slot (s : t) (k e : Z) : Prop := 0 <= k /\ _heap s !! Z.to_nat k = Some e.

(** What an operation on the heap leaves of a scheduling context. *)
Definition core (c : Sched_context.t) := (_idle c, _dl c, _left c, _q c, _w c, _qdw c).

(** Links and slots agree; [out] is a context that is being removed. *)
Record links (out : option Z) (s : t) : Prop := {
  l_cnt : 0 <= _cnt s <= Heap_size;
  l_len : length (_heap s) = Z.to_nat Heap_size;
  l_slot k e : 0 <= k < _cnt s -> at_slot s k e -> _ready_link (store s e) = Some k;
  l_link e k : Some e <> out -> _ready_link (store s e) = Some k ->
    (e = idle s /\ k = Idle_index) \/ (0 <= k < _cnt s /\ at_slot s k e);
  l_idle : _ready_link (store s (idle s)) = Some Idle_index }.

(** The contexts in the heap. *)
Definition members (s : t) (e : Z) : Prop := exists k, 0 <= k < _cnt s /\ at_slot s k e.

(** The heap has been rearranged and nothing else. *)
Record same (s s' : t) : Prop := {
  s_core e : core (store s' e) = core (store s e);
  s_cnt : _cnt s' = _cnt s;
  s_current : _current_sched s' = _current_sched s;
  s_idle : idle s' = idle s;
  s_members e : members s' e <-> members s e;
  s_out e : ~ members s e -> _ready_link (store s' e) = _ready_link (store s e) }.

Lemma heap_same_refl s : same s s.
Proof. by split. Qed.

Lemma same_trans s s' s'' : same s s' -> same s' s'' -> same s s''.
Proof.
  intros A B. split.
  - intros e. by rewrite (s_core _ _ B), (s_core _ _ A).
  - by rewrite (s_cnt _ _ B), (s_cnt _ _ A).
  - by rewrite (s_current _ _ B), (s_current _ _ A).
  - by rewrite (s_idle _ _ B), (s_idle _ _ A).
  - intros e. by rewrite (s_members _ _ B), (s_members _ _ A).
  - intros e He. rewrite (s_out _ _ B), (s_out _ _ A); [done | done |]. by rewrite (s_members _ _ A).
Qed.

Lemma dl_same s s' e : same s s' -> dl s' e = dl s e.
Proof. intros A. pose proof (s_core _ _ A e) as E. unfold core, dl in *. congruence. Qed.

Lemma at_slot_fun s k e e' : at_slot s k e -> at_slot s k e' -> e = e'.
Proof. intros [_ A] [_ B]. congruence. Qed.

Lemma slot_elem s k e : at_slot s k e -> elem k s = Done e.
Proof. intros [Hk He]. unfold elem. rewrite (proj2 (Z.leb_le _ _) Hk), He. done. Qed.

Lemma slot_exists out s k : links out s -> 0 <= k < Heap_size -> exists e, at_slot s k e.
Proof.
  intros L Hk. destruct (_heap s !! Z.to_nat k) as [e|] eqn:E; [exists e; split; [lia | done]|].
  apply lookup_ge_None in E. rewrite (l_len _ _ L) in E. unfold Heap_size in *. lia.
Qed.

Lemma heap_slot_inj out s k j e : links out s -> 0 <= k < _cnt s -> 0 <= j < _cnt s -> at_slot s k e -> at_slot s j e -> k = j.
Proof. intros L Hk Hj A B. pose proof (l_slot _ _ L k e Hk A). pose proof (l_slot _ _ L j e Hj B). congruence. Qed.

Lemma slot_not_idle out s k e : links out s -> 0 <= k < _cnt s -> at_slot s k e -> e <> idle s.
Proof.
  intros L Hk A ->. pose proof (l_slot _ _ L k _ Hk A) as E. rewrite (l_idle _ _ L) in E. injection E as E.
  unfold Idle_index in E. lia.
Qed.

(** * Swapping two slots *)

Lemma slot_insert (h : list Z) a b x y k e :
  0 <= a -> 0 <= b -> 0 <= k -> a <> b -> (Z.to_nat a < length h)%nat -> (Z.to_nat b < length h)%nat ->
  <[Z.to_nat b := x]> (<[Z.to_nat a := y]> h) !! Z.to_nat k = Some e <->
  if decide (k = b) then e = x else if decide (k = a) then e = y else h !! Z.to_nat k = Some e.
Proof.
  intros Ha Hb Hk Hn Ba Bb. repeat case_decide; subst.
  - rewrite list_lookup_insert_eq by (rewrite length_insert; lia). naive_solver.
  - rewrite list_lookup_insert_ne, list_lookup_insert_eq by lia. naive_solver.
  - rewrite !list_lookup_insert_ne by lia. done.
Qed.

Lemma swap_spec out s a b x y :
  links out s -> 0 <= a < _cnt s -> 0 <= b < _cnt s -> a <> b -> at_slot s a x -> at_slot s b y ->
  exists s', swap a b s = Done s' /\ links out s' /\ same s s' /\
    (forall k e, at_slot s' k e <-> if decide (k = b) then e = x else if decide (k = a) then e = y else at_slot s k e).
Proof.
  intros L Ha Hb Hn Ax Ay. unfold swap. rewrite (slot_elem _ _ _ Ax), (slot_elem _ _ _ Ay). cbn [obind].
  eexists. split; [done|]. set (s' := set_heap _ _).
  assert (Hx : x <> y) by (intros ->; by pose proof (heap_slot_inj _ _ _ _ _ L Ha Hb Ax Ay)).
  assert (Hlen := l_len _ _ L). assert (Hc := l_cnt _ _ L). unfold Heap_size in *.
  assert (Hs : forall k e, at_slot s' k e <-> if decide (k = b) then e = x else if decide (k = a) then e = y else at_slot s k e).
  { intros k e. unfold at_slot. unfold s'; cbn [on_sc set_heap _heap]. destruct (decide (0 <= k)) as [Hk|Hk].
    - rewrite slot_insert by lia. repeat case_decide; tauto.
    - rewrite !decide_False by lia. tauto. }
  assert (Hst : forall e, store s' e = if decide (e = y) then set_ready_link (Some a) (store s y)
      else if decide (e = x) then set_ready_link (Some b) (store s x) else store s e).
  { intros e. unfold s'. cbn. repeat case_decide; subst; rewrite ?fn_lookup_insert; [|by rewrite fn_lookup_insert_ne, fn_lookup_insert|].
    - by rewrite (fn_lookup_insert_ne _ x y).
    - by rewrite !fn_lookup_insert_ne. }
  assert (Hm : forall e, members s' e <-> members s e).
  { intros e. unfold members. cbn [_cnt s' set_heap on_sc]. split; intros [k [Hk Hke]].
    - rewrite Hs in Hke. repeat case_decide; subst; eauto.
    - destruct (decide (e = x)) as [->|]; [exists b; rewrite Hs, decide_True; done|].
      destruct (decide (e = y)) as [->|]; [exists a; rewrite Hs, decide_False, decide_True; done|].
      exists k. rewrite Hs, !decide_False; [done | |]; intros ->.
      + by apply (at_slot_fun s a e x) in Ax.
      + by apply (at_slot_fun s b e y) in Ay. }
  assert (Hix := slot_not_idle _ _ _ _ L Ha Ax). assert (Hiy := slot_not_idle _ _ _ _ L Hb Ay).
  split_and!; [| | done].
  - split.
    + done.
    + cbn. by rewrite !length_insert.
    + intros k e Hk Hke. apply Hs in Hke. rewrite Hst. destruct (decide (k = b)) as [->|].
      { subst e. rewrite decide_False by done. by rewrite decide_True. }
      destruct (decide (k = a)) as [->|]; [subst e; by rewrite decide_True|].
      assert (e <> y) by (intros ->; pose proof (heap_slot_inj _ _ _ _ _ L Hk Hb Hke Ay); done).
      assert (e <> x) by (intros ->; pose proof (heap_slot_inj _ _ _ _ _ L Hk Ha Hke Ax); done).
      rewrite !decide_False by done. by apply (l_slot _ _ L).
    + intros e k Ho. rewrite Hst. destruct (decide (e = y)) as [->|Ny]; [|destruct (decide (e = x)) as [->|Nx]]; cbn.
      * intros [= <-]. right. split; [done|]. apply Hs. rewrite decide_False by done. by rewrite decide_True.
      * intros [= <-]. right. split; [done|]. apply Hs. by rewrite decide_True.
      * intros Hl. destruct (l_link _ _ L e k Ho Hl) as [|[Hk Hke]]; [by left | right]. split; [done|]. apply Hs.
        destruct (decide (k = b)) as [->|]; [by destruct Ny; apply (at_slot_fun s b)|].
        destruct (decide (k = a)) as [->|]; [by destruct Nx; apply (at_slot_fun s a)|]. done.
    + rewrite Hst. cbn. rewrite !decide_False by done. apply (l_idle _ _ L).
  - split; try done.
    + intros e. rewrite Hst. repeat case_decide; subst; done.
    + intros e He. rewrite Hst, !decide_False; [done | |]; intros ->; apply He; [by exists a | by exists b].
Qed.

(** * The order *)

Definition parent (k : Z) : Z := (k - 1) / 2.

Lemma parent_spec k : 0 < k -> 0 <= parent k < k /\ (k = 2 * parent k + 1 \/ k = 2 * parent k + 2).
Proof. intros Hk. unfold parent. Z.to_euclidean_division_equations. lia. Qed.

(** The deadlines of the slots. *)
Definition key (s : t) (k : Z) : Z := match _heap s !! Z.to_nat k with Some e => dl s e | None => 0 end.

Lemma key_slot s k e : at_slot s k e -> key s k = dl s e.
Proof. intros [_ E]. unfold key. by rewrite E. Qed.

Definition heap_ordered (n : Z) (K : Z -> Z) : Prop := forall k, 0 < k < n -> K (parent k) <= K k.

(** The order but for the element of the slot [a] against its children, or against
    its parent. *)
Definition down_ok (n : Z) (K : Z -> Z) (a : Z) : Prop :=
  (forall k, 0 < k < n -> parent k <> a -> K (parent k) <= K k) /\
  (forall k, 0 < k < n -> parent k = a -> 0 < a -> K (parent a) <= K k).

Definition up_ok (n : Z) (K : Z -> Z) (a : Z) : Prop :=
  (forall k, 0 < k < n -> k <> a -> K (parent k) <= K k) /\
  (forall k, 0 < k < n -> parent k = a -> 0 < a -> K (parent a) <= K k).

Definition swapped (K : Z -> Z) (a b k : Z) : Z := if decide (k = b) then K a else if decide (k = a) then K b else K k.

Lemma ordered_ext n K K' : (forall k, 0 <= k -> K k = K' k) -> heap_ordered n K -> heap_ordered n K'.
Proof. intros E H k Hk. destruct (parent_spec k); [lia|]. rewrite <- !E by lia. by apply H. Qed.

Lemma down_ok_ext n K K' a : (forall k, 0 <= k -> K k = K' k) -> 0 <= a -> down_ok n K a -> down_ok n K' a.
Proof.
  intros E Ha [H1 H2]. split; intros k Hk ?; pose proof (parent_spec k ltac:(lia)).
  - rewrite <- !E by lia. by apply H1.
  - intros Hp. pose proof (parent_spec a Hp). rewrite <- !E by lia. by apply H2.
Qed.

Lemma up_ok_ext n K K' a : (forall k, 0 <= k -> K k = K' k) -> 0 <= a -> up_ok n K a -> up_ok n K' a.
Proof.
  intros E Ha [H1 H2]. split; intros k Hk ?; pose proof (parent_spec k ltac:(lia)).
  - rewrite <- !E by lia. by apply H1.
  - intros Hp. pose proof (parent_spec a Hp). rewrite <- !E by lia. by apply H2.
Qed.

Lemma down_leaf n K a : n <= 2 * a + 1 -> down_ok n K a -> heap_ordered n K.
Proof. intros Hn [H1 _] k Hk. destruct (parent_spec k); [lia|]. apply H1; lia. Qed.

(** [c] is the child with the earlier deadline. *)
Definition least_child (n : Z) (K : Z -> Z) (a c : Z) : Prop :=
  0 < c < n /\ parent c = a /\ forall k, 0 < k < n -> parent k = a -> K c <= K k.

Lemma down_stop n K a c : least_child n K a c -> K a <= K c -> down_ok n K a -> heap_ordered n K.
Proof.
  intros (Hc & Hp & Hl) Hk [H1 _] k Hkn. destruct (decide (parent k = a)) as [E|N]; [|by apply H1].
  rewrite E. specialize (Hl k Hkn E). lia.
Qed.

Lemma down_step n K a c : 0 <= a -> least_child n K a c -> K c <= K a -> down_ok n K a -> down_ok n (swapped K c a) c.
Proof.
  intros Ha (Hc & Hp & Hl) Hk [H1 H2]. pose proof (parent_spec c ltac:(lia)) as Hpc. unfold swapped. split.
  - intros k Hkn Hpk. pose proof (parent_spec k ltac:(lia)) as Hps. rewrite (decide_False (P := parent k = c)) by done.
    destruct (decide (parent k = a)) as [E|N].
    + rewrite (decide_False (P := k = a)) by lia. destruct (decide (k = c)) as [->|]; [done|]. by apply Hl.
    + destruct (decide (k = a)) as [->|]; [|destruct (decide (k = c)) as [->|]; [by rewrite Hp in N|]; by apply H1].
      apply H2; [done | done | lia].
  - intros k Hkn Hpk Hc0. pose proof (parent_spec k ltac:(lia)) as Hps.
    rewrite Hp, (decide_True (P := a = a)) by done. rewrite !decide_False by lia. rewrite <- Hpk. apply H1; [done | lia].
Qed.

Lemma up_root n K : up_ok n K 0 -> heap_ordered n K.
Proof. intros [H1 _] k Hk. apply H1; lia. Qed.

Lemma up_stop n K a : K (parent a) <= K a -> up_ok n K a -> heap_ordered n K.
Proof. intros Hk [H1 _] k Hkn. destruct (decide (k = a)) as [->|]; [done | by apply H1]. Qed.

Lemma up_step n K a : 0 < a < n -> K a <= K (parent a) -> up_ok n K a -> up_ok n (swapped K (parent a) a) (parent a).
Proof.
  intros Ha Hk [H1 H2]. pose proof (parent_spec a ltac:(lia)) as Hpa. unfold swapped. split.
  - intros k Hkn Hne. pose proof (parent_spec k ltac:(lia)) as Hpk. rewrite (decide_False (P := k = parent a)) by done.
    destruct (decide (k = a)) as [->|N].
    + rewrite (decide_True (P := parent a = parent a)), (decide_False (P := parent a = a)) by lia. done.
    + destruct (decide (parent k = a)) as [E|]; [apply H2; [done | done | lia]|].
      destruct (decide (parent k = parent a)) as [E|]; [|by apply H1]. specialize (H1 k Hkn N). rewrite E in H1. lia.
  - intros k Hkn Hpk Hp0. pose proof (parent_spec k ltac:(lia)) as Hpk'. pose proof (parent_spec (parent a) Hp0) as Hpp.
    rewrite (decide_False (P := parent (parent a) = a)), (decide_False (P := parent (parent a) = parent a)) by lia.
    rewrite (decide_False (P := k = parent a)) by lia. assert (Hpp' := H1 (parent a) ltac:(lia) ltac:(lia)).
    destruct (decide (k = a)); [done|]. specialize (H1 k Hkn n0). rewrite Hpk in H1. lia.
Qed.

Lemma ordered_least n K k : heap_ordered n K -> 0 <= k < n -> K 0 <= K k.
Proof.
  intros H. revert k. apply (well_founded_ind (Z.lt_wf 0) (fun k => 0 <= k < n -> K 0 <= K k)).
  intros k IH Hk. destruct (decide (k = 0)) as [->|]; [done|]. pose proof (parent_spec k ltac:(lia)).
  specialize (IH (parent k) ltac:(lia) ltac:(lia)). specialize (H k ltac:(lia)). lia.
Qed.

Lemma key_same s s' k : same s s' -> (forall e, at_slot s' k e <-> at_slot s k e) -> 0 <= k -> key s' k = key s k.
Proof.
  intros A H Hk. unfold key, at_slot in *. destruct (_heap s !! Z.to_nat k) as [e|] eqn:E.
  - destruct (proj2 (H e)) as [_ ->]; [done|]. by apply dl_same.
  - destruct (_heap s' !! Z.to_nat k) as [e|] eqn:E'; [|done]. by destruct (proj1 (H e)).
Qed.

Lemma swap_ok out s a b :
  links out s -> 0 <= a < _cnt s -> 0 <= b < _cnt s -> a <> b ->
  exists s', swap a b s = Done s' /\ links out s' /\ same s s' /\ forall k, 0 <= k -> swapped (key s) a b k = key s' k.
Proof.
  intros L Ha Hb Hn. pose proof (l_cnt _ _ L).
  destruct (slot_exists out s a) as [x Ax]; [done | lia|]. destruct (slot_exists out s b) as [y Ay]; [done | lia|].
  destruct (swap_spec out s a b x y) as (s' & E & L' & A & Hs); try done. exists s'. split_and!; try done.
  intros k Hk. symmetry. unfold swapped. rewrite (key_slot _ _ _ Ax), (key_slot _ _ _ Ay).
  destruct (decide (k = b)) as [->|Nb]; [|destruct (decide (k = a)) as [->|Na]].
  - rewrite <- (dl_same _ _ x A). apply key_slot, Hs. by rewrite decide_True.
  - rewrite <- (dl_same _ _ y A). apply key_slot, Hs. rewrite decide_False by done. by rewrite decide_True.
  - apply key_same; [done | | done]. intros e. rewrite Hs, !decide_False by done. done.
Qed.

(** * The loops *)

Lemma elem_key out s k : links out s -> 0 <= k < _cnt s -> exists e, elem k s = Done e /\ dl s e = key s k.
Proof.
  intros L Hk. pose proof (l_cnt _ _ L). destruct (slot_exists out s k) as [e A]; [done | lia|].
  exists e. by rewrite (slot_elem _ _ _ A), (key_slot _ _ _ A).
Qed.

(** What an operation leaves that rearranges the heap. *)
Definition rearranged (out : option Z) (s s' : t) : Prop := links out s' /\ same s s'.

Lemma heap_up_spec out n : forall a s, links out s -> 0 <= a < _cnt s -> a < 2 ^ Z.of_nat n ->
  exists s', heap_up n a s = Done s' /\ rearranged out s s' /\
    (up_ok (_cnt s) (key s) a -> heap_ordered (_cnt s) (key s')).
Proof.
  induction n as [|n IH]; intros a s L Ha Hf.
  - assert (a = 0) as -> by lia. exists s. cbn. split_and!; [done | by split; [|apply heap_same_refl] | apply up_root].
  - cbn [heap_up]. destruct (Z.ltb_spec 0 a).
    2: { assert (a = 0) as -> by lia. exists s. split_and!; [done | by split; [|apply heap_same_refl] | apply up_root]. }
    pose proof (parent_spec a ltac:(lia)) as Hp. change ((a - 1) / 2) with (parent a).
    destruct (elem_key out s (parent a) L ltac:(lia)) as (x & -> & Dx). destruct (elem_key out s a L Ha) as (y & -> & Dy).
    cbn [obind]. rewrite Dx, Dy. destruct (Z.ltb_spec (key s (parent a)) (key s a)).
    { exists s. split_and!; [done | by split; [|apply heap_same_refl] | apply up_stop; lia]. }
    destruct (swap_ok out s (parent a) a L ltac:(lia) Ha ltac:(lia)) as (s1 & -> & L1 & A1 & K1). cbn [obind].
    assert (Hc := s_cnt _ _ A1). rewrite Nat2Z.inj_succ, Z.pow_succ_r in Hf by lia.
    destruct (IH (parent a) s1 L1 ltac:(lia) ltac:(lia)) as (s' & -> & [L' A'] & Ho).
    exists s'. split_and!; [done | split; [done | by eapply same_trans]|]. intros Hup. rewrite <- Hc. apply Ho. rewrite Hc.
    eapply up_ok_ext; [exact K1 | lia|]. apply up_step; [lia | lia | done].
Qed.

Lemma heap_down_spec out n : forall a s, links out s -> 0 <= a < _cnt s -> _cnt s <= 2 ^ Z.of_nat n * (a + 1) ->
  exists s', heap_down (S n) a s = Done s' /\ rearranged out s s' /\
    (down_ok (_cnt s) (key s) a -> heap_ordered (_cnt s) (key s')).
Proof.
  induction n as [|n IH]; intros a s L Ha Hf; pose proof (l_cnt _ _ L) as Hc; unfold Heap_size in Hc;
    assert (W1 : wrap 32 (2 * a + 1) = 2 * a + 1) by (apply wrap_small; unfold in_range; lia);
    assert (W2 : wrap 32 (2 * a + 2) = 2 * a + 2) by (apply wrap_small; unfold in_range; lia);
    cbn [heap_down]; rewrite W1, W2; destruct (Z.leb_spec (_cnt s) (2 * a + 1)) as [Hl|Hl].
  1, 3: exists s; split_and!; [done | by split; [|apply heap_same_refl] | by apply down_leaf].
  { cbn in Hf. lia. }
  set (c := if _cnt s <=? 2 * a + 2 then 2 * a + 1 else if key s (2 * a + 2) <=? key s (2 * a + 1) then 2 * a + 2 else 2 * a + 1).
  assert (Hc1 : parent (2 * a + 1) = a) by (unfold parent; Z.to_euclidean_division_equations; lia).
  assert (Hc2 : parent (2 * a + 2) = a) by (unfold parent; Z.to_euclidean_division_equations; lia).
  assert (Hcc : c = 2 * a + 1 \/ c = 2 * a + 2) by (unfold c; repeat case_cmp; auto).
  assert (Hlc : least_child (_cnt s) (key s) a c).
  { split; [unfold c; repeat case_cmp; lia | split; [by destruct Hcc as [-> | ->]|]].
    intros k Hk Hpk. pose proof (parent_spec k ltac:(lia)) as [_ Hk']. rewrite Hpk in Hk'.
    unfold c. repeat case_cmp; destruct Hk' as [-> | ->]; lia. }
  assert (Hch : (if 2 * a + 2 <? _cnt s
      then let* y := elem (2 * a + 2) s in let* x := elem (2 * a + 1) s in
           Done (if dl s y <=? dl s x then 2 * a + 2 else 2 * a + 1)
      else Done (2 * a + 1)) = Done c).
  { unfold c. destruct (Z.ltb_spec (2 * a + 2) (_cnt s)).
    - destruct (elem_key out s (2 * a + 2) L ltac:(lia)) as (y & -> & Dy).
      destruct (elem_key out s (2 * a + 1) L ltac:(lia)) as (x & -> & Dx). cbn [obind]. rewrite Dx, Dy.
      by rewrite (proj2 (Z.leb_gt (_cnt s) (2 * a + 2))) by lia.
    - by rewrite (proj2 (Z.leb_le (_cnt s) (2 * a + 2))) by lia. }
  rewrite Hch. clear Hch. clearbody c. cbn [obind].
  destruct (elem_key out s a L Ha) as (x & -> & Dx). destruct (elem_key out s c L ltac:(destruct Hlc; lia)) as (y & -> & Dy).
  cbn [obind]. rewrite Dx, Dy. destruct (Z.leb_spec (key s a) (key s c)) as [Hk|Hk].
  { exists s. split_and!; [done | by split; [|apply heap_same_refl] | by apply (down_stop _ _ a c)]. }
  destruct (swap_ok out s c a L ltac:(destruct Hlc; lia) Ha ltac:(lia)) as (s1 & -> & L1 & A1 & K1). cbn [obind].
  assert (Hcn := s_cnt _ _ A1). rewrite Nat2Z.inj_succ, Z.pow_succ_r in Hf by lia.
  destruct (IH c s1 L1 ltac:(destruct Hlc; lia) ltac:(nia)) as (s' & E & [L' A'] & Ho).
  exists s'. split_and!; [exact E | split; [done | by eapply same_trans]|]. intros Hd. rewrite <- Hcn. apply Ho. rewrite Hcn.
  eapply down_ok_ext; [exact K1 | lia|]. apply down_step; [lia | done | lia | done].
Qed.

(** * The operations *)

Definition ordered (s : t) : Prop := heap_ordered (_cnt s) (key s).
Definition in_list (s : t) (e : Z) : Prop := in_ready_list (store s e) = true.

Lemma in_list_members s e : links None s -> in_list s e <-> e = idle s \/ members s e.
Proof.
  intros L. unfold in_list, in_ready_list. split.
  - destruct (_ready_link (store s e)) as [k|] eqn:E; [intros _|done].
    destruct (l_link _ _ L e k) as [[-> _]|[Hk A]]; [done | done | by left | right; by exists k].
  - intros [->|[k [Hk A]]]; [by rewrite (l_idle _ _ L) | by rewrite (l_slot _ _ L k e Hk A)].
Qed.

Lemma not_in_list s e : in_ready_list (store s e) = false <-> _ready_link (store s e) = None.
Proof. unfold in_ready_list. destruct (_ready_link (store s e)); naive_solver. Qed.

(** The result of an operation: [M] are the members afterwards. *)
Record effect (s s' : t) (M : Z -> Prop) : Prop := {
  e_links : links None s';
  e_core e : core (store s' e) = core (store s e);
  e_current : _current_sched s' = _current_sched s;
  e_idle : idle s' = idle s;
  e_members e : members s' e <-> M e }.

Lemma effect_refl s : links None s -> effect s s (members s).
Proof. intros L. by split. Qed.

Lemma rearranged_effect s s' : rearranged None s s' -> effect s s' (members s).
Proof. intros [L A]. split; [done | apply A..]. Qed.

Lemma dl_effect s s' M e : effect s s' M -> dl s' e = dl s e.
Proof. intros A. pose proof (e_core _ _ _ A e) as E. unfold core, dl in *. congruence. Qed.

Lemma enqueue_links s i : links None s -> _ready_link (store s i) = None -> _cnt s < Heap_size ->
  let s' := on_sc i (set_ready_link (Some (_cnt s))) (set_heap (<[Z.to_nat (_cnt s) := i]> (_heap s)) (set_cnt (_cnt s + 1) s)) in
  links None s' /\ (forall e, members s' e <-> e = i \/ members s e) /\
  (forall k e, 0 <= k < _cnt s -> at_slot s' k e <-> at_slot s k e).
Proof.
  intros L Hi Hc s'. pose proof (l_cnt _ _ L) as Hr. pose proof (l_len _ _ L) as Hl. unfold Heap_size in *.
  assert (Hs : forall k e, at_slot s' k e <-> if decide (k = _cnt s) then e = i else at_slot s k e).
  { intros k e. unfold at_slot, s'. cbn. case_decide as D.
    - subst k. rewrite list_lookup_insert_eq by lia. split; [naive_solver | intros ->; split; [lia | done]].
    - destruct (decide (0 <= k)); [rewrite list_lookup_insert_ne by lia; done | split; lia]. }
  assert (Hst : forall e, _ready_link (store s' e) = if decide (e = i) then Some (_cnt s) else _ready_link (store s e)).
  { intros e. unfold s'. cbn. case_decide; subst; [by rewrite fn_lookup_insert | by rewrite fn_lookup_insert_ne]. }
  assert (Hni : i <> idle s) by (intros ->; rewrite (l_idle _ _ L) in Hi; done).
  split_and!.
  - split.
    + unfold s'. cbn. unfold Heap_size. lia.
    + unfold s'. cbn. rewrite length_insert. exact Hl.
    + intros k e Hk A. apply Hs in A. rewrite Hst. unfold s' in Hk. cbn in Hk. destruct (decide (k = _cnt s)) as [->|N].
      * subst e. by rewrite decide_True.
      * assert (Hke := l_slot _ _ L k e ltac:(lia) A). rewrite decide_False; [done | intros ->; congruence].
    + intros e k _ E. rewrite Hst in E. unfold s'. cbn. case_decide as D.
      * injection E as <-. right. split; [lia|]. apply Hs. subst e. by rewrite decide_True.
      * destruct (l_link _ _ L e k) as [?|[Hk A]]; [done | done | by left | right]. split; [lia|]. apply Hs.
        rewrite decide_False by lia. done.
    + change (idle s') with (idle s). rewrite Hst, decide_False by done. apply (l_idle _ _ L).
  - intros e. unfold members, s'. cbn [_cnt on_sc set_heap set_cnt]. fold s'. split.
    + intros (k & Hk & A). apply Hs in A. case_decide; [by left|]. right. exists k. split; [lia | done].
    + intros [->|(k & Hk & A)]; [exists (_cnt s); rewrite Hs, decide_True by done; split; [lia | done]|].
      exists k. rewrite Hs, decide_False by lia. split; [lia | done].
  - intros k e Hk. rewrite Hs, decide_False by lia. done.
Qed.

Lemma key_ext s s' n : (forall e, dl s' e = dl s e) -> (forall k e, 0 <= k < n -> at_slot s' k e <-> at_slot s k e) ->
  forall k, 0 <= k < n -> key s' k = key s k.
Proof.
  intros Hd H k Hk. specialize (H k). unfold key, at_slot in *. destruct (_heap s !! Z.to_nat k) as [e|] eqn:E.
  - destruct (proj2 (H e Hk)) as [_ ->]; [split; [lia | done] | apply Hd].
  - destruct (_heap s' !! Z.to_nat k) as [e|] eqn:E'; [|done]. destruct (proj1 (H e Hk)); [split; [lia | done] | done].
Qed.

Lemma enqueue_spec s i : links None s ->
  match enqueue i s with
  | Done s' => effect s s' (fun e => members s e \/ e = i /\ i <> idle s) /\ (ordered s -> ordered s')
  | Fault => _cnt s = Heap_size
  | Diverge => False
  end.
Proof.
  intros L. unfold enqueue. destruct (in_ready_list (store s i)) eqn:E.
  { split; [|done]. split; try done. intros e. pose proof (proj1 (in_list_members s i L) E) as Hi. naive_solver. }
  apply not_in_list in E. pose proof (l_cnt _ _ L) as Hc.
  destruct (Z.leb_spec Heap_size (_cnt s)) as [Hle|Hlt]; [lia|].
  replace (wrap 32 (_cnt s + 1)) with (_cnt s + 1) by (symmetry; apply wrap_small; unfold in_range, Heap_size in *; lia).
  change (_heap (set_cnt (_cnt s + 1) s)) with (_heap s).
  destruct (enqueue_links s i L E Hlt) as (L1 & Hm & Hs).
  set (s1 := on_sc i _ _) in *.
  assert (Hni : i <> idle s) by (intros ->; rewrite (l_idle _ _ L) in E; done).
  assert (Hcn : _cnt s1 = _cnt s + 1) by done.
  destruct (heap_up_spec None Turns (_cnt s) s1 L1 ltac:(lia)) as (s' & -> & [L' A] & Ho).
  { change (2 ^ Z.of_nat Turns) with 65536. unfold Heap_size in *. lia. }
  assert (Hco : forall e, core (store s1 e) = core (store s e)).
  { intros e. unfold s1. cbn. destruct (decide (i = e)) as [->|N]; [by rewrite fn_lookup_insert | by rewrite fn_lookup_insert_ne]. }
  split.
  - split; [done | | by rewrite (s_current _ _ A) | by rewrite (s_idle _ _ A) |].
    + intros e. by rewrite (s_core _ _ A).
    + intros e. rewrite (s_members _ _ A), Hm. naive_solver.
  - intros Hord. unfold ordered. rewrite (s_cnt _ _ A). apply Ho. rewrite Hcn.
    assert (Hk : forall k, 0 <= k < _cnt s -> key s1 k = key s k).
    { apply key_ext; [|done]. intros e. specialize (Hco e). unfold core, dl in *. congruence. }
    split; intros k Hkn.
    + intros Hne. pose proof (parent_spec k ltac:(lia)). rewrite !Hk by lia. apply Hord. lia.
    + intros Hp. pose proof (parent_spec k ltac:(lia)). lia.
Qed.

(** The last context may take the place of [e]. *)
Definition fits (s : t) (e : Z) : Prop :=
  match _ready_link (store s e) with Some k => 0 < k -> key s (parent k) <= key s (_cnt s - 1) | None => True end.

Lemma swap_cnt a b n s : swap a b (set_cnt n s) = (let* s' := swap a b s in Done (set_cnt n s')).
Proof.
  unfold swap. change (elem a (set_cnt n s)) with (elem a s). change (elem b (set_cnt n s)) with (elem b s).
  destruct (elem a s); [|done..]. by destruct (elem b s).
Qed.

(** The context in the last slot is taken out of the heap. *)
Lemma drop_last s i : links None s -> 0 < _cnt s -> at_slot s (_cnt s - 1) i ->
  links (Some i) (set_cnt (_cnt s - 1) s) /\ (forall e, members (set_cnt (_cnt s - 1) s) e <-> members s e /\ e <> i).
Proof.
  intros L Hc Hi. pose proof (l_cnt _ _ L). split.
  - split; cbn; [lia | apply L | | | apply (l_idle _ _ L)].
    + intros k e Hk A. apply (l_slot _ _ L); [lia | exact A].
    + intros e k Hne E. destruct (l_link _ _ L e k) as [?|[Hk A]]; [done | done | by left | right]. split; [|exact A].
      destruct (decide (k = _cnt s - 1)) as [->|]; [|lia]. destruct Hne. f_equal. by eapply at_slot_fun.
  - intros e. unfold members. cbn. split.
    + intros (k & Hk & A). split; [exists k; split; [lia | exact A]|]. intros ->.
      pose proof (heap_slot_inj _ _ k (_cnt s - 1) i L ltac:(lia) ltac:(lia) A Hi). lia.
    + intros [(k & Hk & A) Hne]. exists k. split; [|exact A].
      destruct (decide (k = _cnt s - 1)) as [->|]; [|lia]. destruct Hne. by eapply at_slot_fun.
Qed.

(** Its link is cleared at the end. *)
Lemma clear_link s i : links (Some i) s -> ~ members s i -> i <> idle s ->
  let s' := on_sc i (set_ready_link None) s in
  links None s' /\ (forall e, members s' e <-> members s e) /\ (forall e, core (store s' e) = core (store s e)) /\
  (forall k, key s' k = key s k).
Proof.
  intros L Hm Hi s'.
  assert (Hst : forall e, store s' e = if decide (e = i) then set_ready_link None (store s i) else store s e).
  { intros e. unfold s'. cbn. case_decide; subst; [by rewrite fn_lookup_insert | by rewrite fn_lookup_insert_ne]. }
  assert (Hco : forall e, core (store s' e) = core (store s e)) by (intros e; rewrite Hst; case_decide; by subst).
  split_and!; [|done|done|].
  - split; [apply (l_cnt _ _ L) | apply (l_len _ _ L) | | |].
    + intros k e Hk A. rewrite Hst, decide_False; [by apply (l_slot _ _ L)|]. intros ->. apply Hm. by exists k.
    + intros e k _ E. rewrite Hst in E. case_decide; [done|]. apply (l_link _ _ L); [congruence | done].
    + rewrite Hst, decide_False; [apply (l_idle _ _ L) | done].
  - intros k. unfold key. cbn. destruct (_heap s !! Z.to_nat k); [|done]. specialize (Hco z). unfold core, dl in *. cbn in *. congruence.
Qed.

Lemma wrap_slot s k : links None s -> 0 <= k < _cnt s -> wrap 32 k = k.
Proof. intros L Hk. pose proof (l_cnt _ _ L). apply wrap_small. unfold in_range, Heap_size in *. lia. Qed.

Lemma dequeue_last s i : links None s -> 0 < _cnt s -> at_slot s (_cnt s - 1) i -> i <> idle s ->
  let s' := on_sc i (set_ready_link None) (set_cnt (_cnt s - 1) s) in
  effect s s' (fun e => members s e /\ e <> i) /\ (ordered s -> ordered s').
Proof.
  intros L Hc Hi Hid. destruct (drop_last s i L Hc Hi) as [L1 Hm].
  destruct (clear_link _ i L1) as (L2 & Hm2 & Hco & Hk); [rewrite Hm; tauto | done |]. split.
  - by split.
  - intros Ho k Hkn. rewrite !Hk. apply Ho. cbn in *. lia.
Qed.

Lemma dequeue_spec s i : links None s ->
  exists s', dequeue i s = Done s' /\ effect s s' (fun e => members s e /\ (e <> i \/ i = idle s)) /\
    (ordered s -> fits s i -> ordered s') /\ _cnt s' <= _cnt s.
Proof.
  intros L. assert (Hin := in_list_members s i L). unfold in_list, in_ready_list in Hin. unfold dequeue, fits.
  destruct (_ready_link (store s i)) as [k|] eqn:E.
  2: { exists s. split_and!; [done | | by intros | done]. split; try done. intros e. split; [|tauto]. intros He. split; [done|].
       left. intros ->. discriminate (proj2 Hin (or_intror He)). }
  destruct (Z.eqb_spec i (idle s)) as [->|Hid].
  { exists s. split_and!; [done | | by intros | done]. split; try done. intros e. tauto. }
  destruct (l_link _ _ L i k) as [[? _]|[Hk A]]; [done | done | done |].
  assert (Hc := l_cnt _ _ L). unfold Heap_size in Hc.
  rewrite (wrap_slot s k L Hk). replace (wrap 32 (_cnt s - 1)) with (_cnt s - 1) by (symmetry; apply wrap_small; unfold in_range; lia).
  change (_cnt (set_cnt (_cnt s - 1) s)) with (_cnt s - 1).
  assert (HM : forall s', effect s s' (fun e => members s e /\ e <> i) -> effect s s' (fun e => members s e /\ (e <> i \/ i = idle s))).
  { intros s' [H1 H2 H3 H4 H5]. split; try done. intros e. rewrite H5. tauto. }
  destruct (Z.eqb_spec k (_cnt s - 1)) as [->|Hn].
  { eexists. split; [done|]. destruct (dequeue_last s i L ltac:(lia) A Hid) as [He Ho]. split_and!; [by apply HM | auto | cbn; lia]. }
  destruct (slot_exists None s (_cnt s - 1) L) as [y Ay]; [unfold Heap_size; lia|].
  destruct (swap_spec None s k (_cnt s - 1) i y L Hk ltac:(lia) Hn A Ay) as (s1 & E1 & L1 & A1 & Hs).
  rewrite swap_cnt, E1. cbn [obind]. assert (Hc1 := s_cnt _ _ A1). rewrite <- Hc1.
  assert (Hl : at_slot s1 (_cnt s1 - 1) i) by (rewrite Hs, Hc1, decide_True; done).
  destruct (drop_last s1 i L1 ltac:(lia) Hl) as [L2 Hm2].
  set (s2 := set_cnt (_cnt s1 - 1) s1) in *. assert (Hc2 : _cnt s2 = _cnt s - 1) by (unfold s2; cbn; lia).
  destruct (heap_down_spec (Some i) 15 k s2 L2 ltac:(lia)) as (s3 & E3 & [L3 A3] & Ho3).
  { change (2 ^ Z.of_nat 15) with 32768. lia. }
  change (S 15) with Turns in E3. rewrite E3. cbn [obind]. eexists. split; [done|].
  assert (Hmi : ~ members s3 i) by (rewrite (s_members _ _ A3), Hm2; tauto).
  assert (Hi3 : idle s3 = idle s) by (rewrite (s_idle _ _ A3); apply (s_idle _ _ A1)).
  destruct (clear_link s3 i L3 Hmi) as (L4 & Hm4 & Hco & Hk4); [by rewrite Hi3|]. split_and!; [apply HM | | cbn; rewrite (s_cnt _ _ A3); lia].
  - split; [done | | by cbn; rewrite (s_current _ _ A3); apply (s_current _ _ A1) | done |].
    + intros e. rewrite Hco, (s_core _ _ A3). apply (s_core _ _ A1).
    + intros e. by rewrite Hm4, (s_members _ _ A3), Hm2, (s_members _ _ A1).
  - intros Hord Hf j Hj. cbn in Hj. rewrite !Hk4. revert j Hj. change (heap_ordered (_cnt s3) (key s3)).
    rewrite (s_cnt _ _ A3). apply Ho3. rewrite Hc2.
    assert (K2 : forall j, 0 <= j < _cnt s - 1 -> key s2 j = if decide (j = k) then key s (_cnt s - 1) else key s j).
    { intros j Hj. change (key s2 j) with (key s1 j). case_decide as D; [subst j|].
      - rewrite (key_slot _ _ _ Ay), <- (dl_same _ _ y A1). apply key_slot, Hs. rewrite decide_False by lia. by rewrite decide_True.
      - apply key_same; [done | | lia]. intros e. rewrite Hs, !decide_False by lia. done. }
    split; intros j Hj; pose proof (parent_spec j ltac:(lia)).
    + intros Hp. rewrite !K2 by lia. rewrite (decide_False (P := parent j = k)) by done. case_decide as D; [subst j; rewrite <- Hc1; apply Hf; lia|].
      apply Hord. lia.
    + intros Hp H0. pose proof (parent_spec k H0). rewrite !K2 by lia. rewrite !decide_False by lia.
      assert (Ha := Hord k ltac:(lia)). assert (Hb := Hord j ltac:(lia)). rewrite Hp in Hb. lia.
Qed.

Lemma ordered_down n K a : heap_ordered n K -> 0 <= a < n -> down_ok n K a.
Proof.
  intros H Ha. split; intros k Hk Hp; [by apply H|]. intros H0. pose proof (H a ltac:(lia)). pose proof (H k Hk) as Hb.
  rewrite Hp in Hb. lia.
Qed.

(** The index of the idle context is behind every heap. *)
Lemma heap_down_idle s : 0 <= _cnt s <= Heap_size -> heap_down Turns (wrap 32 Idle_index) s = Done s.
Proof.
  intros Hc. unfold Turns. cbn [heap_down]. change (wrap 32 (2 * wrap 32 Idle_index + 1)) with 4294967291.
  unfold Heap_size in Hc. rewrite (proj2 (Z.leb_le _ _)) by lia. done.
Qed.

Lemma effect_trans s s1 s2 M : effect s s1 M -> effect s1 s2 (members s1) -> effect s s2 M.
Proof.
  intros A B. split.
  - apply B.
  - intros e. by rewrite (e_core _ _ _ B), (e_core _ _ _ A).
  - by rewrite (e_current _ _ _ B), (e_current _ _ _ A).
  - by rewrite (e_idle _ _ _ B), (e_idle _ _ _ A).
  - intros e. by rewrite (e_members _ _ _ B), (e_members _ _ _ A).
Qed.

Lemma down_at s k : links None s -> 0 <= k < _cnt s ->
  exists s', heap_down Turns (wrap 32 k) s = Done s' /\ effect s s' (members s) /\ (down_ok (_cnt s) (key s) k -> ordered s').
Proof.
  intros L Hk. rewrite (wrap_slot s k L Hk). pose proof (l_cnt _ _ L) as Hc.
  destruct (heap_down_spec None 15 k s L Hk) as (s' & E & [L' A] & Ho).
  { change (2 ^ Z.of_nat 15) with 32768. unfold Heap_size in Hc. lia. }
  exists s'. split_and!; [done | by apply rearranged_effect |]. intros Hd. unfold ordered. rewrite (s_cnt _ _ A). by apply Ho.
Qed.

Lemma requeue_spec s i : links None s ->
  match requeue i s with
  | Done s' => effect s s' (fun e => members s e \/ e = i /\ i <> idle s) /\
      ((i = idle s \/ ~ members s i -> ordered s) ->
       (forall k, 0 <= k < _cnt s -> at_slot s k i -> down_ok (_cnt s) (key s) k) -> ordered s')
  | Fault => _cnt s = Heap_size
  | Diverge => False
  end.
Proof.
  intros L. unfold requeue. pose proof (in_list_members s i L) as Hin. unfold in_list in Hin.
  destruct (in_ready_list (store s i)) eqn:E.
  - cbn [obind]. destruct (proj1 Hin eq_refl) as [->|Hm].
    + rewrite (l_idle _ _ L). rewrite heap_down_idle by apply (l_cnt _ _ L). split; [split; try done; naive_solver | auto].
    + destruct Hm as (k & Hk & A). rewrite (l_slot _ _ L k i Hk A).
      destruct (down_at s k L Hk) as (s' & -> & He & Ho). split; [|auto].
      destruct He as [? ? ? ? Hm]. split; try done. intros e. rewrite Hm. split; [by left|].
      intros [|[-> _]]; [done | by exists k].
  - assert (Hni : i <> idle s) by (intros ->; apply not_in_list in E; by rewrite (l_idle _ _ L) in E).
    assert (Hnm : ~ members s i) by (intros Hm; by pose proof (proj2 Hin (or_intror Hm))).
    pose proof (enqueue_spec s i L) as Hen. destruct (enqueue i s) as [s1| |]; cbn [obind]; [|done..].
    destruct Hen as [He Ho]. assert (Hm : members s1 i) by (apply He; by right). destruct Hm as (k & Hk & A).
    assert (L1 := e_links _ _ _ He). rewrite (l_slot _ _ L1 k i Hk A).
    destruct (down_at s1 k L1 Hk) as (s' & -> & He' & Ho'). split; [by eapply effect_trans|].
    intros H1 _. apply Ho', ordered_down; [|done]. apply Ho, H1. by right.
Qed.

(** * Changes of a scheduling context *)

Lemma on_sc_links s c f : links None s -> (forall x, _ready_link (f x) = _ready_link x) ->
  links None (on_sc c f s) /\ (forall e, members (on_sc c f s) e <-> members s e) /\
  (~ members s c \/ _dl (f (store s c)) = _dl (store s c) -> ordered s -> ordered (on_sc c f s)).
Proof.
  intros L Hf.
  assert (Hst : forall e, _ready_link (store (on_sc c f s) e) = _ready_link (store s e)).
  { intros e. cbn. destruct (decide (c = e)) as [->|N]; [by rewrite fn_lookup_insert | by rewrite fn_lookup_insert_ne]. }
  split_and!.
  - split; [apply (l_cnt _ _ L) | apply (l_len _ _ L) | | |]; intros *; rewrite Hst;
      [apply (l_slot _ _ L) | apply (l_link _ _ L) | apply (l_idle _ _ L)].
  - done.
  - intros Hc Ho k Hk. assert (Hkey : forall j, 0 <= j < _cnt s -> key (on_sc c f s) j = key s j).
    { intros j Hj. unfold key, dl. cbn. destruct (_heap s !! Z.to_nat j) as [e|] eqn:E; [|done].
      destruct (decide (c = e)) as [->|N]; [|by rewrite fn_lookup_insert_ne].
      rewrite fn_lookup_insert. destruct Hc as [Hn|]; [|done]. destruct Hn. exists j. split; [done | split; [lia | done]]. }
    cbn in Hk. pose proof (parent_spec k ltac:(lia)). rewrite !Hkey by lia. by apply Ho.
Qed.

(** * The scheduler *)

Section scheduler.
Context `{Arch}.

Inductive event :=
  | Ready_enqueue (e : Z)
  | Ready_dequeue (e : Z)
  | Deblock (e : Z) (crs : option Z) (lazy_q : bool)
  | Switch (from to : Z)
  | Set_current (e rest : Z)
  | Expired
  | Set_params (e : Z) (p : params) (ready : bool) (rest : Z).

Definition step (ev : event) (s : t) : outcome t :=
  match ev with
  | Ready_enqueue e => ready_enqueue e s
  | Ready_dequeue e => ready_dequeue e s
  | Deblock e crs lazy_q => let* r := deblock e crs lazy_q s in Done (snd r)
  | Switch from to => switch_sched from to s
  | Set_current e rest => Done (set_current_sched e rest s)
  | Expired => expired s
  | Set_params e p ready rest => set_sched_params e p ready rest s
  end.

(** A context in the heap gets a later deadline only where it is moved down then,
    and only the last context that fits takes the place of one that is removed. *)
Definition orderly (ev : event) (s : t) : Prop :=
  match ev with
  | Ready_enqueue _ => True
  | Ready_dequeue e | Switch e _ | Set_params e _ _ _ => fits s e
  | Deblock e _ _ =>
      match _current_sched s with
      | Some c => c = e \/ in_ready_list (store s e) = false \/ e = idle s \/ dl s c <= dl s e
      | None => 0 <= dl s e
      end
  | Set_current _ rest =>
      match _current_sched s with
      | Some c => 0 < rest \/ in_ready_list (store s c) = false \/ c = idle s
      | None => True
      end
  | Expired =>
      match _current_sched s with
      | Some c => 0 <= _qdw (store s c) /\ 0 <= dl s c /\ dl s c + _qdw (store s c) < 2 ^ 64
      | None => True
      end
  end.

(** What every step keeps, and what an orderly one keeps. *)
Definition good (ord : Prop) (s s' : t) : Prop := links None s' /\ (ord -> ordered s -> ordered s') /\ idle s' = idle s.

Lemma good_refl (ord : Prop) s : links None s -> good ord s s.
Proof. intros L. by split_and!. Qed.

Lemma good_on_sc (ord : Prop) s c f : links None s -> (forall x, _ready_link (f x) = _ready_link x) ->
  (ord -> ~ members s c \/ _dl (f (store s c)) = _dl (store s c)) -> good ord s (on_sc c f s).
Proof. intros L Hf Hd. destruct (on_sc_links s c f L Hf) as (L' & _ & Ho). split_and!; [done | auto | done]. Qed.

Lemma good_trans (ord : Prop) s s1 s2 : good ord s s1 -> good ord s1 s2 -> good ord s s2.
Proof. intros (_ & A & I) (L & B & J). split_and!; [done | auto | congruence]. Qed.

Lemma not_member s e : links None s -> in_ready_list (store s e) = false \/ e = idle s -> ~ members s e.
Proof.
  intros L [E| ->] Hm.
  - pose proof (proj2 (in_list_members s e L) (or_intror Hm)) as Hi. unfold in_list in Hi. congruence.
  - destruct Hm as (k & Hk & A). by destruct (slot_not_idle _ _ _ _ L Hk A).
Qed.

Lemma good_activate (ord : Prop) s c : links None s -> good ord s (activate c s).
Proof. intros L. split_and!; try done. destruct L. by split. Qed.

Lemma enqueue_good (ord : Prop) s e : links None s ->
  match enqueue e s with Done s' => good ord s s' | Fault => _cnt s = Heap_size | Diverge => False end.
Proof.
  intros L. pose proof (enqueue_spec s e L) as He. destruct (enqueue e s); [|done..]. destruct He as [He Ho].
  split_and!; [apply He | auto | apply He].
Qed.

Lemma ready_enqueue_good (ord : Prop) s e : links None s ->
  match ready_enqueue e s with Done s' => good ord s s' | Fault => _cnt s = Heap_size | Diverge => False end.
Proof.
  intros L. unfold ready_enqueue. destruct (in_ready_list (store s e)); [by apply good_refl | by apply enqueue_good].
Qed.

Lemma dequeue_good s e : links None s ->
  exists s', dequeue e s = Done s' /\ good (fits s e) s s' /\ _cnt s' <= _cnt s /\ _current_sched s' = _current_sched s /\
    (~ members s' e).
Proof.
  intros L. destruct (dequeue_spec s e L) as (s' & E & He & Ho & Hc). exists s'. split_and!; try done; [| apply He |].
  - split_and!; [apply He | auto | apply He].
  - intros Hm. apply He in Hm as [Hm [|Hi]]; [done|]. by apply (not_member s e L); [right|].
Qed.

Lemma ready_dequeue_good s e : links None s ->
  exists s', ready_dequeue e s = Done s' /\ good (fits s e) s s' /\ _cnt s' <= _cnt s /\
    _current_sched s' = _current_sched s /\ (~ members s' e).
Proof.
  intros L. unfold ready_dequeue. destruct (in_ready_list (store s e)) eqn:E; [by apply dequeue_good|].
  exists s. split_and!; try done. apply not_member; [done | by left].
Qed.

Lemma set_current_good (ord : Prop) s e rest : links None s ->
  (ord -> match _current_sched s with Some c => 0 < rest \/ ~ members s c | None => True end) ->
  good ord s (set_current_sched e rest s).
Proof.
  intros L Hd. unfold set_current_sched, current_sched. destruct (_current_sched s) as [c|]; [|by apply good_activate].
  eapply good_trans; [|apply good_activate; apply on_sc_links; [done|]; intros x; by case_cmp].
  apply good_on_sc; [done | intros x; by case_cmp |]. intros Ho. destruct (Hd Ho) as [Hl|]; [right | by left].
  by rewrite (proj2 (Z.ltb_lt _ _)) by lia.
Qed.

Lemma refill_good (ord : Prop) s e : links None s ->
  (ord -> ~ members s e \/ match _current_sched s with Some c => dl s c | None => 0 end <= dl s e) ->
  good ord s (deblock_refill e s).
Proof.
  intros L Hd. unfold deblock_refill. change (_dl (store s e)) with (dl s e).
  destruct (Z.leb_spec (match _current_sched s with Some c => dl s c | None => 0 end) (dl s e)); [by apply good_refl|].
  apply good_on_sc; [done | done |]. intros Ho. destruct (Hd Ho); [by left | lia].
Qed.

Lemma expired_good s : links None s ->
  match expired s with Done s' => good (orderly Expired s) s s' | Fault => _cnt s = Heap_size | Diverge => False end.
Proof.
  intros L. unfold expired, current_sched, orderly. destruct (_current_sched s) as [c|]; [|by apply good_refl].
  destruct (on_sc_links s c replenish L ltac:(done)) as (L1 & Hm1 & Ho1). set (s1 := on_sc c replenish s) in *.
  pose proof (requeue_spec s1 c L1) as Hr. destruct (requeue c s1) as [s2| |]; cbn [obind]; [|done..].
  destruct Hr as [He Hq]. eapply good_trans; [|apply good_activate, He].
  split_and!; [apply He | | rewrite (e_idle _ _ _ He); done]. intros (Hw & Hd & Hlt) Hord. apply Hq.
  - intros [Hc|Hn]; apply Ho1; try done; left; [apply not_member; [done | right; exact Hc] | by rewrite <- Hm1].
  - intros k Hk A. assert (Hraise : dl s c <= dl s1 c).
    { unfold dl, s1. cbn. rewrite fn_lookup_insert. cbn. rewrite wrap_small; [lia|]. unfold in_range, dl in *. lia. }
    assert (Hkey : forall j, 0 <= j < _cnt s -> key s1 j = if decide (j = k) then dl s1 c else key s j).
    { intros j Hj. case_decide as D; [subst j; by apply key_slot|]. destruct (slot_exists None s j L) as [x Ax].
      { pose proof (l_cnt _ _ L). lia. }
      rewrite (key_slot _ _ _ Ax), (key_slot s1 j x Ax). unfold dl, s1. cbn. rewrite fn_lookup_insert_ne; [done|].
      intros <-. destruct D. by eapply (heap_slot_inj None s). }
    assert (Hkk : key s k = dl s c) by (apply key_slot; exact A).
    change (_cnt s1) with (_cnt s) in *. split; intros j Hj; pose proof (parent_spec j ltac:(lia)).
    + intros Hp. rewrite !Hkey by lia. rewrite (decide_False (P := parent j = k)) by done.
      assert (Hb := Hord j Hj). case_decide as D; [subst j; lia | done].
    + intros Hp H0'. pose proof (parent_spec k H0'). rewrite !Hkey by lia. rewrite !decide_False by lia.
      assert (Ha := Hord k ltac:(lia)). assert (Hb := Hord j Hj). rewrite Hp in Hb. lia.
Qed.

Lemma good_weaken (P Q : Prop) s s' : (Q -> P) -> good P s s' -> good Q s s'.
Proof. intros HPQ (A & B & C). split_and!; auto. Qed.

Lemma deblock_good s e crs lazy_q : links None s ->
  match step (Deblock e crs lazy_q) s with
  | Done s' => good (orderly (Deblock e crs lazy_q) s) s s' | Fault => _cnt s = Heap_size | Diverge => False end.
Proof.
  intros L. cbn [step orderly]. unfold deblock, current_sched.
  set (s1 := if bool_decide (_current_sched s = Some e) then s else deblock_refill e s).
  set (ord := match _current_sched s with Some _ => _ | None => _ end).
  assert (G : good ord s s1).
  { unfold s1, ord. case_bool_decide as D; [by apply good_refl|]. apply refill_good; [done|].
    destruct (_current_sched s) as [c|]; [|auto].
    intros [->|[?|[?|?]]]; [done | left; apply not_member; [done | by left] | left; apply not_member; [done | by right] | by right]. }
  assert (Hc : _cnt s1 = _cnt s).
  { unfold s1. case_bool_decide; [done|]. unfold deblock_refill. by case_match; case_match. }
  clearbody ord s1. destruct (_ && lazy_q); [exact G|].
  pose proof (ready_enqueue_good ord s1 e ltac:(apply G)) as Hr. destruct (ready_enqueue e s1); cbn [obind]; [|congruence|done].
  by eapply good_trans.
Qed.

Lemma switch_good s from to : links None s ->
  match switch_sched from to s with
  | Done s' => good (fits s from) s s' | Fault => _cnt s = Heap_size | Diverge => False end.
Proof.
  intros L. unfold switch_sched, current_sched.
  set (s0 := if bool_decide (_current_sched s = Some from) then activate None s else s).
  assert (G : good (fits s from) s s0 /\ (fits s from -> fits s0 from) /\ _cnt s0 = _cnt s).
  { unfold s0. case_bool_decide; (split; [first [by apply good_activate | by apply good_refl] | by split]). }
  clearbody s0. destruct G as (G & Hf & Hc).
  destruct (ready_dequeue_good s0 from ltac:(apply G)) as (s1 & E & G1 & Hc1 & _). unfold ready_dequeue in E. rewrite E. cbn [obind].
  pose proof (enqueue_good (fits s from) s1 to ltac:(apply G1)) as He. pose proof (l_cnt _ _ L).
  destruct (enqueue to s1); [|lia|done]. eapply good_trans; [exact G|]. eapply good_trans; [|exact He].
  by eapply good_weaken.
Qed.

Lemma set_params_good s e p ready rest : links None s ->
  match set_sched_params e p ready rest s with
  | Done s' => good (fits s e) s s' | Fault => _cnt s = Heap_size | Diverge => False end.
Proof.
  intros L. unfold set_sched_params. destruct (ready_dequeue_good s e L) as (s1 & -> & G1 & Hc1 & Hcu & Hm). cbn [obind].
  assert (L1 : links None s1) by apply G1.
  set (s2 := on_sc e (fun c => replenish (set p c)) s1).
  assert (G2 : good (fits s e) s1 s2) by (apply good_on_sc; auto).
  assert (Hm2 : ~ members s2 e) by exact Hm.
  assert (Hc2 : _cnt s2 = _cnt s1) by done. assert (Hcu2 : current_sched s2 = _current_sched s) by done. clearbody s2.
  set (s3 := if bool_decide (current_sched s2 = Some e) then set_current_sched e rest s2 else s2).
  assert (G3 : good (fits s e) s2 s3 /\ _cnt s3 = _cnt s2).
  { unfold s3. case_bool_decide as D; [|split; [apply good_refl, G2 | done]]. split.
    - apply set_current_good; [apply G2|]. intros _. unfold current_sched in D. rewrite D. by right.
    - unfold set_current_sched. by destruct (current_sched s2). }
  clearbody s3. destruct G3 as [G3 Hc3]. pose proof (l_cnt _ _ L).
  assert (G : good (fits s e) s s3) by (eapply good_trans; [exact G1 | eapply good_trans; [exact G2 | exact G3]]).
  destruct ready; [|exact G]. pose proof (ready_enqueue_good (fits s e) s3 e ltac:(apply G3)) as He.
  destruct (ready_enqueue e s3); [by eapply good_trans | lia | done].
Qed.

Lemma wfq_step_good ev s : links None s ->
  match step ev s with Done s' => good (orderly ev s) s s' | Fault => _cnt s = Heap_size | Diverge => False end.
Proof.
  intros L. destruct ev as [e|e|e crs lazy_q|from to|e rest| |e p ready rest].
  - by apply ready_enqueue_good.
  - cbn. by destruct (ready_dequeue_good s e L) as (s' & -> & G & _).
  - by apply deblock_good.
  - by apply switch_good.
  - cbn. apply set_current_good; [done|]. destruct (_current_sched s) as [c|]; [|done]. intros [?|Hn]; [by left | right].
    by apply not_member.
  - by apply expired_good.
  - by apply set_params_good.
Qed.

(** The queue of a CPU at boot: contexts that are in no list and the idle context. *)
Definition boot (st : Z -> Sched_context.t) (i : Z) : t := set_idle i (mk st (replicate 1024 0) 0 None 0).

Inductive reachable (st : Z -> Sched_context.t) (i : Z) : t -> Prop :=
  | reachable_boot : reachable st i (boot st i)
  | reachable_step ev s s' : reachable st i s -> orderly ev s -> step ev s = Done s' -> reachable st i s'.

Lemma boot_good st i : (forall e, _ready_link (st e) = None) -> links None (boot st i) /\ ordered (boot st i).
Proof.
  intros Hst. split.
  - split; cbn.
    + unfold Heap_size. lia.
    + done.
    + lia.
    + intros e k _. destruct (decide (i = e)) as [->|N]; [|by rewrite fn_lookup_insert_ne, Hst].
      rewrite fn_lookup_insert. cbn. intros [= <-]. by left.
    + by rewrite fn_lookup_insert.
  - intros k Hk. cbn in Hk. lia.
Qed.

(** The states that any operations lead to. *)
Inductive operated (st : Z -> Sched_context.t) (i : Z) : t -> Prop :=
  | operated_boot : operated st i (boot st i)
  | operated_step ev s s' : operated st i s -> step ev s = Done s' -> operated st i s'.

Lemma wfq_operated_links st i s : (forall e, _ready_link (st e) = None) -> operated st i s -> links None s.
Proof.
  intros Hst. induction 1 as [|ev s s' _ L Hs]; [by apply boot_good|].
  pose proof (wfq_step_good ev s L) as G. rewrite Hs in G. by destruct G.
Qed.

Lemma wfq_chooses s : links None s -> exists e s', next_to_run s = Done (e, s') /\
  (e = idle s /\ (forall c, in_list s c -> c = idle s) \/ in_list s e /\ e <> idle s).
Proof.
  intros L. unfold next_to_run. pose proof (l_cnt _ _ L). destruct (Z.eqb_spec (_cnt s) 0) as [E|E]; cbn [negb].
  - eexists _, _. split; [done|]. left. split; [done|]. intros c Hc.
    apply (in_list_members s c L) in Hc as [|(k & Hk & _)]; [done | lia].
  - destruct (slot_exists None s 0 L) as [e A]; [unfold Heap_size; lia|]. rewrite (slot_elem _ _ _ A). cbn [obind].
    exists e, s. split; [done|]. right. assert (Hk : 0 <= 0 < _cnt s) by lia.
    split; [apply in_list_members; [done|]; right; by exists 0 | by eapply slot_not_idle].
Qed.

Lemma wfq_first_least s e s' c : links None s -> ordered s -> next_to_run s = Done (e, s') -> in_list s c -> c <> idle s -> dl s e <= dl s c.
Proof.
  intros L O E Hc Hn. apply (in_list_members s c L) in Hc as [|(k & Hck & Ac)]; [done|].
  unfold next_to_run in E. destruct (Z.eqb_spec (_cnt s) 0) as [E0|_]; [lia|]. cbn [negb] in E.
  destruct (slot_exists None s 0 L) as [x A]; [pose proof (l_cnt _ _ L); unfold Heap_size; lia|].
  rewrite (slot_elem _ _ _ A) in E. injection E as -> _.
  rewrite <- (key_slot _ _ _ A), <- (key_slot _ _ _ Ac). by apply (ordered_least (_cnt s)).
Qed.

Lemma wfq_reachable_good st i s : (forall e, _ready_link (st e) = None) -> reachable st i s -> links None s /\ ordered s.
Proof.
  intros Hst. induction 1 as [|ev s s' _ [L O] Ho Hs]; [by apply boot_good|].
  pose proof (wfq_step_good ev s L) as G. rewrite Hs in G. destruct G as (L' & Ho' & _). split; [done | auto].
Qed.

(** C37: Whatever operations run on the queue of a CPU: no operation follows a
    wrong link or leaves the array, all loops end, only an array that is full stops
    the kernel, and the scheduler chooses a ready context, or the idle context only
    when no other is ready.  It chooses the one with the earliest deadline in every
    run in which no deadline overflows and no operation disturbs the heap from
    outside ([orderly]): the last context of the heap fits in the place of one that
    is removed, [set_current_sched] does not replenish a context that is queued, and
    [deblock] does not give one that is queued a later deadline.  The code does not
    ensure this ([wfq_dequeue_misorders], [wfq_replenish_misorders]). *)
Theorem wfq_earliest_first st i s : (forall e, _ready_link (st e) = None) ->
  (operated st i s -> (exists e s', next_to_run s = Done (e, s') /\
      (e = idle s /\ (forall c, in_list s c -> c = idle s) \/ in_list s e /\ e <> idle s)) /\
    (forall ev, match step ev s with Done _ => True | Fault => _cnt s = Heap_size | Diverge => False end)) /\
  (reachable st i s -> exists e s', next_to_run s = Done (e, s') /\
      (e = idle s /\ (forall c, in_list s c -> c = idle s) \/
       in_list s e /\ e <> idle s /\ forall c, in_list s c -> c <> idle s -> dl s e <= dl s c)).
Proof.
  intros Hst. split; [intros Hr; split|].
  - by apply wfq_chooses, (wfq_operated_links st i).
  - intros ev. pose proof (wfq_step_good ev s (wfq_operated_links st i s Hst Hr)) as G. by destruct (step ev s).
  - intros Hr. destruct (wfq_reachable_good st i s Hst Hr) as [L O].
    destruct (wfq_chooses s L) as (e & s' & E & Hch). exists e, s'. split; [exact E|].
    destruct Hch as [?|[Hin Hne]]; [by left | right]. split_and!; [done.. |]. intros c Hc Hn. by eapply wfq_first_least.
Qed.
End scheduler.

(** * Runs *)

Module Wfq_example.
#[local] Existing Instance arch64.

Fixpoint runs (evs : list event) (s : t) : outcome t :=
  match evs with
  | [] => Done s
  | ev :: evs => let* s := step ev s in runs evs s
  end.

#[local] Instance orderly_dec ev s : Decision (orderly ev s).
Proof.
  destruct ev; cbn; unfold fits; try apply _; destruct (_current_sched s); try apply _; destruct (_ready_link _); apply _.
Defined.

Fixpoint orderly_runs (evs : list event) (s : t) : outcome t :=
  match evs with
  | [] => Done s
  | ev :: evs => if decide (orderly ev s) then let* s := step ev s in orderly_runs evs s else Fault
  end.

Lemma wfq_runs_reachable st i evs : forall s s', reachable st i s -> orderly_runs evs s = Done s' -> reachable st i s'.
Proof.
  induction evs as [|ev evs IH]; intros s s' Hr; cbn [orderly_runs]; [by intros [= <-]|].
  destruct (decide (orderly ev s)); [|done]. destruct (step ev s) eqn:E; [|done..]. cbn [obind]. apply IH.
  by eapply reachable_step.
Qed.

(** Seven contexts with the deadlines 1, 4, 2, 5, 6, 7 and 3; context 0 is idle. *)
Definition deadline (e : Z) : Z := nth (Z.to_nat e) [0; 1; 4; 2; 5; 6; 7; 3] 0.
Definition contexts (e : Z) : Sched_context.t := Sched_context.mk None false (deadline e) 0 10 1 10.
Definition start : t := boot contexts 0.
Definition all_ready : list event := map (fun e => Ready_enqueue e) [1; 2; 3; 4; 5; 6; 7].

(** What is looked at: the context chosen, and the contexts in the heap. *)
Definition chosen (s : t) := match next_to_run s with Done (e, _) => Some e | _ => None end.
Definition heap (s : t) : list Z := take (Z.to_nat (_cnt s)) (_heap s).
Definition seen (m : outcome t) := match m with Done s => Some (chosen s, heap s) | _ => None end.

Lemma wfq_seen_some m x : seen m = Some x -> exists s, m = Done s /\ (chosen s, heap s) = x.
Proof. destruct m as [s| |]; [intros [= <-]; by exists s | done..]. Qed.

(** Context 1 becomes current, its time slice ends and it goes behind all others. *)
Definition slice_run : list event := all_ready ++ [Set_current 1 0; Expired; Ready_dequeue 3].

Lemma wfq_earliest_first_witness :
  exists s, orderly_runs slice_run start = Done s /\ (chosen s, heap s) = (Some 7, [7; 2; 6; 4; 5; 1]) /\
    exists e s', next_to_run s = Done (e, s') /\
      (e = idle s /\ (forall c, in_list s c -> c = idle s) \/
       in_list s e /\ e <> idle s /\ forall c, in_list s c -> c <> idle s -> dl s e <= dl s c).
Proof.
  destruct (wfq_seen_some (orderly_runs slice_run start) (Some 7, [7; 2; 6; 4; 5; 1])) as (s & E & Hs); [vm_compute; reflexivity|].
  exists s. split_and!; [exact E | exact Hs |].
  apply (proj2 (wfq_earliest_first contexts 0 s (fun _ => eq_refl))). eapply wfq_runs_reachable; [apply reachable_boot | exact E].
Defined.

(** Context 4 blocks: the last context, 7, takes its place below context 2, which
    has a later deadline, and stays there; when 1 and 3 have blocked, context 2 is
    chosen although context 7 has the earlier deadline. *)
Theorem wfq_dequeue_misorders :
  exists s, runs (all_ready ++ [Ready_dequeue 4; Ready_dequeue 1; Ready_dequeue 3]) start = Done s /\
    chosen s = Some 2 /\ heap s = [2; 7; 6; 5] /\ map (dl s) (heap s) = [4; 3; 7; 6].
Proof.
  destruct (wfq_seen_some (runs (all_ready ++ [Ready_dequeue 4; Ready_dequeue 1; Ready_dequeue 3]) start)
              (Some 2, [2; 7; 6; 5])) as (s & E & Hs); [vm_compute; reflexivity|].
  exists s. assert (H1 : chosen s = Some 2) by exact (f_equal fst Hs). assert (H2 : heap s = [2; 7; 6; 5]) by exact (f_equal snd Hs).
  split_and!; [exact E | exact H1 | exact H2 |]. rewrite H2.
  assert (Hd : match runs (all_ready ++ [Ready_dequeue 4; Ready_dequeue 1; Ready_dequeue 3]) start with
    | Done s => map (dl s) [2; 7; 6; 5] = [4; 3; 7; 6] | _ => False end) by (vm_compute; reflexivity).
  by rewrite E in Hd.
Qed.

(** Context 1 becomes current with its slice used up, then context 2: context 1
    gets its next slice, and with it the deadline 11, in its place at the top of
    the heap, and is chosen although all six others have earlier deadlines. *)
Theorem wfq_replenish_misorders :
  exists s, runs (all_ready ++ [Set_current 1 0; Set_current 2 0]) start = Done s /\
    chosen s = Some 1 /\ dl s 1 = 11 /\ in_ready_list (store s 3) = true /\ dl s 3 = 2.
Proof. eexists. split; [vm_compute; reflexivity|]. vm_compute. done. Qed.

(** A weight of 2^32 passes the check and becomes zero. *)
Theorem wfq_weight_truncated :
  let p := mk_params (L4_sched_param.mk (L4_cpu_set.mk 0 0) Class 48 0 0) 10 4294967296 in
  check_param 48 p = 0 /\ Sched_context._w (set p (contexts 1)) = 0.
Proof. vm_compute. done. Qed.
End Wfq_example.
